(* ===== verification/_CoqProject ===== *)
-Q . S2P
Prelude.v
RpcBudget.v
RpcSubscriberBudget.v
RpcAdmissionTracker.v
RpcLedger.v
RpcLedgerInv.v
RpcLedgerOps.v
RpcLedgerTrace.v
RpcLedgerFrame.v
RpcLedgerProps.v
UpdateTypes.v
UpdateStore.v
UpdateService.v
UpdateRecord.v
UpdateLog.v
UpdateProps.v
Stars.v
StarsProps.v
BulkScheduler.v
BulkProps.v
Wire.v
FrameBudget.v
Transport.v
TransportProps.v
Detection.v
DetectionProps.v
Admission.v
TrackedBudget.v
RpcDelivery.v
OutboundState.v
OutboundInv.v
OutboundActor.v
OutboundOps.v
OutboundWorld.v
OutboundProps.v
InboundViews.v
InboundViewProps.v
InboundState.v
InboundStateInv.v
InboundPreflight.v
InboundWalk.v
InboundProps.v
SessionIndex.v
SessionPending.v
Sessions.v
SessionRouting.v
SessionsInv.v
SessionsOps.v
SessionsTake.v
SessionsLeave.v
SessionsBind.v
SessionsRevoke.v
SessionsRoute.v
SessionWorld.v
SessionWorldInv.v
SessionProps.v
SessionRuns.v
Threads.v
SecretChat.v
SecretChatRpc.v
SecretChatInv.v
SecretChatServe.v
SecretChatProps.v
SecretChatRuns.v
MailTypes.v
MailStore.v
MailOps.v
MailInv.v
MailBoxes.v
MailSteps.v
MailWorld.v
MailReplay.v
MailDialogs.v
MailDialogSteps.v
MailProps.v
MailChangeProps.v
MailRuns.v
MailHistory.v
MailHistoryProps.v
MailSavedProps.v
