(* ===== verification/Prelude.v ===== *)
(** * gramsrv: a verification library

    gramsrv (src/) is a Telegram-compatible MTProto server in Go.  A client's
    socket is admitted and its wire mode detected at the edge
    ([internal/mtprotoedge]); the edge cuts the byte stream into frames,
    charges every frame to a process-wide budget before it allocates the
    payload, decrypts it, checks all of its messages against what the
    connection has accepted before any of them runs, and gives each RPC to the
    execution ledger, which lets one request id run once and replays its answer
    to duplicates.  Heavy file RPCs wait in the bulk scheduler.  Answers and
    updates leave through the outbox of their session, which keeps every
    message until the client acknowledges it.  Handlers ([internal/rpc]) call the
    application services ([internal/app]); the services keep state in stores
    ([internal/store]) and tell the other devices of an account about changes
    through the durable update log, which devices page through with
    [updates.getDifference].  The Stars service is the server's virtual-money
    ledger; secret chats are relayed between two devices without being read.
    Private messages live in one box per account, a copy on each side.

    ** What is modelled, and where

    - This file: runs that may panic ([Run]), int64 wrap-around, little-endian
      bytes, sharded maps, sums over finite maps ([msum]), list lemmas, the
      hint database [gram] and the tactics [int64], [lengths] and [run_inv].
    - RPC execution ledger ([rpc_execution_ledger.go], [rpc_flight.go],
      [rpc_execution_budget.go], [rpc_result_subscriber_budget.go],
      [rpc_admission_tracker.go]).  [RpcBudget] (Modules [FlightLimit],
      [FairBudget]), [RpcSubscriberBudget] and [RpcAdmissionTracker] are its
      counters, [RpcLedger] (Module [Ledger]) its state and every method; a
      critical section of a shard lock is one step, pointers to flights, leases
      and receipts are heap references, callbacks run after unlocking are
      returned as notices.  [RpcLedgerInv] is the state invariant,
      [RpcLedgerOps] what each step does under it, [RpcLedgerTrace] arbitrary
      interleavings of steps ([Trace]), [RpcLedgerFrame] what no step changes,
      [RpcLedgerProps] claims C1 to C5: no panic, at most one execution per
      request until something allows another, conservation of callbacks,
      entries and callbacks within capacity at every scope, termination of [acquire] (and, beside the
      claims, what completion publishes, the admission floor, exact session
      destruction and no false refusal).
    - Account updates ([domain/update_event.go], [store/memory/updates.go],
      [app/updates/service.go]).  [UpdateTypes] is the data; [UpdateStore] the
      in-memory event log (Module [MemoryEvents]) and device cursors
      ([MemoryStates]); [UpdateService] the service over any stores with the
      interfaces [UpdateEventStore] and [UpdateStateStore] (type classes);
      [UpdateRecord] its recorders; [UpdateLog] the contracts of an event log,
      read in pts order with or without holes (class [UpdateEventReads]) and
      recorded without holes ([UpdateEventLog]), and the service proved against
      them; [UpdateProps] discharges both for the memory store and states C34 to
      C37: differences skip nothing and stop at a hole, paging receives the
      gap-free part, recording allocates gap-free pts, cursors are independent of the order of commits (and, beside the
      claims, a device always holds a prefix of the log, monotone cursors,
      progress of a difference, the watermark scan, state bootstrap, idempotent
      publication and refused exclusions).
    - Stars ([domain/stars.go], [store/memory/stars.go],
      [app/stars/service.go]).  [Stars] is the cursor codec, the store (Module
      [StarsStore]) and the service ([StarsService]); [StarsProps] C38:
      balance equals the log (and, beside the claim, complete pagination, the
      cursor round trip, a single grant before the first debit, atomic debits
      and exact giveaway splits).
    - Bulk scheduler ([bulk_rpc_scheduler.go]).  [BulkScheduler] (Module
      [Bulk]) is the scheduler, leases and admissions; [BulkProps] runs any
      interleaving of tasks: no lost or doubled wakeup, bounded slots without
      leaks, first come first served.
    - The edge.  [Wire] is [io.Reader] as an interface ([Reader], with the
      contract [ByteStream]) and [io.ReadFull]; [FrameBudget] (Module [Frames])
      the frame budget and what connections and decoders hold of it
      ([frame_budget.go], [transport_compat.go], the budget calls of
      [encrypted.go]); [Transport] the codecs, the preflight reader and
      the receive path; [TransportProps] C39: exact accounting over all who draw
      on the budget (and, beside the claim, reserve before allocation); [Detection] (Module [Detect]) the detection of the wire
      mode and promotion ([transport_detection.go]); [DetectionProps] C40: the
      messages of a plain client whose codec opens with a header arrive in
      order (and, beside the claim,
      detection loses no byte); [Admission] connection and handshake quotas
      ([admission.go]), exact and bounded.
    - Outbound delivery ([outbound.go]).  [TrackedBudget] (Module [Tracked]) is
      a byte budget with its wake generations, at the level of single critical
      sections, and C9: no sleeping waiter while its request fits.
      [RpcDelivery] (Module [Delivery]) is the coordination of the attempts
      that deliver one RPC result and its hook, and C10.  [OutboundState]
      (Module [Outbound]) is the resend state of a session: retained frames,
      acknowledgements, the bulk ACK window, message ids; [OutboundInv] its
      invariant.  [OutboundActor] (Module [Actor]) is the operations of the
      per-connection actor and a world of several outboxes sharing three
      budgets, stepped in any interleaving ([wstep]); [OutboundOps] what each
      operation does, [OutboundWorld] the invariant of the world,
      [OutboundProps] C6 to C8: budgets exact and bounded, every charge that of
      the bytes kept, retention until
      acknowledgement, stable and rising message ids.
    - Inbound frames ([encrypted.go], [inbound_preflight.go]).  [InboundViews]
      (Module [Views]) is the zero-copy parsers and gzip expansion under the
      frame budget, [InboundViewProps] C15, their agreement with the wire
      format (and, beside the claim, that a decode makes the budget calls of its
      steps in [Frames.exec]).  [InboundState] (Module [Client]) is the connection's table of
      accepted messages and the overlay of one frame, [InboundStateInv] their
      invariants.  [InboundPreflight] (Module [Preflight]) is the walk of a
      frame, its plan and the frames of a session; [InboundWalk] what the walk
      keeps; [InboundProps] C11 to C14: no replay within the table, the table
      and its answers exact, the shape of a plan, no panic and no leaked charge.
    - Sessions ([session_manager.go], [logical_session.go], the lifecycle of
      [conn.go]).  [SessionIndex] (class [Ranges], Module [Index]) is maps of
      maps and the channel indexes with their caps; [SessionPending] (Module
      [Pending]) the pushes staged for sessions that are not ready, with their
      counted reservations; [Sessions] (Module [Manager]) connections, the
      registry, the claim protocol of a takeover, binding, revocation and
      logical sessions; [SessionRouting] (Module [Routing]) channel routing,
      online questions, readiness, staging and flushing.  [SessionsInv] is the
      registry invariant on the abstract view of connections, and [SessionsOps],
      [SessionsTake], [SessionsLeave], [SessionsBind], [SessionsRevoke] and
      [SessionsRoute] say what each operation does under it.  [SessionWorld]
      (Module [World]) puts connections, producers and flushes around the
      manager and runs any sequence of critical sections ([label], [exec]);
      [SessionWorldInv] is the invariant of those runs, [SessionProps] C16 to
      C20: indexes exact without panics, one owner per session, takeovers that
      fence and touch nobody else, revocation that closes exactly what uses the
      key, exact accounting of staged pushes (and,
      beside the claims, retention of logical sessions); [SessionRuns] concrete
      runs.
    - Secret chats ([domain/secretchat.go], [store/memory/secretchat.go],
      [app/secretchat], [rpc/encrypted_*.go]).  [Threads] is code over calls of
      shared stores, run together call by call, with a weakest precondition
      under interference.  [SecretChat] (Module [Secret]) is the data, the check
      of Diffie-Hellman parameters and the two stores; [SecretChatRpc] (Module
      [SecretRpc]) the service and its handlers as such code; [SecretChatInv] the
      invariant and the preorder every call follows, [SecretChatServe] the
      handlers under interference, [SecretChatProps] C21 to C24: the life of a
      chat, authentic messages with their files, complete catch-up,
      confidentiality of the established view (a push is recorded with the
      handler that made it); [SecretChatRuns] concrete runs, two of which show what
      the handlers' comments rule out.
    - Private messages ([store/memory/message_*.go], [album_group.go],
      [store/private_send_idempotency.go], [domain/message.go] and the reply and
      media types).  [MailTypes] (Module [Mail]) is the data; [MailStore] the
      state, the allocators, sending with its receipts, replies, forwarding,
      albums and content protection; [MailOps] editing, deleting, history
      clears, reading and pinning.  Every method is one function of the state;
      [MailWorld] runs them in any order and with any arguments.  [MailInv] is
      the invariant of the boxes, [MailBoxes] and [MailSteps] what each
      operation does to them, [MailReplay] the receipts, [MailDialogs] and
      [MailDialogSteps] the dialog list.  [MailProps] and [MailChangeProps] C25
      to C31: a send is accepted once, delivers one copy per side with all that
      was asked for, the copies of a message agree until a side clears its
      history, the dialog list counts the boxes (except for [Create], which
      leaves it to its caller), deletions and edits change exactly what they
      name, content protection is lifted only with authority; [MailRuns]
      concrete runs, two of which show defects.
      [MailHistory] (Module [History]) is the read side: the filters and pages
      of a history and the sub-chats of Saved Messages with their pins
      ([saved_dialog.go]).  [MailHistoryProps] C32: which messages
      a filter selects, and that a page is a window of them; [MailSavedProps] C33: paging through the sub-chats
      lists each once (and, beside the claim, what a pin switch and a reordering
      do), with runs that show two defects.

    ** Conventions

    Go's [int] and [int64] are integers of [Z]; where a value can leave the
    64-bit range the wrap-around is written out ([add64], [sub64], [wrap64]).
    Byte arrays that are only copied and compared (auth keys) are the integers
    they spell; other byte strings are lists of integers.  Mutexes make a
    critical section one step; a method with several critical sections is
    several steps, and the theorems quantify over every interleaving of them.
    A compare-and-swap loop is one step.  Clock readings, random bytes and the
    pieces a socket delivers are arguments.

    Loops are structural, or carry fuel that a theorem shows to be enough: two
    rounds for [acquire] (C5), one more than the number of distinct starts for
    [MaxContiguousPts] ([MaxContiguousPts_correct]), the requested length for [ReadFull]
    ([ReadFull_ok]), 20 digits for an int64 in [FormatInt], as many rounds as
    there are pending frames for a free message id ([nextFree_spec]), one more
    than the owners of a key for [evictLoop], which removes one per round
    ([evictLoop_ok]), the pages of a queue plus one for paging secret messages (C23),
    the full slices of a log plus two for [catchUp] (C35), one
    more than the sub-chats for [savedPages] (C33).
    [walkInbound] recurses on the wrapper depth the source allows, counted down
    from [maxDispatchDepth + 1]; reaching zero is the source's own error.

    ** What is not modelled

    Code outside src/ is a parameter: the td library's codecs, constructor ids,
    message-id clock and service decoders (classes [FrameIDs], [ServiceIDs],
    [MessageIDs], [ServiceCodec]), gzip and zlib readers ([Inflate]), the order
    in which Go ranges over a map ([RangeOrder], [Ranges]), [obfuscated2.Accept], the
    contents of encoded results and prepared request identities, the hash of
    the sharded maps, JSON and SHA-256 of send receipts ([Codec], with the laws
    [JsonReceipts]).  Not modelled at all: the RPC handlers and their TL
    encodings, PostgreSQL and Redis stores, the encryption layer, the
    negotiation of layer profiles, media storage, calls and the SFU, bots, the
    admin API and the command-line tools; the edge's send path beyond framing
    and the outbox, the choice between outbound queues, and deadlines; of the
    message store, reactions and polls. *)

From stdpp Require Export prelude gmap.
From Stdlib Require Export ZArith Lia.
#[global] Open Scope Z_scope.

(** ** Runs that may panic

    Go code that detects a broken ownership invariant panics.  A [Run] is the
    result of such a piece of code: a value, or the panic. *)

Inductive Run (A : Type) :=
| Done (a : A)
| Panicked.
Arguments Done {A} a.
Arguments Panicked {A}.

#[export] Instance run_ret : MRet Run := λ A a, Done a.
#[export] Instance run_bind : MBind Run := λ A B f m,
  match m with Done a => f a | Panicked => Panicked end.

(** Reading through a pointer: a nil or dangling pointer panics. *)
Definition deref {A} (o : option A) : Run A :=
  match o with Some a => Done a | None => Panicked end.

(** [panic_if b]: the [if b { panic(...) }] statements of the source. *)
Definition panic_if (b : bool) : Run unit :=
  if b then Panicked else Done tt.

Lemma deref_Some {A} (o : option A) a : o = Some a → deref o = Done a.
Proof. by intros ->. Qed.
Lemma panic_if_false b : b = false → panic_if b = Done tt.
Proof. by intros ->. Qed.
Lemma run_bind_Done {A B} (m : Run A) (f : A → Run B) b :
  (m ≫= f) = Done b → ∃ a, m = Done a ∧ f a = Done b.
Proof. destruct m; simpl; [eauto|done]. Qed.

(** Inverts a successful run: binds, guards and matches of the [Run] monad. *)
Ltac run_inv :=
  repeat match goal with
  | H : (_ ≫= _) = Done _ |- _ => apply run_bind_Done in H as (? & ? & H)
  | H : deref ?o = Done _ |- _ => destruct o eqn:?; simpl in H; [|discriminate H]
  | H : panic_if ?b = Done _ |- _ => destruct b eqn:?; simpl in H; [discriminate H|]
  | H : Done _ = Done _ |- _ => injection H; clear H; intros; subst
  | H : Panicked = Done _ |- _ => discriminate H
  | H : (let '(_, _) := ?x in _) = Done _ |- _ => destruct x eqn:?
  | H : (if ?b then _ else _) = Done _ |- _ => destruct b eqn:?
  | H : match ?o with Some _ => _ | None => _ end = Done _ |- _ => destruct o eqn:?
  end.

(** ** Machine integers *)

Definition i64_max : Z := 9223372036854775807.
Definition i64_min : Z := -9223372036854775808.
Definition u64_max : Z := 18446744073709551615.

(** Bits above a value are added to it. *)
Lemma lor_shiftl a c n : 0 ≤ n → 0 ≤ a < 2 ^ n → Z.lor a (Z.shiftl c n) = a + 2 ^ n * c.
Proof.
  intros Hn Ha. rewrite (Z.mul_comm (2 ^ n)). rewrite <-Z.shiftl_mul_pow2 by done. rewrite <-Z.add_lor_land.
  assert (Hz : Z.land a (Z.shiftl c n) = 0); [|lia]. apply Z.bits_inj'. intros i Hi.
  rewrite Z.land_spec, Z.bits_0. destruct (decide (i < n)) as [Hlt|Hge].
  - by rewrite Z.shiftl_spec_low, andb_false_r.
  - rewrite <-(Z.mod_small a (2 ^ n)) by done. by rewrite Z.mod_pow2_bits_high by lia.
Qed.

(** Two's complement wrap-around of Go's [int64] and (on the 64-bit targets the
    server is built for) [int]. *)
Definition wrap64 (z : Z) : Z :=
  (z + 9223372036854775808) mod 18446744073709551616 - 9223372036854775808.
(** The same for [int32] (sequence numbers, TL integers). *)
Definition wrap32 (z : Z) : Z := (z + 2147483648) mod 4294967296 - 2147483648.
Definition add64 (a b : Z) : Z := wrap64 (a + b).
Definition sub64 (a b : Z) : Z := wrap64 (a - b).

(** Closes the range conditions of machine arithmetic. *)
Ltac int64 := unfold i64_min, i64_max in *; lia.

Lemma wrap64_small z : i64_min ≤ z ≤ i64_max → wrap64 z = z.
Proof.
  unfold i64_min, i64_max, wrap64. intros ?. rewrite Z.mod_small; lia.
Qed.
Lemma wrap64_range z : i64_min ≤ wrap64 z ≤ i64_max.
Proof.
  unfold i64_min, i64_max, wrap64.
  pose proof (Z.mod_pos_bound (z + 9223372036854775808) 18446744073709551616).
  lia.
Qed.
Lemma add64_small a b : i64_min ≤ a + b ≤ i64_max → add64 a b = a + b.
Proof. apply wrap64_small. Qed.
Lemma sub64_small a b : i64_min ≤ a - b ≤ i64_max → sub64 a b = a - b.
Proof. apply wrap64_small. Qed.

(** The first [n] bytes of an integer, least significant first
    ([binary.LittleEndian.PutUint64] for [n = 8]; a fixed array of [n] bytes
    that is only copied and compared is kept as the integer it spells). *)
Fixpoint le_bytes (n : nat) (z : Z) : list Z :=
  match n with
  | O => []
  | S n => (z mod 256) :: le_bytes n (z / 256)
  end.

(** The integer a list of bytes spells, least significant first
    ([binary.LittleEndian.Uint32] on four bytes). *)
Fixpoint le_value (bs : list Z) : Z :=
  match bs with
  | [] => 0
  | b :: bs => b + 256 * le_value bs
  end.

Lemma length_le_bytes n z : length (le_bytes n z) = n.
Proof. revert z. induction n; simpl; auto. Qed.

Lemma le_value_le_bytes n z : le_value (le_bytes n z) = z mod 256 ^ Z.of_nat n.
Proof.
  revert z. induction n as [|n IH]; intros z; simpl le_bytes; simpl le_value.
  { by rewrite Z.mod_1_r. }
  rewrite IH, Nat2Z.inj_succ, Z.pow_succ_r by lia.
  rewrite Z.rem_mul_r by lia. lia.
Qed.

Definition is_byte (b : Z) : Prop := 0 ≤ b < 256.

Lemma le_bytes_bytes n z : Forall is_byte (le_bytes n z).
Proof.
  revert z. induction n as [|n IH]; intros z; simpl; constructor; [|done].
  apply Z.mod_pos_bound. lia.
Qed.
Lemma le_value_le_bytes_small n z : 0 ≤ z < 256 ^ Z.of_nat n → le_value (le_bytes n z) = z.
Proof. intros Hz. rewrite le_value_le_bytes. by apply Z.mod_small. Qed.

Lemma le_value_range bs : Forall is_byte bs → 0 ≤ le_value bs < 256 ^ Z.of_nat (length bs).
Proof.
  induction 1 as [|b bs Hb _ IH]; simpl le_value.
  { simpl. lia. }
  cbn [length]. rewrite Nat2Z.inj_succ, Z.pow_succ_r by lia. unfold is_byte in Hb. lia.
Qed.

(** ** Automation

    [gram] rewrites the lengths of byte strings and resolves facts about bytes;
    [lengths] closes goals about them. *)

Create HintDb gram.
#[export] Hint Rewrite @length_app @length_take @length_drop @length_replicate length_le_bytes : gram.
#[export] Hint Resolve le_bytes_bytes Forall_app_2 Forall_take Forall_drop : gram.
Ltac lengths := autorewrite with gram in *; simpl in *; lia.

(** ** Sharded maps

    The source splits its hot maps over a power-of-two number of shards picked
    by a seeded hash of the key.  [sm_lookup h m k] is [shards[h k].m[k]]. *)

Section sharded.
Context {K V : Type} `{Countable K} (h : K → Z).
Implicit Types (m : Z → gmap K V) (k : K) (v : V).

Definition sm_lookup m k : option V := m (h k) !! k.
Definition sm_insert k v m : Z → gmap K V :=
  λ i, if decide (i = h k) then <[k:=v]> (m i) else m i.
Definition sm_delete k m : Z → gmap K V :=
  λ i, if decide (i = h k) then delete k (m i) else m i.

Lemma sm_lookup_insert k k' v m :
  sm_lookup (sm_insert k v m) k' = if decide (k = k') then Some v else sm_lookup m k'.
Proof.
  unfold sm_lookup, sm_insert. repeat case_decide; simplify_eq; auto.
  - by rewrite lookup_insert_eq.
  - by rewrite lookup_insert_ne.
Qed.
Lemma sm_lookup_delete k k' m :
  sm_lookup (sm_delete k m) k' = if decide (k = k') then None else sm_lookup m k'.
Proof.
  unfold sm_lookup, sm_delete. repeat case_decide; simplify_eq; auto.
  - by rewrite lookup_delete_eq.
  - by rewrite lookup_delete_ne.
Qed.
End sharded.

(** ** Sums over finite maps

    Every counter of the program is, by invariant, a sum over the objects that
    hold a share of it. *)

Section msum.
Context {K V : Type} `{Countable K}.
Implicit Types (m : gmap K V) (k : K) (v : V) (g : K → V → Z).

Definition msum g m : Z := map_fold (λ k v acc, g k v + acc) 0 m.

Lemma msum_empty g : msum g ∅ = 0.
Proof. apply map_fold_empty. Qed.
Lemma msum_insert g m k v : m !! k = None → msum g (<[k:=v]> m) = g k v + msum g m.
Proof. intros ?. unfold msum. rewrite map_fold_insert_L; [done|intros; lia|done]. Qed.
Lemma msum_delete g m k v : m !! k = Some v → msum g (delete k m) = msum g m - g k v.
Proof.
  intros Hk. rewrite <-(insert_delete_id m k v Hk) at 2.
  rewrite msum_insert by apply lookup_delete_eq. lia.
Qed.
Lemma msum_update g m k v v' :
  m !! k = Some v → msum g (<[k:=v']> m) = msum g m - g k v + g k v'.
Proof.
  intros Hk. rewrite <-insert_delete_eq, msum_insert by apply lookup_delete_eq.
  rewrite (msum_delete _ _ _ _ Hk). lia.
Qed.
Lemma msum_nonneg g m : (∀ k v, m !! k = Some v → 0 ≤ g k v) → 0 ≤ msum g m.
Proof.
  induction m as [|k v m Hk IH] using map_ind; intros Hg.
  { by rewrite msum_empty. }
  rewrite msum_insert by done.
  assert (0 ≤ g k v) by (apply Hg, lookup_insert_eq).
  enough (0 ≤ msum g m) by lia. apply IH. intros k' v' Hk'. apply Hg.
  rewrite lookup_insert_ne; congruence.
Qed.
Lemma msum_le g1 g2 m :
  (∀ k v, m !! k = Some v → g1 k v ≤ g2 k v) → msum g1 m ≤ msum g2 m.
Proof.
  induction m as [|k v m Hk IH] using map_ind; intros Hg.
  { by rewrite !msum_empty. }
  rewrite !msum_insert by done.
  assert (g1 k v ≤ g2 k v) by (apply Hg, lookup_insert_eq).
  enough (msum g1 m ≤ msum g2 m) by lia. apply IH. intros k' v' Hk'. apply Hg.
  rewrite lookup_insert_ne; congruence.
Qed.
Lemma msum_ext g1 g2 m :
  (∀ k v, m !! k = Some v → g1 k v = g2 k v) → msum g1 m = msum g2 m.
Proof. intros Hg. apply Z.le_antisymm; apply msum_le; intros; rewrite (Hg k v); done. Qed.
Lemma msum_lookup_le g m k v :
  (∀ k v, m !! k = Some v → 0 ≤ g k v) → m !! k = Some v → g k v ≤ msum g m.
Proof.
  intros Hg Hk. rewrite <-(insert_delete_id m k v Hk), msum_insert by apply lookup_delete_eq.
  enough (0 ≤ msum g (delete k m)) by lia. apply msum_nonneg.
  intros k' v' [_ ?]%lookup_delete_Some; eauto.
Qed.
Lemma msum_subseteq g m m' :
  (∀ k v, m' !! k = Some v → 0 ≤ g k v) → m ⊆ m' → msum g m ≤ msum g m'.
Proof.
  revert m'. induction m as [|k v m Hk IH] using map_ind; intros m' Hg Hsub.
  { rewrite msum_empty. by apply msum_nonneg. }
  assert (Hk' : m' !! k = Some v) by (eapply lookup_weaken; [apply lookup_insert_eq|done]).
  rewrite msum_insert by done. specialize (IH (delete k m')).
  rewrite (msum_delete _ _ _ _ Hk') in IH.
  assert (msum g m ≤ msum g m' - g k v); [|lia]. apply IH.
  - intros k' v' [_ ?]%lookup_delete_Some; eauto.
  - apply map_subseteq_spec. intros k' v' Hk''. apply lookup_delete_Some.
    split; [congruence|]. eapply lookup_weaken; [|done]. rewrite lookup_insert_ne; congruence.
Qed.
Lemma msum_size m : msum (λ _ _, 1) m = Z.of_nat (size m).
Proof.
  induction m as [|k v m Hk IH] using map_ind.
  { by rewrite msum_empty, map_size_empty. }
  rewrite msum_insert, map_size_insert_None, IH by done. lia.
Qed.
Lemma msum_zero g m : (∀ k v, m !! k = Some v → g k v = 0) → msum g m = 0.
Proof.
  intros Hg. rewrite (msum_ext g (λ _ _, 0)) by done.
  clear. induction m as [|k v m Hk IH] using map_ind.
  { apply msum_empty. } rewrite msum_insert by done. lia.
Qed.
End msum.

Lemma msum_fmap {K V W} `{Countable K} (g : K → W → Z) (f : V → W) (m : gmap K V) :
  msum g (f <$> m) = msum (λ k v, g k (f v)) m.
Proof.
  induction m as [|k v m Hk IH] using map_ind; [by rewrite fmap_empty, !msum_empty|].
  rewrite fmap_insert, !msum_insert, IH; [done|done|by rewrite lookup_fmap, Hk].
Qed.

(** The 0/1 value of a decidable condition, for counting with [msum]. *)
Definition ind (P : Prop) `{Decision P} : Z := if decide P then 1 else 0.
Lemma ind_true (P : Prop) `{Decision P} : P → ind P = 1.
Proof. intros. unfold ind. by case_decide. Qed.
Lemma ind_false (P : Prop) `{Decision P} : ¬ P → ind P = 0.
Proof. intros. unfold ind. by case_decide. Qed.
Lemma ind_range (P : Prop) `{Decision P} : 0 ≤ ind P ≤ 1.
Proof. unfold ind. case_decide; lia. Qed.

(** ** Lists *)

Lemma list_filter_id {A} (P : A → Prop) `{∀ x, Decision (P x)} (l : list A) :
  (∀ x, x ∈ l → P x) → filter P l = l.
Proof.
  induction l as [|x l IH]; intros HP; [done|].
  rewrite filter_cons_True by (apply HP; set_solver). f_equal. apply IH. set_solver.
Qed.
Lemma list_filter_nil {A} (P : A → Prop) `{∀ x, Decision (P x)} (l : list A) :
  (∀ x, x ∈ l → ¬ P x) → filter P l = [].
Proof.
  induction l as [|x l IH]; intros HP; [done|].
  rewrite filter_cons_False by (apply HP; set_solver). apply IH. set_solver.
Qed.
Lemma elem_of_take {A} (x : A) n (l : list A) : x ∈ take n l → x ∈ l.
Proof. intros Hx. rewrite <-(take_drop n l). apply elem_of_app. by left. Qed.
Lemma find_app {A} (f : A → bool) (l l' : list A) :
  List.find f (l ++ l') = match List.find f l with Some x => Some x | None => List.find f l' end.
Proof. induction l as [|x l IH]; simpl; [done|]. by destruct (f x). Qed.
Lemma last_drop_Some {A} n (l : list A) x : last (drop n l) = Some x → last l = Some x.
Proof.
  intros [l1 Heq]%last_Some. apply last_Some. exists (take n l ++ l1).
  by rewrite <-app_assoc, <-Heq, take_drop.
Qed.

(** ** Rings

    A full slice overwritten at a moving head is a queue: [ring h l] lists it
    from the oldest entry to the newest. *)

Definition ring {A} (h : nat) (l : list A) : list A := drop h l ++ take h l.

Lemma ring_0 {A} (l : list A) : ring 0 l = l.
Proof. unfold ring. simpl. apply app_nil_r. Qed.
Lemma length_ring {A} h (l : list A) : length (ring h l) = length l.
Proof. unfold ring. rewrite length_app, length_drop, length_take. lia. Qed.
Lemma ring_Permutation {A} h (l : list A) : ring h l ≡ₚ l.
Proof. unfold ring. rewrite Permutation_app_comm. by rewrite take_drop. Qed.
Lemma elem_of_ring {A} h (l : list A) x : x ∈ ring h l ↔ x ∈ l.
Proof. by rewrite ring_Permutation. Qed.

(** The entry at the head is the oldest; writing there and moving the head
    drops it and appends the new one. *)
Lemma ring_head {A} h (l : list A) x : l !! h = Some x → ring h l = x :: drop 1 (ring h l).
Proof. intros Hx. unfold ring. rewrite (drop_S l x h Hx). done. Qed.
Lemma ring_push {A} h (l : list A) y :
  (h < length l)%nat → ring ((h + 1) mod length l) (<[h := y]> l) = drop 1 (ring h l) ++ [y].
Proof.
  intros Hh. destruct (lookup_lt_is_Some_2 l h Hh) as [x Hx]. unfold ring at 2. rewrite (drop_S l x h Hx). simpl.
  assert (Hins : <[h := y]> l = take h l ++ y :: drop (S h) l) by by apply insert_take_drop.
  assert (Hlen : length (take h l) = h) by (rewrite length_take; lia).
  rewrite Hins. unfold ring. destruct (decide (S h = length l)) as [Heq|Hne].
  - replace ((h + 1) mod length l)%nat with 0%nat by (replace (h + 1)%nat with (length l) by lia; by rewrite Nat.Div0.mod_same).
    rewrite Heq, drop_all. simpl. by rewrite app_nil_r.
  - rewrite Nat.mod_small by lia. replace (h + 1)%nat with (S h) by lia.
    rewrite (drop_app_ge _ _ (S h)), (take_app_ge _ _ (S h)) by lia. rewrite Hlen.
    replace (S h - h)%nat with 1%nat by lia. simpl. rewrite drop_0, take_0. by rewrite drop_0, <-app_assoc.
Qed.

(** The last [n] entries. *)
Definition lastn {A} (n : nat) (l : list A) : list A := drop (length l - n) l.
Lemma lastn_all {A} n (l : list A) : (length l ≤ n)%nat → lastn n l = l.
Proof. intros. unfold lastn. by replace (length l - n)%nat with 0%nat by lia. Qed.
Lemma lastn_snoc {A} n (l : list A) x : (length l = n)%nat → (0 < n)%nat → lastn n (l ++ [x]) = drop 1 l ++ [x].
Proof.
  intros Hl Hn. unfold lastn. rewrite length_app. simpl. replace (length l + 1 - n)%nat with 1%nat by lia.
  apply drop_app_le. lia.
Qed.

(** A slice that fills up to [cap] and is then overwritten in a circle, with
    the set of its elements beside it. *)
Record RingInv (cap : nat) (ak : gset Z) (ao : list Z) (h : nat) : Prop := {
  ri_set id : id ∈ ak ↔ id ∈ ao;
  ri_nodup : NoDup ao;
  ri_len : (length ao ≤ cap)%nat;
  ri_head : (length ao < cap)%nat → h = 0%nat;
  ri_bound : (h < cap)%nat;
}.

Lemma ring_append cap ak ao h id :
  RingInv cap ak ao h → id ∉ ak → (length ao < cap)%nat →
  RingInv cap ({[ id ]} ∪ ak) (ao ++ [id]) h ∧ ring h (ao ++ [id]) = lastn cap (ring h ao ++ [id]).
Proof.
  intros [Hset Hnd Hlen Hh Hb] Hin Hlt. assert (Hnin : id ∉ ao) by (by rewrite <-Hset).
  rewrite (Hh Hlt), !ring_0. split.
  - split; [| |rewrite length_app; simpl; lia|done|lia].
    + intros x. rewrite elem_of_app, list_elem_of_singleton, elem_of_union, elem_of_singleton, Hset. tauto.
    + apply NoDup_app. split; [done|]. split; [set_solver|apply NoDup_singleton].
  - symmetry. apply lastn_all. rewrite length_app. simpl. lia.
Qed.

Lemma ring_replace cap ak ao h id :
  RingInv cap ak ao h → id ∉ ak → ¬ (length ao < cap)%nat → (0 < cap)%nat →
  ∃ oldest, ao !! h = Some oldest ∧ oldest ∈ ak ∧ oldest ≠ id ∧
    RingInv cap (({[ id ]} ∪ ak) ∖ {[ oldest ]}) (<[h := id]> ao) ((h + 1) mod length ao) ∧
    ring ((h + 1) mod length ao) (<[h := id]> ao) = lastn cap (ring h ao ++ [id]) ∧
    ring h ao = oldest :: drop 1 (ring h ao).
Proof.
  intros [Hset Hnd Hlen Hh Hb] Hin Hge Hpos. assert (Hnin : id ∉ ao) by (by rewrite <-Hset).
  assert (Hfull : length ao = cap) by lia. assert (Hlt' : (h < length ao)%nat) by lia.
  destruct (lookup_lt_is_Some_2 _ _ Hlt') as [oldest Ho].
  assert (Hring : ring ((h + 1) mod length ao) (<[h := id]> ao) = drop 1 (ring h ao) ++ [id]) by by apply ring_push.
  assert (Hcons := ring_head _ _ _ Ho). set (q := drop 1 (ring _ _)) in *.
  assert (Hndr : NoDup (oldest :: q)) by (rewrite <-Hcons; by rewrite ring_Permutation).
  assert (Hmem : ∀ x, x ∈ ao ↔ x = oldest ∨ x ∈ q).
  { intros x. rewrite <-(elem_of_ring h), Hcons. set_solver. }
  apply NoDup_cons in Hndr as [Hoq Hq].
  assert (Hne : oldest ≠ id) by (intros ->; apply Hnin, Hmem; auto).
  exists oldest. split; [done|]. split; [apply Hset, Hmem; auto|]. split; [done|]. split; [|split; [|done]].
  - split.
    + intros x. rewrite <-(elem_of_ring ((h + 1) mod length ao)), Hring.
      rewrite elem_of_app, list_elem_of_singleton, elem_of_difference, elem_of_union, !elem_of_singleton, Hset, Hmem.
      split; [intros [[->|[->|?]] ?]; auto; done|].
      intros [Hx| ->]; [split; [auto|intros ->; done]|]. split; [auto|]. congruence.
    + rewrite <-(ring_Permutation ((h + 1) mod length ao)), Hring.
      apply NoDup_app. split; [done|]. split; [|apply NoDup_singleton].
      intros x Hx ->%list_elem_of_singleton. apply Hnin, Hmem. auto.
    + rewrite length_insert. lia.
    + rewrite length_insert. lia.
    + rewrite <-Hfull. apply Nat.mod_upper_bound. lia.
  - rewrite Hring. symmetry. rewrite lastn_snoc; [done| |lia]. by rewrite length_ring.
Qed.
