(* ===== verification/RpcBudget.v ===== *)
(** * Capacity accounting of the RPC execution ledger

    [internal/mtprotoedge/rpc_flight.go] (the process-wide counter
    [rpcResultFlightLimit]) and [internal/mtprotoedge/rpc_execution_budget.go]
    (one ledger slot accounted at global, auth-key and session scope, owned
    through a reservation object).  Reservation objects are shared by pointer
    between a pending flight and the receipt it becomes, so they live in a heap
    [reservations] and are named by their address. *)

From S2P Require Import Prelude.

(** [maphash.Bytes] under the seed drawn at start-up: some function of the
    bytes; nothing else is known about it. *)
Class MapHash := maphash : list Z → Z.

(** ** Keys *)

Record rpcExecutionKey := mkKey { authKeyID : Z; sessionID : Z; reqMsgID : Z }.
Record rpcExecutionSessionBudgetKey := mkSessionKey { sk_authKeyID : Z; sk_sessionID : Z }.

#[export] Instance rpcExecutionKey_eq_dec : EqDecision rpcExecutionKey.
Proof. solve_decision. Defined.
#[export] Instance rpcExecutionKey_countable : Countable rpcExecutionKey.
Proof.
  refine (inj_countable' (λ k, (authKeyID k, sessionID k, reqMsgID k))
    (λ '(a, s, r), mkKey a s r) _). by intros [].
Defined.
#[export] Instance rpcExecutionSessionBudgetKey_eq_dec : EqDecision rpcExecutionSessionBudgetKey.
Proof. solve_decision. Defined.
#[export] Instance rpcExecutionSessionBudgetKey_countable : Countable rpcExecutionSessionBudgetKey.
Proof.
  refine (inj_countable' (λ k, (sk_authKeyID k, sk_sessionID k))
    (λ '(a, s), mkSessionKey a s) _). by intros [].
Defined.

Definition sessionKeyOf (k : rpcExecutionKey) : rpcExecutionSessionBudgetKey :=
  mkSessionKey (authKeyID k) (sessionID k).

(** ** The process-wide counter *)

Module FlightLimit.
Record t := mk { max : Z; used : Z }.

(** One successful or refused compare-and-swap round. *)
Definition reserveN (delta : Z) (l : t) : bool * t :=
  if bool_decide (max l ≤ 0) then (false, l)
  else if bool_decide (delta ≤ 0) then (false, l)
  else if bool_decide (used l < 0) || bool_decide (used l > max l - delta) then (false, l)
  else (true, mk (max l) (used l + delta)).

Definition reserve (l : t) : bool * t := reserveN 1 l.

Definition releaseN (delta : Z) (l : t) : Run t :=
  _ ← panic_if (bool_decide (delta ≤ 0));
  _ ← panic_if (bool_decide (used l - delta < 0));
  Done (mk (max l) (used l - delta)).

Definition release (l : t) : Run t := releaseN 1 l.

Definition snapshot (l : t) : Z := used l.

Lemma reserveN_true delta l l' :
  reserveN delta l = (true, l') →
  0 < delta ∧ used l' = used l + delta ∧ used l' ≤ max l' ∧ max l' = max l.
Proof.
  unfold reserveN. intros Heq.
  repeat case_bool_decide; simplify_eq/=; lia.
Qed.
Lemma reserveN_false delta l l' : reserveN delta l = (false, l') → l' = l.
Proof. unfold reserveN. intros. repeat case_bool_decide; by simplify_eq/=. Qed.
Lemma reserveN_room delta l :
  0 < delta → 0 ≤ used l → used l + delta ≤ max l →
  reserveN delta l = (true, mk (max l) (used l + delta)).
Proof.
  intros ???. unfold reserveN.
  rewrite !bool_decide_eq_false_2 by lia. done.
Qed.
Lemma releaseN_ok delta l :
  0 < delta ≤ used l → releaseN delta l = Done (mk (max l) (used l - delta)).
Proof.
  intros ?. unfold releaseN. rewrite !bool_decide_eq_false_2 by lia. done.
Qed.
End FlightLimit.

Definition withinRPCExecutionBudget (used delta limit : Z) : bool :=
  bool_decide (0 ≤ delta) && bool_decide (limit > 0) && bool_decide (0 ≤ used)
  && bool_decide (used ≤ limit - delta).

Lemma withinRPCExecutionBudget_true used delta limit :
  withinRPCExecutionBudget used delta limit = true ↔
  0 ≤ delta ∧ 0 < limit ∧ 0 ≤ used ∧ used + delta ≤ limit.
Proof.
  unfold withinRPCExecutionBudget.
  rewrite !andb_true_iff, !bool_decide_eq_true. lia.
Qed.

(** ** The fair budget *)

Module FairBudget.
Section fair_budget.
Context `{MapHash}.

Record usage := mkUsage { entries : Z; pending : Z }.
#[export] Instance usage_eq_dec : EqDecision usage.
Proof. solve_decision. Defined.
Definition noUsage : usage := mkUsage 0 0.

Record reservation := mkReservation {
  r_key : rpcExecutionKey;
  r_pending : bool;
  r_released : bool;
}.

Definition budgetShards : Z := 64.

Record t := mkBudget {
  globalEntries : FlightLimit.t;
  authLimit : Z;
  sessionLimit : Z;
  pendingPerAuth : Z;
  authShards : Z → gmap Z usage;
  sessionShards : Z → gmap rpcExecutionSessionBudgetKey usage;
  reservations : gmap positive reservation;
}.

Definition new (globalMax authLim sessionLim pendingLim : Z) : t :=
  mkBudget (FlightLimit.mk globalMax 0) authLim sessionLim pendingLim
    (λ _, ∅) (λ _, ∅) ∅.

(** [authShard] and [sessionShard]: the shard a key hashes to. *)
Definition authShard (auth : Z) : Z :=
  Z.land (maphash (le_bytes 8 auth)) (budgetShards - 1).
Definition sessionShard (k : rpcExecutionSessionBudgetKey) : Z :=
  Z.land (maphash (le_bytes 8 (sk_authKeyID k) ++ le_bytes 8 (sk_sessionID k)))
    (budgetShards - 1).

(** [authSnapshot], [sessionSnapshot]: a missing entry reads as zero usage. *)
Definition authSnapshot (b : t) (auth : Z) : usage :=
  default noUsage (sm_lookup authShard (authShards b) auth).
Definition sessionSnapshot (b : t) (k : rpcExecutionSessionBudgetKey) : usage :=
  default noUsage (sm_lookup sessionShard (sessionShards b) k).

Definition reserve (key : rpcExecutionKey) (pend : bool) (b : t) : option positive * t :=
  let authUsage := authSnapshot b (authKeyID key) in
  let sessionUsage := sessionSnapshot b (sessionKeyOf key) in
  let allowed := withinRPCExecutionBudget (entries authUsage) 1 (authLimit b)
                 && withinRPCExecutionBudget (entries sessionUsage) 1 (sessionLimit b) in
  let allowed := if pend
                 then allowed && withinRPCExecutionBudget (pending authUsage) 1 (pendingPerAuth b)
                 else allowed in
  if negb allowed then (None, b)
  else match FlightLimit.reserve (globalEntries b) with
  | (false, g) => (None, mkBudget g (authLimit b) (sessionLimit b) (pendingPerAuth b)
                           (authShards b) (sessionShards b) (reservations b))
  | (true, g) =>
    let authUsage' := mkUsage (entries authUsage + 1)
                        (if pend then pending authUsage + 1 else pending authUsage) in
    let sessionUsage' := mkUsage (entries sessionUsage + 1) (pending sessionUsage) in
    let rid := fresh (dom (reservations b)) in
    (Some rid,
     mkBudget g (authLimit b) (sessionLimit b) (pendingPerAuth b)
       (sm_insert authShard (authKeyID key) authUsage' (authShards b))
       (sm_insert sessionShard (sessionKeyOf key) sessionUsage' (sessionShards b))
       (<[rid := mkReservation key pend false]> (reservations b)))
  end.

Definition reserveOwner (key : rpcExecutionKey) (b : t) := reserve key true b.
Definition reserveCompleted (key : rpcExecutionKey) (b : t) := reserve key false b.

Definition releasePending (rid : positive) (b : t) : Run t :=
  r ← deref (reservations b !! rid);
  if r_released r || negb (r_pending r) then Done b
  else
    let auth := authKeyID (r_key r) in
    usage ← deref (sm_lookup authShard (authShards b) auth);
    _ ← panic_if (bool_decide (pending usage < 1));
    Done (mkBudget (globalEntries b) (authLimit b) (sessionLimit b) (pendingPerAuth b)
            (sm_insert authShard auth (mkUsage (entries usage) (pending usage - 1)) (authShards b))
            (sessionShards b)
            (<[rid := mkReservation (r_key r) false (r_released r)]> (reservations b))).

Definition release (rid : positive) (b : t) : Run t :=
  r ← deref (reservations b !! rid);
  if r_released r then Done b
  else
    let auth := authKeyID (r_key r) in
    let sessionKey := sessionKeyOf (r_key r) in
    authUsage ← deref (sm_lookup authShard (authShards b) auth);
    sessionUsage ← deref (sm_lookup sessionShard (sessionShards b) sessionKey);
    _ ← panic_if (bool_decide (entries authUsage < 1) || bool_decide (entries sessionUsage < 1)
                  || (r_pending r && bool_decide (pending authUsage < 1)));
    let authUsage' := mkUsage (entries authUsage - 1)
                        (if r_pending r then pending authUsage - 1 else pending authUsage) in
    let sessionUsage' := mkUsage (entries sessionUsage - 1) (pending sessionUsage) in
    let authShards' := if decide (authUsage' = noUsage)
                       then sm_delete authShard auth (authShards b)
                       else sm_insert authShard auth authUsage' (authShards b) in
    let sessionShards' := if decide (sessionUsage' = noUsage)
                          then sm_delete sessionShard sessionKey (sessionShards b)
                          else sm_insert sessionShard sessionKey sessionUsage' (sessionShards b) in
    g ← FlightLimit.release (globalEntries b);
    Done (mkBudget g (authLimit b) (sessionLimit b) (pendingPerAuth b)
            authShards' sessionShards'
            (<[rid := mkReservation (r_key r) false true]> (reservations b))).

(** ** Invariant: every counter is the number of live reservations it covers *)

(** Sum of [f] over the reservations that have not been released. *)
Definition held (f : reservation → Z) (b : t) : Z :=
  msum (λ _ r, if r_released r then 0 else f r) (reservations b).
Definition byAuth (a : Z) (r : reservation) : Z := ind (authKeyID (r_key r) = a).
Definition byAuthPending (a : Z) (r : reservation) : Z :=
  if r_pending r then ind (authKeyID (r_key r) = a) else 0.
Definition bySession (s : rpcExecutionSessionBudgetKey) (r : reservation) : Z :=
  ind (sessionKeyOf (r_key r) = s).

Record Inv (b : t) : Prop := {
  inv_global : FlightLimit.used (globalEntries b) = held (λ _, 1) b;
  inv_auth a : authSnapshot b a = mkUsage (held (byAuth a) b) (held (byAuthPending a) b);
  inv_session s : sessionSnapshot b s = mkUsage (held (bySession s) b) 0;
  inv_global_le : 0 < FlightLimit.max (globalEntries b) →
    FlightLimit.used (globalEntries b) ≤ FlightLimit.max (globalEntries b);
  inv_auth_le a : held (byAuth a) b ≤ Z.max 0 (authLimit b);
  inv_session_le s : held (bySession s) b ≤ Z.max 0 (sessionLimit b);
  inv_pending_le a : held (byAuthPending a) b ≤ Z.max 0 (pendingPerAuth b);
}.

Lemma fair_held_nonneg f b : (∀ r, 0 ≤ f r) → 0 ≤ held f b.
Proof. intros Hf. apply msum_nonneg. intros _ r _. by destruct (r_released r). Qed.
Lemma held_le f b rid r :
  (∀ r, 0 ≤ f r) → reservations b !! rid = Some r → r_released r = false → f r ≤ held f b.
Proof.
  intros Hf Hr Hrel. unfold held.
  eapply (msum_lookup_le (λ _ r, if r_released r then 0 else f r)) in Hr.
  - by rewrite Hrel in Hr.
  - intros _ r' _. by destruct (r_released r').
Qed.
Lemma byAuth_range a r : 0 ≤ byAuth a r ≤ 1.
Proof. apply ind_range. Qed.
Lemma byAuthPending_range a r : 0 ≤ byAuthPending a r ≤ 1.
Proof. unfold byAuthPending. destruct (r_pending r); [apply ind_range|lia]. Qed.
Lemma bySession_range s r : 0 ≤ bySession s r ≤ 1.
Proof. apply ind_range. Qed.
#[local] Hint Resolve byAuth_range byAuthPending_range bySession_range : core.

Lemma fair_new_Inv g a s p : Inv (new g a s p).
Proof.
  split; intros; unfold held, authSnapshot, sessionSnapshot, sm_lookup; simpl in *;
    rewrite ?msum_empty, ?lookup_empty; done || lia.
Qed.

(** Reserving: either nothing changes, or exactly one fresh live reservation
    appears and every counter still counts. *)
Lemma reserve_None key pend b b' : reserve key pend b = (None, b') → b' = b.
Proof.
  unfold reserve. destruct (negb _); [by intros; simplify_eq|].
  destruct (FlightLimit.reserve _) as [[] g] eqn:Hg; [done|].
  intros [= <-]. apply FlightLimit.reserveN_false in Hg as ->. by destruct b.
Qed.

(** A reservation with room at every scope is granted. *)
Lemma reserve_room key b :
  Inv b →
  held (λ _, 1) b < FlightLimit.max (globalEntries b) →
  held (byAuth (authKeyID key)) b < authLimit b →
  held (byAuthPending (authKeyID key)) b < pendingPerAuth b →
  held (bySession (sessionKeyOf key)) b < sessionLimit b →
  ∃ rid b', reserve key true b = (Some rid, b').
Proof.
  intros HI Hg Ha Hp Hs. unfold reserve.
  rewrite (inv_auth _ HI), (inv_session _ HI). simpl.
  assert (∀ f, (∀ r, 0 ≤ f r ≤ 1) → 0 ≤ held f b) as Hnn
    by (intros f Hf; apply fair_held_nonneg; intros r; specialize (Hf r); lia).
  pose proof (Hnn _ (byAuth_range (authKeyID key))). pose proof (Hnn _ (byAuthPending_range (authKeyID key))).
  pose proof (Hnn _ (bySession_range (sessionKeyOf key))).
  rewrite !(proj2 (withinRPCExecutionBudget_true _ _ _)) by lia. simpl.
  unfold FlightLimit.reserve. rewrite FlightLimit.reserveN_room; [eauto|lia| |];
    rewrite (inv_global _ HI); [apply Hnn; intros; lia|lia].
Qed.

Definition withReserved (key : rpcExecutionKey) (pend : bool) (b : t) :=
  <[fresh (dom (reservations b)) := mkReservation key pend false]> (reservations b).

Lemma fresh_reservation b : reservations b !! fresh (dom (reservations b)) = None.
Proof. apply not_elem_of_dom, is_fresh. Qed.

Lemma held_insert f b b' rid r :
  reservations b !! rid = None → r_released r = false →
  reservations b' = <[rid := r]> (reservations b) → held f b' = held f b + f r.
Proof. intros ? Hr Heq. unfold held. rewrite Heq, msum_insert, Hr by done. lia. Qed.
Lemma held_update f b b' rid r r' :
  reservations b !! rid = Some r → r_released r = false →
  reservations b' = <[rid := r']> (reservations b) →
  held f b' = held f b - f r + (if r_released r' then 0 else f r').
Proof.
  intros Hrid Hr Heq. unfold held. rewrite Heq, (msum_update _ _ _ _ _ Hrid), Hr. done.
Qed.

Lemma fair_authSnapshot_insert b g al sl pl a u ss rs a' :
  authSnapshot (mkBudget g al sl pl (sm_insert authShard a u (authShards b)) ss rs) a' =
  if decide (a = a') then u else authSnapshot b a'.
Proof.
  unfold authSnapshot; simpl. rewrite sm_lookup_insert. by case_decide.
Qed.
(** An entry is deleted rather than kept at zero; both read the same. *)
Lemma fair_authSnapshot_write b g al sl pl a u ss rs a' :
  authSnapshot (mkBudget g al sl pl
    (if decide (u = noUsage) then sm_delete authShard a (authShards b)
     else sm_insert authShard a u (authShards b)) ss rs) a' =
  if decide (a = a') then u else authSnapshot b a'.
Proof.
  destruct (decide (u = noUsage)) as [->|]; [|apply fair_authSnapshot_insert].
  unfold authSnapshot; simpl. rewrite sm_lookup_delete. by case_decide.
Qed.
Lemma fair_sessionSnapshot_insert b g al sl pl aa s u rs s' :
  sessionSnapshot (mkBudget g al sl pl aa (sm_insert sessionShard s u (sessionShards b)) rs) s' =
  if decide (s = s') then u else sessionSnapshot b s'.
Proof.
  unfold sessionSnapshot; simpl. rewrite sm_lookup_insert. by case_decide.
Qed.
Lemma fair_sessionSnapshot_write b g al sl pl aa s u rs s' :
  sessionSnapshot (mkBudget g al sl pl aa
    (if decide (u = noUsage) then sm_delete sessionShard s (sessionShards b)
     else sm_insert sessionShard s u (sessionShards b)) rs) s' =
  if decide (s = s') then u else sessionSnapshot b s'.
Proof.
  destruct (decide (u = noUsage)) as [->|]; [|apply fair_sessionSnapshot_insert].
  unfold sessionSnapshot; simpl. rewrite sm_lookup_delete. by case_decide.
Qed.

Lemma reserve_Some key pend b b' rid :
  Inv b → reserve key pend b = (Some rid, b') →
  Inv b' ∧ reservations b !! rid = None ∧
  reservations b' = <[rid := mkReservation key pend false]> (reservations b).
Proof.
  intros HI. unfold reserve. destruct (negb _) eqn:Hallow; [by intros; simplify_eq|].
  apply negb_false_iff in Hallow.
  destruct (FlightLimit.reserve _) as [[] g] eqn:Hg; [|done].
  intros [= <- <-]. split_and!; [|apply fresh_reservation|done].
  apply FlightLimit.reserveN_true in Hg as (_ & Hused & Hle & Hmax).
  assert (Ha := inv_auth _ HI (authKeyID key)).
  assert (Hs := inv_session _ HI (sessionKeyOf key)).
  assert (Hallow' : entries (authSnapshot b (authKeyID key)) + 1 ≤ authLimit b ∧
    entries (sessionSnapshot b (sessionKeyOf key)) + 1 ≤ sessionLimit b ∧
    (pend = true → pending (authSnapshot b (authKeyID key)) + 1 ≤ pendingPerAuth b)).
  { destruct pend; rewrite ?andb_true_iff, ?withinRPCExecutionBudget_true in Hallow;
      repeat split; intros; try done; lia. }
  rewrite Ha, Hs in Hallow'. simpl in Hallow'.
  set (r := mkReservation key pend false).
  match goal with |- Inv ?b' => assert (Hh : ∀ f, held f b' = held f b + f r) end.
  { intros f. eapply held_insert; [apply fresh_reservation|done|done]. }
  split; cbn [globalEntries authLimit sessionLimit pendingPerAuth]; intros; rewrite ?Hh.
  - rewrite Hused, (inv_global _ HI). done.
  - rewrite fair_authSnapshot_insert.
    unfold byAuth at 2, byAuthPending at 2; simpl. case_decide as Hd.
    + subst. rewrite Ha, ind_true by done. by destruct pend; f_equal; simpl; lia.
    + rewrite (inv_auth _ HI), ind_false by done. by destruct pend; f_equal; lia.
  - rewrite fair_sessionSnapshot_insert.
    unfold bySession at 2; simpl. case_decide as Hd.
    + subst. rewrite Hs, ind_true by done. done.
    + rewrite (inv_session _ HI), ind_false by done. f_equal; lia.
  - lia.
  - unfold byAuth at 2; simpl. assert (Hle' := inv_auth_le _ HI a).
    destruct (decide (authKeyID key = a)) as [<-|];
      [rewrite ind_true by done|rewrite ind_false by done]; lia.
  - unfold bySession at 2; simpl. assert (Hle' := inv_session_le _ HI s).
    destruct (decide (sessionKeyOf key = s)) as [<-|];
      [rewrite ind_true by done|rewrite ind_false by done]; lia.
  - unfold byAuthPending at 2; simpl. assert (Hle' := inv_pending_le _ HI a).
    destruct pend; [|lia].
    destruct (decide (authKeyID key = a)) as [<-|];
      [rewrite ind_true by done|rewrite ind_false by done]; [|lia].
    destruct Hallow' as (_ & _ & Hp). specialize (Hp eq_refl). lia.
Qed.

(** Returning a share: with a live reservation neither routine panics. *)
Lemma authSnapshot_lookup b a u :
  authSnapshot b a = u → u ≠ noUsage → sm_lookup authShard (authShards b) a = Some u.
Proof. unfold authSnapshot. destruct (sm_lookup _ _ _); simpl; congruence. Qed.
Lemma sessionSnapshot_lookup b s u :
  sessionSnapshot b s = u → u ≠ noUsage → sm_lookup sessionShard (sessionShards b) s = Some u.
Proof. unfold sessionSnapshot. destruct (sm_lookup _ _ _); simpl; congruence. Qed.

Lemma releasePending_ok rid r b :
  Inv b → reservations b !! rid = Some r → r_released r = false →
  ∃ b', releasePending rid b = Done b' ∧ Inv b' ∧
    reservations b' = <[rid := mkReservation (r_key r) false false]> (reservations b) ∧
    globalEntries b' = globalEntries b.
Proof.
  intros HI Hrid Hrel. unfold releasePending. rewrite Hrid; simpl. rewrite Hrel; simpl.
  destruct (r_pending r) eqn:Hp; simpl; last first.
  { exists b. split_and!; [done|done| |done]. rewrite insert_id; [done|].
    rewrite Hrid. destruct r; simpl in *; by subst. }
  set (a := authKeyID (r_key r)).
  assert (1 ≤ held (byAuthPending a) b).
  { pose proof (held_le (byAuthPending a) b rid r) as Hh.
    unfold byAuthPending at 2 in Hh. rewrite Hp, ind_true in Hh by done.
    apply Hh; auto. intros; apply byAuthPending_range. }
  erewrite authSnapshot_lookup; [|apply (inv_auth _ HI)|intros [=]; lia]. simpl.
  rewrite bool_decide_eq_false_2 by lia. simpl.
  eexists; split; [done|]. split; [|done].
  match goal with |- Inv ?b' => assert (Hh : ∀ f, held f b' =
    held f b - f r + f (mkReservation (r_key r) false false)) end.
  { intros f. by erewrite (held_update f b _ rid r); [|done..]. }
  assert (HbA : ∀ x, byAuth x (mkReservation (r_key r) false false) = byAuth x r) by done.
  assert (HbS : ∀ x, bySession x (mkReservation (r_key r) false false) = bySession x r) by done.
  assert (HbP : ∀ x, byAuthPending x (mkReservation (r_key r) false false) = 0) by done.
  assert (HbP' : ∀ x, byAuthPending x r = ind (a = x)) by (intros; unfold byAuthPending; by rewrite Hp).
  split; cbn [globalEntries authLimit sessionLimit pendingPerAuth]; intros; rewrite ?Hh.
  - rewrite (inv_global _ HI). lia.
  - rewrite fair_authSnapshot_insert, HbA, HbP, HbP'. case_decide as Hd.
    + subst a0. rewrite ind_true by done. f_equal; lia.
    + rewrite (inv_auth _ HI), ind_false by done. f_equal; lia.
  - rewrite HbS, Z.sub_add. apply (inv_session _ HI).
  - by apply (inv_global_le _ HI).
  - rewrite HbA. pose proof (inv_auth_le _ HI a0). lia.
  - rewrite HbS. pose proof (inv_session_le _ HI s). lia.
  - rewrite HbP. pose proof (inv_pending_le _ HI a0). pose proof (byAuthPending_range a0 r). lia.
Qed.

Lemma fair_release_ok rid r b :
  Inv b → reservations b !! rid = Some r → r_released r = false →
  ∃ b', release rid b = Done b' ∧ Inv b' ∧
    reservations b' = <[rid := mkReservation (r_key r) false true]> (reservations b).
Proof.
  intros HI Hrid Hrel. unfold release. rewrite Hrid; simpl. rewrite Hrel; simpl.
  set (a := authKeyID (r_key r)). set (s := sessionKeyOf (r_key r)).
  assert (1 ≤ held (byAuth a) b) as Ha.
  { pose proof (held_le (byAuth a) b rid r) as Hh.
    unfold byAuth at 2 in Hh. rewrite ind_true in Hh by done. apply Hh; auto. apply byAuth_range. }
  assert (1 ≤ held (bySession s) b) as Hs.
  { pose proof (held_le (bySession s) b rid r) as Hh.
    unfold bySession at 2 in Hh. rewrite ind_true in Hh by done. apply Hh; auto. apply bySession_range. }
  assert (byAuthPending a r ≤ held (byAuthPending a) b) as Hp.
  { apply (held_le _ b rid r); auto. apply byAuthPending_range. }
  assert (1 ≤ held (λ _, 1) b) as Hg by (apply (held_le (λ _, 1) b rid r); auto; lia).
  assert (Hpr : byAuthPending a r = if r_pending r then 1 else 0).
  { unfold byAuthPending. by rewrite ind_true. }
  erewrite authSnapshot_lookup; [|apply (inv_auth _ HI)|intros [=]; lia]. simpl.
  erewrite sessionSnapshot_lookup; [|apply (inv_session _ HI)|intros [=]; lia]. simpl.
  rewrite !bool_decide_eq_false_2 by lia. simpl.
  replace (r_pending r && _) with false by
    (destruct (r_pending r); simpl; [rewrite bool_decide_eq_false_2|]; done || lia). simpl.
  unfold FlightLimit.release. rewrite FlightLimit.releaseN_ok by (rewrite (inv_global _ HI); lia).
  simpl. eexists; split; [done|]. split; [|done].
  match goal with |- Inv ?b' => assert (Hh : ∀ f, held f b' = held f b - f r) end.
  { intros f. erewrite (held_update f b _ rid r); [|done..]. simpl. lia. }
  assert (HbA : ∀ x, byAuth x r = ind (a = x)) by done.
  assert (HbS : ∀ x, bySession x r = ind (s = x)) by done.
  assert (HbP : ∀ x, byAuthPending x r = if r_pending r then ind (a = x) else 0) by done.
  split; cbn [globalEntries authLimit sessionLimit pendingPerAuth]; intros; rewrite ?Hh.
  - simpl. rewrite (inv_global _ HI). lia.
  - rewrite fair_authSnapshot_write.
    rewrite HbA, HbP. destruct (decide (a = a0)) as [Hd|Hd].
    + rewrite <-Hd, ind_true by done. f_equal. destruct (r_pending r); lia.
    + rewrite (inv_auth _ HI), ind_false by done. f_equal; [lia|destruct (r_pending r); lia].
  - rewrite fair_sessionSnapshot_write.
    rewrite HbS. destruct (decide (s = s0)) as [Hd|Hd].
    + by rewrite <-Hd, ind_true.
    + rewrite (inv_session _ HI), ind_false by done. f_equal; lia.
  - simpl in *. pose proof (inv_global_le _ HI). lia.
  - pose proof (inv_auth_le _ HI a0). pose proof (byAuth_range a0 r). lia.
  - pose proof (inv_session_le _ HI s0). pose proof (bySession_range s0 r). lia.
  - pose proof (inv_pending_le _ HI a0). pose proof (byAuthPending_range a0 r). lia.
Qed.
End fair_budget.
End FairBudget.
