(* ===== verification/RpcSubscriberBudget.v ===== *)
(** * The subscriber budget

    [internal/mtprotoedge/rpc_result_subscriber_budget.go]: callbacks retained
    by pending flights are charged at global, auth-key and session scope.  The
    invariant compares the counters with the slots each pending key holds. *)

From S2P Require Import Prelude RpcBudget.

Module SubscriberBudget.
Section subscriber_budget.
Context `{MH : MapHash}.

Record t := mkBudget {
  global : FlightLimit.t;
  authLimit : Z;
  sessionLimit : Z;
  authShards : Z → gmap Z Z;
  sessionShards : Z → gmap rpcExecutionSessionBudgetKey Z;
}.

Definition maxGlobal : Z := 65536.
Definition maxAuth : Z := 8192.
Definition maxSession : Z := 2048.
Definition maxPerFlight : Z := 128.

Definition new (globalLimit authLim sessionLim : Z) : t :=
  mkBudget (FlightLimit.mk globalLimit 0) authLim sessionLim (λ _, ∅) (λ _, ∅).

Definition authSnapshot (b : t) (auth : Z) : Z :=
  default 0 (sm_lookup FairBudget.authShard (authShards b) auth).
Definition sessionSnapshot (b : t) (k : rpcExecutionSessionBudgetKey) : Z :=
  default 0 (sm_lookup FairBudget.sessionShard (sessionShards b) k).

Definition reserve (key : rpcExecutionKey) (slots : Z) (b : t) : bool * t :=
  if bool_decide (slots ≤ 0) then (false, b)
  else
    let authUsed := authSnapshot b (authKeyID key) in
    let sessionUsed := sessionSnapshot b (sessionKeyOf key) in
    if negb (withinRPCExecutionBudget authUsed slots (authLimit b))
       || negb (withinRPCExecutionBudget sessionUsed slots (sessionLimit b))
    then (false, b)
    else match FlightLimit.reserveN slots (global b) with
    | (false, g) => (false, mkBudget g (authLimit b) (sessionLimit b) (authShards b) (sessionShards b))
    | (true, g) =>
      (true, mkBudget g (authLimit b) (sessionLimit b)
        (sm_insert FairBudget.authShard (authKeyID key) (authUsed + slots) (authShards b))
        (sm_insert FairBudget.sessionShard (sessionKeyOf key) (sessionUsed + slots) (sessionShards b)))
    end.

Definition release (key : rpcExecutionKey) (slots : Z) (b : t) : Run t :=
  _ ← panic_if (bool_decide (slots ≤ 0));
  let auth := authKeyID key in
  let sessionKey := sessionKeyOf key in
  authUsed ← deref (sm_lookup FairBudget.authShard (authShards b) auth);
  sessionUsed ← deref (sm_lookup FairBudget.sessionShard (sessionShards b) sessionKey);
  _ ← panic_if (bool_decide (authUsed < slots) || bool_decide (sessionUsed < slots));
  g ← FlightLimit.releaseN slots (global b);
  Done (mkBudget g (authLimit b) (sessionLimit b)
    (if decide (authUsed - slots = 0)
     then sm_delete FairBudget.authShard auth (authShards b)
     else sm_insert FairBudget.authShard auth (authUsed - slots) (authShards b))
    (if decide (sessionUsed - slots = 0)
     then sm_delete FairBudget.sessionShard sessionKey (sessionShards b)
     else sm_insert FairBudget.sessionShard sessionKey (sessionUsed - slots) (sessionShards b))).

(** ** Invariant against the slots [W] held per key *)

Definition slotsAll (_ : rpcExecutionKey) (n : Z) : Z := n.
Definition slotsAuth (a : Z) (k : rpcExecutionKey) (n : Z) : Z :=
  if decide (authKeyID k = a) then n else 0.
Definition slotsSession (s : rpcExecutionSessionBudgetKey) (k : rpcExecutionKey) (n : Z) : Z :=
  if decide (sessionKeyOf k = s) then n else 0.

Record Inv (b : t) (W : gmap rpcExecutionKey Z) : Prop := {
  inv_pos k n : W !! k = Some n → 0 ≤ n;
  inv_global : FlightLimit.used (global b) = msum slotsAll W;
  inv_auth a : authSnapshot b a = msum (slotsAuth a) W;
  inv_session s : sessionSnapshot b s = msum (slotsSession s) W;
  inv_auth_le a : msum (slotsAuth a) W ≤ Z.max 0 (authLimit b);
  inv_session_le s : msum (slotsSession s) W ≤ Z.max 0 (sessionLimit b);
  inv_global_le : msum slotsAll W ≤ Z.max 0 (FlightLimit.max (global b));
}.

Lemma sub_new_Inv g a s : Inv (new g a s) ∅.
Proof.
  split; intros; unfold authSnapshot, sessionSnapshot, sm_lookup; simpl in *;
    rewrite ?msum_empty, ?lookup_empty; simplify_map_eq; done || lia.
Qed.

(** A flight without subscribers may come and go. *)
Lemma slotsAuth_zero a k : slotsAuth a k 0 = 0.
Proof. unfold slotsAuth. by case_decide. Qed.
Lemma slotsSession_zero s k : slotsSession s k 0 = 0.
Proof. unfold slotsSession. by case_decide. Qed.
Lemma slotsAll_zero k : slotsAll k 0 = 0.
Proof. done. Qed.

Lemma Inv_insert_zero b W k : Inv b W → W !! k = None → Inv b (<[k:=0]> W).
Proof.
  intros HI Hk. pose proof HI as [? ? ? ? ? ? ?].
  split; intros; rewrite ?msum_insert, ?slotsAuth_zero, ?slotsSession_zero, ?slotsAll_zero by done;
    [|naive_solver..].
  destruct (decide (k0 = k)) as [->|]; simplify_map_eq; [lia|eauto].
Qed.
Lemma Inv_delete_zero b W k : Inv b W → W !! k = Some 0 → Inv b (delete k W).
Proof.
  intros HI Hk. pose proof HI as [? ? ? ? ? ? ?].
  split; intros; rewrite ?(msum_delete _ _ _ _ Hk), ?slotsAuth_zero, ?slotsSession_zero,
    ?slotsAll_zero, ?Z.sub_0_r; [|naive_solver..].
  apply lookup_delete_Some in H as [_ ?]; eauto.
Qed.

Lemma sub_authSnapshot_insert b g al sl a u ss a' :
  authSnapshot (mkBudget g al sl (sm_insert FairBudget.authShard a u (authShards b)) ss) a' =
  if decide (a = a') then u else authSnapshot b a'.
Proof. unfold authSnapshot; simpl. rewrite sm_lookup_insert. by case_decide. Qed.
Lemma sub_sessionSnapshot_insert b g al sl aa s u s' :
  sessionSnapshot (mkBudget g al sl aa
    (sm_insert FairBudget.sessionShard s u (sessionShards b))) s' =
  if decide (s = s') then u else sessionSnapshot b s'.
Proof. unfold sessionSnapshot; simpl. rewrite sm_lookup_insert. by case_decide. Qed.

Lemma sub_authSnapshot_write b g al sl a u ss a' :
  authSnapshot (mkBudget g al sl
    (if decide (u = 0) then sm_delete FairBudget.authShard a (authShards b)
     else sm_insert FairBudget.authShard a u (authShards b)) ss) a' =
  if decide (a = a') then u else authSnapshot b a'.
Proof.
  unfold authSnapshot; simpl. destruct (decide (u = 0)) as [->|].
  - rewrite sm_lookup_delete. by case_decide.
  - rewrite sm_lookup_insert. by case_decide.
Qed.
Lemma sub_sessionSnapshot_write b g al sl aa s u s' :
  sessionSnapshot (mkBudget g al sl aa
    (if decide (u = 0) then sm_delete FairBudget.sessionShard s (sessionShards b)
     else sm_insert FairBudget.sessionShard s u (sessionShards b))) s' =
  if decide (s = s') then u else sessionSnapshot b s'.
Proof.
  unfold sessionSnapshot; simpl. destruct (decide (u = 0)) as [->|].
  - rewrite sm_lookup_delete. by case_decide.
  - rewrite sm_lookup_insert. by case_decide.
Qed.

Lemma slotsAuth_update a W key m n :
  W !! key = Some m →
  msum (slotsAuth a) (<[key:=n]> W) =
  msum (slotsAuth a) W + (if decide (authKeyID key = a) then n - m else 0).
Proof.
  intros Hk. rewrite (msum_update _ _ _ _ _ Hk). unfold slotsAuth at 2 3. case_decide; lia.
Qed.
Lemma slotsSession_update s W key m n :
  W !! key = Some m →
  msum (slotsSession s) (<[key:=n]> W) =
  msum (slotsSession s) W + (if decide (sessionKeyOf key = s) then n - m else 0).
Proof.
  intros Hk. rewrite (msum_update _ _ _ _ _ Hk). unfold slotsSession at 2 3. case_decide; lia.
Qed.
Lemma slotsAll_update W key m n :
  W !! key = Some m → msum slotsAll (<[key:=n]> W) = msum slotsAll W + (n - m).
Proof. intros Hk. rewrite (msum_update _ _ _ _ _ Hk). unfold slotsAll at 2 3. lia. Qed.

Lemma reserve_true key slots b b' W m :
  Inv b W → W !! key = Some m → reserve key slots b = (true, b') →
  Inv b' (<[key := m + slots]> W) ∧ 0 < slots.
Proof.
  intros HI Hk. unfold reserve. case_bool_decide as Hsl; [done|].
  destruct (withinRPCExecutionBudget _ _ (authLimit b)) eqn:Ha; [|done].
  destruct (withinRPCExecutionBudget _ _ (sessionLimit b)) eqn:Hs; [|done]. simpl.
  destruct (FlightLimit.reserveN _ _) as [[] g] eqn:Hg; [|done]. intros [= <-].
  apply FlightLimit.reserveN_true in Hg as (_ & Hu & Hle & Hmax).
  apply withinRPCExecutionBudget_true in Ha, Hs. rewrite (inv_auth _ _ HI) in Ha.
  rewrite (inv_session _ _ HI) in Hs. split; [|lia].
  split; cbn [global authLimit sessionLimit]; intros;
    rewrite ?(slotsAuth_update _ _ _ _ _ Hk), ?(slotsSession_update _ _ _ _ _ Hk),
            ?(slotsAll_update _ _ _ _ Hk).
  - pose proof (inv_pos _ _ HI _ _ Hk).
    apply lookup_insert_Some in H as [[_ <-]|[_ ?]]; [lia|by eapply inv_pos].
  - rewrite Hu, (inv_global _ _ HI). lia.
  - rewrite sub_authSnapshot_insert, !(inv_auth _ _ HI). case_decide; [subst|]; lia.
  - rewrite sub_sessionSnapshot_insert, !(inv_session _ _ HI). case_decide; [subst|]; lia.
  - pose proof (inv_auth_le _ _ HI a). case_decide; [subst|]; lia.
  - pose proof (inv_session_le _ _ HI s). case_decide; [subst|]; lia.
  - pose proof (inv_global _ _ HI). lia.
Qed.

Lemma reserve_false key slots b b' : reserve key slots b = (false, b') → b' = b.
Proof.
  unfold reserve. case_bool_decide; [by intros; simplify_eq|].
  destruct (_ || _); [by intros; simplify_eq|].
  destruct (FlightLimit.reserveN _ _) as [[] g] eqn:Hg; [done|]. intros [= <-].
  apply FlightLimit.reserveN_false in Hg as ->. by destruct b.
Qed.

Lemma sub_release_ok key slots b W m :
  Inv b W → W !! key = Some m → 0 < slots ≤ m →
  ∃ b', release key slots b = Done b' ∧ Inv b' (<[key := m - slots]> W).
Proof.
  intros HI Hk Hm. unfold release. rewrite bool_decide_eq_false_2 by lia. simpl.
  assert (Hpos : ∀ k n, W !! k = Some n → 0 ≤ n) by apply (inv_pos _ _ HI).
  assert (m ≤ authSnapshot b (authKeyID key)) as Ha.
  { rewrite (inv_auth _ _ HI). pose proof (msum_lookup_le (slotsAuth (authKeyID key)) W key m) as Hle.
    unfold slotsAuth at 2 in Hle. rewrite decide_True in Hle by done. apply Hle; [|done].
    intros k n Hkn. unfold slotsAuth. case_decide; [by eapply Hpos|lia]. }
  assert (m ≤ sessionSnapshot b (sessionKeyOf key)) as Hs.
  { rewrite (inv_session _ _ HI).
    pose proof (msum_lookup_le (slotsSession (sessionKeyOf key)) W key m) as Hle.
    unfold slotsSession at 2 in Hle. rewrite decide_True in Hle by done. apply Hle; [|done].
    intros k n Hkn. unfold slotsSession. case_decide; [by eapply Hpos|lia]. }
  assert (m ≤ FlightLimit.used (global b)) as Hg.
  { rewrite (inv_global _ _ HI). by apply (msum_lookup_le slotsAll W key m). }
  assert (sm_lookup FairBudget.authShard (authShards b) (authKeyID key) =
          Some (authSnapshot b (authKeyID key))) as ->.
  { unfold authSnapshot in *. destruct (sm_lookup _ _ _); simpl in *; [done|lia]. }
  assert (sm_lookup FairBudget.sessionShard (sessionShards b) (sessionKeyOf key) =
          Some (sessionSnapshot b (sessionKeyOf key))) as ->.
  { unfold sessionSnapshot in *. destruct (sm_lookup _ _ _); simpl in *; [done|lia]. }
  simpl. rewrite !bool_decide_eq_false_2 by lia. simpl.
  rewrite FlightLimit.releaseN_ok by lia. simpl. eexists; split; [done|].
  split; cbn [global authLimit sessionLimit FlightLimit.used FlightLimit.max]; intros;
    rewrite ?(slotsAuth_update _ _ _ _ _ Hk), ?(slotsSession_update _ _ _ _ _ Hk),
            ?(slotsAll_update _ _ _ _ Hk).
  - apply lookup_insert_Some in H as [[_ <-]|[_ ?]]; [lia|by eapply inv_pos].
  - rewrite (inv_global _ _ HI). lia.
  - rewrite sub_authSnapshot_write. destruct (decide (authKeyID key = a)) as [<-|].
    + rewrite (inv_auth _ _ HI). lia.
    + rewrite (inv_auth _ _ HI). lia.
  - rewrite sub_sessionSnapshot_write. destruct (decide (sessionKeyOf key = s)) as [<-|].
    + rewrite (inv_session _ _ HI). lia.
    + rewrite (inv_session _ _ HI). lia.
  - pose proof (inv_auth_le _ _ HI a). destruct (decide (authKeyID key = a)); lia.
  - pose proof (inv_session_le _ _ HI s). destruct (decide (sessionKeyOf key = s)); lia.
  - pose proof (inv_global_le _ _ HI). lia.
Qed.
End subscriber_budget.
End SubscriberBudget.
