(* ===== verification/RpcAdmissionTracker.v ===== *)
(** * The admission-sequence tracker

    [internal/mtprotoedge/rpc_admission_tracker.go]: admission sequences are
    handed out in order, kept in a sharded set while their owner can still
    publish, and [stableSafeFloor] is the lowest sequence that can still
    publish.  Allocation and the floor scan exclude each other through
    [allocationBarrier], so each routine is one step. *)

From S2P Require Import Prelude.

Module AdmissionTracker.
Definition shards : Z := 64.
Definition shardOf (sequence : Z) : Z := Z.land sequence (shards - 1).

(** [active i] is [t.shards[i].active]. *)
Definition t : Type := Z → gset Z.
Definition new : t := λ _, ∅.

(** [Err] case: [ErrRPCAdmissionSeqExhausted]. *)
Definition allocateAndRegister (tr : t) (next : Z) : option (Z * t * Z) :=
  if bool_decide (next = u64_max) then None
  else
    let sequence := next + 1 in
    Some (sequence,
          (λ i, if decide (i = shardOf sequence) then {[sequence]} ∪ tr i else tr i),
          sequence).

Definition retire (sequence : Z) (tr : t) : Run t :=
  if bool_decide (sequence = 0) then Done tr
  else if bool_decide (sequence ∈ tr (shardOf sequence))
  then Done (λ i, if decide (i = shardOf sequence) then tr i ∖ {[sequence]} else tr i)
  else Panicked.

(** The scan of one shard: [minimum] is 0 until a sequence was seen. *)
Definition scanStep (sequence minimum : Z) : Z :=
  if bool_decide (minimum = 0) || bool_decide (sequence < minimum) then sequence else minimum.
Definition scanShard (tr : t) (minimum i : Z) : Z := set_fold scanStep minimum (tr i).

Definition stableSafeFloor (tr : t) (next : Z) : Z :=
  let minimum := foldl (scanShard tr) 0 (seqZ 0 shards) in
  if bool_decide (minimum ≠ 0) then minimum
  else if bool_decide (next = u64_max) then u64_max else next + 1.

(** ** Invariant: [A] is the set of sequences whose owner can still publish *)

Record Inv (tr : t) (next : Z) (A : gset Z) : Prop := {
  inv_active q : q ∈ A ↔ q ∈ tr (shardOf q);
  inv_shard i q : q ∈ tr i → i = shardOf q;
  inv_range q : q ∈ A → 1 ≤ q ≤ next;
  inv_next : 0 ≤ next ≤ u64_max;
}.

Lemma tracker_new_Inv : Inv new 0 ∅.
Proof. split; unfold new, u64_max; set_solver by lia. Qed.

Lemma shardOf_range q : 0 ≤ shardOf q < shards.
Proof.
  unfold shardOf. replace (shards - 1) with (Z.ones 6) by done.
  rewrite Z.land_ones by lia. apply Z.mod_pos_bound. done.
Qed.

Lemma allocate_Inv tr next A q tr' next' :
  Inv tr next A → allocateAndRegister tr next = Some (q, tr', next') →
  Inv tr' next' ({[q]} ∪ A) ∧ q = next + 1 ∧ next' = q ∧ q ∉ A.
Proof.
  intros HI. unfold allocateAndRegister. case_bool_decide as Hn; [done|]. intros [= <- <- <-].
  pose proof (inv_next _ _ _ HI). split_and!; [|done|done|].
  - split; [..|unfold u64_max in *; lia].
    + intros q. rewrite elem_of_union, elem_of_singleton, (inv_active _ _ _ HI).
      case_decide; [set_solver|]. set_solver.
    + intros i q. case_decide; [|apply (inv_shard _ _ _ HI)].
      subst. rewrite elem_of_union, elem_of_singleton. intros [->|?]; [done|].
      by eapply inv_shard.
    + intros q. rewrite elem_of_union, elem_of_singleton. intros [->|Hq]; [lia|].
      pose proof (inv_range _ _ _ HI _ Hq). lia.
  - intros Hq%(inv_range _ _ _ HI). lia.
Qed.

Lemma retire_Inv tr next A q :
  Inv tr next A → q = 0 ∨ q ∈ A →
  ∃ tr', retire q tr = Done tr' ∧ Inv tr' next (A ∖ {[q]}).
Proof.
  intros HI [->|Hq]; unfold retire.
  - exists tr. rewrite bool_decide_eq_true_2 by done. split; [done|].
    assert (A ∖ {[0]} = A) as ->; [|done].
    assert (0 ∉ A) by (intros Hq%(inv_range _ _ _ HI); lia). set_solver.
  - pose proof (inv_range _ _ _ HI _ Hq). rewrite bool_decide_eq_false_2 by lia.
    rewrite bool_decide_eq_true_2 by by apply (inv_active _ _ _ HI).
    eexists; split; [done|]. split; [..|apply HI].
    + intros p. rewrite elem_of_difference, elem_of_singleton, (inv_active _ _ _ HI).
      destruct (decide (shardOf p = shardOf q)); set_solver.
    + intros i p. case_decide; [|apply (inv_shard _ _ _ HI)].
      subst. intros [? _]%elem_of_difference. by eapply inv_shard.
    + intros p [? _]%elem_of_difference. by eapply inv_range.
Qed.

(** [minOf m S]: what the scan has found after visiting [S]. *)
Definition minOf (m : Z) (S : gset Z) : Prop :=
  (m = 0 ∧ S = ∅) ∨ (m ∈ S ∧ ∀ q, q ∈ S → m ≤ q).

Lemma scanStep_minOf q m S :
  (∀ p, p ∈ S → 0 < p) → 0 < q → minOf m S → minOf (scanStep q m) ({[q]} ∪ S).
Proof.
  intros Hpos Hq Hm. unfold scanStep. right. destruct Hm as [[-> ->]|[Hin Hle]].
  - simpl. set_solver by lia.
  - specialize (Hpos _ Hin). rewrite (bool_decide_eq_false_2 (m = 0)) by lia. simpl.
    case_bool_decide; (split; [set_solver|]); intros p [->%elem_of_singleton|Hp]%elem_of_union;
      try specialize (Hle _ Hp); lia.
Qed.
Lemma scanSet_minOf m S (X : gset Z) :
  (∀ p, p ∈ S ∪ X → 0 < p) → minOf m S → minOf (set_fold scanStep m X) (S ∪ X).
Proof.
  intros Hpos Hm. revert Hpos.
  refine (set_fold_ind_L (λ r Y, (∀ p, p ∈ S ∪ Y → 0 < p) → minOf r (S ∪ Y)) _ _ _ _ X).
  - intros _. by rewrite union_empty_r_L.
  - intros q Y r Hq IH Hpos.
    assert (S ∪ ({[q]} ∪ Y) = {[q]} ∪ (S ∪ Y)) as -> by set_solver.
    apply scanStep_minOf; [|apply Hpos; set_solver|apply IH]; intros p Hp; apply Hpos; set_solver.
Qed.

Definition unionShards (tr : t) (ix : list Z) : gset Z := ⋃ (tr <$> ix).

Lemma scanShards_minOf tr ix m S :
  (∀ p, p ∈ S ∪ unionShards tr ix → 0 < p) → minOf m S →
  minOf (foldl (scanShard tr) m ix) (S ∪ unionShards tr ix).
Proof.
  unfold unionShards. revert m S. induction ix as [|i ix IH]; intros m S Hpos Hm; simpl in *.
  { by rewrite union_empty_r_L. }
  rewrite (assoc_L (∪)). apply IH; [by rewrite <-(assoc_L (∪))|].
  apply scanSet_minOf; [|done]. intros p Hp. apply Hpos. set_solver.
Qed.

Lemma unionShards_Inv tr next A : Inv tr next A → unionShards tr (seqZ 0 shards) = A.
Proof.
  intros HI. apply set_eq. intros q. unfold unionShards.
  rewrite elem_of_union_list. setoid_rewrite list_elem_of_fmap. split.
  - intros (X & (i & -> & _) & Hq). apply (inv_active _ _ _ HI).
    by rewrite <-(inv_shard _ _ _ HI i q).
  - intros Hq. exists (tr (shardOf q)). split; [|by apply (inv_active _ _ _ HI)].
    exists (shardOf q). split; [done|]. apply elem_of_seqZ.
    pose proof (shardOf_range q). lia.
Qed.

(** The floor is the least active sequence, or one past the last allocated. *)
Lemma stableSafeFloor_spec tr next A :
  Inv tr next A →
  (A = ∅ ∧ stableSafeFloor tr next = Z.min (next + 1) u64_max) ∨
  (stableSafeFloor tr next ∈ A ∧ ∀ q, q ∈ A → stableSafeFloor tr next ≤ q).
Proof.
  intros HI. pose proof (inv_next _ _ _ HI).
  pose proof (scanShards_minOf tr (seqZ 0 shards) 0 ∅) as Hs.
  rewrite (unionShards_Inv _ _ _ HI), !union_empty_l_L in Hs.
  destruct Hs as [[Hm HA]|[Hin Hle]].
  { intros p Hp. rewrite ?union_empty_l_L in Hp. apply (inv_range _ _ _ HI) in Hp. lia. }
  { by left. }
  - left. split; [done|]. unfold stableSafeFloor. rewrite Hm. simpl.
    case_bool_decide; lia.
  - right. unfold stableSafeFloor.
    rewrite bool_decide_eq_true_2; [done|]. apply (inv_range _ _ _ HI) in Hin. lia.
Qed.

Lemma stableSafeFloor_alloc tr next A q tr' next' :
  Inv tr next A → allocateAndRegister tr next = Some (q, tr', next') →
  stableSafeFloor tr next ≤ stableSafeFloor tr' next' ≤ q.
Proof.
  intros HI Ha. pose proof (allocate_Inv _ _ _ _ _ _ HI Ha) as (HI' & -> & -> & Hq).
  pose proof (inv_next _ _ _ HI').
  destruct (stableSafeFloor_spec _ _ _ HI) as [[HA Hf]|[Hf Hle]];
  destruct (stableSafeFloor_spec _ _ _ HI') as [[HA' Hf']|[Hf' Hle']]; [set_solver| |set_solver|].
  - assert (stableSafeFloor tr' (next + 1) = next + 1) as -> by set_solver. lia.
  - split; [|apply Hle'; set_solver].
    apply elem_of_union in Hf' as [->%elem_of_singleton|?]; [|by apply Hle].
    apply (inv_range _ _ _ HI) in Hf. lia.
Qed.

Lemma stableSafeFloor_retire tr next A q tr' :
  Inv tr next A → q = 0 ∨ q ∈ A → retire q tr = Done tr' →
  stableSafeFloor tr next ≤ stableSafeFloor tr' next.
Proof.
  intros HI Hq Hr. destruct (retire_Inv _ _ _ _ HI Hq) as (tr'' & Hr' & HI').
  rewrite Hr in Hr'. injection Hr' as <-.
  pose proof (inv_next _ _ _ HI').
  destruct (stableSafeFloor_spec _ _ _ HI) as [[HA Hf]|[Hf Hle]];
  destruct (stableSafeFloor_spec _ _ _ HI') as [[HA' Hf']|[Hf' Hle']];
    [lia|set_solver| |apply Hle; set_solver].
  rewrite Hf'. apply (inv_range _ _ _ HI) in Hf. lia.
Qed.
End AdmissionTracker.
