(* ===== verification/RpcLedger.v ===== *)
(** * The RPC execution ledger

    [internal/mtprotoedge/rpc_execution_ledger.go] and
    [internal/mtprotoedge/rpc_flight.go].  A request is named by
    (auth_key_id, session_id, req_msg_id).  The ledger owns request execution
    identity: a pending flight while the unique owner runs, a receipt after it
    completed, and the callbacks of duplicates that joined.

    Flights, receipts (the list elements that hold them), owner leases and
    reservations are shared by pointer in the source and are kept in heaps
    here.  Every definition below that takes a shard lock in the source is one
    atomic step; callbacks that the source invokes after unlocking are returned
    as [notice]s, in invocation order.  [now] is the reading of the clock, in
    nanoseconds.  Nil receivers are not represented. *)

From S2P Require Import Prelude RpcBudget RpcSubscriberBudget RpcAdmissionTracker.

Module Ledger.

(** 331 seconds, in nanoseconds. *)
Definition rpcExecutionReceiptTTL : Z := 331 * 1000000000.
Definition rpcExecutionMaxEntries : Z := 262144.
Definition rpcExecutionReceiptBudgetBytes : Z := 384.
Definition rpcExecutionLedgerShards : Z := 16.
Definition rpcResultFlightDefaultMaxPending : Z := 32768.

(** Closures registered by callers are compared by nobody; a [callback] is the
    address of one. *)
Abbreviation callback := positive.

Section ledger.
(** [Enc] is [encodedOutboundMessage], whose contents the ledger never reads;
    [Ident] is [tlprofile.PreparedIdentity] of the protocol library, an opaque
    comparable value whose zero value is [inhabitant]. *)
Context `{MH : MapHash} {Enc Ident : Type} `{EqI : EqDecision Ident, InhI : Inhabited Ident}.

(** ** Data *)

Record rpcResultRequestIdentity := mkIdentity {
  exact : Ident;
  profile : Z;
  valid : bool;
}.
Definition noIdentity : rpcResultRequestIdentity := mkIdentity inhabitant 0 false.

Definition matches (i requested : rpcResultRequestIdentity) : bool :=
  if negb (valid requested) then true
  else valid i && bool_decide (exact i = exact requested).

Inductive ledgerError :=
| ErrRPCResultFlightCapacity
| ErrRPCResultSubscriberCapacity
| ErrRPCResultFlightInvalid
| ErrRPCResultIdentityMismatch (p : Z) (hasProfile : bool)
| ErrRPCResultReplayUnavailable
| ErrRPCAdmissionSeqExhausted.

Definition identityMismatch (i : rpcResultRequestIdentity) : ledgerError :=
  ErrRPCResultIdentityMismatch (profile i) (valid i && bool_decide (profile i ≠ 0)).

Record rpcExecutionReceipt := mkReceipt {
  r_key : rpcExecutionKey;
  r_expiresAt : Z;
  r_identity : rpcResultRequestIdentity;
  r_admissionSeq : Z;
  r_executionKnown : bool;
  r_executionOK : bool;
  r_acknowledged : bool;
  r_unavailable : bool;
  r_reservation : option positive;
}.

Record rpcResultFlight := mkFlight {
  f_done : bool;
  f_encoded : option Enc;
  f_ok : bool;
  f_subscribers : list callback;
  f_executionDone : bool;
  f_executionOK : bool;
  f_executionSubscribers : list callback;
  f_acknowledged : bool;
  f_subscriberSlots : Z;
  f_identity : rpcResultRequestIdentity;
  f_admissionSeq : Z;
  f_reservation : option positive;
}.

Record rpcResultWaiter := mkWaiter { w_key : rpcExecutionKey; w_flight : positive }.

Record rpcResultOwnerLease := mkLease {
  o_key : rpcExecutionKey;
  o_flight : positive;
  o_abortHook : option callback;
  o_handedOff : bool;
}.

Inductive rpcResultAcquire :=
| rpcResultAcquireCompleted (seq : Z) (enc : Enc) (executionKnown executionOK : bool)
| rpcResultAcquireAcknowledged (seq : Z) (executionKnown executionOK : bool)
| rpcResultAcquirePending (seq : Z) (waiter : rpcResultWaiter)
| rpcResultAcquireOwner (seq : Z) (owner : positive).

(** [rpcResultDependency]: a waiter, or a completed outcome. *)
Inductive rpcResultDependency :=
| DependencyWaiter (waiter : rpcResultWaiter)
| DependencyCompleted (success : bool).

(** Callback invocations made after the shard lock was released. *)
Inductive notice :=
| ResultNotice (cb : callback) (enc : option Enc) (ok : bool)
| ExecutionNotice (cb : callback) (ok : bool)
| AbortHookNotice (cb : callback).

Record rpcExecutionLedgerShard := mkShard {
  order : list positive;
  byKey : gmap rpcExecutionKey positive;
  pending : gmap rpcExecutionKey positive;
}.

Record rpcExecutionLedger := mkLedger {
  shards : Z → rpcExecutionLedgerShard;
  receiptCount : Z;
  fairBudget : FairBudget.t;
  flightLimit : FlightLimit.t;
  subscriberBudget : SubscriberBudget.t;
  subscriberPerFlight : Z;
  nextAdmissionSeq : Z;
  activeAdmissions : AdmissionTracker.t;
  receipts : gmap positive rpcExecutionReceipt;
  flights : gmap positive rpcResultFlight;
  leases : gmap positive rpcResultOwnerLease;
}.

(** Field updates. *)
Definition set_shard (i : Z) (s : rpcExecutionLedgerShard) (l : rpcExecutionLedger) :=
  mkLedger (λ j, if decide (j = i) then s else shards l j) (receiptCount l) (fairBudget l)
    (flightLimit l) (subscriberBudget l) (subscriberPerFlight l) (nextAdmissionSeq l)
    (activeAdmissions l) (receipts l) (flights l) (leases l).
Definition set_receiptCount (n : Z) (l : rpcExecutionLedger) :=
  mkLedger (shards l) n (fairBudget l)
    (flightLimit l) (subscriberBudget l) (subscriberPerFlight l) (nextAdmissionSeq l)
    (activeAdmissions l) (receipts l) (flights l) (leases l).
Definition set_fairBudget (b : FairBudget.t) (l : rpcExecutionLedger) :=
  mkLedger (shards l) (receiptCount l) b
    (flightLimit l) (subscriberBudget l) (subscriberPerFlight l) (nextAdmissionSeq l)
    (activeAdmissions l) (receipts l) (flights l) (leases l).
Definition set_flightLimit (f : FlightLimit.t) (l : rpcExecutionLedger) :=
  mkLedger (shards l) (receiptCount l) (fairBudget l)
    f (subscriberBudget l) (subscriberPerFlight l) (nextAdmissionSeq l)
    (activeAdmissions l) (receipts l) (flights l) (leases l).
Definition set_subscriberBudget (b : SubscriberBudget.t) (l : rpcExecutionLedger) :=
  mkLedger (shards l) (receiptCount l) (fairBudget l)
    (flightLimit l) b (subscriberPerFlight l) (nextAdmissionSeq l)
    (activeAdmissions l) (receipts l) (flights l) (leases l).
Definition set_admissions (next : Z) (tr : AdmissionTracker.t) (l : rpcExecutionLedger) :=
  mkLedger (shards l) (receiptCount l) (fairBudget l)
    (flightLimit l) (subscriberBudget l) (subscriberPerFlight l) next
    tr (receipts l) (flights l) (leases l).
Definition set_receipt (e : positive) (r : rpcExecutionReceipt) (l : rpcExecutionLedger) :=
  mkLedger (shards l) (receiptCount l) (fairBudget l)
    (flightLimit l) (subscriberBudget l) (subscriberPerFlight l) (nextAdmissionSeq l)
    (activeAdmissions l) (<[e:=r]> (receipts l)) (flights l) (leases l).
Definition set_flight (f : positive) (fl : rpcResultFlight) (l : rpcExecutionLedger) :=
  mkLedger (shards l) (receiptCount l) (fairBudget l)
    (flightLimit l) (subscriberBudget l) (subscriberPerFlight l) (nextAdmissionSeq l)
    (activeAdmissions l) (receipts l) (<[f:=fl]> (flights l)) (leases l).
Definition set_lease (o : positive) (ow : rpcResultOwnerLease) (l : rpcExecutionLedger) :=
  mkLedger (shards l) (receiptCount l) (fairBudget l)
    (flightLimit l) (subscriberBudget l) (subscriberPerFlight l) (nextAdmissionSeq l)
    (activeAdmissions l) (receipts l) (flights l) (<[o:=ow]> (leases l)).

(** ** Construction *)

Record rpcExecutionLedgerCapacity := mkCapacity {
  maxPending : Z;
  maxPendingPerAuth : Z;
  globalMaxEntries : Z;
  authMaxEntries : Z;
  sessionMaxEntries : Z;
  subscriberMaxGlobal : Z;
  subscriberMaxAuth : Z;
  subscriberMaxSession : Z;
  subscriberMaxPerFlight : Z;
}.

Definition orDefault (v d : Z) : Z := if bool_decide (v ≤ 0) then d else v.

Definition newRPCExecutionLedger (c : rpcExecutionLedgerCapacity) : rpcExecutionLedger :=
  let maxPending' := orDefault (maxPending c) rpcResultFlightDefaultMaxPending in
  let maxPendingPerAuth' := orDefault (maxPendingPerAuth c) maxPending' in
  let globalMaxEntries' := orDefault (globalMaxEntries c) rpcExecutionMaxEntries in
  let authMaxEntries' := orDefault (authMaxEntries c) globalMaxEntries' in
  let sessionMaxEntries' := orDefault (sessionMaxEntries c) authMaxEntries' in
  let subscriberMaxGlobal' := orDefault (subscriberMaxGlobal c) SubscriberBudget.maxGlobal in
  let subscriberMaxAuth' := orDefault (subscriberMaxAuth c) SubscriberBudget.maxAuth in
  let subscriberMaxSession' := orDefault (subscriberMaxSession c) SubscriberBudget.maxSession in
  let subscriberMaxPerFlight' := orDefault (subscriberMaxPerFlight c) SubscriberBudget.maxPerFlight in
  mkLedger (λ _, mkShard [] ∅ ∅) 0
    (FairBudget.new globalMaxEntries' authMaxEntries' sessionMaxEntries' maxPendingPerAuth')
    (FlightLimit.mk maxPending' 0)
    (SubscriberBudget.new subscriberMaxGlobal' subscriberMaxAuth' subscriberMaxSession')
    subscriberMaxPerFlight' 0 AdmissionTracker.new ∅ ∅ ∅.

Definition shardIndex (key : rpcExecutionKey) : Z :=
  Z.land (maphash (le_bytes 8 (authKeyID key) ++ le_bytes 8 (sessionID key)
                   ++ le_bytes 8 (reqMsgID key)))
    (rpcExecutionLedgerShards - 1).
Definition shard (l : rpcExecutionLedger) (key : rpcExecutionKey) : rpcExecutionLedgerShard :=
  shards l (shardIndex key).

(** ** Receipts: unlinking, expiry *)

Definition incrementReceiptCount (l : rpcExecutionLedger) : rpcExecutionLedger :=
  set_receiptCount (receiptCount l + 1) l.
Definition decrementReceiptCount (l : rpcExecutionLedger) : Run rpcExecutionLedger :=
  _ ← panic_if (bool_decide (receiptCount l - 1 < 0));
  Done (set_receiptCount (receiptCount l - 1) l).

Definition unlinkElement (i : Z) (e : positive) (l : rpcExecutionLedger)
    : Run (rpcExecutionReceipt * rpcExecutionLedger) :=
  receipt ← deref (receipts l !! e);
  let s := shards l i in
  l ← decrementReceiptCount
        (set_shard i (mkShard (filter (λ e', e' ≠ e) (order s)) (delete (r_key receipt) (byKey s))
                        (pending s)) l);
  Done (receipt, l).

Definition clearReservation (r : rpcExecutionReceipt) : rpcExecutionReceipt :=
  mkReceipt (r_key r) (r_expiresAt r) (r_identity r) (r_admissionSeq r) (r_executionKnown r)
    (r_executionOK r) (r_acknowledged r) (r_unavailable r) None.

Definition removeElement (i : Z) (e : positive) (l : rpcExecutionLedger) : Run rpcExecutionLedger :=
  '(receipt, l) ← unlinkElement i e l;
  match r_reservation receipt with
  | Some rid =>
    b ← FairBudget.release rid (fairBudget l);
    Done (set_receipt e (clearReservation receipt) (set_fairBudget b l))
  | None => Done l
  end.

Fixpoint expireFrom (i now : Z) (todo : list positive) (l : rpcExecutionLedger)
    : Run rpcExecutionLedger :=
  match todo with
  | [] => Done l
  | e :: next =>
    receipt ← deref (receipts l !! e);
    if bool_decide (now < r_expiresAt receipt) then Done l
    else (l ← removeElement i e l; expireFrom i now next l)
  end.
Definition expireLocked (i now : Z) (l : rpcExecutionLedger) : Run rpcExecutionLedger :=
  expireFrom i now (order (shards l i)) l.

(** All shards, one lock at a time; the clock is read for each. *)
Fixpoint expireShards (now : Z → Z) (ix : list Z) (l : rpcExecutionLedger)
    : Run rpcExecutionLedger :=
  match ix with
  | [] => Done l
  | i :: ix => l ← expireLocked i (now i) l; expireShards now ix l
  end.
Definition expireReceipts (now : Z → Z) (l : rpcExecutionLedger) : Run rpcExecutionLedger :=
  expireShards now (seqZ 0 rpcExecutionLedgerShards) l.

Definition receiptBudgetBytes (l : rpcExecutionLedger) : Z :=
  receiptCount l * rpcExecutionReceiptBudgetBytes.
Definition stableAdmissionSafeFloor (l : rpcExecutionLedger) : Z :=
  AdmissionTracker.stableSafeFloor (activeAdmissions l) (nextAdmissionSeq l).

(** ** Acquire *)

Definition newFlight (ident : rpcResultRequestIdentity) (seq : Z) (rid : positive) : rpcResultFlight :=
  mkFlight false None false [] false false [] false 0 ident seq (Some rid).

Definition freshFlight (l : rpcExecutionLedger) : positive := fresh (dom (flights l)).
Definition freshLease (l : rpcExecutionLedger) : positive := fresh (dom (leases l)).
Definition freshReceipt (l : rpcExecutionLedger) : positive := fresh (dom (receipts l)).

Definition installFlight (key : rpcExecutionKey) (fl : rpcResultFlight) (l : rpcExecutionLedger)
    : positive * rpcExecutionLedger :=
  let s := shard l key in
  let f := freshFlight l in
  let o := freshLease l in
  (o, set_lease o (mkLease key f None false)
        (set_shard (shardIndex key) (mkShard (order s) (byKey s) (<[key:=f]> (pending s)))
          (set_flight f fl l))).

(** One round of the loop in [acquire]; [None] is the [continue].
    [replay] is [replayStore.rpcResult], asked after the lock was released. *)
Definition acquireRound (replay : rpcExecutionKey → option Enc) (key : rpcExecutionKey)
    (ident : rpcResultRequestIdentity) (now : Z) (reclaimedExpired : bool) (l : rpcExecutionLedger)
    : Run (rpcExecutionLedger * option (ledgerError + rpcResultAcquire)) :=
  l ← expireLocked (shardIndex key) now l;
  match byKey (shard l key) !! key with
  | Some e =>
    entry ← deref (receipts l !! e);
    Done (l, Some
      (if negb (matches (r_identity entry) ident) then inl (identityMismatch (r_identity entry))
       else if r_acknowledged entry then
         inr (rpcResultAcquireAcknowledged (r_admissionSeq entry)
                (r_executionKnown entry) (r_executionOK entry))
       else if r_unavailable entry then inl ErrRPCResultFlightCapacity
       else match replay key with
       | None => inl ErrRPCResultReplayUnavailable
       | Some enc => inr (rpcResultAcquireCompleted (r_admissionSeq entry) enc
                            (r_executionKnown entry) (r_executionOK entry))
       end))
  | None =>
    match pending (shard l key) !! key with
    | Some f =>
      flight ← deref (flights l !! f);
      Done (l, Some
        (if negb (matches (f_identity flight) ident) then inl (identityMismatch (f_identity flight))
         else if f_acknowledged flight then
           inr (rpcResultAcquireAcknowledged (f_admissionSeq flight)
                  (f_executionDone flight) (f_executionOK flight))
         else inr (rpcResultAcquirePending (f_admissionSeq flight) (mkWaiter key f))))
    | None =>
      match FlightLimit.reserve (flightLimit l) with
      | (false, _) => Done (l, Some (inl ErrRPCResultFlightCapacity))
      | (true, fl) =>
        match FairBudget.reserveOwner key (fairBudget l) with
        | (None, b) =>
          fl ← FlightLimit.release fl;
          Done (set_flightLimit fl (set_fairBudget b l),
                if reclaimedExpired then Some (inl ErrRPCResultFlightCapacity) else None)
        | (Some rid, b) =>
          if valid ident then
            match AdmissionTracker.allocateAndRegister (activeAdmissions l) (nextAdmissionSeq l) with
            | None =>
              b ← FairBudget.release rid b;
              fl ← FlightLimit.release fl;
              Done (set_flightLimit fl (set_fairBudget b l), Some (inl ErrRPCAdmissionSeqExhausted))
            | Some (seq, tr, next) =>
              let l := set_admissions next tr (set_flightLimit fl (set_fairBudget b l)) in
              let '(o, l) := installFlight key (newFlight ident seq rid) l in
              Done (l, Some (inr (rpcResultAcquireOwner seq o)))
            end
          else
            let l := set_flightLimit fl (set_fairBudget b l) in
            let '(o, l) := installFlight key (newFlight ident 0 rid) l in
            Done (l, Some (inr (rpcResultAcquireOwner 0 o)))
        end
      end
    end
  end.

(** The loop; [clock n] are the clock readings of round [n] (own shard, then
    the readings of the sweep over all shards).  Two rounds are enough:
    the second never retries (C5). *)
Fixpoint acquireLoop (fuel : nat) (replay : rpcExecutionKey → option Enc) (key : rpcExecutionKey)
    (ident : rpcResultRequestIdentity) (clock : nat → Z * (Z → Z)) (reclaimedExpired : bool)
    (l : rpcExecutionLedger)
    : Run (rpcExecutionLedger * option (ledgerError + rpcResultAcquire)) :=
  match fuel with
  | O => Done (l, None)
  | S fuel =>
    '(l, r) ← acquireRound replay key ident (clock fuel).1 reclaimedExpired l;
    match r with
    | Some r => Done (l, Some r)
    | None => l ← expireReceipts (clock fuel).2 l;
              acquireLoop fuel replay key ident clock true l
    end
  end.

Definition acquire (replay : rpcExecutionKey → option Enc) (key : rpcExecutionKey)
    (ident : rpcResultRequestIdentity) (clock : nat → Z * (Z → Z)) (l : rpcExecutionLedger)
    : Run (rpcExecutionLedger * option (ledgerError + rpcResultAcquire)) :=
  if bool_decide (reqMsgID key = 0) then Done (l, Some (inl ErrRPCResultFlightInvalid))
  else acquireLoop 2 replay key ident clock false l.

Definition Acquire replay key := acquire replay key noIdentity.
Definition AcquireIdentified replay key (identity : Ident) :=
  acquire replay key (mkIdentity identity 0 true).
Definition AcquireLayerIdentified replay key (p : Z) (identity : Ident) :=
  acquire replay key (mkIdentity identity p true).

(** ** Read-side queries *)

Definition Replay (replay : rpcExecutionKey → option Enc) (key : rpcExecutionKey) (now : Z)
    (l : rpcExecutionLedger) : Run (rpcExecutionLedger * option Enc) :=
  if bool_decide (reqMsgID key = 0) then Done (l, None)
  else match byKey (shard l key) !! key with
  | None => Done (l, None)
  | Some e =>
    receipt ← deref (receipts l !! e);
    if negb (bool_decide (now < r_expiresAt receipt)) then
      l ← removeElement (shardIndex key) e l; Done (l, None)
    else if r_unavailable receipt || r_acknowledged receipt then Done (l, None)
    else Done (l, replay key)
  end.

Definition pendingDependency (key : rpcExecutionKey) (l : rpcExecutionLedger)
    : Run (option rpcResultDependency) :=
  match pending (shard l key) !! key with
  | Some f =>
    flight ← deref (flights l !! f);
    Done (Some (if f_executionDone flight then DependencyCompleted (f_executionOK flight)
                else DependencyWaiter (mkWaiter key f)))
  | None => Done None
  end.

Definition ObserveDependency (key : rpcExecutionKey) (now : Z) (l : rpcExecutionLedger)
    : Run (rpcExecutionLedger * option rpcResultDependency) :=
  if bool_decide (reqMsgID key = 0) then Done (l, None)
  else match byKey (shard l key) !! key with
  | Some e =>
    receipt ← deref (receipts l !! e);
    if bool_decide (now < r_expiresAt receipt) then
      Done (l, if negb (r_executionKnown receipt) then None
               else Some (DependencyCompleted (r_executionOK receipt)))
    else (l ← removeElement (shardIndex key) e l; d ← pendingDependency key l; Done (l, d))
  | None => d ← pendingDependency key l; Done (l, d)
  end.

Definition identityProfile (i : rpcResultRequestIdentity) : option Z :=
  if valid i && bool_decide (profile i ≠ 0) then Some (profile i) else None.

Definition pendingProfile (key : rpcExecutionKey) (l : rpcExecutionLedger) : Run (option Z) :=
  match pending (shard l key) !! key with
  | Some f => flight ← deref (flights l !! f); Done (identityProfile (f_identity flight))
  | None => Done None
  end.

Definition ExactAdmissionProfile (key : rpcExecutionKey) (now : Z) (l : rpcExecutionLedger)
    : Run (rpcExecutionLedger * option Z) :=
  if bool_decide (reqMsgID key = 0) then Done (l, None)
  else match byKey (shard l key) !! key with
  | Some e =>
    entry ← deref (receipts l !! e);
    if bool_decide (now < r_expiresAt entry) then Done (l, identityProfile (r_identity entry))
    else (l ← removeElement (shardIndex key) e l; p ← pendingProfile key l; Done (l, p))
  | None => p ← pendingProfile key l; Done (l, p)
  end.

(** ** Acknowledge *)

Definition ackFlight (fl : rpcResultFlight) : rpcResultFlight :=
  mkFlight (f_done fl) (f_encoded fl) (f_ok fl) (f_subscribers fl) (f_executionDone fl)
    (f_executionOK fl) (f_executionSubscribers fl) true (f_subscriberSlots fl) (f_identity fl)
    (f_admissionSeq fl) (f_reservation fl).

Definition Acknowledge (key : rpcExecutionKey) (now : Z) (l : rpcExecutionLedger)
    : Run (rpcExecutionLedger * bool) :=
  if bool_decide (reqMsgID key = 0) then Done (l, false)
  else
    l ← expireLocked (shardIndex key) now l;
    match byKey (shard l key) !! key with
    | Some e => l ← removeElement (shardIndex key) e l; Done (l, true)
    | None =>
      match pending (shard l key) !! key with
      | Some f => flight ← deref (flights l !! f); Done (set_flight f (ackFlight flight) l, true)
      | None => Done (l, false)
      end
    end.

(** ** Completion *)

(** [slots <= flight.subscriberSlots] or panic; both counters give them back. *)
Definition releaseFlightSubscriberSlotsLocked (key : rpcExecutionKey) (fl : rpcResultFlight)
    (slots : Z) (l : rpcExecutionLedger) : Run (Z * rpcExecutionLedger) :=
  if bool_decide (slots = 0) then Done (f_subscriberSlots fl, l)
  else
    _ ← panic_if (bool_decide (slots < 0) || bool_decide (f_subscriberSlots fl < slots));
    b ← SubscriberBudget.release key slots (subscriberBudget l);
    Done (f_subscriberSlots fl - slots, set_subscriberBudget b l).

(** Publishes [enc] to the current owner claim.  Returns the detached result
    and execution subscribers and the terminal execution outcome. *)
Definition completeRPCResultFlightLocked (key : rpcExecutionKey) (enc : Enc) (l : rpcExecutionLedger)
    : Run (rpcExecutionLedger * (list callback * list callback * bool)) :=
  let s := shard l key in
  match pending s !! key with
  | None => Done (l, ([], [], false))
  | Some f =>
    flight ← deref (flights l !! f);
    let l := set_shard (shardIndex key) (mkShard (order s) (byKey s) (delete key (pending s))) l in
    b ← match f_reservation flight with
        | Some rid => FairBudget.releasePending rid (fairBudget l)
        | None => Done (fairBudget l)
        end;
    fl ← FlightLimit.release (flightLimit l);
    tr ← AdmissionTracker.retire (f_admissionSeq flight) (activeAdmissions l);
    let l := set_admissions (nextAdmissionSeq l) tr (set_flightLimit fl (set_fairBudget b l)) in
    let executionOK := if f_executionDone flight then f_executionOK flight else false in
    '(slots, l) ← releaseFlightSubscriberSlotsLocked key flight
        (Z.of_nat (length (f_subscribers flight) + length (f_executionSubscribers flight))) l;
    _ ← panic_if (f_done flight);
    Done (set_flight f (mkFlight true (Some enc) true [] true executionOK []
                          (f_acknowledged flight) slots (f_identity flight)
                          (f_admissionSeq flight) None) l,
          (f_subscribers flight, f_executionSubscribers flight, executionOK))
  end.

Definition rpcResultFlightMetadataLocked (key : rpcExecutionKey) (l : rpcExecutionLedger)
    : Run (rpcResultRequestIdentity * Z * bool * bool * bool) :=
  match pending (shard l key) !! key with
  | Some f =>
    fl ← deref (flights l !! f);
    Done (f_identity fl, f_admissionSeq fl, f_executionDone fl, f_executionOK fl, f_acknowledged fl)
  | None => Done (noIdentity, 0, false, false, false)
  end.

(** The reservation the receipt will own; [None] for a refused
    [reserveCompleted]. *)
Definition completionReservation (key : rpcExecutionKey) (oldReceipt : option rpcExecutionReceipt)
    (l : rpcExecutionLedger) : Run (option positive * rpcExecutionLedger) :=
  match pending (shard l key) !! key with
  | Some f =>
    flight ← deref (flights l !! f);
    rid ← deref (f_reservation flight);
    Done (Some rid, l)
  | None =>
    match oldReceipt ≫= r_reservation with
    | Some rid => Done (Some rid, l)
    | None => let '(rid, b) := FairBudget.reserveCompleted key (fairBudget l) in
              Done (rid, set_fairBudget b l)
    end
  end.

Definition dropOldReceipt (key : rpcExecutionKey) (old : option positive) (rid : positive)
    (l : rpcExecutionLedger) : Run rpcExecutionLedger :=
  match old with
  | None => Done l
  | Some e =>
    '(oldReceipt, l) ← unlinkElement (shardIndex key) e l;
    match r_reservation oldReceipt with
    | Some rid' =>
      if decide (rid' = rid) then Done l
      else b ← FairBudget.release rid' (fairBudget l);
           Done (set_receipt e (clearReservation oldReceipt) (set_fairBudget b l))
    | None => Done l
    end
  end.

Definition pushReceipt (e : positive) (r : rpcExecutionReceipt) (l : rpcExecutionLedger)
    : rpcExecutionLedger :=
  let s := shard l (r_key r) in
  incrementReceiptCount
    (set_shard (shardIndex (r_key r))
       (mkShard (order s ++ [e]) (<[r_key r := e]> (byKey s)) (pending s))
       (set_receipt e r l)).

(** [false] only when a sweep over the other shards may free the global
    reservation a completion without an owner needs. *)
Definition completeOnce (key : rpcExecutionKey) (enc : Enc) (replayable : bool) (now : Z)
    (l : rpcExecutionLedger) : Run (rpcExecutionLedger * bool * list notice) :=
  l ← expireLocked (shardIndex key) now l;
  let old := byKey (shard l key) !! key in
  oldReceipt ← match old with
               | Some e => r ← deref (receipts l !! e); Done (Some r)
               | None => Done None
               end;
  if bool_decide (is_Some old) && bool_decide (pending (shard l key) !! key = None)
  then Done (l, true, [])
  else
    '(identity, admissionSeq, executionKnown, executionOK, acknowledged) ←
        rpcResultFlightMetadataLocked key l;
    '(reservation, l) ← completionReservation key oldReceipt l;
    match reservation with
    | None => Done (l, false, [])
    | Some rid =>
      l ← dropOldReceipt key old rid l;
      let e := freshReceipt l in
      let l := pushReceipt e
                 (mkReceipt key (now + rpcExecutionReceiptTTL) identity admissionSeq executionKnown
                    executionOK acknowledged (negb replayable) (Some rid)) l in
      '(l, (subscribers, executionSubscribers, terminalOK)) ←
          completeRPCResultFlightLocked key enc l;
      l ← (if acknowledged then removeElement (shardIndex key) e l else Done l);
      Done (l, true,
            ((λ cb, ResultNotice cb (Some enc) true) <$> subscribers)
            ++ ((λ cb, ExecutionNotice cb terminalOK) <$> executionSubscribers))
    end.

(** [clock]: first attempt, sweep, second attempt. *)
Definition Complete (replay : rpcExecutionKey → option Enc) (key : rpcExecutionKey) (enc : Enc)
    (replayable : bool) (now1 : Z) (sweep : Z → Z) (now2 : Z) (l : rpcExecutionLedger)
    : Run (rpcExecutionLedger * list notice) :=
  if bool_decide (reqMsgID key = 0) then Done (l, [])
  else
    let replayable := replayable && bool_decide (is_Some (replay key)) in
    '(l, ok, ns) ← completeOnce key enc replayable now1 l;
    if (ok : bool) then Done (l, ns)
    else
      l ← expireReceipts sweep l;
      '(l, _, ns) ← completeOnce key enc replayable now2 l;
      Done (l, ns).

(** ** Owner leases *)

(** [pending[l.key] == l.flight]: the lease still owns its flight. *)
Definition owns (key : rpcExecutionKey) (f : positive) (l : rpcExecutionLedger) : bool :=
  bool_decide (pending (shard l key) !! key = Some f).

Definition withHook (fn : option callback) (ow : rpcResultOwnerLease) : rpcResultOwnerLease :=
  mkLease (o_key ow) (o_flight ow) fn (o_handedOff ow).

Definition SetAbortHook (o : positive) (fn : option callback) (l : rpcExecutionLedger)
    : Run rpcExecutionLedger :=
  ow ← deref (leases l !! o); Done (set_lease o (withHook fn ow) l).

Definition InstallAbortHook (o : positive) (fn : option callback) (l : rpcExecutionLedger)
    : Run (rpcExecutionLedger * bool) :=
  match fn with
  | None => Done (l, false)
  | Some cb =>
    ow ← deref (leases l !! o);
    if negb (owns (o_key ow) (o_flight ow) l) then Done (l, false)
    else Done (set_lease o (withHook (Some cb) ow) l, true)
  end.

Definition Waiter (ow : rpcResultOwnerLease) : rpcResultWaiter := mkWaiter (o_key ow) (o_flight ow).

Definition CompleteExecution (o : positive) (success : bool) (l : rpcExecutionLedger)
    : Run (rpcExecutionLedger * bool * list notice) :=
  ow ← deref (leases l !! o);
  let key := o_key ow in
  if negb (owns key (o_flight ow) l) then Done (l, false, [])
  else
    fl ← deref (flights l !! o_flight ow);
    if f_executionDone fl then Done (l, false, [])
    else
      '(slots, l) ← releaseFlightSubscriberSlotsLocked key fl
          (Z.of_nat (length (f_executionSubscribers fl))) l;
      Done (set_flight (o_flight ow)
              (mkFlight (f_done fl) (f_encoded fl) (f_ok fl) (f_subscribers fl) true success []
                 (f_acknowledged fl) slots (f_identity fl) (f_admissionSeq fl) (f_reservation fl)) l,
            true, (λ cb, ExecutionNotice cb success) <$> f_executionSubscribers fl).

Definition HandOff (o : positive) (l : rpcExecutionLedger) : Run (rpcExecutionLedger * bool) :=
  ow ← deref (leases l !! o);
  if negb (owns (o_key ow) (o_flight ow) l) then Done (l, false)
  else Done (set_lease o (mkLease (o_key ow) (o_flight ow) (o_abortHook ow) true) l, true).

Definition Abort (o : positive) (l : rpcExecutionLedger)
    : Run (rpcExecutionLedger * bool * list notice) :=
  ow ← deref (leases l !! o);
  if o_handedOff ow then Done (l, false, [])
  else
    let key := o_key ow in
    if negb (owns key (o_flight ow) l) then Done (l, false, [])
    else
      flight ← deref (flights l !! o_flight ow);
      let s := shard l key in
      let l := set_shard (shardIndex key) (mkShard (order s) (byKey s) (delete key (pending s))) l in
      b ← match f_reservation flight with
          | Some rid => FairBudget.release rid (fairBudget l)
          | None => Done (fairBudget l)
          end;
      fl ← FlightLimit.release (flightLimit l);
      tr ← AdmissionTracker.retire (f_admissionSeq flight) (activeAdmissions l);
      let l := set_admissions (nextAdmissionSeq l) tr (set_flightLimit fl (set_fairBudget b l)) in
      '(slots, l) ← releaseFlightSubscriberSlotsLocked key flight
          (Z.of_nat (length (f_subscribers flight) + length (f_executionSubscribers flight))) l;
      _ ← panic_if (f_done flight);
      let l := set_flight (o_flight ow)
                 (mkFlight true (f_encoded flight) (f_ok flight) [] true
                    (if f_executionDone flight then f_executionOK flight else false) []
                    (f_acknowledged flight) slots (f_identity flight)
                    (f_admissionSeq flight) None) l in
      let l := set_lease o (withHook None ow) l in
      Done (l, true,
            match o_abortHook ow with Some cb => [AbortHookNotice cb] | None => [] end
            ++ ((λ cb, ResultNotice cb None false) <$> f_subscribers flight)
            ++ ((λ cb, ExecutionNotice cb false) <$> f_executionSubscribers flight)).

(** ** Waiters *)

(** [Wait]: a published flight wins over a cancelled context; [None] is a
    caller that stays blocked. *)
Definition Wait (w : rpcResultWaiter) (cancelled : bool) (l : rpcExecutionLedger)
    : Run (option (option (option Enc * bool))) :=
  fl ← deref (flights l !! w_flight w);
  Done (if f_done fl then Some (Some (f_encoded fl, f_ok fl))
        else if cancelled then Some None else None).

Definition boolZ (b : bool) : Z := if b then 1 else 0.

(** Nil callbacks are [None]; the error is [None] on success. *)
Definition subscribe (w : rpcResultWaiter) (resultFn executionFn : option callback)
    (l : rpcExecutionLedger) : Run (rpcExecutionLedger * option ledgerError * list notice) :=
  match resultFn, executionFn with
  | None, None => Done (l, Some ErrRPCResultFlightInvalid, [])
  | _, _ =>
    let key := w_key w in
    fl ← deref (flights l !! w_flight w);
    if owns key (w_flight w) l then
      let slots := boolZ (bool_decide (is_Some resultFn))
                   + boolZ (bool_decide (is_Some executionFn) && negb (f_executionDone fl)) in
      let '(admitted, b) :=
        if bool_decide (0 < slots) then
          if bool_decide (f_subscriberSlots fl > subscriberPerFlight l - slots)
          then (false, subscriberBudget l)
          else SubscriberBudget.reserve key slots (subscriberBudget l)
        else (true, subscriberBudget l) in
      if negb admitted then
        Done (set_subscriberBudget b l, Some ErrRPCResultSubscriberCapacity, [])
      else
        let subs := f_subscribers fl ++ match resultFn with Some cb => [cb] | None => [] end in
        let exsubs := f_executionSubscribers fl ++
                      match executionFn with
                      | Some cb => if f_executionDone fl then [] else [cb]
                      | None => [] end in
        Done (set_flight (w_flight w)
                (mkFlight (f_done fl) (f_encoded fl) (f_ok fl) subs (f_executionDone fl)
                   (f_executionOK fl) exsubs (f_acknowledged fl) (f_subscriberSlots fl + slots)
                   (f_identity fl) (f_admissionSeq fl) (f_reservation fl))
                (set_subscriberBudget b l), None,
              match executionFn with
              | Some cb => if f_executionDone fl then [ExecutionNotice cb (f_executionOK fl)] else []
              | None => [] end)
    else if (bool_decide (resultFn = None) || f_done fl)
            && (bool_decide (executionFn = None) || f_executionDone fl) then
      Done (l, None,
            match executionFn with Some cb => [ExecutionNotice cb (f_executionOK fl)] | None => [] end
            ++ match resultFn with Some cb => [ResultNotice cb (f_encoded fl) (f_ok fl)] | None => [] end)
    else Done (l, Some ErrRPCResultFlightInvalid, [])
  end.

Definition Subscribe (w : rpcResultWaiter) (fn : option callback) (l : rpcExecutionLedger) :=
  match fn with
  | None => Done (l, Some ErrRPCResultFlightInvalid, [])
  | Some _ => subscribe w fn None l
  end.
Definition SubscribeExecution (w : rpcResultWaiter) (fn : option callback) (l : rpcExecutionLedger) :=
  match fn with
  | None => Done (l, Some ErrRPCResultFlightInvalid, [])
  | Some _ => subscribe w None fn l
  end.
Definition SubscribeResultAndExecution (w : rpcResultWaiter) (resultFn executionFn : option callback)
    (l : rpcExecutionLedger) :=
  match resultFn, executionFn with
  | Some _, Some _ => subscribe w resultFn executionFn l
  | _, _ => Done (l, Some ErrRPCResultFlightInvalid, [])
  end.

(** ** Session destruction *)

Fixpoint forgetFrom (i auth session : Z) (todo : list positive) (l : rpcExecutionLedger)
    : Run rpcExecutionLedger :=
  match todo with
  | [] => Done l
  | e :: next =>
    receipt ← deref (receipts l !! e);
    l ← (if bool_decide (authKeyID (r_key receipt) = auth)
            && bool_decide (sessionID (r_key receipt) = session)
         then removeElement i e l else Done l);
    forgetFrom i auth session next l
  end.
Definition forgetShard (i auth session : Z) (l : rpcExecutionLedger) : Run rpcExecutionLedger :=
  forgetFrom i auth session (order (shards l i)) l.
Fixpoint forgetShards (auth session : Z) (ix : list Z) (l : rpcExecutionLedger)
    : Run rpcExecutionLedger :=
  match ix with
  | [] => Done l
  | i :: ix => l ← forgetShard i auth session l; forgetShards auth session ix l
  end.
Definition forgetSession (auth session : Z) (l : rpcExecutionLedger) : Run rpcExecutionLedger :=
  forgetShards auth session (seqZ 0 rpcExecutionLedgerShards) l.
End ledger.
End Ledger.
