(* ===== verification/RpcLedgerInv.v ===== *)
(** * The ledger's representation invariant

    [Inv l P R] relates a ledger to its abstract contents: the map [P] of
    pending flights and the map [R] of receipts, both by request key, and
    states that every counter of the ledger counts them.  The section proves
    that each primitive state change keeps it and cannot panic. *)

From S2P Require Import Prelude RpcBudget RpcSubscriberBudget RpcAdmissionTracker RpcLedger.
Import Ledger.

Arguments set_shard {_ _} _ _ _ /.
Arguments set_receiptCount {_ _} _ _ /.
Arguments set_fairBudget {_ _} _ _ /.
Arguments set_flightLimit {_ _} _ _ /.
Arguments set_subscriberBudget {_ _} _ _ /.
Arguments set_admissions {_ _} _ _ _ /.
Arguments set_receipt {_ _} _ _ _ /.
Arguments set_flight {_ _} _ _ _ /.
Arguments set_lease {_ _} _ _ _ /.

Section ledger_inv.
Context `{MH : MapHash} {Enc Ident : Type} `{EqI : EqDecision Ident, InhI : Inhabited Ident}.
Abbreviation ledger := (@rpcExecutionLedger Enc Ident).
Abbreviation flight := (@rpcResultFlight Enc Ident).
Abbreviation receipt := (@rpcExecutionReceipt Ident).
Implicit Types (l : ledger) (fl : flight) (r : receipt) (k key : rpcExecutionKey).
Implicit Types (P : gmap rpcExecutionKey (positive * flight)).
Implicit Types (R : gmap rpcExecutionKey (positive * receipt)).

Definition slotsOf P : gmap rpcExecutionKey Z := (λ p, f_subscriberSlots p.2) <$> P.

(** The shape of a flight that has not been resolved. *)
Record FlightOk (perFlight : Z) fl : Prop := {
  fo_open : f_done fl = false;
  fo_unpublished : f_encoded fl = None ∧ f_ok fl = false;
  fo_slots : f_subscriberSlots fl
             = Z.of_nat (length (f_subscribers fl) + length (f_executionSubscribers fl));
  fo_exec : f_executionDone fl = true → f_executionSubscribers fl = [];
  fo_slots_le : f_subscriberSlots fl ≤ Z.max 0 perFlight;
}.

(** The pending side: flights, their limit, subscriber slots, admissions. *)
Record PInv l P : Prop := {
  pi_pending k : pending (shard l k) !! k = fst <$> P !! k;
  pi_home i k f : pending (shards l i) !! k = Some f → i = shardIndex k;
  pi_flight k f fl : P !! k = Some (f, fl) → flights l !! f = Some fl;
  pi_inj k k' f fl fl' : P !! k = Some (f, fl) → P !! k' = Some (f, fl') → k = k';
  pi_ok k f fl : P !! k = Some (f, fl) → FlightOk (subscriberPerFlight l) fl;
  pi_limit : FlightLimit.used (flightLimit l) = Z.of_nat (size P);
  pi_limit_le : FlightLimit.used (flightLimit l) ≤ Z.max 0 (FlightLimit.max (flightLimit l));
  pi_sub : SubscriberBudget.Inv (subscriberBudget l) (slotsOf P);
  pi_adm : ∃ A, AdmissionTracker.Inv (activeAdmissions l) (nextAdmissionSeq l) A ∧
    ∀ q, q ∈ A ↔ q ≠ 0 ∧ ∃ k f fl, P !! k = Some (f, fl) ∧ f_admissionSeq fl = q;
  pi_adm_inj k k' f f' fl fl' : P !! k = Some (f, fl) → P !! k' = Some (f', fl') →
    f_admissionSeq fl = f_admissionSeq fl' → f_admissionSeq fl ≠ 0 → k = k';
  pi_lease o ow : leases l !! o = Some ow → is_Some (flights l !! o_flight ow);
}.

(** The receipt side: index, expiry order and heap agree. *)
Record RInv l R : Prop := {
  ri_byKey k : byKey (shard l k) !! k = fst <$> R !! k;
  ri_home i k e : byKey (shards l i) !! k = Some e → i = shardIndex k;
  ri_receipt k e r : R !! k = Some (e, r) →
    receipts l !! e = Some r ∧ r_key r = k ∧ e ∈ order (shard l k);
  ri_order i e : e ∈ order (shards l i) → ∃ k r, R !! k = Some (e, r) ∧ shardIndex k = i;
  ri_nodup i : NoDup (order (shards l i));
  ri_count : receiptCount l = Z.of_nat (size R);
}.

(** The reservations: each live one has exactly one owner, of its own key. *)
Record XInv (b : FairBudget.t) P R : Prop := {
  xi_disjoint k : is_Some (R !! k) → P !! k = None;
  xi_flight k f fl : P !! k = Some (f, fl) →
    ∃ rid, f_reservation fl = Some rid ∧
      FairBudget.reservations b !! rid = Some (FairBudget.mkReservation k true false);
  xi_receipt k e r : R !! k = Some (e, r) →
    ∃ rid, r_reservation r = Some rid ∧
      FairBudget.reservations b !! rid = Some (FairBudget.mkReservation k false false);
  xi_owner rid rv : FairBudget.reservations b !! rid = Some rv →
    FairBudget.r_released rv = false →
    (∃ f fl, P !! FairBudget.r_key rv = Some (f, fl) ∧ f_reservation fl = Some rid) ∨
    (∃ e r, R !! FairBudget.r_key rv = Some (e, r) ∧ r_reservation r = Some rid);
  xi_budget : FairBudget.Inv b;
}.

Record Core l P R : Prop := {
  core_P : PInv l P;
  core_R : RInv l R;
  core_X : XInv (fairBudget l) P R;
}.

(** No receipt in the table is acknowledged. *)
Definition Unacked R : Prop := ∀ k e r, R !! k = Some (e, r) → r_acknowledged r = false.

Record Inv l P R : Prop := {
  inv_core : Core l P R;
  inv_unacked : Unacked R;
}.

(** Everything but the receipts is untouched. *)
Record ReceiptFrame l l' : Prop := {
  rf_flights : flights l' = flights l;
  rf_leases : leases l' = leases l;
  rf_limit : flightLimit l' = flightLimit l;
  rf_sub : subscriberBudget l' = subscriberBudget l;
  rf_per : subscriberPerFlight l' = subscriberPerFlight l;
  rf_next : nextAdmissionSeq l' = nextAdmissionSeq l;
  rf_active : activeAdmissions l' = activeAdmissions l;
}.
#[export] Instance ReceiptFrame_po : PreOrder ReceiptFrame.
Proof. split; [by split|]. intros ??? [] []. split; congruence. Qed.

Lemma newRPCExecutionLedger_Inv c : Inv (newRPCExecutionLedger c : ledger) ∅ ∅.
Proof.
  split; [split; split|intros ????]; unfold shard; simpl; intros;
    rewrite ?lookup_empty in *; simplify_map_eq; try done.
  - lia.
  - unfold slotsOf. rewrite fmap_empty. apply SubscriberBudget.sub_new_Inv.
  - exists ∅. split; [apply AdmissionTracker.tracker_new_Inv|]. set_solver.
  - set_solver.
  - by apply NoDup_nil.
  - apply FairBudget.fair_new_Inv.
Qed.

(** ** Sizes *)

Lemma size_delete_Z {A} (m : gmap rpcExecutionKey A) k x :
  m !! k = Some x → Z.of_nat (size (delete k m)) = Z.of_nat (size m) - 1.
Proof.
  intros Hk. pose proof (msum_delete (λ _ _, 1) m k x Hk) as Hs. rewrite !msum_size in Hs. lia.
Qed.
Lemma size_insert_Z {A} (m : gmap rpcExecutionKey A) k x :
  m !! k = None → Z.of_nat (size (<[k:=x]> m)) = Z.of_nat (size m) + 1.
Proof. intros Hk. rewrite map_size_insert_None by done. lia. Qed.
Lemma size_pos_Z {A} (m : gmap rpcExecutionKey A) k x : m !! k = Some x → 1 ≤ Z.of_nat (size m).
Proof.
  intros Hk. assert (size m ≠ 0%nat); [|lia]. intros ->%map_size_empty_inv. simplify_map_eq.
Qed.

(** ** The receipt side *)

Lemma ri_inj l R k k' e r r' :
  RInv l R → R !! k = Some (e, r) → R !! k' = Some (e, r') → k = k'.
Proof.
  intros HI Hk Hk'. apply (ri_receipt _ _ HI) in Hk, Hk'. naive_solver congruence.
Qed.

Lemma RInv_frame l l' R :
  RInv l R → (∀ i, order (shards l' i) = order (shards l i)) →
  (∀ i, byKey (shards l' i) = byKey (shards l i)) →
  receipts l' = receipts l → receiptCount l' = receiptCount l → RInv l' R.
Proof.
  intros [] Ho Hb Hr Hc. split; intros; unfold shard in *; rewrite ?Ho, ?Hb, ?Hr, ?Hc in *; eauto.
Qed.

Lemma RInv_delete l l' R k e r r' :
  RInv l R → R !! k = Some (e, r) →
  (∀ i, byKey (shards l' i) = delete k (byKey (shards l i))) →
  (∀ i, order (shards l' i) = filter (λ e', e' ≠ e) (order (shards l i))) →
  (receipts l' = receipts l ∨ receipts l' = <[e := r']> (receipts l)) →
  receiptCount l' = receiptCount l - 1 → RInv l' (delete k R).
Proof.
  intros HI HR Hb Ho Hrc Hcount.
  split; intros; unfold shard in *; rewrite ?Hb in *.
  - destruct (decide (k = k0)) as [<-|]; simplify_map_eq; [done|]. apply (ri_byKey _ _ HI).
  - apply lookup_delete_Some in H as [_ ?]. eapply ri_home; eauto.
  - apply lookup_delete_Some in H as [Hne HR0].
    destruct (ri_receipt _ _ HI _ _ _ HR0) as (? & ? & ?).
    assert (e ≠ e0) by (intros <-; apply Hne; by eapply ri_inj).
    rewrite Ho, list_elem_of_filter. split_and!; [|done..].
    destruct Hrc as [->| ->]; [done|]. by rewrite lookup_insert_ne.
  - rewrite Ho, list_elem_of_filter in H. destruct H as [Hne He].
    destruct (ri_order _ _ HI _ _ He) as (k0 & r0 & HR0 & Hi).
    exists k0, r0. split; [|done]. apply lookup_delete_Some. naive_solver congruence.
  - rewrite Ho. apply NoDup_filter, (ri_nodup _ _ HI).
  - rewrite Hcount, (ri_count _ _ HI), (size_delete_Z _ _ _ HR). done.
Qed.

Lemma RInv_insert l l' R k e r :
  RInv l R → R !! k = None → receipts l !! e = None → r_key r = k →
  (∀ i, byKey (shards l' i) =
        if decide (i = shardIndex k) then <[k:=e]> (byKey (shards l i)) else byKey (shards l i)) →
  (∀ i, order (shards l' i) =
        if decide (i = shardIndex k) then order (shards l i) ++ [e] else order (shards l i)) →
  receipts l' = <[e := r]> (receipts l) →
  receiptCount l' = receiptCount l + 1 → RInv l' (<[k:=(e, r)]> R).
Proof.
  intros HI HR He Hkey Hb Ho Hrc Hcount.
  assert (Hold : ∀ i e0, e0 ∈ order (shards l i) → e0 ≠ e).
  { intros i e0 Hin ->. destruct (ri_order _ _ HI _ _ Hin) as (k0 & r0 & HR0 & _).
    apply (ri_receipt _ _ HI) in HR0. naive_solver congruence. }
  split; intros; unfold shard in *; rewrite ?Hb in *.
  - destruct (decide (k = k0)) as [<-|]; [rewrite decide_True by done; by simplify_map_eq|].
    rewrite (lookup_insert_ne R) by done. rewrite <-(ri_byKey _ _ HI). unfold shard.
    case_decide; [|done]. by rewrite lookup_insert_ne.
  - case_decide; [|eapply ri_home; eauto].
    apply lookup_insert_Some in H as [[<- _]|[_ ?]]; [done|eapply ri_home; eauto].
  - apply lookup_insert_Some in H as [[<- [= <- <-]]|[Hne HR0]].
    + rewrite Hrc, Ho, decide_True, lookup_insert_eq by done. set_solver.
    + destruct (ri_receipt _ _ HI _ _ _ HR0) as (? & ? & Hin).
      rewrite Hrc, Ho, lookup_insert_ne by naive_solver. split_and!; [done..|].
      case_decide; [|done]. set_solver.
  - rewrite Ho in H. assert (e0 ∈ order (shards l i) ∨ e0 = e ∧ i = shardIndex k) as [Hin|[-> ->]].
    { case_decide; set_solver. }
    + destruct (ri_order _ _ HI _ _ Hin) as (k0 & r0 & HR0 & Hi). exists k0, r0. split; [|done].
      rewrite lookup_insert_ne; naive_solver.
    + exists k, r. by rewrite lookup_insert_eq.
  - rewrite Ho. pose proof (ri_nodup _ _ HI i). case_decide; [|done].
    apply NoDup_app. split_and!; [done| |apply NoDup_singleton].
    intros e0 He0 ->%list_elem_of_singleton. by eapply Hold.
  - rewrite Hcount, (ri_count _ _ HI), size_insert_Z by done. done.
Qed.

(** ** The pending side *)

Lemma PInv_frame l l' P :
  PInv l P → (∀ i, pending (shards l' i) = pending (shards l i)) →
  flights l' = flights l → leases l' = leases l → flightLimit l' = flightLimit l →
  subscriberBudget l' = subscriberBudget l → subscriberPerFlight l' = subscriberPerFlight l →
  nextAdmissionSeq l' = nextAdmissionSeq l → activeAdmissions l' = activeAdmissions l →
  PInv l' P.
Proof.
  intros [] Hp Hf Ho Hl Hs Hpf Hn Ha.
  split; intros; unfold shard in *; rewrite ?Hp, ?Hf, ?Ho, ?Hl, ?Hs, ?Hpf, ?Hn, ?Ha in *; eauto.
Qed.

(** The tracked sequences after installing a flight whose sequence is 0 or
    freshly allocated. *)
Lemma PInv_insert_adm l P k f fl next' tr' :
  PInv l P → P !! k = None →
  (f_admissionSeq fl = 0 ∧ next' = nextAdmissionSeq l ∧ tr' = activeAdmissions l ∨
   AdmissionTracker.allocateAndRegister (activeAdmissions l) (nextAdmissionSeq l)
     = Some (f_admissionSeq fl, tr', next')) →
  ∃ A, AdmissionTracker.Inv tr' next' A ∧
    (∀ q, q ∈ A ↔ q ≠ 0 ∧ ∃ k' f' fl', <[k:=(f, fl)]> P !! k' = Some (f', fl') ∧ f_admissionSeq fl' = q) ∧
    (∀ k' f' fl', P !! k' = Some (f', fl') → f_admissionSeq fl ≠ 0 → f_admissionSeq fl' ≠ f_admissionSeq fl).
Proof.
  intros HI HPk Hadm.
  destruct (pi_adm _ _ HI) as (A & HA & HAP). destruct Hadm as [(H0 & -> & ->)|Halloc].
  - exists A. split_and!; [done| |naive_solver]. intros q. rewrite HAP. split.
    + intros (? & k' & f' & fl' & HP' & ?). split; [done|]. exists k', f', fl'.
      rewrite lookup_insert_ne; naive_solver.
    + intros (? & k' & f' & fl' & HP' & ?). split; [done|]. exists k', f', fl'.
      apply lookup_insert_Some in HP'. naive_solver.
  - pose proof (AdmissionTracker.allocate_Inv _ _ _ _ _ _ HA Halloc) as (HA' & Hq & Hn & Hnot).
    pose proof (AdmissionTracker.inv_next _ _ _ HA).
    eexists; split; [done|]. split.
    + intros q. rewrite elem_of_union, elem_of_singleton, HAP. split.
      * intros [->|(? & k' & f' & fl' & HP' & ?)].
        -- split; [lia|]. exists k, f, fl. by rewrite lookup_insert_eq.
        -- split; [done|]. exists k', f', fl'. rewrite lookup_insert_ne; naive_solver.
      * intros (? & k' & f' & fl' & HP' & ?). apply lookup_insert_Some in HP'. naive_solver.
    + intros k' f' fl' HP' _ Heq. apply Hnot. rewrite <-Heq. apply HAP. split; [lia|eauto].
Qed.

(** Installing the owner's flight: [seq] is 0 or freshly allocated. *)
Lemma PInv_insert l l' P k f fl :
  PInv l P → P !! k = None → flights l !! f = None →
  FlightOk (subscriberPerFlight l) fl → f_subscriberSlots fl = 0 →
  (∀ i, pending (shards l' i) =
        if decide (i = shardIndex k) then <[k:=f]> (pending (shards l i)) else pending (shards l i)) →
  flights l' = <[f := fl]> (flights l) →
  (∀ o ow, leases l' !! o = Some ow → o_flight ow = f ∨ leases l !! o = Some ow) →
  FlightLimit.used (flightLimit l') = FlightLimit.used (flightLimit l) + 1 →
  FlightLimit.used (flightLimit l') ≤ Z.max 0 (FlightLimit.max (flightLimit l')) →
  subscriberBudget l' = subscriberBudget l → subscriberPerFlight l' = subscriberPerFlight l →
  (f_admissionSeq fl = 0 ∧ nextAdmissionSeq l' = nextAdmissionSeq l ∧
     activeAdmissions l' = activeAdmissions l ∨
   AdmissionTracker.allocateAndRegister (activeAdmissions l) (nextAdmissionSeq l)
     = Some (f_admissionSeq fl, activeAdmissions l', nextAdmissionSeq l')) →
  PInv l' (<[k:=(f, fl)]> P).
Proof.
  intros HI HPk Hf Hok Hsl Hp Hfl Hle Hu Hule Hs Hpf Hadm.
  assert (Hold : ∀ k0 f0 fl0, P !! k0 = Some (f0, fl0) → f0 ≠ f).
  { intros k0 f0 fl0 HP0 ->. apply (pi_flight _ _ HI) in HP0. congruence. }
  destruct (PInv_insert_adm l P k f fl (nextAdmissionSeq l') (activeAdmissions l'))
    as (A & HA & HAP & Hfresh); [done..|].
  split; intros; unfold shard in *.
  - rewrite Hp. destruct (decide (k = k0)) as [<-|]; [rewrite decide_True by done; by simplify_map_eq|].
    rewrite (lookup_insert_ne P) by done. rewrite <-(pi_pending _ _ HI). unfold shard.
    case_decide; [|done]. by rewrite lookup_insert_ne.
  - rewrite Hp in H. case_decide; [|eapply pi_home; eauto].
    apply lookup_insert_Some in H as [[<- _]|[_ ?]]; [done|eapply pi_home; eauto].
  - rewrite Hfl. apply lookup_insert_Some in H as [[<- [= <- <-]]|[Hne HP0]]; [by simplify_map_eq|].
    rewrite lookup_insert_ne by naive_solver. by eapply pi_flight.
  - apply lookup_insert_Some in H as [[<- [= <- <-]]|[Hne HP0]];
      apply lookup_insert_Some in H0 as [[<- [= <- ]]|[Hne' HP0']]; try done;
      [naive_solver|naive_solver|by eapply pi_inj].
  - rewrite Hpf. apply lookup_insert_Some in H as [[<- [= <- <-]]|[Hne HP0]]; [done|by eapply pi_ok].
  - rewrite Hu, (pi_limit _ _ HI), size_insert_Z by done. done.
  - done.
  - rewrite Hs. unfold slotsOf. rewrite fmap_insert. simpl. rewrite Hsl.
    apply SubscriberBudget.Inv_insert_zero; [apply HI|]. by rewrite lookup_fmap, HPk.
  - eauto.
  - apply lookup_insert_Some in H as [[<- [= <- <-]]|[Hne HP0]];
      apply lookup_insert_Some in H0 as [[<- [= <- <-]]|[Hne' HP0']]; try done;
      [naive_solver congruence|naive_solver congruence|by eapply pi_adm_inj].
  - rewrite Hfl. destruct (decide (o_flight ow = f)) as [->|]; [rewrite lookup_insert_eq; by eexists|].
    rewrite lookup_insert_ne by done. destruct (Hle _ _ H); [done|]. by eapply pi_lease.
Qed.

(** A pending flight changes in place; its slots follow the budget. *)
Lemma PInv_update l l' P k f fl fl' :
  PInv l P → P !! k = Some (f, fl) →
  FlightOk (subscriberPerFlight l) fl' → f_admissionSeq fl' = f_admissionSeq fl →
  SubscriberBudget.Inv (subscriberBudget l') (<[k := f_subscriberSlots fl']> (slotsOf P)) →
  (∀ i, pending (shards l' i) = pending (shards l i)) →
  flights l' = <[f := fl']> (flights l) →
  (∀ o ow, leases l' !! o = Some ow → ∃ ow', leases l !! o = Some ow' ∧ o_flight ow' = o_flight ow) →
  flightLimit l' = flightLimit l → subscriberPerFlight l' = subscriberPerFlight l →
  nextAdmissionSeq l' = nextAdmissionSeq l → activeAdmissions l' = activeAdmissions l →
  PInv l' (<[k:=(f, fl')]> P).
Proof.
  intros HI HPk Hok Hseq Hsub Hp Hfl Hle Hl Hpf Hn Ha.
  assert (Hlift : ∀ k0 f0 fl0, <[k:=(f, fl')]> P !! k0 = Some (f0, fl0) →
    ∃ fl1, P !! k0 = Some (f0, fl1) ∧ f_admissionSeq fl1 = f_admissionSeq fl0).
  { intros k0 f0 fl0 [[<- [= <- <-]]|[Hne HP0]]%lookup_insert_Some; eauto. }
  split; intros; unfold shard in *; rewrite ?Hp, ?Hl, ?Hpf, ?Hn, ?Ha in *.
  - destruct (decide (k = k0)) as [<-|].
    + rewrite lookup_insert_eq, (pi_pending _ _ HI), HPk. done.
    + rewrite lookup_insert_ne by done. apply (pi_pending _ _ HI).
  - eapply pi_home; eauto.
  - rewrite Hfl. apply lookup_insert_Some in H as [[<- [= <- <-]]|[Hne HP0]]; [by simplify_map_eq|].
    rewrite lookup_insert_ne; [by eapply pi_flight|]. intros <-. apply Hne. by eapply pi_inj.
  - apply Hlift in H as (? & ? & _), H0 as (? & ? & _). by eapply pi_inj.
  - apply lookup_insert_Some in H as [[<- [= <- <-]]|[Hne HP0]]; [done|by eapply pi_ok].
  - rewrite (pi_limit _ _ HI), map_size_insert_Some by eauto. done.
  - apply HI.
  - unfold slotsOf. by rewrite fmap_insert.
  - destruct (pi_adm _ _ HI) as (A & HA & HAP). exists A. split; [done|]. intros q. rewrite HAP. split.
    + intros (? & k' & f' & fl0 & HP' & ?). split; [done|].
      destruct (decide (k = k')) as [<-|]; [exists k, f, fl'; simplify_map_eq; naive_solver congruence|].
      exists k', f', fl0. by rewrite lookup_insert_ne.
    + intros (? & k' & f' & fl0 & HP' & ?). split; [done|]. apply Hlift in HP' as (? & ? & ?).
      naive_solver congruence.
  - apply Hlift in H as (? & ? & ?), H0 as (? & ? & ?). eapply pi_adm_inj; eauto; congruence.
  - rewrite Hfl. apply Hle in H as (ow' & Hw & <-). apply (pi_lease _ _ HI) in Hw.
    destruct (decide (f = o_flight ow')) as [<-|]; [rewrite lookup_insert_eq; by eexists|].
    by rewrite lookup_insert_ne.
Qed.

(** A pending flight is resolved: limit, sequence and slots are given back. *)
Lemma PInv_delete l l' P k f fl fl' :
  PInv l P → P !! k = Some (f, fl) →
  (∀ i, pending (shards l' i) = delete k (pending (shards l i))) →
  flights l' = <[f := fl']> (flights l) →
  (∀ o ow, leases l' !! o = Some ow → ∃ ow', leases l !! o = Some ow' ∧ o_flight ow' = o_flight ow) →
  flightLimit l' = FlightLimit.mk (FlightLimit.max (flightLimit l)) (FlightLimit.used (flightLimit l) - 1) →
  SubscriberBudget.Inv (subscriberBudget l') (<[k := 0]> (slotsOf P)) →
  subscriberPerFlight l' = subscriberPerFlight l →
  nextAdmissionSeq l' = nextAdmissionSeq l →
  AdmissionTracker.retire (f_admissionSeq fl) (activeAdmissions l) = Done (activeAdmissions l') →
  PInv l' (delete k P).
Proof.
  intros HI HPk Hp Hfl Hle Hl Hsub Hpf Hn Ha.
  split; intros; unfold shard in *; rewrite ?Hp, ?Hpf, ?Hn in *.
  - destruct (decide (k = k0)) as [<-|]; simplify_map_eq; [done|]. apply (pi_pending _ _ HI).
  - apply lookup_delete_Some in H as [_ ?]. eapply pi_home; eauto.
  - apply lookup_delete_Some in H as [Hne HP0]. rewrite Hfl, lookup_insert_ne; [by eapply pi_flight|].
    intros <-. apply Hne. by eapply pi_inj.
  - apply lookup_delete_Some in H as [_ HP0], H0 as [_ HP1]. by eapply pi_inj.
  - apply lookup_delete_Some in H as [_ HP0]. by eapply pi_ok.
  - rewrite Hl. simpl. rewrite (pi_limit _ _ HI), (size_delete_Z _ _ _ HPk). done.
  - rewrite Hl. simpl. pose proof (pi_limit_le _ _ HI). lia.
  - apply (SubscriberBudget.Inv_delete_zero _ _ k) in Hsub; [|by rewrite lookup_insert_eq].
    rewrite delete_insert_eq in Hsub. unfold slotsOf in *. by rewrite fmap_delete.
  - destruct (pi_adm _ _ HI) as (A & HA & HAP).
    assert (f_admissionSeq fl = 0 ∨ f_admissionSeq fl ∈ A) as Hq.
    { destruct (decide (f_admissionSeq fl = 0)); [by left|right]. apply HAP. naive_solver. }
    destruct (AdmissionTracker.retire_Inv _ _ _ _ HA Hq) as (tr' & Htr & HA').
    assert (tr' = activeAdmissions l') as -> by congruence. eexists; split; [done|].
    intros q. rewrite elem_of_difference, elem_of_singleton, HAP. split.
    + intros ((? & k' & f' & fl0 & HP' & ?) & Hne). split; [done|]. exists k', f', fl0.
      split; [|done]. apply lookup_delete_Some. split; [|done]. intros <-. naive_solver congruence.
    + intros (? & k' & f' & fl0 & [Hne HP']%lookup_delete_Some & ?). split; [naive_solver|].
      intros Heq. apply Hne. eapply pi_adm_inj; eauto; congruence.
  - apply lookup_delete_Some in H as [_ HP0], H0 as [_ HP1]. by eapply (pi_adm_inj _ _ HI).
  - rewrite Hfl. apply Hle in H as (ow' & Hw & <-). apply (pi_lease _ _ HI) in Hw.
    destruct (decide (f = o_flight ow')) as [<-|]; [rewrite lookup_insert_eq; by eexists|].
    by rewrite lookup_insert_ne.
Qed.

(** ** The reservation side *)

Lemma XInv_flight_update b P R k f fl fl' :
  XInv b P R → P !! k = Some (f, fl) → f_reservation fl' = f_reservation fl →
  XInv b (<[k:=(f, fl')]> P) R.
Proof.
  intros HX HPk Hres. split; try apply HX.
  - intros k0 HR. pose proof (xi_disjoint _ _ _ HX _ HR). rewrite lookup_insert_ne; [done|congruence].
  - intros k0 f0 fl0 [[<- [= <- <-]]|[Hne HP0]]%lookup_insert_Some; [|by eapply xi_flight].
    rewrite Hres. by eapply xi_flight.
  - intros rid rv Hrv Hlive.
    destruct (xi_owner _ _ _ HX _ _ Hrv Hlive) as [(f0 & fl0 & HP0 & ?)|?]; [left|by right].
    destruct (decide (k = FairBudget.r_key rv)) as [->|].
    + exists f, fl'. rewrite lookup_insert_eq. split; [done|congruence].
    + exists f0, fl0. by rewrite lookup_insert_ne.
Qed.

Lemma XInv_release_receipt b P R k e r :
  XInv b P R → R !! k = Some (e, r) →
  ∃ rid b', r_reservation r = Some rid ∧ FairBudget.release rid b = Done b' ∧
    XInv b' P (delete k R).
Proof.
  intros HX HR. destruct (xi_receipt _ _ _ HX _ _ _ HR) as (rid & Hrid & Hres).
  destruct (FairBudget.fair_release_ok rid _ _ (xi_budget _ _ _ HX) Hres) as (b' & Hb & HbI & Hbres);
    [done|]. exists rid, b'. split_and!; [done..|]. split; try done; rewrite ?Hbres; simpl.
  - intros k0 [x [_ Hx]%lookup_delete_Some]. apply (xi_disjoint _ _ _ HX). by eexists.
  - intros k0 f fl HP. destruct (xi_flight _ _ _ HX _ _ _ HP) as (rid0 & ? & ?). exists rid0.
    split; [done|]. rewrite lookup_insert_ne; [done|]. naive_solver.
  - intros k0 e0 r0 [Hne HR0]%lookup_delete_Some.
    destruct (xi_receipt _ _ _ HX _ _ _ HR0) as (rid0 & ? & ?). exists rid0.
    split; [done|]. rewrite lookup_insert_ne; [done|]. naive_solver.
  - intros rid0 rv [[_ <-]|[Hne Hrv]]%lookup_insert_Some; [done|]. intros Hlive.
    destruct (xi_owner _ _ _ HX _ _ Hrv Hlive) as [?|(e0 & r0 & ? & ?)]; [by left|right].
    exists e0, r0. split; [|done]. apply lookup_delete_Some. naive_solver congruence.
Qed.

Lemma XInv_release_flight b P R k f fl :
  XInv b P R → P !! k = Some (f, fl) →
  ∃ rid b', f_reservation fl = Some rid ∧ FairBudget.release rid b = Done b' ∧
    XInv b' (delete k P) R.
Proof.
  intros HX HP. destruct (xi_flight _ _ _ HX _ _ _ HP) as (rid & Hrid & Hres).
  destruct (FairBudget.fair_release_ok rid _ _ (xi_budget _ _ _ HX) Hres) as (b' & Hb & HbI & Hbres);
    [done|]. exists rid, b'. split_and!; [done..|]. split; try done; rewrite ?Hbres; simpl.
  - intros k0 HR0. apply lookup_delete_None. right. by apply (xi_disjoint _ _ _ HX).
  - intros k0 f0 fl0 [Hne HP0]%lookup_delete_Some.
    destruct (xi_flight _ _ _ HX _ _ _ HP0) as (rid0 & ? & ?). exists rid0.
    split; [done|]. rewrite lookup_insert_ne; [done|]. naive_solver.
  - intros k0 e r HR. destruct (xi_receipt _ _ _ HX _ _ _ HR) as (rid0 & ? & ?). exists rid0.
    split; [done|]. rewrite lookup_insert_ne; [done|]. naive_solver.
  - intros rid0 rv [[_ <-]|[Hne Hrv]]%lookup_insert_Some; [done|]. intros Hlive.
    destruct (xi_owner _ _ _ HX _ _ Hrv Hlive) as [(f0 & fl0 & ? & ?)|?]; [left|by right].
    exists f0, fl0. split; [|done]. apply lookup_delete_Some. naive_solver congruence.
Qed.

(** Completion hands the owner's reservation to the receipt. *)
Lemma XInv_transfer b P R k f fl :
  XInv b P R → P !! k = Some (f, fl) →
  ∃ rid b', f_reservation fl = Some rid ∧ FairBudget.releasePending rid b = Done b' ∧
    ∀ e r, r_reservation r = Some rid → XInv b' (delete k P) (<[k:=(e, r)]> R).
Proof.
  intros HX HP. destruct (xi_flight _ _ _ HX _ _ _ HP) as (rid & Hrid & Hres).
  destruct (FairBudget.releasePending_ok rid _ _ (xi_budget _ _ _ HX) Hres)
    as (b' & Hb & HbI & Hbres & _); [done|].
  exists rid, b'. split_and!; [done..|]. intros e r Hr.
  assert (R !! k = None).
  { apply eq_None_not_Some. intros Hsome%(xi_disjoint _ _ _ HX). congruence. }
  split; try done; rewrite ?Hbres; simpl.
  - intros k0 HR0. apply lookup_delete_None. destruct (decide (k = k0)); [by left|right].
    rewrite lookup_insert_ne in HR0 by done. by apply (xi_disjoint _ _ _ HX).
  - intros k0 f0 fl0 [Hne HP0]%lookup_delete_Some.
    destruct (xi_flight _ _ _ HX _ _ _ HP0) as (rid0 & ? & ?). exists rid0.
    split; [done|]. rewrite lookup_insert_ne; [done|]. naive_solver.
  - intros k0 e0 r0 [[<- [= <- <-]]|[Hne HR0]]%lookup_insert_Some.
    { exists rid. by rewrite lookup_insert_eq. }
    destruct (xi_receipt _ _ _ HX _ _ _ HR0) as (rid0 & ? & ?). exists rid0.
    split; [done|]. rewrite lookup_insert_ne; [done|]. naive_solver.
  - intros rid0 rv [[<- <-]|[Hne Hrv]]%lookup_insert_Some; simpl.
    { intros _. right. exists e, r. by rewrite lookup_insert_eq. } intros Hlive.
    destruct (xi_owner _ _ _ HX _ _ Hrv Hlive) as [(f0 & fl0 & ? & ?)|(e0 & r0 & ? & ?)].
    + left. exists f0, fl0. split; [|done]. apply lookup_delete_Some. naive_solver congruence.
    + right. exists e0, r0. split; [|done]. rewrite lookup_insert_ne; [done|]. naive_solver congruence.
Qed.

Lemma XInv_reserve b b' P R k pend rid :
  XInv b P R → P !! k = None → R !! k = None → FairBudget.reserve k pend b = (Some rid, b') →
  FairBudget.Inv b' ∧
  FairBudget.reservations b' !! rid = Some (FairBudget.mkReservation k pend false) ∧
  (if pend then ∀ f fl, f_reservation fl = Some rid → XInv b' (<[k:=(f, fl)]> P) R
   else ∀ e r, r_reservation r = Some rid → XInv b' P (<[k:=(e, r)]> R)).
Proof.
  intros HX HP HR Hb.
  destruct (FairBudget.reserve_Some _ _ _ _ _ (xi_budget _ _ _ HX) Hb) as (HbI & Hfr & Hres).
  split; [done|]. split; [by rewrite Hres, lookup_insert_eq|].
  assert (Hold : ∀ rid0 rv, FairBudget.reservations b !! rid0 = Some rv →
    FairBudget.reservations b' !! rid0 = Some rv).
  { intros rid0 rv Hrv. rewrite Hres, lookup_insert_ne; [done|]. congruence. }
  destruct pend; [intros f fl Hr|intros e r Hr]; (split; [..|done]).
  - intros k0 HR0. rewrite lookup_insert_ne; [by apply (xi_disjoint _ _ _ HX)|].
    intros <-. destruct HR0; congruence.
  - intros k0 f0 fl0 [[<- [= <- <-]]|[Hne HP0]]%lookup_insert_Some.
    { exists rid. by rewrite Hres, lookup_insert_eq. }
    destruct (xi_flight _ _ _ HX _ _ _ HP0) as (rid0 & ? & ?). eauto.
  - intros k0 e0 r0 HR0. destruct (xi_receipt _ _ _ HX _ _ _ HR0) as (rid0 & ? & ?). eauto.
  - intros rid0 rv Hrv Hlive. rewrite Hres in Hrv.
    apply lookup_insert_Some in Hrv as [[<- <-]|[Hne Hrv]]; simpl.
    { left. exists f, fl. by rewrite lookup_insert_eq. }
    destruct (xi_owner _ _ _ HX _ _ Hrv Hlive) as [(f0 & fl0 & ? & ?)|?]; [left|by right].
    exists f0, fl0. rewrite lookup_insert_ne; [done|]. congruence.
  - intros k0 HR0. destruct (decide (k = k0)) as [<-|]; [done|].
    rewrite lookup_insert_ne in HR0 by done. by apply (xi_disjoint _ _ _ HX).
  - intros k0 f0 fl0 HP0. destruct (xi_flight _ _ _ HX _ _ _ HP0) as (rid0 & ? & ?). eauto.
  - intros k0 e0 r0 [[<- [= <- <-]]|[Hne HR0]]%lookup_insert_Some.
    { exists rid. by rewrite Hres, lookup_insert_eq. }
    destruct (xi_receipt _ _ _ HX _ _ _ HR0) as (rid0 & ? & ?). eauto.
  - intros rid0 rv Hrv Hlive. rewrite Hres in Hrv.
    apply lookup_insert_Some in Hrv as [[<- <-]|[Hne Hrv]]; simpl.
    { right. exists e, r. by rewrite lookup_insert_eq. }
    destruct (xi_owner _ _ _ HX _ _ Hrv Hlive) as [?|(e0 & r0 & ? & ?)]; [by left|right].
    exists e0, r0. rewrite lookup_insert_ne; [done|]. congruence.
Qed.
End ledger_inv.
