(* ===== verification/RpcLedgerOps.v ===== *)
(** * The ledger's operations keep its invariant and never panic

    One lemma per operation of [RpcLedger]: from a state related to abstract
    contents [(P, R)] the operation returns (no panic is reachable), and the
    abstract contents change as stated. *)

From S2P Require Import Prelude RpcBudget RpcSubscriberBudget RpcAdmissionTracker RpcLedger RpcLedgerInv.
Import Ledger.

Section ledger_ops.
Context `{MH : MapHash} {Enc Ident : Type} `{EqI : EqDecision Ident, InhI : Inhabited Ident}.
Abbreviation ledger := (@rpcExecutionLedger Enc Ident).
Abbreviation flight := (@rpcResultFlight Enc Ident).
Abbreviation receipt := (@rpcExecutionReceipt Ident).
Implicit Types (l : ledger) (fl : flight) (r : receipt) (k key : rpcExecutionKey).
Implicit Types (P : gmap rpcExecutionKey (positive * flight)).
Implicit Types (R : gmap rpcExecutionKey (positive * receipt)).

Lemma PInv_receipt_frame l l' P :
  PInv l P → ReceiptFrame l l' → (∀ i, pending (shards l' i) = pending (shards l i)) → PInv l' P.
Proof. intros HI [] ?. eapply PInv_frame; eauto. Qed.

(** ** Removing receipts *)

Lemma removeElement_ok l P R k e r :
  Core l P R → R !! k = Some (e, r) →
  ∃ l', removeElement (shardIndex k) e l = Done l' ∧ Core l' P (delete k R) ∧ ReceiptFrame l l' ∧
    (∀ i, order (shards l' i) = filter (λ e', e' ≠ e) (order (shards l i))).
Proof.
  intros [HP HRI HX] HR.
  destruct (ri_receipt _ _ HRI _ _ _ HR) as (Hr & Hkey & Hin).
  destruct (XInv_release_receipt _ _ _ _ _ _ HX HR) as (rid & b' & Hrid & Hb & HX').
  pose proof (size_pos_Z _ _ _ HR). pose proof (ri_count _ _ HRI).
  unfold removeElement, unlinkElement, decrementReceiptCount. rewrite Hr. simpl.
  rewrite bool_decide_eq_false_2 by lia. simpl. rewrite Hrid, Hb. simpl.
  eexists. split; [done|]. rewrite Hkey.
  match goal with |- Core ?l' _ _ ∧ _ => set (l2 := l') end.
  assert (Ho : ∀ i, order (shards l2 i) = filter (λ e', e' ≠ e) (order (shards l i))).
  { intros i. simpl. case_decide; [by subst|].
    symmetry. apply list_filter_id. intros e' He' ->.
    destruct (ri_order _ _ HRI _ _ He') as (k' & r' & HR' & Hi).
    assert (k = k') by (by eapply ri_inj). congruence. }
  assert (Hf : ReceiptFrame l l2) by by split.
  split; [|done]. split; [| |done].
  - eapply PInv_receipt_frame; [done..|]. intros i. simpl. case_decide; by subst.
  - eapply RInv_delete; [done..| |done|by right|done]. intros i. simpl. case_decide; [by subst|].
    symmetry. apply delete_id.
    destruct (byKey (shards l i) !! k) eqn:E; [|done].
    apply (ri_home _ _ HRI) in E. congruence.
Qed.

(** [Dropped Q R R']: receipts disappeared, all of them satisfying [Q]. *)
Definition Dropped (Q : rpcExecutionKey → receipt → Prop) R R' : Prop :=
  R' ⊆ R ∧ ∀ k e r, R !! k = Some (e, r) → R' !! k = None → Q k r.

Lemma Dropped_refl Q R : Dropped Q R R.
Proof. split; [done|]. naive_solver congruence. Qed.
Lemma Dropped_trans Q R1 R2 R3 : Dropped Q R1 R2 → Dropped Q R2 R3 → Dropped Q R1 R3.
Proof.
  intros [H1 HQ1] [H2 HQ2]. split; [by etrans|]. intros k e r Hk Hk3.
  destruct (R2 !! k) as [[e' r']|] eqn:Hk2; [|eauto].
  assert ((e', r') = (e, r)) as [= -> ->]; [|eauto].
  apply (lookup_weaken _ R1) in Hk2; [|done]. congruence.
Qed.
Lemma Dropped_delete (Q : rpcExecutionKey → receipt → Prop) R k e r :
  R !! k = Some (e, r) → Q k r → Dropped Q R (delete k R).
Proof.
  intros Hk HQ. split; [apply delete_subseteq|]. intros k' e' r' Hk' [->|?]%lookup_delete_None;
    naive_solver congruence.
Qed.
Lemma Dropped_mono (Q Q' : rpcExecutionKey → receipt → Prop) R R' :
  (∀ k r, Q k r → Q' k r) → Dropped Q R R' → Dropped Q' R R'.
Proof. intros HQ [? ?]. split; eauto. Qed.
Lemma Dropped_None Q R R' k : Dropped Q R R' → R !! k = None → R' !! k = None.
Proof. intros [Hsub _] ?. by eapply lookup_weaken_None. Qed.
Lemma Dropped_Some Q R R' k x : Dropped Q R R' → R' !! k = Some x → R !! k = Some x.
Proof. intros [Hsub _] ?. by eapply lookup_weaken. Qed.
Lemma Unacked_Dropped Q R R' : Unacked R → Dropped Q R R' → Unacked R'.
Proof. intros HU HD k e r HR. eapply HU, Dropped_Some; eauto. Qed.

Definition expiredBy (now i : Z) (k : rpcExecutionKey) r : Prop :=
  r_expiresAt r ≤ now ∧ shardIndex k = i.

Lemma expireFrom_ok i now todo l P R :
  Core l P R → (∀ e, e ∈ todo → e ∈ order (shards l i)) → NoDup todo →
  ∃ l' R', expireFrom i now todo l = Done l' ∧ Core l' P R' ∧ ReceiptFrame l l' ∧
    Dropped (expiredBy now i) R R'.
Proof.
  revert l R. induction todo as [|e todo IH]; intros l R HC Hin Hnd; simpl.
  { exists l, R. split_and!; [done..|apply Dropped_refl]. }
  apply NoDup_cons in Hnd as [Hnot Hnd].
  destruct (ri_order _ _ (core_R _ _ _ HC) i e) as (k & r & HR & <-); [apply Hin; set_solver|].
  destruct (ri_receipt _ _ (core_R _ _ _ HC) _ _ _ HR) as (-> & _ & _). simpl.
  case_bool_decide as Hexp.
  { exists l, R. split_and!; [done..|apply Dropped_refl]. }
  destruct (removeElement_ok _ _ _ _ _ _ HC HR) as (l1 & -> & HC1 & Hf1 & Ho1). simpl.
  destruct (IH l1 (delete k R)) as (l' & R' & -> & HC' & Hf' & HD); [done| |done|].
  { intros e' He'. rewrite Ho1, list_elem_of_filter. split; [congruence|]. apply Hin. set_solver. }
  exists l', R'. split_and!; [done..|by etrans|]. eapply Dropped_trans; [|done].
  eapply Dropped_delete; [done|]. split; [lia|done].
Qed.

Lemma expireLocked_ok i now l P R :
  Core l P R →
  ∃ l' R', expireLocked i now l = Done l' ∧ Core l' P R' ∧ ReceiptFrame l l' ∧
    Dropped (expiredBy now i) R R'.
Proof. intros HC. apply expireFrom_ok; [done..|]. apply (ri_nodup _ _ (core_R _ _ _ HC)). Qed.

Definition expiredBySweep (now : Z → Z) (k : rpcExecutionKey) r : Prop :=
  r_expiresAt r ≤ now (shardIndex k).

Lemma expireShards_ok now ix l P R :
  Core l P R →
  ∃ l' R', expireShards now ix l = Done l' ∧ Core l' P R' ∧ ReceiptFrame l l' ∧
    Dropped (expiredBySweep now) R R'.
Proof.
  revert l R. induction ix as [|i ix IH]; intros l R HC; simpl.
  { exists l, R. split_and!; [done..|apply Dropped_refl]. }
  destruct (expireLocked_ok i (now i) _ _ _ HC) as (l1 & R1 & -> & HC1 & Hf1 & HD1). simpl.
  destruct (IH _ _ HC1) as (l' & R' & -> & HC' & Hf' & HD').
  exists l', R'. split_and!; [done..|by etrans|]. eapply Dropped_trans; [|done].
  eapply Dropped_mono; [|done]. intros k r [? <-]. done.
Qed.

Definition ofSession (auth session : Z) (k : rpcExecutionKey) : Prop :=
  authKeyID k = auth ∧ sessionID k = session.

Lemma forgetFrom_ok i auth session todo l P R :
  Core l P R → (∀ e, e ∈ todo → e ∈ order (shards l i)) → NoDup todo →
  ∃ l' R', forgetFrom i auth session todo l = Done l' ∧ Core l' P R' ∧ ReceiptFrame l l' ∧
    Dropped (λ k _, ofSession auth session k) R R' ∧
    (∀ k e r, R' !! k = Some (e, r) → e ∈ todo → ¬ ofSession auth session k).
Proof.
  revert l R. induction todo as [|e todo IH]; intros l R HC Hin Hnd; simpl.
  { exists l, R. split_and!; [done..|apply Dropped_refl|set_solver]. }
  apply NoDup_cons in Hnd as [Hnot Hnd].
  destruct (ri_order _ _ (core_R _ _ _ HC) i e) as (k & r & HR & <-); [apply Hin; set_solver|].
  destruct (ri_receipt _ _ (core_R _ _ _ HC) _ _ _ HR) as (-> & Hkey & _). simpl. rewrite Hkey.
  destruct (decide (ofSession auth session k)) as [Hs|Hs].
  - rewrite !bool_decide_eq_true_2 by apply Hs. simpl.
    destruct (removeElement_ok _ _ _ _ _ _ HC HR) as (l1 & -> & HC1 & Hf1 & Ho1). simpl.
    destruct (IH l1 (delete k R)) as (l' & R' & -> & HC' & Hf' & HD & Hgone); [done| |done|].
    { intros e' He'. rewrite Ho1, list_elem_of_filter. split; [congruence|]. apply Hin. set_solver. }
    exists l', R'. split_and!; [done..|by etrans| |].
    { eapply Dropped_trans; [by eapply Dropped_delete|done]. }
    intros k' e' r' HR' [->|He']%elem_of_cons; [|by eapply Hgone].
    apply (Dropped_Some _ _ _ _ _ HD), lookup_delete_Some in HR' as [Hne HR'].
    exfalso. apply Hne. by eapply (ri_inj _ _ _ _ _ _ _ (core_R _ _ _ HC)).
  - replace (bool_decide _ && _) with false; last first.
    { symmetry. apply andb_false_iff. rewrite !bool_decide_eq_false.
      unfold ofSession in Hs. destruct (decide (authKeyID k = auth)); naive_solver. }
    simpl. destruct (IH l R) as (l' & R' & -> & HC' & Hf' & HD & Hgone); [done|set_solver|done|].
    exists l', R'. split_and!; [done..|].
    intros k' e' r' HR' [->|He']%elem_of_cons; [|by eapply Hgone].
    apply (Dropped_Some _ _ _ _ _ HD) in HR'.
    by rewrite <-(ri_inj _ _ _ _ _ _ _ (core_R _ _ _ HC) HR HR').
Qed.

Lemma forgetShards_ok auth session ix l P R :
  Core l P R →
  ∃ l' R', forgetShards auth session ix l = Done l' ∧ Core l' P R' ∧ ReceiptFrame l l' ∧
    Dropped (λ k _, ofSession auth session k) R R' ∧
    (∀ k x, R' !! k = Some x → shardIndex k ∈ ix → ¬ ofSession auth session k).
Proof.
  revert l R. induction ix as [|i ix IH]; intros l R HC; simpl.
  { exists l, R. split_and!; [done..|apply Dropped_refl|set_solver]. }
  destruct (forgetFrom_ok i auth session (order (shards l i)) l P R)
    as (l1 & R1 & Hl1 & HC1 & Hf1 & HD1 & Hg1); [done..|apply (ri_nodup _ _ (core_R _ _ _ HC))|].
  unfold forgetShard. rewrite Hl1. simpl.
  destruct (IH _ _ HC1) as (l' & R' & -> & HC' & Hf' & HD' & Hg').
  exists l', R'. split_and!; [done..|by etrans|by eapply Dropped_trans|].
  intros k [e r] HR' [<-|Hin]%elem_of_cons; [|by eapply Hg'].
  apply (Dropped_Some _ _ _ _ _ HD') in HR'. eapply Hg1; [done|].
  apply (Dropped_Some _ _ _ _ _ HD1), (ri_receipt _ _ (core_R _ _ _ HC)) in HR'. apply HR'.
Qed.

Lemma shardIndex_range k : shardIndex k ∈ seqZ 0 rpcExecutionLedgerShards.
Proof.
  apply elem_of_seqZ. unfold shardIndex.
  replace (rpcExecutionLedgerShards - 1) with (Z.ones 4) by done.
  rewrite Z.land_ones by lia. apply Z.mod_pos_bound. done.
Qed.

(** ** Acquire *)

(** What a duplicate of a known request is answered. *)
Definition receiptOutcome (replay : rpcExecutionKey → option Enc) key
    (ident : @rpcResultRequestIdentity Ident) r : ledgerError + rpcResultAcquire :=
  if negb (matches (r_identity r) ident) then inl (identityMismatch (r_identity r))
  else if r_acknowledged r then
    inr (rpcResultAcquireAcknowledged (r_admissionSeq r) (r_executionKnown r) (r_executionOK r))
  else if r_unavailable r then inl ErrRPCResultFlightCapacity
  else match replay key with
  | None => inl ErrRPCResultReplayUnavailable
  | Some enc => inr (rpcResultAcquireCompleted (r_admissionSeq r) enc
                       (r_executionKnown r) (r_executionOK r))
  end.
Definition flightOutcome key (ident : @rpcResultRequestIdentity Ident) (f : positive) fl
    : ledgerError + rpcResultAcquire :=
  if negb (matches (f_identity fl) ident) then inl (identityMismatch (f_identity fl))
  else if f_acknowledged fl then
    inr (rpcResultAcquireAcknowledged (Enc := Enc) (f_admissionSeq fl) (f_executionDone fl) (f_executionOK fl))
  else inr (rpcResultAcquirePending (f_admissionSeq fl) (mkWaiter key f)).

(** The abstract step of one acquire round on contents [(P, R)] (after
    expiry): answer a known request, refuse, ask for a sweep, or install the
    unique owner. *)
Inductive AcquireStep (replay : rpcExecutionKey → option Enc) key
    (ident : @rpcResultRequestIdentity Ident) (reclaimed : bool) P R :
    (gmap rpcExecutionKey (positive * flight)) → option (ledgerError + rpcResultAcquire) → Prop :=
| AcquireFromReceipt e r :
    R !! key = Some (e, r) →
    AcquireStep replay key ident reclaimed P R P (Some (receiptOutcome replay key ident r))
| AcquireFromFlight f fl :
    R !! key = None → P !! key = Some (f, fl) →
    AcquireStep replay key ident reclaimed P R P (Some (flightOutcome key ident f fl))
| AcquireRefused err :
    R !! key = None → P !! key = None →
    err = ErrRPCResultFlightCapacity ∨ err = ErrRPCAdmissionSeqExhausted →
    AcquireStep replay key ident reclaimed P R P (Some (inl err))
| AcquireRetry :
    R !! key = None → P !! key = None → reclaimed = false →
    AcquireStep replay key ident reclaimed P R P None
| AcquireGranted f seq rid o :
    R !! key = None → P !! key = None → (valid ident = true → seq ≠ 0) →
    AcquireStep replay key ident reclaimed P R (<[key := (f, newFlight ident seq rid)]> P)
      (Some (inr (rpcResultAcquireOwner seq o))).

Lemma installFlight_ok l P R key (ident : @rpcResultRequestIdentity Ident) lim b rid seq tr next :
  Core l P R → P !! key = None → R !! key = None →
  FlightLimit.reserve (flightLimit l) = (true, lim) →
  FairBudget.reserveOwner key (fairBudget l) = (Some rid, b) →
  (seq = 0 ∧ next = nextAdmissionSeq l ∧ tr = activeAdmissions l ∨
   AdmissionTracker.allocateAndRegister (activeAdmissions l) (nextAdmissionSeq l) = Some (seq, tr, next)) →
  Core (installFlight key (newFlight ident seq rid)
          (set_admissions next tr (set_flightLimit lim (set_fairBudget b l)))).2
       (<[key := (freshFlight l, newFlight ident seq rid)]> P) R.
Proof.
  intros [HP HR HX] HPk HRk Hfl Hb Hadm.
  apply FlightLimit.reserveN_true in Hfl as (_ & Hu & Hle & Hm).
  pose proof (pi_limit_le _ _ HP).
  destruct (XInv_reserve _ _ _ _ _ _ _ HX HPk HRk Hb) as (_ & _ & HX').
  split; simpl; [| |by apply HX'].
  - eapply PInv_insert; try done; simpl.
    + apply not_elem_of_dom, is_fresh.
    + split; simpl; try done; lia.
    + intros i. case_decide; by subst.
    + intros o ow [[<- <-]|[_ ?]]%lookup_insert_Some; eauto.
    + lia.
  - eapply RInv_frame; [done|..]; intros; simpl; try case_decide; by subst.
Qed.

Lemma acquireRound_ok replay key (ident : @rpcResultRequestIdentity Ident) now reclaimed l P R :
  Inv l P R →
  ∃ l' res P' R', acquireRound replay key ident now reclaimed l = Done (l', res) ∧ Inv l' P' R' ∧
    Dropped (expiredBy now (shardIndex key)) R R' ∧
    AcquireStep replay key ident reclaimed P R' P' res.
Proof.
  intros [HC HU]. unfold acquireRound.
  destruct (expireLocked_ok (shardIndex key) now _ _ _ HC) as (l1 & R1 & -> & HC1 & Hf1 & HD1).
  pose proof (Unacked_Dropped _ _ _ HU HD1) as HU1. simpl.
  pose proof HC1 as [HP1 HR1 HX1].
  rewrite (ri_byKey _ _ HR1). destruct (R1 !! key) as [[e r]|] eqn:HRk; simpl.
  { destruct (ri_receipt _ _ HR1 _ _ _ HRk) as (-> & _ & _). simpl.
    exists l1. eexists _, P, R1. split_and!; [done|done|done|]. by eapply AcquireFromReceipt. }
  rewrite (pi_pending _ _ HP1). destruct (P !! key) as [[f fl]|] eqn:HPk; simpl.
  { rewrite (pi_flight _ _ HP1 _ _ _ HPk). simpl.
    exists l1. eexists _, P, R1. split_and!; [done|done|done|]. by eapply AcquireFromFlight. }
  destruct (FlightLimit.reserve _) as [[] fl] eqn:Hfl; last first.
  { exists l1. eexists _, P, R1. split_and!; [done|done|done|]. apply AcquireRefused; auto. }
  pose proof Hfl as Hfl'. apply FlightLimit.reserveN_true in Hfl' as (_ & Hu & Hle & Hm).
  pose proof (pi_limit _ _ HP1) as Hlim.
  assert (Hrel : FlightLimit.release fl = Done (flightLimit l1)).
  { unfold FlightLimit.release. rewrite FlightLimit.releaseN_ok by lia.
    destruct (flightLimit l1), fl; simpl in *. do 2 f_equal; lia. }
  destruct (FairBudget.reserveOwner _ _) as [[rid|] b] eqn:Hb; last first.
  { apply FairBudget.reserve_None in Hb as ->. rewrite Hrel. simpl.
    eexists _, _, P, R1. split; [done|]. split; [by destruct l1|]. split; [done|].
    destruct reclaimed; [apply AcquireRefused|apply AcquireRetry]; auto. }
  destruct (valid ident) eqn:Hv; last first.
  { eexists _, _, _, R1. split; [done|]. split; [split; [|done]|split; [done|]].
    - apply (installFlight_ok l1 P R1 key ident fl b rid 0 (activeAdmissions l1) (nextAdmissionSeq l1));
        auto.
    - apply AcquireGranted; [done..|congruence]. }
  destruct (AdmissionTracker.allocateAndRegister _ _) as [[[seq tr] next]|] eqn:Hal; last first.
  { destruct (XInv_reserve _ _ _ _ _ _ _ HX1 HPk HRk Hb) as (HbI & Hres & HX').
    specialize (HX' (freshFlight l1) (newFlight ident 0 rid) eq_refl).
    destruct (XInv_release_flight _ _ _ key _ _ HX' (lookup_insert_eq _ _ _))
      as (rid' & b' & [= <-] & -> & HX''). rewrite Hrel. simpl.
    rewrite delete_insert_id in HX'' by done.
    eexists _, _, P, R1. split; [done|]. split; [split; [split; simpl|done]|split; [done|]].
    - eapply PInv_frame; eauto.
    - eapply RInv_frame; eauto.
    - done.
    - apply AcquireRefused; auto. }
  eexists _, _, _, R1. split; [done|]. split; [split; [|done]|split; [done|]].
  - apply (installFlight_ok l1 P R1 key ident fl b rid seq tr next); auto.
  - apply AcquireGranted; [done..|]. intros _.
    destruct (pi_adm _ _ HP1) as (A & HA & _).
    pose proof (AdmissionTracker.inv_next _ _ _ HA).
    pose proof (AdmissionTracker.allocate_Inv _ _ _ _ _ _ HA Hal). lia.
Qed.

(** ** Resolving a flight *)

Lemma releaseSlots_ok l W key fl n :
  SubscriberBudget.Inv (subscriberBudget l) W → W !! key = Some (f_subscriberSlots fl) →
  0 ≤ n ≤ f_subscriberSlots fl →
  ∃ b, releaseFlightSubscriberSlotsLocked key fl n l
         = Done (f_subscriberSlots fl - n, set_subscriberBudget b l) ∧
       SubscriberBudget.Inv b (<[key := f_subscriberSlots fl - n]> W).
Proof.
  intros HI HW Hn. unfold releaseFlightSubscriberSlotsLocked. case_bool_decide as H0.
  - exists (subscriberBudget l). rewrite H0, Z.sub_0_r. split; [by destruct l|].
    by rewrite insert_id.
  - rewrite !bool_decide_eq_false_2 by lia. simpl.
    destruct (SubscriberBudget.sub_release_ok key n _ _ _ HI HW) as (b & -> & Hb); [lia|]. simpl.
    by exists b.
Qed.

Lemma slotsOf_lookup P k f fl : P !! k = Some (f, fl) → slotsOf P !! k = Some (f_subscriberSlots fl).
Proof. intros HP. unfold slotsOf. by rewrite lookup_fmap, HP. Qed.

(** The counters a resolved flight gives back are all there. *)
Lemma resolve_counters l P k f fl :
  PInv l P → P !! k = Some (f, fl) →
  FlightLimit.release (flightLimit l) =
    Done (FlightLimit.mk (FlightLimit.max (flightLimit l)) (FlightLimit.used (flightLimit l) - 1)) ∧
  ∃ tr, AdmissionTracker.retire (f_admissionSeq fl) (activeAdmissions l) = Done tr.
Proof.
  intros HP HPk. split.
  - unfold FlightLimit.release. apply FlightLimit.releaseN_ok.
    rewrite (pi_limit _ _ HP). pose proof (size_pos_Z _ _ _ HPk). lia.
  - destruct (pi_adm _ _ HP) as (A & HA & HAP).
    destruct (AdmissionTracker.retire_Inv _ _ _ (f_admissionSeq fl) HA) as (tr & ? & _); [|eauto].
    destruct (decide (f_admissionSeq fl = 0)); [by left|right]. apply HAP. naive_solver.
Qed.

Lemma delete_home l P k i :
  PInv l P → i ≠ shardIndex k → pending (shards l i) = delete k (pending (shards l i)).
Proof.
  intros HP Hi. symmetry. apply delete_id. destruct (_ !! k) eqn:E; [|done].
  apply (pi_home _ _ HP) in E. congruence.
Qed.

(** [resolved how fl]: the flight after [how] published or aborted it. *)
Definition resolvedFlight (enc : option Enc) (ok : bool) fl : flight :=
  mkFlight true enc ok [] true (if f_executionDone fl then f_executionOK fl else false) []
    (f_acknowledged fl) 0 (f_identity fl) (f_admissionSeq fl) None.

Lemma completeFlight_ok l P R key enc e r f fl :
  PInv l P → RInv l (<[key := (e, r)]> R) → XInv (fairBudget l) P R → P !! key = Some (f, fl) →
  r_reservation r = f_reservation fl →
  ∃ l', completeRPCResultFlightLocked key enc l =
      Done (l', (f_subscribers fl, f_executionSubscribers fl,
                 if f_executionDone fl then f_executionOK fl else false)) ∧
    Core l' (delete key P) (<[key := (e, r)]> R) ∧
    flights l' = <[f := resolvedFlight (Some enc) true fl]> (flights l) ∧ leases l' = leases l.
Proof.
  intros HP HR HX HPk Hres.
  destruct (XInv_transfer _ _ _ _ _ _ HX HPk) as (rid & b' & Hrid & Hb & HX').
  destruct (resolve_counters _ _ _ _ _ HP HPk) as (Hlim & tr & Htr).
  pose proof (pi_ok _ _ HP _ _ _ HPk) as Hok.
  unfold completeRPCResultFlightLocked. rewrite (pi_pending _ _ HP), HPk. simpl.
  rewrite (pi_flight _ _ HP _ _ _ HPk). simpl. rewrite Hrid, Hb. simpl. rewrite Hlim. simpl.
  rewrite Htr. simpl. rewrite <-(fo_slots _ _ Hok).
  match goal with |- context [releaseFlightSubscriberSlotsLocked key fl _ ?l2] =>
    destruct (releaseSlots_ok l2 (slotsOf P) key fl (f_subscriberSlots fl)) as (sb & -> & Hsb) end.
  { apply (pi_sub _ _ HP). } { by eapply slotsOf_lookup. }
  { pose proof (fo_slots _ _ Hok). lia. }
  simpl. rewrite (fo_open _ _ Hok). simpl. rewrite Z.sub_diag in *.
  eexists. split; [done|]. split; [|done]. split; simpl; [| |apply HX'; congruence].
  - eapply PInv_delete; try done; simpl.
    + intros i. case_decide; [by subst|]. by eapply delete_home.
    + naive_solver.
  - eapply RInv_frame; [done|..]; intros; simpl; try case_decide; by subst.
Qed.

(** ** Complete *)

Definition receiptFor key (now : Z) (replayable : bool) (rid : option positive)
    (o : option flight) : receipt :=
  match o with
  | Some fl => mkReceipt key (now + rpcExecutionReceiptTTL) (f_identity fl) (f_admissionSeq fl)
                 (f_executionDone fl) (f_executionOK fl) (f_acknowledged fl) (negb replayable) rid
  | None => mkReceipt key (now + rpcExecutionReceiptTTL) noIdentity 0 false false false
              (negb replayable) rid
  end.

Definition completionNotices (enc : Enc) fl : list (@notice Enc) :=
  ((λ cb, ResultNotice cb (Some enc) true) <$> f_subscribers fl)
  ++ ((λ cb, ExecutionNotice cb (if f_executionDone fl then f_executionOK fl else false))
      <$> f_executionSubscribers fl).

(** The abstract completion on contents [(P, R)] (after expiry). *)
Inductive CompleteStep key (enc : Enc) (replayable : bool) (now : Z) P R :
    (gmap rpcExecutionKey (positive * flight)) → (gmap rpcExecutionKey (positive * receipt)) →
    bool → list (@notice Enc) → Prop :=
| CompleteAlready x :
    R !! key = Some x → CompleteStep key enc replayable now P R P R true []
| CompleteOwner f fl e :
    R !! key = None → P !! key = Some (f, fl) →
    CompleteStep key enc replayable now P R (delete key P)
      (if f_acknowledged fl then R
       else <[key := (e, receiptFor key now replayable (f_reservation fl) (Some fl))]> R)
      true (completionNotices enc fl)
| CompleteRefused :
    R !! key = None → P !! key = None → CompleteStep key enc replayable now P R P R false []
| CompleteOrphan e rid :
    R !! key = None → P !! key = None →
    CompleteStep key enc replayable now P R P
      (<[key := (e, receiptFor key now replayable (Some rid) None)]> R) true [].

Lemma pushReceipt_RInv l R e r :
  RInv l R → R !! r_key r = None → receipts l !! e = None →
  RInv (pushReceipt e r l) (<[r_key r := (e, r)]> R).
Proof.
  intros HR HRk He. eapply RInv_insert; try done; intros i; simpl; case_decide; by subst.
Qed.
Lemma pushReceipt_PInv l P e r : PInv l P → PInv (pushReceipt e r l) P.
Proof.
  intros HP. eapply PInv_frame; [done|..]; try done. intros i. simpl. case_decide; by subst.
Qed.
Lemma freshReceipt_None l : receipts l !! freshReceipt l = None.
Proof. apply not_elem_of_dom, is_fresh. Qed.

Lemma Unacked_insert R key e r : Unacked R → r_acknowledged r = false → Unacked (<[key:=(e, r)]> R).
Proof. intros HU Hr k e0 r0 [[<- [= <- <-]]|[_ ?]]%lookup_insert_Some; [done|by eapply HU]. Qed.

(** Completion of a pending owner, after expiry. *)
Lemma completeOwner_ok l P R key enc replayable now f fl :
  Inv l P R → R !! key = None → P !! key = Some (f, fl) →
  ∃ l' rid, f_reservation fl = Some rid ∧
    (let e := freshReceipt l in
     '(l, (subscribers, executionSubscribers, terminalOK)) ←
        completeRPCResultFlightLocked key enc
          (pushReceipt e (receiptFor key now replayable (Some rid) (Some fl)) l);
     l ← (if f_acknowledged fl then removeElement (shardIndex key) e l else Done l);
     Done (l, true,
           ((λ cb, ResultNotice cb (Some enc) true) <$> subscribers)
           ++ ((λ cb, ExecutionNotice cb terminalOK) <$> executionSubscribers)))
    = Done (l', true, completionNotices enc fl) ∧
    Inv l' (delete key P)
      (if f_acknowledged fl then R
       else <[key := (freshReceipt l, receiptFor key now replayable (f_reservation fl) (Some fl))]> R) ∧
    flights l' = <[f := resolvedFlight (Some enc) true fl]> (flights l).
Proof.
  intros [[HP HR HX] HU] HRk HPk.
  destruct (xi_flight _ _ _ HX _ _ _ HPk) as (rid & Hrid & _).
  set (r := receiptFor key now replayable (Some rid) (Some fl)).
  destruct (completeFlight_ok (pushReceipt (freshReceipt l) r l) P R key enc (freshReceipt l) r f fl)
    as (l1 & Hl1 & HC1 & Hfl1 & _); [by apply pushReceipt_PInv| |done..|].
  { apply (pushReceipt_RInv l R (freshReceipt l) r); [done..|]. apply freshReceipt_None. }
  rewrite Hrid. destruct (f_acknowledged fl) eqn:Hack.
  - destruct (removeElement_ok _ _ _ key (freshReceipt l) r HC1) as (l2 & Hl2 & HC2 & Hrf & _);
      [by rewrite lookup_insert_eq|].
    rewrite delete_insert_id in HC2 by done. exists l2, rid.
    split_and!; [done| |by split|by rewrite (rf_flights _ _ Hrf)].
    cbv zeta. fold r. rewrite Hl1. simpl. by rewrite Hl2.
  - exists l1, rid. split_and!; [done| |split; [done|by apply Unacked_insert]|done].
    cbv zeta. fold r. by rewrite Hl1.
Qed.

Lemma completeOnce_ok l P R key enc replayable now :
  Inv l P R →
  ∃ l' ok ns P' R1 R', completeOnce key enc replayable now l = Done (l', ok, ns) ∧ Inv l' P' R' ∧
    Dropped (expiredBy now (shardIndex key)) R R1 ∧
    CompleteStep key enc replayable now P R1 P' R' ok ns.
Proof.
  intros [HC HU]. unfold completeOnce.
  destruct (expireLocked_ok (shardIndex key) now _ _ _ HC) as (l1 & R1 & -> & HC1 & Hf1 & HD1).
  pose proof (Unacked_Dropped _ _ _ HU HD1) as HU1. simpl. pose proof HC1 as [HP1 HR1 HX1].
  rewrite (ri_byKey _ _ HR1), (pi_pending _ _ HP1).
  destruct (R1 !! key) as [[e r]|] eqn:HRk; simpl.
  { rewrite (xi_disjoint _ _ _ HX1 key) by (rewrite HRk; by eexists).
    destruct (ri_receipt _ _ HR1 _ _ _ HRk) as (-> & _ & _). simpl.
    eexists l1, true, [], P, R1, R1. split_and!; [done|done|done|]. by eapply CompleteAlready. }
  unfold rpcResultFlightMetadataLocked, completionReservation. rewrite (pi_pending _ _ HP1).
  destruct (P !! key) as [[f fl]|] eqn:HPk; simpl.
  - rewrite (pi_flight _ _ HP1 _ _ _ HPk). simpl.
    destruct (completeOwner_ok l1 P R1 key enc replayable now f fl)
      as (l2 & rid & Hrid & Hl2 & HI2 & _); [done..|].
    rewrite Hrid. simpl. simpl in Hl2. rewrite Hl2.
    eexists l2, true, _, _, R1, _. split_and!; [done|done|done|]. by eapply CompleteOwner.
  - destruct (FairBudget.reserveCompleted key (fairBudget l1)) as [[rid|] b] eqn:Hb; simpl; last first.
    { apply FairBudget.reserve_None in Hb as ->.
      eexists _, false, [], P, R1, R1. split_and!; [done|by destruct l1|done|]. by apply CompleteRefused. }
    destruct (XInv_reserve _ _ _ _ _ _ _ HX1 HPk HRk Hb) as (_ & _ & HX').
    unfold completeRPCResultFlightLocked.
    set (r := receiptFor key now replayable (Some rid) None).
    match goal with |- context [pushReceipt ?e0 ?r0 ?l0] =>
      assert (HP2 : PInv (pushReceipt e0 r0 l0) P); [|
      assert (HR2 : RInv (pushReceipt e0 r0 l0) (<[key := (e0, r)]> R1)); [|
      set (l2 := pushReceipt e0 r0 l0) in *]] end.
    { apply pushReceipt_PInv. eapply PInv_frame; eauto. }
    { eapply (pushReceipt_RInv _ _ _ r); [|done|apply not_elem_of_dom, is_fresh].
      eapply RInv_frame; eauto. }
    rewrite (pi_pending _ _ HP2), HPk. simpl.
    eexists l2, true, [], P, R1, _. split_and!; [done| |done|by apply CompleteOrphan].
    split; [split; [done|done|]|by apply Unacked_insert]. by apply HX'.
Qed.

(** What a completion publishes when its owner is pending: the receipts that
    were expired are gone, the flight is resolved with the result. *)
Lemma completeOnce_publishes l P R key enc replayable now f fl :
  Inv l P R → P !! key = Some (f, fl) →
  ∃ l' e R1, completeOnce key enc replayable now l = Done (l', true, completionNotices enc fl) ∧
    Inv l' (delete key P)
      (if f_acknowledged fl then R1
       else <[key := (e, receiptFor key now replayable (f_reservation fl) (Some fl))]> R1) ∧
    flights l' !! f = Some (resolvedFlight (Some enc) true fl) ∧
    Dropped (expiredBy now (shardIndex key)) R R1.
Proof.
  intros [HC HU] HPk. unfold completeOnce.
  destruct (expireLocked_ok (shardIndex key) now _ _ _ HC) as (l1 & R1 & -> & HC1 & Hf1 & HD1).
  pose proof (Unacked_Dropped _ _ _ HU HD1) as HU1. simpl. pose proof HC1 as [HP1 HR1 HX1].
  assert (HRk : R1 !! key = None).
  { destruct (R1 !! key) eqn:E; [|done]. rewrite (xi_disjoint _ _ _ HX1 key) in HPk; [done|by eexists]. }
  unfold rpcResultFlightMetadataLocked, completionReservation.
  rewrite (ri_byKey _ _ HR1), (pi_pending _ _ HP1), HRk, HPk. simpl.
  rewrite (pi_flight _ _ HP1 _ _ _ HPk). simpl.
  destruct (completeOwner_ok l1 P R1 key enc replayable now f fl)
    as (l2 & rid & Hrid & Hl2 & HI2 & Hfl2); [done..|].
  rewrite Hrid. simpl. simpl in Hl2. rewrite Hl2.
  exists l2, (freshReceipt l1), R1. rewrite <-Hrid.
  split_and!; [done|done|by rewrite Hfl2, lookup_insert_eq|done].
Qed.

(** ** In-place changes of a pending flight *)

Lemma updateFlight_Inv l l' P R k f fl fl' :
  Inv l P R → P !! k = Some (f, fl) → FlightOk (subscriberPerFlight l) fl' →
  f_admissionSeq fl' = f_admissionSeq fl → f_reservation fl' = f_reservation fl →
  SubscriberBudget.Inv (subscriberBudget l') (<[k := f_subscriberSlots fl']> (slotsOf P)) →
  l' = set_flight f fl' (set_subscriberBudget (subscriberBudget l') l) →
  Inv l' (<[k := (f, fl')]> P) R.
Proof.
  intros [[HP HR HX] HU] HPk Hok Hseq Hres Hsub Heq. split; [|done]. rewrite Heq. split; simpl.
  - eapply PInv_update; try done; simpl. naive_solver.
  - eapply RInv_frame; eauto.
  - by eapply XInv_flight_update.
Qed.

Inductive AckStep key P R :
    (gmap rpcExecutionKey (positive * flight)) → (gmap rpcExecutionKey (positive * receipt)) →
    bool → Prop :=
| AckReceipt x : R !! key = Some x → AckStep key P R P (delete key R) true
| AckFlight f fl : R !! key = None → P !! key = Some (f, fl) →
    AckStep key P R (<[key := (f, ackFlight fl)]> P) R true
| AckUnknown : R !! key = None → P !! key = None → AckStep key P R P R false.

Lemma Acknowledge_ok l P R key now :
  Inv l P R → reqMsgID key ≠ 0 →
  ∃ l' ok P' R1 R', Acknowledge key now l = Done (l', ok) ∧ Inv l' P' R' ∧
    Dropped (expiredBy now (shardIndex key)) R R1 ∧ AckStep key P R1 P' R' ok.
Proof.
  intros [HC HU] Hreq. unfold Acknowledge. rewrite bool_decide_eq_false_2 by done.
  destruct (expireLocked_ok (shardIndex key) now _ _ _ HC) as (l1 & R1 & -> & HC1 & Hf1 & HD1).
  pose proof (Unacked_Dropped _ _ _ HU HD1) as HU1. simpl. pose proof HC1 as [HP1 HR1 HX1].
  rewrite (ri_byKey _ _ HR1). destruct (R1 !! key) as [[e r]|] eqn:HRk; simpl.
  { destruct (removeElement_ok _ _ _ _ _ _ HC1 HRk) as (l2 & -> & HC2 & _ & _). simpl.
    eexists l2, true, P, R1, _. split_and!; [done| |done|by eapply AckReceipt].
    split; [done|]. intros k e0 r0 [_ ?]%lookup_delete_Some. by eapply HU1. }
  rewrite (pi_pending _ _ HP1). destruct (P !! key) as [[f fl]|] eqn:HPk; simpl.
  - rewrite (pi_flight _ _ HP1 _ _ _ HPk). simpl.
    eexists _, true, _, R1, R1. split_and!; [done| |done|by apply AckFlight].
    pose proof (pi_ok _ _ HP1 _ _ _ HPk) as [].
    eapply (updateFlight_Inv l1); try done; simpl.
    rewrite insert_id; [apply HP1|by eapply slotsOf_lookup].
  - eexists l1, false, P, R1, R1. split_and!; [done|done|done|by apply AckUnknown].
Qed.

Lemma owns_iff l P k f : PInv l P → owns k f l = true ↔ ∃ fl, P !! k = Some (f, fl).
Proof.
  intros HP. unfold owns. rewrite bool_decide_eq_true, (pi_pending _ _ HP).
  destruct (P !! k) as [[f' fl]|]; naive_solver.
Qed.

Definition executedFlight (success : bool) fl : flight :=
  mkFlight (f_done fl) (f_encoded fl) (f_ok fl) (f_subscribers fl) true success []
    (f_acknowledged fl) (Z.of_nat (length (f_subscribers fl))) (f_identity fl)
    (f_admissionSeq fl) (f_reservation fl).

(** [CompleteExecution] publishes the outcome once, to every waiter for it. *)
Lemma CompleteExecution_ok l P R o ow success :
  Inv l P R → leases l !! o = Some ow →
  (∃ fl, P !! o_key ow = Some (o_flight ow, fl) ∧ f_executionDone fl = false ∧
     ∃ l', CompleteExecution o success l =
       Done (l', true, (λ cb, ExecutionNotice cb success) <$> f_executionSubscribers fl) ∧
       Inv l' (<[o_key ow := (o_flight ow, executedFlight success fl)]> P) R) ∨
  (CompleteExecution o success l = Done (l, false, []) ∧
   ∀ fl, P !! o_key ow = Some (o_flight ow, fl) → f_executionDone fl = true).
Proof.
  intros HI Ho. pose proof HI as [[HP HR HX] HU]. unfold CompleteExecution. rewrite Ho. simpl.
  destruct (owns (o_key ow) (o_flight ow) l) eqn:Hown; simpl; last first.
  { right. split; [done|]. intros fl HPk.
    assert (owns (o_key ow) (o_flight ow) l = true); [|congruence]. apply (owns_iff _ _ _ _ HP). eauto. }
  apply (owns_iff _ _ _ _ HP) in Hown as [fl HPk]. rewrite (pi_flight _ _ HP _ _ _ HPk). simpl.
  destruct (f_executionDone fl) eqn:Hd; [right; split; [done|congruence]|left].
  exists fl. split_and!; [done|done|]. pose proof (pi_ok _ _ HP _ _ _ HPk) as Hok.
  pose proof (fo_slots _ _ Hok) as Hsl.
  destruct (releaseSlots_ok l (slotsOf P) (o_key ow) fl (Z.of_nat (length (f_executionSubscribers fl))))
    as (b & -> & Hb); [apply HP|by eapply slotsOf_lookup|lia|]. simpl.
  eexists. split; [done|].
  replace (f_subscriberSlots fl - _) with (Z.of_nat (length (f_subscribers fl))) in * by lia.
  eapply (updateFlight_Inv l); try done. destruct Hok. split; simpl; try done; lia.
Qed.

(** ** Abort *)

Definition abortNotices (hook : option callback) fl : list (@notice Enc) :=
  match hook with Some cb => [AbortHookNotice cb] | None => [] end
  ++ ((λ cb, ResultNotice cb None false) <$> f_subscribers fl)
  ++ ((λ cb, ExecutionNotice cb false) <$> f_executionSubscribers fl).

Lemma Abort_ok l P R o ow :
  Inv l P R → leases l !! o = Some ow →
  (∃ fl, P !! o_key ow = Some (o_flight ow, fl) ∧ o_handedOff ow = false ∧
     ∃ l', Abort o l = Done (l', true, abortNotices (o_abortHook ow) fl) ∧
       Inv l' (delete (o_key ow) P) R) ∨
  (Abort o l = Done (l, false, []) ∧
   (o_handedOff ow = true ∨ ∀ fl, P !! o_key ow ≠ Some (o_flight ow, fl))).
Proof.
  intros HI Ho. pose proof HI as [[HP HR HX] HU]. unfold Abort. rewrite Ho. simpl.
  destruct (o_handedOff ow) eqn:Hh; [right; by eauto|].
  destruct (owns (o_key ow) (o_flight ow) l) eqn:Hown; simpl; last first.
  { right. split; [done|]. right. intros fl HPk.
    assert (owns (o_key ow) (o_flight ow) l = true); [|congruence]. apply (owns_iff _ _ _ _ HP). eauto. }
  apply (owns_iff _ _ _ _ HP) in Hown as [fl HPk]. rewrite (pi_flight _ _ HP _ _ _ HPk). simpl.
  left. exists fl. split_and!; [done|done|].
  destruct (XInv_release_flight _ _ _ _ _ _ HX HPk) as (rid & b' & Hrid & Hb & HX').
  destruct (resolve_counters _ _ _ _ _ HP HPk) as (Hlim & tr & Htr).
  pose proof (pi_ok _ _ HP _ _ _ HPk) as Hok. pose proof (fo_slots _ _ Hok) as Hsl.
  rewrite Hrid, Hb. simpl. rewrite Hlim. simpl. rewrite Htr. simpl. rewrite <-Hsl.
  match goal with |- context [releaseFlightSubscriberSlotsLocked ?key fl _ ?l2] =>
    destruct (releaseSlots_ok l2 (slotsOf P) key fl (f_subscriberSlots fl)) as (sb & -> & Hsb) end;
    [apply (pi_sub _ _ HP)|by eapply slotsOf_lookup|lia|].
  simpl. rewrite (fo_open _ _ Hok). simpl. rewrite Z.sub_diag in *.
  eexists. split; [done|]. split; [|done]. split; simpl; [| |done].
  - eapply PInv_delete; try done; simpl.
    + intros i. case_decide; [by subst|]. by eapply delete_home.
    + intros o' ow' [[<- <-]|[_ ?]]%lookup_insert_Some; naive_solver.
  - eapply RInv_frame; [done|..]; intros; simpl; try case_decide; by subst.
Qed.

(** ** Subscriptions *)

Definition optList {A} (o : option A) : list A := match o with Some a => [a] | None => [] end.

Definition lateSlots (rf ef : option callback) fl : list callback * list callback :=
  (optList rf, if f_executionDone fl then [] else optList ef).

Definition subscribedFlight (rf ef : option callback) fl : flight :=
  mkFlight (f_done fl) (f_encoded fl) (f_ok fl) (f_subscribers fl ++ optList rf) (f_executionDone fl)
    (f_executionOK fl) (f_executionSubscribers fl ++ (if f_executionDone fl then [] else optList ef))
    (f_acknowledged fl)
    (f_subscriberSlots fl + Z.of_nat (length (optList rf)
       + length (if f_executionDone fl then [] else optList ef)))
    (f_identity fl) (f_admissionSeq fl) (f_reservation fl).

Definition executionNotices (ef : option callback) fl : list (@notice Enc) :=
  (λ cb, ExecutionNotice cb (f_executionOK fl)) <$> optList ef.
Definition resultNotices (rf : option callback) fl : list (@notice Enc) :=
  (λ cb, ResultNotice cb (f_encoded fl) (f_ok fl)) <$> optList rf.

(** Subscribing on abstract contents [P], for a waiter of flight [fl]. *)
Inductive SubscribeStep (w : rpcResultWaiter) (rf ef : option callback) fl P :
    (gmap rpcExecutionKey (positive * flight)) → option ledgerError → list (@notice Enc) → Prop :=
| SubscribeJoined :
    P !! w_key w = Some (w_flight w, fl) →
    SubscribeStep w rf ef fl P (<[w_key w := (w_flight w, subscribedFlight rf ef fl)]> P) None
      (if f_executionDone fl then executionNotices ef fl else [])
| SubscribeFull :
    P !! w_key w = Some (w_flight w, fl) →
    SubscribeStep w rf ef fl P P (Some ErrRPCResultSubscriberCapacity) []
| SubscribeLate :
    (∀ fl', P !! w_key w ≠ Some (w_flight w, fl')) →
    (rf = None ∨ f_done fl = true) → (ef = None ∨ f_executionDone fl = true) →
    SubscribeStep w rf ef fl P P None (executionNotices ef fl ++ resultNotices rf fl)
| SubscribeInvalid :
    SubscribeStep w rf ef fl P P (Some ErrRPCResultFlightInvalid) [].

Lemma boolZ_optList (rf : option callback) :
  boolZ (bool_decide (is_Some rf)) = Z.of_nat (length (optList rf)).
Proof. destruct rf; [rewrite bool_decide_eq_true_2 by eauto|rewrite bool_decide_eq_false_2 by by intros []]; done. Qed.
Lemma boolZ_optList_exec (ef : option callback) (b : bool) :
  boolZ (bool_decide (is_Some ef) && negb b) = Z.of_nat (length (if b then [] else optList ef)).
Proof.
  destruct b; simpl; [by rewrite andb_false_r|]. rewrite andb_true_r. apply boolZ_optList.
Qed.

(** A joined subscription keeps the invariant once the budget took it. *)
Lemma subscribedFlight_Inv l P R w rf ef fl b (n : nat) :
  Inv l P R → P !! w_key w = Some (w_flight w, fl) →
  n = (length (optList rf) + length (if f_executionDone fl then [] else optList ef))%nat →
  SubscriberBudget.Inv b (<[w_key w := f_subscriberSlots fl + Z.of_nat n]> (slotsOf P)) →
  f_subscriberSlots fl + Z.of_nat n ≤ Z.max 0 (subscriberPerFlight l) →
  Inv (set_flight (w_flight w) (subscribedFlight rf ef fl) (set_subscriberBudget b l))
    (<[w_key w := (w_flight w, subscribedFlight rf ef fl)]> P) R.
Proof.
  intros HI HPk -> Hb Hle. pose proof HI as [[HP _ _] _].
  pose proof (pi_ok _ _ HP _ _ _ HPk) as [? ? Hslots Hexec ?]. eapply (updateFlight_Inv l); try done.
  split; simpl; try done.
  - rewrite Hslots, !length_app. lia.
  - intros Hd. rewrite Hexec by done. by rewrite Hd.
Qed.

(** The admission test of [subscribe]. *)
Lemma subscribeAdmission_ok l P R w rf ef fl (n : nat) :
  Inv l P R → P !! w_key w = Some (w_flight w, fl) →
  n = (length (optList rf) + length (if f_executionDone fl then [] else optList ef))%nat →
  ∃ adm b, (if bool_decide (0 < Z.of_nat n) then
      if bool_decide (f_subscriberSlots fl > subscriberPerFlight l - Z.of_nat n)
      then (false, subscriberBudget l)
      else SubscriberBudget.reserve (w_key w) (Z.of_nat n) (subscriberBudget l)
      else (true, subscriberBudget l)) = (adm, b) ∧
    (adm = false ∧ b = subscriberBudget l ∨
     adm = true ∧ Inv (set_flight (w_flight w) (subscribedFlight rf ef fl) (set_subscriberBudget b l))
      (<[w_key w := (w_flight w, subscribedFlight rf ef fl)]> P) R).
Proof.
  intros HI HPk Hn. pose proof HI as [[HP _ _] _]. pose proof (pi_ok _ _ HP _ _ _ HPk) as Hok.
  pose proof (fo_slots_le _ _ Hok). case_bool_decide as Hpos.
  - case_bool_decide as Hfull; [eauto 6|].
    destruct (SubscriberBudget.reserve _ _ _) as [[] b] eqn:Hb; eexists _, b; (split; [done|]).
    + right. split; [done|].
      apply (SubscriberBudget.reserve_true _ _ _ _ (slotsOf P) (f_subscriberSlots fl)) in Hb as [Hb _];
        [|apply HP|by eapply slotsOf_lookup]. eapply subscribedFlight_Inv; [done..|]. lia.
    + left. split; [done|]. by eapply SubscriberBudget.reserve_false.
  - eexists _, _; (split; [done|]). right. split; [done|].
    eapply (subscribedFlight_Inv _ _ _ _ _ _ _ _ n); [done..| |lia].
    replace (Z.of_nat n) with 0 by lia. rewrite Z.add_0_r, insert_id; [apply HP|by eapply slotsOf_lookup].
Qed.

Lemma subscribe_ok l P R w rf ef fl :
  Inv l P R → flights l !! w_flight w = Some fl →
  ∃ l' err ns P', subscribe w rf ef l = Done (l', err, ns) ∧ Inv l' P' R ∧
    SubscribeStep w rf ef fl P P' err ns.
Proof.
  intros HI Hfl. pose proof HI as [[HP HR HX] HU].
  destruct (decide (rf = None ∧ ef = None)) as [[-> ->]|Hsome].
  { eexists l, _, [], P. split_and!; [done|done|]. apply SubscribeInvalid. }
  assert (Hun : ∀ X (a b : X), match rf, ef with None, None => a | _, _ => b end = b).
  { intros. destruct rf, ef; naive_solver. }
  unfold subscribe. rewrite Hun, Hfl. simpl. clear Hun.
  destruct (owns (w_key w) (w_flight w) l) eqn:Hown; last first.
  { assert (Hno : ∀ fl', P !! w_key w ≠ Some (w_flight w, fl')).
    { intros fl' HPk. assert (owns (w_key w) (w_flight w) l = true); [|congruence].
      apply (owns_iff _ _ _ _ HP). eauto. }
    destruct (_ && _) eqn:Hready.
    - apply andb_true_iff in Hready. rewrite !orb_true_iff, !bool_decide_eq_true in Hready.
      eexists l, None, _, P. split_and!; [done|done|].
      replace (_ ++ _) with (executionNotices ef fl ++ resultNotices rf fl) by by destruct rf, ef.
      destruct Hready. by apply SubscribeLate.
    - eexists l, _, [], P. split_and!; [done|done|]. apply SubscribeInvalid. }
  apply (owns_iff _ _ _ _ HP) in Hown as [fl' HPk].
  assert (fl' = fl) as -> by (apply (pi_flight _ _ HP) in HPk; congruence).
  rewrite boolZ_optList, boolZ_optList_exec, <-Nat2Z.inj_add.
  destruct (subscribeAdmission_ok l P R w rf ef fl _ HI HPk eq_refl)
    as (adm & b & -> & [[-> ->]|[-> HI']]); simpl.
  { eexists _, _, [], P. split_and!; [done|by destruct l|]. by apply SubscribeFull. }
  eexists _, None, _, _. split; [|split; [exact HI'|by apply SubscribeJoined]].
  unfold subscribedFlight. simpl. do 2 f_equal; [|by destruct ef; destruct (f_executionDone fl)].
  do 4 f_equal. all: destruct rf, ef; try done; by destruct (f_executionDone fl).
Qed.

(** ** Leases and queries *)

Lemma set_lease_Inv l P R o ow ow' :
  Inv l P R → leases l !! o = Some ow → o_flight ow' = o_flight ow → Inv (set_lease o ow' l) P R.
Proof.
  intros [[HP HR HX] HU] Ho Hf. split; [|done]. split; simpl; [|by eapply RInv_frame; eauto|done].
  destruct HP. split; simpl; try done.
  intros o' w' [[<- <-]|[_ Hw]]%lookup_insert_Some; [rewrite Hf|]; eauto.
Qed.

(** An expired receipt found by a query is removed on the way. *)
Lemma removeExpired_ok l P R key e r now :
  Inv l P R → R !! key = Some (e, r) → r_expiresAt r ≤ now →
  ∃ l', removeElement (shardIndex key) e l = Done l' ∧ Inv l' P (delete key R) ∧
    Dropped (expiredBy now (shardIndex key)) R (delete key R).
Proof.
  intros [HC HU] HRk Hexp. destruct (removeElement_ok _ _ _ _ _ _ HC HRk) as (l' & -> & HC' & _).
  exists l'. assert (Dropped (expiredBy now (shardIndex key)) R (delete key R)) as HD
    by by eapply Dropped_delete. split_and!; [done| |done]. split; [done|]. by eapply Unacked_Dropped.
Qed.

Lemma pendingDependency_ok l P key :
  PInv l P → ∃ d, pendingDependency key l = Done d ∧
    d = (λ p, if f_executionDone p.2 then DependencyCompleted (f_executionOK p.2)
              else DependencyWaiter (mkWaiter key p.1)) <$> P !! key.
Proof.
  intros HP. unfold pendingDependency. rewrite (pi_pending _ _ HP).
  destruct (P !! key) as [[f fl]|] eqn:HPk; simpl; [|eauto].
  rewrite (pi_flight _ _ HP _ _ _ HPk). simpl. eauto.
Qed.

Lemma pendingProfile_ok l P key :
  PInv l P → ∃ p, pendingProfile key l = Done p ∧ p = P !! key ≫= (λ q, identityProfile (f_identity q.2)).
Proof.
  intros HP. unfold pendingProfile. rewrite (pi_pending _ _ HP).
  destruct (P !! key) as [[f fl]|] eqn:HPk; simpl; [|eauto].
  rewrite (pi_flight _ _ HP _ _ _ HPk). simpl. eauto.
Qed.

Lemma Replay_ok replay l P R key now :
  Inv l P R →
  ∃ l' o R', Replay replay key now l = Done (l', o) ∧ Inv l' P R' ∧
    Dropped (expiredBy now (shardIndex key)) R R' ∧
    (∀ enc, o = Some enc → replay key = Some enc ∧ ∃ e r, R' !! key = Some (e, r) ∧ now < r_expiresAt r).
Proof.
  intros HI. pose proof HI as [[HP HR HX] HU]. unfold Replay.
  case_bool_decide; [eexists l, None, R; split_and!; [done|done|apply Dropped_refl|done]|].
  rewrite (ri_byKey _ _ HR). destruct (R !! key) as [[e r]|] eqn:HRk; simpl;
    [|eexists l, None, R; split_and!; [done|done|apply Dropped_refl|done]].
  destruct (ri_receipt _ _ HR _ _ _ HRk) as (-> & _ & _). simpl. case_bool_decide as Hexp; simpl.
  - destruct (_ || _); (eexists l, _, R; split_and!; [done|done|apply Dropped_refl|]); naive_solver.
  - destruct (removeExpired_ok l P R key e r now) as (l' & -> & HI' & HD); [done..|lia|]. simpl.
    by eexists l', None, _.
Qed.

Lemma ObserveDependency_ok l P R key now :
  Inv l P R →
  ∃ l' d R', ObserveDependency key now l = Done (l', d) ∧ Inv l' P R' ∧
    Dropped (expiredBy now (shardIndex key)) R R'.
Proof.
  intros HI. pose proof HI as [[HP HR HX] HU]. unfold ObserveDependency.
  case_bool_decide; [eexists l, None, R; split_and!; [done|done|apply Dropped_refl]|].
  rewrite (ri_byKey _ _ HR). destruct (R !! key) as [[e r]|] eqn:HRk; simpl; last first.
  { destruct (pendingDependency_ok l P key HP) as (d & -> & _). simpl.
    eexists l, d, R. split_and!; [done|done|apply Dropped_refl]. }
  destruct (ri_receipt _ _ HR _ _ _ HRk) as (-> & _ & _). simpl. case_bool_decide as Hexp; simpl.
  - eexists l, _, R. split_and!; [done|done|apply Dropped_refl].
  - destruct (removeExpired_ok l P R key e r now) as (l' & -> & HI' & HD); [done..|lia|]. simpl.
    destruct (pendingDependency_ok l' P key (core_P _ _ _ (inv_core _ _ _ HI'))) as (d & -> & _). simpl.
    by eexists l', d, _.
Qed.

Lemma ExactAdmissionProfile_ok l P R key now :
  Inv l P R →
  ∃ l' p R', ExactAdmissionProfile key now l = Done (l', p) ∧ Inv l' P R' ∧
    Dropped (expiredBy now (shardIndex key)) R R'.
Proof.
  intros HI. pose proof HI as [[HP HR HX] HU]. unfold ExactAdmissionProfile.
  case_bool_decide; [eexists l, None, R; split_and!; [done|done|apply Dropped_refl]|].
  rewrite (ri_byKey _ _ HR). destruct (R !! key) as [[e r]|] eqn:HRk; simpl; last first.
  { destruct (pendingProfile_ok l P key HP) as (d & -> & _). simpl.
    eexists l, d, R. split_and!; [done|done|apply Dropped_refl]. }
  destruct (ri_receipt _ _ HR _ _ _ HRk) as (-> & _ & _). simpl. case_bool_decide as Hexp; simpl.
  - eexists l, _, R. split_and!; [done|done|apply Dropped_refl].
  - destruct (removeExpired_ok l P R key e r now) as (l' & -> & HI' & HD); [done..|lia|]. simpl.
    destruct (pendingProfile_ok l' P key (core_P _ _ _ (inv_core _ _ _ HI'))) as (d & -> & _). simpl.
    by eexists l', d, _.
Qed.
End ledger_ops.
