(* ===== verification/RpcLedgerTrace.v ===== *)
(** * Executions of the ledger: at-most-once, conservation of callbacks

    Every critical section of the ledger is a label; a [Trace] is any
    interleaving of them from a new ledger, newest event first.  The theorems
    hold for every trace, whatever the scheduling, the clock readings and the
    contents of the replay outbox. *)

From S2P Require Import Prelude RpcBudget RpcSubscriberBudget RpcAdmissionTracker RpcLedger RpcLedgerInv RpcLedgerOps.
Import Ledger.

Section ledger_trace.
Context `{MH : MapHash} {Enc Ident : Type} `{EqI : EqDecision Ident, InhI : Inhabited Ident}.
Abbreviation ledger := (@rpcExecutionLedger Enc Ident).
Abbreviation flight := (@rpcResultFlight Enc Ident).
Abbreviation receipt := (@rpcExecutionReceipt Ident).
Abbreviation pendingMap := (gmap rpcExecutionKey (positive * flight)).
Abbreviation receiptMap := (gmap rpcExecutionKey (positive * receipt)).
Implicit Types (l : ledger) (fl : flight) (r : receipt) (k key : rpcExecutionKey).
Implicit Types (P : pendingMap) (R : receiptMap).

Inductive label :=
| LAcquire (replay : rpcExecutionKey → option Enc) (key : rpcExecutionKey)
    (ident : @rpcResultRequestIdentity Ident) (now : Z) (reclaimed : bool)
| LExpire (i now : Z)
| LComplete (key : rpcExecutionKey) (enc : Enc) (replayable : bool) (now : Z)
| LAck (key : rpcExecutionKey) (now : Z)
| LReplay (replay : rpcExecutionKey → option Enc) (key : rpcExecutionKey) (now : Z)
| LObserve (key : rpcExecutionKey) (now : Z)
| LProfile (key : rpcExecutionKey) (now : Z)
| LAbort (o : positive)
| LHandOff (o : positive)
| LExecuted (o : positive) (success : bool)
| LSetHook (o : positive) (fn : option callback)
| LInstallHook (o : positive) (fn : option callback)
| LSubscribe (w : rpcResultWaiter) (rf ef : option callback)
| LForget (i auth session : Z).

Inductive output :=
| OAcquire (res : option (ledgerError + @rpcResultAcquire Enc))
| OComplete (ok : bool) (ns : list (@notice Enc))
| OAck (ok : bool)
| OAbort (key : rpcExecutionKey) (ok : bool) (ns : list (@notice Enc))
| OExecuted (ok : bool) (ns : list (@notice Enc))
| OSubscribe (err : option ledgerError) (ns : list (@notice Enc))
| OOther.

(** Callers hold leases and waiters the ledger gave them, and the message id
    of a completed or claimed request is not zero. *)
Definition enabled l (lbl : label) : Prop :=
  match lbl with
  | LAcquire _ key _ _ _ | LComplete key _ _ _ => reqMsgID key ≠ 0
  | LAbort o | LHandOff o | LExecuted o _ | LSetHook o _ | LInstallHook o _ => is_Some (leases l !! o)
  | LSubscribe w _ _ => is_Some (flights l !! w_flight w)
  | _ => True
  end.

Definition exec (lbl : label) l : Run (ledger * output) :=
  match lbl with
  | LAcquire replay key ident now reclaimed =>
    '(l, res) ← acquireRound replay key ident now reclaimed l; Done (l, OAcquire res)
  | LExpire i now => l ← expireLocked i now l; Done (l, OOther)
  | LComplete key enc replayable now =>
    '(l, ok, ns) ← completeOnce key enc replayable now l; Done (l, OComplete ok ns)
  | LAck key now => '(l, ok) ← Acknowledge key now l; Done (l, OAck ok)
  | LReplay replay key now => '(l, _) ← Replay replay key now l; Done (l, OOther)
  | LObserve key now => '(l, _) ← ObserveDependency key now l; Done (l, OOther)
  | LProfile key now => '(l, _) ← ExactAdmissionProfile key now l; Done (l, OOther)
  | LAbort o => ow ← deref (leases l !! o);
                '(l, ok, ns) ← Abort o l; Done (l, OAbort (o_key ow) ok ns)
  | LHandOff o => '(l, _) ← HandOff o l; Done (l, OOther)
  | LExecuted o success => '(l, ok, ns) ← CompleteExecution o success l; Done (l, OExecuted ok ns)
  | LSetHook o fn => l ← SetAbortHook o fn l; Done (l, OOther)
  | LInstallHook o fn => '(l, _) ← InstallAbortHook o fn l; Done (l, OOther)
  | LSubscribe w rf ef => '(l, err, ns) ← subscribe w rf ef l; Done (l, OSubscribe err ns)
  | LForget i auth session => l ← forgetShard i auth session l; Done (l, OOther)
  end.

Abbreviation event := (label * output)%type.

Inductive Trace (c : rpcExecutionLedgerCapacity) : ledger → list event → Prop :=
| trace_new : Trace c (newRPCExecutionLedger c) []
| trace_step l l' tr lbl out :
    Trace c l tr → enabled l lbl → exec lbl l = Done (l', out) → Trace c l' ((lbl, out) :: tr).

(** A schedule run from a new ledger, with its trace (oldest label first). *)
#[global] Instance enabled_dec l lbl : Decision (enabled l lbl).
Proof. destruct lbl; apply _. Defined.
Fixpoint runFrom (lbls : list label) l (tr : list event) : option (ledger * list event) :=
  match lbls with
  | [] => Some (l, tr)
  | lbl :: lbls =>
    if decide (enabled l lbl) then
      match exec lbl l with
      | Done (l, out) => runFrom lbls l ((lbl, out) :: tr)
      | Panicked => None
      end
    else None
  end.
Definition run (c : rpcExecutionLedgerCapacity) (lbls : list label) : option (ledger * list event) :=
  runFrom lbls (newRPCExecutionLedger c) [].

Lemma runFrom_Trace c lbls l tr l' tr' :
  Trace c l tr → runFrom lbls l tr = Some (l', tr') → Trace c l' tr'.
Proof.
  revert l tr. induction lbls as [|lbl lbls IH]; simpl; intros l tr HT Hr; [by simplify_eq|].
  destruct (decide (enabled l lbl)) as [Hen|]; [|done].
  destruct (exec lbl l) as [[l1 out]|] eqn:Hex; [|done]. eapply IH; [|done]. by eapply trace_step.
Qed.
Lemma run_Trace c lbls l tr : run c lbls = Some (l, tr) → Trace c l tr.
Proof. apply runFrom_Trace, trace_new. Qed.

(** The clock reading of a label that may expire receipts. *)
Definition clockOf (lbl : label) : option Z :=
  match lbl with
  | LAcquire _ _ _ now _ | LExpire _ now | LComplete _ _ _ now | LAck _ now
  | LReplay _ _ now | LObserve _ now | LProfile _ now => Some now
  | _ => None
  end.

(** ** The effect of a label on the abstract contents *)

Definition DroppedAt (now : Z) R R' : Prop := Dropped (λ _ r, r_expiresAt r ≤ now) R R'.

Inductive Effect : label → output → pendingMap → receiptMap → pendingMap → receiptMap → Prop :=
| EAcquire replay key ident now reclaimed res P P' R R' :
    DroppedAt now R R' → AcquireStep replay key ident reclaimed P R' P' res →
    Effect (LAcquire replay key ident now reclaimed) (OAcquire res) P R P' R'
| EComplete key enc replayable now ok ns P P' R R1 R' :
    DroppedAt now R R1 → CompleteStep key enc replayable now P R1 P' R' ok ns →
    Effect (LComplete key enc replayable now) (OComplete ok ns) P R P' R'
| EAck key now ok P P' R R1 R' :
    DroppedAt now R R1 → AckStep key P R1 P' R' ok →
    Effect (LAck key now) (OAck ok) P R P' R'
| EExpire lbl out now P R R' :
    clockOf lbl = Some now → (out = OOther ∨ out = OAck false) → DroppedAt now R R' →
    Effect lbl out P R P R'
| EAbort o ow fl P R :
    P !! o_key ow = Some (o_flight ow, fl) →
    Effect (LAbort o) (OAbort (o_key ow) true (abortNotices (o_abortHook ow) fl)) P R
      (delete (o_key ow) P) R
| EAbortLost o key P R : Effect (LAbort o) (OAbort key false []) P R P R
| EExecuted o ow fl success P R :
    P !! o_key ow = Some (o_flight ow, fl) → f_executionDone fl = false →
    Effect (LExecuted o success)
      (OExecuted true ((λ cb, ExecutionNotice cb success) <$> f_executionSubscribers fl)) P R
      (<[o_key ow := (o_flight ow, executedFlight success fl)]> P) R
| EExecutedLost o success P R : Effect (LExecuted o success) (OExecuted false []) P R P R
| ESubscribe w rf ef fl P P' R err ns :
    SubscribeStep w rf ef fl P P' err ns →
    Effect (LSubscribe w rf ef) (OSubscribe err ns) P R P' R
| ELease lbl P R : clockOf lbl = None → Effect lbl OOther P R P R
| EForget i auth session P R R' :
    Dropped (λ k _, ofSession auth session k) R R' →
    Effect (LForget i auth session) OOther P R P R'.

Lemma DroppedAt_expired now i R R' : Dropped (expiredBy now i) R R' → DroppedAt now R R'.
Proof. apply Dropped_mono. by intros k r [? _]. Qed.
#[local] Hint Resolve DroppedAt_expired : core.

Ltac finish_exec :=
  match goal with |- ∃ l' out P' R', Done (?l1, ?o1) = _ ∧ Inv _ _ _ ∧ _ =>
    exists l1, o1; do 2 eexists; split; [reflexivity|split; [eassumption|]] end.

(** Every enabled label runs to completion and has its abstract effect. *)
Lemma exec_ok lbl l P R :
  Inv l P R → enabled l lbl →
  ∃ l' out P' R', exec lbl l = Done (l', out) ∧ Inv l' P' R' ∧ Effect lbl out P R P' R'.
Proof.
  intros HI Hen. destruct lbl; simpl in *.
  - destruct (acquireRound_ok replay key ident now reclaimed l P R HI)
      as (? & ? & ? & ? & -> & ? & ? & ?). simpl. finish_exec. econstructor; eauto.
  - destruct (expireLocked_ok i now l P R (inv_core _ _ _ HI)) as (? & ? & -> & ? & ? & HD). simpl.
    eexists _, _, P, _; split; [done|]. split; [split; [done|]|].
    + eapply Unacked_Dropped; [apply HI|done].
    + eapply EExpire; eauto.
  - destruct (completeOnce_ok l P R key enc replayable now HI)
      as (? & ? & ? & ? & ? & ? & -> & ? & ? & ?). simpl. finish_exec. econstructor; eauto.
  - destruct (decide (reqMsgID key = 0)) as [Hz|Hz].
    + unfold Acknowledge. rewrite bool_decide_eq_true_2 by done. simpl. finish_exec.
      eapply EExpire; eauto. apply Dropped_refl.
    + destruct (Acknowledge_ok l P R key now HI Hz) as (? & ? & ? & ? & ? & -> & ? & ? & ?). simpl.
      finish_exec. econstructor; eauto.
  - destruct (Replay_ok replay l P R key now HI) as (? & ? & ? & -> & ? & ? & _). simpl. finish_exec.
    eapply EExpire; eauto.
  - destruct (ObserveDependency_ok l P R key now HI) as (? & ? & ? & -> & ? & ?). simpl. finish_exec.
    eapply EExpire; eauto.
  - destruct (ExactAdmissionProfile_ok l P R key now HI) as (? & ? & ? & -> & ? & ?). simpl. finish_exec.
    eapply EExpire; eauto.
  - destruct Hen as [ow Ho]. rewrite Ho. simpl.
    destruct (Abort_ok l P R o ow HI Ho) as [(fl & ? & _ & l' & -> & ?)|[-> _]]; simpl; finish_exec;
      by constructor.
  - destruct Hen as [ow Ho]. unfold HandOff. rewrite Ho. simpl. destruct (negb _); simpl.
    + finish_exec. by apply ELease.
    + eexists _, _, P, R. split; [done|]. split; [by eapply set_lease_Inv|by apply ELease].
  - destruct Hen as [ow Ho].
    destruct (CompleteExecution_ok l P R o ow success HI Ho) as [(fl & ? & ? & l' & -> & ?)|[-> _]];
      simpl; finish_exec; by constructor.
  - destruct Hen as [ow Ho]. unfold SetAbortHook. rewrite Ho. simpl.
    eexists _, _, P, R. split; [done|]. split; [by eapply set_lease_Inv|by apply ELease].
  - destruct Hen as [ow Ho]. unfold InstallAbortHook. destruct fn as [cb|]; simpl.
    + rewrite Ho. simpl. destruct (negb _); simpl.
      * finish_exec. by apply ELease.
      * eexists _, _, P, R. split; [done|]. split; [by eapply set_lease_Inv|by apply ELease].
    + finish_exec. by apply ELease.
  - destruct Hen as [fl Hfl]. destruct (subscribe_ok l P R w rf ef fl HI Hfl) as (? & ? & ? & ? & -> & ? & ?).
    simpl. finish_exec. by econstructor.
  - pose proof HI as [HC HU].
    destruct (forgetFrom_ok i auth session (order (shards l i)) l P R)
      as (l1 & R1 & Hl1 & HC1 & _ & HD & _); [done..|apply (ri_nodup _ _ (core_R _ _ _ HC))|].
    unfold forgetShard. rewrite Hl1. simpl. eexists _, _, P, _; split; [done|].
    split; [split; [done|by eapply Unacked_Dropped]|by apply EForget].
Qed.

(** ** Grants and releases in a trace *)

Definition grants k (ev : event) : Prop :=
  ∃ replay ident now reclaimed seq o,
    ev = (LAcquire replay k ident now reclaimed, OAcquire (Some (inr (rpcResultAcquireOwner seq o)))).
Definition completedAt k (t : Z) (tr : list event) : Prop :=
  ∃ enc replayable ns, (LComplete k enc replayable t, OComplete true ns) ∈ tr.

(** Why a request may be executed again: the client acknowledged its result,
    the owner aborted, the session was destroyed, or the receipt is older
    than its time to live. *)
Inductive frees k : event → list event → Prop :=
| FreesAck now tr : frees k (LAck k now, OAck true) tr
| FreesAbort o ns tr : frees k (LAbort o, OAbort k true ns) tr
| FreesForget i auth session out tr : ofSession auth session k → frees k (LForget i auth session, out) tr
| FreesExpired lbl out now t tr :
    clockOf lbl = Some now → completedAt k t tr → t + rpcExecutionReceiptTTL ≤ now →
    frees k (lbl, out) tr.

#[global] Instance completedBefore_dec k (limit : Z) (tr : list event) :
  Decision (∃ t, completedAt k t tr ∧ t ≤ limit).
Proof.
  induction tr as [|[lbl out] tr IH].
  { right. intros (t & (enc & rep & ns & Hin) & _). by apply not_elem_of_nil in Hin. }
  destruct IH as [IH|IH].
  { left. destruct IH as (t & (enc & rep & ns & Hin) & ?). exists t. split; [|done].
    exists enc, rep, ns. apply elem_of_cons. by right. }
  assert (Hno : (∀ enc rep t ns, t ≤ limit → (lbl, out) ≠ (LComplete k enc rep t, OComplete true ns)) →
    ¬ ∃ t, completedAt k t ((lbl, out) :: tr) ∧ t ≤ limit).
  { intros Hne (t & (enc & rep & ns & [Heq|Hin]%elem_of_cons) & Ht); [by eapply Hne|].
    apply IH. exists t. split; [by exists enc, rep, ns|done]. }
  destruct lbl as [| |k' enc rep t| | | | | | | | | | |]; try (right; apply Hno; congruence).
  destruct out as [|[] ns| | | | |]; try (right; apply Hno; congruence).
  destruct (decide (k' = k ∧ t ≤ limit)) as [[-> ?]|Hn]; [left|right; apply Hno; naive_solver].
  exists t. split; [|done]. exists enc, rep, ns. apply elem_of_cons. by left.
Defined.

#[global] Instance frees_dec k ev tr : Decision (frees k ev tr).
Proof.
  destruct ev as [lbl out].
  assert (Hclock : Decision (∃ now t, clockOf lbl = Some now ∧ completedAt k t tr ∧
    t + rpcExecutionReceiptTTL ≤ now)).
  { destruct (clockOf lbl) as [now|]; [|right; naive_solver].
    destruct (decide (∃ t, completedAt k t tr ∧ t ≤ now - rpcExecutionReceiptTTL)) as [H|H].
    - left. destruct H as (t & ? & ?). exists now, t. split_and!; [done..|lia].
    - right. intros (now' & t & [= <-] & ? & ?). apply H. exists t. split; [done|lia]. }
  destruct Hclock as [H|Hclock]; [left; destruct H as (? & ? & ? & ? & ?); by eapply FreesExpired|].
  assert (Hno : (∀ now, (lbl, out) ≠ (LAck k now, OAck true)) →
    (∀ o ns, (lbl, out) ≠ (LAbort o, OAbort k true ns)) →
    (∀ i auth session, lbl = LForget i auth session → ¬ ofSession auth session k) →
    ¬ frees k (lbl, out) tr) by (intros ??? Hf; inversion Hf; subst; naive_solver).
  destruct lbl; try (right; apply Hno; congruence).
  - destruct out as [| |[]| | | |]; try (right; apply Hno; congruence).
    destruct (decide (key = k)) as [->|]; [left; constructor|right; apply Hno; congruence].
  - destruct out as [| | |k' [] ns| | |]; try (right; apply Hno; congruence).
    destruct (decide (k' = k)) as [->|]; [left; constructor|right; apply Hno; congruence].
  - destruct (decide (ofSession auth session k)); [left; by constructor|right; apply Hno; congruence].
Defined.

(** The last grant of [k] has not been followed by a release. *)
Fixpoint granted k (tr : list event) : Prop :=
  match tr with
  | [] => False
  | ev :: tr => grants k ev ∨ (granted k tr ∧ ¬ frees k ev tr)
  end.

Record TraceInv (tr : list event) P R : Prop := {
  ti_receipt k e r : R !! k = Some (e, r) →
    ∃ t, completedAt k t tr ∧ r_expiresAt r = t + rpcExecutionReceiptTTL;
  ti_granted k : granted k tr → is_Some (P !! k) ∨ is_Some (R !! k);
  ti_acked k f fl : P !! k = Some (f, fl) → f_acknowledged fl = true → ¬ granted k tr;
}.

Lemma completedAt_cons k t ev tr : completedAt k t tr → completedAt k t (ev :: tr).
Proof. intros (enc & rep & ns & Hin). exists enc, rep, ns. apply elem_of_cons. by right. Qed.

(** Receipts that disappear under a clock reading were completed a time to
    live before it. *)
Lemma TraceInv_dropped tr P R R' lbl out now k :
  TraceInv tr P R → DroppedAt now R R' → clockOf lbl = Some now →
  granted k tr → ¬ frees k (lbl, out) tr → is_Some (P !! k) ∨ is_Some (R' !! k).
Proof.
  intros HT [_ HD] Hc Hg Hnf. destruct (ti_granted _ _ _ HT k Hg) as [?|[[e r] HR]]; [by left|].
  destruct (R' !! k) eqn:HR'; [right; by eexists|]. exfalso. apply Hnf.
  destruct (ti_receipt _ _ _ HT _ _ _ HR) as (t & ? & Ht). eapply FreesExpired; eauto.
  specialize (HD _ _ _ HR HR'). lia.
Qed.

Lemma Effect_receipts lbl out P R P' R' k e r :
  Effect lbl out P R P' R' → R' !! k = Some (e, r) →
  R !! k = Some (e, r) ∨
  ∃ enc replayable now ns, lbl = LComplete k enc replayable now ∧ out = OComplete true ns ∧
    r_expiresAt r = now + rpcExecutionReceiptTTL.
Proof.
  intros HE HR'. destruct HE; eauto using Dropped_Some.
  - destruct H0; eauto using Dropped_Some.
    + destruct (f_acknowledged fl); [by eauto using Dropped_Some|].
      apply lookup_insert_Some in HR' as [[<- [= <- <-]]|[_ ?]]; [right|left; by eauto using Dropped_Some].
      by do 4 eexists.
    + apply lookup_insert_Some in HR' as [[<- [= <- <-]]|[_ ?]]; [right|left; by eauto using Dropped_Some].
      by do 4 eexists.
  - destruct H0; eauto using Dropped_Some.
    apply lookup_delete_Some in HR' as [_ ?]. left. by eauto using Dropped_Some.
Qed.

Lemma Effect_acked lbl out P R P' R' k f fl :
  Effect lbl out P R P' R' → P' !! k = Some (f, fl) → f_acknowledged fl = true →
  (∃ fl0, P !! k = Some (f, fl0) ∧ f_acknowledged fl0 = true) ∨
  ∃ now, lbl = LAck k now ∧ out = OAck true.
Proof.
  intros HE HP' Hack. destruct HE; eauto.
  - destruct H0; eauto.
    apply lookup_insert_Some in HP' as [[_ [= _ <-]]|[_ ?]]; [done|eauto].
  - destruct H0; eauto. apply lookup_delete_Some in HP' as [_ ?]. eauto.
  - destruct H0; eauto. apply lookup_insert_Some in HP' as [[<- _]|[_ ?]]; eauto.
  - apply lookup_delete_Some in HP' as [_ ?]. eauto.
  - apply lookup_insert_Some in HP' as [[<- [= <- <-]]|[_ ?]]; eauto.
  - destruct H; eauto. apply lookup_insert_Some in HP' as [[<- [= <- <-]]|[_ ?]]; eauto.
Qed.

Lemma Effect_grants lbl out P R P' R' k :
  Effect lbl out P R P' R' → grants k (lbl, out) →
  (∃ f fl, P' !! k = Some (f, fl) ∧ f_acknowledged fl = false) ∧
  P !! k = None ∧ R' !! k = None ∧
  ∃ now, clockOf lbl = Some now ∧ DroppedAt now R R'.
Proof.
  intros HE (replay & ident & now & rec & seq & o & [= -> ->]).
  inversion HE as [? ? ? ? ? ? ? ? ? ? HD HA| | | | | | | | | |]; simplify_eq; [|naive_solver].
  inversion HA as [? ? Heq Heq2 Heq3|? ? ? ? Heq2 Heq3| | |]; simplify_eq.
  - exfalso. revert Heq3. unfold receiptOutcome. destruct (negb _); [done|].
    destruct (r_acknowledged _); [done|]. destruct (r_unavailable _); [done|]. by destruct (replay k).
  - exfalso. revert Heq3. unfold flightOutcome. destruct (negb _); [done|].
    by destruct (f_acknowledged _).
  - split_and!; [|done|done|by eexists]. do 2 eexists. by rewrite lookup_insert_eq.
Qed.

Lemma is_Some_insert_ne {A} (m : gmap rpcExecutionKey A) k k' x :
  is_Some (m !! k) → is_Some (<[k' := x]> m !! k).
Proof. intros ?. destruct (decide (k' = k)) as [->|]; simplify_map_eq; eauto. Qed.
Lemma is_Some_delete_ne {A} (m : gmap rpcExecutionKey A) k k' :
  k' ≠ k → is_Some (m !! k) → is_Some (delete k' m !! k).
Proof. intros ??. by rewrite lookup_delete_ne. Qed.
#[local] Hint Resolve is_Some_insert_ne is_Some_delete_ne : core.

(** A granted request that is not released stays known to the ledger. *)
Lemma Effect_known lbl out P R P' R' tr k :
  Effect lbl out P R P' R' → TraceInv tr P R → granted k tr → ¬ frees k (lbl, out) tr →
  is_Some (P' !! k) ∨ is_Some (R' !! k).
Proof.
  intros HE HT Hg Hnf.
  assert (Hdrop : ∀ now R1, clockOf lbl = Some now → DroppedAt now R R1 →
    is_Some (P !! k) ∨ is_Some (R1 !! k)) by (intros; by eapply TraceInv_dropped).
  destruct HE as [? ? ? ? ? ? ? ? ? ? HD HA|? ? ? ? ? ? ? ? ? ? ? HD HC|? ? ? ? ? ? ? ? HD HA
    |? ? ? ? ? ? Hc _ HD|? ? ? ? ? HP| | | |? ? ? ? ? ? ? ? ? HS| |? ? ? ? ? ? HD];
    try by apply (ti_granted _ _ _ HT).
  - specialize (Hdrop _ _ eq_refl HD). destruct Hdrop as [?|?]; [|by right].
    destruct HA; eauto.
  - specialize (Hdrop _ _ eq_refl HD). destruct HC as [| f fl e HR HP| |]; eauto.
    + destruct (decide (key = k)) as [->|Hne].
      * destruct (f_acknowledged fl) eqn:Hack; [by destruct (ti_acked _ _ _ HT _ _ _ HP Hack)|].
        right. rewrite lookup_insert_eq. by eexists.
      * destruct Hdrop; [left; eauto|right]. destruct (f_acknowledged fl); eauto.
    + destruct Hdrop; eauto.
  - specialize (Hdrop _ _ eq_refl HD). destruct HA as [x HR|f fl HR HP|]; eauto.
    + destruct (decide (key = k)) as [->|Hne]; [exfalso; apply Hnf, FreesAck|].
      destruct Hdrop; eauto.
    + destruct Hdrop; eauto.
  - by eapply Hdrop.
  - destruct (decide (o_key ow = k)) as [Heq|Hne]; [exfalso; apply Hnf; rewrite Heq; apply FreesAbort|].
    destruct (ti_granted _ _ _ HT k Hg); eauto.
  - destruct (ti_granted _ _ _ HT k Hg); eauto.
  - destruct (ti_granted _ _ _ HT k Hg); [|by right]. destruct HS; eauto.
  - destruct (ti_granted _ _ _ HT k Hg) as [?|[[e r] HR]]; [by left|].
    destruct (R' !! k) eqn:HR'; [right; by eexists|]. destruct HD as [_ HD].
    exfalso. apply Hnf, FreesForget. eauto.
Qed.

Lemma TraceInv_step lbl out P R P' R' tr :
  Effect lbl out P R P' R' → TraceInv tr P R → TraceInv ((lbl, out) :: tr) P' R'.
Proof.
  intros HE HT. split.
  - intros k e r HR'. destruct (Effect_receipts _ _ _ _ _ _ _ _ _ HE HR') as [HR|H].
    + destruct (ti_receipt _ _ _ HT _ _ _ HR) as (t & ? & ?). eauto using completedAt_cons.
    + destruct H as (enc & rep & now & ns & -> & -> & Ht). exists now. split; [|done].
      exists enc, rep, ns. apply elem_of_cons. by left.
  - intros k [Hgr|[Hg Hnf]]; [|by eapply Effect_known].
    left. destruct (Effect_grants _ _ _ _ _ _ _ HE Hgr) as ((f & fl & HP' & _) & _). by eexists.
  - intros k f fl HP' Hack [Hgr|[Hg Hnf]].
    + destruct (Effect_grants _ _ _ _ _ _ _ HE Hgr) as ((f' & fl' & ? & ?) & _). naive_solver congruence.
    + destruct (Effect_acked _ _ _ _ _ _ _ _ _ HE HP' Hack) as [(fl0 & HP & Hack0)|(now & -> & ->)].
      * by eapply (ti_acked _ _ _ HT).
      * apply Hnf, FreesAck.
Qed.

Lemma Trace_Inv c l tr : Trace c l tr → ∃ P R, Inv l P R ∧ TraceInv tr P R.
Proof.
  induction 1 as [|l l' tr lbl out _ (P & R & HI & HT) Hen Hex].
  - exists ∅, ∅. split; [apply newRPCExecutionLedger_Inv|].
    split; [intros ??? H|intros ? []|intros ??? H]; by rewrite lookup_empty in H.
  - destruct (exec_ok lbl l P R HI Hen) as (l1 & out1 & P' & R' & Hex' & HI' & HE).
    rewrite Hex in Hex'. injection Hex' as <- <-. exists P', R'. split; [done|].
    by eapply TraceInv_step.
Qed.

(** ** Accounting of callbacks *)

Definition occ (cb : callback) (cbs : list callback) : Z :=
  Z.of_nat (length (filter (λ c, c = cb) cbs)).
Lemma occ_app cb cbs cbs' : occ cb (cbs ++ cbs') = occ cb cbs + occ cb cbs'.
Proof. unfold occ. rewrite filter_app, length_app. lia. Qed.
Lemma occ_nonneg cb cbs : 0 ≤ occ cb cbs.
Proof. unfold occ. lia. Qed.

Definition noticeCallback (n : @notice Enc) : option callback :=
  match n with ResultNotice cb _ _ | ExecutionNotice cb _ => Some cb | AbortHookNotice _ => None end.
Definition outNotices (out : output) : list (@notice Enc) :=
  match out with
  | OComplete _ ns | OAbort _ _ ns | OExecuted _ ns | OSubscribe _ ns => ns
  | _ => []
  end.
(** Invocations of subscriber [cb] by an event. *)
Definition delivered (cb : callback) (ev : event) : Z := occ cb (omap noticeCallback (outNotices ev.2)).
(** Subscriptions of [cb] an event accepted. *)
Definition registered (cb : callback) (ev : event) : Z :=
  match ev with
  | (LSubscribe _ rf ef, OSubscribe None _) => occ cb (optList rf ++ optList ef)
  | _ => 0
  end.
Definition retainedBy (cb : callback) (_ : rpcExecutionKey) (p : positive * flight) : Z :=
  occ cb (f_subscribers p.2 ++ f_executionSubscribers p.2).
Definition retained (cb : callback) P : Z := msum (retainedBy cb) P.
Definition sumOver (f : event → Z) (tr : list event) : Z := foldr (λ ev acc, f ev + acc) 0 tr.

Lemma noticeCallback_result enc ok (cbs : list callback) :
  omap noticeCallback ((λ cb, ResultNotice cb enc ok) <$> cbs) = cbs.
Proof. induction cbs; [done|]. simpl. by f_equal. Qed.
Lemma noticeCallback_execution ok (cbs : list callback) :
  omap noticeCallback ((λ cb, ExecutionNotice cb ok) <$> cbs) = cbs.
Proof. induction cbs; [done|]. simpl. by f_equal. Qed.
Lemma noticeCallback_completion enc fl :
  omap noticeCallback (completionNotices enc fl) = f_subscribers fl ++ f_executionSubscribers fl.
Proof.
  unfold completionNotices. rewrite omap_app, noticeCallback_result, noticeCallback_execution. done.
Qed.
Lemma noticeCallback_abort hook fl :
  omap noticeCallback (abortNotices hook fl) = f_subscribers fl ++ f_executionSubscribers fl.
Proof.
  unfold abortNotices. rewrite !omap_app, noticeCallback_result, noticeCallback_execution.
  by destruct hook.
Qed.

(** Each event moves subscriptions from accepted to retained or delivered. *)
Lemma Effect_conserves cb lbl out P R P' R' :
  Effect lbl out P R P' R' →
  retained cb P + registered cb (lbl, out) = retained cb P' + delivered cb (lbl, out).
Proof.
  unfold retained. intros HE. destruct HE as [? ? ? ? ? ? ? ? ? ? HD HA|? ? ? ? ? ? ? ? ? ? ? HD HC|? ? ? ? ? ? ? ? HD HA
    |? ? ? ? ? ? Hc Hout HD|? ? ? ? ? HP| |? ? ? ? ? ? HP Hd| |? ? ? ? ? ? ? ? ? HS|? ? ? Hc|? ? ? ? ? ? HD];
    unfold delivered; simpl; try done.
  - destruct HA; try done. rewrite msum_insert by done. done.
  - destruct HC as [|f fl e HR HP| |]; try done.
    rewrite (msum_delete _ _ _ _ HP), noticeCallback_completion. unfold retainedBy at 3. simpl. lia.
  - destruct HA as [|f fl HR HP|]; try done. rewrite (msum_update _ _ _ _ _ HP). unfold retainedBy at 3 4.
    change (occ cb []) with 0. simpl. lia.
  - destruct Hout as [->| ->]; destruct lbl; done.
  - rewrite (msum_delete _ _ _ _ HP), noticeCallback_abort. unfold retainedBy at 3. simpl. lia.
  - rewrite (msum_update _ _ _ _ _ HP), noticeCallback_execution. unfold retainedBy at 3 4.
    simpl. rewrite !occ_app. change (occ cb []) with 0. lia.
  - destruct HS as [HP| | |]; try done.
    + rewrite (msum_update _ _ _ _ _ HP). unfold retainedBy at 3 4. simpl. rewrite !occ_app.
      destruct (f_executionDone fl); simpl; [unfold executionNotices; rewrite noticeCallback_execution|];
        change (occ cb []) with 0; lia.
    + unfold executionNotices, resultNotices.
      rewrite omap_app, noticeCallback_result, noticeCallback_execution, !occ_app. lia.
  - by destruct lbl.
Qed.

Lemma Trace_conserves cb c l tr :
  Trace c l tr → ∃ P R, Inv l P R ∧
    sumOver (registered cb) tr = retained cb P + sumOver (delivered cb) tr.
Proof.
  induction 1 as [|l l' tr lbl out _ (P & R & HI & HT) Hen Hex].
  - exists ∅, ∅. split; [apply newRPCExecutionLedger_Inv|]. unfold retained. by rewrite msum_empty.
  - destruct (exec_ok lbl l P R HI Hen) as (l1 & out1 & P' & R' & Hex' & HI' & HE).
    rewrite Hex in Hex'. injection Hex' as <- <-. exists P', R'. split; [done|].
    pose proof (Effect_conserves cb _ _ _ _ _ _ HE).
    change (registered cb (lbl, out) + sumOver (registered cb) tr =
      retained cb P' + (delivered cb (lbl, out) + sumOver (delivered cb) tr)). lia.
Qed.

(** ** Live reservations are the pending flights and the receipts *)

Abbreviation heldIn g := (λ (_ : positive) rv, if FairBudget.r_released rv then 0
  else g (FairBudget.r_key rv) (FairBudget.r_pending rv)).

(** The ownership part of [XInv], for a heap of reservations. *)
Record Owned (m : gmap positive FairBudget.reservation) P R : Prop := {
  ow_flight k f fl : P !! k = Some (f, fl) → ∃ rid, f_reservation fl = Some rid ∧
    m !! rid = Some (FairBudget.mkReservation k true false);
  ow_receipt k e r : R !! k = Some (e, r) → ∃ rid, r_reservation r = Some rid ∧
    m !! rid = Some (FairBudget.mkReservation k false false);
  ow_owner rid rv : m !! rid = Some rv → FairBudget.r_released rv = false →
    (∃ f fl, P !! FairBudget.r_key rv = Some (f, fl) ∧ f_reservation fl = Some rid) ∨
    (∃ e r, R !! FairBudget.r_key rv = Some (e, r) ∧ r_reservation r = Some rid);
}.

Lemma Owned_delete_flight m P R k f fl rid :
  Owned m (<[k := (f, fl)]> P) R → P !! k = None → f_reservation fl = Some rid →
  m !! rid = Some (FairBudget.mkReservation k true false) → Owned (delete rid m) P R.
Proof.
  intros [H1 H2 H3] HP Hrid Hm. split.
  - intros k' f' fl' HP'. assert (k ≠ k') by congruence.
    destruct (H1 k' f' fl') as (rid' & ? & ?); [by rewrite lookup_insert_ne|].
    exists rid'. split; [done|]. rewrite lookup_delete_ne; [done|]. congruence.
  - intros k' e r HR. destruct (H2 _ _ _ HR) as (rid' & ? & ?). exists rid'. split; [done|].
    rewrite lookup_delete_ne; [done|]. congruence.
  - intros rid' rv [Hne Hrv]%lookup_delete_Some Hlive.
    destruct (H3 _ _ Hrv Hlive) as [(f' & fl' & HP' & ?)|?]; [left|by right].
    apply lookup_insert_Some in HP' as [[_ [= <- <-]]|[_ ?]]; [congruence|eauto].
Qed.
Lemma Owned_delete_receipt m R k e r rid :
  Owned m ∅ (<[k := (e, r)]> R) → R !! k = None → r_reservation r = Some rid →
  m !! rid = Some (FairBudget.mkReservation k false false) → Owned (delete rid m) ∅ R.
Proof.
  intros [H1 H2 H3] HR Hrid Hm. split.
  - intros k' f' fl' HP'. by rewrite lookup_empty in HP'.
  - intros k' e' r' HR'. assert (k ≠ k') by congruence.
    destruct (H2 k' e' r') as (rid' & ? & ?); [by rewrite lookup_insert_ne|].
    exists rid'. split; [done|]. rewrite lookup_delete_ne; [done|]. congruence.
  - intros rid' rv [Hne Hrv]%lookup_delete_Some Hlive.
    destruct (H3 _ _ Hrv Hlive) as [(f' & fl' & HP' & ?)|(e' & r' & HR' & ?)];
      [by rewrite lookup_empty in HP'|right].
    apply lookup_insert_Some in HR' as [[_ [= <- <-]]|[_ ?]]; [congruence|eauto].
Qed.

Lemma Owned_sum (g : rpcExecutionKey → bool → Z) m P R :
  Owned m P R → msum (heldIn g) m = msum (λ k _, g k true) P + msum (λ k _, g k false) R.
Proof.
  revert m. induction P as [|k [f fl] P HP IH] using map_ind; intros m HO.
  - rewrite msum_empty. revert m HO.
    induction R as [|k [e r] R HR IH] using map_ind; intros m HO.
    + rewrite msum_empty. apply msum_zero. intros rid rv Hrv.
      destruct (FairBudget.r_released rv) eqn:Hlive; [done|].
      destruct (ow_owner _ _ _ HO _ _ Hrv Hlive) as [(? & ? & H & _)|(? & ? & H & _)];
        by rewrite lookup_empty in H.
    + destruct (ow_receipt _ _ _ HO k e r) as (rid & Hrid & Hm); [by rewrite lookup_insert_eq|].
      rewrite msum_insert by done.
      assert (Owned (delete rid m) ∅ R) as HO' by by eapply Owned_delete_receipt.
      specialize (IH _ HO'). rewrite (msum_delete (heldIn g) _ _ _ Hm) in IH. simpl in IH. lia.
  - destruct (ow_flight _ _ _ HO k f fl) as (rid & Hrid & Hm); [by rewrite lookup_insert_eq|].
    rewrite msum_insert by done.
    assert (Owned (delete rid m) P R) as HO' by by eapply Owned_delete_flight.
    specialize (IH _ HO'). rewrite (msum_delete (heldIn g) _ _ _ Hm) in IH. simpl in IH. lia.
Qed.

Lemma Inv_held (g : rpcExecutionKey → bool → Z) l P R :
  Inv l P R →
  FairBudget.held (λ rv, g (FairBudget.r_key rv) (FairBudget.r_pending rv)) (fairBudget l)
  = msum (λ k _, g k true) P + msum (λ k _, g k false) R.
Proof. intros [[_ _ HX] _]. apply Owned_sum. split; apply HX. Qed.
End ledger_trace.
