(* ===== verification/RpcLedgerFrame.v ===== *)
(** * What no ledger operation changes

    Every operation keeps the configured limits and moves the admission
    counter only forward ([Stable]); an owner admitted by a claim gets a
    sequence above every earlier one. *)

From S2P Require Import Prelude RpcBudget RpcSubscriberBudget RpcAdmissionTracker RpcLedger RpcLedgerInv RpcLedgerOps RpcLedgerTrace.
Import Ledger.

Section ledger_frame.
Context `{MH : MapHash} {Enc Ident : Type} `{EqI : EqDecision Ident, InhI : Inhabited Ident}.
Abbreviation ledger := (@rpcExecutionLedger Enc Ident).
Implicit Types (l : ledger) (k key : rpcExecutionKey).

(** The configured limits of the two budgets. *)
Definition fairLimits (b : FairBudget.t) : Z * Z * Z * Z :=
  (FlightLimit.max (FairBudget.globalEntries b), FairBudget.authLimit b,
   FairBudget.sessionLimit b, FairBudget.pendingPerAuth b).
Definition subscriberLimits (b : SubscriberBudget.t) : Z * Z * Z :=
  (FlightLimit.max (SubscriberBudget.global b), SubscriberBudget.authLimit b,
   SubscriberBudget.sessionLimit b).

Record Stable l l' : Prop := {
  st_limit : FlightLimit.max (flightLimit l') = FlightLimit.max (flightLimit l);
  st_fair : fairLimits (fairBudget l') = fairLimits (fairBudget l);
  st_sub : subscriberLimits (subscriberBudget l') = subscriberLimits (subscriberBudget l);
  st_per : subscriberPerFlight l' = subscriberPerFlight l;
  st_next : nextAdmissionSeq l ≤ nextAdmissionSeq l';
}.
#[export] Instance Stable_po : PreOrder Stable.
Proof. split; [by split|]. intros ??? [] []. split; (congruence || lia). Qed.

Lemma reserveN_max n (f : FlightLimit.t) :
  FlightLimit.max (FlightLimit.reserveN n f).2 = FlightLimit.max f.
Proof. unfold FlightLimit.reserveN. by repeat case_match. Qed.
Lemma releaseN_max n (f f' : FlightLimit.t) :
  FlightLimit.releaseN n f = Done f' → FlightLimit.max f' = FlightLimit.max f.
Proof. unfold FlightLimit.releaseN. intros. by run_inv. Qed.
Lemma FairBudget_reserve_limits key pend b :
  fairLimits (FairBudget.reserve key pend b).2 = fairLimits b.
Proof.
  unfold FairBudget.reserve. destruct (negb _); [done|].
  destruct (FlightLimit.reserve _) as [[] g] eqn:Hg; unfold fairLimits; simpl;
    pose proof (reserveN_max 1 (FairBudget.globalEntries b)) as Hm; unfold FlightLimit.reserve in Hg;
    rewrite Hg in Hm; by rewrite <-Hm.
Qed.
Lemma FairBudget_release_limits rid b b' :
  FairBudget.release rid b = Done b' → fairLimits b' = fairLimits b.
Proof.
  unfold FairBudget.release, FlightLimit.release. intros. run_inv; [done|].
  unfold fairLimits. simpl. by erewrite releaseN_max.
Qed.
Lemma FairBudget_releasePending_limits rid b b' :
  FairBudget.releasePending rid b = Done b' → fairLimits b' = fairLimits b.
Proof. unfold FairBudget.releasePending. intros. by run_inv. Qed.
Lemma SubscriberBudget_reserve_limits key n b :
  subscriberLimits (SubscriberBudget.reserve key n b).2 = subscriberLimits b.
Proof.
  unfold SubscriberBudget.reserve. destruct (bool_decide _); [done|]. destruct (_ || _); [done|].
  pose proof (reserveN_max n (SubscriberBudget.global b)) as Hm.
  destruct (FlightLimit.reserveN _ _) as [[] g]; unfold subscriberLimits; simpl in *; by rewrite Hm.
Qed.
Lemma SubscriberBudget_release_limits key n b b' :
  SubscriberBudget.release key n b = Done b' → subscriberLimits b' = subscriberLimits b.
Proof.
  unfold SubscriberBudget.release. intros. run_inv. unfold subscriberLimits. simpl.
  by erewrite releaseN_max.
Qed.
#[local] Hint Resolve reserveN_max releaseN_max FairBudget_reserve_limits FairBudget_release_limits
  FairBudget_releasePending_limits SubscriberBudget_reserve_limits SubscriberBudget_release_limits : core.

(** A change of fields that keeps the limits is stable. *)
Ltac stable := split; simpl; eauto using Z.le_refl.

Lemma removeElement_Stable i e l l' : removeElement i e l = Done l' → Stable l l'.
Proof. unfold removeElement, unlinkElement, decrementReceiptCount. intros. run_inv; stable. Qed.
Lemma expireFrom_Stable i now todo l l' : expireFrom i now todo l = Done l' → Stable l l'.
Proof.
  revert l. induction todo as [|e todo IH]; simpl; intros l H; run_inv; [done..|].
  etrans; [by eapply removeElement_Stable|by apply IH].
Qed.
Lemma expireLocked_Stable i now l l' : expireLocked i now l = Done l' → Stable l l'.
Proof. apply expireFrom_Stable. Qed.
Lemma forgetFrom_Stable i auth session todo l l' : forgetFrom i auth session todo l = Done l' → Stable l l'.
Proof.
  revert l. induction todo as [|e todo IH]; simpl; intros l H; run_inv; [done|..].
  - etrans; [by eapply removeElement_Stable|by apply IH].
  - by apply IH.
Qed.
Lemma releaseSlots_Stable key fl n l l' m :
  releaseFlightSubscriberSlotsLocked key fl n l = Done (m, l') → Stable l l'.
Proof. unfold releaseFlightSubscriberSlotsLocked. intros. run_inv; stable. Qed.
#[local] Hint Resolve removeElement_Stable expireLocked_Stable forgetFrom_Stable releaseSlots_Stable : core.

Lemma completeFlight_Stable key enc l l' x :
  completeRPCResultFlightLocked key enc l = Done (l', x) → Stable l l'.
Proof.
  unfold completeRPCResultFlightLocked, FlightLimit.release. intros. run_inv; [| |done].
  all: repeat match goal with
       | H : releaseFlightSubscriberSlotsLocked _ _ _ _ = _ |- _ => apply releaseSlots_Stable in H as []
       | H : FairBudget.releasePending _ _ = _ |- _ => apply FairBudget_releasePending_limits in H
       | H : FlightLimit.releaseN _ _ = _ |- _ => apply releaseN_max in H
       end; simpl in *; stable; congruence || lia.
Qed.
#[local] Hint Resolve completeFlight_Stable : core.
Lemma completionReservation_Stable key old l l' rid :
  completionReservation key old l = Done (rid, l') → Stable l l'.
Proof.
  unfold completionReservation, FairBudget.reserveCompleted. intros. run_inv; try done.
  match goal with H : FairBudget.reserve ?k ?p ?b = _ |- _ =>
    pose proof (FairBudget_reserve_limits k p b) as Hl; rewrite H in Hl end. stable.
Qed.
Lemma dropOldReceipt_Stable key old rid l l' : dropOldReceipt key old rid l = Done l' → Stable l l'.
Proof.
  unfold dropOldReceipt, unlinkElement, decrementReceiptCount. intros. run_inv; try case_decide; run_inv; stable.
Qed.
Lemma pushReceipt_Stable e r l : Stable l (pushReceipt e r l).
Proof. stable. Qed.

(** Turns the runs in the context into [Stable] facts and chains them. *)
Ltac chain_stable :=
  repeat match goal with
  | H : expireLocked _ _ _ = Done _ |- _ => apply expireLocked_Stable in H
  | H : removeElement _ _ _ = Done _ |- _ => apply removeElement_Stable in H
  | H : completionReservation _ _ _ = Done _ |- _ => apply completionReservation_Stable in H
  | H : dropOldReceipt _ _ _ _ = Done _ |- _ => apply dropOldReceipt_Stable in H
  | H : completeRPCResultFlightLocked _ _ _ = Done _ |- _ => apply completeFlight_Stable in H
  | H : releaseFlightSubscriberSlotsLocked _ _ _ _ = Done _ |- _ => apply releaseSlots_Stable in H
  | H : forgetFrom _ _ _ _ _ = Done _ |- _ => apply forgetFrom_Stable in H
  | H : Stable (pushReceipt ?e ?r ?l) ?l' |- _ => apply (transitivity (pushReceipt_Stable e r l)) in H
  end;
  repeat (reflexivity || eassumption || (etransitivity; [eassumption|])).

Lemma completeOnce_Stable key enc replayable now l l' ok ns :
  completeOnce key enc replayable now l = Done (l', ok, ns) → Stable l l'.
Proof. unfold completeOnce. intros. run_inv; chain_stable. Qed.

(** A granted claim of an identified request is numbered above every earlier one. *)
Lemma acquireRound_Stable replay key ident now reclaimed l l' res :
  acquireRound replay key ident now reclaimed l = Done (l', res) →
  Stable l l' ∧
  ∀ seq o, res = Some (inr (rpcResultAcquireOwner seq o)) → seq = 0 ∨ nextAdmissionSeq l < seq.
Proof.
  unfold acquireRound. intros H. apply run_bind_Done in H as (l1 & H1%expireLocked_Stable & H).
  assert (Hend : ∀ l2 r, Done (l2, r) = Done (l', res) → Stable l1 l2 →
    (∀ seq o, r = Some (inr (rpcResultAcquireOwner seq o)) → seq = 0 ∨ nextAdmissionSeq l1 < seq) →
    Stable l l' ∧ ∀ seq o, res = Some (inr (rpcResultAcquireOwner seq o)) →
      seq = 0 ∨ nextAdmissionSeq l < seq).
  { intros l2 r [= <- <-] H2 Hr. split; [by etransitivity|]. intros seq o Heq.
    destruct (Hr seq o Heq); [by left|right]. pose proof (st_next _ _ H1). lia. }
  destruct (byKey (shard l1 key) !! key).
  { apply run_bind_Done in H as (r & _ & H). eapply Hend; [exact H|reflexivity|].
    intros. repeat case_match; naive_solver. }
  destruct (pending (shard l1 key) !! key).
  { apply run_bind_Done in H as (r & _ & H). eapply Hend; [exact H|reflexivity|].
    intros. repeat case_match; naive_solver. }
  pose proof (reserveN_max 1 (flightLimit l1)) as Hm. unfold FlightLimit.reserve in H.
  destruct (FlightLimit.reserveN 1 (flightLimit l1)) as [[] lim] eqn:Hlim; simpl in Hm;
    [|by eapply Hend; [exact H|reflexivity|]].
  pose proof (FairBudget_reserve_limits key true (fairBudget l1)) as Hb.
  unfold FairBudget.reserveOwner in H. destruct (FairBudget.reserve key true (fairBudget l1)) as [[rid|] b];
    simpl in Hb.
  - destruct (valid ident).
    + unfold AdmissionTracker.allocateAndRegister in H. case_bool_decide.
      * apply run_bind_Done in H as (b' & Hb'%FairBudget_release_limits & H).
        apply run_bind_Done in H as (f' & Hf'%releaseN_max & H).
        eapply Hend; [exact H| |done]. stable; congruence.
      * eapply Hend; [exact H|split; simpl; (congruence || lia)|]. intros seq o [= <- _]. right. lia.
    + eapply Hend; [exact H|by stable|]. intros seq o [= <- _]. by left.
  - apply run_bind_Done in H as (f' & Hf'%releaseN_max & H).
    eapply Hend; [exact H| |by destruct reclaimed]. stable; congruence.
Qed.

Lemma subscribe_Stable w rf ef l l' err ns : subscribe w rf ef l = Done (l', err, ns) → Stable l l'.
Proof.
  intros H. unfold subscribe in H. 
  assert (Hgo : ∀ (slots m : Z) b adm, (if bool_decide (0 < slots) then
            if bool_decide (m > subscriberPerFlight l - slots)
            then (false, subscriberBudget l)
            else SubscriberBudget.reserve (w_key w) slots (subscriberBudget l)
          else (true, subscriberBudget l)) = (adm, b) →
          subscriberLimits b = subscriberLimits (subscriberBudget l)).
  { intros slots m b adm Hb. destruct (bool_decide (0 < slots)); [destruct (bool_decide (m > _))|]; [by simplify_eq| |by simplify_eq].
    pose proof (SubscriberBudget_reserve_limits (w_key w) slots (subscriberBudget l)) as Hr.
    by rewrite Hb in Hr. }
  destruct rf, ef; run_inv; try reflexivity;
    match goal with H : _ = (_, _) |- _ => apply Hgo in H end; stable.
Qed.

Lemma Abort_Stable o l l' ok ns : Abort o l = Done (l', ok, ns) → Stable l l'.
Proof.
  unfold Abort, FlightLimit.release. intros. run_inv; try reflexivity.
  all: repeat match goal with
       | H : releaseFlightSubscriberSlotsLocked _ _ _ _ = _ |- _ => apply releaseSlots_Stable in H as []
       | H : FairBudget.release _ _ = _ |- _ => apply FairBudget_release_limits in H
       | H : FlightLimit.releaseN _ _ = _ |- _ => apply releaseN_max in H
       end; simpl in *; stable; congruence || lia.
Qed.

Lemma exec_Stable lbl l l' out : exec lbl l = Done (l', out) → Stable l l'.
Proof.
  destruct lbl; simpl; intros H.
  - apply run_bind_Done in H as ([l1 r] & H1%acquireRound_Stable & H). simplify_eq. apply H1.
  - run_inv. chain_stable.
  - apply run_bind_Done in H as ([[l1 r] ?] & H1%completeOnce_Stable & H). by simplify_eq.
  - unfold Acknowledge in H. run_inv; simplify_eq; try reflexivity; chain_stable. stable; apply H.
  - unfold Replay in H. run_inv; simplify_eq; chain_stable.
  - unfold ObserveDependency in H. run_inv; simplify_eq; chain_stable.
  - unfold ExactAdmissionProfile in H. run_inv; simplify_eq; chain_stable.
  - run_inv. by eapply Abort_Stable.
  - unfold HandOff in H. run_inv; simplify_eq; reflexivity || by stable.
  - unfold CompleteExecution in H. run_inv; simplify_eq; chain_stable. stable; apply H.
  - unfold SetAbortHook in H. run_inv; by stable.
  - unfold InstallAbortHook in H. run_inv; simplify_eq; reflexivity || by stable.
  - apply run_bind_Done in H as ([[l1 r] ?] & H1%subscribe_Stable & H). by simplify_eq.
  - unfold forgetShard in H. run_inv. chain_stable.
Qed.
End ledger_frame.
