(* ===== verification/RpcLedgerProps.v ===== *)
(** * The correctness properties of the RPC execution ledger

    Statements about every ledger reachable by a [Trace], from the lemmas of
    the sibling files; each has a run on a concrete ledger. *)

From S2P Require Import Prelude RpcBudget RpcSubscriberBudget RpcAdmissionTracker RpcLedger RpcLedgerInv RpcLedgerOps RpcLedgerTrace RpcLedgerFrame.
Import Ledger.

Section ledger_props.
Context `{MH : MapHash} {Enc Ident : Type} `{EqI : EqDecision Ident, InhI : Inhabited Ident}.
Abbreviation ledger := (@rpcExecutionLedger Enc Ident).
Abbreviation flight := (@rpcResultFlight Enc Ident).
Abbreviation receipt := (@rpcExecutionReceipt Ident).
Abbreviation pendingMap := (gmap rpcExecutionKey (positive * flight)).
Abbreviation receiptMap := (gmap rpcExecutionKey (positive * receipt)).
Abbreviation event := (@label Enc Ident * @output Enc)%type.
Implicit Types (l : ledger) (fl : flight) (r : receipt) (k key : rpcExecutionKey).
Implicit Types (P : pendingMap) (R : receiptMap) (tr : list event).

(** ** Reading a ledger *)

(** The pending flight and the receipt a ledger holds for a key. *)
Definition flightAt l k : option flight := pending (shard l k) !! k ≫= λ f, flights l !! f.
Definition receiptAt l k : option receipt := byKey (shard l k) !! k ≫= λ e, receipts l !! e.

Lemma flightAt_Inv l P R k : Inv l P R → flightAt l k = snd <$> P !! k.
Proof.
  intros [[HP _ _] _]. unfold flightAt. rewrite (pi_pending _ _ HP).
  destruct (P !! k) as [[f fl]|] eqn:HPk; [|done]. simpl. by eapply pi_flight.
Qed.
Lemma receiptAt_Inv l P R k : Inv l P R → receiptAt l k = snd <$> R !! k.
Proof.
  intros [[_ HR _] _]. unfold receiptAt. rewrite (ri_byKey _ _ HR).
  destruct (R !! k) as [[e r]|] eqn:HRk; [|done]. simpl. by eapply ri_receipt.
Qed.

(** The capacity after the constructor replaced the unset values. *)
Definition effective (c : rpcExecutionLedgerCapacity) : rpcExecutionLedgerCapacity :=
  let maxPending' := orDefault (maxPending c) rpcResultFlightDefaultMaxPending in
  let globalMaxEntries' := orDefault (globalMaxEntries c) rpcExecutionMaxEntries in
  let authMaxEntries' := orDefault (authMaxEntries c) globalMaxEntries' in
  mkCapacity maxPending' (orDefault (maxPendingPerAuth c) maxPending') globalMaxEntries'
    authMaxEntries' (orDefault (sessionMaxEntries c) authMaxEntries')
    (orDefault (subscriberMaxGlobal c) SubscriberBudget.maxGlobal)
    (orDefault (subscriberMaxAuth c) SubscriberBudget.maxAuth)
    (orDefault (subscriberMaxSession c) SubscriberBudget.maxSession)
    (orDefault (subscriberMaxPerFlight c) SubscriberBudget.maxPerFlight).

Lemma orDefault_pos v d : 0 < d → 0 < orDefault v d.
Proof. unfold orDefault. case_bool_decide; lia. Qed.
Lemma effective_pos c :
  0 < maxPending (effective c) ∧ 0 < maxPendingPerAuth (effective c) ∧
  0 < globalMaxEntries (effective c) ∧ 0 < authMaxEntries (effective c) ∧
  0 < sessionMaxEntries (effective c) ∧ 0 < subscriberMaxGlobal (effective c) ∧
  0 < subscriberMaxAuth (effective c) ∧ 0 < subscriberMaxSession (effective c) ∧
  0 < subscriberMaxPerFlight (effective c).
Proof. split_and!; simpl; repeat apply orDefault_pos; done. Qed.

Lemma Trace_Stable c l tr : Trace c l tr → Stable (newRPCExecutionLedger c) l.
Proof.
  induction 1; [reflexivity|]. etransitivity; [done|]. by eapply exec_Stable.
Qed.

(** The limits of a reachable ledger are the configured ones. *)
Lemma Trace_limits c l tr :
  Trace c l tr →
  FlightLimit.max (flightLimit l) = maxPending (effective c) ∧
  FlightLimit.max (FairBudget.globalEntries (fairBudget l)) = globalMaxEntries (effective c) ∧
  FairBudget.authLimit (fairBudget l) = authMaxEntries (effective c) ∧
  FairBudget.sessionLimit (fairBudget l) = sessionMaxEntries (effective c) ∧
  FairBudget.pendingPerAuth (fairBudget l) = maxPendingPerAuth (effective c) ∧
  FlightLimit.max (SubscriberBudget.global (subscriberBudget l)) = subscriberMaxGlobal (effective c) ∧
  SubscriberBudget.authLimit (subscriberBudget l) = subscriberMaxAuth (effective c) ∧
  SubscriberBudget.sessionLimit (subscriberBudget l) = subscriberMaxSession (effective c) ∧
  subscriberPerFlight l = subscriberMaxPerFlight (effective c).
Proof.
  intros [-> Hf Hs -> _]%Trace_Stable. injection Hf as -> -> -> ->. by injection Hs as -> -> ->.
Qed.

(** ** Counting pending requests and receipts by scope *)

Definition inAuth (a : Z) {A} (m : gmap rpcExecutionKey A) : Z :=
  msum (λ k _, ind (authKeyID k = a)) m.
Definition inSession (s : rpcExecutionSessionBudgetKey) {A} (m : gmap rpcExecutionKey A) : Z :=
  msum (λ k _, ind (sessionKeyOf k = s)) m.
(** The callbacks a flight retains, and those of the flights a test selects. *)
Definition callbacksOf fl : Z := Z.of_nat (length (f_subscribers fl) + length (f_executionSubscribers fl)).
Definition callbacksIn (sel : rpcExecutionKey → bool) P : Z := msum (λ k p, if sel k then callbacksOf p.2 else 0) P.

Lemma callbacksIn_slots l P sel :
  PInv l P → callbacksIn sel P = msum (λ k n, if sel k then n else 0) (slotsOf P).
Proof.
  intros HP. unfold callbacksIn, slotsOf. rewrite msum_fmap. apply msum_ext. intros k [f fl] Hk. simpl.
  destruct (pi_ok _ _ HP _ _ _ Hk) as [_ _ -> _ _]. done.
Qed.

Lemma Inv_held_counts l P R :
  Inv l P R →
  FairBudget.held (λ _, 1) (fairBudget l) = Z.of_nat (size P) + Z.of_nat (size R) ∧
  (∀ a, FairBudget.held (FairBudget.byAuth a) (fairBudget l) = inAuth a P + inAuth a R) ∧
  (∀ a, FairBudget.held (FairBudget.byAuthPending a) (fairBudget l) = inAuth a P) ∧
  (∀ s, FairBudget.held (FairBudget.bySession s) (fairBudget l) = inSession s P + inSession s R).
Proof.
  intros HI.
  pose proof (Inv_held (λ _ _, 1) l P R HI) as H1.
  pose proof (λ a, Inv_held (λ k _, ind (authKeyID k = a)) l P R HI) as H2.
  pose proof (λ a, Inv_held (λ k p, if p then ind (authKeyID k = a) else 0) l P R HI) as H3.
  pose proof (λ s, Inv_held (λ k _, ind (sessionKeyOf k = s)) l P R HI) as H4.
  split_and!; [|exact H2| |exact H4].
  - by rewrite !msum_size in H1.
  - intros a. specialize (H3 a). simpl in H3. rewrite (msum_zero (λ _ _, 0)) in H3 by done.
    rewrite Z.add_0_r in H3. exact H3.
Qed.

(** ** Whole operations as sequences of atomic steps *)

Definition isExpiry (ev : event) : Prop := ∃ i now, ev = (LExpire i now, OOther).

(** The sweep over all shards returns, and is a sequence of expiry steps. *)
Lemma expireShards_Trace c now ix l tr :
  Trace c l tr → ∃ l' sweep, expireShards now ix l = Done l' ∧ Trace c l' (sweep ++ tr) ∧
    Forall isExpiry sweep.
Proof.
  revert l tr. induction ix as [|i ix IH]; intros l tr HT; simpl.
  { by exists l, []. }
  destruct (Trace_Inv _ _ _ HT) as (P & R & [HC HU] & _).
  destruct (expireLocked_ok i (now i) l P R HC) as (l1 & R1 & Hl1 & _).
  destruct (IH l1 ((LExpire i (now i), OOther) :: tr)) as (l2 & sweep & Hl2 & HT2 & Hs).
  { eapply trace_step; [done|done|]. simpl. by rewrite Hl1. }
  exists l2, (sweep ++ [(LExpire i (now i), OOther)]). rewrite Hl1. simpl. split; [done|].
  rewrite <-app_assoc. split; [done|]. apply Forall_app. split; [done|].
  apply Forall_singleton. by exists i, (now i).
Qed.

(** A round that asks for a retry has not reclaimed yet. *)
Lemma acquireRound_retry replay key ident now reclaimed l P R l' :
  Inv l P R → acquireRound replay key ident now reclaimed l = Done (l', None) → reclaimed = false.
Proof.
  intros HI Hr. destruct (acquireRound_ok replay key ident now reclaimed l P R HI)
    as (l1 & res & P' & R' & Hr' & _ & _ & HA).
  rewrite Hr in Hr'. injection Hr' as <- <-. by inversion HA.
Qed.

Lemma acquireRound_Trace c l tr replay key ident now reclaimed :
  Trace c l tr → reqMsgID key ≠ 0 →
  ∃ l' res, acquireRound replay key ident now reclaimed l = Done (l', res) ∧
    Trace c l' ((LAcquire replay key ident now reclaimed, OAcquire res) :: tr).
Proof.
  intros HT Hk. destruct (Trace_Inv _ _ _ HT) as (P & R & HI & _).
  destruct (acquireRound_ok replay key ident now reclaimed l P R HI) as (l' & res & _ & _ & Hr & _).
  exists l', res. split; [done|]. eapply trace_step; [done|done|]. simpl. by rewrite Hr.
Qed.

(** ** Admission sequences along a step *)

Lemma exec_grant_seq lbl l l' seq o :
  exec lbl l = Done (l', OAcquire (Some (inr (rpcResultAcquireOwner seq o)))) →
  seq = 0 ∨ nextAdmissionSeq l < seq.
Proof.
  destruct lbl; simpl; intros H; repeat case_match; try (run_inv; simplify_eq; done).
  apply run_bind_Done in H as ([l1 res] & [_ Hr]%acquireRound_Stable & H). simplify_eq. by eapply Hr.
Qed.

(** A pending flight either was pending with the same sequence, or was
    installed by this step. *)
Lemma Effect_seq lbl out P R P' R' k f fl :
  Effect lbl out P R P' R' → P' !! k = Some (f, fl) →
  (∃ f0 fl0, P !! k = Some (f0, fl0) ∧ f_admissionSeq fl0 = f_admissionSeq fl) ∨
  ∃ o, out = OAcquire (Some (inr (rpcResultAcquireOwner (f_admissionSeq fl) o))).
Proof.
  intros HE HP'. destruct HE; eauto.
  - destruct H0; eauto. apply lookup_insert_Some in HP' as [[_ [= _ <-]]|[_ ?]]; eauto.
  - destruct H0; eauto. apply lookup_delete_Some in HP' as [_ ?]. eauto.
  - destruct H0; eauto. apply lookup_insert_Some in HP' as [[<- [= <- <-]]|[_ ?]]; eauto.
  - apply lookup_delete_Some in HP' as [_ ?]. eauto.
  - apply lookup_insert_Some in HP' as [[<- [= <- <-]]|[_ ?]]; eauto.
  - destruct H; eauto. apply lookup_insert_Some in HP' as [[<- [= <- <-]]|[_ ?]]; eauto.
Qed.

Lemma pending_seq_dec P :
  (∃ k f fl, P !! k = Some (f, fl) ∧ f_admissionSeq fl ≠ 0) ∨
  (∀ k f fl, P !! k = Some (f, fl) → f_admissionSeq fl = 0).
Proof.
  induction P as [|k [f fl] P HPk IH] using map_ind; [by right|].
  destruct (decide (f_admissionSeq fl = 0)) as [Hz|Hz].
  - destruct IH as [(k' & f' & fl' & HP & Hne)|IH].
    + left. exists k', f', fl'. split; [|done]. rewrite lookup_insert_ne; congruence.
    + right. intros k' f' fl' [[_ [= _ <-]]|[_ ?]]%lookup_insert_Some; eauto.
  - left. exists k, f, fl. by rewrite lookup_insert_eq.
Qed.

(** ** Properties *)

(** C1: no interleaving of ledger operations reaches any of the ledger's
    panics (counter underflow, double retirement, double close, nil
    dereference): every operation a caller may issue returns. *)
Theorem ledger_never_panics c l tr lbl :
  Trace c l tr → enabled l lbl → ∃ l' out, exec lbl l = Done (l', out).
Proof.
  intros (P & R & HI & _)%Trace_Inv Hen.
  destruct (exec_ok lbl l P R HI Hen) as (l' & out & _ & _ & Hex & _). eauto.
Qed.

(** C2: between two grants of execution ownership for the same request key
    there is an event that allows it: the client acknowledged the result,
    the first owner aborted, the session was forgotten, or a clock reading
    at least 331 seconds after a completion of that request. *)
Theorem at_most_one_execution c l k ev1 ev2 mid tr0 :
  Trace c l (ev2 :: mid ++ ev1 :: tr0) → grants k ev1 → grants k ev2 →
  ∃ post ev pre, ev2 :: mid = post ++ ev :: pre ∧ frees k ev (pre ++ ev1 :: tr0).
Proof.
  intros HT Hg1 Hg2.
  assert (Hsplit : granted k (mid ++ ev1 :: tr0) ∨
    ∃ post ev pre, mid = post ++ ev :: pre ∧ frees k ev (pre ++ ev1 :: tr0)).
  { clear HT Hg2. induction mid as [|ev mid IH]; simpl; [by left; left|].
    destruct IH as [IH|(post & ev' & pre & -> & ?)]; [|right; by exists (ev :: post), ev', pre].
    destruct (decide (frees k ev (mid ++ ev1 :: tr0))) as [?|?]; [right; by exists [], ev, mid|].
    left. by right. }
  destruct Hsplit as [Hg|(post & ev & pre & -> & ?)]; [|by exists (ev2 :: post), ev, pre].
  exists [], ev2, mid. split; [done|]. inversion HT as [|l0 l' tr lbl out HT0 Hen Hex]; subst.
  destruct (Trace_Inv _ _ _ HT0) as (P & R & HI & HTI).
  destruct (exec_ok lbl l0 P R HI Hen) as (l1 & out1 & P' & R' & Hex' & HI' & HE).
  rewrite Hex in Hex'. injection Hex' as <- <-.
  destruct (Effect_grants _ _ _ _ _ _ _ HE Hg2) as (_ & HPk & HRk & now & Hc & [_ HD]).
  destruct (ti_granted _ _ _ HTI k Hg) as [[x Hx]|[[e r] HR]]; [congruence|].
  destruct (ti_receipt _ _ _ HTI _ _ _ HR) as (t & ? & Ht).
  eapply FreesExpired; [done..|]. specialize (HD _ _ _ HR HRk). lia.
Qed.
(** C3: subscriptions are conserved along every interleaving: callbacks are
    never invoked more often than they were accepted, and once no request is
    pending every accepted callback has been invoked exactly as often as it
    was accepted. *)
Theorem callbacks_conserved c l tr cb :
  Trace c l tr →
  sumOver (delivered cb) tr ≤ sumOver (registered cb) tr ∧
  ((∀ k, flightAt l k = None) → sumOver (delivered cb) tr = sumOver (registered cb) tr).
Proof.
  intros (P & R & HI & Heq)%(Trace_conserves cb). split.
  - enough (0 ≤ retained cb P) by lia. apply msum_nonneg. intros. apply occ_nonneg.
  - intros Hnone. enough (P = ∅) as ->; [unfold retained in Heq; rewrite msum_empty in Heq; lia|].
    apply map_empty. intros k. specialize (Hnone k). rewrite (flightAt_Inv _ _ _ _ HI) in Hnone.
    by apply fmap_None in Hnone.
Qed.

(** C4: at every reachable state the pending requests, the ledger entries
    (pending requests and receipts) of each auth key and session and in total,
    and the callbacks retained by each flight, by the flights of each auth key
    and of each session, and in total are within the configured capacity, and
    the receipt counter is exact. *)
Theorem ledger_within_capacity c l tr :
  Trace c l tr → ∃ P R, Inv l P R ∧ let c := effective c in
    Z.of_nat (size P) ≤ maxPending c ∧
    (∀ a, inAuth a P ≤ maxPendingPerAuth c) ∧
    Z.of_nat (size P) + Z.of_nat (size R) ≤ globalMaxEntries c ∧
    (∀ a, inAuth a P + inAuth a R ≤ authMaxEntries c) ∧
    (∀ s, inSession s P + inSession s R ≤ sessionMaxEntries c) ∧
    (∀ k f fl, P !! k = Some (f, fl) → callbacksOf fl ≤ subscriberMaxPerFlight c) ∧
    callbacksIn (λ _, true) P ≤ subscriberMaxGlobal c ∧
    (∀ a, callbacksIn (λ k, bool_decide (authKeyID k = a)) P ≤ subscriberMaxAuth c) ∧
    (∀ s, callbacksIn (λ k, bool_decide (sessionKeyOf k = s)) P ≤ subscriberMaxSession c) ∧
    receiptCount l = Z.of_nat (size R).
Proof.
  intros HT. destruct (Trace_limits _ _ _ HT) as (Hm & Hg & Ha & Hs & Hp & Hsg & Hsa & Hss & Hpf).
  destruct (effective_pos c) as (? & ? & ? & ? & ? & ? & ? & ? & ?).
  destruct (Trace_Inv _ _ _ HT) as (P & R & HI & _). exists P, R. split; [done|].
  destruct (Inv_held_counts _ _ _ HI) as (Hall & Hau & Hpe & Hse).
  destruct HI as [[HP HR HX] _]. pose proof (xi_budget _ _ _ HX) as HB.
  cbv zeta. split_and!.
  - pose proof (pi_limit _ _ HP). pose proof (pi_limit_le _ _ HP). lia.
  - intros a. pose proof (FairBudget.inv_pending_le _ HB a) as Hle. rewrite Hpe in Hle. lia.
  - pose proof (FairBudget.inv_global _ HB). pose proof (FairBudget.inv_global_le _ HB). lia.
  - intros a. pose proof (FairBudget.inv_auth_le _ HB a) as Hle. rewrite Hau in Hle. lia.
  - intros s'. pose proof (FairBudget.inv_session_le _ HB s') as Hle. rewrite Hse in Hle. lia.
  - intros k f fl HPk. unfold callbacksOf. destruct (pi_ok _ _ HP _ _ _ HPk) as [_ _ <- _ Hle]. lia.
  - rewrite (callbacksIn_slots _ _ _ HP), <-(msum_ext SubscriberBudget.slotsAll) by done.
    pose proof (SubscriberBudget.inv_global_le _ _ (pi_sub _ _ HP)). lia.
  - intros a. rewrite (callbacksIn_slots _ _ _ HP), <-(msum_ext (SubscriberBudget.slotsAuth a)).
    + pose proof (SubscriberBudget.inv_auth_le _ _ (pi_sub _ _ HP) a). lia.
    + intros k n _. unfold SubscriberBudget.slotsAuth. by destruct (decide (authKeyID k = a)); case_bool_decide.
  - intros s'. rewrite (callbacksIn_slots _ _ _ HP), <-(msum_ext (SubscriberBudget.slotsSession s')).
    + pose proof (SubscriberBudget.inv_session_le _ _ (pi_sub _ _ HP) s'). lia.
    + intros k n _. unfold SubscriberBudget.slotsSession. by destruct (decide (sessionKeyOf k = s')); case_bool_decide.
  - apply (ri_count _ _ HR).
Qed.

(** C5: [acquire] terminates: the loop needs at most two rounds, always
    returns an outcome, and what it does is a sequence of the atomic steps:
    one round, or a round, a sweep of expiry steps and a second round. *)
Theorem acquire_returns c l tr replay key ident clock :
  Trace c l tr → reqMsgID key ≠ 0 →
  ∃ l' res evs, acquire replay key ident clock l = Done (l', Some res) ∧ Trace c l' (evs ++ tr) ∧
    (evs = [(LAcquire replay key ident (clock 1%nat).1 false, OAcquire (Some res))] ∨
     ∃ sweep, Forall isExpiry sweep ∧
       evs = (LAcquire replay key ident (clock 0%nat).1 true, OAcquire (Some res)) :: sweep
             ++ [(LAcquire replay key ident (clock 1%nat).1 false, OAcquire None)]).
Proof.
  intros HT Hk. unfold acquire. rewrite bool_decide_eq_false_2 by done. simpl.
  destruct (acquireRound_Trace c l tr replay key ident (clock 1%nat).1 false HT Hk)
    as (l1 & [res|] & Hl1 & HT1); rewrite Hl1; simpl.
  { exists l1, res, [(LAcquire replay key ident (clock 1%nat).1 false, OAcquire (Some res))].
    split; [done|]. split; [exact HT1|by left]. }
  destruct (expireShards_Trace c (clock 1%nat).2 (seqZ 0 rpcExecutionLedgerShards) _ _ HT1)
    as (l2 & sweep & Hl2 & HT2 & Hs).
  unfold expireReceipts. rewrite Hl2. simpl.
  destruct (acquireRound_Trace c l2 _ replay key ident (clock 0%nat).1 true HT2 Hk)
    as (l3 & [res|] & Hl3 & HT3); rewrite Hl3; simpl; last first.
  { destruct (Trace_Inv _ _ _ HT2) as (P & R & HI & _).
    by pose proof (acquireRound_retry _ _ _ _ _ _ _ _ _ HI Hl3). }
  exists l3, res. eexists (_ :: sweep ++ [_]). split; [done|]. simpl. rewrite <-app_assoc.
  split; [exact HT3|]. right. by exists sweep.
Qed.

(** Completing a pending request notifies each result subscriber with the
    result, in subscription order, and then each execution subscriber; the
    request stops being pending, no other request is touched, a waiter on the
    flight reads the result even with a cancelled context, and a receipt with
    the owner's identity and a full time to live remains unless the client had
    already acknowledged. *)
Theorem complete_publishes c l tr replay k enc replayable now1 sweep now2 f fl cancelled :
  Trace c l tr → reqMsgID k ≠ 0 → pending (shard l k) !! k = Some f → flights l !! f = Some fl →
  ∃ l', Complete replay k enc replayable now1 sweep now2 l = Done (l', completionNotices enc fl) ∧
    flightAt l' k = None ∧ (∀ k', k' ≠ k → flightAt l' k' = flightAt l k') ∧
    Wait (mkWaiter k f) cancelled l' = Done (Some (Some (Some enc, true))) ∧
    receiptAt l' k =
      if f_acknowledged fl then None
      else Some (receiptFor k now1 (replayable && bool_decide (is_Some (replay k)))
                   (f_reservation fl) (Some fl)).
Proof.
  intros HT Hk Hf Hfl. destruct (Trace_Inv _ _ _ HT) as (P & R & HI & _).
  assert (HPk : P !! k = Some (f, fl)).
  { pose proof (inv_core _ _ _ HI) as [HP _ _]. rewrite (pi_pending _ _ HP) in Hf.
    destruct (P !! k) as [[f' fl']|] eqn:E; simplify_eq/=. apply (pi_flight _ _ HP) in E as ?. congruence. }
  destruct (completeOnce_publishes l P R k enc (replayable && bool_decide (is_Some (replay k))) now1 f fl HI HPk)
    as (l' & e & R1 & Hl' & HI' & Hres & HD).
  unfold Complete. rewrite bool_decide_eq_false_2 by done. rewrite Hl'. simpl.
  exists l'. split; [done|].
  rewrite (flightAt_Inv _ _ _ k HI'), (receiptAt_Inv _ _ _ k HI'), lookup_delete_eq.
  split_and!; [done| | |].
  - intros k' Hne. by rewrite (flightAt_Inv _ _ _ _ HI'), (flightAt_Inv _ _ _ _ HI), lookup_delete_ne.
  - unfold Wait. simpl. by rewrite Hres.
  - destruct (f_acknowledged fl) eqn:Hack; [|rewrite lookup_insert_eq; simpl; by rewrite Hack].
    destruct (R1 !! k) as [x|] eqn:E; [|done]. exfalso.
    pose proof (Dropped_Some _ _ _ _ _ HD E) as HRk.
    pose proof (xi_disjoint _ _ _ (core_X _ _ _ (inv_core _ _ _ HI)) k). rewrite HPk in *. naive_solver.
Qed.
(** Destroying a session removes exactly that session's receipts: every
    receipt of the session is gone, every other receipt and every pending
    request (of that session too) is untouched. *)
Theorem forgetSession_exact c l tr auth session :
  Trace c l tr →
  ∃ l', forgetSession auth session l = Done l' ∧
    (∀ k, receiptAt l' k = if decide (ofSession auth session k) then None else receiptAt l k) ∧
    (∀ k, flightAt l' k = flightAt l k).
Proof.
  intros HT. destruct (Trace_Inv _ _ _ HT) as (P & R & HI & _). pose proof HI as [HC HU].
  destruct (forgetShards_ok auth session (seqZ 0 rpcExecutionLedgerShards) l P R HC)
    as (l' & R' & Hl' & HC' & _ & HD & Hgone).
  assert (HI' : Inv l' P R') by (split; [done|by eapply Unacked_Dropped]).
  exists l'. split; [done|]. split; intros k.
  - rewrite (receiptAt_Inv _ _ _ k HI'), (receiptAt_Inv _ _ _ k HI). case_decide as Hs.
    + destruct (R' !! k) as [x|] eqn:E; [|done]. exfalso. eapply Hgone; [done|apply shardIndex_range|done].
    + f_equal. destruct (R' !! k) as [x|] eqn:E; [by erewrite Dropped_Some|].
      destruct (R !! k) as [[e r]|] eqn:E'; [|done]. destruct HD as [_ HD]. by destruct Hs; eauto.
  - by rewrite (flightAt_Inv _ _ _ k HI'), (flightAt_Inv _ _ _ k HI).
Qed.

(** The admission sequences of the pending owners. *)
Lemma floor_spec l P R :
  Inv l P R →
  (∀ k f fl, P !! k = Some (f, fl) → f_admissionSeq fl ≠ 0 → stableAdmissionSafeFloor l ≤ f_admissionSeq fl) ∧
  ((∀ k f fl, P !! k = Some (f, fl) → f_admissionSeq fl = 0) →
     stableAdmissionSafeFloor l = Z.min (nextAdmissionSeq l + 1) u64_max) ∧
  ((∃ k f fl, P !! k = Some (f, fl) ∧ f_admissionSeq fl ≠ 0) →
     ∃ k f fl, P !! k = Some (f, fl) ∧ f_admissionSeq fl = stableAdmissionSafeFloor l ∧
       f_admissionSeq fl ≠ 0) ∧
  stableAdmissionSafeFloor l ≤ Z.min (nextAdmissionSeq l + 1) u64_max.
Proof.
  intros [[HP _ _] _]. destruct (pi_adm _ _ HP) as (A & HA & HAP).
  pose proof (AdmissionTracker.inv_next _ _ _ HA) as Hnext.
  pose proof (AdmissionTracker.inv_range _ _ _ HA) as Hrange.
  unfold stableAdmissionSafeFloor.
  destruct (AdmissionTracker.stableSafeFloor_spec _ _ _ HA) as [[-> Hfl]|[Hin Hmin]].
  - assert (Hz : ∀ k f fl, P !! k = Some (f, fl) → f_admissionSeq fl = 0).
    { intros k f fl HPk. destruct (decide (f_admissionSeq fl = 0)) as [|Hne]; [done|].
      destruct (proj2 (HAP (f_admissionSeq fl))) as []; eauto 10; set_solver. }
    split_and!; [|done| |lia]; [intros; by exfalso; eauto|intros (? & ? & ? & ? & []); eauto].
  - pose proof (Hrange _ Hin). split_and!; [| | |lia].
    + intros k f fl HPk Hne. apply Hmin, HAP. eauto 10.
    + intros Hz. apply HAP in Hin as (Hne & k & f & fl & HPk & Heq). exfalso. rewrite <-Heq in Hne. eauto.
    + intros _. apply HAP in Hin as (Hne & k & f & fl & HPk & Heq). exists k, f, fl. by rewrite Heq.
Qed.

(** The stable admission floor is at most every sequence whose owner can
    still publish, never moves backwards along an interleaving, and every
    owner admitted later gets a sequence at or above it. *)
Theorem admission_floor_stable c l tr lbl l' out :
  Trace c l tr → enabled l lbl → exec lbl l = Done (l', out) →
  stableAdmissionSafeFloor l ≤ stableAdmissionSafeFloor l' ∧
  (∀ k fl, flightAt l k = Some fl → f_admissionSeq fl ≠ 0 → stableAdmissionSafeFloor l ≤ f_admissionSeq fl) ∧
  (∀ seq o, out = OAcquire (Some (inr (rpcResultAcquireOwner seq o))) → seq ≠ 0 →
     stableAdmissionSafeFloor l ≤ seq).
Proof.
  intros HT Hen Hex. destruct (Trace_Inv _ _ _ HT) as (P & R & HI & _).
  destruct (exec_ok lbl l P R HI Hen) as (l1 & out1 & P' & R' & Hex' & HI' & HE).
  rewrite Hex in Hex'. injection Hex' as <- <-.
  destruct (floor_spec _ _ _ HI) as (Hle & _ & _ & Hmax).
  destruct (floor_spec _ _ _ HI') as (_ & Hempty' & Hmin' & _).
  pose proof (st_next _ _ (exec_Stable _ _ _ _ Hex)) as Hnext.
  assert (Hseq : ∀ seq o, out = OAcquire (Some (inr (rpcResultAcquireOwner seq o))) → seq ≠ 0 →
    stableAdmissionSafeFloor l ≤ seq).
  { intros seq o -> Hne. destruct (exec_grant_seq _ _ _ _ _ Hex) as [?|?]; [done|lia]. }
  split_and!; [|intros k fl; rewrite (flightAt_Inv _ _ _ _ HI); intros [[f fl'] [HPk ->]]%fmap_Some; eauto|done].
  destruct (pending_seq_dec P') as [Hne|Hz]; [|rewrite (Hempty' Hz); lia].
  destruct (Hmin' Hne) as (k & f & fl & HPk & <- & Hfl).
  destruct (Effect_seq _ _ _ _ _ _ _ _ _ HE HPk) as [(f0 & fl0 & HP0 & Heq)|(o & Ho)].
  - rewrite <-Heq in *. by eapply Hle.
  - by eapply Hseq.
Qed.
(** No false refusal: a request the ledger does not know, with room at
    every scope (process, auth key, session, pending per auth key) and an
    admission sequence left, is granted to the caller in the first round. *)
Theorem acquire_grants_when_room c l tr P R replay key ident clock :
  Trace c l tr → Inv l P R → reqMsgID key ≠ 0 → P !! key = None → R !! key = None →
  (valid ident = true → nextAdmissionSeq l ≠ u64_max) →
  Z.of_nat (size P) < maxPending (effective c) →
  inAuth (authKeyID key) P < maxPendingPerAuth (effective c) →
  Z.of_nat (size P) + Z.of_nat (size R) < globalMaxEntries (effective c) →
  inAuth (authKeyID key) P + inAuth (authKeyID key) R < authMaxEntries (effective c) →
  inSession (sessionKeyOf key) P + inSession (sessionKeyOf key) R < sessionMaxEntries (effective c) →
  ∃ l' seq o, acquire replay key ident clock l = Done (l', Some (inr (rpcResultAcquireOwner seq o))).
Proof.
  intros HT HI Hk HPk HRk Hseq H1 H2 H3 H4 H5.
  destruct (Trace_limits _ _ _ HT) as (Hm & Hg & Ha & Hs & Hp & _). pose proof HI as [HC HU].
  unfold acquire. rewrite bool_decide_eq_false_2 by done. simpl. unfold acquireRound.
  destruct (expireLocked_ok (shardIndex key) (clock 1%nat).1 l P R HC) as (l1 & R1 & Hl1 & HC1 & Hf & HD).
  rewrite Hl1. simpl. pose proof (Unacked_Dropped _ _ _ HU HD) as HU1.
  pose proof (st_fair _ _ (expireLocked_Stable _ _ _ _ Hl1)) as Hst. injection Hst as Hg1 Ha1 Hs1 Hp1.
  pose proof HC1 as [HP1 HR1 HX1]. destruct HD as [Hsub _].
  rewrite (ri_byKey _ _ HR1), (pi_pending _ _ HP1), HPk.
  replace (R1 !! key) with (@None (positive * receipt)) by (symmetry; by eapply lookup_weaken_None).
  simpl. unfold FlightLimit.reserve. rewrite FlightLimit.reserveN_room; [|lia|..]; cycle 1.
  { rewrite (pi_limit _ _ HP1). lia. }
  { rewrite (pi_limit _ _ HP1), (rf_limit _ _ Hf). lia. }
  destruct (Inv_held_counts l1 P R1) as (Hall & Hau & Hpe & Hse); [done|].
  assert (Z.of_nat (size R1) ≤ Z.of_nat (size R)) by (apply inj_le, map_subseteq_size, Hsub).
  assert (inAuth (authKeyID key) R1 ≤ inAuth (authKeyID key) R)
    by (apply msum_subseteq; [intros; apply ind_range|done]).
  assert (inSession (sessionKeyOf key) R1 ≤ inSession (sessionKeyOf key) R)
    by (apply msum_subseteq; [intros; apply ind_range|done]).
  destruct (FairBudget.reserve_room key (fairBudget l1)) as (rid & b & Hb);
    [apply HX1|rewrite Hall; lia|rewrite Hau; lia|rewrite Hpe; lia|rewrite Hse; lia|].
  unfold FairBudget.reserveOwner. rewrite Hb. destruct (valid ident) eqn:Hv; [|simpl; eauto].
  unfold AdmissionTracker.allocateAndRegister.
  rewrite bool_decide_eq_false_2 by (rewrite (rf_next _ _ Hf); auto). simpl. eauto.
Qed.
End ledger_props.

(** ** Runs on a concrete ledger *)

Module LedgerRuns.
(** A ledger with two pending requests and three entries in all; requests of
    one session, results and identities are numbers. *)
#[export] Instance sumHash : MapHash := λ bs, foldr Z.add 0 bs.
Abbreviation lbl := (@label Z Z).
Definition cap : rpcExecutionLedgerCapacity := mkCapacity 2 2 3 3 3 4 4 4 2.
Definition k1 : rpcExecutionKey := mkKey 1 2 3.
Definition k2 : rpcExecutionKey := mkKey 1 2 4.
Definition who : @rpcResultRequestIdentity Z := mkIdentity 7 223 true.
Definition outbox (_ : rpcExecutionKey) : option Z := Some 99.
Definition claim (k : rpcExecutionKey) (now : Z) : lbl := LAcquire outbox k who now false.
Definition finalLedger (lbls : list lbl) : @rpcExecutionLedger Z Z :=
  match run cap lbls with Some (l, _) => l | None => newRPCExecutionLedger cap end.
Definition finalTrace (lbls : list lbl) : list (lbl * @output Z) :=
  match run cap lbls with Some (_, tr) => tr | None => [] end.
Lemma final_Trace lbls : Trace cap (finalLedger lbls) (finalTrace lbls).
Proof.
  unfold finalLedger, finalTrace. destruct (run cap lbls) as [[l tr]|] eqn:Hr; [|constructor].
  by apply run_Trace in Hr.
Qed.

Definition joined : list lbl :=
  [claim k1 0; LSubscribe (mkWaiter k1 1) (Some 5%positive) (Some 6%positive)].
Definition again : list lbl :=
  [claim k1 0; LComplete k1 42 true 10; LAck k1 20; claim k1 30].

Lemma ledger_never_panics_witness :
  ∃ l' out, exec (LAbort 1) (finalLedger joined) = Done (l', out).
Proof.
  apply (ledger_never_panics cap _ (finalTrace joined)); [apply final_Trace|].
  simpl. apply (bool_decide_eq_true_1 _). vm_compute. reflexivity.
Defined.

Lemma at_most_one_execution_witness :
  ∃ ev1 ev2 mid, finalTrace again = ev2 :: mid ++ [ev1] ∧
    ∃ post ev pre, ev2 :: mid = post ++ ev :: pre ∧ frees k1 ev (pre ++ [ev1]).
Proof.
  eexists (claim k1 0, OAcquire (Some (inr (rpcResultAcquireOwner 1 1)))),
    (claim k1 30, OAcquire (Some (inr (rpcResultAcquireOwner 2 2)))),
    [(LAck k1 20, OAck true); (LComplete k1 42 true 10, OComplete true [])].
  assert (Heq : finalTrace again = (claim k1 30, OAcquire (Some (inr (rpcResultAcquireOwner 2 2)))) ::
    [(LAck k1 20, OAck true); (LComplete k1 42 true 10, OComplete true [])] ++
    [(claim k1 0, OAcquire (Some (inr (rpcResultAcquireOwner 1 1))))]) by (vm_compute; reflexivity).
  split; [exact Heq|].
  apply (at_most_one_execution cap (finalLedger again) k1).
  - rewrite <-Heq. apply final_Trace.
  - by exists outbox, who, 0, false, 1, 1%positive.
  - by exists outbox, who, 30, false, 2, 2%positive.
Defined.

Lemma callbacks_conserved_witness :
  sumOver (delivered 5) (finalTrace (joined ++ [LComplete k1 42 true 10])) = 1 ∧
  sumOver (delivered 5) (finalTrace (joined ++ [LComplete k1 42 true 10])) ≤
  sumOver (registered 5) (finalTrace (joined ++ [LComplete k1 42 true 10])).
Proof.
  split; [vm_compute; reflexivity|].
  exact (proj1 (callbacks_conserved cap _ _ 5 (final_Trace (joined ++ [LComplete k1 42 true 10])))).
Defined.

Lemma ledger_within_capacity_witness :
  ∃ P R, Inv (finalLedger joined) P R ∧ Z.of_nat (size P) ≤ 2.
Proof.
  destruct (ledger_within_capacity cap _ _ (final_Trace joined)) as (P & R & HI & Hle & _).
  by exists P, R.
Defined.

Lemma acquire_returns_witness :
  ∃ l' res, acquire outbox k2 who (λ _, (0, λ _, 0)) (finalLedger joined) = Done (l', Some res).
Proof.
  destruct (acquire_returns cap _ _ outbox k2 who (λ _, (0, λ _, 0)) (final_Trace joined))
    as (l' & res & _ & H & _); [discriminate|]. by exists l', res.
Defined.

Lemma complete_publishes_witness :
  ∃ l', Complete outbox k1 42 true 10 (λ _, 10) 10 (finalLedger joined) =
      Done (l', [ResultNotice 5 (Some 42) true; ExecutionNotice 6 false]) ∧
    Wait (mkWaiter k1 1) true l' = Done (Some (Some (Some 42, true))).
Proof.
  destruct (complete_publishes cap _ _ outbox k1 42 true 10 (λ _, 10) 10 1
    (default (newFlight who 0 1) (flights (finalLedger joined) !! 1%positive)) true (final_Trace joined))
    as (l' & H1 & _ & _ & H2 & _); [discriminate|vm_compute; reflexivity..|].
  exists l'. split; [|exact H2]. etransitivity; [exact H1|]. vm_compute; reflexivity.
Defined.

Lemma forgetSession_exact_witness :
  ∃ l', forgetSession 1 2 (finalLedger (joined ++ [LComplete k1 42 true 10])) = Done l' ∧
    receiptAt l' k1 = None.
Proof.
  destruct (forgetSession_exact cap _ _ 1 2 (final_Trace (joined ++ [LComplete k1 42 true 10])))
    as (l' & H1 & H2 & _).
  exists l'. split; [exact H1|]. by rewrite (H2 k1).
Defined.

Lemma admission_floor_stable_witness :
  ∃ l' out, exec (claim k2 5) (finalLedger joined) = Done (l', out) ∧
    stableAdmissionSafeFloor (finalLedger joined) = 1 ∧
    stableAdmissionSafeFloor (finalLedger joined) ≤ stableAdmissionSafeFloor l'.
Proof.
  assert (Hdone : match exec (claim k2 5) (finalLedger joined) with Done _ => true | _ => false end = true)
    by (vm_compute; reflexivity).
  destruct (exec (claim k2 5) (finalLedger joined)) as [[l' out]|] eqn:Hex; [|discriminate].
  exists l', out. split; [done|]. split; [vm_compute; reflexivity|].
  refine (proj1 (admission_floor_stable cap _ _ (claim k2 5) l' out (final_Trace joined) _ Hex)). discriminate.
Defined.

Lemma acquire_grants_when_room_witness :
  ∃ l' seq o, acquire outbox k1 who (λ _, (0, λ _, 0)) (newRPCExecutionLedger cap) =
    Done (l', Some (inr (rpcResultAcquireOwner seq o))).
Proof.
  apply (acquire_grants_when_room cap _ _ ∅ ∅ outbox k1 who (λ _, (0, λ _, 0)) (trace_new cap));
    [apply newRPCExecutionLedger_Inv|vm_compute; done..].
Defined.
End LedgerRuns.
