(* ===== verification/UpdateTypes.v ===== *)
(** * Account updates: the data

    [internal/domain/update_event.go], [internal/domain/update.go] and the
    parts of [internal/domain/dialog.go], [user.go], [message.go], [story.go],
    [business.go] the update log copies.  [Blob] stands for the contents of
    business structures that the update machinery copies and never reads;
    structures it reads fields of are records with these fields and a [Blob]
    for the rest.  Values are immutable here, so the slice copies of the source
    ([cloneUpdateEvent]) are identities. *)

From S2P Require Import Prelude.

(** ** Peers *)

(** The zero value of the Go type is the empty string. *)
Inductive PeerType := PeerTypeNone | PeerTypeUser | PeerTypeChannel | PeerTypeCommunity | PeerTypeFolder.
#[export] Instance PeerType_eq_dec : EqDecision PeerType.
Proof. solve_decision. Defined.

Record Peer := mkPeer { peerType : PeerType; peerID : Z }.
#[export] Instance Peer_eq_dec : EqDecision Peer.
Proof. solve_decision. Defined.
Definition noPeer : Peer := mkPeer PeerTypeNone 0.

(** ** Emoji statuses *)

(** [Title] and [Slug] are byte strings. *)
Record EmojiStatusCollectible := mkCollectible {
  CollectibleID : Z;
  c_DocumentID : Z;
  Title : list Z;
  Slug : list Z;
  PatternDocumentID : Z;
  CenterColor : Z;
  EdgeColor : Z;
  PatternColor : Z;
  TextColor : Z;
}.
#[export] Instance EmojiStatusCollectible_eq_dec : EqDecision EmojiStatusCollectible.
Proof. solve_decision. Defined.
Definition noCollectible : EmojiStatusCollectible := mkCollectible 0 0 [] [] 0 0 0 0 0.
Definition collectibleEmpty (s : EmojiStatusCollectible) : bool := bool_decide (s = noCollectible).
Definition colorValid (color : Z) : bool :=
  negb (bool_decide (color < 0) || bool_decide (color > 16777215)).
Definition collectibleValid (s : EmojiStatusCollectible) : bool :=
  if bool_decide (CollectibleID s ≤ 0) || bool_decide (c_DocumentID s ≤ 0)
     || bool_decide (PatternDocumentID s ≤ 0) || bool_decide (Title s = []) || bool_decide (Slug s = [])
  then false
  else forallb colorValid [CenterColor s; EdgeColor s; PatternColor s; TextColor s].

Record UserEmojiStatus := mkEmojiStatus {
  s_DocumentID : Z;
  Until : Z;
  Collectible : EmojiStatusCollectible;
}.
Definition noEmojiStatus : UserEmojiStatus := mkEmojiStatus 0 0 noCollectible.
Definition emojiStatusEmpty (s : UserEmojiStatus) : bool :=
  bool_decide (s_DocumentID s = 0) && collectibleEmpty (Collectible s).
Definition emojiStatusValid (s : UserEmojiStatus) : bool :=
  if bool_decide (Until s < 0) then false
  else if emojiStatusEmpty s then bool_decide (Until s = 0)
  else if bool_decide (s_DocumentID s ≤ 0) then false
  else if collectibleEmpty (Collectible s) then true
  else collectibleValid (Collectible s) && bool_decide (s_DocumentID s = c_DocumentID (Collectible s)).

(** ** Update states *)

Record UpdateState := mkState { st_Pts : Z; st_Qts : Z; st_Date : Z; st_Seq : Z }.
#[export] Instance UpdateState_eq_dec : EqDecision UpdateState.
Proof. solve_decision. Defined.
Definition noState : UpdateState := mkState 0 0 0 0.

(** [UpdateStateCommitMode] is a [uint8]; the two declared values are 1 and 2. *)
Definition UpdateStateCommitDeliveredOnly : Z := 1.
Definition UpdateStateCommitDeliveredAndObservedBaseline : Z := 2.

(** The errors of the update service and its stores. *)
Inductive updateError :=
| ErrDispatchExclusion
| ErrInvalidCommitMode (mode : Z)
| ErrConfirmUserMismatch (event caller : Z)
| ErrStoryPeerInvalid
| ErrStarGiftCollectibleInvalid
| ErrStore (code : Z)
| ErrOutOfFuel.

(** ** Update events *)

Inductive UpdateEventType :=
| UpdateEventNewMessage | UpdateEventReadHistoryInbox | UpdateEventReadHistoryOutbox
| UpdateEventReadChannelDiscussionInbox | UpdateEventReadChannelDiscussionOutbox
| UpdateEventReadMessageContents | UpdateEventEditMessage | UpdateEventBotCallbackQuery
| UpdateEventBotPreCheckoutQuery | UpdateEventWebPage | UpdateEventMessagePoll
| UpdateEventContactsReset | UpdateEventDialogPinned | UpdateEventPinnedDialogs
| UpdateEventDialogUnreadMark | UpdateEventPeerSettings | UpdateEventPeerStoryBlocked
| UpdateEventUserPhone | UpdateEventUserEmojiStatus | UpdateEventDeleteMessages
| UpdateEventPinnedMessages | UpdateEventDialogFilter | UpdateEventDialogFilterOrder
| UpdateEventDialogFilters | UpdateEventFolderPeers | UpdateEventChannelViewForum
| UpdateEventStory | UpdateEventReadStories | UpdateEventSentStoryReaction
| UpdateEventNewStoryReaction | UpdateEventQuickReplies | UpdateEventNewQuickReply
| UpdateEventDeleteQuickReply | UpdateEventQuickReplyMessage | UpdateEventDeleteQuickReplyMessages
| UpdateEventChannelState | UpdateEventDraftMessage | UpdateEventSavedDialogPinned
| UpdateEventPinnedSavedDialogs | UpdateEventNoop.
#[export] Instance UpdateEventType_eq_dec : EqDecision UpdateEventType.
Proof. solve_decision. Defined.

Section events.
Context {Blob : Type} `{InhB : Inhabited Blob}.

Record Message := mkMessage {
  m_ID : Z;
  m_OwnerUserID : Z;
  m_Peer : Peer;
  m_Date : Z;
  m_rest : Blob;
}.
Definition noMessage : Message := mkMessage 0 0 noPeer 0 inhabitant.

Record Story := mkStory { story_Owner : Peer; story_Date : Z; story_rest : Blob }.
Definition noStory : Story := mkStory noPeer 0 inhabitant.

Record UpdateEvent := mkEvent {
  e_UserID : Z;
  e_Type : UpdateEventType;
  e_Pts : Z;
  e_PtsCount : Z;
  e_Date : Z;
  e_Message : Message;
  e_Story : Story;
  e_Peer : Peer;
  e_Peers : list Peer;
  e_Bool : bool;
  e_EmojiStatus : UserEmojiStatus;
  e_Settings : Blob;
  e_MessageIDs : list Z;
  e_MaxID : Z;
  e_StillUnreadCount : Z;
  e_ChannelPts : Z;
  e_TopMsgID : Z;
  e_FilterID : Z;
  e_FolderID : Z;
  e_DialogFilter : option Blob;
  e_FilterOrder : list Z;
  e_FolderPeers : list Blob;
  e_Reaction : option Blob;
  e_QuickReplies : list Blob;
  e_QuickReply : Blob;
  e_QuickReplyMessage : Blob;
  e_Extra : Blob;
}.

(** A literal [domain.UpdateEvent{Type: t, Date: date, PtsCount: count, ...}]:
    fields that are not given are zero; [with_F] gives the field [F]. *)
Definition newEvent (t : UpdateEventType) (date count : Z) : UpdateEvent :=
  mkEvent 0 t 0 count date noMessage noStory noPeer [] false noEmojiStatus inhabitant [] 0 0 0 0 0
  0 None [] [] None [] inhabitant inhabitant inhabitant.

Definition with_UserID (v : Z) (e : UpdateEvent) : UpdateEvent :=
  mkEvent v (e_Type e) (e_Pts e) (e_PtsCount e) (e_Date e) (e_Message e) (e_Story e) (e_Peer e)
  (e_Peers e) (e_Bool e) (e_EmojiStatus e) (e_Settings e) (e_MessageIDs e) (e_MaxID e)
  (e_StillUnreadCount e) (e_ChannelPts e) (e_TopMsgID e) (e_FilterID e) (e_FolderID e)
  (e_DialogFilter e) (e_FilterOrder e) (e_FolderPeers e) (e_Reaction e) (e_QuickReplies e)
  (e_QuickReply e) (e_QuickReplyMessage e) (e_Extra e).
Definition with_Pts (v : Z) (e : UpdateEvent) : UpdateEvent :=
  mkEvent (e_UserID e) (e_Type e) v (e_PtsCount e) (e_Date e) (e_Message e) (e_Story e) (e_Peer e)
  (e_Peers e) (e_Bool e) (e_EmojiStatus e) (e_Settings e) (e_MessageIDs e) (e_MaxID e)
  (e_StillUnreadCount e) (e_ChannelPts e) (e_TopMsgID e) (e_FilterID e) (e_FolderID e)
  (e_DialogFilter e) (e_FilterOrder e) (e_FolderPeers e) (e_Reaction e) (e_QuickReplies e)
  (e_QuickReply e) (e_QuickReplyMessage e) (e_Extra e).
Definition with_PtsCount (v : Z) (e : UpdateEvent) : UpdateEvent :=
  mkEvent (e_UserID e) (e_Type e) (e_Pts e) v (e_Date e) (e_Message e) (e_Story e) (e_Peer e)
  (e_Peers e) (e_Bool e) (e_EmojiStatus e) (e_Settings e) (e_MessageIDs e) (e_MaxID e)
  (e_StillUnreadCount e) (e_ChannelPts e) (e_TopMsgID e) (e_FilterID e) (e_FolderID e)
  (e_DialogFilter e) (e_FilterOrder e) (e_FolderPeers e) (e_Reaction e) (e_QuickReplies e)
  (e_QuickReply e) (e_QuickReplyMessage e) (e_Extra e).
Definition with_Date (v : Z) (e : UpdateEvent) : UpdateEvent :=
  mkEvent (e_UserID e) (e_Type e) (e_Pts e) (e_PtsCount e) v (e_Message e) (e_Story e) (e_Peer e)
  (e_Peers e) (e_Bool e) (e_EmojiStatus e) (e_Settings e) (e_MessageIDs e) (e_MaxID e)
  (e_StillUnreadCount e) (e_ChannelPts e) (e_TopMsgID e) (e_FilterID e) (e_FolderID e)
  (e_DialogFilter e) (e_FilterOrder e) (e_FolderPeers e) (e_Reaction e) (e_QuickReplies e)
  (e_QuickReply e) (e_QuickReplyMessage e) (e_Extra e).
Definition with_Message (v : Message) (e : UpdateEvent) : UpdateEvent :=
  mkEvent (e_UserID e) (e_Type e) (e_Pts e) (e_PtsCount e) (e_Date e) v (e_Story e) (e_Peer e)
  (e_Peers e) (e_Bool e) (e_EmojiStatus e) (e_Settings e) (e_MessageIDs e) (e_MaxID e)
  (e_StillUnreadCount e) (e_ChannelPts e) (e_TopMsgID e) (e_FilterID e) (e_FolderID e)
  (e_DialogFilter e) (e_FilterOrder e) (e_FolderPeers e) (e_Reaction e) (e_QuickReplies e)
  (e_QuickReply e) (e_QuickReplyMessage e) (e_Extra e).
Definition with_Story (v : Story) (e : UpdateEvent) : UpdateEvent :=
  mkEvent (e_UserID e) (e_Type e) (e_Pts e) (e_PtsCount e) (e_Date e) (e_Message e) v (e_Peer e)
  (e_Peers e) (e_Bool e) (e_EmojiStatus e) (e_Settings e) (e_MessageIDs e) (e_MaxID e)
  (e_StillUnreadCount e) (e_ChannelPts e) (e_TopMsgID e) (e_FilterID e) (e_FolderID e)
  (e_DialogFilter e) (e_FilterOrder e) (e_FolderPeers e) (e_Reaction e) (e_QuickReplies e)
  (e_QuickReply e) (e_QuickReplyMessage e) (e_Extra e).
Definition with_Peer (v : Peer) (e : UpdateEvent) : UpdateEvent :=
  mkEvent (e_UserID e) (e_Type e) (e_Pts e) (e_PtsCount e) (e_Date e) (e_Message e) (e_Story e) v
  (e_Peers e) (e_Bool e) (e_EmojiStatus e) (e_Settings e) (e_MessageIDs e) (e_MaxID e)
  (e_StillUnreadCount e) (e_ChannelPts e) (e_TopMsgID e) (e_FilterID e) (e_FolderID e)
  (e_DialogFilter e) (e_FilterOrder e) (e_FolderPeers e) (e_Reaction e) (e_QuickReplies e)
  (e_QuickReply e) (e_QuickReplyMessage e) (e_Extra e).
Definition with_Peers (v : list Peer) (e : UpdateEvent) : UpdateEvent :=
  mkEvent (e_UserID e) (e_Type e) (e_Pts e) (e_PtsCount e) (e_Date e) (e_Message e) (e_Story e)
  (e_Peer e) v (e_Bool e) (e_EmojiStatus e) (e_Settings e) (e_MessageIDs e) (e_MaxID e)
  (e_StillUnreadCount e) (e_ChannelPts e) (e_TopMsgID e) (e_FilterID e) (e_FolderID e)
  (e_DialogFilter e) (e_FilterOrder e) (e_FolderPeers e) (e_Reaction e) (e_QuickReplies e)
  (e_QuickReply e) (e_QuickReplyMessage e) (e_Extra e).
Definition with_Bool (v : bool) (e : UpdateEvent) : UpdateEvent :=
  mkEvent (e_UserID e) (e_Type e) (e_Pts e) (e_PtsCount e) (e_Date e) (e_Message e) (e_Story e)
  (e_Peer e) (e_Peers e) v (e_EmojiStatus e) (e_Settings e) (e_MessageIDs e) (e_MaxID e)
  (e_StillUnreadCount e) (e_ChannelPts e) (e_TopMsgID e) (e_FilterID e) (e_FolderID e)
  (e_DialogFilter e) (e_FilterOrder e) (e_FolderPeers e) (e_Reaction e) (e_QuickReplies e)
  (e_QuickReply e) (e_QuickReplyMessage e) (e_Extra e).
Definition with_EmojiStatus (v : UserEmojiStatus) (e : UpdateEvent) : UpdateEvent :=
  mkEvent (e_UserID e) (e_Type e) (e_Pts e) (e_PtsCount e) (e_Date e) (e_Message e) (e_Story e)
  (e_Peer e) (e_Peers e) (e_Bool e) v (e_Settings e) (e_MessageIDs e) (e_MaxID e)
  (e_StillUnreadCount e) (e_ChannelPts e) (e_TopMsgID e) (e_FilterID e) (e_FolderID e)
  (e_DialogFilter e) (e_FilterOrder e) (e_FolderPeers e) (e_Reaction e) (e_QuickReplies e)
  (e_QuickReply e) (e_QuickReplyMessage e) (e_Extra e).
Definition with_Settings (v : Blob) (e : UpdateEvent) : UpdateEvent :=
  mkEvent (e_UserID e) (e_Type e) (e_Pts e) (e_PtsCount e) (e_Date e) (e_Message e) (e_Story e)
  (e_Peer e) (e_Peers e) (e_Bool e) (e_EmojiStatus e) v (e_MessageIDs e) (e_MaxID e)
  (e_StillUnreadCount e) (e_ChannelPts e) (e_TopMsgID e) (e_FilterID e) (e_FolderID e)
  (e_DialogFilter e) (e_FilterOrder e) (e_FolderPeers e) (e_Reaction e) (e_QuickReplies e)
  (e_QuickReply e) (e_QuickReplyMessage e) (e_Extra e).
Definition with_MessageIDs (v : list Z) (e : UpdateEvent) : UpdateEvent :=
  mkEvent (e_UserID e) (e_Type e) (e_Pts e) (e_PtsCount e) (e_Date e) (e_Message e) (e_Story e)
  (e_Peer e) (e_Peers e) (e_Bool e) (e_EmojiStatus e) (e_Settings e) v (e_MaxID e)
  (e_StillUnreadCount e) (e_ChannelPts e) (e_TopMsgID e) (e_FilterID e) (e_FolderID e)
  (e_DialogFilter e) (e_FilterOrder e) (e_FolderPeers e) (e_Reaction e) (e_QuickReplies e)
  (e_QuickReply e) (e_QuickReplyMessage e) (e_Extra e).
Definition with_MaxID (v : Z) (e : UpdateEvent) : UpdateEvent :=
  mkEvent (e_UserID e) (e_Type e) (e_Pts e) (e_PtsCount e) (e_Date e) (e_Message e) (e_Story e)
  (e_Peer e) (e_Peers e) (e_Bool e) (e_EmojiStatus e) (e_Settings e) (e_MessageIDs e) v
  (e_StillUnreadCount e) (e_ChannelPts e) (e_TopMsgID e) (e_FilterID e) (e_FolderID e)
  (e_DialogFilter e) (e_FilterOrder e) (e_FolderPeers e) (e_Reaction e) (e_QuickReplies e)
  (e_QuickReply e) (e_QuickReplyMessage e) (e_Extra e).
Definition with_StillUnreadCount (v : Z) (e : UpdateEvent) : UpdateEvent :=
  mkEvent (e_UserID e) (e_Type e) (e_Pts e) (e_PtsCount e) (e_Date e) (e_Message e) (e_Story e)
  (e_Peer e) (e_Peers e) (e_Bool e) (e_EmojiStatus e) (e_Settings e) (e_MessageIDs e) (e_MaxID e) v
  (e_ChannelPts e) (e_TopMsgID e) (e_FilterID e) (e_FolderID e) (e_DialogFilter e)
  (e_FilterOrder e) (e_FolderPeers e) (e_Reaction e) (e_QuickReplies e) (e_QuickReply e)
  (e_QuickReplyMessage e) (e_Extra e).
Definition with_ChannelPts (v : Z) (e : UpdateEvent) : UpdateEvent :=
  mkEvent (e_UserID e) (e_Type e) (e_Pts e) (e_PtsCount e) (e_Date e) (e_Message e) (e_Story e)
  (e_Peer e) (e_Peers e) (e_Bool e) (e_EmojiStatus e) (e_Settings e) (e_MessageIDs e) (e_MaxID e)
  (e_StillUnreadCount e) v (e_TopMsgID e) (e_FilterID e) (e_FolderID e) (e_DialogFilter e)
  (e_FilterOrder e) (e_FolderPeers e) (e_Reaction e) (e_QuickReplies e) (e_QuickReply e)
  (e_QuickReplyMessage e) (e_Extra e).
Definition with_TopMsgID (v : Z) (e : UpdateEvent) : UpdateEvent :=
  mkEvent (e_UserID e) (e_Type e) (e_Pts e) (e_PtsCount e) (e_Date e) (e_Message e) (e_Story e)
  (e_Peer e) (e_Peers e) (e_Bool e) (e_EmojiStatus e) (e_Settings e) (e_MessageIDs e) (e_MaxID e)
  (e_StillUnreadCount e) (e_ChannelPts e) v (e_FilterID e) (e_FolderID e) (e_DialogFilter e)
  (e_FilterOrder e) (e_FolderPeers e) (e_Reaction e) (e_QuickReplies e) (e_QuickReply e)
  (e_QuickReplyMessage e) (e_Extra e).
Definition with_FilterID (v : Z) (e : UpdateEvent) : UpdateEvent :=
  mkEvent (e_UserID e) (e_Type e) (e_Pts e) (e_PtsCount e) (e_Date e) (e_Message e) (e_Story e)
  (e_Peer e) (e_Peers e) (e_Bool e) (e_EmojiStatus e) (e_Settings e) (e_MessageIDs e) (e_MaxID e)
  (e_StillUnreadCount e) (e_ChannelPts e) (e_TopMsgID e) v (e_FolderID e) (e_DialogFilter e)
  (e_FilterOrder e) (e_FolderPeers e) (e_Reaction e) (e_QuickReplies e) (e_QuickReply e)
  (e_QuickReplyMessage e) (e_Extra e).
Definition with_FolderID (v : Z) (e : UpdateEvent) : UpdateEvent :=
  mkEvent (e_UserID e) (e_Type e) (e_Pts e) (e_PtsCount e) (e_Date e) (e_Message e) (e_Story e)
  (e_Peer e) (e_Peers e) (e_Bool e) (e_EmojiStatus e) (e_Settings e) (e_MessageIDs e) (e_MaxID e)
  (e_StillUnreadCount e) (e_ChannelPts e) (e_TopMsgID e) (e_FilterID e) v (e_DialogFilter e)
  (e_FilterOrder e) (e_FolderPeers e) (e_Reaction e) (e_QuickReplies e) (e_QuickReply e)
  (e_QuickReplyMessage e) (e_Extra e).
Definition with_DialogFilter (v : option Blob) (e : UpdateEvent) : UpdateEvent :=
  mkEvent (e_UserID e) (e_Type e) (e_Pts e) (e_PtsCount e) (e_Date e) (e_Message e) (e_Story e)
  (e_Peer e) (e_Peers e) (e_Bool e) (e_EmojiStatus e) (e_Settings e) (e_MessageIDs e) (e_MaxID e)
  (e_StillUnreadCount e) (e_ChannelPts e) (e_TopMsgID e) (e_FilterID e) (e_FolderID e) v
  (e_FilterOrder e) (e_FolderPeers e) (e_Reaction e) (e_QuickReplies e) (e_QuickReply e)
  (e_QuickReplyMessage e) (e_Extra e).
Definition with_FilterOrder (v : list Z) (e : UpdateEvent) : UpdateEvent :=
  mkEvent (e_UserID e) (e_Type e) (e_Pts e) (e_PtsCount e) (e_Date e) (e_Message e) (e_Story e)
  (e_Peer e) (e_Peers e) (e_Bool e) (e_EmojiStatus e) (e_Settings e) (e_MessageIDs e) (e_MaxID e)
  (e_StillUnreadCount e) (e_ChannelPts e) (e_TopMsgID e) (e_FilterID e) (e_FolderID e)
  (e_DialogFilter e) v (e_FolderPeers e) (e_Reaction e) (e_QuickReplies e) (e_QuickReply e)
  (e_QuickReplyMessage e) (e_Extra e).
Definition with_FolderPeers (v : list Blob) (e : UpdateEvent) : UpdateEvent :=
  mkEvent (e_UserID e) (e_Type e) (e_Pts e) (e_PtsCount e) (e_Date e) (e_Message e) (e_Story e)
  (e_Peer e) (e_Peers e) (e_Bool e) (e_EmojiStatus e) (e_Settings e) (e_MessageIDs e) (e_MaxID e)
  (e_StillUnreadCount e) (e_ChannelPts e) (e_TopMsgID e) (e_FilterID e) (e_FolderID e)
  (e_DialogFilter e) (e_FilterOrder e) v (e_Reaction e) (e_QuickReplies e) (e_QuickReply e)
  (e_QuickReplyMessage e) (e_Extra e).
Definition with_Reaction (v : option Blob) (e : UpdateEvent) : UpdateEvent :=
  mkEvent (e_UserID e) (e_Type e) (e_Pts e) (e_PtsCount e) (e_Date e) (e_Message e) (e_Story e)
  (e_Peer e) (e_Peers e) (e_Bool e) (e_EmojiStatus e) (e_Settings e) (e_MessageIDs e) (e_MaxID e)
  (e_StillUnreadCount e) (e_ChannelPts e) (e_TopMsgID e) (e_FilterID e) (e_FolderID e)
  (e_DialogFilter e) (e_FilterOrder e) (e_FolderPeers e) v (e_QuickReplies e) (e_QuickReply e)
  (e_QuickReplyMessage e) (e_Extra e).
Definition with_QuickReplies (v : list Blob) (e : UpdateEvent) : UpdateEvent :=
  mkEvent (e_UserID e) (e_Type e) (e_Pts e) (e_PtsCount e) (e_Date e) (e_Message e) (e_Story e)
  (e_Peer e) (e_Peers e) (e_Bool e) (e_EmojiStatus e) (e_Settings e) (e_MessageIDs e) (e_MaxID e)
  (e_StillUnreadCount e) (e_ChannelPts e) (e_TopMsgID e) (e_FilterID e) (e_FolderID e)
  (e_DialogFilter e) (e_FilterOrder e) (e_FolderPeers e) (e_Reaction e) v (e_QuickReply e)
  (e_QuickReplyMessage e) (e_Extra e).
Definition with_QuickReply (v : Blob) (e : UpdateEvent) : UpdateEvent :=
  mkEvent (e_UserID e) (e_Type e) (e_Pts e) (e_PtsCount e) (e_Date e) (e_Message e) (e_Story e)
  (e_Peer e) (e_Peers e) (e_Bool e) (e_EmojiStatus e) (e_Settings e) (e_MessageIDs e) (e_MaxID e)
  (e_StillUnreadCount e) (e_ChannelPts e) (e_TopMsgID e) (e_FilterID e) (e_FolderID e)
  (e_DialogFilter e) (e_FilterOrder e) (e_FolderPeers e) (e_Reaction e) (e_QuickReplies e) v
  (e_QuickReplyMessage e) (e_Extra e).
Definition with_QuickReplyMessage (v : Blob) (e : UpdateEvent) : UpdateEvent :=
  mkEvent (e_UserID e) (e_Type e) (e_Pts e) (e_PtsCount e) (e_Date e) (e_Message e) (e_Story e)
  (e_Peer e) (e_Peers e) (e_Bool e) (e_EmojiStatus e) (e_Settings e) (e_MessageIDs e) (e_MaxID e)
  (e_StillUnreadCount e) (e_ChannelPts e) (e_TopMsgID e) (e_FilterID e) (e_FolderID e)
  (e_DialogFilter e) (e_FilterOrder e) (e_FolderPeers e) (e_Reaction e) (e_QuickReplies e)
  (e_QuickReply e) v (e_Extra e).

(** The event consumed account pts, but its update constructor has no pts field. *)
Definition LacksWirePts (e : UpdateEvent) : bool :=
  match e_Type e with
  | UpdateEventMessagePoll | UpdateEventDraftMessage | UpdateEventChannelState
  | UpdateEventContactsReset | UpdateEventDialogPinned | UpdateEventPinnedDialogs
  | UpdateEventSavedDialogPinned | UpdateEventPinnedSavedDialogs | UpdateEventDialogUnreadMark
  | UpdateEventPeerSettings | UpdateEventPeerStoryBlocked | UpdateEventUserPhone
  | UpdateEventUserEmojiStatus | UpdateEventDialogFilter | UpdateEventDialogFilterOrder
  | UpdateEventDialogFilters | UpdateEventChannelViewForum | UpdateEventStory
  | UpdateEventReadStories | UpdateEventSentStoryReaction | UpdateEventNewStoryReaction
  | UpdateEventQuickReplies | UpdateEventNewQuickReply | UpdateEventDeleteQuickReply
  | UpdateEventQuickReplyMessage | UpdateEventDeleteQuickReplyMessages => true
  | UpdateEventReadChannelDiscussionInbox | UpdateEventReadChannelDiscussionOutbox => true
  | UpdateEventReadHistoryInbox | UpdateEventReadHistoryOutbox =>
    bool_decide (peerType (e_Peer e) = PeerTypeChannel)
  | _ => false
  end.

(** [ChannelNudges] is filled by another layer and always empty here. *)
Record UpdateDifference := mkDifference {
  d_State : UpdateState;
  d_Events : list UpdateEvent;
  d_Partial : bool;
}.
End events.

Arguments UpdateEvent Blob : clear implicits.
Arguments Message Blob : clear implicits.
Arguments Story Blob : clear implicits.
Arguments UpdateDifference Blob : clear implicits.
