(* ===== verification/UpdateStore.v ===== *)
(** * Account updates: the in-memory stores

    [internal/store/memory/updates.go]: the per-account event log and the
    per-device watermarks, with what they promise. *)

From stdpp Require Import sorting.
From S2P Require Import Prelude UpdateTypes.

(** Go's [int] is 64 bits wide: pts arithmetic wraps. *)

(** [if event.PtsCount <= 0 { event.PtsCount = 1 }] *)
Definition normalCount (count : Z) : Z := if bool_decide (count ≤ 0) then 1 else count.
Lemma normalCount_pos count : 0 < normalCount count.
Proof. unfold normalCount. case_bool_decide; lia. Qed.

Module MemoryEvents.
Section store.
Context {Blob : Type} `{InhB : Inhabited Blob}.
Abbreviation event := (UpdateEvent Blob).
Implicit Types (e : event) (es log : list event).

Record memoryUpdateDispatch := mkDispatch {
  dispatch_Pts : Z;
  ExcludeAuthKeyID : Z;
  ExcludeSessionID : Z;
}.

Record t := mkStore {
  events : gmap Z (list event);
  dispatches : gmap Z (list memoryUpdateDispatch);
}.

Definition NewUpdateEventStore : t := mkStore ∅ ∅.

(** [s.events[userID]]: a missing key reads as the empty slice. *)
Definition eventsOf (s : t) (userID : Z) : list event := default [] (events s !! userID).
Definition dispatchesOf (s : t) (userID : Z) : list memoryUpdateDispatch :=
  default [] (dispatches s !! userID).

(** The scan for the largest pts, from 0. *)
Definition currentMax (es : list event) : Z :=
  foldl (λ current item, if bool_decide (e_Pts item > current) then e_Pts item else current) 0 es.

Definition appendLocked (userID : Z) (e : event) (allocate : bool) (s : t) : t * event :=
  let e := if bool_decide (e_PtsCount e ≤ 0) then with_PtsCount 1 e else e in
  let e := with_UserID userID e in
  let e := if allocate then with_Pts (add64 (currentMax (eventsOf s userID)) (e_PtsCount e)) e else e in
  (mkStore (<[userID := eventsOf s userID ++ [e]]> (events s)) (dispatches s), e).

(** The zero auth key is the integer 0. *)
Definition append (userID : Z) (e : event) (allocate withDispatch : bool)
    (excludeAuthKeyID excludeSessionID : Z) (s : t) : t * (updateError + event) :=
  if withDispatch && negb (bool_decide ((excludeAuthKeyID = 0) ↔ (excludeSessionID = 0)))
  then (s, inl ErrDispatchExclusion)
  else
    let '(s, e) := appendLocked userID e allocate s in
    let s := if withDispatch
             then mkStore (events s)
                    (<[userID := dispatchesOf s userID
                                 ++ [mkDispatch (e_Pts e) excludeAuthKeyID excludeSessionID]]>
                       (dispatches s))
             else s in
    (s, inr e).

Definition Append (userID : Z) (e : event) (s : t) := append userID e false false 0 0 s.
Definition AppendAllocated (userID : Z) (e : event) (s : t) := append userID e true false 0 0 s.
Definition AppendAllocatedWithDispatch (userID : Z) (e : event)
    (excludeAuthKeyID excludeSessionID : Z) (s : t) :=
  append userID e true true excludeAuthKeyID excludeSessionID s.

(** The loop over a snapshot of the log; [out] is the slice built so far. *)
Fixpoint listAfterLoop (pts limit : Z) (items out : list event) : list event :=
  match items with
  | [] => out
  | e :: items =>
    if bool_decide (e_Pts e ≤ pts) then listAfterLoop pts limit items out
    else
      let out := out ++ [e] in
      if bool_decide (limit > 0) && bool_decide (limit ≤ Z.of_nat (length out)) then out
      else listAfterLoop pts limit items out
  end.
Definition ListAfter (userID pts limit : Z) (s : t) : list event :=
  listAfterLoop pts limit (eventsOf s userID) [].

Definition isNewMessage (messageBoxID : Z) (e : event) : bool :=
  bool_decide (e_Type e = UpdateEventNewMessage) && bool_decide (m_ID (e_Message e) = messageBoxID).
Definition FindNewMessageEvent (userID messageBoxID : Z) (s : t) : option event :=
  if bool_decide (userID = 0) || bool_decide (messageBoxID ≤ 0) then None
  else List.find (isNewMessage messageBoxID) (eventsOf s userID).

(** [nextByStart]: a later event overwrites an earlier one that starts at the
    same pts. *)
Definition nextByStart (es : list event) : gmap Z Z :=
  foldl (λ m e, <[sub64 (e_Pts e) (normalCount (e_PtsCount e)) := e_Pts e]> m) ∅ es.

(** The [for] loop; [None] is running out of fuel.  One round per entry of the
    map and the last one are enough: [followLoop_terminates]. *)
Fixpoint followLoop (fuel : nat) (m : gmap Z Z) (contiguous : Z) : option Z :=
  match fuel with
  | O => None
  | S fuel =>
    match m !! contiguous with
    | None => Some contiguous
    | Some next => followLoop fuel m next
    end
  end.
Definition MaxContiguousPts (userID : Z) (s : t) : option Z :=
  let m := nextByStart (eventsOf s userID) in
  followLoop (S (size m)) m 0.

(** ** Contiguous logs *)

(** Each event starts where the one before it ended. *)
Fixpoint Chain (from : Z) (es : list event) : Prop :=
  match es with
  | [] => True
  | e :: es => e_Pts e = from + normalCount (e_PtsCount e) ∧ e_Pts e ≤ i64_max ∧ Chain (e_Pts e) es
  end.
Definition lastPts (from : Z) (es : list event) : Z :=
  match last es with Some e => e_Pts e | None => from end.

Lemma lastPts_nil from : lastPts from [] = from.
Proof. done. Qed.
Lemma lastPts_cons from e es : lastPts from (e :: es) = lastPts (e_Pts e) es.
Proof. unfold lastPts. rewrite last_cons. by destruct (last es). Qed.
Lemma lastPts_snoc from e es : lastPts from (es ++ [e]) = e_Pts e.
Proof. unfold lastPts. by rewrite last_snoc. Qed.

Lemma Chain_app from es es' : Chain from (es ++ es') ↔ Chain from es ∧ Chain (lastPts from es) es'.
Proof.
  revert from. induction es as [|e es IH]; intros from; simpl; [by rewrite lastPts_nil; naive_solver|].
  rewrite lastPts_cons, IH. naive_solver.
Qed.

Lemma Chain_le from es : Chain from es → from ≤ lastPts from es.
Proof.
  revert from. induction es as [|e es IH]; intros from; [by rewrite lastPts_nil|].
  intros (Hpts & _ & HC). rewrite lastPts_cons. pose proof (normalCount_pos (e_PtsCount e)).
  specialize (IH _ HC). lia.
Qed.
Lemma Chain_lt from es e : Chain from es → e ∈ es → from < e_Pts e ≤ lastPts from es.
Proof.
  revert from. induction es as [|e' es IH]; intros from; [by intros _ ?%not_elem_of_nil|].
  intros (Hpts & _ & HC) Hin. rewrite lastPts_cons. pose proof (normalCount_pos (e_PtsCount e')).
  pose proof (Chain_le _ _ HC).
  apply elem_of_cons in Hin as [->|Hin]; [lia|]. specialize (IH _ HC Hin). lia.
Qed.
Lemma Chain_last_max from es : Chain from es → from ≤ i64_max → lastPts from es ≤ i64_max.
Proof.
  revert from. induction es as [|e es IH]; intros from; [by rewrite lastPts_nil|].
  intros (? & ? & HC) _. rewrite lastPts_cons. by apply IH.
Qed.

(** The part of a contiguous log after a pts is a suffix of it. *)
Lemma Chain_split from es p :
  Chain from es →
  ∃ es1 es2, es = es1 ++ es2 ∧ filter (λ e, p < e_Pts e) es = es2 ∧
    (∀ e, e ∈ es1 → e_Pts e ≤ p) ∧ (∀ e, e ∈ es2 → p < e_Pts e).
Proof.
  revert from. induction es as [|e es IH]; intros from; [by exists [], []; set_solver|].
  intros (Hpts & Hmax & HC). destruct (decide (p < e_Pts e)) as [Hlt|Hge].
  - assert (Hall : ∀ e', e' ∈ e :: es → p < e_Pts e').
    { intros e' [->|Hin]%elem_of_cons; [done|]. pose proof (Chain_lt _ _ _ HC Hin). lia. }
    exists [], (e :: es). split_and!; [done|by apply list_filter_id|set_solver|done].
  - destruct (IH _ HC) as (es1 & es2 & -> & Hf & H1 & H2). exists (e :: es1), es2.
    rewrite filter_cons_False by done. split_and!; [done|done| |done].
    intros e' [->|?]%elem_of_cons; [lia|auto].
Qed.

(** ** Logs with holes

    The events follow each other in pts order without overlap, but numbers may
    be missing between them. *)

Definition startPts e : Z := e_Pts e - normalCount (e_PtsCount e).
Fixpoint Ordered (from : Z) (es : list event) : Prop :=
  match es with
  | [] => True
  | e :: es => from ≤ startPts e ∧ e_Pts e ≤ i64_max ∧ Ordered (e_Pts e) es
  end.
(** The events from the start of a list up to the first hole after [from]. *)
Fixpoint contig (from : Z) (es : list event) : list event :=
  match es with
  | [] => []
  | e :: es => if decide (startPts e = from) then e :: contig (e_Pts e) es else []
  end.

Lemma startPts_lt e : startPts e < e_Pts e.
Proof. unfold startPts. pose proof (normalCount_pos (e_PtsCount e)). lia. Qed.
Lemma Ordered_Chain from es : Chain from es → Ordered from es.
Proof. revert from. induction es as [|e es IH]; intros from; [done|]. intros (Hpts & ? & HC). split; [unfold startPts; lia|]. auto. Qed.
Lemma Ordered_from from from' es : from' ≤ from → Ordered from es → Ordered from' es.
Proof. destruct es; [done|]. intros ? (? & ?). split; [lia|done]. Qed.
Lemma Ordered_start from es e : Ordered from es → e ∈ es → from ≤ startPts e ∧ e_Pts e ≤ i64_max.
Proof.
  revert from. induction es as [|x es IH]; intros from; [by intros _ ?%not_elem_of_nil|]. intros (H1 & H2 & H3) [->|Hin]%elem_of_cons; [done|].
  destruct (IH _ H3 Hin). pose proof (startPts_lt x). lia.
Qed.
Lemma Ordered_sorted from es : Ordered from es → StronglySorted (λ a b, e_Pts a < e_Pts b) es.
Proof.
  revert from. induction es as [|e es IH]; intros from; [constructor|]. intros (_ & _ & HO). constructor; [by eapply IH|].
  apply Forall_forall. intros x Hin. destruct (Ordered_start _ _ _ HO Hin). pose proof (startPts_lt x). simpl. lia.
Qed.
Lemma contig_prefix from es : contig from es `prefix_of` es.
Proof. revert from. induction es as [|e es IH]; intros from; simpl; [done|]. case_decide; [|apply prefix_nil]. by apply prefix_cons. Qed.
Lemma contig_Chain from es : (∀ e, e ∈ es → e_Pts e ≤ i64_max) → Chain from (contig from es).
Proof.
  revert from. induction es as [|e es IH]; intros from Hm; simpl; [done|]. case_decide as E; [|done]. split; [unfold startPts in E; lia|].
  split; [apply Hm; by left|]. apply IH. intros x Hx. apply Hm. by right.
Qed.
Lemma contig_all from es : Chain from es → contig from es = es.
Proof. revert from. induction es as [|e es IH]; intros from; [done|]. intros (Hp & _ & HC). simpl. rewrite decide_True by (unfold startPts; lia). f_equal. auto. Qed.
Lemma contig_take from n es : contig from (take n es) = take n (contig from es).
Proof. revert from n. induction es as [|e es IH]; intros from [|n]; simpl; try done. case_decide; [|done]. simpl. by rewrite IH. Qed.
Lemma contig_drop from n es :
  (n ≤ length (contig from es))%nat → contig (lastPts from (take n (contig from es))) (drop n es) = drop n (contig from es).
Proof.
  revert from n. induction es as [|e es IH]; intros from [|n]; simpl; try done. case_decide; simpl; [|lia]. intros Hn. rewrite lastPts_cons. apply IH. lia.
Qed.
(** No event of the log starts where the gap-free part ends. *)
Lemma contig_closed from es e :
  Ordered from es → e ∈ es → startPts e ≤ lastPts from (contig from es) → e_Pts e ≤ lastPts from (contig from es).
Proof.
  revert from. induction es as [|x es IH]; intros from; [by intros _ ?%not_elem_of_nil|]. intros (H1 & H2 & H3) Hin. simpl. case_decide as E.
  - rewrite lastPts_cons. apply elem_of_cons in Hin as [->|Hin]; [|by apply IH]. intros _. apply Chain_le, contig_Chain. intros y Hy. by destruct (Ordered_start _ _ _ H3 Hy).
  - rewrite lastPts_nil. apply elem_of_cons in Hin as [->|Hin]; [lia|]. destruct (Ordered_start _ _ _ H3 Hin). pose proof (startPts_lt x). lia.
Qed.
Lemma contig_le from q es es' :
  Ordered from es → (∀ e, e ∈ es' → e ∈ es) → let wm := lastPts from (contig from es) in q ≤ wm → lastPts q (contig q es') ≤ wm.
Proof.
  intros HO Hsub wm. revert q Hsub. induction es' as [|e es' IH]; intros q Hsub Hq; simpl; [done|]. case_decide as E; [|done]. rewrite lastPts_cons. apply IH.
  - intros x Hx. apply Hsub. by right.
  - apply (contig_closed from es e HO); [apply Hsub; by left|]. fold wm. lia.
Qed.
Lemma contig_app from es es' :
  Ordered from (es ++ es') → lastPts from es ≤ lastPts from (contig from (es ++ es')) → contig from (es ++ es') = es ++ contig (lastPts from es) es'.
Proof.
  revert from. induction es as [|e es IH]; intros from; [done|]. simpl. intros (H1 & H2 & H3). rewrite lastPts_cons. case_decide as E.
  - rewrite lastPts_cons. intros Hle. f_equal. by apply IH.
  - rewrite lastPts_nil. intros Hle. exfalso. pose proof (startPts_lt e). assert (e_Pts e ≤ lastPts (e_Pts e) es); [|lia].
    destruct es as [|x es _] using rev_ind; [done|]. rewrite lastPts_snoc. destruct (Ordered_start _ _ x H3); [set_solver|]. pose proof (startPts_lt x). lia.
Qed.

(** ** The scans *)

Lemma foldl_max_Chain current es :
  Chain current es →
  foldl (λ current item, if bool_decide (e_Pts item > current) then e_Pts item else current) current es
  = lastPts current es.
Proof.
  revert current. induction es as [|e es IH]; intros current; [done|].
  intros (Hpts & _ & HC). pose proof (normalCount_pos (e_PtsCount e)). simpl.
  rewrite bool_decide_eq_true_2 by lia. by rewrite lastPts_cons, IH.
Qed.
Lemma currentMax_Chain es : Chain 0 es → currentMax es = lastPts 0 es.
Proof. apply foldl_max_Chain. Qed.

Lemma listAfterLoop_spec pts limit items out :
  0 < limit → Z.of_nat (length out) < limit →
  listAfterLoop pts limit items out =
  out ++ take (Z.to_nat limit - length out) (filter (λ e, pts < e_Pts e) items).
Proof.
  intros Hl. revert out. induction items as [|e items IH]; intros out Hout; simpl.
  { by rewrite filter_nil, take_nil, app_nil_r. }
  case_bool_decide as Hle.
  - rewrite IH by done. rewrite filter_cons_False; [done|lia].
  - rewrite filter_cons_True by lia. rewrite bool_decide_eq_true_2 by lia. simpl.
    assert (length (out ++ [e]) = S (length out)) as Hlen by (rewrite length_app; simpl; lia).
    case_bool_decide as Hfull; rewrite Hlen in *.
    + replace (Z.to_nat limit - length out)%nat with 1%nat by lia. done.
    + rewrite IH by (rewrite Hlen; lia). rewrite Hlen, <-app_assoc. simpl. f_equal.
      by replace (Z.to_nat limit - length out)%nat with (S (Z.to_nat limit - S (length out))) by lia.
Qed.
Lemma ListAfter_spec userID pts limit s :
  0 < limit →
  ListAfter userID pts limit s =
  take (Z.to_nat limit) (filter (λ e, pts < e_Pts e) (eventsOf s userID)).
Proof.
  intros. unfold ListAfter. rewrite listAfterLoop_spec; [|done|simpl; lia].
  simpl. by rewrite Nat.sub_0_r.
Qed.

(** *** The watermark *)

Definition startOf e : Z := sub64 (e_Pts e) (normalCount (e_PtsCount e)).

Lemma nextByStart_snoc es e : nextByStart (es ++ [e]) = <[startOf e := e_Pts e]> (nextByStart es).
Proof. unfold nextByStart. by rewrite foldl_app. Qed.
Lemma nextByStart_Some es a b :
  nextByStart es !! a = Some b → ∃ e, e ∈ es ∧ startOf e = a ∧ e_Pts e = b.
Proof.
  induction es as [|e es IH] using rev_ind; [by cbn; intros ?%lookup_empty_Some|].
  rewrite nextByStart_snoc. intros [[<- <-]|[_ H]]%lookup_insert_Some; [set_solver|].
  destruct (IH H) as (e' & ? & ?). set_solver.
Qed.
Lemma nextByStart_None es a : nextByStart es !! a = None → ∀ e, e ∈ es → startOf e ≠ a.
Proof.
  induction es as [|e es IH] using rev_ind; [set_solver|].
  rewrite nextByStart_snoc. intros [H Hne]%lookup_insert_None e' [Hin|Hin]%elem_of_app; [by apply IH|].
  apply list_elem_of_singleton in Hin as ->. done.
Qed.

(** Progress of the loop: the entries at or above the cursor get fewer. *)
Lemma followLoop_terminates fuel (m : gmap Z Z) (c : Z) :
  (∀ a b, m !! a = Some b → a < b) →
  (size (filter (λ kv : Z * Z, (c ≤ kv.1)%Z) m) < fuel)%nat →
  ∃ r, followLoop fuel m c = Some r ∧ c ≤ r ∧ m !! r = None.
Proof.
  intros Hm. revert c. induction fuel as [|fuel IH]; intros c Hf; [lia|]. simpl.
  destruct (m !! c) as [n|] eqn:Hc; [|by exists c].
  specialize (Hm _ _ Hc) as Hlt.
  destruct (IH n) as (r & Hr & ? & ?); [|exists r; split_and!; [done|lia|done]].
  eapply Nat.lt_le_trans; [apply map_subset_size|apply Nat.lt_succ_r, Hf].
  split.
  - apply map_subseteq_spec. intros a b [Ha Hle]%map_lookup_filter_Some. simpl in Hle.
    apply map_lookup_filter_Some. split; [done|]. simpl. lia.
  - intros Hsub. eapply map_subseteq_spec in Hsub; [|apply map_lookup_filter_Some; split; [exact Hc|done]].
    apply map_lookup_filter_Some in Hsub as [_ Hle]. simpl in Hle. lia.
Qed.

Lemma filter_size_le (P : Z * Z → Prop) `{∀ x, Decision (P x)} (m : gmap Z Z) : (size (filter P m) ≤ size m)%nat.
Proof. apply map_subseteq_size, map_filter_subseteq. Qed.

(** Events whose start does not underflow make the watermark computation end,
    at a pts where no event starts. *)
Lemma MaxContiguousPts_terminates userID s :
  (∀ e, e ∈ eventsOf s userID → i64_min ≤ e_Pts e - normalCount (e_PtsCount e) ∧ e_Pts e ≤ i64_max) →
  ∃ r, MaxContiguousPts userID s = Some r ∧ 0 ≤ r ∧ (∀ e, e ∈ eventsOf s userID → startOf e ≠ r).
Proof.
  intros Hev. unfold MaxContiguousPts.
  destruct (followLoop_terminates (S (size (nextByStart (eventsOf s userID))))
    (nextByStart (eventsOf s userID)) 0) as (r & -> & ? & Hr).
  - intros a b (e & Hin & <- & <-)%nextByStart_Some. destruct (Hev e Hin).
    pose proof (normalCount_pos (e_PtsCount e)). unfold startOf. rewrite sub64_small; lia.
  - apply Nat.lt_succ_r, filter_size_le.
  - exists r. split_and!; [done|done|]. by apply nextByStart_None.
Qed.

(** On a log with holes the scan ends where the gap-free part does. *)
Lemma startOf_Ordered from es e : 0 ≤ from → Ordered from es → e ∈ es → startOf e = startPts e.
Proof.
  intros Hf HO Hin. destruct (Ordered_start _ _ _ HO Hin). pose proof (startPts_lt e). unfold startOf, startPts in *. apply sub64_small. unfold i64_min. lia.
Qed.
Lemma start_inj from es e e' : Ordered from es → e ∈ es → e' ∈ es → startPts e = startPts e' → e_Pts e = e_Pts e'.
Proof.
  revert from. induction es as [|x es IH]; intros from; [by intros _ ?%not_elem_of_nil|]. intros (_ & _ & HO) [->|Hin]%elem_of_cons [->|Hin']%elem_of_cons E; [done|..].
  - destruct (Ordered_start _ _ _ HO Hin'). pose proof (startPts_lt x). lia.
  - destruct (Ordered_start _ _ _ HO Hin). pose proof (startPts_lt x). lia.
  - by eapply IH.
Qed.
Lemma followLoop_contig fuel (m : gmap Z Z) from es r :
  Ordered from es → (∀ a b, from ≤ a → m !! a = Some b ↔ ∃ e, e ∈ es ∧ startPts e = a ∧ e_Pts e = b) →
  followLoop fuel m from = Some r → r = lastPts from (contig from es).
Proof.
  revert fuel from. induction es as [|x es IH]; intros [|fuel] from HO Hm; try done; cbn [followLoop].
  { destruct (m !! from) as [b|] eqn:E; [|by intros [= ->]]. apply Hm in E as (e & ?%not_elem_of_nil & _); [done|lia]. }
  destruct HO as (H1 & H2 & H3). pose proof (startPts_lt x). simpl. case_decide as E.
  - assert (m !! from = Some (e_Pts x)) as -> by (apply Hm; [lia|]; exists x; split; [by left|done]). rewrite lastPts_cons. apply IH; [done|].
    intros a b Ha. rewrite Hm by lia. split; intros (e & Hin & Hs & Hp); [|exists e; split; [by right|done]].
    apply elem_of_cons in Hin as [->|Hin]; [lia|]. by exists e.
  - destruct (m !! from) as [b|] eqn:Eb; [|by intros [= ->]]. apply Hm in Eb as (e & Hin & Hs & _); [|lia]. apply elem_of_cons in Hin as [->|Hin]; [lia|].
    destruct (Ordered_start _ _ _ H3 Hin). lia.
Qed.
Lemma MaxContiguousPts_contig userID s :
  Ordered 0 (eventsOf s userID) → MaxContiguousPts userID s = Some (lastPts 0 (contig 0 (eventsOf s userID))).
Proof.
  intros HO. set (es := eventsOf s userID) in *. destruct (MaxContiguousPts_terminates userID s) as (r & Hr & _).
  { intros e Hin. destruct (Ordered_start _ _ _ HO Hin). unfold startPts, i64_min in *. lia. }
  rewrite Hr. f_equal. unfold MaxContiguousPts in Hr. fold es in Hr. eapply followLoop_contig; [exact HO| |exact Hr]. intros a b _. split.
  - intros (e & Hin & Hs & Hp)%nextByStart_Some. exists e. by rewrite <-(startOf_Ordered 0 es e).
  - intros (e & Hin & Hs & Hp). destruct (nextByStart es !! a) as [b'|] eqn:E.
    + apply nextByStart_Some in E as (e' & Hin' & Hs' & Hp'). rewrite (startOf_Ordered 0 es e') in Hs' by done. f_equal. rewrite <-Hp, <-Hp'.
      eapply start_inj; [exact HO|done|done|congruence].
    + destruct (nextByStart_None es a E e Hin). by rewrite (startOf_Ordered 0 es e).
Qed.

Lemma MaxContiguousPts_Chain userID s :
  Chain 0 (eventsOf s userID) → MaxContiguousPts userID s = Some (lastPts 0 (eventsOf s userID)).
Proof.
  intros HC. by rewrite MaxContiguousPts_contig, contig_all by (done || by apply Ordered_Chain).
Qed.

(** ** Appending *)

Lemma eventsOf_appendLocked userID e allocate s u :
  eventsOf (appendLocked userID e allocate s).1 u =
  if decide (u = userID) then eventsOf s userID ++ [(appendLocked userID e allocate s).2] else eventsOf s u.
Proof.
  unfold eventsOf. simpl. case_decide; subst; [by rewrite lookup_insert_eq|by rewrite lookup_insert_ne].
Qed.

(** What an allocating append stores. *)
Definition allocated (userID pts : Z) e : event :=
  with_Pts pts (with_UserID userID (with_PtsCount (normalCount (e_PtsCount e)) e)).

Lemma appendLocked_allocated userID e s :
  Chain 0 (eventsOf s userID) →
  lastPts 0 (eventsOf s userID) + normalCount (e_PtsCount e) ≤ i64_max →
  (appendLocked userID e true s).2 =
    allocated userID (lastPts 0 (eventsOf s userID) + normalCount (e_PtsCount e)) e ∧
  Chain 0 (eventsOf s userID ++ [(appendLocked userID e true s).2]).
Proof.
  intros HC Hmax. pose proof (Chain_le _ _ HC). pose proof (normalCount_pos (e_PtsCount e)).
  assert (Heq : (appendLocked userID e true s).2 =
    allocated userID (lastPts 0 (eventsOf s userID) + normalCount (e_PtsCount e)) e).
  { unfold appendLocked, allocated, normalCount in *. simpl. rewrite currentMax_Chain by done.
    case_bool_decide; (rewrite add64_small; [|unfold i64_min; simpl; lia]); [done|]. by destruct e. }
  rewrite Heq. split; [done|]. apply Chain_app. split; [done|]. simpl.
  split; [|done]. unfold normalCount in *. repeat case_bool_decide; lia.
Qed.
End store.
End MemoryEvents.

Module MemoryStates.

(** [updateStateKey]: the device's auth key and the user. *)
Abbreviation updateStateKey := (Z * Z)%type.

Record t := mkStore {
  states : gmap updateStateKey UpdateState;
  observed : gmap updateStateKey UpdateState;
}.
Definition NewUpdateStateStore : t := mkStore ∅ ∅.

Definition Get (id userID : Z) (s : t) : option UpdateState := states s !! (id, userID).
Definition ObservedClientState (id userID : Z) (s : t) : option UpdateState := observed s !! (id, userID).

(** [if next < prev { next = prev }] *)
Definition atLeast (prev next : Z) : Z := if bool_decide (next < prev) then prev else next.
Definition monotonicUpdateState (prev next : UpdateState) : UpdateState :=
  mkState (atLeast (st_Pts prev) (st_Pts next)) (atLeast (st_Qts prev) (st_Qts next))
    (atLeast (st_Date prev) (st_Date next)) (atLeast (st_Seq prev) (st_Seq next)).

(** A missing watermark reads as the zero state. *)
Definition advance (k : updateStateKey) (st : UpdateState) (m : gmap updateStateKey UpdateState) :=
  <[k := monotonicUpdateState (default noState (m !! k)) st]> m.

Definition Save (id userID : Z) (st : UpdateState) (s : t) : t :=
  let prev := default noState (states s !! (id, userID)) in
  let st := if bool_decide (st_Pts st < st_Pts prev)
            then mkState (st_Pts prev) (st_Qts st) (st_Date st) (st_Seq st) else st in
  let st := if bool_decide (st_Qts st < st_Qts prev)
            then mkState (st_Pts st) (st_Qts prev) (st_Date st) (st_Seq st) else st in
  let st := if bool_decide (st_Date st < st_Date prev)
            then mkState (st_Pts st) (st_Qts st) (st_Date prev) (st_Seq st) else st in
  let st := if bool_decide (st_Seq st < st_Seq prev)
            then mkState (st_Pts st) (st_Qts st) (st_Date st) (st_Seq prev) else st in
  mkStore (<[(id, userID) := st]> (states s)) (observed s).

Definition validMode (mode : Z) : bool :=
  bool_decide (mode = UpdateStateCommitDeliveredOnly)
  || bool_decide (mode = UpdateStateCommitDeliveredAndObservedBaseline).

Definition CommitDeliveredState (id userID : Z) (st : UpdateState) (mode : Z) (s : t)
    : t * option updateError :=
  if negb (validMode mode) then (s, Some (ErrInvalidCommitMode mode))
  else (mkStore (advance (id, userID) st (states s))
          (if bool_decide (mode = UpdateStateCommitDeliveredAndObservedBaseline)
           then advance (id, userID) st (observed s) else observed s), None).

Definition ObserveClientState (id userID : Z) (st : UpdateState) (s : t) : t :=
  mkStore (states s) (advance (id, userID) st (observed s)).

Definition Delete (id userID : Z) (s : t) : t :=
  mkStore (delete (id, userID) (states s)) (delete (id, userID) (observed s)).

(** Two range loops that delete while iterating: the first over [states],
    deleting from both maps, the second over [observed]. *)
Definition DeleteAuthKey (id : Z) (s : t) : t :=
  let ofKey := λ kv : updateStateKey * UpdateState, kv.1.1 = id in
  let doomed := filter ofKey (states s) in
  let observed1 := observed s ∖ doomed in
  mkStore (states s ∖ doomed) (observed1 ∖ filter ofKey observed1).

(** ** Watermarks form a join semilattice *)

Lemma atLeast_max prev next : atLeast prev next = Z.max prev next.
Proof. unfold atLeast. case_bool_decide; lia. Qed.

Definition state_le (a b : UpdateState) : Prop :=
  st_Pts a ≤ st_Pts b ∧ st_Qts a ≤ st_Qts b ∧ st_Date a ≤ st_Date b ∧ st_Seq a ≤ st_Seq b.
#[global] Instance state_le_po : PreOrder state_le.
Proof. split; [intros a; unfold state_le; lia|intros a b c; unfold state_le; lia]. Qed.

Lemma state_eq a b :
  st_Pts a = st_Pts b → st_Qts a = st_Qts b → st_Date a = st_Date b → st_Seq a = st_Seq b → a = b.
Proof. destruct a, b; simpl. by intros -> -> -> ->. Qed.
Ltac join_solve := unfold monotonicUpdateState; apply state_eq; simpl; rewrite !atLeast_max; lia.

Lemma monotonic_comm a b : monotonicUpdateState a b = monotonicUpdateState b a.
Proof. join_solve. Qed.
Lemma monotonic_assoc a b c :
  monotonicUpdateState (monotonicUpdateState a b) c = monotonicUpdateState a (monotonicUpdateState b c).
Proof. join_solve. Qed.
Lemma monotonic_idemp a : monotonicUpdateState a a = a.
Proof. join_solve. Qed.
Lemma monotonic_le_l a b : state_le a (monotonicUpdateState a b).
Proof. unfold state_le, monotonicUpdateState. simpl. rewrite !atLeast_max. lia. Qed.
Lemma monotonic_le_r a b : state_le b (monotonicUpdateState a b).
Proof. rewrite monotonic_comm. apply monotonic_le_l. Qed.
Lemma monotonic_lub a b c : state_le a c → state_le b c → state_le (monotonicUpdateState a b) c.
Proof. unfold state_le, monotonicUpdateState. simpl. rewrite !atLeast_max. lia. Qed.

Lemma Save_advance id userID st s :
  Save id userID st s = mkStore (advance (id, userID) st (states s)) (observed s).
Proof.
  unfold Save, advance. do 2 f_equal. unfold monotonicUpdateState, atLeast.
  destruct st, (default noState (states s !! (id, userID))); simpl. by repeat case_bool_decide.
Qed.

Lemma advance_comm k1 st1 k2 st2 m :
  advance k1 st1 (advance k2 st2 m) = advance k2 st2 (advance k1 st1 m).
Proof.
  unfold advance. destruct (decide (k1 = k2)) as [->|Hne].
  - rewrite !lookup_insert_eq, !insert_insert_eq. simpl. f_equal.
    by rewrite !monotonic_assoc, (monotonic_comm st1).
  - rewrite !lookup_insert_ne by done. by apply insert_insert_ne.
Qed.

(** ** The operations that move a device's watermarks *)

Inductive op :=
| OpSave (id userID : Z) (st : UpdateState)
| OpCommit (id userID : Z) (st : UpdateState) (mode : Z)
| OpObserve (id userID : Z) (st : UpdateState)
| OpDelete (id userID : Z)
| OpDeleteAuthKey (id : Z).

Definition apply_op (s : t) (o : op) : t :=
  match o with
  | OpSave id u st => Save id u st s
  | OpCommit id u st mode => (CommitDeliveredState id u st mode s).1
  | OpObserve id u st => ObserveClientState id u st s
  | OpDelete id u => Delete id u s
  | OpDeleteAuthKey id => DeleteAuthKey id s
  end.

(** Does the operation forget the device? *)
Definition forgets (id userID : Z) (o : op) : bool :=
  match o with
  | OpDelete id' u => bool_decide (id' = id ∧ u = userID)
  | OpDeleteAuthKey id' => bool_decide (id' = id)
  | _ => false
  end.

Lemma difference_filter_lookup (m m' : gmap updateStateKey UpdateState) id k :
  k.1 ≠ id → (m ∖ filter (λ kv : updateStateKey * UpdateState, kv.1.1 = id) m') !! k = m !! k.
Proof.
  intros Hk. destruct (m !! k) as [x|] eqn:Hm.
  - apply lookup_difference_Some. split; [done|]. apply map_lookup_filter_None. right.
    intros ? _ ?. done.
  - apply lookup_difference_None. by left.
Qed.
Lemma difference_filter_gone (m : gmap updateStateKey UpdateState) id k :
  k.1 = id → (m ∖ filter (λ kv : updateStateKey * UpdateState, kv.1.1 = id) m) !! k = None.
Proof.
  intros Hk. apply lookup_difference_None. destruct (m !! k) as [x|] eqn:Hm; [right|by left].
  exists x. by apply map_lookup_filter_Some.
Qed.

Definition confirmedOf (id userID : Z) (s : t) : UpdateState := default noState (Get id userID s).
Definition observedOf (id userID : Z) (s : t) : UpdateState :=
  default noState (ObservedClientState id userID s).

Lemma advance_le k k' st m :
  state_le (default noState (m !! k)) (default noState (advance k' st m !! k)).
Proof.
  unfold advance. destruct (decide (k' = k)) as [->|].
  - rewrite lookup_insert_eq. apply monotonic_le_l.
  - by rewrite lookup_insert_ne.
Qed.

Lemma apply_op_le id userID o s :
  forgets id userID o = false →
  state_le (confirmedOf id userID s) (confirmedOf id userID (apply_op s o)) ∧
  state_le (observedOf id userID s) (observedOf id userID (apply_op s o)).
Proof.
  unfold confirmedOf, observedOf, Get, ObservedClientState. intros Hf.
  destruct o as [id' u st|id' u st mode|id' u st|id' u|id']; cbn [apply_op forgets] in *.
  - rewrite Save_advance. split; [apply advance_le|reflexivity].
  - unfold CommitDeliveredState. destruct (negb _); [by split|]. simpl. split; [apply advance_le|].
    case_bool_decide; [apply advance_le|reflexivity].
  - split; [reflexivity|apply advance_le].
  - apply bool_decide_eq_false in Hf. simpl. rewrite !lookup_delete_ne by naive_solver. by split.
  - apply bool_decide_eq_false in Hf. simpl. by rewrite !difference_filter_lookup by naive_solver.
Qed.
End MemoryStates.
