(* ===== verification/UpdateService.v ===== *)
(** * Account updates: the service

    [internal/app/updates/service.go], over any stores with the interfaces of
    [internal/store/update_event.go] and [internal/store/updatestate.go].
    Optional extension interfaces, which the service finds by a type assertion,
    are optional fields of the class.  [now] is the reading of the clock in
    seconds; logging is left out; a nil store is [None]. *)

From stdpp Require Import sorting.
From S2P Require Import Prelude UpdateTypes UpdateStore.

(** ** Interfaces *)

Class UpdateEventStore (Blob S : Type) := {
  es_AppendAllocated : Z → UpdateEvent Blob → S → S * (updateError + UpdateEvent Blob);
  es_ListAfter : Z → Z → Z → S → updateError + list (UpdateEvent Blob);
  es_MaxContiguousPts : Z → S → updateError + Z;
  (** [dispatchingEventAppender]: user, event, excluded auth key, excluded session. *)
  es_AppendAllocatedWithDispatch :
    option (Z → UpdateEvent Blob → Z → Z → S → S * (updateError + UpdateEvent Blob));
  (** [newMessageEventFinder] *)
  es_FindNewMessageEvent : option (Z → Z → S → updateError + option (UpdateEvent Blob));
  (** [userUpdateRetentionCheckpointStore]: the pts and date of the checkpoint. *)
  es_UserUpdateRetentionCheckpoint : option (Z → Z → S → updateError + option (Z * Z));
}.

Class UpdateStateStore (T : Type) := {
  ss_Get : Z → Z → T → updateError + option UpdateState;
  ss_Save : Z → Z → UpdateState → T → T * option updateError;
  ss_CommitDeliveredState : Z → Z → UpdateState → Z → T → T * option updateError;
  ss_ObserveClientState : Z → Z → UpdateState → T → T * option updateError;
  ss_DeleteAuthKey : Z → T → T * option updateError;
}.

(** [sort.Slice] by ascending pts.  It is not stable: events of equal pts come
    in any order. *)
Class SortByPts (Blob : Type) := {
  sortByPts : list (UpdateEvent Blob) → list (UpdateEvent Blob);
  sortByPts_perm es : sortByPts es ≡ₚ es;
  sortByPts_sorted es : StronglySorted (λ a b, e_Pts a ≤ e_Pts b) (sortByPts es);
}.

Section service.
Context {Blob S T : Type} `{InhB : Inhabited Blob}.
Context `{ES : UpdateEventStore Blob S} `{SS : UpdateStateStore T} `{SB : SortByPts Blob}.
Abbreviation event := (UpdateEvent Blob).

Record Service := mkService { states : option T; events : option S }.

(** ** Effects: the stores, and an error *)

Definition M (A : Type) : Type := Service → Service * (updateError + A).
#[export] Instance M_ret : MRet M := λ A a s, (s, inr a).
#[export] Instance M_bind : MBind M := λ A B f m s,
  match m s with
  | (s, inl err) => (s, inl err)
  | (s, inr a) => f a s
  end.
Definition fail {A} (err : updateError) : M A := λ s, (s, inl err).
(** Runs a query, or a change, of the event store and of the state store. *)
Definition askEvents {A} (f : S → updateError + A) (dflt : A) : M A := λ s,
  match events s with None => (s, inr dflt) | Some es => (s, f es) end.
Definition onEvents (f : S → S * (updateError + event)) (dflt : event) : M event := λ s,
  match events s with
  | None => (s, inr dflt)
  | Some es => let '(es, r) := f es in (mkService (states s) (Some es), r)
  end.
Definition onStates (f : T → T * option updateError) : M unit := λ s,
  match states s with
  | None => (s, inr tt)
  | Some ss => let '(ss, err) := f ss in
               (mkService (Some ss) (events s), match err with None => inr tt | Some err => inl err end)
  end.

(** ** States *)

Definition withSeq0 (st : UpdateState) : UpdateState :=
  mkState (st_Pts st) (st_Qts st) (st_Date st) 0.

Definition UsesReliableDispatch (s : Service) : bool :=
  bool_decide (is_Some (events s)) && bool_decide (is_Some (es_AppendAllocatedWithDispatch (S := S))).

Definition currentPts (userID : Z) : M Z := askEvents (es_MaxContiguousPts userID) 0.

Definition currentState (now userID : Z) : M UpdateState :=
  current ← currentPts userID; mret (mkState current 0 now 0).
Definition CurrentState := currentState.

Definition GetState (now authKeyID userID : Z) : M UpdateState := λ s,
  match states s with
  | None => currentState now userID s
  | Some ss =>
    match ss_Get authKeyID userID ss with
    | inl err => (s, inl err)
    | inr (Some st) =>
      (s, inr (mkState (st_Pts st) (st_Qts st) (if bool_decide (st_Date st = 0) then now else st_Date st) 0))
    | inr None =>
      (st ← currentState now userID;
       _ ← onStates (ss_Save authKeyID userID st);
       mret st) s
    end
  end.

Definition ConfirmedState (authKeyID userID : Z) : M (UpdateState * bool) := λ s,
  match states s with
  | None => (s, inr (noState, false))
  | Some ss =>
    match ss_Get authKeyID userID ss with
    | inl err => (s, inl err)
    | inr o => (s, inr (withSeq0 (default noState o), bool_decide (is_Some o)))
    end
  end.

Definition saveConfirmedState (authKeyID userID : Z) (st : UpdateState) : M unit :=
  onStates (ss_Save authKeyID userID (withSeq0 st)).
Definition observeClientState (authKeyID userID : Z) (st : UpdateState) : M unit :=
  onStates (ss_ObserveClientState authKeyID userID (withSeq0 st)).

Definition ConfirmEvent (now authKeyID userID : Z) (e : event) : M unit :=
  if bool_decide (e_UserID e ≠ 0) && bool_decide (e_UserID e ≠ userID)
  then fail (ErrConfirmUserMismatch (e_UserID e) userID)
  else if bool_decide (e_Pts e ≤ 0) then mret tt
  else
    let date := if bool_decide (e_Date e = 0) then now else e_Date e in
    saveConfirmedState authKeyID userID (mkState (e_Pts e) 0 date 0).

Definition clampDifferenceState (from current : UpdateState) : UpdateState :=
  let from := if bool_decide (st_Pts from < 0) then mkState 0 (st_Qts from) (st_Date from) (st_Seq from)
              else from in
  let from := if bool_decide (st_Pts from > st_Pts current)
              then mkState (st_Pts current) (st_Qts from) (st_Date from) (st_Seq from) else from in
  withSeq0 from.

Definition ObserveDifferenceRequest (now authKeyID userID : Z) (from : UpdateState) : M UpdateState :=
  current ← currentState now userID;
  let from := clampDifferenceState from current in
  _ ← observeClientState authKeyID userID from;
  mret from.

Definition CommitDeliveredState (authKeyID userID : Z) (st : UpdateState) (mode : Z) : M unit := λ s,
  match states s with
  | None => (s, inr tt)
  | Some _ =>
    (if negb (MemoryStates.validMode mode) then fail (ErrInvalidCommitMode mode)
     else onStates (ss_CommitDeliveredState authKeyID userID (withSeq0 st) mode)) s
  end.

Definition ClearAuthKey (authKeyID : Z) : M unit := onStates (ss_DeleteAuthKey authKeyID).

(** ** Differences *)

Definition getDifferenceLimit : Z := 100.

(** The scan of the sorted events: the contiguous prefix, and the first event
    that does not continue it with the pts expected there. *)
Fixpoint prefixLoop (cursor : Z) (sorted out : list event) : list event * option event * Z :=
  match sorted with
  | [] => (out, None, 0)
  | e :: sorted =>
    let expected := add64 cursor (normalCount (e_PtsCount e)) in
    if bool_decide (e_Pts e ≠ expected) then (out, Some e, expected)
    else prefixLoop (e_Pts e) sorted (out ++ [e])
  end.
Definition contiguousPrefixAndGap (es : list event) (from : Z) : list event * option event * Z :=
  match es with
  | [] => ([], None, 0)
  | _ => prefixLoop from (sortByPts es) []
  end.
Definition contiguousPrefix (es : list event) (from : Z) : list event :=
  (contiguousPrefixAndGap es from).1.1.

Definition retainedPrefixCheckpoint (authKeyID userID : Z) (from current : UpdateState)
    : M (option (UpdateDifference Blob)) :=
  match es_UserUpdateRetentionCheckpoint (S := S) with
  | None => mret None
  | Some checkpoints =>
    found ← askEvents (checkpoints authKeyID userID) None;
    mret match found with
         | None => None
         | Some (pts, date) =>
           if bool_decide (pts ≤ st_Pts from) then None
           else
             let date' := if bool_decide (date > 0) then date
                          else if bool_decide (st_Date from = 0) then st_Date current else st_Date from in
             Some (mkDifference (mkState pts (st_Qts from) date' 0) [] true)
         end
  end.

Definition GetDifference (now authKeyID userID : Z) (from : UpdateState) : M (UpdateDifference Blob) :=
  st ← currentState now userID;
  let from := clampDifferenceState from st in
  checkpoint ← retainedPrefixCheckpoint authKeyID userID from st;
  match checkpoint with
  | Some d => mret d
  | None => λ s,
    if bool_decide (events s = None) || bool_decide (st_Pts st ≤ st_Pts from) then
      (s, inr (mkDifference
                 (if bool_decide (st_Date from ≠ 0)
                  then mkState (st_Pts st) (st_Qts st) (st_Date from) (st_Seq st) else st) [] false))
    else
      (evs ← askEvents (es_ListAfter userID (st_Pts from) getDifferenceLimit) [];
       let '(contiguous, _, _) := contiguousPrefixAndGap evs (st_Pts from) in
       checkpoint ← (if bool_decide (contiguous = []) && bool_decide (st_Pts from < st_Pts st)
                     then retainedPrefixCheckpoint authKeyID userID from st else mret None);
       match checkpoint with
       | Some d => mret d
       | None =>
         mret (mkDifference
                 (match last contiguous with
                  | Some e => mkState (e_Pts e) (st_Qts st) (e_Date e) 0
                  | None => mkState (st_Pts from) (st_Qts st) (st_Date st) 0
                  end)
                 contiguous
                 (bool_decide (Z.of_nat (length contiguous) = getDifferenceLimit)))
       end) s
  end.

(** ** Recording events *)

Definition recordEventCore (now stateAuthKeyID excludeAuthKeyID userID : Z) (e : event)
    (dispatch : bool) (excludeSessionID : Z) (saveState : bool) : M (event * UpdateState) :=
  let date := if bool_decide (e_Date e = 0) then now else e_Date e in
  let e := if bool_decide (e_PtsCount e = 0) then with_PtsCount 1 e else e in
  let e := with_Date date (with_UserID userID e) in
  e ← λ s, match events s with
           | Some _ =>
             onEvents
               (if dispatch
                then match es_AppendAllocatedWithDispatch with
                     | Some appender => appender userID e excludeAuthKeyID excludeSessionID
                     | None => es_AppendAllocated userID e
                     end
                else es_AppendAllocated userID e) e s
           | None =>
             (current ← currentPts userID; mret (with_Pts (add64 current (e_PtsCount e)) e)) s
           end;
  let st := mkState (e_Pts e) 0 date 0 in
  _ ← (if saveState then onStates (ss_Save stateAuthKeyID userID st) else mret tt);
  mret (e, st).

Definition recordEvent (now stateAuthKeyID excludeAuthKeyID userID : Z) (e : event)
    (dispatch : bool) (excludeSessionID : Z) : M (event * UpdateState) :=
  recordEventCore now stateAuthKeyID excludeAuthKeyID userID e dispatch excludeSessionID true.
Definition recordEventWithoutState (now userID : Z) (e : event) : M (event * UpdateState) :=
  recordEventCore now 0 0 userID e false 0 false.

(** [if x == 0 { x = d }] *)
Definition orElse (x d : Z) : Z := if bool_decide (x = 0) then d else x.
End service.
Arguments Service : clear implicits.
