(* ===== verification/UpdateRecord.v ===== *)
(** * Account updates: the recording operations

    The [Record...] and [Publish...] methods of
    [internal/app/updates/service.go], one per kind of account event. *)

From S2P Require Import Prelude UpdateTypes UpdateStore UpdateService.

(** Results of business operations, with the fields the log copies. *)
Record StoryReadResult := mkStoryRead { sr_ViewerID : Z; sr_Peer : Peer; sr_MaxReadID : Z; sr_Date : Z }.
Record StoryReactionResult (Blob : Type) := mkStoryReaction {
  rr_ViewerID : Z;
  rr_Peer : Peer;
  rr_StoryID : Z;
  rr_Reaction : option Blob;
  rr_Story : Story Blob;
  rr_Date : Z;
}.
Record ReadHistoryResult := mkReadHistory {
  rh_OwnerUserID : Z;
  rh_Peer : Peer;
  rh_MaxID : Z;
  rh_StillUnreadCount : Z;
  rh_ChannelPts : Z;
}.
Inductive QuickReplyMutationKind :=
| QuickReplyMutationList | QuickReplyMutationNew | QuickReplyMutationDelete
| QuickReplyMutationMessage | QuickReplyMutationIDs.
Record QuickReplyMutation (Blob : Type) := mkQuickReplyMutation {
  qr_Kind : QuickReplyMutationKind;
  qr_OwnerUserID : Z;
  qr_QuickReplies : list Blob;
  qr_QuickReply : Blob;
  qr_ShortcutID : Z;
  qr_Message : Blob;
  qr_MessageIDs : list Z;
  qr_Date : Z;
}.
Arguments mkStoryReaction {Blob}.
Arguments rr_ViewerID {Blob}.
Arguments rr_Peer {Blob}.
Arguments rr_StoryID {Blob}.
Arguments rr_Reaction {Blob}.
Arguments rr_Story {Blob}.
Arguments rr_Date {Blob}.
Arguments mkQuickReplyMutation {Blob}.
Arguments qr_Kind {Blob}.
Arguments qr_OwnerUserID {Blob}.
Arguments qr_QuickReplies {Blob}.
Arguments qr_QuickReply {Blob}.
Arguments qr_ShortcutID {Blob}.
Arguments qr_Message {Blob}.
Arguments qr_MessageIDs {Blob}.
Arguments qr_Date {Blob}.

Section record.
Context {Blob S T : Type} `{InhB : Inhabited Blob}.
Context `{ES : UpdateEventStore Blob S} `{SS : UpdateStateStore T}.
Abbreviation event := (UpdateEvent Blob).
Abbreviation M := (@M S T).
(** The clock, the confirmed device, the user; what follows is the excluded
    device and session. *)
Implicit Types (now stateAuthKeyID userID excludeAuthKeyID excludeSessionID : Z).

(** ** Messages *)

Definition RecordNewMessage now (authKeyID : Z) userID (msg : Message Blob) : M (event * UpdateState) :=
  let userID := orElse userID (m_OwnerUserID msg) in
  let date := orElse (m_Date msg) now in
  recordEvent now authKeyID 0 userID (with_Message msg (newEvent UpdateEventNewMessage date 1)) false 0.

Definition publishEvent now userID (msg : Message Blob) : M (event * UpdateState) :=
  let date := orElse (m_Date msg) now in
  recordEventCore now 0 0 userID (with_Message msg (newEvent UpdateEventNewMessage date 1)) true 0 false.

Definition PublishNewMessage now userID (msg : Message Blob) : M (event * UpdateState) :=
  let userID := orElse userID (m_OwnerUserID msg) in
  λ s,
  match events s, es_FindNewMessageEvent (S := S) with
  | Some es, Some finder =>
    if bool_decide (m_ID msg > 0) then
      match finder userID (m_ID msg) es with
      | inl err => (s, inl err)
      | inr (Some e) => (st ← currentState now userID; mret (e, st)) s
      | inr None => publishEvent now userID msg s
      end
    else publishEvent now userID msg s
  | _, _ => publishEvent now userID msg s
  end.

Definition RecordMessagePoll now userID (msg : Message Blob) : M (event * UpdateState) :=
  let userID := orElse userID (m_OwnerUserID msg) in
  let date := orElse (m_Date msg) now in
  recordEventWithoutState now userID
    (with_Message msg (with_Peer (m_Peer msg) (newEvent UpdateEventMessagePoll date 1))).

(** ** Stories *)

Definition storyEvent (story : Story Blob) : event :=
  with_Peer (story_Owner story) (with_Story story (newEvent UpdateEventStory (story_Date story) 1)).

Definition RecordStory now stateAuthKeyID userID (story : Story Blob) excludeAuthKeyID excludeSessionID
    : M (event * UpdateState) :=
  let userID := if bool_decide (userID = 0) && bool_decide (peerType (story_Owner story) = PeerTypeUser)
                then peerID (story_Owner story) else userID in
  recordEvent now stateAuthKeyID excludeAuthKeyID userID (storyEvent story) true excludeSessionID.

Definition RecordStoryFanout now userID (story : Story Blob) : M (event * UpdateState) :=
  if bool_decide (userID = 0) then fail ErrStoryPeerInvalid
  else recordEventCore now 0 0 userID (storyEvent story) true 0 false.

Definition RecordReadStories now stateAuthKeyID userID (read : StoryReadResult)
    excludeAuthKeyID excludeSessionID : M (event * UpdateState) :=
  recordEvent now stateAuthKeyID excludeAuthKeyID (orElse userID (sr_ViewerID read))
    (with_Peer (sr_Peer read) (with_MaxID (sr_MaxReadID read)
       (newEvent UpdateEventReadStories (sr_Date read) 1))) true excludeSessionID.

Definition RecordSentStoryReaction now stateAuthKeyID userID (reaction : StoryReactionResult Blob)
    excludeAuthKeyID excludeSessionID : M (event * UpdateState) :=
  recordEvent now stateAuthKeyID excludeAuthKeyID (orElse userID (rr_ViewerID reaction))
    (with_Peer (rr_Peer reaction) (with_MaxID (rr_StoryID reaction) (with_Story (rr_Story reaction)
       (with_Reaction (rr_Reaction reaction)
         (newEvent UpdateEventSentStoryReaction (rr_Date reaction) 1))))) true excludeSessionID.

Definition RecordNewStoryReaction now stateAuthKeyID (ownerUserID : Z)
    (reaction : StoryReactionResult Blob) excludeAuthKeyID excludeSessionID : M (event * UpdateState) :=
  let owner := story_Owner (rr_Story reaction) in
  let ownerUserID := if bool_decide (ownerUserID = 0) && bool_decide (peerType owner = PeerTypeUser)
                     then peerID owner else ownerUserID in
  let ownerUserID := if bool_decide (ownerUserID = 0)
                        && bool_decide (peerType (rr_Peer reaction) = PeerTypeUser)
                     then peerID (rr_Peer reaction) else ownerUserID in
  if bool_decide (ownerUserID = 0) || bool_decide (rr_ViewerID reaction = 0)
     || bool_decide (rr_Reaction reaction = None)
  then fail ErrStoryPeerInvalid
  else recordEventCore now stateAuthKeyID excludeAuthKeyID ownerUserID
         (with_Peer (mkPeer PeerTypeUser (rr_ViewerID reaction)) (with_MaxID (rr_StoryID reaction)
            (with_Story (rr_Story reaction) (with_Reaction (rr_Reaction reaction)
              (newEvent UpdateEventNewStoryReaction (rr_Date reaction) 1)))))
         true excludeSessionID false.

(** ** Quick replies *)

Definition quickReplyEventType (k : QuickReplyMutationKind) : UpdateEventType :=
  match k with
  | QuickReplyMutationNew => UpdateEventNewQuickReply
  | QuickReplyMutationDelete => UpdateEventDeleteQuickReply
  | QuickReplyMutationMessage => UpdateEventQuickReplyMessage
  | QuickReplyMutationIDs => UpdateEventDeleteQuickReplyMessages
  | QuickReplyMutationList => UpdateEventQuickReplies
  end.
Definition RecordQuickReplyMutation now stateAuthKeyID userID (mutation : QuickReplyMutation Blob)
    excludeAuthKeyID excludeSessionID : M (event * UpdateState) :=
  recordEvent now stateAuthKeyID excludeAuthKeyID (orElse userID (qr_OwnerUserID mutation))
    (with_QuickReplies (qr_QuickReplies mutation) (with_QuickReply (qr_QuickReply mutation)
       (with_QuickReplyMessage (qr_Message mutation) (with_MessageIDs (qr_MessageIDs mutation)
         (with_MaxID (qr_ShortcutID mutation)
           (newEvent (quickReplyEventType (qr_Kind mutation)) (qr_Date mutation) 1))))))
    true excludeSessionID.

(** ** Read boundaries and account settings *)

Definition RecordReadHistory now stateAuthKeyID userID (read : ReadHistoryResult)
    excludeAuthKeyID excludeSessionID : M (event * UpdateState) :=
  recordEvent now stateAuthKeyID excludeAuthKeyID (orElse userID (rh_OwnerUserID read))
    (with_Peer (rh_Peer read) (with_MaxID (rh_MaxID read)
       (with_StillUnreadCount (rh_StillUnreadCount read) (with_ChannelPts (rh_ChannelPts read)
         (newEvent UpdateEventReadHistoryInbox now 1))))) true excludeSessionID.

(** The settings-class records differ in the event only. *)
Definition recordSetting now stateAuthKeyID userID (e : event) excludeAuthKeyID excludeSessionID :=
  recordEvent now stateAuthKeyID excludeAuthKeyID userID e true excludeSessionID.

Definition RecordChannelState now stateAuthKeyID userID (channelID : Z) :=
  recordSetting now stateAuthKeyID userID
    (with_Peer (mkPeer PeerTypeChannel channelID) (newEvent UpdateEventChannelState 0 1)).
Definition RecordContactsReset now stateAuthKeyID userID :=
  recordSetting now stateAuthKeyID userID (newEvent UpdateEventContactsReset 0 1).
Definition RecordUserEmojiStatus now stateAuthKeyID userID (status : UserEmojiStatus)
    excludeAuthKeyID excludeSessionID : M (event * UpdateState) :=
  if negb (emojiStatusValid status) then fail ErrStarGiftCollectibleInvalid
  else recordSetting now stateAuthKeyID userID
         (with_Peer (mkPeer PeerTypeUser userID) (with_EmojiStatus status
            (newEvent UpdateEventUserEmojiStatus 0 1))) excludeAuthKeyID excludeSessionID.
Definition RecordDraftMessage now stateAuthKeyID userID (peer : Peer) (topMsgID : Z) :=
  recordSetting now stateAuthKeyID userID
    (with_Peer peer (with_MaxID topMsgID (newEvent UpdateEventDraftMessage 0 1))).
Definition RecordDialogPinned now stateAuthKeyID userID (peer : Peer) (pinned : bool) (folderID : Z) :=
  recordSetting now stateAuthKeyID userID
    (with_Peer peer (with_Bool pinned (with_FolderID folderID (newEvent UpdateEventDialogPinned 0 1)))).
Definition RecordPinnedDialogs now stateAuthKeyID userID (folderID : Z) (order : list Peer) :=
  recordSetting now stateAuthKeyID userID
    (with_Peers order (with_FolderID folderID (newEvent UpdateEventPinnedDialogs 0 1))).
Definition RecordSavedDialogPinned now stateAuthKeyID userID (peer : Peer) (pinned : bool) :=
  recordSetting now stateAuthKeyID userID
    (with_Peer peer (with_Bool pinned (newEvent UpdateEventSavedDialogPinned 0 1))).
Definition RecordPinnedSavedDialogs now stateAuthKeyID userID (order : list Peer) :=
  recordSetting now stateAuthKeyID userID (with_Peers order (newEvent UpdateEventPinnedSavedDialogs 0 1)).
Definition RecordDialogUnreadMark now stateAuthKeyID userID (peer : Peer) (unread : bool) :=
  recordSetting now stateAuthKeyID userID
    (with_Peer peer (with_Bool unread (newEvent UpdateEventDialogUnreadMark 0 1))).
Definition RecordChannelViewForumAsMessages now stateAuthKeyID userID (channelID : Z) (enabled : bool) :=
  recordSetting now stateAuthKeyID userID
    (with_Peer (mkPeer PeerTypeChannel channelID) (with_Bool enabled
       (newEvent UpdateEventChannelViewForum 0 1))).
Definition RecordChannelDiscussionInbox now stateAuthKeyID userID (channelID topicID maxID : Z) :=
  recordSetting now stateAuthKeyID userID
    (with_Peer (mkPeer PeerTypeChannel channelID) (with_TopMsgID topicID (with_MaxID maxID
       (newEvent UpdateEventReadChannelDiscussionInbox 0 1)))).
Definition RecordPeerSettings now stateAuthKeyID userID (peer : Peer) (settings : Blob) :=
  recordSetting now stateAuthKeyID userID
    (with_Peer peer (with_Settings settings (newEvent UpdateEventPeerSettings 0 1))).
Definition RecordPeerStoryBlocked now stateAuthKeyID userID (peer : Peer) (blocked : bool) :=
  recordSetting now stateAuthKeyID userID
    (with_Peer peer (with_Bool blocked (newEvent UpdateEventPeerStoryBlocked 0 1))).
(** [None] is a deleted filter. *)
Definition RecordDialogFilter now stateAuthKeyID userID (folderID : Z) (folder : option Blob) :=
  recordSetting now stateAuthKeyID userID
    (with_FilterID folderID (with_DialogFilter folder (newEvent UpdateEventDialogFilter 0 1))).
Definition RecordDialogFilterOrder now stateAuthKeyID userID (order : list Z) :=
  recordSetting now stateAuthKeyID userID
    (with_FilterOrder order (newEvent UpdateEventDialogFilterOrder 0 1)).
Definition RecordDialogFiltersReload now stateAuthKeyID userID :=
  recordSetting now stateAuthKeyID userID (newEvent UpdateEventDialogFilters 0 1).
Definition RecordFolderPeers now stateAuthKeyID userID (peers : list Blob) :=
  recordSetting now stateAuthKeyID userID
    (with_FolderPeers peers (newEvent UpdateEventFolderPeers 0 1)).
End record.
