(* ===== verification/UpdateLog.v ===== *)
(** * Account updates: what an event store promises and what a difference is

    [UpdateEventReads] is what the service relies on when it reads: a
    per-account log in pts order, in which numbers may be missing, and the end of
    its gap-free part.  [UpdateEventLog] adds what recording relies on: the log
    has no hole above the retained floor and an append continues it.  The service
    lemmas are proved against these contracts; the in-memory store is an
    instance of both. *)

From stdpp Require Import sorting.
From S2P Require Import Prelude UpdateTypes UpdateStore UpdateService.
Import MemoryEvents UpdateService.

(** [log] reads the retained events of a user, [floor] the pts up to which
    events were dropped by retention. *)
Class UpdateEventReads (Blob S : Type) `{ES : UpdateEventStore Blob S} := {
  read_ok : S → Prop;
  log : Z → S → list (UpdateEvent Blob);
  floor : Z → S → Z;
  contiguousEnd u s := lastPts (floor u s) (contig (floor u s) (log u s));
  log_ordered u s : read_ok s → 0 ≤ floor u s ≤ i64_max ∧ Ordered (floor u s) (log u s);
  log_contiguous u s : read_ok s → es_MaxContiguousPts u s = inr (contiguousEnd u s);
  log_list u p limit s : read_ok s → 0 < limit →
    es_ListAfter u p limit s = inr (take (Z.to_nat limit) (filter (λ e, p < e_Pts e) (log u s)));
  log_no_retention u s : es_UserUpdateRetentionCheckpoint (S := S) = None → floor u s = 0;
  log_checkpoint f a u s o : es_UserUpdateRetentionCheckpoint = Some f → read_ok s → a ≠ 0 → u ≠ 0 →
    f a u s = inr o → match o with None => floor u s = 0 | Some (p, _) => p = floor u s end;
}.
(** [appends u e s r] says that [r] is the outcome of appending [e] for user
    [u] to [s]. *)
Class UpdateEventLog (Blob S : Type) `{ER : UpdateEventReads Blob S} := {
  log_ok : S → Prop;
  watermark u s := lastPts (floor u s) (log u s);
  log_reads s : log_ok s → read_ok s;
  log_gapfree u s : log_ok s → Chain (floor u s) (log u s);
  appends u e s r := ∃ s', r = (s', inr (allocated u (watermark u s + normalCount (e_PtsCount e)) e)) ∧
    log_ok s' ∧ log u s' = log u s ++ [allocated u (watermark u s + normalCount (e_PtsCount e)) e] ∧
    floor u s' = floor u s ∧ ∀ u', u' ≠ u → log u' s' = log u' s ∧ floor u' s' = floor u' s;
  log_append u e s : log_ok s → watermark u s + normalCount (e_PtsCount e) ≤ i64_max →
    appends u e s (es_AppendAllocated u e s);
  log_append_dispatch f u e a x s : es_AppendAllocatedWithDispatch = Some f → log_ok s →
    watermark u s + normalCount (e_PtsCount e) ≤ i64_max → (a = 0 ↔ x = 0) →
    appends u e s (f u e a x s);
}.

Section log.
Context {Blob S T : Type} `{InhB : Inhabited Blob}.
Context `{EL : UpdateEventLog Blob S} `{SS : UpdateStateStore T} `{SB : SortByPts Blob}.
Abbreviation event := (UpdateEvent Blob).
Abbreviation service := (Service S T).
Implicit Types (e : event) (es lg : list event) (s : S) (sv : service).

(** ** Sorting what is already in order *)

Lemma sorted_unique es es' :
  es' ≡ₚ es → StronglySorted (λ a b, e_Pts a ≤ e_Pts b) es' →
  StronglySorted (λ a b, e_Pts a < e_Pts b) es → es' = es.
Proof.
  revert es'. induction es as [|e es IH]; intros es' Hp Hs' Hs.
  { by apply Permutation_nil_r in Hp. }
  destruct es' as [|e' es']; [by apply Permutation_nil_l in Hp|].
  apply StronglySorted_inv in Hs as [Hs Hall]. apply StronglySorted_inv in Hs' as [Hs' Hall'].
  rewrite Forall_forall in Hall, Hall'.
  assert (e' = e) as ->.
  { assert (e' ∈ e :: es) as [|Hin']%elem_of_cons by (rewrite <-Hp; set_solver); [done|].
    assert (e ∈ e' :: es') as [|Hin]%elem_of_cons by (rewrite Hp; set_solver); [done|].
    specialize (Hall _ Hin'). specialize (Hall' _ Hin). simpl in *. lia. }
  f_equal. apply IH; [|done..]. by apply Permutation_cons_inv in Hp.
Qed.

Lemma sortByPts_id es : StronglySorted (λ a b, e_Pts a < e_Pts b) es → sortByPts es = es.
Proof. intros HS. apply sorted_unique; [apply sortByPts_perm|apply sortByPts_sorted|done]. Qed.

(** ** The contiguous prefix *)

Lemma expected_pts cursor e :
  0 ≤ cursor < e_Pts e → 0 ≤ startPts e → e_Pts e ≤ i64_max → e_Pts e = add64 cursor (normalCount (e_PtsCount e)) ↔ startPts e = cursor.
Proof.
  intros Hc Hs Hm. unfold startPts in *. pose proof (normalCount_pos (e_PtsCount e)). destruct (decide (cursor + normalCount (e_PtsCount e) ≤ i64_max)).
  - rewrite add64_small by (unfold i64_min; lia). lia.
  - split; [|lia]. unfold add64, wrap64, i64_max in *.
    replace (cursor + normalCount (e_PtsCount e) + 9223372036854775808)
      with ((cursor + normalCount (e_PtsCount e) - 9223372036854775808) + 1 * 18446744073709551616) by lia.
    rewrite Z.mod_add by lia. rewrite Z.mod_small by lia. lia.
Qed.
Lemma prefixLoop_contig cursor es out :
  0 ≤ cursor → StronglySorted (λ a b, e_Pts a < e_Pts b) es → (∀ e, e ∈ es → cursor < e_Pts e ∧ 0 ≤ startPts e ∧ e_Pts e ≤ i64_max) →
  (prefixLoop cursor es out).1.1 = out ++ contig cursor es.
Proof.
  revert cursor out. induction es as [|e es IH]; intros cursor out Hc HS He; [by rewrite app_nil_r|]. apply StronglySorted_inv in HS as [HS Hall]. rewrite Forall_forall in Hall.
  destruct (He e) as (H1 & H2 & H3); [by left|]. pose proof (expected_pts cursor e ltac:(lia) H2 H3) as HE. simpl. case_decide as E.
  - rewrite bool_decide_eq_false_2 by tauto. rewrite IH; [by rewrite <-app_assoc|lia|done|]. intros x Hx. destruct (He x) as (_ & ? & ?); [by right|].
    specialize (Hall x Hx). simpl in Hall. lia.
  - rewrite bool_decide_eq_true_2 by tauto. by rewrite app_nil_r.
Qed.

Lemma Chain_take from es n : Chain from es → Chain from (take n es).
Proof. intros HC. rewrite <-(take_drop n es) in HC. by apply Chain_app in HC as [? _]. Qed.

(** [p] is where an event of the log ends, or the start of the log. *)
Definition boundary (from p : Z) lg : Prop := lastPts from (filter (λ e, e_Pts e ≤ p) lg) = p.
#[export] Instance boundary_dec from p lg : Decision (boundary from p lg).
Proof. unfold boundary. apply _. Defined.
Definition after (p : Z) lg : list event := filter (λ e, p < e_Pts e) lg.

(** The events up to a pts, then those after it. *)
Lemma filter_split from lg p : Ordered from lg → lg = filter (λ e, e_Pts e ≤ p) lg ++ after p lg.
Proof.
  intros HO%Ordered_sorted. unfold after. induction HO as [|e lg HS IH HF]; [done|]. destruct (decide (e_Pts e ≤ p)).
  - rewrite filter_cons_True by done. rewrite filter_cons_False by lia. simpl. by f_equal.
  - rewrite filter_cons_False by done. rewrite list_filter_nil; [|intros x Hx; rewrite Forall_forall in HF; specialize (HF x Hx); simpl in HF; lia].
    symmetry. apply list_filter_id. intros x [->|Hx]%elem_of_cons; [lia|]. rewrite Forall_forall in HF. specialize (HF x Hx). simpl in HF. lia.
Qed.
Lemma Chain_filter_split from lg p : Chain from lg → lg = filter (λ e, e_Pts e ≤ p) lg ++ after p lg.
Proof. intros HC%Ordered_Chain. by eapply filter_split. Qed.
Lemma after_Chain from lg p : Chain from lg → boundary from p lg → Chain p (after p lg).
Proof.
  intros HC Hb. rewrite (Chain_filter_split from lg p HC) in HC. apply Chain_app in HC as [_ HC].
  by rewrite Hb in HC.
Qed.
Lemma after_sorted from lg p : Ordered from lg → StronglySorted (λ a b, e_Pts a < e_Pts b) (after p lg).
Proof. intros HO. pose proof (Ordered_sorted _ _ HO) as HS. rewrite (filter_split from lg p HO) in HS. by apply StronglySorted_app_1_r in HS. Qed.
Lemma sorted_app es es' x y : StronglySorted (λ a b, e_Pts a < e_Pts b) (es ++ es') → x ∈ es → y ∈ es' → e_Pts x < e_Pts y.
Proof.
  induction es as [|z es IH]; intros HS Hx Hy; [by apply not_elem_of_nil in Hx|]. simpl in HS. apply StronglySorted_inv in HS as [HS HF]. rewrite Forall_forall in HF.
  apply elem_of_cons in Hx as [->|Hx]; [apply (HF y); apply elem_of_app; by right|by apply IH].
Qed.
Lemma after_in p lg e : e ∈ after p lg ↔ e ∈ lg ∧ p < e_Pts e.
Proof. unfold after. rewrite list_elem_of_filter. tauto. Qed.

(** What a scan of the listed events finds: those up to the first hole. *)
Lemma prefix_after from lg p n :
  0 ≤ from ≤ p → Ordered from lg → (contiguousPrefixAndGap (take n (after p lg)) p).1.1 = contig p (take n (after p lg)).
Proof.
  intros Hp HO. assert (HS : StronglySorted (λ a b, e_Pts a < e_Pts b) (take n (after p lg))).
  { pose proof (after_sorted from lg p HO) as HS. rewrite <-(take_drop n (after p lg)) in HS. by apply StronglySorted_app_1_l in HS. }
  unfold contiguousPrefixAndGap. rewrite (sortByPts_id _ HS). destruct (take n (after p lg)) as [|e es] eqn:E; [done|]. rewrite <-E in *.
  rewrite prefixLoop_contig; [done|lia|done|]. intros x [Hx ?]%elem_of_take%after_in. destruct (Ordered_start _ _ _ HO Hx). lia.
Qed.
(** In a gap-free log: everything when the cursor is a boundary, and nothing
    when it is not. *)
Lemma contig_after from lg p n :
  Chain from lg → contig p (take n (after p lg)) = if decide (boundary from p lg) then take n (after p lg) else [].
Proof.
  intros HC. case_decide as Hb; [by apply contig_all, Chain_take, (after_Chain from)|]. destruct (after p lg) as [|e rest] eqn:Ha; [by rewrite take_nil|].
  destruct n as [|n]; [done|]. simpl. rewrite decide_False; [done|]. intros Hs. apply Hb. unfold boundary.
  rewrite (Chain_filter_split from lg p HC), Ha in HC. apply Chain_app in HC as [_ (Hp & _)]. unfold startPts in Hs. lia.
Qed.
(** The end of a prefix of what follows a cursor separates it from the rest. *)
Lemma prefix_last from lg p c rest :
  Ordered from lg → after p lg = c ++ rest →
  (∀ e, e ∈ c → e_Pts e ≤ lastPts p c) ∧ (∀ e, e ∈ rest → lastPts p c < e_Pts e) ∧ p ≤ lastPts p c.
Proof.
  intros HO E. pose proof (after_sorted from lg p HO) as HS. rewrite E in HS.
  assert (Hin : ∀ e, e ∈ c ++ rest → p < e_Pts e) by (rewrite <-E; by intros e [_ ?]%after_in).
  destruct c as [|x c _] using rev_ind; [rewrite lastPts_nil; split_and!; [by intros e ?%not_elem_of_nil|done|done]|]. rewrite lastPts_snoc.
  assert (Hx : x ∈ c ++ [x]) by (apply elem_of_app; right; by left). split_and!.
  - apply StronglySorted_app_1_l in HS. intros e [He| ->%list_elem_of_singleton]%elem_of_app; [|done]. apply Z.lt_le_incl. eapply sorted_app; [exact HS|done|by left].
  - intros e He. by eapply sorted_app.
  - apply Z.lt_le_incl, Hin, elem_of_app. by left.
Qed.
(** The part of a strictly ordered log from a cursor up to the end of a prefix
    of what follows it, and what is after that end. *)
Lemma prefix_between from lg p c :
  Ordered from lg → c `prefix_of` after p lg → c = filter (λ e, p < e_Pts e ≤ lastPts p c) lg.
Proof.
  intros HO [rest E]. destruct (prefix_last from lg p c rest HO E) as (H1 & H2 & _).
  transitivity (filter (λ e, e_Pts e ≤ lastPts p c) (after p lg)); [|unfold after; rewrite list_filter_filter; apply list_filter_iff; tauto].
  rewrite E, filter_app. rewrite list_filter_id, list_filter_nil; [by rewrite app_nil_r| |done]. intros e He. specialize (H2 e He). lia.
Qed.
Lemma prefix_rest from lg p c rest : Ordered from lg → after p lg = c ++ rest → after (lastPts p c) lg = rest.
Proof.
  intros HO E. destruct (prefix_last from lg p c rest HO E) as (H1 & H2 & H3).
  transitivity (filter (λ e, lastPts p c < e_Pts e) (after p lg)); [unfold after; rewrite list_filter_filter; apply list_filter_iff; lia|].
  rewrite E, filter_app. rewrite list_filter_nil, list_filter_id; [done|done|]. intros e He. specialize (H1 e He). lia.
Qed.
(** Where the gap-free part after a cursor ends, no event of the log starts. *)
Lemma contig_stop from lg p e :
  Ordered from lg → e ∈ lg → startPts e ≠ lastPts p (contig p (after p lg)).
Proof.
  intros HO Hin Hs. pose proof (startPts_lt e). destruct (contig_prefix p (after p lg)) as [rest E]. set (c := contig p (after p lg)) in *.
  destruct (prefix_last from lg p c rest HO E) as (Hc1 & Hrest & Hle).
  assert (He : e ∈ after p lg) by (apply after_in; split; [done|lia]). rewrite E in He. apply elem_of_app in He as [He|He].
  - specialize (Hc1 e He). lia.
  - destruct rest as [|h rest]; [by apply not_elem_of_nil in He|]. pose proof (contig_drop p (length c) (after p lg)) as HD. fold c in HD. specialize (HD ltac:(lia)).
    rewrite take_ge, E, drop_app_length, drop_ge in HD by lia. simpl in HD. case_decide as Eh; [done|]. apply elem_of_cons in He as [->|He]; [done|].
    assert (HOr : Ordered from (filter (λ e, e_Pts e ≤ p) lg ++ c ++ h :: rest)) by (rewrite <-E; by rewrite <-(filter_split from lg p HO)).
    assert (Hh : e_Pts h ≤ startPts e).
    { clear -HOr He. rewrite app_assoc in HOr. revert HOr. generalize (filter (λ e, e_Pts e ≤ p) lg ++ c). intros l. revert from. induction l as [|x l IH]; intros from; simpl; intros (_ & _ & H3); [|by eapply IH].
      by destruct (Ordered_start _ _ _ H3 He). }
    specialize (Hrest h ltac:(by left)). lia.
Qed.

(** ** Differences *)

Definition sliceLimit : nat := 100.

(** The events a difference from cursor [p] carries. *)
Definition diffEvents (fl p : Z) lg : list event :=
  if decide (p < fl) then []
  else if decide (boundary fl p lg) then take sliceLimit (after p lg) else [].

(** The cursor a request is answered for. *)
Definition clampPts (p wm : Z) : Z := Z.min (Z.max 0 p) wm.

Lemma clamp_Pts from st :
  0 ≤ st_Pts st → st_Pts (clampDifferenceState from st) = clampPts (st_Pts from) (st_Pts st).
Proof.
  intros. unfold clampDifferenceState, clampPts. repeat (case_bool_decide; simpl in *); lia.
Qed.

(** The retention probe, where there is one, does not fail. *)
Definition checkpointAnswers (a u : Z) s : Prop :=
  ∀ f, es_UserUpdateRetentionCheckpoint = Some f → ∃ x, f a u s = inr x.

(** The checkpoint probe answers iff the cursor is below the floor. *)
Lemma checkpoint_ok a u from st sv s :
  events sv = Some s → read_ok s → a ≠ 0 → u ≠ 0 → 0 ≤ st_Pts from → checkpointAnswers a u s →
  ∃ o, retainedPrefixCheckpoint a u from st sv = (sv, inr o) ∧
    ((floor u s ≤ st_Pts from ∧ o = None) ∨
     (st_Pts from < floor u s ∧
      ∃ d, o = Some d ∧ st_Pts (d_State d) = floor u s ∧ d_Events d = [] ∧ d_Partial d = true)).
Proof.
  intros Hs Hok Ha Hu Hfrom Hf. unfold retainedPrefixCheckpoint.
  destruct es_UserUpdateRetentionCheckpoint as [f|] eqn:Hc.
  - destruct (Hf f Hc) as [x Hfx].
    pose proof (log_checkpoint f a u s x Hc Hok Ha Hu Hfx) as Hfl.
    unfold mbind, M_bind, askEvents. rewrite Hs, Hfx. eexists. split; [done|].
    destruct x as [[pts date]|]; [|left; split; [lia|done]].
    case_bool_decide; [left; split; [lia|done]|right]. split; [lia|]. eexists. split; [done|]. by subst.
  - exists None. split; [done|]. left. split; [|done]. rewrite log_no_retention by done. lia.
Qed.

Lemma contig_end u s : read_ok s → contig (contiguousEnd u s) (after (contiguousEnd u s) (log u s)) = [].
Proof.
  intros Hok. destruct (log_ordered u s Hok) as [_ HO]. destruct (after _ _) as [|e es] eqn:Ha; [done|]. simpl. case_decide as Hs; [|done]. exfalso.
  assert (e ∈ after (contiguousEnd u s) (log u s)) as [Hin Hlt]%after_in by (rewrite Ha; by left).
  pose proof (contig_closed _ _ _ HO Hin) as Hle. unfold contiguousEnd in *. lia.
Qed.
Lemma lastPts_or (A : Type) (f : event → A) (g : A) es (h : A → Z) (p : Z) :
  (∀ e, h (f e) = e_Pts e) → h g = p →
  h (match last es with Some e => f e | None => g end) = lastPts p es.
Proof. intros Hf Hg. unfold lastPts. by destruct (last es). Qed.

(** The whole answer, for any request and any log. *)
Lemma GetDifference_reads now a u from sv s :
  events sv = Some s → read_ok s → a ≠ 0 → u ≠ 0 → checkpointAnswers a u s →
  let p := clampPts (st_Pts from) (contiguousEnd u s) in
  ∃ d, GetDifference now a u from sv = (sv, inr d) ∧
    d_Events d = (if decide (p < floor u s) then [] else contig p (take sliceLimit (after p (log u s)))) ∧
    st_Pts (d_State d) = (if decide (p < floor u s) then floor u s else lastPts p (d_Events d)) ∧
    d_Partial d = (bool_decide (p < floor u s) || bool_decide (length (d_Events d) = sliceLimit)).
Proof.
  intros Hs Hok Ha Hu Hck p. destruct (log_ordered u s Hok) as [Hfl HO].
  assert (Hwm : floor u s ≤ contiguousEnd u s).
  { apply Chain_le, contig_Chain. intros e He. by destruct (Ordered_start _ _ _ HO He). }
  set (wm := contiguousEnd u s) in *.
  assert (Hcur : currentState now u sv = (sv, inr (mkState wm 0 now 0))).
  { unfold currentState, currentPts, mbind, M_bind, askEvents. by rewrite Hs, log_contiguous. }
  assert (Hp : st_Pts (clampDifferenceState from (mkState wm 0 now 0)) = p)
    by (rewrite clamp_Pts by (simpl; lia); done).
  assert (Hp0 : 0 ≤ p ≤ wm) by (unfold p, clampPts; lia). clearbody p.
  unfold GetDifference. unfold mbind at 1. unfold M_bind. rewrite Hcur. cbv beta iota zeta.
  set (from' := clampDifferenceState from _) in *. unfold mbind at 1. unfold M_bind.
  destruct (checkpoint_ok a u from' (mkState wm 0 now 0) sv s Hs Hok Ha Hu ltac:(lia) Hck)
    as (o & Hr & [[Hge ->]|(Hlt & d & -> & H1 & H2 & H3)]); rewrite Hr; last first.
  { exists d. rewrite Hp in Hlt. rewrite !decide_True by done.
    rewrite bool_decide_eq_true_2 by done. auto. }
  rewrite Hp in Hge |- *. rewrite !(decide_False (P := p < floor u s)) by lia.
  rewrite (bool_decide_eq_false_2 (p < floor u s)) by lia. simpl.
  rewrite (bool_decide_eq_false_2 (events sv = None)) by (rewrite Hs; done). simpl.
  assert (Hpre := prefix_after (floor u s) (log u s) p sliceLimit (conj (proj1 Hfl) Hge) HO).
  case_bool_decide as Hle.
  { assert (p = wm) as -> by lia. exists (mkDifference (if bool_decide (st_Date from' ≠ 0) then
      mkState wm 0 (st_Date from') 0 else mkState wm 0 now 0) [] false).
    assert (Hend : contig wm (after wm (log u s)) = []) by (by apply contig_end).
    rewrite contig_take, Hend, take_nil. split_and!; [done|done| |done].
    simpl. rewrite lastPts_nil, decide_False by lia. case_bool_decide; simpl; lia. }
  unfold mbind at 1, M_bind. unfold askEvents. rewrite Hs, log_list by (done || lia).
  change (Z.to_nat getDifferenceLimit) with sliceLimit. fold (after p (log u s)).
  destruct (contiguousPrefixAndGap (take sliceLimit (after p (log u s))) p) as [[c g] x].
  simpl in Hpre. subst c. unfold mbind, M_bind.
  assert (Hsnd : (if bool_decide (contig p (take sliceLimit (after p (log u s))) = []) && bool_decide (p < wm)
      then retainedPrefixCheckpoint a u from' (mkState wm 0 now 0) else mret None) sv
    = (sv, inr None)) by (by destruct (_ && _)).
  rewrite Hsnd. eexists. split; [done|]. simpl. split; [done|]. split.
  - rewrite (decide_False (P := p < floor u s)) by lia. by apply lastPts_or.
  - apply bool_decide_ext. unfold getDifferenceLimit, sliceLimit. lia.
Qed.
(** The same for a log without holes. *)
Lemma log_chain u s : log_ok s → 0 ≤ floor u s ≤ i64_max ∧ Chain (floor u s) (log u s).
Proof. intros Hok. split; [by apply log_ordered, log_reads|by apply log_gapfree]. Qed.
Lemma contiguousEnd_watermark u s : log_ok s → contiguousEnd u s = watermark u s.
Proof. intros Hok. unfold contiguousEnd, watermark. by rewrite contig_all by (by apply log_gapfree). Qed.
Lemma GetDifference_ok now a u from sv s :
  events sv = Some s → log_ok s → a ≠ 0 → u ≠ 0 → checkpointAnswers a u s →
  let p := clampPts (st_Pts from) (watermark u s) in
  ∃ d, GetDifference now a u from sv = (sv, inr d) ∧
    d_Events d = diffEvents (floor u s) p (log u s) ∧
    st_Pts (d_State d) = (if decide (p < floor u s) then floor u s else lastPts p (d_Events d)) ∧
    d_Partial d = (bool_decide (p < floor u s) || bool_decide (length (d_Events d) = sliceLimit)).
Proof.
  intros Hs Hok Ha Hu Hck. pose proof (GetDifference_reads now a u from sv s Hs (log_reads s Hok) Ha Hu Hck) as H. rewrite contiguousEnd_watermark in H by done.
  cbv zeta in *. destruct H as (d & Hd & Hev & H). exists d. split_and!; [done| |apply H|apply H]. rewrite Hev. unfold diffEvents. case_decide; [done|].
  by apply contig_after, log_gapfree.
Qed.

(** ** Slices of the log *)

Lemma filter_le_app from lg p n :
  Chain from lg → boundary from p lg →
  let es := take n (after p lg) in
  filter (λ e, e_Pts e ≤ lastPts p es) lg = filter (λ e, e_Pts e ≤ p) lg ++ es.
Proof.
  intros HC Hb es. pose proof (after_Chain _ _ _ HC Hb) as HCa.
  assert (HCt : Chain p es) by by apply Chain_take. pose proof (Chain_le _ _ HCt).
  assert (H1 : filter (λ e, e_Pts e ≤ lastPts p es) (filter (λ e, e_Pts e ≤ p) lg) = filter (λ e, e_Pts e ≤ p) lg).
  { apply list_filter_id. intros e [Hle _]%list_elem_of_filter. lia. }
  assert (H2 : filter (λ e, e_Pts e ≤ lastPts p es) es = es).
  { apply list_filter_id. intros e Hin. by apply (Chain_lt _ _ _ HCt). }
  assert (H3 : filter (λ e, e_Pts e ≤ lastPts p es) (drop n (after p lg)) = []).
  { apply list_filter_nil. intros e Hin. rewrite <-(take_drop n (after p lg)) in HCa.
    apply Chain_app in HCa as [_ HCd]. apply Z.lt_nge. by apply (Chain_lt _ _ _ HCd). }
  assert (Hlg : lg = filter (λ e, e_Pts e ≤ p) lg ++ es ++ drop n (after p lg)).
  { unfold es. rewrite take_drop. by apply Chain_filter_split with from. }
  rewrite Hlg at 1. by rewrite !filter_app, H1, H2, H3, app_nil_r.
Qed.
Lemma boundary_slice from lg p n :
  Chain from lg → boundary from p lg → boundary from (lastPts p (take n (after p lg))) lg.
Proof.
  intros HC Hb. unfold boundary. rewrite (filter_le_app from lg p n HC Hb).
  destruct (take n (after p lg)) as [|e es] using rev_ind; [by rewrite app_nil_r|].
  by rewrite app_assoc, !lastPts_snoc.
Qed.
Lemma after_slice from lg p n :
  Chain from lg → boundary from p lg →
  after (lastPts p (take n (after p lg))) lg = drop n (after p lg).
Proof.
  intros HC Hb. apply (app_inv_head (filter (λ e, e_Pts e ≤ lastPts p (take n (after p lg))) lg)).
  rewrite <-(Chain_filter_split from lg _ HC), (filter_le_app from lg p n HC Hb).
  rewrite <-app_assoc, take_drop. by apply Chain_filter_split with from.
Qed.
Lemma lastPts_watermark from lg p : Chain from lg → boundary from p lg → lastPts p (after p lg) = lastPts from lg.
Proof.
  intros HC Hb. rewrite (Chain_filter_split from lg p HC) at 2.
  destruct (after p lg) as [|e es] using rev_ind; [by rewrite app_nil_r|].
  by rewrite app_assoc, !lastPts_snoc.
Qed.
Lemma boundary_snoc from lg p e : boundary from p lg → p < e_Pts e → boundary from p (lg ++ [e]).
Proof.
  intros Hb Hlt. unfold boundary. rewrite filter_app, (list_filter_nil _ [e]); [by rewrite app_nil_r|].
  intros e' ->%list_elem_of_singleton. lia.
Qed.

(** A slice is the part of the log between its two cursors. *)
Lemma slice_between from lg p n :
  Chain from lg → boundary from p lg →
  take n (after p lg) = filter (λ e, p < e_Pts e ≤ lastPts p (take n (after p lg))) lg.
Proof.
  intros HC Hb. rewrite <-list_filter_filter, (filter_le_app from lg p n HC Hb), filter_app.
  rewrite list_filter_nil by (intros e [? _]%list_elem_of_filter; lia).
  rewrite list_filter_id; [done|].
  intros e Hin%elem_of_take%list_elem_of_filter. apply Hin.
Qed.
Lemma slice_le from lg p n :
  Chain from lg → boundary from p lg → p ≤ lastPts p (take n (after p lg)) ≤ lastPts from lg.
Proof.
  intros HC Hb. pose proof (after_Chain _ _ _ HC Hb) as HCa.
  rewrite <-(lastPts_watermark from lg p HC Hb).
  split; [by apply Chain_le, Chain_take|].
  rewrite <-(take_drop n (after p lg)) in HCa. apply Chain_app in HCa as [_ HCd].
  apply Chain_le in HCd. rewrite <-(take_drop n (after p lg)) at 2.
  destruct (drop n (after p lg)) as [|e es _] using rev_ind; [by rewrite app_nil_r|].
  rewrite app_assoc, lastPts_snoc. by rewrite lastPts_snoc in HCd.
Qed.
(** A slice that does not reach the limit is the rest of the log. *)
Lemma slice_progress from lg p n :
  Chain from lg → boundary from p lg → p < lastPts from lg → (0 < n)%nat →
  p < lastPts p (take n (after p lg)).
Proof.
  intros HC Hb Hlt Hn. rewrite <-(lastPts_watermark from lg p HC Hb) in Hlt.
  destruct n as [|n]; [lia|]. pose proof (after_Chain _ _ _ HC Hb) as HCa.
  destruct (after p lg) as [|e es]; [rewrite lastPts_nil in Hlt; lia|].
  simpl. apply (Chain_take _ _ (Datatypes.S n)) in HCa. simpl in HCa. destruct HCa as (Hpts & _ & HCe).
  rewrite lastPts_cons. apply Chain_le in HCe. pose proof (normalCount_pos (e_PtsCount e)). lia.
Qed.

(** ** Recording *)

(** The event [recordEventCore] hands to the store. *)
Definition prepared (now u : Z) e : event :=
  with_Date (orElse (e_Date e) now)
    (with_UserID u (if bool_decide (e_PtsCount e = 0) then with_PtsCount 1 e else e)).

Lemma prepared_count now u e : normalCount (e_PtsCount (prepared now u e)) = normalCount (e_PtsCount e).
Proof. unfold prepared, normalCount. simpl. repeat case_bool_decide; simpl in *; lia. Qed.

Definition recorded (now u : Z) e s : event :=
  allocated u (watermark u s + normalCount (e_PtsCount e)) (prepared now u e).

(** An append for [u] with no state to save. *)
Lemma recordEventCore_ok now sa ea u e dispatch xs sv s :
  events sv = Some s → log_ok s → watermark u s + normalCount (e_PtsCount e) ≤ i64_max →
  (dispatch = true → (ea = 0 ↔ xs = 0)) →
  ∃ s', recordEventCore now sa ea u e dispatch xs false sv =
      (mkService (states sv) (Some s'),
       inr (recorded now u e s, mkState (e_Pts (recorded now u e s)) 0 (orElse (e_Date e) now) 0)) ∧
    log_ok s' ∧ log u s' = log u s ++ [recorded now u e s] ∧ floor u s' = floor u s ∧
    ∀ u', u' ≠ u → log u' s' = log u' s ∧ floor u' s' = floor u' s.
Proof.
  intros Hs Hok Hmax Hex. rewrite <-(prepared_count now u e) in Hmax.
  assert (Happ : ∀ f, (dispatch = true ∧ es_AppendAllocatedWithDispatch = Some f) →
    appends u (prepared now u e) s (f u (prepared now u e) ea xs s)).
  { intros f [Hd Hf]. apply log_append_dispatch; auto. }
  pose proof (log_append u (prepared now u e) s Hok Hmax) as Happ0.
  unfold recordEventCore, mbind, M_bind. rewrite Hs. unfold onEvents. rewrite Hs.
  unfold recorded. rewrite <-(prepared_count now u e).
  match goal with |- context [(if dispatch then ?x else ?y) s] =>
    assert (Hr : appends u (prepared now u e) s ((if dispatch then x else y) s)) end.
  { destruct dispatch; [|exact Happ0].
    destruct es_AppendAllocatedWithDispatch as [f|]; [by apply Happ|exact Happ0]. }
  destruct Hr as (s' & -> & ? & ? & ? & ?). exists s'. split; [|done]. simpl. done.
Qed.

(** Saving the confirmed state comes after the append and does not touch the log. *)
Lemma recordEventCore_save now sa ea u e dispatch xs sv :
  recordEventCore now sa ea u e dispatch xs true sv =
  match recordEventCore now sa ea u e dispatch xs false sv with
  | (sv', inl err) => (sv', inl err)
  | (sv', inr (e', st)) =>
    match onStates (ss_Save sa u st) sv' with
    | (sv', inl err) => (sv', inl err)
    | (sv', inr _) => (sv', inr (e', st))
    end
  end.
Proof.
  unfold recordEventCore, mbind, M_bind. by destruct (match events sv with Some _ => _ | None => _ end) as [sv' [err|e']].
Qed.
Lemma onStates_events f sv : events (onStates f sv).1 = events sv.
Proof. unfold onStates. destruct (states sv); [|done]. by destruct (f _). Qed.

(** The effect of recording on the logs, whether or not the state is saved. *)
Lemma recordEventCore_log now sa ea u e dispatch xs save sv s :
  events sv = Some s → log_ok s → watermark u s + normalCount (e_PtsCount e) ≤ i64_max →
  (dispatch = true → (ea = 0 ↔ xs = 0)) →
  ∃ s', events (recordEventCore now sa ea u e dispatch xs save sv).1 = Some s' ∧ log_ok s' ∧
    log u s' = log u s ++ [recorded now u e s] ∧ floor u s' = floor u s ∧
    ∀ u', u' ≠ u → log u' s' = log u' s ∧ floor u' s' = floor u' s.
Proof.
  intros Hs Hok Hmax Hex.
  destruct (recordEventCore_ok now sa ea u e dispatch xs sv s Hs Hok Hmax Hex) as (s' & Heq & Hrest).
  exists s'. split; [|exact Hrest]. destruct save; [|by rewrite Heq].
  rewrite recordEventCore_save, Heq.
  set (sv' := mkService _ _). pose proof (onStates_events (ss_Save sa u
    (mkState (e_Pts (recorded now u e s)) 0 (orElse (e_Date e) now) 0)) sv') as Hev.
  by destruct (onStates _ sv') as [sv'' [err|]].
Qed.
End log.
