(* ===== verification/UpdateProps.v ===== *)
(** * Account updates: the in-memory instances and the properties *)

From stdpp Require Import sorting.
From S2P Require Import Prelude UpdateTypes UpdateStore UpdateService UpdateRecord UpdateLog.
Import MemoryEvents UpdateService.

(** ** The in-memory stores implement the interfaces *)

Section instances.
Context {Blob : Type}.

#[export] Instance memory_events : UpdateEventStore Blob (@MemoryEvents.t Blob) := {
  es_AppendAllocated := AppendAllocated;
  es_ListAfter u p limit s := inr (ListAfter u p limit s);
  es_MaxContiguousPts u s := match MaxContiguousPts u s with Some p => inr p | None => inl ErrOutOfFuel end;
  es_AppendAllocatedWithDispatch := Some AppendAllocatedWithDispatch;
  es_FindNewMessageEvent := Some (λ u id s, inr (FindNewMessageEvent u id s));
  es_UserUpdateRetentionCheckpoint := None;
}.

#[export] Instance memory_states : UpdateStateStore MemoryStates.t := {
  ss_Get id u s := inr (MemoryStates.Get id u s);
  ss_Save id u st s := (MemoryStates.Save id u st s, None);
  ss_CommitDeliveredState := MemoryStates.CommitDeliveredState;
  ss_ObserveClientState id u st s := (MemoryStates.ObserveClientState id u st s, None);
  ss_DeleteAuthKey id s := (MemoryStates.DeleteAuthKey id s, None);
}.

Lemma append_spec (u : Z) (e : UpdateEvent Blob) (d : bool) (a x : Z) (s : @MemoryEvents.t Blob) :
  (∀ u, Chain 0 (eventsOf s u)) → lastPts 0 (eventsOf s u) + normalCount (e_PtsCount e) ≤ i64_max →
  (a = 0 ↔ x = 0) →
  ∃ s' e', append u e true d a x s = (s', inr e') ∧
    e' = allocated u (lastPts 0 (eventsOf s u) + normalCount (e_PtsCount e)) e ∧
    (∀ u, Chain 0 (eventsOf s' u)) ∧ eventsOf s' u = eventsOf s u ++ [e'] ∧
    ∀ u', u' ≠ u → eventsOf s' u' = eventsOf s u'.
Proof.
  intros HC Hmax Hx. destruct (appendLocked_allocated u e s (HC u) Hmax) as [He HC'].
  unfold append. rewrite (bool_decide_eq_true_2 (_ ↔ _)) by done. rewrite andb_false_r.
  pose proof (eventsOf_appendLocked u e true s) as Hev.
  destruct (appendLocked u e true s) as [s1 e1]. simpl in *. subst e1.
  eexists _, _. split; [done|]. split; [done|].
  assert (Heq : ∀ u', eventsOf (if d then
      mkStore (MemoryEvents.events s1)
        (<[u := dispatchesOf s1 u ++ [mkDispatch (e_Pts (allocated u (lastPts 0 (eventsOf s u)
          + normalCount (e_PtsCount e)) e)) a x]]> (dispatches s1)) else s1) u' = eventsOf s1 u')
    by (by destruct d).
  split; [|split].
  - intros u'. rewrite Heq, Hev. case_decide; [done|apply HC].
  - by rewrite Heq, Hev, decide_True.
  - intros u' Hne. by rewrite Heq, Hev, decide_False.
Qed.

#[export] Program Instance memory_reads : UpdateEventReads Blob (@MemoryEvents.t Blob) := {
  read_ok s := ∀ u, Ordered 0 (eventsOf s u);
  log u s := eventsOf s u;
  floor _ _ := 0;
}.
Next Obligation. intros u s Hok. split; [unfold i64_max; lia|apply Hok]. Qed.
Next Obligation. intros u s Hok. simpl. by rewrite MaxContiguousPts_contig. Qed.
Next Obligation. intros u p limit s _ Hl. simpl. by rewrite ListAfter_spec. Qed.
Next Obligation. done. Qed.
Next Obligation. done. Qed.

#[export] Program Instance memory_log : UpdateEventLog Blob (@MemoryEvents.t Blob) := {
  log_ok s := ∀ u, Chain 0 (eventsOf s u);
}.
Next Obligation. intros s Hok u. apply Ordered_Chain, Hok. Qed.
Next Obligation. intros u s Hok. exact (Hok u). Qed.
Next Obligation.
  intros u e s Hok Hmax. simpl in *.
  destruct (append_spec u e false 0 0 s Hok Hmax) as (s' & e' & Heq & -> & ? & ? & ?); [done|].
  exists s'. split; [exact Heq|]. split_and!; auto.
Qed.
Next Obligation.
  intros f u e a x s [= <-] Hok Hmax Hx. simpl in *.
  destruct (append_spec u e true a x s Hok Hmax) as (s' & e' & Heq & -> & ? & ? & ?); [done|].
  exists s'. split; [exact Heq|]. split_and!; auto.
Qed.

Definition pts_le (a b : UpdateEvent Blob) : Prop := e_Pts a ≤ e_Pts b.
#[export] Instance pts_le_dec : RelDecision pts_le.
Proof. intros a b. unfold pts_le. apply _. Defined.
#[export] Program Instance mergeSortByPts : SortByPts Blob := {
  sortByPts := merge_sort pts_le;
}.
Next Obligation. intros es. apply merge_sort_Permutation. Qed.
Next Obligation.
  intros es. apply StronglySorted_merge_sort.
  - intros x y z. unfold pts_le. lia.
  - intros x y. unfold pts_le. lia.
Qed.
End instances.

(** ** Differences, over any store that keeps the contract *)

Section difference.
Context {Blob S T : Type} `{InhB : Inhabited Blob}.
Context `{EL : UpdateEventLog Blob S} `{SS : UpdateStateStore T} `{SB : SortByPts Blob}.
Abbreviation event := (UpdateEvent Blob).
Abbreviation service := (Service S T).
Implicit Types (e : event) (lg : list event) (s : S) (sv : service).

(** The gap-free part of the log that a request may reach. *)
Lemma contig_reach u s p n :
  read_ok s → p ≤ contiguousEnd u s →
  let es := contig p (take n (after p (log u s))) in
  Chain p es ∧ es = filter (λ e, p < e_Pts e ≤ lastPts p es) (log u s) ∧ p ≤ lastPts p es ≤ contiguousEnd u s.
Proof.
  intros Hok Hp es. destruct (log_ordered u s Hok) as [_ HO].
  assert (Hin : ∀ e, e ∈ take n (after p (log u s)) → e ∈ log u s) by (by intros e [? _]%elem_of_take%after_in).
  assert (HC : Chain p es) by (apply contig_Chain; intros e He; destruct (Ordered_start _ _ _ HO (Hin e He)); lia).
  split_and!; [done| |by apply Chain_le|by apply contig_le].
  apply (prefix_between (floor u s)); [done|]. etransitivity; [apply contig_prefix|apply prefix_take].
Qed.

(** C34: [updates.getDifference] never skips an event, on any log in pts order,
    with or without holes.  Whatever cursor the client sends, the answer
    carries, in order, exactly the retained events between the cursor it is
    answered for (the client's, brought between 0 and the end of the gap-free
    part of the log) and the cursor handed back, which never goes backwards
    and never beyond that end.  From a cursor in the dropped prefix it carries
    nothing and hands back the retained floor, to be asked again.  Otherwise
    its events follow the cursor without a gap, each starting where the one
    before it ends; it is marked partial when there are 100 of them, and when
    it is not, no event of the log starts where it stops: nothing is held back
    but what lies behind a hole. *)
Theorem getDifference_never_skips now a u from sv s :
  events sv = Some s → read_ok s → a ≠ 0 → u ≠ 0 → checkpointAnswers a u s →
  ∃ d, GetDifference now a u from sv = (sv, inr d) ∧
    let p := clampPts (st_Pts from) (contiguousEnd u s) in
    let q := st_Pts (d_State d) in
    d_Events d = filter (λ e, p < e_Pts e ≤ q) (log u s) ∧
    p ≤ q ≤ contiguousEnd u s ∧
    if decide (p < floor u s) then d_Events d = [] ∧ q = floor u s ∧ d_Partial d = true
    else Chain p (d_Events d) ∧ q = lastPts p (d_Events d) ∧ (length (d_Events d) ≤ 100)%nat ∧
      d_Partial d = bool_decide (length (d_Events d) = 100%nat) ∧
      (d_Partial d = false → ∀ e, e ∈ log u s → startPts e ≠ q).
Proof.
  intros Hs Hok Ha Hu Hck.
  destruct (GetDifference_reads now a u from sv s Hs Hok Ha Hu Hck) as (d & Hd & Hev & Hpts & Hpart).
  exists d. split; [done|]. cbv zeta. destruct (log_ordered u s Hok) as [Hfl HO].
  assert (Hwm : floor u s ≤ contiguousEnd u s).
  { apply Chain_le, contig_Chain. intros e He. by destruct (Ordered_start _ _ _ HO He). }
  assert (Hp : clampPts (st_Pts from) (contiguousEnd u s) ≤ contiguousEnd u s) by (unfold clampPts; lia).
  set (p := clampPts _ _) in *. clearbody p.
  destruct (decide (p < floor u s)) as [Hlt|Hge].
  { rewrite bool_decide_eq_true_2 in Hpart by done. rewrite Hev, Hpts. split; [|by split; [lia|]]. symmetry. apply list_filter_nil.
    intros e Hin. destruct (Ordered_start _ _ _ HO Hin). pose proof (startPts_lt e). lia. }
  rewrite bool_decide_eq_false_2 in Hpart by done. destruct (contig_reach u s p sliceLimit Hok Hp) as (HC & Hbt & Hle).
  rewrite <-Hev in *. rewrite Hpts. split; [done|]. split; [done|]. split; [done|]. split; [done|].
  rewrite contig_take in Hev. assert (Hlen := f_equal length Hev). rewrite length_take in Hlen. unfold sliceLimit in *.
  split; [lia|]. split; [done|]. rewrite Hpart. simpl. intros Hf%bool_decide_eq_false e Hin.
  rewrite take_ge in Hev by lia. rewrite Hev. by apply (contig_stop (floor u s)).
Qed.

(** [updates.getDifference] makes progress: from a cursor below the
    watermark that is the end of an event (or lies in the dropped prefix) the
    answer moves the cursor forward, by a full slice or to the watermark. *)
Theorem getDifference_progress now a u from sv s :
  events sv = Some s → log_ok s → a ≠ 0 → u ≠ 0 → checkpointAnswers a u s →
  0 ≤ st_Pts from < watermark u s →
  st_Pts from < floor u s ∨ boundary (floor u s) (st_Pts from) (log u s) →
  ∃ d, GetDifference now a u from sv = (sv, inr d) ∧ st_Pts from < st_Pts (d_State d) ∧
    (d_Partial d = false → st_Pts (d_State d) = watermark u s).
Proof.
  intros Hs Hok Ha Hu Hck Hp Hcur.
  destruct (GetDifference_ok now a u from sv s Hs Hok Ha Hu Hck) as (d & Hd & Hev & Hpts & Hpart).
  destruct (log_chain u s Hok) as [Hfl HC].
  assert (Hcl : clampPts (st_Pts from) (watermark u s) = st_Pts from) by (unfold clampPts; lia).
  rewrite Hcl in Hev, Hpts, Hpart.
  exists d. split; [done|]. unfold diffEvents in Hev. destruct (decide (st_Pts from < floor u s)) as [Hlt|Hge].
  { rewrite Hpart, bool_decide_eq_true_2 by done. split; [lia|done]. }
  destruct Hcur as [?|Hb]; [lia|]. rewrite decide_True in Hev by done.
  rewrite Hpts, Hpart, Hev. split; [apply (slice_progress (floor u s)); [done|done|apply Hp|unfold sliceLimit; lia]|].
  intros [_ Hne%bool_decide_eq_false]%orb_false_iff. rewrite length_take in Hne.
  rewrite take_ge by lia. by apply (lastPts_watermark (floor u s)).
Qed.

(** *** A client that keeps asking *)

(** The client's loop: ask from the cursor of the last answer until an answer
    is not marked partial.  [None]: the fuel ran out, or an answer failed. *)
Fixpoint catchUp (fuel : nat) (now a u : Z) (cursor : UpdateState) sv (seen : list event)
    : option (list event * UpdateState) :=
  match fuel with
  | O => None
  | Datatypes.S fuel =>
    match GetDifference now a u cursor sv with
    | (_, inl _) => None
    | (sv, inr d) =>
      if d_Partial d then catchUp fuel now a u (d_State d) sv (seen ++ d_Events d)
      else Some (seen ++ d_Events d, d_State d)
    end
  end.

(** The loop from a cursor that retention has not overtaken: it receives the
    gap-free events after the cursor. *)
Lemma catchUp_run now a u cursor sv s seen fuel :
  events sv = Some s → read_ok s → a ≠ 0 → u ≠ 0 → checkpointAnswers a u s →
  let p := clampPts (st_Pts cursor) (contiguousEnd u s) in
  let es := contig p (after p (log u s)) in
  floor u s ≤ p → (length es < fuel * sliceLimit)%nat →
  ∃ st, catchUp fuel now a u cursor sv seen = Some (seen ++ es, st) ∧ st_Pts st = lastPts p es.
Proof.
  intros Hs Hok Ha Hu Hck. cbv zeta. destruct (log_ordered u s Hok) as [Hfl HO]. revert cursor seen.
  induction fuel as [|fuel IH]; intros cursor seen Hp Hfuel; [lia|].
  destruct (GetDifference_reads now a u cursor sv s Hs Hok Ha Hu Hck) as (d & Hd & Hev & Hpts & Hpart). simpl. rewrite Hd.
  assert (Hpe : clampPts (st_Pts cursor) (contiguousEnd u s) ≤ contiguousEnd u s) by (unfold clampPts; lia).
  set (p := clampPts _ _) in *. clearbody p. rewrite decide_False in Hev by lia. rewrite decide_False in Hpts by lia.
  rewrite bool_decide_eq_false_2 in Hpart by lia. simpl in Hpart. rewrite Hpart.
  destruct (contig_reach u s p sliceLimit Hok Hpe) as (_ & _ & Hq). rewrite <-Hev, <-Hpts in Hq.
  rewrite contig_take in Hev. assert (Hlen := f_equal length Hev). rewrite length_take in Hlen.
  case_bool_decide as Hfull; last first.
  { exists (d_State d). by rewrite Hpts, Hev, take_ge by lia. }
  assert (Hcl : clampPts (st_Pts (d_State d)) (contiguousEnd u s) = lastPts p (d_Events d)) by (unfold clampPts; lia).
  destruct (contig_prefix p (after p (log u s))) as [rest Erest].
  assert (Hsplit : after p (log u s) = d_Events d ++ drop sliceLimit (after p (log u s))).
  { rewrite Hev. rewrite Erest at 1 3. rewrite drop_app_le by lia. rewrite app_assoc. by rewrite take_drop. }
  assert (Haft : after (lastPts p (d_Events d)) (log u s) = drop sliceLimit (after p (log u s))) by (by apply (prefix_rest (floor u s))).
  assert (Hrest : contig (lastPts p (d_Events d)) (drop sliceLimit (after p (log u s))) = drop sliceLimit (contig p (after p (log u s))))
    by (rewrite Hev; apply contig_drop; lia).
  destruct (IH (d_State d) (seen ++ d_Events d)) as (st & Hst & Hw); rewrite ?Hcl, ?Haft, ?Hrest in *.
  - lia.
  - rewrite length_drop. unfold sliceLimit in *. lia.
  - exists st. rewrite Hst, Hw, <-app_assoc, Hev, take_drop. split; [done|].
    rewrite <-(take_drop sliceLimit (contig p (after p (log u s)))) at 3.
    destruct (drop sliceLimit (contig p _)) as [|x l _] using rev_ind; [by rewrite app_nil_r|]. by rewrite app_assoc, !lastPts_snoc.
Qed.

(** C35: a device that pages through differences terminates from any cursor
    and on any log in pts order, with or without holes: it needs at most one
    request per full slice of 100 events, one for a cursor in the dropped
    prefix and one more.  It has then received exactly once, in order and
    without a gap, the retained events from its cursor (brought into the
    retained, gap-free part of the log) up to the cursor it then holds, where
    no event of the log starts.  If the cursor was the end of an event, or the
    floor, the device then holds the end of the gap-free part; and if besides
    the log has no hole, it has received every later event. *)
Theorem catchUp_complete now a u cursor sv s seen fuel :
  events sv = Some s → read_ok s → a ≠ 0 → u ≠ 0 → checkpointAnswers a u s →
  let p := Z.max (floor u s) (clampPts (st_Pts cursor) (contiguousEnd u s)) in
  (length (after p (log u s)) < fuel * sliceLimit)%nat →
  ∃ es st, catchUp (Datatypes.S fuel) now a u cursor sv seen = Some (seen ++ es, st) ∧
    es = filter (λ e, p < e_Pts e ≤ st_Pts st) (log u s) ∧
    Chain p es ∧ st_Pts st = lastPts p es ∧
    (∀ e, e ∈ log u s → startPts e ≠ st_Pts st) ∧
    (boundary (floor u s) p (log u s) → st_Pts st = contiguousEnd u s) ∧
    (boundary (floor u s) p (log u s) → Chain (floor u s) (log u s) → es = after p (log u s)).
Proof.
  intros Hs Hok Ha Hu Hck p Hfuel. destruct (log_ordered u s Hok) as [Hfl HO].
  assert (Hwm : floor u s ≤ contiguousEnd u s).
  { apply Chain_le, contig_Chain. intros e He. by destruct (Ordered_start _ _ _ HO He). }
  assert (Hpe : floor u s ≤ p ≤ contiguousEnd u s) by (unfold p, clampPts; lia).
  set (es := contig p (after p (log u s))).
  assert (Hlen : (length es < fuel * sliceLimit)%nat) by (pose proof (prefix_length _ _ (contig_prefix p (after p (log u s)))); fold es in H; lia).
  assert (Hrun : ∃ st, catchUp (Datatypes.S fuel) now a u cursor sv seen = Some (seen ++ es, st) ∧ st_Pts st = lastPts p es).
  { destruct (decide (clampPts (st_Pts cursor) (contiguousEnd u s) < floor u s)) as [Hlt|Hge].
    - destruct (GetDifference_reads now a u cursor sv s Hs Hok Ha Hu Hck) as (d & Hd & Hev & Hpts & Hpart).
      rewrite decide_True in Hev by done. rewrite decide_True in Hpts by done. rewrite bool_decide_eq_true_2 in Hpart by done.
      simpl. rewrite Hd, Hpart, Hev, app_nil_r. simpl.
      assert (Hc : clampPts (st_Pts (d_State d)) (contiguousEnd u s) = p) by (unfold p, clampPts in *; lia).
      unfold es. rewrite <-Hc. apply catchUp_run; rewrite ?Hc; auto; lia.
    - assert (Hc : clampPts (st_Pts cursor) (contiguousEnd u s) = p) by (unfold p; lia).
      unfold es. rewrite <-Hc. apply catchUp_run; rewrite ?Hc; fold es; auto; lia. }
  destruct Hrun as (st & Hrun & Hst). exists es, st. rewrite Hst. split; [done|].
  destruct (contig_reach u s p (length (after p (log u s))) Hok ltac:(lia)) as (HC & Hbt & _). rewrite firstn_all in HC, Hbt. fold es in HC, Hbt.
  split_and!; [done|done|done|by intros e; apply (contig_stop (floor u s))| |].
  - intros Hb. pose proof (filter_split _ _ p HO) as Hlg. unfold boundary in Hb.
    assert (Hcl : contig (floor u s) (log u s) = filter (λ e, e_Pts e ≤ p) (log u s) ++ es).
    { pose proof (contig_app (floor u s) (filter (λ e, e_Pts e ≤ p) (log u s)) (after p (log u s))) as Happ.
      rewrite <-Hlg, Hb in Happ. apply Happ; [done|apply Hpe]. }
    unfold contiguousEnd. rewrite Hcl. destruct es as [|x l _] using rev_ind; [by rewrite app_nil_r, Hb|]. by rewrite app_assoc, !lastPts_snoc.
  - intros Hb HCl. by apply contig_all, (after_Chain (floor u s)).
Qed.

(** *** A device among concurrent writers *)

Record world := mkWorld { w_sv : service; w_cursor : UpdateState; w_seen : list event }.

(** Any account records an event (with room in the pts space), or the device
    with auth key [a] of user [u] asks for a difference from its cursor. *)
Inductive wstep (a u : Z) : world → world → Prop :=
| WRecord now sa ea u' e dispatch xs save sv s cursor seen :
    events sv = Some s → watermark u' s + normalCount (e_PtsCount e) ≤ i64_max →
    (dispatch = true → (ea = 0 ↔ xs = 0)) →
    wstep a u (mkWorld sv cursor seen)
      (mkWorld (recordEventCore now sa ea u' e dispatch xs save sv).1 cursor seen)
| WDifference now sv sv' d cursor seen :
    GetDifference now a u cursor sv = (sv', inr d) →
    wstep a u (mkWorld sv cursor seen) (mkWorld sv' (d_State d) (seen ++ d_Events d)).

Record DeviceInv (u : Z) (w : world) : Prop := {
  di_log : ∃ s, events (w_sv w) = Some s ∧ log_ok s ∧ floor u s = 0 ∧
    0 ≤ st_Pts (w_cursor w) ≤ watermark u s ∧ boundary 0 (st_Pts (w_cursor w)) (log u s) ∧
    w_seen w = filter (λ e, e_Pts e ≤ st_Pts (w_cursor w)) (log u s);
}.

Lemma filter_le_snoc p lg e : p < e_Pts e → filter (λ e, e_Pts e ≤ p) (lg ++ [e]) = filter (λ e, e_Pts e ≤ p) lg.
Proof.
  intros Hlt. rewrite filter_app, (list_filter_nil _ [e]); [by rewrite app_nil_r|].
  intros e' ->%list_elem_of_singleton. lia.
Qed.

Lemma wstep_inv a u w w' :
  a ≠ 0 → u ≠ 0 → es_UserUpdateRetentionCheckpoint (S := S) = None →
  wstep a u w w' → DeviceInv u w → DeviceInv u w'.
Proof.
  intros Ha Hu Hnr [now sa ea u' e dispatch xs save sv s cursor seen Hs Hmax Hex|now sv sv' d cursor seen Hd]
    [(s0 & Hs0 & Hok & Hfl & Hp & Hb & Hseen)]; simpl in *; split; simpl.
  - rewrite Hs in Hs0. injection Hs0 as <-.
    destruct (recordEventCore_log now sa ea u' e dispatch xs save sv s Hs Hok Hmax Hex)
      as (s' & Hs' & Hok' & Hlog & Hfl' & Hoth). exists s'. split; [done|]. split; [done|].
    destruct (decide (u = u')) as [<-|Hne]; last first.
    { destruct (Hoth u Hne) as [Hl Hf]. unfold watermark in *. by rewrite Hl, Hf. }
    assert (Hlt : watermark u s < e_Pts (recorded now u e s)).
    { unfold recorded, allocated. simpl. pose proof (normalCount_pos (e_PtsCount e)). lia. }
    unfold watermark at 1. rewrite Hlog, Hfl', lastPts_snoc, filter_le_snoc by lia.
    split_and!; [done|lia|lia|apply boundary_snoc; [done|lia]|done].
  - exists s0. destruct (GetDifference_ok now a u cursor sv s0 Hs0 Hok Ha Hu) as (d' & Hd' & Hev & Hpts & _);
      [intros f; congruence|]. rewrite Hd in Hd'. injection Hd' as -> <-.
    destruct (log_chain u s0 Hok) as [_ HC]. rewrite Hfl in *.
    assert (Hcl : clampPts (st_Pts cursor) (watermark u s0) = st_Pts cursor) by (unfold clampPts; lia).
    rewrite Hcl in Hev, Hpts. rewrite decide_False in Hpts by lia.
    unfold diffEvents in Hev. rewrite decide_False in Hev by lia. rewrite decide_True in Hev by done.
    rewrite Hpts, Hev. destruct (slice_le 0 (log u s0) (st_Pts cursor) sliceLimit HC Hb) as [H1 H2].
    split_and!; [done|done|done|lia|unfold watermark; rewrite Hfl; lia|by apply boundary_slice|].
    rewrite Hseen. by rewrite (filter_le_app 0).
Qed.

(** A device that starts from pts 0 and only asks for differences, while
    any accounts record events in any interleaving, has at every moment
    received exactly the events of its account up to its cursor, in order: no
    event is lost, repeated or reordered. *)
Theorem device_sees_prefix a u w w' s :
  a ≠ 0 → u ≠ 0 → es_UserUpdateRetentionCheckpoint (S := S) = None →
  events (w_sv w) = Some s → log_ok s → st_Pts (w_cursor w) = 0 → w_seen w = [] →
  rtc (wstep a u) w w' →
  ∃ s', events (w_sv w') = Some s' ∧
    w_seen w' = filter (λ e, e_Pts e ≤ st_Pts (w_cursor w')) (log u s') ∧
    0 ≤ st_Pts (w_cursor w') ≤ watermark u s'.
Proof.
  intros Ha Hu Hnr Hs Hok Hc Hseen Hrtc.
  assert (HI : DeviceInv u w).
  { pose proof (log_no_retention u s Hnr) as Hfl. destruct (log_chain u s Hok) as [_ HC].
    pose proof (Chain_le _ _ HC). rewrite Hfl in *. split. exists s. rewrite Hc, Hseen.
    assert (Hnil : filter (λ e, e_Pts e ≤ 0) (log u s) = []).
    { apply list_filter_nil. intros e Hin. pose proof (Chain_lt _ _ _ HC Hin). lia. }
    unfold boundary, watermark. rewrite Hnil, Hfl, lastPts_nil. split_and!; done || lia. }
  enough (HI' : DeviceInv u w') by (destruct HI' as [(s' & ? & _ & _ & ? & _ & ?)]; eauto).
  revert HI. clear Hs Hc Hseen Hok. induction Hrtc as [|w1 w2 w3 Hst _ IH]; intros HI; [done|].
  apply IH. by apply (wstep_inv a u w1).
Qed.
End difference.

(** ** The service over the in-memory stores *)

Section memory_service.
Context {Blob : Type} `{InhB : Inhabited Blob}.
Abbreviation event := (UpdateEvent Blob).
Abbreviation store := (@MemoryEvents.t Blob).
Abbreviation service := (Service store MemoryStates.t).
Implicit Types (e : event) (s : store) (ss : MemoryStates.t).

(** The logs of all accounts are gap-free from pts 1. *)
Definition contiguousLogs s : Prop := ∀ u, Chain 0 (eventsOf s u).
(** The account's watermark. *)
Definition endPts (u : Z) s : Z := lastPts 0 (eventsOf s u).

(** C36: recording with online dispatch allocates the next pts of the account:
    the event is stored once, at the end of the account's log, ending
    [PtsCount] after the previous watermark; the logs stay gap-free; other
    accounts are untouched; a dispatch row with the same pts and the excluded
    device is queued; and the recording device's confirmed cursor reaches the
    event while no other device's moves. *)
Theorem recordEvent_allocates now sa ea u e xs ss s :
  contiguousLogs s → endPts u s + normalCount (e_PtsCount e) ≤ i64_max → (ea = 0 ↔ xs = 0) →
  ∃ s' ss' e' st,
    recordEvent now sa ea u e true xs (mkService (Some ss) (Some s)) =
      (mkService (Some ss') (Some s'), inr (e', st)) ∧
    e_Pts e' = endPts u s + normalCount (e_PtsCount e) ∧ e_UserID e' = u ∧ e_Type e' = e_Type e ∧
    contiguousLogs s' ∧ eventsOf s' u = eventsOf s u ++ [e'] ∧
    (∀ u', u' ≠ u → eventsOf s' u' = eventsOf s u') ∧
    dispatchesOf s' u = dispatchesOf s u ++ [mkDispatch (e_Pts e') ea xs] ∧
    e_Pts e' ≤ st_Pts (MemoryStates.confirmedOf sa u ss') ∧
    (∀ k, k ≠ (sa, u) → MemoryStates.states ss' !! k = MemoryStates.states ss !! k) ∧
    MemoryStates.observed ss' = MemoryStates.observed ss.
Proof.
  intros HC Hmax Hx. set (p := prepared now u e).
  assert (Hcount : normalCount (e_PtsCount p) = normalCount (e_PtsCount e)) by apply prepared_count.
  rewrite <-Hcount in Hmax |- *.
  destruct (append_spec u p true ea xs s HC Hmax Hx) as (s' & e' & Happ & He' & HC' & Hlog & Hoth).
  assert (Hd : dispatchesOf s' u = dispatchesOf s u ++ [mkDispatch (e_Pts e') ea xs]).
  { unfold append in Happ. destruct (_ && _); [done|]. injection Happ as <- <-.
    unfold dispatchesOf. simpl. by rewrite lookup_insert_eq. }
  unfold recordEvent. rewrite recordEventCore_save.
  set (st := mkState (e_Pts e') 0 (orElse (e_Date e) now) 0).
  assert (Hcore : recordEventCore now sa ea u e true xs false (mkService (Some ss) (Some s)) =
    (mkService (Some ss) (Some s'), inr (e', st))).
  { transitivity (match append u p true true ea xs s with
      | (s1, inl err) => (mkService (Some ss) (Some s1), inl err)
      | (s1, inr e1) =>
        (mkService (Some ss) (Some s1), inr (e1, mkState (e_Pts e1) 0 (orElse (e_Date e) now) 0))
      end); [|by rewrite Happ].
    unfold recordEventCore, mbind, M_bind, onEvents. simpl. fold p.
    unfold AppendAllocatedWithDispatch. by destruct (append _ _ _ _ _ _ _) as [s1 [err|e1]]. }
  rewrite Hcore. cbn [onStates states ss_Save memory_states].
  eexists s', _, e', st. split; [done|]. rewrite MemoryStates.Save_advance. simpl.
  split_and!; [by rewrite He'|by rewrite He'| |done|done|done|done| | |done].
  - rewrite He'. unfold p, prepared. simpl. by case_bool_decide.
  - unfold MemoryStates.confirmedOf, MemoryStates.Get. simpl. unfold MemoryStates.advance.
    rewrite lookup_insert_eq. apply (MemoryStates.monotonic_le_r _ st).
  - intros k Hk. unfold MemoryStates.advance. by rewrite lookup_insert_ne.
Qed.

(** An exclusion that names a device without a session, or a session
    without a device, is refused and nothing is written. *)
Theorem recordEvent_bad_exclusion now sa ea u e xs ss s :
  ¬ (ea = 0 ↔ xs = 0) →
  recordEvent now sa ea u e true xs (mkService (Some ss) (Some s)) =
    (mkService (Some ss) (Some s), inl ErrDispatchExclusion).
Proof.
  intros Hx. unfold recordEvent. rewrite recordEventCore_save.
  unfold recordEventCore, mbind, M_bind, onEvents. cbn [events es_AppendAllocatedWithDispatch memory_events].
  unfold AppendAllocatedWithDispatch, append. by rewrite bool_decide_eq_false_2.
Qed.

(** The watermark scan of the in-memory store terminates on any log
    whose events do not underflow, also with holes, duplicates and out of
    order, and returns a pts that is reached from 0 through stored events and
    that no stored event continues. *)
Theorem MaxContiguousPts_correct u s :
  (∀ e, e ∈ eventsOf s u → i64_min ≤ e_Pts e - normalCount (e_PtsCount e) ∧ e_Pts e ≤ i64_max) →
  ∃ r, MaxContiguousPts u s = Some r ∧
    rtc (λ a b, ∃ e, e ∈ eventsOf s u ∧ a = e_Pts e - normalCount (e_PtsCount e) ∧ b = e_Pts e) 0 r ∧
    ∀ e, e ∈ eventsOf s u → e_Pts e - normalCount (e_PtsCount e) ≠ r.
Proof.
  intros Hev. destruct (MaxContiguousPts_terminates u s Hev) as (r & Hr & _ & Hstop).
  assert (Hstart : ∀ e, e ∈ eventsOf s u → startOf e = e_Pts e - normalCount (e_PtsCount e)).
  { intros e Hin. destruct (Hev e Hin). pose proof (normalCount_pos (e_PtsCount e)).
    unfold startOf. apply sub64_small. lia. }
  exists r. split; [done|]. split; [|intros e Hin; rewrite <-(Hstart e Hin); auto].
  unfold MaxContiguousPts in Hr. revert Hr. generalize (S (size (nextByStart (eventsOf s u)))) as fuel.
  generalize 0 as c. intros c fuel. revert c. induction fuel as [|fuel IH]; intros c; simpl; [done|].
  destruct (nextByStart (eventsOf s u) !! c) as [n|] eqn:Hn; [|by intros [= ->]].
  intros Hf. apply nextByStart_Some in Hn as (e & Hin & <- & <-).
  eapply rtc_l; [|by apply IH]. exists e. by rewrite (Hstart e Hin).
Qed.

(** A device's confirmed and observed cursors never go backwards, in any
    component, along any sequence of store operations that does not forget the
    device. *)
Theorem watermarks_monotone id u ops ss :
  Forall (λ o, MemoryStates.forgets id u o = false) ops →
  let ss' := foldl MemoryStates.apply_op ss ops in
  MemoryStates.state_le (MemoryStates.confirmedOf id u ss) (MemoryStates.confirmedOf id u ss') ∧
  MemoryStates.state_le (MemoryStates.observedOf id u ss) (MemoryStates.observedOf id u ss').
Proof.
  revert ss. induction ops as [|o ops IH]; intros ss; simpl; [done|].
  intros [Ho Hops]%Forall_cons. destruct (MemoryStates.apply_op_le id u o ss Ho) as [H1 H2].
  destruct (IH (MemoryStates.apply_op ss o) Hops) as [H3 H4]. split; by etransitivity.
Qed.

(** Operations that only advance cursors. *)
Definition advancing (o : MemoryStates.op) : Prop :=
  match o with
  | MemoryStates.OpSave _ _ _ | MemoryStates.OpCommit _ _ _ _ | MemoryStates.OpObserve _ _ _ => True
  | _ => False
  end.

Lemma advancing_comm o1 o2 ss :
  advancing o1 → advancing o2 →
  MemoryStates.apply_op (MemoryStates.apply_op ss o1) o2 =
  MemoryStates.apply_op (MemoryStates.apply_op ss o2) o1.
Proof.
  destruct o1, o2; try done; intros _ _; cbn [MemoryStates.apply_op];
    unfold MemoryStates.CommitDeliveredState, MemoryStates.ObserveClientState;
    repeat destruct (negb _); cbn [fst]; rewrite ?MemoryStates.Save_advance; simpl; try done;
    repeat case_bool_decide; simpl; f_equal; apply MemoryStates.advance_comm.
Qed.

(** C37: delivery callbacks may complete in any order: the final cursors of
    all devices do not depend on the order in which saves, delivered commits
    and client observations are applied. *)
Theorem commits_order_independent ops ops' ss :
  ops ≡ₚ ops' → Forall advancing ops →
  foldl MemoryStates.apply_op ss ops = foldl MemoryStates.apply_op ss ops'.
Proof.
  intros Hp. revert ss. induction Hp as [|o ops ops' Hp IH|o1 o2 ops|ops1 ops2 ops3 Hp1 IH1 Hp2 IH2];
    intros ss Hall; simpl; [done|..].
  - apply IH. by inversion Hall.
  - apply Forall_cons in Hall as [? [? _]%Forall_cons]. by rewrite advancing_comm.
  - rewrite IH1 by done. apply IH2. by rewrite <-Hp1.
Qed.

(** [updates.getState] bootstraps a new device at the account's
    watermark, and from then on answers with the device's own confirmed
    cursor, leaving everything unchanged: events recorded since do not move it. *)
Theorem getState_bootstraps now id u ss s :
  contiguousLogs s →
  match MemoryStates.Get id u ss with
  | Some st =>
    ∃ st', GetState now id u (mkService (Some ss) (Some s)) = (mkService (Some ss) (Some s), inr st') ∧
      st_Pts st' = st_Pts st ∧ st_Qts st' = st_Qts st ∧ st_Seq st' = 0
  | None =>
    ∃ ss', GetState now id u (mkService (Some ss) (Some s)) =
        (mkService (Some ss') (Some s), inr (mkState (endPts u s) 0 now 0)) ∧
      st_Pts (MemoryStates.confirmedOf id u ss') = endPts u s
  end.
Proof.
  intros HC. destruct (MemoryStates.Get id u ss) as [st|] eqn:Hg.
  - unfold GetState. simpl. rewrite Hg. eexists. by split.
  - unfold GetState. cbn [states ss_Get memory_states]. rewrite Hg.
    unfold currentState, currentPts, askEvents, mbind, M_bind.
    cbn [events es_MaxContiguousPts memory_events]. rewrite MaxContiguousPts_Chain by done.
    cbn [mret M_ret onStates states ss_Save memory_states]. eexists. split; [done|].
    rewrite MemoryStates.Save_advance. unfold MemoryStates.confirmedOf, MemoryStates.Get. simpl.
    unfold MemoryStates.advance. rewrite lookup_insert_eq. unfold MemoryStates.Get in Hg. rewrite Hg. simpl.
    rewrite MemoryStates.atLeast_max. pose proof (Chain_le _ _ (HC u)). unfold endPts. lia.
Qed.

(** Publishing the same message again is idempotent: the second call
    returns the event of the first one and writes nothing. *)
Theorem publish_idempotent now now' u (msg : Message Blob) ss s sv e st :
  contiguousLogs s → u ≠ 0 → 0 < m_ID msg → endPts u s < i64_max →
  FindNewMessageEvent u (m_ID msg) s = None →
  PublishNewMessage now u msg (mkService (Some ss) (Some s)) = (sv, inr (e, st)) →
  ∃ st', PublishNewMessage now' u msg sv = (sv, inr (e, st')) ∧ st_Pts st' = e_Pts e.
Proof.
  intros HC Hu Hid Hmax Hfind Hpub. unfold PublishNewMessage in Hpub |- *.
  replace (orElse u (m_OwnerUserID msg)) with u in * by (unfold orElse; by rewrite bool_decide_eq_false_2).
  cbn [events es_FindNewMessageEvent memory_events] in Hpub. rewrite bool_decide_eq_true_2, Hfind in Hpub by lia.
  unfold publishEvent in Hpub. set (e0 := with_Message msg _) in *.
  destruct (recordEventCore_ok now 0 0 u e0 true 0 (mkService (Some ss) (Some s)) s)
    as (s' & Heq & Hok' & Hlog & _); [done|done| |done|].
  { unfold watermark. simpl. unfold endPts in Hmax. change (normalCount _) with 1. lia. }
  rewrite Heq in Hpub. injection Hpub as <- <- <-. simpl in Hlog.
  set (e' := recorded now u e0 s) in *. cbn [events es_FindNewMessageEvent memory_events].
  assert (Hf' : FindNewMessageEvent u (m_ID msg) s' = Some e').
  { unfold FindNewMessageEvent in *. rewrite bool_decide_eq_false_2 in * by done.
    rewrite bool_decide_eq_false_2 in * by lia. simpl in *. rewrite Hlog.
    rewrite find_app, Hfind. simpl. unfold isNewMessage. simpl. by rewrite !bool_decide_eq_true_2. }
  rewrite Hf', bool_decide_eq_true_2 by lia.
  unfold currentState, currentPts, askEvents, mbind, M_bind. cbn [events es_MaxContiguousPts memory_events].
  rewrite MaxContiguousPts_Chain by done. eexists. split; [done|]. simpl. by rewrite Hlog, lastPts_snoc.
Qed.
End memory_service.

(** ** Runs on a concrete account *)

Module UpdateRuns.
Abbreviation store := (@MemoryEvents.t Z).
Definition ev (pts count : Z) : UpdateEvent Z :=
  with_Pts pts (newEvent UpdateEventNewMessage 1700000000 count).
Definition hello : Message Z := mkMessage 11 7 (mkPeer PeerTypeUser 8) 1700000000 0.
(** Three events of user 7, at pts 1, 2 and 3, stored by the source's append. *)
Definition add (s : store) : store := (AppendAllocated 7 (ev 0 1) s).1.
Definition three : store := add (add (add NewUpdateEventStore)).
Definition sv3 : Service store MemoryStates.t := mkService (Some MemoryStates.NewUpdateStateStore) (Some three).

Lemma add_contiguous s : contiguousLogs s → endPts 7 s + 1 ≤ i64_max → contiguousLogs (add s).
Proof.
  intros HC Hmax. destruct (append_spec 7 (ev 0 1) false 0 0 s HC Hmax) as (s' & e' & Heq & _ & HC' & _); [done|].
  unfold add, AppendAllocated. by rewrite Heq.
Qed.
Lemma three_contiguous : contiguousLogs three.
Proof.
  repeat apply add_contiguous; [|vm_compute; discriminate..].
  intros u. unfold eventsOf. simpl. by rewrite lookup_empty.
Qed.
Lemma no_retention a u s : checkpointAnswers (S := store) a u s.
Proof. intros f [=]. Qed.

(** The log of user 7 with pts 4 missing, stored by the source's append of
    events that carry their pts. *)
Definition put (s : store) (e : UpdateEvent Z) : store := (Append 7 e s).1.
Definition missing : store := foldl put NewUpdateEventStore [ev 1 1; ev 2 1; ev 3 1; ev 5 1; ev 6 1].
Definition svm : Service store MemoryStates.t := mkService (Some MemoryStates.NewUpdateStateStore) (Some missing).
Lemma missing_7 : eventsOf missing 7 = with_UserID 7 <$> [ev 1 1; ev 2 1; ev 3 1; ev 5 1; ev 6 1].
Proof. vm_compute. reflexivity. Qed.
Lemma missing_ok : read_ok missing.
Proof.
  intros u. destruct (decide (u = 7)) as [->|Hu]; [rewrite missing_7; vm_compute; intuition discriminate|].
  unfold eventsOf, missing, put, Append, append, appendLocked. simpl. by rewrite !lookup_insert_ne by done.
Qed.

(** Asked from pts 1, the answer stops at the hole. *)
Lemma getDifference_never_skips_witness :
  ∃ d, GetDifference 1700000001 5 7 (mkState 1 0 0 0) svm = (svm, inr d) ∧
    e_Pts <$> d_Events d = [2; 3] ∧ 1 ≤ st_Pts (d_State d) ≤ 3 ∧ Chain 1 (d_Events d).
Proof.
  assert (Hc : e_Pts <$> (match (GetDifference 1700000001 5 7 (mkState 1 0 0 0) svm).2 with
    | inr d => d_Events d | inl _ => [] end) = [2; 3]) by (vm_compute; reflexivity).
  assert (Hend : contiguousEnd 7 missing = 3) by (vm_compute; reflexivity).
  destruct (getDifference_never_skips 1700000001 5 7 (mkState 1 0 0 0) svm missing)
    as (d & Hd & _ & Hp & HC); [done|apply missing_ok|done|done|apply no_retention|].
  rewrite Hend in Hp, HC. exists d. split; [exact Hd|]. split; [by rewrite Hd in Hc|]. split; [exact Hp|exact (proj1 HC)].
Defined.

Lemma getDifference_progress_witness :
  ∃ d, GetDifference 1700000001 5 7 (mkState 1 0 0 0) sv3 = (sv3, inr d) ∧ 1 < st_Pts (d_State d).
Proof.
  destruct (getDifference_progress 1700000001 5 7 (mkState 1 0 0 0) sv3 three)
    as (d & Hd & Hlt & _);
    [done|apply three_contiguous|done|done|apply no_retention|vm_compute; intuition discriminate
    |right; vm_compute; reflexivity|].
  exists d. split; [exact Hd|exact Hlt].
Defined.

(** From the start of the log with pts 4 missing, the client ends at 3; from
    the start of the gap-free one it gets everything. *)
Lemma catchUp_complete_witness :
  (∃ es st, catchUp 2 1700000001 5 7 noState svm [] = Some (es, st) ∧ Chain 0 es ∧ st_Pts st = 3) ∧
  (∃ st, catchUp 2 1700000001 5 7 noState sv3 [] = Some (eventsOf three 7, st) ∧ st_Pts st = 3).
Proof.
  assert (Hend : contiguousEnd 7 missing = 3) by (vm_compute; reflexivity).
  assert (Hend3 : contiguousEnd 7 three = 3) by (vm_compute; reflexivity).
  split.
  - destruct (catchUp_complete 1700000001 5 7 noState svm missing [] 1) as (es & st & Hst & _ & HC & _ & _ & Hb & _);
      [done|apply missing_ok|done|done|apply no_retention|vm_compute; lia|].
    rewrite Hend in Hb. exists es, st. split; [exact Hst|]. split; [exact HC|]. apply Hb. vm_compute. reflexivity.
  - destruct (catchUp_complete 1700000001 5 7 noState sv3 three [] 1) as (es & st & Hst & _ & _ & _ & _ & Hb & Hall);
      [done|apply log_reads, three_contiguous|done|done|apply no_retention|vm_compute; lia|].
    rewrite Hend3 in Hb. exists st. split; [|apply Hb; vm_compute; reflexivity].
    rewrite Hall in Hst; [exact Hst|vm_compute; reflexivity|exact (three_contiguous 7)].
Defined.

Lemma device_sees_prefix_witness :
  ∃ w' s', rtc (wstep 5 7) (mkWorld sv3 noState []) w' ∧ events (w_sv w') = Some s' ∧
    w_seen w' = filter (λ e, e_Pts e ≤ st_Pts (w_cursor w')) (log 7 s').
Proof.
  destruct (GetDifference_ok 1700000001 5 7 noState sv3 three) as (d & Hd & _);
    [done|apply three_contiguous|done|done|apply no_retention|].
  assert (Hr : rtc (wstep 5 7) (mkWorld sv3 noState []) (mkWorld sv3 (d_State d) ([] ++ d_Events d)))
    by (apply rtc_once; by eapply WDifference).
  destruct (device_sees_prefix 5 7 (mkWorld sv3 noState [])
    (mkWorld sv3 (d_State d) ([] ++ d_Events d)) three) as (s' & Hs' & Hseen & _);
    [done|done|done|done|apply three_contiguous|done|done|exact Hr|].
  exists (mkWorld sv3 (d_State d) ([] ++ d_Events d)), s'. split; [exact Hr|]. split; [exact Hs'|exact Hseen].
Defined.

Lemma recordEvent_allocates_witness :
  ∃ s' ss' e' st,
    recordEvent 1700000001 5 5 7 (ev 0 1) true 99 sv3 = (mkService (Some ss') (Some s'), inr (e', st)) ∧
    e_Pts e' = 4.
Proof.
  destruct (recordEvent_allocates 1700000001 5 5 7 (ev 0 1) 99 MemoryStates.NewUpdateStateStore three)
    as (s' & ss' & e' & st & Heq & Hp & _);
    [apply three_contiguous|vm_compute; discriminate|done|].
  exists s', ss', e', st. split; [exact Heq|exact Hp].
Defined.

Lemma recordEvent_bad_exclusion_witness :
  recordEvent 1700000001 5 5 7 (ev 0 1) true 0 sv3 = (sv3, inl ErrDispatchExclusion).
Proof. apply (recordEvent_bad_exclusion 1700000001 5 5 7 (ev 0 1) 0). intros [_ H]. by specialize (H eq_refl). Defined.

(** A hole at pts 3, and a duplicate. *)
Definition holed : store := MemoryEvents.mkStore {[ 7 := [ev 2 1; ev 1 1; ev 5 2; ev 2 1] ]} ∅.
Lemma MaxContiguousPts_correct_witness :
  ∃ r, MaxContiguousPts 7 holed = Some r ∧ r = 2 ∧
    ∀ e, e ∈ eventsOf holed 7 → e_Pts e - normalCount (e_PtsCount e) ≠ r.
Proof.
  destruct (MaxContiguousPts_correct 7 holed) as (r & Hr & _ & Hstop).
  - intros e Hin. unfold eventsOf, holed in Hin. simpl in Hin. rewrite lookup_singleton_eq in Hin.
    simpl in Hin. repeat (apply elem_of_cons in Hin as [->|Hin]; [vm_compute; intuition discriminate|]).
    by apply not_elem_of_nil in Hin.
  - exists r. split; [exact Hr|]. split; [|exact Hstop].
    assert (Hc : MaxContiguousPts 7 holed = Some 2) by (vm_compute; reflexivity). congruence.
Defined.

Definition ops : list MemoryStates.op :=
  [MemoryStates.OpCommit 5 7 (mkState 9 0 0 0) 1; MemoryStates.OpSave 5 7 (mkState 4 0 0 0);
   MemoryStates.OpObserve 5 7 (mkState 3 0 0 0)].
Lemma watermarks_monotone_witness :
  MemoryStates.state_le (MemoryStates.confirmedOf 5 7 MemoryStates.NewUpdateStateStore)
    (MemoryStates.confirmedOf 5 7 (foldl MemoryStates.apply_op MemoryStates.NewUpdateStateStore ops)).
Proof.
  refine (proj1 (watermarks_monotone 5 7 ops MemoryStates.NewUpdateStateStore _)).
  repeat constructor.
Defined.

Lemma commits_order_independent_witness :
  foldl MemoryStates.apply_op MemoryStates.NewUpdateStateStore ops =
  foldl MemoryStates.apply_op MemoryStates.NewUpdateStateStore (reverse ops).
Proof.
  apply (commits_order_independent ops (reverse ops)); [by rewrite reverse_Permutation|].
  repeat constructor.
Defined.

Lemma getState_bootstraps_witness :
  ∃ ss', GetState 1700000001 5 7 sv3 = (mkService (Some ss') (Some three), inr (mkState 3 0 1700000001 0)).
Proof.
  destruct (getState_bootstraps 1700000001 5 7 MemoryStates.NewUpdateStateStore three three_contiguous)
    as (ss' & Heq & _).
  exists ss'. exact Heq.
Defined.

Lemma publish_idempotent_witness :
  ∃ sv e st st', PublishNewMessage 1700000001 7 hello sv3 = (sv, inr (e, st)) ∧
    PublishNewMessage 1700000002 7 hello sv = (sv, inr (e, st')) ∧ st_Pts st' = e_Pts e.
Proof.
  assert (Hok : match PublishNewMessage 1700000001 7 hello sv3 with (_, inr _) => true | _ => false end = true)
    by (vm_compute; reflexivity).
  destruct (PublishNewMessage 1700000001 7 hello sv3) as [sv [err|[e st]]] eqn:Hp; [discriminate|].
  destruct (publish_idempotent 1700000001 1700000002 7 hello MemoryStates.NewUpdateStateStore three sv e st)
    as (st' & H1 & H2); [apply three_contiguous|done|done|vm_compute; reflexivity..|exact Hp|].
  exists sv, e, st, st'. split; [done|]. split; [exact H1|exact H2].
Defined.
End UpdateRuns.
