(* ===== verification/Stars.v ===== *)
(** * The Stars ledger

    [internal/domain/stars.go], [internal/store/memory/stars.go] and
    [internal/app/stars/service.go]: balances, the signed transaction log, the
    one-time starting grant, keyset pagination with opaque cursors, and the
    validation of purchase forms.  Strings are lists of bytes; every operation
    of the store runs under its mutex and is one step. *)

From S2P Require Import Prelude UpdateTypes.

(** ** Decimal numbers, base64 and the cursor *)

(** [strconv.FormatInt(id, 10)] *)
Fixpoint decimalDigits (fuel : nat) (n : Z) (acc : list Z) : list Z :=
  match fuel with
  | O => acc
  | S fuel =>
    let acc := (48 + n mod 10) :: acc in
    if bool_decide (n / 10 = 0) then acc else decimalDigits fuel (n / 10) acc
  end.
(** An int64 has at most 19 digits. *)
Definition FormatInt (n : Z) : list Z :=
  if bool_decide (n < 0) then 45 :: decimalDigits 20 (- n) [] else decimalDigits 20 n [].

(** [strconv.ParseInt(s, 10, 64)]: [None] for a syntax or range error. *)
Definition isDigit (b : Z) : bool := bool_decide (48 ≤ b) && bool_decide (b ≤ 57).
Definition digitsValue (bs : list Z) : Z := foldl (λ acc b, acc * 10 + (b - 48)) 0 bs.
Definition ParseInt (bs : list Z) : option Z :=
  let parseMagnitude := λ (neg : bool) ds,
    if bool_decide (ds = []) || negb (forallb isDigit ds) then None
    else
      let v := digitsValue ds in
      if neg then if bool_decide (v ≤ 9223372036854775808) then Some (- v) else None
      else if bool_decide (v ≤ i64_max) then Some v else None in
  match bs with
  | 45 :: ds => parseMagnitude true ds
  | 43 :: ds => parseMagnitude false ds
  | ds => parseMagnitude false ds
  end.

(** The URL-safe base64 alphabet: [A-Z a-z 0-9 - _]. *)
Definition base64Char (v : Z) : Z :=
  if bool_decide (v < 26) then 65 + v
  else if bool_decide (v < 52) then 97 + (v - 26)
  else if bool_decide (v < 62) then 48 + (v - 52)
  else if bool_decide (v = 62) then 45 else 95.
Definition base64Value (c : Z) : option Z :=
  if bool_decide (65 ≤ c ≤ 90) then Some (c - 65)
  else if bool_decide (97 ≤ c ≤ 122) then Some (c - 97 + 26)
  else if isDigit c then Some (c - 48 + 52)
  else if bool_decide (c = 45) then Some 62
  else if bool_decide (c = 95) then Some 63 else None.

(** [base64.RawURLEncoding.EncodeToString]: no padding. *)
Fixpoint base64Encode (bs : list Z) : list Z :=
  match bs with
  | [] => []
  | [a] => [base64Char (a / 4); base64Char (a mod 4 * 16)]
  | [a; b] => [base64Char (a / 4); base64Char (a mod 4 * 16 + b / 16); base64Char (b mod 16 * 4)]
  | a :: b :: c :: bs =>
    base64Char (a / 4) :: base64Char (a mod 4 * 16 + b / 16)
    :: base64Char (b mod 16 * 4 + c / 64) :: base64Char (c mod 64) :: base64Encode bs
  end.

(** [base64.RawURLEncoding.DecodeString]: carriage returns and newlines are
    skipped, the unused bits of the last character are not checked. *)
Fixpoint base64Groups (vs : list Z) : option (list Z) :=
  match vs with
  | [] => Some []
  | [_] => None
  | [a; b] => Some [a * 4 + b / 16]
  | [a; b; c] => Some [a * 4 + b / 16; b mod 16 * 16 + c / 4]
  | a :: b :: c :: d :: vs =>
    bs ← base64Groups vs;
    Some (a * 4 + b / 16 :: b mod 16 * 16 + c / 4 :: c mod 4 * 64 + d :: bs)
  end.
Definition base64Decode (s : list Z) : option (list Z) :=
  vs ← mapM base64Value (filter (λ c, c ≠ 13 ∧ c ≠ 10) s);
  base64Groups vs.

Definition EncodeStarsCursor (id : Z) : list Z := base64Encode (FormatInt id).
Definition DecodeStarsCursor (s : list Z) : option Z :=
  if bool_decide (s = []) then None
  else
    raw ← base64Decode s;
    id ← ParseInt raw;
    if bool_decide (id ≤ 0) then None else Some id.

(** ** The domain model *)

Inductive StarsTransactionReason :=
| StarsReasonTransfer | StarsReasonGrant | StarsReasonTopup | StarsReasonReaction | StarsReasonGift
| StarsReasonGiftUpgrade | StarsReasonGiftTransfer | StarsReasonGiftResale | StarsReasonGiftOffer
| StarsReasonGiftAuction | StarsReasonGiftPrepaid | StarsReasonGiftDrop | StarsReasonPaidMedia
| StarsReasonPaidMessage | StarsReasonSuggestedPost | StarsReasonPremium | StarsReasonWithdrawal
| StarsReasonAdjust | StarsReasonDonationDeposit | StarsReasonBotInvoice | StarsReasonBotSpend
| StarsReasonBotRefund.

Inductive starsError :=
| ErrStarsInsufficient
| ErrStarsInvalidAmount
| ErrStarsTransactionQueryInvalid
| ErrStarsPurchaseFormInvalid
| ErrStarsAirdropUnsupported
| ErrStarsStore (code : Z).

Record StarsBalance := mkBalance { b_UserID : Z; b_Balance : Z; b_Granted : bool }.

(** [PaymentID], [RecipientUserID] and [PremiumMonths] stay zero in this store. *)
Record StarsTransaction := mkTransaction {
  t_ID : Z;
  t_UserID : Z;
  t_Peer : Peer;
  t_Amount : Z;
  t_Date : Z;
  t_Reason : StarsTransactionReason;
  t_Title : list Z;
  t_Description : list Z;
}.
Definition IsCredit (t : StarsTransaction) : bool := bool_decide (t_Amount t > 0).

(** [StarsTransactionDirection] is a [uint8]. *)
Definition StarsTransactionDirectionAll : Z := 0.
Definition StarsTransactionDirectionIncoming : Z := 1.
Definition StarsTransactionDirectionOutgoing : Z := 2.
Definition directionValid (d : Z) : bool := bool_decide (d ≤ StarsTransactionDirectionOutgoing).
Definition IncludesAmount (d amount : Z) : bool :=
  if bool_decide (d = StarsTransactionDirectionAll) then true
  else if bool_decide (d = StarsTransactionDirectionIncoming) then bool_decide (amount > 0)
  else if bool_decide (d = StarsTransactionDirectionOutgoing) then bool_decide (amount < 0)
  else false.

Record StarsTransactionQuery := mkQuery {
  q_Offset : list Z;
  q_Limit : Z;
  q_Direction : Z;
  q_Ascending : bool;
}.

Definition DefaultStarsStartingGrant : Z := 1000.
Definition MaxStarsTransactionsLimit : Z := 100.
Definition MaxStarsTransactionsOffsetBytes : Z := 64.

Definition NormalizeStarsTransactionQuery (q : StarsTransactionQuery)
    : starsError + StarsTransactionQuery :=
  if negb (directionValid (q_Direction q)) then inl ErrStarsTransactionQueryInvalid
  else
    let offset := if bool_decide (Z.of_nat (length (q_Offset q)) > MaxStarsTransactionsOffsetBytes)
                  then [] else q_Offset q in
    let limit := if bool_decide (q_Limit q ≤ 0) || bool_decide (q_Limit q > MaxStarsTransactionsLimit)
                 then MaxStarsTransactionsLimit else q_Limit q in
    inr (mkQuery offset limit (q_Direction q) (q_Ascending q)).

(** [Users] is filled by another layer. *)
Record StarsTransactionPage := mkPage {
  p_Balance : Z;
  p_Transactions : list StarsTransaction;
  p_NextOffset : list Z;
}.
Definition emptyPage : StarsTransactionPage := mkPage 0 [] [].

(** ** The in-memory store *)

Module StarsStore.
Record starsState := mkState { balance : Z; granted : bool; txns : list StarsTransaction }.
Definition noStarsState : starsState := mkState 0 false [].

Record t := mkStore { states : gmap Z starsState; nextID : Z }.
Definition NewStarsStore : t := mkStore ∅ 0.

Definition balanceOf (userID : Z) (st : starsState) : StarsBalance :=
  mkBalance userID (balance st) (granted st).

Definition GetBalance (userID : Z) (s : t) : StarsBalance :=
  if bool_decide (userID = 0) then mkBalance 0 0 false
  else match states s !! userID with
  | None => mkBalance userID 0 false
  | Some st => balanceOf userID st
  end.

(** The state record of a user is shared by pointer in the map; [appendTxn]
    stores it back. *)
Definition appendTxn (st : starsState) (userID amount : Z) (reason : StarsTransactionReason) (peer : Peer)
    (date : Z) (title desc : list Z) (s : t) : t :=
  let id := add64 (nextID s) 1 in
  mkStore (<[userID := mkState (balance st) (granted st)
              (txns st ++ [mkTransaction id userID peer amount date reason title desc])]> (states s)) id.

Definition EnsureGrant (userID amount date : Z) (s : t) : t * (StarsBalance * bool) :=
  if bool_decide (userID = 0) then (s, (mkBalance 0 0 false, false))
  else
    let st := default noStarsState (states s !! userID) in
    let s := mkStore (<[userID := st]> (states s)) (nextID s) in
    if bool_decide (amount ≤ 0) then (s, (balanceOf userID st, false))
    else if granted st then (s, (mkBalance userID (balance st) true, false))
    else
      let st := mkState (add64 (balance st) amount) true (txns st) in
      (appendTxn st userID amount StarsReasonGrant noPeer date [] [] s,
       (mkBalance userID (balance st) true, true)).

Definition Credit (userID amount : Z) (reason : StarsTransactionReason) (peer : Peer) (date : Z)
    (title desc : list Z) (s : t) : t * (starsError + StarsBalance) :=
  if bool_decide (userID = 0) || bool_decide (amount ≤ 0) then (s, inl ErrStarsInvalidAmount)
  else
    let st := default noStarsState (states s !! userID) in
    let st := mkState (add64 (balance st) amount) (granted st) (txns st) in
    (appendTxn st userID amount reason peer date title desc s, inr (balanceOf userID st)).

Definition Debit (userID amount : Z) (reason : StarsTransactionReason) (peer : Peer) (date : Z)
    (title desc : list Z) (s : t) : t * (starsError + StarsBalance) :=
  if bool_decide (userID = 0) || bool_decide (amount ≤ 0) then (s, inl ErrStarsInvalidAmount)
  else match states s !! userID with
  | None => (s, inl ErrStarsInsufficient)
  | Some st =>
    if bool_decide (balance st < amount) then (s, inl ErrStarsInsufficient)
    else
      let st := mkState (sub64 (balance st) amount) (granted st) (txns st) in
      (appendTxn st userID (sub64 0 amount) reason peer date title desc s, inr (balanceOf userID st))
  end.

(** [appendMatch]: does the transaction belong to the page? *)
Definition matchesQuery (q : StarsTransactionQuery) (cursor : option Z) (x : StarsTransaction) : bool :=
  match cursor with
  | Some c => if q_Ascending q then negb (bool_decide (t_ID x ≤ c)) else negb (bool_decide (c ≤ t_ID x))
  | None => true
  end && IncludesAmount (q_Direction q) (t_Amount x).

(** The loop over the log, oldest or newest first, while [len(out) <= limit]. *)
Fixpoint collect (q : StarsTransactionQuery) (cursor : option Z) (items out : list StarsTransaction)
    : list StarsTransaction :=
  match items with
  | [] => out
  | x :: items =>
    if bool_decide (Z.of_nat (length out) ≤ q_Limit q)
    then collect q cursor items (if matchesQuery q cursor x then out ++ [x] else out)
    else out
  end.

Definition ListTransactions (userID : Z) (query : StarsTransactionQuery) (s : t)
    : starsError + StarsTransactionPage :=
  if bool_decide (userID = 0) then inr emptyPage
  else match NormalizeStarsTransactionQuery query with
  | inl err => inl err
  | inr q =>
    match states s !! userID with
    | None => inr emptyPage
    | Some st =>
      let cursor := DecodeStarsCursor (q_Offset q) in
      let items := if q_Ascending q then txns st else reverse (txns st) in
      let out := collect q cursor items [] in
      inr (if bool_decide (Z.of_nat (length out) > q_Limit q)
           then let out := take (Z.to_nat (q_Limit q)) out in
                mkPage (balance st) out (EncodeStarsCursor (from_option t_ID 0 (last out)))
           else mkPage (balance st) out [])
    end
  end.
End StarsStore.

(** ** The service *)

Module StarsService.
Import StarsStore.

(** [grantAmount] is the configured starting grant; [now] the clock. *)
Definition ensureGranted (grantAmount now userID : Z) (s : t) : t * StarsBalance :=
  if bool_decide (grantAmount > 0) then let '(s, (bal, _)) := EnsureGrant userID grantAmount now s in (s, bal)
  else (s, StarsStore.GetBalance userID s).
Definition GetBalance := ensureGranted.

Definition Credit (now userID amount : Z) (reason : StarsTransactionReason) (peer : Peer)
    (title desc : list Z) (s : t) : t * (starsError + StarsBalance) :=
  if bool_decide (amount ≤ 0) then (s, inl ErrStarsInvalidAmount)
  else StarsStore.Credit userID amount reason peer now title desc s.

Definition Debit (grantAmount now userID amount : Z) (reason : StarsTransactionReason) (peer : Peer)
    (title desc : list Z) (s : t) : t * (starsError + StarsBalance) :=
  if bool_decide (amount ≤ 0) then (s, inl ErrStarsInvalidAmount)
  else
    let '(s, _) := ensureGranted grantAmount now userID s in
    StarsStore.Debit userID amount reason peer now title desc s.

Definition ListTransactions (grantAmount now userID : Z) (query : StarsTransactionQuery) (s : t)
    : t * (starsError + StarsTransactionPage) :=
  match NormalizeStarsTransactionQuery query with
  | inl err => (s, inl err)
  | inr query =>
    let '(s, _) := ensureGranted grantAmount now userID s in
    (s, StarsStore.ListTransactions userID query s)
  end.

(** *** Purchase forms *)

Inductive StarsPurchaseKind :=
| StarsPurchaseTopup | StarsPurchaseGift | StarsPurchaseGiveaway | StarsPurchaseBotInvoice
| StarsPurchaseUnknown.
#[export] Instance StarsPurchaseKind_eq_dec : EqDecision StarsPurchaseKind.
Proof. solve_decision. Defined.
Definition kindValid (k : StarsPurchaseKind) : bool := negb (bool_decide (k = StarsPurchaseUnknown)).

Record StarsGiveawayPurchase := mkGiveaway {
  BoostPeer : Peer;
  RandomID : Z;
  UntilDate : Z;
  Users : Z;
  PerUserStars : Z;
}.
Record StarsPurchaseForm := mkForm {
  FormID : Z;
  Kind : StarsPurchaseKind;
  BuyerUserID : Z;
  RecipientUserID : Z;
  SpendPurposePeer : Peer;
  Giveaway : option StarsGiveawayPurchase;
  Stars : Z;
  Currency : list Z;
  Amount : Z;
  IssuedAt : Z;
  ExpiresAt : Z;
}.

(** [int64] multiplication wraps; [/] truncates towards zero. *)
Definition mul64 (a b : Z) : Z := wrap64 (a * b).

Definition validPurchaseCommand (form : StarsPurchaseForm) : bool :=
  if negb (kindValid (Kind form)) || bool_decide (BuyerUserID form ≤ 0) || bool_decide (Stars form ≤ 0)
     || bool_decide (Amount form ≤ 0) || bool_decide (Currency form = [])
  then false
  else match Kind form with
  | StarsPurchaseTopup =>
    bool_decide (Giveaway form = None) && bool_decide (RecipientUserID form = 0)
    && (bool_decide (SpendPurposePeer form = noPeer)
        || ((bool_decide (peerType (SpendPurposePeer form) = PeerTypeUser)
             || bool_decide (peerType (SpendPurposePeer form) = PeerTypeChannel))
            && bool_decide (peerID (SpendPurposePeer form) > 0)))
  | StarsPurchaseGift =>
    bool_decide (Giveaway form = None) && bool_decide (RecipientUserID form > 0)
    && bool_decide (BuyerUserID form ≠ RecipientUserID form)
    && bool_decide (SpendPurposePeer form = noPeer)
  | StarsPurchaseGiveaway =>
    bool_decide (RecipientUserID form = 0) && bool_decide (SpendPurposePeer form = noPeer)
    && match Giveaway form with
       | None => false
       | Some g =>
         bool_decide (peerType (BoostPeer g) = PeerTypeChannel) && bool_decide (peerID (BoostPeer g) > 0)
         && bool_decide (RandomID g ≠ 0) && bool_decide (UntilDate g > 0) && bool_decide (Users g > 0)
         && bool_decide (PerUserStars g > 0)
         && bool_decide (Users g ≤ Z.quot (Stars form) (PerUserStars g))
         && bool_decide (mul64 (Users g) (PerUserStars g) = Stars form)
       end
  | _ => false
  end.
Definition validPurchaseForm (form : StarsPurchaseForm) : bool :=
  validPurchaseCommand form && bool_decide (IssuedAt form > 0)
  && bool_decide (ExpiresAt form = add64 (IssuedAt form) 600).

(** [purchaseStore] is the checkout aggregate of the database, absent without
    one; the guards decide what reaches it. *)
Definition IssuePurchaseForm {PS} (issue : option (StarsPurchaseForm → PS → PS * (starsError + StarsPurchaseForm)))
    (form : StarsPurchaseForm) (ps : PS) : PS * (starsError + StarsPurchaseForm) :=
  match issue with
  | Some issue => if validPurchaseForm form then issue form ps else (ps, inl ErrStarsPurchaseFormInvalid)
  | None => (ps, inl ErrStarsPurchaseFormInvalid)
  end.
Definition Purchase {PS R} (settle : option (StarsPurchaseForm → Z → PS → PS * (starsError + R)))
    (form : StarsPurchaseForm) (date : Z) (ps : PS) : PS * (starsError + R) :=
  match settle with
  | Some settle =>
    if bool_decide (FormID form = 0) || bool_decide (date ≤ 0) || negb (validPurchaseCommand form)
    then (ps, inl ErrStarsPurchaseFormInvalid) else settle form date ps
  | None => (ps, inl ErrStarsPurchaseFormInvalid)
  end.
End StarsService.
