(* ===== verification/StarsProps.v ===== *)
(** * The Stars ledger: lemmas and properties *)

From stdpp Require Import sorting.
From S2P Require Import Prelude UpdateTypes Stars.
Import StarsStore.

(** ** Decimal round trip *)

Abbreviation digitStep := (λ acc b : Z, acc * 10 + (b - 48)).

Lemma decimalDigits_value fuel n acc :
  0 ≤ n < 10 ^ Z.of_nat fuel → (0 < fuel)%nat →
  foldl digitStep 0 (decimalDigits fuel n acc) = foldl digitStep n acc.
Proof.
  revert n acc. induction fuel as [|fuel IH]; intros n acc Hn Hf; [lia|].
  simpl. pose proof (Z.div_mod n 10 ltac:(lia)). pose proof (Z.mod_pos_bound n 10 ltac:(lia)).
  case_bool_decide as Hz.
  - simpl. f_equal. lia.
  - rewrite Nat2Z.inj_succ, Z.pow_succ_r in Hn by lia.
    assert (0 ≤ n / 10 < 10 ^ Z.of_nat fuel) by (split; [apply Z.div_pos|apply Z.div_lt_upper_bound]; lia).
    rewrite IH; [simpl; f_equal; lia|done|].
    destruct fuel; [|lia]. simpl in *. lia.
Qed.
Lemma decimalDigits_digits fuel n acc :
  0 ≤ n → forallb isDigit acc = true → forallb isDigit (decimalDigits fuel n acc) = true.
Proof.
  revert n acc. induction fuel as [|fuel IH]; intros n acc Hn Hacc; simpl; [done|].
  pose proof (Z.mod_pos_bound n 10 ltac:(lia)).
  assert (Hd : forallb isDigit ((48 + n mod 10) :: acc) = true).
  { simpl. rewrite Hacc. unfold isDigit. rewrite !bool_decide_eq_true_2 by lia. done. }
  case_bool_decide; [done|]. apply IH; [apply Z.div_pos; lia|done].
Qed.
Lemma decimalDigits_length fuel n acc :
  (length acc ≤ length (decimalDigits fuel n acc) ≤ length acc + fuel)%nat ∧
  ((0 < fuel)%nat → decimalDigits fuel n acc ≠ []).
Proof.
  revert n acc. induction fuel as [|fuel IH]; intros n acc; simpl; [split; lia|].
  case_bool_decide; simpl; [split; [lia|done]|].
  destruct (IH (n / 10) ((48 + n mod 10) :: acc)) as [Hlen _]. simpl in Hlen. split; [lia|].
  intros _ Heq. rewrite Heq in Hlen. simpl in Hlen. lia.
Qed.
Lemma isDigit_byte b : isDigit b = true → is_byte b.
Proof. unfold isDigit, is_byte. rewrite andb_true_iff, !bool_decide_eq_true. lia. Qed.

Lemma ParseInt_FormatInt n : 0 ≤ n ≤ i64_max → ParseInt (FormatInt n) = Some n.
Proof.
  intros Hn. unfold FormatInt. rewrite bool_decide_eq_false_2 by lia.
  pose proof (decimalDigits_value 20 n [] ltac:(unfold i64_max in *; lia) ltac:(lia)) as Hv.
  pose proof (decimalDigits_digits 20 n [] ltac:(lia) eq_refl) as Hd.
  destruct (decimalDigits_length 20 n []) as [_ Hne]. specialize (Hne ltac:(lia)).
  destruct (decimalDigits 20 n []) as [|d ds] eqn:Hds; [done|].
  assert (Hrange : 48 ≤ d ≤ 57).
  { simpl in Hd. apply andb_true_iff in Hd as [Hd _]. unfold isDigit in Hd.
    rewrite andb_true_iff, !bool_decide_eq_true in Hd. done. }
  assert (Hmain : (if bool_decide (d :: ds = []) || negb (forallb isDigit (d :: ds)) then None
    else if bool_decide (digitsValue (d :: ds) ≤ i64_max) then Some (digitsValue (d :: ds)) else None) = Some n).
  { rewrite Hd. unfold digitsValue. rewrite Hv. simpl. by rewrite bool_decide_eq_true_2 by lia. }
  unfold ParseInt. rewrite <-Hmain. clear Hmain Hv Hd Hne Hds.
  assert (d ≠ 45 ∧ d ≠ 43) as [H1 H2] by lia.
  destruct d as [|p|p]; [done| |done].
  repeat (destruct p as [p|p|]; try reflexivity; try (exfalso; lia)).
Qed.

(** ** Base64 round trip *)

Fixpoint sextets (bs : list Z) : list Z :=
  match bs with
  | [] => []
  | [a] => [a / 4; a mod 4 * 16]
  | [a; b] => [a / 4; a mod 4 * 16 + b / 16; b mod 16 * 4]
  | a :: b :: c :: bs => a / 4 :: a mod 4 * 16 + b / 16 :: b mod 16 * 4 + c / 64 :: c mod 64 :: sextets bs
  end.

(** Induction in steps of three. *)
Lemma list_ind3 (P : list Z → Prop) :
  P [] → (∀ a, P [a]) → (∀ a b, P [a; b]) → (∀ a b c bs, P bs → P (a :: b :: c :: bs)) → ∀ bs, P bs.
Proof.
  intros H0 H1 H2 H3 bs.
  enough (P bs ∧ (∀ a, P (a :: bs)) ∧ (∀ a b, P (a :: b :: bs))) as [? _] by done.
  induction bs as [|x bs (IH0 & IH1 & IH2)]; [auto|]. split_and!; auto.
Qed.

Lemma base64Encode_sextets bs : base64Encode bs = base64Char <$> sextets bs.
Proof. induction bs as [| | |a b c bs IH] using list_ind3; simpl; [done..|]. by rewrite IH. Qed.
Lemma sextets_length bs : (length (sextets bs) ≤ 2 * length bs)%nat.
Proof. induction bs as [| | |a b c bs IH] using list_ind3; simpl; lia. Qed.

Lemma byte_div (a : Z) : is_byte a → a = 4 * (a / 4) + a mod 4 ∧ 0 ≤ a mod 4 < 4 ∧ 0 ≤ a / 4 < 64 ∧
  a = 16 * (a / 16) + a mod 16 ∧ 0 ≤ a mod 16 < 16 ∧ 0 ≤ a / 16 < 16 ∧
  a = 64 * (a / 64) + a mod 64 ∧ 0 ≤ a mod 64 < 64 ∧ 0 ≤ a / 64 < 4.
Proof.
  unfold is_byte. intros Ha. pose proof (Z.div_mod a 4 ltac:(lia)). pose proof (Z.div_mod a 16 ltac:(lia)).
  pose proof (Z.div_mod a 64 ltac:(lia)). pose proof (Z.mod_pos_bound a 4 ltac:(lia)).
  pose proof (Z.mod_pos_bound a 16 ltac:(lia)). pose proof (Z.mod_pos_bound a 64 ltac:(lia)). lia.
Qed.

Lemma sextets_range bs : Forall is_byte bs → Forall (λ v, 0 ≤ v < 64) (sextets bs).
Proof.
  induction bs as [|a|a b|a b c bs IH] using list_ind3; simpl; rewrite ?Forall_cons, ?Forall_nil;
    intros H; repeat match goal with H : _ ∧ _ |- _ => destruct H end;
    repeat match goal with H : is_byte ?x |- _ => apply byte_div in H end; repeat split; auto; lia.
Qed.

Lemma groups_sextets bs : Forall is_byte bs → base64Groups (sextets bs) = Some bs.
Proof.
  induction bs as [|a|a b|a b c bs IH] using list_ind3; simpl; rewrite ?Forall_cons, ?Forall_nil;
    intros H; repeat match goal with H : _ ∧ _ |- _ => destruct H end;
    repeat match goal with H : is_byte ?x |- _ => apply byte_div in H end.
  - done.
  - rewrite Z.div_mul by lia. f_equal. f_equal. lia.
  - rewrite (Z.add_comm (a mod 4 * 16)), Z.div_add, Z.mod_add, Z.div_mul by lia.
    rewrite (Z.div_small (b / 16)), (Z.mod_small (b / 16)) by lia. repeat f_equal; lia.
  - rewrite IH by done. simpl.
    rewrite (Z.add_comm (a mod 4 * 16)), Z.div_add, Z.mod_add by lia.
    rewrite (Z.add_comm (b mod 16 * 4)), Z.div_add, Z.mod_add by lia.
    rewrite (Z.div_small (b / 16)), (Z.mod_small (b / 16)), (Z.div_small (c / 64)), (Z.mod_small (c / 64)) by lia.
    repeat f_equal; lia.
Qed.

Lemma base64Value_Char v : 0 ≤ v < 64 → base64Value (base64Char v) = Some v ∧ base64Char v ≠ 13 ∧ base64Char v ≠ 10.
Proof.
  intros Hv. unfold base64Char, base64Value, isDigit.
  repeat (case_bool_decide; simpl); try lia; split_and!; try lia; f_equal; lia.
Qed.

Lemma decode_chars vs :
  Forall (λ v, 0 ≤ v < 64) vs → base64Decode (base64Char <$> vs) = base64Groups vs.
Proof.
  intros Hvs. unfold base64Decode. rewrite list_filter_id.
  - enough (mapM base64Value (base64Char <$> vs) = Some vs) as -> by done.
    induction Hvs as [|v vs Hv _ IH]; [done|]. rewrite fmap_cons. cbn [mapM].
    by rewrite (proj1 (base64Value_Char v Hv)), IH.
  - intros c (v & -> & Hin)%list_elem_of_fmap. rewrite Forall_forall in Hvs. by apply base64Value_Char, Hvs.
Qed.

Lemma base64_roundtrip bs : Forall is_byte bs → base64Decode (base64Encode bs) = Some bs.
Proof.
  intros Hbs. rewrite base64Encode_sextets, decode_chars by by apply sextets_range.
  by apply groups_sextets.
Qed.

Lemma FormatInt_bytes n : 0 ≤ n → Forall is_byte (FormatInt n) ∧ FormatInt n ≠ [] ∧ (length (FormatInt n) ≤ 20)%nat.
Proof.
  intros Hn. unfold FormatInt. rewrite bool_decide_eq_false_2 by lia.
  destruct (decimalDigits_length 20 n []) as [[_ Hlen] Hne]. split_and!; [|apply Hne; lia|exact Hlen].
  pose proof (decimalDigits_digits 20 n [] Hn eq_refl) as Hd. apply Forall_forall. intros b Hb.
  apply isDigit_byte. rewrite forallb_forall in Hd. by apply Hd, list_elem_of_In.
Qed.

Lemma cursor_roundtrip_short id :
  0 < id ≤ i64_max → DecodeStarsCursor (EncodeStarsCursor id) = Some id ∧
  (length (EncodeStarsCursor id) ≤ 40)%nat ∧ EncodeStarsCursor id ≠ [].
Proof.
  intros Hid. destruct (FormatInt_bytes id) as (Hb & Hne & Hlen); [lia|].
  assert (Hcur : EncodeStarsCursor id ≠ []).
  { unfold EncodeStarsCursor. rewrite base64Encode_sextets.
    destruct (FormatInt id) as [|a [|b [|c bs]]]; done. }
  split_and!; [| |done].
  - unfold DecodeStarsCursor. rewrite bool_decide_eq_false_2 by done. unfold EncodeStarsCursor.
    rewrite base64_roundtrip by done. simpl. rewrite ParseInt_FormatInt by lia. simpl.
    by rewrite bool_decide_eq_false_2 by lia.
  - unfold EncodeStarsCursor. rewrite base64Encode_sextets, length_fmap.
    pose proof (sextets_length (FormatInt id)). lia.
Qed.

(** ** The ledger invariant *)

Definition total (xs : list StarsTransaction) : Z := foldr (λ x acc, t_Amount x + acc) 0 xs.
Definition credits (xs : list StarsTransaction) : Z := foldr (λ x acc, Z.max 0 (t_Amount x) + acc) 0 xs.
Lemma total_snoc xs x : total (xs ++ [x]) = total xs + t_Amount x.
Proof. induction xs as [|y xs IH]; simpl; [lia|]. rewrite IH. lia. Qed.
Lemma credits_snoc xs x : credits (xs ++ [x]) = credits xs + Z.max 0 (t_Amount x).
Proof. induction xs as [|y xs IH]; simpl; [lia|]. rewrite IH. lia. Qed.
Lemma credits_nonneg xs : 0 ≤ credits xs.
Proof. induction xs; simpl; lia. Qed.

Definition id_lt (a b : StarsTransaction) : Prop := t_ID a < t_ID b.
Definition id_gt (a b : StarsTransaction) : Prop := t_ID b < t_ID a.

Record StateInv (next : Z) (st : starsState) : Prop := {
  si_range : i64_min ≤ balance st ≤ i64_max;
  si_wrap : balance st = wrap64 (total (txns st));
  si_exact : credits (txns st) ≤ i64_max → 0 ≤ balance st ∧ balance st = total (txns st);
  si_ids x : x ∈ txns st → 1 ≤ t_ID x ≤ next;
  si_sorted : StronglySorted id_lt (txns st);
}.
Record StoreInv (s : t) : Prop := {
  sinv_next : 0 ≤ nextID s;
  sinv_state u st : states s !! u = Some st → StateInv (nextID s) st;
}.

Lemma StateInv_mono next next' st : StateInv next st → next ≤ next' → StateInv next' st.
Proof. intros [? ? ? Hid ?] ?. split; try done. intros x Hx. specialize (Hid x Hx). lia. Qed.
Lemma noStarsState_Inv next : StateInv next noStarsState.
Proof. split; simpl; try done; [intros ? ?%not_elem_of_nil; done|constructor]. Qed.
Lemma StoreInv_default s u : StoreInv s → StateInv (nextID s) (default noStarsState (states s !! u)).
Proof.
  intros HI. destruct (states s !! u) as [st|] eqn:Hu; [by eapply sinv_state|apply noStarsState_Inv].
Qed.

Lemma StronglySorted_snoc {A} (R : A → A → Prop) xs x :
  StronglySorted R xs → (∀ y, y ∈ xs → R y x) → StronglySorted R (xs ++ [x]).
Proof.
  induction 1 as [|y xs Hs IH Hall]; intros Hx; simpl; [repeat constructor|].
  constructor; [apply IH; set_solver|]. apply Forall_app. split; [done|].
  apply Forall_singleton, Hx. set_solver.
Qed.

Lemma wrap64_add_wrap a b : wrap64 (wrap64 a + b) = wrap64 (a + b).
Proof.
  unfold wrap64.
  replace ((a + 9223372036854775808) mod 18446744073709551616 - 9223372036854775808 + b + 9223372036854775808)
    with ((a + 9223372036854775808) mod 18446744073709551616 + b) by lia.
  rewrite Zplus_mod_idemp_l. do 2 f_equal. lia.
Qed.

(** Appending a transaction of [delta] to a user whose balance moved by
    [delta] keeps the invariant. *)
Lemma appendTxn_Inv s st g u delta reason peer date title desc :
  StoreInv s → StateInv (nextID s) st → nextID s < i64_max →
  (credits (txns st) + Z.max 0 delta ≤ i64_max → 0 ≤ balance st + delta) →
  StoreInv (appendTxn (mkState (wrap64 (balance st + delta)) g (txns st)) u delta reason peer date title desc s).
Proof.
  intros [Hn Hst] [Hr Hw He Hid Hso] Hmax Hpos.
  assert (Hid1 : add64 (nextID s) 1 = nextID s + 1) by (apply add64_small; unfold i64_min; lia).
  unfold appendTxn. rewrite Hid1. split; simpl; [lia|].
  intros u' st' [[<- <-]|[_ Hu']]%lookup_insert_Some; [|by eapply StateInv_mono; [apply (Hst u')|lia]].
  split; simpl.
  - apply wrap64_range.
  - by rewrite total_snoc, Hw, wrap64_add_wrap.
  - rewrite credits_snoc, total_snoc. simpl. intros Hc.
    destruct He as [Hb Heq]; [lia|]. specialize (Hpos Hc). rewrite wrap64_small; [lia|].
    unfold i64_min. pose proof (credits_nonneg (txns st)). split; [lia|].
    assert (∀ xs, total xs ≤ credits xs) as Htc by (induction xs; simpl; lia).
    specialize (Htc (txns st)). lia.
  - intros x [Hx|Hx]%elem_of_app; [specialize (Hid x Hx); lia|].
    apply list_elem_of_singleton in Hx as ->. simpl. lia.
  - apply StronglySorted_snoc; [done|]. intros y Hy. unfold id_lt. simpl. specialize (Hid y Hy). lia.
Qed.

(** ** Runs of the ledger *)

Inductive op :=
| OGrant (userID amount date : Z)
| OCredit (userID amount : Z) (reason : StarsTransactionReason) (peer : Peer) (date : Z) (title desc : list Z)
| ODebit (userID amount : Z) (reason : StarsTransactionReason) (peer : Peer) (date : Z) (title desc : list Z).

Definition apply_op (s : t) (o : op) : t :=
  match o with
  | OGrant u a d => (EnsureGrant u a d s).1
  | OCredit u a r p d ti de => (Credit u a r p d ti de s).1
  | ODebit u a r p d ti de => (Debit u a r p d ti de s).1
  end.
Definition runOps (ops : list op) : t := foldl apply_op NewStarsStore ops.

Lemma appendTxn_next st u a r p d ti de s : nextID s < i64_max → 0 ≤ nextID s →
  nextID (appendTxn st u a r p d ti de s) = nextID s + 1.
Proof. intros. unfold appendTxn. simpl. apply add64_small. unfold i64_min. lia. Qed.

Lemma touch_Inv s u : StoreInv s → StoreInv (mkStore (<[u := default noStarsState (states s !! u)]> (states s)) (nextID s)).
Proof.
  intros HI. split; simpl; [apply HI|].
  intros u' st [[<- <-]|[_ ?]]%lookup_insert_Some; [by apply StoreInv_default|by eapply sinv_state].
Qed.

Lemma apply_op_Inv o s :
  StoreInv s → nextID s < i64_max →
  StoreInv (apply_op s o) ∧ nextID s ≤ nextID (apply_op s o) ≤ nextID s + 1.
Proof.
  intros HI Hmax. pose proof (sinv_next _ HI).
  destruct o as [u a d|u a r p d ti de|u a r p d ti de]; simpl.
  - unfold EnsureGrant. case_bool_decide; [simpl; split; [done|lia]|].
    pose proof (touch_Inv s u HI) as HI1.
    case_bool_decide; [simpl; split; [done|lia]|].
    destruct (granted _); [simpl; split; [done|lia]|]. cbn [fst]. split; [|rewrite appendTxn_next; simpl; lia].
    apply (appendTxn_Inv _ (default noStarsState (states s !! u)) true u a);
      [done|apply (StoreInv_default s u HI)|done|].
    intros Hc. destruct (si_exact _ _ (StoreInv_default s u HI)) as [Hb _]; lia.
  - unfold Credit. destruct (_ || _) eqn:Hg; [simpl; split; [done|lia]|]. cbn [fst].
    apply orb_false_iff in Hg as [_ Ha%bool_decide_eq_false].
    split; [|rewrite appendTxn_next; simpl; lia].
    apply (appendTxn_Inv _ (default noStarsState (states s !! u)) _ u a); [done|by apply StoreInv_default|done|].
    intros Hc. destruct (si_exact _ _ (StoreInv_default s u HI)) as [Hb _]; lia.
  - unfold Debit. destruct (_ || _) eqn:Hg; [simpl; split; [done|lia]|].
    apply orb_false_iff in Hg as [_ Ha%bool_decide_eq_false].
    destruct (states s !! u) as [st|] eqn:Hu; [|simpl; split; [done|lia]].
    case_bool_decide as Hb; [simpl; split; [done|lia]|]. cbn [fst].
    split; [|rewrite appendTxn_next; simpl; lia].
    pose proof (sinv_state _ HI _ _ Hu) as HS. destruct (si_range _ _ HS).
    unfold sub64. rewrite (wrap64_small (0 - a)) by (unfold i64_min, i64_max in *; lia).
    replace (balance st - a) with (balance st + (0 - a)) by lia.
    apply (appendTxn_Inv _ st _ u (0 - a)); [done|done|done|]. lia.
Qed.

Lemma runOps_Inv ops :
  Z.of_nat (length ops) ≤ i64_max → StoreInv (runOps ops) ∧ nextID (runOps ops) ≤ Z.of_nat (length ops).
Proof.
  induction ops as [|o ops IH] using rev_ind.
  { intros _. split; [|done]. split; [done|]. intros u st H.
    change (states (runOps [])) with (∅ : gmap Z starsState) in H. by rewrite lookup_empty in H. }
  rewrite length_app. simpl. intros Hlen. destruct IH as [HI Hn]; [lia|].
  unfold runOps in *. rewrite foldl_app. simpl.
  destruct (apply_op_Inv o _ HI) as [HI' Hn']; [lia|]. split; [done|lia].
Qed.

(** ** Pages *)

Abbreviation pick q c items := (filter (λ x, Is_true (matchesQuery q c x)) items).

Lemma collect_spec q c items out :
  0 ≤ q_Limit q → Z.of_nat (length out) ≤ q_Limit q + 1 →
  collect q c items out = out ++ take (Z.to_nat (q_Limit q) + 1 - length out) (pick q c items).
Proof.
  intros Hl. revert out. induction items as [|x items IH]; intros out Hout; simpl.
  { by rewrite filter_nil, take_nil, app_nil_r. }
  case_bool_decide as Hle.
  - destruct (matchesQuery q c x) eqn:Hm.
    + rewrite IH by (rewrite length_app; simpl; lia).
      rewrite filter_cons_True by (rewrite Hm; done). rewrite <-app_assoc, length_app. simpl length.
      replace (Z.to_nat (q_Limit q) + 1 - length out)%nat
        with (S (Z.to_nat (q_Limit q) + 1 - (length out + 1))) by lia. reflexivity.
    + rewrite IH by done. by rewrite filter_cons_False by (rewrite Hm; intros []).
  - replace (Z.to_nat (q_Limit q) + 1 - length out)%nat with 0%nat by lia. by rewrite take_0, app_nil_r.
Qed.

Lemma StronglySorted_mid {A} (R : A → A → Prop) L1 c L2 :
  StronglySorted R (L1 ++ c :: L2) → (∀ x, x ∈ L1 → R x c) ∧ (∀ x, x ∈ L2 → R c x).
Proof.
  induction L1 as [|y L1 IH]; simpl; intros [Hs Hall]%StronglySorted_inv; rewrite Forall_forall in Hall.
  - split; [intros x Hx; by apply not_elem_of_nil in Hx|done].
  - destruct (IH Hs) as [H1 H2]. split; [|done]. intros x [->|Hx]%elem_of_cons; [|auto].
    apply Hall. set_solver.
Qed.

(** Strictly ordered logs: what follows the last entry of a page is the rest. *)
Lemma sorted_drop {A} (R : A → A → Prop) `{∀ x y, Decision (R x y)} (L : list A) n c :
  (∀ x y, R x y → ¬ R y x) → StronglySorted R L → last (take n L) = Some c →
  filter (R c) L = drop n L.
Proof.
  intros Has Hs [L1 Heq]%last_Some.
  assert (HL : L = L1 ++ c :: drop n L) by (rewrite <-(take_drop n L) at 1; by rewrite Heq, <-app_assoc).
  revert HL. generalize (drop n L) as L2. intros L2 HL. rewrite HL in *.
  destruct (StronglySorted_mid _ _ _ _ Hs) as [H1 H2].
  rewrite filter_app, (list_filter_nil _ L1), filter_cons_False, list_filter_id; [done|done| |].
  - intros Hc. by eapply Has.
  - intros x Hx. apply Has; auto.
Qed.

Lemma StronglySorted_filter {A} (R : A → A → Prop) (P : A → Prop) `{∀ x, Decision (P x)} xs :
  StronglySorted R xs → StronglySorted R (filter P xs).
Proof.
  induction 1 as [|x xs Hs IH Hall]; [constructor|]. destruct (decide (P x)).
  - rewrite filter_cons_True by done. constructor; [done|]. rewrite Forall_forall in *.
    intros y [_ Hy]%list_elem_of_filter. auto.
  - by rewrite filter_cons_False.
Qed.
Lemma StronglySorted_reverse xs : StronglySorted id_lt xs → StronglySorted id_gt (reverse xs).
Proof.
  induction 1 as [|x xs Hs IH Hall]; [constructor|]. rewrite reverse_cons.
  apply StronglySorted_snoc; [done|]. rewrite Forall_forall in Hall.
  intros y Hy. apply Hall. by apply elem_of_reverse.
Qed.

(** The order of a page and the log in that order. *)
Definition inOrder (q : StarsTransactionQuery) (st : starsState) : list StarsTransaction :=
  if q_Ascending q then txns st else reverse (txns st).
Definition follows (q : StarsTransactionQuery) (a b : StarsTransaction) : Prop :=
  if q_Ascending q then id_lt a b else id_gt a b.
#[export] Instance follows_dec q a b : Decision (follows q a b).
Proof. unfold follows, id_lt, id_gt. destruct (q_Ascending q); apply _. Defined.

Lemma inOrder_sorted next q st : StateInv next st → StronglySorted (follows q) (inOrder q st).
Proof.
  intros HS. unfold follows, inOrder. pose proof (si_sorted _ _ HS).
  destruct (q_Ascending q); [done|by apply StronglySorted_reverse].
Qed.

(** A cursor at an entry selects the matching entries that follow it. *)
Lemma pick_after q x (items : list StarsTransaction) :
  pick q (Some (t_ID x)) items = filter (follows q x) (pick q None items).
Proof.
  rewrite list_filter_filter. apply list_filter_iff. intros y. unfold matchesQuery, follows, id_lt, id_gt.
  rewrite !andb_True. destruct (q_Ascending q); rewrite negb_True, bool_decide_spec; simpl; intuition lia.
Qed.

Definition normalized (q : StarsTransactionQuery) : Prop :=
  NormalizeStarsTransactionQuery q = inr q.
Lemma normalized_limit q : normalized q → 1 ≤ q_Limit q ≤ 100.
Proof.
  unfold normalized, NormalizeStarsTransactionQuery, MaxStarsTransactionsLimit.
  destruct (negb _); [done|]. intros [= Heq]. destruct q as [o l d a]. simpl in *.
  injection Heq as _ Hl. rewrite <-Hl. destruct (_ || _) eqn:E; [lia|].
  apply orb_false_iff in E as [?%bool_decide_eq_false ?%bool_decide_eq_false]. lia.
Qed.

Definition atOffset (q : StarsTransactionQuery) (o : list Z) : StarsTransactionQuery :=
  mkQuery o (q_Limit q) (q_Direction q) (q_Ascending q).
Lemma normalized_atOffset q o : normalized q → (length o ≤ 64)%nat → normalized (atOffset q o).
Proof.
  intros Hn Ho. pose proof (normalized_limit q Hn). unfold normalized, NormalizeStarsTransactionQuery in *.
  destruct (negb _); [done|]. simpl. unfold MaxStarsTransactionsOffsetBytes, MaxStarsTransactionsLimit.
  rewrite !bool_decide_eq_false_2 by lia. done.
Qed.
Lemma pick_atOffset q o c (items : list StarsTransaction) : pick (atOffset q o) c items = pick q c items.
Proof. done. Qed.

(** One page: the first [limit] matching entries, and a cursor at the last of
    them when there are more. *)
Lemma ListTransactions_spec u q s st c :
  u ≠ 0 → normalized q → states s !! u = Some st → DecodeStarsCursor (q_Offset q) = c →
  let L := pick q c (inOrder q st) in
  let page := take (Z.to_nat (q_Limit q)) L in
  ListTransactions u q s = inr (mkPage (balance st) page
    (if decide (Z.of_nat (length L) > q_Limit q)
     then EncodeStarsCursor (from_option t_ID 0 (last page)) else [])).
Proof.
  intros Hu Hn Hst Hc L page. pose proof (normalized_limit q Hn) as Hl. unfold ListTransactions.
  rewrite bool_decide_eq_false_2 by done. rewrite Hn, Hst, Hc. fold (inOrder q st).
  rewrite collect_spec by (simpl; lia). fold L. simpl. rewrite Nat.sub_0_r. rewrite length_take.
  destruct (decide (Z.of_nat (length L) > q_Limit q)) as [Hgt|Hle].
  - rewrite bool_decide_eq_true_2 by lia. rewrite take_take.
    replace (Z.to_nat (q_Limit q) `min` (Z.to_nat (q_Limit q) + 1))%nat with (Z.to_nat (q_Limit q)) by lia. done.
  - rewrite bool_decide_eq_false_2 by lia. unfold page. rewrite !take_ge by lia. done.
Qed.

(** The client's paging loop: follow [NextOffset] until it is empty. *)
Fixpoint allPages (fuel : nat) (u : Z) (q : StarsTransactionQuery) (s : t) (seen : list StarsTransaction)
    : option (list StarsTransaction) :=
  match fuel with
  | O => None
  | S fuel =>
    match ListTransactions u q s with
    | inl _ => None
    | inr page =>
      if bool_decide (p_NextOffset page = []) then Some (seen ++ p_Transactions page)
      else allPages fuel u (atOffset q (p_NextOffset page)) s (seen ++ p_Transactions page)
    end
  end.

Lemma follows_asym q x y : follows q x y → ¬ follows q y x.
Proof. unfold follows, id_lt, id_gt. destruct (q_Ascending q); lia. Qed.

Lemma pick_sorted next q c st : StateInv next st → StronglySorted (follows q) (pick q c (inOrder q st)).
Proof. intros HS. apply StronglySorted_filter. by eapply inOrder_sorted. Qed.

Lemma pick_elem q c st x : x ∈ pick q c (inOrder q st) → x ∈ txns st.
Proof.
  intros [_ Hx]%list_elem_of_filter. unfold inOrder in Hx. destruct (q_Ascending q); [done|].
  by apply elem_of_reverse.
Qed.

(** Paging from a cursor whose matching rest is [L]. *)
Lemma allPages_rest fuel u q s st seen next :
  u ≠ 0 → normalized q → states s !! u = Some st → StateInv next st → next ≤ i64_max →
  let L := pick q (DecodeStarsCursor (q_Offset q)) (inOrder q st) in
  (∀ x n, last (take n L) = Some x → pick q (Some (t_ID x)) (inOrder q st) = drop n L) →
  (length L < fuel)%nat → allPages fuel u q s seen = Some (seen ++ L).
Proof.
  intros Hu Hn Hst HS Hnext. revert q seen Hn. induction fuel as [|fuel IH]; intros q seen Hn L Hrest Hf; [lia|].
  pose proof (normalized_limit q Hn) as Hl. simpl.
  rewrite (ListTransactions_spec u q s st _ Hu Hn Hst eq_refl). fold L. simpl.
  destruct (decide (Z.of_nat (length L) > q_Limit q)) as [Hgt|Hle]; last first.
  { rewrite bool_decide_eq_true_2 by done. by rewrite take_ge by lia. }
  destruct (last (take (Z.to_nat (q_Limit q)) L)) as [x|] eqn:Hlast; last first.
  { apply last_None in Hlast. apply (f_equal length) in Hlast. rewrite length_take in Hlast. simpl in Hlast. lia. }
  simpl. assert (Hx : x ∈ txns st).
  { eapply pick_elem. eapply elem_of_take, last_Some_elem_of, Hlast. }
  pose proof (si_ids _ _ HS _ Hx). destruct (cursor_roundtrip_short (t_ID x)) as (Hdec & Hlen & Hne); [lia|].
  rewrite bool_decide_eq_false_2 by done. set (q' := atOffset q (EncodeStarsCursor (t_ID x))).
  assert (HL' : pick q' (DecodeStarsCursor (q_Offset q')) (inOrder q' st) = drop (Z.to_nat (q_Limit q)) L).
  { unfold q'. simpl. rewrite Hdec. by apply Hrest. }
  rewrite (IH q'); [rewrite HL', <-app_assoc, take_drop; done|apply normalized_atOffset; [done|lia]| |].
  - rewrite HL'. intros y n Hy. change (pick q' (Some (t_ID y)) (inOrder q' st))
      with (pick q (Some (t_ID y)) (inOrder q st)).
    rewrite drop_drop. apply Hrest.
    rewrite take_drop_commute in Hy. by eapply last_drop_Some.
  - rewrite HL', length_drop. lia.
Qed.

(** ** Properties *)

(** A cursor survives the client: every transaction id encodes to an
    opaque string that decodes to it, is never empty and is short enough to be
    accepted back. *)
Theorem stars_cursor_roundtrip id :
  0 < id ≤ i64_max →
  DecodeStarsCursor (EncodeStarsCursor id) = Some id ∧ EncodeStarsCursor id ≠ [] ∧
  Z.of_nat (length (EncodeStarsCursor id)) ≤ MaxStarsTransactionsOffsetBytes.
Proof.
  intros Hid. destruct (cursor_roundtrip_short id Hid) as (? & ? & ?). split_and!; [done|done|].
  unfold MaxStarsTransactionsOffsetBytes. lia.
Qed.

(** C38: after any sequence of grants, credits and debits the balance of every
    account is the (wrapping) sum of its transaction log; and while the
    account's credits add up to no more than an int64, it is the exact sum and
    never negative. *)
Theorem stars_balance_is_log_sum ops u st :
  Z.of_nat (length ops) ≤ i64_max → states (runOps ops) !! u = Some st →
  balance st = wrap64 (total (txns st)) ∧
  (credits (txns st) ≤ i64_max → 0 ≤ balance st ∧ balance st = total (txns st)).
Proof.
  intros Hlen Hst. destruct (runOps_Inv ops Hlen) as [HI _].
  destruct (sinv_state _ HI _ _ Hst) as [_ Hw He _ _]. done.
Qed.

(** Reading all pages by following the cursors terminates and yields
    every transaction of the requested direction exactly once, in the
    requested order, whatever the page size. *)
Theorem stars_pages_complete ops u st q fuel :
  Z.of_nat (length ops) ≤ i64_max → u ≠ 0 → states (runOps ops) !! u = Some st →
  normalized q → q_Offset q = [] → (length (txns st) < fuel)%nat →
  allPages fuel u q (runOps ops) [] =
    Some (filter (λ x, Is_true (IncludesAmount (q_Direction q) (t_Amount x)))
            (if q_Ascending q then txns st else reverse (txns st))).
Proof.
  intros Hlen Hu Hst Hn Ho Hf. destruct (runOps_Inv ops Hlen) as [HI Hnx].
  pose proof (sinv_state _ HI _ _ Hst) as HS.
  rewrite (allPages_rest fuel u q _ st [] _ Hu Hn Hst HS); [by rewrite Ho|lia| |].
  - rewrite Ho. simpl. intros x n Hx. rewrite pick_after.
    apply sorted_drop; [apply follows_asym|by eapply pick_sorted|done].
  - eapply Nat.le_lt_trans; [apply length_filter|]. unfold inOrder.
    destruct (q_Ascending q); [done|by rewrite length_reverse].
Qed.

(** Starting grants credited to [u] by the operations of a run from [s]. *)
Fixpoint grantsTo (u : Z) (ops : list op) (s : t) : Z :=
  match ops with
  | [] => 0
  | o :: ops =>
    match o with
    | OGrant u' a d => if bool_decide (u' = u) && (EnsureGrant u' a d s).2.2 then 1 else 0
    | _ => 0
    end + grantsTo u ops (apply_op s o)
  end.
Definition isGranted (u : Z) (s : t) : bool := from_option granted false (states s !! u).

Lemma apply_op_granted u o s : isGranted u s = true → isGranted u (apply_op s o) = true.
Proof.
  unfold isGranted. intros Hg. destruct (states s !! u) as [st|] eqn:Hst; [|done]. simpl in Hg.
  assert (Htouch : ∀ u', from_option granted false
    (<[u' := default noStarsState (states s !! u')]> (states s) !! u) = true).
  { intros u'. destruct (decide (u' = u)) as [->|]; [by rewrite lookup_insert_eq, Hst|].
    by rewrite lookup_insert_ne, Hst. }
  assert (Happ : ∀ u' st' b x s', granted st' = granted (default noStarsState (states s !! u')) ∨ granted st' = true →
    states s' !! u = states s !! u ∨ u' = u →
    from_option granted false (<[u' := mkState b (granted st') x]> (states s') !! u) = true).
  { intros u' st' b x s' Hor Hs'. destruct (decide (u' = u)) as [->|].
    - rewrite lookup_insert_eq. simpl. rewrite Hst in Hor. simpl in Hor. destruct Hor; congruence.
    - rewrite lookup_insert_ne by done. destruct Hs' as [->|]; [by rewrite Hst|done]. }
  destruct o as [u' a d|u' a r p d ti de|u' a r p d ti de]; simpl.
  - unfold EnsureGrant. case_bool_decide; simpl; [by rewrite Hst|]. case_bool_decide; simpl; [apply Htouch|].
    destruct (granted (default _ _)) eqn:Hgr; simpl; [apply Htouch|].
    destruct (decide (u' = u)) as [->|]; [by rewrite lookup_insert_eq|].
    rewrite lookup_insert_ne by done. apply Htouch.
  - unfold Credit. destruct (_ || _); simpl; [by rewrite Hst|]. apply (Happ u' (default noStarsState (states s !! u'))); auto.
  - unfold Debit. destruct (_ || _); simpl; [by rewrite Hst|].
    destruct (states s !! u') as [st'|] eqn:Hst'; simpl; [|by rewrite Hst].
    case_bool_decide; simpl; [by rewrite Hst|]. apply (Happ u' st'); auto. left. by rewrite Hst'.
Qed.

Lemma EnsureGrant_result u a d s :
  (EnsureGrant u a d s).2.2 = true → isGranted u s = false ∧ isGranted u (EnsureGrant u a d s).1 = true.
Proof.
  unfold EnsureGrant, isGranted. repeat case_bool_decide; simpl; try done.
  destruct (states s !! u) as [st|]; simpl.
  - destruct (granted st); [done|]. simpl. by rewrite lookup_insert_eq.
  - by rewrite lookup_insert_eq.
Qed.

Lemma grantsTo_le u ops s : 0 ≤ grantsTo u ops s ≤ if isGranted u s then 0 else 1.
Proof.
  revert s. induction ops as [|o ops IH]; intros s; simpl; [destruct (isGranted u s); lia|].
  specialize (IH (apply_op s o)). pose proof (apply_op_granted u o s) as Hk.
  destruct o as [u' a d|u' a r p d ti de|u' a r p d ti de]; simpl in *.
  - destruct (bool_decide (u' = u) && (EnsureGrant u' a d s).2.2) eqn:Hg.
    + apply andb_true_iff in Hg as [->%bool_decide_eq_true Hr].
      destruct (EnsureGrant_result _ _ _ _ Hr) as [H1 H2]. rewrite H1. rewrite H2 in IH. lia.
    + destruct (isGranted u s); [rewrite (Hk eq_refl) in IH|destruct (isGranted u _)]; lia.
  - destruct (isGranted u s); [rewrite (Hk eq_refl) in IH|destruct (isGranted u _)]; lia.
  - destruct (isGranted u s); [rewrite (Hk eq_refl) in IH|destruct (isGranted u _)]; lia.
Qed.

(** The starting balance is granted at most once per account, in any
    sequence of operations and whatever amounts are configured. *)
Theorem stars_grant_once u ops : grantsTo u ops NewStarsStore ≤ 1.
Proof. apply (grantsTo_le u ops NewStarsStore). Qed.

(** A debit is all or nothing: it succeeds exactly when the amount is
    positive and covered by the balance, then moves the balance by exactly the
    amount and logs one negative entry for that account only; otherwise the
    store is unchanged. *)
Theorem stars_debit_all_or_nothing ops u amount reason peer date title desc :
  Z.of_nat (length ops) < i64_max → u ≠ 0 →
  let s := runOps ops in
  let '(s', r) := Debit u amount reason peer date title desc s in
  match r with
  | inr b => ∃ st st' x, states s !! u = Some st ∧ 0 < amount ≤ balance st ∧
      states s' !! u = Some st' ∧ balance st' = balance st - amount ∧ b_Balance b = balance st' ∧
      txns st' = txns st ++ [x] ∧ t_Amount x = - amount ∧
      ∀ u', u' ≠ u → states s' !! u' = states s !! u'
  | inl err => s' = s ∧ (amount ≤ 0 ∨ ∀ st, states s !! u = Some st → balance st < amount)
  end.
Proof.
  intros Hlen Hu. destruct (runOps_Inv ops ltac:(lia)) as [HI Hn]. cbv zeta. revert HI Hn.
  generalize (runOps ops) as s. intros s HI Hn. unfold Debit.
  rewrite (bool_decide_eq_false_2 (u = 0)) by done. simpl.
  case_bool_decide as Ha; [split; [done|by left]|].
  destruct (states s !! u) as [st|] eqn:Hst; [|split; [done|right; intros ? [=]]].
  case_bool_decide as Hb; [split; [done|right; by intros ? [= <-]]|].
  pose proof (sinv_state _ HI _ _ Hst) as HS. destruct (si_range _ _ HS).
  assert (Hs1 : sub64 (balance st) amount = balance st - amount)
    by (apply sub64_small; unfold i64_min in *; lia).
  assert (Hs2 : sub64 0 amount = - amount) by (rewrite sub64_small; unfold i64_min, i64_max in *; lia).
  unfold appendTxn, balanceOf. simpl. rewrite Hs1, Hs2.
  eexists st, _, _. rewrite lookup_insert_eq. split_and!; [done|lia|lia|done|simpl; lia|done|done|done|].
  intros u' Hne. by rewrite lookup_insert_ne.
Qed.

(** A new account can spend its starting grant before it ever read its
    balance: the service applies the grant first. *)
Theorem stars_first_debit_uses_grant grant now u amount reason peer title desc s :
  u ≠ 0 → states s !! u = None → 0 < amount ≤ grant → grant ≤ i64_max →
  ∃ s' b, StarsService.Debit grant now u amount reason peer title desc s = (s', inr b) ∧
    b_Balance b = grant - amount ∧ b_Granted b = true.
Proof.
  intros Hu Hst Ha Hg. unfold StarsService.Debit, StarsService.ensureGranted, EnsureGrant.
  rewrite (bool_decide_eq_false_2 (amount ≤ 0)), (bool_decide_eq_true_2 (grant > 0)) by lia.
  rewrite (bool_decide_eq_false_2 (u = 0)) by done. rewrite Hst. simpl.
  rewrite (bool_decide_eq_false_2 (grant ≤ 0)) by lia. simpl.
  unfold Debit. rewrite (bool_decide_eq_false_2 (u = 0)), (bool_decide_eq_false_2 (amount ≤ 0)) by (done || lia).
  simpl. rewrite lookup_insert_eq. simpl. rewrite add64_small by (unfold i64_min; lia).
  rewrite bool_decide_eq_false_2 by lia. eexists _, _. split; [done|]. simpl.
  split; [|done]. rewrite sub64_small; unfold i64_min; lia.
Qed.

(** A giveaway form that passes validation splits its Stars exactly: the
    number of winners times the Stars of each is the total, with no wrap-around
    in the int64 product. *)
Theorem stars_giveaway_split_exact form g :
  StarsService.validPurchaseCommand form = true → StarsService.Kind form = StarsService.StarsPurchaseGiveaway →
  StarsService.Giveaway form = Some g → StarsService.Stars form ≤ i64_max →
  StarsService.Users g * StarsService.PerUserStars g = StarsService.Stars form ∧
  1 ≤ StarsService.Users g ∧ 1 ≤ StarsService.PerUserStars g.
Proof.
  intros Hv Hk Hg Hmax. unfold StarsService.validPurchaseCommand in Hv. rewrite Hk, Hg in Hv.
  destruct (_ || _) eqn:Hguard; [done|]. rewrite !orb_false_iff, !bool_decide_eq_false in Hguard.
  rewrite !andb_true_iff, !bool_decide_eq_true in Hv. unfold StarsService.mul64 in Hv.
  set (n := StarsService.Users g) in *. set (p := StarsService.PerUserStars g) in *.
  set (S := StarsService.Stars form) in *.
  destruct Hv as (_ & (((((_ & _) & _) & Hn) & Hp) & Hdiv) & Hmul).
  assert (Hle : n * p ≤ S).
  { rewrite Z.quot_div_nonneg in Hdiv by lia. pose proof (Z.mul_div_le S p ltac:(lia)). nia. }
  rewrite wrap64_small in Hmul; [lia|]. unfold i64_min. nia.
Qed.

(** Crediting past the int64 range wraps the balance to a negative number. *)
Lemma stars_credit_can_overflow :
  let top := OCredit 1 i64_max StarsReasonTopup noPeer 0 [] [] in
  balance (default noStarsState (states (runOps [top; top]) !! 1)) = -2.
Proof. vm_compute. reflexivity. Qed.

(** ** Runs on a concrete ledger *)

Module StarsRuns.
Definition ops : list op :=
  [OGrant 7 1000 1; OCredit 7 50 StarsReasonTopup noPeer 2 [] []; ODebit 7 30 StarsReasonGift noPeer 3 [] [];
   OCredit 8 5 StarsReasonTopup noPeer 4 [] []; ODebit 7 20 StarsReasonGift noPeer 5 [] []].
Definition q : StarsTransactionQuery := mkQuery [] 1 StarsTransactionDirectionOutgoing false.
Definition st7 : starsState := default noStarsState (states (runOps ops) !! 7).

Lemma stars_cursor_roundtrip_witness : DecodeStarsCursor (EncodeStarsCursor 907) = Some 907.
Proof. refine (proj1 (stars_cursor_roundtrip 907 _)). split; [done|vm_compute; discriminate]. Defined.

Lemma stars_balance_is_log_sum_witness : balance st7 = wrap64 (total (txns st7)) ∧ balance st7 = 1000.
Proof.
  split; [|vm_compute; reflexivity].
  refine (proj1 (stars_balance_is_log_sum ops 7 st7 _ _)); [vm_compute; discriminate|vm_compute; reflexivity].
Defined.

Lemma stars_pages_complete_witness :
  allPages 10 7 q (runOps ops) [] =
  Some (filter (λ x, Is_true (IncludesAmount 2 (t_Amount x))) (reverse (txns st7))).
Proof.
  apply (stars_pages_complete ops 7 st7 q 10);
    [vm_compute; discriminate|done|vm_compute; reflexivity|reflexivity|reflexivity|vm_compute; lia].
Defined.

Lemma stars_debit_all_or_nothing_witness :
  ∃ s' b, Debit 7 900 StarsReasonGift noPeer 6 [] [] (runOps ops) = (s', inr b) ∧
    ∃ st, states (runOps ops) !! 7 = Some st ∧ 0 < 900 ≤ balance st.
Proof.
  pose proof (stars_debit_all_or_nothing ops 7 900 StarsReasonGift noPeer 6 [] []) as H.
  assert (Hok : match Debit 7 900 StarsReasonGift noPeer 6 [] [] (runOps ops) with
    (_, inr _) => true | _ => false end = true) by (vm_compute; reflexivity).
  cbv zeta in H. destruct (Debit 7 900 StarsReasonGift noPeer 6 [] [] (runOps ops)) as [s' [err|b]]; [discriminate|].
  destruct H as (st & st' & x & Hst & Hle & _); [vm_compute; reflexivity|done|].
  exists s', b. split; [reflexivity|]. by exists st.
Defined.

Lemma stars_first_debit_uses_grant_witness :
  ∃ s' b, StarsService.Debit 1000 9 7 30 StarsReasonGift noPeer [] [] NewStarsStore = (s', inr b) ∧
    b_Balance b = 970.
Proof.
  destruct (stars_first_debit_uses_grant 1000 9 7 30 StarsReasonGift noPeer [] [] NewStarsStore)
    as (s' & b & H1 & H2 & _); [done|reflexivity|lia|vm_compute; discriminate|].
  by exists s', b.
Defined.

Definition giveaway : StarsService.StarsGiveawayPurchase :=
  StarsService.mkGiveaway (mkPeer PeerTypeChannel 4) 77 1700000000 10 50.
Definition form : StarsService.StarsPurchaseForm :=
  StarsService.mkForm 1 StarsService.StarsPurchaseGiveaway 7 0 noPeer (Some giveaway) 500 [85] 999 1 601.
Lemma stars_giveaway_split_exact_witness : StarsService.Users giveaway * StarsService.PerUserStars giveaway = 500.
Proof.
  refine (proj1 (stars_giveaway_split_exact form giveaway _ _ _ _));
    [vm_compute; reflexivity|reflexivity|reflexivity|vm_compute; discriminate].
Defined.
End StarsRuns.
