(* ===== verification/BulkScheduler.v ===== *)
(** * The bulk RPC scheduler

    [internal/mtprotoedge/bulk_rpc_scheduler.go]: a bounded number of runnable
    file handlers, a first-come-first-served queue of leases, and the
    notification of waiters.  Leases are shared by pointer and live in a heap;
    a method that holds the scheduler lock is one step, and the callbacks it
    invokes after unlocking are returned in order. *)

From S2P Require Import Prelude.

Module Bulk.

(** Callbacks are compared by nobody: the address of a closure. *)
Abbreviation callback := positive.

Record bulkRPCLease := mkLease {
  granted : bool;
  released : bool;
  notified : bool;
  notify : option callback;
}.

Record bulkRPCScheduler := mkScheduler {
  max : Z;
  inUse : Z;
  waiters : list positive;
  closed : bool;
  leases : gmap positive bulkRPCLease;
}.

(** A call [notify(ok)] for a lease. *)
Record notice := mkNotice { n_lease : positive; n_callback : callback; n_ok : bool }.

Definition newBulkRPCScheduler (m : Z) : bulkRPCScheduler :=
  mkScheduler (if bool_decide (m ≤ 0) then 1 else m) 0 [] false ∅.

Definition set_lease (l : positive) (x : bulkRPCLease) (s : bulkRPCScheduler) : bulkRPCScheduler :=
  mkScheduler (max s) (inUse s) (waiters s) (closed s) (<[l := x]> (leases s)).

Definition reserve (s : bulkRPCScheduler) : bulkRPCScheduler * positive :=
  let l := fresh (dom (leases s)) in
  (if closed s then set_lease l (mkLease false true false None) s
   else if bool_decide (inUse s < max s)
   then mkScheduler (max s) (inUse s + 1) (waiters s) (closed s)
          (<[l := mkLease true false false None]> (leases s))
   else mkScheduler (max s) (inUse s) (waiters s ++ [l]) (closed s)
          (<[l := mkLease false false false None]> (leases s)), l).

Definition subscribe (l : positive) (cb : callback) (s : bulkRPCScheduler)
    : Run (bulkRPCScheduler * list notice) :=
  x ← deref (leases s !! l);
  let shouldNotify := (granted x || released x) && negb (notified x) in
  Done (set_lease l (mkLease (granted x) (released x) (notified x || shouldNotify) (Some cb)) s,
        if shouldNotify then [mkNotice l cb (granted x)] else []).

(** The notification of a lease resolved with [ok], and its new flag. *)
Definition wake (l : positive) (x : bulkRPCLease) (ok : bool) : bool * list notice :=
  match notify x with
  | Some cb => if notified x then (true, []) else (true, [mkNotice l cb ok])
  | None => (notified x, [])
  end.

(** The loop that hands free slots to the queue. *)
Fixpoint grantLoop (ws : list positive) (s : bulkRPCScheduler) (ns : list notice)
    : Run (bulkRPCScheduler * list notice) :=
  match ws with
  | [] => Done (mkScheduler (max s) (inUse s) [] (closed s) (leases s), ns)
  | w :: ws' =>
    if negb (closed s) && bool_decide (inUse s < max s) then
      next ← deref (leases s !! w);
      if released next then grantLoop ws' s ns
      else
        let '(seen, ns') := wake w next true in
        grantLoop ws'
          (mkScheduler (max s) (inUse s + 1) (waiters s) (closed s)
             (<[w := mkLease true false seen (notify next)]> (leases s)))
          (ns ++ ns')
    else Done (mkScheduler (max s) (inUse s) ws (closed s) (leases s), ns)
  end.

Definition release (l : positive) (s : bulkRPCScheduler) : Run (bulkRPCScheduler * list notice) :=
  x ← deref (leases s !! l);
  if released x then Done (s, [])
  else
    let s := mkScheduler (max s) (if granted x then inUse s - 1 else inUse s) (waiters s) (closed s)
               (<[l := mkLease false true (notified x) (notify x)]> (leases s)) in
    grantLoop (waiters s) s [].

(** [close]: every waiter is resolved with [false]. *)
Fixpoint closeLoop (ws : list positive) (s : bulkRPCScheduler) (ns : list notice)
    : Run (bulkRPCScheduler * list notice) :=
  match ws with
  | [] => Done (s, ns)
  | w :: ws =>
    x ← deref (leases s !! w);
    if released x then closeLoop ws s ns
    else
      let '(seen, ns') := wake w x false in
      closeLoop ws (set_lease w (mkLease (granted x) true seen (notify x)) s) (ns ++ ns')
  end.
Definition close (s : bulkRPCScheduler) : Run (bulkRPCScheduler * list notice) :=
  let s := mkScheduler (max s) (inUse s) (waiters s) true (leases s) in
  '(s, ns) ← closeLoop (waiters s) s [];
  Done (mkScheduler (max s) (inUse s) [] (closed s) (leases s), ns).

(** ** Admission: credit first, slot second *)

Record bulkRPCAdmission := mkAdmission { lease : option positive; a_released : bool }.
Definition newBulkRPCAdmission : bulkRPCAdmission := mkAdmission None false.

(** Where the closure [subscribeAfter] hands to the credit stands: each of its
    critical sections is one step, and other threads run in between. *)
Inductive creditPC :=
  | CIdle
  | CReserved (l : positive)
  | CDropping (l : positive)
  | CAttached (l : positive)
  | CDone (l : option positive).

(** A call of the callback behind a notice. *)
Definition call (n : notice) : callback * bool := (n_callback n, n_ok n).

(** One critical section of the closure, for the outcome [success] of the
    credit and the callback [cb] of [subscribeAfter]; the calls of callbacks
    the section ends with are returned in order. *)
Definition creditStep (success : bool) (cb : callback) (a : bulkRPCAdmission) (pc : creditPC)
    (s : bulkRPCScheduler)
    : Run (bulkRPCAdmission * creditPC * bulkRPCScheduler * list (callback * bool)) :=
  match pc with
  | CIdle =>
    if negb success then Done (a, CDone None, s, [(cb, false)])
    else let '(s, l) := reserve s in Done (a, CReserved l, s, [])
  | CReserved l =>
    if a_released a then Done (a, CDropping l, s, [])
    else Done (mkAdmission (Some l) (a_released a), CAttached l, s, [])
  | CDropping l =>
    '(s, ns) ← release l s; Done (a, CDone None, s, map call ns ++ [(cb, false)])
  | CAttached l =>
    '(s, ns) ← subscribe l cb s; Done (a, CDone (Some l), s, map call ns)
  | CDone _ => Done (a, pc, s, [])
  end.

(** The critical section of [bulkRPCAdmission.release]; the lease it returns
    is released next, outside the lock. *)
Definition releaseAdmission (a : bulkRPCAdmission) : bulkRPCAdmission * option positive :=
  if a_released a then (a, None) else (mkAdmission None true, lease a).

(** ** Invariant *)

Definition grantedZ (x : bulkRPCLease) : Z := if granted x then 1 else 0.

Record Inv (s : bulkRPCScheduler) : Prop := {
  inv_use : inUse s = msum (λ _ x, grantedZ x) (leases s);
  inv_cap : inUse s ≤ max s;
  inv_excl l x : leases s !! l = Some x → granted x = true → released x = false;
  inv_waiters w : w ∈ waiters s → ∃ x, leases s !! w = Some x ∧ granted x = false;
  inv_nodup : NoDup (waiters s);
  inv_busy : inUse s < max s → waiters s = [];
  inv_closed : closed s = true → waiters s = [];
  inv_waits l x : leases s !! l = Some x → granted x = false → released x = false → l ∈ waiters s;
  inv_told l x : leases s !! l = Some x → granted x = true → is_Some (notify x) → notified x = true;
}.

Lemma bulk_new_Inv m : Inv (newBulkRPCScheduler m).
Proof.
  split; simpl; intros; try done; try (by rewrite lookup_empty in *).
  - case_bool_decide; lia.
  - by apply not_elem_of_nil in H.
  - constructor.
Qed.

(** The invariant inside a loop: [ws] is the queue that is left. *)
Record LoopInv (s : bulkRPCScheduler) (ws : list positive) : Prop := {
  li_use : inUse s = msum (λ _ x, grantedZ x) (leases s);
  li_cap : inUse s ≤ max s;
  li_excl l x : leases s !! l = Some x → granted x = true → released x = false;
  li_waiters w : w ∈ ws → ∃ x, leases s !! w = Some x ∧ granted x = false;
  li_nodup : NoDup ws;
  li_waits l x : leases s !! l = Some x → granted x = false → released x = false → l ∈ ws;
  li_told l x : leases s !! l = Some x → granted x = true → is_Some (notify x) → notified x = true;
}.
Lemma Inv_loop s : Inv s → LoopInv s (waiters s).
Proof. intros []. by split. Qed.
Lemma LoopInv_Inv s ws :
  LoopInv s ws → (inUse s < max s → ws = []) → (closed s = true → ws = []) →
  Inv (mkScheduler (max s) (inUse s) ws (closed s) (leases s)).
Proof. intros [] ??. by split. Qed.

(** Notifications sent to a lease so far. *)
Definition told (l : positive) (s : bulkRPCScheduler) : Z :=
  from_option (λ x, if notified x then 1 else 0) 0 (leases s !! l).
Definition sent (l : positive) (ns : list notice) : Z :=
  Z.of_nat (length (filter (λ n, n_lease n = l) ns)).
Lemma sent_app l ns ns' : sent l (ns ++ ns') = sent l ns + sent l ns'.
Proof. unfold sent. rewrite filter_app, length_app. lia. Qed.

Lemma wake_sent w x ok l :
  let '(seen, ns) := wake w x ok in
  sent l ns = (if decide (w = l) then (if seen then 1 else 0) - (if notified x then 1 else 0) else 0) ∧
  (is_Some (notify x) → seen = true) ∧ (notified x = true → seen = true).
Proof.
  unfold wake, sent. destruct (notify x) as [cb|], (notified x) eqn:Hn; simpl; (split; [|done || split; intros; try done; by destruct H]).
  - by case_decide.
  - rewrite filter_cons. simpl. repeat case_decide; done.
  - by case_decide.
  - by case_decide.
Qed.

Lemma bulk_told_insert l w x s m i ws c :
  told l (mkScheduler m i ws c (<[w := x]> (leases s))) =
  if decide (w = l) then (if notified x then 1 else 0) else told l s.
Proof. unfold told. simpl. case_decide; subst; [by rewrite lookup_insert_eq|by rewrite lookup_insert_ne]. Qed.

Lemma grantLoop_ok ws s ns :
  LoopInv s ws → (closed s = true → ws = []) →
  ∃ s' ns', grantLoop ws s ns = Done (s', ns ++ ns') ∧ Inv s' ∧ max s' = max s ∧ closed s' = closed s ∧
    (∀ l, sent l ns' = told l s' - told l s).
Proof.
  revert s ns. induction ws as [|w ws IH]; intros s ns HI Hc; simpl.
  { eexists _, []. rewrite app_nil_r. split; [done|]. split; [by apply LoopInv_Inv|].
    split; [done|]. split; [done|]. intros l. unfold told, sent. simpl. lia. }
  destruct (closed s) eqn:Hcl; [by specialize (Hc eq_refl)|]. simpl.
  case_bool_decide as Hlt; last first.
  { eexists _, []. rewrite app_nil_r. split; [done|].
    split; [rewrite <-Hcl; apply LoopInv_Inv; [done|lia|congruence]|].
    split; [done|]. split; [done|]. intros l. unfold told, sent. simpl. lia. }
  pose proof HI as [Huse Hcap Hex Hw Hnd Hwt Ht].
  destruct (Hw w) as (x & Hx & Hg); [set_solver|]. rewrite Hx. simpl.
  apply NoDup_cons in Hnd as [Hnin Hnd]. destruct (released x) eqn:Hr.
  - rewrite <-Hcl. apply IH; [|congruence]. split; try done; [set_solver|].
    intros l y Hy Hgy Hry. destruct (decide (l = w)) as [->|]; [congruence|].
    specialize (Hwt _ _ Hy Hgy Hry). set_solver.
  - pose proof (λ l, wake_sent w x true l) as Hwake. destruct (wake w x true) as [seen ns1].
    set (s1 := mkScheduler _ _ _ _ _).
    destruct (IH s1 (ns ++ ns1)) as (s' & ns' & Heq & HI' & Hm & Hcl' & Hs'); [|simpl; congruence|].
    + split; simpl; [| |intros l y [[<- <-]|[_ ?]]%lookup_insert_Some; [done|by eapply Hex]| |done| |].
      * rewrite (msum_update _ _ _ _ _ Hx). unfold grantedZ at 2 3. rewrite Hg. simpl. lia.
      * lia.
      * intros w' Hin. destruct (Hw w') as (y & ? & ?); [set_solver|]. exists y.
        rewrite lookup_insert_ne by set_solver. done.
      * intros l y [[<- <-]|[Hne Hy]]%lookup_insert_Some; [done|]. intros Hgy Hry.
        specialize (Hwt _ _ Hy Hgy Hry). set_solver.
      * intros l y [[<- <-]|[_ ?]]%lookup_insert_Some; [|by eapply Ht]. simpl. intros _. by apply Hwake.
    + exists s', (ns1 ++ ns'). rewrite app_assoc. split; [done|]. split; [done|]. split; [done|].
      split; [simpl in Hcl'; congruence|]. intros l. rewrite sent_app, Hs'. unfold s1.
      rewrite bulk_told_insert. destruct (Hwake l) as [-> _]. simpl. case_decide as Hd; [|lia].
      unfold told. rewrite <-Hd, Hx. simpl. lia.
Qed.

Lemma bulk_reserve_ok s :
  Inv s → Inv (reserve s).1 ∧ leases s !! (reserve s).2 = None ∧ is_Some (leases (reserve s).1 !! (reserve s).2) ∧
  max (reserve s).1 = max s ∧ ∀ l, told l (reserve s).1 = told l s.
Proof.
  intros [Huse Hcap Hex Hw Hnd Hb Hc Hwt Ht]. unfold reserve. set (l := fresh (dom (leases s))).
  assert (Hl : leases s !! l = None) by apply not_elem_of_dom, is_fresh.
  assert (Hfresh : l ∉ waiters s). { intros Hin. destruct (Hw l Hin) as (x & ? & _). congruence. }
  assert (Hother : ∀ w x, w ∈ waiters s → ∃ y, <[l := x]> (leases s) !! w = Some y ∧ granted y = false).
  { intros w x Hin. rewrite lookup_insert_ne by congruence. auto. }
  assert (Htold : ∀ l' x m i ws c, notified x = false → told l' (mkScheduler m i ws c (<[l := x]> (leases s))) = told l' s).
  { intros l' x m i ws c Hn. rewrite bulk_told_insert. case_decide; [|done]. subst l'. unfold told. rewrite Hl, Hn. done. }
  cbn [fst snd]. split; [|split; [done|]].
  - destruct (closed s) eqn:Hcl; [|case_bool_decide as Hlt].
    + split; simpl; try done.
      * by rewrite msum_insert.
      * intros l' x [[<- <-]|[_ ?]]%lookup_insert_Some; [done|by eapply Hex].
      * intros w Hin. by apply Hother.
      * intros _. by apply Hc.
      * intros l' x [[<- <-]|[_ ?]]%lookup_insert_Some; [done|]. by apply Hwt.
      * intros l' x [[<- <-]|[_ ?]]%lookup_insert_Some; [done|by eapply Ht].
    + pose proof (Hb Hlt) as Hnil. split; simpl; try done.
      * rewrite msum_insert by done. unfold grantedZ at 1. simpl. lia.
      * lia.
      * intros l' x [[<- <-]|[_ ?]]%lookup_insert_Some; [done|by eapply Hex].
      * intros w Hin. by apply Hother.
      * intros l' x [[<- <-]|[_ ?]]%lookup_insert_Some; [done|]. by apply Hwt.
      * intros l' x [[<- <-]|[_ ?]]%lookup_insert_Some; [intros _ [? ?]; done|by eapply Ht].
    + split; simpl; try done.
      * by rewrite msum_insert.
      * intros l' x [[<- <-]|[_ ?]]%lookup_insert_Some; [done|by eapply Hex].
      * intros w [Hin| ->%list_elem_of_singleton]%elem_of_app; [by apply Hother|].
        rewrite lookup_insert_eq. by eexists.
      * apply NoDup_app. split; [done|]. split; [set_solver|apply NoDup_singleton].
      * intros l' x [[<- <-]|[_ ?]]%lookup_insert_Some ??; [set_solver|]. apply elem_of_app. left. by eapply Hwt.
      * intros l' x [[<- <-]|[_ ?]]%lookup_insert_Some; [done|by eapply Ht].
  - destruct (closed s); [|case_bool_decide]; simpl; rewrite lookup_insert_eq; (split; [by eexists|split; [done|]]);
      intros l'; by apply Htold.
Qed.

Lemma bulk_subscribe_ok l cb s :
  Inv s → is_Some (leases s !! l) →
  ∃ s' ns, subscribe l cb s = Done (s', ns) ∧ Inv s' ∧ max s' = max s ∧ ∀ l', sent l' ns = told l' s' - told l' s.
Proof.
  intros [Huse Hcap Hex Hw Hnd Hb Hc Hwt Ht] [x Hx]. unfold subscribe. rewrite Hx. simpl.
  eexists _, _. split; [done|]. split; [|split; [done|]].
  - split; simpl; try done.
    + rewrite (msum_update _ _ _ _ _ Hx). unfold grantedZ at 2 3. simpl. lia.
    + intros l' y [[<- <-]|[_ ?]]%lookup_insert_Some; simpl; by eapply Hex.
    + intros w Hin. destruct (Hw w Hin) as (y & Hy & Hgy). destruct (decide (l = w)) as [->|].
      * rewrite lookup_insert_eq. eexists. split; [done|]. simpl. congruence.
      * rewrite lookup_insert_ne by done. eauto.
    + intros l' y [[<- <-]|[_ ?]]%lookup_insert_Some; simpl; by eapply Hwt.
    + intros l' y [[<- <-]|[_ ?]]%lookup_insert_Some; simpl; [|by eapply Ht].
      intros Hg _. rewrite Hg. simpl. by destruct (notified x).
  - intros l'. unfold set_lease. rewrite bulk_told_insert. simpl. case_decide as Hd.
    + subst l'. unfold told. rewrite Hx. simpl.
      destruct (granted x), (released x), (notified x); simpl; unfold sent; rewrite ?filter_cons; simpl;
        rewrite ?decide_True by done; done.
    + destruct (_ && _); unfold sent; rewrite ?filter_cons; simpl; rewrite ?decide_False by done; simpl; lia.
Qed.

Lemma bulk_release_ok l s :
  Inv s → is_Some (leases s !! l) →
  ∃ s' ns, release l s = Done (s', ns) ∧ Inv s' ∧ max s' = max s ∧ ∀ l', sent l' ns = told l' s' - told l' s.
Proof.
  intros HI [x Hx]. pose proof HI as [Huse Hcap Hex Hw Hnd Hb Hc Hwt Ht]. unfold release. rewrite Hx. simpl.
  destruct (released x) eqn:Hr.
  { eexists _, []. split; [done|]. split; [done|]. split; [done|]. intros. unfold sent. simpl. lia. }
  set (s1 := mkScheduler _ _ _ _ _).
  destruct (grantLoop_ok (waiters s) s1 []) as (s' & ns & -> & HI' & Hm & _ & Hs).
  - split; simpl; try done.
    + rewrite (msum_update _ _ _ _ _ Hx). unfold grantedZ at 2 3. simpl. destruct (granted x); lia.
    + destruct (granted x); lia.
    + intros l' y [[<- <-]|[_ ?]]%lookup_insert_Some; [done|by eapply Hex].
    + intros w Hin. destruct (Hw w Hin) as (y & Hy & Hgy). destruct (decide (l = w)) as [->|].
      * rewrite lookup_insert_eq. by eexists.
      * rewrite lookup_insert_ne by done. eauto.
    + intros l' y [[<- <-]|[_ ?]]%lookup_insert_Some; [done|by eapply Hwt].
    + intros l' y [[<- <-]|[_ ?]]%lookup_insert_Some; [done|by eapply Ht].
  - done.
  - exists s', ns. split; [done|]. split; [done|]. split; [done|]. intros l'. rewrite Hs. unfold s1.
    rewrite bulk_told_insert. simpl. case_decide as Hd; [|done]. subst l'. unfold told at 3. rewrite Hx. done.
Qed.

Lemma closeLoop_ok ws s ns :
  LoopInv s ws → ∃ s' ns', closeLoop ws s ns = Done (s', ns ++ ns') ∧ LoopInv s' [] ∧ max s' = max s ∧
    closed s' = closed s ∧ (∀ l, sent l ns' = told l s' - told l s) ∧
    (∀ w x, w ∈ ws → leases s' !! w = Some x → released x = true ∧
       (∀ y, leases s !! w = Some y → released y = false → is_Some (notify y) → notified x = true)) ∧
    (∀ w, w ∉ ws → leases s' !! w = leases s !! w).
Proof.
  revert s ns. induction ws as [|w ws IH]; intros s ns HI; simpl.
  { exists s, []. rewrite app_nil_r. split_and!; try done; [|set_solver]. intros. unfold sent. simpl. lia. }
  pose proof HI as [Huse Hcap Hex Hw Hnd Hwt Ht].
  destruct (Hw w) as (x & Hx & Hg); [set_solver|]. rewrite Hx. simpl. apply NoDup_cons in Hnd as [Hnin Hnd].
  destruct (released x) eqn:Hr.
  - destruct (IH s ns) as (s' & ns' & -> & HI' & Hm & Hcl & Hs & Hrel & Hsame).
    { split; try done; [set_solver|]. intros l y Hy Hgy Hry. destruct (decide (l = w)) as [->|]; [congruence|].
      specialize (Hwt _ _ Hy Hgy Hry). set_solver. }
    exists s', ns'. split_and!; try done; [|set_solver].
    intros w' y [->|Hin]%elem_of_cons Hy; [|by apply Hrel].
    rewrite (Hsame w Hnin), Hx in Hy. injection Hy as <-. split; [done|]. intros y Hy. congruence.
  - pose proof (λ l, wake_sent w x false l) as Hwake. destruct (wake w x false) as [seen ns1].
    set (s1 := set_lease _ _ _).
    destruct (IH s1 (ns ++ ns1)) as (s' & ns' & -> & HI' & Hm & Hcl & Hs & Hrel & Hsame).
    { split; simpl; try done.
      - rewrite (msum_update _ _ _ _ _ Hx). unfold grantedZ at 2 3. simpl. lia.
      - intros l y [[<- <-]|[_ ?]]%lookup_insert_Some; [simpl; congruence|by eapply Hex].
      - intros w' Hin. destruct (Hw w') as (y & ? & ?); [set_solver|]. exists y.
        rewrite lookup_insert_ne by set_solver. done.
      - intros l y [[<- <-]|[Hne Hy]]%lookup_insert_Some; [done|]. intros Hgy Hry.
        specialize (Hwt _ _ Hy Hgy Hry). set_solver.
      - intros l y [[<- <-]|[_ ?]]%lookup_insert_Some; [simpl; congruence|by eapply Ht]. }
    exists s', (ns1 ++ ns'). rewrite app_assoc. split_and!; try done.
    + intros l. rewrite sent_app, Hs. unfold s1, set_lease. rewrite bulk_told_insert. destruct (Hwake l) as [-> _].
      simpl. case_decide as Hd; [|lia]. unfold told. rewrite <-Hd, Hx. simpl. lia.
    + intros w' y [->|Hin]%elem_of_cons Hy.
      * rewrite (Hsame w Hnin) in Hy. simpl in Hy. rewrite lookup_insert_eq in Hy. injection Hy as <-. simpl.
        split; [done|]. intros y Hy _ Hnot. rewrite Hx in Hy. injection Hy as <-.
        destruct (Hwake w) as (_ & Hseen & _). by apply Hseen.
      * destruct (Hrel w' y Hin Hy) as [? Hn]. split; [done|]. intros z Hz. apply Hn. simpl.
        rewrite lookup_insert_ne by congruence. done.
    + intros w' Hw'. rewrite Hsame by set_solver. simpl. rewrite lookup_insert_ne by set_solver. done.
Qed.

Lemma bulk_close_ok s :
  Inv s → ∃ s' ns, close s = Done (s', ns) ∧ Inv s' ∧ max s' = max s ∧ closed s' = true ∧
    (∀ l, sent l ns = told l s' - told l s) ∧
    (∀ w x, w ∈ waiters s → leases s' !! w = Some x → released x = true ∧
       (∀ y, leases s !! w = Some y → released y = false → is_Some (notify y) → notified x = true)).
Proof.
  intros HI. unfold close. simpl.
  destruct (closeLoop_ok (waiters s) (mkScheduler (max s) (inUse s) (waiters s) true (leases s)) [])
    as (s' & ns & -> & HI' & Hm & Hcl & Hs & Hrel & _).
  { destruct (Inv_loop s HI). by split. }
  simpl. eexists _, ns. split; [done|]. split; [by apply LoopInv_Inv|]. split; [done|]. split; [done|].
  split; [exact Hs|exact Hrel].
Qed.
End Bulk.
