(* ===== verification/BulkProps.v ===== *)
(** * Executions of the bulk scheduler with its admissions

    A task is one bulk RPC: its [bulkRPCAdmission], the closure that waits for
    the ACK-window credit, and the lease a release is about to give back.  The
    labels are the critical sections of [bulk_rpc_scheduler.go]; a run is any
    interleaving of them. *)

From S2P Require Import Prelude BulkScheduler.
Import Bulk.

Record task := mkTask { t_adm : bulkRPCAdmission; t_pc : creditPC; t_rel : option positive }.

(** [resolved] is every call of a task's callback, oldest first; the callback
    of task [t] is [t]. *)
Record sys := mkSys {
  sched : bulkRPCScheduler;
  tasks : gmap positive task;
  resolved : list (callback * bool);
}.

Inductive label :=
  | LAdmit (t : positive)
  | LCredit (t : positive) (success : bool)
  | LRelease (t : positive)
  | LGiveBack (t : positive)
  | LClose.

Definition exec (lbl : label) (st : sys) : Run sys :=
  match lbl with
  | LAdmit t =>
    match tasks st !! t with
    | None => Done (mkSys (sched st) (<[t := mkTask newBulkRPCAdmission CIdle None]> (tasks st)) (resolved st))
    | Some _ => Done st
    end
  | LCredit t success =>
    match tasks st !! t with
    | None => Done st
    | Some k =>
      '(a, pc, s, cs) ← creditStep success t (t_adm k) (t_pc k) (sched st);
      Done (mkSys s (<[t := mkTask a pc (t_rel k)]> (tasks st)) (resolved st ++ cs))
    end
  | LRelease t =>
    match tasks st !! t with
    | None => Done st
    | Some k =>
      let '(a, r) := releaseAdmission (t_adm k) in
      Done (mkSys (sched st) (<[t := mkTask a (t_pc k) (if r then r else t_rel k)]> (tasks st)) (resolved st))
    end
  | LGiveBack t =>
    match tasks st !! t with
    | None => Done st
    | Some k =>
      match t_rel k with
      | None => Done st
      | Some l =>
        '(s, ns) ← release l (sched st);
        Done (mkSys s (<[t := mkTask (t_adm k) (t_pc k) None]> (tasks st)) (resolved st ++ map call ns))
      end
    end
  | LClose =>
    '(s, ns) ← close (sched st);
    Done (mkSys s (tasks st) (resolved st ++ map call ns))
  end.

Fixpoint run (ls : list label) (st : sys) : Run sys :=
  match ls with
  | [] => Done st
  | l :: ls => st ← exec l st; run ls st
  end.
Definition start (m : Z) : sys := mkSys (newBulkRPCScheduler m) ∅ [].

(** ** How leases evolve *)

(** Leases are kept and so is their callback, [released] is for good, and a
    lease other than [tgt] is released only by telling its callback. *)
Record keeps (tgt : option positive) (l : positive) (x y : bulkRPCLease) : Prop := {
  kp_notify : notify y = notify x;
  kp_released : released x = true → released y = true;
  kp_notified : notified x = true → notified y = true;
  kp_quiet : notify x = None → notified y = notified x;
  kp_told : tgt ≠ Some l → released y = true → released x = true ∨ (is_Some (notify x) → notified y = true);
}.
Definition Evolves (tgt : option positive) (s s' : bulkRPCScheduler) : Prop :=
  ∀ l, option_relation (keeps tgt l) (λ _, False) (λ _, False) (leases s !! l) (leases s' !! l).
(** Every notice carries the callback of its lease. *)
Definition Sound (ns : list notice) (s : bulkRPCScheduler) : Prop :=
  ∀ n, n ∈ ns → ∃ x, leases s !! n_lease n = Some x ∧ notify x = Some (n_callback n).

Lemma keeps_refl tgt l x : keeps tgt l x x.
Proof. split; auto. Qed.
Lemma keeps_trans tgt l x y z : keeps tgt l x y → keeps tgt l y z → keeps tgt l x z.
Proof.
  intros [] []. split; try congruence; auto.
  - intros Hn. etrans; [|auto]. apply kp_quiet1. congruence.
  - intros Ht Hz. destruct (kp_told1 Ht Hz) as [Hy|Hy].
    + destruct (kp_told0 Ht Hy) as [|Hx]; [by left|right; auto].
    + right. rewrite <-kp_notify0. done.
Qed.
Lemma Evolves_same tgt s s' : leases s' = leases s → Evolves tgt s s'.
Proof. intros Heq l. rewrite Heq. destruct (leases s !! l); simpl; [apply keeps_refl|done]. Qed.
#[export] Instance Evolves_preorder tgt : PreOrder (Evolves tgt).
Proof.
  split; [intros s; by apply Evolves_same|].
  intros s1 s2 s3 H12 H23 l. specialize (H12 l). specialize (H23 l).
  destruct (leases s1 !! l), (leases s2 !! l), (leases s3 !! l); simpl in *; try done. by eapply keeps_trans.
Qed.
Lemma Evolves_insert tgt w x y s m i ws c :
  leases s !! w = Some x → keeps tgt w x y → Evolves tgt s (mkScheduler m i ws c (<[w := y]> (leases s))).
Proof.
  intros Hx Hk l. simpl. destruct (decide (w = l)) as [->|].
  - by rewrite Hx, lookup_insert_eq.
  - rewrite lookup_insert_ne by done. destruct (leases s !! l); simpl; [apply keeps_refl|done].
Qed.
Lemma Evolves_Some tgt s s' l x :
  Evolves tgt s s' → leases s !! l = Some x → ∃ y, leases s' !! l = Some y ∧ keeps tgt l x y.
Proof. intros He Hx. specialize (He l). rewrite Hx in He. destruct (leases s' !! l); simpl in He; [eauto|done]. Qed.
Lemma Evolves_back tgt s s' l y :
  Evolves tgt s s' → leases s' !! l = Some y → ∃ x, leases s !! l = Some x ∧ keeps tgt l x y.
Proof. intros He Hx. specialize (He l). rewrite Hx in He. destruct (leases s !! l); simpl in He; [eauto|done]. Qed.
Lemma Sound_evolves tgt ns s s' : Evolves tgt s s' → Sound ns s → Sound ns s'.
Proof.
  intros He Hs n Hin. destruct (Hs n Hin) as (x & Hx & Hc). destruct (Evolves_Some _ _ _ _ _ He Hx) as (y & ? & Hk).
  exists y. split; [done|]. destruct Hk. congruence.
Qed.
Lemma Sound_app ns ns' s : Sound ns s → Sound ns' s → Sound (ns ++ ns') s.
Proof. intros H H' n [?|?]%elem_of_app; auto. Qed.
Lemma Sound_nil s : Sound [] s.
Proof. intros n ?%not_elem_of_nil. done. Qed.

Lemma wake_keeps tgt w x g ok m i ws c s r :
  leases s !! w = Some x → released x = false → r = false ∨ r = negb ok →
  let '(seen, ns) := wake w x ok in
  keeps tgt w x (mkLease g r seen (notify x)) ∧
  Sound ns (mkScheduler m i ws c (<[w := mkLease g r seen (notify x)]> (leases s))).
Proof.
  intros Hx Hr Hok. unfold wake. destruct (notify x) as [cb|] eqn:Hn; [destruct (notified x) eqn:Hno|]; simpl.
  all: split; [split; simpl; rewrite ?Hn; (congruence || eauto)|try apply Sound_nil].
  - intros n ->%list_elem_of_singleton. simpl. rewrite lookup_insert_eq. by eexists.
  - intros _ _. right. by intros [].
Qed.

Lemma grantLoop_evolves tgt ws s ns s' ns' :
  grantLoop ws s ns = Done (s', ns') → Evolves tgt s s' ∧ (Sound ns s → Sound ns' s').
Proof.
  revert s ns. induction ws as [|w ws IH]; intros s ns; simpl.
  { intros [= <- <-]. split; [by apply Evolves_same|done]. }
  destruct (negb (closed s) && _); [|intros [= <- <-]; split; [by apply Evolves_same|done]].
  destruct (leases s !! w) as [x|] eqn:Hx; [|done]. simpl. destruct (released x) eqn:Hr; [apply IH|].
  pose proof (wake_keeps tgt w x true true (max s) (inUse s + 1) (waiters s) (closed s) s false Hx Hr ltac:(by left)) as Hw.
  destruct (wake w x true) as [seen ns1]. destruct Hw as [Hk Hs].
  pose proof (Evolves_insert tgt w x _ s (max s) (inUse s + 1) (waiters s) (closed s) Hx Hk) as He.
  intros [He' Hs']%IH. split; [by etrans|]. intros Hns. apply Hs', Sound_app; [by eapply Sound_evolves|done].
Qed.
Lemma closeLoop_evolves tgt ws s ns s' ns' :
  closeLoop ws s ns = Done (s', ns') → Evolves tgt s s' ∧ (Sound ns s → Sound ns' s').
Proof.
  revert s ns. induction ws as [|w ws IH]; intros s ns; simpl.
  { intros [= <- <-]. split; [by apply Evolves_same|done]. }
  destruct (leases s !! w) as [x|] eqn:Hx; [|done]. simpl. destruct (released x) eqn:Hr; [apply IH|].
  pose proof (wake_keeps tgt w x (granted x) false (max s) (inUse s) (waiters s) (closed s) s true Hx Hr ltac:(by right)) as Hw.
  destruct (wake w x false) as [seen ns1]. destruct Hw as [Hk Hs].
  pose proof (Evolves_insert tgt w x _ s (max s) (inUse s) (waiters s) (closed s) Hx Hk) as He.
  intros [He' Hs']%IH. split; [by etrans|]. intros Hns. apply Hs', Sound_app; [by eapply Sound_evolves|done].
Qed.

(** What a critical section that resolves leases guarantees. *)
Record Progress (tgt : option positive) (s s' : bulkRPCScheduler) (ns : list notice) : Prop := {
  pr_inv : Inv s';
  pr_max : max s' = max s;
  pr_evolves : Evolves tgt s s';
  pr_sound : Sound ns s';
  pr_sent l : sent l ns = told l s' - told l s;
}.

Lemma release_progress l s :
  Inv s → is_Some (leases s !! l) →
  ∃ s' ns, release l s = Done (s', ns) ∧ Progress (Some l) s s' ns ∧ ∃ y, leases s' !! l = Some y ∧ released y = true.
Proof.
  intros HI [x Hx]. destruct (bulk_release_ok l s HI ltac:(by eexists)) as (s' & ns & Hrel & HI' & Hm & Hsent).
  exists s', ns. split; [done|]. revert Hrel. unfold release. rewrite Hx. simpl.
  destruct (released x) eqn:Hr.
  { intros [= <- <-]. split; [|eauto]. split; try done. apply Sound_nil. }
  intros Hg. apply (grantLoop_evolves (Some l)) in Hg as [He Hs].
  pose proof (Evolves_Some _ _ _ l _ He (lookup_insert_eq _ _ _)) as (y & Hy & [_ Hry _ _ _]).
  split; [|exists y; split; [done|by apply Hry]]. split; [done|done| |apply Hs, Sound_nil|done].
  etrans; [|exact He]. eapply Evolves_insert; [done|]. by split; simpl; auto.
Qed.
Lemma close_progress s : Inv s → ∃ s' ns, close s = Done (s', ns) ∧ Progress None s s' ns ∧ closed s' = true.
Proof.
  intros HI. destruct (bulk_close_ok s HI) as (s' & ns & Hc & HI' & Hm & Hcl & Hsent & _).
  exists s', ns. split; [done|]. split; [|done]. revert Hc. unfold close. simpl.
  destruct (closeLoop _ _ _) as [[s1 ns1]|] eqn:Heq; [|done]. simpl. intros [= <- <-].
  apply (closeLoop_evolves None) in Heq as [He Hs]. split; [done|done| | |done].
  - etrans; [|etrans; [exact He|by apply Evolves_same]]. by apply Evolves_same.
  - eapply (Sound_evolves None); [by apply Evolves_same|apply Hs, Sound_nil].
Qed.

(** ** The invariant of the whole system *)

(** The lease a closure has reserved. *)
Definition pcLease (pc : creditPC) : option positive :=
  match pc with
  | CIdle => None
  | CReserved l | CDropping l | CAttached l => Some l
  | CDone l => l
  end.
(** The leases a task is responsible for giving back. *)
Definition owns (k : task) (l : positive) : Prop :=
  t_pc k = CReserved l ∨ t_pc k = CDropping l ∨ t_rel k = Some l ∨ lease (t_adm k) = Some l.
Definition calls (t : callback) (cs : list (callback * bool)) : Z :=
  Z.of_nat (length (filter (λ c, c.1 = t) cs)).
(** The calls a task has received, from where its closure stands. *)
Definition due (s : bulkRPCScheduler) (pc : creditPC) : Z :=
  match pc with
  | CDone None => 1
  | CDone (Some l) => told l s
  | _ => 0
  end.
Lemma calls_app t cs cs' : calls t (cs ++ cs') = calls t cs + calls t cs'.
Proof. unfold calls. rewrite filter_app, length_app. lia. Qed.

(** Tasks and leases point at each other consistently. *)
Record Linked (s : bulkRPCScheduler) (T : gmap positive task) : Prop := {
  li_known t k l : T !! t = Some k → pcLease (t_pc k) = Some l ∨ owns k l → is_Some (leases s !! l);
  li_sub l x cb : leases s !! l = Some x → notify x = Some cb → ∃ k, T !! cb = Some k ∧ t_pc k = CDone (Some l);
  li_uniq t k t' k' l : T !! t = Some k → T !! t' = Some k' →
    pcLease (t_pc k) = Some l → pcLease (t_pc k') = Some l → t = t';
  li_quiet l x : leases s !! l = Some x → notify x = None → notified x = false;
}.

(** A released admission holds no lease, a lease is attached once, and only a
    released admission has a lease on its way back. *)
Record TaskOk (k : task) : Prop := {
  ok_released : a_released (t_adm k) = true → lease (t_adm k) = None;
  ok_held l : lease (t_adm k) = Some l → t_pc k = CAttached l ∨ t_pc k = CDone (Some l);
  ok_back l : t_rel k = Some l → a_released (t_adm k) = true ∧ (t_pc k = CAttached l ∨ t_pc k = CDone (Some l));
}.

Record SysInv (st : sys) : Prop := {
  si_inv : Inv (sched st);
  si_linked : Linked (sched st) (tasks st);
  si_owned l x : leases (sched st) !! l = Some x → released x = false → ∃ t k, tasks st !! t = Some k ∧ owns k l;
  si_task t k : tasks st !! t = Some k → TaskOk k;
  si_heard t k l x : tasks st !! t = Some k → t_pc k = CDone (Some l) → lease (t_adm k) = Some l →
    leases (sched st) !! l = Some x → notify x = Some t ∧ (released x = true → notified x = true);
  si_none t : tasks st !! t = None → calls t (resolved st) = 0;
  si_calls t k : tasks st !! t = Some k → calls t (resolved st) = due (sched st) (t_pc k);
}.

(** The calls made by notices are the notices of the task's own lease. *)
Lemma calls_notices s T ns t :
  Linked s T → Sound ns s →
  calls t (map call ns) =
  match T !! t with
  | Some k => match t_pc k with CDone (Some l) => sent l ns | _ => 0 end
  | None => 0
  end.
Proof.
  intros [_ Hsub Huniq _] Hs. induction ns as [|n ns IH].
  { unfold calls, sent. simpl. by destruct (T !! t) as [[? []]|]; try destruct l. }
  assert (IH' : Sound ns s) by (intros m Hm; apply Hs; set_solver). specialize (IH IH').
  destruct (Hs n) as (x & Hx & Hc); [set_solver|]. destruct (Hsub _ _ _ Hx Hc) as (k & Hk & Hpc).
  change (map call (n :: ns)) with ([call n] ++ map call ns). rewrite calls_app, IH.
  assert (Hcn : calls t [call n] = if decide (n_callback n = t) then 1 else 0).
  { unfold calls. rewrite filter_cons. simpl. by repeat case_decide. }
  assert (Hsn : ∀ l, sent l (n :: ns) = (if decide (n_lease n = l) then 1 else 0) + sent l ns).
  { intros l. unfold sent. rewrite filter_cons. repeat case_decide; simpl; lia. }
  rewrite Hcn. destruct (decide (n_callback n = t)) as [<-|Hne].
  { rewrite Hk, Hpc, Hsn, decide_True by done. done. }
  destruct (T !! t) as [k'|] eqn:Hk'; [|done]. destruct (t_pc k') as [| | | |[l|]] eqn:Hpc'; try done.
  rewrite Hsn, decide_False; [done|]. intros <-. apply Hne.
  apply (Huniq _ k _ k' (n_lease n)); [done|done|by rewrite Hpc|by rewrite Hpc'].
Qed.

Lemma due_progress tgt s s' ns pc :
  Progress tgt s s' ns →
  due s' pc = due s pc + match pc with CDone (Some l) => sent l ns | _ => 0 end.
Proof. intros HP. destruct pc as [| | | |[l|]]; simpl; try lia. rewrite (pr_sent _ _ _ _ HP l). lia. Qed.

(** ** Preservation *)

Lemma Linked_progress tgt s s' ns T : Progress tgt s s' ns → Linked s T → Linked s' T.
Proof.
  intros [_ _ He _ _] [Hk Hs Hu Hq]. split.
  - intros t k l Ht Hl. destruct (Hk t k l Ht Hl) as [x Hx].
    destruct (Evolves_Some _ _ _ _ _ He Hx) as (y & Hy & _). by eexists.
  - intros l x cb Hx Hn. destruct (Evolves_back _ _ _ _ _ He Hx) as (y & Hy & []).
    apply (Hs l y); [done|congruence].
  - done.
  - intros l x Hx Hn. destruct (Evolves_back _ _ _ _ _ He Hx) as (y & Hy & [? _ _ Hquiet _]).
    assert (notify y = None) as Hy' by congruence. rewrite Hquiet by done. by eapply Hq.
Qed.

(** A task whose closure keeps its lease, or has none, can be updated. *)
Lemma Linked_task s T t k k' :
  Linked s T → T !! t = Some k →
  (∀ l, pcLease (t_pc k') = Some l → pcLease (t_pc k) = Some l) →
  (∀ l, t_pc k = CDone (Some l) → t_pc k' = CDone (Some l)) →
  (∀ l, owns k' l → owns k l ∨ pcLease (t_pc k) = Some l) →
  Linked s (<[t := k']> T).
Proof.
  intros [Hk Hs Hu Hq] Ht Hl Hd Ho. split; [| | |done].
  - intros u j l [[<- <-]|[_ Hj]]%lookup_insert_Some Hor; [|by eapply Hk].
    apply (Hk t k); [done|]. destruct Hor as [?|Hown]; [left; auto|].
    destruct (Ho _ Hown) as [?|?]; [by right|by left].
  - intros l x cb Hx Hn. destruct (Hs l x cb Hx Hn) as (j & Hj & Hpc). destruct (decide (t = cb)) as [->|].
    + rewrite lookup_insert_eq. exists k'. split; [done|]. apply Hd. congruence.
    + rewrite lookup_insert_ne by done. eauto.
  - intros u j u' j' l [[<- <-]|[Hu1 Hj]]%lookup_insert_Some [[<- <-]|[Hu2 Hj']]%lookup_insert_Some Hp Hp'; try done.
    + apply Hl in Hp. by eapply (Hu t k).
    + apply Hl in Hp'. by eapply (Hu _ _ t k).
    + by eapply (Hu u j u' j').
Qed.

Lemma Progress_refl s : Inv s → Progress None s s [].
Proof. intros HI. split; [done|done|done|apply Sound_nil|]. intros. unfold sent. simpl. lia. Qed.

(** A lease other than the target keeps its promise to its callback. *)
Lemma Heard_progress tgt s s' ns t l x :
  Progress tgt s s' ns → tgt ≠ Some l → leases s' !! l = Some x →
  (∀ y, leases s !! l = Some y → notify y = Some t ∧ (released y = true → notified y = true)) →
  notify x = Some t ∧ (released x = true → notified x = true).
Proof.
  intros HP Hne Hx Hy. destruct (Evolves_back _ _ _ _ _ (pr_evolves _ _ _ _ HP) Hx) as (y & Hly & [Hn _ Hno _ Htold]).
  destruct (Hy y Hly) as [Hny Hry]. split; [congruence|]. intros Hr.
  destruct (Htold Hne Hr) as [?|Hk]; [by auto|]. apply Hk. by eexists.
Qed.

(** The common shape of a step: one task moves, leases evolve, and besides the
    notices only that task's callback may be called. *)
Lemma SysInv_step tgt st t k k' s' ns extra :
  SysInv st → tasks st !! t = Some k → Progress tgt (sched st) s' ns →
  (∀ l, tgt = Some l → pcLease (t_pc k) = Some l) →
  (∀ l, lease (t_adm k') = Some l → t_pc k' ≠ CDone (Some l)) →
  (∀ l, pcLease (t_pc k') = Some l → pcLease (t_pc k) = Some l) →
  (∀ l, t_pc k = CDone (Some l) → t_pc k' = CDone (Some l)) →
  (∀ l, owns k' l → owns k l ∨ pcLease (t_pc k) = Some l) →
  (∀ l, owns k l → owns k' l ∨ ∃ y, leases s' !! l = Some y ∧ released y = true) →
  TaskOk k' →
  (∀ u, calls u extra = if decide (u = t) then due s' (t_pc k') - due s' (t_pc k) else 0) →
  SysInv (mkSys s' (<[t := k']> (tasks st)) (resolved st ++ map call ns ++ extra)).
Proof.
  intros [HI HL Hown Hadm Hheard Hnone Hcalls] Ht HP Htgt Hmute H1 H2 H3 H4 H5 H6.
  pose proof (Linked_progress _ _ _ _ _ HP HL) as HL'.
  assert (Hcount : ∀ u, calls u (resolved st ++ map call ns ++ extra) =
      match tasks st !! u with Some j => due s' (t_pc j) | None => 0 end +
      if decide (u = t) then due s' (t_pc k') - due s' (t_pc k) else 0).
  { intros u. rewrite !calls_app, H6, (calls_notices _ _ _ _ HL' (pr_sound _ _ _ _ HP)).
    destruct (tasks st !! u) as [j|] eqn:Hj; [|rewrite Hnone by done; lia].
    rewrite (Hcalls _ _ Hj), (due_progress _ _ _ _ (t_pc j) HP). lia. }
  split; simpl.
  - apply HP.
  - eapply Linked_task; eauto.
  - intros l x Hx Hr. destruct (Evolves_back _ _ _ _ _ (pr_evolves _ _ _ _ HP) Hx) as (y & Hy & [_ Hyr _ _ _]).
    destruct (Hown l y Hy) as (u & j & Hj & Ho); [destruct (released y); naive_solver|].
    destruct (decide (u = t)) as [->|].
    + exists t, k'. rewrite lookup_insert_eq. split; [done|]. assert (j = k) as -> by congruence.
      destruct (H4 l Ho) as [|(z & Hz & ?)]; [done|congruence].
    + exists u, j. rewrite lookup_insert_ne by done. done.
  - intros u j [[<- <-]|[_ Hj]]%lookup_insert_Some; [done|]. by eapply Hadm.
  - intros u j l x [[<- <-]|[Hne Hj]]%lookup_insert_Some Hpc Hl Hx; [by destruct (Hmute l)|].
    apply (Heard_progress tgt (sched st) s' ns u l x HP); [|done|intros y Hy; by apply (Hheard u j l)].
    intros Heq. apply Hne. apply (li_uniq _ _ HL t k u j l); [done|done|by apply Htgt|by rewrite Hpc].
  - intros u Hu. rewrite Hcount. apply lookup_insert_None in Hu as [-> Hu]. by rewrite decide_False.
  - intros u j. rewrite Hcount. intros [[<- <-]|[Hne Hj]]%lookup_insert_Some.
    + rewrite Ht, decide_True by done. lia.
    + rewrite Hj, decide_False by done. lia.
Qed.

Lemma SysInv_reserve st t k :
  SysInv st → tasks st !! t = Some k → t_pc k = CIdle →
  SysInv (mkSys (reserve (sched st)).1
    (<[t := mkTask (t_adm k) (CReserved (reserve (sched st)).2) (t_rel k)]> (tasks st)) (resolved st)).
Proof.
  intros [HI [Hk Hs Hu Hq] Hown Hadm Hheard Hnone Hcalls] Ht Hpc.
  destruct (bulk_reserve_ok (sched st) HI) as (HI' & Hnew & [x Hx] & Hm & Htold).
  assert (Hrest : ∀ l, l ≠ (reserve (sched st)).2 → leases (reserve (sched st)).1 !! l = leases (sched st) !! l).
  { intros l Hl. unfold reserve in *. simpl in *.
    destruct (closed _); [|case_bool_decide]; simpl; by rewrite lookup_insert_ne. }
  assert (Hxn : notify x = None ∧ notified x = false).
  { revert Hx. unfold reserve. simpl. destruct (closed _); [|case_bool_decide]; simpl;
      rewrite lookup_insert_eq; by intros [= <-]. }
  set (s' := (reserve (sched st)).1) in *. set (l0 := (reserve (sched st)).2) in *. clearbody s' l0.
  assert (Hold : ∀ u j l, tasks st !! u = Some j → pcLease (t_pc j) = Some l ∨ owns j l → l ≠ l0).
  { intros u j l Hj Hor ->. destruct (Hk _ _ _ Hj Hor). congruence. }
  split; simpl; [done| | | | | |].
  - split.
    + intros u j l [[<- <-]|[_ Hj]]%lookup_insert_Some Hor.
      * destruct (decide (l = l0)) as [->|Hne]; [by eexists|]. rewrite Hrest by done.
        apply (Hk t k); [done|]. unfold owns in *. simpl in *. rewrite Hpc. naive_solver.
      * rewrite Hrest by (by eapply Hold). by eapply Hk.
    + intros l y cb Hy Hn. destruct (decide (l = l0)) as [->|Hne]; [naive_solver congruence|].
      rewrite Hrest in Hy by done. destruct (Hs _ _ _ Hy Hn) as (j & Hj & Hpcj). exists j.
      rewrite lookup_insert_ne; [done|]. intros ->. congruence.
    + intros u j u' j' l [[<- <-]|[Hu1 Hj]]%lookup_insert_Some [[<- <-]|[Hu2 Hj']]%lookup_insert_Some Hp Hp'; try done.
      * simpl in Hp. exfalso. eapply (Hold u' j'); [done|by left|congruence].
      * simpl in Hp'. exfalso. eapply (Hold u j); [done|by left|congruence].
      * by eapply (Hu u j u' j').
    + intros l y Hy Hn. destruct (decide (l = l0)) as [->|Hne]; [naive_solver congruence|].
      rewrite Hrest in Hy by done. by eapply Hq.
  - intros l y Hy Hr. destruct (decide (l = l0)) as [->|Hne].
    + exists t, (mkTask (t_adm k) (CReserved l0) (t_rel k)). rewrite lookup_insert_eq. split; [done|]. by left.
    + rewrite Hrest in Hy by done. destruct (Hown l y Hy Hr) as (u & j & Hj & Ho). destruct (decide (t = u)) as [->|].
      * exists u, (mkTask (t_adm k) (CReserved l0) (t_rel k)). rewrite lookup_insert_eq. split; [done|].
        assert (j = k) as -> by congruence. unfold owns in *. simpl. rewrite Hpc in Ho. naive_solver.
      * exists u, j. rewrite lookup_insert_ne by done. done.
  - intros u j [[<- <-]|[_ Hj]]%lookup_insert_Some; [|by eapply Hadm].
    destruct (Hadm _ _ Ht) as [? Hheld Hback]. split; simpl; [done| |]; intros l Hl;
      [destruct (Hheld l Hl)|destruct (Hback l Hl) as [_ []]]; congruence.
  - intros u j l y [[<- <-]|[Hne Hj]]%lookup_insert_Some; [done|]. intros Hpcj Hl. rewrite Hrest; [by apply (Hheard u j)|].
    apply (Hold u j); [done|]. rewrite Hpcj. by left.
  - intros u Hn. apply lookup_insert_None in Hn as [? ?]. auto.
  - intros u j [[<- <-]|[_ Hj]]%lookup_insert_Some; [by rewrite (Hcalls _ _ Ht), Hpc|].
    rewrite (Hcalls _ _ Hj). unfold due. destruct (t_pc j) as [| | | |[l|]]; auto.
Qed.

Lemma SysInv_subscribe st t k l :
  SysInv st → tasks st !! t = Some k → t_pc k = CAttached l →
  ∃ s' ns, subscribe l t (sched st) = Done (s', ns) ∧ max s' = max (sched st) ∧
    SysInv (mkSys s' (<[t := mkTask (t_adm k) (CDone (Some l)) (t_rel k)]> (tasks st)) (resolved st ++ map call ns)).
Proof.
  intros [HI [Hk Hs Hu Hq] Hown Hadm Hheard Hnone Hcalls] Ht Hpc.
  assert (Hpl : pcLease (t_pc k) = Some l) by (by rewrite Hpc).
  destruct (Hk t k l Ht (or_introl Hpl)) as [x Hx].
  assert (Hxn : notify x = None).
  { destruct (notify x) as [cb|] eqn:Hn; [|done]. destruct (Hs _ _ _ Hx Hn) as (j & Hj & Hjpc).
    assert (cb = t) as -> by (eapply (Hu cb j t k); [done|done|by rewrite Hjpc|done]). congruence. }
  pose proof (Hq _ _ Hx Hxn) as Hxq.
  destruct (bulk_subscribe_ok l t (sched st) HI ltac:(by eexists)) as (s' & ns & Heq & HI' & Hm & Hsent).
  exists s', ns. split; [done|]. split; [done|]. revert Heq. unfold subscribe. rewrite Hx. simpl. rewrite Hxq.
  intros [= Hs' Hns]. set (T' := <[t := _]> _).
  assert (HL : Linked s' T').
  { subst s' T'. split; simpl.
    - intros u j l' [[<- <-]|[_ Hj]]%lookup_insert_Some Hor; apply lookup_insert_is_Some';
        right; [|by eapply Hk]. apply (Hk t k); [done|]. unfold owns in *. rewrite Hpc in *. simpl in *. naive_solver.
    - intros l' y cb [[<- <-]|[Hne Hy]]%lookup_insert_Some; simpl.
      + intros [= <-]. rewrite lookup_insert_eq. by eexists.
      + intros Hn. destruct (Hs _ _ _ Hy Hn) as (j & Hj & Hpcj). exists j.
        rewrite lookup_insert_ne; [done|]. intros ->. congruence.
    - intros u j u' j' l' [[<- <-]|[Hu1 Hj]]%lookup_insert_Some [[<- <-]|[Hu2 Hj']]%lookup_insert_Some Hp Hp'; try done.
      + simpl in Hp. eapply (Hu t k u' j'); [done|done|done|congruence].
      + simpl in Hp'. eapply (Hu u j t k); [done|done|done|congruence].
      + by eapply (Hu u j u' j').
    - intros l' y [[<- <-]|[_ Hy]]%lookup_insert_Some; [done|by apply (Hq l')]. }
  assert (Hsound : Sound ns s').
  { subst ns s'. destruct (_ && true); [|apply Sound_nil]. intros n ->%list_elem_of_singleton. simpl.
    rewrite lookup_insert_eq. by eexists. }
  split; simpl; [done|done| | | | |].
  - intros l' y Hy Hr. assert (∃ z, leases (sched st) !! l' = Some z ∧ released z = false) as (z & Hz & Hzr).
    { subst s'. simpl in Hy. apply lookup_insert_Some in Hy as [[<- <-]|[_ ?]]; eauto. }
    destruct (Hown l' z Hz Hzr) as (u & j & Hj & Ho). destruct (decide (t = u)) as [->|].
    + exists u. unfold T'. rewrite lookup_insert_eq. eexists. split; [done|].
      assert (j = k) as -> by congruence. unfold owns in *. simpl. rewrite Hpc in Ho. naive_solver.
    + exists u, j. unfold T'. rewrite lookup_insert_ne by done. done.
  - intros u j [[<- <-]|[_ Hj]]%lookup_insert_Some; [|by eapply Hadm].
    destruct (Hadm _ _ Ht) as [? Hheld Hback]. split; simpl; [done| |]; intros l' Hl;
      [destruct (Hheld l' Hl)|destruct (Hback l' Hl) as [? []]; (split; [done|])]; right; congruence.
  - intros u j l' y [[<- <-]|[Hne Hj]]%lookup_insert_Some; simpl.
    + intros [= <-] _. subst s'. simpl. rewrite lookup_insert_eq. intros [= <-]. simpl. split; [done|].
      intros ->. by rewrite orb_true_r.
    + intros Hpcj Hl. subst s'. simpl. rewrite lookup_insert_ne; [by apply (Hheard u j)|]. intros <-.
      apply Hne. eapply (Hu t k u j); [done|done|done|by rewrite Hpcj].
  - intros u Hn. rewrite calls_app, (calls_notices _ _ _ _ HL Hsound), Hn.
    apply lookup_insert_None in Hn as [? ?]. rewrite Hnone; auto.
  - intros u j Hj. rewrite calls_app, (calls_notices _ _ _ _ HL Hsound), Hj. unfold T' in Hj.
    apply lookup_insert_Some in Hj as [[<- <-]|[Hne Hj]]; simpl.
    + rewrite (Hcalls _ _ Ht), Hpc. simpl. rewrite Hsent. unfold told at 2. rewrite Hx. simpl. rewrite Hxq. lia.
    + rewrite (Hcalls _ _ Hj). unfold due. destruct (t_pc j) as [| | | |[l'|]]; rewrite ?Hsent; lia.
Qed.

Lemma SysInv_admit st t :
  SysInv st → tasks st !! t = None →
  SysInv (mkSys (sched st) (<[t := mkTask newBulkRPCAdmission CIdle None]> (tasks st)) (resolved st)).
Proof.
  intros [HI [Hk Hs Hu Hq] Hown Hadm Hheard Hnone Hcalls] Ht.
  assert (Hsame : ∀ u k, tasks st !! u = Some k → u ≠ t) by congruence.
  split; simpl; [done| | | | | |].
  - split; [| | |done].
    + intros u j l [[<- <-]|[_ Hj]]%lookup_insert_Some; [|by eapply Hk]. unfold owns. simpl. naive_solver.
    + intros l x cb Hx Hn. destruct (Hs _ _ _ Hx Hn) as (j & Hj & ?). exists j.
      rewrite lookup_insert_ne by (intros ->; congruence). done.
    + intros u j u' j' l [[<- <-]|[Hu1 Hj]]%lookup_insert_Some [[<- <-]|[Hu2 Hj']]%lookup_insert_Some Hp Hp'; try done.
      by eapply (Hu u j u' j').
  - intros l x Hx Hr. destruct (Hown l x Hx Hr) as (u & j & Hj & Ho). exists u, j.
    rewrite lookup_insert_ne by (intros ->; congruence). done.
  - intros u j [[<- <-]|[_ Hj]]%lookup_insert_Some; [|by eapply Hadm]. split; simpl; done.
  - intros u j l x [[<- <-]|[_ Hj]]%lookup_insert_Some; [done|by apply (Hheard u j)].
  - intros u Hn. apply lookup_insert_None in Hn as [? ?]. auto.
  - intros u j [[<- <-]|[_ Hj]]%lookup_insert_Some; [by apply Hnone|by apply Hcalls].
Qed.

Lemma SysInv_close st :
  SysInv st → ∃ s' ns, close (sched st) = Done (s', ns) ∧ Progress None (sched st) s' ns ∧ closed s' = true ∧
    SysInv (mkSys s' (tasks st) (resolved st ++ map call ns)).
Proof.
  intros [HI HL Hown Hadm Hheard Hnone Hcalls].
  destruct (close_progress _ HI) as (s' & ns & Hc & HP & Hcl). exists s', ns. split; [done|]. split; [done|]. split; [done|].
  pose proof (Linked_progress _ _ _ _ _ HP HL) as HL'.
  split; simpl; [apply HP|done| |done| | |].
  - intros l x Hx Hr. destruct (Evolves_back _ _ _ _ _ (pr_evolves _ _ _ _ HP) Hx) as (y & Hy & [_ Hyr _ _ _]).
    apply (Hown l y Hy). destruct (released y); naive_solver.
  - intros t k l x Ht Hpc Hl Hx. apply (Heard_progress None (sched st) s' ns t l x HP); [done|done|].
    intros y Hy. by apply (Hheard t k l).
  - intros t Ht. by rewrite calls_app, (calls_notices _ _ _ _ HL' (pr_sound _ _ _ _ HP)), Ht, Hnone.
  - intros t k Ht. rewrite calls_app, (calls_notices _ _ _ _ HL' (pr_sound _ _ _ _ HP)), Ht, (Hcalls _ _ Ht).
    by rewrite (due_progress _ _ _ _ (t_pc k) HP).
Qed.

Lemma calls_nil u : calls u [] = 0.
Proof. done. Qed.
Lemma calls_one u t b : calls u [(t, b)] = if decide (u = t) then 1 else 0.
Proof. unfold calls. rewrite filter_cons. simpl. by repeat case_decide; subst. Qed.

(** The steps of one task that reserve or subscribe nothing. *)
Lemma SysInv_move tgt st t k k' s' ns extra :
  SysInv st → tasks st !! t = Some k → Progress tgt (sched st) s' ns → TaskOk k' →
  (∀ l, tgt = Some l → pcLease (t_pc k) = Some l) →
  (∀ l, lease (t_adm k') = Some l → t_pc k' ≠ CDone (Some l)) →
  (∀ l, pcLease (t_pc k') = Some l → pcLease (t_pc k) = Some l) →
  (∀ l, t_pc k = CDone (Some l) → t_pc k' = CDone (Some l)) →
  (∀ l, owns k' l → owns k l ∨ pcLease (t_pc k) = Some l) →
  (∀ l, owns k l → owns k' l ∨ ∃ y, leases s' !! l = Some y ∧ released y = true) →
  (∀ u, calls u extra = if decide (u = t) then due s' (t_pc k') - due s' (t_pc k) else 0) →
  let st' := mkSys s' (<[t := k']> (tasks st)) (resolved st ++ map call ns ++ extra) in
  SysInv st' ∧ max (sched st') = max (sched st).
Proof. intros. split; [by eapply SysInv_step|]. eapply pr_max; eauto. Qed.

(** [exec] moved task [t] to [k']; what is left are facts about the two. *)
Ltac move_task tgt k' ns extra :=
  eexists; split; [done|];
  eapply (SysInv_move tgt _ _ _ k' _ ns extra); [eassumption|eassumption|try eassumption| | | | | | | | ];
  unfold owns; simpl.

Ltac ownership :=
  try (intros; repeat match goal with H : _ ∨ _ |- _ => destruct H end; simplify_eq; first [done | eauto 6]; fail).

Lemma exec_credit st t k ok :
  SysInv st → tasks st !! t = Some k →
  ∃ st', exec (LCredit t ok) st = Done st' ∧ SysInv st' ∧ max (sched st') = max (sched st).
Proof.
  intros HS Ht. pose proof HS as [HI HL Hown Hadm Hheard Hnone Hcalls]. simpl. rewrite Ht.
  pose proof (Hadm _ _ Ht) as Hok. pose proof (Progress_refl _ HI) as Hrefl.
  assert (Hidle : t_pc k = CIdle ∨ (∃ l, t_pc k = CReserved l ∨ t_pc k = CDropping l) →
    lease (t_adm k) = None ∧ t_rel k = None).
  { destruct Hok as [_ Hheld Hback]. intros Hpc. split.
    - destruct (lease (t_adm k)); [|done]. destruct (Hheld _ eq_refl); naive_solver congruence.
    - destruct (t_rel k); [|done]. destruct (Hback _ eq_refl) as [_ []]; naive_solver congruence. }
  destruct (t_pc k) as [|l|l|l|r] eqn:Hpc; simpl.
  - destruct Hidle as [Hl Hr]; [by left|]. destruct ok; simpl.
    + pose proof (SysInv_reserve st t k HS Ht Hpc) as HS'. pose proof (bulk_reserve_ok _ HI) as (_ & _ & _ & Hm & _).
      eexists. split; [done|]. rewrite app_nil_r. split; [exact HS'|exact Hm].
    + move_task (@None positive) (mkTask (t_adm k) (CDone None) (t_rel k)) (@nil notice) [(t, false)];
        rewrite ?Hpc, ?Hl, ?Hr; ownership.
      * split; simpl; congruence.
      * intros u. apply calls_one.
  - destruct Hidle as [Hl Hr]; [eauto|]. destruct (a_released (t_adm k)) eqn:Ha; simpl.
    + move_task (@None positive) (mkTask (t_adm k) (CDropping l) (t_rel k)) (@nil notice) (@nil (callback * bool));
        rewrite ?Hpc, ?Hl, ?Hr; ownership.
      * split; simpl; congruence.
      * intros u. by case_decide.
    + move_task (@None positive) (mkTask (mkAdmission (Some l) false) (CAttached l) (t_rel k))
        (@nil notice) (@nil (callback * bool)); rewrite ?Hpc, ?Hl, ?Hr; ownership.
      * split; simpl; [done| |congruence]. intros ? [= ->]. by left.
      * intros u. by case_decide.
  - destruct Hidle as [Hl Hr]; [eauto|].
    destruct (release_progress l (sched st) HI) as (s' & ns & -> & HP & Hy).
    { eapply (li_known _ _ HL t k); [done|]. rewrite Hpc. by left. }
    simpl. move_task (Some l) (mkTask (t_adm k) (CDone None) (t_rel k)) ns [(t, false)];
      rewrite ?Hpc, ?Hl, ?Hr; ownership.
    + split; simpl; congruence.
    + intros u. apply calls_one.
  - destruct (SysInv_subscribe st t k l HS Ht Hpc) as (s' & ns & -> & Hm & HS'). simpl. eexists. split; [done|]. done.
  - exists st. rewrite app_nil_r, insert_id; [by destruct st|]. rewrite Ht. destruct k. simpl in *. by subst.
Qed.

Lemma exec_SysInv lbl st :
  SysInv st → ∃ st', exec lbl st = Done st' ∧ SysInv st' ∧ max (sched st') = max (sched st).
Proof.
  intros HS. pose proof HS as [HI HL Hown Hadm Hheard Hnone Hcalls]. destruct lbl as [t|t ok|t|t|].
  - simpl. destruct (tasks st !! t) eqn:Ht; [by exists st|]. eexists. split; [done|]. split; [by apply SysInv_admit|done].
  - destruct (tasks st !! t) as [k|] eqn:Ht; [by eapply exec_credit|]. simpl. rewrite Ht. by exists st.
  - simpl. destruct (tasks st !! t) as [k|] eqn:Ht; [|by exists st]. destruct (Hadm _ _ Ht) as [Hrel Hheld Hback].
    unfold releaseAdmission. destruct (a_released (t_adm k)) eqn:Ha.
    { exists st. rewrite insert_id; [by destruct st|]. rewrite Ht. by destruct k. }
    rewrite <-(app_nil_r (resolved st)).
    assert (Hno : t_rel k = None). { destruct (t_rel k); [|done]. by destruct (Hback _ eq_refl). }
    rewrite Hno. assert ((if lease (t_adm k) then lease (t_adm k) else None) = lease (t_adm k)) as -> by (by destruct (lease _)).
    pose proof (Progress_refl _ HI).
    move_task (@None positive) (mkTask (mkAdmission None true) (t_pc k) (lease (t_adm k)))
      (@nil notice) (@nil (callback * bool)); rewrite ?Hno; ownership.
    + split; simpl; [done|done|by auto].
    + intros u. rewrite Z.sub_diag. by case_decide.
  - simpl. destruct (tasks st !! t) as [k|] eqn:Ht; [|by exists st]. destruct (Hadm _ _ Ht) as [Hrel Hheld Hback].
    destruct (t_rel k) as [l|] eqn:Hr; [|by exists st]. destruct (Hback l eq_refl) as [Ha Hpcl].
    destruct (release_progress l (sched st) HI) as (s' & ns & -> & HP & Hy).
    { eapply (li_known _ _ HL t k); [done|]. right. unfold owns. auto. }
    simpl. rewrite <-(app_nil_r (map call ns)). rewrite (Hrel Ha) in *.
    move_task (Some l) (mkTask (t_adm k) (t_pc k) None) ns (@nil (callback * bool)); rewrite ?Hr, ?(Hrel Ha); ownership.
    + split; simpl; rewrite ?(Hrel Ha); done.
    + intros l' [= <-]. by destruct Hpcl as [-> | ->].
    + intros u. rewrite Z.sub_diag. by case_decide.
  - simpl. destruct (SysInv_close st HS) as (s' & ns & -> & HP & _ & HS'). simpl. eexists. split; [done|].
    split; [done|]. apply HP.
Qed.

Lemma start_SysInv m : SysInv (start m).
Proof.
  split; simpl; [apply bulk_new_Inv| | | | |done|]; try (intros ??; by rewrite lookup_empty).
  split; simpl; intros *; by rewrite lookup_empty.
Qed.
Lemma run_SysInv ls st :
  SysInv st → ∃ st', run ls st = Done st' ∧ SysInv st' ∧ max (sched st') = max (sched st).
Proof.
  revert st. induction ls as [|l ls IH]; intros st HS; simpl; [by exists st|].
  destruct (exec_SysInv l st HS) as (st1 & -> & HS1 & Hm). simpl.
  destruct (IH st1 HS1) as (st' & ? & ? & ?). exists st'. split_and!; [done|done|congruence].
Qed.

Lemma run_start m ls st : run ls (start m) = Done st → SysInv st ∧ max (sched st) = Z.max 1 m.
Proof.
  intros Hr. destruct (run_SysInv ls (start m) (start_SysInv m)) as (st' & Hr' & HS & Hm).
  assert (st' = st) as -> by congruence. split; [done|]. rewrite Hm. simpl. case_bool_decide; lia.
Qed.

(** ** First come, first served *)

(** The loop passes over released leases and serves the next one. *)
Lemma grantLoop_skips dead ws s ns :
  closed s = false → inUse s < max s →
  (∀ d, d ∈ dead → ∃ x, leases s !! d = Some x ∧ released x = true) →
  grantLoop (dead ++ ws) s ns = grantLoop ws s ns.
Proof.
  intros Hc Hlt. induction dead as [|d dead IH]; intros Hd; [done|]. simpl. rewrite Hc, bool_decide_true by done. simpl.
  destruct (Hd d) as (x & Hx & Hr); [set_solver|]. rewrite Hx. simpl. rewrite Hr. apply IH. set_solver.
Qed.
Lemma grantLoop_full ws s ns :
  inUse s = max s → grantLoop ws s ns = Done (mkScheduler (max s) (inUse s) ws (closed s) (leases s), ns).
Proof. intros Heq. destruct ws; simpl; [done|]. rewrite bool_decide_false by lia. by rewrite andb_false_r. Qed.

(** ** Properties *)

(** No interleaving of admissions, credits, releases and a shutdown makes
    the scheduler panic or hand out more than [max] slots; a slot is free only
    when nobody waits; and once every admission is released and no closure or
    release is half way, all the slots are back. *)
Theorem bulk_no_slot_leak m ls :
  ∃ st, run ls (start m) = Done st ∧
    inUse (sched st) = msum (λ _ x, grantedZ x) (leases (sched st)) ∧
    inUse (sched st) ≤ Z.max 1 m ∧
    (inUse (sched st) < Z.max 1 m → waiters (sched st) = []) ∧
    ((∀ t k, tasks st !! t = Some k →
        a_released (t_adm k) = true ∧ t_rel k = None ∧ (t_pc k = CIdle ∨ ∃ r, t_pc k = CDone r)) →
     inUse (sched st) = 0 ∧ waiters (sched st) = []).
Proof.
  destruct (run_SysInv ls (start m) (start_SysInv m)) as (st & Hr & _). exists st. split; [done|].
  destruct (run_start _ _ _ Hr) as [[HI HL Hown Hadm _ _ _] Hm]. rewrite <-Hm. pose proof HI as [Huse Hcap Hex _ _ Hb _ _ _].
  split; [done|]. split; [done|]. split; [done|]. intros Hall.
  assert (Hzero : inUse (sched st) = 0); [|split; [done|apply Hb; lia]].
  rewrite Huse. apply msum_zero. intros l x Hx. unfold grantedZ. destruct (granted x) eqn:Hg; [|done].
  destruct (Hown l x Hx (Hex _ _ Hx Hg)) as (t & k & Ht & Ho). destruct (Hall t k Ht) as (Ha & Hrel & Hpc).
  destruct (Hadm t k Ht) as [Hnone _ _]. specialize (Hnone Ha). unfold owns in Ho. naive_solver congruence.
Qed.

(** No wakeup is lost or doubled: a task's callback is called at most
    once, and when its closure has finished and its admission is not released,
    it has been called exactly once, or its lease waits in the queue of an open
    scheduler whose slots are all taken. *)
Theorem bulk_no_lost_wakeup m ls st t :
  run ls (start m) = Done st →
  calls t (resolved st) ≤ 1 ∧
  ∀ k r, tasks st !! t = Some k → t_pc k = CDone r → a_released (t_adm k) = false → lease (t_adm k) = r →
    calls t (resolved st) = 1 ∨
    ∃ l, r = Some l ∧ l ∈ waiters (sched st) ∧ inUse (sched st) = Z.max 1 m ∧ closed (sched st) = false.
Proof.
  intros Hr. destruct (run_start _ _ _ Hr) as [[HI HL _ _ Hheard Hnone Hcalls] Hm]. rewrite <-Hm.
  assert (Htold : ∀ l, told l (sched st) ≤ 1).
  { intros l. unfold told. destruct (_ !! l) as [x|]; simpl; [destruct (notified x)|]; lia. }
  split.
  - destruct (tasks st !! t) as [k|] eqn:Ht; [|rewrite Hnone by done; lia]. rewrite (Hcalls _ _ Ht).
    unfold due. destruct (t_pc k) as [| | | |[l|]]; (done || lia).
  - intros k r Ht Hpc _ Hl. rewrite (Hcalls _ _ Ht), Hpc. destruct r as [l|]; simpl; [|by left].
    destruct (li_known _ _ HL t k l Ht) as [x Hx]; [rewrite Hpc; by left|].
    destruct (Hheard t k l x Ht Hpc Hl Hx) as [Hn Hrel]. unfold told. rewrite Hx. simpl.
    destruct (notified x) eqn:Hno; [by left|right]. exists l. destruct HI as [_ Hcap _ _ _ Hb Hc Hwt Ht'].
    destruct (granted x) eqn:Hg; [specialize (Ht' _ _ Hx Hg ltac:(by eexists)); congruence|].
    destruct (released x) eqn:Hrx; [by specialize (Hrel eq_refl)|].
    specialize (Hwt _ _ Hx Hg Hrx). split; [done|]. split; [done|]. split.
    + destruct (decide (inUse (sched st) < max (sched st))) as [Hlt|]; [|lia]. rewrite (Hb Hlt) in Hwt. set_solver.
    + destruct (closed (sched st)) eqn:Hcl; [|done]. rewrite (Hc eq_refl) in Hwt. set_solver.
Qed.

(** First come, first served: giving back a slot while leases wait hands
    it to the oldest lease that is still wanted, tells that lease and nobody
    else, and leaves the order of the others alone. *)
Theorem bulk_fifo m ls st l x dead w y rest :
  run ls (start m) = Done st →
  leases (sched st) !! l = Some x → granted x = true →
  waiters (sched st) = dead ++ w :: rest →
  (∀ d, d ∈ dead → ∃ z, leases (sched st) !! d = Some z ∧ released z = true) →
  leases (sched st) !! w = Some y → released y = false →
  ∃ s', release l (sched st) = Done (s', (wake w y true).2) ∧
    waiters s' = rest ∧ inUse s' = inUse (sched st) ∧
    ∃ y', leases s' !! w = Some y' ∧ granted y' = true ∧ released y' = false.
Proof.
  intros Hr Hx Hg Hq Hdead Hy Hyr. destruct (run_start _ _ _ Hr) as [[HI _ _ _ _ _ _] _]. set (s := sched st) in *.
  destruct HI as [_ Hcap Hex Hw _ Hb Hc _ _].
  assert (Hfull : inUse s = max s). { destruct (decide (inUse s < max s)) as [Hlt|]; [|lia]. rewrite (Hb Hlt) in Hq. by destruct dead. }
  assert (Hopen : closed s = false). { destruct (closed s); [|done]. rewrite (Hc eq_refl) in Hq. by destruct dead. }
  assert (Hlq : l ∉ waiters s). { intros Hin. destruct (Hw l Hin) as (z & Hz & ?). congruence. }
  assert (l ≠ w) as Hlw by (intros ->; apply Hlq; rewrite Hq; set_solver).
  unfold release. rewrite Hx. simpl. rewrite (Hex _ _ Hx Hg), Hg, Hq.
  rewrite grantLoop_skips; [|done|simpl; lia|]; last first.
  { intros d Hd. destruct (Hdead d Hd) as (z & Hz & ?). exists z. simpl. rewrite lookup_insert_ne; [done|].
    intros ->. apply Hlq. rewrite Hq. set_solver. }
  simpl. rewrite Hopen, bool_decide_true by lia. simpl. rewrite lookup_insert_ne, Hy by done. simpl. rewrite Hyr.
  destruct (wake w y true) as [seen ns]. rewrite grantLoop_full by (simpl; lia). simpl.
  eexists. split; [done|]. split; [done|]. split; [simpl; lia|]. simpl. rewrite lookup_insert_eq. by eexists.
Qed.

(** ** Sample runs *)
Module BulkRuns.
(** One slot, three tasks; the second is released while it waits. *)
Definition admitted (t : positive) : list label := [LAdmit t; LCredit t true; LCredit t true; LCredit t true].
Definition three : list label := admitted 1 ++ admitted 2 ++ admitted 3 ++ [LRelease 2; LGiveBack 2].
Definition after_three : sys := match run three (start 1) with Done st => st | _ => start 1 end.
Lemma three_runs : run three (start 1) = Done after_three.
Proof. vm_compute. reflexivity. Qed.

Lemma bulk_no_lost_wakeup_witness :
  run three (start 1) = Done after_three ∧ calls 3 (resolved after_three) ≤ 1 ∧
  (calls 3 (resolved after_three) = 1 ∨ ∃ l, Some 3%positive = Some l ∧ l ∈ waiters (sched after_three) ∧
    inUse (sched after_three) = Z.max 1 1 ∧ closed (sched after_three) = false).
Proof.
  pose proof (bulk_no_lost_wakeup 1 three after_three 3 three_runs) as [H1 H2].
  split; [exact three_runs|]. split; [exact H1|].
  eapply H2; vm_compute; reflexivity.
Defined.

Lemma bulk_fifo_witness :
  ∃ s', release 1 (sched after_three) = Done (s', [mkNotice 3 3 true]) ∧
    waiters s' = [] ∧ inUse s' = inUse (sched after_three) ∧
    ∃ y, leases s' !! 3%positive = Some y ∧ granted y = true ∧ released y = false.
Proof.
  apply (bulk_fifo 1 three after_three 1 (mkLease true false true (Some 1%positive)) [2%positive] 3
           (mkLease false false false (Some 3%positive)) []).
  - exact three_runs.
  - vm_compute. reflexivity.
  - reflexivity.
  - vm_compute. reflexivity.
  - intros d ->%list_elem_of_singleton. eexists. split; vm_compute; reflexivity.
  - vm_compute. reflexivity.
  - reflexivity.
Defined.
End BulkRuns.
