(* ===== verification/Wire.v ===== *)
(** * Byte streams

    The [io.Reader] interface the edge reads its sockets through, [io.ReadFull],
    and what the theorems rely on about a reader: it delivers a fixed sequence
    of bytes in pieces of any size, and then an error.  Bytes are integers
    below 256. *)

From S2P Require Import Prelude.

(** ** Errors of the edge *)

Inductive edgeError :=
  | EOF
  | ErrUnexpectedEOF
  | ErrClosed
  | ErrInboundFrameBudgetExceeded
  | errInboundFrameCodecUnsupported
  | errInboundFrameNotReserved
  | errReservedMoreThanOnce
  | errMessageLength (n : Z)
  | errFullMessageLength (n : Z)
  | errNotAligned (n : Z)
  | ProtocolErr (word : list Z)
  | errInvalidTCPTransportPrefix
  | errInvalidObfuscatedProtocol
  | ConnErr (e : positive).

#[export] Instance edgeError_eq_dec : EqDecision edgeError.
Proof. solve_decision. Defined.

(** ** Readers *)

(** [Read n r]: one call of [Read] with a slice of [n] bytes; the new state,
    the bytes stored and the error.  [None] is a call that never returns. *)
Class Reader (R : Type) := Read : nat → R → option (R * list Z * option edgeError).

(** [io.ReadFull] on a slice of [need] bytes ([io.ReadAtLeast] of the Standard
    Library): the loop stops with enough bytes or with an error, and an end of
    file in the middle is [ErrUnexpectedEOF].  The fuel bounds the calls. *)
Fixpoint readFullLoop {R} `{Reader R} (fuel need : nat) (acc : list Z) (r : R)
    : option (R * list Z * option edgeError) :=
  match need, fuel with
  | O, _ => Some (r, acc, None)
  | _, O => None
  | _, S fuel =>
    '(r, bs, e) ← Read need r;
    let acc := acc ++ bs in
    if bool_decide (need ≤ length bs)%nat then Some (r, acc, None)
    else match e with
      | None => readFullLoop fuel (need - length bs) acc r
      | Some EOF => Some (r, acc, Some (if bool_decide (acc = []) then EOF else ErrUnexpectedEOF))
      | Some e => Some (r, acc, Some e)
      end
  end.
Definition ReadFull {R} `{Reader R} (need : nat) (r : R) : option (R * list Z * option edgeError) :=
  readFullLoop need need [] r.

(** ** What a reader of bytes promises *)

Class ByteStream (R : Type) `{Reader R} := {
  (** the bytes still to come, and the error after them *)
  view : R → list Z;
  final : R → edgeError;
  Read_some n r :
    (0 < n)%nat → view r ≠ [] →
    ∃ r' bs e, Read n r = Some (r', bs, e) ∧ bs ≠ [] ∧ (length bs ≤ n)%nat ∧
      view r = bs ++ view r' ∧ final r' = final r ∧ (e = None ∨ view r' = [] ∧ e = Some (final r));
  Read_end n r :
    (0 < n)%nat → view r = [] →
    ∃ r', Read n r = Some (r', [], Some (final r)) ∧ view r' = [] ∧ final r' = final r;
}.
#[global] Hint Mode ByteStream ! - : typeclass_instances.

(** The error of a read that wanted more than the [got] bytes there were. *)
Definition short (e : edgeError) (got : list Z) : edgeError :=
  match e with
  | EOF => if bool_decide (got = []) then EOF else ErrUnexpectedEOF
  | _ => e
  end.

Section ReadFull.
Context {R : Type} `{BS : ByteStream R}.
Implicit Types (r : R) (bs acc : list Z).

Lemma readFullLoop_ok fuel need acc r :
  (need ≤ fuel)%nat → (need ≤ length (view r))%nat →
  ∃ r', readFullLoop fuel need acc r = Some (r', acc ++ take need (view r), None) ∧
    view r' = drop need (view r) ∧ final r' = final r.
Proof.
  revert need acc r. induction fuel as [|fuel IH]; intros need acc r Hf Hv.
  { assert (need = 0%nat) as -> by lia. simpl. exists r. by rewrite take_0, app_nil_r, drop_0. }
  destruct need as [|need]; simpl; [exists r; by rewrite take_0, app_nil_r, drop_0|].
  destruct (Read_some (S need) r) as (r' & bs & e & -> & Hne & Hle & Hview & Hfin & He);
    [lia|intros Heq; rewrite Heq in Hv; simpl in Hv; lia|]. simpl.
  assert (0 < length bs)%nat by (destruct bs; [done|simpl; lia]).
  rewrite Hview, take_app, drop_app in *. rewrite length_app in Hv. case_bool_decide as Hd.
  - assert (length bs = S need) as Hl by lia. exists r'.
    rewrite Hl, Nat.sub_diag, take_0, drop_0, app_nil_r, take_ge, drop_ge by lia. done.
  - destruct He as [->|[Hnil _]]; [|rewrite Hnil in Hv; simpl in Hv; lia].
    destruct (IH (S need - length bs)%nat (acc ++ bs) r') as (r'' & -> & Hv'' & Hf''); [lia|lia|].
    exists r''. rewrite (take_ge bs), (drop_ge bs) by lia. rewrite app_assoc. split; [done|]. split; [done|congruence].
Qed.

Lemma ReadFull_ok need r :
  (need ≤ length (view r))%nat →
  ∃ r', ReadFull need r = Some (r', take need (view r), None) ∧ view r' = drop need (view r) ∧ final r' = final r.
Proof. intros Hv. apply (readFullLoop_ok need need [] r); [lia|done]. Qed.

Lemma readFullLoop_short fuel need acc r :
  (need ≤ fuel)%nat → (length (view r) < need)%nat →
  ∃ r', readFullLoop fuel need acc r = Some (r', acc ++ view r, Some (short (final r) (acc ++ view r))) ∧
    view r' = [] ∧ final r' = final r.
Proof.
  revert need acc r. induction fuel as [|fuel IH]; intros need acc r Hf Hv; [lia|].
  destruct need as [|need]; [lia|]. simpl. destruct (decide (view r = [])) as [Hnil|Hnn].
  - destruct (Read_end (S need) r) as (r' & -> & Hv' & Hf'); [lia|done|]. simpl. rewrite Hnil, app_nil_r.
    exists r'. unfold short. by destruct (final r).
  - destruct (Read_some (S need) r) as (r' & bs & e & -> & Hne & Hle & Hview & Hfin & He); [lia|done|]. simpl.
    assert (0 < length bs)%nat by (destruct bs; [done|simpl; lia]).
    rewrite Hview, length_app in Hv. rewrite bool_decide_false by lia. destruct He as [->|[Hnil ->]].
    + destruct (IH (S need - length bs)%nat (acc ++ bs) r') as (r'' & -> & Hv'' & Hf''); [lia|lia|].
      exists r''. rewrite Hview, app_assoc, Hfin. split; [done|]. split; [done|congruence].
    + exists r'. rewrite Hview, Hnil, app_nil_r. unfold short. by destruct (final r).
Qed.
Lemma ReadFull_short need r :
  (length (view r) < need)%nat →
  ∃ r', ReadFull need r = Some (r', view r, Some (short (final r) (view r))) ∧ view r' = [] ∧ final r' = final r.
Proof. intros Hv. apply (readFullLoop_short need need [] r); [lia|done]. Qed.
End ReadFull.

(** ** A socket whose peer sent [data], delivered in pieces *)

Record socket := mkSocket { data : list Z; pieces : list nat; failure : edgeError }.
#[export] Instance socket_Reader : Reader socket := λ n s,
  match data s with
  | [] => Some (s, [], Some (failure s))
  | _ =>
    let k := match pieces s with [] => n | p :: _ => Nat.min n (Nat.max 1 p) end in
    Some (mkSocket (drop k (data s)) (tail (pieces s)) (failure s), take k (data s), None)
  end.
#[export, refine] Instance socket_ByteStream : ByteStream socket := {
  view := data;
  final := failure;
}.
Proof.
  - intros n s Hn Hv. unfold Read, socket_Reader. destruct (data s) as [|b bs] eqn:Hd; [done|]. rewrite <-Hd.
    set (k := match pieces s with [] => n | p :: _ => Nat.min n (Nat.max 1 p) end).
    assert (1 ≤ k ≤ n)%nat by (unfold k; destruct (pieces s); lia).
    eexists _, _, _. split; [done|]. simpl. rewrite take_drop. split; [|split; [|by auto]].
    + rewrite Hd. by destruct k; [lia|].
    + rewrite length_take. lia.
  - intros n s Hn Hv. unfold Read, socket_Reader. rewrite Hv. by exists s.
Defined.
