(* ===== verification/FrameBudget.v ===== *)
(** * The inbound frame budget and who holds what of it

    [internal/mtprotoedge/frame_budget.go] (the process-wide byte budget) and
    all who draw on it: the frame accounting of [compatTransportConn] in
    [transport_compat.go], and the gzip and container decoders of
    [encrypted.go].  The compare-and-swap loop of [growReservation] is one
    atomic transition: it retries until the value it read is the value it
    replaces.  A method that unlocks [frameMu] before it returns bytes to the
    budget is two steps.  What a decoder has reserved is a variable of its call,
    which only its goroutine reads. *)

From S2P Require Import Prelude Wire.

Definition maxContainerMessages : Z := 1024.
Definition maxSingleGZIPExpandedBytes : Z := Z.shiftl 10 20.
Definition containerDescriptorBudgetBytes : Z := 192.

Module Frames.

(** ** The budget *)

Definition defaultInboundFrameGlobalMaxBytes : Z := Z.shiftl 512 20.

Record inboundFrameBudget := mkBudget { max : Z; used : Z }.

Definition newInboundFrameBudget (m : Z) : inboundFrameBudget :=
  mkBudget (if bool_decide (m ≤ 0) then defaultInboundFrameGlobalMaxBytes else m) 0.

Definition growReservation (current wireBytes plaintextBytes : Z) (b : inboundFrameBudget)
    : inboundFrameBudget * (edgeError + Z) :=
  if bool_decide (current < 0) || bool_decide (wireBytes ≤ 0) || bool_decide (plaintextBytes < 0)
     || bool_decide (wireBytes > max b) || bool_decide (plaintextBytes > sub64 (max b) wireBytes)
  then (b, inl ErrInboundFrameBudgetExceeded)
  else
    let target := add64 wireBytes plaintextBytes in
    if bool_decide (target ≤ current) then (b, inr current)
    else
      let n := sub64 target current in
      if bool_decide (n > sub64 (max b) (used b)) then (b, inl ErrInboundFrameBudgetExceeded)
      else (mkBudget (max b) (add64 (used b) n), inr target).

Definition reserve (wireBytes plaintextBytes : Z) (b : inboundFrameBudget)
    : inboundFrameBudget * (edgeError + Z) :=
  growReservation 0 wireBytes plaintextBytes b.

Definition release (n : Z) (b : inboundFrameBudget) : Run inboundFrameBudget :=
  if bool_decide (n = 0) then Done b
  else
    let u := sub64 (used b) n in
    _ ← panic_if (bool_decide (u < 0));
    Done (mkBudget (max b) u).

Definition usedBytes (b : inboundFrameBudget) : Z := used b.

(** ** What one connection holds *)

Record frameState := mkFrame { heldFrameBytes : Z; frameDelivered : bool; closed : bool }.
Definition newFrameState : frameState := mkFrame 0 false false.

Definition reserveInboundFrame (wireBytes plaintextBytes : Z) (f : frameState) (b : inboundFrameBudget)
    : frameState * inboundFrameBudget * option edgeError :=
  if closed f then (f, b, Some ErrClosed)
  else
    match growReservation (heldFrameBytes f) wireBytes plaintextBytes b with
    | (b, inl e) => (f, b, Some e)
    | (b, inr n) => (mkFrame n (frameDelivered f) (closed f), b, None)
    end.

Definition beginInboundFrameRead (f : frameState) : frameState :=
  mkFrame (heldFrameBytes f) false (closed f).

(** The locked part; the second component is what is returned to the budget
    after the lock is dropped. *)
Definition retainInboundFrameBytes (n : Z) (f : frameState) (b : inboundFrameBudget)
    : frameState * inboundFrameBudget * Z * bool :=
  if bool_decide (n < 0) then (f, b, 0, false)
  else
    let old := heldFrameBytes f in
    if bool_decide (n > old) then
      match growReservation old n 0 b with
      | (b, inl _) => (f, b, 0, false)
      | (b, inr grown) => (mkFrame grown (frameDelivered f) (closed f), b, 0, true)
      end
    else (mkFrame n (frameDelivered f) (closed f), b, sub64 old n, true).

Definition releaseInboundFrame (f : frameState) : frameState * Z :=
  (mkFrame 0 false (closed f), heldFrameBytes f).

Definition markInboundFrameDelivered (f : frameState) : frameState * option edgeError :=
  if closed f then (f, Some ErrClosed)
  else if bool_decide (heldFrameBytes f = 0) then (f, Some errInboundFrameNotReserved)
  else (mkFrame (heldFrameBytes f) true (closed f), None).

Definition Close (f : frameState) : frameState :=
  mkFrame (heldFrameBytes f) (frameDelivered f) true.

(** ** What one decode holds *)

(** The budget calls of [decodeGZIPWithGlobalBudgetLimit] and
    [decodeMessageContainerViews]: the reservation before anything is expanded
    or built ([0] where the call fails), the return of the excess once [len]
    bytes were expanded, and the [release] closures. *)
Definition reserveExpansion (limit : Z) (b : inboundFrameBudget) : inboundFrameBudget * Z :=
  if bool_decide (limit ≤ 0) || bool_decide (limit > maxSingleGZIPExpandedBytes) then (b, 0)
  else match reserve limit 0 b with (b, inl _) => (b, 0) | (b, inr reserved) => (b, reserved) end.
Definition reserveDescriptors (count : Z) (b : inboundFrameBudget) : inboundFrameBudget * Z :=
  if bool_decide (count ≤ 0) || bool_decide (count > maxContainerMessages) then (b, 0)
  else
    match reserve (count * containerDescriptorBudgetBytes) 0 b with
    | (b, inl _) => (b, 0)
    | (b, inr reserved) => (b, reserved)
    end.
Definition returnExcess (len reserved : Z) (b : inboundFrameBudget) : Run (inboundFrameBudget * Z) :=
  if bool_decide (reserved > len) then b ← release (sub64 reserved len) b; Done (b, len) else Done (b, reserved).
Definition releaseReserved (reserved : Z) (b : inboundFrameBudget) : Run (inboundFrameBudget * Z) :=
  if bool_decide (reserved > 0) then b ← release reserved b; Done (b, 0) else Done (b, reserved).

(** ** Every interleaving of the connections and decodes of a process *)

(** [owed] is what released frames have yet to return to the budget, [decodes]
    the [reserved] variables of the decodes that were started. *)
Record sys := mkSys {
  budget : inboundFrameBudget;
  conns : gmap positive frameState;
  owed : list Z;
  decodes : gmap positive Z;
}.

Inductive label :=
  | LOpen (c : positive)
  | LReserve (c : positive) (wireBytes plaintextBytes : Z)
  | LBegin (c : positive)
  | LMark (c : positive)
  | LRetain (c : positive) (n : Z)
  | LRelease (c : positive)
  | LClose (c : positive)
  | LSettle (i : nat)
  | LGzip (k : positive) (limit : Z)
  | LContainer (k : positive) (count : Z)
  | LExpanded (k : positive) (len : nat)
  | LDecoded (k : positive).

Definition exec (lbl : label) (st : sys) : Run sys :=
  let on c (k : frameState → Run sys) := match conns st !! c with Some f => k f | None => Done st end in
  let put c f b o := Done (mkSys b (<[c := f]> (conns st)) o (decodes st)) in
  let begin k (r : inboundFrameBudget → inboundFrameBudget * Z) :=
    match decodes st !! k with
    | Some _ => Done st
    | None => let '(b, n) := r (budget st) in Done (mkSys b (conns st) (owed st) (<[k := n]> (decodes st)))
    end in
  let back k (r : Z → inboundFrameBudget → Run (inboundFrameBudget * Z)) :=
    match decodes st !! k with
    | None => Done st
    | Some n => '(b, n) ← r n (budget st); Done (mkSys b (conns st) (owed st) (<[k := n]> (decodes st)))
    end in
  match lbl with
  | LOpen c => match conns st !! c with None => put c newFrameState (budget st) (owed st) | Some _ => Done st end
  | LReserve c w p => on c (λ f, let '(f, b, _) := reserveInboundFrame w p f (budget st) in put c f b (owed st))
  | LBegin c => on c (λ f, put c (beginInboundFrameRead f) (budget st) (owed st))
  | LMark c => on c (λ f, put c (markInboundFrameDelivered f).1 (budget st) (owed st))
  | LRetain c n =>
    on c (λ f, let '(f, b, back, _) := retainInboundFrameBytes n f (budget st) in put c f b (owed st ++ [back]))
  | LRelease c => on c (λ f, let '(f, back) := releaseInboundFrame f in put c f (budget st) (owed st ++ [back]))
  | LClose c => on c (λ f, put c (Close f) (budget st) (owed st))
  | LSettle i =>
    match owed st !! i with
    | None => Done st
    | Some n => b ← release n (budget st); Done (mkSys b (conns st) (delete i (owed st)) (decodes st))
    end
  | LGzip k limit => begin k (reserveExpansion limit)
  | LContainer k count => begin k (reserveDescriptors count)
  | LExpanded k len => back k (returnExcess (Z.of_nat len))
  | LDecoded k => back k releaseReserved
  end.

Fixpoint run (ls : list label) (st : sys) : Run sys :=
  match ls with
  | [] => Done st
  | l :: ls => st ← exec l st; run ls st
  end.
Definition start (m : Z) : sys := mkSys (newInboundFrameBudget m) ∅ [] ∅.

(** ** The accounting invariant *)

Definition held (st : sys) : Z := msum (λ _ f, heldFrameBytes f) (conns st).
Definition owing (st : sys) : Z := foldr Z.add 0 (owed st).
Definition decoding (st : sys) : Z := msum (λ _ n, n) (decodes st).

Record Inv (st : sys) : Prop := {
  inv_max : 0 < max (budget st) ≤ i64_max;
  inv_used : used (budget st) = held st + owing st + decoding st;
  inv_cap : used (budget st) ≤ max (budget st);
  inv_held c f : conns st !! c = Some f → 0 ≤ heldFrameBytes f;
  inv_owed : Forall (λ n, 0 ≤ n) (owed st);
  inv_decodes k n : decodes st !! k = Some n → 0 ≤ n;
}.

Lemma growReservation_spec current w p b :
  0 < max b ≤ i64_max → 0 ≤ current ≤ used b → used b ≤ max b →
  let '(b', res) := growReservation current w p b in
  max b' = max b ∧
  match res with
  | inl _ => b' = b
  | inr n => current ≤ n ∧ w + p ≤ n ∧ (n = current ∨ n = w + p) ∧ 0 < w ∧ 0 ≤ p ∧
             used b' = used b + (n - current) ∧ used b' ≤ max b
  end.
Proof.
  intros Hmax Hcur Hcap. unfold growReservation, i64_max in *.
  repeat case_bool_decide; simpl; try done.
  all: rewrite ?sub64_small, ?add64_small in * by (unfold i64_min, i64_max; rewrite ?sub64_small, ?add64_small by int64; lia).
  all: lia.
Qed.

Lemma frames_held_nonneg st : Inv st → 0 ≤ held st.
Proof. intros HI. apply msum_nonneg. apply HI. Qed.
Lemma sum_nonneg ns : Forall (λ n, 0 ≤ n) ns → 0 ≤ foldr Z.add 0 ns.
Proof. induction 1; simpl; lia. Qed.
Lemma owing_nonneg st : Inv st → 0 ≤ owing st.
Proof. intros HI. apply sum_nonneg, HI. Qed.
Lemma decoding_nonneg st : Inv st → 0 ≤ decoding st.
Proof. intros HI. apply msum_nonneg. apply HI. Qed.
Lemma held_le_used st c f : Inv st → conns st !! c = Some f → 0 ≤ heldFrameBytes f ≤ used (budget st).
Proof.
  intros HI Hc. split; [by eapply HI|]. rewrite (inv_used st HI). pose proof (owing_nonneg _ HI).
  pose proof (msum_lookup_le (λ _ f, heldFrameBytes f) (conns st) c f) as Hle. unfold held. simpl in Hle.
  specialize (Hle (λ k v Hk, inv_held _ HI k v Hk) Hc). pose proof (decoding_nonneg _ HI). lia.
Qed.
Lemma decoding_le_used st k n : Inv st → decodes st !! k = Some n → 0 ≤ n ≤ used (budget st).
Proof.
  intros HI Hk. split; [by eapply HI|]. rewrite (inv_used st HI). pose proof (owing_nonneg _ HI). pose proof (frames_held_nonneg _ HI).
  pose proof (msum_lookup_le (λ _ n, n) (decodes st) k n (λ k v Hk, inv_decodes _ HI k v Hk) Hk) as Hle. unfold decoding. simpl in Hle. lia.
Qed.
Lemma owing_app st b cs ds back : owing (mkSys b cs (owed st ++ [back]) ds) = owing st + back.
Proof. unfold owing. simpl. rewrite foldr_app. simpl. induction (owed st); simpl; lia. Qed.

(** One connection moves from [f] to [f'], and [back] is owed. *)
Lemma Inv_put st c f f' b' back :
  Inv st → conns st !! c = Some f →
  max b' = max (budget st) → used b' ≤ max (budget st) →
  used b' = used (budget st) + (heldFrameBytes f' + back - heldFrameBytes f) →
  0 ≤ heldFrameBytes f' → 0 ≤ back →
  Inv (mkSys b' (<[c := f']> (conns st)) (owed st ++ [back]) (decodes st)).
Proof.
  intros [Hmax Huse _ Hheld Howed Hdec] Hc Hm Hcap Hu Hf Hb. split; simpl.
  - by rewrite Hm.
  - rewrite owing_app. unfold held. simpl. rewrite (msum_update _ _ _ _ _ Hc). unfold held, decoding in *. simpl. lia.
  - lia.
  - intros d g [[_ <-]|[_ ?]]%lookup_insert_Some; [done|by eapply Hheld].
  - apply Forall_app. split; [done|]. by apply Forall_singleton.
  - apply Hdec.
Qed.
Lemma Inv_owed0 st b cs ds : Inv (mkSys b cs (owed st ++ [0]) ds) → Inv (mkSys b cs (owed st) ds).
Proof.
  intros [H1 H2 H3 H4 H5 H6]. split; try done.
  - rewrite owing_app in H2. unfold held, owing, decoding in *. simpl in *. lia.
  - by apply Forall_app in H5 as [? _].
Qed.
Lemma Inv_put0 st c f f' b' :
  Inv st → conns st !! c = Some f →
  max b' = max (budget st) → used b' ≤ max (budget st) →
  used b' = used (budget st) + (heldFrameBytes f' - heldFrameBytes f) → 0 ≤ heldFrameBytes f' →
  Inv (mkSys b' (<[c := f']> (conns st)) (owed st) (decodes st)).
Proof. intros. apply Inv_owed0. eapply Inv_put; eauto; lia. Qed.
(** One decode comes to hold [n] instead of [old]. *)
Lemma Inv_decode st k old n b' :
  Inv st → default 0 (decodes st !! k) = old → max b' = max (budget st) → used b' ≤ max (budget st) →
  used b' = used (budget st) + (n - old) → 0 ≤ n → Inv (mkSys b' (conns st) (owed st) (<[k := n]> (decodes st))).
Proof.
  intros [Hmax Huse _ Hheld Howed Hdec] Hk Hm Hcap Hu Hn. split; simpl; [by rewrite Hm| |lia|done|done|].
  - unfold held, owing, decoding in *. simpl. destruct (decodes st !! k) as [o|] eqn:E; simpl in Hk; subst old.
    + rewrite (msum_update _ _ _ _ _ E). lia.
    + rewrite msum_insert by done. lia.
  - intros j m [[_ <-]|[_ ?]]%lookup_insert_Some; [done|by eapply Hdec].
Qed.
Lemma reserve_spec n b :
  0 < max b ≤ i64_max → 0 ≤ used b ≤ max b →
  let '(b', r) := match reserve n 0 b with (b, inl _) => (b, 0) | (b, inr m) => (b, m) end in
  max b' = max b ∧ used b' = used b + r ∧ 0 ≤ r ∧ used b' ≤ max b.
Proof.
  intros Hm Hu. pose proof (growReservation_spec 0 n 0 b Hm ltac:(lia) ltac:(lia)) as Hg. unfold reserve.
  destruct (growReservation 0 n 0 b) as [b' [e|m]]; destruct Hg as [Hmax Hg]; [subst b'; lia|lia].
Qed.
Lemma give_back n b :
  max b ≤ i64_max → 0 ≤ n ≤ used b → used b ≤ max b → release n b = Done (mkBudget (max b) (used b - n)).
Proof.
  intros Hm Hn Hu. unfold release, i64_max in *. case_bool_decide; [destruct b; simpl; do 2 f_equal; subst; simpl; lia|].
  rewrite sub64_small by int64. by rewrite bool_decide_false by lia.
Qed.

Lemma frames_release_Inv st i n :
  Inv st → owed st !! i = Some n →
  ∃ b', release n (budget st) = Done b' ∧ max b' = max (budget st) ∧ Inv (mkSys b' (conns st) (delete i (owed st)) (decodes st)).
Proof.
  intros HI Hi. pose proof HI as [Hmax Huse Hcap Hheld Howed Hdec]. pose proof (frames_held_nonneg _ HI) as Hh. pose proof (decoding_nonneg _ HI) as Hd.
  assert (Hsum : owing st = n + foldr Z.add 0 (delete i (owed st))).
  { unfold owing. clear -Hi. revert Hi. revert i. induction (owed st) as [|m o IH]; intros i Hi; [done|].
    destruct i; simpl in *; [by simplify_eq|]. rewrite (IH _ Hi). lia. }
  pose proof (sum_nonneg _ (Forall_delete _ _ i Howed)) as Hrest.
  assert (0 ≤ n) by (by eapply (Forall_lookup_1 _ _ _ _ Howed)).
  rewrite give_back by lia. eexists. split; [done|]. split; [done|]. split; simpl; try done; [|lia|by apply Forall_delete].
  unfold held, owing, decoding in *. simpl. lia.
Qed.
Lemma frames_begin_Inv st k (r : inboundFrameBudget → inboundFrameBudget * Z) :
  Inv st → decodes st !! k = None →
  (let '(b', n) := r (budget st) in
   max b' = max (budget st) ∧ used b' = used (budget st) + n ∧ 0 ≤ n ∧ used b' ≤ max (budget st)) →
  ∃ st', (let '(b, n) := r (budget st) in Done (mkSys b (conns st) (owed st) (<[k := n]> (decodes st)))) = Done st' ∧
    Inv st' ∧ max (budget st') = max (budget st).
Proof.
  intros HI Hk. destruct (r (budget st)) as [b n]. intros (Hm & Hu & Hn & Hc). eexists. split; [done|]. split; [|done].
  apply (Inv_decode st k 0); [done|by rewrite Hk|done|done|lia|done].
Qed.
Lemma frames_back_Inv st k n (r : Z → inboundFrameBudget → Run (inboundFrameBudget * Z)) :
  Inv st → decodes st !! k = Some n →
  (∃ m, 0 ≤ m ≤ n ∧ r n (budget st) = Done (mkBudget (max (budget st)) (used (budget st) - (n - m)), m)) →
  ∃ st', ('(b, n) ← r n (budget st); Done (mkSys b (conns st) (owed st) (<[k := n]> (decodes st)))) = Done st' ∧
    Inv st' ∧ max (budget st') = max (budget st).
Proof.
  intros HI Hk (m & Hm & ->). simpl. eexists. split; [done|]. split; [|done]. pose proof (inv_cap st HI).
  apply (Inv_decode st k n); simpl; [done|by rewrite Hk|done|lia|lia|lia].
Qed.

Lemma frames_exec_Inv lbl st : Inv st → ∃ st', exec lbl st = Done st' ∧ Inv st' ∧ max (budget st') = max (budget st).
Proof.
  intros HI. pose proof HI as [Hmax Huse Hcap Hheld Howed Hdec].
  assert (Hpos : 0 ≤ used (budget st)) by (pose proof (frames_held_nonneg _ HI); pose proof (owing_nonneg _ HI); pose proof (decoding_nonneg _ HI); lia).
  destruct lbl as [c|c w p|c|c|c n|c|c|i|k limit|k count|k len|k]; simpl; try (destruct (conns st !! c) as [f|] eqn:Hc; [|by exists st]).
  - destruct (conns st !! c) as [f|] eqn:Hc; [by exists st|]. eexists. split; [done|]. split; [|done].
    split; simpl; try done.
    + unfold held. simpl. rewrite msum_insert by done. done.
    + intros d g [[_ <-]|[_ ?]]%lookup_insert_Some; [done|by eapply Hheld].
  - unfold reserveInboundFrame. pose proof (held_le_used _ _ _ HI Hc).
    destruct (closed f); [by exists st; rewrite insert_id by done; destruct st|].
    pose proof (growReservation_spec (heldFrameBytes f) w p (budget st)) as Hg.
    destruct (growReservation _ _ _ _) as [b' [e|n]]; destruct Hg as [Hm Hres]; try done.
    + subst b'. exists st. rewrite insert_id by done. by destruct st.
    + eexists. split; [done|]. split; [|done]. apply (Inv_put0 st c f); simpl; (done || lia).
  - eexists. split; [done|]. split; [|done]. apply (Inv_put0 st c f); simpl; try (done || lia). by eapply Hheld.
  - eexists. split; [done|]. split; [|done]. unfold markInboundFrameDelivered. pose proof (Hheld _ _ Hc).
    destruct (closed f); [|case_bool_decide]; apply (Inv_put0 st c f); simpl; (done || lia).
  - unfold retainInboundFrameBytes. pose proof (held_le_used _ _ _ HI Hc). unfold i64_max in Hmax.
    case_bool_decide; [eexists; split; [done|]; split; [|done]; apply (Inv_put st c f); simpl; (done || lia)|].
    case_bool_decide.
    + pose proof (growReservation_spec (heldFrameBytes f) n 0 (budget st)) as Hg.
      destruct (growReservation _ _ _ _) as [b' [e|g]]; destruct Hg as [Hm Hres]; try done;
        (eexists; split; [done|]; split; [|done]); apply (Inv_put st c f); simpl; subst; (done || lia).
    + eexists. split; [done|]. split; [|done]. apply (Inv_put st c f); simpl; try done; try lia;
        rewrite sub64_small by int64; lia.
  - eexists. split; [done|]. split; [|done]. pose proof (Hheld _ _ Hc). apply (Inv_put st c f); simpl; (done || lia).
  - eexists. split; [done|]. split; [|done]. pose proof (Hheld _ _ Hc). apply (Inv_put0 st c f); simpl; (done || lia).
  - destruct (owed st !! i) as [n|] eqn:Hi; [|by exists st].
    destruct (frames_release_Inv st i n HI Hi) as (b' & -> & Hm & HI'). simpl. by eexists.
  - destruct (decodes st !! k) eqn:Hk; [by exists st|]. apply frames_begin_Inv; [done|done|]. unfold reserveExpansion.
    destruct (_ || _); [lia|]. by apply reserve_spec.
  - destruct (decodes st !! k) eqn:Hk; [by exists st|]. apply frames_begin_Inv; [done|done|]. unfold reserveDescriptors.
    destruct (_ || _); [lia|]. by apply reserve_spec.
  - destruct (decodes st !! k) as [n|] eqn:Hk; [|by exists st]. apply frames_back_Inv; [done|done|].
    pose proof (decoding_le_used _ _ _ HI Hk). unfold returnExcess. unfold i64_max in Hmax. case_bool_decide.
    + exists (Z.of_nat len). split; [lia|]. rewrite sub64_small by int64. by rewrite give_back by (unfold i64_max; lia).
    + exists n. split; [lia|]. rewrite Z.sub_diag, Z.sub_0_r. by destruct (budget st).
  - destruct (decodes st !! k) as [n|] eqn:Hk; [|by exists st]. apply frames_back_Inv; [done|done|].
    pose proof (decoding_le_used _ _ _ HI Hk). unfold releaseReserved. exists 0. split; [lia|]. case_bool_decide.
    + rewrite give_back by lia. by rewrite Z.sub_0_r.
    + assert (n = 0) as -> by lia. rewrite Z.sub_diag, Z.sub_0_r. by destruct (budget st).
Qed.

Lemma frames_run_Inv ls st : Inv st → ∃ st', run ls st = Done st' ∧ Inv st' ∧ max (budget st') = max (budget st).
Proof.
  revert st. induction ls as [|l ls IH]; intros st HI; simpl; [by exists st|].
  destruct (frames_exec_Inv l st HI) as (st1 & -> & HI1 & Hm). simpl.
  destruct (IH st1 HI1) as (st' & ? & ? & ?). exists st'. split_and!; [done|done|congruence].
Qed.
Lemma frames_start_Inv m : m ≤ i64_max → Inv (start m).
Proof.
  intros Hm. unfold i64_max in *. split; simpl; try done.
  - case_bool_decide; unfold i64_max; [|lia]. by vm_compute.
  - case_bool_decide; [|lia]. by vm_compute.
Qed.
End Frames.
