(* ===== verification/Transport.v ===== *)
(** * Transport framing

    [internal/mtprotoedge/transport_compat.go] and [frame_budget.go]: the
    length-prefixed codecs of MTProto, the preflight reader that reserves a
    frame before its payload buffer exists, and [compatTransportConn]'s receive
    path.  The codecs of the td library ([codec.Full] and the plain ones) and a
    custom budgeted codec are parameters. *)

From S2P Require Import Prelude Wire FrameBudget.

Module Transport.

Definition maxTransportMessageSize : Z := Z.shiftl 1 24.
Definition quickAckResponseFlag : Z := Z.shiftl 1 31.
(** [bin.Word], the size of a TL word. *)
Definition Word : Z := 4.

(** ** Codecs *)

Inductive transportCodec :=
  | QuickAckAbridged
  | QuickAckIntermediate
  | QuickAckPaddedIntermediate
  | Abridged
  | Intermediate
  | PaddedIntermediate
  | Full
  | NoHeader (c : transportCodec)
  | NoHeaderPtr (c : option transportCodec)
  | InboundFrameBudgetedCodec (id : positive)
  | OtherCodec.

Inductive inboundFrameCodecKind :=
  | inboundFrameCodecUnknown
  | inboundFrameCodecQuickAckAbridged
  | inboundFrameCodecAbridged
  | inboundFrameCodecIntermediate
  | inboundFrameCodecPaddedIntermediate
  | inboundFrameCodecFull
  | inboundFrameCodecCustom.
#[export] Instance inboundFrameCodecKind_eq_dec : EqDecision inboundFrameCodecKind.
Proof. solve_decision. Defined.

Fixpoint classifyInboundFrameCodec (c : transportCodec) : inboundFrameCodecKind :=
  match c with
  | QuickAckAbridged => inboundFrameCodecQuickAckAbridged
  | Abridged => inboundFrameCodecAbridged
  | QuickAckIntermediate | Intermediate => inboundFrameCodecIntermediate
  | QuickAckPaddedIntermediate | PaddedIntermediate => inboundFrameCodecPaddedIntermediate
  | Full => inboundFrameCodecFull
  | NoHeader c => classifyInboundFrameCodec c
  | NoHeaderPtr None => inboundFrameCodecUnknown
  | NoHeaderPtr (Some c) => classifyInboundFrameCodec c
  | InboundFrameBudgetedCodec _ => inboundFrameCodecCustom
  | OtherCodec => inboundFrameCodecUnknown
  end.

Fixpoint unwrapInboundFrameBudgetedCodec (c : transportCodec) : option positive :=
  match c with
  | InboundFrameBudgetedCodec id => Some id
  | NoHeader c => unwrapInboundFrameBudgetedCodec c
  | NoHeaderPtr (Some c) => unwrapInboundFrameBudgetedCodec c
  | _ => None
  end.

(** ** Buffers *)

(** [bin.Buffer]: a slice of [blen] bytes over a backing array. *)
Record Buffer := mkBuffer { backing : list Z; blen : nat }.
Definition Buf (b : Buffer) : list Z := take (blen b) (backing b).
Definition cap (b : Buffer) : Z := Z.of_nat (length (backing b)).

Definition resetCompatBufferN (n : Z) (b : Buffer) : Buffer :=
  if bool_decide (cap b < n) then mkBuffer (replicate (Z.to_nat n) 0) (Z.to_nat n)
  else mkBuffer (backing b) (Z.to_nat n).
(** [b.Buf] after a read stored [bs] at its start. *)
Definition fill (bs : list Z) (b : Buffer) : Buffer :=
  mkBuffer (bs ++ drop (length bs) (backing b)) (blen b).

(** ** Writing *)

Definition validateCompatTransportLength (n : Z) : option edgeError :=
  if bool_decide (n ≤ 0) || bool_decide (n > maxTransportMessageSize) then Some (errMessageLength n) else None.

Definition validateOutgoingCompatMessage (b : list Z) : option edgeError :=
  let n := Z.of_nat (length b) in
  match validateCompatTransportLength n with
  | Some e => Some e
  | None => if bool_decide (n mod Word ≠ 0) then Some (errNotAligned n) else None
  end.

(** The bytes [net.Buffers.WriteTo] sends for a header and a payload. *)
Definition writeCompatPacket (header payload : list Z) : list Z := header ++ payload.

Definition writeAbridged (b : list Z) : edgeError + list Z :=
  match validateOutgoingCompatMessage b with
  | Some e => inl e
  | None =>
    let words := Z.shiftr (Z.of_nat (length b)) 2 in
    let header :=
      if bool_decide (words < 0x7f) then [words mod 256]
      else [0x7f; words mod 256; Z.shiftr words 8 mod 256; Z.shiftr words 16 mod 256] in
    inr (writeCompatPacket header b)
  end.

Definition writeIntermediate (b : list Z) : edgeError + list Z :=
  match validateOutgoingCompatMessage b with
  | Some e => inl e
  | None => inr (writeCompatPacket (le_bytes 4 (Z.of_nat (length b))) b)
  end.

(** [padding] are the four random bytes drawn for the packet. *)
Definition writePaddedIntermediate (padding b : list Z) : edgeError + list Z :=
  match validateOutgoingCompatMessage b with
  | Some e => inl e
  | None =>
    let n := nth 0 padding 0 mod 4 in
    inr (le_bytes 4 (Z.of_nat (length b) + n) ++ b ++ take (Z.to_nat n) padding)
  end.

(** [Write] of the server's own codecs. *)
Definition codecWrite (c : transportCodec) (padding b : list Z) : option (edgeError + list Z) :=
  match c with
  | QuickAckAbridged => Some (writeAbridged b)
  | QuickAckIntermediate => Some (writeIntermediate b)
  | QuickAckPaddedIntermediate => Some (writePaddedIntermediate padding b)
  | _ => None
  end.

(** The four bytes of a quick acknowledgement: big endian for abridged, little
    endian for the two intermediate codecs. *)
Definition quickAckResponse (c : transportCodec) (token : Z) : list Z :=
  let v := Z.lor (Z.ldiff token quickAckResponseFlag) quickAckResponseFlag in
  match c with
  | QuickAckAbridged => rev (le_bytes 4 v)
  | _ => le_bytes 4 v
  end.

(** ** Reading: a state and error monad over a reader *)

(** What a codec's [Read] works on: the reader, the buffer, and the codec's own
    [quickAckRequested]. *)
Record rdState (R : Type) := mkRd { rd : R; rbuf : Buffer; quickAckRequested : bool }.
Arguments mkRd {R} rd rbuf quickAckRequested.
Arguments rd {R} r.
Arguments rbuf {R} r.
Arguments quickAckRequested {R} r.

(** [None]: the reader never returned. *)
Definition IO (S A : Type) : Type := S → option (S * (edgeError + A)).
#[export] Instance IO_ret S : MRet (IO S) := λ A a s, Some (s, inr a).
#[export] Instance IO_bind S : MBind (IO S) := λ A B f m s,
  match m s with
  | Some (s, inr a) => f a s
  | Some (s, inl e) => Some (s, inl e)
  | None => None
  end.
Definition throw {S A} (e : edgeError) : IO S A := λ s, Some (s, inl e).
Definition check {S} (e : option edgeError) : IO S unit :=
  match e with Some e => throw e | None => mret () end.
Definition modify {S} (f : S → S) : IO S unit := λ s, Some (f s, inr ()).

Section codecs.
Context {R : Type} `{RD : Reader R}.

(** [io.ReadFull(r, x[:n])] into a local array. *)
Definition readN (n : nat) : IO (rdState R) (list Z) := λ s,
  match ReadFull n (rd s) with
  | Some (r, bs, e) => Some (mkRd r (rbuf s) (quickAckRequested s), match e with Some e => inl e | None => inr bs end)
  | None => None
  end.
(** [io.ReadFull(r, b.Buf)]. *)
Definition readBuf : IO (rdState R) unit := λ s,
  match ReadFull (blen (rbuf s)) (rd s) with
  | Some (r, bs, e) => Some (mkRd r (fill bs (rbuf s)) (quickAckRequested s), match e with Some e => inl e | None => inr () end)
  | None => None
  end.
Definition onBuf (f : Buffer → Buffer) : IO (rdState R) unit :=
  modify (λ s, mkRd (rd s) (f (rbuf s)) (quickAckRequested s)).

Definition readQuickAckAbridged : IO (rdState R) bool :=
  first ← readN 1;
  let first := nth 0 first 0 in
  let requested := bool_decide (Z.land first 0x80 ≠ 0) in
  let lengthByte := Z.land first 0x7f in
  n ← (if bool_decide (lengthByte = 0x7f) then
         tail ← readN 3;
         let words := Z.lor (Z.lor (nth 0 tail 0) (Z.shiftl (nth 1 tail 0) 8)) (Z.shiftl (nth 2 tail 0) 16) in
         mret (Z.shiftl words 2 mod 4294967296)
       else mret (Z.shiftl lengthByte 2) : IO (rdState R) Z);
  _ ← check (validateCompatTransportLength n);
  _ ← onBuf (resetCompatBufferN n);
  _ ← readBuf;
  mret requested.

Definition readQuickAckIntermediate (padding : bool) : IO (rdState R) bool :=
  lengthBuf ← readN 4;
  let rawLength := le_value lengthBuf in
  let requested := bool_decide (Z.land rawLength quickAckResponseFlag ≠ 0) in
  let n := Z.ldiff rawLength quickAckResponseFlag in
  _ ← check (validateCompatTransportLength n);
  _ ← onBuf (resetCompatBufferN n);
  _ ← readBuf;
  _ ← (if padding then onBuf (λ b, mkBuffer (backing b) (Z.to_nat (n - n mod 4)))
       else mret () : IO (rdState R) unit);
  mret requested.

(** A four byte frame is a protocol error code. *)
Definition checkCompatProtocolError : IO (rdState R) unit := λ s,
  check (if bool_decide (Z.of_nat (length (Buf (rbuf s))) ≠ Word) then None
         else Some (ProtocolErr (Buf (rbuf s)))) s.

(** [Read] of the three quick-ack codecs; [foreignRead] is the [Read] of a
    codec of another package. *)
Definition codecRead (foreignRead : transportCodec → IO (rdState R) unit) (c : transportCodec)
    : IO (rdState R) unit :=
  let finish (requested : bool) :=
    _ ← modify (λ s, mkRd (rd s) (rbuf s) requested);
    checkCompatProtocolError in
  match c with
  | QuickAckAbridged => requested ← readQuickAckAbridged; finish requested
  | QuickAckIntermediate => requested ← readQuickAckIntermediate false; finish requested
  | QuickAckPaddedIntermediate => requested ← readQuickAckIntermediate true; finish requested
  | c => foreignRead c
  end.
End codecs.

(** ** The preflight reader *)

Definition reserveCompatFrame {S} (reserve : Z → Z → S → S * option edgeError) (wireBytes plaintextBytes : Z) (s : S)
    : S * option edgeError :=
  if bool_decide (wireBytes ≤ 0) || bool_decide (wireBytes > maxTransportMessageSize)
  then (s, Some (errMessageLength wireBytes))
  else reserve wireBytes plaintextBytes s.

Section preflight.
Context {R S : Type} `{RD : Reader R}.
Context (kind : inboundFrameCodecKind) (reserve : Z → Z → S → S * option edgeError).

(** [inboundFramePreflightReader], with the state its [reserve] closure works
    on. *)
Record inboundFramePreflightReader := mkPreflight {
  pf_r : R;
  pf_s : S;
  abridgedFirstDelivered : bool;
  pf_done : bool;
}.

Definition readAbridgedPrefix (n : nat) (quickAck : bool) (p : inboundFramePreflightReader)
    : option (inboundFramePreflightReader * list Z * option edgeError) :=
  if negb (abridgedFirstDelivered p) then
    '(r, bs, e) ← ReadFull 1 (pf_r p);
    let p := mkPreflight r (pf_s p) (abridgedFirstDelivered p) (pf_done p) in
    match e with
    | Some e => Some (p, [], Some e)
    | None =>
      let first := nth 0 bs 0 in
      let lengthByte := if quickAck then Z.land first 0x7f else first in
      let extended := if quickAck then bool_decide (lengthByte = 0x7f) else bool_decide (lengthByte >= 0x7f) in
      if extended then Some (mkPreflight r (pf_s p) true (pf_done p), [first], None)
      else
        let k := lengthByte * Word in
        match reserveCompatFrame reserve k k (pf_s p) with
        | (s, Some e) => Some (mkPreflight r s (abridgedFirstDelivered p) (pf_done p), [], Some e)
        | (s, None) => Some (mkPreflight r s true true, [first], None)
        end
    end
  else
    '(r, tail, e) ← ReadFull 3 (pf_r p);
    let p := mkPreflight r (pf_s p) (abridgedFirstDelivered p) (pf_done p) in
    match e with
    | Some e => Some (p, [], Some e)
    | None =>
      let words := Z.lor (Z.lor (nth 0 tail 0) (Z.shiftl (nth 1 tail 0) 8)) (Z.shiftl (nth 2 tail 0) 16) in
      let k := words * Word in
      match reserveCompatFrame reserve k k (pf_s p) with
      | (s, Some e) => Some (mkPreflight r s (abridgedFirstDelivered p) (pf_done p), [], Some e)
      | (s, None) => Some (mkPreflight r s (abridgedFirstDelivered p) true, take n tail, None)
      end
    end.

Definition readWordPrefix (n : nat) (full : bool) (p : inboundFramePreflightReader)
    : option (inboundFramePreflightReader * list Z * option edgeError) :=
  '(r, header, e) ← ReadFull (Z.to_nat Word) (pf_r p);
  let p := mkPreflight r (pf_s p) (abridgedFirstDelivered p) (pf_done p) in
  match e with
  | Some e => Some (p, [], Some e)
  | None =>
    let raw := le_value header in
    if full && (bool_decide (raw < 3 * Word) || bool_decide (raw > maxTransportMessageSize))
    then Some (p, [], Some (errFullMessageLength raw))
    else
      let wireBytes := if full then raw else Z.ldiff raw quickAckResponseFlag in
      let plaintextBytes := if full then raw - 3 * Word else wireBytes in
      match reserveCompatFrame reserve wireBytes plaintextBytes (pf_s p) with
      | (s, Some e) => Some (mkPreflight r s (abridgedFirstDelivered p) (pf_done p), [], Some e)
      | (s, None) => Some (mkPreflight r s (abridgedFirstDelivered p) true, take n header, None)
      end
  end.

Definition preflightRead (n : nat) (p : inboundFramePreflightReader)
    : option (inboundFramePreflightReader * list Z * option edgeError) :=
  if bool_decide (n = 0%nat) then Some (p, [], None)
  else if pf_done p then
    '(r, bs, e) ← Read n (pf_r p);
    Some (mkPreflight r (pf_s p) (abridgedFirstDelivered p) (pf_done p), bs, e)
  else
    match kind with
    | inboundFrameCodecQuickAckAbridged => readAbridgedPrefix n true p
    | inboundFrameCodecAbridged => readAbridgedPrefix n false p
    | inboundFrameCodecIntermediate | inboundFrameCodecPaddedIntermediate => readWordPrefix n false p
    | inboundFrameCodecFull => readWordPrefix n true p
    | _ => Some (p, [], Some errInboundFrameCodecUnsupported)
    end.
End preflight.
Arguments inboundFramePreflightReader : clear implicits.

(** ** Receiving a frame *)

(** What the [reserve] closure of [readInboundFrame] captures: its own three
    variables, the connection's frame accounting and the shared budget. *)
Record reserveState := mkReserve {
  reserveCalls : Z;
  reserved : bool;
  reserveErr : option edgeError;
  frame : Frames.frameState;
  budget : Frames.inboundFrameBudget;
}.
Definition reserveClosure (wireBytes plaintextBytes : Z) (s : reserveState) : reserveState * option edgeError :=
  let calls := reserveCalls s + 1 in
  if bool_decide (calls ≠ 1) then
    (mkReserve calls (reserved s) (Some errReservedMoreThanOnce) (frame s) (budget s), Some errReservedMoreThanOnce)
  else
    let '(f, b, e) := Frames.reserveInboundFrame wireBytes plaintextBytes (frame s) (budget s) in
    (mkReserve calls (bool_decide (e = None)) e f b, e).

Section receive.
Context {R : Type} `{RD : Reader R}.
Abbreviation preflight := (inboundFramePreflightReader R reserveState).
Definition preflight_Reader (kind : inboundFrameCodecKind) : Reader preflight := preflightRead kind reserveClosure.

(** [Read] of the codecs that are not under src/, and of a custom codec that
    reserves its own frames. *)
Context (foreignRead : Reader preflight → transportCodec → IO (rdState preflight) unit).
Context (ReadWithInboundFrameBudget : positive → IO (rdState (R * reserveState)) unit).

Record compatTransportConn := mkConn {
  conn : R;
  codec : transportCodec;
  codecKind : inboundFrameCodecKind;
  budgetedCodec : option positive;
  frames : Frames.frameState;
  quickAck : bool;
}.

Definition newCompatTransportConnWithCodec (c : R) (cc : transportCodec) : edgeError + compatTransportConn :=
  let kind := classifyInboundFrameCodec cc in
  if bool_decide (kind = inboundFrameCodecUnknown) then inl errInboundFrameCodecUnsupported
  else if bool_decide (kind = inboundFrameCodecCustom) then
    match unwrapInboundFrameBudgetedCodec cc with
    | None => inl errInboundFrameCodecUnsupported
    | Some id => inr (mkConn c cc kind (Some id) Frames.newFrameState false)
    end
  else inr (mkConn c cc kind None Frames.newFrameState false).

(** The connection, the buffer, the budget, and the error. *)
Definition received : Type := compatTransportConn * Buffer * Frames.inboundFrameBudget * option edgeError.

(** After the codec: the checks on the reservation, and the delivery mark. *)
Definition finishInboundFrame (c : compatTransportConn) (s : reserveState) (b : Buffer) (res : edgeError + unit) : received :=
  let back f := mkConn (conn c) (codec c) (codecKind c) (budgetedCodec c) f (quickAck c) in
  match res with
  | inl e => (back (frame s), b, budget s, Some e)
  | inr _ =>
    match reserveErr s with
    | Some e => (back (frame s), b, budget s, Some e)
    | None =>
      if bool_decide (reserveCalls s ≠ 1) || negb (reserved s)
      then (back (frame s), b, budget s, Some errInboundFrameNotReserved)
      else
        let '(f, e) := Frames.markInboundFrameDelivered (frame s) in
        (back f, b, budget s, e)
    end
  end.

Definition readInboundFrame (c : compatTransportConn) (b : Buffer) (bud : Frames.inboundFrameBudget) : option received :=
  let unsupported := Some (c, b, bud, Some errInboundFrameCodecUnsupported) in
  let s0 := mkReserve 0 false None (frames c) bud in
  match codecKind c with
  | inboundFrameCodecUnknown => unsupported
  | inboundFrameCodecCustom =>
    match budgetedCodec c with
    | None => unsupported
    | Some id =>
      '(st, res) ← ReadWithInboundFrameBudget id (mkRd (conn c, s0) b (quickAck c));
      let c := mkConn (rd st).1 (codec c) (codecKind c) (budgetedCodec c) (frames c) (quickAckRequested st) in
      Some (finishInboundFrame c (rd st).2 (rbuf st) res)
    end
  | kind =>
    let RDP := preflight_Reader kind in
    '(st, res) ← codecRead (RD := RDP) (foreignRead RDP) (codec c)
                   (mkRd (mkPreflight (conn c) s0 false false) b (quickAck c));
    let c := mkConn (pf_r (rd st)) (codec c) (codecKind c) (budgetedCodec c) (frames c) (quickAckRequested st) in
    Some (finishInboundFrame c (pf_s (rd st)) (rbuf st) res)
  end.

Definition withFrames (f : Frames.frameState) (c : compatTransportConn) : compatTransportConn :=
  mkConn (conn c) (codec c) (codecKind c) (budgetedCodec c) f (quickAck c).

(** [deadlineErr] is what [SetReadDeadline] returned. *)
Definition RecvDeadline (deadlineErr : option edgeError) (c : compatTransportConn) (b : Buffer)
    (bud : Frames.inboundFrameBudget) : option (Run received) :=
  let c := withFrames (Frames.beginInboundFrameRead (frames c)) c in
  let fail c b bud e : Run received :=
    let '(f, n) := Frames.releaseInboundFrame (frames c) in
    bud ← Frames.release n bud;
    Done (withFrames f c, b, bud, Some e) in
  match deadlineErr with
  | Some e => Some (fail c b bud e)
  | None =>
    '(c, b, bud, e) ← readInboundFrame c b bud;
    Some (match e with Some e => fail c b bud e | None => Done (c, b, bud, None) end)
  end.

Definition ConsumeQuickAckRequested (c : compatTransportConn) : compatTransportConn * bool :=
  match codec c with
  | QuickAckAbridged | QuickAckIntermediate | QuickAckPaddedIntermediate =>
    (mkConn (conn c) (codec c) (codecKind c) (budgetedCodec c) (frames c) false, quickAck c)
  | _ => (c, false)
  end.
End receive.
End Transport.
