(* ===== verification/TransportProps.v ===== *)
(** * Framing theorems: reserve before allocation, round trips

    The three quick-ack codecs behind the preflight reader, over any byte
    stream: what a receive does, as a function of the header the peer sent. *)

From S2P Require Import Prelude Wire FrameBudget Transport.
Import Transport.

(** ** Bit arithmetic of the headers *)

Lemma tail_words t0 t1 t2 :
  is_byte t0 → is_byte t1 → is_byte t2 →
  Z.lor (Z.lor t0 (Z.shiftl t1 8)) (Z.shiftl t2 16) = le_value [t0; t1; t2].
Proof.
  unfold is_byte. intros. rewrite (lor_shiftl t0 t1 8) by (simpl; lia).
  rewrite (lor_shiftl _ t2 16) by (simpl; lia). simpl le_value. change (2 ^ 8) with 256. change (2 ^ 16) with 65536. lia.
Qed.
Lemma land_low7 f : is_byte f → Z.land f 0x7f = f mod 128.
Proof. intros. change 0x7f with (Z.ones 7). by rewrite Z.land_ones. Qed.

(** ** The header a peer sent *)

(** How many bytes it takes, whether a quick acknowledgement was asked for, and
    the length announced. *)
Definition header (c : transportCodec) (v : list Z) : option (nat * bool * Z) :=
  match c with
  | QuickAckAbridged =>
    match v with
    | [] => None
    | f :: v =>
      let requested := bool_decide (Z.land f 0x80 ≠ 0) in
      if bool_decide (Z.land f 0x7f = 0x7f) then
        if bool_decide (length v < 3)%nat then None else Some (4%nat, requested, 4 * le_value (take 3 v))
      else Some (1%nat, requested, 4 * Z.land f 0x7f)
    end
  | _ =>
    if bool_decide (length v < 4)%nat then None
    else
      let raw := le_value (take 4 v) in
      Some (4%nat, bool_decide (Z.land raw quickAckResponseFlag ≠ 0), Z.ldiff raw quickAckResponseFlag)
  end.

(** The codecs defined by the server itself. *)
Definition quick (c : transportCodec) : bool :=
  match c with
  | QuickAckAbridged | QuickAckIntermediate | QuickAckPaddedIntermediate => true
  | _ => false
  end.
(** The payload of a frame of [n] bytes: padding is cut off. *)
Definition trim (c : transportCodec) (n : Z) : nat :=
  match c with QuickAckPaddedIntermediate => Z.to_nat (n - n mod 4) | _ => Z.to_nat n end.

Lemma bind_inr {S A B} (m : IO S A) (f : A → IO S B) s s' a : m s = Some (s', inr a) → (m ≫= f) s = f a s'.
Proof. unfold mbind, IO_bind. by intros ->. Qed.
Lemma bind_inl {S A B} (m : IO S A) (f : A → IO S B) s s' e : m s = Some (s', inl e) → (m ≫= f) s = Some (s', inl e).
Proof. unfold mbind, IO_bind. by intros ->. Qed.
Lemma bind_eq {S A B} (m m' : IO S A) (f : A → IO S B) s s' : m s = m' s' → (m ≫= f) s = (m' ≫= f) s'.
Proof. unfold mbind, IO_bind. by intros ->. Qed.

Section read.
Context {R : Type} `{BS : ByteStream R}.
Abbreviation preflight := (inboundFramePreflightReader R reserveState).
Implicit Types (r : R) (s : reserveState) (b : Buffer).

Section reader.
Context (kind : inboundFrameCodecKind).
#[local] Instance rdp : Reader preflight := preflight_Reader kind.

(** One [Read] that fills the slice, or fails with nothing. *)
Lemma ReadFull_once n (p p' : preflight) bs e :
  Read (S n) p = Some (p', bs, e) → length bs = S n → ReadFull (S n) p = Some (p', bs, None).
Proof. intros Hr Hl. unfold ReadFull. simpl. rewrite Hr. simpl. by rewrite bool_decide_true by lia. Qed.
Lemma ReadFull_fails n (p p' : preflight) e :
  Read (S n) p = Some (p', [], Some e) → ReadFull (S n) p = Some (p', [], Some e).
Proof. intros Hr. unfold ReadFull. simpl. rewrite Hr. simpl. by destruct e. Qed.

(** After the prefix the preflight reader is transparent. *)
Lemma readFullLoop_done fuel need acc r s fd :
  readFullLoop fuel need acc (mkPreflight r s fd true : preflight) =
  '(r, bs, e) ← readFullLoop fuel need acc r; Some (mkPreflight r s fd true, bs, e).
Proof.
  revert need acc r. induction fuel as [|fuel IH]; intros [|need] acc r; try done. cbn [readFullLoop].
  assert (Hread : Read (S need) (mkPreflight r s fd true : preflight) =
    '(r, bs, e) ← Read (S need) r; Some (mkPreflight r s fd true, bs, e)) by done.
  rewrite Hread. destruct (Read (S need) r) as [[[r' bs] e]|]; [|done]. simpl.
  case_bool_decide; [done|]. destruct e as [e|]; [by destruct e|apply IH].
Qed.
Lemma ReadFull_done n r s fd :
  ReadFull n (mkPreflight r s fd true : preflight) =
  '(r, bs, e) ← ReadFull n r; Some (mkPreflight r s fd true, bs, e).
Proof. apply readFullLoop_done. Qed.

(** The part every codec shares: length check, buffer, payload. *)
Lemma payload_spec {A} n (k : IO (rdState preflight) A) r s fd b q :
  0 < n ≤ maxTransportMessageSize →
  let m := (_ ← check (validateCompatTransportLength n); _ ← onBuf (resetCompatBufferN n); _ ← readBuf; k) in
  let st := mkRd (mkPreflight r s fd true) b q in
  if bool_decide (Z.to_nat n ≤ length (view r))%nat then
    ∃ r' b', m st = k (mkRd (mkPreflight r' s fd true) b' q) ∧
      view r' = drop (Z.to_nat n) (view r) ∧ final r' = final r ∧
      blen b' = Z.to_nat n ∧ take (Z.to_nat n) (backing b') = take (Z.to_nat n) (view r)
  else
    ∃ r' b', m st = Some (mkRd (mkPreflight r' s fd true) b' q, inl (short (final r) (view r))).
Proof.
  intros Hn m st. unfold m, st. clear m st.
  assert (Hval : validateCompatTransportLength n = None).
  { unfold validateCompatTransportLength. rewrite !bool_decide_false by lia. done. }
  rewrite Hval. cbn [check]. erewrite bind_inr by done. erewrite bind_inr by done.
  set (b0 := resetCompatBufferN n b). cbn [rd rbuf quickAckRequested].
  assert (Hlen : blen b0 = Z.to_nat n) by (unfold b0, resetCompatBufferN; by case_bool_decide).
  assert (Hbuf : readBuf (mkRd (mkPreflight r s fd true : preflight) b0 q) =
    '(r, bs, e) ← ReadFull (Z.to_nat n) r;
    Some (mkRd (mkPreflight r s fd true) (fill bs b0) q, match e with Some e => inl e | None => inr () end)).
  { unfold readBuf. cbn [rd rbuf quickAckRequested]. rewrite Hlen, ReadFull_done.
    by destruct (ReadFull _ r) as [[[? ?] ?]|]. }
  case_bool_decide as Hv.
  - destruct (ReadFull_ok (Z.to_nat n) r Hv) as (r' & Heq & Hv' & Hf'). rewrite Heq in Hbuf. simpl in Hbuf.
    rewrite (bind_inr _ _ _ _ _ Hbuf). eexists r', _. split; [done|]. split; [done|]. split; [done|]. simpl. split; [done|].
    rewrite take_app_le by lengths. by rewrite take_take, Nat.min_id.
  - destruct (ReadFull_short (Z.to_nat n) r) as (r' & Heq & _); [lia|]. rewrite Heq in Hbuf. simpl in Hbuf.
    rewrite (bind_inl _ _ _ _ _ Hbuf). by eexists _, _.
Qed.
End reader.

(** The closure state before a codec runs. *)
Definition fresh_reserve (s : reserveState) : Prop := reserveCalls s = 0.

Lemma readN_word kind s b q r :
  kind = inboundFrameCodecIntermediate ∨ kind = inboundFrameCodecPaddedIntermediate →
  let st := mkRd (mkPreflight r s false false : preflight) b q in
  let m := readN (RD := rdp kind) 4 st in
  if bool_decide (length (view r) < 4)%nat then
    ∃ r', m = Some (mkRd (mkPreflight r' s false false) b q, inl (short (final r) (view r)))
  else
    let raw := le_value (take 4 (view r)) in
    let n := Z.ldiff raw quickAckResponseFlag in
    ∃ r', view r' = drop 4 (view r) ∧ final r' = final r ∧
    match reserveCompatFrame reserveClosure n n s with
    | (s', Some e) => m = Some (mkRd (mkPreflight r' s' false false) b q, inl e)
    | (s', None) => m = Some (mkRd (mkPreflight r' s' false true) b q, inr (take 4 (view r)))
    end.
Proof.
  intros Hk st m. unfold m, readN, st. cbn [rd rbuf quickAckRequested].
  set (p := mkPreflight r s false false).
  assert (Hread : @Read _ (rdp kind) 4 p = readWordPrefix reserveClosure 4 false p).
  { unfold rdp, Read, preflight_Reader, preflightRead. simpl. by destruct Hk as [-> | ->]. }
  unfold readWordPrefix in Hread. change (Z.to_nat Word) with 4%nat in Hread. cbn [pf_r p] in Hread.
  case_bool_decide as Hv.
  - destruct (ReadFull_short 4 r Hv) as (r' & Hrf & _). rewrite Hrf in Hread. cbn in Hread.
    apply ReadFull_fails in Hread. rewrite Hread. by eexists.
  - destruct (ReadFull_ok 4 r) as (r' & Hrf & Hv' & Hf'); [lia|]. rewrite Hrf in Hread.
    exists r'. split; [done|]. split; [done|]. cbn -[Z.ldiff quickAckResponseFlag reserveCompatFrame le_value take] in Hread.
    destruct (reserveCompatFrame _ _ _ s) as [s' [e|]].
    + apply ReadFull_fails in Hread. by rewrite Hread.
    + rewrite take_take, Nat.min_id in Hread. apply ReadFull_once in Hread; [|rewrite length_take; lia]. by rewrite Hread.
Qed.
Abbreviation abr := inboundFrameCodecQuickAckAbridged.

Lemma readN_first s b q r :
  let m := readN (RD := rdp abr) 1 (mkRd (mkPreflight r s false false : preflight) b q) in
  match view r with
  | [] => ∃ r', m = Some (mkRd (mkPreflight r' s false false) b q, inl (short (final r) []))
  | f :: v =>
    ∃ r', view r' = v ∧ final r' = final r ∧
    if bool_decide (Z.land f 0x7f = 0x7f) then m = Some (mkRd (mkPreflight r' s true false) b q, inr [f])
    else
      let n := Z.land f 0x7f * Word in
      match reserveCompatFrame reserveClosure n n s with
      | (s', Some e) => m = Some (mkRd (mkPreflight r' s' false false) b q, inl e)
      | (s', None) => m = Some (mkRd (mkPreflight r' s' true true) b q, inr [f])
      end
  end.
Proof.
  intros m. unfold m, readN. cbn [rd rbuf quickAckRequested]. set (p := mkPreflight r s false false).
  assert (Hread : @Read _ (rdp abr) 1 p = readAbridgedPrefix reserveClosure 1 true p) by done.
  unfold readAbridgedPrefix in Hread. cbn [pf_r p abridgedFirstDelivered negb] in Hread.
  destruct (view r) as [|f v] eqn:Hv.
  - destruct (ReadFull_short 1 r) as (r' & Hrf & _); [rewrite Hv; simpl; lia|]. rewrite Hrf in Hread. cbn in Hread.
    apply ReadFull_fails in Hread. rewrite Hread, Hv. by eexists.
  - destruct (ReadFull_ok 1 r) as (r' & Hrf & Hv' & Hf'); [rewrite Hv; simpl; lia|]. rewrite Hrf, Hv in Hread.
    exists r'. rewrite Hv', Hv. split; [done|]. split; [done|].
    cbn -[Z.land reserveCompatFrame Z.mul] in Hread. case_bool_decide.
    + apply ReadFull_once in Hread; [|done]. by rewrite Hread.
    + destruct (reserveCompatFrame _ _ _ s) as [s' [e|]].
      * apply ReadFull_fails in Hread. by rewrite Hread.
      * apply ReadFull_once in Hread; [|done]. by rewrite Hread.
Qed.

Lemma readN_tail s b q r :
  Forall is_byte (view r) →
  let m := readN (RD := rdp abr) 3 (mkRd (mkPreflight r s true false : preflight) b q) in
  if bool_decide (length (view r) < 3)%nat then
    ∃ r', m = Some (mkRd (mkPreflight r' s true false) b q, inl (short (final r) (view r)))
  else
    let n := le_value (take 3 (view r)) * Word in
    ∃ r', view r' = drop 3 (view r) ∧ final r' = final r ∧
    match reserveCompatFrame reserveClosure n n s with
    | (s', Some e) => m = Some (mkRd (mkPreflight r' s' true false) b q, inl e)
    | (s', None) => m = Some (mkRd (mkPreflight r' s' true true) b q, inr (take 3 (view r)))
    end.
Proof.
  intros Hb m. unfold m, readN. cbn [rd rbuf quickAckRequested]. set (p := mkPreflight r s true false).
  assert (Hread : @Read _ (rdp abr) 3 p = readAbridgedPrefix reserveClosure 3 true p) by done.
  unfold readAbridgedPrefix in Hread. cbn [pf_r p abridgedFirstDelivered negb] in Hread.
  case_bool_decide as Hv.
  - destruct (ReadFull_short 3 r Hv) as (r' & Hrf & _). rewrite Hrf in Hread. cbn in Hread.
    apply ReadFull_fails in Hread. rewrite Hread. by eexists.
  - destruct (ReadFull_ok 3 r) as (r' & Hrf & Hv' & Hf'); [lia|]. rewrite Hrf in Hread.
    exists r'. split; [done|]. split; [done|].
    destruct (view r) as [|t0 [|t1 [|t2 v]]]; simpl in Hv; try lia.
    rewrite !Forall_cons in Hb. destruct Hb as (? & ? & ? & _). cbn -[Z.lor Z.shiftl le_value reserveCompatFrame Z.mul] in Hread.
    rewrite tail_words in Hread by done.
    change (take 3 (t0 :: t1 :: t2 :: v)) with [t0; t1; t2].
    destruct (reserveCompatFrame _ _ _ s) as [s' [e|]].
    + apply ReadFull_fails in Hread. by rewrite Hread.
    + apply ReadFull_once in Hread; [|done]. by rewrite Hread.
Qed.

Lemma reserveCompatFrame_valid n s s' :
  reserveCompatFrame reserveClosure n n s = (s', None) → 0 < n ≤ maxTransportMessageSize.
Proof. unfold reserveCompatFrame. repeat case_bool_decide; simpl; (done || lia). Qed.

(** The end of every codec's [Read]. *)
Lemma finish_spec (p : preflight) b (q rq : bool) k v :
  Buf b = take k v → (k ≤ length v)%nat →
  (_ ← modify (λ x : rdState preflight, mkRd (rd x) (rbuf x) rq); checkCompatProtocolError) (mkRd p b q) =
  Some (mkRd p b rq, if bool_decide (k = 4%nat) then inl (ProtocolErr (take 4 v)) else inr ()).
Proof.
  intros Hb Hk. erewrite bind_inr by done. unfold checkCompatProtocolError. cbn [rd rbuf]. rewrite Hb, length_take.
  rewrite Nat.min_l by done. unfold Word. repeat case_bool_decide; try lia; by subst.
Qed.

(** What a codec's [Read] does, from the header [h], [rq], [n] and the
    reservation. *)
Definition read_outcome (c : transportCodec) (r : R) (s : reserveState) (b : Buffer) (q : bool)
    (m : option (rdState preflight * (edgeError + unit))) : Prop :=
  match header c (view r) with
  | None => ∃ r' fd e, m = Some (mkRd (mkPreflight r' s fd false) b q, inl e)
  | Some (h, rq, n) =>
    ∃ r' fd,
    match reserveCompatFrame reserveClosure n n s with
    | (s', Some e) => view r' = drop h (view r) ∧ m = Some (mkRd (mkPreflight r' s' fd false) b q, inl e)
    | (s', None) =>
      let v := drop h (view r) in
      if bool_decide (Z.to_nat n ≤ length v)%nat then
        view r' = drop (Z.to_nat n) v ∧ final r' = final r ∧ ∃ b', Buf b' = take (trim c n) v ∧
        m = Some (mkRd (mkPreflight r' s' fd true) b' rq,
                  if bool_decide (trim c n = 4%nat) then inl (ProtocolErr (take 4 v)) else inr ())
      else ∃ b' e, m = Some (mkRd (mkPreflight r' s' fd true) b' q, inl e)
    end
  end.

Lemma trim_le c n : 0 < n → (trim c n ≤ Z.to_nat n)%nat.
Proof. intros Hn. pose proof (Z.mod_pos_bound n 4). destruct c; simpl; lia. Qed.

Lemma read_word_outcome (foreign : transportCodec → IO (rdState preflight) unit) c (padding : bool) s r b q :
  c = (if padding then QuickAckPaddedIntermediate else QuickAckIntermediate) →
  read_outcome c r s b q
    (codecRead (RD := rdp (classifyInboundFrameCodec c)) foreign c (mkRd (mkPreflight r s false false) b q)).
Proof.
  intros Hc. set (kind := classifyInboundFrameCodec c).
  assert (Hk : kind = inboundFrameCodecIntermediate ∨ kind = inboundFrameCodecPaddedIntermediate).
  { unfold kind. rewrite Hc. destruct padding; simpl; auto. }
  pose proof (readN_word kind s b q r Hk) as Hhdr. cbv zeta in Hhdr.
  assert (Hm : codecRead (RD := rdp kind) foreign c (mkRd (mkPreflight r s false false) b q) =
    (rq ← readQuickAckIntermediate (RD := rdp kind) padding;
     _ ← modify (λ x : rdState preflight, mkRd (rd x) (rbuf x) rq); checkCompatProtocolError) (mkRd (mkPreflight r s false false) b q)).
  { rewrite Hc. by destruct padding. }
  rewrite Hm. clear Hm. unfold read_outcome.
  assert (Hh : header c (view r) = if bool_decide (length (view r) < 4)%nat then None else
    Some (4%nat, bool_decide (Z.land (le_value (take 4 (view r))) quickAckResponseFlag ≠ 0),
          Z.ldiff (le_value (take 4 (view r))) quickAckResponseFlag)).
  { rewrite Hc. by destruct padding. }
  rewrite Hh. clear Hh. unfold readQuickAckIntermediate. case_bool_decide as Hlen.
  { destruct Hhdr as (r' & Hhdr). exists r', false, (short (final r) (view r)). apply bind_inl. by apply bind_inl. }
  set (raw := le_value (take 4 (view r))) in *. set (n := Z.ldiff raw quickAckResponseFlag) in *.
  destruct Hhdr as (r1 & Hv1 & Hf1 & Hhdr). destruct (reserveCompatFrame reserveClosure n n s) as [s' [e|]] eqn:Hres.
  { exists r1, false. split; [done|]. apply bind_inl. by apply bind_inl. }
  pose proof (reserveCompatFrame_valid _ _ _ Hres) as Hn. rewrite <-Hv1. cbv zeta.
  set (rq := bool_decide (Z.land raw quickAckResponseFlag ≠ 0)).
  pose proof (payload_spec kind n
    (_ ← (if padding then onBuf (λ b, mkBuffer (backing b) (Z.to_nat (n - n mod 4))) else mret () : IO (rdState preflight) unit);
     mret rq) r1 s' false b q Hn) as Hpay. cbv zeta in Hpay.
  case_bool_decide as Hfit.
  - destruct Hpay as (r' & b' & Hpay & Hv' & Hf' & Hbl & Htk). exists r', false.
    split; [done|]. split; [congruence|].
    exists (mkBuffer (backing b') (trim c n)). split.
    { unfold Buf. simpl. pose proof (trim_le c n ltac:(lia)).
      rewrite <-(Nat.min_l (trim c n) (Z.to_nat n)), <-take_take, Htk, take_take by done. by rewrite Nat.min_l. }
    erewrite bind_inr; last first.
    { erewrite bind_inr by exact Hhdr. fold raw. fold n. fold rq. rewrite Hpay.
      instantiate (1 := rq). instantiate (1 := mkRd (mkPreflight r' s' false true) (mkBuffer (backing b') (trim c n)) q).
      rewrite Hc. destruct padding; [done|]. simpl. unfold mbind, IO_bind, mret, IO_ret. rewrite <-Hbl. by destruct b'. }
    rewrite (finish_spec _ _ _ rq (trim c n) (view r1)); [done| |].
    { unfold Buf. simpl. pose proof (trim_le c n ltac:(lia)).
      rewrite <-(Nat.min_l (trim c n) (Z.to_nat n)), <-take_take, Htk, take_take by done. by rewrite Nat.min_l. }
    pose proof (trim_le c n ltac:(lia)). lia.
  - destruct Hpay as (r' & b' & Hpay). exists r', false, b', (short (final r1) (view r1)).
    apply bind_inl. erewrite bind_inr by exact Hhdr. fold raw. fold n. fold rq. by rewrite Hpay.
Qed.

Lemma Forall_byte_land f : is_byte f → 0 ≤ Z.land f 0x7f < 128.
Proof. intros Hf. rewrite land_low7 by done. apply Z.mod_pos_bound. lia. Qed.

(** The continuation of the abridged codec once the length is known. *)
Lemma abridged_rest n rq h s r r1 b q fd :
  0 < n ≤ maxTransportMessageSize → view r1 = drop h (view r) → final r1 = final r →
  let m := (rq ← (_ ← check (validateCompatTransportLength n); _ ← onBuf (resetCompatBufferN n);
                  _ ← readBuf (RD := rdp abr); mret rq);
            _ ← modify (λ x : rdState preflight, mkRd (rd x) (rbuf x) rq); checkCompatProtocolError) in
  let st := mkRd (mkPreflight r1 s fd true) b q in
  let v := drop h (view r) in
  ∃ r',
  if bool_decide (Z.to_nat n ≤ length v)%nat then
    view r' = drop (Z.to_nat n) v ∧ final r' = final r ∧ ∃ b', Buf b' = take (Z.to_nat n) v ∧
    m st = Some (mkRd (mkPreflight r' s fd true) b' rq,
                 if bool_decide (Z.to_nat n = 4%nat) then inl (ProtocolErr (take 4 v)) else inr ())
  else ∃ b' e, m st = Some (mkRd (mkPreflight r' s fd true) b' q, inl e).
Proof.
  intros Hn Hv Hf m st v. unfold m, st, v. clear m st v. rewrite <-Hv, <-Hf.
  pose proof (payload_spec abr n (mret rq) r1 s fd b q Hn) as Hpay. cbv zeta in Hpay.
  case_bool_decide as Hfit.
  - destruct Hpay as (r' & b' & Hpay & Hv' & Hf' & Hbl & Htk). exists r'. split; [done|]. split; [done|].
    exists b'. assert (Hbuf : Buf b' = take (Z.to_nat n) (view r1)) by (unfold Buf; by rewrite Hbl). split; [done|].
    rewrite <-(finish_spec (mkPreflight r' s fd true) b' q rq (Z.to_nat n) (view r1) Hbuf Hfit).
    by rewrite (bind_inr _ _ _ _ rq Hpay).
  - destruct Hpay as (r' & b' & Hpay). exists r', b', (short (final r1) (view r1)). by apply bind_inl.
Qed.

Lemma read_abridged_outcome (foreign : transportCodec → IO (rdState preflight) unit) s r b q :
  Forall is_byte (view r) →
  read_outcome QuickAckAbridged r s b q
    (codecRead (RD := rdp abr) foreign QuickAckAbridged (mkRd (mkPreflight r s false false) b q)).
Proof.
  intros Hb. unfold codecRead, readQuickAckAbridged, read_outcome, header.
  pose proof (readN_first s b q r) as Hfirst. cbv zeta in Hfirst.
  destruct (view r) as [|f v] eqn:Hv.
  { destruct Hfirst as (r' & Hfirst). eexists r', _, _. apply bind_inl. by apply bind_inl. }
  apply Forall_cons in Hb as [Hf Hb]. pose proof (Forall_byte_land f Hf) as Hland.
  destruct Hfirst as (r1 & Hv1 & Hf1 & Hfirst). case_bool_decide as Hext.
  - pose proof (readN_tail s b q r1) as Htail. rewrite Hv1 in Htail. specialize (Htail Hb). cbv zeta in Htail.
    case_bool_decide as Hlen.
    { destruct Htail as (r' & Htail). eexists r', _, _. apply bind_inl. erewrite bind_inr by exact Hfirst.
      cbn [nth]. rewrite (bool_decide_true (Z.land f 0x7f = 0x7f)) by done. apply bind_inl. by apply bind_inl. }
    destruct Htail as (r2 & Hv2 & Hf2 & Htail).
    assert (Hw : 0 ≤ le_value (take 3 v) < 16777216).
    { pose proof (le_value_range (take 3 v) (Forall_take _ _ _ Hb)) as Hr. rewrite length_take, Nat.min_l in Hr by lia. done. }
    rewrite (Z.mul_comm 4). fold Word. set (n := le_value (take 3 v) * Word) in *.
    assert (Hn : Z.shiftl (Z.lor (Z.lor (nth 0 (take 3 v) 0) (Z.shiftl (nth 1 (take 3 v) 0) 8))
                              (Z.shiftl (nth 2 (take 3 v) 0) 16)) 2 mod 4294967296 = n).
    { destruct v as [|t0 [|t1 [|t2 v]]]; simpl in Hlen; try lia. rewrite !Forall_cons in Hb. destruct Hb as (? & ? & ? & _).
      unfold n. change (take 3 (t0 :: t1 :: t2 :: v)) with [t0; t1; t2] in *. cbn [nth].
      rewrite tail_words by done. rewrite Z.shiftl_mul_pow2 by done.
      unfold Word. change (2 ^ 2) with 4. rewrite Z.mod_small by lia. done. }
    destruct (reserveCompatFrame reserveClosure n n s) as [s' [e|]] eqn:Hres.
    { exists r2, true. split; [by rewrite Hv2|]. apply bind_inl. erewrite bind_inr by exact Hfirst.
      cbn [nth]. rewrite (bool_decide_true (Z.land f 0x7f = 0x7f)) by done. apply bind_inl. by apply bind_inl. }
    pose proof (reserveCompatFrame_valid _ _ _ Hres) as Hval.
    pose proof (abridged_rest n (bool_decide (Z.land f 0x80 ≠ 0)) 4 s' r r2 b q true Hval) as Hrest.
    rewrite Hv in Hrest. destruct Hrest as (r' & Hrest); [by rewrite Hv2|congruence|]. exists r', true.
    erewrite bind_eq; [exact Hrest|]. erewrite bind_inr by exact Hfirst. cbn [nth].
    rewrite (bool_decide_true (Z.land f 0x7f = 0x7f)) by done. erewrite bind_inr; [reflexivity|]. erewrite bind_inr by exact Htail.
    cbv beta zeta. rewrite Hn. done.
  - rewrite (Z.mul_comm 4). fold Word. set (n := Z.land f 127 * Word) in *.
    assert (Hn : Z.shiftl (Z.land f 0x7f) 2 = n) by (by rewrite Z.shiftl_mul_pow2).
    destruct (reserveCompatFrame reserveClosure n n s) as [s' [e|]] eqn:Hres.
    { exists r1, false. split; [done|]. apply bind_inl. by apply bind_inl. }
    pose proof (reserveCompatFrame_valid _ _ _ Hres) as Hval.
    pose proof (abridged_rest n (bool_decide (Z.land f 0x80 ≠ 0)) 1 s' r r1 b q true Hval) as Hrest.
    rewrite Hv in Hrest. destruct Hrest as (r' & Hrest); [done|done|]. exists r', true.
    erewrite bind_eq; [exact Hrest|]. erewrite bind_inr by exact Hfirst. cbn [nth].
    rewrite (bool_decide_false (Z.land f 0x7f = 0x7f)) by done. erewrite bind_inr; [reflexivity|]. by rewrite <-Hn.
Qed.

Lemma read_quick_outcome (foreign : transportCodec → IO (rdState preflight) unit) c s r b q :
  quick c = true → Forall is_byte (view r) →
  read_outcome c r s b q
    (codecRead (RD := rdp (classifyInboundFrameCodec c)) foreign c (mkRd (mkPreflight r s false false) b q)).
Proof.
  destruct c; try done; intros _ Hb.
  - by apply read_abridged_outcome.
  - by apply (read_word_outcome foreign QuickAckIntermediate false).
  - by apply (read_word_outcome foreign QuickAckPaddedIntermediate true).
Qed.
End read.

(** ** A whole receive *)

Section recv.
Context {R : Type} `{BS : ByteStream R}.
Context (foreignRead : Reader (inboundFramePreflightReader R reserveState) → transportCodec →
           IO (rdState (inboundFramePreflightReader R reserveState)) unit).
Context (ReadWithInboundFrameBudget : positive → IO (rdState (R * reserveState)) unit).
Abbreviation connection := (@compatTransportConn R).
Abbreviation recv := (RecvDeadline foreignRead ReadWithInboundFrameBudget None).
Implicit Types (c : connection) (b : Buffer) (bud : Frames.inboundFrameBudget).

(** A connection as it was promoted, and books that balance. *)
Record Sane c bud : Prop := {
  sane_quick : quick (codec c) = true;
  sane_kind : codecKind c = classifyInboundFrameCodec (codec c);
  sane_bytes : Forall is_byte (view (conn c));
  sane_max : 0 < Frames.max bud ≤ i64_max;
  sane_held : 0 ≤ Frames.heldFrameBytes (frames c) ≤ Frames.used bud;
  sane_used : Frames.used bud ≤ Frames.max bud;
}.

(** What the budget grants a frame of [n] bytes on this connection. *)
Definition grant (n : Z) c bud : option (Z * Frames.inboundFrameBudget) :=
  if bool_decide (n ≤ 0) || bool_decide (n > maxTransportMessageSize) || Frames.closed (frames c) then None
  else match Frames.growReservation (Frames.heldFrameBytes (frames c)) n n bud with
       | (bud, inr g) => Some (g, bud)
       | _ => None
       end.

Lemma reserve_grant n c bud :
  Sane c bud →
  let f := Frames.beginInboundFrameRead (frames c) in
  let res := reserveCompatFrame reserveClosure n n (mkReserve 0 false None f bud) in
  match grant n c bud with
  | Some (g, bud') =>
    res = (mkReserve 1 true None (Frames.mkFrame g false (Frames.closed (frames c))) bud', None) ∧
    Frames.closed (frames c) = false ∧ 0 < n ≤ maxTransportMessageSize ∧ 2 * n ≤ g ∧
    Frames.used bud' = Frames.used bud + (g - Frames.heldFrameBytes (frames c)) ∧
    Frames.max bud' = Frames.max bud ∧ Frames.used bud' ≤ Frames.max bud
  | None => ∃ s e, res = (s, Some e) ∧ frame s = f ∧ budget s = bud
  end.
Proof.
  intros [_ _ _ Hmax Hheld Hused] f. unfold grant, reserveCompatFrame.
  destruct (bool_decide (n ≤ 0)) eqn:Hn1; simpl; [by eexists _, _|].
  destruct (bool_decide (n > maxTransportMessageSize)) eqn:Hn2; simpl; [by eexists _, _|].
  apply bool_decide_eq_false in Hn1, Hn2.
  unfold reserveClosure, Frames.reserveInboundFrame. simpl. destruct (Frames.closed (frames c)); [by eexists _, _|].
  pose proof (Frames.growReservation_spec (Frames.heldFrameBytes (frames c)) n n bud Hmax Hheld Hused) as Hg.
  destruct (Frames.growReservation _ _ _ _) as [bud' [e|g]]; destruct Hg as [Hm Hg].
  - subst bud'. by eexists _, _.
  - split; [done|]. split; [done|]. repeat split; lia.
Qed.

Lemma readInboundFrame_quick c b bud :
  quick (codec c) = true → codecKind c = classifyInboundFrameCodec (codec c) →
  readInboundFrame foreignRead ReadWithInboundFrameBudget c b bud =
  '(st, res) ← codecRead (RD := rdp (codecKind c)) (foreignRead (rdp (codecKind c))) (codec c)
     (mkRd (mkPreflight (conn c) (mkReserve 0 false None (frames c) bud) false false) b (quickAck c));
  Some (finishInboundFrame
          (mkConn (pf_r (rd st)) (codec c) (codecKind c) (budgetedCodec c) (frames c) (quickAckRequested st))
          (pf_s (rd st)) (rbuf st) res).
Proof. intros Hq Hk. unfold readInboundFrame. rewrite Hk. by destruct (codec c). Qed.

(** A failed receive returns everything the connection held. *)
Lemma release_all (f : Frames.frameState) bud :
  0 < Frames.max bud ≤ i64_max → 0 ≤ Frames.heldFrameBytes f ≤ Frames.used bud → Frames.used bud ≤ Frames.max bud →
  Frames.release (Frames.heldFrameBytes f) bud =
  Done (Frames.mkBudget (Frames.max bud) (Frames.used bud - Frames.heldFrameBytes f)).
Proof.
  intros Hm Hh Hu. unfold Frames.release, i64_max in *. case_bool_decide as Hz.
  - rewrite Hz, Z.sub_0_r. by destruct bud.
  - rewrite sub64_small by int64. by rewrite bool_decide_false by lia.
Qed.

Definition recv_outcome c b bud (c' : connection) (b' : Buffer) (bud' : Frames.inboundFrameBudget)
    (e : option edgeError) : Prop :=
  let v := view (conn c) in
  let refused := e ≠ None ∧ Frames.heldFrameBytes (frames c') = 0 ∧ Frames.frameDelivered (frames c') = false in
  match header (codec c) v with
  | None => refused ∧ b' = b
  | Some (h, rq, n) =>
    match grant n c bud with
    | None => refused ∧ b' = b ∧ view (conn c') = drop h v
    | Some (g, _) =>
      if bool_decide (Z.to_nat n ≤ length (drop h v))%nat && negb (bool_decide (trim (codec c) n = 4%nat)) then
        e = None ∧ Frames.heldFrameBytes (frames c') = g ∧ Frames.frameDelivered (frames c') = true ∧
        Buf b' = take (trim (codec c) n) (drop h v) ∧
        view (conn c') = drop (Z.to_nat n) (drop h v) ∧ quickAck c' = rq
      else refused
    end
  end.

Lemma recv_spec c b bud :
  Sane c bud →
  ∃ c' b' bud' e, recv c b bud = Some (Done (c', b', bud', e)) ∧
    codec c' = codec c ∧ codecKind c' = codecKind c ∧ Frames.closed (frames c') = Frames.closed (frames c) ∧
    Frames.used bud' - Frames.heldFrameBytes (frames c') = Frames.used bud - Frames.heldFrameBytes (frames c) ∧
    Frames.max bud' = Frames.max bud ∧ Frames.used bud' ≤ Frames.max bud ∧
    0 ≤ Frames.heldFrameBytes (frames c') ∧ recv_outcome c b bud c' b' bud' e.
Proof.
  intros HS. pose proof HS as [Hq Hk Hbytes Hmax Hheld Hused]. unfold RecvDeadline, recv_outcome.
  set (c0 := withFrames _ c).
  rewrite (readInboundFrame_quick c0 b bud Hq Hk). unfold c0. clear c0.
  cbn [withFrames codec codecKind conn frames quickAck budgetedCodec]. rewrite Hk.
  set (s0 := mkReserve 0 false None _ bud).
  pose proof (read_quick_outcome (foreignRead (rdp (codecKind c))) (codec c) s0 (conn c) b (quickAck c) Hq Hbytes) as Hread.
  rewrite Hk in Hread. unfold read_outcome in Hread. destruct (header (codec c) (view (conn c))) as [[[h rq] n]|].
  2: { destruct Hread as (r' & fd & e & ->). simpl. rewrite (release_all (frames c)) by done. simpl.
       eexists _, _, _, _. split; [done|]. simpl. repeat split; (done || lia). }
  pose proof (reserve_grant n c bud HS) as Hg. cbv zeta in Hg. fold s0 in Hg.
  destruct Hread as (r' & fd & Hread). destruct (grant n c bud) as [[g bud']|].
  2: { destruct Hg as (s & e & Hres & Hfr & Hbu). rewrite Hres in Hread. destruct Hread as [Hv ->]. simpl.
       rewrite Hfr, Hbu. simpl. rewrite (release_all (frames c)) by done. simpl.
       eexists _, _, _, _. split; [done|]. simpl. repeat split; (done || lia). }
  destruct Hg as (Hres & Hcl & Hn & H2n & Hu' & Hm' & Hcap). rewrite Hres in Hread. cbv zeta in Hread.
  assert (Hrel : Frames.release g bud' = Done (Frames.mkBudget (Frames.max bud') (Frames.used bud' - g))).
  { apply (release_all (Frames.mkFrame g false false)); simpl; [by rewrite Hm'|lia|lia]. }
  case_bool_decide as Hfit; cbn [andb].
  - destruct Hread as (Hv & _ & b' & Hb' & ->). case_bool_decide as H4; cbn [negb].
    + simpl. rewrite Hrel. simpl. eexists _, _, _, _. split; [done|]. simpl. repeat split; (done || lia).
    + simpl. unfold Frames.markInboundFrameDelivered. simpl. rewrite Hcl. rewrite bool_decide_false by lia. simpl.
      eexists _, _, _, _. split; [done|]. simpl. repeat split; (done || lia).
  - destruct Hread as (b' & e & ->). simpl. rewrite Hrel. simpl. eexists _, _, _, _. split; [done|]. simpl.
    repeat split; (done || lia).
Qed.
End recv.

(** ** Packets *)

Lemma flag_clear z : 0 ≤ z < 2147483648 → Z.land z quickAckResponseFlag = 0 ∧ Z.ldiff z quickAckResponseFlag = z.
Proof.
  intros Hz. assert (Hl : Z.land z quickAckResponseFlag = 0).
  { unfold quickAckResponseFlag. apply Z.bits_inj'. intros i Hi. rewrite Z.land_spec, Z.bits_0, Z.shiftl_spec by done.
    destruct (decide (i < 31)).
    - rewrite (Z.testbit_neg_r 1) by lia. by rewrite andb_false_r.
    - destruct (decide (z = 0)) as [->|]; [by rewrite Z.bits_0|]. rewrite Z.bits_above_log2; [done|lia|].
      apply Z.log2_lt_pow2; [lia|]. eapply Z.lt_le_trans; [apply Hz|].
      change 2147483648 with (2 ^ 31). apply Z.pow_le_mono_r; lia. }
  split; [done|]. pose proof (Z.add_nocarry_lor (Z.ldiff z quickAckResponseFlag) (Z.land z quickAckResponseFlag)) as Hadd.
  rewrite Hl, Z.add_0_r, Z.lor_0_r in Hadd.
  apply Z.bits_inj'. intros i Hi. rewrite Z.ldiff_spec. pose proof (Z.land_spec z quickAckResponseFlag i) as Hb.
  rewrite Hl, Z.bits_0 in Hb. destruct (Z.testbit z i), (Z.testbit quickAckResponseFlag i); done.
Qed.

Lemma validate_outgoing b :
  validateOutgoingCompatMessage b = None →
  0 < Z.of_nat (length b) ≤ 16777216 ∧ Z.of_nat (length b) mod 4 = 0.
Proof.
  unfold validateOutgoingCompatMessage, validateCompatTransportLength. change maxTransportMessageSize with 16777216.
  unfold Word. repeat case_bool_decide; simpl; try done; intros _; (split; [lia|]).
  by destruct (decide (Z.of_nat (length b) mod 4 = 0)).
Qed.

Lemma header_abridged b w rest :
  writeAbridged b = inr w →
  ∃ h, header QuickAckAbridged (w ++ rest) = Some (h, false, Z.of_nat (length b)) ∧ drop h (w ++ rest) = b ++ rest.
Proof.
  unfold writeAbridged. destruct (validateOutgoingCompatMessage b) eqn:Hval; [done|]. intros [= <-].
  apply validate_outgoing in Hval as [Hlen Hmod].
  assert (Hw : Z.shiftr (Z.of_nat (length b)) 2 = Z.of_nat (length b) / 4) by (by rewrite Z.shiftr_div_pow2).
  rewrite Hw. set (words := Z.of_nat (length b) / 4) in *.
  assert (Hwl : Z.of_nat (length b) = 4 * words) by (unfold words; rewrite (Z.div_mod (Z.of_nat (length b)) 4) at 1; lia).
  rewrite Hwl. unfold writeCompatPacket, header. case_bool_decide as Hs.
  - rewrite Z.mod_small by lia. exists 1%nat. cbn [app].
    assert (Hl : Z.land words 0x7f = words) by (rewrite land_low7 by (unfold is_byte; lia); apply Z.mod_small; lia).
    rewrite Hl. rewrite (bool_decide_false (words = 0x7f)) by lia. split; [|done]. do 2 f_equal. f_equal.
    apply bool_decide_false. intros Hne. apply Hne. change 0x80 with (Z.shiftl 1 7). apply Z.bits_inj'. intros i Hi.
    rewrite Z.land_spec, Z.bits_0, Z.shiftl_spec by done. destruct (decide (i < 7)).
    + rewrite (Z.testbit_neg_r 1) by lia. by rewrite andb_false_r.
    + destruct (decide (words = 0)) as [->|]; [by rewrite Z.bits_0|]. rewrite Z.bits_above_log2; [done|lia|].
      apply Z.log2_lt_pow2; [lia|]. eapply Z.lt_le_trans with (2 ^ 7); [lia|]. apply Z.pow_le_mono_r; lia.
  - exists 4%nat. split; [|done]. cbn [app]. rewrite bool_decide_true by done.
    rewrite (bool_decide_false (length _ < 3)%nat) by (simpl; lia).
    change (take 3 _) with [words mod 256; Z.shiftr words 8 mod 256; Z.shiftr words 16 mod 256].
    assert (Hb : [words mod 256; Z.shiftr words 8 mod 256; Z.shiftr words 16 mod 256] = le_bytes 3 words).
    { simpl. rewrite !Z.shiftr_div_pow2, Z.div_div by lia. done. }
    rewrite Hb, le_value_le_bytes_small by (simpl; lia). done.
Qed.

Lemma header_word c len v rest :
  c = QuickAckIntermediate ∨ c = QuickAckPaddedIntermediate → 0 ≤ len < 2147483648 →
  header c (le_bytes 4 len ++ v ++ rest) = Some (4%nat, false, len) ∧ drop 4 (le_bytes 4 len ++ v ++ rest) = v ++ rest.
Proof.
  intros Hc Hlen. pose proof (length_le_bytes 4 len) as Hl. split.
  - assert (header c (le_bytes 4 len ++ v ++ rest) = header QuickAckIntermediate (le_bytes 4 len ++ v ++ rest)) as ->
      by (by destruct Hc as [-> | ->]).
    unfold header. rewrite bool_decide_false by lengths.
    rewrite take_app_le, take_ge by lia. rewrite le_value_le_bytes_small by (simpl; lia).
    destruct (flag_clear len Hlen) as [-> ->]. done.
  - rewrite drop_app_le by lia. by rewrite drop_ge by lia.
Qed.

(** A packet parses back to its payload, whatever follows it. *)
Lemma packet_parses c padding p w rest :
  length padding = 4%nat → codecWrite c padding p = Some (inr w) →
  ∃ h n junk, header c (w ++ rest) = Some (h, false, n) ∧ drop h (w ++ rest) = p ++ junk ++ rest ∧
    Z.to_nat n = length (p ++ junk) ∧ trim c n = length p ∧ (c ≠ QuickAckPaddedIntermediate → junk = []) ∧
    (length junk < 4)%nat.
Proof.
  intros Hpad. unfold codecWrite. destruct c; try done; intros [= Hw].
  - destruct (header_abridged p w rest Hw) as (h & Hh & Hd). exists h, (Z.of_nat (length p)), [].
    rewrite app_nil_r. simpl. split_and!; (done || lia).
  - unfold writeIntermediate in Hw. destruct (validateOutgoingCompatMessage p) eqn:Hval; [done|].
    apply validate_outgoing in Hval as [Hlen _]. 
    assert (w = le_bytes 4 (Z.of_nat (length p)) ++ p) as -> by (symmetry; by injection Hw). rewrite <-app_assoc.
    destruct (header_word QuickAckIntermediate (Z.of_nat (length p)) p rest) as [Hh Hd]; [auto|lia|].
    exists 4%nat, (Z.of_nat (length p)), []. rewrite app_nil_r. simpl. split_and!; (done || lia).
  - unfold writePaddedIntermediate in Hw. destruct (validateOutgoingCompatMessage p) eqn:Hval; [done|].
    apply validate_outgoing in Hval as [Hlen Hmod].
    set (k := nth 0 padding 0 mod 4) in *. pose proof (Z.mod_pos_bound (nth 0 padding 0) 4) as Hk. fold k in Hk.
    set (junk := take (Z.to_nat k) padding) in *.
    assert (w = le_bytes 4 (Z.of_nat (length p) + k) ++ p ++ junk) as -> by (symmetry; by injection Hw).
    assert (Hj : length junk = Z.to_nat k) by (unfold junk; rewrite length_take; lia).
    rewrite <-!app_assoc.
    destruct (header_word QuickAckPaddedIntermediate (Z.of_nat (length p) + k) p (junk ++ rest)) as [Hh Hd]; [auto|lia|].
    exists 4%nat, (Z.of_nat (length p) + k), junk. split_and!; try done.
    + rewrite length_app. lia.
    + unfold trim. rewrite Z.add_mod, Hmod, Z.add_0_l, Z.mod_mod, (Z.mod_small k) by lia. lia.
    + lia.
Qed.

(** ** One frame, then the next *)

Section frames.
Context {R : Type} `{BS : ByteStream R}.
Context (foreignRead : Reader (inboundFramePreflightReader R reserveState) → transportCodec →
           IO (rdState (inboundFramePreflightReader R reserveState)) unit).
Context (ReadWithInboundFrameBudget : positive → IO (rdState (R * reserveState)) unit).
Abbreviation recv := (RecvDeadline foreignRead ReadWithInboundFrameBudget None).
Implicit Types (c : @compatTransportConn R) (b : Buffer) (bud : Frames.inboundFrameBudget).

(** A frame that fits beside what the other connections use is granted. *)
Lemma grant_fits n c bud :
  Sane c bud → Frames.closed (frames c) = false → 0 < n ≤ maxTransportMessageSize →
  Frames.used bud - Frames.heldFrameBytes (frames c) + 2 * n ≤ Frames.max bud →
  ∃ g bud1, grant n c bud = Some (g, bud1).
Proof.
  intros [_ _ _ Hmax Hheld Hused] Hcl Hn Hfit. unfold grant. rewrite Hcl, !bool_decide_false by lia. simpl.
  change maxTransportMessageSize with 16777216 in Hn. unfold i64_max in Hmax. unfold Frames.growReservation.
  rewrite sub64_small by int64. rewrite !add64_small by int64.
  repeat rewrite (bool_decide_false (_ < _)) by lia. rewrite (bool_decide_false (n ≤ 0)) by lia.
  rewrite !(bool_decide_false (n > _)) by lia. simpl. case_bool_decide; [by eexists _, _|].
  rewrite !sub64_small by (unfold i64_min, i64_max; rewrite ?sub64_small by int64; lia).
  rewrite bool_decide_false by lia. by eexists _, _.
Qed.

(** Round trip of one frame: what a codec writes is read back as that message
    and nothing more; padding disappears and the bytes that follow are left for
    the next frame. *)
Lemma recv_packet c b bud padding p w rest :
  Sane c bud → Frames.closed (frames c) = false → length padding = 4%nat →
  codecWrite (codec c) padding p = Some (inr w) → length p ≠ 4%nat →
  Z.of_nat (length p) + 3 ≤ maxTransportMessageSize →
  Frames.used bud - Frames.heldFrameBytes (frames c) + 2 * (Z.of_nat (length p) + 3) ≤ Frames.max bud →
  view (conn c) = w ++ rest →
  ∃ c' b' bud', recv c b bud = Some (Done (c', b', bud', None)) ∧
    Buf b' = p ∧ view (conn c') = rest ∧ quickAck c' = false ∧ Sane c' bud' ∧
    Frames.closed (frames c') = false ∧ codec c' = codec c ∧ Frames.max bud' = Frames.max bud ∧
    Frames.used bud' - Frames.heldFrameBytes (frames c') = Frames.used bud - Frames.heldFrameBytes (frames c).
Proof.
  intros HS Hcl Hpad Hw H4 Hsize Hfit Hv.
  destruct (packet_parses (codec c) padding p w rest Hpad Hw) as (h & n & junk & Hh & Hd & Hn & Ht & _ & Hj).
  rewrite length_app in Hn.
  destruct (grant_fits n c bud HS Hcl) as (g & bud1 & Hg); [|lia|].
  { assert (validateOutgoingCompatMessage p = None) as Hval.
    { destruct (codec c); try done; unfold codecWrite, writeAbridged, writeIntermediate, writePaddedIntermediate in Hw;
        by destruct (validateOutgoingCompatMessage p). }
    apply validate_outgoing in Hval. lia. }
  destruct (recv_spec foreignRead ReadWithInboundFrameBudget c b bud HS)
    as (c' & b' & bud' & e & Hr & Hc' & Hk' & Hcl' & Hbooks & Hmax & Hcap & Hheld & Hout).
  unfold recv_outcome in Hout. rewrite Hv, Hh, Hg, Hd, Hn, Ht in Hout.
  rewrite (bool_decide_false (length p = 4%nat)) in Hout by done.
  rewrite bool_decide_true in Hout by lengths. cbn [andb negb] in Hout.
  destruct Hout as (-> & Hgh & _ & Hb & Hrest & Hq). exists c', b', bud'. split; [done|].
  assert (Hview : view (conn c') = rest).
  { rewrite Hrest, app_assoc. rewrite drop_app_le by lengths. by rewrite drop_ge by lengths. }
  split; [rewrite Hb, take_app_le by done; by apply take_ge|]. split; [done|]. split; [done|].
  destruct HS as [Hquick Hkind Hbytes Hm1 Hh1 Hu1]. split; [|split; [|split; [|split]]; try done].
  - split; [congruence|congruence| | |lia|lia].
    + rewrite Hview. rewrite Hv in Hbytes. by apply Forall_app in Hbytes as [_ ?].
    + by rewrite Hmax.
  - congruence.
Qed.
End frames.

(** ** Properties *)

(** C39: However the connections of a process and its gzip and container
    decodes interleave, what connections hold, what released frames still owe
    and what decodes have reserved is together exactly what the frame budget
    counts; the budget never exceeds its limit and never panics, and it is
    empty once everything is returned. *)
Theorem frame_budget_conserved m ls :
  m ≤ i64_max →
  ∃ st, Frames.run ls (Frames.start m) = Done st ∧
    Frames.used (Frames.budget st) = Frames.held st + Frames.owing st + Frames.decoding st ∧
    0 ≤ Frames.used (Frames.budget st) ≤ Frames.max (Frames.newInboundFrameBudget m) ∧
    ((∀ c f, Frames.conns st !! c = Some f → Frames.heldFrameBytes f = 0) → Frames.owed st = [] →
     (∀ k n, Frames.decodes st !! k = Some n → n = 0) → Frames.used (Frames.budget st) = 0).
Proof.
  intros Hm. destruct (Frames.frames_run_Inv ls (Frames.start m) (Frames.frames_start_Inv m Hm)) as (st & Hr & HI & Hmax).
  exists st. split; [done|]. pose proof HI as [_ Huse Hcap _ _ _]. split; [done|].
  split; [pose proof (Frames.frames_held_nonneg _ HI); pose proof (Frames.owing_nonneg _ HI); pose proof (Frames.decoding_nonneg _ HI); simpl in Hmax; simpl; lia|].
  intros Hz Ho Hd. rewrite Huse. unfold Frames.held, Frames.owing, Frames.decoding. rewrite Ho, !msum_zero; [done|by apply Hd|by apply Hz].
Qed.

Section edge.
Context {R : Type} `{BS : ByteStream R}.
Context (foreignRead : Reader (inboundFramePreflightReader R reserveState) → transportCodec →
           IO (rdState (inboundFramePreflightReader R reserveState)) unit).
Context (ReadWithInboundFrameBudget : positive → IO (rdState (R * reserveState)) unit).
Abbreviation recv := (RecvDeadline foreignRead ReadWithInboundFrameBudget None).

(** A receive always returns, whatever bytes a peer sends and however they
    are cut up: it keeps the budget's books, it touches the payload buffer only
    after the budget has granted twice the announced length, a frame it delivers
    is covered by what the connection holds, and a frame it refuses leaves
    nothing held. *)
Theorem recv_reserves_before_buffer (c : compatTransportConn) b bud :
  Sane c bud →
  ∃ c' b' bud' e, recv c b bud = Some (Done (c', b', bud', e)) ∧
    Frames.used bud' - Frames.heldFrameBytes (frames c') = Frames.used bud - Frames.heldFrameBytes (frames c) ∧
    Frames.used bud' ≤ Frames.max bud ∧
    (b' ≠ b → ∃ h rq n g bud1, header (codec c) (view (conn c)) = Some (h, rq, n) ∧
       0 < n ≤ maxTransportMessageSize ∧ grant n c bud = Some (g, bud1) ∧ 2 * n ≤ g) ∧
    (if e then Frames.heldFrameBytes (frames c') = 0
     else 2 * Z.of_nat (length (Buf b')) ≤ Frames.heldFrameBytes (frames c')).
Proof.
  intros HS. destruct (recv_spec foreignRead ReadWithInboundFrameBudget c b bud HS)
    as (c' & b' & bud' & e & Hr & _ & _ & _ & Hbooks & _ & Hcap & _ & Hout).
  exists c', b', bud', e. split; [done|]. split; [done|]. split; [done|]. unfold recv_outcome in Hout.
  destruct (header (codec c) (view (conn c))) as [[[h rq] n]|]; last first.
  { destruct Hout as [(He & Hh & _) ->]. split; [done|]. by destruct e. }
  pose proof (reserve_grant n c bud HS) as Hg. destruct (grant n c bud) as [[g bud1]|] eqn:Hgr; last first.
  { destruct Hout as [(He & Hh & _) [-> _]]. split; [done|]. by destruct e. }
  destruct Hg as (_ & _ & Hn & H2n & _). split; [intros _; by exists h, rq, n, g, bud1|].
  destruct (bool_decide _ && _) eqn:Hfit.
  - destruct Hout as (-> & -> & _ & -> & _). rewrite length_take. pose proof (trim_le (codec c) n ltac:(lia)). lia.
  - destruct Hout as (He & Hh & _). by destruct e.
Qed.
End edge.

(** ** Sample runs *)
Module EdgeRuns.
Definition foreign : Reader (inboundFramePreflightReader socket reserveState) → transportCodec →
    IO (rdState (inboundFramePreflightReader socket reserveState)) unit := λ _ _, throw errInboundFrameCodecUnsupported.
Definition custom : positive → IO (rdState (socket * reserveState)) unit := λ _, throw errInboundFrameCodecUnsupported.
Definition message : list Z := [1; 2; 3; 4; 5; 6; 7; 8].
Definition following : list Z := [200; 201].
(** A padded packet with three bytes of padding, cut into pieces. *)
Definition packet : list Z := [11; 0; 0; 0] ++ message ++ [7; 9; 9].
Definition peer : compatTransportConn :=
  mkConn (mkSocket (packet ++ following) [1; 2; 1; 5]%nat EOF) QuickAckPaddedIntermediate
    inboundFrameCodecPaddedIntermediate None Frames.newFrameState false.
Definition wide : Frames.inboundFrameBudget := Frames.newInboundFrameBudget 1000.
Definition narrow : Frames.inboundFrameBudget := Frames.newInboundFrameBudget 20.
Definition empty : Buffer := mkBuffer [] 0.

Lemma peer_Sane m : 0 < m ≤ i64_max → Sane peer (Frames.newInboundFrameBudget m).
Proof.
  intros Hm. unfold i64_max in Hm. split; try reflexivity.
  - repeat (constructor; [unfold is_byte; lia|]). constructor.
  - simpl. rewrite bool_decide_false by lia. unfold i64_max. lia.
  - simpl. lia.
  - simpl. rewrite bool_decide_false by lia. lia.
Qed.

(** Two frames, one of which carries a gzip of 300 bytes that expands to a
    container of two messages, in a budget with room for all of them at once. *)
Definition traffic : list Frames.label :=
  [Frames.LOpen 1; Frames.LOpen 2; Frames.LReserve 1 40 40; Frames.LGzip 1 500; Frames.LReserve 2 30 30;
   Frames.LRelease 2; Frames.LExpanded 1 300; Frames.LContainer 2 2; Frames.LSettle 0; Frames.LRetain 1 0].
Lemma traffic_holds :
  match Frames.run traffic (Frames.start 1000) with
  | Done st => (Frames.used (Frames.budget st), Frames.held st, Frames.owing st, Frames.decoding st) = (764, 0, 80, 684)
  | Panic => False
  end.
Proof. vm_compute. reflexivity. Qed.
Lemma frame_budget_conserved_witness :
  ∃ st, Frames.run traffic (Frames.start 1000) = Done st ∧ Frames.used (Frames.budget st) = 764 ∧
    Frames.used (Frames.budget st) = Frames.held st + Frames.owing st + Frames.decoding st.
Proof.
  pose proof traffic_holds as Hh.
  destruct (frame_budget_conserved 1000 traffic) as (st & Hr & Hu & _); [unfold i64_max; lia|].
  rewrite Hr in Hh. exists st. split; [exact Hr|]. split; [congruence|exact Hu].
Defined.

(** The narrow budget refuses the frame: the buffer is the one it was. *)
Lemma recv_reserves_before_buffer_witness :
  ∃ c' b' bud' e, RecvDeadline foreign custom None peer empty narrow = Some (Done (c', b', bud', e)) ∧
    Frames.used bud' - Frames.heldFrameBytes (frames c') = Frames.used narrow - Frames.heldFrameBytes (frames peer) ∧
    Frames.used bud' ≤ Frames.max narrow ∧
    (b' ≠ empty → ∃ h rq n g bud1, header (codec peer) (view (conn peer)) = Some (h, rq, n) ∧
       0 < n ≤ maxTransportMessageSize ∧ grant n peer narrow = Some (g, bud1) ∧ 2 * n ≤ g) ∧
    (if e then Frames.heldFrameBytes (frames c') = 0
     else 2 * Z.of_nat (length (Buf b')) ≤ Frames.heldFrameBytes (frames c')).
Proof. apply recv_reserves_before_buffer. apply peer_Sane. unfold i64_max. lia. Defined.
End EdgeRuns.
