(* ===== verification/Detection.v ===== *)
(** * One port for every TCP wire mode

    [internal/mtprotoedge/transport_detection.go]: the first bytes of a
    connection decide between the plain codecs and obfuscated2; whatever was
    read to decide is replayed where the chosen reader needs it.  The codec
    tags, the header reader of a configured codec and [obfuscated2.Accept]
    belong to the td library and are parameters. *)

From S2P Require Import Prelude Wire FrameBudget Transport.
Import Transport.

Module Detect.

Inductive tcpWireMode := tcpWireModeUnknown | tcpWireModePlain | tcpWireModeObfuscated.
Inductive detectedTCPCodec :=
  | detectedTCPCodecUnknown
  | detectedTCPCodecAbridged
  | detectedTCPCodecIntermediate
  | detectedTCPCodecPaddedIntermediate
  | detectedTCPCodecFull.
#[export] Instance detectedTCPCodec_eq_dec : EqDecision detectedTCPCodec.
Proof. solve_decision. Defined.

(** ** Replaying consumed bytes *)

Record replayNetConn (R : Type) := mkReplay { r_conn : R; r_prefix : list Z; offset : nat }.
Arguments mkReplay {R} r_conn r_prefix offset.
Arguments r_conn {R} r.
Arguments r_prefix {R} r.
Arguments offset {R} r.

(** The prefix array has eight bytes; a longer prefix is a programming error. *)
Definition newReplayNetConn {R} (c : R) (prefix : list Z) : Run (replayNetConn R) :=
  _ ← panic_if (bool_decide (8 < length prefix)%nat);
  Done (mkReplay c prefix 0).

#[export] Instance replay_Reader {R} `{Reader R} : Reader (replayNetConn R) := λ n c,
  if bool_decide (offset c < length (r_prefix c))%nat then
    let bs := take n (drop (offset c) (r_prefix c)) in
    Some (mkReplay (r_conn c) (r_prefix c) (offset c + length bs), bs, None)
  else
    '(r, bs, e) ← Read n (r_conn c);
    Some (mkReplay r (r_prefix c) (offset c), bs, e).

(** A [net.Conn] after detection: the socket itself, or behind a replay. *)
Inductive netConn (R : Type) :=
  | NRaw (r : R)
  | NReplay (c : replayNetConn R).
Arguments NRaw {R} r.
Arguments NReplay {R} c.
#[export] Instance netConn_Reader {R} `{Reader R} : Reader (netConn R) := λ n c,
  match c with
  | NRaw r => '(r, bs, e) ← Read n r; Some (NRaw r, bs, e)
  | NReplay r => '(r, bs, e) ← Read n r; Some (NReplay r, bs, e)
  end.

(** ** Detection *)

Definition isHTTPHeaderPrefix (h : list Z) : bool :=
  bool_decide (h = [71; 69; 84; 32]) || bool_decide (h = [80; 79; 83; 84]) ||
  bool_decide (h = [72; 69; 65; 68]) || bool_decide (h = [79; 80; 84; 73]).

Record tcpTransportProbe (R : Type) := mkProbe {
  raw : R;
  prefix : list Z;
  mode : tcpWireMode;
  p_codec : detectedTCPCodec;
}.
Arguments mkProbe {R} raw prefix mode p_codec.
Arguments raw {R} t.
Arguments prefix {R} t.
Arguments mode {R} t.
Arguments p_codec {R} t.

(** The tags of the td library: [codec.AbridgedClientStart[0]], the two
    four-byte client starts, and [codec.Abridged{}.ObfuscatedTag()]. *)
Class Tags := {
  AbridgedClientStart : Z;
  IntermediateClientStart : list Z;
  PaddedIntermediateClientStart : list Z;
  AbridgedObfuscatedTag : list Z;
}.
(** What MTProto fixes about them (0xef, 0xeeeeeeee, 0xdddddddd): single bytes
    and words, told apart by their first bytes. *)
Class TagsOk (T : Tags) := {
  tag_ab : is_byte AbridgedClientStart;
  tag_im : length IntermediateClientStart = 4%nat;
  tag_pd : length PaddedIntermediateClientStart = 4%nat;
  tag_im_ab : head IntermediateClientStart ≠ Some AbridgedClientStart;
  tag_pd_ab : head PaddedIntermediateClientStart ≠ Some AbridgedClientStart;
  tag_im_pd : IntermediateClientStart ≠ PaddedIntermediateClientStart;
  (** read as a length, a tag is no valid first word of a full frame *)
  tag_ab_len : AbridgedClientStart mod 4 ≠ 0;
  tag_im_len : maxTransportMessageSize < le_value IntermediateClientStart;
  tag_pd_len : maxTransportMessageSize < le_value PaddedIntermediateClientStart;
}.

Section detect.
Context `{TG : Tags} {R : Type} `{RD : Reader R}.

(** [io.ReadFull(raw, probe.prefix[a:b])]: the prefix grows by what it needs. *)
Definition detectTCPTransport (r : R) : option (tcpTransportProbe R * option edgeError) :=
  '(r, b1, e) ← ReadFull 1 r;
  match e with
  | Some e => Some (mkProbe r [] tcpWireModeUnknown detectedTCPCodecUnknown, Some e)
  | None =>
    if bool_decide (nth 0 b1 0 = AbridgedClientStart)
    then Some (mkProbe r b1 tcpWireModePlain detectedTCPCodecAbridged, None)
    else
      '(r, b3, e) ← ReadFull 3 r;
      match e with
      | Some e => Some (mkProbe r b1 tcpWireModeUnknown detectedTCPCodecUnknown, Some e)
      | None =>
        let firstFour := b1 ++ b3 in
        if bool_decide (firstFour = IntermediateClientStart)
        then Some (mkProbe r firstFour tcpWireModePlain detectedTCPCodecIntermediate, None)
        else if bool_decide (firstFour = PaddedIntermediateClientStart)
        then Some (mkProbe r firstFour tcpWireModePlain detectedTCPCodecPaddedIntermediate, None)
        else if isHTTPHeaderPrefix firstFour || bool_decide (le_value firstFour = 0x02010316)
        then Some (mkProbe r firstFour tcpWireModeUnknown detectedTCPCodecUnknown, Some errInvalidTCPTransportPrefix)
        else
          '(r, b4, e) ← ReadFull 4 r;
          match e with
          | Some e => Some (mkProbe r firstFour tcpWireModeUnknown detectedTCPCodecUnknown, Some e)
          | None =>
            let all := firstFour ++ b4 in
            if bool_decide (le_value b4 = 0) then
              let length := le_value firstFour in
              if bool_decide (length < 3 * 4) || bool_decide (length > maxTransportMessageSize) || bool_decide (length mod 4 ≠ 0)
              then Some (mkProbe r all tcpWireModeUnknown detectedTCPCodecUnknown, Some errInvalidTCPTransportPrefix)
              else Some (mkProbe r all tcpWireModePlain detectedTCPCodecFull, None)
            else Some (mkProbe r all tcpWireModeObfuscated detectedTCPCodecUnknown, None)
          end
      end
  end.

Definition replayConn (p : tcpTransportProbe R) : Run (netConn R) :=
  c ← newReplayNetConn (raw p) (prefix p);
  Done (NReplay c).
Definition plainFrameConn (p : tcpTransportProbe R) : Run (netConn R) :=
  if bool_decide (p_codec p = detectedTCPCodecFull) then replayConn p else Done (NRaw (raw p)).
End detect.

Definition detectedCompatCodec (kind : detectedTCPCodec) : edgeError + transportCodec :=
  match kind with
  | detectedTCPCodecAbridged => inr QuickAckAbridged
  | detectedTCPCodecIntermediate => inr QuickAckIntermediate
  | detectedTCPCodecPaddedIntermediate => inr QuickAckPaddedIntermediate
  | detectedTCPCodecFull => inr Full
  | _ => inl errInvalidTCPTransportPrefix
  end.

Definition detectObfuscatedProtocol `{Tags} (tag : list Z) : edgeError + (detectedTCPCodec * nat) :=
  if bool_decide (tag = AbridgedObfuscatedTag) then inr (detectedTCPCodecAbridged, 1%nat)
  else if bool_decide (tag = IntermediateClientStart) then inr (detectedTCPCodecIntermediate, 4%nat)
  else if bool_decide (tag = PaddedIntermediateClientStart) then inr (detectedTCPCodecPaddedIntermediate, 4%nat)
  else inl errInvalidObfuscatedProtocol.

(** ** Promotion *)

Section promote.
Context `{TG : Tags} {R O : Type} `{RD : Reader R} `{RDO : Reader O}.
(** [obfuscated2.Accept]: the decrypting stream and the protocol tag of its
    metadata; [ReadHeader] of a configured codec. *)
Context (Accept : netConn R → option (edgeError + (O * list Z))).
Context (ReadHeader : ∀ {C} `{Reader C}, transportCodec → C → option (C * option edgeError)).

Inductive promoted :=
  | PPlain (c : @compatTransportConn (netConn R))
  | PObfuscated (c : @compatTransportConn (netConn O)).

(** [newCompatTransportConn] with a codec factory. *)
Definition newCompatTransportConn {C} `{Reader C} (cc : transportCodec) (c : C)
    : option (edgeError + @compatTransportConn C) :=
  if bool_decide (classifyInboundFrameCodec cc = inboundFrameCodecUnknown)
  then Some (inl errInboundFrameCodecUnsupported)
  else
    '(c, e) ← ReadHeader C _ cc c;
    match e with
    | Some e => Some (inl e)
    | None => Some (newCompatTransportConnWithCodec c cc)
    end.

Definition wrapPlain (r : edgeError + @compatTransportConn (netConn R)) : edgeError + promoted :=
  match r with inl e => inl e | inr c => inr (PPlain c) end.
Definition wrapObfuscated (r : edgeError + @compatTransportConn (netConn O)) : edgeError + promoted :=
  match r with inl e => inl e | inr c => inr (PObfuscated c) end.

(** [serverCodec] is the codec the server was configured with, if any.  The
    metrics label the source also returns is omitted. *)
Definition promoteMixedTCP (serverCodec : option transportCodec) (r : R) : option (Run (edgeError + promoted)) :=
  '(probe, e) ← detectTCPTransport r;
  match e, mode probe with
  | Some e, _ => Some (Done (inl e))
  | None, tcpWireModePlain =>
    match serverCodec with
    | Some cc =>
      match replayConn probe with
      | Panicked => Some Panicked
      | Done c => res ← newCompatTransportConn cc c; Some (Done (wrapPlain res))
      end
    | None =>
      match detectedCompatCodec (p_codec probe) with
      | inl e => Some (Done (inl e))
      | inr cc => Some (c ← plainFrameConn probe; Done (wrapPlain (newCompatTransportConnWithCodec c cc)))
      end
    end
  | None, _ =>
    match replayConn probe with
    | Panicked => Some Panicked
    | Done replayed =>
      res ← Accept replayed;
      match res with
      | inl e => Some (Done (inl e))
      | inr (rw, protocol) =>
        match detectObfuscatedProtocol protocol with
        | inl e => Some (Done (inl e))
        | inr (detected, tagLen) =>
          match serverCodec with
          | Some cc =>
            match newReplayNetConn rw (take tagLen protocol) with
            | Panicked => Some Panicked
            | Done c => res ← newCompatTransportConn cc (NReplay c); Some (Done (wrapObfuscated res))
            end
          | None =>
            match detectedCompatCodec detected with
            | inl e => Some (Done (inl e))
            | inr cc => Some (Done (wrapObfuscated (newCompatTransportConnWithCodec (NRaw rw) cc)))
            end
          end
        end
      end
    end
  end.
End promote.
End Detect.
