(* ===== verification/DetectionProps.v ===== *)
(** * Detection loses nothing and mixes up nothing

    Replayed connections are byte streams again, so that the framing theorems
    apply to what detection promotes. *)

From S2P Require Import Prelude Wire FrameBudget Transport TransportProps Detection.
Import Transport Detect.

(** ** The readers detection builds are byte streams *)

#[export, refine] Instance replay_ByteStream {R} `{BS : ByteStream R} : ByteStream (replayNetConn R) := {
  view c := drop (offset c) (r_prefix c) ++ view (r_conn c);
  final c := final (r_conn c);
}.
Proof.
  - intros n c Hn Hv. unfold Read, replay_Reader. case_bool_decide as Ho.
    + set (bs := take n (drop (offset c) (r_prefix c))). eexists _, bs, None. split; [done|]. simpl.
      assert (Hl : length bs = Nat.min n (length (r_prefix c) - offset c)) by (unfold bs; by rewrite length_take, length_drop).
      split; [destruct bs; [simpl in Hl; lia|done]|]. split; [lia|]. split; [|by auto].
      rewrite app_assoc. f_equal. rewrite <-drop_drop. unfold bs.
      rewrite length_take. destruct (decide (n ≤ length (drop (offset c) (r_prefix c)))%nat).
      * rewrite Nat.min_l by done. by rewrite take_drop.
      * rewrite Nat.min_r, take_ge, (drop_ge (drop _ _)) by lia. by rewrite app_nil_r.
    + rewrite drop_ge in * by lia. simpl in Hv. destruct (Read_some n (r_conn c) Hn Hv) as (r' & bs & e & -> & Hrest).
      simpl. eexists _, bs, e. split; [done|]. simpl. by rewrite drop_ge by lia.
  - intros n c Hn [Hp Hv]%app_eq_nil. unfold Read, replay_Reader.
    assert (length (r_prefix c) ≤ offset c)%nat.
    { apply (f_equal length) in Hp. rewrite length_drop in Hp. simpl in Hp. lia. }
    rewrite bool_decide_false by lia. destruct (Read_end n (r_conn c) Hn Hv) as (r' & -> & Hv' & Hf').
    simpl. eexists. split; [done|]. simpl. by rewrite Hp, Hv'.
Defined.

#[export, refine] Instance netConn_ByteStream {R} `{BS : ByteStream R} : ByteStream (netConn R) := {
  view c := match c with NRaw r => view r | NReplay r => view r end;
  final c := match c with NRaw r => final r | NReplay r => final r end;
}.
Proof.
  - intros n c Hn Hv. unfold Read at 1, netConn_Reader.
    destruct c as [r|r]; destruct (Read_some n r Hn Hv) as (r' & bs & e & -> & Hrest);
      simpl; eexists _, bs, e; (split; [done|]); done.
  - intros n c Hn Hv. unfold Read at 1, netConn_Reader.
    destruct c as [r|r]; destruct (Read_end n r Hn Hv) as (r' & -> & Hv' & Hf');
      simpl; eexists; (split; [done|]); done.
Defined.

(** ** What the first bytes mean *)

Section detect.
Context `{TG : Tags} {R : Type} `{BS : ByteStream R}.

Inductive verdict := VTooShort | VRejected | VPlain (c : detectedTCPCodec) (k : nat) | VObfuscated.

(** The decision, as a function of the bytes a peer sends. *)
Definition classify (v : list Z) : verdict :=
  if bool_decide (length v < 1)%nat then VTooShort
  else if bool_decide (nth 0 v 0 = AbridgedClientStart) then VPlain detectedTCPCodecAbridged 1
  else if bool_decide (length v < 4)%nat then VTooShort
  else if bool_decide (take 4 v = IntermediateClientStart) then VPlain detectedTCPCodecIntermediate 4
  else if bool_decide (take 4 v = PaddedIntermediateClientStart) then VPlain detectedTCPCodecPaddedIntermediate 4
  else if isHTTPHeaderPrefix (take 4 v) || bool_decide (le_value (take 4 v) = 0x02010316) then VRejected
  else if bool_decide (length v < 8)%nat then VTooShort
  else if bool_decide (le_value (take 4 (drop 4 v)) = 0) then
    let n := le_value (take 4 v) in
    if bool_decide (n < 12) || bool_decide (n > maxTransportMessageSize) || bool_decide (n mod 4 ≠ 0)
    then VRejected else VPlain detectedTCPCodecFull 8
  else VObfuscated.

(** A probe that has consumed the first [k] bytes of [v] and kept them. *)
Definition consumed (k : nat) (v : list Z) (p : tcpTransportProbe R) : Prop :=
  prefix p = take k v ∧ view (raw p) = drop k v.

Lemma detect_spec r :
  ∃ p e, detectTCPTransport r = Some (p, e) ∧
  match classify (view r) with
  | VTooShort => e = Some (short (final r) []) ∨ (∃ got, e = Some (short (final r) got))
  | VRejected => e = Some errInvalidTCPTransportPrefix
  | VPlain c k => e = None ∧ mode p = tcpWireModePlain ∧ p_codec p = c ∧ consumed k (view r) p
  | VObfuscated => e = None ∧ mode p = tcpWireModeObfuscated ∧ consumed 8 (view r) p
  end.
Proof.
  unfold detectTCPTransport, classify, consumed. set (v := view r).
  case_bool_decide as H1.
  { destruct (ReadFull_short 1 r H1) as (r' & -> & _). simpl. eexists _, _. split; [done|]. right. by eexists. }
  destruct (ReadFull_ok 1 r) as (r1 & -> & Hv1 & Hf1); [fold v; lia|]. fold v in Hv1. simpl. fold v.
  assert (Hn : nth 0 (take 1 v) 0 = nth 0 v 0) by (by destruct v). rewrite Hn.
  case_bool_decide as Hab; [eexists _, _; split; [done|]; done|].
  case_bool_decide as H4.
  { destruct (ReadFull_short 3 r1) as (r' & -> & _); [rewrite Hv1, length_drop; lia|]. simpl.
    eexists _, _. split; [done|]. right. rewrite Hf1. by eexists. }
  destruct (ReadFull_ok 3 r1) as (r2 & -> & Hv2 & Hf2); [rewrite Hv1, length_drop; lia|]. simpl.
  assert (H44 : take 1 v ++ take 3 (view r1) = take 4 v).
  { rewrite Hv1. apply take_take_drop. }
  rewrite H44. assert (Hv2' : view r2 = drop 4 v) by (rewrite Hv2, Hv1; by rewrite drop_drop).
  case_bool_decide as Him; [eexists _, _; split; [done|]; done|].
  case_bool_decide as Hpd; [eexists _, _; split; [done|]; done|].
  destruct (isHTTPHeaderPrefix (take 4 v) || _); [eexists _, _; split; [done|]; done|].
  destruct (bool_decide (length v < 8)%nat) eqn:H8; [apply bool_decide_eq_true in H8|apply bool_decide_eq_false in H8].
  { destruct (ReadFull_short 4 r2) as (r' & -> & _); [rewrite Hv2', length_drop; lia|]. simpl.
    eexists _, _. split; [done|]. right. rewrite Hf2, Hf1. by eexists. }
  destruct (ReadFull_ok 4 r2) as (r3 & -> & Hv3 & _); [rewrite Hv2', length_drop; lia|]. simpl.
  rewrite Hv2' in *. assert (H88 : take 4 v ++ take 4 (drop 4 v) = take 8 v) by apply take_take_drop.
  rewrite H88. assert (Hv3' : view r3 = drop 8 v) by (rewrite Hv3; by rewrite drop_drop).
  case_bool_decide; [|eexists _, _; split; [done|]; done].
  destruct (_ || _); eexists _, _; (split; [done|]); done.
Qed.

Lemma replayConn_view p k v :
  consumed k v p → (k ≤ 8)%nat → ∃ c, replayConn p = Done c ∧ view c = v.
Proof.
  intros [Hp Hv] Hk. unfold replayConn, newReplayNetConn. rewrite panic_if_false.
  2: { apply bool_decide_false. rewrite Hp, length_take. lia. }
  simpl. eexists. split; [done|]. simpl. rewrite drop_0, Hp, Hv. apply take_drop.
Qed.
End detect.

(** ** The first bytes of each kind of peer *)

Section peers.
Context `{TG : Tags, TO : !TagsOk TG}.

(** The header a plain client of a codec opens with. *)
Definition client_start (c : transportCodec) : option (list Z) :=
  match c with
  | QuickAckAbridged => Some [AbridgedClientStart]
  | QuickAckIntermediate => Some IntermediateClientStart
  | QuickAckPaddedIntermediate => Some PaddedIntermediateClientStart
  | _ => None
  end.
Definition detected_of (c : transportCodec) : detectedTCPCodec :=
  match c with
  | QuickAckAbridged => detectedTCPCodecAbridged
  | QuickAckIntermediate => detectedTCPCodecIntermediate
  | QuickAckPaddedIntermediate => detectedTCPCodecPaddedIntermediate
  | _ => detectedTCPCodecUnknown
  end.

(** The rules obfuscated2 puts on the first eight bytes of its nonce. *)
Definition nonce_rules (v : list Z) : Prop :=
  (8 ≤ length v)%nat ∧ nth 0 v 0 ≠ AbridgedClientStart ∧
  take 4 v ≠ IntermediateClientStart ∧ take 4 v ≠ PaddedIntermediateClientStart ∧
  isHTTPHeaderPrefix (take 4 v) = false ∧ le_value (take 4 v) ≠ 0x02010316 ∧
  le_value (take 4 (drop 4 v)) ≠ 0.

Lemma head_nth (l rest : list Z) a : length l = 4%nat → head l ≠ Some a → nth 0 (l ++ rest) 0 ≠ a.
Proof. destruct l; simpl; [done|]. congruence. Qed.

Lemma classify_client c tag rest :
  client_start c = Some tag → classify (tag ++ rest) = VPlain (detected_of c) (length tag).
Proof.
  pose proof tag_im as Him. pose proof tag_pd as Hpd. unfold classify.
  destruct c; simpl; try done; intros [= <-].
  - cbn [app nth length]. rewrite bool_decide_false by (simpl; lia). by rewrite bool_decide_true.
  - rewrite Him. pose proof (head_nth _ rest _ ltac:(by rewrite Him) tag_im_ab) as Hab.
    rewrite (bool_decide_false (length _ < 1)%nat), (bool_decide_false (length _ < 4)%nat) by (rewrite length_app, Him; lia).
    rewrite (bool_decide_false (nth 0 _ 0 = _)) by done.
    rewrite take_app_le, take_ge by lia. by rewrite bool_decide_true.
  - rewrite Hpd. pose proof (head_nth _ rest _ ltac:(by rewrite Hpd) tag_pd_ab) as Hab. pose proof tag_im_pd as Hne.
    rewrite (bool_decide_false (length _ < 1)%nat), (bool_decide_false (length _ < 4)%nat) by (rewrite length_app, Hpd; lia).
    rewrite (bool_decide_false (nth 0 _ 0 = _)) by done. rewrite take_app_le, take_ge by lia.
    rewrite bool_decide_false by congruence. by rewrite bool_decide_true.
Qed.

Lemma http_large h : isHTTPHeaderPrefix h = true → maxTransportMessageSize < le_value h.
Proof. unfold isHTTPHeaderPrefix. repeat case_bool_decide; subst; done. Qed.

Lemma classify_full n rest :
  12 ≤ n ≤ maxTransportMessageSize → n mod 4 = 0 →
  classify (le_bytes 4 n ++ [0; 0; 0; 0] ++ rest) = VPlain detectedTCPCodecFull 8.
Proof.
  intros Hn Hmod. pose proof (length_le_bytes 4 n) as Hl.
  assert (Hval : le_value (le_bytes 4 n) = n).
  { apply le_value_le_bytes_small. change maxTransportMessageSize with 16777216 in Hn. simpl. lia. }
  assert (Htk : take 4 (le_bytes 4 n ++ [0; 0; 0; 0] ++ rest) = le_bytes 4 n) by (rewrite take_app_le, take_ge; [done|lia|lia]).
  assert (Hdr : drop 4 (le_bytes 4 n ++ [0; 0; 0; 0] ++ rest) = [0; 0; 0; 0] ++ rest).
  { rewrite drop_app_le by lia. by rewrite drop_ge by lia. }
  unfold classify. rewrite Htk, Hdr, Hval.
  rewrite (bool_decide_false (length _ < 1)%nat), (bool_decide_false (length _ < 4)%nat), (bool_decide_false (length _ < 8)%nat)
    by (rewrite !length_app, Hl; simpl; lia).
  rewrite (bool_decide_false (nth 0 _ 0 = _)); last first.
  { simpl. intros Hab. pose proof tag_ab_len as Ht. apply Ht. rewrite <-Hab.
    rewrite <-Znumtheory.Zmod_div_mod; [done|lia|lia|by exists 64]. }
  rewrite (bool_decide_false (_ = IntermediateClientStart)), (bool_decide_false (_ = PaddedIntermediateClientStart)).
  2: { intros Heq. pose proof tag_pd_len as Ht. rewrite <-Heq, Hval in Ht. lia. }
  2: { intros Heq. pose proof tag_im_len as Ht. rewrite <-Heq, Hval in Ht. lia. }
  destruct (isHTTPHeaderPrefix _) eqn:Hh; [apply http_large in Hh; rewrite Hval in Hh; lia|]. simpl orb.
  change maxTransportMessageSize with 16777216 in *.
  rewrite (bool_decide_false (n = 33620758)) by lia. rewrite bool_decide_true by done.
  rewrite (bool_decide_false (n < 12)), (bool_decide_false (n > _)), (bool_decide_false (n mod 4 ≠ 0)) by (lia || (intros ?; done)).
  done.
Qed.

Lemma classify_nonce v : nonce_rules v → classify v = VObfuscated.
Proof.
  intros (Hl & Hab & Him & Hpd & Hh & Htls & Hz). unfold classify.
  rewrite !(bool_decide_false (length _ < _)%nat) by lia.
  rewrite (bool_decide_false (nth 0 v 0 = _)), (bool_decide_false (take 4 v = IntermediateClientStart)),
    (bool_decide_false (take 4 v = PaddedIntermediateClientStart)) by done.
  rewrite Hh, (bool_decide_false (le_value (take 4 v) = _)) by done. simpl. by rewrite bool_decide_false.
Qed.
End peers.

(** ** Promotion *)

Section promotion.
Context `{TG : Tags, TO : !TagsOk TG} {R Ob : Type} `{BS : ByteStream R} `{RDO : Reader Ob}.
Context (Accept : netConn R → option (edgeError + (Ob * list Z))).
Context (ReadHeader : ∀ {C} `{Reader C}, transportCodec → C → option (C * option edgeError)).
Context (foreignRead : Reader (inboundFramePreflightReader (netConn R) reserveState) → transportCodec →
           IO (rdState (inboundFramePreflightReader (netConn R) reserveState)) unit).
Context (ReadWithInboundFrameBudget : positive → IO (rdState (netConn R * reserveState)) unit).
Abbreviation promote := (promoteMixedTCP Accept (@ReadHeader) None).
Abbreviation recv := (RecvDeadline foreignRead ReadWithInboundFrameBudget None).

Lemma promote_plain r (c : transportCodec) cd k :
  classify (view r) = VPlain cd k → detectedCompatCodec cd = inr c → (k ≤ 8)%nat →
  ∃ x, promote r = Some (Done (inr (PPlain x))) ∧ codec x = c ∧
    codecKind x = classifyInboundFrameCodec c ∧ frames x = Frames.newFrameState ∧
    view (conn x) = if bool_decide (cd = detectedTCPCodecFull) then view r else drop k (view r).
Proof.
  intros Hcl Hc Hk. destruct (detect_spec r) as (p & e & Hd & Hout). rewrite Hcl in Hout.
  destruct Hout as (-> & Hmode & Hcodec & Hcons). destruct (replayConn_view p k (view r) Hcons Hk) as (rc & Hrc & Hrv).
  unfold promoteMixedTCP. rewrite Hd. simpl. rewrite Hmode, Hcodec, Hc. unfold plainFrameConn. rewrite Hcodec.
  assert (Hnew : ∀ nc : netConn R, newCompatTransportConnWithCodec nc c =
    inr (mkConn nc c (classifyInboundFrameCodec c) None Frames.newFrameState false)).
  { intros nc. destruct cd; simpl in Hc; try done; by injection Hc as <-. }
  case_bool_decide; [rewrite Hrc|]; simpl; rewrite Hnew; simpl; eexists; (split; [done|]); simpl.
  - done.
  - destruct Hcons as [_ Hv]. by rewrite Hv.
Qed.

(** [n] receives in a row, and the messages they delivered. *)
Fixpoint recvMany (n : nat) (c : @compatTransportConn (netConn R)) (b : Buffer) (bud : Frames.inboundFrameBudget)
    : option (list (list Z) * @compatTransportConn (netConn R)) :=
  match n with
  | O => Some ([], c)
  | S n =>
    match recv c b bud with
    | Some (Done (c, b, bud, None)) => '(ms, c) ← recvMany n c b bud; Some (Buf b :: ms, c)
    | _ => None
    end
  end.

(** [w] is a packet for message [p], no larger than [M]. *)
Definition packet_of (c : transportCodec) (M : Z) (p w : list Z) : Prop :=
  ∃ padding, length padding = 4%nat ∧ codecWrite c padding p = Some (inr w) ∧
    length p ≠ 4%nat ∧ Z.of_nat (length p) ≤ M.

Lemma recvMany_packets M ms ws rest c b bud :
  M + 3 ≤ maxTransportMessageSize → Forall2 (packet_of (codec c) M) ms ws →
  Sane c bud → Frames.closed (frames c) = false →
  Frames.used bud - Frames.heldFrameBytes (frames c) + 2 * (M + 3) ≤ Frames.max bud →
  view (conn c) = concat ws ++ rest →
  ∃ c', recvMany (length ms) c b bud = Some (ms, c') ∧ view (conn c') = rest.
Proof.
  intros HM Hall. revert ws c b bud Hall. induction ms as [|p ms IH]; intros ws c b bud Hall HS Hcl Hfit Hv.
  { apply Forall2_nil_inv_l in Hall as ->. by exists c. }
  apply Forall2_cons_inv_l in Hall as (w & ws' & (padding & Hpad & Hw & H4 & Hlen) & Hall & ->).
  simpl in Hv. rewrite <-app_assoc in Hv.
  destruct (recv_packet foreignRead ReadWithInboundFrameBudget c b bud padding p w (concat ws' ++ rest) HS Hcl Hpad Hw H4)
    as (c' & b' & bud' & Hr & Hb & Hv' & _ & HS' & Hcl' & Hc' & Hm' & Hbooks); [lia|lia|done|].
  cbn [length recvMany]. rewrite Hr. destruct (IH ws' c' b' bud') as (c'' & -> & Hv''); try done.
  - by rewrite Hc'.
  - lia.
  - simpl. exists c''. by rewrite Hb.
Qed.

(** C40: End to end: a plain client of a codec that opens with a header (all but
    the full one) sends any number of messages, none of them of 4 bytes (which
    is an error code), padded and cut up at will.  The connection is promoted
    with that codec, and receiving from it delivers exactly those messages, in
    order, leaving what follows unread, as long as the budget has room for one
    frame of the largest size. *)
Theorem plain_client_messages_delivered r c tag M ms ws rest b bud :
  client_start c = Some tag → Forall2 (packet_of c M) ms ws →
  view r = tag ++ concat ws ++ rest → Forall is_byte (view r) →
  0 ≤ Frames.used bud → 0 < Frames.max bud ≤ i64_max → 0 ≤ M → M + 3 ≤ maxTransportMessageSize →
  Frames.used bud + 2 * (M + 3) ≤ Frames.max bud →
  ∃ x, promote r = Some (Done (inr (PPlain x))) ∧ codec x = c ∧
  ∃ x', recvMany (length ms) x b bud = Some (ms, x') ∧ view (conn x') = rest.
Proof.
  intros Htag Hms Hv Hbytes Hu Hmax HM0 HM Hfit.
  assert (Hcl : classify (view r) = VPlain (detected_of c) (length tag)) by (rewrite Hv; by apply classify_client).
  assert (Hk : (length tag ≤ 8)%nat).
  { pose proof tag_im. pose proof tag_pd. destruct c; simpl in Htag; simplify_eq; simpl; lia. }
  assert (Hdc : detectedCompatCodec (detected_of c) = inr c) by (by destruct c).
  assert (Hq : quick c = true) by (by destruct c).
  destruct (promote_plain r c _ _ Hcl Hdc Hk) as (x & Hp & Hc & Hkind & Hfr & Hview). exists x. split; [done|]. split; [done|].
  rewrite bool_decide_false in Hview by (by destruct c). rewrite Hv in Hview. rewrite drop_app_length in Hview.
  apply (recvMany_packets M ms ws); [done|by rewrite Hc| |by rewrite Hfr|rewrite Hfr; simpl; lia|done].
  split; [by rewrite Hc|by rewrite Hkind, Hc| |done|rewrite Hfr; simpl; lia|lia].
  rewrite Hview. rewrite Hv in Hbytes. by apply Forall_app in Hbytes as [_ ?].
Qed.

(** Detection always answers and loses no byte: the first full-transport
    frame is promoted to the full codec with its header still to be read, a
    nonce that keeps the rules of obfuscated2 goes to its handshake unchanged,
    and no HTTP or TLS-looking prefix is promoted at all. *)
Theorem detection_lossless r :
  (∀ n rest, view r = le_bytes 4 n ++ [0; 0; 0; 0] ++ rest → 12 ≤ n ≤ maxTransportMessageSize → n mod 4 = 0 →
     ∃ x, promote r = Some (Done (inr (PPlain x))) ∧ codec x = Full ∧ view (conn x) = view r) ∧
  (nonce_rules (view r) →
     ∃ p nc, detectTCPTransport r = Some (p, None) ∧ mode p = tcpWireModeObfuscated ∧
       replayConn p = Done nc ∧ view nc = view r) ∧
  (isHTTPHeaderPrefix (take 4 (view r)) = true → nth 0 (view r) 0 ≠ AbridgedClientStart →
     take 4 (view r) ≠ IntermediateClientStart → take 4 (view r) ≠ PaddedIntermediateClientStart →
     promote r = Some (Done (inl errInvalidTCPTransportPrefix))).
Proof.
  split; [|split].
  - intros n rest Hv Hn Hmod. pose proof (classify_full n rest Hn Hmod) as Hcl. rewrite <-Hv in Hcl.
    destruct (promote_plain r Full _ _ Hcl eq_refl ltac:(lia)) as (x & ? & ? & _ & _ & Hview). exists x.
    by rewrite bool_decide_true in Hview.
  - intros Hn. destruct (detect_spec r) as (p & e & Hd & Hout). rewrite (classify_nonce _ Hn) in Hout.
    destruct Hout as (-> & Hm & Hcons). destruct (replayConn_view p 8 _ Hcons ltac:(lia)) as (nc & ? & ?). by exists p, nc.
  - intros Hh Hab Him Hpd. destruct (detect_spec r) as (p & e & Hd & Hout).
    assert (Hl : (4 ≤ length (view r))%nat).
    { assert (length (take 4 (view r)) = 4%nat) as Hl.
      { unfold isHTTPHeaderPrefix in Hh. repeat case_bool_decide; try done; match goal with H : take 4 _ = _ |- _ => by rewrite H end. }
      rewrite length_take in Hl. lia. }
    unfold classify in Hout. rewrite !(bool_decide_false (length _ < _)%nat) in Hout by lia.
    rewrite (bool_decide_false (nth 0 _ 0 = _)), (bool_decide_false (take 4 _ = IntermediateClientStart)),
      (bool_decide_false (take 4 _ = PaddedIntermediateClientStart)), Hh in Hout by done. simpl in Hout. subst e.
    unfold promoteMixedTCP. by rewrite Hd.
Qed.
End promotion.

(** ** Sample runs *)
Module DetectRuns.
#[local] Instance tags : Tags := {|
  AbridgedClientStart := 0xef;
  IntermediateClientStart := [0xee; 0xee; 0xee; 0xee];
  PaddedIntermediateClientStart := [0xdd; 0xdd; 0xdd; 0xdd];
  AbridgedObfuscatedTag := [0xef; 0xef; 0xef; 0xef];
|}.
#[local] Instance tags_ok : TagsOk tags.
Proof. split; try reflexivity; try discriminate; split; reflexivity || discriminate. Qed.

Definition accept : netConn socket → option (edgeError + (socket * list Z)) := λ _, Some (inl EOF).
Definition readHeader : ∀ C, Reader C → transportCodec → C → option (C * option edgeError) := λ C _ _ c, Some (c, None).
Definition foreign : Reader (inboundFramePreflightReader (netConn socket) reserveState) → transportCodec →
    IO (rdState (inboundFramePreflightReader (netConn socket) reserveState)) unit :=
  λ _ _, throw errInboundFrameCodecUnsupported.
Definition custom : positive → IO (rdState (netConn socket * reserveState)) unit :=
  λ _, throw errInboundFrameCodecUnsupported.

Definition m1 : list Z := [1; 2; 3; 4; 5; 6; 7; 8].
Definition m2 : list Z := [9; 9; 9; 9; 8; 8; 8; 8; 7; 7; 7; 7].
Definition w1 : list Z := [2] ++ m1.
Definition w2 : list Z := [3] ++ m2.
Definition client : socket := mkSocket ([0xef] ++ (w1 ++ w2) ++ [5]) [3; 1; 4; 1; 5]%nat EOF.

Lemma plain_client_messages_delivered_witness :
  ∃ x, promoteMixedTCP accept readHeader None client = Some (Done (inr (PPlain x))) ∧ codec x = QuickAckAbridged ∧
  ∃ x', recvMany foreign custom 2 x (mkBuffer [] 0) (Frames.newInboundFrameBudget 30) = Some ([m1; m2], x') ∧
    view (conn x') = [5].
Proof.
  apply (plain_client_messages_delivered accept readHeader foreign custom client QuickAckAbridged [0xef] 12
           [m1; m2] [w1; w2] [5] (mkBuffer [] 0) (Frames.newInboundFrameBudget 30)).
  - reflexivity.
  - repeat constructor; exists [0; 0; 0; 0]; (split; [reflexivity|split; [vm_compute; reflexivity|split; [discriminate|vm_compute; discriminate]]]).
  - reflexivity.
  - repeat (constructor; [unfold is_byte; lia|]). constructor.
  - vm_compute. discriminate.
  - vm_compute. split; [reflexivity|discriminate].
  - lia.
  - vm_compute. discriminate.
  - vm_compute. discriminate.
Defined.

Definition full_client : socket := mkSocket (le_bytes 4 16 ++ [0; 0; 0; 0] ++ [1; 2; 3]) [5; 1; 1]%nat EOF.
Lemma detection_lossless_witness :
  ∃ x, promoteMixedTCP accept readHeader None full_client = Some (Done (inr (PPlain x))) ∧
    codec x = Full ∧ view (conn x) = view full_client.
Proof.
  apply (proj1 (detection_lossless accept readHeader full_client) 16 [1; 2; 3]).
  - reflexivity.
  - vm_compute. split; discriminate.
  - reflexivity.
Defined.
End DetectRuns.
