(* ===== verification/Admission.v ===== *)
(** * Connection and handshake quotas

    [internal/mtprotoedge/admission.go]: the raw-socket quota, counted for the
    process and per remote address from [Accept] to [Close], and the quota of
    concurrent key exchanges.  The key of an address ([remoteAdmissionKey]
    parses it with package net) is an argument.  A release closure is a ticket;
    [sync.Once] lets it take effect once. *)

From S2P Require Import Prelude.

Module Admission.
Section admission.
Context {IP : Type} `{Countable IP}.

Record admissionController := mkController {
  maxConnections : Z;
  maxPerIP : Z;
  connections : Z;
  byIP : gmap IP Z;
  (** the buffered channel: capacity and tokens in it; [None] is a nil channel *)
  handshakes : option (Z * Z);
}.

Definition newAdmissionController (mc mip mh : Z) : admissionController :=
  mkController mc mip 0 ∅ (if bool_decide (mh > 0) then Some (mh, 0) else None).

(** [a.byIP[ip]]: zero for a missing key. *)
Definition countOf (ip : IP) (a : admissionController) : Z := default 0 (byIP a !! ip).

Definition acquireConnection (ip : IP) (a : admissionController) : option admissionController :=
  if (bool_decide (maxConnections a > 0) && bool_decide (connections a >= maxConnections a))
     || (bool_decide (maxPerIP a > 0) && bool_decide (countOf ip a >= maxPerIP a))
  then None
  else Some (mkController (maxConnections a) (maxPerIP a) (connections a + 1)
               (<[ip := countOf ip a + 1]> (byIP a)) (handshakes a)).

(** The body of the release closure, under the lock. *)
Definition releaseConnection (ip : IP) (a : admissionController) : admissionController :=
  let n := countOf ip a - 1 in
  mkController (maxConnections a) (maxPerIP a) (connections a - 1)
    (if bool_decide (n = 0) then delete ip (<[ip := n]> (byIP a)) else <[ip := n]> (byIP a)) (handshakes a).

(** [Some] is success; the non-blocking send fails on a full channel. *)
Definition tryAcquireHandshake (a : admissionController) : option admissionController :=
  match handshakes a with
  | None => Some a
  | Some (c, n) =>
    if bool_decide (n < c)
    then Some (mkController (maxConnections a) (maxPerIP a) (connections a) (byIP a) (Some (c, n + 1)))
    else None
  end.
(** [<-a.handshakes]; a receive from an empty channel would block for ever
    ([None]). *)
Definition releaseHandshake (a : admissionController) : option admissionController :=
  match handshakes a with
  | None => Some a
  | Some (c, n) =>
    if bool_decide (0 < n)
    then Some (mkController (maxConnections a) (maxPerIP a) (connections a) (byIP a) (Some (c, n - 1)))
    else None
  end.

(** [admissionListener.Accept]: refused sockets are closed and the next one is
    taken.  The listener yields sockets by their address, then an error; the
    number of sockets closed on the way is the middle component. *)
Fixpoint Accept (incoming : list IP) (a : admissionController) (refused : nat)
    : admissionController * nat * option (IP * list IP) :=
  match incoming with
  | [] => (a, refused, None)
  | ip :: rest =>
    match acquireConnection ip a with
    | None => Accept rest a (S refused)
    | Some a => (a, refused, Some (ip, rest))
    end
  end.

(** ** Every interleaving *)

(** Tickets: the release closures handed out, with their [once] flag. *)
Record sys := mkSys {
  ctl : admissionController;
  conns : gmap positive (IP * bool);
  keys : gmap positive bool;
}.

Inductive label :=
  | LAccept (incoming : list IP)
  | LClose (t : positive)
  | LHandshake
  | LHandshakeDone (t : positive).

(** [None]: a step that blocks. *)
Definition exec (lbl : label) (st : sys) : option sys :=
  match lbl with
  | LAccept incoming =>
    match Accept incoming (ctl st) 0 with
    | (a, _, Some (ip, _)) => Some (mkSys a (<[fresh (dom (conns st)) := (ip, false)]> (conns st)) (keys st))
    | (a, _, None) => Some (mkSys a (conns st) (keys st))
    end
  | LClose t =>
    match conns st !! t with
    | Some (ip, false) => Some (mkSys (releaseConnection ip (ctl st)) (<[t := (ip, true)]> (conns st)) (keys st))
    | _ => Some st
    end
  | LHandshake =>
    match tryAcquireHandshake (ctl st) with
    | Some a => Some (mkSys a (conns st) (<[fresh (dom (keys st)) := false]> (keys st)))
    | None => Some st
    end
  | LHandshakeDone t =>
    match keys st !! t with
    | Some false => a ← releaseHandshake (ctl st); Some (mkSys a (conns st) (<[t := true]> (keys st)))
    | _ => Some st
    end
  end.
Fixpoint run (ls : list label) (st : sys) : option sys :=
  match ls with
  | [] => Some st
  | l :: ls => st ← exec l st; run ls st
  end.
Definition start (mc mip mh : Z) : sys := mkSys (newAdmissionController mc mip mh) ∅ ∅.

(** ** Counting open tickets *)

Definition openAt (ip : IP) (c : IP * bool) : Z := if c.2 then 0 else if decide (c.1 = ip) then 1 else 0.
Definition openConn (c : IP * bool) : Z := if c.2 then 0 else 1.
Definition openKey (k : bool) : Z := if k then 0 else 1.

Record Inv (st : sys) : Prop := {
  inv_conns : connections (ctl st) = msum (λ _ c, openConn c) (conns st);
  inv_ip ip : countOf ip (ctl st) = msum (λ _ c, openAt ip c) (conns st);
  inv_zero ip n : byIP (ctl st) !! ip = Some n → 0 < n;
  inv_max : maxConnections (ctl st) > 0 → connections (ctl st) ≤ maxConnections (ctl st);
  inv_maxIP ip : maxPerIP (ctl st) > 0 → countOf ip (ctl st) ≤ maxPerIP (ctl st);
  inv_keys c n : handshakes (ctl st) = Some (c, n) → n = msum (λ _ k, openKey k) (keys st) ∧ n ≤ c;
}.
Definition limits (st : sys) : Z * Z * option Z :=
  (maxConnections (ctl st), maxPerIP (ctl st), fst <$> handshakes (ctl st)).

Lemma Accept_cases incoming a k :
  ∃ k', Accept incoming a k = (a, k', None) ∨
  ∃ ip rest a', acquireConnection ip a = Some a' ∧ Accept incoming a k = (a', k', Some (ip, rest)).
Proof.
  revert k. induction incoming as [|ip rest IH]; intros k; simpl; [by eauto|].
  destruct (acquireConnection ip a) as [a'|] eqn:Ha; [|apply IH]. exists k. right. by exists ip, rest, a'.
Qed.

Lemma countOf_insert ip ip' n mc mip c m h :
  countOf ip (mkController mc mip c (<[ip' := n]> m) h) = if decide (ip' = ip) then n else default 0 (m !! ip).
Proof. unfold countOf. simpl. case_decide; subst; [by rewrite lookup_insert_eq|by rewrite lookup_insert_ne]. Qed.

Lemma openAt_bounds ip c : 0 ≤ openAt ip c ≤ 1.
Proof. unfold openAt. destruct c.2; [lia|]. case_decide; lia. Qed.

Lemma quota_accept_Inv ip st a t :
  Inv st → acquireConnection ip (ctl st) = Some a → conns st !! t = None →
  Inv (mkSys a (<[t := (ip, false)]> (conns st)) (keys st)).
Proof.
  intros [Hc Hi Hz Hm Hmi Hk] Ha Ht. unfold acquireConnection in Ha.
  destruct (_ || _) eqn:Hb; [done|]. injection Ha as <-. apply orb_false_iff in Hb as [Hb1 Hb2].
  split; simpl; [| | | | |done].
  - rewrite msum_insert by done. unfold openConn at 1. simpl. lia.
  - intros ip'. rewrite countOf_insert, msum_insert, <-(Hi ip') by done. unfold openAt, countOf. simpl.
    repeat case_decide; subst; simpl; lia.
  - intros ip' n [[<- <-]|[_ ?]]%lookup_insert_Some; [|by eapply Hz].
    rewrite Hi.
    assert (0 ≤ msum (λ _ c, openAt ip c) (conns st)) by (apply msum_nonneg; intros; apply openAt_bounds). lia.
  - intros Hpos. apply andb_false_iff in Hb1 as [Hb1|Hb1]; apply bool_decide_eq_false in Hb1; lia.
  - intros ip' Hpos. rewrite countOf_insert. destruct (decide (ip = ip')) as [<-|]; [|by apply Hmi].
    apply andb_false_iff in Hb2 as [Hb2|Hb2]; apply bool_decide_eq_false in Hb2; lia.
Qed.

Lemma quota_close_Inv ip st t :
  Inv st → conns st !! t = Some (ip, false) →
  Inv (mkSys (releaseConnection ip (ctl st)) (<[t := (ip, true)]> (conns st)) (keys st)).
Proof.
  intros [Hc Hi Hz Hm Hmi Hk] Ht.
  assert (Hcnt : ∀ ip', countOf ip' (releaseConnection ip (ctl st)) = countOf ip' (ctl st) - if decide (ip = ip') then 1 else 0).
  { intros ip'. unfold releaseConnection. case_bool_decide as Hn; [|rewrite countOf_insert; unfold countOf; case_decide; subst; lia].
    unfold countOf. simpl. rewrite delete_insert_eq. case_decide; subst; [|rewrite lookup_delete_ne by done; lia].
    rewrite lookup_delete_eq. simpl. unfold countOf in Hn. lia. }
  assert (Hnn : ∀ ip', 0 ≤ countOf ip' (releaseConnection ip (ctl st))).
  { intros ip'. rewrite Hcnt. case_decide; subst; [|rewrite Hi; unfold Z.sub; simpl; rewrite Z.add_0_r; apply msum_nonneg; intros; apply openAt_bounds].
    rewrite Hi. pose proof (msum_lookup_le (λ _ c, openAt ip' c) (conns st) t _ (λ k c _, proj1 (openAt_bounds ip' c)) Ht) as Hle.
    unfold openAt at 1 in Hle. simpl in Hle. rewrite decide_True in Hle by done. lia. }
  split; simpl; [| | | | |done].
  - rewrite (msum_update _ _ _ _ _ Ht). unfold openConn at 2 3. simpl. lia.
  - intros ip'. rewrite Hcnt, (msum_update _ _ _ _ _ Ht), Hi. unfold openAt at 3 4. simpl. case_decide; lia.
  - intros ip' n Hn. specialize (Hnn ip'). unfold countOf, releaseConnection in Hnn. simpl in Hnn.
    rewrite Hn in Hnn. simpl in Hnn. case_bool_decide as Hd.
    + apply lookup_delete_Some in Hn as [Hne Hn]. rewrite lookup_insert_ne in Hn by done. by eapply Hz.
    + apply lookup_insert_Some in Hn as [[<- <-]|[_ Hn]]; [lia|by eapply Hz].
  - intros Hp. specialize (Hm Hp). lia.
  - intros ip' Hp. rewrite Hcnt. specialize (Hmi ip' Hp). case_decide; lia.
Qed.

Lemma quota_exec_Inv lbl st : Inv st → ∃ st', exec lbl st = Some st' ∧ Inv st' ∧ limits st' = limits st.
Proof.
  intros HI. destruct lbl as [incoming|t| |t]; simpl.
  - destruct (Accept_cases incoming (ctl st) 0) as (k & [Heq|(ip & rest & a & Ha & Heq)]); rewrite Heq.
    + exists st. by destruct st.
    + eexists. split; [done|]. split; [apply quota_accept_Inv; [done|done|apply not_elem_of_dom, is_fresh]|].
      unfold acquireConnection in Ha. destruct (_ || _); [done|]. by injection Ha as <-.
  - destruct (conns st !! t) as [[ip []]|] eqn:Ht; try by exists st. eexists. split; [done|]. split; [by apply quota_close_Inv|done].
  - pose proof HI as [Hc Hi Hz Hm Hmi Hk]. unfold tryAcquireHandshake. destruct (handshakes (ctl st)) as [[c n]|] eqn:Hh.
    + case_bool_decide as Hlt; [|by exists st]. eexists. split; [done|].
      split; [|unfold limits; simpl; by rewrite Hh]. split; simpl; try done. intros c' n' [= <- <-].
      destruct (Hk c n eq_refl) as [Hn _]. rewrite msum_insert by apply not_elem_of_dom, is_fresh. unfold openKey at 1. lia.
    + eexists. split; [done|]. split; [|done]. split; simpl; try done. by rewrite Hh.
  - destruct (keys st !! t) as [[]|] eqn:Ht; try by exists st. destruct HI as [Hc Hi Hz Hm Hmi Hk].
    unfold releaseHandshake. destruct (handshakes (ctl st)) as [[c n]|] eqn:Hh; simpl.
    + destruct (Hk c n eq_refl) as [Hn Hle].
      pose proof (msum_lookup_le (λ _ k, openKey k) (keys st) t false) as Hpos. unfold openKey at 2 in Hpos.
      specialize (Hpos (λ k v _, ltac:(unfold openKey; destruct v; lia)) Ht). rewrite bool_decide_true by lia. simpl.
      eexists. split; [done|]. split; [|unfold limits; simpl; by rewrite Hh]. split; simpl; try done.
      intros c' n' [= <- <-]. rewrite (msum_update _ _ _ _ _ Ht). unfold openKey at 2 3. lia.
    + eexists. split; [done|]. split; [|done]. split; simpl; try done. by rewrite Hh.
Qed.

Lemma quota_start_Inv mc mip mh : Inv (start mc mip mh).
Proof.
  split; simpl; try done; [lia|intros; unfold countOf; simpl; rewrite lookup_empty; simpl; lia|].
  intros c n. case_bool_decide; [|done]. intros [= <- <-]. split; [done|lia].
Qed.
Lemma quota_run_Inv ls st : Inv st → ∃ st', run ls st = Some st' ∧ Inv st' ∧ limits st' = limits st.
Proof.
  revert st. induction ls as [|l ls IH]; intros st HI; simpl; [by exists st|].
  destruct (quota_exec_Inv l st HI) as (st1 & -> & HI1 & Hm). simpl.
  destruct (IH st1 HI1) as (st' & ? & ? & ?). exists st'. split_and!; [done|done|congruence].
Qed.

(** However accepts, closes (repeated ones too), key exchanges and their
    ends interleave: no step blocks, the counters are exactly the sockets and
    exchanges still open, process-wide and per address, within the configured
    limits; an address with nothing open has no entry in the map; and when all
    is closed, the controller is as it was. *)
Theorem admission_quotas mc mip mh ls :
  ∃ st, run ls (start mc mip mh) = Some st ∧
    connections (ctl st) = msum (λ _ c, openConn c) (conns st) ∧
    (mc > 0 → connections (ctl st) ≤ mc) ∧
    (∀ ip, countOf ip (ctl st) = msum (λ _ c, openAt ip c) (conns st) ∧
           (mip > 0 → countOf ip (ctl st) ≤ mip) ∧
           (is_Some (byIP (ctl st) !! ip) ↔ 0 < countOf ip (ctl st))) ∧
    (mh > 0 → msum (λ _ k, openKey k) (keys st) ≤ mh) ∧
    ((∀ t c, conns st !! t = Some c → c.2 = true) → connections (ctl st) = 0 ∧ byIP (ctl st) = ∅).
Proof.
  destruct (quota_run_Inv ls _ (quota_start_Inv mc mip mh)) as (st & Hr & [Hc Hi Hz Hm Hmi Hk] & Hl). exists st. split; [done|].
  unfold limits in Hl. simpl in Hl. injection Hl as Hl1 Hl2 Hl3.
  assert (Hdom : ∀ ip, is_Some (byIP (ctl st) !! ip) ↔ 0 < countOf ip (ctl st)).
  { intros ip. unfold countOf. split; [intros [n Hn]; rewrite Hn; simpl; by eapply Hz|].
    destruct (byIP (ctl st) !! ip); simpl; [by eexists|lia]. }
  split; [done|]. split; [rewrite <-Hl1; done|]. split; [intros ip; split; [done|]; split; [rewrite <-Hl2; apply Hmi|done]|].
  split.
  - intros Hmh. rewrite bool_decide_true in Hl3 by lia. simpl in Hl3.
    destruct (handshakes (ctl st)) as [[c n]|]; [|done]. simpl in Hl3. destruct (Hk c n eq_refl) as [<- ?]. simplify_eq. lia.
  - intros Hall. split.
    + rewrite Hc. apply msum_zero. intros t c Ht. unfold openConn. by rewrite (Hall _ _ Ht).
    + apply map_empty. intros ip. destruct (byIP (ctl st) !! ip) as [n|] eqn:Hn; [|done].
      assert (0 < countOf ip (ctl st)) as Hpos by (apply Hdom; by eexists). rewrite Hi, msum_zero in Hpos; [lia|].
      intros t c Ht. unfold openAt. by rewrite (Hall _ _ Ht).
Qed.
End admission.

(** ** Retrying a failed accept *)

(** In nanoseconds. *)
Definition acceptRetryInitialDelay : Z := 5 * 1000000.
Definition acceptRetryMaxDelay : Z := 1000 * 1000000.
Definition nextAcceptRetryDelay (previous : Z) : Z :=
  if bool_decide (previous ≤ 0) then acceptRetryInitialDelay
  else
    let next := wrap64 (previous * 2) in
    if bool_decide (next > acceptRetryMaxDelay) then acceptRetryMaxDelay else next.

Lemma nextAcceptRetryDelay_bounds d :
  d ≤ acceptRetryMaxDelay →
  acceptRetryInitialDelay ≤ nextAcceptRetryDelay d ≤ acceptRetryMaxDelay ∨ 0 < d < acceptRetryInitialDelay.
Proof.
  unfold nextAcceptRetryDelay, acceptRetryMaxDelay, acceptRetryInitialDelay. intros Hd.
  repeat case_bool_decide; rewrite ?wrap64_small in * by int64; lia.
Qed.
End Admission.
