(* ===== verification/TrackedBudget.v ===== *)
(** * The tracked outbound byte budgets

    [internal/mtprotoedge/outbound.go], [outboundTrackedBudget]: the atomic byte
    counter behind every retained outbound body, control vector and write
    scratch buffer.  [reserve] and [release] are also modelled as whole calls,
    the way the outbound actor uses them; the second half of the file models
    the saturated path [waitReserveUntil] thread by thread, one atomic
    instruction per step: a load, a compare-and-swap, a lock, a channel. *)

From S2P Require Import Prelude.

Module Tracked.

Definition defaultOutboundTrackedMaxBytes : Z := 512 * 2 ^ 20.
Definition defaultOutboundControlMaxBytes : Z := 64 * 2 ^ 20.
Definition defaultOutboundCriticalMaxBytes : Z := 64 * 2 ^ 20.

(** One generation of waiters: the channel (only ever closed) and its count. *)
Record outboundBudgetWake := mkWake { w_closed : bool; w_waiters : Z }.

Record outboundTrackedBudget := mkBudget {
  maxBytes : Z;
  used : Z;
  wakes : gmap positive outboundBudgetWake;
  wake : positive;
}.

Definition newOutboundTrackedBudget (m : Z) : outboundTrackedBudget :=
  mkBudget (if bool_decide (m ≤ 0) then defaultOutboundTrackedMaxBytes else m) 0
    {[ 1%positive := mkWake false 0 ]} 1%positive.

Definition set_used (u : Z) (b : outboundTrackedBudget) : outboundTrackedBudget :=
  mkBudget (maxBytes b) u (wakes b) (wake b).
Definition set_wake (g : positive) (w : outboundBudgetWake) (b : outboundTrackedBudget) : outboundTrackedBudget :=
  mkBudget (maxBytes b) (used b) (<[g := w]> (wakes b)) (wake b).

(** The test [used > b.maxBytes-bytes] of the reservation loop. *)
Definition fits (u n : Z) (b : outboundTrackedBudget) : bool :=
  negb (bool_decide (u > sub64 (maxBytes b) n)).

(** A whole call of [reserve]: it takes effect when its compare-and-swap finds
    the value it loaded. *)
Definition reserve (n : Z) (b : outboundTrackedBudget) : outboundTrackedBudget * bool :=
  if bool_decide (n ≤ 0) then (b, true)
  else if bool_decide (n > maxBytes b) then (b, false)
  else if fits (used b) n b then (set_used (add64 (used b) n) b, true) else (b, false).

(** The critical section of [release]: a new generation when somebody waits. *)
Definition broadcast (b : outboundTrackedBudget) : Run outboundTrackedBudget :=
  w ← deref (wakes b !! wake b);
  if bool_decide (w_waiters w > 0) then
    let g := fresh (dom (wakes b)) in
    Done (mkBudget (maxBytes b) (used b)
            (<[g := mkWake false 0]> (<[wake b := mkWake true (w_waiters w)]> (wakes b))) g)
  else Done b.

Definition release (n : Z) (b : outboundTrackedBudget) : Run outboundTrackedBudget :=
  if bool_decide (n ≤ 0) then Done b
  else
    let u := sub64 (used b) n in
    _ ← panic_if (bool_decide (u < 0));
    broadcast (set_used u b).

Definition snapshot (b : outboundTrackedBudget) : Z := used b.

(** ** Whole calls *)

Record BInv (b : outboundTrackedBudget) : Prop := {
  binv_used : 0 ≤ used b ≤ maxBytes b;
  binv_max : maxBytes b ≤ i64_max;
  binv_wake : ∃ w, wakes b !! wake b = Some w ∧ w_closed w = false ∧ 0 ≤ w_waiters w;
}.

Lemma tracked_new_BInv m : m ≤ i64_max → BInv (newOutboundTrackedBudget m).
Proof.
  intros Hm. unfold newOutboundTrackedBudget, defaultOutboundTrackedMaxBytes. split; simpl.
  - case_bool_decide; lia.
  - case_bool_decide; int64.
  - eexists. by rewrite lookup_singleton_eq.
Qed.

Lemma fits_spec u n b : BInv b → 0 ≤ n ≤ maxBytes b → fits u n b = bool_decide (u + n ≤ maxBytes b).
Proof.
  intros HI Hn. destruct HI. unfold fits. rewrite sub64_small by int64.
  rewrite <-bool_decide_not. apply bool_decide_ext. lia.
Qed.

(** What a reservation does: all or nothing, and never past the cap. *)
Lemma tracked_reserve_spec n b :
  BInv b → 0 ≤ n →
  reserve n b = if bool_decide (used b + n ≤ maxBytes b) then (set_used (used b + n) b, true) else (b, false).
Proof.
  intros HI Hn. pose proof HI as [Hu Hm _]. unfold reserve. case_bool_decide as Hz.
  { assert (n = 0) as -> by lia. rewrite bool_decide_true by lia. rewrite Z.add_0_r. by destruct b. }
  destruct (decide (n > maxBytes b)) as [Hgt|Hle].
  { rewrite (bool_decide_true (n > maxBytes b)) by done. by rewrite bool_decide_false by lia. }
  rewrite (bool_decide_false (n > maxBytes b)) by done.
  rewrite fits_spec by (done || lia). case_bool_decide; [|done].
  by rewrite add64_small by int64.
Qed.
Lemma tracked_reserve_BInv n b : BInv b → 0 ≤ n → BInv (reserve n b).1.
Proof.
  intros HI Hn. rewrite tracked_reserve_spec by done. case_bool_decide; [|done].
  destruct HI. split; simpl; [lia|done|done].
Qed.

(** What a release of bytes that are held does: it never panics. *)
Lemma tracked_release_spec n b :
  BInv b → 0 ≤ n ≤ used b →
  ∃ b', release n b = Done b' ∧ used b' = used b - n ∧ maxBytes b' = maxBytes b ∧ BInv b'.
Proof.
  intros HI Hn. pose proof HI as [Hu Hm (w & Hw & Hc & Hcnt)]. unfold release. case_bool_decide as Hz.
  { exists b. split; [done|]. split; [lia|]. done. }
  rewrite sub64_small by int64. rewrite (bool_decide_false (used b - n < 0)) by lia. simpl.
  unfold broadcast. simpl. rewrite Hw. simpl. case_bool_decide.
  - eexists. split; [done|]. simpl. split; [done|]. split; [done|]. split; simpl; [lia|done|].
    eexists. by rewrite lookup_insert_eq.
  - eexists. split; [done|]. simpl. split; [done|]. split; [done|]. split; simpl; [lia|done|]. by exists w.
Qed.

(** ** Threads on the saturated path *)

Inductive waitError := EBudget | EDeadline | ECancelled | EClosed.

(** Where a client of the budget stands.  [PLoad]..[PDeadline] are the lock-free
    attempt and the deadline test of [waitReserveUntil]; [PLock]..[PSubscribe] the section
    under [wakeMu]; [PWait] the select; [PLeave] the second section; [PHold]
    after the call returned nil; [PAdd] and [PBroadcast] are [release]. *)
Inductive pc :=
  | PIdle
  | PLoad (n : Z)
  | PCas (n u : Z)
  | PDeadline (n : Z)
  | PLock (n : Z)
  | PLockedLoad (n : Z)
  | PLockedCas (n u : Z)
  | PSubscribe (n : Z)
  | PWait (n : Z) (g : positive)
  | PLeave (n : Z) (g : positive) (e : option waitError)
  | PHold (n : Z)
  | PAdd (n : Z)
  | PBroadcast
  | PFailed (e : waitError)
  | PPanic.

(** What the scheduler and the environment decide: the next instruction, or an
    expired deadline, a cancelled context or a closed connection. *)
Inductive event := Go | Expired | Cancelled | Stopped.

Record sys := mkSys {
  budget : outboundTrackedBudget;
  wakeMu : option positive;
  threads : gmap positive pc;
}.

Definition thread_pc (s : sys) (t : positive) : pc := from_option id PIdle (threads s !! t).
Definition set_pc (t : positive) (p : pc) (s : sys) : sys :=
  mkSys (budget s) (wakeMu s) (<[t := p]> (threads s)).
Definition set_budget (b : outboundTrackedBudget) (s : sys) : sys := mkSys b (wakeMu s) (threads s).
Definition set_mu (m : option positive) (s : sys) : sys := mkSys (budget s) m (threads s).

(** [waitReserveUntil] starts: requests that can never fit fail at once. *)
Definition begin (t : positive) (n : Z) (s : sys) : option sys :=
  match thread_pc s t with
  | PIdle =>
    if bool_decide (n < 0) || bool_decide (n > maxBytes (budget s)) then Some (set_pc t (PFailed EBudget) s)
    else Some (set_pc t (if bool_decide (n ≤ 0) then PHold n else PLoad n) s)
  | _ => None
  end.

(** [release] starts, for the bytes the thread holds. *)
Definition giveBack (t : positive) (s : sys) : option sys :=
  match thread_pc s t with
  | PHold n => Some (set_pc t (if bool_decide (n ≤ 0) then PIdle else PAdd n) s)
  | _ => None
  end.

(** One atomic instruction of thread [t]. *)
Definition exec (ev : event) (t : positive) (s : sys) : option sys :=
  let b := budget s in
  match thread_pc s t, ev with
  | PLoad n, Go => Some (set_pc t (if fits (used b) n b then PCas n (used b) else PDeadline n) s)
  | PCas n u, Go =>
    Some (if bool_decide (used b = u) then set_pc t (PHold n) (set_budget (set_used (add64 u n) b) s)
          else set_pc t (PLoad n) s)
  | PDeadline n, Go => Some (set_pc t (PLock n) s)
  | PDeadline n, Expired => Some (set_pc t (PFailed EDeadline) s)
  | PLock n, Go =>
    match wakeMu s with
    | None => Some (set_pc t (PLockedLoad n) (set_mu (Some t) s))
    | Some _ => None
    end
  | PLockedLoad n, Go => Some (set_pc t (if fits (used b) n b then PLockedCas n (used b) else PSubscribe n) s)
  | PLockedCas n u, Go =>
    Some (if bool_decide (used b = u) then set_pc t (PHold n) (set_mu None (set_budget (set_used (add64 u n) b) s))
          else set_pc t (PLockedLoad n) s)
  | PSubscribe n, Go =>
    match wakes b !! wake b with
    | Some w => Some (set_pc t (PWait n (wake b))
                  (set_mu None (set_budget (set_wake (wake b) (mkWake (w_closed w) (w_waiters w + 1)) b) s)))
    | None => Some (set_pc t PPanic s)
    end
  | PWait n g, Go =>
    match wakes b !! g with
    | Some w => if w_closed w then Some (set_pc t (PLeave n g None) s) else None
    | None => Some (set_pc t PPanic s)
    end
  | PWait n g, Expired => Some (set_pc t (PLeave n g (Some EDeadline)) s)
  | PWait n g, Cancelled => Some (set_pc t (PLeave n g (Some ECancelled)) s)
  | PWait n g, Stopped => Some (set_pc t (PLeave n g (Some EClosed)) s)
  | PLeave n g e, Go =>
    match wakeMu s, wakes b !! g with
    | None, Some w =>
      Some (set_pc t (match e with Some e => PFailed e | None => PLoad n end)
        (set_budget (set_wake g (mkWake (w_closed w) (w_waiters w - 1)) b) s))
    | None, None => Some (set_pc t PPanic s)
    | Some _, _ => None
    end
  | PAdd n, Go =>
    let u := sub64 (used b) n in
    Some (set_pc t (if bool_decide (u < 0) then PPanic else PBroadcast) (set_budget (set_used u b) s))
  | PBroadcast, Go =>
    match wakeMu s with
    | None => match broadcast b with
              | Done b => Some (set_pc t PIdle (set_budget b s))
              | Panicked => Some (set_pc t PPanic s)
              end
    | Some _ => None
    end
  | _, _ => None
  end.

(** Every interleaving of clients that start, run and give back. *)
Inductive reachable (m : Z) : sys → Prop :=
  | reach_init : reachable m (mkSys (newOutboundTrackedBudget m) None ∅)
  | reach_begin t n s s' : reachable m s → begin t n s = Some s' → reachable m s'
  | reach_give t s s' : reachable m s → giveBack t s = Some s' → reachable m s'
  | reach_exec ev t s s' : reachable m s → exec ev t s = Some s' → reachable m s'.

(** *** Invariant *)

(** Bytes a thread has in the counter; the share it has in a generation. *)
Definition held (p : pc) : Z := match p with PHold n | PAdd n => n | _ => 0 end.
Definition waitsOn (g : positive) (p : pc) : Z :=
  match p with PWait _ g' | PLeave _ g' _ => if decide (g = g') then 1 else 0 | _ => 0 end.
Definition inSection (p : pc) : bool :=
  match p with PLockedLoad _ | PLockedCas _ _ | PSubscribe _ => true | _ => false end.
Definition pcOk (m : Z) (p : pc) : Prop :=
  match p with
  | PLoad n | PDeadline n | PLock n | PLockedLoad n | PSubscribe n | PWait n _ | PLeave n _ _ | PAdd n => 0 < n ≤ m
  | PHold n => 0 ≤ n ≤ m
  | PCas n u | PLockedCas n u => 0 < n ≤ m ∧ u + n ≤ m ∧ 0 ≤ u
  | PPanic => False
  | _ => True
  end.
(** A request that does not fit now, or a release about to wake everybody. *)
Definition justified (s : sys) (n : Z) : Prop :=
  used (budget s) + n > maxBytes (budget s) ∨ ∃ t, threads s !! t = Some PBroadcast.

Record SInv (s : sys) : Prop := {
  si_budget : BInv (budget s);
  si_used : used (budget s) = msum (λ _ p, held p) (threads s);
  si_ok t p : threads s !! t = Some p → pcOk (maxBytes (budget s)) p;
  si_mu t : wakeMu s = Some t ↔ ∃ p, threads s !! t = Some p ∧ inSection p = true;
  si_count g w : wakes (budget s) !! g = Some w → w_waiters w = msum (λ _ p, waitsOn g p) (threads s);
  si_open g w : wakes (budget s) !! g = Some w → w_closed w = false → g = wake (budget s);
  si_gen t n g : threads s !! t = Some (PWait n g) → is_Some (wakes (budget s) !! g);
  si_leave t n g e : threads s !! t = Some (PLeave n g e) → is_Some (wakes (budget s) !! g);
  si_sub t n : threads s !! t = Some (PSubscribe n) → justified s n;
  si_wait t n g w : threads s !! t = Some (PWait n g) → wakes (budget s) !! g = Some w →
    w_closed w = false → justified s n;
}.

Lemma tracked_init_SInv m : m ≤ i64_max → SInv (mkSys (newOutboundTrackedBudget m) None ∅).
Proof.
  intros Hm. split; simpl; intros; try (by rewrite ?lookup_empty in *).
  - by apply tracked_new_BInv.
  - split; [done|]. intros (p & Hp & _). by rewrite lookup_empty in Hp.
  - apply lookup_singleton_Some in H as [<- <-]. done.
  - by apply lookup_singleton_Some in H as [<- <-].
Qed.

(** A sum over the threads when one of them moves. *)
Lemma msum_pc (f : pc → Z) t p (m : gmap positive pc) :
  f PIdle = 0 →
  msum (λ _ p, f p) (<[t := p]> m) = msum (λ _ p, f p) m - f (from_option id PIdle (m !! t)) + f p.
Proof.
  intros Hf. destruct (m !! t) as [q|] eqn:Ht; simpl.
  - rewrite (msum_update _ _ _ _ _ Ht). lia.
  - rewrite msum_insert by done. lia.
Qed.

(** A move that leaves the generations and their waiters alone. *)
Definition quiet (p : pc) : bool :=
  match p with PWait _ _ | PLeave _ _ _ | PSubscribe _ | PBroadcast => false | _ => true end.

Lemma tracked_justified_mono s s' n :
  justified s n → maxBytes (budget s') = maxBytes (budget s) → used (budget s) ≤ used (budget s') →
  (∀ t, threads s !! t = Some PBroadcast → threads s' !! t = Some PBroadcast) → justified s' n.
Proof.
  intros [Hu|[t Ht]] Hm Hle Hk; [left|right; eauto]. rewrite Hm. lia.
Qed.

(** The lock is held by the thread inside the section, whatever moves. *)
Definition lockMove (t : positive) (p : pc) (mu : option positive) (s : sys) : Prop :=
  if inSection p then mu = Some t ∧ (wakeMu s = None ∨ wakeMu s = Some t)
  else if inSection (thread_pc s t) then mu = None else mu = wakeMu s.
Lemma tracked_section_mu s t : SInv s → inSection (thread_pc s t) = true ↔ wakeMu s = Some t.
Proof.
  intros HI. rewrite (si_mu _ HI). unfold thread_pc. split.
  - intros Hs. destruct (threads s !! t) as [q|] eqn:Heq; [by exists q|done].
  - intros (q & Heq & Hs). by rewrite Heq.
Qed.
Lemma tracked_lock_follows t t' p mu s :
  SInv s → lockMove t p mu s →
  mu = Some t' ↔ ∃ q, <[t := p]> (threads s) !! t' = Some q ∧ inSection q = true.
Proof.
  intros HI Hmu. pose proof (tracked_section_mu s t HI) as Hme. unfold lockMove in Hmu.
  destruct (decide (t' = t)) as [->|Hne].
  - rewrite lookup_insert_eq. destruct (inSection p) eqn:Hs.
    + destruct Hmu as [-> _]. split; [|done]. intros _. by eexists.
    + destruct (inSection (thread_pc s t)) eqn:Hs'; subst mu; rewrite <-?Hme;
        (split; [done|]); intros (q & [= <-] & ?); congruence.
  - rewrite lookup_insert_ne, <-(si_mu _ HI) by done. destruct (inSection p).
    + destruct Hmu as [-> [Hw|Hw]]; rewrite Hw; split; congruence.
    + destruct (inSection (thread_pc s t)); subst mu; [|done].
      destruct Hme as [Hme _]. rewrite (Hme eq_refl). split; congruence.
Qed.

(** One thread moves: what every step has to show of the budget it leaves. *)
Lemma tracked_move t p b' mu s :
  let p0 := thread_pc s t in let s' := mkSys b' mu (<[t := p]> (threads s)) in
  SInv s → BInv b' → maxBytes b' = maxBytes (budget s) →
  used b' = used (budget s) - held p0 + held p → pcOk (maxBytes b') p → lockMove t p mu s →
  (∀ g w, wakes b' !! g = Some w →
     w_waiters w = msum (λ _ q, waitsOn g q) (threads s) - waitsOn g p0 + waitsOn g p) →
  (∀ g w, wakes b' !! g = Some w → w_closed w = false → g = wake b') →
  (∀ g, is_Some (wakes (budget s) !! g) → is_Some (wakes b' !! g)) →
  (∀ n g, p = PWait n g → is_Some (wakes b' !! g)) →
  (∀ n g e, p = PLeave n g e → is_Some (wakes b' !! g)) →
  (∀ t' n, threads s' !! t' = Some (PSubscribe n) → justified s' n) →
  (∀ t' n g w, threads s' !! t' = Some (PWait n g) → wakes b' !! g = Some w → w_closed w = false → justified s' n) →
  SInv s'.
Proof.
  intros p0 s' HI HB' Hm Hu Hok Hmu Hc Ho Hold Hpw Hpl Hs Hw.
  pose proof HI as [HB Hused Hpc Hlk Hcnt Hopen Hgen Hlv _ _].
  split; simpl; try done.
  - rewrite msum_pc by done. unfold p0, thread_pc in Hu. lia.
  - rewrite Hm. intros t' p' [[<- <-]|[_ ?]]%lookup_insert_Some; [by rewrite <-Hm|by eapply Hpc].
  - intros t'. by apply tracked_lock_follows.
  - intros g w Hw'. rewrite msum_pc by done. by apply Hc.
  - intros t' n g [[<- ->]|[_ ?]]%lookup_insert_Some; [by eapply Hpw|]. apply Hold. by eapply Hgen.
  - intros t' n g e [[<- ->]|[_ ?]]%lookup_insert_Some; [by eapply Hpl|]. apply Hold. by eapply Hlv.
Qed.

(** The moves that only add bytes and change no generation but in its count:
    whoever was justified in waiting still is. *)
Lemma tracked_calm_move t p b' mu s :
  let p0 := thread_pc s t in
  SInv s → BInv b' → maxBytes b' = maxBytes (budget s) → used (budget s) ≤ used b' → p0 ≠ PBroadcast →
  used b' = used (budget s) - held p0 + held p → pcOk (maxBytes b') p → lockMove t p mu s →
  (∀ g w, wakes b' !! g = Some w →
     w_waiters w = msum (λ _ q, waitsOn g q) (threads s) - waitsOn g p0 + waitsOn g p) →
  wake b' = wake (budget s) →
  (∀ g, w_closed <$> wakes b' !! g = w_closed <$> wakes (budget s) !! g) →
  (∀ n g, p = PWait n g → is_Some (wakes b' !! g) ∧ justified s n) →
  (∀ n g e, p = PLeave n g e → is_Some (wakes b' !! g)) →
  (∀ n, p = PSubscribe n → justified s n) →
  SInv (mkSys b' mu (<[t := p]> (threads s))).
Proof.
  intros p0 HI HB' Hm Hle Hnb Hu Hok Hmu Hc Hwk Hcl Hpw Hpl Hps.
  assert (Hj : ∀ n, justified s n → justified (mkSys b' mu (<[t := p]> (threads s))) n).
  { intros n Hn. eapply tracked_justified_mono; [done|done|done|]. intros t' Ht'. simpl.
    rewrite lookup_insert_ne; [done|]. intros <-. unfold p0, thread_pc in Hnb. by rewrite Ht' in Hnb. }
  assert (Hback : ∀ g w, wakes b' !! g = Some w → ∃ w0, wakes (budget s) !! g = Some w0 ∧ w_closed w0 = w_closed w).
  { intros g w Hw. specialize (Hcl g). rewrite Hw in Hcl. simpl in Hcl. symmetry in Hcl.
    apply fmap_Some in Hcl as (w0 & ? & ?). by exists w0. }
  apply tracked_move; try done.
  - intros g w Hw Hcw. destruct (Hback _ _ Hw) as (w0 & Hw0 & Heq). rewrite Hwk. apply (si_open _ HI g w0); congruence.
  - intros g. rewrite <-!(fmap_is_Some w_closed). by rewrite Hcl.
  - intros n g Hp. by apply (Hpw n g).
  - simpl. intros t' n [[<- ->]|[_ ?]]%lookup_insert_Some; apply Hj; [by apply Hps|by eapply (si_sub _ HI)].
  - simpl. intros t' n g w [[<- ->]|[_ Ht']]%lookup_insert_Some Hw Hcw; apply Hj; [by apply (Hpw n g)|].
    destruct (Hback _ _ Hw) as (w0 & Hw0 & Heq). apply (si_wait _ HI t' n g w0); congruence.
Qed.

(** A thread whose place is known. *)
Lemma thread_pc_Some s t p : thread_pc s t = p → p ≠ PIdle → threads s !! t = Some p.
Proof. unfold thread_pc. intros <- Hne. destruct (threads s !! t); [done|by destruct Hne]. Qed.
Lemma tracked_pc_ok s t : SInv s → pcOk (maxBytes (budget s)) (thread_pc s t).
Proof.
  intros HI. unfold thread_pc. destruct (threads s !! t) eqn:Ht; [|done]. by eapply (si_ok _ HI).
Qed.
Lemma waitsOn_range g p : 0 ≤ waitsOn g p ≤ 1.
Proof. destruct p; simpl; try case_decide; lia. Qed.
Lemma set_used_id b : set_used (used b) b = b.
Proof. by destruct b. Qed.

(** The steps that leave the generations alone altogether: the counter follows
    the share of the thread, and the lock follows the section. *)
Lemma tracked_quiet_move t p u mu s :
  SInv s → quiet (thread_pc s t) = true → quiet p = true →
  u = used (budget s) - held (thread_pc s t) + held p → used (budget s) ≤ u ≤ maxBytes (budget s) →
  pcOk (maxBytes (budget s)) p → lockMove t p mu s →
  SInv (mkSys (set_used u (budget s)) mu (<[t := p]> (threads s))).
Proof.
  intros HI Hq Hp Hu Hle Hok Hmu. pose proof HI as [HB _ _ _ Hcnt _ _ _ _ _].
  assert (Hf : ∀ g q, quiet q = true → waitsOn g q = 0) by (by intros g []).
  apply (tracked_calm_move t _ _ _ s); simpl; try done; try lia.
  - destruct HB as [? ? ?]. split; simpl; [lia|done|done].
  - intros Heq. by rewrite Heq in Hq.
  - intros g w Hw. rewrite (Hcnt _ _ Hw), !Hf by done. lia.
  - by intros ?? ->.
  - by intros ??? ->.
  - by intros ? ->.
Qed.

(** The reservation did not fit under the lock: the thread will subscribe. *)
Lemma tracked_to_subscribe t n s :
  SInv s → thread_pc s t = PLockedLoad n → used (budget s) + n > maxBytes (budget s) →
  SInv (set_pc t (PSubscribe n) s).
Proof.
  intros HI Ht Hfull. pose proof (tracked_pc_ok s t HI) as Hok. rewrite Ht in Hok.
  pose proof (tracked_section_mu s t HI) as Hmu. rewrite Ht in Hmu.
  apply (tracked_calm_move t _ _ _ s); rewrite ?Ht; simpl; try done; try lia.
  - apply HI.
  - unfold lockMove. simpl. rewrite <-Hmu. auto.
  - intros g w Hw. rewrite (si_count _ HI _ _ Hw). lia.
  - intros n' [= <-]. by left.
Qed.

(** Changing the count of a generation. *)
Lemma tracked_recount g w k s :
  SInv s → wakes (budget s) !! g = Some w → 0 ≤ k →
  let b' := set_wake g (mkWake (w_closed w) k) (budget s) in
  BInv b' ∧ ∀ g', w_closed <$> wakes b' !! g' = w_closed <$> wakes (budget s) !! g'.
Proof.
  intros HI Hw Hk b'. split.
  - destruct (si_budget _ HI) as [? ? (w' & Hw' & Hc & Hz)]. split; simpl; [done|done|].
    destruct (decide (g = wake (budget s))) as [->|Hne].
    + assert (w' = w) as -> by congruence. eexists. by rewrite lookup_insert_eq.
    + exists w'. by rewrite lookup_insert_ne.
  - intros g'. simpl. destruct (decide (g = g')) as [<-|Hne].
    + by rewrite lookup_insert_eq, Hw.
    + by rewrite lookup_insert_ne.
Qed.

(** The waiter is counted in the current generation before the lock is free. *)
Lemma tracked_subscribed t n w s :
  SInv s → thread_pc s t = PSubscribe n → wakes (budget s) !! wake (budget s) = Some w →
  SInv (set_pc t (PWait n (wake (budget s)))
    (set_mu None (set_budget (set_wake (wake (budget s)) (mkWake (w_closed w) (w_waiters w + 1)) (budget s)) s))).
Proof.
  intros HI Ht Hw. pose proof (tracked_pc_ok s t HI) as Hok. rewrite Ht in Hok.
  assert (Hin := thread_pc_Some _ _ _ Ht ltac:(done)).
  assert (Hk : 0 ≤ w_waiters w + 1).
  { destruct (si_budget _ HI) as [_ _ (w' & Hw' & _ & Hz)]. assert (w' = w) as -> by congruence. lia. }
  destruct (tracked_recount _ _ _ _ HI Hw Hk) as [HB Hcl].
  apply (tracked_calm_move t _ _ _ s); rewrite ?Ht; try done; simpl; try lia.
  - unfold lockMove. simpl. by rewrite Ht.
  - intros g w' [[<- <-]|[Hne Hw']]%lookup_insert_Some; simpl.
    + rewrite (si_count _ HI _ _ Hw), decide_True by done. lia.
    + rewrite (si_count _ HI _ _ Hw'), decide_False by congruence. lia.
  - intros n' g [= <- <-]. rewrite lookup_insert_eq. split; [by eexists|by eapply (si_sub _ HI)].
Qed.

(** The select returns: the waiter still counts until it has the lock. *)
Lemma tracked_woken t n g e s :
  SInv s → thread_pc s t = PWait n g → SInv (set_pc t (PLeave n g e) s).
Proof.
  intros HI Ht. pose proof (tracked_pc_ok s t HI) as Hok. rewrite Ht in Hok.
  assert (Hin := thread_pc_Some _ _ _ Ht ltac:(done)).
  apply (tracked_calm_move t _ _ _ s); rewrite ?Ht; try done; simpl; try lia.
  - apply HI.
  - unfold lockMove. simpl. by rewrite Ht.
  - intros g' w Hw. rewrite (si_count _ HI _ _ Hw). lia.
  - intros n' g' e' [= <- <- <-]. by eapply (si_gen _ HI).
Qed.

Lemma tracked_left t n g e w s :
  SInv s → thread_pc s t = PLeave n g e → wakes (budget s) !! g = Some w → wakeMu s = None →
  SInv (set_pc t (match e with Some e => PFailed e | None => PLoad n end)
    (set_budget (set_wake g (mkWake (w_closed w) (w_waiters w - 1)) (budget s)) s)).
Proof.
  intros HI Ht Hw Hmu. pose proof (tracked_pc_ok s t HI) as Hok. rewrite Ht in Hok.
  assert (Hin := thread_pc_Some _ _ _ Ht ltac:(done)).
  assert (Hk : 0 ≤ w_waiters w - 1).
  { rewrite (si_count _ HI _ _ Hw).
    enough (1 ≤ msum (λ _ q, waitsOn g q) (threads s)) by lia.
    transitivity (waitsOn g (PLeave n g e)); [simpl; by rewrite decide_True|].
    apply (msum_lookup_le (λ _ p, waitsOn g p) _ t); [|done]. intros _ q _. apply waitsOn_range. }
  destruct (tracked_recount _ _ _ _ HI Hw Hk) as [HB Hcl].
  apply (tracked_calm_move t _ _ _ s); rewrite ?Ht; try done; simpl; try lia; try (by destruct e).
  - destruct e; simpl; lia.
  - unfold lockMove. by destruct e; simpl; rewrite Ht.
  - assert (Hz : ∀ g', waitsOn g' (match e with Some e => PFailed e | None => PLoad n end) = 0) by (by destruct e).
    intros g' w' [[<- <-]|[Hne Hw']]%lookup_insert_Some; simpl; rewrite Hz.
    + rewrite (si_count _ HI _ _ Hw), decide_True by done. lia.
    + rewrite (si_count _ HI _ _ Hw'), decide_False by congruence. lia.
Qed.

(** Bytes are subtracted: every waiter is now justified by the broadcast to come. *)
Lemma tracked_subtracted t n s :
  SInv s → thread_pc s t = PAdd n →
  n ≤ used (budget s) ∧ SInv (set_pc t PBroadcast (set_budget (set_used (used (budget s) - n) (budget s)) s)).
Proof.
  intros HI Ht. pose proof (tracked_pc_ok s t HI) as Hok. rewrite Ht in Hok. simpl in Hok.
  assert (Hin := thread_pc_Some _ _ _ Ht ltac:(done)).
  assert (Hn : n ≤ used (budget s)).
  { rewrite (si_used _ HI). apply (msum_lookup_le (λ _ p, held p) _ t (PAdd n)); [|done].
    intros t' q Hq. pose proof (si_ok _ HI _ _ Hq). destruct q; simpl in *; lia. }
  split; [done|]. set (s' := set_pc _ _ _).
  assert (Hj : ∀ n', justified s' n') by (intros n'; right; exists t; simpl; by rewrite lookup_insert_eq).
  apply (tracked_move t _ _ _ s); rewrite ?Ht; simpl; try done; try lia.
  - destruct (si_budget _ HI). split; simpl; [lia|done|done].
  - unfold lockMove. simpl. by rewrite Ht.
  - intros g w Hw. rewrite (si_count _ HI _ _ Hw). lia.
  - apply (si_open _ HI).
Qed.

(** Nobody waits on an open generation once the broadcast is done. *)
Lemma tracked_broadcasted t s :
  SInv s → thread_pc s t = PBroadcast → wakeMu s = None →
  ∃ b', broadcast (budget s) = Done b' ∧ SInv (set_pc t PIdle (set_budget b' s)).
Proof.
  intros HI Ht Hmu. destruct (si_budget _ HI) as [Hu Hm (w & Hw & Hc & Hz)].
  assert (Hin := thread_pc_Some _ _ _ Ht ltac:(done)).
  assert (Hsub : ∀ t' n, threads s !! t' ≠ Some (PSubscribe n)).
  { intros t' n Ht'. assert (wakeMu s = Some t'); [|congruence]. apply (si_mu _ HI). by eexists. }
  assert (Hlock : lockMove t PIdle (wakeMu s) s) by (unfold lockMove; simpl; by rewrite Ht).
  unfold broadcast. rewrite Hw. simpl. case_bool_decide as Hpos; (eexists; split; [done|]).
  - set (g := fresh (dom (wakes (budget s)))).
    assert (Hg : wakes (budget s) !! g = None) by apply not_elem_of_dom, is_fresh.
    assert (Hgw : g ≠ wake (budget s)) by congruence.
    assert (Hnew : ∀ g' w', <[g:=mkWake false 0]> (<[wake (budget s):=mkWake true (w_waiters w)]> (wakes (budget s))) !! g'
        = Some w' → w_closed w' = false → g' = g).
    { intros g' w' [[<- _]|[_ [[_ <-]|[Hne Hw']]%lookup_insert_Some]]%lookup_insert_Some; [done|done|].
      intros Hc'. destruct Hne. symmetry. by eapply (si_open _ HI). }
    apply (tracked_move t _ _ _ s); rewrite ?Ht; simpl; try done; try lia.
    + split; simpl; [done|done|]. eexists. by rewrite lookup_insert_eq.
    + intros g' w' [[<- <-]|[Hne [[<- <-]|[_ Hw']]%lookup_insert_Some]]%lookup_insert_Some; simpl.
      * symmetry. rewrite Z.sub_0_r, Z.add_0_r. apply msum_zero. intros t' q Hq.
        destruct q; simpl; try done; (case_decide as Hd; [|done]); rewrite Hd in Hg; exfalso.
        -- apply (si_gen _ HI) in Hq as [? ?]. congruence.
        -- apply (si_leave _ HI) in Hq as [? ?]. congruence.
      * rewrite (si_count _ HI _ _ Hw). lia.
      * rewrite (si_count _ HI _ _ Hw'). lia.
    + intros g' Hg'. by do 2 (apply lookup_insert_is_Some'; right).
    + intros t' n [[<- ?]|[_ Ht']]%lookup_insert_Some; [done|]. by apply Hsub in Ht'.
    + intros t' n g' w' [[<- ?]|[_ Ht']]%lookup_insert_Some Hw' Hc'; [done|]. exfalso.
      apply (si_gen _ HI) in Ht' as [? Hg']. rewrite (Hnew _ _ Hw' Hc') in Hg'. congruence.
  - apply (tracked_move t _ _ _ s); rewrite ?Ht; simpl; try done; try lia.
    + apply HI.
    + intros g w' Hw'. rewrite (si_count _ HI _ _ Hw'). lia.
    + apply (si_open _ HI).
    + intros t' n [[<- ?]|[_ Ht']]%lookup_insert_Some; [done|]. by apply Hsub in Ht'.
    + intros t' n g w' [[<- ?]|[_ Ht']]%lookup_insert_Some Hw' Hc'; [done|]. exfalso.
      assert (g = wake (budget s)) as -> by by eapply (si_open _ HI). rewrite (si_count _ HI _ _ Hw) in Hpos.
      pose proof (msum_lookup_le (λ _ q, waitsOn (wake (budget s)) q) _ _ _ (λ _ q _, proj1 (waitsOn_range _ q)) Ht') as Hle.
      simpl in Hle. rewrite decide_True in Hle by done. lia.
Qed.

(** *** Every step keeps the invariant *)

Lemma tracked_same_move t p mu s :
  SInv s → quiet (thread_pc s t) = true → quiet p = true → held p = held (thread_pc s t) →
  pcOk (maxBytes (budget s)) p → lockMove t p mu s → SInv (mkSys (budget s) mu (<[t := p]> (threads s))).
Proof.
  intros HI Hq Hp Hh Hok Hmu. rewrite <-(set_used_id (budget s)).
  destruct (si_budget _ HI). apply tracked_quiet_move; try done; lia.
Qed.

Lemma tracked_begin_SInv t n s s' : SInv s → begin t n s = Some s' → SInv s'.
Proof.
  intros HI. unfold begin. destruct (thread_pc s t) eqn:Ht; try done.
  assert (Hlk : ∀ p, inSection p = false → lockMove t p (wakeMu s) s).
  { intros p Hp. unfold lockMove. by rewrite Hp, Ht. }
  destruct (bool_decide (n < 0)) eqn:Hneg; simpl; [|destruct (bool_decide (n > _)) eqn:Hbig]; intros [= <-];
    try (apply (tracked_same_move t _ _ s); rewrite ?Ht; auto; done).
  apply bool_decide_eq_false in Hneg, Hbig.
  case_bool_decide; apply (tracked_same_move t _ _ s); rewrite ?Ht; simpl; auto; lia.
Qed.

Lemma tracked_giveBack_SInv t s s' : SInv s → giveBack t s = Some s' → SInv s'.
Proof.
  intros HI. unfold giveBack. destruct (thread_pc s t) eqn:Ht; try done.
  assert (Hlk : ∀ p, inSection p = false → lockMove t p (wakeMu s) s).
  { intros p Hp. unfold lockMove. by rewrite Hp, Ht. }
  pose proof (tracked_pc_ok s t HI) as Hok. rewrite Ht in Hok. simpl in Hok.
  intros [= <-]. case_bool_decide; apply (tracked_same_move t _ _ s); rewrite ?Ht; simpl; auto; lia.
Qed.

(** The compare-and-swap succeeds: the loaded value is the current one. *)
Lemma tracked_cas_move t n u mu s :
  SInv s → pcOk (maxBytes (budget s)) (PCas n u) → quiet (thread_pc s t) = true → held (thread_pc s t) = 0 →
  used (budget s) = u → lockMove t (PHold n) mu s →
  SInv (mkSys (set_used (add64 u n) (budget s)) mu (<[t := PHold n]> (threads s))).
Proof.
  intros HI (? & ? & ?) Hq Hh <- Hmu. pose proof (binv_max _ (si_budget _ HI)).
  rewrite add64_small by int64. apply tracked_quiet_move; simpl; try done; lia.
Qed.

Lemma tracked_exec_SInv ev t s s' : SInv s → exec ev t s = Some s' → SInv s'.
Proof.
  intros HI. unfold exec. pose proof (tracked_pc_ok s t HI) as Hok.
  pose proof (tracked_section_mu s t HI) as Hsec.
  assert (Hlk : inSection (thread_pc s t) = false → ∀ p, inSection p = false → lockMove t p (wakeMu s) s).
  { intros Hs p Hp. unfold lockMove. by rewrite Hp, Hs. }
  assert (Hout : inSection (thread_pc s t) = true → ∀ p, inSection p = false → lockMove t p None s).
  { intros Hs p Hp. unfold lockMove. by rewrite Hp, Hs. }
  assert (Hin : inSection (thread_pc s t) = true → ∀ p, inSection p = true → lockMove t p (wakeMu s) s).
  { intros Hs p Hp. unfold lockMove. rewrite Hp. apply Hsec in Hs. auto. }
  pose proof (binv_used _ (si_budget _ HI)) as Hu.
  destruct (thread_pc s t) eqn:Ht; simpl in Hok, Hlk, Hout, Hin; destruct ev; try done.
  - (* PLoad *) intros [= <-]. rewrite fits_spec by (apply HI || lia).
    case_bool_decide; apply (tracked_same_move t _ _ s); rewrite ?Ht; simpl; auto; lia.
  - (* PCas *) intros [= <-]. case_bool_decide; simpl.
    + apply (tracked_cas_move t n u _ s); rewrite ?Ht; simpl; auto.
    + apply (tracked_same_move t _ _ s); rewrite ?Ht; simpl; auto; lia.
  - intros [= <-]. apply (tracked_same_move t _ _ s); rewrite ?Ht; simpl; auto.
  - intros [= <-]. apply (tracked_same_move t _ _ s); rewrite ?Ht; simpl; auto.
  - (* PLock *) destruct (wakeMu s) eqn:Hm; [done|]. intros [= <-].
    apply (tracked_same_move t _ _ s); rewrite ?Ht; simpl; auto. unfold lockMove. simpl. auto.
  - (* PLockedLoad *) intros [= <-]. rewrite fits_spec by (apply HI || lia).
    case_bool_decide; [|apply tracked_to_subscribe; [done|done|lia]].
    apply (tracked_same_move t _ _ s); rewrite ?Ht; simpl; auto; lia.
  - (* PLockedCas *) intros [= <-]. case_bool_decide; simpl.
    + apply (tracked_cas_move t n u _ s); rewrite ?Ht; simpl; auto.
    + apply (tracked_same_move t _ _ s); rewrite ?Ht; simpl; auto; lia.
  - (* PSubscribe *) destruct (binv_wake _ (si_budget _ HI)) as (w & Hw & _). rewrite Hw.
    intros [= <-]. by apply tracked_subscribed.
  - (* PWait *) destruct (si_gen _ HI t n g (thread_pc_Some _ _ _ Ht ltac:(done))) as [w Hw]. rewrite Hw.
    destruct (w_closed w); [|done]. intros [= <-]. by apply tracked_woken.
  - intros [= <-]. by apply tracked_woken.
  - intros [= <-]. by apply tracked_woken.
  - intros [= <-]. by apply tracked_woken.
  - (* PLeave *) destruct (wakeMu s) eqn:Hm; [done|].
    destruct (si_leave _ HI t n g e (thread_pc_Some _ _ _ Ht ltac:(done))) as [w Hw]. rewrite Hw.
    intros [= <-]. by apply tracked_left.
  - (* PAdd *) destruct (tracked_subtracted t n s HI Ht) as [Hn HI'].
    pose proof (binv_max _ (si_budget _ HI)). rewrite sub64_small by int64.
    rewrite bool_decide_false by lia. by intros [= <-].
  - (* PBroadcast *) destruct (wakeMu s) eqn:Hm; [done|].
    destruct (tracked_broadcasted t s HI Ht Hm) as (b' & -> & HI'). by intros [= <-].
Qed.

Lemma tracked_reachable_SInv m s : m ≤ i64_max → reachable m s → SInv s.
Proof.
  intros Hm. induction 1 as [|? ? ? ? _ IH Hs|? ? ? _ IH Hs|? ? ? ? _ IH Hs].
  - by apply tracked_init_SInv.
  - by eapply tracked_begin_SInv.
  - by eapply tracked_giveBack_SInv.
  - by eapply tracked_exec_SInv.
Qed.

(** The holder of the lock always has its next instruction. *)
Lemma tracked_section_runs t s : inSection (thread_pc s t) = true → exec Go t s ≠ None.
Proof.
  unfold exec. destruct (thread_pc s t); try done. intros _. by destruct (_ !! _).
Qed.

(** C9: in every interleaving of clients of one tracked budget, at the level of
    single atomic instructions, the counter is the sum of the bytes granted and
    not given back, stays between 0 and the cap, and no release panics; and
    when no thread has an instruction left to run, everyone still waiting in
    [waitReserveUntil] asks for more bytes than are free: a release never leaves a
    waiter behind whose request fits. *)
Theorem tracked_budget_no_stranded_waiter (m : Z) (s : sys) :
  m ≤ i64_max → reachable m s →
  (0 ≤ used (budget s) ≤ maxBytes (budget s) ∧
   used (budget s) = msum (λ _ p, held p) (threads s) ∧
   ∀ t, threads s !! t ≠ Some PPanic) ∧
  ((∀ t, exec Go t s = None) →
   ∀ t n g, threads s !! t = Some (PWait n g) → used (budget s) + n > maxBytes (budget s)).
Proof.
  intros Hm Hr. assert (HI := tracked_reachable_SInv m s Hm Hr). split.
  - split; [apply HI|]. split; [apply HI|]. intros t Ht. by apply (si_ok _ HI) in Ht.
  - intros Hstuck t n g Ht. destruct (si_gen _ HI _ _ _ Ht) as [w Hw].
    assert (Hc : w_closed w = false).
    { specialize (Hstuck t). unfold exec, thread_pc in Hstuck. rewrite Ht in Hstuck. simpl in Hstuck.
      rewrite Hw in Hstuck. by destruct (w_closed w). }
    destruct (si_wait _ HI _ _ _ _ Ht Hw Hc) as [|[t' Ht']]; [done|]. exfalso.
    destruct (wakeMu s) as [t2|] eqn:Hmu.
    + apply (tracked_section_runs t2 s); [|done]. by apply tracked_section_mu.
    + assert (Hpc : thread_pc s t' = PBroadcast) by (unfold thread_pc; by rewrite Ht').
      destruct (tracked_broadcasted t' s HI Hpc Hmu) as (b' & Hb & _).
      specialize (Hstuck t'). unfold exec in Hstuck. by rewrite Hpc, Hmu, Hb in Hstuck.
Qed.

(** *** Concrete schedules *)

Inductive cmd := CBegin (t : positive) (n : Z) | CGive (t : positive) | CExec (ev : event) (t : positive).
Definition runCmd (c : cmd) (s : sys) : option sys :=
  match c with CBegin t n => begin t n s | CGive t => giveBack t s | CExec ev t => exec ev t s end.
Fixpoint runCmds (cs : list cmd) (s : sys) : option sys :=
  match cs with [] => Some s | c :: cs => s ← runCmd c s; runCmds cs s end.
Lemma runCmds_reachable m cs s s' : reachable m s → runCmds cs s = Some s' → reachable m s'.
Proof.
  revert s. induction cs as [|c cs IH]; simpl; [congruence|]. intros s Hr Hrun.
  destruct (runCmd c s) as [s1|] eqn:Hc; [|done]. simpl in Hrun. apply (IH s1); [|done].
  destruct c; simpl in Hc; [by eapply reach_begin|by eapply reach_give|by eapply reach_exec].
Qed.

End Tracked.

Module TrackedRuns.
Import Tracked.

(** Thread 1 takes 10 of 12 bytes; thread 2 asks for 5, misses the lock-free
    attempt, misses again under the lock and waits. *)
Definition waiting : option sys :=
  runCmds [CBegin 1 10; CExec Go 1; CExec Go 1; CBegin 2 5; CExec Go 2; CExec Go 2; CExec Go 2; CExec Go 2; CExec Go 2]
    (mkSys (newOutboundTrackedBudget 12) None ∅).
Definition waitingState : sys :=
  mkSys (mkBudget 12 10 {[ 1%positive := mkWake false 1 ]} 1) None {[ 1%positive := PHold 10; 2%positive := PWait 5 1 ]}.

(** The release wakes it, and it gets its bytes. *)
Example tracked_release_wakes :
  (s ← waiting; runCmds [CGive 1; CExec Go 1; CExec Go 1; CExec Go 2; CExec Go 2; CExec Go 2; CExec Go 2] s)
  = Some (mkSys (mkBudget 12 5 {[ 1%positive := mkWake true 0; 2%positive := mkWake false 0 ]} 2) None
        {[ 1%positive := PIdle; 2%positive := PHold 5 ]}).
Proof. vm_compute. reflexivity. Qed.

Lemma tracked_budget_no_stranded_waiter_witness :
  waiting = Some waitingState ∧ used (budget waitingState) + 5 > maxBytes (budget waitingState).
Proof.
  assert (Hw : waiting = Some waitingState) by (vm_compute; reflexivity).
  split; [exact Hw|].
  refine (proj2 (tracked_budget_no_stranded_waiter 12 waitingState _ _) _ 2%positive 5 1%positive _).
  - vm_compute. discriminate.
  - eapply runCmds_reachable; [apply reach_init|exact Hw].
  - intros t. unfold exec, thread_pc, waitingState. simpl threads.
    destruct (decide (t = 1%positive)) as [->|H1]; [reflexivity|].
    destruct (decide (t = 2%positive)) as [->|H2]; [reflexivity|].
    rewrite lookup_insert_ne, lookup_singleton_ne by congruence. reflexivity.
  - reflexivity.
Defined.

End TrackedRuns.
