(* ===== verification/RpcDelivery.v ===== *)
(** * Delivery of an RPC result

    [internal/mtprotoedge/outbound.go]: the physical attempt
    [rpcResultDelivery], whose request id may be retargeted until the actor
    starts writing, and the logical [rpcResultDeliveryCoordinator] that runs
    the post-response hook of a result once, whichever attempt or replay
    delivers it.  Claims and the [changed] channels are pointers in heaps; a
    section under the coordinator lock is one step, and threads interleave
    between sections. *)

From S2P Require Import Prelude.

Module Delivery.

Abbreviation callback := positive.

Inductive rpcResultDeliveryState := Prepared | Queued | Writing | Replayable | Delivered.
Inductive rpcResultDeliveryHookState := HookUnset | HookPending | HookClaimed | HookInProgress | HookDone.
#[export] Instance rpcResultDeliveryState_eq_dec : EqDecision rpcResultDeliveryState.
Proof. solve_decision. Defined.
#[export] Instance rpcResultDeliveryHookState_eq_dec : EqDecision rpcResultDeliveryHookState.
Proof. solve_decision. Defined.

(** ** The coordinator *)

(** [claims] and [chans] are the heaps of the claim tokens (with the function
    each captured) and of the channels (true once closed). *)
Record rpcResultDeliveryCoordinator := mkCoord {
  fn : option callback;
  state : rpcResultDeliveryHookState;
  claim : option positive;
  changed : option positive;
  deferredToReplay : bool;
  claims : gmap positive callback;
  chans : gmap positive bool;
}.

Definition newCoordinator : rpcResultDeliveryCoordinator :=
  mkCoord None HookUnset None (Some 1%positive) false ∅ {[ 1%positive := false ]}.

(** [make(chan struct{})] and [close]; closing a closed channel panics. *)
Definition makeChan (c : rpcResultDeliveryCoordinator) : rpcResultDeliveryCoordinator :=
  let ch := fresh (dom (chans c)) in
  mkCoord (fn c) (state c) (claim c) (Some ch) (deferredToReplay c) (claims c) (<[ch := false]> (chans c)).
Definition closeChan (ch : positive) (c : rpcResultDeliveryCoordinator) : Run rpcResultDeliveryCoordinator :=
  closed ← deref (chans c !! ch);
  _ ← panic_if closed;
  Done (mkCoord (fn c) (state c) (claim c) (changed c) (deferredToReplay c) (claims c) (<[ch := true]> (chans c))).

Definition signalLocked (c : rpcResultDeliveryCoordinator) : Run rpcResultDeliveryCoordinator :=
  match changed c with
  | None => Done (makeChan c)
  | Some ch =>
    c ← closeChan ch c;
    Done (if bool_decide (state c = HookDone)
          then mkCoord (fn c) (state c) (claim c) None (deferredToReplay c) (claims c) (chans c)
          else makeChan c)
  end.

Definition setHook (f : callback) (c : rpcResultDeliveryCoordinator) : Run rpcResultDeliveryCoordinator :=
  if bool_decide (fn c = None) && negb (bool_decide (state c = HookDone))
  then signalLocked (mkCoord (Some f) HookPending (claim c) (changed c) (deferredToReplay c) (claims c) (chans c))
  else Done c.

Definition pendingHook (c : rpcResultDeliveryCoordinator) : bool :=
  bool_decide (is_Some (fn c)) && negb (bool_decide (state c = HookDone)).
Definition pendingAsyncHook (c : rpcResultDeliveryCoordinator) : bool :=
  bool_decide (is_Some (fn c)) && bool_decide (state c = HookPending) && negb (deferredToReplay c).

Definition claimLocked (allowDeferred : bool) (c : rpcResultDeliveryCoordinator)
    : Run (rpcResultDeliveryCoordinator * option positive) :=
  match fn c with
  | Some f =>
    if negb (bool_decide (state c = HookPending)) || (deferredToReplay c && negb allowDeferred)
    then Done (c, None)
    else
      let cl := fresh (dom (claims c)) in
      c ← signalLocked (mkCoord (fn c) HookClaimed (Some cl) (changed c)
            (if allowDeferred then false else deferredToReplay c) (<[cl := f]> (claims c)) (chans c));
      Done (c, Some cl)
  | None => Done (c, None)
  end.
Definition claimAsyncDeliveredHook := claimLocked false.

(** One round of [claimReplayDeliveredHook] under the lock: the call returns
    without a claim, with one, or waits on a channel. *)
Inductive replayRound := RoundNone | RoundClaim (cl : positive) | RoundWait (ch : positive).
Definition claimReplayRound (allowDeferred : bool) (c : rpcResultDeliveryCoordinator)
    : Run (rpcResultDeliveryCoordinator * replayRound) :=
  if bool_decide (fn c = None) || bool_decide (state c = HookDone) then Done (c, RoundNone)
  else
    '(c, r) ← claimLocked allowDeferred c;
    match r with
    | Some cl => Done (c, RoundClaim cl)
    | None =>
      let c := match changed c with Some _ => c | None => makeChan c end in
      ch ← deref (changed c);
      Done (c, RoundWait ch)
    end.
(** The recheck after [ctx.Done()]: whether the call returns without an error. *)
Definition replayCancelled (c : rpcResultDeliveryCoordinator) : bool :=
  bool_decide (fn c = None) || bool_decide (state c = HookDone).

Definition releaseDeferredHook (c : rpcResultDeliveryCoordinator) : Run rpcResultDeliveryCoordinator :=
  if deferredToReplay c
  then signalLocked (mkCoord (fn c) (state c) (claim c) (changed c) false (claims c) (chans c))
  else Done c.
Definition deferHookToReplay (c : rpcResultDeliveryCoordinator) : Run rpcResultDeliveryCoordinator :=
  if negb (bool_decide (state c = HookDone)) && negb (deferredToReplay c)
  then signalLocked (mkCoord (fn c) (state c) (claim c) (changed c) true (claims c) (chans c))
  else Done c.

(** [claim.run]: the section before the call, and the deferred one after it. *)
Definition runStart (cl : positive) (c : rpcResultDeliveryCoordinator) : Run (rpcResultDeliveryCoordinator * bool) :=
  if bool_decide (claim c = Some cl) && bool_decide (state c = HookClaimed)
  then c ← signalLocked (mkCoord (fn c) HookInProgress (claim c) (changed c) (deferredToReplay c) (claims c) (chans c));
       Done (c, true)
  else Done (c, false).
Definition runFinish (cl : positive) (c : rpcResultDeliveryCoordinator) : Run rpcResultDeliveryCoordinator :=
  if bool_decide (claim c = Some cl) && bool_decide (state c = HookInProgress)
  then signalLocked (mkCoord None HookDone None (changed c) false (claims c) (chans c))
  else Done c.
Definition abandon (cl : positive) (c : rpcResultDeliveryCoordinator) : Run (rpcResultDeliveryCoordinator * bool) :=
  if bool_decide (claim c = Some cl) && bool_decide (state c = HookClaimed)
  then c ← signalLocked (mkCoord (fn c) HookPending None (changed c) (deferredToReplay c) (claims c) (chans c));
       Done (c, true)
  else Done (c, false).

(** ** The physical attempt *)

Record rpcResultDelivery := mkDelivery {
  d_state : rpcResultDeliveryState;
  targetReqMsgID : Z;
  writtenReqMsgID : Z;
  hookTicket : option positive;
  attemptHook : option callback;
}.
Definition newRPCResultDelivery (reqMsgID : Z) : rpcResultDelivery := mkDelivery Prepared reqMsgID 0 None None.

Definition markQueued (d : rpcResultDelivery) : rpcResultDelivery :=
  if bool_decide (d_state d = Prepared)
  then mkDelivery Queued (targetReqMsgID d) (writtenReqMsgID d) (hookTicket d) (attemptHook d) else d.

(** [beginWriting] for the message of request [reqMsgID]: the id it returns is
    the one the frame carries. *)
Definition beginWriting (reqMsgID : Z) (d : rpcResultDelivery) : rpcResultDelivery * Z :=
  let target := if bool_decide (targetReqMsgID d = 0) then reqMsgID else targetReqMsgID d in
  (mkDelivery Writing target target (hookTicket d) (attemptHook d), target).

(** [tryRetarget]: whether the id was changed, and the ticket to release. *)
Definition tryRetarget (reqMsgID : Z) (d : rpcResultDelivery) (c : rpcResultDeliveryCoordinator)
    : Run (rpcResultDelivery * rpcResultDeliveryCoordinator * bool * option positive) :=
  if bool_decide (reqMsgID = 0) then Done (d, c, false, None)
  else if negb (bool_decide (d_state d = Prepared)) && negb (bool_decide (d_state d = Queued))
  then Done (d, c, false, None)
  else
    c ← deferHookToReplay c;
    Done (mkDelivery (d_state d) reqMsgID (writtenReqMsgID d) None (attemptHook d), c, true, hookTicket d).

Definition writtenRequestID (reqMsgID : Z) (d : rpcResultDelivery) : Z :=
  let id := if bool_decide (writtenReqMsgID d = 0) then targetReqMsgID d else writtenReqMsgID d in
  if bool_decide (id = 0) then reqMsgID else id.

(** [markReplayable] returns the ticket to release. *)
Definition markReplayable (d : rpcResultDelivery) : rpcResultDelivery * option positive :=
  (mkDelivery (if bool_decide (d_state d = Delivered) then d_state d else Replayable)
     (targetReqMsgID d) (writtenReqMsgID d) None None, hookTicket d).

Definition setAttemptDeliveryHook (f : callback) (d : rpcResultDelivery) : rpcResultDelivery :=
  match attemptHook d with
  | None => mkDelivery (d_state d) (targetReqMsgID d) (writtenReqMsgID d) (hookTicket d) (Some f)
  | Some _ => d
  end.

(** The executor of hooks is elsewhere: [reserved] is the ticket it grants (or
    not), [submitted] whether it takes the job.  The coordinator is read twice,
    before and after the reservation ([c] and [c']), because other threads may
    claim the hook in between; the outcome names the ticket to give back. *)
Inductive prepareOutcome := PrepareOk (release : option positive) | PrepareCapacity.
Definition prepareDeliveryHook (reserved : option positive) (d : rpcResultDelivery)
    (c c' : rpcResultDeliveryCoordinator) : rpcResultDelivery * prepareOutcome :=
  let pending c := bool_decide (is_Some (attemptHook d)) || pendingAsyncHook c in
  if bool_decide (is_Some (hookTicket d)) || negb (pending c) then (d, PrepareOk None)
  else match reserved with
       | None => (d, PrepareCapacity)
       | Some t =>
         if negb (pending c') then (d, PrepareOk (Some t))
         else (mkDelivery (d_state d) (targetReqMsgID d) (writtenReqMsgID d) (Some t) (attemptHook d), PrepareOk None)
       end.

(** [markDelivered]: the job handed to the executor is the logical claim and
    the hook of this attempt; without a ticket the claim is given back. *)
Record hookJob := mkJob { job_ticket : positive; job_claim : option positive; job_hook : option callback }.
Definition markDelivered (fallback : option positive) (submitted : bool)
    (d : rpcResultDelivery) (c : rpcResultDeliveryCoordinator)
    : Run (rpcResultDelivery * rpcResultDeliveryCoordinator * option hookJob * option positive) :=
  let d' := mkDelivery Delivered (targetReqMsgID d) (writtenReqMsgID d) None None in
  '(c, cl) ← claimAsyncDeliveredHook c;
  if bool_decide (cl = None) && bool_decide (attemptHook d = None) then Done (d', c, None, hookTicket d)
  else
    let give_back (c : rpcResultDeliveryCoordinator) :=
      match cl with Some cl => '(c, _) ← abandon cl c; Done c | None => Done c end in
    match (match hookTicket d with Some t => Some t | None => fallback end) with
    | None => c ← give_back c; Done (d', c, None, None)
    | Some t =>
      if submitted then Done (d', c, Some (mkJob t cl (attemptHook d)), None)
      else c ← give_back c; Done (d', c, None, Some t)
    end.

(** ** Threads around one coordinator *)

Inductive dpc :=
  | DIdle
  | DHold (cl : positive)
  | DCalling (cl : positive)
  | DCalled (cl : positive)
  | DWait (ch : positive) (allowDeferred : bool).

Record hub := mkHub {
  coord : rpcResultDeliveryCoordinator;
  clients : gmap positive dpc;
  calls : list callback;
}.
Definition client_pc (h : hub) (t : positive) : dpc := from_option id DIdle (clients h !! t).
Definition set_client (t : positive) (p : dpc) (c : rpcResultDeliveryCoordinator) (h : hub) : hub :=
  mkHub c (<[t := p]> (clients h)) (calls h).

Inductive dop :=
  | OpSet (f : callback)
  | OpDefer
  | OpReleaseDeferred
  | OpAsync (t : positive)
  | OpReplay (t : positive) (allowDeferred : bool)
  | OpWake (t : positive)
  | OpCancel (t : positive)
  | OpStart (t : positive)
  | OpCall (t : positive)
  | OpFinish (t : positive)
  | OpAbandon (t : positive).

Definition afterRound (t : positive) (allow : bool) (h : hub) (r : rpcResultDeliveryCoordinator * replayRound) : hub :=
  match r.2 with
  | RoundNone => set_client t DIdle r.1 h
  | RoundClaim cl => set_client t (DHold cl) r.1 h
  | RoundWait ch => set_client t (DWait ch allow) r.1 h
  end.

(** One section of one thread; [None] when the thread is not there. *)
Definition dstep (o : dop) (h : hub) : option (Run hub) :=
  let c := coord h in
  match o with
  | OpSet f => Some (c ← setHook f c; Done (mkHub c (clients h) (calls h)))
  | OpDefer => Some (c ← deferHookToReplay c; Done (mkHub c (clients h) (calls h)))
  | OpReleaseDeferred => Some (c ← releaseDeferredHook c; Done (mkHub c (clients h) (calls h)))
  | OpAsync t =>
    match client_pc h t with
    | DIdle => Some ('(c, r) ← claimAsyncDeliveredHook c;
                     Done (set_client t (match r with Some cl => DHold cl | None => DIdle end) c h))
    | _ => None
    end
  | OpReplay t allow =>
    match client_pc h t with
    | DIdle => Some (r ← claimReplayRound allow c; Done (afterRound t allow h r))
    | _ => None
    end
  | OpWake t =>
    match client_pc h t with
    | DWait ch allow =>
      if bool_decide (chans c !! ch = Some true)
      then Some (r ← claimReplayRound allow c; Done (afterRound t allow h r)) else None
    | _ => None
    end
  | OpCancel t => match client_pc h t with DWait _ _ => Some (Done (set_client t DIdle c h)) | _ => None end
  | OpStart t =>
    match client_pc h t with
    | DHold cl => Some ('(c, ok) ← runStart cl c; Done (set_client t (if (ok : bool) then DCalling cl else DIdle) c h))
    | _ => None
    end
  | OpCall t =>
    match client_pc h t with
    | DCalling cl => Some (f ← deref (claims c !! cl); Done (mkHub c (<[t := DCalled cl]> (clients h)) (calls h ++ [f])))
    | _ => None
    end
  | OpFinish t =>
    match client_pc h t with
    | DCalled cl => Some (c ← runFinish cl c; Done (set_client t DIdle c h))
    | _ => None
    end
  | OpAbandon t =>
    match client_pc h t with
    | DHold cl => Some ('(c, _) ← abandon cl c; Done (set_client t DIdle c h))
    | _ => None
    end
  end.

Inductive dreachable : hub → Prop :=
  | dreach_init : dreachable (mkHub newCoordinator ∅ [])
  | dreach_step o h h' : dreachable h → dstep o h = Some (Done h') → dreachable h'.

(** *** Invariant *)

Definition active (s : rpcResultDeliveryHookState) : Prop := s = HookClaimed ∨ s = HookInProgress.

(** The coordinator on its own: [signalLocked] finds an open channel. *)
Record CInv (c : rpcResultDeliveryCoordinator) : Prop := {
  ci_fn : fn c = None ↔ state c = HookUnset ∨ state c = HookDone;
  ci_claim : is_Some (claim c) ↔ active (state c);
  ci_known cl : claim c = Some cl → claims c !! cl = fn c;
  ci_chan ch : changed c = Some ch → chans c !! ch = Some false;
  ci_open ch : chans c !! ch = Some false → changed c = Some ch;
}.

(** A thread waits on a closed channel (and will run) or for a good reason: the
    hook is in other hands, or reserved for the retarget that deferred it. *)
Definition waitJustified (c : rpcResultDeliveryCoordinator) (ch : positive) (allow : bool) : Prop :=
  chans c !! ch = Some true ∨
  (chans c !! ch = Some false ∧
   (active (state c) ∨ (state c = HookPending ∧ deferredToReplay c = true ∧ allow = false))).

Definition callingZ (p : dpc) : Z := match p with DCalling _ => 1 | _ => 0 end.
Definition calledZ (p : dpc) : Z := match p with DCalled _ => 1 | _ => 0 end.
Definition calling (h : hub) : Z := msum (λ _ p, callingZ p) (clients h).
Definition called (h : hub) : Z := msum (λ _ p, calledZ p) (clients h).

Record HInv (h : hub) : Prop := {
  hi_coord : CInv (coord h);
  hi_run : calling h + called h = if bool_decide (state (coord h) = HookInProgress) then 1 else 0;
  hi_calls : Z.of_nat (length (calls h)) = called h + if bool_decide (state (coord h) = HookDone) then 1 else 0;
  hi_mine t cl : clients h !! t = Some (DCalling cl) ∨ clients h !! t = Some (DCalled cl) → claim (coord h) = Some cl;
  hi_wait t ch allow : clients h !! t = Some (DWait ch allow) → waitJustified (coord h) ch allow;
}.

Lemma delivery_new_CInv : CInv newCoordinator.
Proof.
  unfold active. split; simpl; try done.
  - tauto.
  - split; [by intros [? ?]|intros [?|?]; done].
  - intros ch [= <-]. by rewrite lookup_singleton_eq.
  - intros ch [<- _]%lookup_singleton_Some. done.
Qed.

(** The channels after a signal: the old ones are closed. *)
Lemma signalLocked_ok c :
  (∀ ch, changed c = Some ch ↔ chans c !! ch = Some false) →
  ∃ ch chs, signalLocked c = Done (mkCoord (fn c) (state c) (claim c) ch (deferredToReplay c) (claims c) chs) ∧
    (∀ ch', ch = Some ch' ↔ chs !! ch' = Some false) ∧
    (∀ ch', is_Some (chans c !! ch') → chs !! ch' = Some true).
Proof.
  intros H. unfold signalLocked, makeChan.
  assert (Hfr : ∀ (m : gmap positive bool), m !! fresh (dom m) = None) by (intros m; apply not_elem_of_dom, is_fresh).
  destruct (changed c) as [ch|] eqn:Hch.
  - assert (Hopen : chans c !! ch = Some false) by by apply H. unfold closeChan. rewrite Hopen. simpl.
    assert (Hall : ∀ ch', is_Some (chans c !! ch') → <[ch:=true]> (chans c) !! ch' = Some true).
    { intros ch' [b Hb]. destruct (decide (ch = ch')) as [<-|Hne]; [by rewrite lookup_insert_eq|].
      rewrite lookup_insert_ne by done. destruct b; [done|]. apply H in Hb. congruence. }
    case_bool_decide.
    + eexists None, _. split; [done|]. split; [|done]. intros ch'. split; [done|]. intros Hb.
      destruct (decide (ch = ch')) as [<-|Hne]; [by rewrite lookup_insert_eq in Hb|].
      rewrite lookup_insert_ne in Hb by done. apply H in Hb. congruence.
    + eexists _, _. split; [done|]. set (n := fresh _).
      assert (Hn : <[ch:=true]> (chans c) !! n = None) by apply Hfr.
      split; [|intros ch' Hs; rewrite lookup_insert_ne; [by apply Hall|]; intros <-; by rewrite Hall in Hn].
      intros ch'. destruct (decide (n = ch')) as [<-|Hne]; [by rewrite lookup_insert_eq|].
      rewrite lookup_insert_ne by done. split; [congruence|]. intros Hb.
      destruct (decide (ch = ch')) as [<-|Hne']; [by rewrite lookup_insert_eq in Hb|].
      rewrite lookup_insert_ne in Hb by done. apply H in Hb. congruence.
  - eexists _, _. split; [done|]. set (n := fresh _).
    assert (Hn : chans c !! n = None) by apply Hfr. split.
    + intros ch'. destruct (decide (n = ch')) as [<-|Hne]; [by rewrite lookup_insert_eq|].
      rewrite lookup_insert_ne by done. split; [congruence|]. by intros ?%H.
    + intros ch' [b Hb]. rewrite lookup_insert_ne by congruence. destruct b; [done|]. by apply H in Hb.
Qed.

Lemma msum_dpc (f : dpc → Z) t p (m : gmap positive dpc) :
  f DIdle = 0 →
  msum (λ _ p, f p) (<[t := p]> m) = msum (λ _ p, f p) m - f (from_option id DIdle (m !! t)) + f p.
Proof.
  intros Hf. destruct (m !! t) as [q|] eqn:Ht; simpl.
  - rewrite (msum_update _ _ _ _ _ Ht). lia.
  - rewrite msum_insert by done. lia.
Qed.
Lemma client_pc_Some h t p : client_pc h t = p → p ≠ DIdle → clients h !! t = Some p.
Proof. unfold client_pc. intros <- Hne. destruct (clients h !! t); [done|by destruct Hne]. Qed.

Lemma delivery_waiter_chan h t ch allow :
  HInv h → clients h !! t = Some (DWait ch allow) → is_Some (chans (coord h) !! ch).
Proof. intros HI Ht. by destruct (hi_wait _ HI _ _ _ Ht) as [?|[? _]]; eexists. Qed.

(** A section that changes the hook and signals: whatever it writes, everyone
    who waited is woken. *)
Lemma delivery_signal_step h f st cl def cls cs log :
  let c := coord h in
  HInv h →
  (f = None ↔ st = HookUnset ∨ st = HookDone) → (is_Some cl ↔ active st) → (∀ x, cl = Some x → cls !! x = f) →
  (msum (λ _ p, callingZ p) cs + msum (λ _ p, calledZ p) cs = if bool_decide (st = HookInProgress) then 1 else 0) →
  (Z.of_nat (length log) = msum (λ _ p, calledZ p) cs + if bool_decide (st = HookDone) then 1 else 0) →
  (∀ t x, cs !! t = Some (DCalling x) ∨ cs !! t = Some (DCalled x) → cl = Some x) →
  (∀ t ch a, cs !! t = Some (DWait ch a) → clients h !! t = Some (DWait ch a)) →
  ∃ c', signalLocked (mkCoord f st cl (changed c) def cls (chans c)) = Done c' ∧ HInv (mkHub c' cs log).
Proof.
  intros c HI Hf Hcl Hk Hr Hl Hm Hw. pose proof (hi_coord _ HI) as [_ _ _ Hch Hop].
  destruct (signalLocked_ok (mkCoord f st cl (changed c) def cls (chans c))) as (ch & chs & -> & Hc & Hall).
  { simpl. split; auto. }
  eexists. split; [done|]. split; try done.
  - split; simpl; try done; intros ch'; apply Hc.
  - intros t ch' a Ht. left. simpl. apply Hall. simpl. by eapply delivery_waiter_chan, Hw.
Qed.

(** The places of a thread that has nothing to do with a running hook. *)
Definition calm (p : dpc) : bool := match p with DCalling _ | DCalled _ => false | _ => true end.
Lemma calm_zero p : calm p = true → callingZ p = 0 ∧ calledZ p = 0.
Proof. by destruct p. Qed.

Lemma delivery_calm_sums h t p :
  calm (client_pc h t) = true → calm p = true →
  msum (λ _ p, callingZ p) (<[t := p]> (clients h)) = calling h ∧
  msum (λ _ p, calledZ p) (<[t := p]> (clients h)) = called h.
Proof.
  unfold client_pc. intros [H1 H2]%calm_zero [H3 H4]%calm_zero.
  rewrite !msum_dpc by done. unfold calling, called. lia.
Qed.

(** A thread moves and the coordinator stays. *)
Lemma delivery_calm_step h t p :
  HInv h → calm (client_pc h t) = true → calm p = true →
  (∀ ch a, p = DWait ch a → waitJustified (coord h) ch a) → HInv (set_client t p (coord h) h).
Proof.
  intros HI H0 Hp Hw. destruct (delivery_calm_sums h t p H0 Hp) as [E1 E2].
  pose proof HI as [Hc Hr Hl Hm Hwt]. split; simpl; try done; unfold calling, called; simpl.
  - by rewrite E1, E2.
  - by rewrite E2.
  - intros t' x Ht'. apply (Hm t'). destruct (decide (t = t')) as [<-|Hne].
    + rewrite lookup_insert_eq in Ht'. destruct Ht' as [[= ->]|[= ->]]; done.
    + by rewrite lookup_insert_ne in Ht' by done.
  - intros t' ch a [[<- ->]|[_ ?]]%lookup_insert_Some; [by apply Hw|by eapply Hwt].
Qed.

(** Somebody runs the hook while a thread is at the call. *)
Lemma delivery_running h t x :
  HInv h → clients h !! t = Some (DCalling x) ∨ clients h !! t = Some (DCalled x) → state (coord h) = HookInProgress.
Proof.
  intros HI Hold. pose proof (hi_run _ HI) as Hr.
  assert (Hpos : 1 ≤ calling h + called h); [|rewrite Hr in Hpos; by case_bool_decide].
  assert (H1 : ∀ (t : positive) p, clients h !! t = Some p → 0 ≤ callingZ p) by (by intros ? []).
  assert (H2 : ∀ (t : positive) p, clients h !! t = Some p → 0 ≤ calledZ p) by (by intros ? []).
  pose proof (msum_nonneg _ _ H1). pose proof (msum_nonneg _ _ H2). unfold calling, called.
  destruct Hold as [Ho|Ho].
  - apply (msum_lookup_le (λ _ p, callingZ p) _ _ _ H1) in Ho. simpl in Ho. lia.
  - apply (msum_lookup_le (λ _ p, calledZ p) _ _ _ H2) in Ho. simpl in Ho. lia.
Qed.

(** The sections that change the hook without starting or finishing a call,
    while the threads stay or one of them moves between calm places. *)
Lemma delivery_keep_signal h cs f st cl def cls :
  let c := coord h in
  HInv h →
  (msum (λ _ p, callingZ p) cs = calling h ∧ msum (λ _ p, calledZ p) cs = called h ∧
   ∀ t p, cs !! t = Some p → clients h !! t = Some p ∨ (calm p = true ∧ ∀ ch a, p ≠ DWait ch a)) →
  (f = None ↔ st = HookUnset ∨ st = HookDone) → (is_Some cl ↔ active st) → (∀ x, cl = Some x → cls !! x = f) →
  (st = HookInProgress ↔ state c = HookInProgress) → (st = HookDone ↔ state c = HookDone) →
  (state c = HookInProgress → cl = claim c) →
  ∃ c', signalLocked (mkCoord f st cl (changed c) def cls (chans c)) = Done c' ∧ HInv (mkHub c' cs (calls h)).
Proof.
  intros c HI (E1 & E2 & Hcs) Hf Hcl Hk Hi Hd Hsame. pose proof HI as [Hc Hr Hl Hm Hwt].
  apply delivery_signal_step; try done.
  - by rewrite E1, E2, Hr, (bool_decide_ext _ _ Hi).
  - by rewrite E2, Hl, (bool_decide_ext _ _ Hd).
  - intros t' x Ht'. assert (Hold : clients h !! t' = Some (DCalling x) ∨ clients h !! t' = Some (DCalled x)).
    { destruct Ht' as [Ht'|Ht']; destruct (Hcs _ _ Ht') as [?|[? _]]; auto; done. }
    rewrite Hsame; [by eapply Hm|]. by eapply delivery_running.
  - intros t' ch a Ht'. destruct (Hcs _ _ Ht') as [?|[_ Hn]]; [done|]. by destruct (Hn ch a).
Qed.

Lemma delivery_moved h t p :
  calm (client_pc h t) = true → calm p = true → (∀ ch a, p ≠ DWait ch a) →
  let cs := <[t := p]> (clients h) in
  msum (λ _ p, callingZ p) cs = calling h ∧ msum (λ _ p, calledZ p) cs = called h ∧
  ∀ t' q, cs !! t' = Some q → clients h !! t' = Some q ∨ (calm q = true ∧ ∀ ch a, q ≠ DWait ch a).
Proof.
  intros H0 Hp Hn cs. destruct (delivery_calm_sums h t p H0 Hp). split; [done|]. split; [done|].
  intros t' q [[<- <-]|[_ ?]]%lookup_insert_Some; auto.
Qed.
Lemma delivery_unmoved h :
  let cs := clients h in
  msum (λ _ p, callingZ p) cs = calling h ∧ msum (λ _ p, calledZ p) cs = called h ∧
  ∀ t' q, cs !! t' = Some q → clients h !! t' = Some q ∨ (calm q = true ∧ ∀ ch a, q ≠ DWait ch a).
Proof. split; [done|]. split; [done|]. auto. Qed.

(** *** Every section keeps the invariant, and none panics *)

(** Closed facts about the states of a hook. *)
Ltac hook_facts :=
  solve [clear; unfold active, is_Some;
    intuition (try congruence; try (eexists; reflexivity);
               repeat match goal with H : ∃ _, _ |- _ => destruct H end; try congruence)].

Lemma delivery_hub_eta h : mkHub (coord h) (clients h) (calls h) = h.
Proof. by destruct h. Qed.

Lemma delivery_setHook_ok f h :
  HInv h → ∃ c', setHook f (coord h) = Done c' ∧ HInv (mkHub c' (clients h) (calls h)).
Proof.
  intros HI. pose proof HI as [[Hf Hcl Hk _ _] _ _ _ _]. unfold setHook.
  case_bool_decide as H1; simpl; [case_bool_decide as H2; simpl|]; try (eexists; split; [done|by rewrite delivery_hub_eta]).
  assert (Hst : state (coord h) = HookUnset) by (destruct Hf as [Hf _]; destruct (Hf H1); done).
  assert (Hno : claim (coord h) = None).
  { destruct (claim (coord h)) eqn:Hx; [|done]. rewrite Hst in Hcl. destruct Hcl as [Hcl _].
    destruct (Hcl ltac:(by eexists)); done. }
  apply delivery_keep_signal; rewrite ?Hst, ?Hno; auto using delivery_unmoved; try done; hook_facts.
Qed.

Lemma delivery_claimLocked_ok allow h :
  HInv h → ∃ c' r, claimLocked allow (coord h) = Done (c', r) ∧
    match r with
    | Some cl => ∀ t, calm (client_pc h t) = true → HInv (set_client t (DHold cl) c' h)
    | None => c' = coord h ∧ (fn (coord h) = None ∨ state (coord h) ≠ HookPending ∨
                (deferredToReplay (coord h) = true ∧ allow = false))
    end.
Proof.
  intros HI. pose proof HI as [[Hf Hcl Hk Hc1 Hc2] _ _ _ _]. unfold claimLocked.
  destruct (fn (coord h)) as [f|] eqn:Hfn; [|eexists _, None; split; [done|]; auto].
  case_bool_decide as Hp; simpl; [|eexists _, None; split; [done|]; auto].
  destruct (deferredToReplay (coord h) && negb allow) eqn:Hd.
  { eexists _, None. split; [done|]. split; [done|]. right. right. by destruct (deferredToReplay (coord h)), allow. }
  set (cl := fresh _). set (c1 := mkCoord _ _ _ _ _ _ _).
  assert (Hsig : ∀ cs, (msum (λ _ p, callingZ p) cs = calling h ∧ msum (λ _ p, calledZ p) cs = called h ∧
     ∀ t p, cs !! t = Some p → clients h !! t = Some p ∨ (calm p = true ∧ ∀ ch a, p ≠ DWait ch a)) →
     ∃ c', signalLocked c1 = Done c' ∧ HInv (mkHub c' cs (calls h))).
  { intros cs Hcs. apply delivery_keep_signal; rewrite ?Hp; try done; try hook_facts.
    intros x [= <-]. by rewrite lookup_insert_eq. }
  destruct (Hsig _ (delivery_unmoved h)) as (c' & Heq & _). exists c', (Some cl). rewrite Heq. split; [done|].
  intros t Ht. destruct (Hsig _ (delivery_moved h t (DHold cl) Ht eq_refl ltac:(done))) as (c2 & Heq' & HI').
  rewrite Heq in Heq'. by injection Heq' as <-.
Qed.

Lemma delivery_round_ok allow t h :
  HInv h → calm (client_pc h t) = true →
  ∃ r, claimReplayRound allow (coord h) = Done r ∧ HInv (afterRound t allow h r).
Proof.
  intros HI Ht. pose proof HI as [[Hf Hcl Hk Hc1 Hc2] _ _ _ _]. unfold claimReplayRound.
  assert (Hidle : HInv (set_client t DIdle (coord h) h)) by (by apply delivery_calm_step).
  case_bool_decide as Hfn; simpl; [by eexists|]. case_bool_decide as Hst; simpl; [by eexists|].
  destruct (delivery_claimLocked_ok allow h HI) as (c' & r & -> & Hr). simpl.
  destruct r as [cl|]; [eexists; split; [done|]; by apply Hr|]. destruct Hr as [-> Hwhy].
  assert (Hj : ∀ c ch, state c = state (coord h) → deferredToReplay c = deferredToReplay (coord h) →
    chans c !! ch = Some false → waitJustified c ch allow).
  { intros c ch Hs Hd Ho. right. split; [done|]. rewrite Hs, Hd.
    destruct Hwhy as [?|[Hnp|[? ?]]]; [done| |].
    - left. unfold active. destruct Hf as [_ Hf]. destruct (state (coord h)); auto; [|done|done].
      destruct Hfn. apply Hf. auto.
    - unfold active. destruct Hf as [_ Hf]. destruct (state (coord h)); auto; destruct Hfn; apply Hf; auto. }
  destruct (changed (coord h)) as [ch|] eqn:Hch.
  - rewrite Hch. simpl. eexists. split; [done|]. apply delivery_calm_step; [done|done|done|].
    intros ch' a [= <- <-]. apply Hj; auto.
  - simpl. eexists. split; [done|]. set (n := fresh _).
    assert (Hn : chans (coord h) !! n = None) by apply not_elem_of_dom, is_fresh.
    set (h1 := mkHub (makeChan (coord h)) (clients h) (calls h)).
    assert (HI1 : HInv h1).
    { pose proof HI as [_ Hr Hl Hm Hw]. split; try done.
      - split; simpl; try done; intros ch'.
        + intros [= <-]. by rewrite lookup_insert_eq.
        + intros [[<- _]|[_ Hb]]%lookup_insert_Some; [done|]. apply Hc2 in Hb. congruence.
      - intros t' ch a Hw'. destruct (Hw _ _ _ Hw') as [Hcl'|[Hop _]].
        + left. simpl. rewrite lookup_insert_ne; [done|]. intros Heq. assert (ch = n) as -> by done. congruence.
        + apply Hc2 in Hop. congruence. }
    apply (delivery_calm_step h1); [done|done|done|]. intros ch' a [= <- <-].
    apply Hj; simpl; [done|done|by rewrite lookup_insert_eq].
Qed.

Lemma delivery_defer_ok h :
  HInv h → ∃ c', deferHookToReplay (coord h) = Done c' ∧ HInv (mkHub c' (clients h) (calls h)).
Proof.
  intros HI. pose proof HI as [[Hf Hcl Hk _ _] _ _ _ _]. unfold deferHookToReplay.
  destruct (_ && _); [|eexists; split; [done|by rewrite delivery_hub_eta]].
  apply delivery_keep_signal; auto using delivery_unmoved; done.
Qed.
Lemma delivery_releaseDeferred_ok h :
  HInv h → ∃ c', releaseDeferredHook (coord h) = Done c' ∧ HInv (mkHub c' (clients h) (calls h)).
Proof.
  intros HI. pose proof HI as [[Hf Hcl Hk _ _] _ _ _ _]. unfold releaseDeferredHook.
  destruct (deferredToReplay _); [|eexists; split; [done|by rewrite delivery_hub_eta]].
  apply delivery_keep_signal; auto using delivery_unmoved; done.
Qed.

Lemma delivery_abandon_ok cl t h :
  HInv h → client_pc h t = DHold cl →
  ∃ r, abandon cl (coord h) = Done r ∧ HInv (set_client t DIdle r.1 h).
Proof.
  intros HI Ht. pose proof HI as [[Hf Hcl Hk _ _] _ _ _ _]. unfold abandon.
  assert (Hc : calm (client_pc h t) = true) by by rewrite Ht.
  case_bool_decide as H1; simpl; [|eexists; split; [done|by apply delivery_calm_step]].
  case_bool_decide as H2; simpl; [|eexists; split; [done|by apply delivery_calm_step]].
  destruct (delivery_keep_signal h _ (fn (coord h)) HookPending None (deferredToReplay (coord h)) (claims (coord h)) HI
    (delivery_moved h t DIdle Hc eq_refl ltac:(done))) as (c' & -> & HI'); rewrite ?H2 in *; try done; try hook_facts.
  - rewrite Hf. hook_facts.
  - simpl. eexists. split; [done|]. done.
Qed.

Lemma delivery_runStart_ok cl t h :
  HInv h → client_pc h t = DHold cl →
  ∃ c' ok, runStart cl (coord h) = Done (c', ok) ∧ HInv (set_client t (if ok then DCalling cl else DIdle) c' h).
Proof.
  intros HI Ht. pose proof HI as [[Hf Hcl Hk _ _] _ _ Hm _]. unfold runStart.
  assert (Hc : calm (client_pc h t) = true) by by rewrite Ht.
  case_bool_decide as H1; simpl; [|eexists _, false; split; [done|by apply delivery_calm_step]].
  case_bool_decide as H2; simpl; [|eexists _, false; split; [done|by apply delivery_calm_step]].
  assert (Hpc := client_pc_Some _ _ _ Ht ltac:(done)).
  pose proof (hi_run _ HI) as Hr. pose proof (hi_calls _ HI) as Hl. rewrite H2 in *. rewrite bool_decide_false in Hr, Hl by done.
  destruct (delivery_signal_step h (fn (coord h)) HookInProgress (claim (coord h)) (deferredToReplay (coord h))
    (claims (coord h)) (<[t := DCalling cl]> (clients h)) (calls h) HI) as (c' & -> & HI').
  - rewrite Hf. hook_facts.
  - rewrite H1. hook_facts.
  - done.
  - rewrite !msum_dpc, Hpc, bool_decide_true by done. simpl. unfold calling, called in Hr. lia.
  - rewrite !msum_dpc, Hpc, bool_decide_false by done. simpl. unfold called in Hl. lia.
  - intros t' x Ht'. destruct (decide (t = t')) as [<-|Hne].
    + rewrite lookup_insert_eq in Ht'. destruct Ht' as [[= <-]|[=]]. exact H1.
    + rewrite lookup_insert_ne in Ht' by done. by eapply Hm.
  - intros t' ch a [[<- ?]|[_ ?]]%lookup_insert_Some; done.
  - simpl. by eexists _, true.
Qed.

(** The call: the thread that runs the hook of the current claim logs it. *)
Lemma delivery_call_ok cl t h :
  HInv h → client_pc h t = DCalling cl →
  ∃ f, claims (coord h) !! cl = Some f ∧ HInv (mkHub (coord h) (<[t := DCalled cl]> (clients h)) (calls h ++ [f])).
Proof.
  intros HI Ht. assert (Hpc := client_pc_Some _ _ _ Ht ltac:(done)).
  pose proof HI as [HC Hr Hl Hm Hw]. pose proof HC as [Hf Hcl Hk _ _].
  assert (Hst := delivery_running h t cl HI (or_introl Hpc)). assert (Hmine := Hm t cl (or_introl Hpc)).
  destruct (fn (coord h)) as [f|] eqn:Hfn.
  2:{ exfalso. destruct Hf as [Hf _]. rewrite Hst in Hf. by destruct (Hf eq_refl). }
  exists f. split; [by apply Hk|]. rewrite Hst in Hr, Hl. rewrite bool_decide_true in Hr by done.
  rewrite bool_decide_false in Hl by done. unfold calling, called in *. split; simpl; try done.
  - rewrite Hst, bool_decide_true by done. unfold calling, called. simpl. rewrite !msum_dpc, Hpc by done. simpl. lia.
  - rewrite Hst, bool_decide_false by done. unfold called. simpl. rewrite length_app, msum_dpc, Hpc by done. simpl. lia.
  - intros t' x Ht'. destruct (decide (t = t')) as [<-|Hne].
    + rewrite lookup_insert_eq in Ht'. destruct Ht' as [[=]|[= <-]]. exact Hmine.
    + rewrite lookup_insert_ne in Ht' by done. by eapply Hm.
  - intros t' ch a [[<- ?]|[_ ?]]%lookup_insert_Some; [done|by eapply Hw].
Qed.

Lemma delivery_finish_ok cl t h :
  HInv h → client_pc h t = DCalled cl →
  ∃ c', runFinish cl (coord h) = Done c' ∧ HInv (set_client t DIdle c' h).
Proof.
  intros HI Ht. assert (Hpc := client_pc_Some _ _ _ Ht ltac:(done)).
  pose proof HI as [HC Hr Hl Hm Hw].
  assert (Hst := delivery_running h t cl HI (or_intror Hpc)). assert (Hmine := Hm t cl (or_intror Hpc)).
  unfold runFinish. rewrite (bool_decide_true _ Hmine), (bool_decide_true _ Hst). simpl.
  rewrite Hst in Hr, Hl. rewrite bool_decide_true in Hr by done. rewrite bool_decide_false in Hl by done.
  assert (H1 : ∀ (t : positive) p, clients h !! t = Some p → 0 ≤ callingZ p) by (by intros ? []).
  pose proof (msum_nonneg _ _ H1) as Hc0. unfold calling, called in *.
  assert (H2 : ∀ (t : positive) p, clients h !! t = Some p → 0 ≤ calledZ p) by (by intros ? []).
  assert (Hc1 := msum_lookup_le (λ _ p, calledZ p) _ _ _ H2 Hpc). simpl in Hc1.
  apply delivery_signal_step; try done; try hook_facts.
  - rewrite !msum_dpc, Hpc, bool_decide_false by done. simpl. lia.
  - rewrite msum_dpc, Hpc, bool_decide_true by done. simpl. lia.
  - intros t' x Ht'. exfalso. destruct (decide (t = t')) as [<-|Hne].
    { rewrite lookup_insert_eq in Ht'. by destruct Ht'. }
    rewrite lookup_insert_ne in Ht' by done.
    assert (0 ≤ msum (λ _ p, calledZ p) (delete t (clients h))).
    { apply msum_nonneg. by intros ? []. }
    rewrite (msum_delete _ _ _ _ Hpc) in *. simpl in *.
    destruct Ht' as [Ht'|Ht'].
    + apply (msum_lookup_le (λ _ p, callingZ p) _ _ _ H1) in Ht'. simpl in Ht'. lia.
    + assert (Hd : delete t (clients h) !! t' = Some (DCalled x)) by (rewrite lookup_delete_ne by done; done).
      apply (msum_lookup_le (λ _ p, calledZ p)) in Hd; [|by intros ? []].
      rewrite (msum_delete _ _ _ _ Hpc) in Hd. simpl in Hd. lia.
  - intros t' ch a [[<- ?]|[_ ?]]%lookup_insert_Some; done.
Qed.

Lemma delivery_dstep_ok o h r : HInv h → dstep o h = Some r → ∃ h', r = Done h' ∧ HInv h'.
Proof.
  intros HI. destruct o as [f| | |t|t allow|t|t|t|t|t|t]; simpl.
  - intros [= <-]. destruct (delivery_setHook_ok f h HI) as (c' & -> & ?). by eexists.
  - intros [= <-]. destruct (delivery_defer_ok h HI) as (c' & -> & ?). by eexists.
  - intros [= <-]. destruct (delivery_releaseDeferred_ok h HI) as (c' & -> & ?). by eexists.
  - destruct (client_pc h t) eqn:Ht; try done. intros [= <-]. unfold claimAsyncDeliveredHook.
    destruct (delivery_claimLocked_ok false h HI) as (c' & [cl|] & -> & Hr); simpl; (eexists; split; [done|]).
    + apply Hr. by rewrite Ht.
    + destruct Hr as [-> _]. apply delivery_calm_step; [done|by rewrite Ht|done|done].
  - destruct (client_pc h t) eqn:Ht; try done. intros [= <-].
    destruct (delivery_round_ok allow t h HI) as (r' & -> & ?); [by rewrite Ht|]. by eexists.
  - destruct (client_pc h t) as [| | | |ch allow] eqn:Ht; try done. case_bool_decide; [|done]. intros [= <-].
    destruct (delivery_round_ok allow t h HI) as (r' & -> & ?); [by rewrite Ht|]. by eexists.
  - destruct (client_pc h t) eqn:Ht; try done. intros [= <-]. eexists. split; [done|].
    apply delivery_calm_step; [done|by rewrite Ht|done|done].
  - destruct (client_pc h t) eqn:Ht; try done. intros [= <-].
    destruct (delivery_runStart_ok cl t h HI Ht) as (c' & ok & -> & ?). by eexists.
  - destruct (client_pc h t) eqn:Ht; try done. intros [= <-].
    destruct (delivery_call_ok cl t h HI Ht) as (f & -> & ?). by eexists.
  - destruct (client_pc h t) eqn:Ht; try done. intros [= <-].
    destruct (delivery_finish_ok cl t h HI Ht) as (c' & -> & ?). by eexists.
  - destruct (client_pc h t) eqn:Ht; try done. intros [= <-].
    destruct (delivery_abandon_ok cl t h HI Ht) as ([c' b] & -> & ?). by eexists.
Qed.

Lemma delivery_init_HInv : HInv (mkHub newCoordinator ∅ []).
Proof.
  split; try done; [apply delivery_new_CInv|].
  intros t cl [Ht|Ht]; simpl in Ht; by rewrite lookup_empty in Ht.
Qed.
Lemma delivery_reachable_HInv h : dreachable h → HInv h.
Proof.
  induction 1 as [|o h h' _ IH Hs]; [apply delivery_init_HInv|].
  destruct (delivery_dstep_ok _ _ _ IH Hs) as (h2 & [= <-] & ?). done.
Qed.

(** C10: the post-response hook of a logical RPC result.  In every interleaving
    of deliveries, replays, retargets, cancellations and abandoned claims the
    hook is called at most once, it has been called exactly once when the
    coordinator says it is done, no section panics (no channel is closed
    twice), and a replay that still waits on an open channel waits because the hook is in
    another thread's hands or deferred to the retarget that owns it: a finished or
    claimable hook never leaves a waiter behind. *)
Theorem delivery_hook_at_most_once (h : hub) :
  dreachable h →
  (length (calls h) ≤ 1)%nat ∧
  (state (coord h) = HookDone → length (calls h) = 1%nat) ∧
  (∀ o r, dstep o h = Some r → r ≠ Panicked) ∧
  (∀ t ch allow, clients h !! t = Some (DWait ch allow) → chans (coord h) !! ch = Some false →
     active (state (coord h)) ∨ (state (coord h) = HookPending ∧ deferredToReplay (coord h) = true ∧ allow = false)).
Proof.
  intros Hr. assert (HI := delivery_reachable_HInv h Hr). pose proof HI as [_ Hrun Hl _ Hw].
  assert (H1 : ∀ (t : positive) p, clients h !! t = Some p → 0 ≤ callingZ p) by (by intros ? []).
  assert (H2 : ∀ (t : positive) p, clients h !! t = Some p → 0 ≤ calledZ p) by (by intros ? []).
  pose proof (msum_nonneg _ _ H1) as Hc1. pose proof (msum_nonneg _ _ H2) as Hc2. unfold calling, called in *.
  split; [|split; [|split]].
  - destruct (decide (state (coord h) = HookDone)) as [Hd|Hd].
    + rewrite Hd in *. rewrite bool_decide_false in Hrun by done. rewrite bool_decide_true in Hl by done. lia.
    + rewrite (bool_decide_false _ Hd) in Hl. case_bool_decide; lia.
  - intros Hd. rewrite Hd in *. rewrite bool_decide_false in Hrun by done. rewrite bool_decide_true in Hl by done. lia.
  - intros o r Hs ->. destruct (delivery_dstep_ok _ _ _ HI Hs) as (? & ? & _). done.
  - intros t ch allow Ht Ho. destruct (Hw _ _ _ Ht) as [?|[_ ?]]; [congruence|done].
Qed.

(** *** Concrete schedules *)

Fixpoint druns (os : list dop) (h : hub) : option hub :=
  match os with
  | [] => Some h
  | o :: os => match dstep o h with Some (Done h) => druns os h | _ => None end
  end.
Lemma druns_reachable os h h' : dreachable h → druns os h = Some h' → dreachable h'.
Proof.
  revert h. induction os as [|o os IH]; simpl; [congruence|]. intros h Hr Hrun.
  destruct (dstep o h) as [[h1|]|] eqn:Hs; [|done|done]. apply (IH h1); [|done]. by eapply dreach_step.
Qed.

(** ** The written id is frozen *)

(** What may happen to an attempt once the actor has started its write. *)
Inductive lateOp :=
  | LateRetarget (reqMsgID : Z)
  | LateQueued
  | LateReplayable
  | LateAttemptHook (f : callback)
  | LatePrepare (reserved : option positive) (before : rpcResultDeliveryCoordinator)
  | LateDelivered (fallback : option positive) (submitted : bool).
Definition lateStep (o : lateOp) (dc : rpcResultDelivery * rpcResultDeliveryCoordinator)
    : Run (rpcResultDelivery * rpcResultDeliveryCoordinator * bool) :=
  let '(d, c) := dc in
  match o with
  | LateRetarget r => '(d, c, ok, _) ← tryRetarget r d c; Done (d, c, ok)
  | LateQueued => Done (markQueued d, c, true)
  | LateReplayable => Done ((markReplayable d).1, c, true)
  | LateAttemptHook f => Done (setAttemptDeliveryHook f d, c, true)
  | LatePrepare t c0 => Done ((prepareDeliveryHook t d c0 c).1, c, true)
  | LateDelivered t ok => '(d, c, _, _) ← markDelivered t ok d c; Done (d, c, true)
  end.
Fixpoint lateSteps (os : list lateOp) (dc : rpcResultDelivery * rpcResultDeliveryCoordinator)
    : Run (rpcResultDelivery * rpcResultDeliveryCoordinator * list bool) :=
  match os with
  | [] => Done (dc, [])
  | o :: os => '(d, c, ok) ← lateStep o dc; '(dc, oks) ← lateSteps os (d, c); Done (dc, ok :: oks)
  end.

(** The states an attempt can be in after [beginWriting]. *)
Definition started (d : rpcResultDelivery) : Prop := d_state d ≠ Prepared ∧ d_state d ≠ Queued.

Lemma lateStep_keeps o d c d' c' ok :
  started d → lateStep o (d, c) = Done (d', c', ok) →
  started d' ∧ targetReqMsgID d' = targetReqMsgID d ∧ writtenReqMsgID d' = writtenReqMsgID d ∧
  (∀ r, o = LateRetarget r → ok = false ∧ d' = d ∧ c' = c).
Proof.
  intros [Hp Hq]. destruct o as [r| | |f|t c0|t sub]; simpl.
  - unfold tryRetarget. rewrite !(bool_decide_false (d_state d = _)) by done. simpl.
    case_bool_decide; simpl; intros [= <- <- <-]; (split; [by split|]); auto.
  - unfold markQueued. rewrite bool_decide_false by done. intros [= <- <- <-]. by repeat split.
  - intros [= <- <- <-]. unfold started. simpl. case_bool_decide as Hd; by rewrite ?Hd.
  - unfold setAttemptDeliveryHook, started. intros [= <- <- <-]. by destruct (attemptHook d).
  - unfold prepareDeliveryHook, started. intros [= <- <- <-].
    destruct (_ || _); [done|]. destruct t; [|done]. by destruct (negb _).
  - unfold markDelivered. destruct (claimAsyncDeliveredHook c) as [[c1 cl]|]; simpl; [|done].
    destruct (_ && _); simpl; [intros [= <- <- <-]; by unfold started|].
    destruct (match cl with Some _ => _ | None => _ end) as [c2|]; simpl;
      repeat case_match; simpl; try done; intros [= <- <- <-]; by unfold started.
Qed.

Lemma beginWriting_id r d : r ≠ 0 → (beginWriting r d).2 ≠ 0.
Proof. unfold beginWriting. simpl. intros Hr. by case_bool_decide. Qed.

(** Once the actor has started to write a result for request [beginWriting d],
    no retarget succeeds and the id that is reported as written is the one in
    the frame, whatever happens to the attempt afterwards. *)
Lemma delivery_written_id_frozen (reqMsgID : Z) (d : rpcResultDelivery) c os d' c' oks :
  reqMsgID ≠ 0 →
  lateSteps os ((beginWriting reqMsgID d).1, c) = Done ((d', c'), oks) →
  writtenRequestID reqMsgID d' = (beginWriting reqMsgID d).2 ∧
  ∀ i r, os !! i = Some (LateRetarget r) → oks !! i = Some false.
Proof.
  intros Hreq Hrun. set (id := (beginWriting reqMsgID d).2).
  assert (Hid : id ≠ 0) by by apply beginWriting_id.
  assert (Hgen : ∀ os d0 c0 oks0, started d0 → writtenReqMsgID d0 = id → lateSteps os (d0, c0) = Done ((d', c'), oks0) →
    writtenReqMsgID d' = id ∧ ∀ i r, os !! i = Some (LateRetarget r) → oks0 !! i = Some false).
  { clear os Hrun oks. induction os as [|o os IH]; intros d0 c0 oks0 Hs Hw Hrun; cbn [lateSteps] in Hrun.
    - injection Hrun as -> -> <-. by split.
    - destruct (lateStep o (d0, c0)) as [[[d1 c1] ok]|] eqn:Ho; cbn [mbind run_bind] in Hrun; [|done].
      destruct (lateSteps os (d1, c1)) as [[[d2 c2] oks1]|] eqn:Hos; cbn [mbind run_bind] in Hrun; [|done].
      injection Hrun as -> -> <-. destruct (lateStep_keeps _ _ _ _ _ _ Hs Ho) as (Hs1 & _ & Hw1 & Hr1).
      destruct (IH d1 c1 oks1 Hs1 ltac:(congruence) Hos) as [? Hi]. split; [done|].
      intros [|i] r; simpl; [|apply Hi]. intros [= ->]. by destruct (Hr1 r eq_refl) as [-> _]. }
  assert (Hst : started (beginWriting reqMsgID d).1) by by unfold started.
  destruct (Hgen os _ c oks Hst eq_refl Hrun) as [Hw Hr].
  split; [|done]. unfold writtenRequestID. rewrite Hw. by rewrite !(bool_decide_false (id = 0)) by done.
Qed.

End Delivery.

Module DeliveryRuns.
Import Delivery.

(** A delivery claims the hook, a replay waits for it, the hook runs, the
    replay finds it done. *)
Definition once : list dop :=
  [OpSet 7; OpAsync 1; OpReplay 2 false; OpStart 1; OpWake 2; OpCall 1; OpFinish 1; OpWake 2; OpSet 8; OpReplay 3 true].

Lemma delivery_hook_at_most_once_witness :
  match druns once (mkHub newCoordinator ∅ []) with
  | Some h => calls h = [7%positive] ∧ state (coord h) = HookDone ∧ (length (calls h) ≤ 1)%nat
  | None => False
  end.
Proof.
  assert (Hr : ∀ h, druns once (mkHub newCoordinator ∅ []) = Some h → dreachable h)
    by (intros h; apply druns_reachable, dreach_init).
  destruct (druns once _) as [h|] eqn:Hd; [|vm_compute in Hd; discriminate Hd].
  pose proof (proj1 (delivery_hook_at_most_once h (Hr h eq_refl))) as Hle.
  vm_compute in Hd. injection Hd as <-. split; [reflexivity|]. split; [reflexivity|]. exact Hle.
Defined.

(** An abandoned claim leaves the hook for the next replay. *)
Example delivery_abandoned_is_retried :
  calls <$> druns [OpSet 7; OpAsync 1; OpReplay 2 false; OpAbandon 1; OpWake 2; OpStart 2; OpCall 2; OpFinish 2]
    (mkHub newCoordinator ∅ []) = Some [7%positive].
Proof. reflexivity. Qed.

(** A retarget before the write moves the id, and defers the hook to the alias. *)
Example delivery_retarget_before_write :
  (r ← tryRetarget 9 (newRPCResultDelivery 5) newCoordinator; Done (beginWriting 5 r.1.1.1).2) = Done 9.
Proof. reflexivity. Qed.

End DeliveryRuns.
