(* ===== verification/OutboundState.v ===== *)
(** * The resend state of a logical session

    [internal/mtprotoedge/outbound.go], [outboundState]: every content-related
    server message stays here, with its reserved bytes and its bulk credit,
    until the client acknowledges it.  The byte budgets are shared by all
    sessions and live in an environment next to the state; a frame is stored
    by value because only the owner of the state's lock reaches it. *)

From S2P Require Import Prelude BulkScheduler BulkProps TrackedBudget.

Module Outbound.

Definition maxTrackedServerMsgIDs : Z := 4096.
Definition maxTrackedAckedMsgIDs : nat := 1024.
Definition maxTrackedServerBytes : Z := 64 * 2 ^ 20.
Definition defaultBulkACKWindow : Z := 32.
Definition outboundReplayDescriptorCharge : Z := 2 ^ 10.
Definition msgStateReceived : Z := 4.

(** The MTProto constructor ids come from the protocol library. *)
Class TypeIDs := {
  MsgsAckTypeID : Z; PongTypeID : Z; FutureSaltsTypeID : Z; BadMsgNotificationTypeID : Z;
  BadServerSaltTypeID : Z; MsgsStateInfoTypeID : Z; MsgsAllInfoTypeID : Z; MsgDetailedInfoTypeID : Z;
  MsgNewDetailedInfoTypeID : Z; MessageContainerTypeID : Z; NewSessionCreatedTypeID : Z;
  DestroySessionOkTypeID : Z; DestroySessionNoneTypeID : Z; RPCAnswerUnknownTypeID : Z;
  RPCAnswerDroppedRunningTypeID : Z; RPCAnswerDroppedTypeID : Z; ResultTypeID : Z;
}.

Inductive outboundPriority := PriorityNormal | PriorityCritical | PriorityBulk | PriorityControl.
#[export] Instance outboundPriority_eq_dec : EqDecision outboundPriority.
Proof. solve_decision. Defined.

Inductive outboundLayerBindingKind := BindingSession | BindingRequest.
#[export] Instance outboundLayerBindingKind_eq_dec : EqDecision outboundLayerBindingKind.
Proof. solve_decision. Defined.
Record outboundLayerBinding := mkBinding {
  profile : Z; wireInvariant : bool; kind : outboundLayerBindingKind; epoch : Z }.

(** A replay source, by the address of the value and what it says it retains. *)
Record ReplaySource := mkSource { source : positive; RetainedBytes : Z }.
#[export] Instance ReplaySource_eq_dec : EqDecision ReplaySource.
Proof. solve_decision. Defined.

Record outboundFrame := mkFrame {
  msgID : Z;
  seqNo : Z;
  typeID : Z;
  body : list Z;
  reservedBytes : Z;
  reservationBudget : option positive;
  reqMsgID : Z;
  priority : outboundPriority;
  delivery : option positive;
  compressed : bool;
  uncompressedBytes : Z;
  replaySource : option ReplaySource;
  innerDigest : Z;
  logicalBytes : Z;
  bulkCredit : option positive;
  layer : option outboundLayerBinding;
  layerInvariant : bool;
  sentAt : Z;
  sends : Z;
}.

Definition set_reservation (n : Z) (b : option positive) (f : outboundFrame) : outboundFrame :=
  mkFrame (msgID f) (seqNo f) (typeID f) (body f) n b (reqMsgID f) (priority f) (delivery f) (compressed f)
    (uncompressedBytes f) (replaySource f) (innerDigest f) (logicalBytes f) (bulkCredit f) (layer f)
    (layerInvariant f) (sentAt f) (sends f).
Definition set_body (bs : list Z) (f : outboundFrame) : outboundFrame :=
  mkFrame (msgID f) (seqNo f) (typeID f) bs (reservedBytes f) (reservationBudget f) (reqMsgID f) (priority f)
    (delivery f) (compressed f) (uncompressedBytes f) (replaySource f) (innerDigest f) (logicalBytes f)
    (bulkCredit f) (layer f) (layerInvariant f) (sentAt f) (sends f).
Definition set_sent (at_ n : Z) (f : outboundFrame) : outboundFrame :=
  mkFrame (msgID f) (seqNo f) (typeID f) (body f) (reservedBytes f) (reservationBudget f) (reqMsgID f) (priority f)
    (delivery f) (compressed f) (uncompressedBytes f) (replaySource f) (innerDigest f) (logicalBytes f)
    (bulkCredit f) (layer f) (layerInvariant f) at_ n.

Definition blen (bs : list Z) : Z := Z.of_nat (length bs).
Definition logicalSize (f : outboundFrame) : Z :=
  if bool_decide (logicalBytes f > 0) then logicalBytes f else blen (body f).

(** The bulk window of the state runs the code of the bulk scheduler over
    credits instead of leases: same counter, queue and notifications. *)
Record outboundState := mkState {
  pending : gmap Z outboundFrame;
  order : list Z;
  byRequest : gmap Z Z;
  acked : gset Z;
  ackOrder : list Z;
  ackOrderHead : nat;
  totalBytes : Z;
  maxMessages : Z;
  maxBytes : Z;
  budget : positive;
  sentContentMessages : Z;
  lastMsgID : Z;
  window : Bulk.bulkRPCScheduler;
}.

Definition newOutboundStateWithLimits (b : positive) (maxM maxB : Z) : outboundState :=
  mkState ∅ [] ∅ ∅ [] 0 0 maxM maxB b 0 0 (Bulk.newBulkRPCScheduler defaultBulkACKWindow).
Definition newOutboundState (b : positive) : outboundState :=
  newOutboundStateWithLimits b maxTrackedServerMsgIDs maxTrackedServerBytes.

Definition set_pending (m : gmap Z outboundFrame) (s : outboundState) : outboundState :=
  mkState m (order s) (byRequest s) (acked s) (ackOrder s) (ackOrderHead s) (totalBytes s) (maxMessages s)
    (maxBytes s) (budget s) (sentContentMessages s) (lastMsgID s) (window s).
Definition set_window (w : Bulk.bulkRPCScheduler) (s : outboundState) : outboundState :=
  mkState (pending s) (order s) (byRequest s) (acked s) (ackOrder s) (ackOrderHead s) (totalBytes s)
    (maxMessages s) (maxBytes s) (budget s) (sentContentMessages s) (lastMsgID s) w.
Definition set_order (o : list Z) (s : outboundState) : outboundState :=
  mkState (pending s) o (byRequest s) (acked s) (ackOrder s) (ackOrderHead s) (totalBytes s)
    (maxMessages s) (maxBytes s) (budget s) (sentContentMessages s) (lastMsgID s) (window s).

(** ** The shared environment *)

(** The budgets of the server, and the calls of bulk-credit callbacks made. *)
Record env := mkEnv {
  budgets : gmap positive Tracked.outboundTrackedBudget;
  notices : list Bulk.notice;
}.
Definition releaseBudget (b : positive) (n : Z) (e : env) : Run env :=
  bud ← deref (budgets e !! b);
  bud ← Tracked.release n bud;
  Done (mkEnv (<[b := bud]> (budgets e)) (notices e)).
Definition reserveBudget (b : positive) (n : Z) (e : env) : Run (env * bool) :=
  bud ← deref (budgets e !! b);
  let '(bud, ok) := Tracked.reserve n bud in
  Done (mkEnv (<[b := bud]> (budgets e)) (notices e), ok).

(** ** Bulk credits *)

Definition reserveBulkCredit (s : outboundState) : outboundState * positive :=
  let w := window s in
  let w := if bool_decide (Bulk.max w ≤ 0)
           then Bulk.mkScheduler defaultBulkACKWindow (Bulk.inUse w) (Bulk.waiters w) (Bulk.closed w) (Bulk.leases w)
           else w in
  let '(w, l) := Bulk.reserve w in (set_window w s, l).
Definition releaseCredit (l : positive) (s : outboundState) (e : env) : Run (outboundState * env) :=
  '(w, ns) ← Bulk.release l (window s);
  Done (set_window w s, mkEnv (budgets e) (notices e ++ ns)).
Definition closeBulkWindow (s : outboundState) (e : env) : Run (outboundState * env) :=
  '(w, ns) ← Bulk.close (window s);
  Done (set_window w s, mkEnv (budgets e) (notices e ++ ns)).
Definition releaseCreditOf (f : outboundFrame) (s : outboundState) (e : env) : Run (outboundState * env) :=
  match bulkCredit f with Some l => releaseCredit l s e | None => Done (s, e) end.

(** [frame.releaseReservation]; the frame is dropped right after. *)
Definition releaseReservation (default : positive) (f : outboundFrame) (e : env) : Run env :=
  if bool_decide (reservedBytes f ≤ 0) then Done e
  else releaseBudget (from_option id default (reservationBudget f)) (reservedBytes f) e.

(** ** Acknowledgement bookkeeping *)

Definition isKnown (id : Z) (s : outboundState) : bool :=
  bool_decide (is_Some (pending s !! id)) || bool_decide (id ∈ acked s).
Definition stateInfo (ids : list Z) (s : outboundState) : list Z :=
  map (λ id, if isKnown id s then msgStateReceived else 0) ids.

(** The ring of acknowledged ids. *)
Definition markAcked (id : Z) (s : outboundState) : Run outboundState :=
  if bool_decide (id ∈ acked s) then Done s
  else
    let ak := {[ id ]} ∪ acked s in
    if bool_decide (length (ackOrder s) < maxTrackedAckedMsgIDs)%nat then
      Done (mkState (pending s) (order s) (byRequest s) ak (ackOrder s ++ [id]) (ackOrderHead s) (totalBytes s)
              (maxMessages s) (maxBytes s) (budget s) (sentContentMessages s) (lastMsgID s) (window s))
    else
      oldest ← deref (ackOrder s !! ackOrderHead s);
      Done (mkState (pending s) (order s) (byRequest s) (ak ∖ {[ oldest ]}) (<[ackOrderHead s := id]> (ackOrder s))
              ((ackOrderHead s + 1) mod length (ackOrder s)) (totalBytes s)
              (maxMessages s) (maxBytes s) (budget s) (sentContentMessages s) (lastMsgID s) (window s)).

Definition removePending (id : Z) (s : outboundState) (e : env) : Run (outboundState * env * bool) :=
  match pending s !! id with
  | None => Done (s, e, false)
  | Some f =>
    let br := if bool_decide (reqMsgID f ≠ 0) && bool_decide (byRequest s !! reqMsgID f = Some id)
              then delete (reqMsgID f) (byRequest s) else byRequest s in
    let s := mkState (delete id (pending s)) (order s) br (acked s) (ackOrder s) (ackOrderHead s)
               (totalBytes s - logicalSize f) (maxMessages s) (maxBytes s) (budget s) (sentContentMessages s)
               (lastMsgID s) (window s) in
    '(s, e) ← releaseCreditOf f s e;
    e ← releaseReservation (budget s) f e;
    Done (s, e, true)
  end.

Definition compactOrder (s : outboundState) : outboundState :=
  set_order (filter (λ id, is_Some (pending s !! id)) (order s)) s.

Record outboundAcknowledgement := mkAck { a_reqMsgID : Z; a_bytes : Z; a_sentAt : Z }.
Fixpoint ackLoop (ids : list Z) (s : outboundState) (e : env) : Run (outboundState * env * list outboundAcknowledgement) :=
  match ids with
  | [] => Done (s, e, [])
  | id :: ids =>
    match pending s !! id with
    | None => ackLoop ids s e
    | Some f =>
      let detail := mkAck (reqMsgID f) (logicalSize f) (sentAt f) in
      '(s, e, ok) ← removePending id s e;
      if (ok : bool) then
        s ← markAcked id s;
        '(s, e, acks) ← ackLoop ids s e;
        Done (s, e, detail :: acks)
      else ackLoop ids s e
    end
  end.
Definition ackWithDetails (ids : list Z) (s : outboundState) (e : env)
    : Run (outboundState * env * list outboundAcknowledgement) :=
  '(s, e, acks) ← ackLoop ids s e;
  Done (if bool_decide (Z.of_nat (length (order s)) > maxMessages s * 2) then compactOrder s else s, e, acks).
Definition ack (ids : list Z) (s : outboundState) (e : env) : Run (outboundState * env * list Z) :=
  '(s, e, details) ← ackWithDetails ids s e;
  Done (s, e, filter (λ r, r ≠ 0) (map a_reqMsgID details)).

(** [releaseAll]: the window closes, then every frame gives back what it holds. *)
Fixpoint releaseFrames (fs : list outboundFrame) (s : outboundState) (e : env) : Run (outboundState * env) :=
  match fs with
  | [] => Done (s, e)
  | f :: fs =>
    '(s, e) ← releaseCreditOf f s e;
    e ← releaseReservation (budget s) f e;
    releaseFrames fs s e
  end.
Definition releaseAll (s : outboundState) (e : env) : Run (outboundState * env) :=
  '(s, e) ← closeBulkWindow s e;
  '(s, e) ← releaseFrames (map snd (map_to_list (pending s))) s e;
  Done (mkState ∅ [] ∅ ∅ [] 0 0 (maxMessages s) (maxBytes s) (budget s) (sentContentMessages s) (lastMsgID s) (window s), e).

(** ** Admission *)

Section ids.
Context `{TypeIDs}.

Definition frameNeedsAck (t : Z) : bool :=
  negb (bool_decide (t ∈ [MsgsAckTypeID; PongTypeID; FutureSaltsTypeID; BadMsgNotificationTypeID; BadServerSaltTypeID;
    MsgsStateInfoTypeID; MsgsAllInfoTypeID; MsgDetailedInfoTypeID; MsgNewDetailedInfoTypeID; MessageContainerTypeID])).
Definition encodedControlFrame (t : Z) : bool :=
  bool_decide (t ∈ [MsgsAckTypeID; PongTypeID; FutureSaltsTypeID; BadMsgNotificationTypeID; BadServerSaltTypeID;
    MsgsStateInfoTypeID; MsgsAllInfoTypeID; MsgDetailedInfoTypeID; MsgNewDetailedInfoTypeID; NewSessionCreatedTypeID;
    DestroySessionOkTypeID; DestroySessionNoneTypeID; RPCAnswerUnknownTypeID; RPCAnswerDroppedRunningTypeID;
    RPCAnswerDroppedTypeID]).

Definition insertReserved (f : outboundFrame) (s : outboundState) : Run outboundState :=
  _ ← panic_if (bool_decide (is_Some (pending s !! msgID f)));
  Done (mkState (<[msgID f := f]> (pending s)) (order s ++ [msgID f])
          (if bool_decide (reqMsgID f = 0) then byRequest s else <[reqMsgID f := msgID f]> (byRequest s))
          (acked s) (ackOrder s) (ackOrderHead s) (totalBytes s + logicalSize f) (maxMessages s) (maxBytes s) (budget s)
          (if frameNeedsAck (typeID f) then wrap32 (sentContentMessages s + 1) else sentContentMessages s)
          (lastMsgID s) (window s)).

Inductive admitResult := AdmitOk | AdmitDuplicate | AdmitBudget.
Definition admitReserved (f : outboundFrame) (s : outboundState) : Run (outboundState * admitResult) :=
  if bool_decide (is_Some (pending s !! msgID f)) then Done (s, AdmitDuplicate)
  else
    let n := logicalSize f in
    if bool_decide (maxMessages s ≤ Z.of_nat (size (pending s))) || bool_decide (n > maxBytes s)
       || bool_decide (totalBytes s > maxBytes s - n)
    then Done (s, AdmitBudget)
    else s ← insertReserved f s; Done (s, AdmitOk).

(** [shrinkPending] and [addReserved], kept by the source for its own tests. *)
Fixpoint shrinkLoop (ord : list Z) (s : outboundState) (e : env) (dropped : Z) : Run (outboundState * env * Z) :=
  match ord with
  | [] => Done (set_order [] s, e, dropped)
  | oldest :: ord' =>
    if bool_decide (Z.of_nat (size (pending s)) > maxMessages s) || bool_decide (totalBytes s > maxBytes s) then
      '(s, e, ok) ← removePending oldest (set_order ord' s) e;
      shrinkLoop ord' s e (if (ok : bool) then dropped + 1 else dropped)
    else Done (set_order ord s, e, dropped)
  end.
Definition shrinkPending (s : outboundState) (e : env) : Run (outboundState * env * Z) := shrinkLoop (order s) s e 0.
Definition addReserved (f : outboundFrame) (s : outboundState) (e : env) : Run (outboundState * env * Z) :=
  s ← insertReserved f s; shrinkPending s e.

(** [compactImmutableFrame]: the body goes, the descriptor charge stays. *)
Definition compactImmutableFrame (default : positive) (f : outboundFrame) (e : env) : Run (outboundFrame * env * bool) :=
  match replaySource f with
  | None => Done (f, e, false)
  | Some src =>
    let charge := Z.max outboundReplayDescriptorCharge (RetainedBytes src) in
    if bool_decide (blen (body f) = 0) || compressed f || bool_decide (charge ≤ 0) || bool_decide (reservedBytes f ≤ charge)
    then Done (f, e, false)
    else
      e ← releaseBudget (from_option id default (reservationBudget f)) (reservedBytes f - charge) e;
      Done (set_reservation charge (reservationBudget f) (set_body [] f), e, true)
  end.

(** ** Message identities *)

Definition peekSeqNo (content : bool) (s : outboundState) : Z :=
  wrap32 (wrap32 (sentContentMessages s * 2) + if content then 1 else 0).

(** The loop over taken ids; [size (pending s)] rounds pass every taken one. *)
Fixpoint nextFree (fuel : nat) (candidate : Z) (m : gmap Z outboundFrame) : Z :=
  match m !! candidate, fuel with
  | None, _ | Some _, O => candidate
  | Some _, S fuel => nextFree fuel (add64 candidate 4) m
  end.
Definition reserveMsgID (candidate : Z) (s : outboundState) : outboundState * Z :=
  let candidate := if bool_decide (candidate ≤ lastMsgID s) then add64 (lastMsgID s) 4 else candidate in
  let id := nextFree (size (pending s)) candidate (pending s) in
  (mkState (pending s) (order s) (byRequest s) (acked s) (ackOrder s) (ackOrderHead s) (totalBytes s) (maxMessages s)
     (maxBytes s) (budget s) (sentContentMessages s) id (window s), id).

(** ** Encoded messages and the replay of a result *)

Record encodedOutboundMessage := mkEncoded {
  m_body : list Z;
  m_typeID : Z;
  m_reqMsgID : Z;
  m_priority : outboundPriority;
  m_delivery : option positive;
  m_layerInvariant : bool;
  m_layer : option outboundLayerBinding;
  m_compressed : bool;
  m_uncompressedBytes : Z;
  m_replaySource : option ReplaySource;
  m_innerDigest : Z;
  m_logicalBytes : Z;
  m_bulkCredit : option positive;
  replayMsgID : Z;
  replaySeqNo : Z;
}.
Definition wireSize (m : encodedOutboundMessage) : Z :=
  if bool_decide (m_logicalBytes m > 0) then m_logicalBytes m else blen (m_body m).

Definition rpcResult (r : Z) (s : outboundState) : option encodedOutboundMessage :=
  if bool_decide (r = 0) then None
  else
    match pending s !! from_option id 0 (byRequest s !! r) with
    | None => None
    | Some f =>
      if negb (bool_decide (typeID f = ResultTypeID)) || (bool_decide (blen (body f) = 0) && bool_decide (replaySource f = None))
      then None
      else Some (mkEncoded (body f) (typeID f) (reqMsgID f) (priority f) (delivery f) (layerInvariant f) (layer f)
                   (compressed f) (uncompressedBytes f) (replaySource f) (innerDigest f) (logicalBytes f) None
                   (msgID f) (seqNo f))
    end.
End ids.
End Outbound.
