(* ===== verification/OutboundInv.v ===== *)
(** * Invariants of the resend state

    What every operation of [OutboundState.v] keeps: the byte total is the sum
    over the retained frames, the request index points at retained frames, the
    acknowledged ids form a ring of bounded length, credits are known to the
    bulk window, and the bytes the frames hold are in the shared budgets. *)

From S2P Require Import Prelude BulkScheduler BulkProps TrackedBudget OutboundState.
Import Outbound.

(** ** Budgets of the environment *)

Definition usedOf (b : positive) (e : env) : Z := from_option Tracked.used 0 (budgets e !! b).
Definition capOf (b : positive) (e : env) : Z := from_option Tracked.maxBytes 0 (budgets e !! b).
Definition EInv (e : env) : Prop := ∀ b bud, budgets e !! b = Some bud → Tracked.BInv bud.

(** From [e] to [e'] the counter of budget [b] moved by [δ b], and no budget
    appeared, disappeared or changed its cap. *)
Record Charged (e e' : env) (δ : positive → Z) : Prop := {
  ch_inv : EInv e';
  ch_known b : is_Some (budgets e' !! b) ↔ is_Some (budgets e !! b);
  ch_cap b : capOf b e' = capOf b e;
  ch_used b : usedOf b e' = usedOf b e + δ b;
}.

Lemma Charged_refl e δ : EInv e → (∀ b, δ b = 0) → Charged e e δ.
Proof. intros HI Hz. split; [done|done|done|]. intros b. rewrite Hz. lia. Qed.
Lemma Charged_trans e1 e2 e3 δ1 δ2 δ :
  Charged e1 e2 δ1 → Charged e2 e3 δ2 → (∀ b, δ b = δ1 b + δ2 b) → Charged e1 e3 δ.
Proof.
  intros [_ Hk1 Hc1 Hu1] [HI Hk2 Hc2 Hu2] Hd. split; [done| | |]; intros b.
  - by rewrite Hk2.
  - by rewrite Hc2.
  - rewrite Hu2, Hu1, Hd. lia.
Qed.
Lemma Charged_ext e e' δ δ' : Charged e e' δ → (∀ b, δ' b = δ b) → Charged e e' δ'.
Proof. intros [] Hd. split; [done|done|done|]. intros b. by rewrite Hd. Qed.
Lemma Charged_notices e ns e' δ : Charged (mkEnv (budgets e) ns) e' δ → Charged e e' δ.
Proof. intros []; by split. Qed.
Lemma Charged_add_notices e e' ns δ : Charged e e' δ → Charged e (mkEnv (budgets e') ns) δ.
Proof. intros []; by split. Qed.

Lemma usedOf_range b e : EInv e → 0 ≤ usedOf b e ≤ Z.max 0 (capOf b e).
Proof.
  intros HI. unfold usedOf, capOf. destruct (budgets e !! b) as [bud|] eqn:Hb; simpl; [|lia].
  destruct (HI _ _ Hb). lia.
Qed.

Lemma Charged_insert b bud bud' e :
  EInv e → budgets e !! b = Some bud → Tracked.BInv bud' → Tracked.maxBytes bud' = Tracked.maxBytes bud →
  Charged e (mkEnv (<[b := bud']> (budgets e)) (notices e))
    (λ b', if decide (b = b') then Tracked.used bud' - Tracked.used bud else 0).
Proof.
  intros HI Hb HB Hm. split.
  - intros b' x. simpl. intros [[<- <-]|[_ ?]]%lookup_insert_Some; [done|by eapply HI].
  - intros b'. simpl. destruct (decide (b = b')) as [<-|Hne].
    + rewrite lookup_insert_eq, Hb. by split; intros _; eexists.
    + by rewrite lookup_insert_ne.
  - intros b'. unfold capOf. simpl. destruct (decide (b = b')) as [<-|Hne].
    + by rewrite lookup_insert_eq, Hb.
    + by rewrite lookup_insert_ne.
  - intros b'. unfold usedOf. simpl. case_decide as Hd; [subst b'|].
    + rewrite lookup_insert_eq, Hb. simpl. lia.
    + rewrite lookup_insert_ne by done. lia.
Qed.

Lemma releaseBudget_ok b n e :
  EInv e → is_Some (budgets e !! b) → 0 ≤ n ≤ usedOf b e →
  ∃ e', releaseBudget b n e = Done e' ∧ Charged e e' (λ b', if decide (b = b') then - n else 0).
Proof.
  intros HI [bud Hb] Hn. unfold usedOf in Hn. rewrite Hb in Hn. simpl in Hn. unfold releaseBudget. rewrite Hb. simpl.
  destruct (Tracked.tracked_release_spec n bud) as (bud' & -> & Hu & Hm & HB); [by eapply HI|done|]. simpl.
  eexists. split; [done|]. eapply Charged_ext; [by eapply Charged_insert|]. intros b'. simpl. case_decide; lia.
Qed.
Lemma reserveBudget_ok b n e :
  EInv e → is_Some (budgets e !! b) → 0 ≤ n →
  ∃ e' ok, reserveBudget b n e = Done (e', ok) ∧
    Charged e e' (λ b', if decide (b = b') then (if ok : bool then n else 0) else 0) ∧
    (ok = true ↔ usedOf b e + n ≤ capOf b e).
Proof.
  intros HI [bud Hb] Hn. unfold usedOf, capOf. rewrite Hb. simpl. unfold reserveBudget. rewrite Hb. simpl.
  pose proof (Tracked.tracked_reserve_BInv n bud ltac:(by eapply HI) Hn) as HB.
  rewrite Tracked.tracked_reserve_spec in * by (done || by eapply HI).
  case_bool_decide as Hfit; (eexists _, _; split; [done|]); (split; [|done || (split; [done|lia])]).
  - eapply Charged_ext; [by eapply Charged_insert|]. intros b'. simpl. case_decide; lia.
  - eapply Charged_ext; [by eapply Charged_insert|]. intros b'. simpl. case_decide; lia.
Qed.

(** ** What the frames hold *)

Definition frameBudget (dflt : positive) (f : outboundFrame) : positive := from_option id dflt (reservationBudget f).
Definition frameHold (dflt b : positive) (f : outboundFrame) : Z :=
  if decide (frameBudget dflt f = b) then reservedBytes f else 0.
Definition framesHold (dflt b : positive) (m : gmap Z outboundFrame) : Z := msum (λ _ f, frameHold dflt b f) m.
Definition stateHold (b : positive) (s : outboundState) : Z := framesHold (budget s) b (pending s).

(** The frames themselves; [w] is the window their credits belong to. *)
Record FramesInv (m : gmap Z outboundFrame) (br : gmap Z Z) (ord : list Z) (total : Z) (w : Bulk.bulkRPCScheduler) : Prop := {
  fi_total : total = msum (λ _ f, logicalSize f) m;
  fi_key id f : m !! id = Some f → msgID f = id;
  fi_req r id : br !! r = Some id → r ≠ 0 ∧ ∃ f, m !! id = Some f ∧ reqMsgID f = r;
  fi_order id : is_Some (m !! id) → id ∈ ord;
  fi_reserved id f : m !! id = Some f → 0 ≤ reservedBytes f;
  fi_credit id f l : m !! id = Some f → bulkCredit f = Some l → is_Some (Bulk.leases w !! l);
  fi_source id f : m !! id = Some f → is_Some (replaySource f) → 0 < logicalBytes f;
}.

Record OInv (s : outboundState) : Prop := {
  oi_frames : FramesInv (pending s) (byRequest s) (order s) (totalBytes s) (window s);
  oi_ring : RingInv maxTrackedAckedMsgIDs (acked s) (ackOrder s) (ackOrderHead s);
  oi_window : Bulk.Inv (window s);
  oi_messages : Z.of_nat (size (pending s)) ≤ maxMessages s;
  oi_bytes : totalBytes s ≤ maxBytes s;
}.

(** The frames' bytes are in the counters of budgets that exist. *)
Record Backed (s : outboundState) (e : env) : Prop := {
  bk_inv : EInv e;
  bk_default : is_Some (budgets e !! budget s);
  bk_budget id f : pending s !! id = Some f → is_Some (budgets e !! frameBudget (budget s) f);
  bk_hold b : stateHold b s ≤ usedOf b e;
}.

Lemma logicalSize_nonneg f : 0 ≤ logicalSize f.
Proof. unfold logicalSize, blen. case_bool_decide; lia. Qed.
Lemma frameHold_nonneg d b f : 0 ≤ reservedBytes f → 0 ≤ frameHold d b f.
Proof. unfold frameHold. case_decide; lia. Qed.
Lemma oi_reserved s id f : OInv s → pending s !! id = Some f → 0 ≤ reservedBytes f.
Proof. intros [[] _ _ _ _]. eauto. Qed.
Lemma stateHold_nonneg b s : OInv s → 0 ≤ stateHold b s.
Proof.
  intros HI. apply msum_nonneg. intros id f Hf. eapply frameHold_nonneg, oi_reserved; eauto.
Qed.
Lemma stateHold_lookup b s id f : OInv s → pending s !! id = Some f → frameHold (budget s) b f ≤ stateHold b s.
Proof.
  intros HI Hf. apply (msum_lookup_le (λ _ f, frameHold (budget s) b f) _ id); [|done].
  intros id' f' Hf'. eapply frameHold_nonneg, oi_reserved; eauto.
Qed.

Lemma outbound_new_OInv b mm mb : 0 ≤ mm → 0 ≤ mb → OInv (newOutboundStateWithLimits b mm mb).
Proof.
  intros Hm Hb. split; simpl; try done.
  - split; intros; try done; try (by rewrite lookup_empty in *).
  - split; [set_solver|constructor|simpl; lia|done|unfold maxTrackedAckedMsgIDs; lia].
  - apply Bulk.bulk_new_Inv.
Qed.

(** ** The acknowledgement ring *)

Definition set_ring (ak : gset Z) (ao : list Z) (h : nat) (s : outboundState) : outboundState :=
  mkState (pending s) (order s) (byRequest s) ak ao h (totalBytes s) (maxMessages s) (maxBytes s) (budget s)
    (sentContentMessages s) (lastMsgID s) (window s).

(** A new id enters at the end and the oldest of 1024 leaves. *)
Lemma markAcked_spec id s :
  RingInv maxTrackedAckedMsgIDs (acked s) (ackOrder s) (ackOrderHead s) →
  ∃ ak ao h, markAcked id s = Done (set_ring ak ao h s) ∧ RingInv maxTrackedAckedMsgIDs ak ao h ∧
    ring h ao = (if bool_decide (id ∈ acked s) then ring (ackOrderHead s) (ackOrder s)
                 else lastn maxTrackedAckedMsgIDs (ring (ackOrderHead s) (ackOrder s) ++ [id])).
Proof.
  intros HR. unfold markAcked. case_bool_decide as Hin.
  { exists (acked s), (ackOrder s), (ackOrderHead s). split; [|done]. by destruct s. }
  case_bool_decide as Hlt.
  - eexists _, _, _. split; [done|]. by apply ring_append.
  - destruct (ring_replace _ _ _ _ id HR Hin Hlt) as (oldest & -> & _ & _ & HR' & Hring & _); [unfold maxTrackedAckedMsgIDs; lia|].
    simpl. by eexists _, _, _.
Qed.

(** ** Removing a frame *)

(** Credits of the window are never forgotten, and a released one stays so. *)
Definition Grown (w w' : Bulk.bulkRPCScheduler) : Prop :=
  Bulk.max w' = Bulk.max w ∧
  ∀ l x, Bulk.leases w !! l = Some x →
    ∃ y, Bulk.leases w' !! l = Some y ∧ (Bulk.released x = true → Bulk.released y = true).
#[export] Instance Grown_preorder : PreOrder Grown.
Proof.
  split; [intros w; split; [done|intros l x Hx; eauto]|]. intros w1 w2 w3 [M12 H12] [M23 H23]. split; [congruence|].
  intros l x Hx. destruct (H12 _ _ Hx) as (y & Hy & Hr). destruct (H23 _ _ Hy) as (z & ? & ?). eauto.
Qed.
Lemma Grown_progress tgt w w' ns : Progress tgt w w' ns → Grown w w'.
Proof.
  intros [_ Hm He _ _]. split; [done|]. intros l x Hx.
  destruct (Evolves_Some _ _ _ _ _ He Hx) as (y & ? & Hk). destruct Hk. eauto.
Qed.
Lemma Grown_known w w' l : Grown w w' → is_Some (Bulk.leases w !! l) → is_Some (Bulk.leases w' !! l).
Proof. intros [_ HG] [x Hx]. destruct (HG _ _ Hx) as (y & ? & _). by eexists. Qed.
Definition creditReleased (w : Bulk.bulkRPCScheduler) (l : positive) : Prop :=
  ∃ x, Bulk.leases w !! l = Some x ∧ Bulk.released x = true.
Lemma creditReleased_grown w w' l : Grown w w' → creditReleased w l → creditReleased w' l.
Proof. intros [_ HG] (x & Hx & Hr). destruct (HG _ _ Hx) as (y & ? & Hy). exists y. auto. Qed.

Lemma releaseCreditOf_ok f s e :
  Bulk.Inv (window s) → (∀ l, bulkCredit f = Some l → is_Some (Bulk.leases (window s) !! l)) →
  ∃ w ns, releaseCreditOf f s e = Done (set_window w s, mkEnv (budgets e) (notices e ++ ns)) ∧
    Bulk.Inv w ∧ Grown (window s) w ∧ (∀ l, bulkCredit f = Some l → creditReleased w l).
Proof.
  intros HI Hk. unfold releaseCreditOf. destruct (bulkCredit f) as [l|].
  - unfold releaseCredit. destruct (release_progress l (window s) HI (Hk l eq_refl)) as (w & ns & -> & HP & Hy). simpl.
    exists w, ns. split; [done|]. pose proof (Grown_progress _ _ _ _ HP). destruct HP. split; [done|]. split; [done|].
    intros l' [= <-]. exact Hy.
  - exists (window s), []. split; [|split; [done|split; [done|done]]]. rewrite app_nil_r. by destruct s, e.
Qed.

Lemma releaseReservation_ok d f e :
  EInv e → is_Some (budgets e !! frameBudget d f) → 0 ≤ reservedBytes f → frameHold d (frameBudget d f) f ≤ usedOf (frameBudget d f) e →
  ∃ e', releaseReservation d f e = Done e' ∧ Charged e e' (λ b, - frameHold d b f).
Proof.
  intros HI Hb Hr Hle. unfold releaseReservation. unfold frameHold in Hle. rewrite decide_True in Hle by done.
  case_bool_decide.
  - exists e. split; [done|]. apply Charged_refl; [done|]. intros b. unfold frameHold. case_decide; lia.
  - destruct (releaseBudget_ok (frameBudget d f) (reservedBytes f) e HI Hb ltac:(lia)) as (e' & Heq & HC).
    exists e'. split; [exact Heq|]. eapply Charged_ext; [exact HC|]. intros b. unfold frameHold. simpl. case_decide; lia.
Qed.

Definition unindexed (id : Z) (f : outboundFrame) (br : gmap Z Z) : gmap Z Z :=
  if bool_decide (reqMsgID f ≠ 0) && bool_decide (br !! reqMsgID f = Some id) then delete (reqMsgID f) br else br.
Definition removed (id : Z) (f : outboundFrame) (w : Bulk.bulkRPCScheduler) (s : outboundState) : outboundState :=
  mkState (delete id (pending s)) (order s) (unindexed id f (byRequest s)) (acked s) (ackOrder s) (ackOrderHead s)
    (totalBytes s - logicalSize f) (maxMessages s) (maxBytes s) (budget s) (sentContentMessages s) (lastMsgID s) w.

Lemma unindexed_lookup id f br r id' :
  unindexed id f br !! r = Some id' → br !! r = Some id' ∧ (reqMsgID f = r → r ≠ 0 → id' ≠ id).
Proof.
  unfold unindexed. destruct (bool_decide (reqMsgID f ≠ 0)) eqn:H1; simpl.
  - clear H1. case_bool_decide as H2.
    + intros [Hne ?]%lookup_delete_Some. split; [done|]. congruence.
    + intros Hr. split; [done|]. intros <- _ ->. done.
  - apply bool_decide_eq_false in H1. intros Hr. split; [done|]. intros <- ?. by destruct H1.
Qed.
Lemma unindexed_keeps id f br r id' : br !! r = Some id' → id' ≠ id → unindexed id f br !! r = Some id'.
Proof.
  intros Hr Hne. unfold unindexed. destruct (_ && _) eqn:Hb; [|done].
  apply andb_true_iff in Hb as [_ Hb%bool_decide_eq_true]. rewrite lookup_delete_ne; [done|]. intros <-. congruence.
Qed.

Lemma FramesInv_delete m br ord total w id f w' :
  FramesInv m br ord total w → m !! id = Some f → Grown w w' →
  FramesInv (delete id m) (unindexed id f br) ord (total - logicalSize f) w'.
Proof.
  intros [Ht Hk Hr Ho Hres Hc Hs] Hf HG. split.
  - rewrite (msum_delete _ _ _ _ Hf). lia.
  - intros id' f' [_ ?]%lookup_delete_Some. eauto.
  - intros r id' [Hr' Hne]%unindexed_lookup. destruct (Hr _ _ Hr') as (Hr0 & f' & Hf' & Hreq). split; [done|].
    exists f'. split; [|done]. apply lookup_delete_Some. split; [|done]. intros <-.
    assert (f' = f) as -> by congruence. by apply Hne.
  - intros id' [f' [_ ?]%lookup_delete_Some]. apply Ho. by eexists.
  - intros id' f' [_ ?]%lookup_delete_Some. eauto.
  - intros id' f' l [_ ?]%lookup_delete_Some ?. eapply Grown_known; [done|]. eauto.
  - intros id' f' [_ ?]%lookup_delete_Some. eauto.
Qed.

Lemma stateHold_delete s s' id f b :
  pending s !! id = Some f → pending s' = delete id (pending s) → budget s' = budget s →
  stateHold b s' = stateHold b s - frameHold (budget s) b f.
Proof. intros Hf Hp Hb. unfold stateHold, framesHold. by rewrite Hp, Hb, (msum_delete _ _ _ _ Hf). Qed.

Lemma Backed_delete s s' id f e e' :
  Backed s e → pending s !! id = Some f → pending s' = delete id (pending s) → budget s' = budget s →
  Charged e e' (λ b, - frameHold (budget s) b f) → Backed s' e'.
Proof.
  intros [HI Hd Hb Hh] Hf Hp Hbud [HI' Hk _ Hu]. split; [done|by rewrite Hbud, Hk| |].
  - rewrite Hp, Hbud. intros id' f' [_ ?]%lookup_delete_Some. rewrite Hk. eauto.
  - intros b. rewrite (stateHold_delete s s' id f), Hu by done. specialize (Hh b). lia.
Qed.

Lemma removePending_spec id s e :
  OInv s → Backed s e →
  match pending s !! id with
  | None => removePending id s e = Done (s, e, false)
  | Some f => ∃ w e', removePending id s e = Done (removed id f w s, e', true) ∧
      OInv (removed id f w s) ∧ Backed (removed id f w s) e' ∧ Charged e e' (λ b, - frameHold (budget s) b f) ∧
      Grown (window s) w ∧ (∀ l, bulkCredit f = Some l → creditReleased w l)
  end.
Proof.
  intros HI HB. unfold removePending. destruct (pending s !! id) as [f|] eqn:Hf; [|done].
  pose proof HI as [HF HR HW Hms Hbs]. pose proof HB as [HE Hd Hbud Hh].
  destruct (releaseCreditOf_ok f (removed id f (window s) s) e) as (w & ns & Heq & HW' & HG & Hcr).
  { done. } { intros l Hl. by eapply (fi_credit _ _ _ _ _ HF). }
  unfold removed, unindexed in Heq. simpl in Heq. rewrite Heq. clear Heq. simpl.
  destruct (releaseReservation_ok (budget s) f (mkEnv (budgets e) (notices e ++ ns))) as (e' & -> & HC).
  { done. } { simpl. by eapply Hbud. } { by eapply oi_reserved. }
  { etrans; [by eapply stateHold_lookup|]. apply (Hh (frameBudget (budget s) f)). }
  apply Charged_notices in HC. simpl. exists w, e'. split; [done|]. simpl in HG.
  split; [|split; [by apply (Backed_delete s _ id f e)|done]]. split; simpl; [by eapply FramesInv_delete|done|done| |].
  - rewrite map_size_delete_Some by by eexists. lia.
  - pose proof (logicalSize_nonneg f). lia.
Qed.

(** ** Acknowledging *)

(** The ids of a list that are retained, in the order they are met. *)
Fixpoint hits (ids : list Z) (m : gmap Z outboundFrame) : list (Z * outboundFrame) :=
  match ids with
  | [] => []
  | id :: ids => match m !! id with Some f => (id, f) :: hits ids (delete id m) | None => hits ids m end
  end.
Definition ackOf (p : Z * outboundFrame) : outboundAcknowledgement :=
  mkAck (reqMsgID p.2) (logicalSize p.2) (sentAt p.2).
(** The queue of acknowledged ids after one more. *)
Definition ackPush (q : list Z) (id : Z) : list Z :=
  if bool_decide (id ∈ q) then q else lastn maxTrackedAckedMsgIDs (q ++ [id]).
Definition ackQueue (s : outboundState) : list Z := ring (ackOrderHead s) (ackOrder s).

(** What an operation on the frames leaves alone. *)
Record Kept (s s' : outboundState) : Prop := {
  kp_messages : maxMessages s' = maxMessages s;
  kp_bytes : maxBytes s' = maxBytes s;
  kp_budget : budget s' = budget s;
  kp_content : sentContentMessages s' = sentContentMessages s;
  kp_last : lastMsgID s' = lastMsgID s;
  kp_window : Grown (window s) (window s');
}.
#[export] Instance Kept_preorder : PreOrder Kept.
Proof. split; [intros s; by split|]. intros s1 s2 s3 [] []. split; try congruence. by etrans. Qed.

Lemma ackLoop_spec ids s e :
  OInv s → Backed s e →
  ∃ s' e', ackLoop ids s e = Done (s', e', map ackOf (hits ids (pending s))) ∧
    OInv s' ∧ Backed s' e' ∧ Kept s s' ∧ order s' = order s ∧
    Charged e e' (λ b, stateHold b s' - stateHold b s) ∧
    (∀ id, pending s' !! id = if bool_decide (id ∈ ids) then None else pending s !! id) ∧
    ackQueue s' = foldl ackPush (ackQueue s) (map fst (hits ids (pending s))) ∧
    (∀ r id, byRequest s !! r = Some id → id ∉ ids → byRequest s' !! r = Some id) ∧
    (∀ id f l, (id, f) ∈ hits ids (pending s) → bulkCredit f = Some l → creditReleased (window s') l).
Proof.
  revert s e. induction ids as [|id ids IH]; intros s e HI HB; simpl.
  { exists s, e. split; [done|]. split; [done|]. split; [done|]. split; [done|]. split; [done|]. split.
    { apply Charged_refl; [apply HB|]. intros b. lia. } split; [done|]. split; [done|]. split; [done|]. set_solver. }
  pose proof (removePending_spec id s e HI HB) as Hrm. destruct (pending s !! id) as [f|] eqn:Hf.
  - destruct Hrm as (w & e1 & -> & HI1 & HB1 & HC1 & HG1 & Hcr1). simpl. set (s1 := removed id f w s) in *.
    destruct (markAcked_spec id s1 (oi_ring _ HI1)) as (ak & ao & h & -> & HR & Hring). simpl.
    set (s2 := set_ring ak ao h s1).
    destruct (IH s2 e1) as (s' & e' & Heq & HI' & HB' & HK & Hor & HC & Hp & Hq & Hbr & Hcr).
    { destruct HI1. by split. } { destruct HB1. by split. }
    exists s', e'. rewrite Heq. simpl. split; [done|]. split; [done|]. split; [done|]. split; [|split; [|split; [|split; [|split; [|split]]]]].
    + etrans; [|done]. by split.
    + by rewrite Hor.
    + eapply Charged_trans; [exact HC1|exact HC|]. intros b. simpl. rewrite (stateHold_delete s s2 id f) by done. lia.
    + intros id'. rewrite Hp. simpl. destruct (decide (id' = id)) as [->|Hne].
      * rewrite (bool_decide_true (id ∈ id :: ids)) by set_solver. rewrite lookup_delete_eq. by destruct (bool_decide (id ∈ ids)).
      * rewrite lookup_delete_ne by done. rewrite (bool_decide_ext (id' ∈ id :: ids) (id' ∈ ids)) by set_solver. done.
    + rewrite Hq. simpl. f_equal. unfold ackQueue. simpl. rewrite Hring. simpl. unfold ackPush.
      rewrite (bool_decide_ext (id ∈ acked s) (id ∈ ring (ackOrderHead s) (ackOrder s))); [done|].
      rewrite elem_of_ring. apply (oi_ring _ HI).
    + intros r id' Hr Hnin. apply Hbr; [|set_solver]. apply unindexed_keeps; [done|set_solver].
    + intros id' f' l [[= -> ->]|Hin]%elem_of_cons Hl; [|by eapply Hcr].
      eapply creditReleased_grown; [apply HK|]. by apply Hcr1.
  - destruct (IH s e HI HB) as (s' & e' & Heq & HI' & HB' & HK & Hor & HC & Hp & Hq & Hbr & Hcr).
    exists s', e'. split; [done|]. split; [done|]. split; [done|]. split; [done|]. split; [done|]. split; [done|]. split; [|split; [done|split; [|done]]].
    + intros id'. rewrite Hp. destruct (decide (id' = id)) as [->|Hne].
      * rewrite (bool_decide_true (id ∈ id :: ids)) by set_solver. rewrite Hf. by destruct (bool_decide (id ∈ ids)).
      * by rewrite (bool_decide_ext (id' ∈ id :: ids) (id' ∈ ids)) by set_solver.
    + intros r id' Hr Hnin. apply Hbr; [done|set_solver].
Qed.

Lemma ackWithDetails_spec ids s e :
  OInv s → Backed s e →
  ∃ s' e', ackWithDetails ids s e = Done (s', e', map ackOf (hits ids (pending s))) ∧
    OInv s' ∧ Backed s' e' ∧ Kept s s' ∧ Charged e e' (λ b, stateHold b s' - stateHold b s) ∧
    (∀ id, pending s' !! id = if bool_decide (id ∈ ids) then None else pending s !! id) ∧
    ackQueue s' = foldl ackPush (ackQueue s) (map fst (hits ids (pending s))) ∧
    (∀ r id, byRequest s !! r = Some id → id ∉ ids → byRequest s' !! r = Some id) ∧
    (∀ id f l, (id, f) ∈ hits ids (pending s) → bulkCredit f = Some l → creditReleased (window s') l).
Proof.
  intros HI HB. unfold ackWithDetails.
  destruct (ackLoop_spec ids s e HI HB) as (s1 & e' & -> & HI1 & HB1 & HK & _ & HC & Hp & Hq & Hbr & Hcr). simpl.
  eexists _, e'. split; [done|]. destruct (bool_decide (Z.of_nat (length (order s1)) > maxMessages s1 * 2)).
  2:{ repeat (split; [done|]). done. }
  split; [|split; [|split; [|split; [done|split; [done|split; [done|split; done]]]]]].
  - destruct HI1 as [HF HR HW ? ?]. split; [|done|done|done|done]. destruct HF as [Ht Hk Hr Ho Hres Hc Hs]. split; simpl; try done.
    intros id Hid. apply list_elem_of_filter. auto.
  - destruct HB1. by split.
  - etrans; [done|]. by split.
Qed.

(** ** A frame changes in place *)

(** What stays of a retained frame: everything but its send times, its
    reservation, and a body that a replay source can rebuild. *)
Record Persists (f f' : outboundFrame) : Prop := {
  ps_msgID : msgID f' = msgID f;
  ps_seqNo : seqNo f' = seqNo f;
  ps_typeID : typeID f' = typeID f;
  ps_reqMsgID : reqMsgID f' = reqMsgID f;
  ps_source : replaySource f' = replaySource f;
  ps_digest : innerDigest f' = innerDigest f ∧ uncompressedBytes f' = uncompressedBytes f ∧ compressed f' = compressed f;
  ps_logical : logicalBytes f' = logicalBytes f;
  ps_credit : bulkCredit f' = bulkCredit f;
  ps_layer : layer f' = layer f;
  ps_body : body f' = body f ∨ (body f' = [] ∧ is_Some (replaySource f) ∧ compressed f = false);
}.
#[export] Instance Persists_preorder : PreOrder Persists.
Proof.
  split; [intros f; split; auto|]. intros f1 f2 f3 [] []. split; try congruence; [intuition congruence|].
  destruct ps_body1 as [->|(-> & Hs & Hc)]; [done|]. right. split; [done|]. split; [congruence|].
  destruct ps_digest0 as (_ & _ & ?). congruence.
Qed.

Lemma Persists_logicalSize f f' :
  Persists f f' → (is_Some (replaySource f) → 0 < logicalBytes f) → logicalSize f' = logicalSize f.
Proof.
  intros [] Hs. unfold logicalSize. rewrite ps_logical0. case_bool_decide; [done|].
  destruct ps_body0 as [->|(_ & Hsrc & _)]; [done|]. specialize (Hs Hsrc). lia.
Qed.

Lemma OInv_update s id f f' :
  OInv s → pending s !! id = Some f → Persists f f' → 0 ≤ reservedBytes f' →
  OInv (set_pending (<[id := f']> (pending s)) s).
Proof.
  intros [[Ht Hk Hr Ho Hres Hc Hs] HR HW Hms Hbs] Hf HP Hpos. pose proof (Persists_logicalSize _ _ HP (Hs _ _ Hf)) as Hsz.
  destruct HP. split; [|done|done|simpl; by rewrite map_size_insert_Some by by eexists|done]. split; simpl.
  - rewrite (msum_update _ _ _ _ _ Hf). lia.
  - intros id' x [[<- <-]|[_ ?]]%lookup_insert_Some; [|eauto]. rewrite ps_msgID0. eauto.
  - intros r id' Hr'. destruct (Hr _ _ Hr') as (Hr0 & x & Hx & Hreq). split; [done|].
    destruct (decide (id = id')) as [<-|Hne].
    + exists f'. rewrite lookup_insert_eq. split; [done|]. congruence.
    + exists x. by rewrite lookup_insert_ne.
  - intros id' Hid. apply Ho. destruct (decide (id = id')) as [<-|Hne]; [by eexists|by rewrite lookup_insert_ne in Hid].
  - intros id' x [[<- <-]|[_ ?]]%lookup_insert_Some; eauto.
  - intros id' x l [[<- <-]|[_ ?]]%lookup_insert_Some; [|eauto]. rewrite ps_credit0. eauto.
  - intros id' x [[<- <-]|[_ ?]]%lookup_insert_Some; [|eauto]. rewrite ps_source0, ps_logical0. eauto.
Qed.

Lemma stateHold_update s id f f' b :
  pending s !! id = Some f →
  stateHold b (set_pending (<[id := f']> (pending s)) s) = stateHold b s - frameHold (budget s) b f + frameHold (budget s) b f'.
Proof. intros Hf. unfold stateHold, framesHold. simpl. by rewrite (msum_update _ _ _ _ _ Hf). Qed.
