(* ===== verification/OutboundActor.v ===== *)
(** * The outbound actor

    [internal/mtprotoedge/outbound.go] and [layer_updates.go]: from a queued
    operation to the wire.  [handleOutboundOp] runs one operation against the
    resend state of the session, under the state's lock; a connection appears
    as the values the operation reads from it (its layer profile, its key, the
    next message id, the outcome of each write).  The second half puts many
    sessions and many queued operations around the shared budgets. *)

From S2P Require Import Prelude BulkScheduler TrackedBudget RpcDelivery OutboundState.
Import Outbound.

Module Actor.

(** ** What an operation reads from its connection *)

Inductive LayerProfileOrigin := LayerProfileUnknown | LayerProfileInherited | LayerProfileExplicit.
#[export] Instance LayerProfileOrigin_eq_dec : EqDecision LayerProfileOrigin.
Proof. solve_decision. Defined.
Record LayerProfileSnapshot := mkSnapshot { Profile : Z; Origin : LayerProfileOrigin; Epoch : Z }.

(** [keyUnavailable] is the answer of the expiry check, [newMsgID] the next id
    of the connection's generator, [writes] the outcome of each frame write in
    turn, [encodeInner] what a replay source encodes to (it may fail). *)
Record conn := mkConn {
  keyUnavailable : bool;
  layerProfile : LayerProfileSnapshot;
  newMsgID : Z;
  writes : list bool;
  now : Z;
  encodeInner : ReplaySource → option (list Z);
  bodyBudget : positive;
  controlBudget : positive;
  criticalBudget : positive;
}.

Class Hash := { sha256 : list Z → Z }.

Inductive sendError :=
  | ErrTrackedBudget | ErrDuplicate | ErrLayerStale | ErrLayerUnknown | ErrLayerMismatch | ErrLayerRequired
  | ErrMaterialize | ErrRetarget | ErrTooLarge | ErrWrite | ErrClosed.
#[export] Instance sendError_eq_dec : EqDecision sendError.
Proof. solve_decision. Defined.

Definition validateOutboundLayerBinding (st : LayerProfileSnapshot) (l : option outboundLayerBinding) : option sendError :=
  match l with
  | None => None
  | Some l =>
    if wireInvariant l || bool_decide (kind l = BindingRequest) then None
    else if bool_decide (Origin st = LayerProfileUnknown) then Some ErrLayerUnknown
    else if negb (bool_decide (epoch l = 0)) && negb (bool_decide (Epoch st = epoch l)) then Some ErrLayerStale
    else if negb (bool_decide (Profile st = profile l)) then Some ErrLayerMismatch
    else None
  end.

(** What reached the writer: the identity and the bytes of one attempt. *)
Record attempt := mkAttempt { t_msgID : Z; t_seqNo : Z; t_typeID : Z; t_reqMsgID : Z; t_body : list Z; t_ok : bool }.

(** The output side of one operation: outcomes still to come, attempts so far. *)
Record io := mkIo { i_writes : list bool; i_wire : list attempt }.
(** [writeFrame]; a frame that has no send time yet gets one. *)
Definition writeFrame (c : conn) (f : outboundFrame) (o : io) : io * outboundFrame * bool :=
  let '(ok, rest) := match i_writes o with [] => (false, []) | ok :: rest => (ok, rest) end in
  let o := mkIo rest (i_wire o ++ [mkAttempt (msgID f) (seqNo f) (typeID f) (reqMsgID f) (body f) ok]) in
  (o, (if (ok : bool) && bool_decide (sentAt f = 0) then set_sent (now c) 1 f else f), ok).

Section actor.
Context `{TypeIDs} `{Hash}.

(** ** Rebuilding the body of a result *)

(** [materializeRPCResultBodyInto], for a message with these fields. *)
Definition materialize (c : conn) (m : encodedOutboundMessage) (r : Z) : option (list Z) :=
  if negb (bool_decide (m_typeID m = ResultTypeID)) || bool_decide (r = 0) then None
  else if bool_decide (12 ≤ length (m_body m))%nat then
    Some (if bool_decide (wrap64 (le_value (take 8 (drop 4 (m_body m)))) = r) then m_body m
          else take 4 (m_body m) ++ le_bytes 8 r ++ drop 12 (m_body m))
  else
    match m_replaySource m with
    | None => None
    | Some src =>
      if m_compressed m then None
      else
        inner ← encodeInner c src;
        let out := le_bytes 4 ResultTypeID ++ le_bytes 8 r ++ inner in
        if negb (bool_decide (blen inner = m_uncompressedBytes m)) || negb (bool_decide (sha256 inner = m_innerDigest m)) then None
        else if bool_decide (m_logicalBytes m > 0) && negb (bool_decide (blen out = m_logicalBytes m)) then None
        else Some out
    end.

(** [frame.materialized]: the message it rebuilds has no body of its own. *)
Definition materialized (c : conn) (f : outboundFrame) : option outboundFrame :=
  if bool_decide (blen (body f) > 0) then Some f
  else
    b ← materialize c (mkEncoded [] (typeID f) (reqMsgID f) PriorityNormal None false None (compressed f)
           (uncompressedBytes f) (replaySource f) (innerDigest f) (logicalBytes f) None 0 0) (reqMsgID f);
    Some (set_body b f).

(** [cloneRPCResultForRequestContext] for a clone that shares the delivery
    object, or gets the fresh one [d]: the clone carries no bulk credit. *)
Definition cloneRPCResultForRequest (c : conn) (m : encodedOutboundMessage) (r : Z) (d : option positive)
    : option encodedOutboundMessage :=
  if negb (bool_decide (m_typeID m = ResultTypeID)) || bool_decide (r = 0) then None
  else
    b ← materialize c m r;
    let same := bool_decide (r = m_reqMsgID m) in
    Some (mkEncoded b (m_typeID m) r (m_priority m) d (m_layerInvariant m) (m_layer m) (m_compressed m)
            (m_uncompressedBytes m) (m_replaySource m) (m_innerDigest m) (m_logicalBytes m) None
            (if same then replayMsgID m else 0) (if same then replaySeqNo m else 0)).

(** ** Budgets and priorities *)

Definition bulkOutboundThreshold : Z := 64 * 2 ^ 10.
Definition maxOutboundBodyBytes : Z := 2 ^ 24 - 2 * 2 ^ 10.
Definition classifyOutboundPriority (m : encodedOutboundMessage) (control : bool) : outboundPriority :=
  if control then PriorityControl
  else if negb (bool_decide (m_priority m = PriorityNormal)) then m_priority m
  else if bool_decide (bulkOutboundThreshold ≤ blen (m_body m)) then PriorityBulk
  else PriorityNormal.
Definition outboundMessageBudgetForPriority (c : conn) (t : Z) (p : outboundPriority) (control : bool) : positive :=
  if control || encodedControlFrame t then controlBudget c
  else if bool_decide (p = PriorityCritical) then criticalBudget c
  else bodyBudget c.

(** ** Operations in the queue *)

Inductive opKind :=
  | OutboundSend (m : encodedOutboundMessage)
  | OutboundAck (ids : list Z)
  | OutboundQueryState (ids : list Z)
  | OutboundResend (ids : list Z)
  | OutboundResendByRequest (r : Z).
Record outboundOp := mkOp { o_kind : opKind; o_reservedBytes : Z; o_budget : option positive }.

(** [op.releaseReservation]: the credit of a queued message and its bytes. *)
Definition releaseOp (dflt : positive) (op : outboundOp) (s : outboundState) (e : env) : Run (outboundState * env) :=
  if bool_decide (o_reservedBytes op ≤ 0) then Done (s, e)
  else
    '(s, e) ← match o_kind op with
              | OutboundSend m => match m_bulkCredit m with Some l => releaseCredit l s e | None => Done (s, e) end
              | _ => Done (s, e)
              end;
    e ← releaseBudget (from_option id dflt (o_budget op)) (o_reservedBytes op) e;
    Done (s, e).

(** [newOutboundSendOp] for an encoded message, and [newOutboundVectorOp]. *)
Definition newOutboundSendOp (c : conn) (m : encodedOutboundMessage) (control : bool) (e : env)
    : Run (env * (outboundOp + sendError)) :=
  match validateOutboundLayerBinding (layerProfile c) (m_layer m) with
  | Some err => Done (e, inr err)
  | None =>
    let n := blen (m_body m) in
    if bool_decide (n > maxOutboundBodyBytes) then Done (e, inr ErrTooLarge)
    else
      let b := outboundMessageBudgetForPriority c (m_typeID m) (m_priority m) control in
      '(e, ok) ← reserveBudget b n e;
      Done (e, if (ok : bool) then inl (mkOp (OutboundSend m) n (Some b)) else inr ErrTrackedBudget)
  end.
Definition vectorKind (k : list Z → opKind) (ids : list Z) (c : conn) (e : env) : Run (env * (outboundOp + sendError)) :=
  let n := Z.of_nat (length ids) * 8 in
  '(e, ok) ← reserveBudget (controlBudget c) n e;
  Done (e, if (ok : bool) then inl (mkOp (k ids) n (Some (controlBudget c))) else inr ErrTrackedBudget).

(** ** Building and sending a frame *)

Definition buildFrameWithState (c : conn) (m : encodedOutboundMessage) (s : outboundState)
    : outboundState * (outboundFrame + sendError) :=
  match validateOutboundLayerBinding (layerProfile c) (m_layer m) with
  | Some err => (s, inr err)
  | None =>
    if bool_decide (is_Some (m_layer m)) || m_layerInvariant m then
      let '(s, id, seq) :=
        if bool_decide (replayMsgID m = 0)
        then let '(s, id) := reserveMsgID (newMsgID c) s in (s, id, peekSeqNo (frameNeedsAck (m_typeID m)) s)
        else (s, replayMsgID m, replaySeqNo m) in
      (s, inl (mkFrame id seq (m_typeID m) (m_body m) 0 None (m_reqMsgID m) (m_priority m) (m_delivery m)
                 (m_compressed m) (m_uncompressedBytes m) (m_replaySource m) (m_innerDigest m) (m_logicalBytes m)
                 (m_bulkCredit m) (m_layer m) (m_layerInvariant m) 0 0))
    else (s, inr ErrLayerRequired)
  end.

Abbreviation deliveries := (gmap positive Delivery.rpcResultDelivery).

(** [beginWriting] of the message's delivery object. *)
Definition beginWritingMessage (m : encodedOutboundMessage) (ds : deliveries) : Run (deliveries * Z) :=
  match m_delivery m with
  | None => Done (ds, m_reqMsgID m)
  | Some d =>
    x ← deref (ds !! d);
    let '(x, target) := Delivery.beginWriting (m_reqMsgID m) x in
    Done (<[d := x]> ds, target)
  end.

(** The bytes the handler holds on behalf of the queue: those that will go
    with the frame, and those of a body that was replaced by a clone. *)
Record held := mkHeld { h_reserved : Z; h_superseded : Z }.

(** The retarget at the head of the handler. *)
Definition retargetForWrite (c : conn) (target : Z) (b : positive) (m : encodedOutboundMessage) (h : held) (e : env)
    : Run (env * held * (encodedOutboundMessage + sendError)) :=
  if bool_decide (target = 0) || bool_decide (target = m_reqMsgID m) then Done (e, h, inl m)
  else
    let n := blen (m_body m) in
    '(e, ok) ← reserveBudget b n e;
    if negb (ok : bool) then Done (e, h, inr ErrTrackedBudget)
    else
      match cloneRPCResultForRequest c m target (m_delivery m) with
      | None => e ← releaseBudget b n e; Done (e, h, inr ErrRetarget)
      | Some m' => Done (e, mkHeld n (h_superseded h + h_reserved h), inl m')
      end.

(** How a frame that was built enters the outbox: a message that needs no
    acknowledgement does not, a replay finds its frame there, anything else is
    admitted with the bytes the queue held. *)
Inductive placed := PlacedNot | PlacedReplay | PlacedNew.
Definition placeFrame (f : outboundFrame) (b : positive) (h : held) (s : outboundState)
    : Run (outboundState * held * (placed * outboundFrame + sendError)) :=
  if negb (frameNeedsAck (typeID f)) then Done (s, h, inl (PlacedNot, f))
  else
    match (if bool_decide (msgID f = 0) then None else pending s !! msgID f) with
    | Some existing => Done (s, h, inl (PlacedReplay, set_body (body f) existing))
    | None =>
      if bool_decide (blen (body f) > maxTrackedServerBytes) then Done (s, h, inr ErrTrackedBudget)
      else
        let f := set_reservation (h_reserved h) (Some b) f in
        '(s, r) ← admitReserved f s;
        match r with
        | AdmitOk => Done (s, mkHeld 0 (h_superseded h), inl (PlacedNew, f))
        | AdmitDuplicate => Done (s, h, inr ErrDuplicate)
        | AdmitBudget => Done (s, h, inr ErrTrackedBudget)
        end
    end.

(** The write, and what it leaves in the outbox: the frame of a first write is
    the frame in the outbox, so its send time is kept there, and the body of a
    result with a replay source goes. *)
Definition writePlaced (c : conn) (p : placed) (f : outboundFrame) (s : outboundState) (e : env) (o : io)
    : Run (outboundState * env * io * option sendError) :=
  let '(o, f', ok) := writeFrame c f o in
  let err := if (ok : bool) then None else Some ErrWrite in
  match p with
  | PlacedNew =>
    if bool_decide (is_Some (replaySource f')) then
      '(f', e, _) ← compactImmutableFrame (budget s) f' e;
      Done (set_pending (<[msgID f' := f']> (pending s)) s, e, o, err)
    else Done (set_pending (<[msgID f' := f']> (pending s)) s, e, o, err)
  | PlacedReplay | PlacedNot => Done (s, e, o, err)
  end.

Definition releaseMessageCredit (m : encodedOutboundMessage) (s : outboundState) (e : env) : Run (outboundState * env) :=
  match m_bulkCredit m with Some l => releaseCredit l s e | None => Done (s, e) end.

(** The handler up to its deferred releases: a message that does not stay in
    the outbox gives its bulk credit back. *)
Definition failSend (m : encodedOutboundMessage) (h : held) (err : sendError) (s : outboundState) (e : env) (o : io)
    : Run (outboundState * env * io * held * option sendError) :=
  '(s, e) ← releaseMessageCredit m s e; Done (s, e, o, h, Some err).
Definition sendBuilt (c : conn) (m : encodedOutboundMessage) (f : outboundFrame) (b : positive) (h : held)
    (s : outboundState) (e : env) (o : io) : Run (outboundState * env * io * held * option sendError) :=
  '(s, h, pl) ← placeFrame f b h s;
  match pl with
  | inr err => failSend m h err s e o
  | inl (p, f) =>
    '(s, e, o, err) ← writePlaced c p f s e o;
    match p with
    | PlacedNot => '(s, e) ← releaseMessageCredit m s e; Done (s, e, o, h, err)
    | _ => Done (s, e, o, h, err)
    end
  end.
Definition sendMessage (c : conn) (m : encodedOutboundMessage) (b : positive) (h : held)
    (s : outboundState) (e : env) (o : io) : Run (outboundState * env * io * held * option sendError) :=
  let '(s, fr) := buildFrameWithState c m s in
  match fr with
  | inr err => failSend m h err s e o
  | inl f => sendBuilt c m f b h s e o
  end.

(** [handleOutboundSend]; the frame shares the body of the message, so the
    handler's re-reservation for a body of different backing never applies. *)
Definition handleOutboundSend (c : conn) (m : encodedOutboundMessage) (reserved : Z) (ob : option positive)
    (s : outboundState) (e : env) (ds : deliveries) (o : io)
    : Run (outboundState * env * deliveries * io * option sendError) :=
  let b := from_option id (budget s) ob in
  '(ds, target) ← beginWritingMessage m ds;
  '(e, h, r) ← retargetForWrite c target b m (mkHeld reserved 0) e;
  '(s, e, o, h, err) ← match r with
                       | inr err => failSend m h err s e o
                       | inl m => sendMessage c m b h s e o
                       end;
  e ← releaseBudget b (h_reserved h) e;
  e ← releaseBudget b (h_superseded h) e;
  Done (s, e, ds, o, err).

(** ** Resending *)

(** [materializeFrameForWrite], the write and the release of the body lease. *)
Definition resendFrame (c : conn) (f : outboundFrame) (e : env) (o : io)
    : Run (env * io * (outboundFrame + sendError)) :=
  if bool_decide (blen (body f) > 0) then
    let '(o, f', ok) := writeFrame c f o in
    Done (e, o, if (ok : bool) then inl (set_sent (now c) (sends f' + 1) f') else inr ErrWrite)
  else
    match materialized c f with
    | None => Done (e, o, inr ErrMaterialize)
    | Some physical =>
      let b := outboundMessageBudgetForPriority c (typeID f) (priority f) false in
      let n := blen (body physical) in
      '(e, ok) ← reserveBudget b n e;
      if negb (ok : bool) then Done (e, o, inr ErrTrackedBudget)
      else
        let '(o, _, ok) := writeFrame c physical o in
        e ← releaseBudget b n e;
        Done (e, o, if (ok : bool) then inl (set_sent (now c) (sends f + 1) f) else inr ErrWrite)
    end.

Fixpoint handleOutboundResend (c : conn) (ids : list Z) (s : outboundState) (e : env) (o : io)
    : Run (outboundState * env * io * list Z * option sendError) :=
  match ids with
  | [] => Done (s, e, o, [], None)
  | id :: ids =>
    let known := if isKnown id s then msgStateReceived else 0 in
    match pending s !! id with
    | None =>
      '(s, e, o, info, err) ← handleOutboundResend c ids s e o; Done (s, e, o, known :: info, err)
    | Some f =>
      match validateOutboundLayerBinding (layerProfile c) (layer f) with
      | Some _ =>
        '(s, e, _) ← removePending id s e;
        '(s, e, o, info, err) ← handleOutboundResend c ids s e o; Done (s, e, o, known :: info, err)
      | None =>
        '(e, o, r) ← resendFrame c f e o;
        match r with
        | inr err => Done (s, e, o, known :: map (λ _, 0) ids, Some err)
        | inl f =>
          '(s, e, o, info, err) ← handleOutboundResend c ids (set_pending (<[id := f]> (pending s)) s) e o;
          Done (s, e, o, known :: info, err)
        end
      end
    end
  end.

Definition handleOutboundResendByRequest (c : conn) (r : Z) (s : outboundState) (e : env) (o : io)
    : Run (outboundState * env * io * bool * option sendError) :=
  match byRequest s !! r with
  | None => Done (s, e, o, false, None)
  | Some id =>
    match pending s !! id with
    | None => Done (s, e, o, false, None)
    | Some f =>
      '(e, o, res) ← resendFrame c f e o;
      match res with
      | inr err => Done (s, e, o, false, Some err)
      | inl f => Done (set_pending (<[id := f]> (pending s)) s, e, o, true, None)
      end
    end
  end.

(** ** One operation *)

Record outboundResult := mkResult { r_info : list Z; r_resent : bool; r_err : option sendError; r_acked : list Z }.

Definition handleOutboundOp (c : conn) (op : outboundOp) (s : outboundState) (e : env) (ds : deliveries) (o : io)
    : Run (outboundState * env * deliveries * io * outboundResult) :=
  if keyUnavailable c then
    '(s, e) ← releaseOp (budget s) op s e;
    Done (s, e, ds, o, mkResult [] false (Some ErrClosed) [])
  else
    match o_kind op with
    | OutboundSend m =>
      '(s, e, ds, o, err) ← handleOutboundSend c m (o_reservedBytes op) (o_budget op) s e ds o;
      Done (s, e, ds, o, mkResult [] false err [])
    | OutboundAck ids =>
      '(s, e, acks) ← ackWithDetails ids s e;
      '(s, e) ← releaseOp (budget s) op s e;
      Done (s, e, ds, o, mkResult [] false None (filter (λ r, r ≠ 0) (map a_reqMsgID acks)))
    | OutboundQueryState ids =>
      let info := stateInfo ids s in
      '(s, e) ← releaseOp (budget s) op s e;
      Done (s, e, ds, o, mkResult info false None [])
    | OutboundResend ids =>
      '(s, e, o, info, err) ← handleOutboundResend c ids s e o;
      '(s, e) ← releaseOp (budget s) op s e;
      Done (s, e, ds, o, mkResult info false err [])
    | OutboundResendByRequest r =>
      '(s, e, o, ok, err) ← handleOutboundResendByRequest c r s e o;
      '(s, e) ← releaseOp (budget s) op s e;
      Done (s, e, ds, o, mkResult [] ok err [])
    end.

(** ** Producers *)

(** [cloneRPCResultForRequestReservedContext]: the bytes of a replay are
    charged before the clone can be queued; the operation is what [take] makes
    of the reservation. *)
Definition cloneRPCResultForRequestReserved (c : conn) (m : encodedOutboundMessage) (r : Z) (d : option positive) (e : env)
    : Run (env * (outboundOp + sendError)) :=
  match cloneRPCResultForRequest c m r d with
  | None => Done (e, inr ErrRetarget)
  | Some m' =>
    let n := blen (m_body m') in
    if bool_decide (n > maxOutboundBodyBytes) then Done (e, inr ErrTooLarge)
    else
      let b := outboundMessageBudgetForPriority c (m_typeID m) (m_priority m) false in
      '(e, ok) ← reserveBudget b n e;
      Done (e, if (ok : bool) then inl (mkOp (OutboundSend m') n (Some b)) else inr ErrTrackedBudget)
  end.

(** ** Many sessions around the shared budgets *)

(** The resend states by address, the operations queued for them, the delivery
    objects, and everything that reached a writer. *)
Record world := mkWorld {
  w_env : env;
  w_states : gmap positive outboundState;
  w_ops : gmap positive (positive * outboundOp);
  w_deliveries : deliveries;
  w_wire : list (positive * attempt);
}.

Definition serverBody : positive := 1.
Definition serverControl : positive := 2.
Definition serverCritical : positive := 3.
Definition startWorld (body control critical : Z) : world :=
  mkWorld (mkEnv {[ serverBody := Tracked.newOutboundTrackedBudget body;
                    serverControl := Tracked.newOutboundTrackedBudget control;
                    serverCritical := Tracked.newOutboundTrackedBudget critical ]} []) ∅ ∅ ∅ [].

Inductive vectorOp := VecAck | VecQuery | VecResend.
Definition vectorOpKind (v : vectorOp) : list Z → opKind :=
  match v with VecAck => OutboundAck | VecQuery => OutboundQueryState | VecResend => OutboundResend end.

Inductive label :=
  | LOpen
  | LCredit (st : positive)
  | LDelivery (r : Z)
  | LRetarget (d : positive) (r : Z)
  | LSend (st : positive) (c : conn) (m : encodedOutboundMessage) (control : bool)
  | LReplay (st : positive) (c : conn) (r r' : Z)
  | LVector (st : positive) (c : conn) (v : vectorOp) (ids : list Z)
  | LByRequest (st : positive) (r : Z)
  | LHandle (q : positive) (c : conn)
  | LDrop (q : positive)
  | LRelease (st : positive).

(** Connections of the server charge the server's budgets. *)
Definition serverConn (c : conn) : bool :=
  bool_decide (bodyBudget c = serverBody) && bool_decide (controlBudget c = serverControl)
  && bool_decide (criticalBudget c = serverCritical).
(** Message ids leave room below the top of [int64] for a full outbox. *)
Definition idRoom (c : conn) (s : outboundState) : bool :=
  bool_decide (i64_min ≤ newMsgID c ≤ i64_max - 4 * maxTrackedServerMsgIDs)
  && bool_decide (lastMsgID s ≤ i64_max - 4 * maxTrackedServerMsgIDs - 4).
(** A message a producer may queue: a new identity, its credit from this
    session, and a size that its replay source reproduces. *)
Definition sendable (m : encodedOutboundMessage) (s : outboundState) (ds : deliveries) : bool :=
  bool_decide (replayMsgID m = 0)
  && match m_bulkCredit m with Some l => bool_decide (is_Some (Bulk.leases (window s) !! l)) | None => true end
  && match m_replaySource m with Some _ => bool_decide (0 < m_logicalBytes m) | None => true end
  && match m_delivery m with Some d => bool_decide (is_Some (ds !! d)) | None => true end.

Definition withEnv (e : env) (w : world) : world := mkWorld e (w_states w) (w_ops w) (w_deliveries w) (w_wire w).
Definition withState (st : positive) (s : outboundState) (w : world) : world :=
  mkWorld (w_env w) (<[st := s]> (w_states w)) (w_ops w) (w_deliveries w) (w_wire w).
Definition withOps (ops : gmap positive (positive * outboundOp)) (w : world) : world :=
  mkWorld (w_env w) (w_states w) ops (w_deliveries w) (w_wire w).
Definition withDeliveries (ds : deliveries) (w : world) : world :=
  mkWorld (w_env w) (w_states w) (w_ops w) ds (w_wire w).

(** Queue the operation a producer made, or report its error. *)
Definition enqueue (st : positive) (w : world) (r : env * (outboundOp + sendError)) : world :=
  match r.2 with
  | inl op => withOps (<[fresh (dom (w_ops w)) := (st, op)]> (w_ops w)) (withEnv r.1 w)
  | inr _ => withEnv r.1 w
  end.

(** One step; [None] when it is not enabled. *)
Definition wstep (l : label) (w : world) : option (Run world) :=
  match l with
  | LOpen => Some (Done (withState (fresh (dom (w_states w))) (newOutboundState serverBody) w))
  | LCredit st => s ← w_states w !! st; Some (Done (withState st (reserveBulkCredit s).1 w))
  | LDelivery r =>
    Some (Done (withDeliveries (<[fresh (dom (w_deliveries w)) := Delivery.newRPCResultDelivery r]> (w_deliveries w)) w))
  | LRetarget d r =>
    x ← w_deliveries w !! d;
    Some ('(x, _, _, _) ← Delivery.tryRetarget r x Delivery.newCoordinator;
          Done (withDeliveries (<[d := x]> (w_deliveries w)) w))
  | LSend st c m control =>
    s ← w_states w !! st;
    if serverConn c && sendable m s (w_deliveries w)
    then Some (r ← newOutboundSendOp c m control (w_env w); Done (enqueue st w r)) else None
  | LReplay st c r r' =>
    s ← w_states w !! st;
    m ← rpcResult r s;
    if serverConn c then
      let d := fresh (dom (w_deliveries w)) in
      let w := withDeliveries (<[d := Delivery.newRPCResultDelivery r']> (w_deliveries w)) w in
      Some (x ← cloneRPCResultForRequestReserved c m r' (Some d) (w_env w); Done (enqueue st w x))
    else None
  | LVector st c v ids =>
    _ ← w_states w !! st;
    if serverConn c then Some (r ← vectorKind (vectorOpKind v) ids c (w_env w); Done (enqueue st w r)) else None
  | LByRequest st r =>
    _ ← w_states w !! st; Some (Done (enqueue st w (w_env w, inl (mkOp (OutboundResendByRequest r) 0 None))))
  | LHandle q c =>
    p ← w_ops w !! q;
    s ← w_states w !! p.1;
    if serverConn c && idRoom c s then
      Some ('(s, e, ds, o, _) ← handleOutboundOp c p.2 s (w_env w) (w_deliveries w) (mkIo (writes c) []);
            Done (mkWorld e (<[p.1 := s]> (w_states w)) (delete q (w_ops w)) ds (w_wire w ++ map (pair p.1) (i_wire o))))
    else None
  | LDrop q =>
    p ← w_ops w !! q;
    s ← w_states w !! p.1;
    Some ('(s, e) ← releaseOp serverBody p.2 s (w_env w);
          Done (withEnv e (withState p.1 s (withOps (delete q (w_ops w)) w))))
  | LRelease st =>
    s ← w_states w !! st;
    Some ('(s, e) ← releaseAll s (w_env w); Done (withEnv e (withState st s w)))
  end.

Inductive wreachable (body control critical : Z) : world → Prop :=
  | wreach_start : wreachable body control critical (startWorld body control critical)
  | wreach_step l w w' :
      wreachable body control critical w → wstep l w = Some (Done w') → wreachable body control critical w'.

End actor.
End Actor.
