(* ===== verification/OutboundOps.v ===== *)
(** * The operations of the outbound actor keep the invariants

    One lemma per piece of [OutboundActor.v]: it runs without panic, keeps the
    invariant of the resend state, and moves exactly the bytes it says between
    the queue, the outbox and the budgets. *)

From S2P Require Import Prelude BulkScheduler BulkProps TrackedBudget RpcDelivery OutboundState OutboundInv OutboundActor.
Import Outbound Actor.

(** [n] bytes of budget [b]. *)
Definition bytesAt (b : positive) (n : Z) : positive → Z := λ b', if decide (b = b') then n else 0.
Lemma bytesAt_nonneg b n b' : 0 ≤ n → 0 ≤ bytesAt b n b'.
Proof. unfold bytesAt. case_decide; lia. Qed.
Lemma bytesAt_add b n n' b' : bytesAt b (n + n') b' = bytesAt b n b' + bytesAt b n' b'.
Proof. unfold bytesAt. case_decide; lia. Qed.
Lemma bytesAt_eq b n : bytesAt b n b = n.
Proof. unfold bytesAt. by rewrite decide_True. Qed.
Lemma bytesAt_0 b b' : bytesAt b 0 b' = 0.
Proof. unfold bytesAt. by case_decide. Qed.

(** The state's bytes and the bytes [x] held next to it are in the counters. *)
Record Covered (s : outboundState) (x : positive → Z) (e : env) : Prop := {
  cv_inv : EInv e;
  cv_default : is_Some (budgets e !! budget s);
  cv_budget id f : pending s !! id = Some f → is_Some (budgets e !! frameBudget (budget s) f);
  cv_nonneg b : 0 ≤ x b;
  cv_hold b : stateHold b s + x b ≤ usedOf b e;
}.

Lemma Covered_Backed s x e : Covered s x e → Backed s e.
Proof. intros []. split; try done. intros b. specialize (cv_nonneg0 b). specialize (cv_hold0 b). lia. Qed.
Lemma Covered_step s x e s' y e' δ :
  Covered s x e → Charged e e' δ → budget s' = budget s →
  (∀ id f, pending s' !! id = Some f → is_Some (budgets e !! frameBudget (budget s) f)) →
  (∀ b, 0 ≤ y b) → (∀ b, δ b = stateHold b s' + y b - stateHold b s - x b) → Covered s' y e'.
Proof.
  intros [] [HI Hk _ Hu] Hb Hf Hy Hd. split; [done|by rewrite Hb, Hk| |done|].
  - intros id f Hid. rewrite Hb, Hk. eauto.
  - intros b. rewrite Hu, Hd. specialize (cv_hold0 b). lia.
Qed.
(** An operation of the state itself, next to [x]. *)
Lemma Covered_backed_step s x e s' e' :
  Covered s x e → Backed s' e' → budget s' = budget s → Charged e e' (λ b, stateHold b s' - stateHold b s) → Covered s' x e'.
Proof.
  intros HC [_ _ Hk' _] Hb HCh. eapply Covered_step; [done|exact HCh|done| |apply HC|intros b; simpl; lia].
  intros id f Hf. destruct HCh as [_ Hk _ _]. rewrite <-Hk, <-Hb. eauto.
Qed.
(** The environment only: bytes move in and out of [x]. *)
Lemma Covered_env_step s x y e e' δ :
  Covered s x e → Charged e e' δ → (∀ b, 0 ≤ y b) → (∀ b, δ b = y b - x b) → Covered s y e'.
Proof.
  intros HC HCh Hy Hd. eapply Covered_step; [done|exact HCh|done|apply HC|done|]. intros b. rewrite Hd. lia.
Qed.
Lemma Covered_used s x e b : OInv s → Covered s x e → x b ≤ usedOf b e.
Proof. intros HI []. specialize (cv_hold0 b). pose proof (stateHold_nonneg b s HI). lia. Qed.

(** ** Credits *)

Lemma releaseCredit_ok l s e :
  Bulk.Inv (window s) → is_Some (Bulk.leases (window s) !! l) →
  ∃ w ns, releaseCredit l s e = Done (set_window w s, mkEnv (budgets e) (notices e ++ ns)) ∧
    Bulk.Inv w ∧ Grown (window s) w ∧ creditReleased w l.
Proof.
  intros HI Hl. unfold releaseCredit. destruct (release_progress l (window s) HI Hl) as (w & ns & -> & HP & Hy). simpl.
  exists w, ns. split; [done|]. pose proof (Grown_progress _ _ _ _ HP). destruct HP. split; [done|]. by split.
Qed.

Lemma OInv_set_window w s : OInv s → Bulk.Inv w → Grown (window s) w → OInv (set_window w s).
Proof.
  intros [[] HR HW ? ?] Hw HG. split; [|done|done|done|done]. split; simpl; try done.
  intros id f l Hf Hl. eapply Grown_known; [done|]. eauto.
Qed.

Definition creditKnown (m : encodedOutboundMessage) (s : outboundState) : Prop :=
  ∀ l, m_bulkCredit m = Some l → is_Some (Bulk.leases (window s) !! l).

Lemma releaseMessageCredit_ok m s e :
  OInv s → creditKnown m s →
  ∃ w ns, releaseMessageCredit m s e = Done (set_window w s, mkEnv (budgets e) (notices e ++ ns)) ∧
    OInv (set_window w s) ∧ Grown (window s) w ∧ (∀ l, m_bulkCredit m = Some l → creditReleased w l).
Proof.
  intros HI Hk. unfold releaseMessageCredit. destruct (m_bulkCredit m) as [l|] eqn:Hl.
  - destruct (releaseCredit_ok l s e (oi_window _ HI) (Hk l Hl)) as (w & ns & -> & HW & HG & Hr).
    exists w, ns. split; [done|]. split; [by apply OInv_set_window|]. split; [done|]. by intros l' [= <-].
  - exists (window s), []. rewrite app_nil_r. split; [by destruct s, e|]. split; [by destruct s|]. by split.
Qed.
Lemma Covered_notices s x e ns w : Covered s x e → Covered (set_window w s) x (mkEnv (budgets e) ns).
Proof. intros []. by split. Qed.

(** ** In-place changes *)

Lemma Covered_update s x e e' id f f' δ :
  Covered s x e → pending s !! id = Some f → reservationBudget f' = reservationBudget f →
  Charged e e' δ → (∀ b, δ b = frameHold (budget s) b f' - frameHold (budget s) b f) →
  Covered (set_pending (<[id := f']> (pending s)) s) x e'.
Proof.
  intros HC Hf Hb HCh Hd. eapply Covered_step; [done|exact HCh|done| |apply HC|].
  - simpl. intros id' y [[<- <-]|[_ ?]]%lookup_insert_Some; [|by eapply HC].
    unfold frameBudget. rewrite Hb. by eapply (cv_budget _ _ _ HC).
  - intros b. rewrite Hd, (stateHold_update s id f f' b Hf). lia.
Qed.

Lemma Persists_sent f a n : Persists f (set_sent a n f).
Proof. split; simpl; auto. Qed.
Lemma writeFrame_frame c f o o' f' ok :
  writeFrame c f o = (o', f', ok) →
  (f' = f ∨ f' = set_sent (now c) 1 f) ∧
  i_wire o' = i_wire o ++ [mkAttempt (msgID f) (seqNo f) (typeID f) (reqMsgID f) (body f) ok].
Proof.
  unfold writeFrame. destruct (i_writes o) as [|b ws]; intros [= <- <- <-]; simpl; (split; [|done]); [auto|].
  destruct (b && _); auto.
Qed.
Lemma sent_choice_facts c f f' :
  f' = f ∨ f' = set_sent (now c) 1 f →
  Persists f f' ∧ reservedBytes f' = reservedBytes f ∧ reservationBudget f' = reservationBudget f ∧ body f' = body f.
Proof. intros [->| ->]; (split; [|done]); [done|apply Persists_sent]. Qed.

(** ** The retarget *)

Section ops.
Context `{TypeIDs} `{Hash}.

(** What a message keeps when it is cloned under another request id. *)
Definition SameMessage (m m' : encodedOutboundMessage) : Prop :=
  m_typeID m' = m_typeID m ∧ m_replaySource m' = m_replaySource m ∧ m_logicalBytes m' = m_logicalBytes m ∧
  (m' = m ∨ (m_bulkCredit m' = None ∧ (m_reqMsgID m' ≠ m_reqMsgID m → replayMsgID m' = 0))).

Lemma cloneRPCResultForRequest_same c m r d m' :
  cloneRPCResultForRequest c m r d = Some m' → SameMessage m m' ∧ m_reqMsgID m' = r ∧ m_delivery m' = d ∧
  (r = m_reqMsgID m → replayMsgID m' = replayMsgID m ∧ replaySeqNo m' = replaySeqNo m) ∧ m_typeID m = ResultTypeID.
Proof.
  unfold cloneRPCResultForRequest. destruct (bool_decide (m_typeID m = ResultTypeID)) eqn:Ht; simpl; [|done].
  apply bool_decide_eq_true in Ht. destruct (bool_decide (r = 0)); [done|].
  destruct (materialize c m r) as [b|]; [|done]. simpl. intros [= <-]. unfold SameMessage. simpl.
  split; [|split; [done|split; [done|split; [|done]]]].
  - repeat (split; [done|]). right. split; [done|]. intros Hne. by rewrite bool_decide_false.
  - intros ->. by rewrite bool_decide_true.
Qed.

Definition heldTotal (h : held) : Z := h_reserved h + h_superseded h.
Definition heldOk (h : held) : Prop := 0 ≤ h_reserved h ∧ 0 ≤ h_superseded h.

Lemma retargetForWrite_ok c target b m h s e :
  OInv s → Covered s (bytesAt b (heldTotal h)) e → is_Some (budgets e !! b) → heldOk h →
  ∃ e' h' r, retargetForWrite c target b m h e = Done (e', h', r) ∧
    Covered s (bytesAt b (heldTotal h')) e' ∧ heldOk h' ∧
    Charged e e' (bytesAt b (heldTotal h' - heldTotal h)) ∧
    (∀ m', r = inl m' → SameMessage m m' ∧ (m' = m ∨ (m_reqMsgID m' = target ∧ replayMsgID m' = 0 ∧ m_typeID m = ResultTypeID))).
Proof.
  intros HI HC Hb Hh. unfold retargetForWrite.
  assert (Hskip : ∀ r, (∀ m', r = inl m' → m' = m) → ∃ e' h' r', @Done (env * held * (encodedOutboundMessage + sendError)) (e, h, r) = Done (e', h', r') ∧
    Covered s (bytesAt b (heldTotal h')) e' ∧ heldOk h' ∧ Charged e e' (bytesAt b (heldTotal h' - heldTotal h)) ∧
    (∀ m', r' = inl m' → SameMessage m m' ∧ (m' = m ∨ (m_reqMsgID m' = target ∧ replayMsgID m' = 0 ∧ m_typeID m = ResultTypeID)))).
  { intros r Hr. exists e, h, r. split; [done|]. split; [done|]. split; [done|]. split.
    - apply Charged_refl; [apply HC|]. intros b'. replace (heldTotal h - heldTotal h) with 0 by lia. apply bytesAt_0.
    - intros m' ->%Hr. split; [|by left]. repeat (split; [done|]). by left. }
  destruct (bool_decide (target = 0)); simpl; [apply Hskip; congruence|].
  destruct (bool_decide (target = m_reqMsgID m)) eqn:Htg; [apply Hskip; congruence|].
  apply bool_decide_eq_false in Htg. set (n := blen (m_body m)). assert (Hn : 0 ≤ n) by (unfold n, blen; lia).
  destruct (reserveBudget_ok b n e (cv_inv _ _ _ HC) Hb Hn) as (e1 & ok & -> & HCh & _). simpl.
  destruct ok; simpl.
  2:{ exists e1, h, (inr ErrTrackedBudget). split; [done|].
      assert (HCh0 : Charged e e1 (λ _, 0)) by (eapply Charged_ext; [exact HCh|]; intros b'; simpl; by case_decide).
      split; [eapply Covered_env_step; [exact HC|exact HCh0|intros b'; apply HC|intros b'; simpl; lia]|].
      split; [done|]. split; [|done]. eapply Charged_ext; [exact HCh0|]. intros b'.
      replace (heldTotal h - heldTotal h) with 0 by lia. apply bytesAt_0. }
  assert (HCn : Charged e e1 (bytesAt b n)) by exact HCh.
  assert (HC1 : Covered s (bytesAt b (heldTotal h + n)) e1).
  { eapply Covered_env_step; [exact HC|exact HCn| |intros b'; rewrite bytesAt_add; lia].
    intros b'. apply bytesAt_nonneg. unfold heldOk, heldTotal in *. lia. }
  destruct (cloneRPCResultForRequest c m target (m_delivery m)) as [m'|] eqn:Hcl.
  - destruct (cloneRPCResultForRequest_same _ _ _ _ _ Hcl) as (Hsm & Hr & _ & _ & Ht).
    eexists e1, (mkHeld n (h_superseded h + h_reserved h)), _. split; [done|]. unfold heldTotal, heldOk in *. simpl.
    split; [by replace (n + (h_superseded h + h_reserved h)) with (h_reserved h + h_superseded h + n) by lia|].
    split; [lia|]. split.
    + replace (n + (h_superseded h + h_reserved h) - (h_reserved h + h_superseded h)) with n by lia. done.
    + intros m2 [= <-]. split; [done|]. right. split; [done|]. split; [|done].
      destruct Hsm as (_ & _ & _ & [->|[_ Hz]]); [congruence|]. apply Hz. congruence.
  - destruct (releaseBudget_ok b n e1) as (e2 & -> & HCh2).
    { apply HC1. } { destruct HCn as [_ Hk _ _]. by apply Hk. }
    { split; [done|]. etrans; [|apply (Covered_used _ _ _ b HI HC1)]. rewrite bytesAt_eq. unfold heldOk, heldTotal in *. lia. }
    simpl. eexists e2, h, _. split; [done|].
    assert (HC2' : Charged e e2 (λ _, 0)).
    { eapply Charged_trans; [exact HCn|exact HCh2|]. intros b'. unfold bytesAt. case_decide; lia. }
    split; [eapply Covered_env_step; [exact HC|exact HC2'|intros b'; apply HC|intros b'; simpl; lia]|].
    split; [done|]. split; [|done]. eapply Charged_ext; [exact HC2'|]. intros b'.
    replace (heldTotal h - heldTotal h) with 0 by lia. apply bytesAt_0.
Qed.

(** ** Building the frame *)

(** The state after a message id was reserved. *)
Definition set_last (id : Z) (s : outboundState) : outboundState :=
  mkState (pending s) (order s) (byRequest s) (acked s) (ackOrder s) (ackOrderHead s) (totalBytes s) (maxMessages s)
    (maxBytes s) (budget s) (sentContentMessages s) id (window s).

Lemma buildFrame_ok c m s :
  ∃ id r, buildFrameWithState c m s = (set_last id s, r) ∧
    match r with
    | inr _ => id = lastMsgID s
    | inl f =>
      reservedBytes f = 0 ∧ typeID f = m_typeID m ∧ reqMsgID f = m_reqMsgID m ∧ body f = m_body m ∧
      bulkCredit f = m_bulkCredit m ∧ replaySource f = m_replaySource m ∧ logicalBytes f = m_logicalBytes m ∧ sentAt f = 0 ∧
      validateOutboundLayerBinding (layerProfile c) (layer f) = None ∧
      ((replayMsgID m ≠ 0 ∧ id = lastMsgID s ∧ msgID f = replayMsgID m ∧ seqNo f = replaySeqNo m) ∨
       (replayMsgID m = 0 ∧ (set_last id s, id) = reserveMsgID (newMsgID c) s ∧ msgID f = id ∧
        seqNo f = peekSeqNo (frameNeedsAck (m_typeID m)) s))
    end.
Proof.
  unfold buildFrameWithState. destruct (validateOutboundLayerBinding _ _) eqn:Hv.
  { exists (lastMsgID s). eexists. split; [by destruct s|done]. }
  destruct (_ || m_layerInvariant m).
  2:{ exists (lastMsgID s). eexists. split; [by destruct s|done]. }
  case_bool_decide as Hr.
  - unfold reserveMsgID. eexists _, _. split; [done|]. simpl. repeat (split; [done|]). right. done.
  - exists (lastMsgID s). eexists. split; [by destruct s|]. simpl. repeat (split; [done|]). left. done.
Qed.
Lemma OInv_set_last id s : OInv s → OInv (set_last id s).
Proof. intros []. by split. Qed.
Lemma Covered_set_last id s x e : Covered s x e → Covered (set_last id s) x e.
Proof. intros []. by split. Qed.
(** ** Entering the outbox *)

Definition inserted (f : outboundFrame) (s : outboundState) : outboundState :=
  mkState (<[msgID f := f]> (pending s)) (order s ++ [msgID f])
    (if bool_decide (reqMsgID f = 0) then byRequest s else <[reqMsgID f := msgID f]> (byRequest s))
    (acked s) (ackOrder s) (ackOrderHead s) (totalBytes s + logicalSize f) (maxMessages s) (maxBytes s) (budget s)
    (if frameNeedsAck (typeID f) then wrap32 (sentContentMessages s + 1) else sentContentMessages s)
    (lastMsgID s) (window s).

Definition frameCreditKnown (f : outboundFrame) (s : outboundState) : Prop :=
  ∀ l, bulkCredit f = Some l → is_Some (Bulk.leases (window s) !! l).

Lemma OInv_inserted f s :
  OInv s → pending s !! msgID f = None → 0 ≤ reservedBytes f → frameCreditKnown f s →
  (is_Some (replaySource f) → 0 < logicalBytes f) →
  Z.of_nat (size (pending s)) < maxMessages s → totalBytes s + logicalSize f ≤ maxBytes s →
  OInv (inserted f s).
Proof.
  intros [[Ht Hk Hr Ho Hres Hc Hs] HR HW Hms Hbs] Hnew Hpos Hcr Hsrc Hm Hb.
  split; [|done|done|simpl; rewrite map_size_insert_None by done; lia|done]. split; simpl.
  - rewrite msum_insert by done. lia.
  - intros id x [[<- <-]|[_ ?]]%lookup_insert_Some; eauto.
  - intros r id Hr'.
    assert (Hcase : (r ≠ 0 ∧ r = reqMsgID f ∧ id = msgID f) ∨ byRequest s !! r = Some id).
    { case_bool_decide; [auto|]. apply lookup_insert_Some in Hr' as [[<- <-]|[_ ?]]; auto. }
    destruct Hcase as [(Hr0 & -> & ->)|Hold].
    + split; [done|]. exists f. by rewrite lookup_insert_eq.
    + destruct (Hr _ _ Hold) as (Hr0 & x & Hx & Hreq). split; [done|]. exists x. split; [|done].
      rewrite lookup_insert_ne; [done|]. intros <-. congruence.
  - intros id [x [[<- <-]|[_ Hx]]%lookup_insert_Some]; [set_solver|].
    apply elem_of_app. left. apply Ho. by eexists.
  - intros id x [[<- <-]|[_ ?]]%lookup_insert_Some; eauto.
  - intros id x l [[<- <-]|[_ ?]]%lookup_insert_Some; eauto.
  - intros id x [[<- <-]|[_ ?]]%lookup_insert_Some; eauto.
Qed.

Lemma admitReserved_ok f s :
  OInv s → 0 ≤ reservedBytes f → frameCreditKnown f s → (is_Some (replaySource f) → 0 < logicalBytes f) →
  ∃ s' r, admitReserved f s = Done (s', r) ∧ OInv s' ∧
    match r with
    | AdmitOk => pending s !! msgID f = None ∧ s' = inserted f s
    | AdmitDuplicate => is_Some (pending s !! msgID f) ∧ s' = s
    | AdmitBudget => s' = s ∧ pending s !! msgID f = None ∧
        (Z.of_nat (size (pending s)) = maxMessages s ∨ totalBytes s + logicalSize f > maxBytes s)
    end.
Proof.
  intros HI Hpos Hcr Hsrc. unfold admitReserved.
  destruct (pending s !! msgID f) as [g|] eqn:Hf.
  { rewrite bool_decide_true by by eexists. eexists _, AdmitDuplicate. split; [done|]. split; [done|]. split; [by eexists|done]. }
  rewrite (bool_decide_false (is_Some None)) by apply is_Some_None.
  pose proof (oi_messages _ HI). pose proof (oi_bytes _ HI). pose proof (logicalSize_nonneg f) as Hsz.
  assert (Htot : 0 ≤ totalBytes s).
  { rewrite (fi_total _ _ _ _ _ (oi_frames _ HI)). apply msum_nonneg. intros. apply logicalSize_nonneg. }
  destruct (_ || _) eqn:Hcap.
  - eexists _, AdmitBudget. split; [done|]. split; [done|]. split; [done|]. split; [done|].
    rewrite !orb_true_iff, !bool_decide_eq_true in Hcap. lia.
  - rewrite !orb_false_iff, !bool_decide_eq_false in Hcap. destruct Hcap as [[Hm Hn] Ht].
    unfold insertReserved. rewrite Hf. rewrite (bool_decide_false (is_Some None)) by apply is_Some_None. simpl.
    eexists _, AdmitOk. split; [done|]. split; [|done]. apply OInv_inserted; try done; lia.
Qed.

Lemma stateHold_inserted f s b :
  pending s !! msgID f = None → stateHold b (inserted f s) = stateHold b s + frameHold (budget s) b f.
Proof. intros Hf. unfold stateHold, framesHold. simpl. rewrite msum_insert by done. lia. Qed.

Lemma placeFrame_ok f b h s e :
  OInv s → Covered s (bytesAt b (heldTotal h)) e → is_Some (budgets e !! b) → heldOk h →
  frameCreditKnown f s → (is_Some (replaySource f) → 0 < logicalBytes f) →
  ∃ s' h' r, placeFrame f b h s = Done (s', h', r) ∧ OInv s' ∧ Covered s' (bytesAt b (heldTotal h')) e ∧ heldOk h' ∧
    match r with
    | inr err => s' = s ∧ h' = h
    | inl (PlacedNot, f') => s' = s ∧ h' = h ∧ f' = f ∧ frameNeedsAck (typeID f) = false
    | inl (PlacedReplay, f') => s' = s ∧ h' = h ∧ ∃ g, pending s !! msgID f = Some g ∧ f' = set_body (body f) g
    | inl (PlacedNew, f') => f' = set_reservation (h_reserved h) (Some b) f ∧ pending s !! msgID f = None ∧
        s' = inserted f' s ∧ h' = mkHeld 0 (h_superseded h) ∧ frameNeedsAck (typeID f) = true
    end ∧
    (∀ b', stateHold b' s' + bytesAt b (heldTotal h') b' = stateHold b' s + bytesAt b (heldTotal h) b').
Proof.
  intros HI HC Hb Hh Hcr Hsrc. unfold placeFrame.
  assert (Hstay : ∀ r, match r with inr _ => True | inl (PlacedNot, f') => f' = f ∧ frameNeedsAck (typeID f) = false
      | inl (PlacedReplay, f') => ∃ g, pending s !! msgID f = Some g ∧ f' = set_body (body f) g | inl (PlacedNew, _) => False end →
    ∃ s' h' r', @Done (outboundState * held * (placed * outboundFrame + sendError)) (s, h, r) = Done (s', h', r') ∧ OInv s' ∧ Covered s' (bytesAt b (heldTotal h')) e ∧ heldOk h' ∧
    match r' with
    | inr err => s' = s ∧ h' = h
    | inl (PlacedNot, f') => s' = s ∧ h' = h ∧ f' = f ∧ frameNeedsAck (typeID f) = false
    | inl (PlacedReplay, f') => s' = s ∧ h' = h ∧ ∃ g, pending s !! msgID f = Some g ∧ f' = set_body (body f) g
    | inl (PlacedNew, f') => f' = set_reservation (h_reserved h) (Some b) f ∧ pending s !! msgID f = None ∧
        s' = inserted f' s ∧ h' = mkHeld 0 (h_superseded h) ∧ frameNeedsAck (typeID f) = true
    end ∧ (∀ b', stateHold b' s' + bytesAt b (heldTotal h') b' = stateHold b' s + bytesAt b (heldTotal h) b')).
  { intros r Hr. exists s, h, r. split; [done|]. split; [done|]. split; [done|]. split; [done|]. split; [|done].
    destruct r as [[[] f']|]; auto; done. }
  destruct (frameNeedsAck (typeID f)) eqn:Hack; simpl; [|by apply Hstay].
  destruct (if bool_decide (msgID f = 0) then None else pending s !! msgID f) as [g|] eqn:Hg.
  { apply Hstay. exists g. split; [|done]. by destruct (bool_decide (msgID f = 0)). }
  destruct (bool_decide (blen (body f) > maxTrackedServerBytes)); [by apply Hstay|].
  set (f' := set_reservation (h_reserved h) (Some b) f).
  destruct (admitReserved_ok f' s) as (s' & r & -> & HI' & Hr); [done|apply Hh|done|done|]. simpl.
  destruct r; [|destruct Hr as [_ ->]; by apply Hstay|destruct Hr as [-> _]; by apply Hstay].
  destruct Hr as [Hnew ->].
  assert (Hsum : ∀ b', stateHold b' (inserted f' s) + bytesAt b (h_superseded h) b' = stateHold b' s + bytesAt b (heldTotal h) b').
  { intros b'. rewrite stateHold_inserted by done. unfold heldTotal. rewrite bytesAt_add.
    unfold frameHold, frameBudget, bytesAt, f'. simpl. lia. }
  exists (inserted f' s), (mkHeld 0 (h_superseded h)). eexists. split; [done|]. split; [done|].
  assert (Htot : heldTotal (mkHeld 0 (h_superseded h)) = h_superseded h) by (unfold heldTotal; simpl; lia).
  rewrite Htot. split; [|split; [by destruct Hh|split; [done|exact Hsum]]].
  destruct HC as [Hinv Hd Hbud Hnn Hhold]. split; simpl; try done.
  - intros id x [[<- <-]|[_ ?]]%lookup_insert_Some; [done|eauto].
  - intros b'. apply bytesAt_nonneg, Hh.
  - intros b'. rewrite Hsum. apply Hhold.
Qed.

(** ** The first write *)

Lemma compactImmutableFrame_ok d f e :
  EInv e → is_Some (budgets e !! frameBudget d f) → 0 ≤ reservedBytes f → reservedBytes f ≤ usedOf (frameBudget d f) e →
  ∃ f' e' ok, compactImmutableFrame d f e = Done (f', e', ok) ∧ Persists f f' ∧ 0 ≤ reservedBytes f' ∧
    reservationBudget f' = reservationBudget f ∧ Charged e e' (λ b, frameHold d b f' - frameHold d b f) ∧
    (ok = true → body f' = [] ∧ reservedBytes f' < reservedBytes f) ∧ (ok = false → f' = f).
Proof.
  intros HI Hb Hpos Hle. unfold compactImmutableFrame.
  assert (Hno : ∃ f' e' ok, @Done (outboundFrame * env * bool) (f, e, false) = Done (f', e', ok) ∧ Persists f f' ∧ 0 ≤ reservedBytes f' ∧
    reservationBudget f' = reservationBudget f ∧ Charged e e' (λ b, frameHold d b f' - frameHold d b f) ∧
    (ok = true → body f' = [] ∧ reservedBytes f' < reservedBytes f) ∧ (ok = false → f' = f)).
  { exists f, e, false. split; [done|]. split; [done|]. split; [done|]. split; [done|].
    split; [apply Charged_refl; [done|intros; lia]|done]. }
  destruct (replaySource f) as [src|] eqn:Hsrc; [|done]. set (charge := Z.max _ _).
  destruct (_ || _) eqn:Hc; [done|]. rewrite !orb_false_iff, !bool_decide_eq_false in Hc.
  destruct Hc as [[[Hbody Hcomp] Hch] Hlt].
  destruct (releaseBudget_ok (frameBudget d f) (reservedBytes f - charge) e HI Hb ltac:(lia)) as (e' & Heq & HC).
  unfold frameBudget in Heq. rewrite Heq. simpl. eexists _, e', true. split; [done|]. split.
  { split; simpl; try done. right. rewrite Hsrc. split; [done|]. split; [by eexists|done]. }
  split; [simpl; lia|]. split; [done|]. split; [|split; [simpl; split; [done|lia]|done]].
  eapply Charged_ext; [exact HC|]. intros b. unfold frameHold, frameBudget. simpl. case_decide; lia.
Qed.

Lemma writePlaced_ok c p f s e o x :
  OInv s → Covered s x e → (p = PlacedNew → pending s !! msgID f = Some f) →
  ∃ s' e' o' err, writePlaced c p f s e o = Done (s', e', o', err) ∧ OInv s' ∧ Covered s' x e' ∧
    Charged e e' (λ b, stateHold b s' - stateHold b s) ∧
    i_wire o' = i_wire o ++ [mkAttempt (msgID f) (seqNo f) (typeID f) (reqMsgID f) (body f) (bool_decide (err = None))] ∧
    match p with
    | PlacedNew => ∃ f', Persists f f' ∧ s' = set_pending (<[msgID f := f']> (pending s)) s
    | _ => s' = s
    end.
Proof.
  intros HI HC Hp. unfold writePlaced. destruct (writeFrame c f o) as [[o' f1] ok] eqn:Hw.
  destruct (writeFrame_frame _ _ _ _ _ _ Hw) as [Hf1 Hwire]. destruct (sent_choice_facts _ _ _ Hf1) as (HP1 & Hr1 & Hb1 & _).
  assert (Hok : bool_decide ((if ok then None else Some ErrWrite) = @None sendError) = ok) by by destruct ok.
  assert (Hid1 : msgID f1 = msgID f) by apply HP1.
  destruct p.
  - eexists s, e, o', _. split; [done|]. rewrite Hok. split; [done|]. split; [done|]. split; [|done].
    apply Charged_refl; [apply HC|intros; lia].
  - eexists s, e, o', _. split; [done|]. rewrite Hok. split; [done|]. split; [done|]. split; [|done].
    apply Charged_refl; [apply HC|intros; lia].
  - specialize (Hp eq_refl). pose proof (oi_reserved _ _ _ HI Hp) as Hpos.
    assert (Hhold1 : ∀ b, frameHold (budget s) b f1 = frameHold (budget s) b f).
    { intros b. unfold frameHold, frameBudget. by rewrite Hr1, Hb1. }
    destruct (bool_decide (is_Some (replaySource f1))).
    + assert (HB1 : frameBudget (budget s) f1 = frameBudget (budget s) f) by (unfold frameBudget; by rewrite Hb1).
      destruct (compactImmutableFrame_ok (budget s) f1 e) as (f2 & e' & ok2 & -> & HP2 & Hpos2 & Hb2 & HCh & _).
      { apply HC. } { rewrite HB1. by eapply (cv_budget _ _ _ HC). } { lia. }
      { rewrite HB1, Hr1. pose proof (cv_hold _ _ _ HC (frameBudget (budget s) f)) as Hh.
        pose proof (cv_nonneg _ _ _ HC (frameBudget (budget s) f)).
        pose proof (stateHold_lookup (frameBudget (budget s) f) _ _ _ HI Hp) as Hl.
        unfold frameHold in Hl. rewrite decide_True in Hl by done. lia. }
      simpl. assert (HP : Persists f f2) by by etrans. assert (Hid2 : msgID f2 = msgID f) by apply HP.
      eexists _, e', o', _. split; [done|]. rewrite Hok, Hid2.
      split; [by eapply OInv_update|]. split; [|split; [|split; [done|]]].
      * eapply Covered_update; [done|exact Hp|congruence|exact HCh|]. intros b. simpl. rewrite Hhold1. lia.
      * eapply Charged_ext; [exact HCh|]. intros b. simpl. rewrite (stateHold_update _ _ _ _ _ Hp), Hhold1. lia.
      * by exists f2.
    + eexists _, e, o', _. split; [done|]. rewrite Hok, Hid1.
      split; [eapply OInv_update; [done|done|done|lia]|]. split; [|split; [|split; [done|]]].
      * eapply (Covered_update _ _ _ _ _ _ _ (λ _, 0)); [done|exact Hp|congruence|apply Charged_refl; [apply HC|done]|].
        intros b. simpl. rewrite Hhold1. lia.
      * apply Charged_refl; [apply HC|]. intros b. rewrite (stateHold_update _ _ _ _ _ Hp), Hhold1. lia.
      * by exists f1.
Qed.
(** ** The whole handler of a send *)

Definition matches (a : attempt) (f : outboundFrame) : Prop :=
  t_msgID a = msgID f ∧ t_seqNo a = seqNo f ∧ t_typeID a = typeID f ∧ t_reqMsgID a = reqMsgID f.

(** The frame a message is built into: a replay carries the identity of the
    first write, anything else a fresh one. *)
Definition BuiltBy (c : conn) (m : encodedOutboundMessage) (s : outboundState) (last : Z) (f : outboundFrame) : Prop :=
  typeID f = m_typeID m ∧
  ((replayMsgID m ≠ 0 ∧ last = lastMsgID s ∧ msgID f = replayMsgID m ∧ seqNo f = replaySeqNo m ∧ reqMsgID f = m_reqMsgID m) ∨
   (last = (reserveMsgID (newMsgID c) s).2 ∧ msgID f = last ∧ seqNo f = peekSeqNo (frameNeedsAck (typeID f)) s)).

(** What a send does to the outbox and the wire. *)
Inductive SendOutcome (c : conn) (m : encodedOutboundMessage) (s : outboundState) :
    outboundState → list attempt → Prop :=
  | OutcomeFailed s' :
      pending s' = pending s → byRequest s' = byRequest s →
      lastMsgID s' = lastMsgID s ∨ lastMsgID s' = (reserveMsgID (newMsgID c) s).2 →
      SendOutcome c m s s' []
  | OutcomeUnreliable f a s' :
      BuiltBy c m s (lastMsgID s') f → matches a f → frameNeedsAck (typeID f) = false →
      pending s' = pending s → byRequest s' = byRequest s →
      SendOutcome c m s s' [a]
  | OutcomeReplayed f g a s' :
      BuiltBy c m s (lastMsgID s') f → pending s !! msgID f = Some g → matches a g →
      pending s' = pending s → byRequest s' = byRequest s →
      SendOutcome c m s s' [a]
  | OutcomeRetained f f' a s' :
      BuiltBy c m s (lastMsgID s') f → matches a f → frameNeedsAck (typeID f) = true →
      pending s !! msgID f = None → Persists f f' → pending s' = <[msgID f := f']> (pending s) →
      byRequest s' = (if bool_decide (reqMsgID f = 0) then byRequest s else <[reqMsgID f := msgID f]> (byRequest s)) →
      SendOutcome c m s s' [a].

(** What every operation of the actor guarantees of the state it leaves. *)
Record Sound (s s' : outboundState) (e e' : env) (x : positive → Z) : Prop := {
  sd_inv : OInv s';
  sd_backed : Backed s' e';
  sd_budget : budget s' = budget s;
  sd_messages : maxMessages s' = maxMessages s;
  sd_bytes : maxBytes s' = maxBytes s;
  sd_window : Grown (window s) (window s');
  sd_charged : Charged e e' (λ b, stateHold b s' - stateHold b s - x b);
}.

Definition sourceOk (m : encodedOutboundMessage) : Prop := is_Some (m_replaySource m) → 0 < m_logicalBytes m.

(** The stage between the retarget and the deferred releases. *)
Definition StageOk (b : positive) (h : held) (s : outboundState) (e : env) (s' : outboundState) (e' : env) (h' : held) : Prop :=
  OInv s' ∧ Covered s' (bytesAt b (heldTotal h')) e' ∧ heldOk h' ∧
  (budget s' = budget s ∧ maxMessages s' = maxMessages s ∧ maxBytes s' = maxBytes s) ∧ Grown (window s) (window s') ∧
  Charged e e' (λ b', stateHold b' s' + bytesAt b (heldTotal h') b' - stateHold b' s - bytesAt b (heldTotal h) b').

Lemma failSend_ok m h err b s e o :
  OInv s → Covered s (bytesAt b (heldTotal h)) e → heldOk h → creditKnown m s →
  ∃ w e', failSend m h err s e o = Done (set_window w s, e', o, h, Some err) ∧ StageOk b h s e (set_window w s) e' h.
Proof.
  intros HI HC Hh Hk. unfold failSend.
  destruct (releaseMessageCredit_ok m s e HI Hk) as (w & ns & -> & HI' & HG & _). simpl.
  exists w, (mkEnv (budgets e) (notices e ++ ns)). split; [done|]. split; [done|]. split; [by apply Covered_notices|]. split; [done|]. split; [done|]. split; [done|].
  apply Charged_add_notices, Charged_refl; [apply HC|]. intros b'. unfold stateHold, framesHold. simpl. lia.
Qed.

Lemma sendBuilt_ok c m f b h s e o :
  OInv s → Covered s (bytesAt b (heldTotal h)) e → is_Some (budgets e !! b) → heldOk h →
  creditKnown m s → bulkCredit f = m_bulkCredit m → (is_Some (replaySource f) → 0 < logicalBytes f) →
  ∃ s' e' o' h' err, sendBuilt c m f b h s e o = Done (s', e', o', h', err) ∧ StageOk b h s e s' e' h' ∧
    lastMsgID s' = lastMsgID s ∧
    ((i_wire o' = i_wire o ∧ pending s' = pending s ∧ byRequest s' = byRequest s) ∨
     ∃ a, i_wire o' = i_wire o ++ [a] ∧
       ((matches a f ∧ frameNeedsAck (typeID f) = false ∧ pending s' = pending s ∧ byRequest s' = byRequest s) ∨
        (∃ g, pending s !! msgID f = Some g ∧ matches a g ∧ pending s' = pending s ∧ byRequest s' = byRequest s) ∨
        (matches a f ∧ frameNeedsAck (typeID f) = true ∧ pending s !! msgID f = None ∧
         (∃ f', Persists f f' ∧ pending s' = <[msgID f := f']> (pending s)) ∧
         byRequest s' = (if bool_decide (reqMsgID f = 0) then byRequest s else <[reqMsgID f := msgID f]> (byRequest s))))).
Proof.
  intros HI HC Hb Hh Hk Hcred Hsrc. unfold sendBuilt.
  destruct (placeFrame_ok f b h s e HI HC Hb Hh ltac:(intros l Hl; apply Hk; congruence) Hsrc)
    as (s1 & h1 & r & -> & HI1 & HC1 & Hh1 & Hr & Hsum). simpl.
  destruct r as [[p f1]|err].
  2:{ destruct Hr as [-> ->]. destruct (failSend_ok m h err b s e o HI HC Hh Hk) as (w & e' & -> & Hst).
      eexists _, _, _, _, _. split; [done|]. split; [done|]. split; [done|]. left. done. }
  assert (Hp : p = PlacedNew → pending s1 !! msgID f1 = Some f1).
  { intros ->. destruct Hr as (-> & _ & -> & _). simpl. by rewrite lookup_insert_eq. }
  destruct (writePlaced_ok c p f1 s1 e o _ HI1 HC1 Hp) as (s2 & e2 & o2 & err & -> & HI2 & HC2 & HCh2 & Hwire & Hs2). simpl.
  assert (HCh : ∀ s3, (∀ b', stateHold b' s3 = stateHold b' s2) → Charged e e2 (λ b', stateHold b' s3 + bytesAt b (heldTotal h1) b' - stateHold b' s - bytesAt b (heldTotal h) b')).
  { intros s3 Hs3. eapply Charged_ext; [exact HCh2|]. intros b'. specialize (Hsum b'). rewrite Hs3. lia. }
  destruct p.
  - destruct Hr as (-> & -> & -> & Hack). subst s2.
    destruct (releaseMessageCredit_ok m s e2 HI2 Hk) as (w & ns & -> & HI' & HG & _). simpl.
    eexists _, _, _, _, _. split; [done|]. split.
    { split; [done|]. split; [by apply Covered_notices|]. split; [done|]. split; [done|]. split; [done|].
      apply Charged_add_notices. by apply HCh. }
    split; [done|]. right. eexists. split; [exact Hwire|]. left. done.
  - destruct Hr as (-> & -> & g & Hg & ->). subst s2. eexists _, _, _, _, _. split; [done|]. split.
    { split; [done|]. split; [done|]. split; [done|]. split; [done|]. split; [done|]. by apply HCh. }
    split; [done|]. right. eexists. split; [exact Hwire|]. right. left. by exists g.
  - destruct Hr as (-> & Hnew & -> & -> & Hack). destruct Hs2 as (f2 & HP & ->).
    eexists _, _, _, _, _. split; [done|]. split.
    { split; [done|]. split; [done|]. split; [done|]. split; [done|]. split; [done|]. by apply HCh. }
    split; [done|]. right. eexists. split; [exact Hwire|]. right. right. simpl.
    split; [done|]. split; [done|]. split; [done|]. split; [|done]. exists f2. split; [|by rewrite insert_insert_eq].
    etrans; [|exact HP]. split; simpl; auto.
Qed.

Lemma StageOk_set_last b h id s e s' e' h' : StageOk b h (set_last id s) e s' e' h' → StageOk b h s e s' e' h'.
Proof. done. Qed.

Lemma reserveMsgID_last c s id : (set_last id s, id) = reserveMsgID (newMsgID c) s → id = (reserveMsgID (newMsgID c) s).2.
Proof. by intros <-. Qed.

Lemma sendMessage_ok c m b h s e o :
  OInv s → Covered s (bytesAt b (heldTotal h)) e → is_Some (budgets e !! b) → heldOk h →
  creditKnown m s → sourceOk m →
  ∃ s' e' o' h' err new, sendMessage c m b h s e o = Done (s', e', o', h', err) ∧ StageOk b h s e s' e' h' ∧
    i_wire o' = i_wire o ++ new ∧ SendOutcome c m s s' new.
Proof.
  intros HI HC Hb Hh Hk Hsrc. unfold sendMessage.
  destruct (buildFrame_ok c m s) as (id & r & -> & Hr).
  pose proof (OInv_set_last id s HI) as HI'. pose proof (Covered_set_last id s _ e HC) as HC'.
  destruct r as [f|err].
  2:{ destruct (failSend_ok m h err b (set_last id s) e o HI' HC' Hh Hk) as (w & e' & -> & Hst).
      eexists _, _, _, _, _, []. split; [done|]. split; [by apply StageOk_set_last in Hst|]. rewrite app_nil_r. split; [done|].
      apply OutcomeFailed; simpl; auto. }
  destruct Hr as (_ & Hty & Hreq & _ & Hcr & Hrs & Hlb & _ & _ & Hid).
  destruct (sendBuilt_ok c m f b h (set_last id s) e o) as (s' & e' & o' & h' & err & -> & Hst & Hlast & Hcase); auto.
  { intros Hs. rewrite Hlb. apply Hsrc. congruence. }
  eexists s', e', o', h', err. simpl in Hlast.
  assert (HB : BuiltBy c m s (lastMsgID s') f).
  { unfold BuiltBy. split; [done|]. rewrite Hlast. destruct Hid as [(? & -> & ? & ?)|(? & Hres & ? & Hseq)]; [left; auto|right].
    rewrite <-(reserveMsgID_last _ _ _ Hres). split; [done|]. split; [done|]. by rewrite Hty. }
  destruct Hcase as [(Hw & Hp & Hbr)|(a & Hw & Hcase)].
  - exists []. rewrite app_nil_r. split; [done|]. split; [by apply StageOk_set_last in Hst|]. split; [done|].
    apply OutcomeFailed; [done|done|]. rewrite Hlast. destruct Hid as [(_ & -> & _)|(_ & Hres & _)]; [auto|].
    right. by apply reserveMsgID_last.
  - exists [a]. split; [done|]. split; [by apply StageOk_set_last in Hst|]. split; [done|].
    destruct Hcase as [(? & ? & ? & ?)|[(g & ? & ? & ? & ?)|(? & ? & ? & (f' & ? & ?) & ?)]].
    + by eapply OutcomeUnreliable.
    + by eapply OutcomeReplayed.
    + by eapply OutcomeRetained.
Qed.

(** The deferred releases: nothing of the queue's bytes is left behind. *)
Lemma finishSend_ok b h s e :
  OInv s → Covered s (bytesAt b (heldTotal h)) e → is_Some (budgets e !! b) → heldOk h →
  ∃ e1 e2, releaseBudget b (h_reserved h) e = Done e1 ∧ releaseBudget b (h_superseded h) e1 = Done e2 ∧
    Backed s e2 ∧ Charged e e2 (λ b', - bytesAt b (heldTotal h) b').
Proof.
  intros HI HC Hb [H1 H2]. pose proof (Covered_used _ _ _ b HI HC) as Hu. rewrite bytesAt_eq in Hu. unfold heldTotal in *.
  destruct (releaseBudget_ok b (h_reserved h) e (cv_inv _ _ _ HC) Hb ltac:(lia)) as (e1 & Heq1 & HC1).
  destruct (releaseBudget_ok b (h_superseded h) e1) as (e2 & Heq2 & HC2).
  { apply HC1. } { by apply (ch_known _ _ _ HC1). } { rewrite (ch_used _ _ _ HC1). rewrite decide_True by done. lia. }
  assert (HCh : Charged e e2 (λ b', - bytesAt b (h_reserved h + h_superseded h) b')).
  { eapply Charged_trans; [exact HC1|exact HC2|]. intros b'. unfold bytesAt. simpl. case_decide; lia. }
  exists e1, e2. split; [done|]. split; [done|]. split; [|done].
  eapply Covered_Backed, (Covered_env_step _ _ (λ _, 0)); [exact HC|exact HCh|done|intros b'; simpl; lia].
Qed.

Lemma beginWritingMessage_ok m (ds : gmap positive Delivery.rpcResultDelivery) :
  (∀ d, m_delivery m = Some d → is_Some (ds !! d)) →
  ∃ ds' target, beginWritingMessage m ds = Done (ds', target) ∧ ∀ d, is_Some (ds' !! d) ↔ is_Some (ds !! d).
Proof.
  intros Hd. unfold beginWritingMessage. destruct (m_delivery m) as [d|]; [|by eexists _, _].
  destruct (Hd d eq_refl) as [x Hx]. rewrite Hx. simpl. eexists _, _. split; [done|]. intros d'.
  destruct (decide (d = d')) as [<-|Hne]; [|by rewrite lookup_insert_ne].
  rewrite lookup_insert_eq, Hx. by split; intros _; eexists.
Qed.

Lemma handleOutboundSend_ok c m reserved ob s e ds o :
  let b := from_option id (budget s) ob in
  OInv s → Covered s (bytesAt b reserved) e → is_Some (budgets e !! b) → 0 ≤ reserved →
  creditKnown m s → sourceOk m → (∀ d, m_delivery m = Some d → is_Some (ds !! d)) →
  ∃ s' e' ds' o' err new m1, handleOutboundSend c m reserved ob s e ds o = Done (s', e', ds', o', err) ∧
    Sound s s' e e' (bytesAt b reserved) ∧ (∀ d, is_Some (ds' !! d) ↔ is_Some (ds !! d)) ∧
    i_wire o' = i_wire o ++ new ∧ (m1 = m ∨ (replayMsgID m1 = 0 ∧ m_typeID m1 = m_typeID m)) ∧ SendOutcome c m1 s s' new.
Proof.
  intros b HI HC Hb Hr Hk Hsrc Hd. unfold handleOutboundSend. fold b.
  destruct (beginWritingMessage_ok m ds Hd) as (ds' & target & -> & Hds). simpl.
  assert (HC0 : Covered s (bytesAt b (heldTotal (mkHeld reserved 0))) e).
  { unfold heldTotal. simpl. by rewrite Z.add_0_r. }
  destruct (retargetForWrite_ok c target b m (mkHeld reserved 0) s e HI HC0 Hb) as (e1 & h1 & r & -> & HC1 & Hh1 & HCh1 & Hm);
    [by split; simpl|]. simpl.
  assert (Hb1 : is_Some (budgets e1 !! b)) by by apply (ch_known _ _ _ HCh1).
  assert (Hstage : ∃ s' e' o' h' err new m1,
    match r with inr err => failSend m h1 err s e1 o | inl m => sendMessage c m b h1 s e1 o end = Done (s', e', o', h', err) ∧
    StageOk b h1 s e1 s' e' h' ∧ i_wire o' = i_wire o ++ new ∧
    (m1 = m ∨ (replayMsgID m1 = 0 ∧ m_typeID m1 = m_typeID m)) ∧ SendOutcome c m1 s s' new).
  { destruct r as [m'|err].
    - destruct (Hm m' eq_refl) as [Hsm Hor]. pose proof Hsm as (Hty & Hrs & Hlb & Hcr).
      destruct (sendMessage_ok c m' b h1 s e1 o HI HC1 Hb1 Hh1) as (s' & e' & o' & h' & err & new & -> & Hst & Hw & Ho).
      { intros l Hl. destruct Hcr as [->|[Hnone _]]; [by apply Hk|congruence]. }
      { intros Hs. rewrite Hlb. apply Hsrc. congruence. }
      eexists s', e', o', h', err, new, m'. split; [done|]. split; [done|]. split; [done|]. split; [|done].
      destruct Hor as [->|(_ & ? & _)]; auto.
    - destruct (failSend_ok m h1 err b s e1 o HI HC1 Hh1 Hk) as (w & e' & -> & Hst).
      eexists _, _, _, _, _, [], m. split; [done|]. split; [done|]. rewrite app_nil_r. split; [done|]. split; [auto|].
      apply OutcomeFailed; auto. }
  destruct Hstage as (s' & e2 & o' & h2 & err & new & m1 & -> & (HI2 & HC2 & Hh2 & (Hbud & Hmm & Hmb) & HG & HCh2) & Hw & Hm1 & Ho). simpl.
  assert (Hb2 : is_Some (budgets e2 !! b)) by by apply (ch_known _ _ _ HCh2).
  destruct (finishSend_ok b h2 s' e2 HI2 HC2 Hb2 Hh2) as (e3 & e4 & -> & Heq & HB & HCh3). simpl. rewrite Heq. simpl.
  exists s', e4, ds', o', err, new, m1. split; [done|]. split; [|done]. split; try done.
  eapply Charged_trans; [exact HCh1|eapply Charged_trans; [exact HCh2|exact HCh3|intros b'; simpl; reflexivity]|].
  intros b'. simpl. unfold heldTotal at 2. simpl.
  replace (heldTotal h1 - (reserved + 0)) with (heldTotal h1 + - reserved) by lia. rewrite bytesAt_add.
  unfold bytesAt. case_decide; lia.
Qed.

(** ** Resending *)

(** The budgets a connection may charge exist. *)
Definition connBudgets (c : conn) (e : env) : Prop :=
  is_Some (budgets e !! bodyBudget c) ∧ is_Some (budgets e !! controlBudget c) ∧ is_Some (budgets e !! criticalBudget c).
Lemma connBudgets_charged c e e' δ : Charged e e' δ → connBudgets c e → connBudgets c e'.
Proof. intros [_ Hk _ _]. unfold connBudgets. by rewrite !Hk. Qed.
Lemma connBudgets_pick c e t p ctl : connBudgets c e → is_Some (budgets e !! outboundMessageBudgetForPriority c t p ctl).
Proof. intros (? & ? & ?). unfold outboundMessageBudgetForPriority. destruct (_ || _); [done|]. by case_bool_decide. Qed.

(** The bytes of a resent frame are those it retains, or a rebuilt result
    whose content has the recorded length and digest. *)
Definition resentBody (f : outboundFrame) (bs : list Z) : Prop :=
  bs = body f ∨
  (body f = [] ∧ ∃ inner, bs = le_bytes 4 ResultTypeID ++ le_bytes 8 (reqMsgID f) ++ inner ∧
     blen inner = uncompressedBytes f ∧ sha256 inner = innerDigest f).

Lemma materialized_spec c f g :
  body f = [] → materialized c f = Some g → (∃ bs, g = set_body bs f ∧ resentBody f bs).
Proof.
  intros Hb. unfold materialized. rewrite Hb. unfold blen. simpl.
  unfold materialize. simpl. destruct (_ || _); simpl; [done|].
  destruct (replaySource f) as [src|]; simpl; [|done]. destruct (compressed f); simpl; [done|].
  destruct (encodeInner c src) as [inner|]; simpl; [|done].
  destruct (negb _ || negb _) eqn:Hchk; [done|]. destruct (_ && negb _); simpl; [done|]. intros [= <-].
  apply orb_false_iff in Hchk as [Hlen%negb_false_iff%bool_decide_eq_true Hdig%negb_false_iff%bool_decide_eq_true].
  eexists. split; [done|]. right. split; [done|]. by exists inner.
Qed.

Lemma resendFrame_ok c f e o :
  EInv e → connBudgets c e →
  ∃ e' o' r, resendFrame c f e o = Done (e', o', r) ∧ Charged e e' (λ _, 0) ∧
    (i_wire o' = i_wire o ∨ ∃ a, i_wire o' = i_wire o ++ [a] ∧ matches a f ∧ resentBody f (t_body a)) ∧
    ∀ f', r = inl f' → Persists f f' ∧ reservedBytes f' = reservedBytes f ∧ reservationBudget f' = reservationBudget f ∧ body f' = body f.
Proof.
  intros HI Hcb. unfold resendFrame.
  assert (Hrefl : Charged e e (λ _, 0)) by (by apply Charged_refl).
  destruct (bool_decide (blen (body f) > 0)) eqn:Hlen.
  - destruct (writeFrame c f o) as [[o' f1] ok] eqn:Hw. destruct (writeFrame_frame _ _ _ _ _ _ Hw) as [Hf1 Hwire].
    eexists e, o', _. split; [done|]. split; [done|]. split; [right; eexists; split; [exact Hwire|by split; [|left]]|].
    destruct (sent_choice_facts _ _ _ Hf1) as (HP & Hr & Hb & Hbd).
    intros f' Heq. destruct ok; [|done]. injection Heq as <-. simpl. split; [|done]. etrans; [exact HP|apply Persists_sent].
  - apply bool_decide_eq_false in Hlen. assert (Hnil : body f = []).
    { unfold blen in Hlen. destruct (body f); [done|]. simpl in Hlen. lia. }
    destruct (materialized c f) as [g|] eqn:Hm; [|by eexists e, o, _; split; [done|split; [done|split; [by left|]]]].
    destruct (materialized_spec _ _ _ Hnil Hm) as (bs & -> & Hbs). simpl. set (b := outboundMessageBudgetForPriority _ _ _ _).
    assert (Hn : 0 ≤ blen bs) by (unfold blen; lia). assert (Hb : is_Some (budgets e !! b)) by by apply connBudgets_pick.
    destruct (reserveBudget_ok b (blen bs) e HI Hb Hn) as (e1 & ok & -> & HC1 & _). simpl. destruct ok; simpl.
    2:{ eexists e1, o, _. split; [done|]. split; [|by split; [left|]].
        eapply Charged_ext; [exact HC1|]. intros b'. simpl. by case_decide. }
    destruct (writeFrame c (set_body bs f) o) as [[o' f1] ok] eqn:Hw.
    destruct (writeFrame_frame _ _ _ _ _ _ Hw) as [_ Hwire].
    destruct (releaseBudget_ok b (blen bs) e1) as (e2 & -> & HC2).
    { apply HC1. } { by apply (ch_known _ _ _ HC1). }
    { rewrite (ch_used _ _ _ HC1), decide_True by done. pose proof (usedOf_range b e HI). lia. }
    simpl. eexists e2, o', _. split; [done|]. split.
    { eapply Charged_trans; [exact HC1|exact HC2|]. intros b'. simpl. case_decide; lia. }
    split; [right; eexists; split; [exact Hwire|by split]|].
    intros f' Heq. destruct ok; [|done]. injection Heq as <-. split; [apply Persists_sent|done].
Qed.

(** The outbox evolves: frames persist, or leave for the reason [dropped]. *)
Record Retains (dropped : Z → outboundFrame → Prop) (s s' : outboundState) : Prop := {
  rt_fwd id g : pending s !! id = Some g →
    (∃ g', pending s' !! id = Some g' ∧ Persists g g') ∨ (pending s' !! id = None ∧ dropped id g);
  rt_bwd id g' : pending s' !! id = Some g' → ∃ g, pending s !! id = Some g ∧ Persists g g';
  rt_req r id : byRequest s !! r = Some id → is_Some (pending s' !! id) → byRequest s' !! r = Some id;
  rt_last : lastMsgID s' = lastMsgID s;
}.
Lemma Retains_same (D : Z → outboundFrame → Prop) s s' :
  pending s' = pending s → byRequest s' = byRequest s → lastMsgID s' = lastMsgID s → Retains D s s'.
Proof.
  intros Hp Hb Hl. split; rewrite ?Hp, ?Hb; try done.
  - intros id g Hg. left. by exists g.
  - intros id g Hg. by exists g.
Qed.
Lemma Retains_trans D D1 D2 s1 s2 s3 :
  Retains D1 s1 s2 → Retains D2 s2 s3 →
  (∀ id g, D1 id g → D id g) → (∀ id g g', Persists g g' → D2 id g' → D id g) → Retains D s1 s3.
Proof.
  intros [F1 B1 R1 L1] [F2 B2 R2 L2] HD1 HD2. split.
  - intros id g Hg. destruct (F1 _ _ Hg) as [(g1 & Hg1 & HP1)|[Hn Hd]].
    + destruct (F2 _ _ Hg1) as [(g2 & Hg2 & HP2)|[Hn Hd]]; [left; exists g2; split; [done|by etrans]|right; eauto].
    + right. split; [|eauto]. destruct (pending s3 !! id) eqn:H3; [|done]. destruct (B2 _ _ H3) as (? & ? & _). congruence.
  - intros id g' Hg'. destruct (B2 _ _ Hg') as (g1 & Hg1 & ?). destruct (B1 _ _ Hg1) as (g & ? & ?).
    exists g. split; [done|by etrans].
  - intros r id Hr Hid. apply R2; [|done]. apply R1; [done|]. destruct Hid as [g' Hg'].
    destruct (B2 _ _ Hg') as (g1 & ? & _). by eexists.
  - congruence.
Qed.
Lemma Retains_update (D : Z → outboundFrame → Prop) s id f f' :
  pending s !! id = Some f → Persists f f' → Retains D s (set_pending (<[id := f']> (pending s)) s).
Proof.
  intros Hf HP. split; simpl; try done.
  - intros id' g Hg. left. destruct (decide (id = id')) as [<-|Hne].
    + exists f'. rewrite lookup_insert_eq. split; [done|]. congruence.
    + exists g. by rewrite lookup_insert_ne.
  - intros id' g' [[<- <-]|[_ ?]]%lookup_insert_Some; eauto. by exists g'.
Qed.
Lemma Retains_removed (D : Z → outboundFrame → Prop) s id f w :
  pending s !! id = Some f → D id f → Retains D s (removed id f w s).
Proof.
  intros Hf HD. split; simpl; try done.
  - intros id' g Hg. destruct (decide (id = id')) as [<-|Hne].
    + right. rewrite lookup_delete_eq. split; [done|]. congruence.
    + left. exists g. by rewrite lookup_delete_ne.
  - intros id' g' [_ ?]%lookup_delete_Some. by exists g'.
  - intros r id' Hr [g' [Hne _]%lookup_delete_Some]. by apply unindexed_keeps.
Qed.

Definition layerRefused (c : conn) (f : outboundFrame) : Prop := validateOutboundLayerBinding (layerProfile c) (layer f) ≠ None.

Lemma Sound_refl s e : OInv s → Backed s e → Sound s s e e (λ _, 0).
Proof. intros HI HB. split; try done. apply Charged_refl; [apply HB|]. intros b. lia. Qed.
Lemma Sound_trans s1 s2 s3 e1 e2 e3 x y z :
  Sound s1 s2 e1 e2 x → Sound s2 s3 e2 e3 y → (∀ b, z b = x b + y b) → Sound s1 s3 e1 e3 z.
Proof.
  intros [HI1 HB1 Hb1 Hm1 Hy1 HG1 HC1] [HI2 HB2 Hb2 Hm2 Hy2 HG2 HC2] Hz. split; [done|done|congruence|congruence|congruence|by etrans|].
  eapply Charged_trans; [exact HC1|exact HC2|]. intros b. simpl. rewrite Hz. lia.
Qed.

Lemma Sound_env s e e' : OInv s → Backed s e → Charged e e' (λ _, 0) → Sound s s e e' (λ _, 0).
Proof.
  intros HI [? ? ? Hh] HC. pose proof HC as [? Hk _ Hu]. split; try done.
  - split; [done|by rewrite Hk|intros; rewrite Hk; eauto|]. intros b. rewrite Hu. specialize (Hh b). simpl. lia.
  - eapply Charged_ext; [exact HC|]. intros b. simpl. lia.
Qed.

Lemma resend_update_Sound s e e' id f f' :
  OInv s → Backed s e → pending s !! id = Some f → Persists f f' → reservedBytes f' = reservedBytes f →
  reservationBudget f' = reservationBudget f → Charged e e' (λ _, 0) →
  Sound s (set_pending (<[id := f']> (pending s)) s) e e' (λ _, 0).
Proof.
  intros HI HB Hf HP Hr Hb HC. pose proof (oi_reserved _ _ _ HI Hf).
  assert (Hh : ∀ b, frameHold (budget s) b f' = frameHold (budget s) b f).
  { intros b. unfold frameHold, frameBudget. by rewrite Hr, Hb. }
  assert (HCov : Covered s (λ _, 0) e) by (destruct HB; split; try done; intros b; simpl; rewrite ?Z.add_0_r; done).
  split; try done.
  - eapply OInv_update; [done|done|done|lia].
  - eapply Covered_Backed, Covered_update; [exact HCov|done|done|exact HC|]. intros b. rewrite Hh. simpl. lia.
  - eapply Charged_ext; [exact HC|]. intros b. rewrite (stateHold_update _ _ _ _ _ Hf), Hh. lia.
Qed.

Lemma removePending_Sound id s e f :
  OInv s → Backed s e → pending s !! id = Some f →
  ∃ w e', removePending id s e = Done (removed id f w s, e', true) ∧ Sound s (removed id f w s) e e' (λ _, 0).
Proof.
  intros HI HB Hf. pose proof (removePending_spec id s e HI HB) as Hrm. rewrite Hf in Hrm.
  destruct Hrm as (w & e' & -> & HI' & HB' & HC & HG & _). exists w, e'. split; [done|]. split; try done.
  eapply Charged_ext; [exact HC|]. intros b. rewrite (stateHold_delete s (removed id f w s) id f) by done. lia.
Qed.

Definition resendDropped (c : conn) (ids : list Z) (id : Z) (f : outboundFrame) : Prop := id ∈ ids ∧ layerRefused c f.

Lemma layerRefused_persists c f f' : Persists f f' → layerRefused c f' → layerRefused c f.
Proof. intros HP. unfold layerRefused. by rewrite (ps_layer _ _ HP). Qed.

Lemma handleOutboundResend_ok c ids s e o :
  OInv s → Backed s e → connBudgets c e →
  ∃ s' e' o' info err new, handleOutboundResend c ids s e o = Done (s', e', o', info, err) ∧
    Sound s s' e e' (λ _, 0) ∧ Retains (resendDropped c ids) s s' ∧ i_wire o' = i_wire o ++ new ∧ length info = length ids ∧
    (∀ a, a ∈ new → ∃ f, pending s !! t_msgID a = Some f ∧ matches a f ∧ t_msgID a ∈ ids ∧ resentBody f (t_body a)).
Proof.
  revert s e o. induction ids as [|id ids IH]; intros s e o HI HB Hcb; simpl.
  { eexists s, e, o, [], None, []. rewrite app_nil_r. split; [done|]. split; [by apply Sound_refl|].
    split; [by apply Retains_same|]. split; [done|]. split; [done|]. set_solver. }
  set (known := if isKnown id s then msgStateReceived else 0).
  assert (Hdrop : ∀ id' f f', Persists f f' → resendDropped c ids id' f' → resendDropped c (id :: ids) id' f).
  { intros id' f f' HP [Hin Hl]. split; [set_solver|]. by eapply layerRefused_persists. }
  destruct (pending s !! id) as [f|] eqn:Hf.
  2:{ destruct (IH s e o HI HB Hcb) as (s' & e' & o' & info & err & new & -> & HS & HR & Hw & Hl & Ha). simpl.
      eexists s', e', o', _, err, new. split; [done|]. split; [done|].
      split; [eapply Retains_trans; [by apply (Retains_same (λ _ _, False))|exact HR|done|done]|].
      split; [done|]. split; [simpl; lia|]. intros a Hin. destruct (Ha a Hin) as (g & ? & ? & ? & ?). exists g. set_solver. }
  destruct (validateOutboundLayerBinding (layerProfile c) (layer f)) as [lerr|] eqn:Hv.
  - destruct (removePending_Sound id s e f HI HB Hf) as (w & e1 & -> & HS1). simpl.
    assert (HR1 : Retains (resendDropped c (id :: ids)) s (removed id f w s)).
    { apply Retains_removed; [done|]. split; [set_solver|]. unfold layerRefused. congruence. }
    destruct (IH (removed id f w s) e1 o (sd_inv _ _ _ _ _ HS1) (sd_backed _ _ _ _ _ HS1)
      (connBudgets_charged _ _ _ _ (sd_charged _ _ _ _ _ HS1) Hcb)) as (s' & e' & o' & info & err & new & -> & HS & HR & Hw & Hl & Ha).
    simpl. eexists s', e', o', _, err, new. split; [done|].
    split; [by eapply Sound_trans|]. split; [by eapply Retains_trans|]. split; [done|]. split; [simpl; lia|].
    intros a Hin. destruct (Ha a Hin) as (g & Hg & ? & ? & ?). exists g.
    simpl in Hg. apply lookup_delete_Some in Hg as [_ Hg]. set_solver.
  - destruct (resendFrame_ok c f e o (bk_inv _ _ HB) Hcb) as (e1 & o1 & r & -> & HC1 & Hw1 & Hr1). simpl.
    assert (Hnew1 : ∃ n1, i_wire o1 = i_wire o ++ n1 ∧
      ∀ a, a ∈ n1 → ∃ g, pending s !! t_msgID a = Some g ∧ matches a g ∧ t_msgID a ∈ id :: ids ∧ resentBody g (t_body a)).
    { destruct Hw1 as [Hw1|(a & Hw1 & Hma & Hbody)]; [exists []; rewrite app_nil_r; split; [done|set_solver]|].
      exists [a]. split; [done|]. intros a' ->%list_elem_of_singleton. exists f.
      pose proof (fi_key _ _ _ _ _ (oi_frames _ HI) _ _ Hf) as Hkey. destruct Hma as (Hid & ?).
      assert (t_msgID a = id) as -> by congruence. split; [done|]. split; [by split; [congruence|]|]. set_solver. }
    destruct Hnew1 as (n1 & Hn1 & Ha1). destruct r as [f'|err].
    + destruct (Hr1 f' eq_refl) as (HP & Hres & Hbud & Hbd).
      pose proof (resend_update_Sound s e e1 id f f' HI HB Hf HP Hres Hbud HC1) as HS1.
      set (s1 := set_pending (<[id := f']> (pending s)) s) in *.
      destruct (IH s1 e1 o1 (sd_inv _ _ _ _ _ HS1) (sd_backed _ _ _ _ _ HS1)
        (connBudgets_charged _ _ _ _ HC1 Hcb)) as (s' & e' & o' & info & err & new & -> & HS & HR & Hw & Hl & Ha).
      simpl. eexists s', e', o', _, err, (n1 ++ new). split; [done|]. split; [by eapply Sound_trans|].
      split; [eapply Retains_trans; [by eapply (Retains_update (λ _ _, False))|exact HR|done|done]|].
      split; [by rewrite Hw, Hn1, app_assoc|]. split; [simpl; lia|].
      intros a [Hin|Hin]%elem_of_app; [by apply Ha1|]. destruct (Ha a Hin) as (g' & Hg' & Hma & Hids & Hbody).
      simpl in Hg'. apply lookup_insert_Some in Hg' as [[Heq <-]|[_ Hg']].
      * exists f. rewrite <-Heq. split; [done|]. pose proof (ps_digest _ _ HP) as (Hdg & Hub & _).
        pose proof (ps_reqMsgID _ _ HP) as Hrq. split; [|split; [set_solver|]].
        -- destruct Hma as (H1 & H2 & H3 & H4), HP. split; [congruence|]. split; [congruence|]. split; congruence.
        -- unfold resentBody in *. by rewrite Hbd, Hdg, Hub, Hrq in Hbody.
      * exists g'. set_solver.
    + eexists s, e1, o1, _, _, n1. split; [done|]. split; [|split; [by apply Retains_same|]].
      { by apply Sound_env. }
      split; [done|]. split; [simpl; by rewrite length_map|done].
Qed.

Lemma handleOutboundResendByRequest_ok c r s e o :
  OInv s → Backed s e → connBudgets c e →
  ∃ s' e' o' ok err new, handleOutboundResendByRequest c r s e o = Done (s', e', o', ok, err) ∧
    Sound s s' e e' (λ _, 0) ∧ Retains (λ _ _, False) s s' ∧ i_wire o' = i_wire o ++ new ∧
    (∀ a, a ∈ new → ∃ f, pending s !! t_msgID a = Some f ∧ matches a f ∧ reqMsgID f = r ∧ resentBody f (t_body a)).
Proof.
  intros HI HB Hcb. unfold handleOutboundResendByRequest.
  assert (Hnone : ∃ s' e' o' ok err new, @Done (outboundState * env * io * bool * option sendError) (s, e, o, false, None) = Done (s', e', o', ok, err) ∧
    Sound s s' e e' (λ _, 0) ∧ Retains (λ _ _, False) s s' ∧ i_wire o' = i_wire o ++ new ∧
    (∀ a, a ∈ new → ∃ f, pending s !! t_msgID a = Some f ∧ matches a f ∧ reqMsgID f = r ∧ resentBody f (t_body a))).
  { exists s, e, o, false, None, []. rewrite app_nil_r. split; [done|]. split; [by apply Sound_refl|].
    split; [by apply Retains_same|]. split; [done|]. set_solver. }
  destruct (byRequest s !! r) as [id|] eqn:Hr; [|done]. destruct (pending s !! id) as [f|] eqn:Hf; [|done].
  destruct (fi_req _ _ _ _ _ (oi_frames _ HI) _ _ Hr) as (_ & f0 & Hf0 & Hreq). rewrite Hf in Hf0. injection Hf0 as <-.
  pose proof (fi_key _ _ _ _ _ (oi_frames _ HI) _ _ Hf) as Hkey.
  destruct (resendFrame_ok c f e o (bk_inv _ _ HB) Hcb) as (e1 & o1 & res & -> & HC1 & Hw1 & Hr1). simpl.
  assert (Hnew : ∃ n1, i_wire o1 = i_wire o ++ n1 ∧
    ∀ a, a ∈ n1 → ∃ g, pending s !! t_msgID a = Some g ∧ matches a g ∧ reqMsgID g = r ∧ resentBody g (t_body a)).
  { destruct Hw1 as [Hw1|(a & Hw1 & Hma & Hbody)]; [exists []; rewrite app_nil_r; split; [done|set_solver]|].
    exists [a]. split; [done|]. intros a' ->%list_elem_of_singleton. exists f. pose proof Hma as (Hid & _).
    rewrite Hid, Hkey. done. }
  destruct Hnew as (n1 & Hn1 & Ha1). destruct res as [f'|err].
  - destruct (Hr1 f' eq_refl) as (HP & Hres & Hbud & _). eexists _, e1, o1, true, None, n1. split; [done|].
    split; [by eapply resend_update_Sound|]. split; [by eapply Retains_update|done].
  - eexists s, e1, o1, false, _, n1. split; [done|]. split; [by apply Sound_env|]. split; [by apply Retains_same|done].
Qed.

(** ** One operation *)

Definition opHold (dflt b : positive) (op : outboundOp) : Z := bytesAt (from_option id dflt (o_budget op)) (o_reservedBytes op) b.
(** What the queue guarantees of an operation for state [s]. *)
Record OpOk (s : outboundState) (e : env) (ds : gmap positive Delivery.rpcResultDelivery) (op : outboundOp) : Prop := {
  op_bytes : 0 ≤ o_reservedBytes op;
  op_budget : is_Some (budgets e !! from_option id (budget s) (o_budget op));
  op_message m : o_kind op = OutboundSend m →
    creditKnown m s ∧ sourceOk m ∧ ∀ d, m_delivery m = Some d → is_Some (ds !! d);
}.

Lemma releaseOp_ok op s e :
  OInv s → Covered s (λ b, opHold (budget s) b op) e →
  is_Some (budgets e !! from_option id (budget s) (o_budget op)) → 0 ≤ o_reservedBytes op →
  (∀ m, o_kind op = OutboundSend m → creditKnown m s) →
  ∃ w e', releaseOp (budget s) op s e = Done (set_window w s, e') ∧
    Sound s (set_window w s) e e' (λ b, opHold (budget s) b op).
Proof.
  intros HI HC Hb Hpos Hk. unfold releaseOp. set (b := from_option id (budget s) (o_budget op)) in *.
  assert (Hwin : ∀ w ns, OInv (set_window w s) → Grown (window s) w →
    ∃ e', releaseBudget b (o_reservedBytes op) (mkEnv (budgets e) (notices e ++ ns)) = Done e' ∧
      Sound s (set_window w s) e e' (λ b', opHold (budget s) b' op)).
  { intros w ns HI' HG. destruct (releaseBudget_ok b (o_reservedBytes op) (mkEnv (budgets e) (notices e ++ ns))) as (e' & -> & HCh).
    { apply HC. } { done. }
    { split; [done|]. etrans; [|apply (Covered_used _ _ _ b HI HC)]. unfold opHold. fold b. by rewrite bytesAt_eq. }
    apply Charged_notices in HCh. exists e'. split; [done|]. split; try done.
    - apply (Covered_Backed _ (λ _, 0)). pose proof (Covered_notices s _ e (notices e) w HC) as HCw.
      assert (Heq : mkEnv (budgets e) (notices e) = e) by by destruct e. rewrite Heq in HCw.
      eapply Covered_env_step; [exact HCw|exact HCh|done|].
      intros b'. unfold opHold. fold b. unfold bytesAt. simpl. case_decide; lia.
    - eapply Charged_ext; [exact HCh|]. intros b'. unfold opHold. fold b. unfold bytesAt, stateHold, framesHold. simpl. case_decide; lia. }
  case_bool_decide as Hz.
  { exists (window s), e. assert (Hs : set_window (window s) s = s) by by destruct s. rewrite Hs. split; [done|]. split; try done.
    - by eapply Covered_Backed.
    - apply Charged_refl; [apply HC|]. intros b'. unfold opHold. assert (o_reservedBytes op = 0) as -> by lia.
      rewrite bytesAt_0. lia. }
  assert (Hnone : ∃ w e', (e0 ← releaseBudget b (o_reservedBytes op) e; Done (s, e0)) = Done (set_window w s, e') ∧
    Sound s (set_window w s) e e' (λ b', opHold (budget s) b' op)).
  { assert (Hs : set_window (window s) s = s) by by destruct s.
    assert (HIs : OInv (set_window (window s) s)) by (rewrite Hs; exact HI).
    assert (HGs : Grown (window s) (window s)) by reflexivity.
    destruct (Hwin (window s) [] HIs HGs) as (e' & Heq & HS).
    rewrite app_nil_r in Heq. assert (He : mkEnv (budgets e) (notices e) = e) by by destruct e. rewrite He in Heq.
    exists (window s), e'. rewrite Heq. simpl. rewrite Hs in *. done. }
  destruct (o_kind op) as [m| | | |] eqn:Hkind; try exact Hnone.
  destruct (m_bulkCredit m) as [l|] eqn:Hl; [|exact Hnone].
  destruct (releaseCredit_ok l s e (oi_window _ HI) (Hk m eq_refl l Hl)) as (w & ns & -> & HW & HG & _). simpl.
  destruct (Hwin w ns) as (e' & -> & HS); [by apply OInv_set_window|done|]. simpl. by exists w, e'.
Qed.

(** How one operation moves the outbox and what it puts on the wire. *)
Definition acksOf (op : outboundOp) : list Z := match o_kind op with OutboundAck ids => ids | _ => [] end.
Definition resendsOf (op : outboundOp) : list Z := match o_kind op with OutboundResend ids => ids | _ => [] end.
Inductive Handled (c : conn) (op : outboundOp) (s s' : outboundState) (new : list attempt) : Prop :=
  | HandledSend m m1 :
      o_kind op = OutboundSend m → (m1 = m ∨ (replayMsgID m1 = 0 ∧ m_typeID m1 = m_typeID m)) →
      SendOutcome c m1 s s' new → Handled c op s s' new
  | HandledKeep :
      Retains (λ id f, id ∈ acksOf op ∨ resendDropped c (resendsOf op) id f) s s' →
      (∀ a, a ∈ new → ∃ f, pending s !! t_msgID a = Some f ∧ matches a f ∧ resentBody f (t_body a)) →
      Handled c op s s' new.

Lemma Retains_weaken D D' s s' : Retains D s s' → (∀ id f, D id f → D' id f) → Retains D' s s'.
Proof. intros [] HD. split; try done. intros id g Hg. destruct (rt_fwd0 _ _ Hg) as [?|[? ?]]; auto. Qed.

Lemma handleOutboundOp_ok c op s e ds o :
  OInv s → Covered s (λ b, opHold (budget s) b op) e → connBudgets c e → OpOk s e ds op →
  ∃ s' e' ds' o' r new, handleOutboundOp c op s e ds o = Done (s', e', ds', o', r) ∧
    Sound s s' e e' (λ b, opHold (budget s) b op) ∧ (∀ d, is_Some (ds' !! d) ↔ is_Some (ds !! d)) ∧
    i_wire o' = i_wire o ++ new ∧ Handled c op s s' new.
Proof.
  intros HI HC Hcb [Hpos Hb Hm]. unfold handleOutboundOp. pose proof (Covered_Backed _ _ _ HC) as HB.
  assert (Hk : ∀ m, o_kind op = OutboundSend m → creditKnown m s) by (intros m Hkm; by destruct (Hm m Hkm)).
  (* the state operation, then the release of the vector's bytes *)
  assert (Hthen : ∀ s1 e1, Sound s s1 e e1 (λ _, 0) → (∀ m, o_kind op ≠ OutboundSend m) →
    ∃ w e', releaseOp (budget s1) op s1 e1 = Done (set_window w s1, e') ∧
      Sound s (set_window w s1) e e' (λ b, opHold (budget s) b op) ∧ window s1 = window s1).
  { intros s1 e1 HS1 Hns. pose proof HS1 as [HI1 HB1 Hbud _ _ HG HCh].
    assert (HC1 : Covered s1 (λ b, opHold (budget s1) b op) e1).
    { rewrite Hbud. eapply Covered_backed_step; [exact HC|exact HB1|done|].
      eapply Charged_ext; [exact HCh|]. intros b. simpl. lia. }
    destruct (releaseOp_ok op s1 e1 HI1 HC1) as (w & e' & -> & HS2); [|done|intros m Hkm; by destruct (Hns m)|].
    { rewrite Hbud. by apply (ch_known _ _ _ HCh). }
    exists w, e'. split; [done|]. split; [|done]. eapply Sound_trans; [exact HS1|exact HS2|]. intros b. simpl. by rewrite Hbud. }
  assert (Hsame : ∀ s1 w D, Retains D s s1 → Retains D s (set_window w s1)).
  { intros s1 w D [F B R L]. by split. }
  destruct (keyUnavailable c).
  { destruct (releaseOp_ok op s e HI HC Hb Hpos Hk) as (w & e' & -> & HS). simpl.
    eexists _, e', ds, o, _, []. rewrite app_nil_r. split; [done|]. split; [done|]. split; [done|]. split; [done|].
    apply HandledKeep; [by apply Retains_same|set_solver]. }
  destruct (o_kind op) as [m|ids|ids|ids|r] eqn:Hkind.
  - destruct (Hm m eq_refl) as (Hcr & Hsrc & Hd).
    destruct (handleOutboundSend_ok c m (o_reservedBytes op) (o_budget op) s e ds o) as
      (s' & e' & ds' & o' & err & new & m1 & -> & HS & Hds & Hw & Hm1 & Ho); try done. simpl.
    eexists s', e', ds', o', _, new. split; [done|]. split; [done|]. split; [done|]. split; [done|]. by eapply HandledSend.
  - destruct (ackWithDetails_spec ids s e HI HB) as (s1 & e1 & -> & HI1 & HB1 & HK & HCh & Hp & _ & Hbr & _). simpl.
    destruct (Hthen s1 e1) as (w & e' & -> & HS & _); [|congruence|].
    { split; try done; [apply HK|apply HK|apply HK|apply HK|]. eapply Charged_ext; [exact HCh|]. intros b. simpl. lia. }
    simpl. eexists _, e', ds, o, _, []. rewrite app_nil_r. split; [done|]. split; [done|]. split; [done|]. split; [done|].
    apply HandledKeep; [|set_solver]. apply Hsame. unfold acksOf. rewrite Hkind. split.
    + intros id g Hg. rewrite Hp. case_bool_decide; [right; auto|left; by exists g].
    + intros id g'. rewrite Hp. case_bool_decide; [done|]. intros Hg. by exists g'.
    + intros r id Hr [g' Hg']. rewrite Hp in Hg'. apply Hbr; [done|]. by case_bool_decide.
    + apply HK.
  - destruct (Hthen s e) as (w & e' & Heq & HS & _); [by apply Sound_refl|congruence|]. rewrite Heq. simpl.
    eexists _, e', ds, o, _, []. rewrite app_nil_r. split; [done|]. split; [done|]. split; [done|]. split; [done|].
    apply HandledKeep; [by apply Retains_same|set_solver].
  - destruct (handleOutboundResend_ok c ids s e o HI HB Hcb) as (s1 & e1 & o1 & info & err & new & -> & HS1 & HR & Hw & _ & Ha). simpl.
    destruct (Hthen s1 e1 HS1) as (w & e' & -> & HS & _); [congruence|]. simpl.
    eexists _, e', ds, o1, _, new. split; [done|]. split; [done|]. split; [done|]. split; [done|].
    apply HandledKeep.
    + apply Hsame. eapply Retains_weaken; [exact HR|]. unfold resendsOf. rewrite Hkind. auto.
    + intros a Hin. destruct (Ha a Hin) as (f & ? & ? & _ & ?). eauto.
  - destruct (handleOutboundResendByRequest_ok c r s e o HI HB Hcb) as (s1 & e1 & o1 & ok & err & new & -> & HS1 & HR & Hw & Ha). simpl.
    destruct (Hthen s1 e1 HS1) as (w & e' & -> & HS & _); [congruence|]. simpl.
    eexists _, e', ds, o1, _, new. split; [done|]. split; [done|]. split; [done|]. split; [done|].
    apply HandledKeep.
    + apply Hsame. eapply Retains_weaken; [exact HR|]. done.
    + intros a Hin. destruct (Ha a Hin) as (f & ? & ? & _ & ?). eauto.
Qed.
End ops.
