(* ===== verification/OutboundWorld.v ===== *)
(** * All sessions of a server around the shared budgets

    The invariant of [Actor.wstep]: the budgets hold exactly the bytes of the
    retained frames and of the queued operations, whatever the interleaving of
    producers, handlers, acknowledgements and released sessions. *)

From S2P Require Import Prelude BulkScheduler BulkProps TrackedBudget RpcDelivery OutboundState OutboundInv OutboundActor OutboundOps.
Import Outbound Actor.

(** ** Releasing a whole outbox *)

Definition listHold (d b : positive) (fs : list outboundFrame) : Z := foldr (λ f acc, frameHold d b f + acc) 0 fs.

Lemma listHold_map d b (m : gmap Z outboundFrame) : listHold d b (map snd (map_to_list m)) = framesHold d b m.
Proof.
  unfold listHold, framesHold, msum. rewrite map_fold_foldr. induction (map_to_list m) as [|[k f] l IH]; simpl; lia.
Qed.

Record Releasable (s : outboundState) (e : env) (f : outboundFrame) : Prop := {
  rl_reserved : 0 ≤ reservedBytes f;
  rl_budget : is_Some (budgets e !! frameBudget (budget s) f);
  rl_credit l : bulkCredit f = Some l → is_Some (Bulk.leases (window s) !! l);
}.

Lemma listHold_nonneg s e d b fs : Forall (Releasable s e) fs → 0 ≤ listHold d b fs.
Proof.
  induction 1 as [|f fs [Hr _ _] _ IH]; simpl; [done|]. pose proof (frameHold_nonneg d b f Hr). lia.
Qed.
Lemma Releasable_step s e w e' δ f :
  Releasable s e f → Grown (window s) w → Charged e e' δ → Releasable (set_window w s) e' f.
Proof.
  intros [Hr Hb Hc] HG [_ Hk _ _]. split; [done|by rewrite Hk|]. intros l Hl. eapply Grown_known; [done|]. auto.
Qed.

Lemma releaseFrames_ok fs s e :
  Bulk.Inv (window s) → EInv e → Forall (Releasable s e) fs → (∀ b, listHold (budget s) b fs ≤ usedOf b e) →
  ∃ w e', releaseFrames fs s e = Done (set_window w s, e') ∧ Bulk.Inv w ∧ Grown (window s) w ∧
    Charged e e' (λ b, - listHold (budget s) b fs).
Proof.
  revert s e. induction fs as [|f fs IH]; intros s e HW HE Hall Hle; cbn [releaseFrames].
  { exists (window s), e. split; [by destruct s|]. split; [done|]. split; [done|]. by apply Charged_refl. }
  apply Forall_cons in Hall as [[Hr Hb Hc] Hall].
  destruct (releaseCreditOf_ok f s e HW Hc) as (w & ns & -> & HW1 & HG1 & _). simpl.
  assert (Hle1 : frameHold (budget s) (frameBudget (budget s) f) f ≤ usedOf (frameBudget (budget s) f) e).
  { specialize (Hle (frameBudget (budget s) f)). simpl in Hle.
    pose proof (listHold_nonneg s e (budget s) (frameBudget (budget s) f) fs Hall). lia. }
  destruct (releaseReservation_ok (budget s) f (mkEnv (budgets e) (notices e ++ ns))) as (e1 & -> & HC1); try done.
  apply Charged_notices in HC1. simpl.
  destruct (IH (set_window w s) e1) as (w' & e' & -> & HW' & HG' & HC'); try done.
  { apply HC1. } { eapply Forall_impl; [exact Hall|]. intros g Hg. by eapply Releasable_step. }
  { intros b. specialize (Hle b). simpl in *. rewrite (ch_used _ _ _ HC1). lia. }
  exists w', e'. split; [done|]. split; [done|]. split; [by etrans|].
  eapply Charged_trans; [exact HC1|exact HC'|]. intros b. simpl. lia.
Qed.

(** [releaseAll] gives back everything the outbox holds. *)
Lemma releaseAll_ok s e :
  OInv s → Backed s e → 0 ≤ maxMessages s → 0 ≤ maxBytes s →
  ∃ s' e', releaseAll s e = Done (s', e') ∧ Sound s s' e e' (λ _, 0) ∧ pending s' = ∅ ∧
    lastMsgID s' = lastMsgID s ∧ sentContentMessages s' = sentContentMessages s.
Proof.
  intros HI HB Hm Hby. unfold releaseAll, closeBulkWindow.
  destruct (close_progress (window s) (oi_window _ HI)) as (w & ns & -> & HP & Hcl). simpl.
  pose proof (Grown_progress _ _ _ _ HP) as HG.
  assert (Hall : Forall (Releasable (set_window w s) (mkEnv (budgets e) (notices e ++ ns))) (map snd (map_to_list (pending s)))).
  { apply Forall_map, Forall_forall. intros [id f] Hin%elem_of_map_to_list. simpl.
    split; [by eapply oi_reserved|by eapply (bk_budget _ _ HB)|]. intros l Hl. eapply Grown_known; [exact HG|].
    by eapply (fi_credit _ _ _ _ _ (oi_frames _ HI)). }
  destruct (releaseFrames_ok (map snd (map_to_list (pending s))) (set_window w s) (mkEnv (budgets e) (notices e ++ ns)))
    as (w' & e' & -> & HW' & HG' & HC); try done.
  { apply HP. } { apply HB. } { intros b. rewrite listHold_map. apply (bk_hold _ _ HB). }
  apply Charged_notices in HC. simpl. eexists _, e'. split; [done|].
  assert (HCh : Charged e e' (λ b, - stateHold b s)).
  { eapply Charged_ext; [exact HC|]. intros b. cbn beta. by rewrite listHold_map. }
  split; [|done]. split; simpl; try done; [| |by etrans|].
  - pose proof (outbound_new_OInv (budget s) (maxMessages s) (maxBytes s) Hm Hby) as [HF HR _ ? ?]. split; simpl; try done.
    by destruct HF.
  - split; simpl; [apply HC|apply (ch_known _ _ _ HC), HB|by intros; rewrite lookup_empty in *|].
    intros b. unfold stateHold, framesHold. simpl. rewrite msum_empty. apply usedOf_range, HC.
  - eapply Charged_ext; [exact HCh|]. intros b. simpl. unfold stateHold at 1, framesHold. simpl. rewrite msum_empty. lia.
Qed.

(** ** Producers *)

(** The bytes an operation that was made holds, and none on an error. *)
Definition madeHold (b : positive) (r : outboundOp + sendError) : Z :=
  match r with inl op => opHold serverBody b op | inr _ => 0 end.

Record Made (P : opKind → Prop) (e : env) (r : env * (outboundOp + sendError)) : Prop := {
  md_charged : Charged e r.1 (λ b, madeHold b r.2);
  md_bytes op : r.2 = inl op → 0 ≤ o_reservedBytes op;
  md_budget op : r.2 = inl op → is_Some (budgets e !! from_option id serverBody (o_budget op));
  md_kind op : r.2 = inl op → P (o_kind op);
}.

Lemma Made_error (P : opKind → Prop) e err : EInv e → Made P e (e, inr err).
Proof. intros HE. split; try done. by apply Charged_refl. Qed.
(** The reservation every producer makes. *)
Lemma Made_reserve (P : opKind → Prop) b n k e :
  EInv e → is_Some (budgets e !! b) → 0 ≤ n → P k →
  ∃ r, ('(e, ok) ← reserveBudget b n e;
        Done (e, if (ok : bool) then inl (mkOp k n (Some b)) else inr ErrTrackedBudget)) = Done r ∧ Made P e r.
Proof.
  intros HE Hb Hn HP. destruct (reserveBudget_ok b n e HE Hb Hn) as (e' & ok & -> & HC & _). simpl.
  eexists. split; [done|]. split; simpl.
  - eapply Charged_ext; [exact HC|]. intros b'. simpl. unfold madeHold, opHold, bytesAt. destruct ok; simpl; by case_decide.
  - by destruct ok; intros op [= <-].
  - by destruct ok; intros op [= <-].
  - by destruct ok; intros op [= <-].
Qed.

Section producers.
Context `{TypeIDs} `{Hash}.

Lemma newOutboundSendOp_ok c m control e :
  EInv e → connBudgets c e → ∃ r, newOutboundSendOp c m control e = Done r ∧ Made (λ k, k = OutboundSend m) e r.
Proof.
  intros HE Hcb. unfold newOutboundSendOp. destruct (validateOutboundLayerBinding _ _).
  { eexists. split; [done|]. by apply Made_error. }
  case_bool_decide. { eexists. split; [done|]. by apply Made_error. }
  apply Made_reserve; [done|by apply connBudgets_pick|unfold blen; lia|done].
Qed.
Lemma vectorKind_ok k ids c e :
  EInv e → connBudgets c e → ∃ r, vectorKind k ids c e = Done r ∧ Made (λ k', k' = k ids) e r.
Proof. intros HE (_ & Hc & _). apply Made_reserve; [done|done|lia|done]. Qed.
Lemma cloneReserved_ok c m r d e :
  EInv e → connBudgets c e →
  ∃ x, cloneRPCResultForRequestReserved c m r d e = Done x ∧
    Made (λ k, ∃ m', k = OutboundSend m' ∧ cloneRPCResultForRequest c m r d = Some m') e x.
Proof.
  intros HE Hcb. unfold cloneRPCResultForRequestReserved. destruct (cloneRPCResultForRequest c m r d) as [m'|] eqn:Hm.
  2:{ eexists. split; [done|]. by apply Made_error. }
  case_bool_decide. { eexists. split; [done|]. by apply Made_error. }
  apply Made_reserve; [done|by apply connBudgets_pick|unfold blen; lia|eauto].
Qed.

(** ** The invariant *)

(** The caps of the budgets, fixed when the server starts. *)
Context {caps : positive → Z}.

Record StateOk (e : env) (s : outboundState) : Prop := {
  so_inv : OInv s;
  so_budget : budget s = serverBody;
  so_messages : maxMessages s = maxTrackedServerMsgIDs;
  so_bytes : maxBytes s = maxTrackedServerBytes;
  so_window : Bulk.max (window s) = defaultBulkACKWindow;
  so_known id f : pending s !! id = Some f → is_Some (budgets e !! frameBudget serverBody f);
}.

Definition statesHold (b : positive) (ss : gmap positive outboundState) : Z := msum (λ _ s, stateHold b s) ss.
Definition opsHold (b : positive) (ops : gmap positive (positive * outboundOp)) : Z := msum (λ _ p, opHold serverBody b p.2) ops.

Record WInv (w : world) : Prop := {
  wi_env : EInv (w_env w);
  wi_known : Forall (λ b, is_Some (budgets (w_env w) !! b)) [serverBody; serverControl; serverCritical];
  wi_state st s : w_states w !! st = Some s → StateOk (w_env w) s;
  wi_op q p : w_ops w !! q = Some p → ∃ s, w_states w !! p.1 = Some s ∧ OpOk s (w_env w) (w_deliveries w) p.2;
  wi_cap b : capOf b (w_env w) = caps b;
  wi_used b : usedOf b (w_env w) = statesHold b (w_states w) + opsHold b (w_ops w);
}.

Lemma serverConn_budgets c w : WInv w → serverConn c = true → connBudgets c (w_env w).
Proof.
  intros HI. unfold serverConn. rewrite !andb_true_iff, !bool_decide_eq_true. intros [[Hb Hc] Hcr].
  pose proof (wi_known _ HI) as Hk. rewrite !Forall_cons in Hk. unfold connBudgets. rewrite Hb, Hc, Hcr. tauto.
Qed.

Lemma opHold_nonneg d b op : 0 ≤ o_reservedBytes op → 0 ≤ opHold d b op.
Proof. apply bytesAt_nonneg. Qed.
Lemma wi_ops_nonneg w q p b : WInv w → w_ops w !! q = Some p → 0 ≤ opHold serverBody b p.2.
Proof. intros HI Hq. destruct (wi_op _ HI _ _ Hq) as (s & _ & [Hb _ _]). by apply opHold_nonneg. Qed.
Lemma wi_states_nonneg w st s b : WInv w → w_states w !! st = Some s → 0 ≤ stateHold b s.
Proof. intros HI Hs. eapply stateHold_nonneg, so_inv, wi_state; eauto. Qed.

(** A session and the operations in the queue are covered by the counters. *)
Lemma WInv_Backed w st s : WInv w → w_states w !! st = Some s → Backed s (w_env w).
Proof.
  intros HI Hs. pose proof (wi_state _ HI _ _ Hs) as HS. pose proof (wi_known _ HI) as Hk. rewrite !Forall_cons in Hk.
  split; [apply HI|rewrite (so_budget _ _ HS); tauto|rewrite (so_budget _ _ HS); apply HS|].
  intros b. rewrite (wi_used _ HI). assert (0 ≤ opsHold b (w_ops w)).
  { apply msum_nonneg. intros q p Hq. by eapply wi_ops_nonneg. }
  pose proof (msum_lookup_le (λ _ s, stateHold b s) (w_states w) st s (λ k v Hk, wi_states_nonneg w k v b HI Hk) Hs).
  unfold statesHold. simpl in *. lia.
Qed.
Lemma WInv_Covered w q p s :
  WInv w → w_ops w !! q = Some p → w_states w !! p.1 = Some s → Covered s (λ b, opHold (budget s) b p.2) (w_env w).
Proof.
  intros HI Hq Hs. pose proof (WInv_Backed _ _ _ HI Hs) as [HE Hd Hf _]. split; try done.
  - intros b. rewrite (so_budget _ _ (wi_state _ HI _ _ Hs)). by eapply wi_ops_nonneg.
  - intros b. rewrite (wi_used _ HI), (so_budget _ _ (wi_state _ HI _ _ Hs)).
    pose proof (msum_lookup_le (λ _ p, opHold serverBody b p.2) (w_ops w) q p (λ k v Hk, wi_ops_nonneg w k v b HI Hk) Hq).
    pose proof (msum_lookup_le (λ _ s, stateHold b s) (w_states w) p.1 s (λ k v Hk, wi_states_nonneg w k v b HI Hk) Hs).
    unfold statesHold, opsHold. simpl in *. lia.
Qed.

Lemma OpOk_mono s s' e e' ds ds' op :
  OpOk s e ds op → budget s' = budget s → Grown (window s) (window s') →
  (∀ b, is_Some (budgets e !! b) → is_Some (budgets e' !! b)) → (∀ d, is_Some (ds !! d) → is_Some (ds' !! d)) →
  OpOk s' e' ds' op.
Proof.
  intros [Hb Hk Hm] Hbud HG He Hd. split; [done|rewrite Hbud; auto|]. intros m Hkm.
  destruct (Hm m Hkm) as (Hc & Hs & Hdel). split; [|split; [done|auto]]. intros l Hl. eapply Grown_known; eauto.
Qed.
Lemma StateOk_env e e' δ s : StateOk e s → Charged e e' δ → StateOk e' s.
Proof. intros [] [_ Hk _ _]. split; try done. intros id f Hf. rewrite Hk. eauto. Qed.
Lemma StateOk_Sound s s' e e' x : StateOk e s → Sound s s' e e' x → StateOk e' s'.
Proof.
  intros [HI Hb Hm Hy Hw Hk] [HI' HB' Hb' Hm' Hy' [Hw' _] _]. split; try congruence.
  intros id f Hf. rewrite <-Hb, <-Hb'. by apply (bk_budget _ _ HB' id).
Qed.

(** One session moves, with the queue and the budgets around it. *)
Lemma WInv_move w st s s' e' ops' ds' wire' x :
  WInv w → w_states w !! st = Some s → Sound s s' (w_env w) e' x →
  (∀ d, is_Some (w_deliveries w !! d) → is_Some (ds' !! d)) →
  (∀ q p, ops' !! q = Some p → w_ops w !! q = Some p ∨ (p.1 = st ∧ OpOk s' e' ds' p.2)) →
  (∀ b, opsHold b ops' = opsHold b (w_ops w) - x b) →
  WInv (mkWorld e' (<[st := s']> (w_states w)) ops' ds' wire').
Proof.
  intros HI Hs HS Hds Hops Hx. pose proof (sd_charged _ _ _ _ _ HS) as HC. pose proof HC as [HE Hk Hcap Hu]. split; simpl.
  - done.
  - eapply Forall_impl; [apply (wi_known _ HI)|]. intros b. simpl. by rewrite Hk.
  - intros st' y [[<- <-]|[_ Hy]]%lookup_insert_Some; [eapply StateOk_Sound; [by eapply wi_state|exact HS]|].
    eapply StateOk_env; [by eapply wi_state|exact HC].
  - intros q p Hq. destruct (Hops _ _ Hq) as [Hold|[-> Hok]]; [|by exists s'; rewrite lookup_insert_eq].
    destruct (wi_op _ HI _ _ Hold) as (y & Hy & Hok). destruct (decide (st = p.1)) as [->|Hne].
    + exists s'. rewrite lookup_insert_eq. split; [done|]. assert (y = s) as -> by congruence.
      eapply OpOk_mono; [done|apply HS|apply HS|intros b; by rewrite Hk|done].
    + exists y. rewrite lookup_insert_ne by done. split; [done|].
      eapply OpOk_mono; [done|done|done|intros b; by rewrite Hk|done].
  - intros b. rewrite Hcap. apply HI.
  - intros b. rewrite Hu, (wi_used _ HI), Hx. unfold statesHold. rewrite (msum_update _ _ _ _ _ Hs). lia.
Qed.

Lemma WInv_deliveries w ds' :
  WInv w → (∀ d, is_Some (w_deliveries w !! d) → is_Some (ds' !! d)) → WInv (withDeliveries ds' w).
Proof.
  intros HI Hd. destruct HI as [HE Hk Hs Ho Hc Hu]. split; simpl; try done. intros q p Hq.
  destruct (Ho _ _ Hq) as (s & Hst & Hok). exists s. split; [done|]. by eapply OpOk_mono.
Qed.
Lemma insert_known (ds : gmap positive Delivery.rpcResultDelivery) d x d' :
  is_Some (ds !! d') → is_Some (<[d := x]> ds !! d').
Proof. intros Hd. destruct (decide (d = d')) as [->|Hne]; [rewrite lookup_insert_eq; by eexists|by rewrite lookup_insert_ne]. Qed.

Lemma opsHold_enqueue b ops q p : ops !! q = None → opsHold b (<[q := p]> ops) = opsHold b ops + opHold serverBody b p.2.
Proof. intros Hq. unfold opsHold. rewrite msum_insert by done. lia. Qed.

Lemma WInv_enqueue P w st s r :
  WInv w → w_states w !! st = Some s → Made P (w_env w) r →
  (∀ op m, r.2 = inl op → o_kind op = OutboundSend m →
    creditKnown m s ∧ sourceOk m ∧ ∀ d, m_delivery m = Some d → is_Some (w_deliveries w !! d)) →
  WInv (enqueue st w r).
Proof.
  intros HI Hs [HC Hb Hk _] Hm. pose proof (wi_state _ HI _ _ Hs) as HS.
  assert (Hhold : ∀ b, 0 ≤ madeHold b r.2).
  { intros b. destruct r as [e' [op|]]; simpl in *; [|done]. apply opHold_nonneg. auto. }
  assert (HSd : Sound s s (w_env w) r.1 (λ b, - madeHold b r.2)).
  { pose proof (WInv_Backed _ _ _ HI Hs) as [HE Hd Hf Hh]. pose proof HC as [HE' Hkn _ Hu]. split; try done.
    - apply HS.
    - split; [done|by rewrite Hkn|intros id f Hid; rewrite Hkn; by eapply Hf|].
      intros b. rewrite Hu. specialize (Hhold b). specialize (Hh b). lia.
    - eapply Charged_ext; [exact HC|]. intros b. simpl. lia. }
  unfold enqueue. destruct r as [e' [op|err]]; simpl in *.
  - pose proof (WInv_move w st s s e' (<[fresh (dom (w_ops w)) := (st, op)]> (w_ops w)) (w_deliveries w) (w_wire w) _ HI Hs HSd) as HM.
    rewrite (insert_id (w_states w)) in HM by done. apply HM; [done| |].
    + intros q p [[<- <-]|[_ ?]]%lookup_insert_Some; [right|auto]. split; [done|]. simpl. split; [by apply Hb| |by intros m; apply Hm].
      rewrite (so_budget _ _ HS). apply (ch_known _ _ _ HC). by apply Hk.
    + intros b. rewrite opsHold_enqueue; [simpl; lia|]. apply not_elem_of_dom, is_fresh.
  - pose proof (WInv_move w st s s e' (w_ops w) (w_deliveries w) (w_wire w) _ HI Hs HSd) as HM.
    rewrite (insert_id (w_states w)) in HM by done. apply HM; [done|auto|]. intros b. simpl. lia.
Qed.

(** ** Every step keeps it *)

Lemma reserveBulkCredit_ok s e : StateOk e s → StateOk e (reserveBulkCredit s).1 ∧ Grown (window s) (window (reserveBulkCredit s).1).
Proof.
  intros HS. pose proof HS as [HI Hb Hm Hy Hw Hk]. unfold reserveBulkCredit.
  rewrite bool_decide_false by (rewrite Hw; unfold defaultBulkACKWindow; lia).
  destruct (Bulk.bulk_reserve_ok (window s) (oi_window _ HI)) as (HW & Hnew & _ & Hmax & _).
  assert (HG : Grown (window s) (Bulk.reserve (window s)).1).
  { split; [done|]. intros l x Hx. exists x. split; [|done]. unfold Bulk.reserve in *. simpl in *.
    destruct (Bulk.closed _); [|case_bool_decide]; simpl; rewrite lookup_insert_ne; [done|congruence|done|congruence|done|congruence]. }
  destruct (Bulk.reserve (window s)) as [w' l]. simpl in *. split; [|done]. split; simpl; try done; [|congruence].
  by apply OInv_set_window.
Qed.
Lemma sendable_ok m s ds :
  sendable m s ds = true →
  replayMsgID m = 0 ∧ creditKnown m s ∧ sourceOk m ∧ ∀ d, m_delivery m = Some d → is_Some (ds !! d).
Proof.
  unfold sendable. rewrite !andb_true_iff, bool_decide_eq_true. intros [[[Hr Hc] Hs] Hd]. split; [done|]. split; [|split].
  - intros l Hl. rewrite Hl in Hc. by apply bool_decide_eq_true in Hc.
  - intros [src Hsrc]. rewrite Hsrc in Hs. by apply bool_decide_eq_true in Hs.
  - intros d Hd'. rewrite Hd' in Hd. by apply bool_decide_eq_true in Hd.
Qed.

Lemma WInv_start body control critical :
  body ≤ i64_max → control ≤ i64_max → critical ≤ i64_max →
  (∀ b, capOf b (w_env (startWorld body control critical)) = caps b) → WInv (startWorld body control critical).
Proof.
  intros H1 H2 H3 Hcap. split; simpl.
  - intros b bud. simpl. intros [[<- <-]|[_ Hb]]%lookup_insert_Some; [by apply Tracked.tracked_new_BInv|].
    apply lookup_insert_Some in Hb as [[<- <-]|[_ [<- <-]%lookup_singleton_Some]]; by apply Tracked.tracked_new_BInv.
  - repeat constructor; by eexists.
  - intros st s. by rewrite lookup_empty.
  - intros q p. by rewrite lookup_empty.
  - exact Hcap.
  - intros b. unfold statesHold, opsHold. rewrite !msum_empty. unfold usedOf. simpl.
    destruct (decide (b = serverBody)) as [->|]; [done|]. destruct (decide (b = serverControl)) as [->|]; [done|].
    destruct (decide (b = serverCritical)) as [->|]; [done|]. by rewrite !lookup_insert_ne, lookup_singleton_ne by done.
Qed.

Lemma WInv_open w : WInv w → WInv (withState (fresh (dom (w_states w))) (newOutboundState serverBody) w).
Proof.
  intros HI. pose proof (not_elem_of_dom_1 (w_states w) _ (is_fresh (dom (w_states w)))) as Hnew. destruct HI as [HE Hk Hs Ho Hc Hu].
  split; simpl; try done.
  - intros st s [[<- <-]|[_ ?]]%lookup_insert_Some; [|by eapply Hs]. split; try done. by apply outbound_new_OInv.
  - intros q p Hq. destruct (Ho _ _ Hq) as (s & Hst & Hok). exists s. split; [|done].
    rewrite lookup_insert_ne; [done|]. congruence.
  - intros b. rewrite Hu. unfold statesHold. rewrite msum_insert by done. unfold stateHold at 2, framesHold. simpl.
    rewrite msum_empty. lia.
Qed.

Lemma opsHold_delete b ops q p : ops !! q = Some p → opsHold b (delete q ops) = opsHold b ops - opHold serverBody b p.2.
Proof. intros Hq. unfold opsHold. by rewrite (msum_delete _ _ _ _ Hq). Qed.

Lemma replay_message_ok w st s r c r' d m m' :
  WInv w → w_states w !! st = Some s → rpcResult r s = Some m → cloneRPCResultForRequest c m r' (Some d) = Some m' →
  is_Some (w_deliveries w !! d) →
  creditKnown m' s ∧ sourceOk m' ∧ ∀ d', m_delivery m' = Some d' → is_Some (w_deliveries w !! d').
Proof.
  intros HI Hs Hr Hcl Hd. pose proof (so_inv _ _ (wi_state _ HI _ _ Hs)) as HO.
  assert (Hm : m_bulkCredit m = None ∧ sourceOk m).
  { revert Hr. unfold rpcResult. case_bool_decide; [done|]. destruct (pending s !! _) as [f|] eqn:Hf; [|done].
    destruct (_ || _); [done|]. intros [= <-]. split; [done|]. unfold sourceOk. simpl.
    by eapply (fi_source _ _ _ _ _ (oi_frames _ HO)). }
  destruct (cloneRPCResultForRequest_same _ _ _ _ _ Hcl) as ((_ & Hsrc & Hlb & Hcr) & _ & Hdel & _ & _).
  split; [|split].
  - intros l Hl. destruct Hcr as [->|[Hn _]]; destruct Hm; congruence.
  - unfold sourceOk in *. rewrite Hsrc, Hlb. apply Hm.
  - intros d' Hd'. congruence.
Qed.

Definition Safe (o : option (Run world)) : Prop := ∀ r, o = Some r → ∃ w', r = Done w' ∧ WInv w'.

Lemma Safe_bind {A} (o : option A) (f : A → option (Run world)) : (∀ x, o = Some x → Safe (f x)) → Safe (o ≫= f).
Proof. intros Hf r. destruct o as [x|]; [|done]. simpl. by apply Hf. Qed.
Lemma Safe_done w : WInv w → Safe (Some (Done w)).
Proof. intros HI r [= <-]. eauto. Qed.
Lemma Safe_if (b : bool) o : (b = true → Safe o) → Safe (if b then o else None).
Proof. intros Hb. destruct b; [auto|done]. Qed.
(** A producer that made an operation queues it. *)
Lemma Safe_enqueue P w st s (m : Run (env * (outboundOp + sendError))) :
  WInv w → w_states w !! st = Some s → (∃ r, m = Done r ∧ Made P (w_env w) r) →
  (∀ k m', P k → k = OutboundSend m' → creditKnown m' s ∧ sourceOk m' ∧ ∀ d, m_delivery m' = Some d → is_Some (w_deliveries w !! d)) →
  Safe (Some (r ← m; Done (enqueue st w r))).
Proof.
  intros HI Hs (r & -> & HM) Hk. apply Safe_done. eapply WInv_enqueue; [done|done|exact HM|].
  intros op m' Hop Hm. eapply Hk; [|exact Hm]. by apply (md_kind _ _ _ HM).
Qed.

Lemma Safe_credit w st : WInv w → Safe (wstep (LCredit st) w).
Proof.
  intros HI. apply Safe_bind. intros s Hs. apply Safe_done.
  pose proof (wi_state _ HI _ _ Hs) as HS0. destruct (reserveBulkCredit_ok s _ HS0) as [HS HG].
  pose proof (WInv_Backed _ _ _ HI Hs) as HB.
  assert (Hp : pending (reserveBulkCredit s).1 = pending s ∧ budget (reserveBulkCredit s).1 = budget s).
  { unfold reserveBulkCredit. by destruct (Bulk.reserve _). }
  destruct Hp as [Hp Hbud]. destruct HS as [HO ? ? ? ? ?].
  assert (Hh : ∀ b, stateHold b (reserveBulkCredit s).1 = stateHold b s).
  { intros b. unfold stateHold. by rewrite Hp, Hbud. }
  apply (WInv_move w st s _ (w_env w) (w_ops w) (w_deliveries w) (w_wire w) (λ _, 0)); auto.
  - destruct HS0. split; try (done || congruence).
    + destruct HB. by split; rewrite ?Hp, ?Hbud.
    + apply Charged_refl; [apply HI|]. intros b. rewrite Hh. lia.
  - intros b. lia.
Qed.

Lemma Safe_retarget w d rq : WInv w → Safe (wstep (LRetarget d rq) w).
Proof.
  intros HI. apply Safe_bind. intros x Hd.
  assert (Hret : ∃ x' c' ok t, Delivery.tryRetarget rq x Delivery.newCoordinator = Done (x', c', ok, t)).
  { unfold Delivery.tryRetarget. case_bool_decide; [eauto|]. destruct (_ && _); [eauto|].
    unfold Delivery.deferHookToReplay. simpl. eauto. }
  destruct Hret as (x' & c' & ok & t & ->). apply Safe_done, WInv_deliveries; [done|]. intros d'. apply insert_known.
Qed.

Lemma Safe_send w st c m control : WInv w → Safe (wstep (LSend st c m control) w).
Proof.
  intros HI. apply Safe_bind. intros s Hs. apply Safe_if. intros [Hc Hsd]%andb_true_iff. apply sendable_ok in Hsd as (_ & Hm).
  eapply Safe_enqueue; [done|done|apply newOutboundSendOp_ok; [apply HI|by apply serverConn_budgets]|].
  by intros k m' -> [= <-].
Qed.

Lemma Safe_replay w st c r0 r1 : WInv w → Safe (wstep (LReplay st c r0 r1) w).
Proof.
  intros HI. apply Safe_bind. intros s Hs. apply Safe_bind. intros m Hr. apply Safe_if. intros Hc.
  cbv zeta. set (d := fresh _). set (w1 := withDeliveries _ w).
  assert (HI1 : WInv w1) by (apply WInv_deliveries; [done|intros d'; apply insert_known]).
  eapply Safe_enqueue; [done|exact Hs|apply cloneReserved_ok; [apply HI|by apply serverConn_budgets]|].
  intros k m' (m2 & -> & Hcl) [= <-]. eapply replay_message_ok; [exact HI1|done|done|exact Hcl|].
  simpl. rewrite lookup_insert_eq. by eexists.
Qed.

Lemma Safe_vector w st c v ids : WInv w → Safe (wstep (LVector st c v ids) w).
Proof.
  intros HI. apply Safe_bind. intros s Hs. apply Safe_if. intros Hc.
  eapply Safe_enqueue; [done|done|apply vectorKind_ok; [apply HI|by apply serverConn_budgets]|].
  intros k m -> Hk. by destruct v.
Qed.

Lemma Safe_by_request w st r : WInv w → Safe (wstep (LByRequest st r) w).
Proof.
  intros HI. apply Safe_bind. intros s Hs. apply Safe_done.
  apply (WInv_enqueue (λ _, True) w st s); [done|done| |by intros op m [= <-]].
  split; simpl; try done; [|by intros op [= <-]|intros op [= <-]].
  - apply Charged_refl; [apply HI|]. intros b. apply bytesAt_0.
  - simpl. pose proof (wi_known _ HI) as Hk. rewrite !Forall_cons in Hk. tauto.
Qed.

(** The operation that leaves the queue releases what it held. *)
Lemma WInv_dequeue w q st op s s' e' ds' wire' :
  WInv w → w_ops w !! q = Some (st, op) → w_states w !! st = Some s →
  Sound s s' (w_env w) e' (λ b, opHold (budget s) b op) → (∀ d, is_Some (w_deliveries w !! d) → is_Some (ds' !! d)) →
  WInv (mkWorld e' (<[st := s']> (w_states w)) (delete q (w_ops w)) ds' wire').
Proof.
  intros HI Hq Hs HS Hds. eapply WInv_move; [done|done|exact HS|done| |].
  - intros q' p [_ ?]%lookup_delete_Some. auto.
  - intros b. rewrite (opsHold_delete _ _ _ _ Hq), (so_budget _ _ (wi_state _ HI _ _ Hs)). done.
Qed.

Lemma WInv_op w q st op s :
  WInv w → w_ops w !! q = Some (st, op) → w_states w !! st = Some s →
  OInv s ∧ Covered s (λ b, opHold (budget s) b op) (w_env w) ∧ OpOk s (w_env w) (w_deliveries w) op.
Proof.
  intros HI Hq Hs. destruct (wi_op _ HI _ _ Hq) as (s0 & Hs0 & Hok). simpl in *. assert (s0 = s) as -> by congruence.
  split; [by eapply so_inv, wi_state|]. split; [by eapply (WInv_Covered w q (st, op))|done].
Qed.

Lemma Safe_handle w q c : WInv w → Safe (wstep (LHandle q c) w).
Proof.
  intros HI. apply Safe_bind. intros [st op] Hq. apply Safe_bind. simpl. intros s Hs. apply Safe_if. intros [Hc _]%andb_true_iff.
  destruct (WInv_op _ _ _ _ _ HI Hq Hs) as (HO & HC & Hok).
  destruct (handleOutboundOp_ok c op s (w_env w) (w_deliveries w) (mkIo (writes c) []) HO HC)
    as (s' & e' & ds' & o' & res & new & -> & HS & Hds & _); [by apply serverConn_budgets|done|].
  apply Safe_done. eapply WInv_dequeue; [done|done|done|exact HS|]. intros d. apply Hds.
Qed.

Lemma Safe_drop w q : WInv w → Safe (wstep (LDrop q) w).
Proof.
  intros HI. apply Safe_bind. intros [st op] Hq. apply Safe_bind. simpl. intros s Hs.
  destruct (WInv_op _ _ _ _ _ HI Hq Hs) as (HO & HC & [Hb Hk Hm]).
  destruct (releaseOp_ok op s (w_env w) HO HC Hk Hb) as (w' & e' & Heq & HS).
  { intros m Hkm. by destruct (Hm m Hkm). }
  rewrite (so_budget _ _ (wi_state _ HI _ _ Hs)) in Heq. rewrite Heq. apply Safe_done.
  by eapply (WInv_dequeue w q st op s (set_window w' s) e' (w_deliveries w) (w_wire w)).
Qed.

Lemma Safe_release w st : WInv w → Safe (wstep (LRelease st) w).
Proof.
  intros HI. apply Safe_bind. intros s Hs. pose proof (wi_state _ HI _ _ Hs) as HS0.
  destruct (releaseAll_ok s (w_env w)) as (s' & e' & -> & HS & _).
  { apply HS0. } { by eapply WInv_Backed. } { by rewrite (so_messages _ _ HS0). } { by rewrite (so_bytes _ _ HS0). }
  apply Safe_done. apply (WInv_move w st s _ e' (w_ops w) (w_deliveries w) (w_wire w) _ HI Hs HS); auto. intros b. lia.
Qed.

(** No step panics, and every step keeps the invariant. *)
Lemma WInv_step l w : WInv w → Safe (wstep l w).
Proof.
  intros HI. destruct l; [..|by apply Safe_release]; [..|by apply Safe_drop];
    auto using Safe_credit, Safe_retarget, Safe_send, Safe_replay, Safe_vector, Safe_by_request, Safe_handle.
  - by apply Safe_done, WInv_open.
  - apply Safe_done, WInv_deliveries; [done|]. intros d. apply insert_known.
Qed.

End producers.
#[global] Arguments WInv caps w : clear implicits.

(** The caps the server was started with. *)
Definition startCaps (body control critical : Z) (b : positive) : Z := capOf b (w_env (startWorld body control critical)).

Lemma WInv_reachable `{TypeIDs} `{Hash} body control critical w :
  body ≤ i64_max → control ≤ i64_max → critical ≤ i64_max → wreachable body control critical w →
  WInv (startCaps body control critical) w.
Proof.
  intros H1 H2 H3. induction 1 as [|l w w' _ IH Hstep]; [by apply WInv_start|].
  destruct (WInv_step _ _ IH _ Hstep) as (w2 & [= ->] & ?). done.
Qed.
