(* ===== verification/OutboundProps.v ===== *)
(** * What the outbound path guarantees

    Over every interleaving of [Actor.wstep]: budgets are conserved and empty
    once drained, a retained message leaves only for a stated reason, and a
    message id means one message for the life of the session. *)

From S2P Require Import Prelude BulkScheduler BulkProps TrackedBudget RpcDelivery OutboundState OutboundInv OutboundActor OutboundOps OutboundWorld.
Import Outbound Actor.

(** ** Fresh message ids *)

(** The ids of a map from a point on; each round of the search leaves one. *)
Definition taken (c : Z) (m : gmap Z outboundFrame) : gmap Z outboundFrame := filter (λ kv, c ≤ kv.1) m.

Lemma taken_shrinks c m : is_Some (m !! c) → (size (taken (c + 4) m) < size (taken c m))%nat.
Proof.
  intros [f Hf]. apply map_subset_size. apply map_subset_alt. split.
  - apply map_subseteq_spec. intros k g [Hk ?]%map_lookup_filter_Some. apply map_lookup_filter_Some. simpl in *. split; [done|lia].
  - exists c. split; [apply map_lookup_filter_None; right; intros g _; simpl; lia|].
    exists f. apply map_lookup_filter_Some. split; [done|simpl; lia].
Qed.

(** The search ends on a free id, at most four above per taken one. *)
Lemma nextFree_spec fuel c m :
  (size (taken c m) ≤ fuel)%nat → i64_min ≤ c → c + 4 * Z.of_nat fuel ≤ i64_max →
  m !! nextFree fuel c m = None ∧ c ≤ nextFree fuel c m ≤ c + 4 * Z.of_nat fuel.
Proof.
  revert c. induction fuel as [|fuel IH]; intros c Hsz Hlo Hhi; simpl; destruct (m !! c) as [f|] eqn:Hc.
  - assert (Htk : taken c m !! c = Some f) by (apply map_lookup_filter_Some; simpl; split; [done|lia]).
    assert (Hz : taken c m = ∅) by (apply map_size_empty_inv; lia). by rewrite Hz, lookup_empty in Htk.
  - split; [done|lia].
  - rewrite add64_small by lia. pose proof (taken_shrinks c m ltac:(by eexists)).
    destruct (IH (c + 4)) as [? ?]; [lia|lia|lia|]. split; [done|lia].
  - split; [done|lia].
Qed.

Lemma size_taken c m : (size (taken c m) ≤ size m)%nat.
Proof. apply map_subseteq_size, map_filter_subseteq. Qed.

Section props.
Context `{TypeIDs} `{Hash} (caps : positive → Z).
Local Notation WInv := (OutboundWorld.WInv caps).

Lemma reserveMsgID_fresh c s :
  idRoom c s = true → i64_min ≤ lastMsgID s → Z.of_nat (size (pending s)) ≤ maxTrackedServerMsgIDs →
  pending s !! (reserveMsgID (newMsgID c) s).2 = None ∧ lastMsgID s < (reserveMsgID (newMsgID c) s).2.
Proof.
  unfold idRoom, reserveMsgID. rewrite andb_true_iff, !bool_decide_eq_true. simpl. intros [[Hlo Hhi] Hl] Hmin Hsz.
  unfold maxTrackedServerMsgIDs in *.
  set (cand := if bool_decide _ then _ else _).
  assert (Hc : lastMsgID s < cand ≤ i64_max - 4 * 4096 ∧ i64_min ≤ cand).
  { unfold cand. case_bool_decide; [rewrite add64_small by int64|]; lia. }
  destruct (nextFree_spec (size (pending s)) cand (pending s)) as [? ?]; [apply size_taken|lia|lia|].
  split; [done|lia].
Qed.

Lemma peekSeqNo_parity b s : Z.odd (peekSeqNo b s) = b.
Proof.
  unfold peekSeqNo, wrap32.
  assert (Hw : ∀ z, Z.odd ((z + 2147483648) mod 4294967296 - 2147483648) = Z.odd z).
  { intros z. rewrite Z.odd_sub. rewrite Z.mod_eq by lia.
    replace 4294967296 with (2 * 2147483648) at 1 by lia.
    rewrite Z.odd_sub, <-Z.mul_assoc, Z.odd_mul, !Z.odd_add. simpl. by destruct (Z.odd z). }
  rewrite Hw, Z.odd_add, Hw, Z.odd_mul. simpl. rewrite andb_false_r. by destruct b.
Qed.

(** ** What one step does to the outboxes and the wire *)

(** A queued replay carries the identity of a retained frame. *)
Definition ReplayOf (w : world) (p : positive * outboundOp) : Prop :=
  ∀ m, o_kind p.2 = OutboundSend m → replayMsgID m ≠ 0 →
    ∃ s f, w_states w !! p.1 = Some s ∧ pending s !! replayMsgID m = Some f ∧
      replaySeqNo m = seqNo f ∧ m_typeID m = typeID f ∧ m_reqMsgID m = reqMsgID f.

(** The outboxes a step leaves as they were. *)
Definition SameOutbox (s s' : outboundState) : Prop :=
  pending s' = pending s ∧ byRequest s' = byRequest s ∧ lastMsgID s' = lastMsgID s.

Inductive Effect (w : world) : label → world → Prop :=
  | EffQuiet l w' :
      w_wire w' = w_wire w →
      (∀ st s, w_states w !! st = Some s → ∃ s', w_states w' !! st = Some s' ∧ SameOutbox s s') →
      (∀ st s', w_states w' !! st = Some s' → w_states w !! st = None → pending s' = ∅ ∧ lastMsgID s' = 0) →
      (∀ q p, w_ops w' !! q = Some p → w_ops w !! q = Some p ∨ ReplayOf w p) →
      Effect w l w'
  | EffHandle q c st op s s' new e' ds' :
      w_ops w !! q = Some (st, op) → w_states w !! st = Some s → idRoom c s = true → Handled c op s s' new →
      Effect w (LHandle q c) (mkWorld e' (<[st := s']> (w_states w)) (delete q (w_ops w)) ds' (w_wire w ++ map (pair st) new))
  | EffRelease st s s' e' :
      w_states w !! st = Some s → pending s' = ∅ → lastMsgID s' = lastMsgID s →
      Effect w (LRelease st) (mkWorld e' (<[st := s']> (w_states w)) (w_ops w) (w_deliveries w) (w_wire w)).

Lemma quiet_state st s s' w :
  w_states w !! st = Some s → SameOutbox s s' →
  ∀ st' x, w_states w !! st' = Some x → ∃ x', <[st := s']> (w_states w) !! st' = Some x' ∧ SameOutbox x x'.
Proof.
  intros Hs HO st' x Hx. destruct (decide (st = st')) as [<-|Hne].
  - exists s'. rewrite lookup_insert_eq. split; [done|]. congruence.
  - exists x. by rewrite lookup_insert_ne.
Qed.
Lemma SameOutbox_refl s : SameOutbox s s.
Proof. done. Qed.
Lemma quiet_refl w st s : w_states w !! st = Some s → ∃ s', w_states w !! st = Some s' ∧ SameOutbox s s'.
Proof. eauto using SameOutbox_refl. Qed.
Lemma states_known w st (s s' : outboundState) st' x :
  w_states w !! st = Some s → <[st := s']> (w_states w) !! st' = Some x → w_states w !! st' = None → pending x = ∅ ∧ lastMsgID x = 0.
Proof.
  intros Hs Hx Hn. destruct (decide (st = st')) as [<-|Hne]; [congruence|].
  rewrite lookup_insert_ne in Hx by done. congruence.
Qed.

(** Queueing changes no outbox. *)
Lemma enqueue_effect l w w0 st r :
  w_wire w0 = w_wire w → w_states w0 = w_states w → w_ops w0 = w_ops w →
  (∀ op, r.2 = inl op → ReplayOf w (st, op)) → Effect w l (enqueue st w0 r).
Proof.
  intros Hw Hs Ho HR. unfold enqueue. destruct r as [e [op|err]]; simpl in *.
  - apply EffQuiet; simpl; [done|rewrite Hs; eauto using quiet_refl|rewrite Hs; congruence|].
    intros q p [[<- <-]|[_ Hq]]%lookup_insert_Some; [auto|]. rewrite Ho in Hq. auto.
  - apply EffQuiet; simpl; [done|rewrite Hs; eauto using quiet_refl|rewrite Hs; congruence|]. rewrite Ho. auto.
Qed.

Lemma replay_effect w st s r c r' d m m' op :
  WInv w → w_states w !! st = Some s → rpcResult r s = Some m → cloneRPCResultForRequest c m r' d = Some m' →
  o_kind op = OutboundSend m' → ReplayOf w (st, op).
Proof.
  intros HI Hs Hr Hcl Hk m2 Hk2 Hne. simpl in *. assert (m2 = m') as -> by congruence.
  destruct (cloneRPCResultForRequest_same _ _ _ _ _ Hcl) as ((Hty & _ & _ & Hor) & Hreq & _ & Hsame & _).
  pose proof (so_inv _ _ (wi_state _ HI _ _ Hs)) as HO. revert Hr. unfold rpcResult. case_bool_decide; [done|].
  destruct (pending s !! _) as [f|] eqn:Hf; [|done]. destruct (_ || _); [done|]. intros [= <-]. simpl in *.
  assert (Heq : r' = reqMsgID f).
  { destruct (decide (r' = reqMsgID f)) as [|Hn]; [done|]. destruct Hor as [->|[_ Hz]]; simpl in *; [done|].
    destruct Hne. apply Hz. congruence. }
  destruct (Hsame Heq) as [Hid Hseq]. pose proof (fi_key _ _ _ _ _ (oi_frames _ HO) _ _ Hf) as Hkey.
  exists s, f. rewrite Hid, Hkey. split; [done|]. split; [done|]. split; [done|]. split; [done|]. congruence.
Qed.

Definition Does (w : world) (l : label) (o : option (Run world)) : Prop := ∀ w', o = Some (Done w') → Effect w l w'.
Lemma Does_bind {A} w l (o : option A) f : (∀ x, o = Some x → Does w l (f x)) → Does w l (o ≫= f).
Proof. intros Hf r. destruct o as [x|]; [|done]. simpl. by apply Hf. Qed.
Lemma Does_if w l (b : bool) o : (b = true → Does w l o) → Does w l (if b then o else None).
Proof. intros Hb. destruct b; [auto|done]. Qed.
Lemma Does_done w l w' : Effect w l w' → Does w l (Some (Done w')).
Proof. intros HE r [= <-]. done. Qed.
(** A step that touches at most the window of one session. *)
Lemma Does_window w l st s w' e' ops' :
  w_states w !! st = Some s → (∀ q p, ops' !! q = Some p → w_ops w !! q = Some p) →
  Does w l (Some (Done (withEnv e' (withState st (set_window w' s) (withOps ops' w))))).
Proof.
  intros Hs Ho. apply Does_done, EffQuiet; simpl; [done| |intros st' x; by apply (states_known w st s)|auto].
  eapply quiet_state; [done|]. by split.
Qed.
Lemma Does_enqueue w l P st s (m : Run (env * (outboundOp + sendError))) :
  w_states w !! st = Some s → (∃ r, m = Done r ∧ Made P (w_env w) r) →
  (∀ op, P (o_kind op) → ReplayOf w (st, op)) → Does w l (Some (r ← m; Done (enqueue st w r))).
Proof.
  intros Hs (r & -> & HM) HR. apply Does_done. apply enqueue_effect; try done. intros op Hop. apply HR.
  by apply (md_kind _ _ _ HM).
Qed.
Lemma fresh_replay w st op m : o_kind op = OutboundSend m → replayMsgID m = 0 → ReplayOf w (st, op).
Proof. intros Hk Hz m' Hk' Hne. simpl in *. congruence. Qed.

Lemma Does_send w st c m control : WInv w → Does w (LSend st c m control) (wstep (LSend st c m control) w).
Proof.
  intros HI. apply Does_bind. intros s Hs. apply Does_if. intros [Hc Hsd]%andb_true_iff. apply sendable_ok in Hsd as (Hz & _).
  eapply Does_enqueue; [done|apply newOutboundSendOp_ok; [apply HI|by eapply serverConn_budgets]|].
  intros op Hk. exact (fresh_replay w st op m Hk Hz).
Qed.
Lemma Does_replay w st c r0 r1 : WInv w → Does w (LReplay st c r0 r1) (wstep (LReplay st c r0 r1) w).
Proof.
  intros HI. apply Does_bind. intros s Hs. apply Does_bind. intros m Hr. apply Does_if. intros Hc. cbv zeta.
  set (d := fresh _).
  destruct (cloneReserved_ok c m r1 (Some d) (w_env w)) as (x & Heq & HM); [apply HI|by eapply serverConn_budgets|].
  simpl. rewrite Heq. apply Does_done. apply enqueue_effect; try done. intros op Hop.
  destruct (md_kind _ _ _ HM _ Hop) as (m' & Hk & Hcl). by eapply replay_effect.
Qed.
Lemma Does_handle w q c : WInv w → Does w (LHandle q c) (wstep (LHandle q c) w).
Proof.
  intros HI. apply Does_bind. intros [st op] Hq. apply Does_bind. simpl. intros s Hs. apply Does_if. intros [Hc Hroom]%andb_true_iff.
  destruct (WInv_op _ _ _ _ _ HI Hq Hs) as (HO & HC & Hok).
  destruct (handleOutboundOp_ok c op s (w_env w) (w_deliveries w) (mkIo (writes c) []) HO HC)
    as (s' & e' & ds' & o' & res & new & -> & HS & Hds & Hw & Hh); [by eapply serverConn_budgets|done|].
  apply Does_done. rewrite Hw. simpl. by eapply EffHandle.
Qed.
Lemma Does_drop w q : WInv w → Does w (LDrop q) (wstep (LDrop q) w).
Proof.
  intros HI. apply Does_bind. intros [st op] Hq. apply Does_bind. simpl. intros s Hs.
  destruct (WInv_op _ _ _ _ _ HI Hq Hs) as (HO & HC & [Hb Hk Hm]).
  destruct (releaseOp_ok op s (w_env w) HO HC Hk Hb) as (w' & e' & Heq & HS).
  { intros m Hkm. by destruct (Hm m Hkm). }
  rewrite (so_budget _ _ (wi_state _ HI _ _ Hs)) in Heq. rewrite Heq. apply Does_window; [done|].
  by intros q' p [_ ?]%lookup_delete_Some.
Qed.
Lemma Does_release w st : WInv w → Does w (LRelease st) (wstep (LRelease st) w).
Proof.
  intros HI. apply Does_bind. intros s Hs. pose proof (wi_state _ HI _ _ Hs) as HS0.
  destruct (releaseAll_ok s (w_env w)) as (s' & e' & -> & _ & Hp & Hl & _).
  { apply HS0. } { by eapply WInv_Backed. } { by rewrite (so_messages _ _ HS0). } { by rewrite (so_bytes _ _ HS0). }
  apply Does_done. by apply (EffRelease w st s s' e').
Qed.

Lemma wstep_effect l w w' : WInv w → wstep l w = Some (Done w') → Effect w l w'.
Proof.
  intros HI. revert w'. change (Does w l (wstep l w)).
  assert (Hds : ∀ ds, Does w l (Some (Done (withDeliveries ds w)))).
  { intros ds. apply Does_done, EffQuiet; simpl; [done|by apply quiet_refl|congruence|auto]. }
  destruct l as [|st|rq|d rq|st c m control|st c r0 r1|st c v ids|st r0|q c|q|st];
    [| | | |by apply Does_send|by apply Does_replay| | |by apply Does_handle|by apply Does_drop|by apply Does_release].
  - pose proof (not_elem_of_dom_1 (w_states w) _ (is_fresh (dom (w_states w)))) as Hnew.
    apply Does_done, EffQuiet; simpl; [done| | |auto].
    + intros st s Hs. exists s. split; [|done]. rewrite lookup_insert_ne; [done|]. congruence.
    + intros st s' [[<- <-]|[_ ?]]%lookup_insert_Some; [done|congruence].
  - apply Does_bind. intros s Hs. unfold reserveBulkCredit. destruct (Bulk.reserve _) as [wn l]. simpl.
    apply (Does_window w _ st s wn (w_env w) (w_ops w)); auto.
  - apply Hds.
  - apply Does_bind. intros x _ w'. destruct (Delivery.tryRetarget _ _ _) as [[[[x' ?] ?] ?]|]; [|done]. apply Hds.
  - apply Does_bind. intros s Hs. apply Does_if. intros Hc.
    eapply Does_enqueue; [done|apply vectorKind_ok; [apply HI|by eapply serverConn_budgets]|].
    intros op Hk m Hm. simpl in Hm. rewrite Hk in Hm. by destruct v.
  - apply Does_bind. intros s Hs. apply Does_done, enqueue_effect; try done. by intros op [= <-] m.
Qed.

(** ** A message id means one message *)

Definition attemptIdent (a : attempt) : Z * Z * Z := (t_seqNo a, t_typeID a, t_reqMsgID a).
Definition frameIdent (f : outboundFrame) : Z * Z * Z := (seqNo f, typeID f, reqMsgID f).
Definition onWire (w : world) (st : positive) (id : Z) (i : Z * Z * Z) : Prop :=
  ∃ a, (st, a) ∈ w_wire w ∧ t_msgID a = id ∧ attemptIdent a = i.
Definition parityOk (a : attempt) : Prop := Z.odd (t_seqNo a) = frameNeedsAck (t_typeID a).

Record IdInv (w : world) : Prop := {
  id_fun st id i j : onWire w st id i → onWire w st id j → i = j;
  id_last st id i : onWire w st id i → ∃ s, w_states w !! st = Some s ∧ id ≤ lastMsgID s;
  id_nonneg st s : w_states w !! st = Some s → 0 ≤ lastMsgID s;
  id_frame st s id f : w_states w !! st = Some s → pending s !! id = Some f → onWire w st id (frameIdent f);
  id_replay q p m : w_ops w !! q = Some p → o_kind p.2 = OutboundSend m → replayMsgID m ≠ 0 →
    onWire w p.1 (replayMsgID m) (replaySeqNo m, m_typeID m, m_reqMsgID m);
  id_parity st a : (st, a) ∈ w_wire w → parityOk a;
}.

Lemma matches_ident a f : matches a f → attemptIdent a = frameIdent f.
Proof. intros (_ & H1 & H2 & H3). unfold attemptIdent, frameIdent. congruence. Qed.
Lemma Persists_ident f f' : Persists f f' → frameIdent f' = frameIdent f.
Proof. intros []. unfold frameIdent. congruence. Qed.

(** An attempt of a step: a repetition, or the one message of a new id. *)
Definition Fresh (s s' : outboundState) (a : attempt) : Prop :=
  lastMsgID s < t_msgID a ∧ t_msgID a = lastMsgID s' ∧ parityOk a.
Record NewAttempts (w : world) (st : positive) (s s' : outboundState) (new : list attempt) : Prop := {
  na_last : lastMsgID s ≤ lastMsgID s';
  na_wire a : a ∈ new → onWire w st (t_msgID a) (attemptIdent a) ∨ (new = [a] ∧ Fresh s s' a);
  na_frame id f' : pending s' !! id = Some f' →
    onWire w st id (frameIdent f') ∨ ∃ a, new = [a] ∧ t_msgID a = id ∧ attemptIdent a = frameIdent f';
}.

Lemma BuiltBy_attempt w st s s' c m f a :
  IdInv w → w_states w !! st = Some s → Z.of_nat (size (pending s)) ≤ maxTrackedServerMsgIDs → idRoom c s = true →
  (replayMsgID m ≠ 0 → onWire w st (replayMsgID m) (replaySeqNo m, m_typeID m, m_reqMsgID m)) →
  BuiltBy c m s (lastMsgID s') f → matches a f →
  lastMsgID s ≤ lastMsgID s' ∧ (onWire w st (t_msgID a) (attemptIdent a) ∨ Fresh s s' a).
Proof.
  intros HI Hs Hsz Hroom Hold (Hty & HB) Hm. pose proof (id_nonneg _ HI _ _ Hs) as Hnn.
  rewrite (matches_ident _ _ Hm). destruct Hm as (Ha & Hseq & Hta & _).
  destruct HB as [(Hr & Hl & Hid & Hsq & Hrq)|(Hl & Hid & Hsq)].
  - split; [lia|]. left. unfold frameIdent. rewrite Ha, Hid, Hsq, Hty, Hrq. auto.
  - destruct (reserveMsgID_fresh c s Hroom) as [_ Hgt]; [int64|done|]. rewrite <-Hl in Hgt. split; [lia|]. right.
    split; [congruence|]. split; [congruence|]. unfold parityOk. by rewrite Hseq, Hsq, peekSeqNo_parity, Hta.
Qed.

Lemma SendOutcome_attempts w st s s' c m new :
  WInv w → IdInv w → w_states w !! st = Some s → idRoom c s = true →
  (replayMsgID m ≠ 0 → onWire w st (replayMsgID m) (replaySeqNo m, m_typeID m, m_reqMsgID m)) →
  SendOutcome c m s s' new → NewAttempts w st s s' new.
Proof.
  intros HW HI Hs Hroom Hold Ho. pose proof (id_nonneg _ HI _ _ Hs) as Hnn.
  pose proof (wi_state _ HW _ _ Hs) as HS. pose proof (so_inv _ _ HS) as HO.
  assert (Hsz : Z.of_nat (size (pending s)) ≤ maxTrackedServerMsgIDs).
  { rewrite <-(so_messages _ _ HS). apply HO. }
  assert (Hkeep : pending s' = pending s → ∀ id f', pending s' !! id = Some f' → onWire w st id (frameIdent f')).
  { intros -> id f' Hf. by eapply (id_frame _ HI). }
  destruct Ho as [s' Hp _ Hl|f a s' HB Hm _ Hp _|f g a s' HB Hg Hm Hp _|f f' a s' HB Hm _ Hnew HP Hp _].
  - split; [|set_solver|eauto]. destruct Hl as [->| ->]; [lia|].
    destruct (reserveMsgID_fresh c s Hroom); [int64|done|lia].
  - destruct (BuiltBy_attempt w st s s' c m f a) as [Hle Ha]; try done.
    split; [done| |eauto]. intros x ->%list_elem_of_singleton. destruct Ha; auto.
  - assert (Hle : lastMsgID s ≤ lastMsgID s').
    { destruct HB as (_ & [(_ & -> & _)|(Hl & _)]); [lia|]. rewrite Hl. destruct (reserveMsgID_fresh c s Hroom); [int64|done|lia]. }
    split; [done| |eauto]. intros x ->%list_elem_of_singleton. left. rewrite (matches_ident _ _ Hm).
    destruct Hm as (-> & _). eapply (id_frame _ HI); [done|].
    by rewrite (fi_key _ _ _ _ _ (oi_frames _ HO) _ _ Hg).
  - destruct (BuiltBy_attempt w st s s' c m f a) as [Hle Ha]; try done.
    split; [done| |].
    + intros x ->%list_elem_of_singleton. destruct Ha; auto.
    + rewrite Hp. intros id x [[<- <-]|[_ Hx]]%lookup_insert_Some.
      * right. exists a. split; [done|]. rewrite (matches_ident _ _ Hm), (Persists_ident _ _ HP). by destruct Hm.
      * left. by eapply (id_frame _ HI).
Qed.

Lemma Handled_attempts w q c st op s s' new :
  WInv w → IdInv w → w_ops w !! q = Some (st, op) → w_states w !! st = Some s → idRoom c s = true →
  Handled c op s s' new → NewAttempts w st s s' new.
Proof.
  intros HW HI Hq Hs Hroom [m m1 Hk Hm Ho|HR Ha].
  - eapply SendOutcome_attempts; [done|done|done|done| |exact Ho]. intros Hne.
    destruct Hm as [->|[? _]]; [|done]. exact (id_replay _ HI q (st, op) m Hq Hk Hne).
  - split.
    + by rewrite (rt_last _ _ _ HR).
    + intros a Hin. left. destruct (Ha a Hin) as (f & Hf & Hm & _). rewrite (matches_ident _ _ Hm).
      by eapply (id_frame _ HI).
    + intros id f' Hf'. left. destruct (rt_bwd _ _ _ HR _ _ Hf') as (f & Hf & HP). rewrite (Persists_ident _ _ HP).
      by eapply (id_frame _ HI).
Qed.

(** The wire only grows. *)
Lemma onWire_grows w w' st id i : (∀ x, x ∈ w_wire w → x ∈ w_wire w') → onWire w st id i → onWire w' st id i.
Proof. intros Hg (a & Hin & ?). exists a. auto. Qed.

Lemma IdInv_quiet w w' :
  IdInv w → w_wire w' = w_wire w →
  (∀ st s, w_states w !! st = Some s → ∃ s', w_states w' !! st = Some s' ∧ lastMsgID s' = lastMsgID s) →
  (∀ st s', w_states w' !! st = Some s' → 0 ≤ lastMsgID s') →
  (∀ st s' id f, w_states w' !! st = Some s' → pending s' !! id = Some f → ∃ s, w_states w !! st = Some s ∧ pending s !! id = Some f) →
  (∀ q p, w_ops w' !! q = Some p → w_ops w !! q = Some p ∨ ReplayOf w p) → IdInv w'.
Proof.
  intros HI Hw Hs Hnn Hp Ho.
  assert (Hon : ∀ st id i, onWire w' st id i ↔ onWire w st id i) by (intros; unfold onWire; by rewrite Hw).
  destruct HI as [Hfun Hlast _ Hframe Hrep Hpar]. split.
  - intros st id i j. rewrite !Hon. apply Hfun.
  - intros st id i Hi%Hon. destruct (Hlast _ _ _ Hi) as (s & Hst & Hle). destruct (Hs _ _ Hst) as (s' & ? & Hl).
    exists s'. split; [done|lia].
  - done.
  - intros st s' id f Hst Hf. apply Hon. destruct (Hp _ _ _ _ Hst Hf) as (s & ? & ?). eauto.
  - intros q p m Hq Hk Hne. apply Hon. destruct (Ho _ _ Hq) as [Hold|HR]; [eauto|].
    destruct (HR m Hk Hne) as (s & f & Hst & Hf & H1 & H2 & H3). rewrite H1, H2, H3. eapply Hframe; eauto.
  - rewrite Hw. done.
Qed.

Lemma IdInv_handle w q st op s s' new e' ds' :
  IdInv w → w_ops w !! q = Some (st, op) → w_states w !! st = Some s → NewAttempts w st s s' new →
  IdInv (mkWorld e' (<[st := s']> (w_states w)) (delete q (w_ops w)) ds' (w_wire w ++ map (pair st) new)).
Proof.
  intros HI Hq Hs HN. set (w' := mkWorld _ _ _ _ _).
  assert (Hgrow : ∀ st' id i, onWire w st' id i → onWire w' st' id i).
  { intros st' id i. apply onWire_grows. intros x Hx. simpl. set_solver. }
  assert (Hin : ∀ st' a, (st', a) ∈ w_wire w' → (st', a) ∈ w_wire w ∨ (st' = st ∧ a ∈ new)).
  { intros st' a [?|(x & [= -> ->] & ?)%list_elem_of_fmap]%elem_of_app; auto. }
  assert (Hcase : ∀ st' id i, onWire w' st' id i →
    onWire w st' id i ∨ (st' = st ∧ ∃ a, new = [a] ∧ t_msgID a = id ∧ attemptIdent a = i ∧ Fresh s s' a)).
  { intros st' id i (a & Ha & <- & <-). destruct (Hin _ _ Ha) as [Hold|[-> Hn]]; [left; by exists a|].
    destruct (na_wire _ _ _ _ _ HN a Hn) as [?|[? ?]]; [by left|]. right. split; [done|]. by exists a. }
  assert (Hbelow : ∀ id i, onWire w st id i → id ≤ lastMsgID s).
  { intros id i Hi. destruct (id_last _ HI _ _ _ Hi) as (x & ? & ?). congruence. }
  split.
  - intros st' id i j Hi Hj. destruct (Hcase _ _ _ Hi) as [Hi'|(-> & a & Hna & <- & <- & Hfa)], (Hcase _ _ _ Hj) as [Hj'|(Hst & b & Hnb & Hb & <- & Hfb)].
    + by eapply (id_fun _ HI).
    + subst st' id. destruct Hfb as (? & _). pose proof (Hbelow _ _ Hi'). lia.
    + destruct Hfa as (? & _). pose proof (Hbelow _ _ Hj'). lia.
    + rewrite Hna in Hnb. by injection Hnb as ->.
  - intros st' id i Hi. destruct (Hcase _ _ _ Hi) as [Hold|(-> & a & _ & <- & _ & (_ & Hle & _))].
    + destruct (id_last _ HI _ _ _ Hold) as (x & Hx & Hle). simpl. destruct (decide (st = st')) as [<-|Hne].
      * exists s'. rewrite lookup_insert_eq. split; [done|]. pose proof (na_last _ _ _ _ _ HN). assert (x = s) as -> by congruence. lia.
      * exists x. by rewrite lookup_insert_ne.
    + exists s'. simpl. rewrite lookup_insert_eq. split; [done|lia].
  - simpl. intros st' x [[<- <-]|[_ Hx]]%lookup_insert_Some; [|by eapply (id_nonneg _ HI)].
    pose proof (na_last _ _ _ _ _ HN). pose proof (id_nonneg _ HI _ _ Hs). lia.
  - simpl. intros st' x id f [[<- <-]|[_ Hx]]%lookup_insert_Some Hf; [|by eapply Hgrow, (id_frame _ HI)].
    destruct (na_frame _ _ _ _ _ HN _ _ Hf) as [?|(a & -> & ? & ?)]; [by apply Hgrow|]. exists a. simpl. set_solver.
  - simpl. intros q' p m [_ Hq']%lookup_delete_Some Hk Hne. apply Hgrow. by eapply (id_replay _ HI).
  - intros st' a Ha. destruct (Hin _ _ Ha) as [Hold|[-> Hn]]; [by eapply (id_parity _ HI)|].
    destruct (na_wire _ _ _ _ _ HN a Hn) as [(b & Hb & _ & Heq)|[_ (_ & _ & ?)]]; [|done].
    pose proof (id_parity _ HI _ _ Hb) as Hpar. unfold parityOk in *. injection Heq as H1 H2 _. congruence.
Qed.

Lemma IdInv_step l w w' : WInv w → IdInv w → wstep l w = Some (Done w') → IdInv w'.
Proof.
  intros HW HI Hstep. destruct (wstep_effect _ _ _ HW Hstep) as
    [l w' Hw Hs Hnew Ho|q c st op s s' new e' ds' Hq Hs Hroom Hh|st s s' e' Hs Hp Hl].
  - eapply IdInv_quiet; [done|done| | | |done].
    + intros st s Hst. destruct (Hs _ _ Hst) as (s' & ? & (_ & _ & ?)). eauto.
    + intros st s' Hst'. destruct (w_states w !! st) as [s|] eqn:Hst; [|destruct (Hnew _ _ Hst' Hst); lia].
      destruct (Hs _ _ Hst) as (x & Hx & (_ & _ & Hl)). assert (x = s') as -> by congruence. rewrite Hl. by eapply (id_nonneg _ HI).
    + intros st s' id f Hst' Hf. destruct (w_states w !! st) as [s|] eqn:Hst.
      * destruct (Hs _ _ Hst) as (x & Hx & (Hp & _ & _)). assert (x = s') as -> by congruence. exists s. by rewrite <-Hp.
      * destruct (Hnew _ _ Hst' Hst) as [He _]. by rewrite He, lookup_empty in Hf.
  - eapply IdInv_handle; [done|done|done|]. by eapply Handled_attempts.
  - eapply IdInv_quiet; [exact HI|done| | | |auto]; simpl.
    + intros st' x Hx. destruct (decide (st = st')) as [<-|Hne].
      * exists s'. rewrite lookup_insert_eq. split; [done|]. congruence.
      * exists x. by rewrite lookup_insert_ne.
    + intros st' x [[<- <-]|[_ Hx]]%lookup_insert_Some; [rewrite Hl; by apply (id_nonneg _ HI st)|by apply (id_nonneg _ HI st')].
    + intros st' x id f [[<- <-]|[_ Hx]]%lookup_insert_Some Hf; [by rewrite Hp, lookup_empty in Hf|eauto].
Qed.

End props.

Lemma IdInv_reachable `{TypeIDs} `{Hash} body control critical w :
  body ≤ i64_max → control ≤ i64_max → critical ≤ i64_max → wreachable body control critical w → IdInv w.
Proof.
  intros H1 H2 H3 Hr. induction Hr as [|l w w' Hr IH Hstep].
  - split; simpl; try by intros; rewrite lookup_empty in *.
    + by intros st id i j (a & Hin%elem_of_nil & _).
    + by intros st id i (a & Hin%elem_of_nil & _).
    + by intros st a Hin%elem_of_nil.
  - eapply IdInv_step; [|exact IH|exact Hstep].
    exact (WInv_reachable body control critical w H1 H2 H3 Hr).
Qed.

Section weights.
Context `{TypeIDs} `{Hash}.

(** ** What the reserved bytes stand for *)

(** The bytes an operation brings into the queue. *)
Definition opBytes (op : outboundOp) : Z :=
  match o_kind op with
  | OutboundSend m => blen (m_body m)
  | OutboundAck ids | OutboundQueryState ids | OutboundResend ids => 8 * Z.of_nat (length ids)
  | OutboundResendByRequest _ => 0
  end.
(** A retained frame is charged its body; once compacted, the descriptor of its
    replay source; a result that was queued without its body and rebuilt by a
    retarget keeps the fewer than 12 bytes it came with. *)
Definition frameCharged (f : outboundFrame) : Prop :=
  reservedBytes f = blen (body f) ∨
  match replaySource f with
  | None => False
  | Some src => (body f = [] ∧ reservedBytes f = Z.max outboundReplayDescriptorCharge (RetainedBytes src)) ∨
                (typeID f = ResultTypeID ∧ reservedBytes f < 12)
  end.
Definition Weighed (s : outboundState) : Prop := map_Forall (λ _ f, frameCharged f) (pending s).

Lemma releaseCredit_pending l s e s' e' : releaseCredit l s e = Done (s', e') → pending s' = pending s.
Proof. unfold releaseCredit. intros. by run_inv. Qed.
Lemma releaseCreditOf_pending f s e s' e' : releaseCreditOf f s e = Done (s', e') → pending s' = pending s.
Proof. unfold releaseCreditOf. destruct (bulkCredit f); [apply releaseCredit_pending|]. intros. by run_inv. Qed.
Lemma releaseMessageCredit_pending m s e s' e' : releaseMessageCredit m s e = Done (s', e') → pending s' = pending s.
Proof. unfold releaseMessageCredit. destruct (m_bulkCredit m); [apply releaseCredit_pending|]. intros. by run_inv. Qed.
Lemma removePending_pending id s e s' e' b : removePending id s e = Done (s', e', b) → pending s' ⊆ pending s.
Proof.
  unfold removePending. intros. run_inv; [|done].
  match goal with H : releaseCreditOf _ _ _ = _ |- _ => apply releaseCreditOf_pending in H as -> end. simpl. apply delete_subseteq.
Qed.
Lemma markAcked_pending id s s' : markAcked id s = Done s' → pending s' = pending s.
Proof. unfold markAcked. intros. by run_inv. Qed.
Lemma ackLoop_pending ids s e s' e' acks : ackLoop ids s e = Done (s', e', acks) → pending s' ⊆ pending s.
Proof.
  revert s e s' e' acks. induction ids as [|id ids IH]; intros s e s' e' acks; simpl; intros; run_inv; [done|..|by eapply IH].
  - match goal with H : removePending _ _ _ = _ |- _ => apply removePending_pending in H end.
    match goal with H : markAcked _ _ = _ |- _ => apply markAcked_pending in H as HA end.
    etrans; [by eapply IH|]. by rewrite HA.
  - match goal with H : removePending _ _ _ = _ |- _ => apply removePending_pending in H end. etrans; [by eapply IH|done].
Qed.
Lemma releaseOp_pending d op s e s' e' : releaseOp d op s e = Done (s', e') → pending s' = pending s.
Proof.
  unfold releaseOp. intros. destruct (o_kind op); run_inv; try done. by eapply releaseCredit_pending.
Qed.
Lemma Weighed_sub s s' : pending s' ⊆ pending s → Weighed s → Weighed s'.
Proof. intros Hs HW id f Hf. apply (HW id). by eapply lookup_weaken. Qed.
Lemma Weighed_eq s s' : pending s' = pending s → Weighed s → Weighed s'.
Proof. intros Hp. apply Weighed_sub. by rewrite Hp. Qed.
Lemma Weighed_insert s id f : Weighed s → frameCharged f → Weighed (set_pending (<[id := f]> (pending s)) s).
Proof. intros HW Hf. by apply map_Forall_insert_2. Qed.

(** A frame keeps its charge when it is written, resent or compacted. *)
Lemma charged_same f f' :
  body f' = body f → reservedBytes f' = reservedBytes f → replaySource f' = replaySource f → typeID f' = typeID f →
  frameCharged f → frameCharged f'.
Proof. intros E1 E2 E3 E4. unfold frameCharged. by rewrite E1, E2, E3, E4. Qed.
Lemma writeFrame_same c f o o' f' ok :
  writeFrame c f o = (o', f', ok) →
  body f' = body f ∧ reservedBytes f' = reservedBytes f ∧ replaySource f' = replaySource f ∧ typeID f' = typeID f ∧ msgID f' = msgID f.
Proof. unfold writeFrame. destruct (i_writes o) as [|ok' rest]; [by intros [= _ <- _]|]. intros [= _ <- _]. by destruct (_ && _). Qed.
Lemma compact_charged d f e f' e' b : compactImmutableFrame d f e = Done (f', e', b) → frameCharged f → frameCharged f'.
Proof.
  unfold compactImmutableFrame. intros Hc Hf. destruct (replaySource f) as [src|] eqn:Hs; run_inv; try done.
  right. simpl. rewrite Hs. left. done.
Qed.
Lemma resendFrame_charged c f e o e' o' f' : resendFrame c f e o = Done (e', o', inl f') → frameCharged f → frameCharged f'.
Proof.
  unfold resendFrame. intros. run_inv; repeat match goal with H : (if ?b then inl _ else inr _) = inl _ |- _ => destruct b end; simplify_eq.
  - match goal with H : writeFrame _ _ _ = _ |- _ => apply writeFrame_same in H as (E1 & E2 & E3 & E4 & _) end. by eapply (charged_same f).
  - by eapply (charged_same f).
Qed.
Lemma handleOutboundResend_weighed c ids s e o s' e' o' info err :
  handleOutboundResend c ids s e o = Done (s', e', o', info, err) → Weighed s → Weighed s'.
Proof.
  revert s e o s' e' o' info err. induction ids as [|id ids IH]; intros s e o s' e' o' info err; simpl; intros Hr HW; [by run_inv|].
  destruct (pending s !! id) as [f|] eqn:Hf; [|run_inv; by eapply IH]. destruct (validateOutboundLayerBinding _ _); run_inv.
  - match goal with H : removePending _ _ _ = _ |- _ => apply removePending_pending in H end. eapply IH; [done|]. by eapply Weighed_sub.
  - destruct s0 as [f'|]; run_inv; [|done]. eapply IH; [done|]. apply Weighed_insert; [done|].
    eapply resendFrame_charged; [done|]. by apply (HW id).
Qed.
Lemma handleOutboundResendByRequest_weighed c r s e o s' e' o' b err :
  handleOutboundResendByRequest c r s e o = Done (s', e', o', b, err) → Weighed s → Weighed s'.
Proof.
  unfold handleOutboundResendByRequest. intros Hr HW. run_inv; try done. destruct s0 as [f'|]; run_inv; [|done].
  apply Weighed_insert; [done|]. eapply resendFrame_charged; [done|]. by eapply (HW _).
Qed.

(** What is held for a message fits the body it will be retained with. *)
Definition heldFor (m : encodedOutboundMessage) (n : Z) : Prop :=
  n = blen (m_body m) ∨ (is_Some (m_replaySource m) ∧ m_typeID m = ResultTypeID ∧ n < 12).
Lemma materialize_length c m r b :
  materialize c m r = Some b → blen b = blen (m_body m) ∨ (is_Some (m_replaySource m) ∧ blen (m_body m) < 12).
Proof.
  unfold materialize. destruct (_ || _); [done|]. case_bool_decide as Hl.
  - intros [= <-]. left. case_bool_decide; [done|]. unfold blen. rewrite length_app, length_take. cbn [length]. rewrite length_drop. lia.
  - destruct (m_replaySource m); [|done]. intros _. right. split; [by eexists|]. unfold blen. lia.
Qed.
Lemma retarget_held c target b m h e e' h' m' :
  retargetForWrite c target b m h e = Done (e', h', inl m') → heldFor m (h_reserved h) → heldFor m' (h_reserved h').
Proof.
  unfold retargetForWrite. intros. run_inv; simplify_eq; [done|].
  match goal with H : cloneRPCResultForRequest _ _ _ _ = _ |- _ => revert H end. unfold cloneRPCResultForRequest.
  destruct (bool_decide (m_typeID m = ResultTypeID)) eqn:Ht; [|done]. apply bool_decide_eq_true in Ht. case_bool_decide; [done|]. simpl.
  destruct (materialize c m target) as [x|] eqn:Hm; [|done]. intros [= <-]. unfold heldFor. simpl.
  apply materialize_length in Hm as [->|[? ?]]; [by left|by right].
Qed.
Lemma placeFrame_weighed f b h s s' h' r :
  placeFrame f b h s = Done (s', h', r) → Weighed s → frameCharged (set_reservation (h_reserved h) (Some b) f) →
  Weighed s' ∧ (∀ g, r = inl (PlacedNew, g) → frameCharged g).
Proof.
  unfold placeFrame, admitReserved, insertReserved. intros Hp HW Hf.
  destruct (negb _); [run_inv; split; [done|by intros]|]. destruct (if bool_decide _ then _ else _); [run_inv; split; [done|by intros]|].
  destruct (bool_decide _); [run_inv; split; [done|by intros]|]. run_inv; try (split; [done|by intros]). split; [|by intros g [= <-]].
  by apply map_Forall_insert_2.
Qed.
Lemma writePlaced_weighed c p f s e o s' e' o' err :
  writePlaced c p f s e o = Done (s', e', o', err) → Weighed s → (p = PlacedNew → frameCharged f) → Weighed s'.
Proof.
  unfold writePlaced. destruct (writeFrame c f o) as [[o1 f1] ok] eqn:Hw. apply writeFrame_same in Hw as (E1 & E2 & E3 & E4 & _).
  intros Hp HW Hf. assert (Hf1 : p = PlacedNew → frameCharged f1) by (intros Hn; by eapply (charged_same f); auto).
  destruct p; run_inv; try done; (apply Weighed_insert; [done|]); [|by apply Hf1]. eapply compact_charged; [done|by apply Hf1].
Qed.
Lemma sendMessage_weighed c m b h s e o s' e' o' h' err :
  sendMessage c m b h s e o = Done (s', e', o', h', err) → heldFor m (h_reserved h) → Weighed s → Weighed s'.
Proof.
  unfold sendMessage. intros Hs Hh HW. destruct (buildFrameWithState c m s) as [s1 fr] eqn:Hb.
  assert (Hs1 : pending s1 = pending s ∧ ∀ f, fr = inl f → frameCharged (set_reservation (h_reserved h) (Some b) f)).
  { revert Hb. unfold buildFrameWithState. destruct (validateOutboundLayerBinding _ _); [by intros [= <- <-]|]. destruct (_ || _); [|by intros [= <- <-]].
    assert (Hc : ∀ id seq, frameCharged (set_reservation (h_reserved h) (Some b)
      (mkFrame id seq (m_typeID m) (m_body m) 0 None (m_reqMsgID m) (m_priority m) (m_delivery m) (m_compressed m) (m_uncompressedBytes m)
         (m_replaySource m) (m_innerDigest m) (m_logicalBytes m) (m_bulkCredit m) (m_layer m) (m_layerInvariant m) 0 0))).
    { intros id seq. unfold frameCharged. simpl. destruct Hh as [->|([src ->] & Ht & Hn)]; [by left|]. right. right. done. }
    case_bool_decide; unfold reserveMsgID; intros [= <- <-]; (split; [done|]); intros f [= <-]; apply Hc. }
  destruct Hs1 as [Hp Hc]. apply (Weighed_eq _ _ Hp) in HW. clear Hb Hp s. destruct fr as [f|err']; unfold sendBuilt, failSend in Hs; run_inv.
  - match goal with H : placeFrame _ _ _ _ = _ |- _ => destruct (placeFrame_weighed _ _ _ _ _ _ _ H HW (Hc f eq_refl)) as [HW1 Hn] end.
    destruct s as [[p' g]|err']; run_inv.
    + match goal with H : writePlaced _ _ _ _ _ _ = _ |- _ => eapply writePlaced_weighed in H as HW2; [|exact HW1|intros ->; by apply Hn] end.
      destruct p'; run_inv; try done. match goal with H : releaseMessageCredit _ _ _ = _ |- _ => apply releaseMessageCredit_pending in H end. by eapply Weighed_eq.
    + match goal with H : releaseMessageCredit _ _ _ = _ |- _ => apply releaseMessageCredit_pending in H end. by eapply Weighed_eq.
  - match goal with H : releaseMessageCredit _ _ _ = _ |- _ => apply releaseMessageCredit_pending in H end. by eapply Weighed_eq.
Qed.
Lemma handleOutboundOp_weighed c op s e ds o s' e' ds' o' res :
  handleOutboundOp c op s e ds o = Done (s', e', ds', o', res) → o_reservedBytes op = opBytes op → Weighed s → Weighed s'.
Proof.
  unfold handleOutboundOp, opBytes. intros Hop Ho HW. destruct (keyUnavailable c).
  { run_inv. match goal with H : releaseOp _ _ _ _ = _ |- _ => apply releaseOp_pending in H end. by eapply Weighed_eq. }
  destruct (o_kind op) as [m|ids|ids|ids|r]; unfold handleOutboundSend, ackWithDetails in Hop; run_inv;
    repeat match goal with H : releaseOp _ _ _ _ = _ |- _ => apply releaseOp_pending in H end; eauto using Weighed_eq.
  - match goal with H : match ?x with inl _ => _ | inr _ => _ end = Done _ |- _ => destruct x as [m'|]; unfold failSend in H; run_inv end.
    + eapply sendMessage_weighed; [done| |done]. eapply retarget_held; [done|]. left. exact Ho.
    + match goal with H : releaseMessageCredit _ _ _ = _ |- _ => apply releaseMessageCredit_pending in H end. by eapply Weighed_eq.
  - match goal with H : ackLoop _ _ _ = _ |- _ => apply ackLoop_pending in H end. eapply Weighed_eq; [done|]. eapply Weighed_sub; [|done]. by case_bool_decide.
  - eapply Weighed_eq; [done|]. by eapply handleOutboundResend_weighed.
  - eapply Weighed_eq; [done|]. by eapply handleOutboundResendByRequest_weighed.
Qed.

(** Every queued operation and every retained frame of a world is weighed. *)
Record WeighInv (w : world) : Prop := {
  wg_ops q p : w_ops w !! q = Some p → o_reservedBytes p.2 = opBytes p.2;
  wg_states st s : w_states w !! st = Some s → Weighed s;
}.
Lemma WeighInv_state w st s e ops ds wire :
  WeighInv w → Weighed s → (∀ q p, ops !! q = Some p → w_ops w !! q = Some p) →
  WeighInv (mkWorld e (<[st := s]> (w_states w)) ops ds wire).
Proof.
  intros [Ho Hs] HW Hops. split; simpl; [eauto|]. intros st' x [[<- <-]|[_ ?]]%lookup_insert_Some; [done|by eapply Hs].
Qed.
Lemma WeighInv_enqueue w st r : WeighInv w → (∀ op, r.2 = inl op → o_reservedBytes op = opBytes op) → WeighInv (enqueue st w r).
Proof.
  intros [Ho Hs] Hr. unfold enqueue. destruct (r.2) as [op|]; [|by split]. split; simpl; [|done].
  intros q p [[<- <-]|[_ ?]]%lookup_insert_Some; [by apply Hr|by eapply Ho].
Qed.
Lemma reserved_result {A} (x : Run (env * bool)) (op : A) (err : sendError) r :
  ('(e, ok) ← x; Done (e, if (ok : bool) then inl op else inr err)) = Done r → ∀ op', r.2 = inl op' → op' = op.
Proof. intros. run_inv. simpl in *. by destruct b; simplify_eq. Qed.
Lemma WeighInv_step l w w' : WeighInv w → wstep l w = Some (Done w') → WeighInv w'.
Proof.
  intros HI Hstep. destruct l as [|st|r|d r|st c m control|st c r r'|st c v ids|st r|q c|q|st]; simpl in Hstep;
    repeat (match goal with H : (?o ≫= _) = Some (Done _) |- _ => apply bind_Some in H as (? & ? & H)
            | H : (if ?b then _ else _) = Some (Done _) |- _ => destruct b; [|discriminate H] end);
    injection Hstep as Hstep; run_inv; try subst w'.
  - apply (WeighInv_state w); [done|by apply map_Forall_empty|done].
  - apply (WeighInv_state w); [done| |done]. apply (Weighed_eq x); [|by eapply wg_states]. done.
  - by destruct HI.
  - by destruct HI.
  - apply WeighInv_enqueue; [done|]. intros op Hop. unfold newOutboundSendOp in *. destruct (validateOutboundLayerBinding _ _); [by run_inv|].
    destruct (bool_decide _); [by run_inv|]. by match goal with H : _ = Done _ |- _ => rewrite (reserved_result _ _ _ _ H op Hop) end.
  - apply WeighInv_enqueue; [by destruct HI|]. intros op Hop. unfold cloneRPCResultForRequestReserved in *. destruct (cloneRPCResultForRequest _ _ _ _); [|by run_inv].
    destruct (bool_decide _); [by run_inv|]. by match goal with H : _ = Done _ |- _ => rewrite (reserved_result _ _ _ _ H op Hop) end.
  - apply WeighInv_enqueue; [done|]. intros op Hop. unfold vectorKind in *.
    match goal with H : _ = Done _ |- _ => rewrite (reserved_result _ _ _ _ H op Hop) end. unfold opBytes. destruct v; simpl; lia.
  - apply WeighInv_enqueue; [done|]. by intros op [= <-].
  - apply (WeighInv_state w); [done| |by intros q' p' [_ ?]%lookup_delete_Some].
    eapply handleOutboundOp_weighed; [done|by eapply wg_ops|by eapply wg_states].
  - apply (WeighInv_state w); [done| |intros q' p'; simpl; by intros [_ ?]%lookup_delete_Some].
    match goal with H : releaseOp _ _ _ _ = _ |- _ => apply releaseOp_pending in H end. eapply Weighed_eq; [done|by eapply wg_states].
  - apply (WeighInv_state w); [done| |done]. unfold releaseAll in *. run_inv. by apply map_Forall_empty.
Qed.
Lemma WeighInv_reachable body control critical w : wreachable body control critical w → WeighInv w.
Proof.
  induction 1; [|by eapply WeighInv_step]. split; simpl; intros ? ?; by rewrite lookup_empty.
Qed.
End weights.

(** ** The theorems *)

Section theorems.
Context `{TypeIDs} `{Hash}.

Lemma startCaps_nonneg body control critical b : 0 ≤ startCaps body control critical b.
Proof.
  assert (Hnew : ∀ m, 0 ≤ Tracked.maxBytes (Tracked.newOutboundTrackedBudget m)).
  { intros m. unfold Tracked.newOutboundTrackedBudget, Tracked.defaultOutboundTrackedMaxBytes. simpl. case_bool_decide; lia. }
  unfold startCaps, capOf. simpl. destruct (_ !! b) as [bud|] eqn:Hb; [|done]. simpl.
  apply lookup_insert_Some in Hb as [[_ <-]|[_ Hb]]; [done|].
  apply lookup_insert_Some in Hb as [[_ <-]|[_ [_ <-]%lookup_singleton_Some]]; done.
Qed.


(** Why a retained frame may leave an outbox. *)
Inductive LeavesBy (w : world) (st : positive) (id : Z) (f : outboundFrame) : label → Prop :=
  | LeavesAcked q c op ids :
      w_ops w !! q = Some (st, op) → o_kind op = OutboundAck ids → id ∈ ids → LeavesBy w st id f (LHandle q c)
  | LeavesRefused q c op ids :
      w_ops w !! q = Some (st, op) → o_kind op = OutboundResend ids → id ∈ ids → layerRefused c f →
      LeavesBy w st id f (LHandle q c)
  | LeavesReleased : LeavesBy w st id f (LRelease st).

Lemma SendOutcome_keeps c m s s' new id f :
  SendOutcome c m s s' new → pending s !! id = Some f → ∃ f', pending s' !! id = Some f' ∧ Persists f f'.
Proof.
  intros Ho Hf. destruct Ho as [s' Hp _ _|g a s' _ _ _ Hp _|g h a s' _ _ _ Hp _|g g' a s' _ _ _ Hnew HP Hp _]; rewrite Hp.
  1-3: by exists f.
  exists f. split; [|done]. rewrite lookup_insert_ne; [done|]. congruence.
Qed.

(** C7: a message that was admitted to an outbox stays there, with its
    identity, its replay source, its credit and every byte that could not be
    rebuilt, until the client acknowledges its id, until a resend of its id
    finds that the connection's layer no longer accepts it, or until the whole
    session is released; failed writes, dropped operations, replays and
    traffic of other sessions never lose it. *)
Theorem outbound_retention body control critical w l w' st s id f :
  body ≤ i64_max → control ≤ i64_max → critical ≤ i64_max → wreachable body control critical w →
  wstep l w = Some (Done w') → w_states w !! st = Some s → pending s !! id = Some f →
  ∃ s', w_states w' !! st = Some s' ∧
    ((∃ f', pending s' !! id = Some f' ∧ Persists f f') ∨ (pending s' !! id = None ∧ LeavesBy w st id f l)).
Proof.
  intros H1 H2 H3 Hr Hstep Hs Hf. pose proof (WInv_reachable _ _ _ _ H1 H2 H3 Hr) as HI.
  destruct (wstep_effect _ _ _ _ HI Hstep) as
    [l w' _ Hkeep _ _|q c st' op x x' new e' ds' Hq Hx _ Hh|st' x x' e' Hx Hp _]; simpl.
  - destruct (Hkeep _ _ Hs) as (s' & Hs' & (Hp & _)). exists s'. split; [done|]. left. exists f. by rewrite Hp.
  - destruct (decide (st' = st)) as [->|Hne]; [|exists s; rewrite lookup_insert_ne by done; split; [done|left; by exists f]].
    exists x'. rewrite lookup_insert_eq. split; [done|]. assert (x = s) as -> by congruence.
    destruct Hh as [m m1 _ _ Ho|HR _]; [left; by eapply SendOutcome_keeps|].
    destruct (rt_fwd _ _ _ HR _ _ Hf) as [?|[Hn Hd]]; [by left|]. right. split; [done|].
    unfold acksOf, resendDropped, resendsOf in Hd.
    destruct (o_kind op) as [|ids| |ids|] eqn:Hk; destruct Hd as [Hin|[Hin Hl]]; try (by apply elem_of_nil in Hin).
    + by eapply LeavesAcked.
    + by eapply LeavesRefused.
  - destruct (decide (st' = st)) as [->|Hne]; [|exists s; rewrite lookup_insert_ne by done; split; [done|left; by exists f]].
    exists x'. rewrite lookup_insert_eq. split; [done|]. right. rewrite Hp. split; [done|apply LeavesReleased].
Qed.

(** C8: over every run, two attempts of one session that carry the same
    message id carry the same sequence number, type and request id, also
    across failed writes, resends, replays and released outboxes; the parity
    of the sequence number says whether the message needs an acknowledgement;
    and an id that goes out for the first time is above every earlier one. *)
Theorem outbound_message_identity body control critical w l w' st a :
  body ≤ i64_max → control ≤ i64_max → critical ≤ i64_max → wreachable body control critical w →
  wstep l w = Some (Done w') → (st, a) ∈ w_wire w' →
  (∀ a', (st, a') ∈ w_wire w' → t_msgID a' = t_msgID a → attemptIdent a' = attemptIdent a) ∧
  Z.odd (t_seqNo a) = frameNeedsAck (t_typeID a) ∧
  ((∃ a', (st, a') ∈ w_wire w ∧ t_msgID a' = t_msgID a) ∨ ∀ a', (st, a') ∈ w_wire w → t_msgID a' < t_msgID a).
Proof.
  intros H1 H2 H3 Hr Hstep Ha. pose proof (WInv_reachable _ _ _ _ H1 H2 H3 Hr) as HW.
  pose proof (IdInv_reachable _ _ _ _ H1 H2 H3 Hr) as HI.
  pose proof (IdInv_step _ _ _ _ HW HI Hstep) as HI'. split; [|split].
  - intros a' Ha' Heq. apply (id_fun _ HI' st (t_msgID a)); [by exists a'|by exists a].
  - exact (id_parity _ HI' _ _ Ha).
  - destruct (wstep_effect _ _ _ _ HW Hstep) as
      [l w' Hw _ _ _|q c st' op x x' new e' ds' Hq Hx Hroom Hh|st' x x' e' Hx Hp _]; simpl in *; [rewrite Hw in Ha; eauto| |eauto].
    apply elem_of_app in Ha as [?|(y & [= -> ->] & Hy)%list_elem_of_fmap]; [eauto|].
    pose proof (Handled_attempts _ _ _ _ _ _ _ _ _ HW HI Hq Hx Hroom Hh) as HN.
    destruct (na_wire _ _ _ _ _ HN _ Hy) as [(a' & ? & ? & _)|[_ (Hgt & _)]]; [left; eauto|right].
    intros a' Ha'. destruct (id_last _ HI st' (t_msgID a') (attemptIdent a')) as (z & Hz & Hle); [by exists a'|].
    assert (z = x) as -> by congruence. lia.
Qed.
End theorems.

(** ** Concrete runs *)

Module OutboundRuns.
#[export] Instance mtprotoIDs : TypeIDs := {|
  MsgsAckTypeID := 0x62d6b459; PongTypeID := 0x347773c5; FutureSaltsTypeID := 0xae500895; BadMsgNotificationTypeID := 0xa7eff811;
  BadServerSaltTypeID := 0xedab447b; MsgsStateInfoTypeID := 0x04deb57d; MsgsAllInfoTypeID := 0x8cc0d131;
  MsgDetailedInfoTypeID := 0x276d3ec6; MsgNewDetailedInfoTypeID := 0x809db6df; MessageContainerTypeID := 0x73f1f8dc;
  NewSessionCreatedTypeID := 0x9ec20908; DestroySessionOkTypeID := 0xe22045fc; DestroySessionNoneTypeID := 0x62d350c9;
  RPCAnswerUnknownTypeID := 0x5e2ad36e; RPCAnswerDroppedRunningTypeID := 0xcd78e586; RPCAnswerDroppedTypeID := 0xa43ad8b7;
  ResultTypeID := 0xf35c6d01 |}.
(** A stand-in digest: the value of the bytes. *)
#[export] Instance valueHash : Hash := {| sha256 := le_value |}.

(** Runs a list of steps; [None] when one is not enabled or panics. *)
Definition wexec (ls : list label) (w : world) : option world :=
  foldl (λ o l, w ← o; r ← wstep l w; match r with Done w => Some w | Panicked => None end) (Some w) ls.

Definition profile181 : LayerProfileSnapshot := mkSnapshot 181 LayerProfileExplicit 1.
Definition inner : list Z := [1; 2; 3; 4].
Definition client (ws : list bool) (id : Z) : conn :=
  mkConn false profile181 id ws 1000 (λ _, Some inner) serverBody serverControl serverCritical.
Definition resultBody (r : Z) : list Z := le_bytes 4 ResultTypeID ++ le_bytes 8 r ++ inner.
(** An [upload.getFile] result: bulk credit, delivery object, replay source. *)
Definition fileResult (r : Z) (d l : positive) : encodedOutboundMessage :=
  mkEncoded (resultBody r) ResultTypeID r PriorityBulk (Some d) true None false 4 (Some (mkSource 1 64)) (le_value inner) 16 (Some l) 0 0.

Lemma wexec_from ls body control critical w w' :
  wreachable body control critical w → wexec ls w = Some w' → wreachable body control critical w'.
Proof.
  revert w. induction ls as [|l ls IH]; intros w Hr; cbn; [by intros [= <-]|].
  destruct (wstep l w) as [[w1|]|] eqn:Hs; cbn.
  - intros He. eapply IH; [|exact He]. by eapply wreach_step.
  - intros He. exfalso. clear -He. induction ls; [done|]. by apply IHls.
  - intros He. exfalso. clear -He. induction ls; [done|]. by apply IHls.
Qed.
Lemma wexec_reachable ls body control critical w :
  wexec ls (startWorld body control critical) = Some w → wreachable body control critical w.
Proof. apply wexec_from, wreach_start. Qed.

(** The state a run ends in, and a default for runs that do not. *)
Definition after (ls : list label) : world := from_option id (startWorld 1000 1000 1000) (wexec ls (startWorld 1000 1000 1000)).

(** A file result whose first write fails, then a replay is queued. *)
Definition failed : list label :=
  [LOpen; LCredit 1; LDelivery 700; LSend 1 (client [] 0) (fileResult 700 1 1) false; LHandle 1 (client [false] 5000);
   LReplay 1 (client [] 0) 700 700].
(** The client acknowledges the first attempt before the replay is handled. *)
Definition acked_ : list label := failed ++ [LVector 1 (client [] 0) VecAck [5000]; LHandle 2 (client [] 0)].
(** The replay goes out under the first identity. *)
Definition replayed : list label := acked_ ++ [LHandle 1 (client [true] 9000)].

Lemma failed_reachable : wreachable 1000 1000 1000 (after failed).
Proof. apply (wexec_reachable failed). vm_compute. reflexivity. Qed.
Lemma acked_reachable : wreachable 1000 1000 1000 (after acked_).
Proof. apply (wexec_reachable acked_). vm_compute. reflexivity. Qed.


(** The frame whose write failed is there for the next step, a released queue. *)
Lemma outbound_retention_witness :
  ∃ s f, w_states (after failed) !! 1%positive = Some s ∧ pending s !! 5000 = Some f ∧
  ∃ s', w_states (after (failed ++ [LDrop 1])) !! 1%positive = Some s' ∧
    ((∃ f', pending s' !! 5000 = Some f' ∧ Persists f f') ∨ (pending s' !! 5000 = None ∧ LeavesBy (after failed) 1 5000 f (LDrop 1))).
Proof.
  eexists _, _. split; [vm_compute; reflexivity|]. split; [vm_compute; reflexivity|].
  eapply (outbound_retention 1000 1000 1000 (after failed) (LDrop 1) (after (failed ++ [LDrop 1])));
    [int64|int64|int64|exact failed_reachable|vm_compute; reflexivity|vm_compute; reflexivity|vm_compute; reflexivity].
Defined.

(** Both attempts of message 5000 agree, though the first was acknowledged. *)
Lemma outbound_message_identity_witness :
  map (λ p, (t_msgID p.2, t_ok p.2)) (w_wire (after replayed)) = [(5000, false); (5000, true)] ∧
  ∃ a, (1%positive, a) ∈ w_wire (after replayed) ∧
    ∀ a', (1%positive, a') ∈ w_wire (after replayed) → t_msgID a' = t_msgID a → attemptIdent a' = attemptIdent a.
Proof.
  split; [vm_compute; reflexivity|].
  exists (mkAttempt 5000 1 ResultTypeID 700 (resultBody 700) true). split; [vm_compute; right; left|].
  apply (outbound_message_identity 1000 1000 1000 (after acked_) (LHandle 1 (client [true] 9000)) (after replayed) 1
    (mkAttempt 5000 1 ResultTypeID 700 (resultBody 700) true));
    [int64|int64|int64|exact acked_reachable|vm_compute; reflexivity|vm_compute; right; left].
Defined.

(** A retarget of a queued file result drops its bulk credit: the frame goes
    out and is acknowledged, nothing queued or retained names the credit, and
    the window still counts it. *)
Definition retargeted : list label :=
  [LOpen; LCredit 1; LDelivery 700; LSend 1 (client [] 0) (fileResult 700 1 1) false; LRetarget 1 701;
   LHandle 1 (client [true] 5000); LVector 1 (client [] 0) VecAck [5000]; LHandle 1 (client [] 0)].
Lemma outbound_retarget_leaks_credit :
  wreachable 1000 1000 1000 (after retargeted) ∧ w_ops (after retargeted) = ∅ ∧
  map (λ p, (t_msgID p.2, t_reqMsgID p.2, t_ok p.2)) (w_wire (after retargeted)) = [(5000, 701, true)] ∧
  ∃ s, w_states (after retargeted) !! 1%positive = Some s ∧ pending s = ∅ ∧ Bulk.inUse (window s) = 1.
Proof.
  split; [apply (wexec_reachable retargeted); vm_compute; reflexivity|]. split; [vm_compute; reflexivity|].
  split; [vm_compute; reflexivity|]. eexists. split; [vm_compute; reflexivity|]. by split.
Qed.
End OutboundRuns.
