(* ===== verification/InboundViews.v ===== *)
(** * Views of inbound bytes

    [internal/mtprotoedge/encrypted.go] and [inbound_preflight.go]: the parsers
    that read a client frame without copying it.  A view into the caller's
    buffer is the list of its bytes; everything here only reads.  The encoders
    below are the TL and MTProto formats the parsers are checked against. *)

From S2P Require Import Prelude Wire FrameBudget.

Module Views.

(** ** Fixed-width integers in a buffer *)

Definition blen (bs : list Z) : Z := Z.of_nat (length bs).
Definition uint32At (off : nat) (b : list Z) : Z := le_value (take 4 (drop off b)).
Definition int32At (off : nat) (b : list Z) : Z := wrap32 (uint32At off b).
Definition int64At (off : nat) (b : list Z) : Z := wrap64 (le_value (take 8 (drop off b))).

Inductive viewError :=
  | EUnexpectedEOF
  | EConstructor (got : Z)
  | ELengthMarker
  | ETooLong (n : Z)
  | ETrailing (n : Z)
  | ECount (n : Z)
  | EMessageLength (n : Z)
  | EBudget.
#[export] Instance viewError_eq_dec : EqDecision viewError.
Proof. solve_decision. Defined.

(** ** Constructor ids of the protocol library *)

Class FrameIDs := {
  GZIPTypeID : Z;
  MessageContainerTypeID : Z;
  TypeVector : Z;
  MsgsStateInfoTypeID : Z;
}.

Definition maxServiceMessageIDs : Z := 4096.
Definition maxDispatchExpandedBytes : Z := Z.shiftl 32 20.

(** ** TL bytes *)

(** The payload and the number of bytes consumed; [maxPayload < 0] is no limit. *)
Definition tlBytesView (raw : list Z) (maxPayload : Z) : viewError + (list Z * Z) :=
  match raw with
  | [] => inl EUnexpectedEOF
  | b0 :: _ =>
    if bool_decide (b0 = 254) && bool_decide (blen raw < 4) then inl EUnexpectedEOF
    else if bool_decide (b0 = 255) then inl ELengthMarker
    else
      let header := if bool_decide (b0 = 254) then 4 else 1 in
      let size :=
        if bool_decide (b0 = 254)
        then Z.lor (Z.lor (nth 1 raw 0) (Z.shiftl (nth 2 raw 0) 8)) (Z.shiftl (nth 3 raw 0) 16)
        else b0 in
      if bool_decide (0 ≤ maxPayload) && bool_decide (size > maxPayload) then inl (ETooLong size)
      else
        let padded := Z.ldiff (header + size + 3) 3 in
        if bool_decide (size < 0) || bool_decide (padded < header) || bool_decide (blen raw < padded)
        then inl EUnexpectedEOF
        else inr (take (Z.to_nat size) (drop (Z.to_nat header) raw), padded)
  end.

(** The server's frame budget; a server built without one has none. *)
Abbreviation gate := (option Frames.inboundFrameBudget).

Section ids.
Context `{FrameIDs}.

(** ** The gzip_packed envelope *)

Definition gzipPackedBytesView (b : list Z) : viewError + list Z :=
  if bool_decide (blen b < 5) then inl EUnexpectedEOF
  else if negb (bool_decide (uint32At 0 b = GZIPTypeID)) then inl (EConstructor (uint32At 0 b))
  else
    match tlBytesView (drop 4 b) (-1) with
    | inl e => inl e
    | inr (payload, consumed) =>
      if negb (bool_decide (4 + consumed = blen b)) then inl (ETrailing (blen b - (4 + consumed))) else inr payload
    end.

(** ** Message containers *)

Record Message := mkMessage { ID : Z; SeqNo : Z; Body : list Z }.

Definition containerMessageCount (b : list Z) : viewError + Z :=
  if bool_decide (blen b < 8) then inl EUnexpectedEOF
  else if negb (bool_decide (uint32At 0 b = MessageContainerTypeID)) then inl (EConstructor (uint32At 0 b))
  else if bool_decide (int32At 4 b < 0) then inl (ECount (int32At 4 b)) else inr (int32At 4 b).

(** The loop over the messages; [rest] is the buffer from the offset on. *)
Fixpoint containerLoop (n : nat) (rest : list Z) : viewError + (list Message * list Z) :=
  match n with
  | O => inr ([], rest)
  | S n =>
    if bool_decide (blen rest < 16) then inl EUnexpectedEOF
    else
      let bodyLen := int32At 12 rest in
      let after := drop 16 rest in
      if bool_decide (bodyLen < 0) || bool_decide (bodyLen > 1024 * 1024) then inl (EMessageLength bodyLen)
      else if bool_decide (bodyLen > blen after) then inl EUnexpectedEOF
      else
        match containerLoop n (drop (Z.to_nat bodyLen) after) with
        | inl e => inl e
        | inr (ms, tail) => inr (mkMessage (int64At 0 rest) (int32At 8 rest) (take (Z.to_nat bodyLen) after) :: ms, tail)
        end
  end.

Definition gateReserve (n : Z) (g : gate) : gate * (viewError + Z) :=
  match g with
  | None => (None, inr 0)
  | Some b => let '(b, r) := Frames.reserve n 0 b in (Some b, match r with inl _ => inl EBudget | inr k => inr k end)
  end.
(** The [release] closures: they return what is still reserved, once. *)
Definition gateRelease (n : Z) (g : gate) : Run gate :=
  match g with
  | None => Done None
  | Some b => if bool_decide (n > 0) then b ← Frames.release n b; Done (Some b) else Done (Some b)
  end.

(** [decodeMessageContainerViews]: the descriptors of the messages are charged
    before they are built, and a malformed container returns the charge. *)
Definition decodeMessageContainerViews (b : list Z) (count : Z) (g : gate)
    : Run (gate * (viewError + (list Message * Z))) :=
  if bool_decide (blen b < 8) then Done (g, inl EUnexpectedEOF)
  else if negb (bool_decide (uint32At 0 b = MessageContainerTypeID)) then Done (g, inl (EConstructor (uint32At 0 b)))
  else if negb (bool_decide (int32At 4 b = count)) || bool_decide (count < 0) || bool_decide (count > maxContainerMessages)
  then Done (g, inl (ECount (int32At 4 b)))
  else
    match (if bool_decide (count > 0) then gateReserve (count * containerDescriptorBudgetBytes) g else (g, inr 0)) with
    | (g, inl e) => Done (g, inl e)
    | (g, inr reserved) =>
      match containerLoop (Z.to_nat count) (drop 8 b) with
      | inl e => g ← gateRelease reserved g; Done (g, inl e)
      | inr (ms, tail) =>
        if negb (bool_decide (blen tail = 0)) then g ← gateRelease reserved g; Done (g, inl (ETrailing (blen tail)))
        else Done (g, inr (ms, reserved))
      end
    end.

(** ** Vectors and state reports *)

Definition validateFirstVectorCount (b : list Z) (max : Z) : option viewError :=
  if bool_decide (blen b < 12) then Some EUnexpectedEOF
  else if negb (bool_decide (uint32At 4 b = TypeVector)) then Some (EConstructor (uint32At 4 b))
  else if bool_decide (int32At 8 b < 0) || bool_decide (int32At 8 b > max) then Some (ECount (int32At 8 b))
  else None.

Record int64VectorView := mkVector { raw : list Z; count : Z }.
Definition decodeInt64VectorView (b : list Z) (expectedTypeID max : Z) : viewError + int64VectorView :=
  if bool_decide (blen b < 12) then inl EUnexpectedEOF
  else if negb (bool_decide (uint32At 0 b = expectedTypeID)) then inl (EConstructor (uint32At 0 b))
  else if negb (bool_decide (uint32At 4 b = TypeVector)) then inl (EConstructor (uint32At 4 b))
  else
    let count := int32At 8 b in
    if bool_decide (count < 0) || bool_decide (count > max) then inl (ECount count)
    else if bool_decide (count > (blen b - 12) / 8) then inl EUnexpectedEOF
    else if negb (bool_decide (12 + count * 8 = blen b)) then inl (ETrailing (blen b - (12 + count * 8)))
    else inr (mkVector (drop 12 b) count).
Definition materialize (v : int64VectorView) : list Z :=
  map (λ i, int64At (i * 8)%nat (raw v)) (seq 0 (Z.to_nat (count v))).

Definition msgsStateInfoView (b : list Z) : viewError + (Z * list Z) :=
  if bool_decide (blen b < 12) then inl EUnexpectedEOF
  else if negb (bool_decide (uint32At 0 b = MsgsStateInfoTypeID)) then inl (EConstructor (uint32At 0 b))
  else
    match tlBytesView (drop 12 b) maxServiceMessageIDs with
    | inl e => inl e
    | inr (info, consumed) =>
      if negb (bool_decide (12 + consumed = blen b)) then inl (ETrailing (blen b - (12 + consumed)))
      else inr (int64At 4 b, info)
    end.

Definition msgsAllInfoView (b : list Z) : viewError + (Z * list Z) :=
  match validateFirstVectorCount b maxServiceMessageIDs with
  | Some e => inl e
  | None =>
    let count := int32At 8 b in
    if bool_decide (count > (blen b - 12) / 8) then inl EUnexpectedEOF
    else
      let offset := 12 + count * 8 in
      match tlBytesView (drop (Z.to_nat offset) b) maxServiceMessageIDs with
      | inl e => inl e
      | inr (info, consumed) =>
        if negb (bool_decide (offset + consumed = blen b)) then inl (ETrailing (blen b - (offset + consumed)))
        else inr (count, info)
      end
  end.

(** Two reports merged: a non-zero entry of the first wins. *)
Definition mergeStateInfo (primary fallback : list Z) : list Z :=
  if bool_decide (blen primary = 0) then fallback
  else imap (λ i f, match primary !! i with Some s => if bool_decide (s = 0) then f else s | None => f end) fallback.
End ids.

(** ** Expanding gzip_packed *)

(** A decompressor of the Standard Library on its input: the bytes it yields,
    whether it then fails instead of ending, and what closing it says. *)
Record stream := mkStream { s_data : list Z; s_fails : bool; s_closeFails : bool }.
Class Inflate := {
  gzipReader : list Z → option stream;
  zlibReader : list Z → option stream;
}.

Section inflate.
Context `{FrameIDs} `{Inflate}.

(** [newGZIPPackedReader]: chosen by the gzip magic, never retried. *)
Definition newGZIPPackedReader (compressed : list Z) : option stream :=
  if bool_decide (2 ≤ blen compressed) && bool_decide (nth 0 compressed 0 = 0x1f) && bool_decide (nth 1 compressed 0 = 0x8b)
  then gzipReader compressed else zlibReader compressed.

(** [decodeGZIPWithGlobalBudgetLimit]: the largest output is charged before
    the first byte is produced, and the excess returned once it is known. *)
Definition decodeGZIPWithGlobalBudgetLimit (b : list Z) (limit : Z) (g : gate) : Run (gate * (viewError + (list Z * Z))) :=
  if bool_decide (limit ≤ 0) || bool_decide (limit > maxSingleGZIPExpandedBytes) then Done (g, inl (ETooLong limit))
  else
    match gzipPackedBytesView b with
    | inl e => Done (g, inl e)
    | inr compressed =>
      match gateReserve limit g with
      | (g, inl e) => Done (g, inl e)
      | (g, inr reserved) =>
        match newGZIPPackedReader compressed with
        | None => g ← gateRelease reserved g; Done (g, inl EUnexpectedEOF)
        | Some st =>
          let data := take (Z.to_nat (limit + 1)) (s_data st) in
          let readErr := s_fails st && bool_decide (blen (s_data st) < limit + 1) in
          if readErr || s_closeFails st || bool_decide (blen data > limit)
          then g ← gateRelease reserved g; Done (g, inl (ETooLong (blen data)))
          else if bool_decide (reserved > blen data)
          then g ← gateRelease (reserved - blen data) g; Done (g, inr (data, blen data))
          else Done (g, inr (data, reserved))
        end
      end
    end.
Definition decodeGZIPWithGlobalBudget (b : list Z) (g : gate) : Run (gate * (viewError + (list Z * Z))) :=
  decodeGZIPWithGlobalBudgetLimit b maxSingleGZIPExpandedBytes g.
End inflate.
End Views.
