(* ===== verification/InboundViewProps.v ===== *)
(** * The views accept exactly the encodings

    Containers and TL bytes against their encoders, and what the parsers take
    from the frame budget. *)

From S2P Require Import Prelude Wire FrameBudget InboundViews.
Import Views.

(** ** Little-endian integers *)

Lemma le_bytes_value bs : Forall is_byte bs → le_bytes (length bs) (le_value bs) = bs.
Proof.
  induction 1 as [|b bs Hb _ IH]; simpl; [done|]. unfold is_byte in Hb. f_equal.
  - rewrite Z.mul_comm, Z.mod_add by lia. by apply Z.mod_small.
  - rewrite Z.mul_comm, Z.div_add by lia. rewrite Z.div_small by lia. done.
Qed.
Lemma le_bytes_congr n z z' : z mod 256 ^ Z.of_nat n = z' mod 256 ^ Z.of_nat n → le_bytes n z = le_bytes n z'.
Proof.
  intros Heq. rewrite <-(le_bytes_value (le_bytes n z)), <-(le_bytes_value (le_bytes n z')) by apply le_bytes_bytes.
  by rewrite !length_le_bytes, !le_value_le_bytes, Heq.
Qed.
Lemma wrap32_bytes z : le_bytes 4 (wrap32 z) = le_bytes 4 z.
Proof.
  apply le_bytes_congr. change (256 ^ Z.of_nat 4) with 4294967296. unfold wrap32.
  rewrite Zminus_mod_idemp_l. f_equal. lia.
Qed.
Lemma wrap64_bytes z : le_bytes 8 (wrap64 z) = le_bytes 8 z.
Proof.
  apply le_bytes_congr. change (256 ^ Z.of_nat 8) with 18446744073709551616. unfold wrap64.
  rewrite Zminus_mod_idemp_l. f_equal. lia.
Qed.
Lemma wrap32_value z : -2147483648 ≤ z < 2147483648 → wrap32 (le_value (le_bytes 4 z)) = z.
Proof.
  intros Hz. rewrite le_value_le_bytes. change (256 ^ Z.of_nat 4) with 4294967296. unfold wrap32.
  rewrite Zplus_mod_idemp_l, Z.mod_small; lia.
Qed.
Lemma wrap64_value z : i64_min ≤ z ≤ i64_max → wrap64 (le_value (le_bytes 8 z)) = z.
Proof.
  intros Hz. rewrite le_value_le_bytes. change (256 ^ Z.of_nat 8) with 18446744073709551616. unfold wrap64.
  rewrite Zplus_mod_idemp_l, Z.mod_small; int64.
Qed.
Lemma wrap32_range z : -2147483648 ≤ wrap32 z < 2147483648.
Proof. unfold wrap32. pose proof (Z.mod_pos_bound (z + 2147483648) 4294967296). lia. Qed.

(** ** Containers *)

Record ValidMessage (m : Message) : Prop := {
  vm_id : i64_min ≤ ID m ≤ i64_max;
  vm_seq : -2147483648 ≤ SeqNo m < 2147483648;
  vm_len : blen (Body m) ≤ 1048576;
}.

Definition encodeMessage (m : Message) : list Z :=
  le_bytes 8 (ID m) ++ le_bytes 4 (SeqNo m) ++ le_bytes 4 (blen (Body m)) ++ Body m.
Definition encodeMessages (ms : list Message) : list Z := concat (map encodeMessage ms).

Lemma encodeMessages_cons m ms : encodeMessages (m :: ms) = encodeMessage m ++ encodeMessages ms.
Proof. done. Qed.

Lemma containerLoop_encode ms rest :
  Forall ValidMessage ms → containerLoop (length ms) (encodeMessages ms ++ rest) = inr (ms, rest).
Proof.
  induction 1 as [|m ms [Hid Hseq Hlen] _ IH]; [done|]. cbn [length containerLoop].
  rewrite encodeMessages_cons. unfold encodeMessage. set (tl := encodeMessages ms) in *. rewrite <-!app_assoc. set (b := le_bytes 8 (ID m) ++ _).
  assert (Hnn : 0 ≤ blen (Body m)) by (unfold blen; lia).
  assert (H0 : int64At 0 b = ID m).
  { unfold int64At, b. rewrite drop_0, take_app_length' by by rewrite length_le_bytes. by apply wrap64_value. }
  assert (H8 : int32At 8 b = SeqNo m).
  { unfold int32At, uint32At, b. rewrite drop_app_length' by by rewrite length_le_bytes.
    rewrite take_app_length' by by rewrite length_le_bytes. by apply wrap32_value. }
  assert (H12 : drop 12 b = le_bytes 4 (blen (Body m)) ++ Body m ++ tl ++ rest).
  { unfold b. rewrite app_assoc, drop_app_length'; [done|]. by rewrite length_app, !length_le_bytes. }
  assert (H12v : int32At 12 b = blen (Body m)).
  { unfold int32At, uint32At. rewrite H12, take_app_length' by by rewrite length_le_bytes. apply wrap32_value. lia. }
  assert (H16 : drop 16 b = Body m ++ tl ++ rest).
  { change 16%nat with (12 + 4)%nat. rewrite <-drop_drop, H12, drop_app_length'; [done|]. by rewrite length_le_bytes. }
  assert (Hb16 : 16 ≤ blen b).
  { unfold b, blen. rewrite !length_app, !length_le_bytes. lia. }
  rewrite H0, H8, H12v, H16. rewrite (bool_decide_false (blen b < 16)) by lia.
  rewrite (bool_decide_false (blen (Body m) < 0)), (bool_decide_false (blen (Body m) > 1024 * 1024)) by lia. simpl.
  rewrite (bool_decide_false (blen (Body m) > _)) by (unfold blen; rewrite !length_app; lia).
  unfold blen. rewrite Nat2Z.id, drop_app_length, take_app_length, IH. by destruct m.
Qed.

Lemma containerLoop_decode n rest ms tail :
  Forall is_byte rest → containerLoop n rest = inr (ms, tail) →
  length ms = n ∧ rest = encodeMessages ms ++ tail ∧ Forall ValidMessage ms.
Proof.
  revert rest ms tail. induction n as [|n IH]; intros rest ms tail Hby; cbn [containerLoop].
  { intros [= <- <-]. done. }
  destruct (bool_decide (blen rest < 16)) eqn:Hl; [done|]. apply bool_decide_eq_false in Hl. unfold blen in Hl.
  destruct (_ || _) eqn:Hbl; [done|]. apply orb_false_iff in Hbl as [Hb1%bool_decide_eq_false Hb2%bool_decide_eq_false].
  destruct (bool_decide (_ > blen _)) eqn:Hb3; [done|]. apply bool_decide_eq_false in Hb3.
  set (k := Z.to_nat (int32At 12 rest)) in *. set (after := drop 16 rest) in *.
  destruct (containerLoop n (drop k after)) as [|[ms' tail']] eqn:Heq; [done|]. intros [= <- <-].
  apply IH in Heq as (Hlen & Hrest & HV); [|by apply Forall_drop, Forall_drop].
  split; [simpl; by rewrite Hlen|].
  assert (Hk : Z.of_nat k = int32At 12 rest) by lia.
  assert (Hkl : (k ≤ length after)%nat) by (unfold blen in Hb3; lia).
  assert (Htake : ∀ j d, (j + d ≤ length rest)%nat → length (take d (drop j rest)) = d).
  { intros j d Hj. rewrite length_take, length_drop. lia. }
  assert (Hfield : ∀ j d, (j + d ≤ length rest)%nat → le_bytes d (le_value (take d (drop j rest))) = take d (drop j rest)).
  { intros j d Hj. rewrite <-(Htake j d Hj) at 1. apply le_bytes_value. by apply Forall_take, Forall_drop. }
  split.
  - rewrite encodeMessages_cons. unfold encodeMessage. cbn [ID SeqNo Body].
    assert (Hbl : blen (take k after) = int32At 12 rest) by (unfold blen; rewrite length_take; lia).
    rewrite Hbl. unfold int64At, int32At at 1 2, uint32At. rewrite wrap64_bytes, !wrap32_bytes, !Hfield by lia.
    rewrite <-!app_assoc. rewrite <-Hrest.
    rewrite take_drop. unfold after.
    rewrite <-(take_drop 8 rest) at 1. rewrite drop_0. f_equal.
    rewrite <-(take_drop 4 (drop 8 rest)) at 1. f_equal. rewrite drop_drop.
    rewrite <-(take_drop 4 (drop (8 + 4) rest)) at 1. f_equal. by rewrite drop_drop.
  - constructor; [|done]. split; cbn [ID SeqNo Body].
    + apply wrap64_range.
    + apply wrap32_range.
    + unfold blen. rewrite length_take. lia.
Qed.

(** ** The frame budget of a server *)

Definition gateUsed (g : gate) : Z := from_option Frames.used 0 g.
Definition gateMax (g : gate) : Z := from_option Frames.max 0 g.
Definition GateOk (g : gate) : Prop :=
  match g with None => True | Some b => 0 < Frames.max b ≤ i64_max ∧ 0 ≤ Frames.used b ≤ Frames.max b end.
(** From [g] to [g'] the counter moved by [d] and nothing else changed. *)
Record Moved (g g' : gate) (d : Z) : Prop := {
  mv_ok : GateOk g';
  mv_kind : is_Some g' ↔ is_Some g;
  mv_max : gateMax g' = gateMax g;
  mv_used : gateUsed g' = gateUsed g + d;
}.
Lemma Moved_refl g : GateOk g → Moved g g 0.
Proof. intros HG. split; [done|done|done|lia]. Qed.
Lemma Moved_trans g1 g2 g3 d1 d2 d : Moved g1 g2 d1 → Moved g2 g3 d2 → d = d1 + d2 → Moved g1 g3 d.
Proof. intros [? Hk1 ? ?] [? Hk2 ? ?] ->. split; [done|by rewrite Hk2|congruence|lia]. Qed.
Lemma Moved_back g g' d : Moved g g' d → d = 0 → gateUsed g' = gateUsed g ∧ gateMax g' = gateMax g ∧ (is_Some g' ↔ is_Some g).
Proof. intros [? ? ? ?] ->. split; [lia|done]. Qed.

Lemma reserve_refused n st b e :
  Frames.Inv st → Frames.reserve n 0 (Frames.budget st) = (b, inl e) → b = Frames.budget st.
Proof.
  intros HI Hr. unfold Frames.reserve in Hr. pose proof (Frames.growReservation_spec 0 n 0 (Frames.budget st)) as Hg. rewrite Hr in Hg.
  pose proof (Frames.frames_held_nonneg _ HI). pose proof (Frames.owing_nonneg _ HI). pose proof (Frames.decoding_nonneg _ HI).
  apply Hg; [apply HI|rewrite (Frames.inv_used _ HI); lia|apply HI].
Qed.
Lemma gateReserve_ok n g :
  GateOk g → 0 < n ≤ i64_max →
  ∃ g' r, gateReserve n g = (g', r) ∧
    match r with
    | inl _ => g' = g ∧ is_Some g ∧ gateMax g < gateUsed g + n
    | inr k => Moved g g' k ∧ 0 ≤ k ∧ (g = None → k = 0) ∧ (is_Some g → k = n)
    end.
Proof.
  intros HG Hn. unfold gateReserve. destruct g as [[m u]|]; [|by eexists _, _; split; [done|]; split; [apply Moved_refl|split; [done|split; [done|intros []]]]].
  simpl in HG. destruct HG as [Hm Hu]. unfold Frames.reserve.
  pose proof (Frames.growReservation_spec 0 n 0 (Frames.mkBudget m u)) as Hspec. simpl in Hspec.
  assert (Hroom : n ≤ m - u → ∃ b k, Frames.growReservation 0 n 0 (Frames.mkBudget m u) = (b, inr k)).
  { intros Hle. unfold Frames.growReservation. cbn [Frames.max Frames.used].
    rewrite (sub64_small m n), (add64_small n 0), (sub64_small (n + 0) 0), (sub64_small m u) by int64.
    rewrite (bool_decide_false (0 < 0)), (bool_decide_false (n ≤ 0)), (bool_decide_false (n > m)), (bool_decide_false (0 > m - n)) by lia.
    simpl. rewrite (bool_decide_false (n + 0 ≤ 0)), (bool_decide_false (n + 0 - 0 > m - u)) by lia. eauto. }
  destruct (Frames.growReservation 0 n 0 (Frames.mkBudget m u)) as [b' [e|k]]; (eexists _, _; split; [done|]).
  - destruct Hspec as (_ & ->); [lia|lia|lia|]. split; [done|]. split; [by eexists|]. simpl.
    destruct (decide (n ≤ m - u)) as [Hle|]; [|lia]. destruct (Hroom Hle) as (? & ? & ?). done.
  - destruct Hspec as (Hmax & ? & ? & ? & ? & ? & Hused & Hcap); [lia|lia|lia|]. simpl in *.
    split; [split; simpl; [lia|by split|done|lia]|]. split; [lia|]. split; [done|lia].
Qed.

Lemma gateRelease_ok n g :
  GateOk g → 0 ≤ n → (is_Some g → n ≤ gateUsed g) → (g = None → n = 0) →
  ∃ g', gateRelease n g = Done g' ∧ Moved g g' (- n).
Proof.
  intros HG Hn Hu Hz. unfold gateRelease. destruct g as [[m u]|].
  2:{ rewrite Hz by done. eexists. split; [done|]. by apply Moved_refl. }
  simpl in *. specialize (Hu ltac:(by eexists)). destruct (bool_decide (n > 0)) eqn:Hp.
  - apply bool_decide_eq_true in Hp. unfold Frames.release. rewrite (bool_decide_false (n = 0)) by lia. simpl.
    rewrite sub64_small by int64. rewrite (bool_decide_false (u - n < 0)) by lia. simpl.
    eexists. split; [done|]. split; simpl; [lia|by split|done|lia].
  - apply bool_decide_eq_false in Hp. assert (n = 0) as -> by lia. eexists. split; [done|]. by apply Moved_refl.
Qed.

(** ** The container parser *)

Section views.
Context `{FrameIDs}.

Definition encodeContainer (ms : list Message) : list Z :=
  le_bytes 4 MessageContainerTypeID ++ le_bytes 4 (Z.of_nat (length ms)) ++ encodeMessages ms.

(** What a parser may leave behind: on success the returned charge. *)
Definition Kept {A} (g g' : gate) (r : viewError + (A * Z)) : Prop :=
  match r with inl _ => Moved g g' 0 | inr (_, k) => Moved g g' k ∧ 0 ≤ k ∧ (g = None → k = 0) end.

Lemma release_back g g1 k :
  GateOk g → Moved g g1 k → 0 ≤ k → (g = None → k = 0) → ∃ g2, gateRelease k g1 = Done g2 ∧ Moved g g2 0.
Proof.
  intros HG HM Hk Hz. destruct (gateRelease_ok k g1 (mv_ok _ _ _ HM) Hk) as (g2 & -> & HM2).
  - intros _. rewrite (mv_used _ _ _ HM). destruct g as [[m u]|]; simpl in *; [lia|]. lia.
  - intros ->. apply Hz. destruct g; [|done]. destruct (mv_kind _ _ _ HM) as [_ [? ?]]; [by eexists|done].
  - exists g2. split; [done|]. eapply Moved_trans; [exact HM|exact HM2|lia].
Qed.

Lemma descriptors_ok count g :
  GateOk g → 0 ≤ count ≤ maxContainerMessages →
  ∃ g1 r, (if bool_decide (count > 0) then gateReserve (count * containerDescriptorBudgetBytes) g else (g, inr 0)) = (g1, r) ∧
    match r with inl _ => Moved g g1 0 | inr k => Moved g g1 k ∧ 0 ≤ k ∧ (g = None → k = 0) end.
Proof.
  intros HG Hc. unfold maxContainerMessages, containerDescriptorBudgetBytes in *. case_bool_decide as Hpos.
  - destruct (gateReserve_ok (count * 192) g HG) as (g1 & r & -> & Hr); [int64|]. exists g1, r. split; [done|].
    destruct r as [e|k]; [destruct Hr as (-> & _); by apply Moved_refl|].
    by destruct Hr as (? & ? & ? & _).
  - eexists _, _. split; [done|]. split; [by apply Moved_refl|done].
Qed.

Lemma decodeContainer_budget b count g :
  GateOk g → ∃ g' r, decodeMessageContainerViews b count g = Done (g', r) ∧ Kept g g' r.
Proof.
  intros HG. unfold decodeMessageContainerViews.
  destruct (bool_decide (blen b < 8)); [by eexists _, _; split; [done|apply Moved_refl]|].
  destruct (negb _); [by eexists _, _; split; [done|apply Moved_refl]|].
  destruct (_ || _) eqn:Hc; [by eexists _, _; split; [done|apply Moved_refl]|].
  rewrite !orb_false_iff, !bool_decide_eq_false in Hc. destruct Hc as [[_ Hc1] Hc2].
  destruct (descriptors_ok count g HG) as (g1 & r & -> & Hr); [lia|].
  destruct r as [e|k]; [by eexists _, _|]. destruct Hr as (HM & Hk & Hz).
  destruct (release_back g g1 k HG HM Hk Hz) as (g2 & Hrel & HM2).
  destruct (containerLoop _ _) as [e|[ms tail]]; [rewrite Hrel; simpl; by eexists _, _|].
  destruct (negb _); [rewrite Hrel; simpl; by eexists _, _|]. by eexists _, _.
Qed.

Lemma uint32At_bytes z rest : 0 ≤ z < 4294967296 → uint32At 0 (le_bytes 4 z ++ rest) = z.
Proof.
  intros Hz. unfold uint32At. rewrite drop_0, take_app_length' by by rewrite length_le_bytes.
  apply le_value_le_bytes_small. done.
Qed.
Lemma int32At_bytes n bs z rest :
  length bs = n → -2147483648 ≤ z < 2147483648 → int32At n (bs ++ le_bytes 4 z ++ rest) = z.
Proof.
  intros Hl Hz. unfold int32At, uint32At. rewrite drop_app_length' by done.
  rewrite take_app_length' by by rewrite length_le_bytes. by apply wrap32_value.
Qed.
Lemma le_bytes_uint32At off b : Forall is_byte b → (off + 4 ≤ length b)%nat → le_bytes 4 (uint32At off b) = take 4 (drop off b).
Proof.
  intros Hb Hl. unfold uint32At. assert (Hlen : length (take 4 (drop off b)) = 4%nat) by (rewrite length_take, length_drop; lia).
  rewrite <-Hlen at 1. apply le_bytes_value. by apply Forall_take, Forall_drop.
Qed.

Lemma decodeContainer_accepts b count g g' ms k :
  Forall is_byte b → decodeMessageContainerViews b count g = Done (g', inr (ms, k)) →
  b = encodeContainer ms ∧ count = Z.of_nat (length ms) ∧ Z.of_nat (length ms) ≤ 1024 ∧ Forall ValidMessage ms.
Proof.
  intros Hby. unfold decodeMessageContainerViews.
  destruct (bool_decide (blen b < 8)) eqn:Hl; [done|]. apply bool_decide_eq_false in Hl. unfold blen in Hl.
  destruct (bool_decide (uint32At 0 b = MessageContainerTypeID)) eqn:Hid; simpl; [|done]. apply bool_decide_eq_true in Hid.
  destruct (_ || _) eqn:Hc; [done|]. rewrite !orb_false_iff, negb_false_iff, bool_decide_eq_true, !bool_decide_eq_false in Hc.
  destruct Hc as [[Hcnt Hc1] Hc2].
  destruct (if bool_decide (count > 0) then _ else _) as [g1 [e|r]]; [done|].
  destruct (containerLoop _ _) as [e|[ms' tail]] eqn:Hloop; [by destruct (gateRelease r g1)|].
  destruct (bool_decide (blen tail = 0)) eqn:Ht; simpl; [|by destruct (gateRelease r g1)].
  intros [= <- <- <-]. apply bool_decide_eq_true in Ht. destruct tail; [|unfold blen in Ht; simpl in Ht; lia].
  apply containerLoop_decode in Hloop as (Hlen & Hrest & HV); [|by apply Forall_drop]. rewrite app_nil_r in Hrest.
  unfold maxContainerMessages in *. assert (Hcount : count = Z.of_nat (length ms')) by lia.
  split; [|split; [done|split; [lia|done]]]. unfold encodeContainer. rewrite <-Hrest, <-Hid, <-Hcount, <-Hcnt.
  unfold int32At. rewrite wrap32_bytes, !le_bytes_uint32At by (done || lia). rewrite drop_0.
  rewrite <-(take_drop 4 b) at 1. f_equal. rewrite <-(take_drop 4 (drop 4 b)) at 1. by rewrite drop_drop.
Qed.

Lemma decodeContainer_complete ms g :
  0 ≤ MessageContainerTypeID < 4294967296 → GateOk g → Forall ValidMessage ms → Z.of_nat (length ms) ≤ 1024 →
  (is_Some g → gateUsed g + 192 * Z.of_nat (length ms) ≤ gateMax g) →
  containerMessageCount (encodeContainer ms) = inr (Z.of_nat (length ms)) ∧
  ∃ g' k, decodeMessageContainerViews (encodeContainer ms) (Z.of_nat (length ms)) g = Done (g', inr (ms, k)) ∧ Moved g g' k.
Proof.
  intros Hid HG HV Hn Hroom. set (n := Z.of_nat (length ms)) in *. set (b := encodeContainer ms).
  assert (Hl : 8 ≤ blen b) by (unfold b, encodeContainer, blen; rewrite !length_app, !length_le_bytes; lia).
  assert (H0 : uint32At 0 b = MessageContainerTypeID) by by apply uint32At_bytes.
  assert (H4 : int32At 4 b = n) by (apply int32At_bytes; [apply length_le_bytes|lia]).
  assert (H8 : drop 8 b = encodeMessages ms).
  { unfold b, encodeContainer. rewrite app_assoc, drop_app_length'; [done|]. by rewrite length_app, !length_le_bytes. }
  assert (Hcount : containerMessageCount b = inr n).
  { unfold containerMessageCount. rewrite H0, H4, (bool_decide_false (blen b < 8)), bool_decide_true by (done || lia). simpl.
    by rewrite (bool_decide_false (n < 0)) by lia. }
  split; [done|]. unfold decodeMessageContainerViews.
  rewrite H0, H4, H8, (bool_decide_false (blen b < 8)), !bool_decide_true by (done || lia). simpl.
  unfold maxContainerMessages, containerDescriptorBudgetBytes.
  rewrite (bool_decide_false (n < 0)), (bool_decide_false (n > 1024)) by lia. simpl.
  assert (Hres : ∃ g1 k, (if bool_decide (n > 0) then gateReserve (n * 192) g else (g, inr 0)) = (g1, inr k) ∧ Moved g g1 k).
  { case_bool_decide; [|eexists _, _; split; [done|by apply Moved_refl]].
    destruct (gateReserve_ok (n * 192) g HG) as (g1 & r & -> & Hr); [int64|]. destruct r as [e|k].
    - destruct Hr as (_ & Hs & Hgt). specialize (Hroom Hs). lia.
    - destruct Hr as (HM & _). by exists g1, k. }
  destruct Hres as (g1 & k & -> & HM). unfold n. rewrite Nat2Z.id.
  pose proof (containerLoop_encode ms [] HV) as Hloop. rewrite app_nil_r in Hloop. rewrite Hloop. simpl. by exists g1, k.
Qed.

(** ** TL bytes *)

Lemma ldiff_align z : Z.ldiff z 3 = 4 * (z / 4).
Proof.
  change 3 with (Z.ones 2). rewrite Z.ldiff_ones_r by lia. rewrite Z.shiftr_div_pow2, Z.shiftl_mul_pow2 by lia.
  change (2 ^ 2) with 4. lia.
Qed.

(** The TL encoding of a byte string, padded with zeros to a multiple of 4. *)
Definition tlHeader (n : Z) : list Z := if bool_decide (n < 254) then [n] else 254 :: le_bytes 3 n.
Definition tlPad (n : Z) : list Z := replicate (Z.to_nat ((- n) mod 4)) 0.
Definition encodeTLBytes (p : list Z) : list Z :=
  tlHeader (blen p) ++ p ++ tlPad (blen (tlHeader (blen p)) + blen p).

Lemma blen_app (a b : list Z) : blen (a ++ b) = blen a + blen b.
Proof. unfold blen. rewrite length_app. lia. Qed.
Lemma blen_nonneg b : 0 ≤ blen b.
Proof. unfold blen. lia. Qed.
Lemma tlPad_align n : 0 ≤ n → n + blen (tlPad n) = 4 * ((n + 3) / 4).
Proof.
  intros Hn. unfold tlPad, blen. rewrite length_replicate.
  pose proof (Z.mod_pos_bound (- n) 4 ltac:(lia)). rewrite Z2Nat.id by lia.
  pose proof (Z.div_mod (- n) 4 ltac:(lia)). pose proof (Z.div_mod (n + 3) 4 ltac:(lia)).
  pose proof (Z.mod_pos_bound (n + 3) 4 ltac:(lia)). lia.
Qed.

Lemma tlBytesView_encode p rest maxPayload :
  blen p < 16777216 → maxPayload < 0 ∨ blen p ≤ maxPayload →
  tlBytesView (encodeTLBytes p ++ rest) maxPayload = inr (p, blen (encodeTLBytes p)).
Proof.
  intros Hsz Hmax. pose proof (blen_nonneg p) as Hnn. unfold encodeTLBytes. set (h := tlHeader (blen p)).
  set (pad := tlPad (blen h + blen p)).
  assert (Hpad : blen h + blen p + blen pad = 4 * ((blen h + blen p + 3) / 4)) by (apply tlPad_align; unfold blen; lia).
  assert (Htot : blen (h ++ p ++ pad) = 4 * ((blen h + blen p + 3) / 4)) by (rewrite !blen_app; lia).
  rewrite <-!app_assoc.
  assert (Hfin : ∀ hd : Z, hd = blen h → 
    (if bool_decide (0 ≤ maxPayload) && bool_decide (blen p > maxPayload) then inl (ETooLong (blen p))
     else if bool_decide (blen p < 0) || bool_decide (Z.ldiff (hd + blen p + 3) 3 < hd)
             || bool_decide (blen (h ++ p ++ pad ++ rest) < Z.ldiff (hd + blen p + 3) 3)
     then inl EUnexpectedEOF
     else inr (take (Z.to_nat (blen p)) (drop (Z.to_nat hd) (h ++ p ++ pad ++ rest)), Z.ldiff (hd + blen p + 3) 3))
    = @inr viewError _ (p, blen (h ++ p ++ pad))).
  { intros hd ->. rewrite ldiff_align, <-Htot. pose proof (blen_nonneg rest). pose proof (blen_nonneg h). pose proof (blen_nonneg pad).
    destruct (bool_decide (0 ≤ maxPayload) && _) eqn:Hm.
    { apply andb_true_iff in Hm as [Hm1%bool_decide_eq_true Hm2%bool_decide_eq_true]. lia. }
    rewrite (bool_decide_false (blen p < 0)), (bool_decide_false (blen (h ++ p ++ pad) < blen h)),
      (bool_decide_false (blen (h ++ p ++ pad ++ rest) < _)) by (rewrite ?blen_app; lia). simpl.
    f_equal. f_equal. unfold blen. rewrite !Nat2Z.id, drop_app_length, take_app_length. done. }
  assert (Hh : h = if bool_decide (blen p < 254) then [blen p] else 254 :: le_bytes 3 (blen p)) by done.
  clear Hpad Htot. clearbody pad h. unfold tlBytesView. case_bool_decide as Hs; subst h.
  - specialize (Hfin 1 eq_refl). cbn [app] in *.
    rewrite !(bool_decide_false (blen p = 254)), (bool_decide_false (blen p = 255)) by lia. exact Hfin.
  - specialize (Hfin 4). cbn [app] in *.
    rewrite !(bool_decide_true (254 = 254)), (bool_decide_false (254 = 255)) by done.
    rewrite (bool_decide_false (blen _ < 4)).
    2:{ unfold blen. cbn [length]. rewrite length_app, length_le_bytes. lia. }
    cbn [andb]. rewrite <-Hfin by done.
    assert (Hval : Z.lor (Z.lor (nth 1 (254 :: le_bytes 3 (blen p) ++ p ++ pad ++ rest) 0)
        (Z.shiftl (nth 2 (254 :: le_bytes 3 (blen p) ++ p ++ pad ++ rest) 0) 8))
        (Z.shiftl (nth 3 (254 :: le_bytes 3 (blen p) ++ p ++ pad ++ rest) 0) 16) = blen p); [|by rewrite Hval].
    cbn [nth app le_bytes]. set (n := blen p) in *.
    pose proof (Z.mod_pos_bound n 256 ltac:(lia)). pose proof (Z.mod_pos_bound (n / 256) 256 ltac:(lia)).
    rewrite (lor_shiftl _ _ 8) by lia. rewrite (lor_shiftl _ _ 16) by lia.
    pose proof (Z.div_mod n 256 ltac:(lia)). pose proof (Z.div_mod (n / 256) 256 ltac:(lia)).
    assert (n / 256 / 256 < 256) by (rewrite Z.div_div by lia; apply Z.div_lt_upper_bound; lia).
    assert (0 ≤ n / 256 / 256) by (apply Z.div_pos; [apply Z.div_pos; lia|lia]).
    rewrite (Z.mod_small (n / 256 / 256)) by lia. lia.
Qed.

(** ** Envelopes, vectors and state reports *)

Definition encodeGZIP (p : list Z) : list Z := le_bytes 4 GZIPTypeID ++ encodeTLBytes p.
Definition encodeVector (t : Z) (ids : list Z) : list Z :=
  le_bytes 4 t ++ le_bytes 4 TypeVector ++ le_bytes 4 (Z.of_nat (length ids)) ++ concat (map (le_bytes 8) ids).
Definition encodeStateInfo (r : Z) (info : list Z) : list Z :=
  le_bytes 4 MsgsStateInfoTypeID ++ le_bytes 8 r ++ encodeTLBytes info.

Lemma encodeTLBytes_nonempty p : 1 ≤ blen (encodeTLBytes p).
Proof.
  unfold encodeTLBytes. rewrite blen_app. pose proof (blen_nonneg (p ++ tlPad (blen (tlHeader (blen p)) + blen p))).
  assert (1 ≤ blen (tlHeader (blen p))); [|lia]. unfold tlHeader, blen. case_bool_decide; simpl; lia.
Qed.

Lemma gzipPackedBytesView_encode p :
  0 ≤ GZIPTypeID < 4294967296 → blen p < 16777216 → gzipPackedBytesView (encodeGZIP p) = inr p.
Proof.
  intros Hid Hp. unfold gzipPackedBytesView. set (b := encodeGZIP p). pose proof (encodeTLBytes_nonempty p) as Hne.
  assert (Hb : blen b = 4 + blen (encodeTLBytes p)).
  { unfold b, encodeGZIP. rewrite blen_app. unfold blen at 1. by rewrite length_le_bytes. }
  assert (H0 : uint32At 0 b = GZIPTypeID) by by apply uint32At_bytes.
  assert (H4 : drop 4 b = encodeTLBytes p).
  { unfold b, encodeGZIP. rewrite drop_app_length'; [done|]. by rewrite length_le_bytes. }
  rewrite (bool_decide_false (blen b < 5)), H0, bool_decide_true, H4 by (done || lia). simpl.
  pose proof (tlBytesView_encode p [] (-1) Hp ltac:(lia)) as Hv. rewrite app_nil_r in Hv. rewrite Hv.
  by rewrite bool_decide_true by lia.
Qed.

Lemma msgsStateInfoView_encode r info :
  0 ≤ MsgsStateInfoTypeID < 4294967296 → i64_min ≤ r ≤ i64_max → blen info ≤ 4096 →
  msgsStateInfoView (encodeStateInfo r info) = inr (r, info).
Proof.
  intros Hid Hr Hi. unfold msgsStateInfoView. set (b := encodeStateInfo r info). pose proof (encodeTLBytes_nonempty info) as Hne.
  assert (Hb : blen b = 12 + blen (encodeTLBytes info)).
  { unfold b, encodeStateInfo. rewrite !blen_app. unfold blen at 1 2. rewrite !length_le_bytes. lia. }
  assert (H0 : uint32At 0 b = MsgsStateInfoTypeID) by by apply uint32At_bytes.
  assert (H4 : int64At 4 b = r).
  { unfold int64At, b, encodeStateInfo. rewrite drop_app_length' by by rewrite length_le_bytes.
    rewrite take_app_length' by by rewrite length_le_bytes. by apply wrap64_value. }
  assert (H12 : drop 12 b = encodeTLBytes info).
  { unfold b, encodeStateInfo. rewrite app_assoc, drop_app_length'; [done|]. by rewrite length_app, !length_le_bytes. }
  rewrite (bool_decide_false (blen b < 12)), H0, bool_decide_true, H12, H4 by (done || lia). simpl.
  pose proof (tlBytesView_encode info [] maxServiceMessageIDs ltac:(lia) ltac:(right; exact Hi)) as Hv.
  rewrite app_nil_r in Hv. rewrite Hv. by rewrite bool_decide_true by lia.
Qed.

Lemma materialize_words ids :
  Forall (λ z, i64_min ≤ z ≤ i64_max) ids →
  map (λ i, int64At (i * 8)%nat (concat (map (le_bytes 8) ids))) (seq 0 (length ids)) = ids.
Proof.
  induction 1 as [|z ids Hz _ IH]; [done|]. cbn [length seq map concat]. f_equal.
  - unfold int64At. rewrite Nat.mul_0_l, drop_0, take_app_length' by by rewrite length_le_bytes. by apply wrap64_value.
  - rewrite <-seq_shift, map_map. rewrite <-IH at 2. apply map_ext. intros i. unfold int64At.
    replace (S i * 8)%nat with (8 + i * 8)%nat by lia. rewrite <-drop_drop, drop_app_length'; [done|]. by rewrite length_le_bytes.
Qed.
Lemma length_words ids : length (concat (map (le_bytes 8) ids)) = (8 * length ids)%nat.
Proof. induction ids as [|z ids IH]; [done|]. cbn [map concat]. rewrite length_app, length_le_bytes, IH. simpl. lia. Qed.

Lemma decodeInt64VectorView_encode t ids :
  0 ≤ t < 4294967296 → 0 ≤ TypeVector < 4294967296 → Z.of_nat (length ids) ≤ 4096 → Forall (λ z, i64_min ≤ z ≤ i64_max) ids →
  ∃ v, decodeInt64VectorView (encodeVector t ids) t maxServiceMessageIDs = inr v ∧ materialize v = ids.
Proof.
  intros Ht Htv Hn Hi. set (b := encodeVector t ids). set (n := Z.of_nat (length ids)) in *.
  assert (Hb : blen b = 12 + n * 8).
  { unfold b, encodeVector. rewrite !blen_app. unfold blen. rewrite !length_le_bytes, length_words. lia. }
  assert (H0 : uint32At 0 b = t) by by apply uint32At_bytes.
  assert (H4 : uint32At 4 b = TypeVector).
  { unfold uint32At, b, encodeVector. rewrite drop_app_length' by by rewrite length_le_bytes.
    rewrite take_app_length' by by rewrite length_le_bytes. by apply le_value_le_bytes_small. }
  assert (H8 : int32At 8 b = n).
  { unfold b, encodeVector. rewrite app_assoc. apply int32At_bytes; [by rewrite length_app, !length_le_bytes|lia]. }
  assert (H12 : drop 12 b = concat (map (le_bytes 8) ids)).
  { unfold b, encodeVector. rewrite !app_assoc, drop_app_length'; [done|]. by rewrite !length_app, !length_le_bytes. }
  assert (Hq : (blen b - 12) / 8 = n) by (rewrite Hb; replace (12 + n * 8 - 12) with (n * 8) by lia; apply Z.div_mul; lia).
  eexists. unfold decodeInt64VectorView. rewrite H0, H4, H8, Hq.
  rewrite (bool_decide_false (blen b < 12)), (bool_decide_true (t = t)), (bool_decide_true (TypeVector = TypeVector)) by (done || lia).
  cbn [negb orb]. unfold maxServiceMessageIDs.
  rewrite (bool_decide_false (n < 0)), (bool_decide_false (n > 4096)), (bool_decide_false (n > n)) by lia. cbn [negb orb].
  rewrite (bool_decide_true (12 + n * 8 = blen b)) by lia. cbn [negb]. split; [done|]. unfold materialize. cbn [raw count]. rewrite H12. unfold n. rewrite Nat2Z.id. by apply materialize_words.
Qed.

(** C15: the zero-copy parsers of a client frame agree with the wire format:
    a buffer is accepted as a message container exactly when it is the
    encoding of at most 1024 well-formed messages (and the frame budget has
    room for their descriptors), and it yields those messages; gzip_packed
    envelopes, id vectors and state reports give back what was encoded. *)
Theorem inbound_views_roundtrip b ms p t ids r info g :
  Forall (λ z, 0 ≤ z < 4294967296) [MessageContainerTypeID; GZIPTypeID; TypeVector; MsgsStateInfoTypeID; t] → GateOk g →
  (Forall is_byte b → ∀ count g' k, decodeMessageContainerViews b count g = Done (g', inr (ms, k)) →
     b = encodeContainer ms ∧ count = Z.of_nat (length ms) ∧ Z.of_nat (length ms) ≤ 1024 ∧ Forall ValidMessage ms) ∧
  (Forall ValidMessage ms → Z.of_nat (length ms) ≤ 1024 → (is_Some g → gateUsed g + 192 * Z.of_nat (length ms) ≤ gateMax g) →
     containerMessageCount (encodeContainer ms) = inr (Z.of_nat (length ms)) ∧
     ∃ g' k, decodeMessageContainerViews (encodeContainer ms) (Z.of_nat (length ms)) g = Done (g', inr (ms, k)) ∧ Moved g g' k) ∧
  (blen p < 16777216 → gzipPackedBytesView (encodeGZIP p) = inr p) ∧
  (Z.of_nat (length ids) ≤ 4096 → Forall (λ z, i64_min ≤ z ≤ i64_max) ids →
     ∃ v, decodeInt64VectorView (encodeVector t ids) t maxServiceMessageIDs = inr v ∧ materialize v = ids) ∧
  (i64_min ≤ r ≤ i64_max → blen info ≤ 4096 → msgsStateInfoView (encodeStateInfo r info) = inr (r, info)).
Proof.
  rewrite !Forall_cons. intros (Hc & Hg & Hv & Hs & Ht & _) HG. split; [|split; [|split; [|split]]].
  - intros Hb count g' k. by apply decodeContainer_accepts.
  - intros HV Hn Hroom. by apply decodeContainer_complete.
  - intros. by apply gzipPackedBytesView_encode.
  - intros. by apply decodeInt64VectorView_encode.
  - intros. by apply msgsStateInfoView_encode.
Qed.
End views.

(** ** Expansion *)

Lemma decodeGZIP_budget `{FrameIDs} `{Inflate} b g :
  GateOk g →
  ∃ g' r, decodeGZIPWithGlobalBudget b g = Done (g', r) ∧ Kept g g' r ∧
    ∀ data k, r = inr (data, k) → blen data ≤ maxSingleGZIPExpandedBytes ∧ (is_Some g → k = blen data).
Proof.
  intros HG. unfold decodeGZIPWithGlobalBudget, decodeGZIPWithGlobalBudgetLimit.
  set (limit := maxSingleGZIPExpandedBytes). assert (Hlim : 0 < limit ≤ i64_max) by (unfold limit; change maxSingleGZIPExpandedBytes with 10485760; int64).
  clearbody limit.
  rewrite (bool_decide_false (limit ≤ 0)), (bool_decide_false (limit > limit)) by lia. simpl.
  assert (Hrefl : Moved g g 0) by by apply Moved_refl.
  destruct (gzipPackedBytesView b) as [e|compressed]; [by eexists _, _; split|].
  destruct (gateReserve_ok limit g HG Hlim) as (g1 & r & -> & Hr). destruct r as [e|k].
  { destruct Hr as (-> & _). by eexists _, _; split. }
  destruct Hr as (HM & Hk & Hz & Hs). destruct (release_back g g1 k HG HM Hk Hz) as (g2 & Hrel & HM2).
  destruct (newGZIPPackedReader compressed) as [st|]; [|rewrite Hrel; simpl; by eexists _, _; split].
  set (data := take _ _). pose proof (blen_nonneg data) as Hnn.
  destruct (_ || _) eqn:Hbad; [rewrite Hrel; simpl; by eexists _, _; split|].
  apply orb_false_iff in Hbad as [_ Hsz%bool_decide_eq_false].
  destruct (bool_decide (k > blen data)) eqn:Hgt.
  - apply bool_decide_eq_true in Hgt.
    destruct (gateRelease_ok (k - blen data) g1 (mv_ok _ _ _ HM)) as (g3 & -> & HM3); [lia| | |].
    + intros _. rewrite (mv_used _ _ _ HM). destruct g as [[m u]|]; simpl in *; lia.
    + intros ->. assert (g = None) as ->; [|specialize (Hz eq_refl); lia].
      destruct g; [|done]. destruct (mv_kind _ _ _ HM) as [_ [? ?]]; [by eexists|done].
    + simpl. eexists _, _. split; [done|]. split; [|intros ? ? [= <- <-]; split; [lia|done]].
      split; [eapply Moved_trans; [exact HM|exact HM3|lia]|]. split; [done|]. intros ->. specialize (Hz eq_refl). lia.
  - apply bool_decide_eq_false in Hgt. eexists _, _. split; [done|]. split; [done|]. intros ? ? [= <- <-].
    split; [lia|]. intros Hg. specialize (Hs Hg). lia.
Qed.

(** ** The decoders among all who draw on the frame budget

    A decode makes the budget calls of its steps in [Frames.exec]: from any
    state of the process in which [k] is not in use, its steps lead to the budget
    the decoder leaves, with [k] holding the charge it returns. *)

Section decodes.
Context `{FrameIDs} `{Inflate}.
Implicit Types (st : Frames.sys).

Definition DecodeSteps {A} (k : positive) st (d : Run (gate * (viewError + (A * Z)))) : Prop :=
  ∃ b r ls st', d = Done (Some b, r) ∧ Frames.run ls st = Done st' ∧ Frames.budget st' = b ∧
    Frames.conns st' = Frames.conns st ∧ Frames.owed st' = Frames.owed st ∧
    default 0 (Frames.decodes st' !! k) = match r with inr (_, n) => n | inl _ => 0 end ∧
    ∀ j, j ≠ k → Frames.decodes st' !! j = Frames.decodes st !! j.

Lemma DecodeSteps_none {A} k st e :
  Frames.decodes st !! k = None → DecodeSteps (A := A) k st (Done (Some (Frames.budget st), inl e)).
Proof. intros Hk. exists (Frames.budget st), (inl e), [], st. by rewrite Hk. Qed.
Lemma DecodeSteps_kept {A} k st l b n (a : A) :
  Frames.exec l st = Done (Frames.mkSys b (Frames.conns st) (Frames.owed st) (<[k := n]> (Frames.decodes st))) →
  DecodeSteps k st (Done (Some b, inr (a, n))).
Proof.
  intros Hl. exists b, (inr (a, n)), [l], (Frames.mkSys b (Frames.conns st) (Frames.owed st) (<[k := n]> (Frames.decodes st))).
  cbn [Frames.run]. rewrite Hl. simpl. split_and!; try done; [by rewrite lookup_insert_eq|]. intros j Hj. by rewrite lookup_insert_ne.
Qed.
(** A decode that is refused after it reserved returns what it reserved, one
    that succeeds may return a part. *)
Lemma DecodeSteps_back {A} k st l b n m (r : viewError + (A * Z)) :
  Frames.Inv st →
  Frames.exec l st = Done (Frames.mkSys b (Frames.conns st) (Frames.owed st) (<[k := n]> (Frames.decodes st))) →
  (m = 0 ∧ (∃ e, r = inl e) ∨ ∃ len a, m = Z.of_nat len ∧ m < n ∧ r = inr (a, m)) →
  DecodeSteps k st (g ← gateRelease (n - m) (Some b); Done (g, r)).
Proof.
  intros HI Hl Hr. destruct (Frames.frames_exec_Inv l st HI) as (st1 & Hl1 & HI1 & _). rewrite Hl in Hl1. injection Hl1 as <-.
  set (st1 := Frames.mkSys _ _ _ _) in *. assert (Hk : Frames.decodes st1 !! k = Some n) by (by apply lookup_insert_eq).
  pose proof (Frames.decoding_le_used _ _ _ HI1 Hk) as Hle. pose proof (Frames.inv_max _ HI1) as Hm. pose proof (Frames.inv_cap _ HI1) as Hc.
  assert (Hmn : 0 ≤ m ≤ n) by (destruct Hr as [[-> _]|(len & a & -> & ? & _)]; lia).
  set (b2 := Frames.mkBudget (Frames.max b) (Frames.used b - (n - m))). change (Frames.budget st1) with b in *.
  assert (Hg : gateRelease (n - m) (Some b) = Done (Some b2)).
  { unfold gateRelease. case_bool_decide; [by rewrite Frames.give_back by lia|]. unfold b2. assert (n - m = 0) as -> by lia. rewrite Z.sub_0_r. by destruct b. }
  rewrite Hg. simpl. exists b2, r.
  exists [l; match r with inl _ => Frames.LDecoded k | inr _ => Frames.LExpanded k (Z.to_nat m) end].
  exists (Frames.mkSys b2 (Frames.conns st) (Frames.owed st) (<[k := m]> (Frames.decodes st1))).
  split; [done|]. split.
  - cbn [Frames.run]. rewrite Hl. cbn [mbind run_bind]. fold st1.
    destruct Hr as [[-> [e ->]]|(len & a & -> & Hlt & ->)]; cbn [Frames.exec]; rewrite Hk.
    + unfold Frames.releaseReserved. case_bool_decide; [rewrite Frames.give_back by (simpl; lia); unfold b2; by rewrite Z.sub_0_r|].
      assert (n = 0) as -> by lia. simpl. unfold b2. rewrite Z.sub_0_r. by destruct b.
    + unfold Frames.returnExcess. rewrite Nat2Z.id, bool_decide_true by lia. unfold i64_max in Hm.
      rewrite sub64_small by int64. by rewrite Frames.give_back by (unfold i64_max; simpl; lia).
  - simpl. split_and!; try done.
    + rewrite lookup_insert_eq. by destruct Hr as [[-> [e ->]]|(len & a & -> & Hlt & ->)].
    + intros j Hj. by rewrite !lookup_insert_ne.
Qed.
Lemma DecodeSteps_refused {A} k st l b n e :
  Frames.Inv st →
  Frames.exec l st = Done (Frames.mkSys b (Frames.conns st) (Frames.owed st) (<[k := n]> (Frames.decodes st))) →
  DecodeSteps (A := A) k st (g ← gateRelease n (Some b); Done (g, inl e)).
Proof. intros HI Hl. rewrite <-(Z.sub_0_r n). eapply DecodeSteps_back; [done|exact Hl|left; by eauto]. Qed.

Lemma decodeGZIP_steps body limit k st :
  Frames.Inv st → Frames.decodes st !! k = None →
  DecodeSteps k st (decodeGZIPWithGlobalBudgetLimit body limit (Some (Frames.budget st))).
Proof.
  intros HI Hk. unfold decodeGZIPWithGlobalBudgetLimit. destruct (bool_decide (limit ≤ 0) || _) eqn:Hl; [by apply DecodeSteps_none|].
  destruct (gzipPackedBytesView body) as [e|compressed]; [by apply DecodeSteps_none|].
  assert (Hex : ∀ b n, Frames.reserve limit 0 (Frames.budget st) = (b, inr n) →
    Frames.exec (Frames.LGzip k limit) st = Done (Frames.mkSys b (Frames.conns st) (Frames.owed st) (<[k := n]> (Frames.decodes st)))).
  { intros b n Hr. simpl. unfold Frames.reserveExpansion. by rewrite Hk, Hl, Hr. }
  unfold gateReserve. destruct (Frames.reserve limit 0 (Frames.budget st)) as [b [e|n]] eqn:Hr.
  { rewrite (reserve_refused _ _ _ _ HI Hr). by apply DecodeSteps_none. }
  specialize (Hex b n eq_refl). destruct (newGZIPPackedReader compressed) as [s|]; [|by eapply DecodeSteps_refused].
  clear Hl. set (data := take _ _). destruct (_ || _); [by eapply DecodeSteps_refused|].
  case_bool_decide; [|by eapply DecodeSteps_kept].
  eapply DecodeSteps_back; [done|exact Hex|right]. exists (length data), data. split; [done|]. by split; [lia|].
Qed.
Lemma decodeContainer_steps body count k st :
  Frames.Inv st → Frames.decodes st !! k = None →
  DecodeSteps k st (decodeMessageContainerViews body count (Some (Frames.budget st))).
Proof.
  intros HI Hk. unfold decodeMessageContainerViews. destruct (bool_decide (blen body < 8)); [by apply DecodeSteps_none|].
  destruct (negb _); [by apply DecodeSteps_none|]. destruct (_ || bool_decide (count > _)) eqn:Hg; [by apply DecodeSteps_none|].
  apply orb_false_iff in Hg as [[_ Hg1%bool_decide_eq_false]%orb_false_iff Hg2%bool_decide_eq_false].
  set (charge := if bool_decide (count > 0) then gateReserve _ _ else _).
  assert (Hex : (∃ e, charge = (Some (Frames.budget st), inl e)) ∨ ∃ b n, charge = (Some b, inr n) ∧
    Frames.exec (Frames.LContainer k count) st = Done (Frames.mkSys b (Frames.conns st) (Frames.owed st) (<[k := n]> (Frames.decodes st)))).
  { unfold charge. case_bool_decide as Hc; simpl; rewrite Hk; unfold Frames.reserveDescriptors; rewrite (bool_decide_false (count > maxContainerMessages)) by done.
    - rewrite (bool_decide_false (count ≤ 0)) by lia. simpl. destruct (Frames.reserve _ _ _) as [b [e|n]] eqn:Hr; [left|right; by eauto].
      rewrite (reserve_refused _ _ _ _ HI Hr). by eauto.
    - right. rewrite (bool_decide_true (count ≤ 0)) by lia. by eauto. }
  destruct Hex as [[e ->]|(b & n & -> & Hex)]; [by apply DecodeSteps_none|].
  destruct (containerLoop _ _) as [e|[ms tail]]; [by eapply DecodeSteps_refused|].
  destruct (negb _); [by eapply DecodeSteps_refused|by eapply DecodeSteps_kept].
Qed.
End decodes.

Module ViewRuns.
#[export] Instance frameIDs : FrameIDs := {|
  GZIPTypeID := 0x3072cfa1; MessageContainerTypeID := 0x73f1f8dc; TypeVector := 0x1cb5c415; MsgsStateInfoTypeID := 0x04deb57d |}.
Definition twoPings : list Message := [mkMessage 7 1 [1; 2; 3; 4]; mkMessage 11 3 [5; 6; 7; 8]].
Lemma inbound_views_roundtrip_witness :
  ∃ g' k, decodeMessageContainerViews (encodeContainer twoPings) 2 (Some (Frames.mkBudget 1000 10)) = Done (g', inr (twoPings, k)) ∧
    Moved (Some (Frames.mkBudget 1000 10)) g' k.
Proof.
  apply (inbound_views_roundtrip [] twoPings [] 0 [] 0 [] (Some (Frames.mkBudget 1000 10))).
  - repeat constructor; vm_compute; congruence.
  - simpl. int64.
  - repeat constructor; simpl; vm_compute; congruence.
  - vm_compute. congruence.
  - intros _. vm_compute. congruence.
Defined.
End ViewRuns.
