(* ===== verification/InboundState.v ===== *)
(** * What a connection remembers of its client's messages

    [connState] of [internal/mtprotoedge/encrypted.go] and the overlay of
    [inbound_preflight.go] that collects the messages of one frame before any
    of them is committed.  Go ranges over a map in an unspecified order; the
    order is a parameter. *)

From S2P Require Import Prelude.

Module Client.

Definition maxTrackedClientMsgIDs : nat := 400.
Definition msgStateUnknown : Z := 1.
Definition msgStateNotReceived : Z := 2.
Definition msgStateNotReceivedHigh : Z := 3.
Definition msgStateReceived : Z := 4.
Definition badMsgSeqTooLow : Z := 32.
Definition badMsgSeqTooHigh : Z := 33.

Record clientMsgRecord := mkRecord { state : Z; seqNo : Z; content : bool; service : bool }.
#[export] Instance clientMsgRecord_eq_dec : EqDecision clientMsgRecord.
Proof. solve_decision. Defined.

Record connState := mkConnState {
  createdFloor : Z;
  seen : gmap Z clientMsgRecord;
  order : list Z;
  orderHead : nat;
  minSeen : Z;
  maxSeen : Z;
  maxContentMsgID : Z;
  maxContentSeqNo : Z;
}.
Definition newConnState : connState := mkConnState 0 ∅ [] 0 i64_max 0 0 0.
Definition reset (cs : connState) : connState := newConnState.

(** The order in which a [range] over a map visits it. *)
Class RangeOrder := {
  visit : gmap Z clientMsgRecord → list (Z * clientMsgRecord);
  visit_all m : visit m ≡ₚ map_to_list m;
}.

Definition seenRecord (msgID : Z) (cs : connState) : option clientMsgRecord := seen cs !! msgID.

(** The scan for an inversion, stopping at the first one met. *)
Fixpoint scan (msgID seq : Z) (rs : list (Z * clientMsgRecord)) : Z :=
  match rs with
  | [] => 0
  | (id, r) :: rs =>
    if negb (content r) then scan msgID seq rs
    else if bool_decide (id < msgID) && bool_decide (seq ≤ seqNo r) then badMsgSeqTooLow
    else if bool_decide (msgID < id) && bool_decide (seqNo r ≤ seq) then badMsgSeqTooHigh
    else scan msgID seq rs
  end.

Definition validateSeq `{RangeOrder} (msgID seq : Z) (isContent : bool) (cs : connState) : Z :=
  if negb isContent then 0
  else if bool_decide (maxContentMsgID cs < msgID) && bool_decide (maxContentSeqNo cs < seq) then 0
  else scan msgID seq (visit (seen cs)).

(** [recomputeRange]: the smallest and the largest id, in any visiting order. *)
Definition recomputeRange `{RangeOrder} (m : gmap Z clientMsgRecord) : Z * Z :=
  foldl (λ r p, (if bool_decide (p.1 < r.1) then p.1 else r.1, if bool_decide (r.2 < p.1) then p.1 else r.2))
    (i64_max, 0) (visit m).

(** [trackInbound]; indexing the full ring at its head may panic. *)
Definition trackInbound `{RangeOrder} (msgID seq : Z) (isContent isService : bool) (st : Z) (cs : connState) : Run connState :=
  let seen' := <[msgID := mkRecord st seq isContent isService]> (seen cs) in
  let mc := if isContent && bool_decide (maxContentMsgID cs < msgID) then msgID else maxContentMsgID cs in
  let ms := if isContent && bool_decide (maxContentSeqNo cs < seq) then seq else maxContentSeqNo cs in
  '(ord, head, evicted) ←
    if bool_decide (length (order cs) < maxTrackedClientMsgIDs)%nat then Done (order cs ++ [msgID], orderHead cs, 0)
    else
      old ← deref (order cs !! orderHead cs);
      Done (<[orderHead cs := msgID]> (order cs), ((orderHead cs + 1) mod length (order cs))%nat, old);
  let lo := if bool_decide (msgID < minSeen cs) then msgID else minSeen cs in
  let hi := if bool_decide (maxSeen cs < msgID) then msgID else maxSeen cs in
  if bool_decide (evicted = 0) then Done (mkConnState (createdFloor cs) seen' ord head lo hi mc ms)
  else
    let seen' := delete evicted seen' in
    let '(lo, hi) := if bool_decide (evicted = lo) || bool_decide (evicted = hi) then recomputeRange seen' else (lo, hi) in
    Done (mkConnState (createdFloor cs) seen' ord head lo hi mc ms).

(** The answer to [msgs_state_req]. *)
Definition stateInfo (ids : list Z) (cs : connState) : list Z :=
  if bool_decide (size (seen cs) = 0%nat) then map (λ _, msgStateUnknown) ids
  else
    map (λ id,
      if bool_decide (id < minSeen cs) then msgStateUnknown
      else if bool_decide (maxSeen cs < id) then msgStateNotReceivedHigh
      else match seen cs !! id with None => msgStateNotReceived | Some r => state r end) ids.

(** ** The overlay of one frame *)

Record stagedClientMessage := mkStaged { sg_msgID : Z; sg_seqNo : Z; sg_content : bool; sg_service : bool }.
Record connStateOverlay := mkOverlay {
  base : connState;
  staged : list stagedClientMessage;
  ov_maxContentMsgID : Z;
  ov_maxContentSeqNo : Z;
}.
Definition newConnStateOverlay (cs : connState) : connStateOverlay :=
  mkOverlay cs [] (maxContentMsgID cs) (maxContentSeqNo cs).
Definition stagedRecord (m : stagedClientMessage) : clientMsgRecord :=
  mkRecord msgStateReceived (sg_seqNo m) (sg_content m) (sg_service m).

(** The newest staged message first, then the connection. *)
Definition ov_seenRecord (msgID : Z) (o : connStateOverlay) : option clientMsgRecord :=
  match List.find (λ m, bool_decide (sg_msgID m = msgID)) (reverse (staged o)) with
  | Some m => Some (stagedRecord m)
  | None => seenRecord msgID (base o)
  end.

Definition ov_validateSeq `{RangeOrder} (msgID seq : Z) (isContent : bool) (o : connStateOverlay) : Z :=
  if negb isContent then 0
  else if bool_decide (ov_maxContentMsgID o < msgID) && bool_decide (ov_maxContentSeqNo o < seq) then 0
  else
    let code := scan msgID seq (visit (seen (base o))) in
    if bool_decide (code = 0) then scan msgID seq (map (λ m, (sg_msgID m, stagedRecord m)) (staged o)) else code.

Definition stage (msgID seq : Z) (isContent isService : bool) (o : connStateOverlay) : connStateOverlay :=
  mkOverlay (base o) (staged o ++ [mkStaged msgID seq isContent isService])
    (if isContent && bool_decide (ov_maxContentMsgID o < msgID) then msgID else ov_maxContentMsgID o)
    (if isContent && bool_decide (ov_maxContentSeqNo o < seq) then seq else ov_maxContentSeqNo o).

(** [commitState]: the staged messages of an accepted frame. *)
Fixpoint commitState `{RangeOrder} (ms : list stagedClientMessage) (cs : connState) : Run connState :=
  match ms with
  | [] => Done cs
  | m :: ms =>
    cs ← trackInbound (sg_msgID m) (sg_seqNo m) (sg_content m) (sg_service m) msgStateReceived cs;
    commitState ms cs
  end.
End Client.
