(* ===== verification/InboundStateInv.v ===== *)
(** * The invariant of a connection's message table

    The table is the last 400 messages the client had accepted; the range is
    exact; and message ids and sequence numbers of its content messages rise
    together.  The overlay of a frame keeps the same facts for the table and
    the frame's own messages. *)

From S2P Require Import Prelude InboundState.
Import Client.

(** ** Lists *)

Lemma lastn_lastn {A} n (l : list A) x : lastn n (lastn n l ++ [x]) = lastn n (l ++ [x]).
Proof.
  unfold lastn. destruct n as [|n]; [by rewrite !Nat.sub_0_r, !drop_all|].
  destruct (decide (length l ≤ S n)%nat) as [Hle|Hgt].
  - by replace (length l - S n)%nat with 0%nat by lia.
  - rewrite !length_app, length_drop. simpl.
    replace (length l - (length l - S n) + 1 - S n)%nat with 1%nat by lia.
    replace (length l + 1 - S n)%nat with ((length l - S n) + 1)%nat by lia.
    rewrite !drop_app_le by (rewrite ?length_drop; lia). by rewrite drop_drop.
Qed.

Lemma nodup_map_inj {A B} (f : A → B) (l : list A) x y : NoDup (map f l) → x ∈ l → y ∈ l → f x = f y → x = y.
Proof.
  induction l as [|a l IH]; intros Hnd Hx Hy Heq; [by apply elem_of_nil in Hx|]. simpl in Hnd. apply NoDup_cons in Hnd as [Hn Hnd].
  apply elem_of_cons in Hx as [->|Hx], Hy as []; subst; auto.
  - destruct Hn. rewrite Heq. apply list_elem_of_fmap. eauto.
  - destruct Hn. rewrite <-Heq. apply list_elem_of_fmap. eauto.
Qed.

(** ** Inversions *)

(** Two content messages whose ids and sequence numbers disagree. *)
Definition conflict (msgID seq : Z) (p : Z * clientMsgRecord) : Prop :=
  content p.2 = true ∧ ((p.1 < msgID ∧ seq ≤ seqNo p.2) ∨ (msgID < p.1 ∧ seqNo p.2 ≤ seq)).

Lemma scan_zero msgID seq rs : scan msgID seq rs = 0 ↔ ∀ p, p ∈ rs → ¬ conflict msgID seq p.
Proof.
  induction rs as [|[id r] rs IH]; [split; [set_solver|done]|]. simpl.
  assert (Hcons : (∀ p, p ∈ (id, r) :: rs → ¬ conflict msgID seq p) ↔
    ¬ conflict msgID seq (id, r) ∧ ∀ p, p ∈ rs → ¬ conflict msgID seq p).
  { split; [intros Hp; split; [|intros p Hin]; apply Hp; set_solver|]. intros [Hh Ht] p [->|?]%elem_of_cons; auto. }
  rewrite Hcons, <-IH. clear Hcons IH. unfold conflict. simpl. destruct (content r); simpl.
  2:{ split; [|tauto]. intros ->. split; [|done]. by intros [? _]. }
  destruct (bool_decide (id < msgID) && _) eqn:H1.
  { apply andb_true_iff in H1 as [H1%bool_decide_eq_true H2%bool_decide_eq_true].
    split; [done|]. intros [Hn _]. destruct Hn. split; [done|lia]. }
  destruct (bool_decide (msgID < id) && _) eqn:H2.
  { apply andb_true_iff in H2 as [H2%bool_decide_eq_true H3%bool_decide_eq_true].
    split; [done|]. intros [Hn _]. destruct Hn. split; [done|lia]. }
  apply andb_false_iff in H1. apply andb_false_iff in H2. rewrite !bool_decide_eq_false in H1, H2.
  split; [|tauto]. intros ->. split; [|done]. intros [_ ?]. lia.
Qed.

(** ** The smallest and largest id *)

Definition rangeStep (r : Z * Z) (p : Z * clientMsgRecord) : Z * Z :=
  (if bool_decide (p.1 < r.1) then p.1 else r.1, if bool_decide (r.2 < p.1) then p.1 else r.2).
Lemma range_fold l r :
  (∀ p, p ∈ l → (foldl rangeStep r l).1 ≤ p.1 ≤ (foldl rangeStep r l).2) ∧
  (foldl rangeStep r l).1 ≤ r.1 ∧ r.2 ≤ (foldl rangeStep r l).2 ∧
  ((foldl rangeStep r l).1 = r.1 ∨ ∃ p, p ∈ l ∧ p.1 = (foldl rangeStep r l).1) ∧
  ((foldl rangeStep r l).2 = r.2 ∨ ∃ p, p ∈ l ∧ p.1 = (foldl rangeStep r l).2).
Proof.
  revert r. induction l as [|p l IH]; intros r; cbn [foldl]; [split; [set_solver|]; split; [lia|]; split; [lia|auto]|].
  destruct (IH (rangeStep r p)) as (Hall & Hlo & Hhi & Hl & Hh). set (r' := foldl rangeStep _ l) in *.
  assert (Hs : (rangeStep r p).1 ≤ p.1 ≤ (rangeStep r p).2 ∧ (rangeStep r p).1 ≤ r.1 ∧ r.2 ≤ (rangeStep r p).2 ∧
    ((rangeStep r p).1 = r.1 ∨ (rangeStep r p).1 = p.1) ∧ ((rangeStep r p).2 = r.2 ∨ (rangeStep r p).2 = p.1)).
  { unfold rangeStep. simpl. do 2 case_bool_decide; lia. }
  split; [intros q [->|Hq]%elem_of_cons; [lia|auto]|]. split; [lia|]. split; [lia|]. split.
  - destruct Hl as [Hl|(q & Hq & Hl)]; [|right; exists q; set_solver].
    destruct Hs as (_ & _ & _ & [Hs|Hs] & _); [left; lia|right; exists p; split; [set_solver|lia]].
  - destruct Hh as [Hh|(q & Hq & Hh)]; [|right; exists q; set_solver].
    destruct Hs as (_ & _ & _ & _ & [Hs|Hs]); [left; lia|right; exists p; split; [set_solver|lia]].
Qed.

(** The range of a table: exact, or the initial one of an empty table. *)
Definition RangeOk (m : gmap Z clientMsgRecord) (lo hi : Z) : Prop :=
  (∀ id, is_Some (m !! id) → lo ≤ id ≤ hi) ∧
  ((is_Some (m !! lo) ∧ is_Some (m !! hi)) ∨ (m = ∅ ∧ lo = i64_max ∧ hi = 0)).

Section inv.
Context `{RangeOrder}.

Lemma elem_of_visit m id r : (id, r) ∈ visit m ↔ m !! id = Some r.
Proof. by rewrite visit_all, elem_of_map_to_list. Qed.

Lemma recomputeRange_ok m :
  m ≠ ∅ → (∀ id, is_Some (m !! id) → 0 < id ≤ i64_max) → RangeOk m (recomputeRange m).1 (recomputeRange m).2.
Proof.
  intros Hne Hpos. unfold recomputeRange. change (λ r p, _) with rangeStep.
  destruct (range_fold (visit m) (i64_max, 0)) as (Hall & Hlo & Hhi & Hl & Hh). simpl in *.
  set (r := foldl _ _ _) in *.
  assert (Hin : ∀ id, is_Some (m !! id) → r.1 ≤ id ≤ r.2).
  { intros id [x Hx]. exact (Hall (id, x) (proj2 (elem_of_visit m id x) Hx)). }
  split; [done|]. left. destruct (map_choose m Hne) as (id & x & Hx).
  pose proof (Hin id ltac:(by eexists)). pose proof (Hpos id ltac:(by eexists)).
  split.
  - destruct Hl as [Hl|([k y] & Hk & Hl)]; [|exists y; simpl in Hl; rewrite <-Hl; by apply elem_of_visit].
    assert (id = r.1) as <- by lia. by eexists.
  - destruct Hh as [Hh|([k y] & Hk & Hh)]; [lia|exists y; simpl in Hh; rewrite <-Hh; by apply elem_of_visit].
Qed.

(** ** The table *)

Record TableInv (cs : connState) (history : list Z) : Prop := {
  tb_ring : RingInv maxTrackedClientMsgIDs (dom (seen cs)) (order cs) (orderHead cs);
  tb_history : ring (orderHead cs) (order cs) = lastn maxTrackedClientMsgIDs history;
  tb_pos id : is_Some (seen cs !! id) → 0 < id ≤ i64_max;
  tb_range : RangeOk (seen cs) (minSeen cs) (maxSeen cs);
  tb_high id r : seen cs !! id = Some r → content r = true → id ≤ maxContentMsgID cs ∧ seqNo r ≤ maxContentSeqNo cs;
  tb_ordered id1 r1 id2 r2 : seen cs !! id1 = Some r1 → seen cs !! id2 = Some r2 →
    content r1 = true → content r2 = true → id1 < id2 → seqNo r1 < seqNo r2;
  tb_received id r : seen cs !! id = Some r → state r = msgStateReceived;
}.

Lemma table_new : TableInv newConnState [].
Proof.
  assert (Hno : ∀ id (r : clientMsgRecord), (∅ : gmap Z clientMsgRecord) !! id = Some r → False) by (intros id r; by rewrite lookup_empty).
  split; simpl; try (by intros; exfalso; eauto).
  - split; [set_solver|constructor|simpl; lia|done|unfold maxTrackedClientMsgIDs; lia].
  - done.
  - by intros id [r ?%Hno].
  - split; [by intros id [r ?%Hno]|by right].
Qed.

Lemma RangeOk_insert m lo hi id r :
  RangeOk m lo hi → 0 < id ≤ i64_max →
  RangeOk (<[id := r]> m) (if bool_decide (id < lo) then id else lo) (if bool_decide (hi < id) then id else hi).
Proof.
  intros [Hall Hex] Hid. split.
  - intros k [x [[<- _]|[_ Hk]]%lookup_insert_Some]; [do 2 case_bool_decide; lia|].
    specialize (Hall k ltac:(by eexists)). do 2 case_bool_decide; lia.
  - left. assert (Hkeep : ∀ k, is_Some (m !! k) → is_Some (<[id := r]> m !! k)).
    { intros k Hk. destruct (decide (id = k)) as [->|Hne]; [rewrite lookup_insert_eq; by eexists|by rewrite lookup_insert_ne]. }
    assert (Hself : is_Some (<[id := r]> m !! id)) by (rewrite lookup_insert_eq; by eexists).
    destruct Hex as [[Hl Hh]|(-> & -> & ->)]; [split; case_bool_decide; auto|].
    split; case_bool_decide; auto; [|lia]. by assert (id = i64_max) as <- by lia.
Qed.
Lemma RangeOk_delete m lo hi id :
  RangeOk m lo hi → is_Some (m !! lo) → id ≠ lo → id ≠ hi → RangeOk (delete id m) lo hi.
Proof.
  intros [Hall Hex] Hlo H1 H2. split.
  - intros k [x [_ ?]%lookup_delete_Some]. apply Hall. by eexists.
  - destruct Hex as [[? ?]|(-> & _ & _)]; [left; by rewrite !lookup_delete_ne|]. rewrite lookup_empty in Hlo. by destruct Hlo.
Qed.

(** ** One message enters the table *)

Definition NoConflict (cs : connState) (msgID seq : Z) : Prop :=
  ∀ id r, seen cs !! id = Some r → ¬ conflict msgID seq (id, r).

(** The facts about records, for a table that only gains [msgID]. *)
Lemma records_insert cs H0 msgID seq (isContent isService : bool) (m : gmap Z clientMsgRecord) :
  TableInv cs H0 → (isContent = true → NoConflict cs msgID seq) →
  (∀ id r, m !! id = Some r → (id = msgID ∧ r = mkRecord msgStateReceived seq isContent isService) ∨ (id ≠ msgID ∧ seen cs !! id = Some r)) →
  (∀ id r, m !! id = Some r → content r = true →
     id ≤ (if isContent && bool_decide (maxContentMsgID cs < msgID) then msgID else maxContentMsgID cs) ∧
     seqNo r ≤ (if isContent && bool_decide (maxContentSeqNo cs < seq) then seq else maxContentSeqNo cs)) ∧
  (∀ id1 r1 id2 r2, m !! id1 = Some r1 → m !! id2 = Some r2 → content r1 = true → content r2 = true → id1 < id2 → seqNo r1 < seqNo r2) ∧
  (∀ id r, m !! id = Some r → state r = msgStateReceived).
Proof.
  intros HT Hnc Hm. split; [|split].
  - intros id r Hr Hc. destruct (Hm _ _ Hr) as [[-> ->]|[_ Hold]].
    + simpl in *. subst isContent. simpl. do 2 case_bool_decide; lia.
    + destruct (tb_high _ _ HT _ _ Hold Hc). destruct isContent; simpl; [do 2 case_bool_decide; lia|lia].
  - intros id1 r1 id2 r2 H1 H2 Hc1 Hc2 Hlt. destruct (Hm _ _ H1) as [[-> ->]|[_ Ho1]], (Hm _ _ H2) as [[-> ->]|[_ Ho2]]; simpl in *.
    + lia.
    + subst isContent. specialize (Hnc eq_refl _ _ Ho2). unfold conflict in Hnc. simpl in Hnc.
      destruct (decide (seq < seqNo r2)); [done|]. destruct Hnc. split; [done|lia].
    + subst isContent. specialize (Hnc eq_refl _ _ Ho1). unfold conflict in Hnc. simpl in Hnc.
      destruct (decide (seqNo r1 < seq)); [done|]. destruct Hnc. split; [done|lia].
    + by eapply (tb_ordered _ _ HT).
  - intros id r Hr. destruct (Hm _ _ Hr) as [[-> ->]|[_ Hold]]; [done|by eapply (tb_received _ _ HT)].
Qed.

Lemma trackInbound_ok cs history msgID seq isContent isService :
  TableInv cs history → 0 < msgID ≤ i64_max → seen cs !! msgID = None → (isContent = true → NoConflict cs msgID seq) →
  ∃ cs', trackInbound msgID seq isContent isService msgStateReceived cs = Done cs' ∧ TableInv cs' (history ++ [msgID]) ∧
    createdFloor cs' = createdFloor cs ∧
    (∀ id r, seen cs' !! id = Some r →
      (id = msgID ∧ r = mkRecord msgStateReceived seq isContent isService) ∨ (id ≠ msgID ∧ seen cs !! id = Some r)).
Proof.
  intros HT Hid Hnew Hnc. pose proof HT as [HR Hhist Hpos Hrange _ _ _]. unfold trackInbound.
  set (rec := mkRecord msgStateReceived seq isContent isService).
  assert (Hnin : msgID ∉ dom (seen cs)) by (by apply not_elem_of_dom).
  assert (Hins : ∀ id r, <[msgID := rec]> (seen cs) !! id = Some r → (id = msgID ∧ r = rec) ∨ (id ≠ msgID ∧ seen cs !! id = Some r)).
  { intros id r [[<- <-]|[? ?]]%lookup_insert_Some; auto. }
  pose proof (RangeOk_insert _ _ _ msgID rec Hrange Hid) as Hrange'.
  assert (Hdom : dom (<[msgID := rec]> (seen cs)) = {[ msgID ]} ∪ dom (seen cs)) by apply dom_insert_L.
  assert (Hp : ∀ id, is_Some (<[msgID := rec]> (seen cs) !! id) → 0 < id ≤ i64_max).
  { intros id [r Hr]. destruct (Hins _ _ Hr) as [[-> _]|[_ ?]]; [done|]. apply Hpos. by eexists. }
  destruct (bool_decide (length (order cs) < maxTrackedClientMsgIDs)%nat) eqn:Hlt; simpl.
  - apply bool_decide_eq_true in Hlt. eexists. split; [done|]. split; [|done].
    destruct (ring_append _ _ _ _ msgID HR Hnin Hlt) as [HR' Hr'].
    destruct (records_insert cs history msgID seq isContent isService _ HT Hnc Hins) as (Hhi & Hord & Hrec).
    split; simpl; [by rewrite Hdom|by rewrite Hr', Hhist, lastn_lastn|done|done|done|done|done].
  - apply bool_decide_eq_false in Hlt.
    destruct (ring_replace _ _ _ _ msgID HR Hnin Hlt) as (old & -> & Hin & Hne & HR' & Hr' & _);
      [unfold maxTrackedClientMsgIDs; lia|]. simpl.
    apply elem_of_dom in Hin. pose proof (Hpos _ Hin) as Hold. rewrite (bool_decide_false (old = 0)) by lia.
    set (m := delete old (<[msgID := rec]> (seen cs))).
    assert (Hm : ∀ id r, m !! id = Some r → (id = msgID ∧ r = rec) ∨ (id ≠ msgID ∧ seen cs !! id = Some r)).
    { intros id r [_ ?]%lookup_delete_Some. auto. }
    assert (Hself : m !! msgID = Some rec) by (unfold m; by rewrite lookup_delete_ne, lookup_insert_eq).
    match goal with |- context [if ?b then recomputeRange m else ?x] => destruct (if b then recomputeRange m else x) as [lo hi] eqn:Hlh end.
    eexists. split; [done|]. split; [|done].
    destruct (records_insert cs history msgID seq isContent isService m HT Hnc Hm) as (Hhi & Hord & Hrec).
    split; simpl; [| by rewrite Hr', Hhist, lastn_lastn | | |done|done|done].
    + unfold m. by rewrite dom_delete_L, Hdom.
    + intros id [r [_ Hr]%lookup_delete_Some]. apply Hp. by eexists.
    + match type of Hlh with (if ?b then _ else _) = _ => destruct b eqn:Hedge end.
      * replace lo with (recomputeRange m).1 by by rewrite Hlh. replace hi with (recomputeRange m).2 by by rewrite Hlh.
        apply recomputeRange_ok; [intros Hz; by rewrite Hz, lookup_empty in Hself|].
        intros id [r [_ Hr]%lookup_delete_Some]. apply Hp. by eexists.
      * injection Hlh as <- <-. apply orb_false_iff in Hedge as [He1%bool_decide_eq_false He2%bool_decide_eq_false].
        apply RangeOk_delete; [done| |done|done].
        destruct Hrange' as [_ [[? _]|(Hz & _)]]; [done|]. exfalso. by apply insert_non_empty in Hz.
Qed.

(** ** The overlay *)

Definition stagedPair (m : stagedClientMessage) : Z * clientMsgRecord := (sg_msgID m, stagedRecord m).
(** A message the connection or the current frame has accepted. *)
Definition Tracked (o : connStateOverlay) (id : Z) (r : clientMsgRecord) : Prop :=
  (id, r) ∈ map stagedPair (staged o) ∨ seen (base o) !! id = Some r.
(** Ids and sequence numbers of content messages rise together. *)
Definition Ordered (P : Z → clientMsgRecord → Prop) : Prop :=
  ∀ id1 r1 id2 r2, P id1 r1 → P id2 r2 → content r1 = true → content r2 = true → id1 < id2 → seqNo r1 < seqNo r2.

Record OverlayInv (o : connStateOverlay) (history : list Z) : Prop := {
  ov_table : TableInv (base o) history;
  ov_new m : m ∈ staged o → 0 < sg_msgID m ≤ i64_max ∧ seen (base o) !! sg_msgID m = None;
  ov_nodup : NoDup (map sg_msgID (staged o));
  ov_high id r : Tracked o id r → content r = true → id ≤ ov_maxContentMsgID o ∧ seqNo r ≤ ov_maxContentSeqNo o;
  ov_ordered : Ordered (Tracked o);
}.

Lemma overlay_new cs history : TableInv cs history → OverlayInv (newConnStateOverlay cs) history.
Proof.
  intros HT. split; simpl; [done|set_solver|constructor| |].
  - intros id r [?%elem_of_nil|?]; [done|by eapply (tb_high _ _ HT)].
  - intros id1 r1 id2 r2 [?%elem_of_nil|?] [?%elem_of_nil|?]; try done. by eapply (tb_ordered _ _ HT).
Qed.

Lemma find_staged o history id :
  OverlayInv o history → ∀ m, m ∈ staged o → sg_msgID m = id →
  List.find (λ m, bool_decide (sg_msgID m = id)) (reverse (staged o)) = Some m.
Proof.
  intros HO m Hin Hid. destruct (List.find _ _) as [m'|] eqn:Hf.
  - apply find_some in Hf as [Hin' Heq%bool_decide_eq_true]. apply list_elem_of_In in Hin'. rewrite elem_of_reverse in Hin'.
    f_equal. apply (nodup_map_inj sg_msgID (staged o)); [apply HO|done|done|congruence].
  - eapply find_none in Hf; [|apply list_elem_of_In; rewrite elem_of_reverse; exact Hin]. by rewrite bool_decide_true in Hf.
Qed.

Lemma ov_seenRecord_spec o history id r : OverlayInv o history → ov_seenRecord id o = Some r ↔ Tracked o id r.
Proof.
  intros HO. unfold ov_seenRecord, Tracked, seenRecord. split.
  - destruct (List.find _ _) as [m|] eqn:Hf; [|auto]. intros [= <-]. left.
    apply find_some in Hf as [Hin Heq%bool_decide_eq_true]. apply list_elem_of_In in Hin. rewrite elem_of_reverse in Hin.
    apply list_elem_of_fmap. exists m. split; [|done]. unfold stagedPair. by rewrite Heq.
  - intros [(m & Heq & Hin)%list_elem_of_fmap|Hb].
    + injection Heq as -> ->. by rewrite (find_staged o history (sg_msgID m) HO m).
    + destruct (List.find _ _) as [m|] eqn:Hf; [|done].
      apply find_some in Hf as [Hin Heq%bool_decide_eq_true]. apply list_elem_of_In in Hin. rewrite elem_of_reverse in Hin.
      destruct (ov_new _ _ HO _ Hin) as [_ Hn]. congruence.
Qed.
Lemma ov_seenRecord_None o history id : OverlayInv o history → ov_seenRecord id o = None → ∀ r, ¬ Tracked o id r.
Proof. intros HO Hn r HT%(ov_seenRecord_spec _ _ _ _ HO). congruence. Qed.

(** The fast path and the two scans together accept exactly the messages that
    form no inversion with an accepted one, in whatever order maps are visited. *)
Lemma ov_validateSeq_spec o history msgID seq :
  OverlayInv o history → ov_validateSeq msgID seq true o = 0 ↔ ∀ id r, Tracked o id r → ¬ conflict msgID seq (id, r).
Proof.
  intros HO. unfold ov_validateSeq. simpl. destruct (_ && _) eqn:Hfast.
  - apply andb_true_iff in Hfast as [H1%bool_decide_eq_true H2%bool_decide_eq_true]. split; [|done].
    intros _ id r HT [Hc Hor]. simpl in *. destruct (ov_high _ _ HO _ _ HT Hc). lia.
  - assert (Hsplit : (∀ id r, Tracked o id r → ¬ conflict msgID seq (id, r)) ↔
      scan msgID seq (visit (seen (base o))) = 0 ∧ scan msgID seq (map stagedPair (staged o)) = 0).
    { rewrite !scan_zero. split.
      - intros Hall. split; intros [id r] Hin; apply Hall; [right; by apply elem_of_visit|by left].
      - intros [Hb Hs] id r [Hin|Hin]; [by apply Hs|]. by apply Hb, elem_of_visit. }
    rewrite Hsplit. change (map (λ m, _) (staged o)) with (map stagedPair (staged o)).
    cbv zeta. destruct (bool_decide (scan msgID seq (visit (seen (base o))) = 0)) eqn:Hz.
    + apply bool_decide_eq_true in Hz. split; [done|by intros [_ ?]].
    + apply bool_decide_eq_false in Hz. split; [done|by intros [? _]].
Qed.

Lemma conflict_ordered P id r id' r' :
  Ordered P → P id r → P id' r' → content r = true → id ≠ id' → ¬ conflict id (seqNo r) (id', r').
Proof.
  intros HO H1 H2 Hc Hne [Hc' [[Hlt Hle]|[Hlt Hle]]]; simpl in *.
  - pose proof (HO _ _ _ _ H2 H1 Hc' Hc Hlt). lia.
  - pose proof (HO _ _ _ _ H1 H2 Hc Hc' Hlt). lia.
Qed.

Lemma stage_ok o history msgID seq isContent isService :
  OverlayInv o history → 0 < msgID ≤ i64_max → ov_seenRecord msgID o = None → ov_validateSeq msgID seq isContent o = 0 →
  OverlayInv (stage msgID seq isContent isService o) history.
Proof.
  intros HO Hid Hnew Hval. pose proof (ov_seenRecord_None _ _ _ HO Hnew) as Hno.
  assert (Hnc : isContent = true → ∀ id r, Tracked o id r → ¬ conflict msgID seq (id, r)).
  { intros ->. by apply (ov_validateSeq_spec o history). }
  set (m := mkStaged msgID seq isContent isService).
  assert (Hcase : ∀ id r, Tracked (stage msgID seq isContent isService o) id r → Tracked o id r ∨ (id, r) = stagedPair m).
  { intros id r [Hin|Hb]; [|left; by right]. simpl in Hin. rewrite map_app in Hin.
    apply elem_of_app in Hin as [Hin|Hin%list_elem_of_singleton]; [left; by left|by right]. }
  split; simpl.
  - apply HO.
  - intros x [Hx| ->%list_elem_of_singleton]%elem_of_app; [by apply (ov_new _ _ HO)|]. simpl. split; [done|].
    destruct (seen (base o) !! msgID) as [r|] eqn:Hs; [|done]. destruct (Hno r). by right.
  - rewrite map_app. apply NoDup_app. split; [apply HO|]. split; [|apply NoDup_singleton].
    intros x (y & -> & Hy)%list_elem_of_fmap Hx%list_elem_of_singleton. simpl in Hx.
    destruct (Hno (stagedRecord y)). left. apply list_elem_of_fmap. exists y. split; [|done]. unfold stagedPair. by rewrite Hx.
  - intros id r HT Hc. destruct (Hcase _ _ HT) as [Hold|[= -> ->]].
    + destruct (ov_high _ _ HO _ _ Hold Hc). destruct isContent; simpl; [do 2 case_bool_decide; lia|lia].
    + simpl in *. subst isContent. simpl. do 2 case_bool_decide; lia.
  - intros id1 r1 id2 r2 H1 H2 Hc1 Hc2 Hlt. destruct (Hcase _ _ H1) as [Ho1|[= -> ->]], (Hcase _ _ H2) as [Ho2|[= -> ->]]; simpl in *.
    + by eapply (ov_ordered _ _ HO).
    + subst isContent. specialize (Hnc eq_refl _ _ Ho1). unfold conflict in Hnc. simpl in Hnc.
      destruct (decide (seqNo r1 < seq)); [done|]. destruct Hnc. split; [done|lia].
    + subst isContent. specialize (Hnc eq_refl _ _ Ho2). unfold conflict in Hnc. simpl in Hnc.
      destruct (decide (seq < seqNo r2)); [done|]. destruct Hnc. split; [done|lia].
    + lia.
Qed.

(** ** Committing a frame *)

Lemma commitState_ok (P : Z → clientMsgRecord → Prop) ms cs history :
  TableInv cs history → Ordered P → (∀ id r, seen cs !! id = Some r → P id r) →
  (∀ m, m ∈ ms → P (sg_msgID m) (stagedRecord m) ∧ 0 < sg_msgID m ≤ i64_max ∧ seen cs !! sg_msgID m = None) →
  NoDup (map sg_msgID ms) →
  ∃ cs', commitState ms cs = Done cs' ∧ TableInv cs' (history ++ map sg_msgID ms) ∧ createdFloor cs' = createdFloor cs ∧
    ∀ id r, seen cs' !! id = Some r → P id r.
Proof.
  intros HT HP. revert cs history HT. induction ms as [|m ms IH]; intros cs history HT Hseen Hms Hnd; cbn [commitState].
  { exists cs. rewrite app_nil_r. done. }
  destruct (Hms m ltac:(set_solver)) as (Hpm & Hpos & Hnew). apply NoDup_cons in Hnd as [Hnin Hnd].
  destruct (trackInbound_ok cs history (sg_msgID m) (sg_seqNo m) (sg_content m) (sg_service m) HT Hpos Hnew) as (cs1 & -> & HT1 & Hf1 & Hs1).
  { intros Hc id r Hr. apply (conflict_ordered P _ (stagedRecord m)); auto. intros <-. congruence. }
  simpl. destruct (IH cs1 (history ++ [sg_msgID m]) HT1) as (cs' & -> & HT' & Hf' & Hs').
  - intros id r Hr. destruct (Hs1 _ _ Hr) as [[-> ->]|[_ ?]]; auto.
  - intros x Hx. destruct (Hms x ltac:(set_solver)) as (? & ? & Hn). split; [done|]. split; [done|].
    destruct (seen cs1 !! sg_msgID x) as [r|] eqn:Hr; [|done]. destruct (Hs1 _ _ Hr) as [[Heq _]|[_ ?]]; [|congruence].
    destruct Hnin. rewrite <-Heq. apply list_elem_of_fmap. eauto.
  - done.
  - exists cs'. rewrite <-app_assoc in HT'. split; [done|]. split; [done|]. split; [congruence|done].
Qed.

Lemma commit_overlay o history :
  OverlayInv o history →
  ∃ cs', commitState (staged o) (base o) = Done cs' ∧ TableInv cs' (history ++ map sg_msgID (staged o)) ∧
    createdFloor cs' = createdFloor (base o) ∧ ∀ id r, seen cs' !! id = Some r → Tracked o id r.
Proof.
  intros HO. apply commitState_ok; [apply HO|apply HO|by right| |apply HO].
  intros m Hm. destruct (ov_new _ _ HO _ Hm). split; [|done]. left. apply list_elem_of_fmap. by exists m.
Qed.
End inv.
