(* ===== verification/InboundPreflight.v ===== *)
(** * Checking a client frame before anything of it runs

    [internal/mtprotoedge/inbound_preflight.go] and the envelope checks of
    [encrypted.go]: a frame is unwrapped (gzip, one level of container),
    every message in it is checked against the connection's table, and the
    result is a plan or a single error; nothing is committed before the whole
    frame was accepted.  The message-id clock, the protocol's constructor ids
    and the decoders of its service messages belong to the protocol library. *)

From S2P Require Import Prelude Wire FrameBudget InboundViews InboundState.
Import Views Client.

Module Preflight.

Class ServiceIDs := {
  MsgsAckTypeID : Z; MsgCopyTypeID : Z; PingRequestTypeID : Z; PingDelayDisconnectRequestTypeID : Z;
  GetFutureSaltsRequestTypeID : Z; MsgsStateReqTypeID : Z; MsgResendReqTypeID : Z; MsgsAllInfoTypeID : Z;
  DestroySessionRequestTypeID : Z; HTTPWaitRequestTypeID : Z; RPCDropAnswerRequestTypeID : Z;
  BadMsgNotificationTypeID : Z; BadServerSaltTypeID : Z; MsgDetailedInfoTypeID : Z; MsgNewDetailedInfoTypeID : Z;
}.
Definition destroyAuthKeyRequestTypeID : Z := 0xd1435160.
Definition helpTestRequestTypeID : Z := 0xc0e202f7.

(** [proto.MessageID]: the time a message id carries, in nanoseconds, and
    whether its low bits are those of a client. *)
Class MessageIDs := { messageTime : Z → Z; fromClient : Z → bool }.
(** A decoder of a service message: an opaque value and the bytes left over. *)
Class ServiceCodec := { decodeValue : Z → list Z → option (Z * Z) }.

Definition badMsgIDTooLow : Z := 16.
Definition badMsgIDTooHigh : Z := 17.
Definition badMsgIDInvalidBits : Z := 18.
Definition badMsgSeqNotEven : Z := 34.
Definition badMsgSeqNotOdd : Z := 35.
Definition badMsgContainer : Z := 64.
Definition maxDispatchDepth : nat := 4.

Inductive clientMessageContentPolicy := ContentRequired | ContentForbidden | ContentOptional.
#[export] Instance policy_eq_dec : EqDecision clientMessageContentPolicy.
Proof. solve_decision. Defined.

(** The last four are given to RPC items by the batch admission that follows. *)
Inductive inboundItemKind :=
  | ItemDuplicate | ItemServiceDuplicate | ItemPing | ItemPingDelay | ItemFutureSalts | ItemMsgsAck | ItemStateReq
  | ItemResendReq | ItemStateInfo | ItemAllInfo | ItemDestroySession | ItemHTTPWait | ItemDropAnswer | ItemDestroyAuthKey
  | ItemHelpTest | ItemRPC
  | ItemCapacityError | ItemRPCAdmissionError | ItemRewrappedRPC | ItemReplayRPC.
#[export] Instance inboundItemKind_eq_dec : EqDecision inboundItemKind.
Proof. solve_decision. Defined.
Inductive itemPayload :=
  | PayloadNone
  | PayloadValue (v : Z)
  | PayloadIDs (v : int64VectorView)
  | PayloadStateInfo (reqMsgID : Z) (info : list Z)
  | PayloadAllInfo (n : Z) (info : list Z).
Inductive inboundLayerProfileEvidenceFreshness := EvidenceUnspecified | EvidenceFresh | EvidenceRequestBound.
(** Without the fields the batch admission fills in afterwards. *)
Record inboundItem := mkItem {
  it_kind : inboundItemKind;
  it_msgID : Z;
  it_seqNo : Z;
  it_typeID : Z;
  it_content : bool;
  it_body : list Z;
  it_payload : itemPayload;
  it_fresh : inboundLayerProfileEvidenceFreshness;
}.

(** [dispatchBadMsgError] becomes a bad_msg_notification; anything else closes
    the connection. *)
Inductive walkError :=
  | BadMsg (msgID seq code : Z)
  | EDepth
  | EPeek
  | EView (e : viewError)
  | EExpansion (n : Z)
  | EService
  | EEmpty.

(** What the walk of one frame accumulates: the plan, the overlay, the
    expansion counter and the server's frame budget. *)
Record walk := mkWalk {
  wk_items : list inboundItem;
  wk_ackIDs : list Z;
  wk_logicalMin : Z;
  wk_releases : list Z;
  wk_overlay : connStateOverlay;
  wk_expanded : Z;
  wk_gate : gate;
}.
Definition set_gate (g : gate) (w : walk) : walk :=
  mkWalk (wk_items w) (wk_ackIDs w) (wk_logicalMin w) (wk_releases w) (wk_overlay w) (wk_expanded w) g.
Definition add_release (k : Z) (g : gate) (w : walk) : walk :=
  mkWalk (wk_items w) (wk_ackIDs w) (wk_logicalMin w) (wk_releases w ++ [k]) (wk_overlay w) (wk_expanded w) g.
Definition add_expanded (n : Z) (w : walk) : walk :=
  mkWalk (wk_items w) (wk_ackIDs w) (wk_logicalMin w) (wk_releases w) (wk_overlay w) (wk_expanded w + n) (wk_gate w).
Definition set_overlay (o : connStateOverlay) (w : walk) : walk :=
  mkWalk (wk_items w) (wk_ackIDs w) (wk_logicalMin w) (wk_releases w) o (wk_expanded w) (wk_gate w).
Definition includeLogicalID (msgID : Z) (w : walk) : walk :=
  mkWalk (wk_items w) (wk_ackIDs w)
    (if bool_decide (wk_logicalMin w = 0) || bool_decide (msgID < wk_logicalMin w) then msgID else wk_logicalMin w)
    (wk_releases w) (wk_overlay w) (wk_expanded w) (wk_gate w).
Definition add_item (it : inboundItem) (w : walk) : walk :=
  mkWalk (wk_items w ++ [it]) (if it_content it then wk_ackIDs w ++ [it_msgID it] else wk_ackIDs w) (wk_logicalMin w)
    (wk_releases w) (wk_overlay w) (wk_expanded w) (wk_gate w).

Section preflight.
Context `{FrameIDs} `{ServiceIDs} `{MessageIDs} `{ServiceCodec} `{Inflate} `{RangeOrder}.

(** ** Envelope checks *)

Definition validClientMessageIDBits (msgID : Z) : bool :=
  bool_decide (0 < msgID) && negb (bool_decide (msgID mod 4294967296 = 0)) && fromClient msgID.
Definition seconds (n : Z) : Z := n * 1000000000.
Definition timeCode (now msgID : Z) : Z :=
  if bool_decide (messageTime msgID < now - seconds 300) then badMsgIDTooLow
  else if bool_decide (now + seconds 30 < messageTime msgID) then badMsgIDTooHigh
  else 0.
Definition validateInboundMessageID (now msgID : Z) (insideContainer : bool) : Z :=
  if negb (validClientMessageIDBits msgID) then badMsgIDInvalidBits
  else if insideContainer then 0 else timeCode now msgID.

Definition clientMessageContentPolicyFor (typeID : Z) : clientMessageContentPolicy :=
  if bool_decide (typeID ∈ [MessageContainerTypeID; MsgsAckTypeID; MsgCopyTypeID]) then ContentForbidden
  else if bool_decide (typeID ∈ [PingRequestTypeID; PingDelayDisconnectRequestTypeID; GetFutureSaltsRequestTypeID;
    MsgsStateReqTypeID; MsgResendReqTypeID; MsgsAllInfoTypeID; MsgsStateInfoTypeID; DestroySessionRequestTypeID;
    HTTPWaitRequestTypeID; RPCDropAnswerRequestTypeID; BadMsgNotificationTypeID; BadServerSaltTypeID;
    MsgDetailedInfoTypeID; MsgNewDetailedInfoTypeID; destroyAuthKeyRequestTypeID; helpTestRequestTypeID]) then ContentOptional
  else ContentRequired.
Definition policyCode (seq typeID : Z) : Z :=
  match clientMessageContentPolicyFor typeID with
  | ContentRequired => if bool_decide (Z.rem seq 2 = 0) then badMsgSeqNotOdd else 0
  | ContentForbidden => if bool_decide (Z.rem seq 2 = 0) then 0 else badMsgSeqNotEven
  | ContentOptional => 0
  end.
Definition validateClientContainerEnvelope (msgID seq typeID : Z) : Z :=
  if negb (validClientMessageIDBits msgID) then badMsgIDInvalidBits else policyCode seq typeID.
Definition validateClientEnvelope (now msgID seq typeID : Z) : Z :=
  if negb (validClientMessageIDBits msgID) then badMsgIDInvalidBits
  else if negb (bool_decide (timeCode now msgID = 0)) then timeCode now msgID
  else policyCode seq typeID.
Definition clientMessageIsContentRelated (typeID seq : Z) : bool :=
  match clientMessageContentPolicyFor typeID with
  | ContentRequired => true
  | ContentOptional => negb (bool_decide (Z.rem seq 2 = 0))
  | ContentForbidden => false
  end.
Definition inboundTypeIsService (typeID : Z) : bool :=
  bool_decide (typeID ∈ [PingRequestTypeID; PingDelayDisconnectRequestTypeID; GetFutureSaltsRequestTypeID; MsgsAckTypeID;
    MsgsStateReqTypeID; MsgResendReqTypeID; MsgsStateInfoTypeID; MsgsAllInfoTypeID; DestroySessionRequestTypeID;
    HTTPWaitRequestTypeID; RPCDropAnswerRequestTypeID; destroyAuthKeyRequestTypeID; helpTestRequestTypeID]).

(** ** Items *)

Definition decodeInboundServiceExact (typeID : Z) (b : list Z) : option Z :=
  match decodeValue typeID b with
  | Some (v, rest) => if bool_decide (rest = 0) then Some v else None
  | None => None
  end.

Definition preflightInboundItem (msgID seq typeID : Z) (content : bool) (body : list Z) : inboundItem + walkError :=
  let item k p := mkItem k msgID seq typeID content body p EvidenceUnspecified in
  let value k := match decodeInboundServiceExact typeID body with Some v => inl (item k (PayloadValue v)) | None => inr EService end in
  let vector k t :=
    match decodeInt64VectorView body t maxServiceMessageIDs with
    | inr v => inl (item k (PayloadIDs v))
    | inl e => inr (EView e)
    end in
  if bool_decide (typeID = PingRequestTypeID) then value ItemPing
  else if bool_decide (typeID = PingDelayDisconnectRequestTypeID) then value ItemPingDelay
  else if bool_decide (typeID = GetFutureSaltsRequestTypeID) then value ItemFutureSalts
  else if bool_decide (typeID = MsgsAckTypeID) then vector ItemMsgsAck MsgsAckTypeID
  else if bool_decide (typeID = MsgsStateReqTypeID) then vector ItemStateReq MsgsStateReqTypeID
  else if bool_decide (typeID = MsgResendReqTypeID) then vector ItemResendReq MsgResendReqTypeID
  else if bool_decide (typeID = MsgsStateInfoTypeID) then
    match msgsStateInfoView body with inr (r, info) => inl (item ItemStateInfo (PayloadStateInfo r info)) | inl e => inr (EView e) end
  else if bool_decide (typeID = MsgsAllInfoTypeID) then
    match msgsAllInfoView body with
    | inr (n, info) => if bool_decide (blen info = n) then inl (item ItemAllInfo (PayloadAllInfo n info)) else inr EService
    | inl e => inr (EView e)
    end
  else if bool_decide (typeID = DestroySessionRequestTypeID) then value ItemDestroySession
  else if bool_decide (typeID = HTTPWaitRequestTypeID) then value ItemHTTPWait
  else if bool_decide (typeID = RPCDropAnswerRequestTypeID) then value ItemDropAnswer
  else if bool_decide (typeID = destroyAuthKeyRequestTypeID) then
    if bool_decide (blen body = 4) then inl (item ItemDestroyAuthKey PayloadNone) else inr EService
  else if bool_decide (typeID = helpTestRequestTypeID) then
    if bool_decide (blen body = 4) then inl (item ItemHelpTest PayloadNone) else inr EService
  else inl (item ItemRPC PayloadNone).

Definition appendInboundDuplicate (msgID seq typeID : Z) (r : clientMsgRecord) (w : walk) : walk :=
  add_item (mkItem (if service r then ItemServiceDuplicate else ItemDuplicate) msgID seq typeID (content r) [] PayloadNone EvidenceUnspecified)
    (includeLogicalID msgID w).

(** ** The walk *)

Definition refuse (w : walk) (e : walkError) : Run (walk * option walkError) := Done (w, Some e).
Definition accept (w : walk) : Run (walk * option walkError) := Done (w, None).

(** A message that is neither gzip nor a container. *)
Definition walkMessage (now msgID seq typeID : Z) (body : list Z) (inside mustDup : bool) (w : walk) : Run (walk * option walkError) :=
  let code := if inside then (if bool_decide (validateClientContainerEnvelope msgID seq typeID = 0) then 0 else badMsgContainer)
              else validateClientEnvelope now msgID seq typeID in
  if negb (bool_decide (code = 0)) then refuse w (BadMsg msgID seq code)
  else
    let isContent := clientMessageIsContentRelated typeID seq in
    match ov_seenRecord msgID (wk_overlay w) with
    | Some r =>
      if negb (bool_decide (seqNo r = seq)) || negb (bool_decide (content r = isContent))
      then refuse w (BadMsg msgID seq badMsgContainer)
      else accept (appendInboundDuplicate msgID seq typeID r w)
    | None =>
      if mustDup then refuse w (BadMsg msgID seq badMsgContainer)
      else
        let code := ov_validateSeq msgID seq isContent (wk_overlay w) in
        if negb (bool_decide (code = 0)) then refuse w (BadMsg msgID seq code)
        else
          let w := includeLogicalID msgID (set_overlay (stage msgID seq isContent (inboundTypeIsService typeID) (wk_overlay w)) w) in
          match preflightInboundItem msgID seq typeID isContent body with
          | inr e => refuse w e
          | inl it =>
            accept (add_item (mkItem (it_kind it) (it_msgID it) (it_seqNo it) (it_typeID it) (it_content it) (it_body it) (it_payload it)
              (if bool_decide (validateInboundMessageID now msgID false = 0) then EvidenceFresh else EvidenceRequestBound)) w)
          end
    end.

(** The messages of a container, one after the other. *)
Fixpoint walkMessages (inner : Message → walk → Run (walk * option walkError)) (msgID seq : Z) (ms : list Message) (w : walk)
    : Run (walk * option walkError) :=
  match ms with
  | [] => accept w
  | m :: ms =>
    if bool_decide (msgID ≤ ID m) || bool_decide (seq < SeqNo m) then refuse w (BadMsg msgID seq badMsgContainer)
    else
      '(w, e) ← inner m w;
      match e with Some e => refuse w e | None => walkMessages inner msgID seq ms w end
  end.

(** The outer message of a container: known already, or staged. *)
Definition enterContainer (msgID seq : Z) (w : walk) : walk + Z :=
  match ov_seenRecord msgID (wk_overlay w) with
  | Some r => if content r || negb (bool_decide (seqNo r = seq)) then inr badMsgContainer else inl w
  | None =>
    let code := ov_validateSeq msgID seq false (wk_overlay w) in
    if negb (bool_decide (code = 0)) then inr code
    else inl (set_overlay (stage msgID seq false false (wk_overlay w)) w)
  end.
(** Its messages, counted, charged, decoded and walked by [inner]. *)
Definition walkContents (inner : Message → walk → Run (walk * option walkError)) (msgID seq : Z) (body : list Z) (w : walk)
    : Run (walk * option walkError) :=
  match containerMessageCount body with
  | inl e => refuse w (EView e)
  | inr n =>
    if bool_decide (n > maxContainerMessages) then refuse w (BadMsg msgID seq badMsgContainer)
    else
      '(g, r) ← decodeMessageContainerViews body n (wk_gate w);
      match r with
      | inl e => refuse (set_gate g w) (EView e)
      | inr (ms, k) =>
        let w := add_release k g w in
        match ms with
        | [] => accept (includeLogicalID msgID w)
        | _ => walkMessages inner msgID seq ms w
        end
      end
  end.

(** [walkInbound]; [depth] counts down from [maxDispatchDepth + 1], so that it
    is zero exactly when the source's counter exceeds the maximum. *)
Fixpoint walkInbound (depth : nat) (now msgID seq : Z) (body : list Z) (inside mustDup : bool) (containerDepth : nat) (w : walk)
    : Run (walk * option walkError) :=
  match depth with
  | O => refuse w EDepth
  | S depth =>
    if bool_decide (blen body < 4) then refuse w EPeek
    else
      let typeID := uint32At 0 body in
      let code := validateInboundMessageID now msgID inside in
      let rec_ := ov_seenRecord msgID (wk_overlay w) in
      if negb (bool_decide (code = 0)) then refuse w (BadMsg msgID seq (if inside then badMsgContainer else code))
      else if mustDup || (bool_decide (typeID = GZIPTypeID)
             && match rec_ with Some r => inside || content r | None => false end) then
        match rec_ with
        | Some r => if bool_decide (seqNo r = seq) then accept (appendInboundDuplicate msgID seq typeID r w)
                    else refuse w (BadMsg msgID seq badMsgContainer)
        | None => refuse w (BadMsg msgID seq badMsgContainer)
        end
      else if bool_decide (typeID = GZIPTypeID) then
        '(g, r) ← decodeGZIPWithGlobalBudget body (wk_gate w);
        match r with
        | inl e => refuse (set_gate g w) (EView e)
        | inr (data, k) =>
          let w := add_expanded (blen data) (add_release k g w) in
          if bool_decide (wk_expanded w > maxDispatchExpandedBytes) then refuse w (EExpansion (wk_expanded w))
          else walkInbound depth now msgID seq data inside mustDup containerDepth w
        end
      else if bool_decide (typeID = MessageContainerTypeID) then
        if inside || negb (bool_decide (containerDepth = 0%nat)) then refuse w (BadMsg msgID seq badMsgContainer)
        else
          let code := validateClientEnvelope now msgID seq typeID in
          if negb (bool_decide (code = 0)) then refuse w (BadMsg msgID seq code)
          else
            match enterContainer msgID seq w with
            | inr code => refuse w (BadMsg msgID seq code)
            | inl w =>
              walkContents (λ m, walkInbound depth now (ID m) (SeqNo m) (Body m) true (bool_decide (is_Some rec_)) (S containerDepth))
                msgID seq body w
            end
      else walkMessage now msgID seq typeID body inside mustDup w
  end.

(** ** The plan of a frame *)

Record inboundPlan := mkPlan {
  p_items : list inboundItem;
  p_staged : list stagedClientMessage;
  p_ackIDs : list Z;
  p_logicalMin : Z;
  p_releases : list Z;
  p_gzipExpandedBytes : Z;
}.

(** [plan.close], for what the preflight holds: newest charge first. *)
Fixpoint releaseList (ks : list Z) (g : gate) : Run gate :=
  match ks with [] => Done g | k :: ks => g ← gateRelease k g; releaseList ks g end.
Definition closePlan (releases : list Z) (g : gate) : Run gate := releaseList (reverse releases) g.

Definition preflightInbound (now : Z) (cs : connState) (msgID seq : Z) (body : list Z) (g : gate)
    : Run (gate * (walkError + inboundPlan)) :=
  '(w, e) ← walkInbound (S maxDispatchDepth) now msgID seq body false false 0 (mkWalk [] [] 0 [] (newConnStateOverlay cs) 0 g);
  let fail e := g ← closePlan (wk_releases w) (wk_gate w); Done (g, inl e) in
  match e with
  | Some e => fail e
  | None =>
    if bool_decide (wk_logicalMin w = 0) then fail EEmpty
    else if existsb (λ it, bool_decide (it_kind it = ItemDestroyAuthKey)) (wk_items w) && negb (bool_decide (length (wk_items w) = 1%nat))
    then fail (BadMsg msgID seq badMsgContainer)
    else Done (wk_gate w, inr (mkPlan (wk_items w) (staged (wk_overlay w)) (wk_ackIDs w) (wk_logicalMin w) (wk_releases w) (wk_expanded w)))
  end.

(** ** A connection's frames *)

(** The table part of [handleEncrypted]: a frame whose plan is accepted and
    whose sends and activation succeed ([proceed]) moves the session floor and
    commits its messages; the plan is closed in every case. *)
Record frame := mkFrameIn { fr_now : Z; fr_msgID : Z; fr_seqNo : Z; fr_body : list Z; fr_proceed : bool }.
Definition handleFrame (f : frame) (cs : connState) (g : gate) : Run (connState * gate * option inboundPlan) :=
  '(g, r) ← preflightInbound (fr_now f) cs (fr_msgID f) (fr_seqNo f) (fr_body f) g;
  match r with
  | inl _ => Done (cs, g, None)
  | inr plan =>
    if fr_proceed f then
      let floor := if bool_decide (createdFloor cs = 0) || bool_decide (p_logicalMin plan < createdFloor cs) then p_logicalMin plan else createdFloor cs in
      let cs := mkConnState floor (seen cs) (order cs) (orderHead cs) (minSeen cs) (maxSeen cs) (maxContentMsgID cs) (maxContentSeqNo cs) in
      cs ← commitState (p_staged plan) cs;
      g ← closePlan (p_releases plan) g;
      Done (cs, g, Some plan)
    else g ← closePlan (p_releases plan) g; Done (cs, g, None)
  end.

(** The frames of one session on one connection; the plans that ran. *)
Fixpoint handleFrames (fs : list frame) (cs : connState) (g : gate) : Run (connState * gate * list inboundPlan) :=
  match fs with
  | [] => Done (cs, g, [])
  | f :: fs =>
    '(cs, g, p) ← handleFrame f cs g;
    '(cs, g, ps) ← handleFrames fs cs g;
    Done (cs, g, match p with Some p => p :: ps | None => ps end)
  end.
End preflight.
End Preflight.
