(* ===== verification/InboundWalk.v ===== *)
(** * What the walk of a frame keeps

    By induction on the depth: the overlay stays consistent, the frame budget
    holds exactly the plan's charges, an item that will run stands for a
    message nobody accepted before, and an accepted walk adds one item per
    message, in order. *)

From S2P Require Import Prelude Wire FrameBudget InboundViews InboundViewProps InboundState InboundStateInv InboundPreflight.
Import Views Client Preflight.

Definition zsum (l : list Z) : Z := foldr Z.add 0 l.
Lemma zsum_app l l' : zsum (l ++ l') = zsum l + zsum l'.
Proof. induction l as [|x l IH]; simpl; [lia|]. unfold zsum in *. simpl. lia. Qed.
Lemma zsum_reverse l : zsum (reverse l) = zsum l.
Proof. induction l as [|x l IH]; [done|]. rewrite reverse_cons, zsum_app, IH. unfold zsum. simpl. lia. Qed.

(** ** Items *)

Definition isDup (it : inboundItem) : bool :=
  bool_decide (it_kind it = ItemDuplicate) || bool_decide (it_kind it = ItemServiceDuplicate).
Definition freshIDs (its : list inboundItem) : list Z := map it_msgID (filter (λ it, isDup it = false) its).
Definition contentIDs (its : list inboundItem) : list Z := map it_msgID (filter (λ it, it_content it = true) its).
Definition itemKey (it : inboundItem) : Z * Z := (it_msgID it, it_seqNo it).

Lemma freshIDs_app its it : freshIDs (its ++ [it]) = freshIDs its ++ (if isDup it then [] else [it_msgID it]).
Proof.
  unfold freshIDs. rewrite filter_app, map_app. f_equal. destruct (isDup it) eqn:Hd.
  - by rewrite filter_cons_False by congruence.
  - by rewrite filter_cons_True.
Qed.
Lemma contentIDs_app its its' : contentIDs (its ++ its') = contentIDs its ++ contentIDs its'.
Proof. unfold contentIDs. by rewrite filter_app, map_app. Qed.
Lemma contentIDs_one it : contentIDs [it] = if it_content it then [it_msgID it] else [].
Proof. unfold contentIDs. destruct (it_content it) eqn:Hc; [by rewrite filter_cons_True|by rewrite filter_cons_False by congruence]. Qed.

(** The smallest of the ids seen so far; 0 is none. *)
Definition lmin (a id : Z) : Z := if bool_decide (a = 0) || bool_decide (id < a) then id else a.

(** ** The invariant *)

Record WalkInv (g0 : gate) (cs : connState) (history : list Z) (w : walk) : Prop := {
  wv_overlay : OverlayInv (wk_overlay w) history;
  wv_base : base (wk_overlay w) = cs;
  wv_gate : Moved g0 (wk_gate w) (zsum (wk_releases w));
  wv_charges : Forall (λ k, 0 ≤ k ∧ (g0 = None → k = 0)) (wk_releases w);
  wv_fresh : NoDup (freshIDs (wk_items w));
  wv_staged id : id ∈ freshIDs (wk_items w) → id ∈ map sg_msgID (staged (wk_overlay w));
  wv_dup it : it ∈ wk_items w → isDup it = true →
    ∃ r, Tracked (wk_overlay w) (it_msgID it) r ∧ seqNo r = it_seqNo it ∧ content r = it_content it;
}.

(** What an accepted walk of message [msgID] added. *)
Record Adds (msgID : Z) (w w' : walk) (new : list inboundItem) : Prop := {
  ad_items : wk_items w' = wk_items w ++ new;
  ad_acks : wk_ackIDs w' = wk_ackIDs w ++ contentIDs new;
  ad_min : wk_logicalMin w' = foldl lmin (wk_logicalMin w) (match new with [] => [msgID] | _ => map it_msgID new end);
  ad_expanded : wk_expanded w ≤ maxDispatchExpandedBytes → wk_expanded w' ≤ maxDispatchExpandedBytes;
}.

Section walk.
Context `{FrameIDs} `{ServiceIDs} `{MessageIDs} `{ServiceCodec} `{Inflate} `{RangeOrder}.
Context (g0 : gate) (cs : connState) (history : list Z) (Hg0 : GateOk g0).

Abbreviation WInv := (WalkInv g0 cs history).

Lemma WInv_gate g w : WInv w → Moved (wk_gate w) g 0 → WInv (set_gate g w).
Proof. intros [] HM. split; try done. simpl. eapply Moved_trans; [exact wv_gate0|exact HM|lia]. Qed.
Lemma gate_none w : WInv w → wk_gate w = None → g0 = None.
Proof.
  intros HI Hn. pose proof (mv_kind _ _ _ (wv_gate _ _ _ _ HI)) as Hk. destruct g0; [|done].
  rewrite Hn in Hk. destruct Hk as [_ [? ?]]; [by eexists|done].
Qed.
Lemma gate_none' w : WInv w → g0 = None → wk_gate w = None.
Proof.
  intros HI Hn. pose proof (mv_kind _ _ _ (wv_gate _ _ _ _ HI)) as Hk. rewrite Hn in Hk.
  destruct (wk_gate w); [|done]. destruct Hk as [[? ?] _]; [by eexists|done].
Qed.
Lemma WInv_release k g w :
  WInv w → Moved (wk_gate w) g k → 0 ≤ k → (wk_gate w = None → k = 0) → WInv (add_release k g w).
Proof.
  intros HI HM Hk Hz. pose proof (gate_none' _ HI) as Hg. destruct HI. split; try done; simpl.
  - eapply Moved_trans; [exact wv_gate0|exact HM|]. rewrite zsum_app. unfold zsum at 2. simpl. lia.
  - apply Forall_app. split; [done|]. constructor; [|done]. auto.
Qed.
Lemma WInv_expanded n w : WInv w → WInv (add_expanded n w).
Proof. intros []. by split. Qed.
Lemma WInv_logical id w : WInv w → WInv (includeLogicalID id w).
Proof. intros []. by split. Qed.

Lemma Tracked_stage o msgID seq c s id r : Tracked o id r → Tracked (stage msgID seq c s o) id r.
Proof. intros [Hin|Hb]; [left|by right]. simpl. rewrite map_app. apply elem_of_app. by left. Qed.

Lemma WInv_stage msgID seq c s w :
  WInv w → 0 < msgID ≤ i64_max → ov_seenRecord msgID (wk_overlay w) = None → ov_validateSeq msgID seq c (wk_overlay w) = 0 →
  WInv (set_overlay (stage msgID seq c s (wk_overlay w)) w).
Proof.
  intros HI Hid Hnew Hval. destruct HI. split; try done; simpl.
  - by apply stage_ok.
  - intros id Hin. rewrite map_app. apply elem_of_app. left. auto.
  - intros it Hin Hd. destruct (wv_dup0 _ Hin Hd) as (r & ? & ?). exists r. split; [by apply Tracked_stage|done].
Qed.

Lemma add_item_Adds it w : Adds (it_msgID it) w (add_item it (includeLogicalID (it_msgID it) w)) [it].
Proof.
  split; simpl; [done| |done|done]. rewrite contentIDs_one. destruct (it_content it); [done|by rewrite app_nil_r].
Qed.

Lemma WInv_add_dup it w r :
  WInv w → isDup it = true → Tracked (wk_overlay w) (it_msgID it) r → seqNo r = it_seqNo it → content r = it_content it →
  WInv (add_item it w).
Proof.
  intros HI Hd HT Hs Hc. destruct HI. split; try done; simpl.
  - by rewrite freshIDs_app, Hd, app_nil_r.
  - intros id. rewrite freshIDs_app, Hd, app_nil_r. auto.
  - intros x [Hx| ->%list_elem_of_singleton]%elem_of_app Hdx; [auto|]. by exists r.
Qed.
Lemma WInv_add_fresh it w :
  WInv w → isDup it = false → it_msgID it ∉ freshIDs (wk_items w) → it_msgID it ∈ map sg_msgID (staged (wk_overlay w)) →
  WInv (add_item it w).
Proof.
  intros HI Hd Hn Hin. destruct HI. split; try done; simpl.
  - rewrite freshIDs_app, Hd. apply NoDup_app. split; [done|]. split; [|apply NoDup_singleton].
    intros x Hx ->%list_elem_of_singleton. done.
  - intros id. rewrite freshIDs_app, Hd. intros [?| ->%list_elem_of_singleton]%elem_of_app; [auto|done].
  - intros x [Hx| ->%list_elem_of_singleton]%elem_of_app Hdx; [auto|congruence].
Qed.

Lemma duplicate_ok msgID seq typeID r w :
  WInv w → ov_seenRecord msgID (wk_overlay w) = Some r → seqNo r = seq →
  WInv (appendInboundDuplicate msgID seq typeID r w) ∧
  ∃ it, itemKey it = (msgID, seq) ∧ isDup it = true ∧ it_content it = content r ∧ Adds msgID w (appendInboundDuplicate msgID seq typeID r w) [it].
Proof.
  intros HI Hr Hs. unfold appendInboundDuplicate.
  match goal with |- context [add_item ?x _] => set (it := x) end. split.
  - apply (WInv_add_dup it _ r); [by apply WInv_logical|by unfold isDup; simpl; destruct (service r)| |done|done].
    simpl. eapply ov_seenRecord_spec; [apply HI|done].
  - exists it. split; [done|]. split; [by unfold isDup; simpl; destruct (service r)|]. split; [done|]. apply (add_item_Adds it).
Qed.

Lemma preflightInboundItem_key msgID seq typeID c body it :
  preflightInboundItem msgID seq typeID c body = inl it →
  it_msgID it = msgID ∧ it_seqNo it = seq ∧ it_content it = c ∧ isDup it = false ∧ it_typeID it = typeID ∧ it_body it = body.
Proof.
  unfold preflightInboundItem. destruct (decodeInboundServiceExact typeID body);
    repeat (case_bool_decide; [repeat case_match; intros [= <-]; done|]); by intros [= <-].
Qed.

(** ** One message *)

Definition Walked (msgID : Z) (w : walk) (r : Run (walk * option walkError)) (Q : list inboundItem → Prop) : Prop :=
  ∃ w' e, r = Done (w', e) ∧ WInv w' ∧ (e = None → ∃ new, Adds msgID w w' new ∧ Q new).

Lemma Walked_refuse msgID w w' e Q : WInv w' → Walked msgID w (refuse w' e) Q.
Proof. intros HI. by exists w', (Some e). Qed.
Lemma Walked_duplicate msgID seq typeID r w (Q : list inboundItem → Prop) :
  WInv w → ov_seenRecord msgID (wk_overlay w) = Some r → seqNo r = seq →
  (∀ it, itemKey it = (msgID, seq) → isDup it = true → it_content it = content r → Q [it]) → Walked msgID w (accept (appendInboundDuplicate msgID seq typeID r w)) Q.
Proof.
  intros HI Hr Hs HQ. destruct (duplicate_ok msgID seq typeID r w HI Hr Hs) as (HI' & it & Hk & Hd & Hc & HA).
  eexists _, None. split; [done|]. split; [done|]. intros _. exists [it]. auto.
Qed.

Lemma walkMessage_ok now msgID seq typeID body inside mustDup w :
  WInv w → 0 < msgID ≤ i64_max →
  Walked msgID w (walkMessage now msgID seq typeID body inside mustDup w)
    (λ new, ∃ it, new = [it] ∧ itemKey it = (msgID, seq) ∧ it_content it = clientMessageIsContentRelated typeID seq ∧
       (isDup it = true ∨ it_typeID it = typeID ∧ it_body it = body)).
Proof.
  intros HI Hid. unfold walkMessage. destruct (negb _); [by apply Walked_refuse|].
  destruct (ov_seenRecord msgID (wk_overlay w)) as [r|] eqn:Hr.
  - destruct (negb (bool_decide (seqNo r = seq))) eqn:Hs; simpl; [by apply Walked_refuse|].
    apply negb_false_iff, bool_decide_eq_true in Hs. destruct (negb _) eqn:Hc; [by apply Walked_refuse|].
    apply negb_false_iff, bool_decide_eq_true in Hc. apply Walked_duplicate; [done|done|done|]. intros it Hk Hd Hic. exists it. rewrite Hic. auto.
  - destruct mustDup; [by apply Walked_refuse|]. set (c := clientMessageIsContentRelated typeID seq).
    destruct (bool_decide (ov_validateSeq msgID seq c (wk_overlay w) = 0)) eqn:Hv; simpl; [|by apply Walked_refuse].
    apply bool_decide_eq_true in Hv. set (svc := inboundTypeIsService typeID).
    pose proof (WInv_stage msgID seq c svc w HI Hid Hr Hv) as HI1. set (w1 := set_overlay _ w) in *.
    pose proof (WInv_logical msgID _ HI1) as HI2.
    destruct (preflightInboundItem msgID seq typeID c body) as [it|e] eqn:Hit; [|by apply Walked_refuse].
    destruct (preflightInboundItem_key _ _ _ _ _ _ Hit) as (Hid' & Hseq & Hc & Hd & Hty & Hbd).
    match goal with |- Walked _ _ (accept (add_item ?x _)) _ => set (it' := x) end.
    eexists _, None. split; [done|]. split.
    + apply WInv_add_fresh; [done|done| |].
      * simpl. intros Hin%(wv_staged _ _ _ _ HI). rewrite Hid' in Hin. apply list_elem_of_fmap in Hin as (m & Heq & Hm).
        apply (ov_seenRecord_None _ _ _ (wv_overlay _ _ _ _ HI) Hr (stagedRecord m)). left.
        apply list_elem_of_fmap. exists m. split; [|done]. unfold stagedPair. by rewrite <-Heq.
      * simpl. rewrite map_app, Hid'. apply elem_of_app. right. set_solver.
    + intros _. exists [it']. split; [|exists it'; split; [done|]; unfold itemKey; simpl; rewrite Hid', Hseq; auto].
      pose proof (add_item_Adds it' w1) as HA. simpl in HA. rewrite Hid' in HA. destruct HA. by split.
Qed.

(** ** The messages of a container *)

Lemma Adds_trans id id' id'' w1 w2 w3 n1 n2 :
  Adds id w1 w2 n1 → Adds id' w2 w3 n2 → n1 ≠ [] → n2 ≠ [] → Adds id'' w1 w3 (n1 ++ n2).
Proof.
  intros [I1 A1 M1 E1] [I2 A2 M2 E2] Hn1 Hn2. split.
  - by rewrite I2, I1, app_assoc.
  - by rewrite A2, A1, contentIDs_app, app_assoc.
  - rewrite M2, M1. destruct n1 as [|i1 n1]; [done|]. destruct n2 as [|i2 n2]; [done|].
    cbn [app]. change (map it_msgID (i1 :: n1 ++ i2 :: n2)) with (map it_msgID ((i1 :: n1) ++ i2 :: n2)).
    by rewrite map_app, foldl_app.
  - auto.
Qed.
Lemma Adds_rename id id' w w' n : Adds id w w' n → n ≠ [] → Adds id' w w' n.
Proof. intros [] Hn. destruct n; [done|]. by split. Qed.

Lemma walkMessages_ok (R : Message → inboundItem → Prop) (inner : Message → walk → Run (walk * option walkError)) msgID seq ms w :
  (∀ m w, m ∈ ms → WInv w → Walked (ID m) w (inner m w) (λ new, ∃ it, new = [it] ∧ R m it)) →
  WInv w → ms ≠ [] →
  Walked msgID w (walkMessages inner msgID seq ms w) (Forall2 R ms).
Proof.
  revert w. induction ms as [|m ms IH]; intros w Hin HI Hne; [done|]. cbn [walkMessages].
  destruct (_ || _); [by apply Walked_refuse|].
  destruct (Hin m w ltac:(set_solver) HI) as (w1 & e & -> & HI1 & Hacc). simpl.
  destruct e as [e|]; [by apply Walked_refuse|]. destruct (Hacc eq_refl) as (new & HA & it & -> & Hk).
  destruct ms as [|m2 ms].
  - eexists w1, None. split; [done|]. split; [done|]. intros _. exists [it]. split; [by eapply Adds_rename|by repeat constructor].
  - destruct (IH w1) as (w2 & e & -> & HI2 & Hacc2); [intros; apply Hin; [set_solver|done]|done|done|].
    exists w2, e. split; [done|]. split; [done|]. intros He. destruct (Hacc2 He) as (new2 & HA2 & Hk2).
    exists ([it] ++ new2). split; [|by constructor].
    eapply Adds_trans; [exact HA|exact HA2|done|]. intros ->. by inversion Hk2.
Qed.

(** ** The whole walk *)

(** The body under its gzip layers. *)
Inductive Unwraps : list Z → list Z → Prop :=
  | UnwrapsSelf body : uint32At 0 body ≠ GZIPTypeID → Unwraps body body
  | UnwrapsGZIP body data g g' k inner :
      uint32At 0 body = GZIPTypeID → decodeGZIPWithGlobalBudget body g = Done (g', inr (data, k)) →
      Unwraps data inner → Unwraps body inner.
Definition isContainer (body : list Z) : Prop := uint32At 0 body = MessageContainerTypeID.
(** The messages of a container, as many as its header counts. *)
Definition Carries (body : list Z) (ms : list Message) : Prop :=
  ∃ n g g' k, containerMessageCount body = inr n ∧ n ≤ maxContainerMessages ∧ decodeMessageContainerViews body n g = Done (g', inr (ms, k)).

(** The item of one message: a duplicate, or the unwrapped message itself. *)
Definition ItemOf (msgID seq : Z) (body : list Z) (it : inboundItem) : Prop :=
  itemKey it = (msgID, seq) ∧
  (isDup it = true ∨
   ∃ data, Unwraps body data ∧ ¬ isContainer data ∧ it_body it = data ∧ it_typeID it = uint32At 0 data ∧
     it_content it = clientMessageIsContentRelated (it_typeID it) seq).
(** An accepted message that unwraps to a container is one item per message of
    the container; any other message is one item.  Only a message known to be
    content, which no container is, may be answered without being unwrapped. *)
Definition Shape (msgID seq : Z) (body : list Z) (inside : bool) (new : list inboundItem) : Prop :=
  (∃ it, new = [it] ∧ ItemOf msgID seq body it ∧
     (inside = false → (isDup it = true ∧ it_content it = true) ∨ ∃ data, Unwraps body data ∧ ¬ isContainer data)) ∨
  (inside = false ∧ ∃ data ms, Unwraps body data ∧ isContainer data ∧ Carries data ms ∧
     Forall2 (λ m, ItemOf (ID m) (SeqNo m) (Body m)) ms new).

Lemma containerLoop_ids n rest ms tail : containerLoop n rest = inr (ms, tail) → Forall (λ m, ID m ≤ i64_max) ms.
Proof.
  revert rest ms tail. induction n as [|n IH]; intros rest ms tail; cbn [containerLoop]; [by intros [= <- <-]|].
  destruct (bool_decide (blen rest < 16)); [done|]. destruct (_ || _); [done|]. destruct (bool_decide (_ > blen _)); [done|].
  destruct (containerLoop n _) as [|[ms' tail']] eqn:Heq; [done|]. intros [= <- <-].
  constructor; [|by eapply IH]. simpl. apply wrap64_range.
Qed.
Lemma decodeContainer_ids b n g g' ms k :
  decodeMessageContainerViews b n g = Done (g', inr (ms, k)) → Forall (λ m, ID m ≤ i64_max) ms.
Proof.
  unfold decodeMessageContainerViews. destruct (bool_decide (blen b < 8)); [done|]. destruct (negb _); [done|]. destruct (_ || _); [done|].
  destruct (if bool_decide (n > 0) then _ else _) as [g1 [e|r]]; [done|].
  destruct (containerLoop _ _) as [e|[ms' tail]] eqn:Hloop; [by destruct (gateRelease r g1)|].
  destruct (negb _); [by destruct (gateRelease r g1)|]. intros [= <- <- <-]. by eapply containerLoop_ids.
Qed.

Lemma Adds_after id w w1 w2 n :
  Adds id w1 w2 n → wk_items w1 = wk_items w → wk_ackIDs w1 = wk_ackIDs w → wk_logicalMin w1 = wk_logicalMin w →
  (wk_expanded w ≤ maxDispatchExpandedBytes → wk_expanded w1 ≤ maxDispatchExpandedBytes) → Adds id w w2 n.
Proof. intros [] He1 He2 He3 He4. split; try congruence. auto. Qed.
Lemma Walked_after id w w1 r Q :
  Walked id w1 r Q → wk_items w1 = wk_items w → wk_ackIDs w1 = wk_ackIDs w → wk_logicalMin w1 = wk_logicalMin w →
  (wk_expanded w ≤ maxDispatchExpandedBytes → wk_expanded w1 ≤ maxDispatchExpandedBytes) → Walked id w r Q.
Proof.
  intros (w' & e & -> & HI & Hacc) He1 He2 He3 He4. exists w', e. split; [done|]. split; [done|].
  intros He. destruct (Hacc He) as (new & HA & HQ). exists new. split; [by eapply Adds_after|done].
Qed.
Lemma Walked_weaken id w r (Q Q' : list inboundItem → Prop) : Walked id w r Q → (∀ n, Q n → Q' n) → Walked id w r Q'.
Proof.
  intros (w' & e & -> & HI & Hacc) HQ. exists w', e. split; [done|]. split; [done|].
  intros He. destruct (Hacc He) as (new & ? & ?). eauto.
Qed.

Lemma validID_positive now msgID inside : validateInboundMessageID now msgID inside = 0 → 0 < msgID.
Proof.
  unfold validateInboundMessageID, validClientMessageIDBits. destruct (bool_decide (0 < msgID)) eqn:Hp; simpl; [|done].
  by apply bool_decide_eq_true in Hp.
Qed.

Lemma enterContainer_ok msgID seq w w1 :
  WInv w → 0 < msgID ≤ i64_max → enterContainer msgID seq w = inl w1 →
  WInv w1 ∧ wk_items w1 = wk_items w ∧ wk_ackIDs w1 = wk_ackIDs w ∧ wk_logicalMin w1 = wk_logicalMin w ∧ wk_expanded w1 = wk_expanded w.
Proof.
  intros HI Hid. unfold enterContainer. destruct (ov_seenRecord msgID (wk_overlay w)) as [r|] eqn:Hr.
  - destruct (_ || _); [done|]. by intros [= <-].
  - destruct (negb _) eqn:Hv; [done|]. intros [= <-]. split; [|done]. apply WInv_stage; [done|done|done|].
    by apply negb_false_iff, bool_decide_eq_true in Hv.
Qed.

(** The contents of a container, for an inner walk that does its job. *)
Lemma walkContents_ok (R : Message → inboundItem → Prop) (inner : Message → walk → Run (walk * option walkError)) msgID seq body w :
  WInv w → 0 < msgID ≤ i64_max →
  (∀ m w, ID m ≤ i64_max → WInv w → Walked (ID m) w (inner m w) (λ new, ∃ it, new = [it] ∧ R m it)) →
  Walked msgID w (walkContents inner msgID seq body w) (λ new, ∃ ms, Carries body ms ∧ Forall2 R ms new).
Proof.
  intros HI Hid Hin. unfold walkContents. destruct (containerMessageCount body) as [e|n] eqn:Hn; [by apply Walked_refuse|].
  destruct (bool_decide (n > maxContainerMessages)) eqn:Hmax; [by apply Walked_refuse|]. apply bool_decide_eq_false in Hmax.
  destruct (decodeContainer_budget body n (wk_gate w)) as (g & r & Hdec & HK); [apply HI|]. rewrite Hdec. simpl.
  destruct r as [e|[ms k]]; [apply Walked_refuse; by apply WInv_gate|]. destruct HK as (HM & Hk & Hz).
  assert (Hcar : Carries body ms) by (exists n, (wk_gate w), g, k; split_and!; [done|lia|done]).
  pose proof (WInv_release k g w HI HM Hk Hz) as HI2.
  pose proof (decodeContainer_ids _ _ _ _ _ _ Hdec) as Hids. rewrite Forall_forall in Hids.
  destruct ms as [|m ms].
  - eexists _, None. split; [done|]. split; [by apply WInv_logical|]. intros _. exists []. split; [|exists []; by split].
    split; simpl; [by rewrite app_nil_r|by rewrite app_nil_r|done|done].
  - eapply Walked_after; [eapply Walked_weaken; [apply (walkMessages_ok R inner); [|exact HI2|done]|]|done|done|done|done].
    + intros m' w' Hm' HI'. apply Hin; [by apply Hids|done].
    + intros new Hnew. by exists (m :: ms).
Qed.

Lemma Shape_gzip msgID seq body data g g' k inside new :
  uint32At 0 body = GZIPTypeID → decodeGZIPWithGlobalBudget body g = Done (g', inr (data, k)) →
  Shape msgID seq data inside new → Shape msgID seq body inside new.
Proof.
  intros Ht Hd. assert (HU : ∀ x, Unwraps data x → Unwraps body x) by (intros x; by eapply UnwrapsGZIP).
  intros [(it & -> & [Hk Hi] & Ho)|(Hin & x & ms & Hx & Hrest)]; [left; exists it|right; split; [done|]; exists x, ms; auto].
  split; [done|]. split; [split; [done|]; destruct Hi as [?|(x & Hx & Hrest)]; [by left|right; exists x; auto]|].
  intros Hin. destruct (Ho Hin) as [?|(x & Hx & ?)]; [by left|right; exists x; auto].
Qed.

Lemma walkInbound_ok depth now msgID seq body inside mustDup cd w :
  WInv w → msgID ≤ i64_max → (inside = false → mustDup = false) →
  Walked msgID w (walkInbound depth now msgID seq body inside mustDup cd w) (Shape msgID seq body inside).
Proof.
  revert msgID seq body inside mustDup cd w. induction depth as [|depth IH]; intros msgID seq body inside mustDup cd w HI Hmax Hmd;
    cbn [walkInbound]; [by apply Walked_refuse|].
  destruct (bool_decide (blen body < 4)); [by apply Walked_refuse|].
  destruct (bool_decide (validateInboundMessageID now msgID inside = 0)) eqn:Hcode; cbn [negb]; [|by apply Walked_refuse].
  apply bool_decide_eq_true, validID_positive in Hcode. assert (Hid : 0 < msgID ≤ i64_max) by lia.
  match goal with |- context [if mustDup || ?b then _ else _] => destruct (mustDup || b) eqn:Hshort end.
  { destruct (ov_seenRecord msgID (wk_overlay w)) as [r|] eqn:Hr; [|by apply Walked_refuse].
    destruct (bool_decide (seqNo r = seq)) eqn:Hseq; [apply bool_decide_eq_true in Hseq|by apply Walked_refuse].
    apply Walked_duplicate; [done|done|done|]. intros it Hk Hd Hc. left. exists it.
    split; [done|]. split; [by split; [|left]|]. intros ->. left. split; [done|]. rewrite Hc. rewrite (Hmd eq_refl) in Hshort. simpl in Hshort.
    by apply andb_true_iff in Hshort as [_ ?]. }
  destruct (bool_decide (uint32At 0 body = GZIPTypeID)) eqn:Hgz.
  - apply bool_decide_eq_true in Hgz.
    destruct (decodeGZIP_budget body (wk_gate w)) as (g & r & Hdec & HK & _); [apply HI|]. rewrite Hdec. simpl.
    destruct r as [e|[data k]]; [apply Walked_refuse; by apply WInv_gate|]. destruct HK as (HM & Hk & Hz).
    set (w1 := add_expanded (blen data) (add_release k g w)).
    assert (HI1 : WInv w1) by (apply WInv_expanded; by apply WInv_release).
    destruct (bool_decide (wk_expanded w + blen data > maxDispatchExpandedBytes)) eqn:Hx; [by apply Walked_refuse|].
    apply bool_decide_eq_false in Hx. eapply Walked_after; [eapply Walked_weaken; [apply IH; [exact HI1|done|done]|]|done|done|done|simpl; lia].
    intros new. by eapply Shape_gzip.
  - apply bool_decide_eq_false in Hgz. destruct (bool_decide (uint32At 0 body = MessageContainerTypeID)) eqn:Hct.
    + apply bool_decide_eq_true in Hct. destruct (inside || _) eqn:Hio; [by apply Walked_refuse|]. apply orb_false_iff in Hio as [-> _].
      destruct (negb (bool_decide (validateClientEnvelope _ _ _ _ = 0))); [by apply Walked_refuse|].
      destruct (enterContainer msgID seq w) as [w1|code] eqn:Hent; [|by apply Walked_refuse].
      destruct (enterContainer_ok _ _ _ _ HI Hid Hent) as (HI1 & Ei & Ea & El & Ex).
      eapply Walked_after; [eapply Walked_weaken; [apply (walkContents_ok (λ m, ItemOf (ID m) (SeqNo m) (Body m))); [exact HI1|exact Hid|]|]|done|done|done|by rewrite Ex].
      * intros m w' Hm HI'. eapply Walked_weaken; [by apply IH|]. intros new [(it & -> & Hi & _)|[? _]]; [by exists it|done].
      * intros new (ms & Hms). right. split; [done|]. exists body, ms. split; [by apply UnwrapsSelf|done].
    + apply bool_decide_eq_false in Hct. eapply Walked_weaken; [by apply walkMessage_ok|]. intros new (it & -> & Hk & Hc & Hi). left. exists it.
      split; [done|]. split; [|intros _; right; exists body; split; [by apply UnwrapsSelf|done]].
      split; [done|]. destruct Hi as [?|[Ht Hb]]; [by left|right]. exists body. rewrite Hb, Ht, Hc. split; [by apply UnwrapsSelf|done].
Qed.
End walk.
