(* ===== verification/InboundProps.v ===== *)
(** * What the preflight of client frames guarantees

    Over any sequence of frames on a connection: a message runs at most once
    within the 400 most recent ones, the table answers state requests exactly,
    an accepted frame becomes one item per message, and nothing of the frame
    budget is kept. *)

From S2P Require Import Prelude Wire FrameBudget InboundViews InboundViewProps InboundState InboundStateInv InboundPreflight InboundWalk.
Import Views Client Preflight.

Section props.
Context `{FrameIDs} `{ServiceIDs} `{MessageIDs} `{ServiceCodec} `{Inflate} `{RangeOrder}.

(** ** One frame *)

Lemma zsum_nonneg P ks : Forall (λ k, 0 ≤ k ∧ P k) ks → 0 ≤ zsum ks.
Proof. induction 1 as [|k ks [? _] _ IH]; unfold zsum in *; simpl; lia. Qed.

Lemma releaseList_ok g0 ks g d :
  GateOk g0 → Moved g0 g d → Forall (λ k, 0 ≤ k ∧ (g0 = None → k = 0)) ks → zsum ks ≤ d → (g0 = None → d = 0) →
  ∃ g', releaseList ks g = Done g' ∧ Moved g0 g' (d - zsum ks).
Proof.
  intros HG. revert g d. induction ks as [|k ks IH]; intros g d HM Hall Hle Hz; cbn [releaseList].
  { exists g. unfold zsum. simpl. by rewrite Z.sub_0_r. }
  apply Forall_cons in Hall as [[Hk Hkz] Hall]. pose proof (zsum_nonneg _ _ Hall) as Hs. unfold zsum in Hle. simpl in Hle. fold (zsum ks) in Hle.
  assert (Hnone : g = None → g0 = None).
  { intros ->. destruct g0; [|done]. destruct (mv_kind _ _ _ HM) as [_ [? ?]]; [by eexists|done]. }
  destruct (gateRelease_ok k g (mv_ok _ _ _ HM) Hk) as (g1 & -> & HM1).
  - intros _. rewrite (mv_used _ _ _ HM). destruct g0 as [[m u]|]; simpl in *; [lia|]. specialize (Hz eq_refl). lia.
  - auto.
  - simpl. destruct (IH g1 (d - k)) as (g' & -> & HM'); [eapply Moved_trans; [exact HM|exact HM1|lia]|done|lia| |].
    + intros Hg. specialize (Hz Hg). specialize (Hkz Hg). lia.
    + exists g'. split; [done|]. change (zsum (k :: ks)) with (k + zsum ks). by rewrite Z.sub_add_distr.
Qed.

Lemma closePlan_ok g0 ks g :
  GateOk g0 → Moved g0 g (zsum ks) → Forall (λ k, 0 ≤ k ∧ (g0 = None → k = 0)) ks →
  ∃ g', closePlan ks g = Done g' ∧ Moved g0 g' 0.
Proof.
  intros HG HM Hall. unfold closePlan. destruct (releaseList_ok g0 (reverse ks) g (zsum ks)) as (g' & -> & HM'); try done.
  - by apply Forall_reverse.
  - by rewrite zsum_reverse.
  - intros Hz. clear HM. induction Hall as [|k ks [_ Hk] _ IH]; unfold zsum in *; simpl; [done|]. rewrite Hk, IH by done. done.
  - exists g'. split; [done|]. by rewrite zsum_reverse, Z.sub_diag in HM'.
Qed.

(** What an accepted frame hands to the rest of the server. *)
Record PlanOk (g g' : gate) (cs : connState) (history : list Z) (msgID seq : Z) (body : list Z) (p : inboundPlan) : Prop := {
  pl_gate : Moved g g' (zsum (p_releases p));
  pl_charges : Forall (λ k, 0 ≤ k ∧ (g = None → k = 0)) (p_releases p);
  pl_overlay : ∃ o, OverlayInv o history ∧ base o = cs ∧ staged o = p_staged p ∧
    ∀ it, it ∈ p_items p → isDup it = true → ∃ r, Tracked o (it_msgID it) r ∧ seqNo r = it_seqNo it ∧ content r = it_content it;
  pl_fresh : NoDup (freshIDs (p_items p));
  pl_staged id : id ∈ freshIDs (p_items p) → id ∈ map sg_msgID (p_staged p);
  pl_shape : Shape msgID seq body false (p_items p);
  pl_acks : p_ackIDs p = contentIDs (p_items p);
  pl_min : p_logicalMin p = foldl lmin 0 (match p_items p with [] => [msgID] | _ => map it_msgID (p_items p) end);
  pl_expanded : p_gzipExpandedBytes p ≤ maxDispatchExpandedBytes;
  pl_destroy it : it ∈ p_items p → it_kind it = ItemDestroyAuthKey → length (p_items p) = 1%nat;
}.

Lemma preflightInbound_ok now cs history msgID seq body g :
  TableInv cs history → GateOk g → msgID ≤ i64_max →
  ∃ g' r, preflightInbound now cs msgID seq body g = Done (g', r) ∧
    match r with inl _ => Moved g g' 0 | inr p => PlanOk g g' cs history msgID seq body p end.
Proof.
  intros HT HG Hmax. unfold preflightInbound. set (w0 := mkWalk [] [] 0 [] (newConnStateOverlay cs) 0 g).
  assert (HI0 : WalkInv g cs history w0).
  { split; simpl; [by apply overlay_new|done|by apply Moved_refl|constructor|constructor|set_solver|set_solver]. }
  destruct (walkInbound_ok g cs history HG (S maxDispatchDepth) now msgID seq body false false 0 w0 HI0 Hmax (λ _, eq_refl)) as (w & e & -> & HI & Hacc).
  simpl. destruct (closePlan_ok g (wk_releases w) (wk_gate w) HG (wv_gate _ _ _ _ HI) (wv_charges _ _ _ _ HI)) as (g1 & Hclose & HM1).
  assert (Hfail : ∀ e, ∃ g' r, (g ← closePlan (wk_releases w) (wk_gate w); Done (g, @inl walkError inboundPlan e)) = Done (g', r) ∧
    match r with inl _ => Moved g g' 0 | inr p => PlanOk g g' cs history msgID seq body p end).
  { intros e'. rewrite Hclose. simpl. by eexists _, _. }
  destruct e as [e|]; [apply Hfail|]. destruct (bool_decide _); [apply Hfail|]. destruct (_ && _) eqn:Hex; [apply Hfail|].
  destruct (Hacc eq_refl) as (new & [HA1 HA2 HA3 HA4] & HS). simpl in *.
  eexists _, _. split; [done|]. simpl. destruct HI. split; simpl; try done.
  - exists (wk_overlay w). split; [done|]. split; [done|]. split; [done|]. done.
  - by rewrite HA1.
  - by rewrite HA2, HA1.
  - rewrite HA3, HA1. done.
  - apply HA4. by vm_compute.
  - intros it Hin Hk. apply andb_false_iff in Hex as [Hex|Hex%negb_false_iff%bool_decide_eq_true]; [|done].
    apply not_true_iff_false in Hex. destruct Hex. apply existsb_exists. exists it. by rewrite <-list_elem_of_In, bool_decide_eq_true.
Qed.

(** ** Accepting a frame *)

Lemma TableInv_floor cs history f :
  TableInv cs history →
  TableInv (mkConnState f (seen cs) (order cs) (orderHead cs) (minSeen cs) (maxSeen cs) (maxContentMsgID cs) (maxContentSeqNo cs)) history.
Proof. intros []. by split. Qed.

Lemma handleFrame_ok f cs history g :
  TableInv cs history → GateOk g → fr_msgID f ≤ i64_max →
  ∃ cs' g' p, handleFrame f cs g = Done (cs', g', p) ∧ Moved g g' 0 ∧
    match p with
    | None => cs' = cs
    | Some plan => TableInv cs' (history ++ map sg_msgID (p_staged plan)) ∧
        createdFloor cs' = lmin (createdFloor cs) (p_logicalMin plan) ∧
        (∀ id r, seen cs' !! id = Some r → seen cs !! id = Some r ∨ (id, r) ∈ map stagedPair (p_staged plan)) ∧
        ∃ g1, PlanOk g g1 cs history (fr_msgID f) (fr_seqNo f) (fr_body f) plan
    end.
Proof.
  intros HT HG Hmax. unfold handleFrame.
  destruct (preflightInbound_ok (fr_now f) cs history (fr_msgID f) (fr_seqNo f) (fr_body f) g HT HG Hmax) as (g1 & r & -> & Hr). simpl.
  destruct r as [e|plan]; [by eexists _, _, _|].
  destruct (closePlan_ok g (p_releases plan) g1 HG (pl_gate _ _ _ _ _ _ _ _ Hr) (pl_charges _ _ _ _ _ _ _ _ Hr)) as (g2 & Hclose & HM).
  destruct (fr_proceed f); [|rewrite Hclose; simpl; by eexists _, _, _].
  set (cs0 := mkConnState _ _ _ _ _ _ _ _). destruct (pl_overlay _ _ _ _ _ _ _ _ Hr) as (o & HO & Hb & Hst & _).
  assert (HO' : OverlayInv (mkOverlay cs0 (staged o) (ov_maxContentMsgID o) (ov_maxContentSeqNo o)) history).
  { destruct HO as [HO1 HO2 HO3 HO4 HO5]. rewrite Hb in HO1. split; simpl; [by apply TableInv_floor| |done| |].
    - intros m Hm. rewrite <-Hb. by apply HO2.
    - intros id x Hx. apply HO4. destruct Hx; [by left|right; by rewrite Hb].
    - intros i1 x1 i2 x2 Hx1 Hx2. apply HO5; [destruct Hx1|destruct Hx2]; (by left) || (right; by rewrite Hb). }
  destruct (commit_overlay _ _ HO') as (cs' & Hcom & HT' & Hfl & Hsn). simpl in Hcom, HT', Hfl. rewrite Hst in Hcom, HT'.
  rewrite Hcom. simpl. rewrite Hclose. simpl. eexists _, _, _. split; [done|]. split; [done|]. split; [done|]. split; [done|].
  split; [|by exists g1]. intros id x Hx. destruct (Hsn _ _ Hx) as [Hin|Hin]; [right; by rewrite <-Hst|by left].
Qed.

(** The ids a list of plans entered into the table, in order. *)
Definition acceptedIDs (ps : list inboundPlan) : list Z := concat (map (λ p, map sg_msgID (p_staged p)) ps).

(** Every plan of a run was accepted against the ids before it. *)
Inductive Planned : list Z → list inboundPlan → Prop :=
  | PlannedNil h : Planned h []
  | PlannedCons h p ps cs g g' msgID seq body :
      TableInv cs h → PlanOk g g' cs h msgID seq body p → Planned (h ++ map sg_msgID (p_staged p)) ps → Planned h (p :: ps).

Lemma handleFrames_ok fs cs history g :
  TableInv cs history → GateOk g → Forall (λ f, fr_msgID f ≤ i64_max) fs →
  ∃ cs' g' ps, handleFrames fs cs g = Done (cs', g', ps) ∧ Moved g g' 0 ∧ TableInv cs' (history ++ acceptedIDs ps) ∧ Planned history ps ∧
    ∀ id r, seen cs' !! id = Some r → seen cs !! id = Some r ∨ ∃ p m, p ∈ ps ∧ m ∈ p_staged p ∧ id = sg_msgID m ∧ r = stagedRecord m.
Proof.
  revert cs history g. induction fs as [|f fs IH]; intros cs history g HT HG Hfs; cbn [handleFrames].
  { exists cs, g, []. split; [done|]. split; [by apply Moved_refl|]. unfold acceptedIDs. simpl. rewrite app_nil_r. split; [done|]. split; [constructor|auto]. }
  apply Forall_cons in Hfs as [Hf Hfs].
  destruct (handleFrame_ok f cs history g HT HG Hf) as (cs1 & g1 & p & -> & HM1 & Hp). simpl.
  pose proof (mv_ok _ _ _ HM1) as HG1. destruct p as [plan|].
  - destruct Hp as (HT1 & _ & Hs1 & g2 & HP). destruct (IH cs1 _ g1 HT1 HG1 Hfs) as (cs' & g' & ps & -> & HM & HT' & HPl & Hs). simpl.
    eexists _, _, _. split; [done|]. split; [by eapply Moved_trans; [exact HM1|exact HM|]|].
    split; [unfold acceptedIDs; simpl; rewrite app_assoc; exact HT'|]. split; [by econstructor|].
    intros id r Hr. destruct (Hs _ _ Hr) as [Hr1|(p & m & Hp & ?)]; [|right; exists p, m; set_solver].
    destruct (Hs1 _ _ Hr1) as [?|(m & [= -> ->] & Hm)%list_elem_of_fmap]; [by left|right; exists plan, m; set_solver].
  - subst cs1. destruct (IH cs history g1 HT HG1 Hfs) as (cs' & g' & ps & -> & HM & HT' & HPl). simpl.
    eexists _, _, _. split; [done|]. split; [by eapply Moved_trans; [exact HM1|exact HM|]|]. done.
Qed.

(** ** Replays *)

(** Equal ids of a list of accepted messages are more than a table apart. *)
Definition Spaced (l : list Z) : Prop :=
  ∀ i j id, (i < j)%nat → l !! i = Some id → l !! j = Some id → (i + maxTrackedClientMsgIDs < j)%nat.

Lemma table_window cs history id : TableInv cs history → is_Some (seen cs !! id) ↔ id ∈ lastn maxTrackedClientMsgIDs history.
Proof. intros HT. by rewrite <-(tb_history _ _ HT), elem_of_ring, <-(ri_set _ _ _ _ (tb_ring _ _ HT)), elem_of_dom. Qed.

Lemma spaced_app o history : OverlayInv o history → Spaced history → Spaced (history ++ map sg_msgID (staged o)).
Proof.
  intros HO HS i j id Hij Hi Hj. apply lookup_app_Some in Hj as [Hj|[Hlen Hj]].
  { apply (HS i j id Hij); [|done]. rewrite lookup_app_l in Hi; [done|]. apply lookup_lt_Some in Hj. lia. }
  apply lookup_app_Some in Hi as [Hi|[Hlen' Hi]].
  2:{ pose proof (NoDup_lookup _ _ _ _ (ov_nodup _ _ HO) Hi Hj). lia. }
  destruct (decide (i + maxTrackedClientMsgIDs < j)%nat) as [|Hclose]; [done|exfalso].
  apply list_elem_of_lookup_2, list_elem_of_fmap in Hj as (m & -> & Hm). destruct (ov_new _ _ HO _ Hm) as [_ Hn].
  assert (Hin : sg_msgID m ∈ lastn maxTrackedClientMsgIDs history).
  { unfold lastn. apply (list_elem_of_lookup_2 _ (i - (length history - maxTrackedClientMsgIDs))). rewrite lookup_drop.
    rewrite <-Hi. f_equal. apply lookup_lt_Some in Hi. lia. }
  apply (table_window _ _ _ (ov_table _ _ HO)) in Hin as [r Hr]. congruence.
Qed.

Lemma planned_spaced history ps : Planned history ps → Spaced history → Spaced (history ++ acceptedIDs ps).
Proof.
  induction 1 as [h|h p ps cs g g' msgID seq body HT HP _ IH]; intros HS; unfold acceptedIDs in *; simpl; [by rewrite app_nil_r|].
  rewrite app_assoc. apply IH. destruct (pl_overlay _ _ _ _ _ _ _ _ HP) as (o & HO & _ & <- & _). by apply spaced_app.
Qed.

Lemma planned_fresh history ps p :
  Planned history ps → p ∈ ps → NoDup (freshIDs (p_items p)) ∧ freshIDs (p_items p) ⊆ map sg_msgID (p_staged p).
Proof.
  induction 1 as [h|h p' ps cs g g' msgID seq body HT HP _ IH]; intros Hin; [by apply elem_of_nil in Hin|].
  apply elem_of_cons in Hin as [->|Hin]; [|auto]. split; [apply HP|]. intros id. apply HP.
Qed.

(** C11: no replay within the table: over any frames of a session, a message
    that runs was entered into the table by its own frame and runs once in it,
    and two entries of the same id have at least 400 other accepted messages
    between them. *)
Theorem inbound_replay_window fs g :
  GateOk g → Forall (λ f, fr_msgID f ≤ i64_max) fs →
  ∃ cs g' ps, handleFrames fs newConnState g = Done (cs, g', ps) ∧
    (∀ p, p ∈ ps → NoDup (freshIDs (p_items p)) ∧ freshIDs (p_items p) ⊆ map sg_msgID (p_staged p)) ∧
    ∀ i j id, (i < j)%nat → acceptedIDs ps !! i = Some id → acceptedIDs ps !! j = Some id → (i + 400 < j)%nat.
Proof.
  intros HG Hfs. destruct (handleFrames_ok fs newConnState [] g table_new HG Hfs) as (cs & g' & ps & Hrun & _ & _ & HP & _).
  exists cs, g', ps. split; [done|]. split; [intros p; by apply (planned_fresh [])|].
  apply (planned_spaced [] ps HP). intros i j id _ Hi. by rewrite lookup_nil in Hi.
Qed.

(** ** The table *)

(** What [msgs_state_req] should answer, from the accepted messages alone. *)
Definition referenceState (window : list Z) (id : Z) : Z :=
  if decide (Forall (λ w, id < w) window) then msgStateUnknown
  else if decide (Forall (λ w, w < id) window) then msgStateNotReceivedHigh
  else if decide (id ∈ window) then msgStateReceived
  else msgStateNotReceived.

Lemma stateInfo_reference cs history ids :
  TableInv cs history → stateInfo ids cs = map (referenceState (lastn maxTrackedClientMsgIDs history)) ids.
Proof.
  intros HT. pose proof (table_window cs history) as Hw. unfold stateInfo.
  case_bool_decide as Hz; apply map_ext; intros id.
  - apply map_size_empty_inv in Hz. unfold referenceState. rewrite decide_True; [done|].
    apply Forall_forall. intros w [r Hr]%(Hw w HT). by rewrite Hz, lookup_empty in Hr.
  - destruct (tb_range _ _ HT) as [Hall [[Hlo Hhi]|(He & _)]]; [|by rewrite He, map_size_empty in Hz].
    unfold referenceState. apply (Hw _ HT) in Hlo, Hhi. rewrite bool_decide_decide.
    assert (Hlt : id < minSeen cs ↔ Forall (λ w, id < w) (lastn maxTrackedClientMsgIDs history)).
    { rewrite Forall_forall. split; [intros ? w Hin%(Hw w HT); apply Hall in Hin; lia|auto]. }
    assert (Hgt : maxSeen cs < id ↔ Forall (λ w, w < id) (lastn maxTrackedClientMsgIDs history)).
    { rewrite Forall_forall. split; [intros ? w Hin%(Hw w HT); apply Hall in Hin; lia|auto]. }
    rewrite (decide_ext _ _ _ _ Hlt). destruct (decide (Forall _ _)); [done|]. rewrite bool_decide_decide, (decide_ext _ _ _ _ Hgt).
    destruct (decide (Forall _ _)); [done|]. destruct (seen cs !! id) as [r|] eqn:Hr.
    + rewrite decide_True by (apply (Hw _ HT); by eexists). by apply (tb_received _ _ HT id).
    + rewrite decide_False; [done|]. intros [r ?]%(Hw _ HT). congruence.
Qed.

(** The fast path and the scan agree with the definition of an inversion. *)
Lemma validateSeq_reference cs history msgID seq : TableInv cs history → validateSeq msgID seq true cs = 0 ↔ NoConflict cs msgID seq.
Proof.
  intros HT. unfold validateSeq, NoConflict. simpl. destruct (_ && _) eqn:Hfast.
  - apply andb_true_iff in Hfast as [Hf1%bool_decide_eq_true Hf2%bool_decide_eq_true]. split; [|done].
    intros _ id r Hr [Hc Hor]. simpl in *. destruct (tb_high _ _ HT _ _ Hr Hc). lia.
  - rewrite scan_zero. split; [intros Hall id r Hr; by apply Hall, elem_of_visit|].
    intros Hall [id r] Hin%elem_of_visit. by apply Hall.
Qed.

(** C12: after any frames of a session the bounded table is exactly the last
    400 accepted messages with the sequence numbers their frames carried; ids
    and sequence numbers of its content messages rise together; the sequence
    check accepts exactly the messages that form no inversion with one of them,
    in whatever order the map is visited; and [msgs_state_req] is answered as
    from those messages alone. *)
Theorem inbound_table_exact fs g :
  GateOk g → Forall (λ f, fr_msgID f ≤ i64_max) fs →
  ∃ cs g' ps, handleFrames fs newConnState g = Done (cs, g', ps) ∧
    let window := lastn 400 (acceptedIDs ps) in
    (∀ id, is_Some (seen cs !! id) ↔ id ∈ window) ∧
    (∀ id r, seen cs !! id = Some r → ∃ p m, p ∈ ps ∧ m ∈ p_staged p ∧ id = sg_msgID m ∧ r = stagedRecord m) ∧
    Ordered (λ id r, seen cs !! id = Some r) ∧
    (∀ msgID seq, validateSeq msgID seq true cs = 0 ↔ NoConflict cs msgID seq) ∧
    ∀ ids, stateInfo ids cs = map (referenceState window) ids.
Proof.
  intros HG Hfs. destruct (handleFrames_ok fs newConnState [] g table_new HG Hfs) as (cs & g' & ps & Hrun & _ & HT & _ & Hs).
  exists cs, g', ps. split; [done|]. simpl in *. split; [intros id; by apply table_window|]. split.
  { intros id r Hr. destruct (Hs _ _ Hr) as [He|?]; [|done]. by rewrite lookup_empty in He. }
  split; [intros id1 r1 id2 r2; apply (tb_ordered _ _ HT)|].
  split; [intros msgID seq; by eapply validateSeq_reference|]. intros ids. by apply stateInfo_reference.
Qed.

(** ** Plans *)

Lemma containerLoop_length n rest ms tail : containerLoop n rest = inr (ms, tail) → length ms = n.
Proof.
  revert rest ms tail. induction n as [|n IH]; intros rest ms tail; cbn [containerLoop]; [by intros [= <- <-]|].
  destruct (bool_decide (blen rest < 16)); [done|]. destruct (_ || _); [done|]. destruct (bool_decide (_ > blen _)); [done|].
  destruct (containerLoop n _) as [|[ms' tail']] eqn:Heq; [done|]. intros [= <- <-]. simpl. f_equal. by eapply IH.
Qed.
Lemma carries_bounded body ms : Carries body ms → (length ms ≤ 1024)%nat.
Proof.
  intros (n & g & g' & k & _ & Hn & Hdec). revert Hdec. unfold decodeMessageContainerViews.
  destruct (bool_decide (blen body < 8)); [done|]. destruct (negb _); [done|]. destruct (_ || _); [done|].
  destruct (if bool_decide (n > 0) then _ else _) as [g1 [e|r]]; [done|].
  destruct (containerLoop _ _) as [e|[ms' tail]] eqn:Hloop; [by destruct (gateRelease r g1)|].
  destruct (negb (bool_decide (blen tail = 0))); [by destruct (gateRelease r g1)|]. intros [= <- <- <-].
  apply containerLoop_length in Hloop. unfold maxContainerMessages in Hn. lia.
Qed.
Lemma shape_bounded msgID seq body inside new : Shape msgID seq body inside new → (length new ≤ 1024)%nat.
Proof.
  intros [(it & -> & _)|(_ & data & ms & _ & _ & Hc%carries_bounded & Hk)]; [simpl; lia|]. by rewrite <-(Forall2_length _ _ _ Hk).
Qed.


Lemma planned_expanded history ps p : Planned history ps → p ∈ ps → p_gzipExpandedBytes p ≤ maxDispatchExpandedBytes.
Proof.
  induction 1 as [h|h p' ps cs g g' msgID seq body HT HP _ IH]; intros Hin; [by apply elem_of_nil in Hin|].
  apply elem_of_cons in Hin as [->|Hin]; [apply HP|auto].
Qed.

(** C14: the preflight never panics, whatever the frames hold: every frame is
    accepted or refused with an error value; a refused frame leaves the table
    as it was; whatever of the frame budget descriptors and expansions took is
    back afterwards; and a frame expands to at most 32 MiB. *)
Theorem inbound_preflight_total fs g :
  GateOk g → Forall (λ f, fr_msgID f ≤ i64_max) fs →
  ∃ cs g' ps, handleFrames fs newConnState g = Done (cs, g', ps) ∧ gateUsed g' = gateUsed g ∧ gateMax g' = gateMax g ∧
    (∀ p, p ∈ ps → p_gzipExpandedBytes p ≤ 33554432) ∧
    ∀ f, fr_msgID f ≤ i64_max →
      ∃ g'' r, preflightInbound (fr_now f) cs (fr_msgID f) (fr_seqNo f) (fr_body f) g' = Done (g'', r) ∧
        (∀ e, r = inl e → handleFrame f cs g' = Done (cs, g'', None) ∧ gateUsed g'' = gateUsed g).
Proof.
  intros HG Hfs. destruct (handleFrames_ok fs newConnState [] g table_new HG Hfs) as (cs & g' & ps & Hrun & HM & HT & HP & _).
  exists cs, g', ps. split; [done|]. destruct HM as [HG' _ Hmax Hused]. rewrite Z.add_0_r in Hused. split; [done|]. split; [done|].
  split; [intros p; by apply (planned_expanded [])|]. intros f Hf.
  destruct (preflightInbound_ok (fr_now f) cs _ (fr_msgID f) (fr_seqNo f) (fr_body f) g' HT HG' Hf) as (g'' & r & Hpre & Hr).
  exists g'', r. split; [done|]. intros e ->. unfold handleFrame. rewrite Hpre. simpl. split; [done|].
  destruct Hr as [_ _ _ Hu]. lia.
Qed.
End props.

(** ** Runs *)

Module InboundRuns.
Import ViewRuns.
#[local] Instance serviceIDs : ServiceIDs := {|
  MsgsAckTypeID := 0x62d6b459; MsgCopyTypeID := 0xe06046b2; PingRequestTypeID := 0x7abe77ec; PingDelayDisconnectRequestTypeID := 0xf3427b8c;
  GetFutureSaltsRequestTypeID := 0xb921bd04; MsgsStateReqTypeID := 0xda69fb52; MsgResendReqTypeID := 0x7d861a08; MsgsAllInfoTypeID := 0x8cc0d131;
  DestroySessionRequestTypeID := 0xe7512126; HTTPWaitRequestTypeID := 0x9299359f; RPCDropAnswerRequestTypeID := 0x58e4a740;
  BadMsgNotificationTypeID := 0xa7eff811; BadServerSaltTypeID := 0xedab447b; MsgDetailedInfoTypeID := 0x276d3ec6;
  MsgNewDetailedInfoTypeID := 0x809db6df |}.
#[local] Instance messageIDs : MessageIDs := {|
  messageTime id := (id / 4294967296) * 1000000000; fromClient id := bool_decide (id mod 4 = 0) |}.
#[local] Instance serviceCodec : ServiceCodec := {|
  decodeValue _ b := if bool_decide (blen b < 12) then None else Some (int64At 4 b, blen b - 12) |}.
(** Stored, not compressed. *)
#[local] Instance inflate : Inflate := {| gzipReader _ := None; zlibReader b := Some (mkStream b false false) |}.
#[local] Instance rangeOrder : RangeOrder := {| visit m := map_to_list m; visit_all m := reflexivity (map_to_list m) |}.

(** A call; then a packed container that repeats it and adds a ping and another call;
    then a call whose sequence number is below that of an older message. *)
Definition at_ (n : Z) : Z := 1000 * 4294967296 + 4 * n.
Definition now : Z := 1000 * 1000000000.
Definition budget : gate := Some (Frames.mkBudget 100000000 10).
Definition call : list Z := [1; 2; 3; 4].
Definition ping : list Z := [0xec; 0x77; 0xbe; 0x7a; 9; 0; 0; 0; 0; 0; 0; 0].
Definition first : frame := mkFrameIn now (at_ 1) 1 call true.
Definition batch : frame :=
  mkFrameIn now (at_ 5) 4 (encodeGZIP (encodeContainer [mkMessage (at_ 1) 1 call; mkMessage (at_ 2) 2 ping; mkMessage (at_ 3) 3 call])) true.
Definition inverted : frame := mkFrameIn now (at_ 6) 3 call true.
Definition session : list frame := [first; batch; inverted].

Lemma session_ids : Forall (λ f, fr_msgID f ≤ i64_max) session.
Proof. repeat constructor; vm_compute; congruence. Defined.
Lemma budget_ok : GateOk budget.
Proof. simpl. int64. Defined.

Definition plansOf (r : Run (connState * gate * list inboundPlan)) : list inboundPlan :=
  match r with Done (_, _, ps) => ps | _ => [] end.
Lemma session_runs :
  acceptedIDs (plansOf (handleFrames session newConnState budget)) = [at_ 1; at_ 5; at_ 2; at_ 3] ∧
  map (λ p, freshIDs (p_items p)) (plansOf (handleFrames session newConnState budget)) = [[at_ 1]; [at_ 2; at_ 3]].
Proof. split; vm_compute; reflexivity. Qed.

Lemma inbound_replay_window_witness :
  acceptedIDs (plansOf (handleFrames session newConnState budget)) = [at_ 1; at_ 5; at_ 2; at_ 3] ∧
  ∃ cs g' ps, handleFrames session newConnState budget = Done (cs, g', ps) ∧
    (∀ p, p ∈ ps → NoDup (freshIDs (p_items p)) ∧ freshIDs (p_items p) ⊆ map sg_msgID (p_staged p)) ∧
    ∀ i j id, (i < j)%nat → acceptedIDs ps !! i = Some id → acceptedIDs ps !! j = Some id → (i + 400 < j)%nat.
Proof. split; [apply session_runs|]. apply (inbound_replay_window session budget budget_ok session_ids). Defined.

Lemma inbound_table_exact_witness :
  ∃ cs g' ps, handleFrames session newConnState budget = Done (cs, g', ps) ∧
    ∀ ids, stateInfo ids cs = map (referenceState (lastn 400 (acceptedIDs ps))) ids.
Proof.
  destruct (inbound_table_exact session budget budget_ok session_ids) as (cs & g' & ps & Hrun & _ & _ & _ & _ & Hst).
  exists cs, g', ps. split; [exact Hrun|exact Hst].
Defined.

(** The second frame is accepted in the state the first one left. *)
Definition afterFirst : connState := match handleFrame first newConnState budget with Done (cs, _, _) => cs | _ => newConnState end.
Definition afterBatch : connState := match handleFrame batch afterFirst budget with Done (cs, _, _) => cs | _ => newConnState end.
Definition batchPlan : inboundPlan :=
  match handleFrame batch afterFirst budget with Done (_, _, Some p) => p | _ => mkPlan [] [] [] 0 [] 0 end.

(** The inverted call is refused, and the budget is whole again. *)
Lemma inbound_preflight_total_witness :
  length (plansOf (handleFrames session newConnState budget)) = 2%nat ∧
  ∃ cs g' ps, handleFrames session newConnState budget = Done (cs, g', ps) ∧ gateUsed g' = 10.
Proof.
  split; [vm_compute; reflexivity|].
  destruct (inbound_preflight_total session budget budget_ok session_ids) as (cs & g' & ps & Hrun & Hu & _).
  exists cs, g', ps. split; [exact Hrun|exact Hu].
Defined.
End InboundRuns.
