(* ===== verification/SessionIndex.v ===== *)
(** * Routing indexes of the session manager

    The nested maps of [internal/mtprotoedge/session_manager.go]: a map of
    maps with no empty inner map, and the channel indexes kept in both
    directions (channel to sessions, session to channels) with their caps. *)

From S2P Require Import Prelude.

(** Go ranges over a map in an unspecified order; the order is a parameter. *)
Class Ranges := {
  range {K : Type} `{Countable K} {A : Type} : gmap K A → list (K * A);
  range_all `{Countable K} {A} (m : gmap K A) : range m ≡ₚ map_to_list m;
}.

Lemma elem_of_range `{Ranges} `{Countable K} {A} (m : gmap K A) k x : (k, x) ∈ range m ↔ m !! k = Some x.
Proof. by rewrite range_all, elem_of_map_to_list. Qed.
Lemma range_nodup `{Ranges} `{Countable K} {A} (m : gmap K A) : NoDup (range m).*1.
Proof. rewrite range_all. apply NoDup_fst_map_to_list. Qed.

Module Index.

(** ** Maps of maps *)

Section nested.
Context `{Countable K} `{Countable J} {A : Type}.
Implicit Types (idx : gmap K (gmap J A)).

Definition inner (k : K) idx : gmap J A := default ∅ (idx !! k).
Definition lookup2 (k : K) (j : J) idx : option A := inner k idx !! j.

(** [addConnIndex], [addUserIndex], [addBusinessAuthKeyIndex]. *)
Definition addIndex (k : K) (j : J) (x : A) idx : gmap K (gmap J A) := <[k := <[j := x]> (inner k idx)]> idx.
(** [removeConnIndex] and the others: an inner map that becomes empty goes. *)
Definition removeIndex (k : K) (j : J) idx : gmap K (gmap J A) :=
  match idx !! k with
  | None => idx
  | Some s =>
    let s := delete j s in
    if bool_decide (s = ∅) then delete k idx else <[k := s]> idx
  end.

Definition NoEmpty idx : Prop := ∀ k, idx !! k ≠ Some ∅.

Lemma inner_add k j x idx k' : inner k' (addIndex k j x idx) = if decide (k = k') then <[j := x]> (inner k idx) else inner k' idx.
Proof. unfold inner, addIndex. case_decide; subst; [by rewrite lookup_insert_eq|by rewrite lookup_insert_ne]. Qed.
Lemma inner_remove k j idx k' : inner k' (removeIndex k j idx) = if decide (k = k') then delete j (inner k idx) else inner k' idx.
Proof.
  unfold inner, removeIndex. destruct (idx !! k) as [s|] eqn:Hk; simpl.
  - case_bool_decide as He; (case_decide; subst; [|by rewrite ?lookup_delete_ne, ?lookup_insert_ne]).
    + by rewrite lookup_delete_eq, He.
    + by rewrite lookup_insert_eq.
  - case_decide; [|done]. subst. by rewrite Hk, delete_empty.
Qed.

Lemma lookup2_add k j x idx k' j' :
  lookup2 k' j' (addIndex k j x idx) = if decide (k = k' ∧ j = j') then Some x else lookup2 k' j' idx.
Proof.
  unfold lookup2. rewrite inner_add. destruct (decide (k = k')) as [->|Hk]; [|by rewrite decide_False by tauto].
  destruct (decide (j = j')) as [->|Hj]; [rewrite decide_True by done; by rewrite lookup_insert_eq|].
  rewrite decide_False by tauto. by rewrite lookup_insert_ne.
Qed.
Lemma lookup2_remove k j idx k' j' :
  lookup2 k' j' (removeIndex k j idx) = if decide (k = k' ∧ j = j') then None else lookup2 k' j' idx.
Proof.
  unfold lookup2. rewrite inner_remove. destruct (decide (k = k')) as [->|Hk]; [|by rewrite decide_False by tauto].
  destruct (decide (j = j')) as [->|Hj]; [rewrite decide_True by done; by rewrite lookup_delete_eq|].
  rewrite decide_False by tauto. by rewrite lookup_delete_ne.
Qed.
Lemma lookup2_empty k j : lookup2 k j ∅ = None.
Proof. done. Qed.

Lemma NoEmpty_empty : NoEmpty ∅.
Proof. intros k. by rewrite lookup_empty. Qed.
Lemma NoEmpty_add k j x idx : NoEmpty idx → NoEmpty (addIndex k j x idx).
Proof.
  intros Hn k' Hk. unfold addIndex in Hk. apply lookup_insert_Some in Hk as [[_ Hk]|[_ Hk]]; [by apply insert_non_empty in Hk|by apply (Hn k')].
Qed.
Lemma NoEmpty_remove k j idx : NoEmpty idx → NoEmpty (removeIndex k j idx).
Proof.
  intros Hn k'. unfold removeIndex. destruct (idx !! k) as [s|]; [|apply Hn]. case_bool_decide as He.
  - intros [_ Hk]%lookup_delete_Some. by apply (Hn k').
  - intros [[_ Hk]|[_ Hk]]%lookup_insert_Some; [done|by apply (Hn k')].
Qed.

(** With no empty inner map, an index has an entry for [k] exactly when some
    element is filed under it. *)
Lemma inner_None k idx : NoEmpty idx → inner k idx = ∅ → idx !! k = None.
Proof. intros Hn. unfold inner. destruct (idx !! k) as [s|] eqn:Hk; [|done]. simpl. intros ->. by destruct (Hn k). Qed.
Lemma inner_ext k idx (m : gmap J A) : (∀ j, lookup2 k j idx = m !! j) → inner k idx = m.
Proof. intros Hl. apply map_eq. intros j. apply Hl. Qed.
End nested.

(** ** Channel indexes *)

Definition sessionKey : Type := Z * Z.

Definition maxChannelIndexPerSession : Z := 8192.
Definition maxChannelSubscriptionsPerSession : Z := 10.

Record chanIndex := mkChan {
  index : gmap Z (gmap sessionKey Z);
  reverse : gmap sessionKey (gset Z);
}.
Definition noChannels : chanIndex := mkChan ∅ ∅.
Definition channelsOf (key : sessionKey) (i : chanIndex) : gset Z := default ∅ (reverse i !! key).

(** The loop of [trackChannelIndexLocked]; channels beyond the cap are dropped. *)
Fixpoint trackLoop (key : sessionKey) (userID : Z) (ids : list Z) (st : gset Z * gmap Z (gmap sessionKey Z))
    : gset Z * gmap Z (gmap sessionKey Z) :=
  match ids with
  | [] => st
  | id :: ids =>
    if bool_decide (id = 0) then trackLoop key userID ids st
    else if negb (bool_decide (id ∈ st.1)) && bool_decide (maxChannelIndexPerSession ≤ Z.of_nat (size st.1))
    then trackLoop key userID ids st
    else trackLoop key userID ids ({[ id ]} ∪ st.1, addIndex id key userID st.2)
  end.
Definition trackChannelIndexLocked (key : sessionKey) (userID : Z) (ids : list Z) (i : chanIndex) : chanIndex :=
  let '(channels, idx) := trackLoop key userID ids (channelsOf key i, index i) in
  mkChan idx (<[key := channels]> (reverse i)).

Definition clearChannelIndexLocked (key : sessionKey) (i : chanIndex) : chanIndex :=
  mkChan (foldr (λ id idx, removeIndex id key idx) (index i) (elements (channelsOf key i))) (delete key (reverse i)).

Definition removeChannelIndexLocked (key : sessionKey) (id : Z) (i : chanIndex) : chanIndex :=
  mkChan (removeIndex id key (index i))
    (match reverse i !! key with
     | None => reverse i
     | Some s => let s := s ∖ {[ id ]} in if bool_decide (s = ∅) then delete key (reverse i) else <[key := s]> (reverse i)
     end).

(** ** Passive subscriptions, which expire *)

Record channelSubscription := mkSub { sub_userID : Z; sub_expiresAt : Z }.
Record subIndex := mkSubs {
  bySubscribedChannel : gmap Z (gmap sessionKey channelSubscription);
  bySessionSubscriptions : gmap sessionKey (gmap Z Z);
}.
Definition noSubs : subIndex := mkSubs ∅ ∅.
Definition subsOf (key : sessionKey) (i : subIndex) : gmap Z Z := inner key (bySessionSubscriptions i).

Definition removeChannelSubscriptionLocked (key : sessionKey) (id : Z) (i : subIndex) : subIndex :=
  mkSubs (removeIndex id key (bySubscribedChannel i)) (removeIndex key id (bySessionSubscriptions i)).
Definition clearChannelSubscriptionsLocked (key : sessionKey) (i : subIndex) : subIndex :=
  mkSubs (foldr (λ id idx, removeIndex id key idx) (bySubscribedChannel i) (map fst (map_to_list (subsOf key i))))
    (delete key (bySessionSubscriptions i)).
Definition pruneSessionSubscriptionsLocked (key : sessionKey) (now : Z) (i : subIndex) : subIndex :=
  foldr (λ p i, if bool_decide (p.2 ≤ now) then removeChannelSubscriptionLocked key p.1 i else i) i (map_to_list (subsOf key i)).
(** The write of [RefreshChannelSubscription], after its pruning. *)
Definition subscribe (key : sessionKey) (userID id expiresAt : Z) (i : subIndex) : subIndex :=
  if bool_decide (subsOf key i !! id = None) && bool_decide (maxChannelSubscriptionsPerSession ≤ Z.of_nat (size (subsOf key i)))
  then i
  else mkSubs (addIndex id key (mkSub userID expiresAt) (bySubscribedChannel i)) (addIndex key id expiresAt (bySessionSubscriptions i)).

(** ** Invariants *)

Lemma lookup2_remove_all {A} (ids : list Z) (key : sessionKey) (idx : gmap Z (gmap sessionKey A)) (id : Z) (k : sessionKey) :
  lookup2 id k (foldr (λ id idx, removeIndex id key idx) idx ids) = if decide (k = key ∧ id ∈ ids) then None else lookup2 id k idx.
Proof.
  induction ids as [|i ids IH]; simpl; [rewrite decide_False; [done|set_solver]|].
  rewrite lookup2_remove, IH. repeat case_decide; try done; set_solver.
Qed.
Lemma NoEmpty_remove_all {A} (ids : list Z) (key : sessionKey) (idx : gmap Z (gmap sessionKey A)) :
  NoEmpty idx → NoEmpty (foldr (λ id idx, removeIndex id key idx) idx ids).
Proof. intros Hn. induction ids as [|i ids IH]; simpl; [done|]. by apply NoEmpty_remove. Qed.

(** Both directions agree, the cap holds, and every entry is one of [P]. *)
Record ChanInv (P : sessionKey → Z → Prop) (i : chanIndex) : Prop := {
  ch_noempty : NoEmpty (index i);
  ch_both id k : is_Some (lookup2 id k (index i)) ↔ id ∈ channelsOf k i;
  ch_cap k : Z.of_nat (size (channelsOf k i)) ≤ maxChannelIndexPerSession;
  ch_live id k u : lookup2 id k (index i) = Some u → P k u;
}.

Lemma ChanInv_mono (P Q : sessionKey → Z → Prop) i : (∀ k u, P k u → Q k u) → ChanInv P i → ChanInv Q i.
Proof. intros HPQ []. split; eauto. Qed.
Lemma ChanInv_empty P : ChanInv P noChannels.
Proof.
  split; [apply NoEmpty_empty| | |].
  - intros id k. unfold channelsOf. simpl. rewrite lookup2_empty, lookup_empty. split; [by intros []|set_solver].
  - intros k. change (channelsOf k noChannels) with (∅ : gset Z). rewrite size_empty. unfold maxChannelIndexPerSession. lia.
  - intros id k u Hl. by change (None = Some u) in Hl.
Qed.

Lemma channelsOf_insert key s i idx k :
  channelsOf k (mkChan idx (<[key := s]> (reverse i))) = if decide (k = key) then s else channelsOf k i.
Proof. unfold channelsOf. simpl. case_decide; [subst; by rewrite lookup_insert_eq|by rewrite lookup_insert_ne]. Qed.
Lemma channelsOf_delete key i idx k :
  channelsOf k (mkChan idx (delete key (reverse i))) = if decide (k = key) then ∅ else channelsOf k i.
Proof. unfold channelsOf. simpl. case_decide; [subst; by rewrite lookup_delete_eq|by rewrite lookup_delete_ne]. Qed.

Lemma clear_lookup P key i id k :
  ChanInv P i → lookup2 id k (index (clearChannelIndexLocked key i)) = if decide (k = key) then None else lookup2 id k (index i).
Proof.
  intros HI. simpl. rewrite lookup2_remove_all. destruct (decide (k = key)) as [->|Hk]; [|by rewrite decide_False by tauto].
  case_decide as Hin; [done|]. rewrite elem_of_elements in Hin.
  apply eq_None_not_Some. intros Hs%(ch_both _ _ HI). tauto.
Qed.
Lemma clear_ok (P : sessionKey → Z → Prop) key i : ChanInv P i → ChanInv (λ k u, k ≠ key ∧ P k u) (clearChannelIndexLocked key i).
Proof.
  intros HI. split.
  - apply NoEmpty_remove_all, HI.
  - intros id k. rewrite (clear_lookup P) by done. unfold clearChannelIndexLocked. rewrite channelsOf_delete.
    case_decide; [split; [by intros []|set_solver]|apply HI].
  - intros k. unfold clearChannelIndexLocked. rewrite channelsOf_delete. case_decide; [rewrite size_empty; by vm_compute|apply HI].
  - intros id k u. rewrite (clear_lookup P) by done. case_decide; [done|]. intros Hl. split; [done|]. by apply (ch_live _ _ HI id).
Qed.

Lemma trackLoop_ok (P : sessionKey → Z → Prop) key userID ids cs idx :
  P key userID → NoEmpty idx → Z.of_nat (size cs) ≤ maxChannelIndexPerSession →
  (∀ id, is_Some (lookup2 id key idx) ↔ id ∈ cs) → (∀ id k u, lookup2 id k idx = Some u → P k u) →
  ∃ cs' idx', trackLoop key userID ids (cs, idx) = (cs', idx') ∧ NoEmpty idx' ∧ Z.of_nat (size cs') ≤ maxChannelIndexPerSession ∧
    (∀ id, is_Some (lookup2 id key idx') ↔ id ∈ cs') ∧ (∀ id k u, lookup2 id k idx' = Some u → P k u) ∧
    (∀ id k, k ≠ key → lookup2 id k idx' = lookup2 id k idx) ∧ cs ⊆ cs' ∧ cs' ⊆ cs ∪ list_to_set ids ∧
    (Z.of_nat (size cs + length ids) ≤ maxChannelIndexPerSession → ∀ id, id ∈ ids → id ≠ 0 → id ∈ cs').
Proof.
  intros HP. revert cs idx. induction ids as [|i ids IH]; intros cs idx Hne Hcap Hboth Hlive; cbn [trackLoop].
  { exists cs, idx. split; [done|]. do 4 (split; [done|]). split; [done|]. split; [done|]. split; [set_solver|]. intros _ id Hin. by apply elem_of_nil in Hin. }
  destruct (bool_decide (i = 0)) eqn:H0.
  { apply bool_decide_eq_true in H0. destruct (IH cs idx Hne Hcap Hboth Hlive) as (cs' & idx' & Heq & H1 & H2 & H3 & H4 & H5 & H6 & H7 & H8).
    exists cs', idx'. do 7 (split; [done|]). split; [simpl; clear -H7; set_solver|]. simpl. intros Hle id [->|Hin]%elem_of_cons Hz; [done|].
    apply H8; [lia|done|done]. }
  apply bool_decide_eq_false in H0. cbn [fst snd].
  destruct (negb (bool_decide (i ∈ cs)) && bool_decide (maxChannelIndexPerSession ≤ Z.of_nat (size cs))) eqn:Hfull.
  { apply andb_true_iff in Hfull as [_ Hfull%bool_decide_eq_true].
    destruct (IH cs idx Hne Hcap Hboth Hlive) as (cs' & idx' & Heq & H1 & H2 & H3 & H4 & H5 & H6 & H7 & H8).
    exists cs', idx'. do 7 (split; [done|]). split; [simpl; clear -H7; set_solver|]. simpl. intros Hle. lia. }
  assert (Hsize : Z.of_nat (size ({[ i ]} ∪ cs)) ≤ maxChannelIndexPerSession ∧ (size ({[ i ]} ∪ cs) ≤ 1 + size cs)%nat).
  { destruct (decide (i ∈ cs)) as [Hin|Hin].
    - replace ({[ i ]} ∪ cs) with cs by (clear -Hin; set_solver). lia.
    - rewrite size_union, size_singleton by (clear -Hin; set_solver). apply andb_false_iff in Hfull as [Hf|Hf%bool_decide_eq_false]; [|lia].
      apply negb_false_iff, bool_decide_eq_true in Hf. done. }
  destruct (IH ({[ i ]} ∪ cs) (addIndex i key userID idx)) as (cs' & idx' & Heq & H1 & H2 & H3 & H4 & H5 & H6 & H7 & H8).
  - by apply NoEmpty_add.
  - lia.
  - intros id. rewrite lookup2_add. destruct (decide (i = id ∧ key = key)) as [Hd|Hd]; [destruct Hd as [<- _]; split; [intros _; clear; set_solver|by eexists]|].
    rewrite Hboth, elem_of_union, elem_of_singleton. split; [tauto|]. intros [->|?]; [tauto|done].
  - intros id k u. rewrite lookup2_add. destruct (decide (i = id ∧ key = k)) as [Hd|Hd]; [|apply Hlive]. destruct Hd as [_ <-]. by intros [= <-].
  - exists cs', idx'. do 5 (split; [done|]). split; [|split; [clear -H6; set_solver|split; [simpl; clear -H7; set_solver|]]].
    + intros id k Hk. rewrite H5, lookup2_add by done. rewrite decide_False by naive_solver. done.
    + simpl. intros Hle id [->|Hin]%elem_of_cons Hz; [clear -H6; set_solver|]. apply H8; [lia|done|done].
Qed.

(** Filing channels under a live session keeps the index, adds only channels
    that were asked for, and adds all of them below the cap. *)
Lemma track_ok (P : sessionKey → Z → Prop) key userID ids i :
  ChanInv P i → P key userID →
  ChanInv P (trackChannelIndexLocked key userID ids i) ∧
  (∀ k, k ≠ key → channelsOf k (trackChannelIndexLocked key userID ids i) = channelsOf k i) ∧
  channelsOf key i ⊆ channelsOf key (trackChannelIndexLocked key userID ids i) ⊆ channelsOf key i ∪ list_to_set ids ∧
  (Z.of_nat (size (channelsOf key i) + length ids) ≤ maxChannelIndexPerSession →
     ∀ id, id ∈ ids → id ≠ 0 → id ∈ channelsOf key (trackChannelIndexLocked key userID ids i)).
Proof.
  intros HI HP. unfold trackChannelIndexLocked.
  destruct (trackLoop_ok P key userID ids (channelsOf key i) (index i) HP) as (cs & idx & -> & H1 & H2 & H3 & H4 & H5 & H6 & H7 & H8);
    [apply HI|apply HI|intros; apply HI|apply HI|].
  split; [|split; [|split]].
  - split; simpl; [done| | |done].
    + intros id k. rewrite channelsOf_insert. case_decide; [by subst|]. rewrite H5 by done. apply HI.
    + intros k. rewrite channelsOf_insert. case_decide; [done|apply HI].
  - intros k Hk. rewrite channelsOf_insert. by rewrite decide_False.
  - rewrite channelsOf_insert, decide_True by done. done.
  - rewrite channelsOf_insert, decide_True by done. done.
Qed.

Lemma remove_ok (P : sessionKey → Z → Prop) key id i :
  ChanInv P i →
  ChanInv P (removeChannelIndexLocked key id i) ∧
  ∀ k, channelsOf k (removeChannelIndexLocked key id i) = if decide (k = key) then channelsOf k i ∖ {[ id ]} else channelsOf k i.
Proof.
  intros HI. assert (Hch : ∀ k, channelsOf k (removeChannelIndexLocked key id i) = if decide (k = key) then channelsOf k i ∖ {[ id ]} else channelsOf k i).
  { intros k. unfold removeChannelIndexLocked. destruct (reverse i !! key) as [s|] eqn:Hs.
    - assert (channelsOf key i = s) as Hc by (unfold channelsOf; by rewrite Hs). cbv zeta. case_bool_decide as He.
      + rewrite channelsOf_delete. case_decide; [subst k; by rewrite Hc|done].
      + rewrite channelsOf_insert. case_decide; [subst k; by rewrite Hc|done].
    - case_decide; [|done]. subst. unfold channelsOf. simpl. rewrite Hs. simpl. set_solver. }
  split; [|done]. split.
  - apply NoEmpty_remove, HI.
  - intros id' k. rewrite Hch. simpl. rewrite lookup2_remove. destruct (decide (k = key)) as [->|Hk].
    + rewrite elem_of_difference, elem_of_singleton, <-(ch_both _ _ HI). case_decide as Hd; [|naive_solver].
      destruct Hd as [-> _]. split; [by intros []|tauto].
    + rewrite decide_False by naive_solver. apply HI.
  - intros k. rewrite Hch. pose proof (ch_cap _ _ HI k). case_decide; [|done].
    enough (size (channelsOf k i ∖ {[ id ]}) ≤ size (channelsOf k i))%nat by lia. apply subseteq_size. set_solver.
  - intros id' k u. simpl. rewrite lookup2_remove. case_decide; [done|]. apply HI.
Qed.

Record SubInv (P : sessionKey → Z → Prop) (i : subIndex) : Prop := {
  sb_noempty : NoEmpty (bySubscribedChannel i);
  sb_noempty' : NoEmpty (bySessionSubscriptions i);
  sb_both id k : sub_expiresAt <$> lookup2 id k (bySubscribedChannel i) = lookup2 k id (bySessionSubscriptions i);
  sb_cap k : Z.of_nat (size (subsOf k i)) ≤ maxChannelSubscriptionsPerSession;
  sb_live id k x : lookup2 id k (bySubscribedChannel i) = Some x → P k (sub_userID x);
}.
Lemma SubInv_mono (P Q : sessionKey → Z → Prop) i : (∀ k u, P k u → Q k u) → SubInv P i → SubInv Q i.
Proof. intros HPQ []. split; eauto. Qed.
Lemma SubInv_empty P : SubInv P noSubs.
Proof.
  split; [apply NoEmpty_empty|apply NoEmpty_empty|done| |].
  - intros k. change (subsOf k noSubs) with (∅ : gmap Z Z). by rewrite map_size_empty.
  - intros id k x Hl. by change (None = Some x) in Hl.
Qed.

Lemma subs_clear_ok (P : sessionKey → Z → Prop) key i : SubInv P i → SubInv (λ k u, k ≠ key ∧ P k u) (clearChannelSubscriptionsLocked key i).
Proof.
  intros HI. unfold clearChannelSubscriptionsLocked.
  assert (Hl : ∀ id k, lookup2 id k (foldr (λ id idx, removeIndex id key idx) (bySubscribedChannel i) (map fst (map_to_list (subsOf key i))))
    = if decide (k = key) then None else lookup2 id k (bySubscribedChannel i)).
  { intros id k. rewrite lookup2_remove_all. destruct (decide (k = key)) as [->|Hk]; [|by rewrite decide_False by tauto].
    case_decide as Hin; [done|]. destruct (lookup2 id key (bySubscribedChannel i)) as [x|] eqn:Hx; [|done]. destruct Hin. split; [done|].
    apply list_elem_of_fmap. exists (id, sub_expiresAt x). split; [done|]. apply elem_of_map_to_list.
    pose proof (sb_both _ _ HI id key) as Hb. rewrite Hx in Hb. simpl in Hb. done. }
  assert (Hr : ∀ k, inner k (delete key (bySessionSubscriptions i)) = if decide (k = key) then ∅ else subsOf k i).
  { intros k. unfold inner, subsOf. case_decide; [subst; by rewrite lookup_delete_eq|by rewrite lookup_delete_ne]. }
  split; simpl.
  - apply NoEmpty_remove_all, HI.
  - intros k [_ Hk]%lookup_delete_Some. by apply (sb_noempty' _ _ HI k).
  - intros id k. rewrite Hl. unfold lookup2 at 2. rewrite Hr. case_decide; [done|apply HI].
  - intros k. unfold subsOf. simpl. rewrite Hr. case_decide; [by rewrite map_size_empty|apply HI].
  - intros id k x. rewrite Hl. case_decide; [done|]. intros Hx. split; [done|by apply (sb_live _ _ HI id)].
Qed.

Lemma subs_remove_ok (P : sessionKey → Z → Prop) key id i :
  SubInv P i → SubInv P (removeChannelSubscriptionLocked key id i) ∧ (size (subsOf key (removeChannelSubscriptionLocked key id i)) ≤ size (subsOf key i))%nat.
Proof.
  intros HI. assert (Hs : ∀ k, (size (subsOf k (removeChannelSubscriptionLocked key id i)) ≤ size (subsOf k i))%nat).
  { intros k. unfold subsOf. simpl. rewrite inner_remove. case_decide; [|done]. subst. apply map_subseteq_size, delete_subseteq. }
  split; [|done]. split; simpl.
  - apply NoEmpty_remove, HI.
  - apply NoEmpty_remove, HI.
  - intros id' k. rewrite !lookup2_remove. destruct (decide (id = id' ∧ key = k)) as [[-> ->]|Hn].
    + by rewrite decide_True.
    + rewrite decide_False by tauto. apply HI.
  - intros k. pose proof (sb_cap _ _ HI k) as Hc. specialize (Hs k). lia.
  - intros id' k x. rewrite lookup2_remove. case_decide; [done|]. apply HI.
Qed.
Lemma subs_prune_ok (P : sessionKey → Z → Prop) key now i : SubInv P i → SubInv P (pruneSessionSubscriptionsLocked key now i).
Proof.
  intros HI. unfold pruneSessionSubscriptionsLocked. induction (map_to_list (subsOf key i)) as [|p ps IH]; simpl; [done|].
  case_bool_decide; [by apply subs_remove_ok|done].
Qed.
Lemma subs_subscribe_ok (P : sessionKey → Z → Prop) key userID id e i : SubInv P i → P key userID → SubInv P (subscribe key userID id e i).
Proof.
  intros HI HP. unfold subscribe. destruct (_ && _) eqn:Hfull; [done|]. split; simpl.
  - apply NoEmpty_add, HI.
  - apply NoEmpty_add, HI.
  - intros id' k. rewrite !lookup2_add. destruct (decide (id = id' ∧ key = k)) as [[-> ->]|Hn].
    + by rewrite decide_True.
    + rewrite decide_False by tauto. apply HI.
  - intros k. pose proof (sb_cap _ _ HI k) as Hc. unfold subsOf. simpl. rewrite inner_add. destruct (decide (key = k)) as [->|]; [|done].
    change (inner k (bySessionSubscriptions i)) with (subsOf k i). destruct (subsOf k i !! id) as [x|] eqn:Hx.
    + rewrite map_size_insert_Some by (by eexists). done.
    + rewrite map_size_insert_None by done. rewrite bool_decide_true in Hfull by done. simpl in Hfull.
      apply bool_decide_eq_false in Hfull. lia.
  - intros id' k x. rewrite lookup2_add. destruct (decide (id = id' ∧ key = k)) as [[-> <-]|Hn]; [by intros [= <-]|apply HI].
Qed.
End Index.
