(* ===== verification/SessionPending.v ===== *)
(** * Pushes staged for sessions that are not ready

    The pending queues of [internal/mtprotoedge/session_manager.go]: a frozen
    update is shared by every queue it waits in through a counted reservation
    of a process-wide byte budget.  The invariant takes the references held
    outside the queues (producers, batches being flushed) as an argument, so
    that every operation is a transfer between the two. *)

From S2P Require Import Prelude TrackedBudget SessionIndex.
Import Index.

Module Pending.

Definition maxPendingPushesPerSession : nat := 32.
Definition pendingPushMaxAge : Z := 60 * 1000000000.
Definition defaultPendingPushMaxBytes : Z := 256 * 2 ^ 20.
Definition maxOutboundBodyBytes : Z := 2 ^ 24 - 2 * 2 ^ 10.

Record pendingPushReservation := mkReservation { r_bytes : Z; r_refs : Z; r_profiles : gset Z }.
(** [q_user] is the account the session had when the push was staged; the
    code does not record it. *)
Record queuedPush := mkPush { q_type : Z; q_updates : Z; q_reservation : positive; q_at : Z; q_user : Z }.
Record pushes := mkPushes {
  pending : gmap sessionKey (list queuedPush);
  flushing : gset sessionKey;
  reservations : gmap positive pendingPushReservation;
  pendingBudget : Tracked.outboundTrackedBudget;
}.
Definition noPushes : pushes := mkPushes ∅ ∅ ∅ (Tracked.newOutboundTrackedBudget defaultPendingPushMaxBytes).
Definition pendingOf (key : sessionKey) (p : pushes) : list queuedPush := default [] (pending p !! key).

Definition set_pending (q : gmap sessionKey (list queuedPush)) (p : pushes) : pushes :=
  mkPushes q (flushing p) (reservations p) (pendingBudget p).
Definition set_flushing (f : gset sessionKey) (p : pushes) : pushes := mkPushes (pending p) f (reservations p) (pendingBudget p).
Definition stopFlushing (key : sessionKey) (p : pushes) : pushes := set_flushing (flushing p ∖ {[ key ]}) p.
Definition set_reservation (r : positive) (x : pendingPushReservation) (p : pushes) : pushes :=
  mkPushes (pending p) (flushing p) (<[r := x]> (reservations p)) (pendingBudget p).
Definition set_budget (b : Tracked.outboundTrackedBudget) (p : pushes) : pushes :=
  mkPushes (pending p) (flushing p) (reservations p) b.

(** ** Reservations *)

Definition retain (r : positive) (p : pushes) : Run pushes :=
  x ← deref (reservations p !! r);
  let refs := r_refs x + 1 in
  _ ← panic_if (bool_decide (refs ≤ 1));
  Done (set_reservation r (mkReservation (r_bytes x) refs (r_profiles x)) p).
Definition release (r : positive) (p : pushes) : Run pushes :=
  x ← deref (reservations p !! r);
  let refs := r_refs x - 1 in
  _ ← panic_if (bool_decide (refs < 0));
  let p := set_reservation r (mkReservation (r_bytes x) refs (r_profiles x)) p in
  if bool_decide (refs = 0) then b ← Tracked.release (r_bytes x) (pendingBudget p); Done (set_budget b p) else Done p.
(** The body prepared for one layer profile is charged once per reservation. *)
Definition reservePrepared (r : positive) (profile bytes : Z) (p : pushes) : Run (pushes * bool) :=
  x ← deref (reservations p !! r);
  if bool_decide (bytes < 0) then Done (p, false)
  else if bool_decide (profile ∈ r_profiles x) then Done (p, true)
  else
    let '(b, ok) := Tracked.reserve bytes (pendingBudget p) in
    if ok then Done (set_reservation r (mkReservation (add64 (r_bytes x) bytes) (r_refs x) ({[ profile ]} ∪ r_profiles x)) (set_budget b p), true)
    else Done (p, false).
Definition preparePendingPush (bytes : Z) (p : pushes) : pushes * option positive :=
  if bool_decide (bytes > maxOutboundBodyBytes) then (p, None)
  else
    let '(b, ok) := Tracked.reserve bytes (pendingBudget p) in
    if ok then
      let r := fresh (dom (reservations p)) in
      (set_reservation r (mkReservation bytes 1 ∅) (set_budget b p), Some r)
    else (p, None).

(** ** Queues *)

Fixpoint releaseQueuedPushes (q : list queuedPush) (p : pushes) : Run pushes :=
  match q with [] => Done p | x :: q => p ← release (q_reservation x) p; releaseQueuedPushes q p end.
Definition deletePendingLocked (key : sessionKey) (p : pushes) : Run pushes :=
  releaseQueuedPushes (pendingOf key p) (set_pending (delete key (pending p)) p).

(** The loop of [takePendingLocked]: entries past their age are let go. *)
Fixpoint takeLoop (now : Z) (q : list queuedPush) (p : pushes) : Run (pushes * list queuedPush) :=
  match q with
  | [] => Done (p, [])
  | x :: q =>
    if bool_decide (now - q_at x > pendingPushMaxAge)
    then p ← release (q_reservation x) p; takeLoop now q p
    else '(p, rest) ← takeLoop now q p; Done (p, x :: rest)
  end.
Definition takePendingLocked (now : Z) (key : sessionKey) (ready : bool) (p : pushes) : Run (pushes * list queuedPush) :=
  if negb ready || bool_decide (pendingOf key p = []) then Done (p, [])
  else takeLoop now (pendingOf key p) (set_pending (delete key (pending p)) p).

Definition queuePreparedLocked (now : Z) (key : sessionKey) (t updates user : Z) (r : positive) (p : pushes) : Run (pushes * bool) :=
  let q := pendingOf key p in
  let push := mkPush t updates r now user in
  if match q with x :: _ => bool_decide (now - q_at x > pendingPushMaxAge) | [] => false end
  then p ← deletePendingLocked key p; Done (p, false)
  else
    p ← retain r p;
    match q with
    | x :: rest =>
      if bool_decide (maxPendingPushesPerSession ≤ length q)%nat then
        p ← release (q_reservation x) p;
        Done (set_pending (<[key := rest ++ [push]]> (pending p)) p, true)
      else Done (set_pending (<[key := q ++ [push]]> (pending p)) p, true)
    | [] => Done (set_pending (<[key := [push]]> (pending p)) p, true)
    end.

(** The requeue of a batch whose send failed: the oldest entries beyond the
    bound are let go. *)
Definition requeue (key : sessionKey) (batch : list queuedPush) (p : pushes) : Run pushes :=
  let rest := batch ++ pendingOf key p in
  let dropped := (length rest - maxPendingPushesPerSession)%nat in
  p ← releaseQueuedPushes (take dropped rest) p;
  Done (set_pending (<[key := drop dropped rest]> (pending p)) p).

Section sweep.
Context `{Ranges}.
Fixpoint sweepLoop (now : Z) (ks : list (sessionKey * list queuedPush)) (p : pushes) : Run pushes :=
  match ks with
  | [] => Done p
  | (key, q) :: ks =>
    if bool_decide (key ∈ flushing p) then sweepLoop now ks p
    else
      match q with
      | [] => sweepLoop now ks p
      | x :: _ =>
        if bool_decide (now - q_at x ≤ pendingPushMaxAge) then sweepLoop now ks p
        else p ← deletePendingLocked key p; sweepLoop now ks p
      end
  end.
Definition sweepStalePending (now : Z) (p : pushes) : Run pushes := sweepLoop now (range (pending p)) p.
End sweep.

(** ** The invariant *)

Definition occurrences (r : positive) (q : list queuedPush) : Z := foldr (λ x n, ind (q_reservation x = r) + n) 0 q.
Definition queued (r : positive) (m : gmap sessionKey (list queuedPush)) : Z := msum (λ _ q, occurrences r q) m.
(** The bytes a reservation holds of the budget. *)
Definition charge (x : pendingPushReservation) : Z := if decide (0 < r_refs x) then r_bytes x else 0.

Lemma occurrences_nonneg r q : 0 ≤ occurrences r q.
Proof. induction q as [|x q IH]; simpl; [done|]. pose proof (ind_range (q_reservation x = r)). lia. Qed.
Lemma occurrences_app r q q' : occurrences r (q ++ q') = occurrences r q + occurrences r q'.
Proof. induction q as [|x q IH]; simpl; [done|]. lia. Qed.
Lemma occurrences_in r q x : x ∈ q → q_reservation x = r → 1 ≤ occurrences r q.
Proof.
  intros Hin Hr. induction q as [|y q IH]; [by apply elem_of_nil in Hin|]. simpl. pose proof (occurrences_nonneg r q).
  pose proof (ind_range (q_reservation y = r)). apply elem_of_cons in Hin as [->|Hin]; [rewrite ind_true by done; lia|]. specialize (IH Hin). lia.
Qed.
Lemma queued_nonneg r m : 0 ≤ queued r m.
Proof. apply msum_nonneg. intros. apply occurrences_nonneg. Qed.
Lemma queued_delete r key m : queued r (delete key m) = queued r m - occurrences r (default [] (m !! key)).
Proof.
  unfold queued. destruct (m !! key) as [q|] eqn:Hq; simpl; [by apply (msum_delete (λ _ q, occurrences r q))|]. rewrite delete_id by done. lia.
Qed.
Lemma queued_insert r key q m : queued r (<[key := q]> m) = queued r m - occurrences r (default [] (m !! key)) + occurrences r q.
Proof. rewrite <-queued_delete. rewrite <-insert_delete_eq. unfold queued. rewrite msum_insert by apply lookup_delete_eq. lia. Qed.

(** References are exactly the queue entries and what is held outside them;
    the budget holds exactly the bytes of reservations still referenced. *)
Record PendInv (held : positive → Z) (p : pushes) : Prop := {
  pi_budget : Tracked.BInv (pendingBudget p);
  pi_held r : 0 ≤ held r;
  pi_known r : 0 < queued r (pending p) + held r → is_Some (reservations p !! r);
  pi_refs r x : reservations p !! r = Some x → r_refs x = queued r (pending p) + held r ∧ 0 ≤ r_bytes x;
  pi_used : Tracked.used (pendingBudget p) = msum (λ _ x, charge x) (reservations p);
  pi_length key q : pending p !! key = Some q → (length q ≤ maxPendingPushesPerSession)%nat;
}.

Lemma PendInv_ext held held' p : PendInv held p → (∀ r, held' r = held r) → PendInv held' p.
Proof.
  intros [] He. split; try done; intros r; rewrite He; auto.
Qed.
Lemma PendInv_flushing held f p : PendInv held p → PendInv held (set_flushing f p).
Proof. intros []. by split. Qed.
Lemma pending_start : PendInv (λ _, 0) noPushes.
Proof.
  split; simpl; [by apply Tracked.tracked_new_BInv|done| | |done|].
  - intros r. unfold queued. rewrite msum_empty. lia.
  - intros r x. by rewrite lookup_empty.
  - intros key q. by rewrite lookup_empty.
Qed.

Lemma charge_nonneg held p r x : PendInv held p → reservations p !! r = Some x → 0 ≤ charge x.
Proof. intros HI Hx. destruct (pi_refs _ _ HI _ _ Hx). unfold charge. case_decide; lia. Qed.

Definition holding (held : positive → Z) (q : list queuedPush) (r : positive) : Z := held r + occurrences r q.

Lemma release_ok held p r :
  PendInv held p → 1 ≤ held r →
  ∃ p', release r p = Done p' ∧ PendInv (λ r', held r' - ind (r = r')) p' ∧ pending p' = pending p ∧ flushing p' = flushing p.
Proof.
  intros HI Hr. pose proof (queued_nonneg r (pending p)) as Hq. unfold release.
  destruct (pi_known _ _ HI r ltac:(lia)) as [x Hx]. destruct (pi_refs _ _ HI _ _ Hx) as [Hrefs Hbytes]. rewrite Hx. simpl.
  rewrite (bool_decide_false (r_refs x - 1 < 0)) by lia. simpl.
  set (y := mkReservation (r_bytes x) (r_refs x - 1) (r_profiles x)).
  pose proof (msum_update (λ _ x, charge x) (reservations p) r x y Hx) as Hsum. simpl in Hsum.
  assert (Hstep : ∀ b, Tracked.BInv b → Tracked.used b = msum (λ _ x, charge x) (<[r := y]> (reservations p)) →
    PendInv (λ r', held r' - ind (r = r')) (mkPushes (pending p) (flushing p) (<[r := y]> (reservations p)) b)).
  { intros b Hb Hu. split; simpl; [done| | | |done|apply HI].
    - intros r'. destruct (decide (r = r')) as [<-|Hne]; [rewrite ind_true by done; lia|rewrite ind_false by done].
      pose proof (pi_held _ _ HI r'). lia.
    - intros r' Hpos. destruct (decide (r = r')) as [<-|Hne]; [rewrite lookup_insert_eq; by eexists|].
      rewrite ind_false in Hpos by done. rewrite lookup_insert_ne by done. apply HI. lia.
    - intros r' z [[<- <-]|[Hne Hz]]%lookup_insert_Some; [rewrite ind_true by done; simpl; lia|].
      rewrite ind_false by done. destruct (pi_refs _ _ HI _ _ Hz). lia. }
  pose proof (pi_used _ _ HI) as Hused. pose proof (pi_budget _ _ HI) as HB.
  case_bool_decide as Hz.
  - assert (Hcx : charge x = r_bytes x) by (unfold charge; rewrite decide_True by lia; done).
    assert (Hcy : charge y = 0) by (unfold charge; simpl; rewrite decide_False by lia; done).
    pose proof (msum_lookup_le (λ _ x, charge x) (reservations p) r x) as Hle.
    destruct (Tracked.tracked_release_spec (r_bytes x) (pendingBudget p) HB) as (b & -> & Hu & _ & HB').
    { rewrite Hused. split; [done|]. rewrite <-Hcx. apply Hle; [|done]. intros k v Hv. by eapply charge_nonneg. }
    simpl. eexists. split; [done|]. split; [|done]. apply Hstep; [done|]. lia.
  - eexists. split; [done|]. split; [|done]. apply Hstep; [done|].
    assert (charge x = charge y) by (unfold charge; simpl; rewrite !decide_True by lia; done). lia.
Qed.

Lemma retain_ok held p r :
  PendInv held p → 1 ≤ held r →
  ∃ p', retain r p = Done p' ∧ PendInv (λ r', held r' + ind (r = r')) p' ∧ pending p' = pending p ∧ flushing p' = flushing p.
Proof.
  intros HI Hr. pose proof (queued_nonneg r (pending p)) as Hq. unfold retain.
  destruct (pi_known _ _ HI r ltac:(lia)) as [x Hx]. destruct (pi_refs _ _ HI _ _ Hx) as [Hrefs Hbytes]. rewrite Hx. simpl.
  rewrite (bool_decide_false (r_refs x + 1 ≤ 1)) by lia. simpl. eexists. split; [done|]. split; [|done].
  set (y := mkReservation (r_bytes x) (r_refs x + 1) (r_profiles x)).
  pose proof (msum_update (λ _ x, charge x) (reservations p) r x y Hx) as Hsum. simpl in Hsum.
  assert (charge x = charge y) by (unfold charge; simpl; rewrite !decide_True by lia; done).
  split; simpl; [apply HI| | | |pose proof (pi_used _ _ HI); lia|apply HI].
  - intros r'. pose proof (pi_held _ _ HI r'). pose proof (ind_range (r = r')). lia.
  - intros r' Hpos. destruct (decide (r = r')) as [<-|Hne]; [rewrite lookup_insert_eq; by eexists|].
    rewrite ind_false in Hpos by done. rewrite lookup_insert_ne by done. apply HI. lia.
  - intros r' z [[<- <-]|[Hne Hz]]%lookup_insert_Some; [rewrite ind_true by done; simpl; lia|].
    rewrite ind_false by done. destruct (pi_refs _ _ HI _ _ Hz). lia.
Qed.

Lemma releaseQueued_ok held q p :
  PendInv (holding held q) p → (∀ r, 0 ≤ held r) →
  ∃ p', releaseQueuedPushes q p = Done p' ∧ PendInv held p' ∧ pending p' = pending p ∧ flushing p' = flushing p.
Proof.
  revert p. induction q as [|x q IH]; intros p HI Hh; cbn [releaseQueuedPushes].
  { exists p. split; [done|]. split; [|done]. eapply PendInv_ext; [exact HI|]. intros r. unfold holding. simpl. lia. }
  destruct (release_ok _ p (q_reservation x) HI) as (p1 & -> & HI1 & Hp1 & Hf1).
  { unfold holding. simpl. rewrite ind_true by done. pose proof (occurrences_nonneg (q_reservation x) q). specialize (Hh (q_reservation x)). lia. }
  simpl. destruct (IH p1) as (p' & -> & HI' & Hp' & Hf'); [|done|].
  - eapply PendInv_ext; [exact HI1|]. intros r. unfold holding. simpl. lia.
  - exists p'. split; [done|]. split; [done|]. split; congruence.
Qed.

(** Taking a queue out of the map, and putting one back. *)
Lemma unqueue_ok held key p :
  PendInv held p → PendInv (holding held (pendingOf key p)) (set_pending (delete key (pending p)) p).
Proof.
  intros HI. unfold holding, pendingOf. split; simpl; [apply HI| | | |apply HI|].
  - intros r. pose proof (pi_held _ _ HI r). pose proof (occurrences_nonneg r (default [] (pending p !! key))). lia.
  - intros r Hpos. rewrite queued_delete in Hpos. apply HI. lia.
  - intros r x Hx. destruct (pi_refs _ _ HI _ _ Hx). rewrite queued_delete. lia.
  - intros k q [_ Hq]%lookup_delete_Some. by eapply (pi_length _ _ HI).
Qed.
Lemma enqueue_ok held key q p :
  PendInv (λ r, held r + occurrences r q - occurrences r (pendingOf key p)) p → (∀ r, 0 ≤ held r) → (length q ≤ maxPendingPushesPerSession)%nat →
  PendInv held (set_pending (<[key := q]> (pending p)) p).
Proof.
  intros HI Hh Hlen. unfold pendingOf in HI. split; simpl; [apply HI|done| | |apply HI|].
  - intros r Hpos. rewrite queued_insert in Hpos. apply HI. lia.
  - intros r x Hx. destruct (pi_refs _ _ HI _ _ Hx). rewrite queued_insert. lia.
  - intros k q' [[_ <-]|[_ Hq]]%lookup_insert_Some; [done|by eapply (pi_length _ _ HI)].
Qed.

Lemma deletePending_ok held key p :
  PendInv held p → ∃ p', deletePendingLocked key p = Done p' ∧ PendInv held p' ∧ pending p' = delete key (pending p) ∧ flushing p' = flushing p.
Proof.
  intros HI. unfold deletePendingLocked.
  destruct (releaseQueued_ok held (pendingOf key p) (set_pending (delete key (pending p)) p)) as (p' & -> & HI' & Hp & Hf);
    [exact (unqueue_ok held key p HI)|apply HI|]. by exists p'.
Qed.

Lemma takeLoop_ok held now q p :
  PendInv (holding held q) p → (∀ r, 0 ≤ held r) →
  ∃ p' batch, takeLoop now q p = Done (p', batch) ∧ PendInv (holding held batch) p' ∧ pending p' = pending p ∧ flushing p' = flushing p ∧
    batch = filter (λ x, now - q_at x ≤ pendingPushMaxAge) q.
Proof.
  revert held p. induction q as [|x q IH]; intros held p HI Hh; cbn [takeLoop]; [by exists p, []|].
  case_bool_decide as Hold.
  - destruct (release_ok _ p (q_reservation x) HI) as (p1 & -> & HI1 & Hp1 & Hf1).
    { unfold holding. simpl. rewrite ind_true by done. pose proof (occurrences_nonneg (q_reservation x) q). specialize (Hh (q_reservation x)). lia. }
    simpl. destruct (IH held p1) as (p' & batch & -> & HI' & Hp' & Hf' & Hb); [|done|].
    + eapply PendInv_ext; [exact HI1|]. intros r. unfold holding. simpl. lia.
    + exists p', batch. split; [done|]. split; [done|]. split; [congruence|]. split; [congruence|]. rewrite filter_cons_False by lia. done.
  - destruct (IH (λ r, held r + ind (q_reservation x = r)) p) as (p' & batch & -> & HI' & Hp' & Hf' & Hb).
    + eapply PendInv_ext; [exact HI|]. intros r. unfold holding. simpl. lia.
    + intros r. pose proof (ind_range (q_reservation x = r)). specialize (Hh r). lia.
    + simpl. exists p', (x :: batch). split; [done|]. split; [|split; [done|split; [done|]]].
      * eapply PendInv_ext; [exact HI'|]. intros r. unfold holding. simpl. lia.
      * rewrite filter_cons_True by lia. by rewrite Hb.
Qed.
Lemma takePending_ok held now key ready p :
  PendInv held p →
  ∃ p' batch, takePendingLocked now key ready p = Done (p', batch) ∧ PendInv (holding held batch) p' ∧ flushing p' = flushing p ∧
    (∀ k, k ≠ key → pendingOf k p' = pendingOf k p) ∧ batch ⊆ pendingOf key p ∧ (∀ x, x ∈ pendingOf key p' → x ∈ pendingOf key p).
Proof.
  intros HI. unfold takePendingLocked. destruct (_ || _).
  { exists p, []. split; [done|]. split; [eapply PendInv_ext; [exact HI|]; intros r; unfold holding; simpl; lia|]. set_solver. }
  destruct (takeLoop_ok held now (pendingOf key p) (set_pending (delete key (pending p)) p)) as (p' & batch & -> & HI' & Hp' & Hf' & Hb);
    [exact (unqueue_ok held key p HI)|apply HI|].
  exists p', batch. split; [done|]. split; [done|]. split; [done|]. unfold pendingOf. rewrite Hp'. simpl. split; [|split].
  - intros k Hk. by rewrite lookup_delete_ne.
  - subst batch. intros x. rewrite list_elem_of_filter. by intros [_ ?].
  - intros x. rewrite lookup_delete_eq. by intros ?%elem_of_nil.
Qed.

Lemma prepare_ok held bytes p :
  PendInv held p → 0 ≤ bytes →
  ∃ p' o, preparePendingPush bytes p = (p', o) ∧ pending p' = pending p ∧ flushing p' = flushing p ∧
    match o with
    | None => p' = p
    | Some r => held r = 0 ∧ PendInv (λ r', held r' + ind (r = r')) p'
    end.
Proof.
  intros HI Hb. unfold preparePendingPush. destruct (bool_decide (bytes > maxOutboundBodyBytes)); [by exists p, None|].
  rewrite Tracked.tracked_reserve_spec by (done || apply HI). case_bool_decide as Hfit; [|by exists p, None].
  set (r := fresh (dom (reservations p))). assert (Hr : reservations p !! r = None) by (apply not_elem_of_dom, is_fresh).
  assert (Hz : queued r (pending p) = 0 ∧ held r = 0).
  { pose proof (queued_nonneg r (pending p)). pose proof (pi_held _ _ HI r). destruct (decide (0 < queued r (pending p) + held r)) as [Hp|]; [|lia].
    destruct (pi_known _ _ HI r Hp) as [x Hx]. congruence. }
  eexists _, (Some r). split; [done|]. split; [done|]. split; [done|]. split; [lia|]. split; simpl.
  - pose proof (pi_budget _ _ HI) as [? ? ?]. split; simpl; [lia|done|done].
  - intros r'. pose proof (pi_held _ _ HI r'). pose proof (ind_range (r = r')). lia.
  - intros r' Hpos. destruct (decide (r = r')) as [<-|Hne]; [rewrite lookup_insert_eq; by eexists|].
    rewrite ind_false in Hpos by done. rewrite lookup_insert_ne by done. apply HI. lia.
  - intros r' z [[<- <-]|[Hne Hz']]%lookup_insert_Some; [rewrite ind_true by done; simpl; lia|].
    rewrite ind_false by done. destruct (pi_refs _ _ HI _ _ Hz'). lia.
  - rewrite msum_insert by done. pose proof (pi_used _ _ HI). unfold charge at 1. simpl. lia.
  - apply HI.
Qed.

Lemma reservePrepared_ok held r profile bytes p :
  PendInv held p → 1 ≤ held r →
  ∃ p' ok, reservePrepared r profile bytes p = Done (p', ok) ∧ PendInv held p' ∧ pending p' = pending p ∧ flushing p' = flushing p.
Proof.
  intros HI Hr. pose proof (queued_nonneg r (pending p)) as Hq. unfold reservePrepared.
  destruct (pi_known _ _ HI r ltac:(lia)) as [x Hx]. destruct (pi_refs _ _ HI _ _ Hx) as [Hrefs Hbytes]. rewrite Hx. simpl.
  case_bool_decide; [by eexists _, _|]. case_bool_decide; [by eexists _, _|].
  rewrite Tracked.tracked_reserve_spec by (apply HI || lia). case_bool_decide as Hfit; [|by eexists _, _].
  eexists _, _. split; [done|]. split; [|done].
  pose proof (msum_lookup_le (λ _ x, charge x) (reservations p) r x (λ k v Hv, charge_nonneg held p k v HI Hv) Hx) as Hle.
  assert (Hcx : charge x = r_bytes x) by (unfold charge; rewrite decide_True by lia; done). simpl in Hle.
  pose proof (pi_used _ _ HI) as Hused. pose proof (pi_budget _ _ HI) as [Hu Hm Hw].
  rewrite add64_small by int64. set (y := mkReservation _ _ _).
  pose proof (msum_update (λ _ x, charge x) (reservations p) r x y Hx) as Hsum. simpl in Hsum.
  assert (charge y = r_bytes x + bytes) by (unfold charge; simpl; rewrite decide_True by lia; done).
  split; simpl; [split; simpl; [lia|done|done]|apply HI| | |lia|apply HI].
  - intros r' Hpos. destruct (decide (r = r')) as [<-|Hne]; [rewrite lookup_insert_eq; by eexists|].
    rewrite lookup_insert_ne by done. apply HI. lia.
  - intros r' z [[<- <-]|[Hne Hz]]%lookup_insert_Some; [simpl; lia|]. by apply HI.
Qed.

(** A release does not look at the queues. *)
Lemma release_pending r q p : release r (set_pending q p) = (p' ← release r p; Done (set_pending q p')).
Proof.
  unfold release. simpl. destruct (reservations p !! r) as [x|]; [|done]. simpl. destruct (panic_if _); [|done]. simpl.
  case_bool_decide; [|done]. by destruct (Tracked.release _ _).
Qed.
Lemma release_keeps r p p' : release r p = Done p' → pending p' = pending p ∧ flushing p' = flushing p.
Proof.
  unfold release. destruct (reservations p !! r) as [x|]; [|done]. simpl. destruct (panic_if _); [|done]. simpl.
  case_bool_decide; [|by intros [= <-]]. destruct (Tracked.release _ _); [|done]. simpl. by intros [= <-].
Qed.

(** Staging a push the producer holds: one more reference, in the queue. *)
Lemma queuePrepared_ok held now key t u user r p :
  PendInv held p → 1 ≤ held r →
  ∃ p' ok, queuePreparedLocked now key t u user r p = Done (p', ok) ∧ PendInv held p' ∧ flushing p' = flushing p ∧
    (∀ k, k ≠ key → pendingOf k p' = pendingOf k p) ∧
    (∀ x, x ∈ pendingOf key p' → x ∈ pendingOf key p ∨ x = mkPush t u r now user) ∧
    (ok = true → last (pendingOf key p') = Some (mkPush t u r now user)).
Proof.
  intros HI Hr. unfold queuePreparedLocked. set (push := mkPush t u r now user). destruct (match pendingOf key p with [] => false | _ => _ end).
  { destruct (deletePending_ok held key p HI) as (p' & -> & HI' & Hp' & Hf'). simpl. exists p', false. split; [done|]. split; [done|]. split; [done|].
    unfold pendingOf. rewrite Hp'. split; [intros k Hk; by rewrite lookup_delete_ne|]. split; [|done].
    intros x. rewrite lookup_delete_eq. by intros ?%elem_of_nil. }
  destruct (retain_ok held p r HI Hr) as (p1 & -> & HI1 & Hp1 & Hf1). simpl.
  assert (Hset : ∀ q p2, pending p2 = pending p → flushing p2 = flushing p → (length q ≤ maxPendingPushesPerSession)%nat →
    (∀ x, x ∈ q → x ∈ pendingOf key p ∨ x = push) → last q = Some push →
    PendInv held (set_pending (<[key := q]> (pending p2)) p2) →
    ∃ p' ok, Done (set_pending (<[key := q]> (pending p2)) p2, true) = Done (p', ok) ∧ PendInv held p' ∧ flushing p' = flushing p ∧
      (∀ k, k ≠ key → pendingOf k p' = pendingOf k p) ∧ (∀ x, x ∈ pendingOf key p' → x ∈ pendingOf key p ∨ x = push) ∧
      (ok = true → last (pendingOf key p') = Some push)).
  { intros q p2 Hp2 Hf2 Hlen Hin Hlast HI2. eexists _, _. split; [done|]. unfold pendingOf in *. simpl. rewrite lookup_insert_eq. simpl. split; [done|]. split; [done|]. split; [|done].
    intros k Hk. by rewrite lookup_insert_ne, Hp2. }
  assert (Hpend1 : pendingOf key p1 = pendingOf key p) by (unfold pendingOf; by rewrite Hp1).
  destruct (pendingOf key p) as [|x rest] eqn:Hpend.
  - apply (Hset [push] p1); [done|done|unfold maxPendingPushesPerSession; simpl; lia|set_solver|done|].
    apply enqueue_ok; [|apply HI|unfold maxPendingPushesPerSession; simpl; lia]. rewrite Hpend1.
    eapply PendInv_ext; [exact HI1|]. intros r'. simpl. lia.
  - assert (Hlen : (length (x :: rest) ≤ maxPendingPushesPerSession)%nat).
    { unfold pendingOf in Hpend. destruct (pending p !! key) as [q|] eqn:Hq; simpl in Hpend; [|done]. subst q. by eapply (pi_length _ _ HI). }
    case_bool_decide as Hfull.
    + set (p1' := set_pending (<[key := rest]> (pending p1)) p1).
      assert (HI1' : PendInv (λ r', held r' + ind (r = r') + ind (q_reservation x = r')) p1').
      { unfold p1'. apply enqueue_ok; [|intros r'; pose proof (pi_held _ _ HI r'); pose proof (ind_range (r = r')); pose proof (ind_range (q_reservation x = r')); lia|simpl in Hlen; lia].
        eapply PendInv_ext; [exact HI1|]. intros r'. unfold pendingOf in Hpend |- *. rewrite Hp1, Hpend. simpl. lia. }
      destruct (release_ok _ p1' (q_reservation x) HI1') as (p2' & Hrel & HI2 & Hp2 & Hf2).
      { rewrite (ind_true (q_reservation x = q_reservation x)) by done. pose proof (pi_held _ _ HI (q_reservation x)). pose proof (ind_range (r = q_reservation x)). lia. }
      unfold p1' in Hrel. rewrite release_pending in Hrel. destruct (release (q_reservation x) p1) as [p2|] eqn:Hrel'; [|done].
      simpl in Hrel. injection Hrel as <-. simpl in *.
      destruct (release_keeps (q_reservation x) p1 p2 Hrel') as [Hk1 Hk2].
      apply (Hset (rest ++ [push]) p2); [congruence|congruence|rewrite length_app; simpl in *; lia|set_solver|apply last_snoc|].
      assert (HI3 : PendInv held (set_pending (<[key := rest ++ [push]]> (<[key := rest]> (pending p1))) (set_pending (<[key := rest]> (pending p1)) p2))).
      { pose proof (enqueue_ok held key (rest ++ [push]) (set_pending (<[key := rest]> (pending p1)) p2)) as He. simpl in He.
        apply He; [|apply HI|rewrite length_app; simpl in *; lia]. clear He.
        eapply PendInv_ext; [exact HI2|]. intros r'. unfold pendingOf. simpl. rewrite lookup_insert_eq. simpl. rewrite occurrences_app. simpl. lia. }
      rewrite insert_insert_eq in HI3. by rewrite Hk1.
    + apply (Hset ((x :: rest) ++ [push]) p1); [done|done|rewrite length_app; simpl in *; lia|set_solver|apply last_snoc|].
      apply enqueue_ok; [|apply HI|rewrite length_app; simpl in *; lia]. rewrite Hpend1.
      eapply PendInv_ext; [exact HI1|]. intros r'. rewrite occurrences_app. simpl. lia.
Qed.

Lemma pendingOf_length held key p : PendInv held p → (length (pendingOf key p) ≤ maxPendingPushesPerSession)%nat.
Proof.
  intros HI. unfold pendingOf. destruct (pending p !! key) as [q|] eqn:Hq; simpl; [by eapply (pi_length _ _ HI)|unfold maxPendingPushesPerSession; lia].
Qed.

(** A batch whose send failed goes back in front of its queue; what no longer
    fits is the oldest part of the batch. *)
Lemma requeue_ok held key batch p :
  PendInv (holding held batch) p → (∀ r, 0 ≤ held r) →
  ∃ p', requeue key batch p = Done p' ∧ PendInv held p' ∧ flushing p' = flushing p ∧
    (∀ k, k ≠ key → pendingOf k p' = pendingOf k p) ∧
    pendingOf key p' = drop (length (batch ++ pendingOf key p) - maxPendingPushesPerSession) (batch ++ pendingOf key p).
Proof.
  intros HI Hh. unfold requeue. set (rest := batch ++ pendingOf key p). set (d := (length rest - maxPendingPushesPerSession)%nat).
  pose proof (pendingOf_length _ key p HI) as Hlen.
  assert (Hd : (d ≤ length batch)%nat) by (unfold d, rest; rewrite length_app; lia).
  assert (Ht : take d rest = take d batch) by (unfold rest; rewrite take_app_le by lia; done).
  assert (Hdr : drop d rest = drop d batch ++ pendingOf key p) by (unfold rest; rewrite drop_app_le by lia; done).
  rewrite Ht. destruct (releaseQueued_ok (holding held (drop d batch)) (take d batch) p) as (p' & -> & HI' & Hp' & Hf').
  - eapply PendInv_ext; [exact HI|]. intros r. unfold holding. rewrite <-(take_drop d batch) at 3. rewrite occurrences_app. lia.
  - intros r. unfold holding. pose proof (occurrences_nonneg r (drop d batch)). specialize (Hh r). lia.
  - simpl. eexists. split; [done|]. split; [|split; [done|split]].
    + apply enqueue_ok; [|done|rewrite length_drop; unfold d; lia]. eapply PendInv_ext; [exact HI'|].
      intros r. unfold holding. rewrite Hdr, occurrences_app. unfold pendingOf. rewrite Hp'. lia.
    + intros k Hk. unfold pendingOf. simpl. rewrite lookup_insert_ne by done. by rewrite Hp'.
    + unfold pendingOf at 1. simpl. by rewrite lookup_insert_eq.
Qed.

Lemma sweep_ok `{Ranges} held now p :
  PendInv held p →
  ∃ p', sweepStalePending now p = Done p' ∧ PendInv held p' ∧ flushing p' = flushing p ∧
    (∀ k, pendingOf k p' = pendingOf k p ∨ (pendingOf k p' = [] ∧ k ∉ flushing p)).
Proof.
  intros HI. unfold sweepStalePending. generalize (range (pending p)). intros ks. revert p HI.
  induction ks as [|[key q] ks IH]; intros p HI; cbn [sweepLoop]; [exists p; auto|].
  case_bool_decide as Hfl; [by apply IH|]. destruct q as [|x q]; [by apply IH|]. case_bool_decide; [by apply IH|].
  destruct (deletePending_ok held key p HI) as (p1 & -> & HI1 & Hp1 & Hf1). simpl.
  destruct (IH p1 HI1) as (p' & -> & HI' & Hf' & Hk). exists p'. split; [done|]. split; [done|]. split; [congruence|].
  assert (Hp1' : ∀ k, pendingOf k p1 = if decide (k = key) then [] else pendingOf k p).
  { intros k. unfold pendingOf. rewrite Hp1. case_decide; [subst; by rewrite lookup_delete_eq|by rewrite lookup_delete_ne]. }
  intros k. rewrite Hf1 in Hk. destruct (Hk k) as [He|[He Hn]]; [|by right]. rewrite He, Hp1'. case_decide; [right; by subst|by left].
Qed.
End Pending.
