(* ===== verification/Sessions.v ===== *)
(** * The session manager

    [internal/mtprotoedge/session_manager.go], [logical_session.go] and the
    lifecycle of [conn.go]: the registry of active connections with its
    indexes, the claim protocol by which a connection takes over a session, the
    binding of sessions to accounts and keys, revocation, channel routing and
    the logical sessions that outlive connections.  A critical section of the
    manager's lock is one function; connections are heap references.  Signals
    to a connection's goroutines, logging and metrics have no counterpart;
    closing a socket clears [transportOpen]. *)

From S2P Require Import Prelude TrackedBudget SessionIndex SessionPending.
Import Index Pending.

Module Manager.

Definition maxSessionsPerAuthKey : Z := 256.
Definition maxFlushAttempts : Z := 5.
Definition updatesActivationClaimTTL : Z := 60 * 1000000000.
Definition defaultChannelSubscriptionTTL : Z := 75 * 1000000000.
Definition maxChannelSubscriptionTTL : Z := 120 * 1000000000.
Definition logicalSessionOfflineTTL : Z := 360 * 1000000000.

(** ** Connections *)

Inductive connLifecycle := Provisional | Claiming | Active | Retired.
#[export] Instance connLifecycle_eq_dec : EqDecision connLifecycle.
Proof. solve_decision. Defined.

Record identity := mkIdentity {
  businessAuthKeyID : Z;
  businessAuthKeyResolved : bool;
  userID : Z;
  userIDResolved : bool;
}.
Record updatesState := mkUpdates {
  receivesUpdates : bool;
  hasProfile : bool;
  membershipGen : Z;
  membershipsSynced : bool;
  updatesActivationToken : Z;
  updatesActivationAt : Z;
  bootstrapProbeToken : Z;
  bootstrapProbed : bool;
}.
Record conn := mkConn {
  authKeyID : Z;
  sessionID : Z;
  createdAt : Z;
  lifecycle : connLifecycle;
  transportOpen : bool;
  ident : identity;
  upd : updatesState;
  outboundState : positive;
}.
Definition connSessionKey (x : conn) : sessionKey := (authKeyID x, sessionID x).
Definition user (x : conn) : Z := userID (ident x).
(** [BusinessAuthKeyID]: the key of the business view, once resolved. *)
Definition business (x : conn) : option Z := if businessAuthKeyResolved (ident x) then Some (businessAuthKeyID (ident x)) else None.
Definition connUsesBusinessAuthKey (x : conn) (key : Z) : bool :=
  match business x with Some id => bool_decide (id = key) | None => bool_decide (authKeyID x = key) end.

Definition set_lifecycle (l : connLifecycle) (x : conn) : conn :=
  mkConn (authKeyID x) (sessionID x) (createdAt x) l (transportOpen x) (ident x) (upd x) (outboundState x).
Definition close_transport (x : conn) : conn :=
  mkConn (authKeyID x) (sessionID x) (createdAt x) (lifecycle x) false (ident x) (upd x) (outboundState x).
Definition set_identity (i : identity) (x : conn) : conn :=
  mkConn (authKeyID x) (sessionID x) (createdAt x) (lifecycle x) (transportOpen x) i (upd x) (outboundState x).
Definition set_updates (u : updatesState) (x : conn) : conn :=
  mkConn (authKeyID x) (sessionID x) (createdAt x) (lifecycle x) (transportOpen x) (ident x) u (outboundState x).
Definition set_user (u : Z) (resolved : bool) (x : conn) : conn :=
  set_identity (mkIdentity (businessAuthKeyID (ident x)) (businessAuthKeyResolved (ident x)) u resolved) x.
Definition set_receives (b : bool) (x : conn) : conn :=
  let u := upd x in
  set_updates (mkUpdates b (hasProfile u) (membershipGen u) (membershipsSynced u) (updatesActivationToken u) (updatesActivationAt u)
    (bootstrapProbeToken u) (bootstrapProbed u)) x.
Definition set_membership (gen : Z) (synced : bool) (x : conn) : conn :=
  let u := upd x in
  set_updates (mkUpdates (receivesUpdates u) (hasProfile u) gen synced (updatesActivationToken u) (updatesActivationAt u)
    (bootstrapProbeToken u) (bootstrapProbed u)) x.
Definition bump_membership (x : conn) : conn := set_membership (add64 (membershipGen (upd x)) 1) (membershipsSynced (upd x)) x.
Definition set_synced (b : bool) (x : conn) : conn := set_membership (membershipGen (upd x)) b x.
Definition set_activation (token at_ : Z) (x : conn) : conn :=
  let u := upd x in
  set_updates (mkUpdates (receivesUpdates u) (hasProfile u) (membershipGen u) (membershipsSynced u) token at_
    (bootstrapProbeToken u) (bootstrapProbed u)) x.
Definition set_probe (token : Z) (probed : bool) (x : conn) : conn :=
  let u := upd x in
  set_updates (mkUpdates (receivesUpdates u) (hasProfile u) (membershipGen u) (membershipsSynced u) (updatesActivationToken u)
    (updatesActivationAt u) token probed) x.
(** [SetBusinessAuthKeyID]: a changed key forgets the account. *)
Definition set_business (key : Z) (x : conn) : conn :=
  let i := ident x in
  if bool_decide (business x = Some key) then set_identity (mkIdentity key true (userID i) (userIDResolved i)) x
  else set_identity (mkIdentity key true 0 false) x.

(** ** State *)

Record indexes := mkIndexes {
  bySession : gmap sessionKey positive;
  claims : gmap sessionKey positive;
  claimsByAuth : gmap Z (gmap Z positive);
  byAuthKey : gmap Z (gmap Z positive);
  byBusinessAuthKey : gmap Z (gmap sessionKey positive);
  byUser : gmap Z (gmap sessionKey positive);
}.
Record channels := mkChannels { interests : chanIndex; subscriptions : subIndex; members : chanIndex }.
Record logicalSession := mkLogical { outbound : positive; offlineAt : Z; l_business : option Z }.
Record manager := mkManager {
  conns : gmap positive conn;
  idx : indexes;
  chs : channels;
  psh : pushes;
  logicalSessions : gmap sessionKey logicalSession;
  persistent : gset positive;
  released : list (sessionKey * positive);
  nextOutbound : positive;
  updatesActivationSeq : Z;
  bootstrapProbeSeq : Z;
}.
Definition NewSessionManager : manager :=
  mkManager ∅ (mkIndexes ∅ ∅ ∅ ∅ ∅ ∅) (mkChannels noChannels noSubs noChannels) noPushes ∅ ∅ [] 1 0 0.

Definition set_conns (cs : gmap positive conn) (m : manager) : manager :=
  mkManager cs (idx m) (chs m) (psh m) (logicalSessions m) (persistent m) (released m) (nextOutbound m) (updatesActivationSeq m) (bootstrapProbeSeq m).
Definition set_idx (i : indexes) (m : manager) : manager :=
  mkManager (conns m) i (chs m) (psh m) (logicalSessions m) (persistent m) (released m) (nextOutbound m) (updatesActivationSeq m) (bootstrapProbeSeq m).
Definition set_chs (c : channels) (m : manager) : manager :=
  mkManager (conns m) (idx m) c (psh m) (logicalSessions m) (persistent m) (released m) (nextOutbound m) (updatesActivationSeq m) (bootstrapProbeSeq m).
Definition set_psh (p : pushes) (m : manager) : manager :=
  mkManager (conns m) (idx m) (chs m) p (logicalSessions m) (persistent m) (released m) (nextOutbound m) (updatesActivationSeq m) (bootstrapProbeSeq m).
Definition set_logical (l : gmap sessionKey logicalSession) (m : manager) : manager :=
  mkManager (conns m) (idx m) (chs m) (psh m) l (persistent m) (released m) (nextOutbound m) (updatesActivationSeq m) (bootstrapProbeSeq m).
Definition set_persistent (o : positive) (m : manager) : manager :=
  mkManager (conns m) (idx m) (chs m) (psh m) (logicalSessions m) ({[ o ]} ∪ persistent m) (released m) (nextOutbound m) (updatesActivationSeq m) (bootstrapProbeSeq m).
Definition set_nextOutbound (o : positive) (m : manager) : manager :=
  mkManager (conns m) (idx m) (chs m) (psh m) (logicalSessions m) (persistent m) (released m) o (updatesActivationSeq m) (bootstrapProbeSeq m).
Definition set_seqs (a b : Z) (m : manager) : manager :=
  mkManager (conns m) (idx m) (chs m) (psh m) (logicalSessions m) (persistent m) (released m) (nextOutbound m) a b.
(** [releaseLogicalSession]: the outbox is emptied and the hook called, once per call. *)
Definition releaseLogicalSession (key : sessionKey) (o : positive) (m : manager) : manager :=
  mkManager (conns m) (idx m) (chs m) (psh m) (logicalSessions m) (persistent m) (released m ++ [(key, o)]) (nextOutbound m)
    (updatesActivationSeq m) (bootstrapProbeSeq m).

Definition update (c : positive) (f : conn → conn) (m : manager) : Run manager :=
  x ← deref (conns m !! c);
  Done (set_conns (<[c := f x]> (conns m)) m).
(** [beginTerminalShutdown]: irreversible. *)
Definition beginTerminalShutdown (c : positive) (m : manager) : Run manager := update c (set_lifecycle Retired) m.
Definition closeTransport (c : positive) (m : manager) : Run manager := update c close_transport m.
Fixpoint closeConnBatch (cs : list positive) (m : manager) : Run manager :=
  match cs with [] => Done m | c :: cs => m ← beginTerminalShutdown c m; m ← closeTransport c m; closeConnBatch cs m end.

Definition deletePending (key : sessionKey) (m : manager) : Run manager :=
  p ← deletePendingLocked key (psh m); Done (set_psh p m).
Definition cancelFlush (key : sessionKey) (m : manager) : manager := set_psh (stopFlushing key (psh m)) m.

Definition clearSessionChannelIndexesLocked (c : positive) (key : sessionKey) (m : manager) : Run manager :=
  let m := set_chs (mkChannels (clearChannelIndexLocked key (interests (chs m))) (clearChannelSubscriptionsLocked key (subscriptions (chs m)))
                     (members (chs m))) m in
  m ← update c bump_membership m;
  Done (set_chs (mkChannels (interests (chs m)) (subscriptions (chs m)) (clearChannelIndexLocked key (members (chs m)))) m).

(** What every change of identity forgets. *)
Definition forgetAccount (c : positive) (key : sessionKey) (m : manager) : Run manager :=
  m ← clearSessionChannelIndexesLocked c key m;
  m ← update c (set_synced false) m;
  m ← update c (set_activation 0 0) m;
  m ← update c (set_probe 0 false) m;
  m ← deletePending key m;
  Done (cancelFlush key m).

(** ** Leaving the registry *)

Definition removeClaimLocked (key : sessionKey) (c : positive) (m : manager) : manager :=
  let i := idx m in
  if bool_decide (claims i !! key = Some c)
  then set_idx (mkIndexes (bySession i) (delete key (claims i)) (removeIndex key.1 key.2 (claimsByAuth i)) (byAuthKey i) (byBusinessAuthKey i) (byUser i)) m
  else m.
Definition addClaimLocked (key : sessionKey) (c : positive) (m : manager) : manager :=
  let i := idx m in
  set_idx (mkIndexes (bySession i) (<[key := c]> (claims i)) (addIndex key.1 key.2 c (claimsByAuth i)) (byAuthKey i) (byBusinessAuthKey i) (byUser i)) m.

Definition unindex (key : sessionKey) (x : conn) (i : indexes) : indexes :=
  mkIndexes (delete key (bySession i)) (claims i) (claimsByAuth i) (removeIndex (authKeyID x) (sessionID x) (byAuthKey i))
    (match business x with Some b => removeIndex b key (byBusinessAuthKey i) | None => byBusinessAuthKey i end)
    (if bool_decide (user x = 0) then byUser i else removeIndex (user x) key (byUser i)).
Definition removeLocked (c : positive) (dropPending : bool) (m : manager) : Run (manager * Z) :=
  x ← deref (conns m !! c);
  let key := connSessionKey x in
  if negb (bool_decide (bySession (idx m) !! key = Some c)) then Done (m, 0)
  else
    let m := set_idx (unindex key x (idx m)) m in
    m ← clearSessionChannelIndexesLocked c key m;
    m ← update c (set_activation 0 0) m;
    m ← (if dropPending then deletePending key m else Done m);
    Done (cancelFlush key m, user x).
Definition retireConnLocked (c : positive) (dropPending : bool) (m : manager) : Run (manager * Z) :=
  m ← beginTerminalShutdown c m; removeLocked c dropPending m.
Definition retireClaimLocked (key : sessionKey) (c : positive) (dropPending : bool) (m : manager) : Run manager :=
  if negb (bool_decide (claims (idx m) !! key = Some c)) then Done m
  else
    m ← beginTerminalShutdown c m;
    let m := removeClaimLocked key c m in
    m ← (if dropPending && bool_decide (bySession (idx m) !! key = None) then deletePending key m else Done m);
    Done (cancelFlush key m).

(** ** Logical sessions *)

Definition resolveLogical (key : sessionKey) (x : conn) (l : logicalSession) (m : manager) : manager :=
  let l := match business x with Some b => mkLogical (outbound l) (offlineAt l) (Some b) | None => l end in
  set_persistent (outbound l) (set_logical (<[key := l]> (logicalSessions m)) m).
Definition attachLogicalSession (c : positive) (m : manager) : Run manager :=
  x ← deref (conns m !! c);
  let key := connSessionKey x in
  let '(l, m) := match logicalSessions m !! key with
                 | Some l => (l, m)
                 | None => (mkLogical (nextOutbound m) 0 None, set_nextOutbound (Pos.succ (nextOutbound m)) m)
                 end in
  let m := resolveLogical key x (mkLogical (outbound l) 0 (l_business l)) m in
  update c (λ x, mkConn (authKeyID x) (sessionID x) (createdAt x) (lifecycle x) (transportOpen x) (ident x) (upd x) (outbound l)) m.
Definition adoptLogicalSession (c : positive) (m : manager) : Run manager :=
  x ← deref (conns m !! c);
  if bool_decide (lifecycle x = Retired) then Done m
  else
    let key := connSessionKey x in
    Done (resolveLogical key x (default (mkLogical (outboundState x) 0 None) (logicalSessions m !! key)) m).
Definition owned (key : sessionKey) (m : manager) : bool :=
  negb (bool_decide (bySession (idx m) !! key = None)) || negb (bool_decide (claims (idx m) !! key = None)).
Definition markLogicalSessionOfflineLocked (key : sessionKey) (now : Z) (m : manager) : manager :=
  match logicalSessions m !! key with
  | Some l =>
    if owned key m then m
    else if bool_decide (offlineAt l = 0) then set_logical (<[key := mkLogical (outbound l) now (l_business l)]> (logicalSessions m)) m
    else m
  | None => m
  end.
(** Taking a logical session out, and what follows outside the lock. *)
Definition destroyLogicalSession (key : sessionKey) (m : manager) : manager :=
  match logicalSessions m !! key with
  | Some l => releaseLogicalSession key (outbound l) (set_logical (delete key (logicalSessions m)) m)
  | None => m
  end.
Definition bindLogicalSessionAuthKeyLocked (key : sessionKey) (b : Z) (m : manager) : manager :=
  match logicalSessions m !! key with
  | Some l => set_logical (<[key := mkLogical (outbound l) (offlineAt l) (Some b)]> (logicalSessions m)) m
  | None => m
  end.

Section ops.
Context `{Ranges}.

Fixpoint forLoop {A} (body : A → manager → Run manager) (l : list A) (m : manager) : Run manager :=
  match l with [] => Done m | x :: l => m ← body x m; forLoop body l m end.

(** The removal loops over logical sessions. *)
Definition dropLogical (P : sessionKey → logicalSession → bool) (m : manager) : manager :=
  foldl (λ m p, if P p.1 p.2 then destroyLogicalSession p.1 m else m) m (range (logicalSessions m)).
Definition sweepable (now : Z) (l : logicalSession) : bool :=
  negb (bool_decide (offlineAt l = 0)) && negb (bool_decide (now - offlineAt l < logicalSessionOfflineTTL)).
Definition sweepLogicalSessions (now : Z) (m : manager) : manager :=
  foldl (λ m p,
    if negb (sweepable now p.2) then m
    else if owned p.1 m then set_logical (<[p.1 := mkLogical (outbound p.2) 0 (l_business p.2)]> (logicalSessions m)) m
    else destroyLogicalSession p.1 m) m (range (logicalSessions m)).
Definition ForgetLogicalSessionsForRawAuthKey (a : Z) (m : manager) : manager := dropLogical (λ key _, bool_decide (key.1 = a)) m.
Definition releaseAllLogicalSessions (m : manager) : manager := dropLogical (λ _ _, true) m.

(** ** Taking over a session *)

(** [beginActivationClaim]; [closes] says that the socket closes between its
    two looks at it. *)
Definition beginActivationClaim (c : positive) (closes : bool) (m : manager) : Run (manager * bool) :=
  x ← deref (conns m !! c);
  if negb (transportOpen x) then Done (m, false)
  else if negb (bool_decide (lifecycle x = Provisional)) then Done (m, false)
  else if closes then m ← update c (λ x, close_transport (set_lifecycle Retired x)) m; Done (m, false)
  else m ← update c (set_lifecycle Claiming) m; Done (m, true).

(** [oldestAuthOwnerLocked]: published sessions first, then claims; the first
    of several equally old ones in visiting order. *)
Definition older (a : Z) (exclude : positive) (isClaim : bool) (m : manager) (best : option (sessionKey * positive * bool * Z)) (p : Z * positive)
    : option (sessionKey * positive * bool * Z) :=
  if bool_decide (p.2 = exclude) then best
  else
    match conns m !! p.2 with
    | None => best
    | Some x =>
      match best with
      | Some (_, _, _, t) => if bool_decide (createdAt x < t) then Some ((a, p.1), p.2, isClaim, createdAt x) else best
      | None => Some ((a, p.1), p.2, isClaim, createdAt x)
      end
    end.
Definition oldestAuthOwnerLocked (a : Z) (exclude : positive) (m : manager) : option (sessionKey * positive * bool * Z) :=
  foldl (older a exclude true m) (foldl (older a exclude false m) None (range (inner a (byAuthKey (idx m))))) (range (inner a (claimsByAuth (idx m)))).
Definition ownersOf (a : Z) (m : manager) : nat := (size (inner a (byAuthKey (idx m))) + size (inner a (claimsByAuth (idx m))))%nat.
(** The eviction loop; every round removes an owner, so [fuel] rounds suffice. *)
Fixpoint evictLoop (fuel : nat) (a : Z) (c : positive) (m : manager) : Run (manager * list positive) :=
  match fuel with
  | O => Done (m, [])
  | S fuel =>
    if negb (bool_decide (maxSessionsPerAuthKey ≤ Z.of_nat (ownersOf a m))) then Done (m, [])
    else
      match oldestAuthOwnerLocked a c m with
      | None => Done (m, [])
      | Some (key, victim, isClaim, _) =>
        m ← (if isClaim : bool then retireClaimLocked key victim true m else '(m, _) ← retireConnLocked victim true m; Done m);
        '(m, vs) ← evictLoop fuel a c m;
        Done (m, victim :: vs)
      end
  end.
(** The locked section of [BeginActivation]: the connections it fenced, or the
    refusal. *)
Definition claimSession (c : positive) (m : manager) : Run (manager * option (list positive)) :=
  x ← deref (conns m !! c);
  let key := connSessionKey x in
  if negb (transportOpen x) || negb (bool_decide (lifecycle x = Claiming)) then m ← beginTerminalShutdown c m; Done (m, None)
  else
    '(m, r1) ← match claims (idx m) !! key with
               | Some o => if bool_decide (o = c) then Done (m, []) else m ← retireClaimLocked key o false m; Done (m, [o])
               | None => Done (m, [])
               end;
    '(m, r2) ← match bySession (idx m) !! key with
               | Some o => if bool_decide (o = c) then Done (m, []) else '(m, _) ← retireConnLocked o false m; Done (m, [o])
               | None => Done (m, [])
               end;
    '(m, r3) ← evictLoop (S (ownersOf (authKeyID x) m)) (authKeyID x) c m;
    Done (addClaimLocked key c m, Some (r1 ++ r2 ++ r3)).

(** [AbortActivation]; [now] is the clock reading under the lock. *)
Definition AbortActivation (now : Z) (c : positive) (m : manager) : Run manager :=
  x ← deref (conns m !! c);
  let key := connSessionKey x in
  if negb (bool_decide (claims (idx m) !! key = Some c)) then Done m
  else
    m ← beginTerminalShutdown c m;
    let m := removeClaimLocked key c m in
    m ← (if bool_decide (bySession (idx m) !! key = None) then m ← deletePending key m; Done (cancelFlush key m) else Done m);
    closeConnBatch [c] (markLogicalSessionOfflineLocked key now m).
(** The rest of [BeginActivation], with the outcome of the wait for the fenced
    writers. *)
Definition finishActivation (now : Z) (c : positive) (retired : list positive) (converged : bool) (m : manager) : Run (manager * bool) :=
  m ← closeConnBatch retired m;
  if converged then Done (m, true) else m ← AbortActivation now c m; Done (m, false).

Definition publishIndexes (key : sessionKey) (c : positive) (x : conn) (i : indexes) : indexes :=
  mkIndexes (<[key := c]> (bySession i)) (claims i) (claimsByAuth i) (addIndex (authKeyID x) (sessionID x) c (byAuthKey i))
    (match business x with Some b => addIndex b key c (byBusinessAuthKey i) | None => byBusinessAuthKey i end)
    (if bool_decide (user x = 0) then byUser i else addIndex (user x) key c (byUser i)).
(** [PublishActivation]; [closes] as in [beginActivationClaim]. *)
Definition PublishActivation (c : positive) (closes : bool) (m : manager) : Run (manager * bool) :=
  x ← deref (conns m !! c);
  let key := connSessionKey x in
  if negb (bool_decide (claims (idx m) !! key = Some c)) then Done (m, false)
  else if negb (bool_decide (lifecycle x = Claiming)) then Done (removeClaimLocked key c m, false)
  else if match bySession (idx m) !! key with Some o => negb (bool_decide (o = c)) | None => false end
  then m ← beginTerminalShutdown c (removeClaimLocked key c m); Done (m, false)
  else if negb (transportOpen x) then Done (removeClaimLocked key c m, false)
  else if closes then m ← update c (λ x, close_transport (set_lifecycle Retired x)) m; Done (removeClaimLocked key c m, false)
  else
    m ← update c (set_lifecycle Active) m;
    let m := removeClaimLocked key c m in
    let m := set_idx (publishIndexes key c x (idx m)) m in
    m ← (if bool_decide (user x = 0) then Done m else update c (set_user (user x) true) m);
    Done (m, true).

(** The locked section of [Unregister], after the shutdown; the event for the
    lifecycle observer is the account that lost a session and whether it was
    its last. *)
Definition Unregister (now : Z) (c : positive) (m : manager) : Run (manager * option (sessionKey * Z * bool)) :=
  m ← beginTerminalShutdown c m;
  x ← deref (conns m !! c);
  let key := connSessionKey x in
  m ← (if bool_decide (claims (idx m) !! key = Some c)
       then m ← deletePending key (removeClaimLocked key c m); Done (cancelFlush key m) else Done m);
  '(m, e) ← (if bool_decide (bySession (idx m) !! key = Some c)
             then '(m, u) ← removeLocked c true m;
                  Done (m, Some (key, u, negb (bool_decide (u = 0)) && bool_decide (inner u (byUser (idx m)) = ∅)))
             else Done (m, None));
  Done (markLogicalSessionOfflineLocked key now m, e).

Definition DestroySessionForAuthKey (key : sessionKey) (m : manager) : Run (manager * bool) :=
  match bySession (idx m) !! key with
  | Some c =>
    '(m, _) ← retireConnLocked c true m;
    m ← closeConnBatch [c] m;
    Done (destroyLogicalSession key m, true)
  | None =>
    match claims (idx m) !! key with
    | Some c =>
      m ← retireClaimLocked key c true m;
      m ← closeConnBatch [c] m;
      Done (destroyLogicalSession key m, true)
    | None => m ← deletePending key m; Done (destroyLogicalSession key m, false)
    end
  end.

(** ** Accounts and keys *)

Definition reindexUser (key : sessionKey) (f : gmap Z (gmap sessionKey positive) → gmap Z (gmap sessionKey positive)) (m : manager) : manager :=
  let i := idx m in
  set_idx (mkIndexes (bySession i) (claims i) (claimsByAuth i) (byAuthKey i) (byBusinessAuthKey i) (f (byUser i))) m.
Definition bindUserLocked (c : positive) (key : sessionKey) (u : Z) (m : manager) : Run manager :=
  x ← deref (conns m !! c);
  let old := user x in
  m ← update c (λ x, set_user u (userIDResolved (ident x)) x) m;
  m ← (if bool_decide (old = 0) then Done m
       else
         let m := reindexUser key (removeIndex old key) m in
         if bool_decide (old = u) then Done m else forgetAccount c key m);
  m ← update c (set_user u true) m;
  if bool_decide (u = 0) then forgetAccount c key m else Done (reindexUser key (addIndex u key c) m).
Definition BindUserForAuthKey (key : sessionKey) (u : Z) (m : manager) : Run manager :=
  match bySession (idx m) !! key with Some c => bindUserLocked c key u m | None => Done m end.

Definition reindexBusiness (f : gmap Z (gmap sessionKey positive) → gmap Z (gmap sessionKey positive)) (m : manager) : manager :=
  let i := idx m in
  set_idx (mkIndexes (bySession i) (claims i) (claimsByAuth i) (byAuthKey i) (f (byBusinessAuthKey i)) (byUser i)) m.
Definition bindAuthKeyLocked (c : positive) (key : sessionKey) (b : Z) (m : manager) : Run manager :=
  x ← deref (conns m !! c);
  let changed := negb (bool_decide (business x = Some b)) in
  let m := match business x with Some old => reindexBusiness (removeIndex old key) m | None => m end in
  m ← update c (set_business b) m;
  let m := reindexBusiness (addIndex b key c) (bindLogicalSessionAuthKeyLocked key b m) in
  if changed then
    let m := if bool_decide (user x = 0) then m else reindexUser key (removeIndex (user x) key) m in
    m ← forgetAccount c key m;
    update c (set_user 0 false) m
  else Done m.
Definition BindAuthKeyForSession (key : sessionKey) (b : Z) (m : manager) : Run manager :=
  match bySession (idx m) !! key with Some c => bindAuthKeyLocked c key b m | None => Done m end.
Definition BindAuthKeyForRawAuthKey (a b : Z) (m : manager) : Run manager :=
  forLoop (λ p m, if bool_decide (bySession (idx m) !! (a, p.1) = Some p.2) then bindAuthKeyLocked p.2 (a, p.1) b m else Done m)
    (range (inner a (byAuthKey (idx m)))) m.

(** [businessAuthKeyCandidatesLocked] with the test of its callers. *)
Definition businessAuthKeyCandidatesLocked (b : Z) (m : manager) : gmap sessionKey positive :=
  let keep (m' : gmap sessionKey positive) := filter (λ p, bySession (idx m) !! p.1 = Some p.2) m' in
  keep (inner b (byBusinessAuthKey (idx m))) ∪ keep (kmap (λ s, (b, s)) (inner b (byAuthKey (idx m)))).
Definition usesKey (b : Z) (c : positive) (m : manager) : bool :=
  match conns m !! c with Some x => connUsesBusinessAuthKey x b | None => false end.
Definition unbindLocked (c : positive) (key : sessionKey) (m : manager) : Run manager :=
  x ← deref (conns m !! c);
  m ← update c (λ x, set_user 0 (userIDResolved (ident x)) x) m;
  let m := if bool_decide (user x = 0) then m else reindexUser key (removeIndex (user x) key) m in
  m ← forgetAccount c key m;
  update c (set_user 0 true) m.
Definition UnbindAuthKey (b : Z) (m : manager) : Run manager :=
  forLoop (λ p m, if usesKey b p.2 m then unbindLocked p.2 p.1 m else Done m) (range (businessAuthKeyCandidatesLocked b m)) m.

(** ** Revocation *)

Definition retireUsing (b : Z) (p : sessionKey * positive) (m : manager) : Run manager :=
  if usesKey b p.2 m then '(m, _) ← retireConnLocked p.2 true m; Done m else Done m.
Definition retireClaimUsing (b : Z) (p : sessionKey * positive) (m : manager) : Run manager :=
  if usesKey b p.2 m then retireClaimLocked p.1 p.2 true m else Done m.
Definition usingConns (b : Z) (ps : list (sessionKey * positive)) (m : manager) : list positive :=
  map snd (filter (λ p, usesKey b p.2 m = true) ps).
Definition CloseSessionsForBusinessAuthKey (b : Z) (m : manager) : Run (manager * list positive) :=
  let active := range (businessAuthKeyCandidatesLocked b m) in
  let claiming := range (claims (idx m)) in
  let closed := usingConns b active m ++ usingConns b claiming m in
  m ← forLoop (retireUsing b) active m;
  m ← forLoop (retireClaimUsing b) claiming m;
  let m := dropLogical (λ key l, bool_decide (key.1 = b) || bool_decide (l_business l = Some b)) m in
  m ← closeConnBatch closed m;
  Done (m, closed).
(** [closeSessionsForRawAuthKey]; [skip] spares one session or one connection. *)
Definition closeSessionsForRawAuthKey (a : Z) (skip : Z → positive → bool) (m : manager) : Run (manager * list positive) :=
  let active := filter (λ p, skip p.1 p.2 = false) (range (inner a (byAuthKey (idx m)))) in
  m ← forLoop (λ p m, '(m, _) ← retireConnLocked p.2 true m; Done m) active m;
  let claiming := filter (λ p, skip p.1 p.2 = false) (range (inner a (claimsByAuth (idx m)))) in
  m ← forLoop (λ p m, retireClaimLocked (a, p.1) p.2 true m) claiming m;
  let closed := map snd active ++ map snd claiming in
  m ← closeConnBatch closed m;
  Done (m, closed).
End ops.
End Manager.
