(* ===== verification/SessionRouting.v ===== *)
(** * Routing of updates to sessions

    The rest of [internal/mtprotoedge/session_manager.go]: channel interests,
    memberships and subscriptions of live sessions, the questions the fan-out
    asks about who is online, readiness for updates, and the staging and
    flushing of pushes for sessions that are not ready. *)

From stdpp Require Import sorting.
From S2P Require Import Prelude TrackedBudget SessionIndex SessionPending Sessions.
Import Index Pending Manager.

Module Routing.

Definition set_interests (i : chanIndex) (m : manager) : manager := set_chs (mkChannels i (subscriptions (chs m)) (members (chs m))) m.
Definition set_subscriptions (i : subIndex) (m : manager) : manager := set_chs (mkChannels (interests (chs m)) i (members (chs m))) m.
Definition set_members (i : chanIndex) (m : manager) : manager := set_chs (mkChannels (interests (chs m)) (subscriptions (chs m)) i) m.

(** The live session of [key] if it belongs to account [u]. *)
Definition sessionOf (key : sessionKey) (u : Z) (m : manager) : option positive :=
  c ← bySession (idx m) !! key;
  x ← conns m !! c;
  if bool_decide (user x = u) then Some c else None.
Definition bumpMembership (c : positive) (m : manager) : Run manager := update c bump_membership m.

Section routing.
Context `{Ranges}.

(** ** Channel indexes *)

Definition TrackChannelInterest (key : sessionKey) (u : Z) (ids : list Z) (m : manager) : manager :=
  if bool_decide (u = 0) then m
  else
    match sessionOf key u m with
    | None => m
    | Some _ =>
      let m := set_interests (clearChannelIndexLocked key (interests (chs m))) m in
      match ids with [] => m | _ => set_interests (trackChannelIndexLocked key u ids (interests (chs m))) m end
    end.
Definition ClearChannelInterest (key : sessionKey) (u : Z) (m : manager) : manager :=
  if bool_decide (u = 0) then m
  else match sessionOf key u m with None => m | Some _ => set_interests (clearChannelIndexLocked key (interests (chs m))) m end.
Definition subscriptionTTL (ttl : Z) : Z :=
  if bool_decide (ttl ≤ 0) then defaultChannelSubscriptionTTL
  else if bool_decide (ttl > maxChannelSubscriptionTTL) then maxChannelSubscriptionTTL else ttl.
Definition RefreshChannelSubscription (key : sessionKey) (u id ttl now : Z) (m : manager) : manager :=
  if bool_decide (u = 0) || bool_decide (id = 0) then m
  else
    match sessionOf key u m with
    | None => m
    | Some _ =>
      let s := pruneSessionSubscriptionsLocked key now (subscriptions (chs m)) in
      set_subscriptions (subscribe key u id (now + subscriptionTTL ttl) s) m
    end.
Definition ChannelMembershipGeneration (key : sessionKey) (m : manager) : Z :=
  match bySession (idx m) !! key with
  | Some c => match conns m !! c with Some x => membershipGen (upd x) | None => 0 end
  | None => 0
  end.
Definition SetSessionChannelMemberships (key : sessionKey) (u : Z) (ids : list Z) (expectedGen : Z) (m : manager) : Run manager :=
  match bySession (idx m) !! key with
  | None => Done m
  | Some c =>
    x ← deref (conns m !! c);
    let clear m := m ← bumpMembership c m; Done (set_members (clearChannelIndexLocked key (members (chs m))) m) in
    let track m := set_members (trackChannelIndexLocked key u ids (members (chs m))) m in
    if bool_decide (u = 0) || negb (bool_decide (user x = u)) then m ← clear m; update c (set_synced false) m
    else if negb (bool_decide (membershipGen (upd x) = expectedGen)) then m ← update c (set_synced false) m; Done (track m)
    else
      m ← clear m;
      m ← update c (set_synced false) m;
      update c (set_synced true) (track m)
  end.
Definition AddUserChannelMembership (u id : Z) (m : manager) : Run manager :=
  if bool_decide (u = 0) || bool_decide (id = 0) then Done m
  else
    forLoop (λ p m,
      x ← deref (conns m !! p.2);
      if negb (bool_decide (user x = u)) then Done m
      else m ← bumpMembership p.2 m; Done (set_members (trackChannelIndexLocked p.1 u [id] (members (chs m))) m))
      (range (inner u (byUser (idx m)))) m.
Definition RemoveUserChannelMembership (u id : Z) (m : manager) : Run manager :=
  if bool_decide (u = 0) || bool_decide (id = 0) then Done m
  else
    forLoop (λ p m, m ← bumpMembership p.2 m; Done (set_members (removeChannelIndexLocked p.1 id (members (chs m))) m))
      (range (inner u (byUser (idx m)))) m.

(** ** Who is online *)

Definition IsUserOnline (u : Z) (m : manager) : bool :=
  negb (bool_decide (u = 0)) && negb (bool_decide (inner u (byUser (idx m)) = ∅)).
(** The scan shared by the channel questions: accounts of live sessions, each
    once, at most [limit] of them when it is positive. *)
Fixpoint scanUsers (keep : sessionKey * Z → bool) (limit : Z) (ps : list (sessionKey * Z)) (out : list Z) : list Z :=
  match ps with
  | [] => out
  | p :: ps =>
    if bool_decide (p.2 = 0) || negb (keep p) || bool_decide (p.2 ∈ out) then scanUsers keep limit ps out
    else
      let out := out ++ [p.2] in
      if bool_decide (limit > 0) && bool_decide (limit ≤ Z.of_nat (length out)) then out else scanUsers keep limit ps out
  end.
Definition isLive (m : manager) (key : sessionKey) : bool := negb (bool_decide (bySession (idx m) !! key = None)).
Definition onlineChannelUsers (i : chanIndex) (id limit : Z) (m : manager) : list Z :=
  if bool_decide (id = 0) then [] else scanUsers (λ p, isLive m p.1) limit (range (inner id (index i))) [].
Definition OnlineChannelUserIDs (id limit : Z) (m : manager) : list Z := onlineChannelUsers (interests (chs m)) id limit m.
Definition OnlineChannelMemberUserIDs (id limit : Z) (m : manager) : list Z := onlineChannelUsers (members (chs m)) id limit m.
Definition OnlineChannelMemberUserIDsExcluding (id : Z) (exclude : gset Z) (limit : Z) (m : manager) : list Z :=
  if bool_decide (id = 0) then []
  else scanUsers (λ p, negb (bool_decide (p.2 ∈ exclude)) && isLive m p.1) limit (range (inner id (index (members (chs m))))) [].
Fixpoint scanCandidates (m : manager) (limit : Z) (ids : list Z) (seen out : list Z) : list Z :=
  match ids with
  | [] => out
  | u :: ids =>
    if bool_decide (u = 0) || bool_decide (u ∈ seen) then scanCandidates m limit ids seen out
    else if bool_decide (inner u (byUser (idx m)) = ∅) then scanCandidates m limit ids (seen ++ [u]) out
    else
      let out := out ++ [u] in
      if bool_decide (limit > 0) && bool_decide (limit ≤ Z.of_nat (length out)) then out else scanCandidates m limit ids (seen ++ [u]) out
  end.
Definition OnlineUserIDsForCandidates (ids : list Z) (limit : Z) (m : manager) : list Z := scanCandidates m limit ids [] [].

(** The scan for passive subscribers, which drops the subscriptions that have
    expired or whose session is no longer live for the same account. *)
Fixpoint scanSubscribers (now id : Z) (exclude : gset Z) (limit : Z) (m : manager) (ps : list (sessionKey * channelSubscription))
    (s : subIndex) (out : list Z) : subIndex * list Z :=
  match ps with
  | [] => (s, out)
  | (key, x) :: ps =>
    let u := sub_userID x in
    if bool_decide (sub_expiresAt x ≤ now) then scanSubscribers now id exclude limit m ps (removeChannelSubscriptionLocked key id s) out
    else if bool_decide (u = 0) || bool_decide (u ∈ exclude) then scanSubscribers now id exclude limit m ps s out
    else if bool_decide (sessionOf key u m = None) then scanSubscribers now id exclude limit m ps (removeChannelSubscriptionLocked key id s) out
    else if bool_decide (u ∈ out) then scanSubscribers now id exclude limit m ps s out
    else
      let out := out ++ [u] in
      if bool_decide (limit > 0) && bool_decide (limit ≤ Z.of_nat (length out)) then (s, out)
      else scanSubscribers now id exclude limit m ps s out
  end.
Definition OnlineChannelSubscriberUserIDsExcluding (id : Z) (exclude : gset Z) (limit now : Z) (m : manager) : manager * list Z :=
  if bool_decide (id = 0) then (m, [])
  else
    let '(s, out) := scanSubscribers now id exclude limit m (range (inner id (bySubscribedChannel (subscriptions (chs m))))) (subscriptions (chs m)) [] in
    (set_subscriptions s m, out).
(** [OnlineChannelIDsSnapshot]: the channels with a live member, then those
    with a live subscriber, the dead subscriptions dropped. *)
Definition liveMemberChannels (m : manager) : list Z :=
  map fst (filter (λ p, bool_decide (0 < p.1) && existsb (λ q, isLive m q.1) (range p.2)) (range (index (members (chs m))))).
Definition pruneChannel (now id : Z) (m : manager) (ps : list (sessionKey * channelSubscription)) (s : subIndex) : subIndex * bool :=
  foldl (λ st q,
    if bool_decide (sub_expiresAt q.2 ≤ now) || bool_decide (sessionOf q.1 (sub_userID q.2) m = None)
    then (removeChannelSubscriptionLocked q.1 id st.1, st.2) else (st.1, true)) (s, false) ps.
Definition liveSubscribedChannels (now : Z) (seen : list Z) (m : manager) : subIndex * list Z :=
  foldl (λ st p,
    if bool_decide (p.1 ≤ 0) then st
    else
      let '(s, live) := pruneChannel now p.1 m (range p.2) st.1 in
      (s, if live && negb (bool_decide (p.1 ∈ seen)) then st.2 ++ [p.1] else st.2))
    (subscriptions (chs m), seen) (range (bySubscribedChannel (subscriptions (chs m)))).
Definition OnlineChannelIDsSnapshot (now : Z) (m : manager) : manager * list Z :=
  let '(s, out) := liveSubscribedChannels now (liveMemberChannels m) m in
  (set_subscriptions s m, merge_sort Z.le out).

(** ** Readiness *)

Definition ready (x : conn) : bool := hasProfile (upd x) && receivesUpdates (upd x) && membershipsSynced (upd x).
Definition nextToken (n : Z) : Z := if bool_decide ((n + 1) mod 2 ^ 64 = 0) then 1 else (n + 1) mod 2 ^ 64.
Definition BeginSessionUpdatesActivation (key : sessionKey) (now : Z) (m : manager) : Run (manager * Z) :=
  match bySession (idx m) !! key with
  | None => Done (m, 0)
  | Some c =>
    x ← deref (conns m !! c);
    if bool_decide (lifecycle x = Retired) || ready x then Done (m, 0)
    else if negb (bool_decide (updatesActivationToken (upd x) = 0)) &&
      (bool_decide (key ∈ flushing (psh m)) || bool_decide (now - updatesActivationAt (upd x) < updatesActivationClaimTTL)) then Done (m, 0)
    else
      let token := nextToken (updatesActivationSeq m) in
      m ← update c (set_activation token now) (set_seqs token (bootstrapProbeSeq m) m);
      Done (m, token)
  end.
Definition EndSessionUpdatesActivation (key : sessionKey) (token : Z) (m : manager) : Run manager :=
  if bool_decide (token = 0) then Done m
  else
    match bySession (idx m) !! key with
    | None => Done m
    | Some c =>
      x ← deref (conns m !! c);
      if negb (bool_decide (updatesActivationToken (upd x) = token)) || bool_decide (key ∈ flushing (psh m)) then Done m
      else update c (set_activation 0 0) m
    end.
Definition BeginSessionBootstrapProbe (key : sessionKey) (m : manager) : Run (manager * Z) :=
  match bySession (idx m) !! key with
  | None => Done (m, 0)
  | Some c =>
    x ← deref (conns m !! c);
    if bool_decide (lifecycle x = Retired) || bootstrapProbed (upd x) || negb (bool_decide (bootstrapProbeToken (upd x) = 0)) then Done (m, 0)
    else
      let token := nextToken (bootstrapProbeSeq m) in
      m ← update c (set_probe token (bootstrapProbed (upd x))) (set_seqs (updatesActivationSeq m) token m);
      Done (m, token)
  end.
Definition EndSessionBootstrapProbe (key : sessionKey) (token : Z) (success : bool) (m : manager) : Run manager :=
  if bool_decide (token = 0) then Done m
  else
    match bySession (idx m) !! key with
    | None => Done m
    | Some c =>
      x ← deref (conns m !! c);
      if negb (bool_decide (bootstrapProbeToken (upd x) = token)) then Done m
      else update c (λ x, set_probe 0 (bootstrapProbed (upd x) || success) x) m
    end.

(** [setReceivesUpdatesLocked]: the account of the batch to flush, if a flush
    starts. *)
Definition stopReceiving (c : positive) (key : sessionKey) (m : manager) : Run manager :=
  m ← update c (set_receives false) m;
  m ← clearSessionChannelIndexesLocked c key m;
  m ← update c (set_synced false) m;
  m ← update c (set_activation 0 0) m;
  Done (cancelFlush key m).
Definition setReceivesUpdatesLocked (c : positive) (key : sessionKey) (receives : bool) (m : manager) : Run (manager * option Z) :=
  x ← deref (conns m !! c);
  if negb receives || negb (hasProfile (upd x)) then m ← stopReceiving c key m; Done (m, None)
  else if receivesUpdates (upd x) then m ← update c (set_activation 0 0) m; Done (m, None)
  else if bool_decide (key ∈ flushing (psh m)) then Done (m, None)
  else if bool_decide (pendingOf key (psh m) = []) then m ← update c (set_receives true) m; Done (m, None)
  else Done (set_psh (set_flushing ({[ key ]} ∪ flushing (psh m)) (psh m)) m, Some (user x)).
Definition SetReceivesUpdatesForAuthKey (key : sessionKey) (receives : bool) (m : manager) : Run (manager * option (positive * Z)) :=
  match bySession (idx m) !! key with
  | None => Done (m, None)
  | Some c => '(m, o) ← setReceivesUpdatesLocked c key receives m; Done (m, match o with Some u => Some (c, u) | None => None end)
  end.

(** ** Staging a push *)

(** The write section of [queueOrSendPrepared]: staged, or the connection to
    send it to. *)
Definition queueOrSend (now : Z) (key : sessionKey) (t u : Z) (r : positive) (m : manager) : Run (manager * option positive) :=
  match bySession (idx m) !! key with
  | None => Done (m, None)
  | Some c =>
    x ← deref (conns m !! c);
    if receivesUpdates (upd x) then Done (m, Some c)
    else '(p, _) ← queuePreparedLocked now key t u (user x) r (psh m); Done (set_psh p m, None)
  end.
Definition shouldExcludeSession (x : conn) (auth : option Z) (session : Z) : bool :=
  if bool_decide (session = 0) then false
  else if negb (bool_decide (sessionID x = session)) then false
  else match auth with None => true | Some a => bool_decide (a = 0) || bool_decide (authKeyID x = a) end.
Definition shouldExcludeBusinessAuthKey (x : conn) (key : option Z) : bool :=
  match key with None => false | Some b => if bool_decide (b = 0) then false else connUsesBusinessAuthKey x b end.
(** The write-locked scan of [pushToUserWithSender]: who is sent to, who is
    staged for.  [supports] is the layer test of the push. *)
Fixpoint pushScan (now u t upds : Z) (r : option positive) (skip : conn → bool) (ps : list (sessionKey * positive)) (m : manager)
    : Run (manager * list positive) :=
  match ps with
  | [] => Done (m, [])
  | (key, c) :: ps =>
    x ← deref (conns m !! c);
    if skip x then pushScan now u t upds r skip ps m
    else if receivesUpdates (upd x) then '(m, cs) ← pushScan now u t upds r skip ps m; Done (m, c :: cs)
    else
      m ← match r with
          | Some r => '(p, _) ← queuePreparedLocked now key t upds u r (psh m); Done (set_psh p m)
          | None => Done m
          end;
      pushScan now u t upds r skip ps m
  end.
Definition pushToUser (now u t upds : Z) (r : option positive) (auth : option Z) (session : Z) (key : option Z) (supports : conn → bool) (m : manager)
    : Run (manager * list positive) :=
  pushScan now u t upds r (λ x, shouldExcludeSession x auth session || shouldExcludeBusinessAuthKey x key || negb (supports x))
    (range (inner u (byUser (idx m)))) m.

(** ** Flushing *)

(** A flush between two of its steps: about to take the queue, with a batch it
    took, or with the rest of a batch whose first send failed. *)
Inductive flush :=
  | FlushIdle (c : positive) (key : sessionKey) (owner attempt : Z)
  | FlushBatch (c : positive) (key : sessionKey) (owner attempt : Z) (batch : list queuedPush)
  | FlushFailed (c : positive) (key : sessionKey) (owner attempt : Z) (batch : list queuedPush)
  | FlushDone.
Definition endFlush (c : positive) (key : sessionKey) (m : manager) : Run manager := update c (set_activation 0 0) (cancelFlush key m).
Definition abandonFlush (c : positive) (key : sessionKey) (m : manager) : Run manager := m ← deletePending key m; endFlush c key m.
Definition current (c : positive) (key : sessionKey) (m : manager) : bool :=
  bool_decide (bySession (idx m) !! key = Some c) && bool_decide (key ∈ flushing (psh m)).
(** The first section of a round of [runFlush]. *)
Definition flushTake (now : Z) (c : positive) (key : sessionKey) (owner attempt : Z) (m : manager) : Run (manager * flush) :=
  if negb (current c key m) then Done (m, FlushDone)
  else
    x ← deref (conns m !! c);
    if negb (bool_decide (user x = owner)) then m ← abandonFlush c key m; Done (m, FlushDone)
    else
      '(p, batch) ← takePendingLocked now key true (psh m);
      let m := set_psh p m in
      match batch with
      | [] => m ← update c (set_receives true) m; m ← endFlush c key m; Done (m, FlushDone)
      | _ => Done (m, FlushBatch c key owner attempt batch)
      end.
Inductive sendResult := SendOK | SendStale | SendLayer | SendFailed.
Definition releaseBatch (batch : list queuedPush) (m : manager) : Run manager :=
  p ← releaseQueuedPushes batch (psh m); Done (set_psh p m).
(** One entry of a batch, up to the outcome of its send: the account is looked
    at again, and the body prepared for the connection's profile (a profile and
    a size) is charged to the entry. *)
Definition flushSend (c : positive) (key : sessionKey) (owner attempt : Z) (x : queuedPush) (rest : list queuedPush)
    (prepared : option (Z * Z)) (res : sendResult) (m : manager) : Run (manager * flush) :=
  y ← deref (conns m !! c);
  if negb (bool_decide (user y = owner)) then
    m ← abandonFlush c key m; m ← releaseBatch (x :: rest) m; Done (m, FlushDone)
  else
    '(m, res) ← match prepared with
                | Some (profile, bytes) =>
                  '(p, ok) ← reservePrepared (q_reservation x) profile bytes (psh m);
                  Done (set_psh p m, if ok : bool then res else SendFailed)
                | None => Done (m, match res with SendOK => SendFailed | r => r end)
                end;
    match res with
    | SendOK | SendStale =>
      m ← releaseBatch [x] m;
      Done (m, match rest with [] => FlushIdle c key owner attempt | _ => FlushBatch c key owner attempt rest end)
    | SendLayer =>
      m ← closeConnBatch [c] m; m ← releaseBatch (x :: rest) m; Done (m, FlushDone)
    | SendFailed => Done (m, FlushFailed c key owner attempt (x :: rest))
    end.
(** The critical section after a failed send. *)
Definition flushFail (c : positive) (key : sessionKey) (owner attempt : Z) (batch : list queuedPush) (m : manager) : Run (manager * flush) :=
  y ← deref (conns m !! c);
  if negb (current c key m) || negb (bool_decide (user y = owner)) then
    m ← (if bool_decide (user y = owner) then Done m else abandonFlush c key m);
    m ← releaseBatch batch m; Done (m, FlushDone)
  else
    p ← requeue key batch (psh m);
    let m := set_psh p m in
    if bool_decide (maxFlushAttempts ≤ attempt + 1)
    then m ← update c (set_receives true) m; m ← abandonFlush c key m; Done (m, FlushDone)
    else Done (m, FlushIdle c key owner (attempt + 1)).
End routing.
End Routing.
