(* ===== verification/SessionsInv.v ===== *)
(** * The invariant of the session manager

    Every index is exactly the part of the registry it stands for, owners of a
    session are exclusive and fenced, and channel entries belong to live
    sessions of their account.  The facts are about the part of a connection
    that never depends on its readiness state ([core]). *)

From S2P Require Import Prelude TrackedBudget SessionIndex SessionPending Sessions.
Import Index Pending Manager.

Record core := mkCore { k_key : sessionKey; k_life : connLifecycle; k_ident : identity }.
(** The registry does not look at [userIDResolved]. *)
Definition view (x : conn) : identity := mkIdentity (businessAuthKeyID (ident x)) (businessAuthKeyResolved (ident x)) (user x) false.
Definition coreOf (x : conn) : core := mkCore (connSessionKey x) (lifecycle x) (view x).
Definition coresOf (m : manager) : gmap positive core := coreOf <$> conns m.
Definition k_user (k : core) : Z := userID (k_ident k).
Definition k_business (k : core) : option Z := if businessAuthKeyResolved (k_ident k) then Some (businessAuthKeyID (k_ident k)) else None.

Definition ownersIn (a : Z) (i : indexes) : Z := Z.of_nat (size (inner a (byAuthKey i)) + size (inner a (claimsByAuth i))).

(** A live session of an account. *)
Definition LiveUser (cs : gmap positive core) (i : indexes) (key : sessionKey) (u : Z) : Prop :=
  u ≠ 0 ∧ ∃ c k, bySession i !! key = Some c ∧ cs !! c = Some k ∧ k_user k = u.
Definition ChansOk (P : sessionKey → Z → Prop) (ch : channels) : Prop :=
  ChanInv P (interests ch) ∧ SubInv P (subscriptions ch) ∧ ChanInv P (members ch).

Record RegOk (cs : gmap positive core) (i : indexes) (ch : channels) : Prop := {
  rg_session key c : bySession i !! key = Some c → ∃ k, cs !! c = Some k ∧ k_key k = key ∧ (k_life k = Active ∨ k_life k = Retired);
  rg_claim key c : claims i !! key = Some c → ∃ k, cs !! c = Some k ∧ k_key k = key ∧ (k_life k = Claiming ∨ k_life k = Retired);
  rg_disjoint key c : claims i !! key = Some c → bySession i !! key = None;
  rg_active c k : cs !! c = Some k → k_life k = Active → bySession i !! k_key k = Some c;
  rg_auth a s : lookup2 a s (byAuthKey i) = bySession i !! (a, s);
  rg_claimAuth a s : lookup2 a s (claimsByAuth i) = claims i !! (a, s);
  rg_user u key c : lookup2 u key (byUser i) = Some c ↔ u ≠ 0 ∧ bySession i !! key = Some c ∧ ∃ k, cs !! c = Some k ∧ k_user k = u;
  rg_business b key c : lookup2 b key (byBusinessAuthKey i) = Some c ↔ bySession i !! key = Some c ∧ ∃ k, cs !! c = Some k ∧ k_business k = Some b;
  rg_noempty : NoEmpty (byAuthKey i) ∧ NoEmpty (claimsByAuth i) ∧ NoEmpty (byUser i) ∧ NoEmpty (byBusinessAuthKey i);
  rg_channels : ChansOk (LiveUser cs i) ch;
  rg_cap a : ownersIn a i ≤ maxSessionsPerAuthKey;
}.
Definition RegInv (m : manager) : Prop := RegOk (coresOf m) (idx m) (chs m).

Lemma ChansOk_mono (P Q : sessionKey → Z → Prop) ch : (∀ k u, P k u → Q k u) → ChansOk P ch → ChansOk Q ch.
Proof. intros HPQ (? & ? & ?). split; [by eapply ChanInv_mono|]. split; [by eapply SubInv_mono|by eapply ChanInv_mono]. Qed.
Definition clearChannels (key : sessionKey) (ch : channels) : channels :=
  mkChannels (clearChannelIndexLocked key (interests ch)) (clearChannelSubscriptionsLocked key (subscriptions ch)) (clearChannelIndexLocked key (members ch)).
Lemma ChansOk_clear (P : sessionKey → Z → Prop) key ch : ChansOk P ch → ChansOk (λ k u, k ≠ key ∧ P k u) (clearChannels key ch).
Proof. intros (? & ? & ?). split; [by apply clear_ok|]. split; [by apply subs_clear_ok|by apply clear_ok]. Qed.

Lemma registry_start : RegInv NewSessionManager.
Proof.
  assert (Hno : ∀ {A} k (x : A), (∅ : gmap sessionKey A) !! k ≠ Some x) by (intros A k x; by rewrite lookup_empty).
  split; simpl.
  - by intros key c ?%Hno.
  - by intros key c ?%Hno.
  - by intros key c ?%Hno.
  - intros c k. unfold coresOf. simpl. by rewrite fmap_empty, lookup_empty.
  - intros a s. by rewrite lookup_empty.
  - intros a s. by rewrite lookup_empty.
  - intros u key c. split; [by rewrite lookup2_empty|]. by intros (_ & ?%Hno & _).
  - intros b key c. split; [by rewrite lookup2_empty|]. by intros (?%Hno & _).
  - repeat split; apply NoEmpty_empty.
  - split; [apply ChanInv_empty|]. split; [apply SubInv_empty|apply ChanInv_empty].
  - intros a. unfold ownersIn, inner. simpl. rewrite lookup_empty. simpl. rewrite map_size_empty. by vm_compute.
Qed.

(** ** Changing a connection *)

(** An owner keeps its key and can only be retired by somebody else. *)
Definition rank (l : connLifecycle) : Z := match l with Provisional => 0 | Claiming => 1 | Active => 2 | Retired => 3 end.

Lemma RegOk_life cs i ch c k l :
  RegOk cs i ch → cs !! c = Some k →
  (l = Retired ∨ (l = Claiming ∧ k_life k = Provisional) ∨ l = k_life k) →
  RegOk (<[c := mkCore (k_key k) l (k_ident k)]> cs) i ch.
Proof.
  intros HR Hc Hl. set (k' := mkCore (k_key k) l (k_ident k)).
  assert (Hlook : ∀ c' x, cs !! c' = Some x → ∃ x', <[c := k']> cs !! c' = Some x' ∧ k_key x' = k_key x ∧ k_ident x' = k_ident x ∧
    (x' = x ∨ (c' = c ∧ x = k ∧ k_life x' = l))).
  { intros c' x Hx. destruct (decide (c = c')) as [<-|Hne].
    - rewrite lookup_insert_eq. assert (x = k) as -> by congruence. exists k'. auto 10.
    - rewrite lookup_insert_ne by done. exists x. auto 10. }
  assert (Hback : ∀ c' x', <[c := k']> cs !! c' = Some x' → ∃ x, cs !! c' = Some x ∧ k_key x' = k_key x ∧ k_ident x' = k_ident x).
  { intros c' x' [[<- <-]|[Hne Hx]]%lookup_insert_Some; [by exists k|by exists x']. }
  assert (Huser : ∀ (P : core → Prop) c', (∀ x x', k_ident x' = k_ident x → P x ↔ P x') → (∃ x, cs !! c' = Some x ∧ P x) ↔ (∃ x, <[c := k']> cs !! c' = Some x ∧ P x)).
  { intros P c' HP. split; intros (x & Hx & Hpx).
    - destruct (Hlook _ _ Hx) as (x' & ? & _ & Hid & _). exists x'. split; [done|]. by apply (HP x x').
    - destruct (Hback _ _ Hx) as (x' & ? & _ & Hid). exists x'. split; [done|]. by apply (HP x' x). }
  split; try apply HR.
  - intros key c' Hin. destruct (rg_session _ _ _ HR _ _ Hin) as (x & Hx & Hk & Hlife).
    destruct (Hlook _ _ Hx) as (x' & Hx' & Hk' & _ & Hor). exists x'. split; [done|]. split; [congruence|].
    destruct Hor as [->|(-> & -> & ->)]; [done|]. destruct Hl as [->|[[-> Hp]| ->]]; [by right|destruct Hlife; congruence|done].
  - intros key c' Hin. destruct (rg_claim _ _ _ HR _ _ Hin) as (x & Hx & Hk & Hlife).
    destruct (Hlook _ _ Hx) as (x' & Hx' & Hk' & _ & Hor). exists x'. split; [done|]. split; [congruence|].
    destruct Hor as [->|(-> & -> & ->)]; [done|]. destruct Hl as [->|[[-> Hp]| ->]]; [by right|by left|done].
  - intros c' x' Hx' Ha. apply lookup_insert_Some in Hx' as [[<- <-]|[Hne Hx']]; [|by apply (rg_active _ _ _ HR)].
    simpl in *. destruct Hl as [->|[[-> _]|Hl]]; [done|done|]. apply (rg_active _ _ _ HR); congruence.
  - intros u key c'. rewrite (rg_user _ _ _ HR), (Huser (λ x, k_user x = u)); [done|]. intros x x' Hid. unfold k_user. by rewrite Hid.
  - intros b key c'. rewrite (rg_business _ _ _ HR), (Huser (λ x, k_business x = Some b)); [done|]. intros x x' Hid. unfold k_business. by rewrite Hid.
  - eapply ChansOk_mono; [|apply HR]. intros key u (Hu & c' & x & Hin & Hx & Hux). split; [done|].
    destruct (Hlook _ _ Hx) as (x' & Hx' & _ & Hid & _). exists c', x'. split; [done|]. split; [done|]. unfold k_user in *. by rewrite Hid.
Qed.

(** ** Leaving and claiming *)

Lemma inner_size_remove {A} (i : gmap Z (gmap Z A)) a s k x :
  lookup2 a s i = Some x → Z.of_nat (size (inner k (removeIndex a s i))) = Z.of_nat (size (inner k i)) - ind (a = k).
Proof.
  intros Hl. rewrite inner_remove. destruct (decide (a = k)) as [<-|]; [|rewrite ind_false by done; lia].
  rewrite ind_true by done. unfold lookup2 in Hl. rewrite map_size_delete_Some by (by eexists).
  assert (size (inner a i) ≠ 0%nat); [|lia]. intros Hz%map_size_empty_inv. by rewrite Hz, lookup_empty in Hl.
Qed.
Lemma inner_size_add {A} (i : gmap Z (gmap Z A)) a s k x :
  lookup2 a s i = None → Z.of_nat (size (inner k (addIndex a s x i))) = Z.of_nat (size (inner k i)) + ind (a = k).
Proof.
  intros Hl. rewrite inner_add. destruct (decide (a = k)) as [<-|]; [|rewrite ind_false by done; lia].
  rewrite ind_true by done. unfold lookup2 in Hl. rewrite map_size_insert_None by done. lia.
Qed.

(** Filing under an attribute of the owner of a session: the entries of the
    session are exactly the one under its attribute. *)
Lemma removeIndex_owner (P : Z → positive → Prop) (by_ : gmap Z (gmap sessionKey positive)) (bs : gmap sessionKey positive) key c o :
  (∀ u k c', lookup2 u k by_ = Some c' ↔ bs !! k = Some c' ∧ P u c') → bs !! key = Some c → (∀ u, P u c ↔ o = Some u) →
  ∀ u k c', lookup2 u k (match o with Some u => removeIndex u key by_ | None => by_ end) = Some c' ↔ k ≠ key ∧ bs !! k = Some c' ∧ P u c'.
Proof.
  intros Hby Hkey HP u k c'. assert (Hother : k = key → (bs !! k = Some c' ∧ P u c') → o = Some u).
  { intros -> [Hb Hp]. assert (c' = c) as -> by congruence. by apply HP. }
  destruct o as [v|].
  - rewrite lookup2_remove. destruct (decide (v = u ∧ key = k)) as [[-> ->]|Hn]; [naive_solver|]. rewrite Hby. naive_solver.
  - rewrite Hby. naive_solver.
Qed.
Lemma addIndex_owner (P : Z → positive → Prop) (by_ : gmap Z (gmap sessionKey positive)) (bs : gmap sessionKey positive) key c o :
  (∀ u k c', lookup2 u k by_ = Some c' ↔ k ≠ key ∧ bs !! k = Some c' ∧ P u c') → bs !! key = Some c → (∀ u, P u c ↔ o = Some u) →
  ∀ u k c', lookup2 u k (match o with Some u => addIndex u key c by_ | None => by_ end) = Some c' ↔ bs !! k = Some c' ∧ P u c'.
Proof.
  intros Hby Hkey HP u k c'. assert (Hother : bs !! k = Some c' ∧ P u c' → k = key → c' = c ∧ o = Some u).
  { intros [Hb Hp] ->. assert (c' = c) as -> by congruence. split; [done|by apply HP]. }
  destruct (decide (k = key)) as [->|Hk].
  - destruct o as [v|].
    + rewrite lookup2_add. destruct (decide (v = u ∧ key = key)) as [[-> _]|Hn].
      * split; [intros [= <-]; split; [done|by apply HP]|]. intros [Hb _]. congruence.
      * rewrite Hby. split; [tauto|]. intros Hx. destruct (Hother Hx eq_refl) as [_ [= ->]]. tauto.
    + rewrite Hby. split; [tauto|]. intros Hx. by destruct (Hother Hx eq_refl).
  - assert (Hl : lookup2 u k (match o with Some u => addIndex u key c by_ | None => by_ end) = lookup2 u k by_).
    { destruct o as [v|]; [|done]. rewrite lookup2_add. by rewrite decide_False by naive_solver. }
    rewrite Hl, Hby. tauto.
Qed.

Definition userOpt (u : Z) : option Z := if bool_decide (u = 0) then None else Some u.
Lemma userOpt_Some u v : userOpt u = Some v ↔ u = v ∧ v ≠ 0.
Proof. unfold userOpt. case_bool_decide; naive_solver. Qed.
Lemma if_userOpt {A} u (f : Z → A) (y : A) : (if bool_decide (u = 0) then y else f u) = match userOpt u with Some v => f v | None => y end.
Proof. unfold userOpt. by case_bool_decide. Qed.

Definition HasUser (cs : gmap positive core) (u : Z) (c : positive) : Prop := u ≠ 0 ∧ ∃ k, cs !! c = Some k ∧ k_user k = u.
Definition HasBusiness (cs : gmap positive core) (b : Z) (c : positive) : Prop := ∃ k, cs !! c = Some k ∧ k_business k = Some b.
Lemma HasUser_opt cs c k : cs !! c = Some k → ∀ u, HasUser cs u c ↔ userOpt (k_user k) = Some u.
Proof. intros Hc u. rewrite userOpt_Some. unfold HasUser. split; [intros (? & k' & ? & ?); naive_solver|intros [<- ?]; eauto]. Qed.
Lemma HasBusiness_opt cs c k : cs !! c = Some k → ∀ b, HasBusiness cs b c ↔ k_business k = Some b.
Proof. intros Hc b. unfold HasBusiness. split; [intros (k' & ? & ?); naive_solver|eauto]. Qed.
Lemma rg_user' cs i ch : RegOk cs i ch → ∀ u key c, lookup2 u key (byUser i) = Some c ↔ bySession i !! key = Some c ∧ HasUser cs u c.
Proof. intros HR u key c. rewrite (rg_user _ _ _ HR). unfold HasUser. tauto. Qed.
Lemma rg_business' cs i ch : RegOk cs i ch → ∀ b key c, lookup2 b key (byBusinessAuthKey i) = Some c ↔ bySession i !! key = Some c ∧ HasBusiness cs b c.
Proof. intros HR. apply HR. Qed.

Lemma RegOk_remove cs i ch c x :
  RegOk cs i ch → cs !! c = Some (coreOf x) → bySession i !! connSessionKey x = Some c → lifecycle x = Retired →
  RegOk cs (unindex (connSessionKey x) x i) (clearChannels (connSessionKey x) ch).
Proof.
  intros HR Hc Hin Hret. unfold unindex. set (key := connSessionKey x).
  assert (Hdel : ∀ k c' (P : Prop), (k ≠ key ∧ bySession i !! k = Some c' ∧ P) ↔ delete key (bySession i) !! k = Some c' ∧ P).
  { intros k c' P. rewrite lookup_delete_Some. naive_solver. }
  split; simpl.
  - intros k c' [_ Hk]%lookup_delete_Some. by apply HR.
  - apply HR.
  - intros k c' Hk. apply lookup_delete_None. right. by apply (rg_disjoint _ _ _ HR k c').
  - intros c' k Hk Ha. pose proof (rg_active _ _ _ HR c' k Hk Ha) as Hb. apply lookup_delete_Some. split; [|done].
    intros Heq. rewrite <-Heq in Hb. assert (c' = c) as -> by (unfold key in Hb; congruence). rewrite Hc in Hk. injection Hk as <-. simpl in Ha. congruence.
  - intros a s. rewrite lookup2_remove, (rg_auth _ _ _ HR). unfold key, connSessionKey. destruct (decide _) as [[<- <-]|Hn].
    + by rewrite lookup_delete_eq.
    + rewrite lookup_delete_ne; [done|]. naive_solver.
  - apply HR.
  - intros u k c'. rewrite (if_userOpt (user x) (λ u, removeIndex u key (byUser i))), (removeIndex_owner (HasUser cs) _ (bySession i) key c); [|by eapply rg_user'|done|by apply (HasUser_opt _ _ (coreOf x))].
    unfold HasUser. rewrite Hdel. tauto.
  - intros b k c'. rewrite (removeIndex_owner (HasBusiness cs) _ (bySession i) key c); [|by eapply rg_business'|done|by apply (HasBusiness_opt _ _ (coreOf x))].
    unfold HasBusiness. rewrite Hdel. tauto.
  - destruct (rg_noempty _ _ _ HR) as (? & ? & ? & ?). repeat split; [by apply NoEmpty_remove|done| |].
    + case_bool_decide; [done|by apply NoEmpty_remove].
    + case_match; [by apply NoEmpty_remove|done].
  - eapply ChansOk_mono; [|apply ChansOk_clear, HR]. intros k u (Hne & Hu & c' & k' & Hb & Hk' & Huk). split; [done|].
    exists c', k'. split; [|done]. apply lookup_delete_Some. auto.
  - intros a. unfold ownersIn. simpl. rewrite Nat2Z.inj_add.
    rewrite (inner_size_remove _ _ _ _ c) by (rewrite (rg_auth _ _ _ HR); exact Hin).
    pose proof (rg_cap _ _ _ HR a) as Hcap. unfold ownersIn in Hcap. pose proof (ind_range (authKeyID x = a)). lia.
Qed.

Definition unclaim (key : sessionKey) (i : indexes) : indexes :=
  mkIndexes (bySession i) (delete key (claims i)) (removeIndex key.1 key.2 (claimsByAuth i)) (byAuthKey i) (byBusinessAuthKey i) (byUser i).
Lemma RegOk_unclaim cs i ch key c : RegOk cs i ch → claims i !! key = Some c → RegOk cs (unclaim key i) ch.
Proof.
  intros HR Hin. split; simpl; try apply HR.
  - intros k c' [_ Hk]%lookup_delete_Some. by apply HR.
  - intros k c' [_ Hk]%lookup_delete_Some. by eapply (rg_disjoint _ _ _ HR).
  - intros a s. rewrite lookup2_remove, (rg_claimAuth _ _ _ HR). destruct key as [a' s']. simpl. destruct (decide _) as [[-> ->]|Hn].
    + by rewrite lookup_delete_eq.
    + rewrite lookup_delete_ne; [done|]. naive_solver.
  - destruct (rg_noempty _ _ _ HR) as (? & ? & ? & ?). repeat split; [done|by apply NoEmpty_remove|done|done].
  - intros a. unfold ownersIn. simpl. rewrite Nat2Z.inj_add. destruct key as [a' s']. simpl.
    rewrite (inner_size_remove _ _ _ _ c) by (rewrite (rg_claimAuth _ _ _ HR); exact Hin).
    pose proof (rg_cap _ _ _ HR a) as Hcap. unfold ownersIn in Hcap. pose proof (ind_range (a' = a)). lia.
Qed.
Definition claim (key : sessionKey) (c : positive) (i : indexes) : indexes :=
  mkIndexes (bySession i) (<[key := c]> (claims i)) (addIndex key.1 key.2 c (claimsByAuth i)) (byAuthKey i) (byBusinessAuthKey i) (byUser i).
Lemma RegOk_claim cs i ch c k :
  RegOk cs i ch → cs !! c = Some k → k_life k = Claiming → claims i !! k_key k = None → bySession i !! k_key k = None →
  ownersIn (k_key k).1 i < maxSessionsPerAuthKey → RegOk cs (claim (k_key k) c i) ch.
Proof.
  intros HR Hc Hl Hnone Hnot Hroom. split; simpl; try apply HR.
  - intros key c' [[<- <-]|[_ Hk]]%lookup_insert_Some; [exists k; auto|by apply HR].
  - intros key c' [[<- <-]|[_ Hk]]%lookup_insert_Some; [done|by eapply (rg_disjoint _ _ _ HR)].
  - intros a s. rewrite lookup2_add, (rg_claimAuth _ _ _ HR). destruct (k_key k) as [a' s']. simpl. destruct (decide _) as [[-> ->]|Hn].
    + by rewrite lookup_insert_eq.
    + rewrite lookup_insert_ne; [done|]. naive_solver.
  - destruct (rg_noempty _ _ _ HR) as (? & ? & ? & ?). repeat split; [done|by apply NoEmpty_add|done|done].
  - intros a. unfold ownersIn. simpl. rewrite Nat2Z.inj_add. destruct (k_key k) as [a' s']. simpl in *.
    rewrite (inner_size_add _ _ _ _ c) by (rewrite (rg_claimAuth _ _ _ HR); exact Hnone).
    pose proof (rg_cap _ _ _ HR a) as Hcap. unfold ownersIn in Hcap, Hroom. destruct (decide (a' = a)) as [->|]; [rewrite ind_true by done; lia|rewrite ind_false by done; lia].
Qed.

(** ** Publishing and changing identity *)

Lemma owner_unique cs i ch key key' c : RegOk cs i ch → bySession i !! key = Some c → bySession i !! key' = Some c → key = key'.
Proof.
  intros HR H1 H2. destruct (rg_session _ _ _ HR _ _ H1) as (k1 & ? & <- & _). destruct (rg_session _ _ _ HR _ _ H2) as (k2 & ? & <- & _). congruence.
Qed.

Lemma RegOk_publish cs i ch c x :
  RegOk cs i ch → cs !! c = Some (coreOf x) → claims i !! connSessionKey x = Some c → bySession i !! connSessionKey x = None →
  RegOk (<[c := mkCore (connSessionKey x) Active (view x)]> cs) (publishIndexes (connSessionKey x) c x (unclaim (connSessionKey x) i)) ch.
Proof.
  intros HR Hc Hcl Hnone. pose proof (RegOk_unclaim _ _ _ _ _ HR Hcl) as HU. set (key := connSessionKey x) in *.
  set (k' := mkCore key Active (view x)). set (cs' := <[c := k']> cs).
  assert (Hout : ∀ k, bySession i !! k ≠ Some c).
  { intros k Hk. destruct (rg_session _ _ _ HR _ _ Hk) as (y & Hy & Hyk & _). rewrite Hc in Hy. injection Hy as <-. simpl in Hyk. unfold key in Hnone. rewrite Hyk in Hnone. congruence. }
  assert (Hkeep : ∀ k c', bySession i !! k = Some c' → cs' !! c' = cs !! c').
  { intros k c' Hk. unfold cs'. apply lookup_insert_ne. intros <-. by apply (Hout k). }
  assert (Hins : ∀ k c' (P : Prop), (k ≠ key ∧ <[key := c]> (bySession i) !! k = Some c' ∧ P) ↔ bySession i !! k = Some c' ∧ P).
  { intros k c' P. rewrite lookup_insert_Some. split; [naive_solver|]. intros [Hk HP]. assert (k ≠ key) by (intros ->; congruence). naive_solver. }
  assert (Hself : cs' !! c = Some k') by apply lookup_insert_eq.
  unfold publishIndexes. split; simpl.
  - intros k c' [[<- <-]|[_ Hk]]%lookup_insert_Some; [exists k'; auto|]. rewrite (Hkeep _ _ Hk). by apply HR.
  - intros k c' [Hne Hk]%lookup_delete_Some. destruct (rg_claim _ _ _ HR _ _ Hk) as (y & Hy & Hyk & Hl). unfold cs'.
    destruct (decide (c = c')) as [<-|Hcc]; [|rewrite lookup_insert_ne by done; eauto].
    rewrite Hc in Hy. injection Hy as <-. done.
  - intros k c' [Hne Hk]%lookup_delete_Some. rewrite lookup_insert_ne by done. by apply (rg_disjoint _ _ _ HR k c').
  - intros c' y Hy Ha. apply lookup_insert_Some in Hy as [[<- <-]|[Hcc Hy]]; [by rewrite lookup_insert_eq|].
    pose proof (rg_active _ _ _ HR _ _ Hy Ha) as Hb. rewrite lookup_insert_ne; [done|]. intros Heq. rewrite <-Heq in Hb. congruence.
  - intros a s. rewrite lookup2_add, (rg_auth _ _ _ HR). unfold key, connSessionKey. destruct (decide _) as [[<- <-]|Hn].
    + by rewrite lookup_insert_eq.
    + rewrite lookup_insert_ne; [done|]. naive_solver.
  - apply HU.
  - intros u k c'. rewrite (if_userOpt (user x) (λ u, addIndex u key c (byUser i))).
    rewrite (addIndex_owner (HasUser cs') _ (<[key := c]> (bySession i)) key c); [unfold HasUser; tauto| |apply lookup_insert_eq|exact (HasUser_opt cs' c k' Hself)].
    intros u' k0 c0. rewrite Hins, (rg_user' _ _ _ HR). split; intros [Hb Hu]; (split; [done|]); revert Hu; unfold HasUser; by rewrite (Hkeep _ _ Hb).
  - intros b k c'. rewrite (addIndex_owner (HasBusiness cs') _ (<[key := c]> (bySession i)) key c); [done| |apply lookup_insert_eq|exact (HasBusiness_opt cs' c k' Hself)].
    intros b' k0 c0. rewrite Hins, (rg_business' _ _ _ HR). split; intros [Hb Hu]; (split; [done|]); revert Hu; unfold HasBusiness; by rewrite (Hkeep _ _ Hb).
  - destruct (rg_noempty _ _ _ HU) as (? & ? & ? & ?). repeat split; [by apply NoEmpty_add|done| |].
    + case_bool_decide; [done|by apply NoEmpty_add].
    + case_match; [by apply NoEmpty_add|done].
  - eapply ChansOk_mono; [|apply HR]. intros k u (Hu & c' & y & Hb & Hy & Huy). split; [done|]. exists c', y. rewrite (Hkeep _ _ Hb).
    split; [|done]. simpl. rewrite lookup_insert_ne; [done|]. intros Heq. rewrite <-Heq in Hb. congruence.
  - intros a. unfold ownersIn. simpl. rewrite Nat2Z.inj_add. unfold key, connSessionKey in *. simpl.
    rewrite (inner_size_add _ _ _ _ c) by (rewrite (rg_auth _ _ _ HR); exact Hnone).
    rewrite (inner_size_remove _ _ _ _ c) by (rewrite (rg_claimAuth _ _ _ HR); exact Hcl).
    pose proof (rg_cap _ _ _ HR a) as Hcap. unfold ownersIn in Hcap. lia.
Qed.

Definition moveUser (old new : Z) (key : sessionKey) (c : positive) (by_ : gmap Z (gmap sessionKey positive)) : gmap Z (gmap sessionKey positive) :=
  let by_ := if bool_decide (old = 0) then by_ else removeIndex old key by_ in
  if bool_decide (new = 0) then by_ else addIndex new key c by_.
Definition moveBusiness (old new : option Z) (key : sessionKey) (c : positive) (by_ : gmap Z (gmap sessionKey positive)) : gmap Z (gmap sessionKey positive) :=
  let by_ := match old with Some b => removeIndex b key by_ | None => by_ end in
  match new with Some b => addIndex b key c by_ | None => by_ end.
Definition identBusiness (d : identity) : option Z := if businessAuthKeyResolved d then Some (businessAuthKeyID d) else None.

Lemma move_owner (P Q : Z → positive → Prop) (by_ : gmap Z (gmap sessionKey positive)) (bs : gmap sessionKey positive) key c o n :
  (∀ u k c', lookup2 u k by_ = Some c' ↔ bs !! k = Some c' ∧ P u c') → bs !! key = Some c → (∀ u, P u c ↔ o = Some u) → (∀ u, Q u c ↔ n = Some u) →
  (∀ k c', bs !! k = Some c' → k ≠ key → ∀ u, P u c' ↔ Q u c') →
  ∀ u k c', lookup2 u k (moveBusiness o n key c by_) = Some c' ↔ bs !! k = Some c' ∧ Q u c'.
Proof.
  intros Hby Hkey HP HQ Hsame. unfold moveBusiness. apply addIndex_owner; [|done|done].
  intros u k c'. rewrite (removeIndex_owner P by_ bs key c o Hby Hkey HP). split; intros (Hne & Hb & Hp); (split; [done|split; [done|]]); by apply (Hsame k).
Qed.
Lemma moveUser_business old new key c by_ : moveUser old new key c by_ = moveBusiness (userOpt old) (userOpt new) key c by_.
Proof. unfold moveUser, moveBusiness, userOpt. by do 2 case_bool_decide. Qed.
Lemma NoEmpty_move o n key c by_ : NoEmpty by_ → NoEmpty (moveBusiness o n key c by_).
Proof.
  intros Hn. unfold moveBusiness. destruct o, n; [apply NoEmpty_add, NoEmpty_remove|apply NoEmpty_remove|apply NoEmpty_add|]; done.
Qed.

Lemma RegOk_reident cs i ch ch' key c k d :
  RegOk cs i ch → bySession i !! key = Some c → cs !! c = Some k →
  ChansOk (λ k' u, LiveUser cs i k' u ∧ (k' = key → u = userID d)) ch' →
  RegOk (<[c := mkCore (k_key k) (k_life k) d]> cs)
    (mkIndexes (bySession i) (claims i) (claimsByAuth i) (byAuthKey i) (moveBusiness (k_business k) (identBusiness d) key c (byBusinessAuthKey i))
      (moveUser (k_user k) (userID d) key c (byUser i))) ch'.
Proof.
  intros HR Hin Hc Hch. set (k' := mkCore (k_key k) (k_life k) d). set (cs' := <[c := k']> cs).
  assert (Hself : cs' !! c = Some k') by apply lookup_insert_eq.
  assert (Hkeep : ∀ key' c', bySession i !! key' = Some c' → key' ≠ key → cs' !! c' = cs !! c').
  { intros key' c' Hk Hne. unfold cs'. apply lookup_insert_ne. intros <-. apply Hne. by eapply owner_unique. }
  assert (Hlook : ∀ c' x, cs !! c' = Some x → ∃ x', cs' !! c' = Some x' ∧ k_key x' = k_key x ∧ k_life x' = k_life x).
  { intros c' x Hx. destruct (decide (c = c')) as [<-|Hne]; [exists k'; split; [done|]; replace x with k by congruence; done|].
    exists x. unfold cs'. by rewrite lookup_insert_ne. }
  split; simpl; try apply HR.
  - intros key' c' Hk. destruct (rg_session _ _ _ HR _ _ Hk) as (x & Hx & <- & Hl). destruct (Hlook _ _ Hx) as (x' & ? & ? & Hl'). exists x'. by rewrite Hl'.
  - intros key' c' Hk. destruct (rg_claim _ _ _ HR _ _ Hk) as (x & Hx & <- & Hl). destruct (Hlook _ _ Hx) as (x' & ? & ? & Hl'). exists x'. by rewrite Hl'.
  - intros c' x' Hx' Ha. apply lookup_insert_Some in Hx' as [[<- <-]|[Hne Hx']]; [exact (rg_active _ _ _ HR c k Hc Ha)|by apply (rg_active _ _ _ HR)].
  - intros u key' c'. rewrite moveUser_business, (move_owner (HasUser cs) (HasUser cs') _ (bySession i) key c); [unfold HasUser; tauto|by eapply rg_user'|done|by apply HasUser_opt| |].
    + exact (HasUser_opt cs' c k' Hself).
    + intros key0 c0 Hb Hne u0. unfold HasUser. by rewrite (Hkeep _ _ Hb Hne).
  - intros b key' c'. rewrite (move_owner (HasBusiness cs) (HasBusiness cs') _ (bySession i) key c); [done|by eapply rg_business'|done|by apply HasBusiness_opt| |].
    + exact (HasBusiness_opt cs' c k' Hself).
    + intros key0 c0 Hb Hne u0. unfold HasBusiness. by rewrite (Hkeep _ _ Hb Hne).
  - destruct (rg_noempty _ _ _ HR) as (? & ? & ? & ?). repeat split; [done|done| |by apply NoEmpty_move]. rewrite moveUser_business. by apply NoEmpty_move.
  - eapply ChansOk_mono; [|exact Hch]. intros key' u [(Hu & c' & x & Hb & Hx & Hux) Hkey]. split; [done|].
    destruct (decide (key' = key)) as [->|Hne]; [exists c, k'; split; [done|]; split; [done|]; symmetry; by apply Hkey|].
    exists c', x. by rewrite (Hkeep _ _ Hb Hne).
Qed.
