(* ===== verification/SessionsOps.v ===== *)
(** * What the operations of the session manager do

    Under the invariant every critical section returns, keeps the invariant and
    the accounting of staged pushes, and moves connections only forward in
    their life.  Operations that only take owners away are summed up by
    [Shrunk]. *)

From S2P Require Import Prelude TrackedBudget SessionIndex SessionPending Sessions SessionsInv.
Import Index Pending Manager.

Record Good (held : positive → Z) (m : manager) : Prop := {
  gd_reg : RegInv m;
  gd_pend : PendInv held (psh m);
}.

(** Everything but the readiness state of connections is as it was. *)
Record Same (m m' : manager) : Prop := {
  sm_cores : coresOf m' = coresOf m;
  sm_idx : idx m' = idx m;
  sm_chs : chs m' = chs m;
  sm_psh : psh m' = psh m;
  sm_logical : logicalSessions m' = logicalSessions m;
  sm_released : released m' = released m;
}.
Lemma Same_refl m : Same m m.
Proof. done. Qed.
Lemma Same_trans m1 m2 m3 : Same m1 m2 → Same m2 m3 → Same m1 m3.
Proof. intros [] []. split; congruence. Qed.
Lemma Good_same held m m' : Same m m' → Good held m → Good held m'.
Proof. intros [Hc Hi Hh Hp _ _] [HR HP]. split; [unfold RegInv; by rewrite Hc, Hi, Hh|by rewrite Hp]. Qed.

(** Life only goes on, keys never change. *)
Definition Progress (m m' : manager) : Prop :=
  ∀ c k, coresOf m !! c = Some k → ∃ k', coresOf m' !! c = Some k' ∧ k_key k' = k_key k ∧ rank (k_life k) ≤ rank (k_life k').
Lemma conns_progress_refl m : Progress m m.
Proof. intros c k Hc. exists k. split; [done|]. split; [done|lia]. Qed.
Lemma conns_progress_trans m1 m2 m3 : Progress m1 m2 → Progress m2 m3 → Progress m1 m3.
Proof.
  intros H1 H2 c k Hc. destruct (H1 _ _ Hc) as (k1 & Hc1 & ? & ?). destruct (H2 _ _ Hc1) as (k2 & ? & ? & ?).
  exists k2. split; [done|]. split; [congruence|lia].
Qed.
Lemma Progress_cores m m' : coresOf m' = coresOf m → Progress m m'.
Proof. intros He c k Hc. rewrite He. exists k. split; [done|]. split; [done|lia]. Qed.

(** Owners, claims and staged pushes only go; identities stay. *)
Record Shrunk (m m' : manager) : Prop := {
  sh_core c k : coresOf m !! c = Some k → ∃ k', coresOf m' !! c = Some k' ∧ k_key k' = k_key k ∧ k_ident k' = k_ident k ∧ (k_life k' = k_life k ∨ k_life k' = Retired);
  sh_none c : coresOf m !! c = None → coresOf m' !! c = None;
  sh_session key c : bySession (idx m') !! key = Some c → bySession (idx m) !! key = Some c;
  sh_claims key c : claims (idx m') !! key = Some c → claims (idx m) !! key = Some c;
  sh_logical : logicalSessions m' = logicalSessions m;
  sh_released : released m' = released m;
  sh_pending key x : x ∈ pendingOf key (psh m') → x ∈ pendingOf key (psh m);
}.
Lemma Shrunk_trans m1 m2 m3 : Shrunk m1 m2 → Shrunk m2 m3 → Shrunk m1 m3.
Proof.
  intros [A1 B1 C1 D1 E1 F1 G1] [A2 B2 C2 D2 E2 F2 G2]. split; [|by auto|by auto|by auto|congruence|congruence|by auto].
  intros c k Hc. destruct (A1 _ _ Hc) as (k1 & Hc1 & ? & ? & Hl1). destruct (A2 _ _ Hc1) as (k2 & ? & ? & ? & Hl2).
  exists k2. split; [done|]. split; [congruence|]. split; [congruence|]. destruct Hl2; [destruct Hl1; [left; congruence|right; congruence]|by right].
Qed.
Lemma Shrunk_same m m' : Same m m' → Shrunk m m'.
Proof.
  intros [Hc Hi _ Hp ? ?]. split; try (by rewrite ?Hc, ?Hi, ?Hp). intros c k Hk. rewrite Hc. exists k. auto.
Qed.
Lemma Shrunk_refl m : Shrunk m m.
Proof. apply Shrunk_same, Same_refl. Qed.
Lemma Shrunk_progress m m' : Shrunk m m' → Progress m m'.
Proof.
  intros HS c k Hc. destruct (sh_core _ _ HS _ _ Hc) as (k' & ? & ? & _ & Hl). exists k'. split; [done|]. split; [done|].
  destruct Hl as [->| ->]; [lia|]. destruct (k_life k); simpl; lia.
Qed.

(** ** Connections *)

Lemma cores_lookup m c k : coresOf m !! c = Some k ↔ ∃ x, conns m !! c = Some x ∧ coreOf x = k.
Proof. unfold coresOf. rewrite lookup_fmap. destruct (conns m !! c) as [x|]; simpl; [|naive_solver]. split; [intros [= <-]; eauto|intros (y & [= ->] & <-); done]. Qed.
Lemma update_spec c f m k :
  coresOf m !! c = Some k →
  ∃ x, conns m !! c = Some x ∧ coreOf x = k ∧ update c f m = Done (set_conns (<[c := f x]> (conns m)) m) ∧
    coresOf (set_conns (<[c := f x]> (conns m)) m) = <[c := coreOf (f x)]> (coresOf m).
Proof.
  intros (x & Hx & Hk)%cores_lookup. exists x. unfold update. rewrite Hx. split; [done|]. split; [done|]. split; [done|].
  unfold coresOf. simpl. by rewrite fmap_insert.
Qed.
Lemma update_quiet_at c f m x :
  conns m !! c = Some x → coreOf (f x) = coreOf x → ∃ m', update c f m = Done m' ∧ Same m m'.
Proof.
  intros Hx Hf. assert (Hc : coresOf m !! c = Some (coreOf x)) by (apply cores_lookup; eauto).
  destruct (update_spec c f m _ Hc) as (y & Hy & _ & -> & Hcs). assert (y = x) as -> by congruence. eexists. split; [done|]. split; try done.
  rewrite Hcs, Hf. by apply insert_id.
Qed.
Lemma update_quiet c f m k :
  coresOf m !! c = Some k → (∀ x, coreOf (f x) = coreOf x) → ∃ m', update c f m = Done m' ∧ Same m m'.
Proof. intros (x & Hx & _)%cores_lookup Hf. by apply (update_quiet_at c f m x). Qed.

(** Changing the life of a connection. *)
Lemma update_life held c f m k l :
  Good held m → coresOf m !! c = Some k → (∀ x, coreOf (f x) = mkCore (connSessionKey x) l (view x)) →
  (l = Retired ∨ (l = Claiming ∧ k_life k = Provisional) ∨ l = k_life k) →
  ∃ m', update c f m = Done m' ∧ Good held m' ∧ coresOf m' = <[c := mkCore (k_key k) l (k_ident k)]> (coresOf m) ∧
    idx m' = idx m ∧ chs m' = chs m ∧ psh m' = psh m ∧ logicalSessions m' = logicalSessions m ∧ released m' = released m.
Proof.
  intros [HR HP] Hc Hf Hl. destruct (update_spec c f m k Hc) as (x & Hx & Hk & -> & Hcs). eexists. split; [done|].
  assert (Hcs' : coresOf (set_conns (<[c := f x]> (conns m)) m) = <[c := mkCore (k_key k) l (k_ident k)]> (coresOf m)) by (rewrite Hcs, Hf, <-Hk; done).
  split; [|done]. split; [|done]. unfold RegInv. rewrite Hcs'. simpl. by apply RegOk_life.
Qed.
Lemma shutdown_ok held c m k :
  Good held m → coresOf m !! c = Some k →
  ∃ m', beginTerminalShutdown c m = Done m' ∧ Good held m' ∧ Shrunk m m' ∧ coresOf m' = <[c := mkCore (k_key k) Retired (k_ident k)]> (coresOf m) ∧
    idx m' = idx m ∧ chs m' = chs m ∧ psh m' = psh m.
Proof.
  intros HG Hc. unfold beginTerminalShutdown.
  destruct (update_life held c (set_lifecycle Retired) m k Retired HG Hc) as (m' & -> & HG' & Hcs & Hi & Hch & Hp & Hl & Hr); [done|by left|].
  exists m'. split; [done|]. split; [done|]. split; [|done]. split; [| |by rewrite Hi|by rewrite Hi|done|done|by rewrite Hp].
  - intros c' k' Hk'. rewrite Hcs. destruct (decide (c = c')) as [<-|Hne]; [rewrite lookup_insert_eq|rewrite lookup_insert_ne by done; by eauto 10].
    assert (k' = k) as -> by congruence. eexists. split; [done|]. auto.
  - intros c' Hn. rewrite Hcs. rewrite lookup_insert_ne; [done|]. intros ->. congruence.
Qed.
Lemma closeTransport_ok c m k : coresOf m !! c = Some k → ∃ m', closeTransport c m = Done m' ∧ Same m m'.
Proof. intros Hc. by apply (update_quiet c close_transport m k). Qed.
Lemma closeBatch_ok held cs m :
  Good held m → Forall (λ c, is_Some (coresOf m !! c)) cs →
  ∃ m', closeConnBatch cs m = Done m' ∧ Good held m' ∧ Shrunk m m' ∧ idx m' = idx m ∧ chs m' = chs m ∧ psh m' = psh m.
Proof.
  revert m. induction cs as [|c cs IH]; intros m HG Hcs; cbn [closeConnBatch]; [exists m; split; [done|]; split; [done|]; split; [apply Shrunk_refl|done]|].
  apply Forall_cons in Hcs as [[k Hc] Hcs].
  destruct (shutdown_ok held c m k HG Hc) as (m1 & -> & HG1 & HS1 & Hc1 & Hi1 & Hh1 & Hp1). simpl.
  destruct (closeTransport_ok c m1 (mkCore (k_key k) Retired (k_ident k))) as (m2 & -> & HE2); [rewrite Hc1; apply lookup_insert_eq|]. simpl.
  destruct (IH m2) as (m' & -> & HG' & HS' & Hi & Hh & Hp); [by eapply Good_same| |].
  - eapply Forall_impl; [exact Hcs|]. intros c' [k' Hk']. rewrite (sm_cores _ _ HE2). destruct (sh_core _ _ HS1 _ _ Hk') as (k2 & ? & _). by eexists.
  - exists m'. split; [done|]. split; [done|]. split; [eapply Shrunk_trans; [exact HS1|eapply Shrunk_trans; [apply Shrunk_same; exact HE2|exact HS']]|].
    rewrite Hi, Hh, Hp, (sm_idx _ _ HE2), (sm_chs _ _ HE2), (sm_psh _ _ HE2). by split_and!.
Qed.

Lemma update_kept c f m m' c' : update c f m = Done m' → c' ≠ c → coresOf m' !! c' = coresOf m !! c'.
Proof.
  unfold update. destruct (conns m !! c) as [x|]; [|done]. simpl. intros [= <-] Hne. unfold coresOf. simpl. by rewrite !lookup_fmap, lookup_insert_ne.
Qed.
Lemma closeBatch_kept cs m m' c : closeConnBatch cs m = Done m' → c ∉ cs → coresOf m' !! c = coresOf m !! c.
Proof.
  revert m. induction cs as [|c0 cs IH]; intros m; cbn [closeConnBatch]; [by intros [= <-]|].
  unfold beginTerminalShutdown, closeTransport. destruct (update c0 (set_lifecycle Retired) m) as [m1|] eqn:H1; [|done]. simpl.
  destruct (update c0 close_transport m1) as [m2|] eqn:H2; [|done]. simpl. intros Hb [Hne Hn]%not_elem_of_cons.
  rewrite (IH m2 Hb Hn), (update_kept _ _ _ _ _ H2 Hne). by eapply update_kept.
Qed.

(** ** Account state *)

Lemma clearChannels_ok c key m k :
  coresOf m !! c = Some k →
  ∃ m', clearSessionChannelIndexesLocked c key m = Done m' ∧ coresOf m' = coresOf m ∧ idx m' = idx m ∧ chs m' = clearChannels key (chs m) ∧
    psh m' = psh m ∧ logicalSessions m' = logicalSessions m ∧ released m' = released m.
Proof.
  intros Hc. unfold clearSessionChannelIndexesLocked. set (m0 := set_chs _ m).
  destruct (update_quiet c bump_membership m0 k) as (m1 & -> & [Hcs Hi Hh Hp Hl Hr]); [done|done|]. simpl.
  eexists. split; [done|]. unfold coresOf in *. simpl. split; [done|]. split; [done|]. rewrite Hh. done.
Qed.
Lemma deletePending_good held key m :
  PendInv held (psh m) →
  ∃ m', deletePending key m = Done m' ∧ coresOf m' = coresOf m ∧ idx m' = idx m ∧ chs m' = chs m ∧ logicalSessions m' = logicalSessions m ∧
    released m' = released m ∧ PendInv held (psh m') ∧ pending (psh m') = delete key (pending (psh m)) ∧ flushing (psh m') = flushing (psh m).
Proof.
  intros HP. unfold deletePending. destruct (deletePending_ok held key (psh m) HP) as (p & -> & HI & Hp & Hf). simpl. by eexists.
Qed.
Lemma pendingOf_delete key k p p' : pending p' = delete key (pending p) → pendingOf k p' = if decide (k = key) then [] else pendingOf k p.
Proof. intros He. unfold pendingOf. rewrite He. case_decide; [subst; by rewrite lookup_delete_eq|by rewrite lookup_delete_ne]. Qed.

Lemma forgetAccount_ok held c key m k :
  PendInv held (psh m) → coresOf m !! c = Some k →
  ∃ m', forgetAccount c key m = Done m' ∧ coresOf m' = coresOf m ∧ idx m' = idx m ∧ chs m' = clearChannels key (chs m) ∧
    logicalSessions m' = logicalSessions m ∧ released m' = released m ∧ PendInv held (psh m') ∧
    (∀ k', pendingOf k' (psh m') = if decide (k' = key) then [] else pendingOf k' (psh m)).
Proof.
  intros HP Hc. unfold forgetAccount. destruct (clearChannels_ok c key m k Hc) as (m1 & -> & Hc1 & Hi1 & Hh1 & Hp1 & Hl1 & Hr1). simpl.
  destruct (update_quiet c (set_synced false) m1 k) as (m2 & -> & HE2); [by rewrite Hc1|done|]. simpl.
  destruct (update_quiet c (set_activation 0 0) m2 k) as (m3 & -> & HE3); [by rewrite (sm_cores _ _ HE2), Hc1|done|]. simpl.
  destruct (update_quiet c (set_probe 0 false) m3 k) as (m4 & -> & HE4); [by rewrite (sm_cores _ _ HE3), (sm_cores _ _ HE2), Hc1|done|]. simpl.
  pose proof (Same_trans _ _ _ (Same_trans _ _ _ HE2 HE3) HE4) as [Hc4 Hi4 Hh4 Hp4 Hl4 Hr4].
  destruct (deletePending_good held key m4) as (m5 & -> & Hc5 & Hi5 & Hh5 & Hl5 & Hr5 & HP5 & Hpd & Hf5); [by rewrite Hp4, Hp1|]. simpl.
  eexists. split; [done|]. unfold coresOf in *. simpl. split_and!; try congruence.
  - by apply PendInv_flushing.
  - intros k'. rewrite (pendingOf_delete key k' (psh m)); [done|]. simpl. by rewrite Hpd, Hp4, Hp1.
Qed.

(** ** Leaving the registry *)

(** A key gone from the queues, and perhaps others of its own. *)
Definition DroppedTo (key : sessionKey) (p p' : pushes) : Prop := ∀ k, pendingOf k p' = pendingOf k p ∨ (k = key ∧ pendingOf k p' = []).

Lemma dropPending_ok held (drop : bool) key m :
  PendInv held (psh m) →
  ∃ m', (if drop then deletePending key m else Done m) = Done m' ∧ coresOf m' = coresOf m ∧ idx m' = idx m ∧ chs m' = chs m ∧
    logicalSessions m' = logicalSessions m ∧ released m' = released m ∧ PendInv held (psh m') ∧ DroppedTo key (psh m) (psh m') ∧
    (drop = true → pendingOf key (psh m') = []).
Proof.
  intros HP. destruct drop; [|exists m; split_and!; try done; by left].
  destruct (deletePending_good held key m HP) as (m' & -> & ? & ? & ? & ? & ? & ? & Hpd & _). exists m'. split_and!; try done.
  - intros k. rewrite (pendingOf_delete key k (psh m)) by done. case_decide; [right; by subst|by left].
  - intros _. by rewrite (pendingOf_delete key key (psh m)), decide_True.
Qed.
Lemma DroppedTo_in key p p' k x : DroppedTo key p p' → x ∈ pendingOf k p' → x ∈ pendingOf k p.
Proof. intros Hd. destruct (Hd k) as [->|[_ ->]]; [done|]. by intros ?%elem_of_nil. Qed.

(** Dropping an owner that was retired. *)
Lemma removeLocked_ok held c drop m k :
  Good held m → coresOf m !! c = Some k → k_life k = Retired →
  ∃ m' u, removeLocked c drop m = Done (m', u) ∧ Good held m' ∧ Shrunk m m' ∧ coresOf m' = coresOf m ∧ claims (idx m') = claims (idx m) ∧
    DroppedTo (k_key k) (psh m) (psh m') ∧
    if decide (bySession (idx m) !! k_key k = Some c)
    then bySession (idx m') = delete (k_key k) (bySession (idx m)) ∧ u = k_user k ∧ (drop = true → pendingOf (k_key k) (psh m') = [])
    else m' = m ∧ u = 0.
Proof.
  intros [HR HP] Hc Hl. unfold removeLocked. pose proof Hc as (x & Hx & Hk)%cores_lookup. rewrite Hx. simpl.
  replace (k_key k) with (connSessionKey x) by (by subst k). replace (k_user k) with (user x) by (by subst k). subst k. simpl in Hl. set (key := connSessionKey x).
  destruct (decide (bySession (idx m) !! key = Some c)) as [Hin|Hin].
  2:{ rewrite bool_decide_false by done. simpl. exists m, 0. split_and!; try done; [apply Shrunk_refl|by left]. }
  rewrite bool_decide_true by done. cbn [negb]. set (m0 := set_idx _ m).
  destruct (clearChannels_ok c key m0 (coreOf x)) as (m1 & -> & Hc1 & Hi1 & Hh1 & Hp1 & Hl1 & Hr1); [exact Hc|]. cbn [mbind run_bind].
  destruct (update_quiet c (set_activation 0 0) m1 (coreOf x)) as (m2 & -> & [Hc2 Hi2 Hh2 Hp2 Hl2 Hr2]); [by rewrite Hc1|done|]. cbn [mbind run_bind].
  destruct (dropPending_ok held drop key m2) as (m3 & -> & Hc3 & Hi3 & Hh3 & Hl3 & Hr3 & HP3 & Hd3 & Hd3'); [by rewrite Hp2, Hp1|]. cbn [mbind run_bind].
  assert (Hcs : coresOf m3 = coresOf m) by (by rewrite Hc3, Hc2, Hc1). assert (Hidx : idx m3 = unindex key x (idx m)) by (by rewrite Hi3, Hi2, Hi1).
  rewrite Hp2, Hp1 in Hd3. eexists (cancelFlush key m3), _. split; [done|]. split_and!; try done.
  - split; [|by apply PendInv_flushing]. unfold RegInv. change (RegOk (coresOf m3) (idx m3) (chs m3)). rewrite Hcs, Hidx, Hh3, Hh2, Hh1.
    by apply (RegOk_remove _ _ _ c).
  - split; simpl; try (by rewrite ?Hcs, ?Hidx); [| |rewrite Hidx; simpl; by intros ?? [_ ?]%lookup_delete_Some|by rewrite Hl3, Hl2, Hl1|by rewrite Hr3, Hr2, Hr1|].
    + intros c' k' Hk'. change (coresOf (cancelFlush key m3)) with (coresOf m3). rewrite Hcs. eauto 10.
    + intros c' Hn. change (coresOf m3 !! c' = None). by rewrite Hcs.
    + intros k' y Hy. eapply DroppedTo_in; [exact Hd3|exact Hy].
  - simpl. by rewrite Hidx.
  - simpl. by rewrite Hidx.
Qed.
Lemma retireConn_ok held c drop m k :
  Good held m → coresOf m !! c = Some k →
  ∃ m' u, retireConnLocked c drop m = Done (m', u) ∧ Good held m' ∧ Shrunk m m' ∧ coresOf m' = <[c := mkCore (k_key k) Retired (k_ident k)]> (coresOf m) ∧
    claims (idx m') = claims (idx m) ∧ DroppedTo (k_key k) (psh m) (psh m') ∧
    bySession (idx m') = (if decide (bySession (idx m) !! k_key k = Some c) then delete (k_key k) (bySession (idx m)) else bySession (idx m)) ∧
    (bySession (idx m) !! k_key k = Some c → drop = true → pendingOf (k_key k) (psh m') = []).
Proof.
  intros HG Hc. unfold retireConnLocked. destruct (shutdown_ok held c m k HG Hc) as (m1 & -> & HG1 & HS1 & Hc1 & Hi1 & Hh1 & Hp1). cbn [mbind run_bind].
  destruct (removeLocked_ok held c drop m1 (mkCore (k_key k) Retired (k_ident k)) HG1) as (m' & u & -> & HG' & HS' & Hc' & Hcl & Hd & Hif);
    [by rewrite Hc1, lookup_insert_eq|done|]. simpl in *. rewrite Hi1 in Hcl, Hif. rewrite Hp1 in Hd.
  exists m', u. split; [done|]. split; [done|]. split; [by eapply Shrunk_trans|]. split; [congruence|]. split; [done|]. split; [done|].
  destruct (decide _) as [Hin|Hin]; destruct_and! Hif; [done|]. split; [by subst m'; rewrite Hi1|done].
Qed.

Lemma retireClaim_ok held key c drop m :
  Good held m →
  ∃ m', retireClaimLocked key c drop m = Done m' ∧ Good held m' ∧ Shrunk m m' ∧ bySession (idx m') = bySession (idx m) ∧
    DroppedTo key (psh m) (psh m') ∧
    if decide (claims (idx m) !! key = Some c)
    then claims (idx m') = delete key (claims (idx m)) ∧ ∃ k, coresOf m !! c = Some k ∧ coresOf m' = <[c := mkCore (k_key k) Retired (k_ident k)]> (coresOf m)
    else m' = m.
Proof.
  intros HG. unfold retireClaimLocked. destruct (decide (claims (idx m) !! key = Some c)) as [Hin|Hin].
  2:{ rewrite bool_decide_false by done. simpl. exists m. split_and!; try done; [apply Shrunk_refl|by left]. }
  rewrite bool_decide_true by done. cbn [negb]. destruct (rg_claim _ _ _ (gd_reg _ _ HG) _ _ Hin) as (k & Hc & Hk & _).
  destruct (shutdown_ok held c m k HG Hc) as (m1 & -> & HG1 & HS1 & Hc1 & Hi1 & Hh1 & Hp1). cbn [mbind run_bind].
  unfold removeClaimLocked. rewrite Hi1, (bool_decide_true (claims (idx m) !! key = Some c)) by done. set (m2 := set_idx _ m1).
  assert (HR2 : RegInv m2) by (pose proof (gd_reg _ _ HG1) as HR1; unfold RegInv in HR1; rewrite Hi1 in HR1; exact (RegOk_unclaim _ _ _ key c HR1 Hin)).
  destruct (dropPending_ok held (drop && bool_decide (bySession (idx m2) !! key = None)) key m2) as (m3 & -> & Hc3 & Hi3 & Hh3 & Hl3 & Hr3 & HP3 & Hd3 & _);
    [apply HG1|]. cbn [mbind run_bind]. change (psh m2) with (psh m1) in Hd3. rewrite Hp1 in Hd3.
  eexists. split; [done|]. assert (Hcs : coresOf (cancelFlush key m3) = coresOf m1) by (change (coresOf m3 = coresOf m1); by rewrite Hc3).
  split_and!; try done.
  - split; [|by apply PendInv_flushing]. unfold RegInv. rewrite Hcs. simpl. rewrite Hi3, Hh3. exact HR2.
  - eapply Shrunk_trans; [exact HS1|]. split; simpl; [| |by rewrite Hi3, Hi1|rewrite Hi3, Hi1; simpl; by intros ?? [_ ?]%lookup_delete_Some|by rewrite Hl3|by rewrite Hr3|].
    + intros c' k' Hk'. rewrite Hcs. eauto 10.
    + intros c' Hn. by rewrite Hcs.
    + intros k' y Hy. rewrite Hp1. eapply DroppedTo_in; [exact Hd3|exact Hy].
  - simpl. by rewrite Hi3.
  - simpl. by rewrite Hi3.
  - exists k. split; [done|]. by rewrite Hcs.
Qed.
