(* ===== verification/SessionsTake.v ===== *)
(** * Taking over and leaving a session

    The claim protocol under the invariant: eviction frees a place and never
    touches the claimant, a claim fences every other owner of the session, and
    publication, abort, unregistration and destruction each leave the registry
    as it should be. *)

From S2P Require Import Prelude TrackedBudget SessionIndex SessionPending Sessions SessionsInv SessionsOps.
Import Index Pending Manager.

(** ** Owners *)

Lemma owners_shrink a i i' cs cs' ch ch' :
  RegOk cs i ch → RegOk cs' i' ch' → bySession i' ⊆ bySession i → claims i' ⊆ claims i →
  ownersIn a i' ≤ ownersIn a i ∧
  (∀ s, (is_Some (bySession i !! (a, s)) ∧ bySession i' !! (a, s) = None) ∨ (is_Some (claims i !! (a, s)) ∧ claims i' !! (a, s) = None) →
     ownersIn a i' < ownersIn a i).
Proof.
  intros HR HR' Hb Hc. unfold ownersIn.
  assert (H1 : inner a (byAuthKey i') ⊆ inner a (byAuthKey i)).
  { apply map_subseteq_spec. intros s x. change (lookup2 a s (byAuthKey i') = Some x → lookup2 a s (byAuthKey i) = Some x).
    rewrite (rg_auth _ _ _ HR), (rg_auth _ _ _ HR'). intros Hx. by eapply lookup_weaken. }
  assert (H2 : inner a (claimsByAuth i') ⊆ inner a (claimsByAuth i)).
  { apply map_subseteq_spec. intros s x. change (lookup2 a s (claimsByAuth i') = Some x → lookup2 a s (claimsByAuth i) = Some x).
    rewrite (rg_claimAuth _ _ _ HR), (rg_claimAuth _ _ _ HR'). intros Hx. by eapply lookup_weaken. }
  pose proof (map_subseteq_size _ _ H1). pose proof (map_subseteq_size _ _ H2). split; [lia|].
  intros s [[[x Hx] Hn]|[[x Hx] Hn]].
  - assert (Hlt : inner a (byAuthKey i') ⊂ inner a (byAuthKey i)); [|apply map_subset_size in Hlt; lia].
    split; [done|]. intros Hsub. rewrite <-(rg_auth _ _ _ HR) in Hx. rewrite <-(rg_auth _ _ _ HR') in Hn. unfold lookup2 in *.
    rewrite (lookup_weaken _ _ _ _ Hx Hsub) in Hn. done.
  - assert (Hlt : inner a (claimsByAuth i') ⊂ inner a (claimsByAuth i)); [|apply map_subset_size in Hlt; lia].
    split; [done|]. intros Hsub. rewrite <-(rg_claimAuth _ _ _ HR) in Hx. rewrite <-(rg_claimAuth _ _ _ HR') in Hn. unfold lookup2 in *.
    rewrite (lookup_weaken _ _ _ _ Hx Hsub) in Hn. done.
Qed.

(** The candidate chosen so far is the oldest of those seen. *)
Definition Oldest (m : manager) (exclude : positive) (best : option (sessionKey * positive * bool * Z)) (l : list (Z * positive)) : Prop :=
  match best with
  | None => ∀ p, p ∈ l → p.2 = exclude ∨ conns m !! p.2 = None
  | Some (_, _, _, t) => ∀ p x, p ∈ l → p.2 ≠ exclude → conns m !! p.2 = Some x → t ≤ createdAt x
  end.
Lemma Oldest_skip m exclude best l p : Oldest m exclude best l → p.2 = exclude ∨ conns m !! p.2 = None → Oldest m exclude best (l ++ [p]).
Proof.
  intros Ho Hp. destruct best as [[[[? ?] ?] t]|]; simpl in *.
  - intros p' x [Hin| ->%list_elem_of_singleton]%elem_of_app Hne Hx; [by apply (Ho p')|]. destruct Hp; congruence.
  - intros p' [Hin| ->%list_elem_of_singleton]%elem_of_app; [by apply Ho|done].
Qed.
Lemma older_fold a exclude isClaim m init seen l r :
  foldl (older a exclude isClaim m) init l = r → Oldest m exclude init seen →
  Oldest m exclude r (seen ++ l) ∧
  match r with
  | None => init = None
  | Some (key, v, b, _) => init = r ∨ (b = isClaim ∧ key.1 = a ∧ (key.2, v) ∈ l ∧ v ≠ exclude)
  end.
Proof.
  revert init seen. induction l as [|p l IH]; intros init seen; cbn [foldl].
  { intros <- Ho. rewrite app_nil_r. split; [done|]. destruct init as [[[[? ?] ?] ?]|]; auto. }
  intros Hr Ho. rewrite cons_middle, app_assoc.
  assert (Hstep : Oldest m exclude (older a exclude isClaim m init p) (seen ++ [p]) ∧
    (older a exclude isClaim m init p = init ∨ ∃ t, p.2 ≠ exclude ∧ older a exclude isClaim m init p = Some ((a, p.1), p.2, isClaim, t))).
  { unfold older. destruct (decide (p.2 = exclude)) as [He|He].
    { rewrite bool_decide_true by done. split; [apply Oldest_skip; auto|by left]. }
    rewrite bool_decide_false by done. destruct (conns m !! p.2) as [x|] eqn:Hx.
    2:{ split; [apply Oldest_skip; auto|by left]. }
    destruct init as [[[[k0 v0] b0] t]|]; simpl in Ho.
    - case_bool_decide as Hlt; (split; [|eauto]); simpl; intros p' x' [Hin| ->%list_elem_of_singleton]%elem_of_app Hne Hx'.
      + pose proof (Ho _ _ Hin Hne Hx'). lia.
      + assert (x' = x) as -> by congruence. lia.
      + by apply (Ho p').
      + assert (x' = x) as -> by congruence. lia.
    - split; [|eauto]. simpl. intros p' x' [Hin| ->%list_elem_of_singleton]%elem_of_app Hne Hx'.
      + destruct (Ho _ Hin); congruence.
      + assert (x' = x) as -> by congruence. lia. }
  destruct Hstep as [Ho' Hkind]. destruct (IH _ _ Hr Ho') as [Hres Hor]. split; [done|].
  destruct Hkind as [Heq|(t & Hne & Heq)]; rewrite Heq in Hor.
  - destruct r as [[[[? ?] ?] ?]|]; [|done]. destruct Hor as [?|(? & ? & ? & ?)]; [by left|right; split_and!; try done; set_solver].
  - destruct r as [[[[k v] b] t']|]; [|done]. right. destruct Hor as [[= <- <- <- <-]|(? & ? & ? & ?)]; [|split_and!; try done; set_solver].
    split_and!; try done. simpl. rewrite <-surjective_pairing. set_solver.
Qed.

(** The owners [vs], of sessions of [P], were retired and nothing else. *)
Record Fenced (P : sessionKey → Prop) (vs : list positive) (m m' : manager) : Prop := {
  fe_shrunk : Shrunk m m';
  fe_retired v : v ∈ vs → ∃ k, coresOf m' !! v = Some k ∧ k_life k = Retired ∧ P (k_key k);
  fe_kept c : c ∉ vs → coresOf m' !! c = coresOf m !! c;
  fe_session key c : bySession (idx m) !! key = Some c → bySession (idx m') !! key = Some c ∨ c ∈ vs;
  fe_claim key c : claims (idx m) !! key = Some c → claims (idx m') !! key = Some c ∨ c ∈ vs;
  fe_gone v key : v ∈ vs → bySession (idx m') !! key ≠ Some v ∧ claims (idx m') !! key ≠ Some v;
}.
Lemma Fenced_nil P m : Fenced P [] m m.
Proof. split; [apply Shrunk_refl|by intros v ?%elem_of_nil|done|by left|by left|by intros v key ?%elem_of_nil]. Qed.
Lemma Fenced_trans P vs vs' m1 m2 m3 : Fenced P vs m1 m2 → Fenced P vs' m2 m3 → Fenced P (vs ++ vs') m1 m3.
Proof.
  intros [S1 R1 K1 B1 C1 G1] [S2 R2 K2 B2 C2 G2]. split; [by eapply Shrunk_trans| | | | |].
  - intros v [Hv|Hv]%elem_of_app; [|by apply R2]. destruct (R1 _ Hv) as (k & Hk & Hl & HP).
    destruct (sh_core _ _ S2 _ _ Hk) as (k' & Hk' & Hkey & _ & Hl'). exists k'. rewrite Hkey. split_and!; try done. destruct Hl'; congruence.
  - intros c Hc. rewrite elem_of_app in Hc. rewrite K2, K1 by tauto. done.
  - intros key c Hb. rewrite elem_of_app. destruct (B1 _ _ Hb) as [Hb'|]; [|auto]. destruct (B2 _ _ Hb'); auto.
  - intros key c Hb. rewrite elem_of_app. destruct (C1 _ _ Hb) as [Hb'|]; [|auto]. destruct (C2 _ _ Hb'); auto.
  - intros v key [Hv|Hv]%elem_of_app; [|by apply G2]. destruct (G1 v key Hv) as [Hb Hc].
    split; [intros Hx%(sh_session _ _ S2)|intros Hx%(sh_claims _ _ S2)]; done.
Qed.
Lemma Fenced_ext P vs vs' m m' : (∀ v, v ∈ vs ↔ v ∈ vs') → Fenced P vs m m' → Fenced P vs' m m'.
Proof.
  intros He [S1 R1 K1 B1 C1 G1]. split; [done| | | | |].
  - intros v Hv%He. by apply R1.
  - intros c Hc. apply K1. by rewrite He.
  - intros key c Hb. rewrite <-He. by apply B1.
  - intros key c Hb. rewrite <-He. by apply C1.
  - intros v key Hv%He. by apply G1.
Qed.
(** A connection owns or claims at most one session, and not both. *)
Lemma owner_not_claimant cs i ch key key' c : RegOk cs i ch → bySession i !! key = Some c → claims i !! key' ≠ Some c.
Proof.
  intros HR Hb Hc. destruct (rg_session _ _ _ HR _ _ Hb) as (k & Hk & <- & _). destruct (rg_claim _ _ _ HR _ _ Hc) as (k' & Hk' & <- & _).
  assert (k' = k) as -> by congruence. pose proof (rg_disjoint _ _ _ HR _ _ Hc). congruence.
Qed.
Lemma claim_unique cs i ch key key' c : RegOk cs i ch → claims i !! key = Some c → claims i !! key' = Some c → key = key'.
Proof.
  intros HR H1 H2. destruct (rg_claim _ _ _ HR _ _ H1) as (k1 & ? & <- & _). destruct (rg_claim _ _ _ HR _ _ H2) as (k2 & ? & <- & _). congruence.
Qed.
Lemma Fenced_weaken (P Q : sessionKey → Prop) vs m m' : (∀ k, P k → Q k) → Fenced P vs m m' → Fenced Q vs m m'.
Proof. intros HPQ [S1 R1 K1 B1 C1 G1]. split; try done. intros v Hv. destruct (R1 v Hv) as (k & ? & ? & ?). eauto. Qed.

Lemma fence_conn held c drop m k (P : sessionKey → Prop) :
  Good held m → coresOf m !! c = Some k → bySession (idx m) !! k_key k = Some c → P (k_key k) →
  ∃ m' u, retireConnLocked c drop m = Done (m', u) ∧ Good held m' ∧ Fenced P [c] m m' ∧ bySession (idx m') !! k_key k ≠ Some c ∧ claims (idx m') = claims (idx m).
Proof.
  intros HG Hc Hown HP. destruct (retireConn_ok held c drop m k HG Hc) as (m' & u & -> & HG' & HS & Hcs & Hcl & _ & Hb & _).
  exists m', u. split; [done|]. split; [done|]. split_and!; [|rewrite Hb; case_decide; [by rewrite lookup_delete_eq|done]|done]. split; [done| | | | |].
  - intros v ->%list_elem_of_singleton. rewrite Hcs, lookup_insert_eq. eauto.
  - intros c' Hn. rewrite Hcs. apply lookup_insert_ne. intros ->. by rewrite list_elem_of_singleton in Hn.
  - intros key c' Hin. rewrite Hb. case_decide as Hd; [|by left]. destruct (decide (key = k_key k)) as [->|Hne]; [right; apply list_elem_of_singleton; congruence|].
    left. by rewrite lookup_delete_ne.
  - intros key c' Hin. left. by rewrite Hcl.
  - intros v key ->%list_elem_of_singleton. split; [|rewrite Hcl; by eapply owner_not_claimant; [apply HG|]].
    rewrite Hb, decide_True by done. intros [Hne Hv]%lookup_delete_Some. apply Hne. by eapply owner_unique; [apply HG| |].
Qed.
Lemma fence_claim held key c drop m (P : sessionKey → Prop) :
  Good held m → claims (idx m) !! key = Some c → P key →
  ∃ m', retireClaimLocked key c drop m = Done m' ∧ Good held m' ∧ Fenced P [c] m m' ∧ claims (idx m') !! key = None ∧ bySession (idx m') = bySession (idx m).
Proof.
  intros HG Hin HP. destruct (retireClaim_ok held key c drop m HG) as (m' & -> & HG' & HS & Hb & _ & Hif). rewrite decide_True in Hif by done.
  destruct Hif as (Hcl & k & Hk & Hcs). assert (Hkey : k_key k = key).
  { destruct (rg_claim _ _ _ (gd_reg _ _ HG) _ _ Hin) as (k' & ? & ? & _). congruence. }
  exists m'. split; [done|]. split; [done|]. split_and!; [|by rewrite Hcl, lookup_delete_eq|done]. split; [done| | | | |].
  - intros v ->%list_elem_of_singleton. rewrite Hcs, lookup_insert_eq. eexists. split_and!; try done. simpl. by rewrite Hkey.
  - intros c' Hn. rewrite Hcs. apply lookup_insert_ne. intros ->. by rewrite list_elem_of_singleton in Hn.
  - intros key' c' Hin'. left. by rewrite Hb.
  - intros key' c' Hin'. rewrite Hcl. destruct (decide (key' = key)) as [->|Hne]; [right; apply list_elem_of_singleton; congruence|].
    left. by rewrite lookup_delete_ne.
  - intros v key' ->%list_elem_of_singleton. rewrite Hb, Hcl. split.
    + intros Hv. by apply (owner_not_claimant _ _ _ key' key c (gd_reg _ _ HG) Hv).
    + intros [Hne Hv]%lookup_delete_Some. apply Hne. by eapply claim_unique; [apply HG| |].
Qed.

Section take.
Context `{Ranges}.

Lemma oldestAuthOwner_ok a c m :
  RegInv m →
  match oldestAuthOwnerLocked a c m with
  | None => (∀ s o, bySession (idx m) !! (a, s) = Some o → o = c) ∧ (∀ s o, claims (idx m) !! (a, s) = Some o → o = c)
  | Some (key, v, isClaim, t) =>
    key.1 = a ∧ v ≠ c ∧ (if isClaim then claims (idx m) else bySession (idx m)) !! key = Some v ∧
    ∀ s o x, bySession (idx m) !! (a, s) = Some o ∨ claims (idx m) !! (a, s) = Some o → o ≠ c → conns m !! o = Some x → t ≤ createdAt x
  end.
Proof.
  intros HR. unfold oldestAuthOwnerLocked.
  assert (Hs : ∀ s o, bySession (idx m) !! (a, s) = Some o ↔ (s, o) ∈ range (inner a (byAuthKey (idx m)))).
  { intros s o. rewrite elem_of_range, <-(rg_auth _ _ _ HR). done. }
  assert (Hc : ∀ s o, claims (idx m) !! (a, s) = Some o ↔ (s, o) ∈ range (inner a (claimsByAuth (idx m)))).
  { intros s o. rewrite elem_of_range, <-(rg_claimAuth _ _ _ HR). done. }
  destruct (foldl (older a c false m) None _) as [[[[k1 v1] b1] t1]|] eqn:H1;
    destruct (older_fold a c false m None [] _ _ H1) as [Ho1 Hk1]; try (by intros ? ?%elem_of_nil);
    destruct (foldl (older a c true m) _ _) as [[[[k v] b] t]|] eqn:H2;
    destruct (older_fold a c true m _ _ _ _ H2 Ho1) as [Ho2 Hk2]; try done.
  - assert (Hmem : k.1 = a ∧ v ≠ c ∧ (if b then claims (idx m) else bySession (idx m)) !! k = Some v).
    { destruct Hk2 as [[= -> -> -> ->]|(-> & Hka & Hin & Hne)].
      - destruct Hk1 as [?|(-> & Hka & Hin & Hne)]; [done|]. destruct k as [ka ks]. simpl in *. subst ka. split_and!; [done|done|by apply Hs].
      - destruct k as [ka ks]. simpl in *. subst ka. split_and!; [done|done|by apply Hc]. }
    destruct Hmem as (? & ? & ?). split_and!; try done. simpl in Ho2.
    intros s o x Hor Hne Hx. apply (Ho2 (s, o)); [|done|done]. rewrite elem_of_app. destruct Hor; [left; by apply Hs|right; by apply Hc].
  - destruct Hk2 as [?|(-> & Hka & Hin & Hne)]; [done|]. destruct k as [ka ks]; simpl in *; subst ka. split_and!; try done; [by apply Hc|].
    intros s o x Hor Hne' Hx. apply (Ho2 (s, o)); [|done|done]. rewrite elem_of_app. destruct Hor; [left; by apply Hs|right; by apply Hc].
  - simpl in Ho2. assert (Hall : ∀ o, is_Some (coresOf m !! o) → conns m !! o ≠ None).
    { intros o [k (x & -> & _)%cores_lookup]. done. }
    split; intros s o Hin.
    + destruct (Ho2 (s, o)) as [?|Hn]; [rewrite elem_of_app; left; by apply Hs|done|]. destruct (rg_session _ _ _ HR _ _ Hin) as (k & Hk & _). by destruct (Hall o (mk_is_Some _ _ Hk)).
    + destruct (Ho2 (s, o)) as [?|Hn]; [rewrite elem_of_app; right; by apply Hc|done|]. destruct (rg_claim _ _ _ HR _ _ Hin) as (k & Hk & _). by destruct (Hall o (mk_is_Some _ _ Hk)).
Qed.

(** Eviction ends with a place free, and the claimant untouched. *)
Lemma evictLoop_ok held fuel a c m :
  Good held m → (∀ key, bySession (idx m) !! key ≠ Some c) → (∀ key, claims (idx m) !! key ≠ Some c) → (ownersOf a m < fuel)%nat →
  ∃ m' vs, evictLoop fuel a c m = Done (m', vs) ∧ Good held m' ∧ Fenced (λ key, key.1 = a) vs m m' ∧ c ∉ vs ∧ ownersIn a (idx m') < maxSessionsPerAuthKey.
Proof.
  revert m. induction fuel as [|fuel IH]; intros m HG Hnb Hnc Hfuel; [lia|]. cbn [evictLoop].
  case_bool_decide as Hfull; cbn [negb].
  2:{ exists m, []. split; [done|]. split; [done|]. split; [apply Fenced_nil|]. split; [apply not_elem_of_nil|]. unfold ownersIn. unfold ownersOf in Hfull. lia. }
  pose proof (oldestAuthOwner_ok a c m (gd_reg _ _ HG)) as Hold. destruct (oldestAuthOwnerLocked a c m) as [[[[key v] isClaim] t]|].
  2:{ destruct Hold as [Hs Hc]. exfalso. assert (Hz : ownersOf a m = 0%nat); [|rewrite Hz in Hfull; by vm_compute in Hfull].
      unfold ownersOf. pose proof (gd_reg _ _ HG) as HR.
      assert (inner a (byAuthKey (idx m)) = ∅) as ->.
      { apply map_empty. intros s. destruct (lookup2 a s (byAuthKey (idx m))) as [o|] eqn:Ho; [|exact Ho]. rewrite (rg_auth _ _ _ HR) in Ho.
        exfalso. apply (Hnb (a, s)). rewrite <-(Hs s o Ho). exact Ho. }
      assert (inner a (claimsByAuth (idx m)) = ∅) as ->.
      { apply map_empty. intros s. destruct (lookup2 a s (claimsByAuth (idx m))) as [o|] eqn:Ho; [|exact Ho]. rewrite (rg_claimAuth _ _ _ HR) in Ho.
        exfalso. apply (Hnc (a, s)). rewrite <-(Hc s o Ho). exact Ho. }
      by rewrite !map_size_empty. }
  destruct Hold as (Ha & Hne & Hin & _).
  assert (Hstep : ∃ m1, (if isClaim then retireClaimLocked key v true m else '(m, _) ← retireConnLocked v true m; Done m) = Done m1 ∧
    Good held m1 ∧ Fenced (λ key, key.1 = a) [v] m m1 ∧ ownersIn a (idx m1) < ownersIn a (idx m)).
  { assert (Hless : ∀ m1, Good held m1 → Shrunk m m1 → (is_Some (bySession (idx m) !! key) ∧ bySession (idx m1) !! key = None) ∨ (is_Some (claims (idx m) !! key) ∧ claims (idx m1) !! key = None) →
      ownersIn a (idx m1) < ownersIn a (idx m)).
    { intros m1 HG1 HS1 Hor. destruct (owners_shrink a (idx m) (idx m1) _ _ _ _ (gd_reg _ _ HG) (gd_reg _ _ HG1)) as [_ Hlt].
      - apply map_subseteq_spec. apply (sh_session _ _ HS1).
      - apply map_subseteq_spec. apply (sh_claims _ _ HS1).
      - apply (Hlt key.2). rewrite <-Ha, <-surjective_pairing. done. }
    destruct isClaim.
    - destruct (fence_claim held key v true m (λ key, key.1 = a) HG Hin Ha) as (m1 & -> & HG1 & HF1 & Hcl & _).
      exists m1. split_and!; try done. apply Hless; [done|apply HF1|right; by eauto].
    - destruct (rg_session _ _ _ (gd_reg _ _ HG) _ _ Hin) as (k & Hk & Hkey & _). subst key.
      destruct (fence_conn held v true m k (λ key, key.1 = a) HG Hk Hin Ha) as (m1 & u & -> & HG1 & HF1 & Hb & _). simpl.
      exists m1. split_and!; try done. apply Hless; [done|apply HF1|left]. split; [by eauto|].
      destruct (bySession (idx m1) !! k_key k) as [o|] eqn:Ho; [|done]. apply (sh_session _ _ (fe_shrunk _ _ _ _ HF1)) in Ho. congruence. }
  destruct Hstep as (m1 & -> & HG1 & HF1 & Hlt). cbn [mbind run_bind].
  destruct (IH m1 HG1) as (m' & vs & -> & HG' & HF' & Hc' & Hroom).
  - intros k Hk. by apply (Hnb k), (sh_session _ _ (fe_shrunk _ _ _ _ HF1)).
  - intros k Hk. by apply (Hnc k), (sh_claims _ _ (fe_shrunk _ _ _ _ HF1)).
  - unfold ownersIn in Hlt. unfold ownersOf in *. lia.
  - simpl. exists m', (v :: vs). split_and!; try done; [by apply (Fenced_trans _ [v] vs m m1)|]. rewrite not_elem_of_cons. auto.
Qed.

Lemma not_published cs i ch c k : RegOk cs i ch → cs !! c = Some k → k_life k = Claiming ∨ k_life k = Provisional → ∀ key, bySession i !! key ≠ Some c.
Proof. intros HR Hc Hl key Hin. destruct (rg_session _ _ _ HR _ _ Hin) as (k' & Hk' & _ & Hl'). assert (k' = k) as -> by congruence. destruct Hl, Hl'; congruence. Qed.

(** Fencing the other owner of the key, if there is one. *)
Lemma fence_claimant held c key m :
  Good held m → (∀ key, claims (idx m) !! key ≠ Some c) →
  ∃ m' vs, match claims (idx m) !! key with
           | Some o => if bool_decide (o = c) then Done (m, []) else m ← retireClaimLocked key o false m; Done (m, [o])
           | None => Done (m, [])
           end = Done (m', vs) ∧ Good held m' ∧ Fenced (λ k, k = key) vs m m' ∧ c ∉ vs ∧ claims (idx m') !! key = None ∧
    ∀ v, v ∈ vs → claims (idx m) !! key = Some v.
Proof.
  intros HG Hnc. destruct (claims (idx m) !! key) as [o|] eqn:Ho.
  - rewrite bool_decide_false by (intros ->; by apply (Hnc key)). destruct (fence_claim held key o false m (λ k, k = key) HG Ho eq_refl) as (m' & -> & HG' & HF & Hn & _).
    simpl. exists m', [o]. split_and!; try done; [|by intros v ->%list_elem_of_singleton]. rewrite list_elem_of_singleton. intros ->. by apply (Hnc key).
  - exists m, []. split_and!; try done; [apply Fenced_nil|apply not_elem_of_nil|by intros v ?%elem_of_nil].
Qed.
Lemma fence_owner held c key m :
  Good held m → (∀ key, bySession (idx m) !! key ≠ Some c) →
  ∃ m' vs, match bySession (idx m) !! key with
           | Some o => if bool_decide (o = c) then Done (m, []) else '(m, _) ← retireConnLocked o false m; Done (m, [o])
           | None => Done (m, [])
           end = Done (m', vs) ∧ Good held m' ∧ Fenced (λ k, k = key) vs m m' ∧ c ∉ vs ∧ bySession (idx m') !! key = None ∧ claims (idx m') = claims (idx m) ∧
    ∀ v, v ∈ vs → bySession (idx m) !! key = Some v.
Proof.
  intros HG Hnb. destruct (bySession (idx m) !! key) as [o|] eqn:Ho.
  - rewrite bool_decide_false by (intros ->; by apply (Hnb key)). destruct (rg_session _ _ _ (gd_reg _ _ HG) _ _ Ho) as (k & Hk & Hkey & _). subst key.
    destruct (fence_conn held o false m k (λ k', k' = k_key k) HG Hk Ho eq_refl) as (m' & u & -> & HG' & HF & Hb & Hcl).
    simpl. exists m', [o]. split_and!; try done; [rewrite list_elem_of_singleton; intros ->; by apply (Hnb (k_key k))| |by intros v ->%list_elem_of_singleton].
    destruct (bySession (idx m') !! k_key k) as [o'|] eqn:Ho'; [|done]. apply (sh_session _ _ (fe_shrunk _ _ _ _ HF)) in Ho'. congruence.
  - exists m, []. split_and!; try done; [apply Fenced_nil|apply not_elem_of_nil|by intros v ?%elem_of_nil].
Qed.

Lemma claimSession_ok held c m k :
  Good held m → coresOf m !! c = Some k → (∀ key, claims (idx m) !! key ≠ Some c) →
  ∃ m' o, claimSession c m = Done (m', o) ∧ Good held m' ∧
    match o with
    | None => Shrunk m m' ∧ idx m' = idx m ∧ psh m' = psh m
    | Some vs => k_life k = Claiming ∧ c ∉ vs ∧ ∃ m0, Fenced (λ key, key.1 = (k_key k).1) vs m m0 ∧ m' = addClaimLocked (k_key k) c m0 ∧
        bySession (idx m0) !! k_key k = None ∧ claims (idx m0) !! k_key k = None ∧
        (ownersIn (k_key k).1 (idx m) < maxSessionsPerAuthKey → ∀ v, v ∈ vs → bySession (idx m) !! k_key k = Some v ∨ claims (idx m) !! k_key k = Some v)
    end.
Proof.
  intros HG Hc Hnc. unfold claimSession. pose proof Hc as (x & Hx & Hk)%cores_lookup. rewrite Hx. cbn [deref mbind run_bind].
  destruct (negb (transportOpen x) || negb (bool_decide (lifecycle x = Claiming))) eqn:Hguard.
  { destruct (shutdown_ok held c m k HG Hc) as (m' & -> & HG' & HS & _ & Hi & _ & Hp). simpl. exists m', None. by split_and!. }
  apply orb_false_iff in Hguard as [_ Hlife%negb_false_iff%bool_decide_eq_true].
  assert (Hl : k_life k = Claiming) by (by subst k). replace (connSessionKey x) with (k_key k) by (by subst k). replace (authKeyID x) with (k_key k).1 by (by subst k).
  clear x Hx Hk Hlife. pose proof (not_published _ _ _ c k (gd_reg _ _ HG) Hc (or_introl Hl)) as Hnb.
  destruct (fence_claimant held c (k_key k) m HG Hnc) as (m1 & r1 & -> & HG1 & HF1 & Hr1 & Hcl1 & Hfrom1). cbn [mbind run_bind].
  assert (Hin1 := fe_kept _ _ _ _ HF1 c Hr1).
  destruct (fence_owner held c (k_key k) m1 HG1) as (m2 & r2 & -> & HG2 & HF2 & Hr2 & Hb2 & Hcl2 & Hfrom2).
  { intros key Hk. by apply (Hnb key), (sh_session _ _ (fe_shrunk _ _ _ _ HF1)). }
  cbn [mbind run_bind]. pose proof (Fenced_trans _ _ _ _ _ _ HF1 HF2) as HF12.
  destruct (evictLoop_ok held (S (ownersOf (k_key k).1 m2)) (k_key k).1 c m2 HG2) as (m3 & r3 & Hev & HG3 & HF3 & Hr3 & Hroom); [| |lia|].
  { intros key Hk. by apply (Hnb key), (sh_session _ _ (fe_shrunk _ _ _ _ HF12)). }
  { intros key Hk. by apply (Hnc key), (sh_claims _ _ (fe_shrunk _ _ _ _ HF12)). }
  rewrite Hev. cbn [mbind run_bind]. eexists _, (Some _). split; [done|].
  assert (Hroomy : ownersIn (k_key k).1 (idx m) < maxSessionsPerAuthKey → r3 = []).
  { intros Hlt. destruct (owners_shrink (k_key k).1 (idx m) (idx m2) _ _ _ _ (gd_reg _ _ HG) (gd_reg _ _ HG2)) as [Hle _].
    - apply map_subseteq_spec, (sh_session _ _ (fe_shrunk _ _ _ _ HF12)).
    - apply map_subseteq_spec, (sh_claims _ _ (fe_shrunk _ _ _ _ HF12)).
    - cbn [evictLoop] in Hev. rewrite bool_decide_false in Hev by (unfold ownersIn in *; unfold ownersOf; lia). simpl in Hev. congruence. }
  assert (HF : Fenced (λ key, key.1 = (k_key k).1) (r1 ++ r2 ++ r3) m m3).
  { rewrite app_assoc. eapply Fenced_trans; [|exact HF3]. eapply Fenced_weaken; [|exact HF12]. by intros ? ->. }
  assert (Hnone : ∀ {i i' : gmap sessionKey positive}, (∀ key c, i' !! key = Some c → i !! key = Some c) → i !! k_key k = None → i' !! k_key k = None).
  { intros i i' Hsub Hn. destruct (i' !! k_key k) as [o|] eqn:Ho; [|done]. apply Hsub in Ho. congruence. }
  assert (Hb3 : bySession (idx m3) !! k_key k = None) by (eapply Hnone; [apply (sh_session _ _ (fe_shrunk _ _ _ _ HF3))|exact Hb2]).
  assert (Hcl3 : claims (idx m3) !! k_key k = None) by (eapply Hnone; [apply (sh_claims _ _ (fe_shrunk _ _ _ _ HF3))|by rewrite Hcl2]).
  assert (Hin : c ∉ r1 ++ r2 ++ r3) by (rewrite !elem_of_app; tauto).
  split; [|split_and!; [done|done|exists m3; split_and!; try done]].
  2:{ intros Hlt v. rewrite (Hroomy Hlt), !elem_of_app, elem_of_nil. intros [Hv|[Hv|[]]]; [right; by apply Hfrom1|left].
      apply (sh_session _ _ (fe_shrunk _ _ _ _ HF1)). by apply Hfrom2. }
  assert (Hcm : coresOf m3 !! c = Some k) by (by rewrite (fe_kept _ _ _ _ HF c Hin)).
  split; [|apply HG3]. apply (RegOk_claim (coresOf m3) (idx m3) (chs m3)); [apply HG3|done|done|done|done|done].
Qed.
End take.
