(* ===== verification/SessionsLeave.v ===== *)
(** * The rest of the session lifecycle under the invariant

    What every operation on connections keeps ([Moved]: life goes forward,
    claims are made by one operation only; [LogicalKept]: logical sessions stay
    with their outbox), and the results of claiming, publishing, aborting,
    unregistering and destroying. *)

From S2P Require Import Prelude TrackedBudget SessionIndex SessionPending Sessions SessionsInv SessionsOps SessionsTake.
Import Index Pending Manager.

(** ** What operations keep *)

Record Moved (m m' : manager) : Prop := {
  mv_progress : Progress m m';
  mv_claims key c : claims (idx m') !! key = Some c → claims (idx m) !! key = Some c;
}.
Lemma conns_moved_refl m : Moved m m.
Proof. split; [apply conns_progress_refl|done]. Qed.
Lemma conns_moved_trans m1 m2 m3 : Moved m1 m2 → Moved m2 m3 → Moved m1 m3.
Proof. intros [P1 C1] [P2 C2]. split; [by eapply conns_progress_trans|by auto]. Qed.
Lemma Shrunk_moved m m' : Shrunk m m' → Moved m m'.
Proof. intros HS. split; [by apply Shrunk_progress|apply HS]. Qed.
Lemma Moved_same m m' : coresOf m' = coresOf m → claims (idx m') = claims (idx m) → Moved m m'.
Proof. intros Hc Hi. split; [by apply Progress_cores|by rewrite Hi]. Qed.

(** Logical sessions stay, with their outbox. *)
Record LogicalKept (m m' : manager) : Prop := {
  lk_kept key l : logicalSessions m !! key = Some l → ∃ l', logicalSessions m' !! key = Some l' ∧ outbound l' = outbound l;
  lk_released : released m' = released m;
}.
Lemma LogicalKept_eq m m' : logicalSessions m' = logicalSessions m → released m' = released m → LogicalKept m m'.
Proof. intros Hl Hr. split; [|done]. intros key l Hk. exists l. by rewrite Hl. Qed.
Lemma LogicalKept_refl m : LogicalKept m m.
Proof. by apply LogicalKept_eq. Qed.
Lemma LogicalKept_trans m1 m2 m3 : LogicalKept m1 m2 → LogicalKept m2 m3 → LogicalKept m1 m3.
Proof.
  intros [K1 R1] [K2 R2]. split; [|congruence]. intros key l Hl. destruct (K1 _ _ Hl) as (l1 & Hl1 & ?). destruct (K2 _ _ Hl1) as (l2 & ? & ?).
  exists l2. split; [done|congruence].
Qed.
Lemma LogicalKept_insert m key l : (∀ l0, logicalSessions m !! key = Some l0 → outbound l = outbound l0) → LogicalKept m (set_logical (<[key := l]> (logicalSessions m)) m).
Proof.
  intros Ho. split; [|done]. intros k l0 Hl0. simpl. destruct (decide (key = k)) as [<-|Hne]; [rewrite lookup_insert_eq; eauto|rewrite lookup_insert_ne by done; eauto].
Qed.
Lemma Shrunk_kept m m' : Shrunk m m' → LogicalKept m m'.
Proof. intros []. by apply LogicalKept_eq. Qed.

(** Nothing the registry or the queues see. *)
Record SameReg (m m' : manager) : Prop := {
  sr_cores : coresOf m' = coresOf m;
  sr_idx : idx m' = idx m;
  sr_chs : chs m' = chs m;
  sr_psh : psh m' = psh m;
}.
Lemma SameReg_refl m : SameReg m m.
Proof. done. Qed.
Lemma SameReg_trans m1 m2 m3 : SameReg m1 m2 → SameReg m2 m3 → SameReg m1 m3.
Proof. intros [] []. split; congruence. Qed.
Lemma SameReg_good held m m' : SameReg m m' → Good held m → Good held m'.
Proof. intros [Hc Hi Hh Hp] [HR HP]. split; [unfold RegInv; by rewrite Hc, Hi, Hh|by rewrite Hp]. Qed.
Lemma SameReg_moved m m' : SameReg m m' → Moved m m'.
Proof. intros [Hc Hi _ _]. apply Moved_same; [done|by rewrite Hi]. Qed.

Lemma markOffline_ok key now m : SameReg m (markLogicalSessionOfflineLocked key now m) ∧ LogicalKept m (markLogicalSessionOfflineLocked key now m).
Proof.
  unfold markLogicalSessionOfflineLocked. destruct (logicalSessions m !! key) as [l|] eqn:Hl; [|split; [done|apply LogicalKept_refl]].
  destruct (owned key m); [split; [done|apply LogicalKept_refl]|]. case_bool_decide; [|split; [done|apply LogicalKept_refl]].
  split; [done|]. apply LogicalKept_insert. intros l0 Hl0. by assert (l0 = l) as -> by congruence.
Qed.
Lemma bindLogical_ok key b m : SameReg m (bindLogicalSessionAuthKeyLocked key b m) ∧ LogicalKept m (bindLogicalSessionAuthKeyLocked key b m).
Proof.
  unfold bindLogicalSessionAuthKeyLocked. destruct (logicalSessions m !! key) as [l|] eqn:Hl; [|split; [done|apply LogicalKept_refl]].
  split; [done|]. apply LogicalKept_insert. intros l0 Hl0. by assert (l0 = l) as -> by congruence.
Qed.
Lemma destroyLogical_ok key m :
  SameReg m (destroyLogicalSession key m) ∧ logicalSessions (destroyLogicalSession key m) = delete key (logicalSessions m) ∧
  released (destroyLogicalSession key m) = released m ++ match logicalSessions m !! key with Some l => [(key, outbound l)] | None => [] end.
Proof.
  unfold destroyLogicalSession. destruct (logicalSessions m !! key) as [l|] eqn:Hl; [by split_and!|].
  split_and!; [done|by rewrite delete_id|by rewrite app_nil_r].
Qed.

Lemma resolveLogical_ok key x l m :
  (∀ l0, logicalSessions m !! key = Some l0 → outbound l = outbound l0) → SameReg m (resolveLogical key x l m) ∧ LogicalKept m (resolveLogical key x l m).
Proof.
  intros Ho. unfold resolveLogical. set (l' := match business x with Some _ => _ | None => _ end). split; [done|].
  eapply (LogicalKept_trans m _ _); [apply (LogicalKept_insert m key l')|by apply LogicalKept_eq].
  intros l0 Hl0. unfold l'. destruct (business x); simpl; by apply Ho.
Qed.
(** A connection that attaches takes the outbox of its session. *)
Lemma attach_ok c m k :
  coresOf m !! c = Some k →
  ∃ m', attachLogicalSession c m = Done m' ∧ SameReg m m' ∧ LogicalKept m m' ∧
    ∃ x l, conns m' !! c = Some x ∧ logicalSessions m' !! k_key k = Some l ∧ outboundState x = outbound l ∧ offlineAt l = 0.
Proof.
  intros Hc. unfold attachLogicalSession. pose proof Hc as (x & Hx & Hk)%cores_lookup. rewrite Hx. cbn [deref mbind run_bind]. subst k.
  change (k_key (coreOf x)) with (connSessionKey x).
  set (pr := match logicalSessions m !! connSessionKey x with Some l => (l, m) | None => _ end).
  assert (Hpr : SameReg m pr.2 ∧ logicalSessions pr.2 = logicalSessions m ∧ released pr.2 = released m ∧ conns pr.2 = conns m ∧
    ∀ l0, logicalSessions m !! connSessionKey x = Some l0 → outbound pr.1 = outbound l0).
  { unfold pr. destruct (logicalSessions m !! connSessionKey x); split_and!; try done; naive_solver. }
  destruct pr as [l m1]. simpl in Hpr. destruct Hpr as (HS1 & Hl1 & Hr1 & Hcm & Ho). set (l1 := mkLogical (outbound l) 0 (l_business l)).
  destruct (resolveLogical_ok (connSessionKey x) x l1 m1) as [HS2 HK2]; [rewrite Hl1; exact Ho|].
  set (m2 := resolveLogical _ _ _ _) in *.
  destruct (update_quiet c (λ x, mkConn (authKeyID x) (sessionID x) (createdAt x) (lifecycle x) (transportOpen x) (ident x) (upd x) (outbound l)) m2 (coreOf x)) as (m' & Hup & HE).
  { by rewrite (sr_cores _ _ HS2), (sr_cores _ _ HS1). }
  { done. }
  exists m'. split; [done|]. split; [eapply SameReg_trans; [exact HS1|eapply SameReg_trans; [exact HS2|]]; by destruct HE|]. split.
  - eapply LogicalKept_trans; [by apply LogicalKept_eq|eapply LogicalKept_trans; [exact HK2|]]. by apply LogicalKept_eq; apply HE.
  - unfold update in Hup. assert (Hx2 : conns m2 !! c = Some x) by (unfold m2; simpl; by rewrite Hcm). rewrite Hx2 in Hup. simpl in Hup. injection Hup as <-.
    simpl. eexists _, (match business x with Some b => mkLogical (outbound l1) (offlineAt l1) (Some b) | None => l1 end). split; [apply lookup_insert_eq|].
    split; [by rewrite lookup_insert_eq|]. by destruct (business x).
Qed.
Lemma adopt_ok c m k :
  coresOf m !! c = Some k → ∃ m', adoptLogicalSession c m = Done m' ∧ SameReg m m' ∧ LogicalKept m m'.
Proof.
  intros Hc. unfold adoptLogicalSession. pose proof Hc as (x & Hx & Hk)%cores_lookup. rewrite Hx. cbn [deref mbind run_bind].
  case_bool_decide; [exists m; split_and!; [done|done|apply LogicalKept_refl]|]. eexists. split; [done|].
  apply resolveLogical_ok. intros l0 Hl0. by rewrite Hl0.
Qed.

(** ** Claiming and publishing *)

Lemma cores_insert_progress m m' c k k' :
  coresOf m !! c = Some k → coresOf m' = <[c := k']> (coresOf m) → k_key k' = k_key k → rank (k_life k) ≤ rank (k_life k') → Progress m m'.
Proof.
  intros Hc Hcs Hkey Hr c' k0 Hk0. rewrite Hcs. destruct (decide (c = c')) as [<-|Hne]; [|rewrite lookup_insert_ne by done; exists k0; split_and!; [done|done|lia]].
  rewrite lookup_insert_eq. assert (k0 = k) as -> by congruence. exists k'. split_and!; done.
Qed.
Lemma rank_le l : rank l ≤ 3.
Proof. by destruct l. Qed.

(** One connection's life changes, and nothing else. *)
Lemma life_step held c f m k l :
  Good held m → coresOf m !! c = Some k → (∀ x, coreOf (f x) = mkCore (connSessionKey x) l (view x)) →
  (l = Retired ∨ (l = Claiming ∧ k_life k = Provisional)) →
  ∃ m', update c f m = Done m' ∧ Good held m' ∧ Moved m m' ∧ LogicalKept m m' ∧ coresOf m' = <[c := mkCore (k_key k) l (k_ident k)]> (coresOf m) ∧ idx m' = idx m ∧ chs m' = chs m ∧ psh m' = psh m.
Proof.
  intros HG Hc Hf Hl. destruct (update_life held c f m k l HG Hc Hf) as (m' & -> & HG' & Hcs & Hi & Hh & Hp & Hlo & Hr); [tauto|].
  exists m'. split; [done|]. split; [done|]. split_and!; try done; [|by apply LogicalKept_eq]. split; [|by rewrite Hi].
  eapply cores_insert_progress; [exact Hc|exact Hcs|done|]. simpl. destruct Hl as [->|[-> ->]]; [apply rank_le|by vm_compute].
Qed.
Lemma beginClaim_ok held c closes m k :
  Good held m → coresOf m !! c = Some k →
  ∃ m' ok, beginActivationClaim c closes m = Done (m', ok) ∧ Good held m' ∧ Moved m m' ∧ LogicalKept m m' ∧ idx m' = idx m ∧ psh m' = psh m ∧
    (ok = true → k_life k = Provisional).
Proof.
  intros HG Hc. unfold beginActivationClaim. pose proof Hc as (x & Hx & Hk)%cores_lookup. rewrite Hx. cbn [deref mbind run_bind].
  destruct (transportOpen x); cbn [negb]; [|exists m, false; split_and!; try done; [apply conns_moved_refl|apply LogicalKept_refl]].
  case_bool_decide as Hl; cbn [negb]; [|exists m, false; split_and!; try done; [apply conns_moved_refl|apply LogicalKept_refl]].
  assert (Hl' : k_life k = Provisional) by (by subst k).
  destruct closes.
  - destruct (life_step held c (λ x, close_transport (set_lifecycle Retired x)) m k Retired HG Hc) as (m' & -> & ? & ? & ? & _ & ? & _ & ?); [done|by left|].
    simpl. exists m', false. by split_and!.
  - destruct (life_step held c (set_lifecycle Claiming) m k Claiming HG Hc) as (m' & -> & ? & ? & ? & _ & ? & _ & ?); [done|by right|].
    simpl. exists m', true. by split_and!.
Qed.

(** Letting a claim go. *)
Lemma removeClaim_ok held key c m :
  Good held m → claims (idx m) !! key = Some c →
  Good held (removeClaimLocked key c m) ∧ Moved m (removeClaimLocked key c m) ∧ LogicalKept m (removeClaimLocked key c m) ∧ idx (removeClaimLocked key c m) = unclaim key (idx m) ∧
  coresOf (removeClaimLocked key c m) = coresOf m ∧ chs (removeClaimLocked key c m) = chs m ∧ psh (removeClaimLocked key c m) = psh m.
Proof.
  intros [HR HP] Hin. unfold removeClaimLocked. rewrite bool_decide_true by done. split_and!; try done.
  - split; [by apply (RegOk_unclaim (coresOf m) (idx m) (chs m) key c)|done].
  - split; [by apply Progress_cores|]. simpl. by intros k c' [_ ?]%lookup_delete_Some.
  - by apply LogicalKept_eq.
Qed.

(** Publication makes the claimant the owner, or fails and gives the claim up. *)
Lemma publish_ok held c closes m k :
  Good held m → coresOf m !! c = Some k →
  ∃ m' ok, PublishActivation c closes m = Done (m', ok) ∧ Good held m' ∧ Moved m m' ∧ LogicalKept m m' ∧ psh m' = psh m ∧
    (if ok : bool
     then bySession (idx m') = <[k_key k := c]> (bySession (idx m)) ∧ k_life k = Claiming ∧ coresOf m' = <[c := mkCore (k_key k) Active (k_ident k)]> (coresOf m)
     else bySession (idx m') = bySession (idx m)).
Proof.
  intros HG Hc. unfold PublishActivation. pose proof Hc as (x & Hx & Hk)%cores_lookup. rewrite Hx. cbn [deref mbind run_bind].
  replace (connSessionKey x) with (k_key k) by (by subst k).
  destruct (decide (claims (idx m) !! k_key k = Some c)) as [Hin|Hin].
  2:{ rewrite bool_decide_false by done. cbn [negb]. exists m, false. split_and!; try done; [apply conns_moved_refl|apply LogicalKept_refl]. }
  rewrite bool_decide_true by done. cbn [negb]. destruct (removeClaim_ok held (k_key k) c m HG Hin) as (HG1 & HM1 & HL1 & Hi1 & Hc1 & Hh1 & Hp1).
  case_bool_decide as Hl; cbn [negb].
  2:{ exists (removeClaimLocked (k_key k) c m), false. split_and!; try done. by rewrite Hi1. }
  assert (Hlk : k_life k = Claiming) by (by subst k).
  destruct (match bySession (idx m) !! k_key k with Some o => negb (bool_decide (o = c)) | None => false end) eqn:Hother.
  { destruct (shutdown_ok held c (removeClaimLocked (k_key k) c m) k HG1) as (m' & -> & HG' & HS' & _ & Hi' & _ & Hp'); [by rewrite Hc1|]. simpl.
    exists m', false. split_and!; try done; [eapply conns_moved_trans; [exact HM1|by apply Shrunk_moved]|eapply LogicalKept_trans; [exact HL1|by apply Shrunk_kept]|congruence|by rewrite Hi', Hi1]. }
  assert (Hnone : bySession (idx m) !! k_key k = None).
  { destruct (bySession (idx m) !! k_key k) as [o|] eqn:Ho; [|done]. apply negb_false_iff, bool_decide_eq_true in Hother. subst o.
    pose proof (rg_disjoint _ _ _ (gd_reg _ _ HG) _ _ Hin). congruence. }
  destruct (transportOpen x); cbn [negb]; [|exists (removeClaimLocked (k_key k) c m), false; split_and!; try done; by rewrite Hi1].
  destruct closes.
  { destruct (life_step held c (λ x, close_transport (set_lifecycle Retired x)) m k Retired HG Hc) as (m2 & -> & HG2 & HM2 & HL2 & _ & Hi2 & _ & Hp2); [done|by left|].
    simpl. destruct (removeClaim_ok held (k_key k) c m2 HG2) as (HG3 & HM3 & HL3 & Hi3 & _ & _ & Hp3); [by rewrite Hi2|].
    eexists _, false. split; [done|]. split_and!; try done; [by eapply conns_moved_trans|by eapply LogicalKept_trans|congruence|by rewrite Hi3, Hi2]. }
  destruct (update_spec c (set_lifecycle Active) m k Hc) as (x' & Hx' & _ & -> & Hcs). assert (x' = x) as -> by congruence. cbn [mbind run_bind].
  set (m2 := set_conns _ m) in *. unfold removeClaimLocked. rewrite (bool_decide_true (claims (idx m2) !! k_key k = Some c)) by done.
  set (m3 := set_idx (publishIndexes _ _ _ _) _).
  assert (Hc3 : coresOf m3 = <[c := mkCore (connSessionKey x) Active (view x)]> (coresOf m)) by exact Hcs.
  assert (HR3 : RegInv m3).
  { unfold RegInv. rewrite Hc3. pose proof (RegOk_publish (coresOf m) (idx m) (chs m) c x (gd_reg _ _ HG)) as HP. subst k. by apply HP. }
  assert (HG3 : Good held m3) by (split; [done|apply HG]).
  assert (HM3 : Moved m m3).
  { split; [|simpl; by intros key c' [_ ?]%lookup_delete_Some]. eapply cores_insert_progress; [exact Hc|exact Hc3|by subst k|]. simpl. rewrite Hlk. by vm_compute. }
  assert (HL3 : LogicalKept m m3) by (by apply LogicalKept_eq).
  case_bool_decide as Hu; cbn [mbind run_bind].
  - exists m3, true. split_and!; try done. rewrite Hc3. by subst k.
  - destruct (update_quiet_at c (set_user (user x) true) m3 (set_lifecycle Active x)) as (m' & Hup & [Hc' Hi' Hh' Hp' Hl' Hr']); [apply lookup_insert_eq|done|].
    rewrite Hup. cbn [mbind run_bind]. exists m', true. split; [done|]. split_and!; try done.
    + split; [unfold RegInv; by rewrite Hc', Hi', Hh'|by rewrite Hp'; apply HG].
    + eapply conns_moved_trans; [exact HM3|]. apply Moved_same; [done|by rewrite Hi'].
    + eapply LogicalKept_trans; [exact HL3|]. by apply LogicalKept_eq.
    + by rewrite Hi'.
    + rewrite Hc', Hc3. by subst k.
Qed.

(** ** Leaving *)

Lemma abort_ok held now c m k :
  Good held m → coresOf m !! c = Some k →
  ∃ m', AbortActivation now c m = Done m' ∧ Good held m' ∧ Moved m m' ∧ LogicalKept m m' ∧ bySession (idx m') = bySession (idx m) ∧
    claims (idx m') !! k_key k ≠ Some c ∧ (∀ key x, x ∈ pendingOf key (psh m') → x ∈ pendingOf key (psh m)).
Proof.
  intros HG Hc. unfold AbortActivation. pose proof Hc as (x & Hx & Hk)%cores_lookup. rewrite Hx. cbn [deref mbind run_bind].
  replace (connSessionKey x) with (k_key k) by (by subst k).
  destruct (decide (claims (idx m) !! k_key k = Some c)) as [Hin|Hin].
  2:{ rewrite bool_decide_false by done. cbn [negb]. exists m. split_and!; try done; [apply conns_moved_refl|apply LogicalKept_refl]. }
  rewrite bool_decide_true by done. cbn [negb].
  destruct (shutdown_ok held c m k HG Hc) as (m1 & -> & HG1 & HS1 & Hc1 & Hi1 & Hh1 & Hp1). cbn [mbind run_bind].
  destruct (removeClaim_ok held (k_key k) c m1 HG1) as (HG2 & HM2 & HL2 & Hi2 & Hc2 & Hh2 & Hp2); [by rewrite Hi1|]. set (m2 := removeClaimLocked _ _ m1) in *.
  assert (Hdrop : ∃ m3, (if bool_decide (bySession (idx m2) !! k_key k = None) then m ← deletePending (k_key k) m2; Done (cancelFlush (k_key k) m) else Done m2) = Done m3 ∧
    Good held m3 ∧ coresOf m3 = coresOf m2 ∧ idx m3 = idx m2 ∧ logicalSessions m3 = logicalSessions m2 ∧ released m3 = released m2 ∧ DroppedTo (k_key k) (psh m2) (psh m3)).
  { case_bool_decide; [|exists m2; split_and!; try done; by left].
    destruct (dropPending_ok held true (k_key k) m2) as (m3 & Hdel & Hc3 & Hi3 & Hh3 & Hl3 & Hr3 & HP3 & Hd3 & _); [apply HG2|]. rewrite Hdel. simpl.
    eexists. split; [done|]. split_and!; try done. split; [|by apply PendInv_flushing]. unfold RegInv. change (RegOk (coresOf m3) (idx m3) (chs m3)). rewrite Hc3, Hi3, Hh3. apply HG2. }
  destruct Hdrop as (m3 & -> & HG3 & Hc3 & Hi3 & Hl3 & Hr3 & Hd3). cbn [mbind run_bind].
  destruct (markOffline_ok (k_key k) now m3) as [HS4 HL4]. set (m4 := markLogicalSessionOfflineLocked _ _ m3) in *.
  destruct (closeBatch_ok held [c] m4) as (m' & -> & HG' & HS' & Hi' & Hh' & Hp').
  { by eapply SameReg_good. }
  { apply Forall_singleton. rewrite (sr_cores _ _ HS4), Hc3, Hc2, Hc1, lookup_insert_eq. by eexists. }
  exists m'. split_and!; try done.
  - eapply conns_moved_trans; [by apply Shrunk_moved|]. eapply conns_moved_trans; [exact HM2|]. eapply conns_moved_trans; [by apply (Moved_same m2 m3); rewrite ?Hi3|].
    eapply conns_moved_trans; [by apply SameReg_moved|by apply Shrunk_moved].
  - eapply LogicalKept_trans; [by apply Shrunk_kept|]. eapply LogicalKept_trans; [exact HL2|]. eapply LogicalKept_trans; [by apply (LogicalKept_eq m2 m3)|].
    eapply LogicalKept_trans; [exact HL4|by apply Shrunk_kept].
  - by rewrite Hi', (sr_idx _ _ HS4), Hi3, Hi2, Hi1.
  - rewrite Hi', (sr_idx _ _ HS4), Hi3, Hi2, Hi1. simpl. by rewrite lookup_delete_eq.
  - intros key y. rewrite Hp', (sr_psh _ _ HS4). intros Hy. eapply DroppedTo_in in Hy; [|exact Hd3]. by rewrite Hp2, Hp1 in Hy.
Qed.
Lemma finish_ok held now c retired converged m k :
  Good held m → coresOf m !! c = Some k → Forall (λ c, is_Some (coresOf m !! c)) retired →
  ∃ m' ok, finishActivation now c retired converged m = Done (m', ok) ∧ Good held m' ∧ Moved m m' ∧ LogicalKept m m' ∧ bySession (idx m') = bySession (idx m) ∧
    (∀ key x, x ∈ pendingOf key (psh m') → x ∈ pendingOf key (psh m)).
Proof.
  intros HG Hc Hret. unfold finishActivation. destruct (closeBatch_ok held retired m HG Hret) as (m1 & -> & HG1 & HS1 & Hi1 & Hh1 & Hp1). cbn [mbind run_bind].
  destruct converged; [exists m1, true; split_and!; try done; [by apply Shrunk_moved|by apply Shrunk_kept|by rewrite Hi1|by rewrite Hp1]|].
  destruct (sh_core _ _ HS1 _ _ Hc) as (k1 & Hk1 & _). destruct (abort_ok held now c m1 k1 HG1 Hk1) as (m' & -> & HG' & HM' & HL' & Hb' & _ & Hp'). simpl.
  exists m', false. split_and!; try done; [eapply conns_moved_trans; [by apply Shrunk_moved|done]|eapply LogicalKept_trans; [by apply Shrunk_kept|done]|by rewrite Hb', Hi1|].
  intros key y Hy. rewrite <-Hp1. by apply Hp'.
Qed.

(** Letting the claim of a retired connection go, with its staged pushes. *)
Lemma unclaim_ok held key c m :
  Good held m →
  ∃ m', (if bool_decide (claims (idx m) !! key = Some c) then m ← deletePending key (removeClaimLocked key c m); Done (cancelFlush key m) else Done m) = Done m' ∧
    Good held m' ∧ coresOf m' = coresOf m ∧ Moved m m' ∧ LogicalKept m m' ∧ bySession (idx m') = bySession (idx m) ∧ byUser (idx m') = byUser (idx m) ∧
    claims (idx m') = (if decide (claims (idx m) !! key = Some c) then delete key (claims (idx m)) else claims (idx m)) ∧
    (∀ k x, x ∈ pendingOf k (psh m') → x ∈ pendingOf k (psh m)).
Proof.
  intros HG. case_bool_decide as Hin.
  2:{ exists m. rewrite decide_False by done. split_and!; try done; [apply conns_moved_refl|apply LogicalKept_refl]. }
  rewrite decide_True by done. destruct (removeClaim_ok held key c m HG Hin) as (HG1 & HM1 & HL1 & Hi1 & Hc1 & Hh1 & Hp1). set (m1 := removeClaimLocked key c m) in *.
  destruct (dropPending_ok held true key m1) as (m2 & Hdel & Hc2 & Hi2 & Hh2 & Hl2 & Hr2 & HP2 & Hd2 & _); [apply HG1|]. simpl in Hdel. rewrite Hdel. simpl.
  eexists. split; [done|]. assert (Hcs : coresOf (cancelFlush key m2) = coresOf m) by (change (coresOf m2 = coresOf m); congruence). split_and!; try done.
  - split; [|by apply PendInv_flushing]. pose proof (gd_reg _ _ HG1) as HR1. unfold RegInv in *. rewrite Hcs, <-Hc1. simpl. by rewrite Hi2, Hh2.
  - eapply conns_moved_trans; [exact HM1|]. apply Moved_same; [congruence|]. simpl. by rewrite Hi2.
  - eapply LogicalKept_trans; [exact HL1|]. by apply LogicalKept_eq.
  - simpl. by rewrite Hi2, Hi1.
  - simpl. by rewrite Hi2, Hi1.
  - simpl. by rewrite Hi2, Hi1.
  - intros k x Hx. rewrite <-Hp1. by eapply DroppedTo_in.
Qed.

(** Unregistering a connection leaves no trace of it, and the observer is told
    of the account whose session ended and whether it was the last. *)
Lemma unregister_ok held now c m k :
  Good held m → coresOf m !! c = Some k →
  ∃ m' e, Unregister now c m = Done (m', e) ∧ Good held m' ∧ Moved m m' ∧ LogicalKept m m' ∧
    coresOf m' = <[c := mkCore (k_key k) Retired (k_ident k)]> (coresOf m) ∧
    claims (idx m') = (if decide (claims (idx m) !! k_key k = Some c) then delete (k_key k) (claims (idx m)) else claims (idx m)) ∧
    bySession (idx m') = (if decide (bySession (idx m) !! k_key k = Some c) then delete (k_key k) (bySession (idx m)) else bySession (idx m)) ∧
    e = (if decide (bySession (idx m) !! k_key k = Some c)
         then Some (k_key k, k_user k, negb (bool_decide (k_user k = 0)) && bool_decide (inner (k_user k) (byUser (idx m')) = ∅)) else None) ∧
    (∀ key x, x ∈ pendingOf key (psh m') → x ∈ pendingOf key (psh m)).
Proof.
  intros HG Hc. unfold Unregister. destruct (shutdown_ok held c m k HG Hc) as (m1 & -> & HG1 & HS1 & Hc1 & Hi1 & Hh1 & Hp1). cbn [mbind run_bind].
  set (k1 := mkCore (k_key k) Retired (k_ident k)) in *. assert (Hk1 : coresOf m1 !! c = Some k1) by (by rewrite Hc1, lookup_insert_eq).
  pose proof Hk1 as (x & Hx & Hxk)%cores_lookup. rewrite Hx. cbn [deref mbind run_bind].
  replace (connSessionKey x) with (k_key k) by (change (k_key k) with (k_key k1); by rewrite <-Hxk).
  destruct (unclaim_ok held (k_key k) c m1 HG1) as (m2 & -> & HG2 & Hc2 & HM2 & HL2 & Hb2 & Hu2 & Hcl2 & Hp2). cbn [mbind run_bind].
  rewrite Hi1 in Hb2, Hu2, Hcl2.
  assert (Hrem : ∃ m3 e, (if bool_decide (bySession (idx m2) !! k_key k = Some c)
             then '(m, u) ← removeLocked c true m2; Done (m, Some (k_key k, u, negb (bool_decide (u = 0)) && bool_decide (inner u (byUser (idx m)) = ∅)))
             else Done (m2, None)) = Done (m3, e) ∧ Good held m3 ∧ Shrunk m2 m3 ∧ coresOf m3 = coresOf m2 ∧ claims (idx m3) = claims (idx m2) ∧
     bySession (idx m3) = (if decide (bySession (idx m) !! k_key k = Some c) then delete (k_key k) (bySession (idx m)) else bySession (idx m)) ∧
     e = (if decide (bySession (idx m) !! k_key k = Some c)
         then Some (k_key k, k_user k, negb (bool_decide (k_user k = 0)) && bool_decide (inner (k_user k) (byUser (idx m3)) = ∅)) else None)).
  { rewrite Hb2. destruct (decide (bySession (idx m) !! k_key k = Some c)) as [Hin|Hin];
      [rewrite bool_decide_true by done|rewrite bool_decide_false by done; exists m2, None; split_and!; try done; apply Shrunk_refl].
    destruct (removeLocked_ok held c true m2 k1 HG2) as (m3 & u & -> & HG3 & HS3 & Hc3 & Hcl3 & _ & Hif); [by rewrite Hc2|done|].
    rewrite Hb2, decide_True in Hif by done. destruct Hif as (Hb3 & -> & _). simpl. by eexists _, _. }
  destruct Hrem as (m3 & e & -> & HG3 & HS3 & Hc3 & Hcl3 & Hb3 & He). cbn [mbind run_bind].
  destruct (markOffline_ok (k_key k) now m3) as [HS4 HL4]. eexists _, e. split; [done|]. split_and!.
  - by eapply SameReg_good.
  - eapply conns_moved_trans; [by apply Shrunk_moved|]. eapply conns_moved_trans; [exact HM2|]. eapply conns_moved_trans; [by apply Shrunk_moved|by apply SameReg_moved].
  - eapply LogicalKept_trans; [by apply Shrunk_kept|]. eapply LogicalKept_trans; [exact HL2|]. eapply LogicalKept_trans; [by apply Shrunk_kept|done].
  - rewrite (sr_cores _ _ HS4). congruence.
  - rewrite (sr_idx _ _ HS4). congruence.
  - by rewrite (sr_idx _ _ HS4).
  - by rewrite (sr_idx _ _ HS4).
  - intros key y. rewrite (sr_psh _ _ HS4). intros Hy. apply (sh_pending _ _ HS3) in Hy. apply Hp2 in Hy. by apply (sh_pending _ _ HS1).
Qed.

(** After a destroy the session has no owner, no claim, no logical session and
    no staged push; the rest of the registry is untouched. *)
Lemma destroy_ok held key m :
  Good held m →
  ∃ m' existed, DestroySessionForAuthKey key m = Done (m', existed) ∧ Good held m' ∧ Moved m m' ∧
    bySession (idx m') = delete key (bySession (idx m)) ∧ claims (idx m') = delete key (claims (idx m)) ∧
    logicalSessions m' = delete key (logicalSessions m) ∧ existed = owned key m ∧
    released m' = released m ++ match logicalSessions m !! key with Some l => [(key, outbound l)] | None => [] end ∧
    (∀ c, bySession (idx m) !! key = Some c ∨ claims (idx m) !! key = Some c → ∃ k, coresOf m' !! c = Some k ∧ k_life k = Retired) ∧
    (∀ k x, x ∈ pendingOf k (psh m') → x ∈ pendingOf k (psh m)).
Proof.
  intros HG. unfold DestroySessionForAuthKey, owned. pose proof (gd_reg _ _ HG) as HR.
  assert (Hend : ∀ m1 c, Good held m1 → Shrunk m m1 → is_Some (coresOf m1 !! c) → 
    ∃ m2, closeConnBatch [c] m1 = Done m2 ∧ Good held (destroyLogicalSession key m2) ∧ Moved m (destroyLogicalSession key m2) ∧
      idx (destroyLogicalSession key m2) = idx m1 ∧ logicalSessions (destroyLogicalSession key m2) = delete key (logicalSessions m) ∧
      released (destroyLogicalSession key m2) = released m ++ match logicalSessions m !! key with Some l => [(key, outbound l)] | None => [] end ∧
      (∃ k, coresOf (destroyLogicalSession key m2) !! c = Some k ∧ k_life k = Retired) ∧ (∀ k x, x ∈ pendingOf k (psh (destroyLogicalSession key m2)) → x ∈ pendingOf k (psh m))).
  { intros m1 c HG1 HS1 Hc1. cbn [closeConnBatch]. destruct Hc1 as [k1 Hk1].
    destruct (shutdown_ok held c m1 k1 HG1 Hk1) as (m2 & -> & HG2 & HS2 & Hc2 & Hi2 & Hh2 & Hp2). simpl.
    destruct (closeTransport_ok c m2 (mkCore (k_key k1) Retired (k_ident k1))) as (m3 & -> & HE3); [rewrite Hc2; apply lookup_insert_eq|]. simpl.
    destruct (destroyLogical_ok key m3) as (HS4 & Hl4 & Hr4). pose proof (Shrunk_trans _ _ _ HS1 HS2) as HS.
    exists m3. split; [done|]. split_and!.
    - eapply SameReg_good; [exact HS4|by eapply Good_same].
    - eapply conns_moved_trans; [by apply Shrunk_moved|]. eapply conns_moved_trans; [apply Shrunk_moved, Shrunk_same, HE3|by apply SameReg_moved].
    - by rewrite (sr_idx _ _ HS4), (sm_idx _ _ HE3), Hi2.
    - by rewrite Hl4, (sm_logical _ _ HE3), (sh_logical _ _ HS).
    - by rewrite Hr4, (sm_logical _ _ HE3), (sm_released _ _ HE3), (sh_logical _ _ HS), (sh_released _ _ HS).
    - exists (mkCore (k_key k1) Retired (k_ident k1)). rewrite (sr_cores _ _ HS4), (sm_cores _ _ HE3), Hc2. by rewrite lookup_insert_eq.
    - intros k x. rewrite (sr_psh _ _ HS4), (sm_psh _ _ HE3). apply (sh_pending _ _ HS). }
  destruct (bySession (idx m) !! key) as [c|] eqn:Hb.
  - destruct (rg_session _ _ _ HR _ _ Hb) as (k & Hk & Hkey & _). subst key.
    destruct (retireConn_ok held c true m k HG Hk) as (m1 & u & -> & HG1 & HS1 & Hc1 & Hcl1 & _ & Hb1 & _). cbn [mbind run_bind].
    destruct (Hend m1 c HG1 HS1) as (m2 & -> & HG2 & HM2 & Hi2 & Hl2 & Hr2 & Hret & Hp2); [rewrite Hc1, lookup_insert_eq; by eexists|]. simpl.
    eexists _, _. split; [done|]. split_and!; try done.
    + by rewrite Hi2, Hb1, decide_True.
    + rewrite Hi2, Hcl1. symmetry. apply delete_id. destruct (claims (idx m) !! k_key k) as [c'|] eqn:Hcl; [|done].
      pose proof (rg_disjoint _ _ _ HR _ _ Hcl). congruence.
    + intros c' [[= <-]|Hcl]; [done|]. pose proof (rg_disjoint _ _ _ HR _ _ Hcl). congruence.
  - destruct (claims (idx m) !! key) as [c|] eqn:Hcl.
    + destruct (retireClaim_ok held key c true m HG) as (m1 & -> & HG1 & HS1 & Hb1 & _ & Hif). rewrite decide_True in Hif by done. destruct Hif as (Hcl1 & k & Hk & Hc1).
      cbn [mbind run_bind]. destruct (Hend m1 c HG1 HS1) as (m2 & -> & HG2 & HM2 & Hi2 & Hl2 & Hr2 & Hret & Hp2); [rewrite Hc1, lookup_insert_eq; by eexists|]. simpl.
      eexists _, _. split; [done|]. split_and!; try done; [by rewrite Hi2, Hb1, delete_id|by rewrite Hi2, Hcl1|]. by intros c' [?|[= <-]].
    + destruct (dropPending_ok held true key m) as (m1 & Hdel & Hc1 & Hi1 & Hh1 & Hl1 & Hr1 & HP1 & Hd1 & _); [apply HG|]. rewrite Hdel. simpl.
      destruct (destroyLogical_ok key m1) as (HS4 & Hl4 & Hr4). eexists _, _. split; [done|]. split_and!.
      * eapply SameReg_good; [exact HS4|]. split; [unfold RegInv; by rewrite Hc1, Hi1, Hh1|done].
      * eapply conns_moved_trans; [apply Moved_same; [exact Hc1|by rewrite Hi1]|by apply SameReg_moved].
      * by rewrite (sr_idx _ _ HS4), Hi1, delete_id.
      * by rewrite (sr_idx _ _ HS4), Hi1, delete_id.
      * by rewrite Hl4, Hl1.
      * done.
      * by rewrite Hr4, Hr1, Hl1.
      * by intros c [?|?].
      * intros k x. rewrite (sr_psh _ _ HS4). intros Hx. by eapply DroppedTo_in.
Qed.
