(* ===== verification/SessionsBind.v ===== *)
(** * Accounts, keys and revocation under the invariant

    Binding moves a session between the entries of its account or key and
    forgets what belonged to the previous account; revocation leaves no owner
    and no claim of the key. *)

From S2P Require Import Prelude TrackedBudget SessionIndex SessionPending Sessions SessionsInv SessionsOps SessionsTake SessionsLeave.
Import Index Pending Manager.

(** ** Indexes *)

Lemma NoEmpty_ext (i i' : gmap Z (gmap sessionKey positive)) : NoEmpty i → NoEmpty i' → (∀ k, inner k i = inner k i') → i = i'.
Proof.
  intros Hn Hn' He. apply map_eq. intros k. specialize (He k). unfold inner in He.
  destruct (i !! k) as [s|] eqn:Hs, (i' !! k) as [s'|] eqn:Hs'; simpl in He; subst; try done; [by destruct (Hn k)|by destruct (Hn' k)].
Qed.
(** Filing an entry again where it was changes nothing. *)
Lemma moveBusiness_same (o : option Z) (key : sessionKey) (c : positive) (by_ : gmap Z (gmap sessionKey positive)) :
  NoEmpty by_ → (∀ b, o = Some b → lookup2 b key by_ = Some c) → moveBusiness o o key c by_ = by_.
Proof.
  intros Hn Hl. destruct o as [b|]; [|done]. specialize (Hl b eq_refl). unfold moveBusiness. apply NoEmpty_ext; [by apply NoEmpty_add, NoEmpty_remove|done|].
  intros k. rewrite inner_add, !inner_remove. destruct (decide (b = k)) as [<-|]; [|done]. rewrite decide_True by done.
  rewrite insert_delete_eq. by apply insert_id.
Qed.

Lemma chans_keep cs i ch key c k u :
  RegOk cs i ch → bySession i !! key = Some c → cs !! c = Some k → k_user k = 0 ∨ k_user k = u → ChansOk (λ k' u', LiveUser cs i k' u' ∧ (k' = key → u' = u)) ch.
Proof.
  intros HR Hin Hc Hu. eapply ChansOk_mono; [|apply HR]. intros k' u' HL. split; [done|]. intros ->. destruct HL as (Hne & c' & x & Hb & Hx & <-).
  assert (c' = c) as -> by congruence. assert (x = k) as -> by congruence. by destruct Hu.
Qed.
Lemma chans_clear cs i ch key u : RegOk cs i ch → ChansOk (λ k' u', LiveUser cs i k' u' ∧ (k' = key → u' = u)) (clearChannels key ch).
Proof. intros HR. eapply ChansOk_mono; [|apply ChansOk_clear, HR]. naive_solver. Qed.
Lemma ChansOk_clear_again P key ch : ChansOk P ch → ChansOk P (clearChannels key ch).
Proof. intros HC. eapply ChansOk_mono; [|by apply ChansOk_clear]. naive_solver. Qed.

(** ** Rebinding an owner *)

Definition withIdent (d : identity) (k : core) : core := mkCore (k_key k) (k_life k) d.
Definition userIdent (u : Z) (k : core) : identity := mkIdentity (businessAuthKeyID (k_ident k)) (businessAuthKeyResolved (k_ident k)) u false.
Definition reidentIndexes (key : sessionKey) (c : positive) (k : core) (d : identity) (i : indexes) : indexes :=
  mkIndexes (bySession i) (claims i) (claimsByAuth i) (byAuthKey i) (moveBusiness (k_business k) (identBusiness d) key c (byBusinessAuthKey i))
    (moveUser (k_user k) (userID d) key c (byUser i)).

(** What every rebinding of the owner [c] of [key] gives. *)
Record Rebound (held : positive → Z) (key : sessionKey) (c : positive) (k : core) (d : identity) (m m' : manager) : Prop := {
  rb_good : Good held m';
  rb_cores : coresOf m' = <[c := withIdent d k]> (coresOf m);
  rb_session : bySession (idx m') = bySession (idx m);
  rb_claims : claims (idx m') = claims (idx m);
  rb_logical : LogicalKept m m';
  rb_pending key' x : x ∈ pendingOf key' (psh m') → x ∈ pendingOf key' (psh m);
}.
Lemma rebound_moved held key c k d m m' : coresOf m !! c = Some k → Rebound held key c k d m m' → Moved m m'.
Proof.
  intros Hc [_ Hcs _ Hcl _ _]. split; [|by rewrite Hcl]. eapply cores_insert_progress; [exact Hc|exact Hcs|done|]. simpl. lia.
Qed.
Lemma rebound_make held key c k d m m' :
  Good held m → bySession (idx m) !! key = Some c → coresOf m !! c = Some k →
  coresOf m' = <[c := withIdent d k]> (coresOf m) → idx m' = reidentIndexes key c k d (idx m) →
  ChansOk (λ k' u, LiveUser (coresOf m) (idx m) k' u ∧ (k' = key → u = userID d)) (chs m') → PendInv held (psh m') → LogicalKept m m' →
  (∀ key' x, x ∈ pendingOf key' (psh m') → x ∈ pendingOf key' (psh m)) → Rebound held key c k d m m'.
Proof.
  intros HG Hin Hc Hcs Hi Hch HP HL Hp. split; try done; [|by rewrite Hi|by rewrite Hi]. split; [|done]. unfold RegInv. rewrite Hcs, Hi.
  eapply RegOk_reident; [apply HG|exact Hin|exact Hc|exact Hch].
Qed.
(** Changing the account only leaves the entry of the key. *)
Lemma reident_user m key c k u : RegInv m → bySession (idx m) !! key = Some c → coresOf m !! c = Some k →
  reidentIndexes key c k (userIdent u k) (idx m) =
  mkIndexes (bySession (idx m)) (claims (idx m)) (claimsByAuth (idx m)) (byAuthKey (idx m)) (byBusinessAuthKey (idx m)) (moveUser (k_user k) u key c (byUser (idx m))).
Proof.
  intros HR Hin Hc. unfold reidentIndexes. change (identBusiness (userIdent u k)) with (k_business k). simpl. f_equal. apply moveBusiness_same; [apply HR|].
  intros b Hb. apply (rg_business _ _ _ HR). split; [done|]. exists k. done.
Qed.

Lemma bindUser_ok held key c k u m :
  Good held m → bySession (idx m) !! key = Some c → coresOf m !! c = Some k →
  ∃ m', bindUserLocked c key u m = Done m' ∧ Rebound held key c k (userIdent u k) m m' ∧
    (u = 0 ∨ (k_user k ≠ 0 ∧ k_user k ≠ u) → pendingOf key (psh m') = []).
Proof.
  intros HG Hin Hc. unfold bindUserLocked. pose proof Hc as (x & Hx & Hk)%cores_lookup. rewrite Hx. cbn [deref mbind run_bind].
  replace (user x) with (k_user k) by (by subst k).
  destruct (update_spec c (λ x, set_user u (userIDResolved (ident x)) x) m k Hc) as (x' & Hx' & _ & -> & Hcs). assert (x' = x) as -> by congruence. cbn [mbind run_bind].
  set (m1 := set_conns _ m) in *. assert (Hc1 : coresOf m1 = <[c := withIdent (userIdent u k) k]> (coresOf m)) by (rewrite Hcs; by subst k).
  pose proof (gd_reg _ _ HG) as HR. clear Hcs Hx'. cbv zeta.
  (* the entry of the previous account goes *)
  assert (H2 : ∃ m2, (if bool_decide (k_user k = 0) then Done m1
        else if bool_decide (k_user k = u) then Done (reindexUser key (removeIndex (k_user k) key) m1)
        else forgetAccount c key (reindexUser key (removeIndex (k_user k) key) m1)) = Done m2 ∧ coresOf m2 = coresOf m1 ∧
      idx m2 = mkIndexes (bySession (idx m)) (claims (idx m)) (claimsByAuth (idx m)) (byAuthKey (idx m)) (byBusinessAuthKey (idx m))
        (if bool_decide (k_user k = 0) then byUser (idx m) else removeIndex (k_user k) key (byUser (idx m))) ∧
      ChansOk (λ k' u', LiveUser (coresOf m) (idx m) k' u' ∧ (k' = key → u' = u)) (chs m2) ∧ logicalSessions m2 = logicalSessions m ∧ released m2 = released m ∧
      PendInv held (psh m2) ∧ (∀ k', pendingOf k' (psh m2) = pendingOf k' (psh m) ∨ (k' = key ∧ pendingOf k' (psh m2) = [])) ∧
      (k_user k ≠ 0 ∧ k_user k ≠ u → pendingOf key (psh m2) = [])).
  { case_bool_decide as H0.
    - exists m1. split; [done|]. split; [done|]. split; [by destruct m as [? []]|]. split_and!; try done; [by eapply chans_keep; eauto|apply HG|by left|by intros []].
    - case_bool_decide as Hu.
      + eexists. split; [done|]. split; [done|]. split; [done|]. split_and!; try done; [eapply chans_keep; eauto; by right|apply HG|by left|by intros []].
      + destruct (forgetAccount_ok held c key (reindexUser key (removeIndex (k_user k) key) m1) (withIdent (userIdent u k) k)) as (m2 & -> & Hc2 & Hi2 & Hh2 & Hl2 & Hr2 & HP2 & Hp2);
          [apply HG|change (coresOf m1 !! c = Some (withIdent (userIdent u k) k)); by rewrite Hc1, lookup_insert_eq|].
        exists m2. split; [done|]. split; [exact Hc2|]. split; [exact Hi2|]. split_and!; try done.
        * rewrite Hh2. by apply chans_clear.
        * intros k'. rewrite Hp2. case_decide; [by right|by left].
        * intros _. by rewrite Hp2, decide_True. }
  destruct H2 as (m2 & -> & Hc2 & Hi2 & Hh2 & Hl2 & Hr2 & HP2 & Hp2 & Hp2'). cbn [mbind run_bind].
  assert (Hx2 : ∃ y, conns m2 !! c = Some y ∧ user y = u).
  { assert (Hl : coresOf m2 !! c = Some (withIdent (userIdent u k) k)) by (by rewrite Hc2, Hc1, lookup_insert_eq). apply cores_lookup in Hl as (y & Hy & Hyk).
    exists y. split; [done|]. change (user y) with (k_user (coreOf y)). by rewrite Hyk. }
  destruct Hx2 as (y & Hy & Hyu). destruct (update_quiet_at c (set_user u true) m2 y Hy) as (m3 & -> & [Hc3 Hi3 Hh3 Hp3 Hl3 Hr3]).
  { unfold coreOf, view, set_user, user in *. simpl. by rewrite Hyu. }
  cbn [mbind run_bind].
  assert (Hin3 : coresOf m3 = <[c := withIdent (userIdent u k) k]> (coresOf m)) by congruence.
  destruct (decide (u = 0)) as [Hu0|Hu0]; [rewrite (bool_decide_true (u = 0)) by done|rewrite (bool_decide_false (u = 0)) by done].
  - destruct (forgetAccount_ok held c key m3 (withIdent (userIdent u k) k)) as (m4 & -> & Hc4 & Hi4 & Hh4 & Hl4 & Hr4 & HP4 & Hp4); [by rewrite Hp3|by rewrite Hin3, lookup_insert_eq|].
    exists m4. split; [done|]. split; [|intros _; by rewrite Hp4, decide_True].
    apply rebound_make; try done; [congruence| | | |].
    + rewrite (reident_user m key c k u HR Hin Hc), Hi4, Hi3, Hi2. f_equal. unfold moveUser. by rewrite (bool_decide_true (u = 0)).
    + rewrite Hh4, Hh3. by apply ChansOk_clear_again.
    + apply LogicalKept_eq; congruence.
    + intros k' z. rewrite Hp4. destruct (decide (k' = key)); [by intros ?%elem_of_nil|]. rewrite Hp3. destruct (Hp2 k') as [->|[_ ->]]; [done|by intros ?%elem_of_nil].
  - eexists. split; [done|]. split.
    + apply rebound_make; try done; [| | | |].
      * rewrite (reident_user m key c k u HR Hin Hc). simpl. rewrite Hi3, Hi2. f_equal. unfold moveUser. by rewrite (bool_decide_false (u = 0)).
      * simpl. by rewrite Hh3.
      * simpl. by rewrite Hp3.
      * apply LogicalKept_eq; simpl; congruence.
      * intros k' z. simpl. rewrite Hp3. destruct (Hp2 k') as [->|[_ ->]]; [done|by intros ?%elem_of_nil].
    + intros [->|Hch]; [done|]. simpl. rewrite Hp3. by apply Hp2'.
Qed.

(** Taking the account away from a connection whose account is gone already. *)
Lemma forgetUser_ok held key c k old resolved m :
  PendInv held (psh m) → coresOf m !! c = Some k → k_user k = 0 →
  ∃ m', (m ← forgetAccount c key (if bool_decide (old = 0) then m else reindexUser key (removeIndex old key) m); update c (set_user 0 resolved) m) = Done m' ∧
    coresOf m' = coresOf m ∧
    idx m' = mkIndexes (bySession (idx m)) (claims (idx m)) (claimsByAuth (idx m)) (byAuthKey (idx m)) (byBusinessAuthKey (idx m)) (moveUser old 0 key c (byUser (idx m))) ∧
    chs m' = clearChannels key (chs m) ∧ LogicalKept m m' ∧ PendInv held (psh m') ∧
    (∀ k', pendingOf k' (psh m') = if decide (k' = key) then [] else pendingOf k' (psh m)).
Proof.
  intros HP Hc Hu. set (m0 := if bool_decide (old = 0) then m else _).
  assert (Hm0 : coresOf m0 = coresOf m ∧ psh m0 = psh m ∧ chs m0 = chs m ∧ logicalSessions m0 = logicalSessions m ∧ released m0 = released m ∧
    idx m0 = mkIndexes (bySession (idx m)) (claims (idx m)) (claimsByAuth (idx m)) (byAuthKey (idx m)) (byBusinessAuthKey (idx m)) (moveUser old 0 key c (byUser (idx m)))).
  { unfold m0, moveUser. case_bool_decide; split_and!; try done. by destruct m as [? []]. }
  destruct Hm0 as (Hc0 & Hp0 & Hh0 & Hl0 & Hr0 & Hi0). clearbody m0.
  destruct (forgetAccount_ok held c key m0 k) as (m1 & -> & Hc1 & Hi1 & Hh1 & Hl1 & Hr1 & HP1 & Hp1); [by rewrite Hp0|by rewrite Hc0|]. cbn [mbind run_bind].
  assert (Hx : coresOf m1 !! c = Some k) by (by rewrite Hc1, Hc0). apply cores_lookup in Hx as (y & Hy & Hyk).
  destruct (update_quiet_at c (set_user 0 resolved) m1 y Hy) as (m2 & -> & [Hc2 Hi2 Hh2 Hp2 Hl2 Hr2]).
  { change (k_user k = 0) in Hu. rewrite <-Hyk in Hu. change (user y = 0) in Hu. unfold coreOf, view, set_user, user in *. simpl. by rewrite Hu. }
  exists m2. split; [done|]. split_and!; [congruence|congruence|congruence|apply LogicalKept_eq; congruence|by rewrite Hp2|]. intros k'. by rewrite Hp2, Hp1, Hp0.
Qed.

Lemma unbind_ok held key c k m :
  Good held m → bySession (idx m) !! key = Some c → coresOf m !! c = Some k →
  ∃ m', unbindLocked c key m = Done m' ∧ Rebound held key c k (userIdent 0 k) m m' ∧ pendingOf key (psh m') = [].
Proof.
  intros HG Hin Hc. unfold unbindLocked. pose proof Hc as (x & Hx & Hk)%cores_lookup. rewrite Hx. cbn [deref mbind run_bind].
  replace (user x) with (k_user k) by (by subst k).
  destruct (update_spec c (λ x, set_user 0 (userIDResolved (ident x)) x) m k Hc) as (x' & Hx' & _ & -> & Hcs). assert (x' = x) as -> by congruence. cbn [mbind run_bind].
  set (m1 := set_conns _ m) in *. assert (Hc1 : coresOf m1 = <[c := withIdent (userIdent 0 k) k]> (coresOf m)) by (rewrite Hcs; by subst k).
  destruct (forgetUser_ok held key c (withIdent (userIdent 0 k) k) (k_user k) true m1) as (m' & Hf & Hc' & Hi' & Hh' & HL' & HP' & Hp');
    [apply HG|by rewrite Hc1, lookup_insert_eq|done|]. cbv zeta. rewrite Hf. pose proof (gd_reg _ _ HG) as HR.
  exists m'. split; [done|]. split; [|by rewrite Hp', decide_True]. apply rebound_make; try done; [by rewrite Hc'| | | |].
  - by rewrite (reident_user m key c k 0 HR Hin Hc), Hi'.
  - rewrite Hh'. by apply chans_clear.
  - by eapply (LogicalKept_trans m m1); [apply LogicalKept_eq|].
  - intros k' z. rewrite Hp'. destruct (decide (k' = key)); [by intros ?%elem_of_nil|done].
Qed.

Definition keyIdent (b : Z) (k : core) : identity :=
  if decide (k_business k = Some b) then k_ident k else mkIdentity b true 0 false.
Lemma bindAuthKey_ok held key c k b m :
  Good held m → bySession (idx m) !! key = Some c → coresOf m !! c = Some k →
  ∃ m', bindAuthKeyLocked c key b m = Done m' ∧ Rebound held key c k (keyIdent b k) m m' ∧ (k_business k ≠ Some b → pendingOf key (psh m') = []).
Proof.
  intros HG Hin Hc. unfold bindAuthKeyLocked. pose proof Hc as (x & Hx & Hk)%cores_lookup. rewrite Hx. cbn [deref mbind run_bind].
  replace (user x) with (k_user k) by (by subst k). replace (business x) with (k_business k) by (by subst k). cbv zeta. pose proof (gd_reg _ _ HG) as HR.
  set (m0 := match k_business k with Some old => reindexBusiness _ m | None => m end).
  assert (Hm0 : conns m0 = conns m ∧ psh m0 = psh m ∧ chs m0 = chs m ∧ logicalSessions m0 = logicalSessions m ∧ released m0 = released m ∧
    reindexBusiness (addIndex b key c) m0 = reindexBusiness (moveBusiness (k_business k) (Some b) key c) m).
  { unfold m0. by destruct (k_business k). }
  destruct Hm0 as (Hc0 & Hp0 & Hh0 & Hl0 & Hr0 & Hi0).
  assert (Hcm0 : coresOf m0 !! c = Some k) by (unfold coresOf; by rewrite Hc0).
  destruct (update_spec c (set_business b) m0 k Hcm0) as (x' & Hx' & _ & -> & Hcs). assert (x' = x) as -> by congruence. cbn [mbind run_bind].
  set (m1 := set_conns _ m0) in *. destruct (bindLogical_ok key b m1) as [HS2 HL2]. set (m2 := bindLogicalSessionAuthKeyLocked key b m1) in *.
  set (m3 := reindexBusiness (addIndex b key c) m2).
  assert (Hi3 : idx m3 = mkIndexes (bySession (idx m)) (claims (idx m)) (claimsByAuth (idx m)) (byAuthKey (idx m)) (moveBusiness (k_business k) (Some b) key c (byBusinessAuthKey (idx m))) (byUser (idx m))).
  { apply (f_equal idx) in Hi0. simpl in Hi0. unfold m3. simpl. rewrite (sr_idx _ _ HS2). exact Hi0. }
  assert (Hc3 : coresOf m3 = <[c := withIdent (keyIdent b k) k]> (coresOf m)).
  { change (coresOf m3) with (coresOf m2). rewrite (sr_cores _ _ HS2), Hcs. unfold coresOf. rewrite Hc0. f_equal. subst k. unfold keyIdent, set_business.
    change (k_business (coreOf x)) with (business x). destruct (decide (business x = Some b)) as [Hb|Hb]; [rewrite bool_decide_true by done|by rewrite bool_decide_false].
    unfold withIdent, coreOf, view, user. simpl. unfold business in Hb. destruct (businessAuthKeyResolved (ident x)); [|done]. by injection Hb as ->. }
  assert (HL3 : LogicalKept m m3).
  { eapply (LogicalKept_trans m m1); [by apply LogicalKept_eq|]. eapply LogicalKept_trans; [exact HL2|by apply LogicalKept_eq]. }
  assert (Hp3 : psh m3 = psh m) by (change (psh m2 = psh m); rewrite (sr_psh _ _ HS2); exact Hp0).
  assert (Hh3 : chs m3 = chs m) by (change (chs m2 = chs m); rewrite (sr_chs _ _ HS2); exact Hh0).
  clearbody m3. clear m1 m2 Hcs HS2 HL2 m0 Hc0 Hp0 Hh0 Hl0 Hr0 Hi0 Hcm0 Hx'.
  destruct (decide (k_business k = Some b)) as [Hb|Hb].
  - rewrite bool_decide_true by done. cbn [negb]. exists m3. split; [done|]. split; [|done].
    assert (Hk' : keyIdent b k = k_ident k) by (unfold keyIdent; by rewrite decide_True).
    assert (Hsame : coresOf m3 = coresOf m). { rewrite Hc3, Hk'. apply insert_id. rewrite Hc. by destruct k. }
    assert (Hidx : idx m3 = idx m).
    { rewrite Hi3, Hb, moveBusiness_same; [by destruct m as [? []]|apply HR|]. intros b' [= <-]. apply (rg_business _ _ _ HR). split; [done|]. by exists k. }
    split; try done; [|by rewrite Hidx|by rewrite Hidx|by rewrite Hp3]. split; [unfold RegInv; by rewrite Hsame, Hidx, Hh3|rewrite Hp3; apply HG].
  - rewrite bool_decide_false by done. cbn [negb]. assert (Hk' : keyIdent b k = mkIdentity b true 0 false) by (unfold keyIdent; by rewrite decide_False).
    destruct (forgetUser_ok held key c (withIdent (keyIdent b k) k) (k_user k) false m3) as (m' & Hf & Hc' & Hi' & Hh' & HL' & HP' & Hp');
      [rewrite Hp3; apply HG|by rewrite Hc3, lookup_insert_eq|by rewrite Hk'|]. rewrite Hf.
    exists m'. split; [done|]. split; [|intros _; by rewrite Hp', decide_True]. apply rebound_make; try done; [by rewrite Hc'| | | |].
    + rewrite Hi', Hi3. unfold reidentIndexes. simpl. by rewrite Hk'.
    + rewrite Hh', Hh3. by apply chans_clear.
    + by eapply LogicalKept_trans.
    + intros k' z. rewrite Hp', Hp3. destruct (decide (k' = key)); [by intros ?%elem_of_nil|done].
Qed.
