(* ===== verification/SessionsRevoke.v ===== *)
(** * Loops of the session manager: rebinding, revocation, retention

    The operations that walk over several sessions, in whatever order the maps
    are visited: unbinding and revoking a key, closing the sessions of a raw
    key, and dropping logical sessions. *)

From S2P Require Import Prelude TrackedBudget SessionIndex SessionPending Sessions SessionsInv SessionsOps SessionsTake SessionsLeave SessionsBind.
Import Index Pending Manager.

Section loops.
Context `{Ranges}.

(** The part of the list already visited is the index of the invariant. *)
Lemma forLoop_ind {A} (I : list A → manager → Prop) (body : A → manager → Run manager) l m :
  I [] m → (∀ pre x suf m, l = pre ++ x :: suf → I pre m → ∃ m', body x m = Done m' ∧ I (pre ++ [x]) m') → ∃ m', forLoop body l m = Done m' ∧ I l m'.
Proof.
  intros H0 Hstep. cut (∀ suf pre m, l = pre ++ suf → I pre m → ∃ m', forLoop body suf m = Done m' ∧ I l m'); [intros Hc; by apply (Hc l [] m)|].
  clear m H0. induction suf as [|x suf IH]; intros pre m Hl HI; cbn [forLoop]; [exists m; split; [done|]; by rewrite app_nil_r in Hl; subst|].
  destruct (Hstep pre x suf m Hl HI) as (m' & -> & HI'). apply (IH (pre ++ [x])); [by rewrite <-app_assoc|done].
Qed.

(** Retiring owners one after the other. *)
Lemma fenceLoop_ok {A} held P (body : A → manager → Run manager) (vs : A → list positive) (own : A → manager → Prop) l m :
  Good held m → NoDup l → (∀ x, x ∈ l → own x m) →
  (∀ x m1, x ∈ l → Good held m1 → Shrunk m m1 → own x m1 →
     ∃ m2, body x m1 = Done m2 ∧ Good held m2 ∧ Fenced P (vs x) m1 m2 ∧ ∀ y, y ∈ l → y ≠ x → own y m1 → own y m2) →
  ∃ m', forLoop body l m = Done m' ∧ Good held m' ∧ Fenced P (l ≫= vs) m m'.
Proof.
  intros HG Hnd Hown Hbody.
  destruct (forLoop_ind (λ pre m1, Good held m1 ∧ Fenced P (pre ≫= vs) m m1 ∧ ∀ y, y ∈ l → y ∉ pre → own y m1) body l m) as (m' & -> & HG' & HF & _).
  - split_and!; [done|apply Fenced_nil|]. intros y Hy _. by apply Hown.
  - intros pre x suf m1 Hl (HG1 & HF1 & Hown1). assert (Hx : x ∈ l) by (subst l; set_solver). assert (Hn : x ∉ pre).
    { subst l. apply NoDup_app in Hnd as (_ & Hd & _). intros Hin. by apply (Hd x Hin), elem_of_cons; left. }
    destruct (Hbody x m1 Hx HG1 (fe_shrunk _ _ _ _ HF1) (Hown1 x Hx Hn)) as (m2 & -> & HG2 & HF2 & Hkeep).
    exists m2. split; [done|]. split_and!; [done| |].
    + rewrite bind_app. simpl. rewrite app_nil_r. by eapply Fenced_trans.
    + intros y Hy Hny. rewrite elem_of_app, list_elem_of_singleton in Hny. apply Hkeep; [done|naive_solver|]. apply Hown1; [done|naive_solver].
  - by exists m'.
Qed.

(** ** Who uses a key *)

Definition KUses (b : Z) (k : core) : Prop := match k_business k with Some id => id = b | None => (k_key k).1 = b end.
#[export] Instance KUses_dec b k : Decision (KUses b k).
Proof. unfold KUses. destruct (k_business k); apply _. Defined.
Definition Uses (b : Z) (m : manager) (c : positive) : Prop := ∃ k, coresOf m !! c = Some k ∧ KUses b k.
Lemma usesKey_spec b c m : usesKey b c m = true ↔ Uses b m c.
Proof.
  unfold usesKey, Uses. split.
  - destruct (conns m !! c) as [x|] eqn:Hx; [|done]. intros Hu. exists (coreOf x). split; [apply cores_lookup; eauto|]. unfold KUses, connUsesBusinessAuthKey in *.
    change (k_business (coreOf x)) with (business x). destruct (business x); by apply bool_decide_eq_true in Hu.
  - intros (k & (x & -> & <-)%cores_lookup & Hu). unfold KUses, connUsesBusinessAuthKey in *. change (k_business (coreOf x)) with (business x) in Hu.
    destruct (business x); by apply bool_decide_eq_true.
Qed.
Lemma Uses_shrunk b m m' c : Shrunk m m' → Uses b m' c ↔ Uses b m c.
Proof.
  intros HS. unfold Uses. split.
  - intros (k' & Hk' & Hu). destruct (coresOf m !! c) as [k|] eqn:Hk; [|rewrite (sh_none _ _ HS c Hk) in Hk'; done].
    destruct (sh_core _ _ HS _ _ Hk) as (k2 & Hk2 & Hkey & Hid & _). assert (k2 = k') as -> by congruence. exists k. split; [done|].
    unfold KUses, k_business in *. by rewrite <-Hid, <-Hkey.
  - intros (k & Hk & Hu). destruct (sh_core _ _ HS _ _ Hk) as (k' & Hk' & Hkey & Hid & _). exists k'. split; [done|].
    unfold KUses, k_business in *. by rewrite Hid, Hkey.
Qed.
Lemma usesKey_shrunk b m m' c : Shrunk m m' → usesKey b c m' = usesKey b c m.
Proof. intros HS. apply eq_true_iff_eq. by rewrite !usesKey_spec, (Uses_shrunk b m m'). Qed.

(** The candidates are owners, and every owner that uses the key is one. *)
Lemma candidates_spec b m (key : sessionKey) c :
  RegInv m → businessAuthKeyCandidatesLocked b m !! key = Some c ↔
    bySession (idx m) !! key = Some c ∧ (key.1 = b ∨ ∃ k, coresOf m !! c = Some k ∧ k_business k = Some b).
Proof.
  intros HR. unfold businessAuthKeyCandidatesLocked. cbv zeta. rewrite lookup_union_Some_raw, !map_lookup_filter_Some.
  assert (Hraw : (kmap (λ s, (b, s)) (inner b (byAuthKey (idx m))) : gmap sessionKey positive) !! key = Some c ↔ key.1 = b ∧ bySession (idx m) !! key = Some c).
  { rewrite lookup_kmap_Some by (intros ?? [=]; done). destruct key as [a s]. simpl. split.
    - intros (s' & [= -> ->] & Hl). split; [done|]. rewrite <-(rg_auth _ _ _ HR). exact Hl.
    - intros [-> Hl]. exists s. split; [done|]. rewrite <-(rg_auth _ _ _ HR) in Hl. exact Hl. }
  rewrite Hraw. simpl. assert (Hbus := rg_business _ _ _ HR b key c). unfold lookup2 in Hbus. rewrite Hbus.
  split; [naive_solver|]. intros [Hb Hor]. destruct (filter _ (inner b (byBusinessAuthKey (idx m))) !! key) as [c'|] eqn:Hf.
  - left. apply map_lookup_filter_Some in Hf as [Hf Hb']. simpl in Hb'. assert (c' = c) as -> by congruence. by apply (rg_business _ _ _ HR) in Hf.
  - destruct Hor as [Hk|Hk]; [by right|]. left. by split_and!.
Qed.
Lemma candidates_uses b m key c : RegInv m → bySession (idx m) !! key = Some c → Uses b m c → businessAuthKeyCandidatesLocked b m !! key = Some c.
Proof.
  intros HR Hb (k & Hk & Hu). apply candidates_spec; [done|]. split; [done|]. unfold KUses in Hu. destruct (k_business k) as [id|] eqn:Hid.
  - right. exists k. by rewrite Hid, Hu.
  - left. destruct (rg_session _ _ _ HR _ _ Hb) as (k' & Hk' & <- & _). congruence.
Qed.

(** ** Rebinding loops *)

Definition Kept (held : positive → Z) (m m' : manager) : Prop :=
  Good held m' ∧ Moved m m' ∧ LogicalKept m m' ∧ bySession (idx m') = bySession (idx m) ∧ claims (idx m') = claims (idx m) ∧
  (∀ key x, x ∈ pendingOf key (psh m') → x ∈ pendingOf key (psh m)).
Lemma Kept_refl held m : Good held m → Kept held m m.
Proof. intros HG. split_and!; try done; [apply conns_moved_refl|apply LogicalKept_refl]. Qed.
Lemma Kept_trans held m1 m2 m3 : Kept held m1 m2 → Kept held m2 m3 → Kept held m1 m3.
Proof.
  intros (G1 & M1 & L1 & B1 & C1 & P1) (G2 & M2 & L2 & B2 & C2 & P2).
  split_and!; [done|by eapply conns_moved_trans|by eapply LogicalKept_trans|congruence|congruence|]. intros key x Hx. by apply P1, P2.
Qed.
Lemma rebound_kept held key c k d m m' : coresOf m !! c = Some k → Rebound held key c k d m m' → Kept held m m'.
Proof. intros Hc HR. pose proof (rebound_moved _ _ _ _ _ _ _ Hc HR). destruct HR. by split_and!. Qed.
Lemma bindRaw_ok held a b m : Good held m → ∃ m', BindAuthKeyForRawAuthKey a b m = Done m' ∧ Kept held m m'.
Proof.
  intros HG. unfold BindAuthKeyForRawAuthKey.
  destruct (forLoop_ind (λ _ m1, Kept held m m1) (λ p m, if bool_decide (bySession (idx m) !! (a, p.1) = Some p.2) then bindAuthKeyLocked p.2 (a, p.1) b m else Done m)
    (range (inner a (byAuthKey (idx m)))) m) as (m' & -> & HK); [by apply Kept_refl| |by exists m'].
  intros pre p suf m1 _ HK1. pose proof HK1 as (HG1 & _). case_bool_decide as Hin; [|by exists m1].
  destruct (rg_session _ _ _ (gd_reg _ _ HG1) _ _ Hin) as (k & Hk & _). destruct (bindAuthKey_ok held (a, p.1) p.2 k b m1 HG1 Hin Hk) as (m2 & -> & HR & _).
  exists m2. split; [done|]. eapply Kept_trans; [exact HK1|by eapply rebound_kept].
Qed.

(** After unbinding a key no owner that uses it has an account or a staged
    push, and its other attributes are as they were. *)
Lemma unbindKey_ok held b m :
  Good held m →
  ∃ m', UnbindAuthKey b m = Done m' ∧ Kept held m m' ∧
    ∀ key c k, bySession (idx m) !! key = Some c → coresOf m !! c = Some k →
      ∃ k', coresOf m' !! c = Some k' ∧ k_business k' = k_business k ∧
        if decide (KUses b k) then k_user k' = 0 ∧ pendingOf key (psh m') = [] else k_user k' = k_user k.
Proof.
  intros HG. unfold UnbindAuthKey. pose proof (gd_reg _ _ HG) as HR0. set (ps := range (businessAuthKeyCandidatesLocked b m)).
  assert (Hps : ∀ key c, (key, c) ∈ ps → bySession (idx m) !! key = Some c).
  { intros key c Hin. apply elem_of_range in Hin. by apply candidates_spec in Hin as [? _]. }
  destruct (forLoop_ind (λ pre m1, Kept held m m1 ∧ ∀ key c k, bySession (idx m) !! key = Some c → coresOf m !! c = Some k →
    ∃ k', coresOf m1 !! c = Some k' ∧ k_business k' = k_business k ∧ k_key k' = k_key k ∧
      if decide ((key, c) ∈ pre ∧ KUses b k) then k_user k' = 0 ∧ pendingOf key (psh m1) = [] else k_user k' = k_user k)
    (λ p m, if usesKey b p.2 m then unbindLocked p.2 p.1 m else Done m) ps m) as (m' & -> & HK & Hall).
  - split; [by apply Kept_refl|]. intros key c k Hb Hk. exists k. rewrite decide_False by (intros [?%elem_of_nil _]; done). by split_and!.
  - intros pre [key c] suf m1 Hl [HK1 Hall]. cbn [fst snd]. pose proof HK1 as (HG1 & _ & _ & Hb1 & _).
    assert (Hb : bySession (idx m) !! key = Some c) by (apply Hps; rewrite Hl; set_solver).
    destruct (rg_session _ _ _ HR0 _ _ Hb) as (k & Hk & _). destruct (Hall key c k Hb Hk) as (k1 & Hk1 & Hbus1 & Hkey1 & Hif1).
    assert (Huse : usesKey b c m1 = true ↔ KUses b k).
    { rewrite usesKey_spec. unfold Uses, KUses. rewrite <-Hbus1, <-Hkey1. split; [intros (k2 & ? & ?); by assert (k2 = k1) as -> by congruence|eauto]. }
    assert (Hother : ∀ key0 c0, bySession (idx m) !! key0 = Some c0 → c0 = c → key0 = key) by (intros key0 c0 Hb0 ->; by eapply owner_unique; [apply HR0| |]).
    destruct (usesKey b c m1) eqn:Hu.
    + destruct (unbind_ok held key c k1 m1 HG1) as (m2 & -> & HR & Hp2); [by rewrite Hb1|done|]. exists m2. split; [done|].
      split; [eapply Kept_trans; [exact HK1|by eapply rebound_kept]|]. intros key0 c0 k0 Hb0 Hk0.
      destruct (decide (c0 = c)) as [->|Hne].
      * pose proof (Hother _ _ Hb0 eq_refl) as ->. assert (k0 = k) as -> by congruence. exists (withIdent (userIdent 0 k1) k1).
        rewrite (rb_cores _ _ _ _ _ _ _ HR), lookup_insert_eq. split_and!; try done. rewrite decide_True; [done|]. split; [set_solver|by apply Huse].
      * destruct (Hall key0 c0 k0 Hb0 Hk0) as (k' & ? & ? & ? & Hif). exists k'. rewrite (rb_cores _ _ _ _ _ _ _ HR), lookup_insert_ne by done. split_and!; try done.
        destruct (decide ((key0, c0) ∈ pre ∧ KUses b k0)) as [Hd|Hd].
        { rewrite decide_True by (split; [set_solver|tauto]). destruct Hif as [? Hpe]. split; [done|].
          destruct (pendingOf key0 (psh m2)) as [|z q] eqn:Hq; [done|]. assert (Hz : z ∈ pendingOf key0 (psh m1)) by (apply (rb_pending _ _ _ _ _ _ _ HR); rewrite Hq; left).
          rewrite Hpe in Hz. by apply elem_of_nil in Hz. }
        { rewrite decide_False; [done|]. intros [[Hin|[= -> ->]%list_elem_of_singleton]%elem_of_app ?]; [tauto|done]. }
    + exists m1. split; [done|]. split; [done|]. intros key0 c0 k0 Hb0 Hk0. destruct (Hall key0 c0 k0 Hb0 Hk0) as (k' & ? & ? & ? & Hif). exists k'. split_and!; try done.
      destruct (decide ((key0, c0) ∈ pre ∧ KUses b k0)) as [Hd|Hd]; [rewrite decide_True by (split; [set_solver|tauto]); done|].
      rewrite decide_False; [done|]. intros [[Hin|[= -> ->]%list_elem_of_singleton]%elem_of_app Hku]; [tauto|]. assert (k0 = k) as -> by congruence. by apply Huse in Hku.
  - exists m'. split; [done|]. split; [done|]. intros key c k Hb Hk. destruct (Hall key c k Hb Hk) as (k' & ? & ? & _ & Hif). exists k'. split_and!; try done.
    destruct (decide (KUses b k)) as [Hu|Hu]; [|by rewrite decide_False in Hif by tauto].
    rewrite decide_True in Hif; [done|]. split; [|done]. apply elem_of_range, candidates_uses; [done|done|]. by exists k.
Qed.

(** ** Revocation *)

Lemma usingConns_in b ps m c : c ∈ usingConns b ps m ↔ (∃ key, (key, c) ∈ ps) ∧ Uses b m c.
Proof.
  unfold usingConns. rewrite list_elem_of_fmap. split.
  - intros ([key c'] & -> & [Hu Hin]%list_elem_of_filter). split; [by exists key|by apply usesKey_spec].
  - intros [[key Hin] Hu]. exists (key, c). split; [done|]. apply list_elem_of_filter. split; [by apply usesKey_spec|done].
Qed.
Lemma using_vs b (ps : list (sessionKey * positive)) m c : c ∈ ps ≫= (λ p, if usesKey b p.2 m then [p.2] else []) ↔ c ∈ usingConns b ps m.
Proof.
  rewrite list_elem_of_bind, usingConns_in. split.
  - intros ([key c'] & Hc & Hin). simpl in Hc. destruct (usesKey b c' m) eqn:Hu; [|by apply elem_of_nil in Hc]. apply list_elem_of_singleton in Hc as ->.
    split; [by exists key|by apply usesKey_spec].
  - intros [[key Hin] Hu]. exists (key, c). split; [|done]. simpl. apply usesKey_spec in Hu. rewrite Hu. by apply list_elem_of_singleton.
Qed.

Lemma retireActive_ok held b ps m :
  Good held m → NoDup ps → (∀ key c, (key, c) ∈ ps → bySession (idx m) !! key = Some c) →
  ∃ m', forLoop (retireUsing b) ps m = Done m' ∧ Good held m' ∧ Fenced (λ _, True) (usingConns b ps m) m m'.
Proof.
  intros HG Hnd Hps. pose proof (gd_reg _ _ HG) as HR0.
  destruct (fenceLoop_ok held (λ _, True) (retireUsing b) (λ p, if usesKey b p.2 m then [p.2] else []) (λ p m1, bySession (idx m1) !! p.1 = Some p.2) ps m HG Hnd)
    as (m' & -> & HG' & HF).
  - intros [key c] Hin. by apply Hps.
  - intros [key c] m1 Hin HG1 HS1 Hown. unfold retireUsing. cbn [fst snd] in *. rewrite (usesKey_shrunk b m m1 c HS1). destruct (usesKey b c m) eqn:Hu.
    + destruct (rg_session _ _ _ (gd_reg _ _ HG1) _ _ Hown) as (k & Hk & Hkey & _). subst key.
      destruct (fence_conn held c true m1 k (λ _, True) HG1 Hk Hown I) as (m2 & u & -> & HG2 & HF2 & _). simpl. exists m2. split_and!; try done.
      intros [key' c'] Hin' Hne Hown'. simpl in *. destruct (fe_session _ _ _ _ HF2 _ _ Hown') as [?| ->%list_elem_of_singleton]; [done|].
      destruct Hne. f_equal. by eapply owner_unique; [apply HG1| |].
    + exists m1. split_and!; try done. apply Fenced_nil.
  - exists m'. split_and!; try done. eapply Fenced_ext; [|exact HF]. intros c. apply using_vs.
Qed.
Lemma retireClaims_ok held b ps m :
  Good held m → NoDup ps → (∀ key c, (key, c) ∈ ps → claims (idx m) !! key = Some c) →
  ∃ m', forLoop (retireClaimUsing b) ps m = Done m' ∧ Good held m' ∧ Fenced (λ _, True) (usingConns b ps m) m m'.
Proof.
  intros HG Hnd Hps.
  destruct (fenceLoop_ok held (λ _, True) (retireClaimUsing b) (λ p, if usesKey b p.2 m then [p.2] else []) (λ p m1, claims (idx m1) !! p.1 = Some p.2) ps m HG Hnd)
    as (m' & -> & HG' & HF).
  - intros [key c] Hin. by apply Hps.
  - intros [key c] m1 Hin HG1 HS1 Hown. unfold retireClaimUsing. cbn [fst snd] in *. rewrite (usesKey_shrunk b m m1 c HS1). destruct (usesKey b c m) eqn:Hu.
    + destruct (fence_claim held key c true m1 (λ _, True) HG1 Hown I) as (m2 & -> & HG2 & HF2 & _). exists m2. split_and!; try done.
      intros [key' c'] Hin' Hne Hown'. simpl in *. destruct (fe_claim _ _ _ _ HF2 _ _ Hown') as [?| ->%list_elem_of_singleton]; [done|].
      destruct Hne. f_equal. by eapply claim_unique; [apply HG1| |].
    + exists m1. split_and!; try done. apply Fenced_nil.
  - exists m'. split_and!; try done. eapply Fenced_ext; [|exact HF]. intros c. apply using_vs.
Qed.

(** ** Dropping logical sessions *)

Definition dropStep (P : sessionKey → logicalSession → bool) (m : manager) (p : sessionKey * logicalSession) : manager := if P p.1 p.2 then destroyLogicalSession p.1 m else m.
Lemma dropFold_ok P ps m :
  NoDup ps.*1 → (∀ key l, (key, l) ∈ ps → logicalSessions m !! key = Some l) →
  SameReg m (foldl (dropStep P) m ps) ∧
  (∀ key, logicalSessions (foldl (dropStep P) m ps) !! key =
     match logicalSessions m !! key with Some l => if decide (key ∈ ps.*1) then if P key l then None else Some l else Some l | None => None end) ∧
  released (foldl (dropStep P) m ps) = released m ++ map (λ p, (p.1, outbound p.2)) (filter (λ p, P p.1 p.2 = true) ps).
Proof.
  revert m. induction ps as [|[key l] ps IH]; intros m Hnd Hps; cbn [foldl].
  { split_and!; [done| |by rewrite app_nil_r]. intros key. destruct (logicalSessions m !! key); [|done]. rewrite decide_False; [done|]. apply not_elem_of_nil. }
  rewrite fmap_cons, NoDup_cons in Hnd. destruct Hnd as [Hnot Hnd]. cbn [fst] in Hnot.
  assert (Hl : logicalSessions m !! key = Some l) by (apply Hps; left).
  assert (Hm1 : SameReg m (dropStep P m (key, l)) ∧ (logicalSessions (dropStep P m (key, l)) = if P key l then delete key (logicalSessions m) else logicalSessions m) ∧
    released (dropStep P m (key, l)) = released m ++ if P key l then [(key, outbound l)] else []).
  { unfold dropStep. cbn [fst snd]. destruct (P key l); [|split_and!; [done|done|by rewrite app_nil_r]].
    destruct (destroyLogical_ok key m) as (? & ? & Hr). rewrite Hl in Hr. by split_and!. }
  set (m1 := dropStep P m (key, l)) in *. destruct Hm1 as (HS1 & Hl1 & Hr1). destruct (IH m1 Hnd) as (HS & HL & HRe).
  { intros key' l' Hin. assert (key' ≠ key) by (intros ->; apply Hnot, list_elem_of_fmap; by exists (key, l')). rewrite Hl1.
    destruct (P key l); [rewrite lookup_delete_ne by done|]; apply Hps; by right. }
  split_and!; [by eapply SameReg_trans| |].
  - intros key'. rewrite HL, Hl1. rewrite fmap_cons. cbn [fst]. destruct (decide (key' = key)) as [->|Hne].
    + rewrite Hl, (decide_True (P := key ∈ key :: ps.*1)) by (by left). destruct (P key l); [by rewrite lookup_delete_eq|]. by rewrite Hl, decide_False.
    + assert (Hlk : (if P key l then delete key (logicalSessions m) else logicalSessions m) !! key' = logicalSessions m !! key') by (destruct (P key l); [by rewrite lookup_delete_ne|done]).
      rewrite Hlk. destruct (logicalSessions m !! key') as [l'|]; [|done]. destruct (decide (key' ∈ ps.*1)) as [Hi|Hi]; [rewrite decide_True by (by right)|rewrite decide_False by (intros [?|?]%elem_of_cons; done)]; done.
  - rewrite HRe, Hr1, <-app_assoc. f_equal. rewrite filter_cons. cbn [fst snd]. destruct (P key l); [rewrite decide_True by done; done|rewrite decide_False by done; done].
Qed.
Lemma dropLogical_ok P m :
  SameReg m (dropLogical P m) ∧
  (∀ key, logicalSessions (dropLogical P m) !! key = match logicalSessions m !! key with Some l => if P key l then None else Some l | None => None end) ∧
  released (dropLogical P m) = released m ++ map (λ p, (p.1, outbound p.2)) (filter (λ p, P p.1 p.2 = true) (range (logicalSessions m))).
Proof.
  destruct (dropFold_ok P (range (logicalSessions m)) m) as (HS & HL & HR); [apply range_nodup|intros key l; by rewrite elem_of_range|].
  split_and!; [exact HS| |exact HR]. intros key. etrans; [apply HL|]. destruct (logicalSessions m !! key) as [l|] eqn:Hl; [|done].
  rewrite decide_True; [done|]. apply list_elem_of_fmap. exists (key, l). split; [done|]. by apply elem_of_range.
Qed.

Lemma fenced_session P vs m m' key c : Fenced P vs m m' → bySession (idx m') !! key = Some c ↔ bySession (idx m) !! key = Some c ∧ c ∉ vs.
Proof.
  intros HF. split.
  - intros Hb. split; [by apply (sh_session _ _ (fe_shrunk _ _ _ _ HF))|]. intros Hv. destruct (fe_gone _ _ _ _ HF c key Hv). done.
  - intros [Hb Hn]. by destruct (fe_session _ _ _ _ HF _ _ Hb).
Qed.
Lemma fenced_claim P vs m m' key c : Fenced P vs m m' → claims (idx m') !! key = Some c ↔ claims (idx m) !! key = Some c ∧ c ∉ vs.
Proof.
  intros HF. split.
  - intros Hb. split; [by apply (sh_claims _ _ (fe_shrunk _ _ _ _ HF))|]. intros Hv. destruct (fe_gone _ _ _ _ HF c key Hv). done.
  - intros [Hb Hn]. by destruct (fe_claim _ _ _ _ HF _ _ Hb).
Qed.
(** Closing the sockets of fenced connections. *)
Lemma closeFenced_ok held P vs m m1 :
  Good held m1 → Fenced P vs m m1 → ∃ m', closeConnBatch vs m1 = Done m' ∧ Good held m' ∧ Fenced P vs m m' ∧ idx m' = idx m1.
Proof.
  intros HG1 HF. destruct (closeBatch_ok held vs m1 HG1) as (m' & Hm & HG' & HS' & Hi' & _).
  { apply Forall_forall. intros v Hv. destruct (fe_retired _ _ _ _ HF v Hv) as (k & -> & _). by eexists. }
  exists m'. split_and!; try done. destruct HF as [S1 R1 K1 B1 C1 G1]. split; rewrite ?Hi'; try done; [eapply Shrunk_trans; [exact S1|exact HS']| |].
  - intros v Hv. destruct (R1 v Hv) as (k & Hk & Hl & HP). destruct (sh_core _ _ HS' _ _ Hk) as (k' & Hk' & Hkey & _ & Hl'). exists k'. rewrite Hkey.
    split_and!; try done. destruct Hl'; congruence.
  - intros c Hc. rewrite (closeBatch_kept _ _ _ _ Hm Hc). by apply K1.
Qed.

Definition revoked (b : Z) (key : sessionKey) (l : logicalSession) : bool := bool_decide (key.1 = b) || bool_decide (l_business l = Some b).
Lemma revoke_ok held b m :
  Good held m →
  ∃ m' closed, CloseSessionsForBusinessAuthKey b m = Done (m', closed) ∧ Good held m' ∧ Moved m m' ∧
    (∀ key c, bySession (idx m') !! key = Some c ↔ bySession (idx m) !! key = Some c ∧ c ∉ closed) ∧
    (∀ key c, claims (idx m') !! key = Some c ↔ claims (idx m) !! key = Some c ∧ c ∉ closed) ∧
    (∀ c, c ∈ closed → ∃ k, coresOf m' !! c = Some k ∧ k_life k = Retired) ∧ (∀ c, c ∉ closed → coresOf m' !! c = coresOf m !! c) ∧
    (∀ key x, x ∈ pendingOf key (psh m') → x ∈ pendingOf key (psh m)) ∧
    (∀ c, c ∈ closed ↔ Uses b m c ∧ ∃ key, bySession (idx m) !! key = Some c ∨ claims (idx m) !! key = Some c) ∧
    (∀ key, logicalSessions m' !! key = match logicalSessions m !! key with Some l => if revoked b key l then None else Some l | None => None end) ∧
    released m' = released m ++ map (λ p, (p.1, outbound p.2)) (filter (λ p, revoked b p.1 p.2 = true) (range (logicalSessions m))).
Proof.
  intros HG. unfold CloseSessionsForBusinessAuthKey. cbv zeta. pose proof (gd_reg _ _ HG) as HR0.
  set (active := range (businessAuthKeyCandidatesLocked b m)). set (claiming := range (claims (idx m))).
  destruct (retireActive_ok held b active m HG) as (m1 & -> & HG1 & HF1).
  { eapply NoDup_fmap_1, range_nodup. }
  { intros key c Hin. apply elem_of_range in Hin. by apply candidates_spec in Hin as [? _]. }
  cbn [mbind run_bind]. assert (Hcl : ∀ key c, (key, c) ∈ claiming → claims (idx m1) !! key = Some c).
  { intros key c Hin. apply elem_of_range in Hin. destruct (fe_claim _ _ _ _ HF1 _ _ Hin) as [?|[[key' Hact] _]%usingConns_in]; [done|].
    apply elem_of_range, candidates_spec in Hact as [Hb _]; [|done]. by destruct (owner_not_claimant _ _ _ _ key c HR0 Hb). }
  destruct (retireClaims_ok held b claiming m1 HG1) as (m2 & -> & HG2 & HF2); [eapply NoDup_fmap_1, range_nodup|done|]. cbn [mbind run_bind].
  assert (HF : Fenced (λ _, True) (usingConns b active m ++ usingConns b claiming m) m m2).
  { eapply Fenced_ext; [|by eapply Fenced_trans]. intros c. rewrite !elem_of_app, !usingConns_in, (Uses_shrunk b m m1) by apply HF1. done. }
  destruct (dropLogical_ok (λ key l, bool_decide (key.1 = b) || bool_decide (l_business l = Some b)) m2) as (HS3 & HL3 & HR3). set (m3 := dropLogical _ m2) in *.
  assert (HG3 : Good held m3) by (by eapply SameReg_good).
  set (closed := usingConns b active m ++ usingConns b claiming m) in *.
  destruct (closeBatch_ok held closed m3 HG3) as (m' & Hm & HG' & HS' & Hi' & _ & Hp').
  { apply Forall_forall. intros v Hv. rewrite (sr_cores _ _ HS3). destruct (fe_retired _ _ _ _ HF v Hv) as (k & -> & _). by eexists. }
  rewrite Hm. cbn [mbind run_bind]. exists m', closed. split; [done|]. split; [done|]. split_and!.
  - eapply conns_moved_trans; [apply Shrunk_moved, HF|]. eapply conns_moved_trans; [by apply SameReg_moved|by apply Shrunk_moved].
  - intros key c. rewrite Hi', (sr_idx _ _ HS3). by eapply fenced_session.
  - intros key c. rewrite Hi', (sr_idx _ _ HS3). by eapply fenced_claim.
  - intros c Hc. destruct (fe_retired _ _ _ _ HF c Hc) as (k & Hk & Hl & _). rewrite <-(sr_cores _ _ HS3) in Hk.
    destruct (sh_core _ _ HS' _ _ Hk) as (k' & Hk' & _ & _ & Hl'). exists k'. split; [done|]. destruct Hl'; congruence.
  - intros c Hc. rewrite (closeBatch_kept _ _ _ _ Hm Hc), (sr_cores _ _ HS3). by apply (fe_kept _ _ _ _ HF).
  - intros key x. rewrite Hp', (sr_psh _ _ HS3). apply (sh_pending _ _ (fe_shrunk _ _ _ _ HF)).
  - intros c. unfold closed. rewrite elem_of_app, !usingConns_in. split.
    + intros [[[key Hin] Hu]|[[key Hin] Hu]]; (split; [done|]); exists key; [left; apply elem_of_range in Hin; by apply candidates_spec in Hin as [? _]|right; by apply elem_of_range in Hin].
    + intros [Hu [key [Hb|Hc]]]; [left|right]; (split; [|done]); exists key; apply elem_of_range; [by apply candidates_uses|done].
  - intros key. rewrite (sh_logical _ _ HS'). etrans; [apply HL3|]. by rewrite (sh_logical _ _ (fe_shrunk _ _ _ _ HF)).
  - rewrite (sh_released _ _ HS'). etrans; [apply HR3|]. by rewrite (sh_logical _ _ (fe_shrunk _ _ _ _ HF)), (sh_released _ _ (fe_shrunk _ _ _ _ HF)).
Qed.

(** Closing the sessions of a raw key, but for the ones spared. *)
Lemma closeRaw_ok held a skip m :
  Good held m →
  ∃ m' closed, closeSessionsForRawAuthKey a skip m = Done (m', closed) ∧ Good held m' ∧ Fenced (λ key, key.1 = a) closed m m' ∧
    (∀ c, c ∈ closed ↔ ∃ s, skip s c = false ∧ (bySession (idx m) !! (a, s) = Some c ∨ claims (idx m) !! (a, s) = Some c)).
Proof.
  intros HG. unfold closeSessionsForRawAuthKey. cbv zeta.
  set (active := filter _ (range (inner a (byAuthKey (idx m))))).
  assert (Hact : ∀ p, p ∈ active ↔ skip p.1 p.2 = false ∧ bySession (idx m) !! (a, p.1) = Some p.2).
  { intros [s c]. unfold active. rewrite list_elem_of_filter, elem_of_range, <-(rg_auth _ _ _ (gd_reg _ _ HG)). done. }
  destruct (fenceLoop_ok held (λ key, key.1 = a) (λ p m, '(m, _) ← retireConnLocked p.2 true m; Done m) (λ p, [p.2]) (λ p m1, bySession (idx m1) !! (a, p.1) = Some p.2) active m HG)
    as (m1 & -> & HG1 & HF1).
  { apply NoDup_filter. eapply NoDup_fmap_1, range_nodup. }
  { intros p Hp. by apply Hact. }
  { intros p m0 Hin HG0 HS0 Hown. destruct (rg_session _ _ _ (gd_reg _ _ HG0) _ _ Hown) as (k & Hk & Hkey & _).
    destruct (fence_conn held p.2 true m0 k (λ key, key.1 = a) HG0 Hk) as (m2 & u & -> & HG2 & HF2 & _); [by rewrite Hkey|by rewrite Hkey|]. simpl.
    exists m2. split_and!; try done. intros q Hq Hne Hown'. destruct (fe_session _ _ _ _ HF2 _ _ Hown') as [?|Heq%list_elem_of_singleton]; [done|].
    destruct Hne. rewrite Heq in Hown'. pose proof (owner_unique _ _ _ _ _ _ (gd_reg _ _ HG0) Hown' Hown) as [= Hs]. by apply injective_projections. }
  cbn [mbind run_bind]. set (claiming := filter _ (range (inner a (claimsByAuth (idx m1))))).
  assert (Hcl : ∀ p, p ∈ claiming ↔ skip p.1 p.2 = false ∧ claims (idx m1) !! (a, p.1) = Some p.2).
  { intros [s c]. unfold claiming. rewrite list_elem_of_filter, elem_of_range, <-(rg_claimAuth _ _ _ (gd_reg _ _ HG1)). done. }
  destruct (fenceLoop_ok held (λ key, key.1 = a) (λ p m, retireClaimLocked (a, p.1) p.2 true m) (λ p, [p.2]) (λ p m1, claims (idx m1) !! (a, p.1) = Some p.2) claiming m1 HG1)
    as (m2 & -> & HG2 & HF2).
  { apply NoDup_filter. eapply NoDup_fmap_1, range_nodup. }
  { intros p Hp. by apply Hcl. }
  { intros p m0 Hin HG0 HS0 Hown. destruct (fence_claim held (a, p.1) p.2 true m0 (λ key, key.1 = a) HG0 Hown eq_refl) as (m3 & -> & HG3 & HF3 & _).
    exists m3. split_and!; try done. intros q Hq Hne Hown'. destruct (fe_claim _ _ _ _ HF3 _ _ Hown') as [?|Heq%list_elem_of_singleton]; [done|].
    destruct Hne. rewrite Heq in Hown'. pose proof (claim_unique _ _ _ _ _ _ (gd_reg _ _ HG0) Hown' Hown) as [= Hs]. by apply injective_projections. }
  cbn [mbind run_bind].
  assert (Hflat : ∀ (l : list (Z * positive)) v, v ∈ l ≫= (λ p, [p.2]) ↔ v ∈ map snd l).
  { intros l v. rewrite list_elem_of_bind, list_elem_of_fmap. setoid_rewrite list_elem_of_singleton. naive_solver. }
  assert (HF : Fenced (λ key, key.1 = a) (map snd active ++ map snd claiming) m m2).
  { eapply Fenced_ext; [|by eapply Fenced_trans]. intros v. by rewrite !elem_of_app, !Hflat. }
  destruct (closeFenced_ok held _ _ m m2 HG2 HF) as (m' & -> & HG' & HF' & _). cbn [mbind run_bind].
  eexists _, _. split; [done|]. split_and!; try done. intros c. rewrite elem_of_app, !list_elem_of_fmap. split.
  - intros [([s c'] & -> & [? ?]%Hact)|([s c'] & -> & [? Hc']%Hcl)]; exists s; simpl in *; [auto|]. split; [done|]. right. by apply (sh_claims _ _ (fe_shrunk _ _ _ _ HF1)).
  - intros (s & Hskip & [Hb|Hc]); [left; exists (s, c); split; [done|by apply Hact]|]. right. exists (s, c). split; [done|]. apply Hcl. split; [done|]. simpl.
    destruct (fe_claim _ _ _ _ HF1 _ _ Hc) as [?|Hv]; [done|]. rewrite Hflat, list_elem_of_fmap in Hv. destruct Hv as ([s' c'] & -> & [_ Hb]%Hact).
    by destruct (owner_not_claimant _ _ _ _ (a, s) c' (gd_reg _ _ HG) Hb).
Qed.

(** The sweep drops what has been offline long enough and has no owner, and
    takes back the mark of what has an owner again. *)
Definition swept (now : Z) (m : manager) (key : sessionKey) (l : logicalSession) : option logicalSession :=
  if negb (sweepable now l) then Some l else if owned key m then Some (mkLogical (outbound l) 0 (l_business l)) else None.
Definition sweepStep (now : Z) (m : manager) (p : sessionKey * logicalSession) : manager :=
  if negb (sweepable now p.2) then m
  else if owned p.1 m then set_logical (<[p.1 := mkLogical (outbound p.2) 0 (l_business p.2)]> (logicalSessions m)) m
  else destroyLogicalSession p.1 m.
Lemma sweepStep_ok now m key l :
  logicalSessions m !! key = Some l →
  SameReg m (sweepStep now m (key, l)) ∧
  (∀ key', logicalSessions (sweepStep now m (key, l)) !! key' = if decide (key' = key) then swept now m key l else logicalSessions m !! key') ∧
  released (sweepStep now m (key, l)) = released m ++ match swept now m key l with None => [(key, outbound l)] | Some _ => [] end.
Proof.
  intros Hl. unfold sweepStep, swept. cbn [fst snd]. destruct (negb (sweepable now l)).
  { split_and!; [done| |by rewrite app_nil_r]. intros key'. case_decide; by subst. }
  destruct (owned key m).
  - split_and!; [done| |by rewrite app_nil_r]. intros key'. simpl. case_decide; [subst; by rewrite lookup_insert_eq|by rewrite lookup_insert_ne].
  - destruct (destroyLogical_ok key m) as (HS & HL & HR). rewrite Hl in HR. split_and!; try done. intros key'. rewrite HL. case_decide; [subst; by rewrite lookup_delete_eq|by rewrite lookup_delete_ne].
Qed.
Lemma sweepFold_ok now ps m :
  NoDup ps.*1 → (∀ key l, (key, l) ∈ ps → logicalSessions m !! key = Some l) →
  SameReg m (foldl (sweepStep now) m ps) ∧
  (∀ key, logicalSessions (foldl (sweepStep now) m ps) !! key =
     match logicalSessions m !! key with Some l => if decide (key ∈ ps.*1) then swept now m key l else Some l | None => None end) ∧
  released (foldl (sweepStep now) m ps) = released m ++ map (λ p, (p.1, outbound p.2)) (filter (λ p, swept now m p.1 p.2 = None) ps).
Proof.
  revert m. induction ps as [|[key l] ps IH]; intros m Hnd Hps; cbn [foldl].
  { split_and!; [done| |by rewrite app_nil_r]. intros key. destruct (logicalSessions m !! key); [|done]. rewrite decide_False; [done|]. apply not_elem_of_nil. }
  rewrite fmap_cons, NoDup_cons in Hnd. destruct Hnd as [Hnot Hnd]. cbn [fst] in Hnot.
  assert (Hl : logicalSessions m !! key = Some l) by (apply Hps; left).
  destruct (sweepStep_ok now m key l Hl) as (HS1 & HL1 & HR1). set (m1 := sweepStep now m (key, l)) in *.
  assert (Hsw : ∀ k l', swept now m1 k l' = swept now m k l') by (intros; unfold swept, owned; by rewrite (sr_idx _ _ HS1)).
  destruct (IH m1 Hnd) as (HS & HL & HRe).
  { intros key' l' Hin. assert (key' ≠ key) by (intros ->; apply Hnot, list_elem_of_fmap; by exists (key, l')). rewrite HL1, decide_False by done. apply Hps. by right. }
  split_and!; [by eapply SameReg_trans| |].
  - intros key'. rewrite HL, HL1, fmap_cons. cbn [fst]. destruct (decide (key' = key)) as [->|Hne].
    + rewrite Hl, (decide_True (P := key ∈ key :: ps.*1)) by (by left). destruct (swept now m key l); [by rewrite decide_False|done].
    + destruct (logicalSessions m !! key') as [l'|]; [|done]. rewrite Hsw.
      destruct (decide (key' ∈ ps.*1)) as [Hi|Hi]; [by rewrite decide_True by (by right)|by rewrite decide_False by (intros [?|?]%elem_of_cons; done)].
  - rewrite HRe, HR1, <-app_assoc. f_equal. rewrite filter_cons. cbn [fst snd].
    assert (Hf : filter (λ p : sessionKey * logicalSession, swept now m1 p.1 p.2 = None) ps = filter (λ p, swept now m p.1 p.2 = None) ps) by (apply list_filter_iff; intros ?; by rewrite Hsw).
    rewrite Hf. destruct (swept now m key l); [rewrite decide_False by done; done|rewrite decide_True by done; done].
Qed.
Lemma sweepLogical_ok now m :
  SameReg m (sweepLogicalSessions now m) ∧
  (∀ key, logicalSessions (sweepLogicalSessions now m) !! key = match logicalSessions m !! key with Some l => swept now m key l | None => None end) ∧
  released (sweepLogicalSessions now m) = released m ++ map (λ p, (p.1, outbound p.2)) (filter (λ p, swept now m p.1 p.2 = None) (range (logicalSessions m))).
Proof.
  destruct (sweepFold_ok now (range (logicalSessions m)) m) as (HS & HL & HR); [apply range_nodup|intros key l; by rewrite elem_of_range|].
  split_and!; [exact HS| |exact HR]. intros key. etrans; [apply HL|]. destruct (logicalSessions m !! key) as [l|] eqn:Hl; [|done].
  rewrite decide_True; [done|]. apply list_elem_of_fmap. exists (key, l). split; [done|]. by apply elem_of_range.
Qed.
End loops.
