(* ===== verification/SessionsRoute.v ===== *)
(** * Routing, readiness and staged pushes under the invariant

    These operations leave owners and identities alone ([Steady]); they keep
    the channel indexes to live sessions of their account, and move references
    of staged pushes between producers, queues and flushes. *)

From S2P Require Import Prelude TrackedBudget SessionIndex SessionPending Sessions SessionRouting SessionsInv SessionsOps SessionsTake SessionsLeave SessionsBind SessionsRevoke.
Import Index Pending Manager Routing.

Record Steady (m m' : manager) : Prop := {
  st_cores : coresOf m' = coresOf m;
  st_idx : idx m' = idx m;
  st_logical : logicalSessions m' = logicalSessions m;
  st_released : released m' = released m;
}.
Lemma Steady_refl m : Steady m m.
Proof. done. Qed.
Lemma Steady_trans m1 m2 m3 : Steady m1 m2 → Steady m2 m3 → Steady m1 m3.
Proof. intros [] []. split; congruence. Qed.
Lemma Steady_same m m' : Same m m' → Steady m m'.
Proof. by intros []. Qed.
Lemma Steady_moved m m' : Steady m m' → Moved m m'.
Proof. intros [Hc Hi _ _]. apply Moved_same; [done|by rewrite Hi]. Qed.
Lemma Steady_kept m m' : Steady m m' → LogicalKept m m'.
Proof. intros []. by apply LogicalKept_eq. Qed.

Definition Live (m : manager) : sessionKey → Z → Prop := LiveUser (coresOf m) (idx m).
Lemma steady_good held m m' : Steady m m' → ChansOk (Live m) (chs m') → PendInv held (psh m') → Good held m → Good held m'.
Proof.
  intros [Hc Hi _ _] Hch HP [HR _]. split; [|done]. unfold RegInv in *. rewrite Hc, Hi. destruct HR. by split.
Qed.

(** The outcome of an operation that changes nothing but the channel indexes
    and the readiness of connections. *)
Record Routed (held : positive → Z) (m m' : manager) : Prop := {
  ro_steady : Steady m m';
  ro_good : Good held m';
  ro_pending : pending (psh m') = pending (psh m);
}.
Lemma routed_chs held m ch : Good held m → ChansOk (Live m) ch → Routed held m (set_chs ch m).
Proof. intros HG Hch. split; [done| |done]. apply (steady_good held m); [done|done|apply HG|done]. Qed.
Lemma routed_same held m m' : Good held m → Same m m' → Routed held m m'.
Proof. intros HG HE. split; [by apply Steady_same|by eapply Good_same|by rewrite (sm_psh _ _ HE)]. Qed.
Lemma routed_refl held m : Good held m → Routed held m m.
Proof. intros HG. by apply routed_same. Qed.
Lemma routed_trans held m1 m2 m3 : Routed held m1 m2 → Routed held m2 m3 → Routed held m1 m3.
Proof. intros [S1 G1 P1] [S2 G2 P2]. split; [by eapply Steady_trans|done|congruence]. Qed.
Lemma routed_update held c f m k : Good held m → coresOf m !! c = Some k → (∀ x, coreOf (f x) = coreOf x) → ∃ m', update c f m = Done m' ∧ Routed held m m'.
Proof. intros HG Hc Hf. destruct (update_quiet c f m k Hc Hf) as (m' & -> & HE). exists m'. split; [done|by apply routed_same]. Qed.
Lemma routed_cores held m m' c k : Routed held m m' → coresOf m !! c = Some k → coresOf m' !! c = Some k.
Proof. intros HR. by rewrite (st_cores _ _ (ro_steady _ _ _ HR)). Qed.
Lemma routed_flushing held f m : Good held m → Routed held m (set_psh (set_flushing f (psh m)) m).
Proof. intros HG. split; [done| |done]. split; [apply HG|by apply PendInv_flushing, HG]. Qed.

Lemma sessionOf_live m key u c : RegInv m → u ≠ 0 → sessionOf key u m = Some c → Live m key u ∧ bySession (idx m) !! key = Some c.
Proof.
  intros HR Hu. unfold sessionOf. destruct (bySession (idx m) !! key) as [c'|] eqn:Hb; [|done]. simpl. destruct (conns m !! c') as [x|] eqn:Hx; [|done]. simpl.
  case_bool_decide as Hux; [|done]. intros [= ->]. split; [|done]. split; [done|]. exists c, (coreOf x). split_and!; [done|apply cores_lookup; eauto|done].
Qed.

Section route.
Context `{Ranges}.

(** ** Channel indexes *)

Lemma trackInterest_ok held key u ids m : Good held m → Routed held m (TrackChannelInterest key u ids m).
Proof.
  intros HG. unfold TrackChannelInterest. case_bool_decide as Hu; [by apply routed_refl|]. destruct (sessionOf key u m) as [c|] eqn:Hs; [|by apply routed_refl].
  destruct (sessionOf_live m key u c (gd_reg _ _ HG) Hu Hs) as [HL _]. destruct (rg_channels _ _ _ (gd_reg _ _ HG)) as (Hi & Hsu & Hm).
  assert (Hcl : ChanInv (Live m) (clearChannelIndexLocked key (interests (chs m)))) by (eapply ChanInv_mono; [|by apply clear_ok]; naive_solver).
  destruct ids as [|id ids]; [apply routed_chs; [done|by split_and!]|]. unfold set_interests. simpl.
  apply (routed_chs held m); [done|]. split_and!; try done. by apply track_ok.
Qed.
Lemma clearInterest_ok held key u m : Good held m → Routed held m (ClearChannelInterest key u m).
Proof.
  intros HG. unfold ClearChannelInterest. case_bool_decide; [by apply routed_refl|]. destruct (sessionOf key u m); [|by apply routed_refl].
  destruct (rg_channels _ _ _ (gd_reg _ _ HG)) as (Hi & Hsu & Hm). apply routed_chs; [done|]. split_and!; try done. eapply ChanInv_mono; [|by apply clear_ok]. naive_solver.
Qed.
Lemma refreshSubscription_ok held key u id ttl now m : Good held m → Routed held m (RefreshChannelSubscription key u id ttl now m).
Proof.
  intros HG. unfold RefreshChannelSubscription. destruct (bool_decide (u = 0) || bool_decide (id = 0)) eqn:Hz; [by apply routed_refl|].
  apply orb_false_iff in Hz as [Hu%bool_decide_eq_false _]. destruct (sessionOf key u m) as [c|] eqn:Hs; [|by apply routed_refl].
  destruct (sessionOf_live m key u c (gd_reg _ _ HG) Hu Hs) as [HL _]. destruct (rg_channels _ _ _ (gd_reg _ _ HG)) as (Hi & Hsu & Hm).
  apply routed_chs; [done|]. split_and!; try done. by apply subs_subscribe_ok, HL; apply subs_prune_ok.
Qed.
Lemma routed_members held m i : Good held m → ChanInv (Live m) i → Routed held m (set_members i m).
Proof. intros HG Hi. destruct (rg_channels _ _ _ (gd_reg _ _ HG)) as (? & ? & ?). apply routed_chs; [done|]. by split_and!. Qed.
Lemma live_routed held m m' key u : Routed held m m' → Live m key u → Live m' key u.
Proof. intros HR. unfold Live. by rewrite (st_cores _ _ (ro_steady _ _ _ HR)), (st_idx _ _ (ro_steady _ _ _ HR)). Qed.
Lemma trackMembers_ok held key u ids m : Good held m → Live m key u → Routed held m (set_members (trackChannelIndexLocked key u ids (members (chs m))) m).
Proof. intros HG HL. apply routed_members; [done|]. apply track_ok; [apply (rg_channels _ _ _ (gd_reg _ _ HG))|done]. Qed.
Lemma clearMembers_ok held key m : Good held m → Routed held m (set_members (clearChannelIndexLocked key (members (chs m))) m).
Proof.
  intros HG. apply routed_members; [done|]. eapply ChanInv_mono; [|apply clear_ok, (rg_channels _ _ _ (gd_reg _ _ HG))]. intros k u [_ HP]. exact HP.
Qed.

Lemma setMemberships_ok held key u ids gen m : Good held m → ∃ m', SetSessionChannelMemberships key u ids gen m = Done m' ∧ Routed held m m'.
Proof.
  intros HG. unfold SetSessionChannelMemberships. destruct (bySession (idx m) !! key) as [c|] eqn:Hb; [|exists m; split; [done|by apply routed_refl]].
  destruct (rg_session _ _ _ (gd_reg _ _ HG) _ _ Hb) as (k & Hc & _). pose proof Hc as (x & Hx & Hk)%cores_lookup. rewrite Hx. cbn [deref mbind run_bind]. cbv zeta.
  assert (Hclear : ∃ m1, (m ← bumpMembership c m; Done (set_members (clearChannelIndexLocked key (members (chs m))) m)) = Done m1 ∧ Routed held m m1).
  { unfold bumpMembership. destruct (routed_update held c bump_membership m k HG Hc) as (m1 & -> & HR1); [done|]. simpl. eexists. split; [done|].
    eapply routed_trans; [exact HR1|]. by apply clearMembers_ok, HR1. }
  destruct (bool_decide (u = 0) || negb (bool_decide (user x = u))) eqn:Hguard.
  { destruct Hclear as (m1 & -> & HR1). cbn [mbind run_bind].
    destruct (routed_update held c (set_synced false) m1 k (ro_good _ _ _ HR1) (routed_cores _ _ _ _ _ HR1 Hc)) as (m2 & -> & HR2); [done|].
    exists m2. split; [done|by eapply routed_trans]. }
  apply orb_false_iff in Hguard as [Hu%bool_decide_eq_false Hux%negb_false_iff%bool_decide_eq_true].
  assert (HL : Live m key u). { split; [done|]. exists c, k. split_and!; try done. by subst k. }
  case_bool_decide; cbn [negb].
  - destruct Hclear as (m1 & -> & HR1). cbn [mbind run_bind].
    destruct (routed_update held c (set_synced false) m1 k (ro_good _ _ _ HR1) (routed_cores _ _ _ _ _ HR1 Hc)) as (m2 & -> & HR2); [done|]. cbn [mbind run_bind].
    pose proof (routed_trans _ _ _ _ HR1 HR2) as HR12. pose proof (trackMembers_ok held key u ids m2 (ro_good _ _ _ HR2) (live_routed _ _ _ _ _ HR12 HL)) as HR3.
    destruct (routed_update held c (set_synced true) _ k (ro_good _ _ _ HR3) (routed_cores _ _ _ _ _ (routed_trans _ _ _ _ HR12 HR3) Hc)) as (m4 & -> & HR4); [done|].
    exists m4. split; [done|]. eapply routed_trans; [exact HR12|by eapply routed_trans].
  - destruct (routed_update held c (set_synced false) m k HG Hc) as (m1 & -> & HR1); [done|]. simpl. eexists. split; [done|].
    eapply routed_trans; [exact HR1|]. apply trackMembers_ok; [apply HR1|by eapply live_routed].
Qed.
Lemma routed_loop {A} held (body : A → manager → Run manager) l m :
  Good held m → (∀ x m1, x ∈ l → Routed held m m1 → ∃ m2, body x m1 = Done m2 ∧ Routed held m1 m2) → ∃ m', forLoop body l m = Done m' ∧ Routed held m m'.
Proof.
  intros HG Hbody. apply (forLoop_ind (λ _ m1, Routed held m m1)); [by apply routed_refl|]. intros pre x suf m1 Hl HR1.
  destruct (Hbody x m1) as (m2 & -> & HR2); [subst l; set_solver|done|]. exists m2. split; [done|by eapply routed_trans].
Qed.
Lemma byUser_core m u key c : RegInv m → (key, c) ∈ range (inner u (byUser (idx m))) → u ≠ 0 ∧ bySession (idx m) !! key = Some c ∧ ∃ k, coresOf m !! c = Some k ∧ k_user k = u.
Proof. intros HR Hin. apply elem_of_range in Hin. by apply (rg_user _ _ _ HR). Qed.
Lemma addMembership_ok held u id m : Good held m → ∃ m', AddUserChannelMembership u id m = Done m' ∧ Routed held m m'.
Proof.
  intros HG. unfold AddUserChannelMembership. destruct (_ || _); [exists m; split; [done|by apply routed_refl]|]. apply routed_loop; [done|].
  intros [key c] m1 Hin HR1. cbn [fst snd]. destruct (byUser_core m u key c (gd_reg _ _ HG) Hin) as (Hu & Hb & k & Hk & Hku).
  pose proof (routed_cores _ _ _ _ _ HR1 Hk) as Hk1. pose proof Hk1 as (x & Hx & Hxk)%cores_lookup. rewrite Hx. cbn [deref mbind run_bind].
  case_bool_decide; cbn [negb]; [|exists m1; split; [done|apply routed_refl, HR1]]. unfold bumpMembership.
  destruct (routed_update held c bump_membership m1 k (ro_good _ _ _ HR1) Hk1) as (m2 & -> & HR2); [done|]. simpl. eexists. split; [done|].
  eapply routed_trans; [exact HR2|]. apply trackMembers_ok; [apply HR2|]. apply (live_routed held m1 m2 key u HR2), (live_routed held m m1 key u HR1).
  split; [done|]. by exists c, k.
Qed.
Lemma removeMembership_ok held u id m : Good held m → ∃ m', RemoveUserChannelMembership u id m = Done m' ∧ Routed held m m'.
Proof.
  intros HG. unfold RemoveUserChannelMembership. destruct (_ || _); [exists m; split; [done|by apply routed_refl]|]. apply routed_loop; [done|].
  intros [key c] m1 Hin HR1. cbn [fst snd]. destruct (byUser_core m u key c (gd_reg _ _ HG) Hin) as (_ & _ & k & Hk & _). unfold bumpMembership.
  destruct (routed_update held c bump_membership m1 k (ro_good _ _ _ HR1) (routed_cores _ _ _ _ _ HR1 Hk)) as (m2 & -> & HR2); [done|]. simpl. eexists. split; [done|].
  eapply routed_trans; [exact HR2|]. apply routed_members; [apply HR2|]. apply remove_ok, (rg_channels _ _ _ (gd_reg _ _ (ro_good _ _ _ HR2))).
Qed.

(** ** Scans that prune subscriptions *)

Lemma routed_subscriptions held m s : Good held m → SubInv (Live m) s → Routed held m (set_subscriptions s m).
Proof. intros HG Hs. destruct (rg_channels _ _ _ (gd_reg _ _ HG)) as (? & ? & ?). apply routed_chs; [done|]. by split_and!. Qed.
Lemma scanSubscribers_ok (P : sessionKey → Z → Prop) now id exclude limit m ps s out :
  SubInv P s → SubInv P (scanSubscribers now id exclude limit m ps s out).1.
Proof.
  revert s out. induction ps as [|[key x] ps IH]; intros s out Hs; simpl; [done|].
  repeat case_match; try (by apply IH); try done; by apply IH, subs_remove_ok.
Qed.
Lemma onlineSubscribers_ok held id exclude limit now m : Good held m → Routed held m (OnlineChannelSubscriberUserIDsExcluding id exclude limit now m).1.
Proof.
  intros HG. unfold OnlineChannelSubscriberUserIDsExcluding. case_bool_decide; [by apply routed_refl|].
  match goal with |- context [scanSubscribers ?a ?b ?c ?d ?e ?f ?g ?h] => pose proof (scanSubscribers_ok (Live m) a b c d e f g h) as Hs; destruct (scanSubscribers a b c d e f g h) as [s out] end.
  apply routed_subscriptions; [done|]. apply Hs, (rg_channels _ _ _ (gd_reg _ _ HG)).
Qed.
Lemma pruneChannel_ok (P : sessionKey → Z → Prop) now id m ps s : SubInv P s → SubInv P (pruneChannel now id m ps s).1.
Proof.
  unfold pruneChannel. generalize false. revert s. induction ps as [|q ps IH]; intros s b Hs; cbn [foldl]; [done|].
  destruct (_ || _); cbn [fst snd]; apply IH; [by apply subs_remove_ok|exact Hs].
Qed.
Lemma liveSubscribed_ok held now seen m : Good held m → SubInv (Live m) (liveSubscribedChannels now seen m).1.
Proof.
  intros HG. unfold liveSubscribedChannels. destruct (rg_channels _ _ _ (gd_reg _ _ HG)) as (_ & Hs & _).
  revert Hs. generalize seen at 3 as out0. generalize (range (bySubscribedChannel (subscriptions (chs m)))) as ps. generalize (subscriptions (chs m)).
  intros s ps out. revert s out. induction ps as [|p ps IH]; intros s out Hs; cbn [foldl]; [exact Hs|].
  destruct (bool_decide (p.1 ≤ 0)); [by apply IH|]. cbn [fst snd].
  pose proof (pruneChannel_ok (Live m) now p.1 m (range p.2) s Hs) as Hp. destruct (pruneChannel now p.1 m (range p.2) s) as [s' live]. by apply IH.
Qed.
Lemma channelSnapshot_ok held now m : Good held m → Routed held m (OnlineChannelIDsSnapshot now m).1.
Proof.
  intros HG. unfold OnlineChannelIDsSnapshot. pose proof (liveSubscribed_ok held now (liveMemberChannels m) m HG) as Hs.
  destruct (liveSubscribedChannels now (liveMemberChannels m) m) as [s out]. by apply routed_subscriptions.
Qed.

(** ** Readiness *)

Lemma routed_seqs held a b m : Good held m → Routed held m (set_seqs a b m).
Proof. intros [HR HP]. split; [done|split; [exact HR|exact HP]|done]. Qed.
Lemma owner_core held key c m : Good held m → bySession (idx m) !! key = Some c → ∃ k x, coresOf m !! c = Some k ∧ conns m !! c = Some x ∧ coreOf x = k.
Proof. intros HG Hb. destruct (rg_session _ _ _ (gd_reg _ _ HG) _ _ Hb) as (k & Hc & _). pose proof Hc as (x & Hx & Hk)%cores_lookup. eauto 10. Qed.
Lemma beginUpdates_ok held key now m : Good held m → ∃ m' t, BeginSessionUpdatesActivation key now m = Done (m', t) ∧ Routed held m m'.
Proof.
  intros HG. unfold BeginSessionUpdatesActivation. destruct (bySession (idx m) !! key) as [c|] eqn:Hb; [|exists m, 0; split; [done|by apply routed_refl]].
  destruct (owner_core held key c m HG Hb) as (k & x & Hc & Hx & Hk). rewrite Hx. cbn [deref mbind run_bind].
  destruct (_ || _); [exists m, 0; split; [done|by apply routed_refl]|]. destruct (_ && _); [exists m, 0; split; [done|by apply routed_refl]|].
  destruct (routed_update held c (set_activation (nextToken (updatesActivationSeq m)) now) (set_seqs (nextToken (updatesActivationSeq m)) (bootstrapProbeSeq m) m) k) as (m' & -> & HR); [by apply (routed_seqs held)|done|done|].
  simpl. eexists _, _. split; [done|]. eapply routed_trans; [by apply routed_seqs|exact HR].
Qed.
Lemma endUpdates_ok held key t m : Good held m → ∃ m', EndSessionUpdatesActivation key t m = Done m' ∧ Routed held m m'.
Proof.
  intros HG. unfold EndSessionUpdatesActivation. case_bool_decide; [exists m; split; [done|by apply routed_refl]|].
  destruct (bySession (idx m) !! key) as [c|] eqn:Hb; [|exists m; split; [done|by apply routed_refl]].
  destruct (owner_core held key c m HG Hb) as (k & x & Hc & Hx & Hk). rewrite Hx. cbn [deref mbind run_bind].
  destruct (_ || _); [exists m; split; [done|by apply routed_refl]|]. by apply (routed_update held c (set_activation 0 0) m k).
Qed.
Lemma beginProbe_ok held key m : Good held m → ∃ m' t, BeginSessionBootstrapProbe key m = Done (m', t) ∧ Routed held m m'.
Proof.
  intros HG. unfold BeginSessionBootstrapProbe. destruct (bySession (idx m) !! key) as [c|] eqn:Hb; [|exists m, 0; split; [done|by apply routed_refl]].
  destruct (owner_core held key c m HG Hb) as (k & x & Hc & Hx & Hk). rewrite Hx. cbn [deref mbind run_bind].
  destruct (_ || _); [exists m, 0; split; [done|by apply routed_refl]|].
  destruct (routed_update held c (set_probe (nextToken (bootstrapProbeSeq m)) (bootstrapProbed (upd x))) (set_seqs (updatesActivationSeq m) (nextToken (bootstrapProbeSeq m)) m) k) as (m' & -> & HR); [by apply (routed_seqs held)|done|done|].
  simpl. eexists _, _. split; [done|]. eapply routed_trans; [by apply routed_seqs|exact HR].
Qed.
Lemma endProbe_ok held key t success m : Good held m → ∃ m', EndSessionBootstrapProbe key t success m = Done m' ∧ Routed held m m'.
Proof.
  intros HG. unfold EndSessionBootstrapProbe. case_bool_decide; [exists m; split; [done|by apply routed_refl]|].
  destruct (bySession (idx m) !! key) as [c|] eqn:Hb; [|exists m; split; [done|by apply routed_refl]].
  destruct (owner_core held key c m HG Hb) as (k & x & Hc & Hx & Hk). rewrite Hx. cbn [deref mbind run_bind].
  case_bool_decide; cbn [negb]; [|exists m; split; [done|by apply routed_refl]]. by apply (routed_update held c (λ x, set_probe 0 (bootstrapProbed (upd x) || success) x) m k).
Qed.
Lemma setReceives_ok held key receives m : Good held m → ∃ m' o, SetReceivesUpdatesForAuthKey key receives m = Done (m', o) ∧ Routed held m m'.
Proof.
  intros HG. unfold SetReceivesUpdatesForAuthKey. destruct (bySession (idx m) !! key) as [c|] eqn:Hb; [|exists m, None; split; [done|by apply routed_refl]].
  destruct (owner_core held key c m HG Hb) as (k & x & Hc & Hx & Hk). unfold setReceivesUpdatesLocked. rewrite Hx. cbn [deref mbind run_bind].
  destruct (_ || _).
  - unfold stopReceiving. destruct (routed_update held c (set_receives false) m k HG Hc) as (m1 & -> & HR1); [done|]. cbn [mbind run_bind].
    pose proof (routed_cores _ _ _ _ _ HR1 Hc) as Hc1. destruct (clearChannels_ok c key m1 k Hc1) as (m2 & -> & Hc2 & Hi2 & Hh2 & Hp2 & Hl2 & Hr2). cbn [mbind run_bind].
    assert (HR2 : Routed held m1 m2).
    { assert (HS : Steady m1 m2) by done. split; [done| |by rewrite Hp2]. apply (steady_good held m1); [done| |rewrite Hp2; apply HR1|apply HR1].
      rewrite Hh2. apply ChansOk_clear_again, (rg_channels _ _ _ (gd_reg _ _ (ro_good _ _ _ HR1))). }
    destruct (routed_update held c (set_synced false) m2 k (ro_good _ _ _ HR2) (routed_cores _ _ _ _ _ HR2 Hc1)) as (m3 & -> & HR3); [done|]. cbn [mbind run_bind].
    destruct (routed_update held c (set_activation 0 0) m3 k (ro_good _ _ _ HR3) (routed_cores _ _ _ _ _ (routed_trans _ _ _ _ HR2 HR3) Hc1)) as (m4 & -> & HR4); [done|]. cbn [mbind run_bind].
    eexists _, _. split; [done|]. eapply routed_trans; [exact HR1|]. eapply routed_trans; [exact HR2|]. eapply routed_trans; [exact HR3|]. eapply routed_trans; [exact HR4|].
    apply routed_flushing, HR4.
  - destruct (receivesUpdates (upd x)).
    { destruct (routed_update held c (set_activation 0 0) m k HG Hc) as (m1 & -> & HR1); [done|]. simpl. by eexists _, _. }
    case_bool_decide; [simpl; eexists _, _; split; [done|by apply routed_refl]|]. case_bool_decide.
    { destruct (routed_update held c (set_receives true) m k HG Hc) as (m1 & -> & HR1); [done|]. simpl. by eexists _, _. }
    simpl. eexists _, _. split; [done|]. by apply routed_flushing.
Qed.

(** ** Staging *)

Lemma steady_psh held p m : Good held m → ∀ held', PendInv held' p → Steady m (set_psh p m) ∧ Good held' (set_psh p m).
Proof. intros HG held' HP. split; [done|]. split; [apply HG|done]. Qed.

(** New entries of a queue are the push being staged. *)
Definition StagedOnly (r : positive) (P : sessionKey → Z → Prop) (p p' : pushes) : Prop :=
  ∀ key x, x ∈ pendingOf key p' → x ∈ pendingOf key p ∨ (q_reservation x = r ∧ P key (q_user x)).
Lemma queueOrSend_ok held now key t u r m :
  Good held m → 1 ≤ held r →
  ∃ m' o, queueOrSend now key t u r m = Done (m', o) ∧ Steady m m' ∧ Good held m' ∧
    StagedOnly r (λ key' u', ∃ c k, bySession (idx m) !! key' = Some c ∧ coresOf m !! c = Some k ∧ k_user k = u') (psh m) (psh m').
Proof.
  intros HG Hr. unfold queueOrSend. destruct (bySession (idx m) !! key) as [c|] eqn:Hb; [|exists m, None; split_and!; try done; by left].
  destruct (owner_core held key c m HG Hb) as (k & x & Hc & Hx & Hk). rewrite Hx. cbn [deref mbind run_bind].
  destruct (receivesUpdates (upd x)); [exists m, (Some c); split_and!; try done; by left|].
  destruct (queuePrepared_ok held now key t u (user x) r (psh m) (gd_pend _ _ HG) Hr) as (p & ok & -> & HP & _ & Hother & Hin & _). cbn [mbind run_bind].
  destruct (steady_psh held p m HG held HP) as [HS HG']. eexists _, _. split; [done|]. split_and!; try done.
  intros key' y. simpl. destruct (decide (key' = key)) as [->|Hne]; [|rewrite Hother by done; by left].
  intros [?| ->]%Hin; [by left|right]. split; [done|]. exists c, k. split_and!; try done. by subst k.
Qed.
Lemma pushScan_ok held now u t upds r skip ps m :
  Good held m → (∀ r', r = Some r' → 1 ≤ held r') → (∀ key c, (key, c) ∈ ps → is_Some (coresOf m !! c)) →
  ∃ m' cs, pushScan now u t upds r skip ps m = Done (m', cs) ∧ Steady m m' ∧ Good held m' ∧ (∀ c, c ∈ cs → ∃ key, (key, c) ∈ ps) ∧
    match r with
    | Some r => StagedOnly r (λ key' u', u' = u ∧ ∃ c, (key', c) ∈ ps) (psh m) (psh m')
    | None => psh m' = psh m
    end.
Proof.
  revert m. induction ps as [|[key c] ps IH]; intros m HG Hr Hps; cbn [pushScan].
  { exists m, []. split_and!; try done; [by intros c ?%elem_of_nil|]. destruct r; [by left|done]. }
  destruct (Hps key c ltac:(left)) as [k Hc]. pose proof Hc as (x & Hx & Hk)%cores_lookup. rewrite Hx. cbn [deref mbind run_bind].
  assert (Hps' : ∀ m1, Steady m m1 → ∀ key c, (key, c) ∈ ps → is_Some (coresOf m1 !! c)).
  { intros m1 HS key' c' Hin. rewrite (st_cores _ _ HS). apply (Hps key'). by right. }
  assert (Hlift : ∀ r' p p', StagedOnly r' (λ key' u', u' = u ∧ ∃ c, (key', c) ∈ ps) p p' → StagedOnly r' (λ key' u', u' = u ∧ ∃ c0, (key', c0) ∈ (key, c) :: ps) p p').
  { intros r' p p' Hst key' y Hy. destruct (Hst key' y Hy) as [?|(? & ? & c' & ?)]; [by left|right]. split_and!; try done. exists c'. by right. }
  destruct (skip x).
  { destruct (IH m HG Hr (Hps' m (Steady_refl m))) as (m' & cs & -> & HS & HG' & Hcs & Hst). exists m', cs. split_and!; try done; [|destruct r; [by apply Hlift|done]].
    intros c' Hin. destruct (Hcs c' Hin) as [key' ?]. exists key'. by right. }
  destruct (receivesUpdates (upd x)).
  { destruct (IH m HG Hr (Hps' m (Steady_refl m))) as (m' & cs & -> & HS & HG' & Hcs & Hst). simpl. exists m', (c :: cs). split_and!; try done; [|destruct r; [by apply Hlift|done]].
    intros c' [->|Hin]%elem_of_cons; [exists key; left|]. destruct (Hcs c' Hin) as [key' ?]. exists key'. by right. }
  destruct r as [r|]; cbn [mbind run_bind].
  - destruct (queuePrepared_ok held now key t upds u r (psh m) (gd_pend _ _ HG) (Hr r eq_refl)) as (p & ok & -> & HP & _ & Hother & Hin & _). cbn [mbind run_bind].
    destruct (steady_psh held p m HG held HP) as [HS1 HG1].
    destruct (IH (set_psh p m) HG1 Hr (Hps' _ HS1)) as (m' & cs & -> & HS & HG' & Hcs & Hst). exists m', cs. split_and!; try done; [by eapply Steady_trans| |].
    + intros c' Hc'. destruct (Hcs c' Hc') as [key' ?]. exists key'. by right.
    + intros key' y Hy. destruct (Hlift _ _ _ Hst key' y Hy) as [Hy'|?]; [|by right]. simpl in Hy'.
      destruct (decide (key' = key)) as [->|Hne]; [|rewrite Hother in Hy' by done; by left]. apply Hin in Hy' as [?| ->]; [by left|right]. split_and!; try done. exists c. left.
  - destruct (IH m HG Hr (Hps' m (Steady_refl m))) as (m' & cs & -> & HS & HG' & Hcs & Hst). exists m', cs. split_and!; try done.
    intros c' Hin. destruct (Hcs c' Hin) as [key' ?]. exists key'. by right.
Qed.
(** A push for an account is staged only for its live sessions, with its
    account, and sent only to them. *)
Lemma pushToUser_ok held now u t upds r auth session bkey supports m :
  Good held m → (∀ r', r = Some r' → 1 ≤ held r') →
  ∃ m' cs, pushToUser now u t upds r auth session bkey supports m = Done (m', cs) ∧ Steady m m' ∧ Good held m' ∧
    (∀ c, c ∈ cs → ∃ k, coresOf m !! c = Some k ∧ k_user k = u) ∧
    match r with Some r => StagedOnly r (λ key u', u' = u ∧ Live m key u) (psh m) (psh m') | None => psh m' = psh m end.
Proof.
  intros HG Hr. unfold pushToUser. destruct (pushScan_ok held now u t upds r (λ x, shouldExcludeSession x auth session || shouldExcludeBusinessAuthKey x bkey || negb (supports x))
    (range (inner u (byUser (idx m)))) m HG Hr) as (m' & cs & -> & HS & HG' & Hcs & Hst).
  { intros key c Hin. destruct (byUser_core m u key c (gd_reg _ _ HG) Hin) as (_ & _ & k & ? & _). by eexists. }
  exists m', cs. split_and!; try done.
  - intros c Hin. destruct (Hcs c Hin) as [key Hk]. by destruct (byUser_core m u key c (gd_reg _ _ HG) Hk) as (_ & _ & ?).
  - destruct r as [r|]; [|done]. intros key x Hx. destruct (Hst key x Hx) as [?|(? & ? & c & Hin)]; [by left|right]. split_and!; try done.
    destruct (byUser_core m u key c (gd_reg _ _ HG) Hin) as (? & ? & k & ? & ?). split; [done|]. by exists c, k.
Qed.

(** ** Flushing *)

(** The references a flush holds between two of its sections. *)
Definition flushHeld (held : positive → Z) (f : flush) : positive → Z := match f with FlushBatch _ _ _ _ batch | FlushFailed _ _ _ _ batch => holding held batch | _ => held end.

Lemma endFlush_ok held c key m k : Good held m → coresOf m !! c = Some k → ∃ m', endFlush c key m = Done m' ∧ Routed held m m'.
Proof.
  intros HG Hc. unfold endFlush. pose proof (routed_flushing held (flushing (psh m) ∖ {[ key ]}) m HG) as HR.
  destruct (routed_update held c (set_activation 0 0) (cancelFlush key m) k) as (m' & -> & HR'); [apply HR|done|done|]. exists m'. split; [done|by eapply routed_trans].
Qed.
Lemma abandonFlush_ok held c key m k :
  Good held m → coresOf m !! c = Some k →
  ∃ m', abandonFlush c key m = Done m' ∧ Steady m m' ∧ Good held m' ∧ (∀ k' x, x ∈ pendingOf k' (psh m') → x ∈ pendingOf k' (psh m)).
Proof.
  intros HG Hc. unfold abandonFlush. destruct (dropPending_ok held true key m) as (m1 & Hdel & Hc1 & Hi1 & Hh1 & Hl1 & Hr1 & HP1 & Hd1 & _); [apply HG|]. rewrite Hdel. simpl.
  assert (HG1 : Good held m1) by (split; [unfold RegInv; rewrite Hc1, Hi1, Hh1; apply HG|done]).
  destruct (endFlush_ok held c key m1 k HG1) as (m' & -> & HR); [by rewrite Hc1|]. exists m'. split_and!; try done; [|apply HR|].
  - eapply Steady_trans; [|apply HR]. by split.
  - intros k' x Hx. eapply DroppedTo_in; [exact Hd1|]. unfold pendingOf in *. by rewrite (ro_pending _ _ _ HR) in Hx.
Qed.
Lemma releaseBatch_ok held batch m :
  Good (holding held batch) m → (∀ r, 0 ≤ held r) → ∃ m', releaseBatch batch m = Done m' ∧ Steady m m' ∧ Good held m' ∧ pending (psh m') = pending (psh m).
Proof.
  intros HG Hh. unfold releaseBatch. destruct (releaseQueued_ok held batch (psh m)) as (p & -> & HP & Hp & _); [apply HG|done|]. simpl.
  destruct (steady_psh _ p m HG held HP) as [HS HG']. by exists (set_psh p m).
Qed.

Lemma flushTake_ok held now c key owner attempt m k :
  Good held m → coresOf m !! c = Some k →
  ∃ m' f, flushTake now c key owner attempt m = Done (m', f) ∧ Steady m m' ∧ Good (flushHeld held f) m' ∧
    (∀ k' x, x ∈ pendingOf k' (psh m') → x ∈ pendingOf k' (psh m)) ∧
    match f with FlushBatch c' _ o _ batch => c' = c ∧ k_user k = o ∧ batch ≠ [] ∧ ∀ x, x ∈ batch → x ∈ pendingOf key (psh m) | FlushDone => True | _ => False end.
Proof.
  intros HG Hc. unfold flushTake. destruct (negb (current c key m)); [exists m, FlushDone; by split_and!|].
  pose proof Hc as (x & Hx & Hk)%cores_lookup. rewrite Hx. cbn [deref mbind run_bind]. case_bool_decide as Ho; cbn [negb].
  2:{ destruct (abandonFlush_ok held c key m k HG Hc) as (m' & -> & HS & HG' & Hp). simpl. exists m', FlushDone. by split_and!. }
  destruct (takePending_ok held now key true (psh m) (gd_pend _ _ HG)) as (p & batch & -> & HP & _ & Hother & Hb & Hkey). cbn [mbind run_bind].
  assert (Hsub : ∀ k' y, y ∈ pendingOf k' p → y ∈ pendingOf k' (psh m)) by (intros k' y; destruct (decide (k' = key)) as [->|Hne]; [apply Hkey|by rewrite Hother]).
  destruct batch as [|y batch].
  - assert (HP0 : PendInv held p) by (eapply PendInv_ext; [exact HP|]; intros r; unfold holding; simpl; lia).
    destruct (steady_psh held p m HG held HP0) as [HS1 HG1]. destruct (routed_update held c (set_receives true) (set_psh p m) k HG1) as (m2 & -> & HR2); [done|done|]. cbn [mbind run_bind].
    destruct (endFlush_ok held c key m2 k (ro_good _ _ _ HR2) (routed_cores _ _ _ _ _ HR2 Hc)) as (m3 & -> & HR3). cbn [mbind run_bind].
    exists m3, FlushDone. split_and!; try done; [|apply HR3|].
    + eapply Steady_trans; [exact HS1|]. eapply Steady_trans; [apply HR2|apply HR3].
    + intros k' z. unfold pendingOf. rewrite (ro_pending _ _ _ HR3), (ro_pending _ _ _ HR2). apply Hsub.
  - destruct (steady_psh held p m HG _ HP) as [HS1 HG1]. eexists _, _. split; [done|]. split_and!; try done. by subst k.
Qed.

Lemma occ_held held q : (∀ r : positive, 0 ≤ held r) → ∀ r, 0 ≤ holding held q r.
Proof. intros Hh r. unfold holding. pose proof (occurrences_nonneg r q). specialize (Hh r). lia. Qed.
Lemma Good_ext held held' m : Good held m → (∀ r, held' r = held r) → Good held' m.
Proof. intros [HR HP] He. split; [done|by eapply PendInv_ext]. Qed.

(** The charge of a body prepared for the connection's profile. *)
Lemma chargeBody_ok held x rest prepared res m :
  Good (holding held (x :: rest)) m → (∀ r, 0 ≤ held r) →
  ∃ m' res', match prepared with
             | Some (profile, bytes) => '(p, ok) ← reservePrepared (q_reservation x) profile bytes (psh m); Done (set_psh p m, if ok : bool then res else SendFailed)
             | None => Done (m, match res with SendOK => SendFailed | r => r end)
             end = Done (m', res') ∧ Steady m m' ∧ Good (holding held (x :: rest)) m' ∧ pending (psh m') = pending (psh m).
Proof.
  intros HG Hh. destruct prepared as [[profile bytes]|]; [|by eexists _, _].
  destruct (reservePrepared_ok (holding held (x :: rest)) (q_reservation x) profile bytes (psh m) (gd_pend _ _ HG)) as (p & ok & -> & HP & Hp & _).
  { unfold holding. simpl. rewrite ind_true by done. pose proof (occurrences_nonneg (q_reservation x) rest). specialize (Hh (q_reservation x)). lia. }
  simpl. destruct (steady_psh _ p m HG _ HP). by eexists _, _.
Qed.
(** The connection and the session of a flush never change. *)
Definition SameFlush (c : positive) (key : sessionKey) (owner : Z) (f : flush) : Prop :=
  match f with FlushIdle c' key' o _ | FlushBatch c' key' o _ _ | FlushFailed c' key' o _ _ => c' = c ∧ key' = key ∧ o = owner | FlushDone => True end.
(** The outcome of a step of a flush that held [batch]. *)
Record Flushed (held : positive → Z) (c : positive) (key : sessionKey) (owner : Z) (batch : list queuedPush) (m m' : manager) (f : flush) : Prop := {
  fl_moved : Moved m m';
  fl_kept : LogicalKept m m';
  fl_idx : idx m' = idx m;
  fl_good : Good (flushHeld held f) m';
  fl_pending k y : y ∈ pendingOf k (psh m') → y ∈ pendingOf k (psh m) ∨ (k = key ∧ y ∈ batch);
  fl_same : SameFlush c key owner f;
}.
(** Letting a batch go ends the flush. *)
Lemma letGo_ok held c key owner batch m m1 :
  Good (holding held batch) m1 → (∀ r, 0 ≤ held r) → Moved m m1 → LogicalKept m m1 → idx m1 = idx m → (∀ k y, y ∈ pendingOf k (psh m1) → y ∈ pendingOf k (psh m)) →
  ∃ m' f, (m2 ← releaseBatch batch m1; Done (m2, FlushDone)) = Done (m', f) ∧ Flushed held c key owner batch m m' f.
Proof.
  intros HG1 Hh HM1 HL1 Hi1 Hp1. destruct (releaseBatch_ok held batch m1 HG1 Hh) as (m2 & -> & HS2 & HG2 & Hp2). cbn [mbind run_bind]. exists m2, FlushDone. split; [done|]. split; try done.
  - eapply conns_moved_trans; [exact HM1|by apply Steady_moved].
  - eapply LogicalKept_trans; [exact HL1|by apply Steady_kept].
  - by rewrite (st_idx _ _ HS2).
  - intros k y. unfold pendingOf at 1. rewrite Hp2. intros Hy. left. by apply Hp1.
Qed.
(** Whatever becomes of a send, every reference of the batch is accounted for:
    sent, kept for the requeue, or let go. *)
Lemma flushSend_ok held c key owner attempt x rest prepared res m k :
  Good (holding held (x :: rest)) m → (∀ r, 0 ≤ held r) → coresOf m !! c = Some k →
  ∃ m' f, flushSend c key owner attempt x rest prepared res m = Done (m', f) ∧ Flushed held c key owner (x :: rest) m m' f.
Proof.
  intros HG Hh Hc. unfold flushSend. pose proof Hc as (z & Hz & Hk)%cores_lookup. rewrite Hz. cbn [deref mbind run_bind].
  case_bool_decide as Ho; cbn [negb].
  2:{ destruct (abandonFlush_ok _ c key m k HG Hc) as (m1 & -> & HS1 & HG1 & Hp1). cbn [mbind run_bind]. apply letGo_ok; [done|done|by apply Steady_moved|by apply Steady_kept|apply HS1|done]. }
  destruct (chargeBody_ok held x rest prepared res m HG Hh) as (m1 & res' & -> & HS1 & HG1 & Hp1). cbn [mbind run_bind].
  assert (Hc1 : coresOf m1 !! c = Some k) by (by rewrite (st_cores _ _ HS1)).
  assert (Hsub1 : ∀ k' y, y ∈ pendingOf k' (psh m1) → y ∈ pendingOf k' (psh m)) by (intros k' y; unfold pendingOf; by rewrite Hp1).
  assert (Hsent : ∃ m' f, (m2 ← releaseBatch [x] m1; Done (m2, match rest with [] => FlushIdle c key owner attempt | _ => FlushBatch c key owner attempt rest end)) = Done (m', f) ∧
      Flushed held c key owner (x :: rest) m m' f).
  { destruct (releaseBatch_ok (holding held rest) [x] m1) as (m2 & -> & HS2 & HG2 & Hp2); [|by apply occ_held|].
    { eapply Good_ext; [exact HG1|]. intros r. unfold holding. simpl. lia. }
    cbn [mbind run_bind]. pose proof (Steady_trans _ _ _ HS1 HS2) as HS. eexists _, _. split; [done|]. split; [by apply Steady_moved|by apply Steady_kept|apply HS| | |].
    - destruct rest; [|done]. eapply Good_ext; [exact HG2|]. intros r. unfold holding. simpl. lia.
    - intros k' y. unfold pendingOf at 1. rewrite Hp2. intros Hy. left. by apply Hsub1.
    - by destruct rest. }
  destruct res'; [exact Hsent|exact Hsent| |].
  - destruct (closeBatch_ok _ [c] m1 HG1) as (m2 & -> & HG2 & HS2 & Hi2 & _ & Hp2); [apply Forall_singleton; by eexists|]. cbn [mbind run_bind]. apply letGo_ok; [done|done| | | |].
    + eapply conns_moved_trans; [by apply Steady_moved|by apply Shrunk_moved].
    + eapply LogicalKept_trans; [by apply Steady_kept|by apply Shrunk_kept].
    + by rewrite Hi2, (st_idx _ _ HS1).
    + intros k' y. rewrite Hp2. apply Hsub1.
  - eexists _, _. split; [done|]. split; [by apply Steady_moved|by apply Steady_kept|apply HS1|done| |done]. intros k' y Hy. left. by apply Hsub1.
Qed.
(** After a failed send the batch goes back in front of its queue, or nobody
    gets it. *)
Lemma flushFail_ok held c key owner attempt batch m k :
  Good (holding held batch) m → (∀ r, 0 ≤ held r) → coresOf m !! c = Some k →
  ∃ m' f, flushFail c key owner attempt batch m = Done (m', f) ∧ Flushed held c key owner batch m m' f.
Proof.
  intros HG Hh Hc. unfold flushFail. pose proof Hc as (z & Hz & Hk)%cores_lookup. rewrite Hz. cbn [deref mbind run_bind].
  destruct (negb (current c key m) || negb (bool_decide (user z = owner))).
  { case_bool_decide; cbn [mbind run_bind]; [apply letGo_ok; try done; [apply conns_moved_refl|apply LogicalKept_refl]|].
    destruct (abandonFlush_ok _ c key m k HG Hc) as (m1 & -> & HS1 & HG1 & Hp1). cbn [mbind run_bind]. apply letGo_ok; [done|done|by apply Steady_moved|by apply Steady_kept|apply HS1|done]. }
  destruct (requeue_ok held key batch (psh m) (gd_pend _ _ HG) Hh) as (p & -> & HP2 & _ & Hother & Hkey). cbn [mbind run_bind].
  destruct (steady_psh _ p m HG held HP2) as [HS HG2].
  assert (Hsub2 : ∀ k' y, y ∈ pendingOf k' p → y ∈ pendingOf k' (psh m) ∨ (k' = key ∧ y ∈ batch)).
  { intros k' y. destruct (decide (k' = key)) as [->|Hne]; [|rewrite Hother by done; by left].
    rewrite Hkey. intros Hy%subseteq_drop. apply elem_of_app in Hy as [?|Hy]; [by right|by left]. }
  case_bool_decide.
  - destruct (routed_update held c (set_receives true) (set_psh p m) k HG2) as (m3 & -> & HR3); [done|done|]. cbn [mbind run_bind].
    destruct (abandonFlush_ok held c key m3 k (ro_good _ _ _ HR3) (routed_cores _ _ _ _ _ HR3 Hc)) as (m4 & -> & HS4 & HG4 & Hp4). cbn [mbind run_bind].
    pose proof (Steady_trans _ _ _ HS (Steady_trans _ _ _ (ro_steady _ _ _ HR3) HS4)) as HS'. eexists _, _. split; [done|].
    split; [by apply Steady_moved|by apply Steady_kept|apply HS'|done| |done]. intros k' y Hy. apply Hp4 in Hy. unfold pendingOf in Hy. rewrite (ro_pending _ _ _ HR3) in Hy. by apply Hsub2.
  - eexists _, _. split; [done|]. split; [by apply Steady_moved|by apply Steady_kept|apply HS|done|exact Hsub2|done].
Qed.

Lemma sweepPending_ok held now m :
  Good held m → ∃ p, sweepStalePending now (psh m) = Done p ∧ Steady m (set_psh p m) ∧ Good held (set_psh p m) ∧ (∀ k x, x ∈ pendingOf k p → x ∈ pendingOf k (psh m)).
Proof.
  intros HG. destruct (sweep_ok held now (psh m) (gd_pend _ _ HG)) as (p & -> & HP & _ & Hk). exists p. destruct (steady_psh _ p m HG held HP) as [HS HG']. split_and!; try done.
  intros k x. destruct (Hk k) as [->|[-> _]]; [done|by intros ?%elem_of_nil].
Qed.
End route.
