(* ===== verification/SessionWorld.v ===== *)
(** * Runs of the session manager

    The manager with everything that is under way around it: connections
    between the steps of a takeover, producers that hold a frozen update, and
    flushes between two critical sections.  A label is one critical section (or
    an event of a connection); a run is any sequence of labels, so every
    interleaving of handlers, sweepers and flushes is a run. *)

From S2P Require Import Prelude TrackedBudget SessionIndex SessionPending Sessions SessionRouting SessionsInv SessionsOps SessionsTake SessionsLeave SessionsBind SessionsRevoke SessionsRoute.
Import Index Pending Manager Routing.

Module World.

Record world := mkWorld {
  mgr : manager;
  (* won [beginActivationClaim], not yet in the locked section *)
  starting : gset positive;
  (* claimed, waiting for the connections they fenced *)
  fencing : gmap positive (list positive);
  (* reservations held by producers, one entry per reference *)
  producers : list positive;
  flushes : list flush;
}.
Definition start : world := mkWorld NewSessionManager ∅ ∅ [] [].

Inductive label :=
  (* connections *)
  | LConnect (a s now : Z)
  | LProfile (c : positive) (b : bool)
  | LSocketClosed (c : positive)
  | LBegin (c : positive) (closes : bool)
  | LClaim (c : positive)
  | LFenced (c : positive) (now : Z) (converged : bool)
  | LPublish (c : positive) (closes : bool)
  | LAbort (c : positive) (now : Z)
  | LUnregister (c : positive) (now : Z)
  | LDestroy (key : sessionKey)
  (* accounts and keys *)
  | LBindUser (key : sessionKey) (u : Z)
  | LBindKey (key : sessionKey) (b : Z)
  | LBindRaw (a b : Z)
  | LUnbind (b : Z)
  | LRevoke (b : Z)
  | LCloseRaw (a : Z) (skip : Z → positive → bool)
  (* logical sessions *)
  | LAdopt (c : positive)
  | LForget (a : Z)
  | LReleaseAll
  | LSweepLogical (now : Z)
  (* routing and readiness *)
  | LTrack (key : sessionKey) (u : Z) (ids : list Z)
  | LClearInterest (key : sessionKey) (u : Z)
  | LRefresh (key : sessionKey) (u id ttl now : Z)
  | LSubscribers (id : Z) (exclude : gset Z) (limit now : Z)
  | LChannels (now : Z)
  | LSetMembers (key : sessionKey) (u : Z) (ids : list Z) (gen : Z)
  | LAddMember (u id : Z)
  | LRemoveMember (u id : Z)
  | LBeginUpdates (key : sessionKey) (now : Z)
  | LEndUpdates (key : sessionKey) (token : Z)
  | LBeginProbe (key : sessionKey)
  | LEndProbe (key : sessionKey) (token : Z) (success : bool)
  | LReceives (key : sessionKey) (receives : bool)
  (* pushes *)
  | LPrepare (bytes : N)
  | LRelease (i : nat)
  | LQueue (i : nat) (now : Z) (key : sessionKey) (t updates : Z)
  | LPush (i : option nat) (now u t updates : Z) (auth : option Z) (session : Z) (bkey : option Z) (supports : conn → bool)
  | LTake (i : nat) (now : Z)
  | LSend (i : nat) (prepared : option (Z * Z)) (res : sendResult)
  | LFail (i : nat)
  | LSweepPending (now : Z).

Definition set_mgr (m : manager) (w : world) : world := mkWorld m (starting w) (fencing w) (producers w) (flushes w).
Definition set_flushes (f : list flush) (w : world) : world := mkWorld (mgr w) (starting w) (fencing w) (producers w) f.
Definition set_producers (p : list positive) (w : world) : world := mkWorld (mgr w) (starting w) (fencing w) p (flushes w).

(** [newConn]: the connection is attached before its actor starts. *)
Definition newConn (a s now : Z) : conn :=
  mkConn a s now Provisional true (mkIdentity 0 false 0 false) (mkUpdates false false 0 false 0 0 0 false) 1.
Definition set_profile (b : bool) (x : conn) : conn :=
  let u := upd x in
  set_updates (mkUpdates (receivesUpdates u) b (membershipGen u) (membershipsSynced u) (updatesActivationToken u) (updatesActivationAt u)
    (bootstrapProbeToken u) (bootstrapProbed u)) x.
Definition connect (c : positive) (a s now : Z) (m : manager) : Run manager := attachLogicalSession c (set_conns (<[c := newConn a s now]> (conns m)) m).

Section exec.
Context `{Ranges}.

Definition known (c : positive) (w : world) : bool := negb (bool_decide (conns (mgr w) !! c = None)).
(** A step of the manager alone. *)
Definition onMgr (r : Run manager) (w : world) : Run world := m ← r; Done (set_mgr m w).
Definition onMgr' {A} (r : Run (manager * A)) (w : world) : Run world := '(m, _) ← r; Done (set_mgr m w).
Definition onConn (c : positive) (r : Run manager) (w : world) : Run world := if known c w then onMgr r w else Done w.

Definition exec (l : label) (w : world) : Run world :=
  let m := mgr w in
  match l with
  | LConnect a s now => onMgr (connect (fresh (dom (conns m))) a s now m) w
  | LProfile c b => onConn c (update c (set_profile b) m) w
  | LSocketClosed c => onConn c (closeTransport c m) w
  | LBegin c closes =>
    if known c w then
      '(m, ok) ← beginActivationClaim c closes m;
      Done (mkWorld m (if ok : bool then {[ c ]} ∪ starting w else starting w) (fencing w) (producers w) (flushes w))
    else Done w
  | LClaim c =>
    if bool_decide (c ∈ starting w) then
      '(m, o) ← claimSession c m;
      Done (mkWorld m (starting w ∖ {[ c ]}) (match o with Some vs => <[c := vs]> (fencing w) | None => fencing w end) (producers w) (flushes w))
    else Done w
  | LFenced c now converged =>
    match fencing w !! c with
    | Some vs => '(m, _) ← finishActivation now c vs converged m; Done (mkWorld m (starting w) (delete c (fencing w)) (producers w) (flushes w))
    | None => Done w
    end
  | LPublish c closes => if known c w then onMgr' (PublishActivation c closes m) w else Done w
  | LAbort c now => onConn c (AbortActivation now c m) w
  | LUnregister c now => if known c w then onMgr' (Unregister now c m) w else Done w
  | LDestroy key => onMgr' (DestroySessionForAuthKey key m) w
  | LBindUser key u => onMgr (BindUserForAuthKey key u m) w
  | LBindKey key b => onMgr (BindAuthKeyForSession key b m) w
  | LBindRaw a b => onMgr (BindAuthKeyForRawAuthKey a b m) w
  | LUnbind b => onMgr (UnbindAuthKey b m) w
  | LRevoke b => onMgr' (CloseSessionsForBusinessAuthKey b m) w
  | LCloseRaw a skip => onMgr' (closeSessionsForRawAuthKey a skip m) w
  | LAdopt c => onConn c (adoptLogicalSession c m) w
  | LForget a => Done (set_mgr (ForgetLogicalSessionsForRawAuthKey a m) w)
  | LReleaseAll => Done (set_mgr (releaseAllLogicalSessions m) w)
  | LSweepLogical now => Done (set_mgr (sweepLogicalSessions now m) w)
  | LTrack key u ids => Done (set_mgr (TrackChannelInterest key u ids m) w)
  | LClearInterest key u => Done (set_mgr (ClearChannelInterest key u m) w)
  | LRefresh key u id ttl now => Done (set_mgr (RefreshChannelSubscription key u id ttl now m) w)
  | LSubscribers id exclude limit now => Done (set_mgr (OnlineChannelSubscriberUserIDsExcluding id exclude limit now m).1 w)
  | LChannels now => Done (set_mgr (OnlineChannelIDsSnapshot now m).1 w)
  | LSetMembers key u ids gen => onMgr (SetSessionChannelMemberships key u ids gen m) w
  | LAddMember u id => onMgr (AddUserChannelMembership u id m) w
  | LRemoveMember u id => onMgr (RemoveUserChannelMembership u id m) w
  | LBeginUpdates key now => onMgr' (BeginSessionUpdatesActivation key now m) w
  | LEndUpdates key token => onMgr (EndSessionUpdatesActivation key token m) w
  | LBeginProbe key => onMgr' (BeginSessionBootstrapProbe key m) w
  | LEndProbe key token success => onMgr (EndSessionBootstrapProbe key token success m) w
  | LReceives key receives =>
    '(m, o) ← SetReceivesUpdatesForAuthKey key receives m;
    Done (set_flushes (flushes w ++ match o with Some (c, u) => [FlushIdle c key u 0] | None => [] end) (set_mgr m w))
  | LPrepare bytes =>
    let '(p, o) := preparePendingPush (Z.of_N bytes) (psh m) in
    Done (set_producers (producers w ++ match o with Some r => [r] | None => [] end) (set_mgr (set_psh p m) w))
  | LRelease i =>
    match producers w !! i with
    | Some r => p ← release r (psh m); Done (set_producers (delete i (producers w)) (set_mgr (set_psh p m) w))
    | None => Done w
    end
  | LQueue i now key t updates =>
    match producers w !! i with Some r => onMgr' (queueOrSend now key t updates r m) w | None => Done w end
  | LPush i now u t updates auth session bkey supports =>
    onMgr' (pushToUser now u t updates (i ≫= λ i, producers w !! i) auth session bkey supports m) w
  | LTake i now =>
    match flushes w !! i with
    | Some (FlushIdle c key owner attempt) => '(m, f) ← flushTake now c key owner attempt m; Done (set_flushes (<[i := f]> (flushes w)) (set_mgr m w))
    | _ => Done w
    end
  | LSend i prepared res =>
    match flushes w !! i with
    | Some (FlushBatch c key owner attempt (x :: rest)) =>
      '(m, f) ← flushSend c key owner attempt x rest prepared res m; Done (set_flushes (<[i := f]> (flushes w)) (set_mgr m w))
    | _ => Done w
    end
  | LFail i =>
    match flushes w !! i with
    | Some (FlushFailed c key owner attempt batch) => '(m, f) ← flushFail c key owner attempt batch m; Done (set_flushes (<[i := f]> (flushes w)) (set_mgr m w))
    | _ => Done w
    end
  | LSweepPending now => p ← sweepStalePending now (psh m); Done (set_mgr (set_psh p m) w)
  end.
Fixpoint runs (ls : list label) (w : world) : Run world :=
  match ls with [] => Done w | l :: ls => w ← exec l w; runs ls w end.
End exec.
End World.
