(* ===== verification/SessionWorldInv.v ===== *)
(** * The invariant of every run of the session manager

    Every label returns from every state that runs reach, keeps the registry
    and the accounting of staged pushes, and moves connections only forward. *)

From S2P Require Import Prelude TrackedBudget SessionIndex SessionPending Sessions SessionRouting SessionsInv SessionsOps SessionsTake SessionsLeave SessionsBind SessionsRevoke SessionsRoute SessionWorld.
Import Index Pending Manager Routing World.

(** ** References held outside the queues *)

Definition producerRefs (r : positive) (l : list positive) : Z := foldr (λ x n, ind (x = r) + n) 0 l.
Definition flushRefs (r : positive) (f : flush) : Z := match f with FlushBatch _ _ _ _ batch | FlushFailed _ _ _ _ batch => occurrences r batch | _ => 0 end.
Definition flushesRefs (r : positive) (l : list flush) : Z := foldr (λ f n, flushRefs r f + n) 0 l.
Definition heldBy (w : world) (r : positive) : Z := producerRefs r (producers w) + flushesRefs r (flushes w).

Lemma producerRefs_app r l l' : producerRefs r (l ++ l') = producerRefs r l + producerRefs r l'.
Proof. induction l as [|x l IH]; simpl; lia. Qed.
Lemma producerRefs_nonneg r l : 0 ≤ producerRefs r l.
Proof. induction l as [|x l IH]; simpl; [lia|]. pose proof (ind_range (x = r)). lia. Qed.
Lemma producerRefs_delete r l i x : l !! i = Some x → producerRefs r (delete i l) = producerRefs r l - ind (x = r).
Proof. intros Hx. rewrite <-(take_drop_middle l i x Hx) at 2. rewrite delete_take_drop, !producerRefs_app. simpl. lia. Qed.
Lemma flushRefs_nonneg r f : 0 ≤ flushRefs r f.
Proof. destruct f; simpl; try lia; apply occurrences_nonneg. Qed.
Lemma flushesRefs_app r l l' : flushesRefs r (l ++ l') = flushesRefs r l + flushesRefs r l'.
Proof. induction l as [|x l IH]; simpl; lia. Qed.
Lemma flushesRefs_nonneg r l : 0 ≤ flushesRefs r l.
Proof. induction l as [|f l IH]; simpl; [lia|]. pose proof (flushRefs_nonneg r f). lia. Qed.
Lemma flushesRefs_insert r l i f g : l !! i = Some f → flushesRefs r (<[i := g]> l) = flushesRefs r l - flushRefs r f + flushRefs r g.
Proof.
  intros Hf. rewrite <-(take_drop_middle l i f Hf) at 2. rewrite insert_take_drop by (by apply lookup_lt_is_Some; eexists). rewrite !flushesRefs_app. simpl. lia.
Qed.
Lemma producer_held w i r : producers w !! i = Some r → 1 ≤ heldBy w r.
Proof.
  intros Hr. unfold heldBy. pose proof (producerRefs_delete r (producers w) i r Hr) as Hd. rewrite ind_true in Hd by done.
  pose proof (producerRefs_nonneg r (delete i (producers w))). pose proof (flushesRefs_nonneg r (flushes w)). lia.
Qed.

(** ** The invariant *)

Definition flushConn (f : flush) : option positive := match f with FlushIdle c _ _ _ | FlushBatch c _ _ _ _ | FlushFailed c _ _ _ _ => Some c | FlushDone => None end.
Record WInv (w : world) : Prop := {
  wi_good : Good (heldBy w) (mgr w);
  wi_starting c : c ∈ starting w → is_Some (coresOf (mgr w) !! c) ∧ ∀ key, claims (idx (mgr w)) !! key ≠ Some c;
  wi_fencing c vs : fencing w !! c = Some vs → is_Some (coresOf (mgr w) !! c) ∧ Forall (λ c, is_Some (coresOf (mgr w) !! c)) vs;
  wi_flush f c : f ∈ flushes w → flushConn f = Some c → is_Some (coresOf (mgr w) !! c);
}.
Lemma world_start : WInv start.
Proof.
  split; simpl; [split; [apply registry_start|apply pending_start]|set_solver|by intros c vs; rewrite lookup_empty|by intros f c ?%elem_of_nil].
Qed.

Lemma moved_known m m' c : Moved m m' → is_Some (coresOf m !! c) → is_Some (coresOf m' !! c).
Proof. intros [HP _] [k Hk]. destruct (HP _ _ Hk) as (k' & ? & _). by eexists. Qed.
Lemma winv_move w m' st fe pr fl :
  WInv w → Moved (mgr w) m' → Good (heldBy (mkWorld m' st fe pr fl)) m' → st ⊆ starting w → fe ⊆ fencing w →
  (∀ f c, f ∈ fl → flushConn f = Some c → f ∈ flushes w ∨ is_Some (coresOf (mgr w) !! c)) → WInv (mkWorld m' st fe pr fl).
Proof.
  intros HW HM HG Hst Hfe Hfl. split; simpl; [done| | |].
  - intros c Hc. destruct (wi_starting _ HW c (Hst _ Hc)) as [Hs Hn]. split; [by eapply moved_known|]. intros key Hcl. by apply (Hn key), (mv_claims _ _ HM).
  - intros c vs Hc. destruct (wi_fencing _ HW c vs) as [Hs Hvs]; [by eapply lookup_weaken|]. split; [by eapply moved_known|].
    eapply Forall_impl; [exact Hvs|]. intros v. by apply moved_known.
  - intros f c Hin Hc. eapply moved_known; [exact HM|]. destruct (Hfl f c Hin Hc) as [Hf|?]; [by eapply wi_flush|done].
Qed.
Lemma winv_mgr w m' : WInv w → Good (heldBy w) m' → Moved (mgr w) m' → WInv (set_mgr m' w).
Proof. intros HW HG HM. apply (winv_move w); try done. auto. Qed.

(** A connection that nobody owns anything of. *)
Lemma RegOk_fresh cs i ch c k : RegOk cs i ch → cs !! c = None → k_life k = Provisional → RegOk (<[c := k]> cs) i ch.
Proof.
  intros HR Hc Hl.
  assert (Hb : ∀ key c', bySession i !! key = Some c' → <[c := k]> cs !! c' = cs !! c').
  { intros key c' Hin. apply lookup_insert_ne. intros <-. destruct (rg_session _ _ _ HR _ _ Hin) as (? & ? & _). congruence. }
  assert (Hcl : ∀ key c', claims i !! key = Some c' → <[c := k]> cs !! c' = cs !! c').
  { intros key c' Hin. apply lookup_insert_ne. intros <-. destruct (rg_claim _ _ _ HR _ _ Hin) as (? & ? & _). congruence. }
  split; try apply HR.
  - intros key c' Hin. rewrite (Hb _ _ Hin). by apply HR.
  - intros key c' Hin. rewrite (Hcl _ _ Hin). by apply HR.
  - intros c' k' [[<- <-]|[_ Hk']]%lookup_insert_Some Ha; [congruence|by apply HR].
  - intros u key c'. rewrite (rg_user _ _ _ HR). split; intros (? & Hin & Hex); (split; [done|split; [done|]]); revert Hex; by rewrite (Hb _ _ Hin).
  - intros b key c'. rewrite (rg_business _ _ _ HR). split; intros (Hin & Hex); (split; [done|]); revert Hex; by rewrite (Hb _ _ Hin).
  - eapply ChansOk_mono; [|apply HR]. intros key u (Hu & c' & x & Hin & Hx & Hux). split; [done|]. exists c', x. by rewrite (Hb _ _ Hin).
Qed.
Lemma connect_ok held c a s now m :
  Good held m → conns m !! c = None →
  ∃ m', connect c a s now m = Done m' ∧ Good held m' ∧ Moved m m' ∧ LogicalKept m m' ∧ idx m' = idx m ∧
    coresOf m' = <[c := coreOf (newConn a s now)]> (coresOf m) ∧
    ∃ x l, conns m' !! c = Some x ∧ logicalSessions m' !! (a, s) = Some l ∧ outboundState x = outbound l ∧ offlineAt l = 0.
Proof.
  intros [HR HP] Hc. unfold connect. set (m1 := set_conns _ m).
  assert (Hc1 : coresOf m1 = <[c := coreOf (newConn a s now)]> (coresOf m)) by (unfold coresOf, m1; simpl; by rewrite fmap_insert).
  assert (Hnone : coresOf m !! c = None) by (unfold coresOf; by rewrite lookup_fmap, Hc).
  destruct (attach_ok c m1 (coreOf (newConn a s now))) as (m' & -> & HS & HL & Hx); [by rewrite Hc1, lookup_insert_eq|].
  exists m'. split; [done|]. split_and!; try done.
  - eapply SameReg_good; [exact HS|]. split; [|done]. unfold RegInv. rewrite Hc1. by apply RegOk_fresh.
  - eapply conns_moved_trans; [|by apply SameReg_moved]. split; [|done]. intros c' k Hk. rewrite Hc1, lookup_insert_ne by (intros ->; congruence). exists k. split_and!; [done|done|lia].
  - eapply (LogicalKept_trans m m1); [by apply LogicalKept_eq|done].
  - by rewrite (sr_idx _ _ HS).
  - by rewrite (sr_cores _ _ HS).
Qed.

(** ** One step *)

Section step.
Context `{Ranges}.

(** What a label may do to a logical session. *)
Definition fate (l : label) (m : manager) (key : sessionKey) (x : logicalSession) : bool :=
  match l with
  | LDestroy key' => bool_decide (key = key')
  | LRevoke b => revoked b key x
  | LForget a => bool_decide (key.1 = a)
  | LReleaseAll => true
  | LSweepLogical now => sweepable now x && negb (owned key m)
  | _ => false
  end.
(** The logical sessions that stay keep their outbox; the others are gone, and
    released. *)
Record Logical (l : label) (m m' : manager) : Prop := {
  lo_keep key x : logicalSessions m !! key = Some x → fate l m key x = false → ∃ x', logicalSessions m' !! key = Some x' ∧ outbound x' = outbound x;
  lo_drop key x : logicalSessions m !! key = Some x → fate l m key x = true → logicalSessions m' !! key = None ∧ (key, outbound x) ∈ released m';
  lo_released : ∃ ps, released m' = released m ++ map (λ p : sessionKey * logicalSession, (p.1, outbound p.2)) ps ∧ NoDup ps.*1 ∧
    ∀ key x, (key, x) ∈ ps ↔ logicalSessions m !! key = Some x ∧ fate l m key x = true;
}.
Lemma logical_kept l m m' : (∀ key x, fate l m key x = false) → LogicalKept m m' → Logical l m m'.
Proof.
  intros Hf [HK HR]. split.
  - intros key x Hx _. by apply HK.
  - intros key x _ Hd. by rewrite Hf in Hd.
  - exists []. split_and!; [by rewrite HR, app_nil_r|apply NoDup_nil_2|]. intros key x. rewrite Hf. split; [by intros ?%elem_of_nil|by intros []].
Qed.
(** A pass over the logical sessions that drops the ones of [P]. *)
Lemma logical_pass l m m' (P : sessionKey * logicalSession → Prop) `{∀ p, Decision (P p)} :
  (∀ key x, logicalSessions m !! key = Some x → P (key, x) ↔ fate l m key x = true) →
  (∀ key x, logicalSessions m !! key = Some x → fate l m key x = false → ∃ x', logicalSessions m' !! key = Some x' ∧ outbound x' = outbound x) →
  (∀ key x, logicalSessions m !! key = Some x → fate l m key x = true → logicalSessions m' !! key = None) →
  released m' = released m ++ map (λ p, (p.1, outbound p.2)) (filter P (range (logicalSessions m))) → Logical l m m'.
Proof.
  intros HP Hkeep Hdrop HR. assert (Hin : ∀ key x, (key, x) ∈ filter P (range (logicalSessions m)) ↔ logicalSessions m !! key = Some x ∧ fate l m key x = true).
  { intros key x. rewrite list_elem_of_filter, elem_of_range. split.
    - intros [Hp Hx]. split; [done|]. by apply (HP key x Hx).
    - intros [Hx Hp]. split; [|done]. by apply (HP key x Hx). }
  split; [done| |].
  - intros key x Hx Hf. split; [by eapply Hdrop|]. rewrite HR, elem_of_app, list_elem_of_fmap. right. exists (key, x). split; [done|]. by apply Hin.
  - eexists. split_and!; [exact HR| |done]. apply NoDup_fmap_fst; [|apply NoDup_filter; eapply NoDup_fmap_1, range_nodup].
    intros key x y [Hx _]%Hin [Hy _]%Hin. congruence.
Qed.

Record Stepped (l : label) (m m' : manager) : Prop := { sp_progress : Progress m m'; sp_logical : Logical l m m' }.
Lemma stepped_kept l m m' : (∀ key x, fate l m key x = false) → Moved m m' → LogicalKept m m' → Stepped l m m'.
Proof. intros Hf HM HL. split; [apply HM|by apply logical_kept]. Qed.

(** A critical section of the manager alone. *)
Lemma onMgr_ok l w r : WInv w → (∀ key x, fate l (mgr w) key x = false) →
  (∃ m', r = Done m' ∧ Good (heldBy w) m' ∧ Moved (mgr w) m' ∧ LogicalKept (mgr w) m') → ∃ w', onMgr r w = Done w' ∧ WInv w' ∧ Stepped l (mgr w) (mgr w').
Proof. intros HW Hf (m' & -> & HG & HM & HL). eexists. split; [done|]. split; [by apply winv_mgr|by apply stepped_kept]. Qed.
Lemma onMgr'_ok {A} l w (r : Run (manager * A)) : WInv w → (∀ key x, fate l (mgr w) key x = false) →
  (∃ m' a, r = Done (m', a) ∧ Good (heldBy w) m' ∧ Moved (mgr w) m' ∧ LogicalKept (mgr w) m') → ∃ w', onMgr' r w = Done w' ∧ WInv w' ∧ Stepped l (mgr w) (mgr w').
Proof. intros HW Hf (m' & a & -> & HG & HM & HL). eexists. split; [done|]. split; [by apply winv_mgr|by apply stepped_kept]. Qed.
Lemma stutter_ok l w : WInv w → (∀ key x, fate l (mgr w) key x = false) → ∃ w', Done w = Done w' ∧ WInv w' ∧ Stepped l (mgr w) (mgr w').
Proof. intros HW Hf. exists w. split; [done|]. split; [done|]. apply stepped_kept; [done|apply conns_moved_refl|apply LogicalKept_refl]. Qed.
Lemma onConn_ok l w c r : WInv w → (∀ key x, fate l (mgr w) key x = false) →
  (∀ k, coresOf (mgr w) !! c = Some k → ∃ m', r = Done m' ∧ Good (heldBy w) m' ∧ Moved (mgr w) m' ∧ LogicalKept (mgr w) m') →
  ∃ w', onConn c r w = Done w' ∧ WInv w' ∧ Stepped l (mgr w) (mgr w').
Proof.
  intros HW Hf Hr. unfold onConn, known. case_bool_decide as Hk; cbn [negb]; [by apply stutter_ok|].
  destruct (conns (mgr w) !! c) as [x|] eqn:Hx; [|done]. apply onMgr_ok; [done|done|]. apply (Hr (coreOf x)). apply cores_lookup. eauto.
Qed.
Lemma known_core w c : known c w = true → ∃ k, coresOf (mgr w) !! c = Some k.
Proof.
  unfold known. case_bool_decide as Hk; [done|]. destruct (conns (mgr w) !! c) as [x|] eqn:Hx; [|done]. intros _. exists (coreOf x). apply cores_lookup. eauto.
Qed.
Lemma routed_result held m m' : Routed held m m' → Good held m' ∧ Moved m m' ∧ LogicalKept m m'.
Proof. intros [HS HG _]. split_and!; [done|by apply Steady_moved|by apply Steady_kept]. Qed.
Lemma steady_result held m m' : Steady m m' → Good held m' → Good held m' ∧ Moved m m' ∧ LogicalKept m m'.
Proof. intros HS HG. split_and!; [done|by apply Steady_moved|by apply Steady_kept]. Qed.
Lemma routed_run held m r : (∃ m', r = Done m' ∧ Routed held m m') → ∃ m', r = Done m' ∧ Good held m' ∧ Moved m m' ∧ LogicalKept m m'.
Proof. intros (m' & -> & HR). exists m'. split; [done|by apply routed_result]. Qed.
Lemma routed_run' {A} held m (r : Run (manager * A)) :
  (∃ m' a, r = Done (m', a) ∧ Routed held m m') → ∃ m' a, r = Done (m', a) ∧ Good held m' ∧ Moved m m' ∧ LogicalKept m m'.
Proof. intros (m' & a & -> & HR). exists m', a. split; [done|by apply routed_result]. Qed.
Lemma rebound_run held key (body : positive → Run manager) m :
  Good held m → (∀ c k, bySession (idx m) !! key = Some c → coresOf m !! c = Some k → ∃ m' d, body c = Done m' ∧ Rebound held key c k d m m') →
  ∃ m', match bySession (idx m) !! key with Some c => body c | None => Done m end = Done m' ∧ Good held m' ∧ Moved m m' ∧ LogicalKept m m'.
Proof.
  intros HG Hbody. destruct (bySession (idx m) !! key) as [c|] eqn:Hb; [|exists m; split_and!; [done|done|apply conns_moved_refl|apply LogicalKept_refl]].
  destruct (rg_session _ _ _ (gd_reg _ _ HG) _ _ Hb) as (k & Hk & _). destruct (Hbody c k eq_refl Hk) as (m' & d & -> & HR).
  exists m'. split_and!; [done|apply HR|by eapply rebound_moved|apply HR].
Qed.

Definition StepOk (l : label) (w : world) : Prop := ∃ w', exec l w = Done w' ∧ WInv w' ∧ Stepped l (mgr w) (mgr w').

(** *** The claim protocol *)

Lemma begin_step c closes w : WInv w → StepOk (LBegin c closes) w.
Proof.
  intros HW. unfold StepOk. cbn [exec]. destruct (known c w) eqn:Hk; [|by apply stutter_ok]. destruct (known_core w c Hk) as [k Hc].
  destruct (beginClaim_ok _ c closes (mgr w) k (wi_good _ HW) Hc) as (m' & ok & -> & HG & HM & HL & Hi & _ & Hok). cbn [mbind run_bind].
  eexists. split; [done|]. split; [|by apply stepped_kept]. pose proof (winv_mgr w m' HW HG HM) as [_ Hs Hf Hfl]. split; simpl; [done| |done|done].
  destruct ok; [|done]. intros c' [->%elem_of_singleton|Hc']%elem_of_union; [|by apply Hs]. split; [by eapply moved_known; [exact HM|eexists]|].
  intros key Hcl. rewrite Hi in Hcl. destruct (rg_claim _ _ _ (gd_reg _ _ (wi_good _ HW)) _ _ Hcl) as (k' & Hk' & _ & Hl). rewrite Hc in Hk'. injection Hk' as <-.
  rewrite (Hok eq_refl) in Hl. by destruct Hl.
Qed.
Lemma claim_step c w : WInv w → StepOk (LClaim c) w.
Proof.
  intros HW. unfold StepOk. cbn [exec]. case_bool_decide as Hin; [|by apply stutter_ok]. destruct (wi_starting _ HW c Hin) as [[k Hc] Hn].
  destruct (claimSession_ok _ c (mgr w) k (wi_good _ HW) Hc Hn) as (m' & o & -> & HG & Ho). cbn [mbind run_bind]. eexists. split; [done|].
  destruct o as [vs|].
  - destruct Ho as (Hl & Hvs & m0 & HF & -> & Hb & Hcl & _). pose proof (fe_shrunk _ _ _ _ HF) as HS. pose proof (Shrunk_moved _ _ HS) as HM0. split.
    + split; simpl; [exact HG| | |].
      * intros c' [Hc' Hne]%elem_of_difference. rewrite elem_of_singleton in Hne. destruct (wi_starting _ HW c' Hc') as [Hs Hn']. split; [by eapply (moved_known _ m0)|].
        intros key [[_ Heq]|[_ Hx]]%lookup_insert_Some; [congruence|]. by apply (Hn' key), (sh_claims _ _ HS).
      * intros c' vs' [[<- <-]|[_ Hf]]%lookup_insert_Some.
        { split; [eapply (moved_known _ m0); [exact HM0|by eexists]|]. apply Forall_forall. intros v Hv. destruct (fe_retired _ _ _ _ HF v Hv) as (kv & ? & _). by exists kv. }
        destruct (wi_fencing _ HW c' vs' Hf) as [? Hall]. split; [by eapply (moved_known _ m0)|]. eapply Forall_impl; [exact Hall|]. intros v. by apply (moved_known _ m0).
      * intros f c' Hf Hfc. eapply (moved_known _ m0); [exact HM0|]. by eapply wi_flush.
    + split; [intros c' k' Hk'; exact (Shrunk_progress _ _ HS c' k' Hk')|]. apply logical_kept; [done|]. eapply LogicalKept_trans; [by apply Shrunk_kept|by apply LogicalKept_eq].
  - destruct Ho as (HS & _ & _). split; [|apply stepped_kept; [done|by apply Shrunk_moved|by apply Shrunk_kept]].
    apply (winv_move w); try done; [by apply Shrunk_moved|set_solver|by auto].
Qed.
Lemma fenced_step c now converged w : WInv w → StepOk (LFenced c now converged) w.
Proof.
  intros HW. unfold StepOk. cbn [exec]. destruct (fencing w !! c) as [vs|] eqn:Hf; [|by apply stutter_ok]. destruct (wi_fencing _ HW c vs Hf) as [[k Hc] Hall].
  destruct (finish_ok _ now c vs converged (mgr w) k (wi_good _ HW) Hc Hall) as (m' & ok & -> & HG & HM & HL & _). cbn [mbind run_bind]. eexists. split; [done|].
  split; [|by apply stepped_kept]. apply (winv_move w); try done; [apply delete_subseteq|by auto].
Qed.
Lemma conn_step' {A} l c (r : Run (manager * A)) w :
  WInv w → (∀ key x, fate l (mgr w) key x = false) → (∀ k, coresOf (mgr w) !! c = Some k → ∃ m' a, r = Done (m', a) ∧ Good (heldBy w) m' ∧ Moved (mgr w) m' ∧ LogicalKept (mgr w) m') →
  ∃ w', (if known c w then onMgr' r w else Done w) = Done w' ∧ WInv w' ∧ Stepped l (mgr w) (mgr w').
Proof.
  intros HW Hf Hr. destruct (known c w) eqn:Hk; [|by apply stutter_ok]. destruct (known_core w c Hk) as [k Hc]. apply onMgr'_ok; [done|done|by apply (Hr k)].
Qed.

(** *** Logical sessions *)

Lemma drop_step l (P : sessionKey → logicalSession → bool) w :
  WInv w → (∀ key x, fate l (mgr w) key x = P key x) → WInv (set_mgr (dropLogical P (mgr w)) w) ∧ Stepped l (mgr w) (dropLogical P (mgr w)).
Proof.
  intros HW Hf. destruct (dropLogical_ok P (mgr w)) as (HS & HL & HR). pose proof (SameReg_moved _ _ HS) as HM.
  split; [apply winv_mgr; [done|eapply SameReg_good; [exact HS|apply HW]|done]|]. split; [apply HM|].
  apply (logical_pass l (mgr w) _ (λ p, P p.1 p.2 = true)); [intros key x _; by rewrite Hf| | |exact HR]; intros key x Hx; rewrite Hf, HL, Hx; intros ->; eauto.
Qed.
Lemma destroy_step key w : WInv w → StepOk (LDestroy key) w.
Proof.
  intros HW. unfold StepOk. cbn [exec]. destruct (destroy_ok _ key (mgr w) (wi_good _ HW)) as (m' & ex & -> & HG & HM & _ & _ & Hl & _ & Hr & _). eexists. split; [done|].
  split; [by apply winv_mgr|]. split; [apply HM|]. simpl. split; simpl.
  - intros key' x Hx Hne%bool_decide_eq_false. rewrite Hl, lookup_delete_ne by done. eauto.
  - intros key' x Hx ->%bool_decide_eq_true. rewrite Hl, lookup_delete_eq. split; [done|]. rewrite Hr, Hx. set_solver.
  - exists (match logicalSessions (mgr w) !! key with Some x => [(key, x)] | None => [] end). split_and!.
    + rewrite Hr. by destruct (logicalSessions (mgr w) !! key).
    + destruct (logicalSessions (mgr w) !! key); simpl; [apply NoDup_singleton|apply NoDup_nil_2].
    + intros key' x. rewrite bool_decide_eq_true. destruct (logicalSessions (mgr w) !! key) as [y|] eqn:Hy; [rewrite list_elem_of_singleton|rewrite elem_of_nil]; naive_solver.
Qed.
Lemma revoke_step b w : WInv w → StepOk (LRevoke b) w.
Proof.
  intros HW. unfold StepOk. cbn [exec]. destruct (revoke_ok _ b (mgr w) (wi_good _ HW)) as (m' & closed & -> & HG & HM & _ & _ & _ & _ & _ & _ & HL & HR). eexists. split; [done|].
  split; [by apply winv_mgr|]. split; [apply HM|]. simpl.
  apply (logical_pass (LRevoke b) (mgr w) m' (λ p, revoked b p.1 p.2 = true)); [done| | |exact HR]; simpl; intros key x Hx; rewrite HL, Hx; intros ->; eauto.
Qed.
Lemma sweep_step now w : WInv w → StepOk (LSweepLogical now) w.
Proof.
  intros HW. unfold StepOk. cbn [exec]. eexists. split; [done|]. destruct (sweepLogical_ok now (mgr w)) as (HS & HL & HR). pose proof (SameReg_moved _ _ HS) as HM.
  assert (Hsw : ∀ key x, swept now (mgr w) key x = None ↔ fate (LSweepLogical now) (mgr w) key x = true).
  { intros key x. unfold swept. simpl. by destruct (sweepable now x), (owned key (mgr w)). }
  split; [apply winv_mgr; [done|eapply SameReg_good; [exact HS|apply HW]|done]|]. split; [apply HM|].
  apply (logical_pass _ (mgr w) _ (λ p, swept now (mgr w) p.1 p.2 = None)); [intros key x _; apply Hsw| | |exact HR].
  - intros key x Hx. change (mgr (set_mgr (sweepLogicalSessions now (mgr w)) w)) with (sweepLogicalSessions now (mgr w)). rewrite HL, Hx. simpl. unfold swept.
    destruct (sweepable now x), (owned key (mgr w)); simpl; try done; eauto.
  - intros key x Hx Hd. change (mgr (set_mgr (sweepLogicalSessions now (mgr w)) w)) with (sweepLogicalSessions now (mgr w)). rewrite HL, Hx. by apply Hsw.
Qed.
(** *** Pushes and flushes *)

Lemma receives_step key receives w : WInv w → StepOk (LReceives key receives) w.
Proof.
  intros HW. unfold StepOk. cbn [exec]. pose proof (setReceives_ok _ key receives (mgr w) (wi_good _ HW)) as (m' & o & Heq & HR). rewrite Heq. cbn [mbind run_bind].
  destruct (routed_result _ _ _ HR) as (HG & HM & HL). eexists. split; [done|]. split; [|by apply stepped_kept]. apply (winv_move w); try done.
  - eapply Good_ext; [exact HG|]. intros r. unfold heldBy. simpl. rewrite flushesRefs_app. destruct o as [[c u]|]; simpl; lia.
  - intros f c [Hf|Hf]%elem_of_app Hc; [by left|right]. destruct o as [[c' u]|]; [|by apply elem_of_nil in Hf]. apply list_elem_of_singleton in Hf as ->. injection Hc as ->.
    unfold SetReceivesUpdatesForAuthKey in Heq. destruct (bySession (idx (mgr w)) !! key) as [c1|] eqn:Hb; [|done].
    destruct (setReceivesUpdatesLocked c1 key receives (mgr w)) as [[m1 o1]|]; [|done]. simpl in Heq. destruct o1; [|done]. injection Heq as <- <- <-.
    destruct (rg_session _ _ _ (gd_reg _ _ (wi_good _ HW)) _ _ Hb) as (k & Hk & _). by eexists.
Qed.
Lemma prepare_step bytes w : WInv w → StepOk (LPrepare bytes) w.
Proof.
  intros HW. unfold StepOk. cbn [exec]. pose proof (wi_good _ HW) as HG. destruct (prepare_ok (heldBy w) (Z.of_N bytes) (psh (mgr w)) (gd_pend _ _ HG)) as (p & o & -> & _ & _ & Ho); [lia|].
  eexists. split; [done|].
  assert (HP : PendInv (heldBy (set_producers (producers w ++ match o with Some r => [r] | None => [] end) w)) p).
  { destruct o as [r|]; [|subst p; eapply PendInv_ext; [apply HG|]; intros r; unfold heldBy; simpl; by rewrite app_nil_r].
    destruct Ho as [_ HP]. eapply PendInv_ext; [exact HP|]. intros r'. unfold heldBy. simpl. rewrite producerRefs_app. simpl. lia. }
  destruct (steady_psh _ p (mgr w) HG _ HP) as [HS HG']. split; [|apply stepped_kept; [done|by apply Steady_moved|by apply Steady_kept]].
  apply (winv_move w); try done; [by apply Steady_moved|by auto].
Qed.
Lemma release_step i w : WInv w → StepOk (LRelease i) w.
Proof.
  intros HW. unfold StepOk. cbn [exec]. destruct (producers w !! i) as [r|] eqn:Hr; [|by apply stutter_ok]. pose proof (wi_good _ HW) as HG.
  destruct (release_ok (heldBy w) (psh (mgr w)) r (gd_pend _ _ HG) (producer_held w i r Hr)) as (p & -> & HP & _). cbn [mbind run_bind]. eexists. split; [done|].
  destruct (steady_psh _ p (mgr w) HG _ HP) as [HS HG']. split; [|apply stepped_kept; [done|by apply Steady_moved|by apply Steady_kept]].
  apply (winv_move w); try done; [by apply Steady_moved| |by auto].
  eapply Good_ext; [exact HG'|]. intros r'. unfold heldBy. simpl. rewrite (producerRefs_delete r' _ i r Hr). lia.
Qed.
Lemma flush_held w i f g : flushes w !! i = Some f → ∀ m r, heldBy (set_flushes (<[i := g]> (flushes w)) (set_mgr m w)) r = heldBy w r - flushRefs r f + flushRefs r g.
Proof. intros Hf m r. unfold heldBy. simpl. rewrite (flushesRefs_insert r _ i f g Hf). lia. Qed.
(** Replacing a flush by what became of it. *)
Lemma flush_step l i f g m' w :
  WInv w → (∀ key x, fate l (mgr w) key x = false) → flushes w !! i = Some f → (∀ c, flushConn g = Some c → flushConn f = Some c) →
  Moved (mgr w) m' → LogicalKept (mgr w) m' → Good (λ r, heldBy w r - flushRefs r f + flushRefs r g) m' →
  ∃ w', Done (set_flushes (<[i := g]> (flushes w)) (set_mgr m' w)) = Done w' ∧ WInv w' ∧ Stepped l (mgr w) (mgr w').
Proof.
  intros HW Hfate Hf Hsame HM HL HG. eexists. split; [done|]. split; [|by apply stepped_kept]. apply (winv_move w); try done.
  - eapply Good_ext; [exact HG|]. intros r. apply (flush_held w i f g Hf).
  - intros h c' Hh Hhc. apply list_elem_of_lookup in Hh as [j Hj]. destruct (decide (i = j)) as [<-|Hne].
    + right. rewrite list_lookup_insert_eq in Hj by (by eapply lookup_lt_Some). injection Hj as ->. eapply wi_flush; [exact HW|by eapply list_elem_of_lookup_2|by apply Hsame].
    + left. rewrite list_lookup_insert_ne in Hj by done. by eapply list_elem_of_lookup_2.
Qed.
Lemma take_step i now w : WInv w → StepOk (LTake i now) w.
Proof.
  intros HW. unfold StepOk. cbn [exec]. destruct (flushes w !! i) as [[c key owner attempt|c key owner attempt batch|c key owner attempt batch|]|] eqn:Hf; [|by apply stutter_ok..].
  destruct (wi_flush _ HW _ c (list_elem_of_lookup_2 _ _ _ Hf) eq_refl) as [k Hc].
  destruct (flushTake_ok _ now c key owner attempt (mgr w) k (wi_good _ HW) Hc) as (m' & f & -> & HS & HG & _ & Hkind). cbn [mbind run_bind].
  eapply flush_step; [done|done|exact Hf| |by apply Steady_moved|by apply Steady_kept|].
  - intros c' Hc'. destruct f; try done. injection Hc' as <-. by destruct Hkind as [-> _].
  - eapply Good_ext; [exact HG|]. intros r. simpl. destruct f; simpl; unfold holding; lia.
Qed.
(** The references of everybody but a flush and its batch. *)
Lemma others_held w i f : flushes w !! i = Some f → ∀ r, 0 ≤ heldBy w r - flushRefs r f.
Proof.
  intros Hf r. unfold heldBy. pose proof (flushesRefs_insert r (flushes w) i _ FlushDone Hf) as Hi. cbn [flushRefs] in Hi.
  pose proof (flushesRefs_nonneg r (<[i := FlushDone]> (flushes w))). pose proof (producerRefs_nonneg r (producers w)). destruct f; simpl in *; lia.
Qed.
Lemma flushed_step l i f g c key owner batch m' w :
  WInv w → (∀ key x, fate l (mgr w) key x = false) → flushes w !! i = Some f → flushConn f = Some c → (∀ r, flushRefs r f = occurrences r batch) →
  Flushed (λ r, heldBy w r - occurrences r batch) c key owner batch (mgr w) m' g →
  ∃ w', Done (set_flushes (<[i := g]> (flushes w)) (set_mgr m' w)) = Done w' ∧ WInv w' ∧ Stepped l (mgr w) (mgr w').
Proof.
  intros HW Hfate Hf Hfc Hrefs [HM HL _ HG _ Hs]. eapply flush_step; [done|done|exact Hf| |done|done|].
  - intros c' Hc'. rewrite Hfc. destruct g; try done; injection Hc' as <-; by destruct Hs as [-> _].
  - eapply Good_ext; [exact HG|]. intros r. rewrite Hrefs. destruct g; simpl; unfold holding; lia.
Qed.
Lemma send_step i prepared res w : WInv w → StepOk (LSend i prepared res) w.
Proof.
  intros HW. unfold StepOk. cbn [exec].
  destruct (flushes w !! i) as [[c key owner attempt|c key owner attempt [|x rest]|c key owner attempt batch|]|] eqn:Hf; [by apply stutter_ok|by apply stutter_ok| |by apply stutter_ok..].
  destruct (wi_flush _ HW _ c (list_elem_of_lookup_2 _ _ _ Hf) eq_refl) as [k Hc].
  destruct (flushSend_ok (λ r, heldBy w r - occurrences r (x :: rest)) c key owner attempt x rest prepared res (mgr w) k) as (m' & f & -> & HF); [|exact (others_held w i _ Hf)|done|].
  { eapply Good_ext; [apply HW|]. intros r. unfold holding. lia. }
  cbn [mbind run_bind]. by eapply flushed_step.
Qed.
Lemma fail_step i w : WInv w → StepOk (LFail i) w.
Proof.
  intros HW. unfold StepOk. cbn [exec].
  destruct (flushes w !! i) as [[c key owner attempt|c key owner attempt batch|c key owner attempt batch|]|] eqn:Hf; [by apply stutter_ok|by apply stutter_ok| |by apply stutter_ok..].
  destruct (wi_flush _ HW _ c (list_elem_of_lookup_2 _ _ _ Hf) eq_refl) as [k Hc].
  destruct (flushFail_ok (λ r, heldBy w r - occurrences r batch) c key owner attempt batch (mgr w) k) as (m' & f & -> & HF); [|exact (others_held w i _ Hf)|done|].
  { eapply Good_ext; [apply HW|]. intros r. unfold holding. lia. }
  cbn [mbind run_bind]. by eapply flushed_step.
Qed.
(** ** Every label *)

Lemma kept_run held m r : (∃ m', r = Done m' ∧ Kept held m m') → ∃ m', r = Done m' ∧ Good held m' ∧ Moved m m' ∧ LogicalKept m m'.
Proof. intros (m' & -> & HG & HM & HL & _). exists m'. by split_and!. Qed.
Lemma plain_step l m' w : WInv w → (∀ key x, fate l (mgr w) key x = false) → Routed (heldBy w) (mgr w) m' → ∃ w', Done (set_mgr m' w) = Done w' ∧ WInv w' ∧ Stepped l (mgr w) (mgr w').
Proof. intros HW Hf HR. destruct (routed_result _ _ _ HR) as (HG & HM & HL). eexists. split; [done|]. split; [by apply winv_mgr|by apply stepped_kept]. Qed.

Lemma label_ok l w : WInv w → StepOk l w.
Proof.
  intros HW. pose proof (wi_good _ HW) as HG. destruct l; [..|by apply send_step|by apply fail_step|];
    try (by apply begin_step || apply claim_step || apply fenced_step || apply destroy_step || apply revoke_step || apply sweep_step || apply receives_step
         || apply prepare_step || apply release_step || apply take_step); unfold StepOk; cbn [exec].
  - apply onMgr_ok; [done|done|]. destruct (connect_ok (heldBy w) (fresh (dom (conns (mgr w)))) a s now (mgr w) HG) as (m' & -> & ? & ? & ? & _); [apply not_elem_of_dom, is_fresh|]. by exists m'.
  - apply onConn_ok; [done|done|]. intros k Hc. apply routed_run. by apply (routed_update _ c (set_profile b) (mgr w) k).
  - apply onConn_ok; [done|done|]. intros k Hc. apply routed_run. destruct (closeTransport_ok c (mgr w) k Hc) as (m' & -> & HE). exists m'. split; [done|by apply routed_same].
  - apply conn_step'; [done|done|]. intros k Hc. destruct (publish_ok _ c closes (mgr w) k HG Hc) as (m' & ok & -> & ? & ? & ? & _). by exists m', ok.
  - apply onConn_ok; [done|done|]. intros k Hc. destruct (abort_ok _ now c (mgr w) k HG Hc) as (m' & -> & ? & ? & ? & _). by exists m'.
  - apply conn_step'; [done|done|]. intros k Hc. destruct (unregister_ok _ now c (mgr w) k HG Hc) as (m' & e & -> & ? & ? & ? & _). by exists m', e.
  - apply onMgr_ok; [done|done|]. apply (rebound_run _ key (λ c, bindUserLocked c key u (mgr w))); [done|]. intros c k Hb Hk.
    destruct (bindUser_ok _ key c k u (mgr w) HG Hb Hk) as (m' & -> & HR & _). eauto.
  - apply onMgr_ok; [done|done|]. apply (rebound_run _ key (λ c, bindAuthKeyLocked c key b (mgr w))); [done|]. intros c k Hb Hk.
    destruct (bindAuthKey_ok _ key c k b (mgr w) HG Hb Hk) as (m' & -> & HR & _). eauto.
  - apply onMgr_ok; [done|done|]. by apply kept_run, bindRaw_ok.
  - apply onMgr_ok; [done|done|]. destruct (unbindKey_ok _ b (mgr w) HG) as (m' & -> & HK & _). apply kept_run. by exists m'.
  - apply onMgr'_ok; [done|done|]. destruct (closeRaw_ok _ a skip (mgr w) HG) as (m' & cl & -> & HG' & HF & _). exists m', cl.
    split_and!; [done|done|apply Shrunk_moved, HF|apply Shrunk_kept, HF].
  - apply onConn_ok; [done|done|]. intros k Hc. destruct (adopt_ok c (mgr w) k Hc) as (m' & -> & HS & HL). exists m'. split_and!; [done|by eapply SameReg_good|by apply SameReg_moved|done].
  - eexists. split; [done|]. by apply (drop_step (LForget a)).
  - eexists. split; [done|]. by apply (drop_step LReleaseAll).
  - apply plain_step; [done|done|by apply trackInterest_ok].
  - apply plain_step; [done|done|by apply clearInterest_ok].
  - apply plain_step; [done|done|by apply refreshSubscription_ok].
  - apply plain_step; [done|done|by apply onlineSubscribers_ok].
  - apply plain_step; [done|done|by apply channelSnapshot_ok].
  - apply onMgr_ok; [done|done|]. by apply routed_run, setMemberships_ok.
  - apply onMgr_ok; [done|done|]. by apply routed_run, addMembership_ok.
  - apply onMgr_ok; [done|done|]. by apply routed_run, removeMembership_ok.
  - apply onMgr'_ok; [done|done|]. by apply routed_run', beginUpdates_ok.
  - apply onMgr_ok; [done|done|]. by apply routed_run, endUpdates_ok.
  - apply onMgr'_ok; [done|done|]. by apply routed_run', beginProbe_ok.
  - apply onMgr_ok; [done|done|]. by apply routed_run, endProbe_ok.
  - destruct (producers w !! i) as [r|] eqn:Hr; [|by apply stutter_ok]. apply onMgr'_ok; [done|done|].
    destruct (queueOrSend_ok _ now key t updates r (mgr w) HG (producer_held w i r Hr)) as (m' & o & -> & HS & HG' & _). exists m', o. split; [done|by apply steady_result].
  - apply onMgr'_ok; [done|done|]. destruct (pushToUser_ok (heldBy w) now u t updates (i ≫= λ i, producers w !! i) auth session bkey supports (mgr w) HG) as (m' & cs & -> & HS & HG' & _).
    { intros r' Hr. destruct i as [j|]; simpl in Hr; [|done]. by apply (producer_held w j). }
    exists m', cs. split; [done|by apply steady_result].
  - destruct (sweepPending_ok _ now (mgr w) HG) as (p & -> & HS & HG' & _). cbn [mbind run_bind]. destruct (steady_result _ _ _ HS HG') as (? & ? & ?).
    eexists. split; [done|]. split; [by apply winv_mgr|by apply stepped_kept].
Qed.

(** ** Runs *)

Lemma runs_ok ls w : WInv w → ∃ w', runs ls w = Done w' ∧ WInv w' ∧ Progress (mgr w) (mgr w').
Proof.
  revert w. induction ls as [|l ls IH]; intros w HW; cbn [runs]; [exists w; split_and!; [done|done|apply conns_progress_refl]|].
  destruct (label_ok l w HW) as (w1 & -> & HW1 & [HP1 _]). cbn [mbind run_bind]. destruct (IH w1 HW1) as (w' & -> & HW' & HP').
  exists w'. split_and!; [done|done|by eapply conns_progress_trans].
Qed.
Lemma reachable_inv ls w : runs ls start = Done w → WInv w.
Proof. intros Hr. destruct (runs_ok ls start world_start) as (w' & Hw & HW & _). congruence. Qed.
End step.
