(* ===== verification/SessionProps.v ===== *)
(** * What the session manager promises

    The theorems of the session manager over every run: exact indexes, one
    owner per session, complete revocation, bounded and balanced staging of
    pushes, and retention of logical sessions. *)

From S2P Require Import Prelude TrackedBudget SessionIndex SessionPending Sessions SessionRouting SessionsInv SessionsOps SessionsTake SessionsLeave SessionsBind SessionsRevoke SessionsRoute SessionWorld SessionWorldInv.
Import Index Pending Manager Routing World.

(** ** Who is online *)

Section scan.
Context (keep : sessionKey * Z → bool).

Lemma scanUsers_ok limit ps out :
  NoDup out → (∀ u, u ∈ out → u ≠ 0) → (0 < limit → Z.of_nat (length out) < limit) →
  NoDup (scanUsers keep limit ps out) ∧
  (∀ u, u ∈ scanUsers keep limit ps out → u ∈ out ∨ u ≠ 0 ∧ ∃ key, (key, u) ∈ ps ∧ keep (key, u) = true) ∧
  (0 < limit → Z.of_nat (length (scanUsers keep limit ps out)) ≤ limit) ∧
  (limit ≤ 0 → ∀ u, u ∈ out ∨ u ≠ 0 ∧ (∃ key, (key, u) ∈ ps ∧ keep (key, u) = true) → u ∈ scanUsers keep limit ps out).
Proof.
  revert out. induction ps as [|[key v] ps IH]; intros out Hnd Hz Hlen; cbn [scanUsers].
  { split_and!; [done|by left|lia|]. intros _ u [?|(_ & key & ?%elem_of_nil & _)]; done. }
  cbn [snd]. destruct (bool_decide (v = 0) || negb (keep (key, v)) || bool_decide (v ∈ out)) eqn:Hskip.
  - destruct (IH out Hnd Hz Hlen) as (H1 & H2 & H3 & H4). split_and!; [done| |done|].
    + intros u Hu. destruct (H2 u Hu) as [?|(? & key' & ? & ?)]; [by left|right]. split; [done|]. exists key'. split; [by right|done].
    + intros Hl u [?|(Hu & key' & [[= -> ->]|Hin]%elem_of_cons & Hk)]; [apply H4; auto| |apply H4; eauto 10]. apply H4; [done|left].
      rewrite Hk in Hskip. apply orb_true_iff in Hskip as [Hskip|Hin%bool_decide_eq_true]; [|done]. simpl in Hskip. rewrite orb_false_r in Hskip. by apply bool_decide_eq_true in Hskip.
  - apply orb_false_iff in Hskip as [[Hv%bool_decide_eq_false Hk%negb_false_iff]%orb_false_iff Hin%bool_decide_eq_false].
    assert (Hnd' : NoDup (out ++ [v])) by (apply NoDup_app; split_and!; [done|set_solver|apply NoDup_singleton]).
    assert (Hz' : ∀ u, u ∈ out ++ [v] → u ≠ 0) by (intros u [?| ->%list_elem_of_singleton]%elem_of_app; auto).
    assert (Hin' : ∀ u, u ∈ out ++ [v] → u ∈ out ∨ u ≠ 0 ∧ ∃ key0, (key0, u) ∈ (key, v) :: ps ∧ keep (key0, u) = true).
    { intros u [?| ->%list_elem_of_singleton]%elem_of_app; [by left|right]. split; [done|]. exists key. split; [left|done]. }
    destruct (bool_decide (limit > 0) && bool_decide (limit ≤ Z.of_nat (length (out ++ [v])))) eqn:Hfull.
    + apply andb_true_iff in Hfull as [Hpos%bool_decide_eq_true Hle%bool_decide_eq_true]. split_and!; [done|done| |lia]. intros Hp. specialize (Hlen Hp). rewrite length_app in *. simpl in *. lia.
    + assert (Hlen' : 0 < limit → Z.of_nat (length (out ++ [v])) < limit).
      { intros Hp. rewrite bool_decide_true in Hfull by lia. simpl in Hfull. apply bool_decide_eq_false in Hfull. lia. }
      destruct (IH (out ++ [v]) Hnd' Hz' Hlen') as (H1 & H2 & H3 & H4). split_and!; [done| |done|].
      * intros u Hu. destruct (H2 u Hu) as [?|(? & key' & ? & ?)]; [auto|right]. split; [done|]. exists key'. split; [by right|done].
      * intros Hl u [?|(Hu & key' & [[= -> ->]|Hi]%elem_of_cons & Hk')]; apply H4; try done; [left; set_solver|left; set_solver|eauto 10].
Qed.
End scan.

(** ** Statements *)

(** The live session [key]: its owner. *)
Definition Owner (m : manager) (key : sessionKey) (c : positive) (x : conn) : Prop := bySession (idx m) !! key = Some c ∧ conns m !! c = Some x.
Definition MemberUser (m : manager) (id u : Z) : Prop :=
  u ≠ 0 ∧ ∃ key c x, Owner m key c x ∧ user x = u ∧ id ∈ channelsOf key (members (chs m)).

Definition SubscriberUser (m : manager) (now id u : Z) : Prop :=
  u ≠ 0 ∧ ∃ key c x e, Owner m key c x ∧ user x = u ∧ subsOf key (subscriptions (chs m)) !! id = Some e ∧ now < e.

Section props.
Context `{Ranges}.

Lemma core_conn m c k : coresOf m !! c = Some k ↔ ∃ x, conns m !! c = Some x ∧ coreOf x = k.
Proof. apply cores_lookup. Qed.
Lemma user_core m u c : (∃ k, coresOf m !! c = Some k ∧ k_user k = u) ↔ ∃ x, conns m !! c = Some x ∧ user x = u.
Proof. split; [intros (k & (x & ? & <-)%cores_lookup & ?); eauto|intros (x & ? & ?); exists (coreOf x); split; [apply cores_lookup; eauto|done]]. Qed.
Lemma business_core m b c : (∃ k, coresOf m !! c = Some k ∧ k_business k = b) ↔ ∃ x, conns m !! c = Some x ∧ business x = b.
Proof. split; [intros (k & (x & ? & <-)%cores_lookup & ?); eauto|intros (x & ? & ?); exists (coreOf x); split; [apply cores_lookup; eauto|done]]. Qed.

Lemma online_spec m u : RegInv m → IsUserOnline u m = true ↔ u ≠ 0 ∧ ∃ key c x, Owner m key c x ∧ user x = u.
Proof.
  intros HR. unfold IsUserOnline. rewrite andb_true_iff, !negb_true_iff, !bool_decide_eq_false. split.
  - intros [Hu Hne]. split; [done|]. apply map_choose in Hne as (key & c & Hl). apply (rg_user _ _ _ HR) in Hl as (_ & Hb & (x & Hx & Hux)%user_core). exists key, c, x. by split_and!.
  - intros [Hu (key & c & x & [Hb Hx] & Hux)]. split; [done|]. intros He.
    assert (Hl : lookup2 u key (byUser (idx m)) = Some c) by (apply (rg_user _ _ _ HR); split_and!; [done|done|apply user_core; eauto]).
    unfold lookup2 in Hl. by rewrite He, lookup_empty in Hl.
Qed.
Lemma members_spec m id limit : RegInv m → id ≠ 0 →
  NoDup (OnlineChannelMemberUserIDs id limit m) ∧ (∀ u, u ∈ OnlineChannelMemberUserIDs id limit m → MemberUser m id u) ∧
  (0 < limit → Z.of_nat (length (OnlineChannelMemberUserIDs id limit m)) ≤ limit) ∧
  (limit ≤ 0 → ∀ u, MemberUser m id u → u ∈ OnlineChannelMemberUserIDs id limit m).
Proof.
  intros HR Hid. unfold OnlineChannelMemberUserIDs, onlineChannelUsers. rewrite bool_decide_false by done.
  destruct (rg_channels _ _ _ HR) as (_ & _ & HM).
  assert (Hiff : ∀ u, (u ≠ 0 ∧ ∃ key, (key, u) ∈ range (inner id (index (members (chs m)))) ∧ isLive m key = true) ↔ MemberUser m id u).
  { intros u. split.
    - intros (Hu & key & Hin & _). apply elem_of_range in Hin. destruct (ch_live _ _ HM id key u Hin) as (_ & c & k & Hb & Hk & Hku).
      assert (Hx : ∃ x, conns m !! c = Some x ∧ user x = u) by (apply user_core; eauto). destruct Hx as (x & Hx & Hux).
      split; [done|]. exists key, c, x. split_and!; [done|done|]. apply (ch_both _ _ HM). by exists u.
    - intros (Hu & key & c & x & [Hb Hx] & Hux & Hin). split; [done|]. exists key. apply (ch_both _ _ HM) in Hin as [v Hv].
      destruct (ch_live _ _ HM id key v Hv) as (_ & c' & k & Hb' & Hk & Hkv). assert (c' = c) as -> by congruence. apply cores_lookup in Hk as (x' & Hx' & <-).
      assert (x' = x) as -> by congruence. change (user x = v) in Hkv. subst v. rewrite Hux in Hv. split; [by apply elem_of_range|]. unfold isLive. by rewrite Hb. }
  destruct (scanUsers_ok (λ p, isLive m p.1) limit (range (inner id (index (members (chs m))))) []) as (H1 & H2 & H3 & H4); [apply NoDup_nil_2|by intros u ?%elem_of_nil|simpl; lia|].
  split_and!; [done| |done|].
  - intros u Hu. destruct (H2 u Hu) as [?%elem_of_nil|?]; [done|by apply Hiff].
  - intros Hl u Hu. apply H4; [done|right]. by apply Hiff.
Qed.

(** Without a limit the scan for subscribers finds each account that has an
    unexpired subscription, and no other. *)
Lemma scanSubscribers_out now id exclude m ps s out u :
  (∀ key x, (key, x) ∈ ps → sub_userID x ≠ 0 ∧ sessionOf key (sub_userID x) m ≠ None) →
  u ∈ (scanSubscribers now id exclude 0 m ps s out).2 ↔
    u ∈ out ∨ u ∉ exclude ∧ ∃ key x, (key, x) ∈ ps ∧ sub_userID x = u ∧ now < sub_expiresAt x.
Proof.
  revert s out. induction ps as [|[key x] ps IH]; intros s out Hps; cbn [scanSubscribers]; [clear; set_solver|].
  destruct (Hps key x) as [Hu Hs]; [left|]. cbv zeta. rewrite (bool_decide_false (sub_userID x = 0)), (bool_decide_false (sessionOf key (sub_userID x) m = None)) by done.
  assert (Hps' : ∀ key x, (key, x) ∈ ps → sub_userID x ≠ 0 ∧ sessionOf key (sub_userID x) m ≠ None) by (intros; apply Hps; by right).
  assert (Hcons : (∃ k y, (k, y) ∈ (key, x) :: ps ∧ sub_userID y = u ∧ now < sub_expiresAt y) ↔
      (sub_userID x = u ∧ now < sub_expiresAt x) ∨ ∃ k y, (k, y) ∈ ps ∧ sub_userID y = u ∧ now < sub_expiresAt y).
  { split; [intros (k & y & [[= -> ->]|?]%elem_of_cons & ? & ?); [by left|right; eauto]|]. intros [[? ?]|(k & y & ? & ? & ?)]; [exists key, x|exists k, y]; (split; [rewrite elem_of_cons; auto|done]). }
  rewrite Hcons. cbn [orb andb]. case_bool_decide; [rewrite IH by done; intuition lia|].
  case_bool_decide; [rewrite IH by done; set_solver|]. case_bool_decide; [rewrite IH by done; set_solver|].
  rewrite (bool_decide_false (0 > 0)) by lia. cbn [andb]. rewrite IH by done. rewrite elem_of_app, list_elem_of_singleton. assert (now < sub_expiresAt x) by lia. clear Hcons IH Hps Hps' Hs. naive_solver.
Qed.
Lemma subscribers_spec m now id u : RegInv m → id ≠ 0 → u ∈ (OnlineChannelSubscriberUserIDsExcluding id ∅ 0 now m).2 ↔ SubscriberUser m now id u.
Proof.
  intros HR Hid. unfold OnlineChannelSubscriberUserIDsExcluding. rewrite bool_decide_false by done. destruct (rg_channels _ _ _ HR) as (_ & HS & _).
  pose proof (scanSubscribers_out now id ∅ m (range (inner id (bySubscribedChannel (subscriptions (chs m))))) (subscriptions (chs m)) [] u) as Hout.
  destruct (scanSubscribers _ _ _ _ _ _ _ _) as [s out]. cbn [snd] in *. rewrite Hout; clear Hout.
  - split.
    + intros [?%elem_of_nil|(_ & key & y & Hin%elem_of_range & Hu & He)]; [done|]. destruct (sb_live _ _ HS id key y Hin) as (Hz & c & k & Hb & Hk & Hku).
      assert (Hx : ∃ x, conns m !! c = Some x ∧ user x = sub_userID y) by (apply user_core; eauto). destruct Hx as (x & Hx & Hux). rewrite Hu in Hz, Hux.
      split; [done|]. exists key, c, x, (sub_expiresAt y). split_and!; [done|done| |done].
      change (lookup2 key id (bySessionSubscriptions (subscriptions (chs m))) = Some (sub_expiresAt y)). by rewrite <-(sb_both _ _ HS), (Hin : lookup2 id key _ = _).
    + intros (Hu & key & c & x & e & [Hb Hx] & Hux & Hsub & He). right. split; [set_solver|]. change (lookup2 key id (bySessionSubscriptions (subscriptions (chs m))) = Some e) in Hsub.
      rewrite <-(sb_both _ _ HS) in Hsub. apply fmap_Some in Hsub as (y & Hy & ->). exists key, y. split_and!; [by apply elem_of_range| |done].
      destruct (sb_live _ _ HS id key y Hy) as (_ & c' & k & Hb' & Hk & Hku). assert (c' = c) as -> by congruence. apply cores_lookup in Hk as (x' & Hx' & <-).
      assert (x' = x) as -> by congruence. change (user x = sub_userID y) in Hku. congruence.
  - intros key y Hin%elem_of_range. destruct (sb_live _ _ HS id key y Hin) as (Hz & c & k & Hb & (x & Hx & <-)%cores_lookup & Hku). split; [done|].
    unfold sessionOf. rewrite Hb. simpl. rewrite Hx. simpl. change (user x = sub_userID y) in Hku. by rewrite bool_decide_true.
Qed.

(** ** Theorems *)

(** C16: Whatever interleaving of connects, takeovers, logins, logouts,
    revocations, channel updates and pushes the manager sees, no critical
    section panics, and afterwards every index is exactly the view of the
    registry it stands for: by raw key, by account and by business key, claims
    included; [IsUserOnline], the member list and the subscriber list of a
    channel answer exactly for the live sessions, and the per-session channel
    caps hold. *)
Theorem session_indexes_exact ls :
  ∃ w, runs ls start = Done w ∧ let m := mgr w in let i := idx m in
    (∀ key c, bySession i !! key = Some c → ∃ x, conns m !! c = Some x ∧ connSessionKey x = key) ∧
    (∀ a s, lookup2 a s (byAuthKey i) = bySession i !! (a, s) ∧ lookup2 a s (claimsByAuth i) = claims i !! (a, s)) ∧
    (∀ u key c, lookup2 u key (byUser i) = Some c ↔ u ≠ 0 ∧ ∃ x, Owner m key c x ∧ user x = u) ∧
    (∀ b key c, lookup2 b key (byBusinessAuthKey i) = Some c ↔ ∃ x, Owner m key c x ∧ business x = Some b) ∧
    (∀ u, IsUserOnline u m = true ↔ u ≠ 0 ∧ ∃ key c x, Owner m key c x ∧ user x = u) ∧
    (∀ id u, id ≠ 0 → u ∈ OnlineChannelMemberUserIDs id 0 m ↔ MemberUser m id u) ∧
    (∀ now id u, id ≠ 0 → u ∈ (OnlineChannelSubscriberUserIDsExcluding id ∅ 0 now m).2 ↔ SubscriberUser m now id u) ∧
    (∀ key, Z.of_nat (size (channelsOf key (interests (chs m)))) ≤ maxChannelIndexPerSession ∧
            Z.of_nat (size (channelsOf key (members (chs m)))) ≤ maxChannelIndexPerSession ∧
            Z.of_nat (size (subsOf key (subscriptions (chs m)))) ≤ maxChannelSubscriptionsPerSession).
Proof.
  destruct (runs_ok ls start world_start) as (w & Hr & HW & _). exists w. split; [done|]. cbv zeta. pose proof (gd_reg _ _ (wi_good _ HW)) as HR. split_and!.
  - intros key c Hb. destruct (rg_session _ _ _ HR _ _ Hb) as (k & (x & Hx & <-)%cores_lookup & <- & _). eauto.
  - intros a s. split; apply HR.
  - intros u key c. rewrite (rg_user _ _ _ HR), user_core. unfold Owner. naive_solver.
  - intros b key c. rewrite (rg_business _ _ _ HR), business_core. unfold Owner. naive_solver.
  - intros u. by apply online_spec.
  - intros id u Hid. destruct (members_spec (mgr w) id 0 HR Hid) as (_ & H2 & _ & H4). split; [apply H2|by apply H4].
  - intros now id u Hid. by apply subscribers_spec.
  - intros key. destruct (rg_channels _ _ _ HR) as (Hi & Hs & Hm). split_and!; [apply Hi|apply Hm|apply Hs].
Qed.

(** C17: In every reachable state at most one connection is active in a session
    and it is the owner the lookups find, an authorization key has at most 256
    owners and claims, and from then on a connection never changes its session
    and its life only goes forward (provisional, claiming, active, retired):
    once retired it is retired for good, whatever happens later. *)
Theorem session_single_owner ls ls' w w' :
  runs ls start = Done w → runs ls' w = Done w' →
  (∀ c x, conns (mgr w) !! c = Some x → lifecycle x = Active → bySession (idx (mgr w)) !! connSessionKey x = Some c) ∧
  (∀ c1 c2 x1 x2, conns (mgr w) !! c1 = Some x1 → conns (mgr w) !! c2 = Some x2 → lifecycle x1 = Active → lifecycle x2 = Active →
     connSessionKey x1 = connSessionKey x2 → c1 = c2) ∧
  (∀ a, Z.of_nat (ownersOf a (mgr w)) ≤ maxSessionsPerAuthKey) ∧
  (∀ c x, conns (mgr w) !! c = Some x →
     ∃ x', conns (mgr w') !! c = Some x' ∧ connSessionKey x' = connSessionKey x ∧ rank (lifecycle x) ≤ rank (lifecycle x')).
Proof.
  intros Hw Hw'. pose proof (reachable_inv ls w Hw) as HW. pose proof (gd_reg _ _ (wi_good _ HW)) as HR.
  assert (Hact : ∀ c x, conns (mgr w) !! c = Some x → lifecycle x = Active → bySession (idx (mgr w)) !! connSessionKey x = Some c).
  { intros c x Hx Ha. apply (rg_active _ _ _ HR c (coreOf x)); [apply cores_lookup; eauto|done]. }
  split_and!; [done| |apply HR|].
  - intros c1 c2 x1 x2 H1 H2 A1 A2 Hk. pose proof (Hact _ _ H1 A1). pose proof (Hact _ _ H2 A2). congruence.
  - intros c x Hx. destruct (runs_ok ls' w HW) as (w2 & Hw2 & _ & HP). assert (w2 = w') as -> by congruence.
    destruct (HP c (coreOf x)) as (k & (x' & Hx' & <-)%cores_lookup & Hk & Hr); [apply cores_lookup; eauto|]. eauto.
Qed.

(** ** Connections an operation does not reach *)

Lemma update_other c f m m' v : update c f m = Done m' → v ≠ c → conns m' !! v = conns m !! v.
Proof. unfold update. intros. run_inv. simpl. by rewrite lookup_insert_ne. Qed.
Lemma deletePending_conns key m m' : deletePending key m = Done m' → conns m' = conns m.
Proof. unfold deletePending. intros. by run_inv. Qed.
Lemma removeClaim_conns key c m : conns (removeClaimLocked key c m) = conns m.
Proof. unfold removeClaimLocked. by case_bool_decide. Qed.
Lemma clearIndexes_other c key m m' v : clearSessionChannelIndexesLocked c key m = Done m' → v ≠ c → conns m' !! v = conns m !! v.
Proof. unfold clearSessionChannelIndexesLocked. intros. run_inv. simpl. by match goal with H : update _ _ _ = Done _ |- _ => rewrite (update_other _ _ _ _ v H) end. Qed.
Lemma retireConn_other c dp m m' u v : retireConnLocked c dp m = Done (m', u) → v ≠ c → conns m' !! v = conns m !! v.
Proof.
  unfold retireConnLocked, removeLocked, beginTerminalShutdown. intros. run_inv; simpl; repeat match goal with
  | H : deletePending _ _ = Done _ |- _ => apply deletePending_conns in H; rewrite H; clear H
  | H : update _ _ _ = Done ?x |- context [conns ?x !! _] => rewrite (update_other _ _ _ _ _ H) by done; clear H
  | H : clearSessionChannelIndexesLocked _ _ _ = Done ?x |- context [conns ?x !! _] => rewrite (clearIndexes_other _ _ _ _ _ H) by done; clear H; simpl
  end; done.
Qed.
Lemma retireClaim_other key c dp m m' v : retireClaimLocked key c dp m = Done m' → v ≠ c → conns m' !! v = conns m !! v.
Proof.
  unfold retireClaimLocked, beginTerminalShutdown. intros. run_inv; simpl; repeat match goal with
  | H : deletePending _ _ = Done _ |- _ => apply deletePending_conns in H; rewrite H; clear H
  end; rewrite ?removeClaim_conns; try done; by match goal with H : update _ _ _ = Done _ |- _ => rewrite (update_other _ _ _ _ v H) end.
Qed.
Lemma evictLoop_other fuel a c m m' vs v : evictLoop fuel a c m = Done (m', vs) → v ∉ vs → conns m' !! v = conns m !! v.
Proof.
  revert m m' vs. induction fuel as [|fuel IH]; intros m m' vs; cbn [evictLoop]; intros Hev Hv; [by run_inv|].
  destruct (negb _); [by run_inv|]. destruct (oldestAuthOwnerLocked a c m) as [[[[key victim] isClaim] t]|]; [|by run_inv].
  apply run_bind_Done in Hev as (m1 & H1 & Hev). apply run_bind_Done in Hev as ([m2 vs2] & H2 & Hev). injection Hev as <- <-.
  apply not_elem_of_cons in Hv as [Hne Hv]. rewrite (IH _ _ _ H2 Hv). destruct isClaim; [by eapply retireClaim_other|]. run_inv. by eapply retireConn_other.
Qed.
Lemma claimSession_other c m m' vs v : claimSession c m = Done (m', Some vs) → v ∉ vs → conns m' !! v = conns m !! v.
Proof.
  unfold claimSession. intros Hc Hv. destruct (conns m !! c) as [x|]; [|done]. cbn [deref mbind run_bind] in Hc.
  destruct (_ || _); [by run_inv|]. apply run_bind_Done in Hc as ([m1 r1] & H1 & Hc). apply run_bind_Done in Hc as ([m2 r2] & H2 & Hc).
  apply run_bind_Done in Hc as ([m3 r3] & H3 & Hc). injection Hc as <- <-. rewrite !not_elem_of_app in Hv. destruct Hv as (Hv1 & Hv2 & Hv3). simpl.
  rewrite (evictLoop_other _ _ _ _ _ _ _ H3 Hv3). trans (conns m1 !! v).
  - clear H1. destruct (bySession (idx m1) !! _); run_inv; try done; eapply retireConn_other; [done|]. set_solver.
  - clear H2. destruct (claims (idx m) !! _); run_inv; try done; eapply retireClaim_other; [done|]. set_solver.
Qed.
Lemma closeConnBatch_spec cs m m' :
  closeConnBatch cs m = Done m' →
  (∀ c, c ∉ cs → conns m' !! c = conns m !! c) ∧ (∀ c x', c ∈ cs → conns m' !! c = Some x' → transportOpen x' = false).
Proof.
  revert m m'. induction cs as [|c cs IH]; intros m m'; cbn [closeConnBatch]; intros Hc; [run_inv; split; [done|by intros c x' ?%elem_of_nil]|].
  apply run_bind_Done in Hc as (m1 & H1 & Hc). apply run_bind_Done in Hc as (m2 & H2 & Hc). destruct (IH _ _ Hc) as [Hk Hx]. unfold beginTerminalShutdown, closeTransport in *. split.
  - intros v [Hne Hv]%not_elem_of_cons. rewrite Hk by done. rewrite (update_other _ _ _ _ v H2), (update_other _ _ _ _ v H1) by done. done.
  - intros v x' Hv Hx'. destruct (decide (v ∈ cs)) as [Hin|Hout]; [by eapply Hx|]. apply elem_of_cons in Hv as [->|?]; [|done]. rewrite Hk in Hx' by done.
    unfold update in H2. run_inv. simpl in Hx'. rewrite lookup_insert_eq in Hx'. by injection Hx' as <-.
Qed.
Lemma usesKey_same b m m' v : conns m' !! v = conns m !! v → usesKey b v m' = usesKey b v m.
Proof. intros E. unfold usesKey. by rewrite E. Qed.
(** The loops of a revocation reach the connections that use the key. *)
Lemma retireLoop_other b (body : sessionKey * positive → manager → Run manager) ps m m' v :
  (∀ p m1 m2, body p m1 = Done m2 → (usesKey b p.2 m1 = false → m2 = m1) ∧ (v ≠ p.2 → conns m2 !! v = conns m1 !! v)) →
  forLoop body ps m = Done m' → v ∉ usingConns b ps m → conns m' !! v = conns m !! v.
Proof.
  intros Hb. revert m. induction ps as [|p ps IH]; intros m; cbn [forLoop]; intros Hl Hv; [by run_inv|].
  apply run_bind_Done in Hl as (m1 & H1 & Hl). destruct (Hb _ _ _ H1) as [Hn Ho].
  assert (E : conns m1 !! v = conns m !! v).
  { destruct (decide (v = p.2)) as [->|Hne]; [|by apply Ho]. destruct (usesKey b p.2 m) eqn:Hu; [|by rewrite Hn].
    destruct Hv. unfold usingConns. rewrite filter_cons_True by done. left. }
  rewrite <-E. apply IH; [done|]. intros (q & -> & [Hu Hq]%list_elem_of_filter)%list_elem_of_fmap. apply Hv. apply list_elem_of_fmap. exists q. split; [done|].
  apply list_elem_of_filter. split; [|by right]. by rewrite <-(usesKey_same b m m1).
Qed.
Lemma dropLogical_conns (P : sessionKey → logicalSession → bool) m : conns (dropLogical P m) = conns m.
Proof.
  unfold dropLogical. generalize (range (logicalSessions m)). intros ps. revert m. induction ps as [|p ps IH]; intros m; [done|]. simpl. rewrite IH.
  destruct (P _ _); [|done]. unfold destroyLogicalSession. by destruct (logicalSessions m !! _).
Qed.
Lemma revoke_conns b m m' closed :
  CloseSessionsForBusinessAuthKey b m = Done (m', closed) →
  (∀ c, c ∉ closed → conns m' !! c = conns m !! c) ∧ (∀ c x', c ∈ closed → conns m' !! c = Some x' → transportOpen x' = false).
Proof.
  unfold CloseSessionsForBusinessAuthKey. intros Hc. apply run_bind_Done in Hc as (m1 & H1 & Hc). apply run_bind_Done in Hc as (m2 & H2 & Hc).
  apply run_bind_Done in Hc as (m3 & H3 & Hc). injection Hc as <- <-. apply closeConnBatch_spec in H3 as [Hk Hx]. split; [|done].
  intros c Hout. rewrite Hk, dropLogical_conns by done. apply not_elem_of_app in Hout as [Ha Hcl].
  assert (E1 : conns m1 !! c = conns m !! c).
  { eapply retireLoop_other; [|exact H1|exact Ha]. intros p ma mb Hp. unfold retireUsing in Hp. destruct (usesKey b p.2 ma); run_inv; [|done]. split; [done|]. by eapply retireConn_other. }
  rewrite <-E1. eapply (retireLoop_other b); [|exact H2|].
  - intros p ma mb Hp. unfold retireClaimUsing in Hp. destruct (usesKey b p.2 ma); run_inv; [|done]. split; [done|]. by eapply retireClaim_other.
  - intros (q & -> & [Hu Hq]%list_elem_of_filter)%list_elem_of_fmap. apply Hcl. apply list_elem_of_fmap. exists q. split; [done|].
    apply list_elem_of_filter. split; [|done]. by rewrite <-(usesKey_same b m m1).
Qed.

(** C18: Taking over a session: when the locked section of [BeginActivation]
    grants the claim, the claimant is the only owner left of the session; the
    previous owner and the previous claimant are among the connections it
    fenced, every fenced connection belongs to the same authorization key, is
    retired and gone from all indexes; every other owner and claim stays and
    every other connection is as it was, the claimant included.  Below the cap
    of 256 nobody else is fenced; a refusal changes no index and no other
    connection. *)
Theorem takeover_fences ls w c :
  runs ls start = Done w → c ∈ starting w →
  ∃ x m' o, conns (mgr w) !! c = Some x ∧ claimSession c (mgr w) = Done (m', o) ∧ let key := connSessionKey x in
    match o with
    | None => idx m' = idx (mgr w) ∧ ∀ v, v ≠ c → conns m' !! v = conns (mgr w) !! v
    | Some fenced =>
      claims (idx m') !! key = Some c ∧ bySession (idx m') !! key = None ∧ c ∉ fenced ∧
      (∀ v, bySession (idx (mgr w)) !! key = Some v ∨ claims (idx (mgr w)) !! key = Some v → v ∈ fenced) ∧
      (∀ v, v ∈ fenced → ∃ y, conns m' !! v = Some y ∧ lifecycle y = Retired ∧ authKeyID y = authKeyID x ∧
         ∀ k, bySession (idx m') !! k ≠ Some v ∧ claims (idx m') !! k ≠ Some v) ∧
      (∀ k v, bySession (idx m') !! k = Some v ↔ v ∉ fenced ∧ bySession (idx (mgr w)) !! k = Some v) ∧
      (∀ k v, claims (idx m') !! k = Some v ↔ (k = key ∧ v = c) ∨ (v ∉ fenced ∧ claims (idx (mgr w)) !! k = Some v)) ∧
      (∀ v, v ∉ fenced → conns m' !! v = conns (mgr w) !! v) ∧
      (Z.of_nat (ownersOf (authKeyID x) (mgr w)) < maxSessionsPerAuthKey →
         ∀ v, v ∈ fenced → bySession (idx (mgr w)) !! key = Some v ∨ claims (idx (mgr w)) !! key = Some v)
    end.
Proof.
  intros Hw Hin. pose proof (reachable_inv ls w Hw) as HW. destruct (wi_starting _ HW c Hin) as [[k Hc] Hn].
  destruct (claimSession_ok _ c (mgr w) k (wi_good _ HW) Hc Hn) as (m' & o & Heq & _ & Ho). pose proof Hc as (x & Hx & Hk)%cores_lookup.
  exists x, m', o. split; [done|]. split; [done|]. cbv zeta. subst k. destruct o as [vs|].
  2: { destruct Ho as (_ & Hi & _). split; [done|]. intros v Hv. unfold claimSession in Heq. rewrite Hx in Heq. cbn [deref mbind run_bind] in Heq.
    destruct (_ || _); [|run_inv; done]. unfold beginTerminalShutdown in Heq. run_inv. by eapply update_other. }
  pose proof (λ v, claimSession_other c _ _ _ v Heq) as Hother.
  destruct Ho as (Hl & Hvs & m0 & HF & -> & Hb0 & Hcl0 & Hroom). simpl in *. rewrite lookup_insert_eq. split_and!; try done.
  - intros v [Hv|Hv]; [destruct (fe_session _ _ _ _ HF _ _ Hv)|destruct (fe_claim _ _ _ _ HF _ _ Hv)]; congruence.
  - intros v Hv. destruct (fe_retired _ _ _ _ HF v Hv) as (kv & (y & Hy & <-)%cores_lookup & Hly & Hky). exists y. split_and!; try done.
    intros key. destruct (fe_gone _ _ _ _ HF v key Hv) as [? ?]. split; [done|]. intros [[_ ->]|[_ ?]]%lookup_insert_Some; done.
  - intros key v. split.
    + intros Hb. split; [intros Hv; by destruct (fe_gone _ _ _ _ HF v key Hv)|]. by apply (sh_session _ _ (fe_shrunk _ _ _ _ HF)).
    + intros [Hv Hb]. by destruct (fe_session _ _ _ _ HF _ _ Hb).
  - intros key v. rewrite lookup_insert_Some. split.
    + intros [[<- <-]|[Hne Hb]]; [by left|right]. split; [intros Hv; by destruct (fe_gone _ _ _ _ HF v key Hv)|]. by apply (sh_claims _ _ (fe_shrunk _ _ _ _ HF)).
    + intros [[-> ->]|[Hv Hb]]; [by left|right]. destruct (fe_claim _ _ _ _ HF _ _ Hb) as [Hb'|]; [|done]. split; [|done]. intros <-. congruence.
Qed.

(** C19: Revoking a key is complete and touches nothing else: afterwards no
    session and no claim belongs to a connection that uses the key, all of those
    connections are retired and their transports closed, every other owner,
    claim and connection is as it was, and of the logical sessions exactly those
    of the key are gone, each released once. *)
Theorem revocation_complete ls w b :
  runs ls start = Done w →
  ∃ m' closed, CloseSessionsForBusinessAuthKey b (mgr w) = Done (m', closed) ∧
    (∀ key c, bySession (idx m') !! key = Some c ↔ bySession (idx (mgr w)) !! key = Some c ∧ usesKey b c (mgr w) = false) ∧
    (∀ key c, claims (idx m') !! key = Some c ↔ claims (idx (mgr w)) !! key = Some c ∧ usesKey b c (mgr w) = false) ∧
    (∀ c, c ∈ closed ↔ usesKey b c (mgr w) = true ∧ ∃ key, bySession (idx (mgr w)) !! key = Some c ∨ claims (idx (mgr w)) !! key = Some c) ∧
    (∀ c, c ∈ closed → ∃ x, conns m' !! c = Some x ∧ lifecycle x = Retired ∧ transportOpen x = false) ∧
    (∀ c, c ∉ closed → conns m' !! c = conns (mgr w) !! c) ∧
    (∀ key, logicalSessions m' !! key =
       match logicalSessions (mgr w) !! key with
       | Some l => if bool_decide (key.1 = b) || bool_decide (l_business l = Some b) then None else Some l
       | None => None
       end) ∧
    (∃ ps, released m' = released (mgr w) ++ map (λ p : sessionKey * logicalSession, (p.1, outbound p.2)) ps ∧ NoDup ps.*1 ∧
       ∀ key l, (key, l) ∈ ps ↔ logicalSessions (mgr w) !! key = Some l ∧ logicalSessions m' !! key = None).
Proof.
  intros Hw. pose proof (reachable_inv ls w Hw) as HW.
  destruct (revoke_ok _ b (mgr w) (wi_good _ HW)) as (m' & closed & Heq & _ & _ & Hb & Hcl & Hret & Hkept & _ & Hclosed & HL & HRel).
  destruct (revoke_conns _ _ _ _ Heq) as [Hsame Hshut].
  exists m', closed. split; [done|]. assert (Huse : ∀ c, usesKey b c (mgr w) = false ↔ ¬ Uses b (mgr w) c) by (intros c; by rewrite <-usesKey_spec, not_true_iff_false).
  split_and!.
  - intros key c. rewrite Hb, Huse, Hclosed. naive_solver.
  - intros key c. rewrite Hcl, Huse, Hclosed. naive_solver.
  - intros c. by rewrite Hclosed, usesKey_spec.
  - intros c Hc. destruct (Hret c Hc) as (k & (x & Hx & <-)%cores_lookup & Hl). exists x. split_and!; [done|done|by eapply Hshut].
  - exact Hsame.
  - exact HL.
  - eexists. split; [exact HRel|]. split.
    + apply NoDup_fmap_fst; [|apply NoDup_filter; eapply NoDup_fmap_1, range_nodup]. intros key x y [_ Hx]%list_elem_of_filter [_ Hy]%list_elem_of_filter.
      apply elem_of_range in Hx, Hy. congruence.
    + intros key l. rewrite list_elem_of_filter, elem_of_range. simpl. split.
      * intros [Hr Hl]. split; [done|]. by rewrite HL, Hl, Hr.
      * intros [Hl Hn]. split; [|done]. rewrite HL, Hl in Hn. by destruct (revoked b key l).
Qed.

(** C20: The staging of pushes never loses track of a reference: in every
    reachable state a reservation is referenced exactly by its queue entries,
    the producers that hold it and the batches being flushed; the process-wide
    budget holds exactly the bytes of the reservations still referenced and is
    never exceeded; no queue is longer than 32; and when nothing is queued,
    produced or flushed the budget is empty again. *)
Theorem pending_push_accounting ls w :
  runs ls start = Done w → let p := psh (mgr w) in
  (∀ r x, reservations p !! r = Some x → r_refs x = queued r (pending p) + producerRefs r (producers w) + flushesRefs r (flushes w)) ∧
  Tracked.used (pendingBudget p) = msum (λ _ x, charge x) (reservations p) ∧
  0 ≤ Tracked.used (pendingBudget p) ≤ Tracked.maxBytes (pendingBudget p) ∧
  (∀ key, (length (pendingOf key p) ≤ maxPendingPushesPerSession)%nat) ∧
  (pending p = ∅ → producers w = [] → (∀ f, f ∈ flushes w → ∀ r, flushRefs r f = 0) → Tracked.used (pendingBudget p) = 0).
Proof.
  intros Hw. cbv zeta. pose proof (reachable_inv ls w Hw) as HW. pose proof (gd_pend _ _ (wi_good _ HW)) as HP. pose proof (pi_budget _ _ HP) as HB.
  assert (Hrefs : ∀ r x, reservations (psh (mgr w)) !! r = Some x → r_refs x = queued r (pending (psh (mgr w))) + producerRefs r (producers w) + flushesRefs r (flushes w)).
  { intros r x Hx. destruct (pi_refs _ _ HP r x Hx) as [-> _]. unfold heldBy. lia. }
  split_and!; [done|apply HP|apply HB|apply HB|intros key; by eapply pendingOf_length|].
  intros Hq Hpr Hfl. rewrite (pi_used _ _ HP). apply msum_zero. intros r x Hx. unfold charge. rewrite decide_False; [done|].
  rewrite (Hrefs r x Hx), Hq, Hpr. simpl. assert (flushesRefs r (flushes w) = 0) as ->.
  { clear -Hfl. induction (flushes w) as [|f fs IH]; simpl; [done|]. rewrite (Hfl f) by left. apply IH. intros g Hg. apply Hfl. by right. }
  unfold queued. rewrite msum_empty. lia.
Qed.

(** A logical session, with the outbox it owns, outlives its connections:
    one step removes it only when the session is destroyed, its key revoked or
    forgotten, the server stops, or a sweep finds it offline for at least six
    minutes with no owner and no claim; what goes is released exactly once, what
    stays keeps its outbox.  A connection that attaches to a retained session
    takes over that same outbox. *)
Theorem logical_session_retained ls l w w' :
  runs ls start = Done w → exec l w = Done w' →
  (∀ key x, logicalSessions (mgr w) !! key = Some x → fate l (mgr w) key x = false →
     ∃ x', logicalSessions (mgr w') !! key = Some x' ∧ outbound x' = outbound x) ∧
  (∀ key x, logicalSessions (mgr w) !! key = Some x → fate l (mgr w) key x = true → logicalSessions (mgr w') !! key = None) ∧
  (∃ ps, released (mgr w') = released (mgr w) ++ map (λ p : sessionKey * logicalSession, (p.1, outbound p.2)) ps ∧ NoDup ps.*1 ∧
     ∀ key x, (key, x) ∈ ps ↔ logicalSessions (mgr w) !! key = Some x ∧ fate l (mgr w) key x = true) ∧
  (∀ a s now y, l = LConnect a s now → logicalSessions (mgr w) !! (a, s) = Some y →
     ∃ c x, conns (mgr w) !! c = None ∧ conns (mgr w') !! c = Some x ∧ connSessionKey x = (a, s) ∧ outboundState x = outbound y).
Proof.
  intros Hw Hl. pose proof (reachable_inv ls w Hw) as HW. destruct (label_ok l w HW) as (w2 & Hw2 & _ & [_ [Hk Hd Hr]]). assert (w2 = w') as -> by congruence.
  split_and!; [done|intros key x Hx Hf; by destruct (Hd key x Hx Hf)|done|].
  intros a s now y -> Hy. cbn [exec] in Hl. set (c := fresh (dom (conns (mgr w)))) in *. assert (Hc : conns (mgr w) !! c = None) by apply not_elem_of_dom, is_fresh.
  destruct (connect_ok _ c a s now (mgr w) (wi_good _ HW) Hc) as (m' & Heq & _ & _ & HL & _ & Hcs & x & lo & Hx & Hlo & Hout & _).
  rewrite Heq in Hl. simpl in Hl. injection Hl as <-. exists c, x. destruct (lk_kept _ _ HL _ _ Hy) as (l' & Hl' & Ho). assert (Hsame : Some l' = Some lo) by (rewrite <-Hl'; exact Hlo). injection Hsame as ->.
  split_and!; [done|done| |congruence]. assert (Hck : coresOf m' !! c = Some (coreOf x)) by (apply cores_lookup; eauto).
  rewrite Hcs, lookup_insert_eq in Hck. apply (f_equal (default (a, s) ∘ fmap k_key)) in Hck. symmetry. exact Hck.
Qed.
End props.
