(* ===== verification/SessionRuns.v ===== *)
(** * Concrete runs of the session manager

    The theorems of [SessionProps] applied to runs that take a session over,
    revoke its key and retain its logical session, and a run in which a push
    staged for one account is still queued when the session belongs to
    another. *)

From S2P Require Import Prelude TrackedBudget SessionIndex SessionPending Sessions SessionRouting SessionsInv SessionsRoute SessionWorld SessionWorldInv SessionProps.
Import Index Pending Manager Routing World.

Module SessionRuns.

(** Maps visited in the order of their keys' encoding. *)
#[local] Instance ordered : Ranges := { range K _ _ A m := map_to_list m; range_all K _ _ A m := reflexivity _ }.

Definition key : sessionKey := (7, 1).
(** A session of account 42 with a push staged, and a second connection of the
    same session about to claim it. *)
Definition online : list label :=
  [LConnect 7 1 100; LBegin 1 false; LClaim 1; LFenced 1 100 true; LPublish 1 false; LBindUser key 42; LAddMember 42 5; LPrepare 100; LQueue 0 200 key 1 9].
Definition contended : list label := online ++ [LConnect 7 1 300; LBegin 2 false].
Definition final (ls : list label) : world := match runs ls start with Done w => w | _ => start end.

(** [session_single_owner] on the contended session and its takeover. *)
Lemma session_single_owner_witness :
  ∃ w w', runs contended start = Done w ∧ runs [LClaim 2; LFenced 2 300 true; LPublish 2 false] w = Done w' ∧
    (∃ x', conns (mgr w') !! 1%positive = Some x' ∧ rank (lifecycle x') = 3) ∧ bySession (idx (mgr w')) !! key = Some 2%positive ∧
    Z.of_nat (ownersOf 7 (mgr w)) ≤ maxSessionsPerAuthKey.
Proof.
  destruct (session_single_owner contended [LClaim 2; LFenced 2 300 true; LPublish 2 false] (final contended)
    (final (contended ++ [LClaim 2; LFenced 2 300 true; LPublish 2 false]))) as (_ & _ & Hcap & _); [by vm_compute|by vm_compute|].
  eexists _, _. split; [by vm_compute|]. split; [by vm_compute|]. split; [eexists; split; [by vm_compute|done]|]. split; [by vm_compute|exact (Hcap 7)].
Defined.

(** [takeover_fences] on the second connection: it fences the first. *)
Lemma takeover_fences_witness :
  ∃ w m', runs contended start = Done w ∧ claimSession 2 (mgr w) = Done (m', Some [1%positive]) ∧ claims (idx m') !! key = Some 2%positive ∧
    ∃ y, conns m' !! 1%positive = Some y ∧ lifecycle y = Retired.
Proof.
  destruct (takeover_fences contended (final contended) 2) as (x & m' & o & Hx & Hc & Ho);
    [by vm_compute|apply (bool_decide_unpack (2%positive ∈ starting (final contended))); vm_compute; exact I|].
  exists (final contended), m'. split; [by vm_compute|]. vm_compute in Hx. injection Hx as <-.
  assert (Hr : claimSession 2 (mgr (final contended)) = Done (m', Some [1%positive])) by (rewrite Hc; vm_compute in Hc; injection Hc as _ <-; reflexivity).
  split; [exact Hr|]. rewrite Hc in Hr. injection Hr as ->. destruct Ho as (Hcl & _ & _ & _ & Hf & _). split; [exact Hcl|].
  destruct (Hf 1%positive) as (y & Hy & Hl & _); [apply list_elem_of_singleton; reflexivity|]. exists y. exact (conj Hy Hl).
Defined.

(** [revocation_complete] on raw key 7. *)
Lemma revocation_complete_witness :
  ∃ w m' closed, runs online start = Done w ∧ CloseSessionsForBusinessAuthKey 7 (mgr w) = Done (m', closed) ∧ 1%positive ∈ closed ∧
    bySession (idx m') !! key ≠ Some 1%positive ∧ logicalSessions m' !! key = None.
Proof.
  destruct (revocation_complete online (final online) 7) as (m' & closed & Heq & Hb & _ & Hcl & _ & _ & HL & _); [by vm_compute|].
  exists (final online), m', closed. split; [by vm_compute|]. split; [exact Heq|]. split; [|split].
  - apply Hcl. split; [by vm_compute|]. exists key. left. by vm_compute.
  - intros [_ Hu]%Hb. by vm_compute in Hu.
  - rewrite HL. by vm_compute.
Defined.

(** [pending_push_accounting] with one push staged and its producer still
    holding it: two references, one hundred bytes. *)
Lemma pending_push_accounting_witness :
  ∃ w, runs online start = Done w ∧ Tracked.used (pendingBudget (psh (mgr w))) = 100 ∧
    (∃ x, reservations (psh (mgr w)) !! 1%positive = Some x ∧ r_refs x = 2) ∧ (length (pendingOf key (psh (mgr w))) ≤ maxPendingPushesPerSession)%nat.
Proof.
  destruct (pending_push_accounting online (final online)) as (Hrefs & _ & _ & Hlen & _); [by vm_compute|].
  exists (final online). split; [by vm_compute|]. split; [by vm_compute|]. split; [|exact (Hlen key)].
  eexists. split; [by vm_compute|]. done.
Defined.

(** [logical_session_retained]: a connection that goes offline keeps its
    session through a sweep one minute later and the next connection takes its
    outbox; six minutes later the sweep drops it. *)
Definition offline : list label := online ++ [LUnregister 1 1000].
Lemma logical_session_retained_witness :
  ∃ w w', runs offline start = Done w ∧ exec (LConnect 7 1 2000) w = Done w' ∧
    ∃ c x y, logicalSessions (mgr w) !! key = Some y ∧ conns (mgr w') !! c = Some x ∧ outboundState x = outbound y.
Proof.
  assert (Hr : runs offline start = Done (final offline)) by (by vm_compute).
  assert (He : exec (LConnect 7 1 2000) (final offline) = Done (final (offline ++ [LConnect 7 1 2000]))) by (by vm_compute).
  destruct (logical_session_retained offline (LConnect 7 1 2000) (final offline) (final (offline ++ [LConnect 7 1 2000])) Hr He) as (_ & _ & _ & Hc).
  destruct (Hc 7 1 2000 (mkLogical 1 1000 None) eq_refl) as (c & x & _ & Hx & _ & Ho); [by vm_compute|].
  eexists _, _. split; [exact Hr|]. split; [exact He|]. exists c, x, (mkLogical 1 1000 None). split; [by vm_compute|]. exact (conj Hx Ho).
Defined.
Lemma sweep_after_six_minutes :
  logicalSessions (mgr (final (offline ++ [LSweepLogical (1000 + logicalSessionOfflineTTL - 1)]))) !! key = Some (mkLogical 1 1000 None) ∧
  logicalSessions (mgr (final (offline ++ [LSweepLogical (1000 + logicalSessionOfflineTTL)]))) !! key = None.
Proof. by vm_compute. Qed.

(** The takeover keeps the pushes staged for the session; a logout of the key
    while the claimant is not yet published does not see the session; and the
    login of another account on a connection that had none does not drop them:
    the flush of account 43 takes a push staged for account 42. *)
Definition crossing : list label :=
  contended ++ [LClaim 2; LFenced 2 300 true; LUnbind 7; LPublish 2 false; LBindUser key 43; LProfile 2 true; LReceives key true; LTake 0 400].
Lemma staged_push_crosses_accounts :
  ∃ x batch, conns (mgr (final crossing)) !! 2%positive = Some x ∧ user x = 43 ∧
    flushes (final crossing) = [FlushBatch 2 key 43 0 batch] ∧ map q_user batch = [42].
Proof. eexists _, _. by vm_compute. Qed.
End SessionRuns.
