(* ===== verification/Threads.v ===== *)
(** * Handlers that share stores

    Code that is a sequence of calls to shared stores, each call one critical
    section, and is otherwise pure.  A [proc] is such a piece of code: a result,
    or a call and what is done with its answer.  Several of them run together,
    one call at a time in any order ([runs]).

    [wp] is a weakest precondition under interference: before every call other
    handlers may have moved the state along the preorder [rely] within the
    invariant [inv].  [threads_ok] shows that what [wp] promises holds in every
    run. *)

From S2P Require Import Prelude.

Section proc.
Context {action : Type} {result : action → Type}.

Inductive proc (T : Type) : Type :=
| Ret (x : T)
| Call (a : action) (k : result a → proc T).
Arguments Ret {T} x.
Arguments Call {T} a k.

#[export] Instance proc_ret : MRet proc := λ T x, Ret x.
#[export] Instance proc_bind : MBind proc := λ T U f,
  fix go (p : proc T) : proc U := match p with Ret x => f x | Call a k => Call a (λ r, go (k r)) end.
Definition call (a : action) : proc (result a) := Call a Ret.

(** ** Running a handler alone, and together with others *)

Section exec.
Context {request response state : Type}.
(** [perform i a s] is the call [a] of handler [i]; [handle] the code of a
    request; [ask] notes that a request arrived. *)
Context (perform : nat → ∀ a : action, state → state * result a).
Context (handle : request → proc response) (ask : request → state → state).

Fixpoint alone {T} (i : nat) (p : proc T) (s : state) : state * T :=
  match p with
  | Ret x => (s, x)
  | Call a k => let '(s, r) := perform i a s in alone i (k r) s
  end.

Record world := mkWorld { shared : state; handlers : list (proc response) }.
Inductive label := Start (r : request) | Step (i : nat).
Definition step (l : label) (w : world) : world :=
  match l with
  | Start r => mkWorld (ask r (shared w)) (handlers w ++ [handle r])
  | Step i =>
    match handlers w !! i with
    | Some (Call a k) => let '(s, r) := perform i a (shared w) in mkWorld s (<[i := k r]> (handlers w))
    | _ => w
    end
  end.
Definition runs (ls : list label) (w : world) : world := foldl (λ w l, step l w) w ls.
(** The answer of handler [i], once it has one. *)
Definition answer (i : nat) (w : world) : option response :=
  match handlers w !! i with Some (Ret x) => Some x | _ => None end.

Lemma runs_app ls ls' w : runs (ls ++ ls') w = runs ls' (runs ls w).
Proof. apply foldl_app. Qed.

(** ** Reasoning under interference *)

Context (inv : state → Prop) (rely : relation state) `{!PreOrder rely}.

Fixpoint wp {T} (i : nat) (p : proc T) (Q : T → state → Prop) (s : state) : Prop :=
  match p with
  | Ret x => Q x s
  | Call a k => ∀ s', rely s s' → inv s' →
      inv (perform i a s').1 ∧ rely s' (perform i a s').1 ∧ wp i (k (perform i a s').2) Q (perform i a s').1
  end.

Definition Stable (P : state → Prop) : Prop := ∀ s s', rely s s' → P s → P s'.

Lemma wp_mono {T} i (p : proc T) (Q Q' : T → state → Prop) s : (∀ x s', rely s s' → Q x s' → Q' x s') → wp i p Q s → wp i p Q' s.
Proof.
  revert s. induction p as [x|a k IH]; intros s HQ; simpl; [by apply HQ|]. intros Hwp s' Hr Hi. destruct (Hwp s' Hr Hi) as (H1 & H2 & H3).
  split_and!; [done|done|]. apply (IH _ _ (λ x s2 Hr2, HQ x s2 (transitivity Hr (transitivity H2 Hr2))) H3).
Qed.
Lemma wp_ret {T} i (x : T) Q s : Q x s → wp i (mret x) Q s.
Proof. done. Qed.
Lemma wp_bind {T U} i (p : proc T) (f : T → proc U) Q s : wp i p (λ x, wp i (f x) Q) s → wp i (p ≫= f) Q s.
Proof.
  revert s. induction p as [x|a k IH]; intros s; [done|]. intros Hwp s' Hr Hi. destruct (Hwp s' Hr Hi) as (H1 & H2 & H3).
  split_and!; [done|done|by apply IH].
Qed.
Lemma wp_call i a Q s :
  (∀ s', rely s s' → inv s' → inv (perform i a s').1 ∧ rely s' (perform i a s').1 ∧ Q (perform i a s').2 (perform i a s').1) → wp i (call a) Q s.
Proof. done. Qed.
Lemma wp_stable {T} i (p : proc T) Q : (∀ x, Stable (Q x)) → Stable (wp i p Q).
Proof.
  intros HQ s s' Hr. destruct p as [x|a k]; simpl; [by apply HQ|]. intros Hwp s2 Hr2 Hi. apply Hwp; [by etrans|done].
Qed.

(** What one call keeps, for code whose answer does not matter. *)
Lemma wp_alone {T} i (p : proc T) Q s : inv s → wp i p Q s → let '(s', x) := alone i p s in inv s' ∧ rely s s' ∧ Q x s'.
Proof.
  revert s. induction p as [x|a k IH]; intros s Hi Hwp; cbn [alone]; [by split_and!|].
  destruct (Hwp s ltac:(reflexivity) Hi) as (H1 & H2 & H3). destruct (perform i a s) as [s1 r]. simpl in *.
  specialize (IH r s1 H1 H3). destruct (alone i (k r) s1) as [s2 x]. destruct IH as (? & ? & ?). split_and!; [done|by etrans|done].
Qed.

(** Handler [i] of a world serves request [asked s !! i]. *)
Context (asked : state → list request) (Q : nat → request → response → state → Prop).
Record Threads (w : world) : Prop := {
  th_inv : inv (shared w);
  th_length : length (handlers w) = length (asked (shared w));
  th_wp i p r : handlers w !! i = Some p → asked (shared w) !! i = Some r → wp i p (Q i r) (shared w);
}.

Section sound.
Context (asked_ask : ∀ r s, asked (ask r s) = asked s ++ [r]).
Context (asked_perform : ∀ i a s, asked (perform i a s).1 = asked s).
Context (ask_inv : ∀ r s, inv s → inv (ask r s) ∧ rely s (ask r s)).
Context (Q_stable : ∀ i r x, Stable (Q i r x)).
Context (handle_wp : ∀ i r s, inv s → asked s !! i = Some r → wp i (handle r) (Q i r) s).

Lemma step_threads l w : Threads w → Threads (step l w) ∧ rely (shared w) (shared (step l w)).
Proof.
  intros [Hi Hl Hw]. destruct l as [r|i]; simpl.
  - destruct (ask_inv r (shared w) Hi) as [Hi' Hr]. split; [|done]. split; simpl; [done|rewrite asked_ask, !length_app; simpl; lia|].
    intros i p q. rewrite asked_ask. intros [Hp|[Hge Hp]]%lookup_app_Some Hq.
    + rewrite lookup_app_l in Hq by (rewrite <-Hl; by eapply lookup_lt_Some). apply (wp_stable i p (Q i q) (Q_stable i q) _ _ Hr). by apply Hw.
    + apply list_lookup_singleton_Some in Hp as [Hp <-]. rewrite lookup_app_r in Hq by lia. rewrite <-Hl in Hq.
      pose proof Hq as Hq'. rewrite Hp in Hq. injection Hq as ->. apply handle_wp; [done|]. rewrite asked_ask, lookup_app_r by lia. by rewrite <-Hl.
  - destruct (handlers w !! i) as [[x|a k]|] eqn:Hp; [by split|..|by split].
    assert (is_Some (asked (shared w) !! i)) as [r Hr] by (apply lookup_lt_is_Some; rewrite <-Hl; by eapply lookup_lt_Some).
    destruct (Hw i _ r Hp Hr (shared w) ltac:(reflexivity) Hi) as (H1 & H2 & H3). pose proof (asked_perform i a (shared w)) as Ha.
    destruct (perform i a (shared w)) as [s y]. simpl in *. split; [|done]. split; simpl; [done|by rewrite length_insert, Ha|].
    intros j p q. rewrite Ha. destruct (decide (i = j)) as [<-|Hne].
    + rewrite list_lookup_insert_eq by (by eapply lookup_lt_Some). intros [= <-] Hq. rewrite Hr in Hq. by injection Hq as <-.
    + rewrite list_lookup_insert_ne by done. intros Hpj Hq. apply (wp_stable j p (Q j q) (Q_stable j q) _ _ H2). by apply Hw.
Qed.
(** Every run keeps the invariant, moves the shared state along the preorder,
    and every answer satisfies its postcondition. *)
Lemma threads_ok ls w : Threads w →
  Threads (runs ls w) ∧ rely (shared w) (shared (runs ls w)) ∧
  ∀ i x, answer i (runs ls w) = Some x → ∃ r, asked (shared (runs ls w)) !! i = Some r ∧ Q i r x (shared (runs ls w)).
Proof.
  intros HT. assert (Hruns : Threads (runs ls w) ∧ rely (shared w) (shared (runs ls w))).
  { revert w HT. induction ls as [|l ls IH]; intros w HT; [done|]. destruct (step_threads l w HT) as [HT1 Hr1]. destruct (IH _ HT1) as [HT2 Hr2].
    split; [done|by etrans]. }
  destruct Hruns as [HT' Hr]. split_and!; [done|done|]. intros i x. unfold answer. destruct (handlers (runs ls w) !! i) as [[y|]|] eqn:Hp; [|done|done].
  intros [= ->]. assert (is_Some (asked (shared (runs ls w)) !! i)) as [r Hq] by (apply lookup_lt_is_Some; rewrite <-(th_length _ HT'); by eapply lookup_lt_Some).
  exists r. split; [done|]. exact (th_wp _ HT' i _ r Hp Hq).
Qed.
End sound.
End exec.
End proc.
Arguments proc {action} result T.
Arguments Ret {action result T} x.
Arguments Call {action result T} a k.
Arguments label request : clear implicits.
