(* ===== verification/SecretChat.v ===== *)
(** * Secret chats: data and stores

    [internal/domain/secretchat.go], the in-memory stores of
    [internal/store/memory/secretchat.go] and the check of Diffie-Hellman
    parameters in [internal/app/secretchat/dh.go].  The server relays opaque
    bytes: a chat moves from requested over normal to discarded, and messages
    wait in a queue of the receiving device, numbered by its qts. *)

From stdpp Require Import sorting.
From S2P Require Import Prelude.

Module Secret.

(** ** Data *)

(** [StateUnset] is the empty string. *)
Inductive SecretChatState := StateUnset | Requested | Normal | Discarded.
#[export] Instance SecretChatState_eq_dec : EqDecision SecretChatState.
Proof. solve_decision. Defined.

Inductive error :=
  ErrSecretChatNotFound | ErrSecretChatAlreadyAccepted | ErrSecretChatAlreadyDeclined | ErrSecretChatRandomIDDuplicate | ErrGAInvalid | ErrStore.
#[export] Instance error_eq_dec : EqDecision error.
Proof. solve_decision. Defined.

Record SecretChat := mkChat {
  ID : Z;
  AdminAccessHash : Z;
  ParticipantAccessHash : Z;
  AdminUserID : Z;
  ParticipantUserID : Z;
  AdminAuthKeyID : Z;
  ParticipantAuthKeyID : Z;
  State : SecretChatState;
  GA : list Z;
  GB : list Z;
  KeyFingerprint : Z;
  Layer : Z;
  FolderID : Z;
  HistoryDeleted : bool;
  RandomID : Z;
  Date : Z;
}.
Definition Terminal (c : SecretChat) : bool := bool_decide (State c = Discarded).
Definition HasParticipant (c : SecretChat) (u : Z) : bool :=
  negb (bool_decide (u = 0)) && (bool_decide (u = AdminUserID c) || bool_decide (u = ParticipantUserID c)).
Definition IsAdmin (c : SecretChat) (u : Z) : bool := negb (bool_decide (u = 0)) && bool_decide (u = AdminUserID c).
(** The four questions of the source that pick a side by account. *)
Definition side {A} (admin participant other : A) (c : SecretChat) (u : Z) : A :=
  if bool_decide (u = AdminUserID c) then admin else if bool_decide (u = ParticipantUserID c) then participant else other.
Definition PeerOf (c : SecretChat) (u : Z) : Z := side (ParticipantUserID c) (AdminUserID c) 0 c u.
Definition PeerAuthKeyOf (c : SecretChat) (u : Z) : Z := side (ParticipantAuthKeyID c) (AdminAuthKeyID c) 0 c u.
Definition AuthKeyOf (c : SecretChat) (u : Z) : Z := side (AdminAuthKeyID c) (ParticipantAuthKeyID c) 0 c u.
Definition AccessHashFor (c : SecretChat) (u : Z) : Z := side (AdminAccessHash c) (ParticipantAccessHash c) 0 c u.

Record EncryptedFileRef := mkFile { f_ID : Z; f_AccessHash : Z; f_Size : Z; f_DCID : Z; f_KeyFingerprint : Z }.
Record SecretChatMessage := mkMessage {
  ReceiverAuthKeyID : Z;
  Qts : Z;
  ReceiverUserID : Z;
  ChatID : Z;
  m_RandomID : Z;
  m_Date : Z;
  IsService : bool;
  Bytes : list Z;
  File : option EncryptedFileRef;
}.
Definition set_qts (q : Z) (m : SecretChatMessage) : SecretChatMessage :=
  mkMessage (ReceiverAuthKeyID m) q (ReceiverUserID m) (ChatID m) (m_RandomID m) (m_Date m) (IsService m) (Bytes m) (File m).
Inductive EncryptedStateEventType := EventEncryption | EventRead.
#[export] Instance EncryptedStateEventType_eq_dec : EqDecision EncryptedStateEventType.
Proof. solve_decision. Defined.
Record EncryptedStateEvent := mkEvent {
  ev_ID : Z;
  TargetUserID : Z;
  TargetAuthKeyID : Z;
  ev_ChatID : Z;
  Type_ : EncryptedStateEventType;
  MaxDate : Z;
  ev_Date : Z;
}.
Definition set_eventID (id : Z) (e : EncryptedStateEvent) : EncryptedStateEvent :=
  mkEvent id (TargetUserID e) (TargetAuthKeyID e) (ev_ChatID e) (Type_ e) (MaxDate e) (ev_Date e).
Record SecretMessageDelivery := mkDelivery { d_RandomID : Z; d_Bytes : list Z; d_IsService : bool; d_File : option EncryptedFileRef; d_Date : Z }.
Record SecretChatRequest := mkRequest {
  r_AdminUserID : Z; r_AdminAuthKeyID : Z; r_ParticipantUserID : Z; r_RandomID : Z; r_GA : list Z; r_Date : Z }.
Definition MaxSecretMessageDataBytes : Z := 2 ^ 20.

(** ** Diffie-Hellman parameters *)

Definition dhPubSize : nat := 256.
Definition dhPrime : Z :=
  0xc71caeb9c6b1c9048e6c522f70f13f73980d40238e3e21c14934d037563d930f48198a0aa7c14058229493d22530f4dbfa336f6e0ac925139543aed44cce7c3720fd51f69458705ac68cd4fe6b6b13abdc9746512969328454f18faf8c595f642477fe96bb2a941d5bcd1d4ac8cc49880708fa9b378e3c4f3a9060bee67cf9a4a4a695811051907e162753b56b0f6b410dba74d8a84b2a14b3144e0ef1284754fd17ed950d5965b4b9dd46582db1178d169c6bc465b0d6ff9ca3928fef5b9ae4e418fc15e83ebea0f87fa9ff5eed70050ded2849f47bf959d956850ce929851f0d8115f635b105ee2e4e15d04b2454bf6f4fadf034b10403119cd8e3b92fcc5b.
Definition dhLowerBound : Z := 2 ^ (2048 - 64).
Definition dhUpperBound : Z := dhPrime - 2 ^ (2048 - 64).
(** [big.Int.SetBytes]: most significant byte first. *)
Definition be_value (bs : list Z) : Z := foldl (λ v b, 256 * v + b) 0 bs.
Definition leftPad256 (b : list Z) : list Z := if bool_decide (length b = dhPubSize) then b else replicate (dhPubSize - length b) 0 ++ b.
Definition validateDHParam (g : list Z) : option (list Z) :=
  if bool_decide (length g = 0%nat) || bool_decide (dhPubSize < length g)%nat then None
  else
    let x := be_value g in
    if bool_decide (x ≤ 1) || bool_decide (dhPrime - 1 ≤ x) then None
    else if bool_decide (x ≤ dhLowerBound) || bool_decide (dhUpperBound ≤ x) then None
    else Some (leftPad256 g).

(** ** The chat store *)

Notation chatStore := (gmap Z SecretChat).

Definition set_state (st : SecretChatState) (c : SecretChat) : SecretChat :=
  mkChat (ID c) (AdminAccessHash c) (ParticipantAccessHash c) (AdminUserID c) (ParticipantUserID c) (AdminAuthKeyID c) (ParticipantAuthKeyID c)
    st (GA c) (GB c) (KeyFingerprint c) (Layer c) (FolderID c) (HistoryDeleted c) (RandomID c) (Date c).
Definition accepted (key : Z) (gb : list Z) (fp : Z) (c : SecretChat) : SecretChat :=
  mkChat (ID c) (AdminAccessHash c) (ParticipantAccessHash c) (AdminUserID c) (ParticipantUserID c) (AdminAuthKeyID c) key
    Normal (GA c) gb fp (Layer c) (FolderID c) (HistoryDeleted c) (RandomID c) (Date c).
Definition discarded (historyDeleted : bool) (c : SecretChat) : SecretChat :=
  mkChat (ID c) (AdminAccessHash c) (ParticipantAccessHash c) (AdminUserID c) (ParticipantUserID c) (AdminAuthKeyID c) (ParticipantAuthKeyID c)
    Discarded (GA c) (GB c) (KeyFingerprint c) (Layer c) (FolderID c) historyDeleted (RandomID c) (Date c).

(** [int(chat.RandomID)] keeps the value of an int32. *)
Definition CreateSecretChat (c : SecretChat) (s : chatStore) : chatStore * option error :=
  if bool_decide (ID c = 0) || negb (bool_decide (ID c = RandomID c)) then (s, Some ErrSecretChatRandomIDDuplicate)
  else
    match s !! ID c with
    | Some _ => (s, Some ErrSecretChatRandomIDDuplicate)
    | None =>
      let c := if bool_decide (State c = StateUnset) then set_state Requested c else c in
      (<[ID c := c]> s, None)
    end.
Definition GetSecretChat (id : Z) (s : chatStore) : option SecretChat := s !! id.
Definition AcceptSecretChat (id key : Z) (gb : list Z) (fp : Z) (s : chatStore) : chatStore * (error + SecretChat) :=
  match s !! id with
  | None => (s, inl ErrSecretChatNotFound)
  | Some c =>
    match State c with
    | Normal => (s, inl ErrSecretChatAlreadyAccepted)
    | Discarded => (s, inl ErrSecretChatAlreadyDeclined)
    | _ =>
      if bool_decide (ParticipantAuthKeyID c = 0) then (<[id := accepted key gb fp c]> s, inr (accepted key gb fp c))
      else (s, inl ErrSecretChatAlreadyAccepted)
    end
  end.
(** The chat and whether it was discarded already. *)
Definition DiscardSecretChat (id : Z) (historyDeleted : bool) (s : chatStore) : chatStore * (error + SecretChat * bool) :=
  match s !! id with
  | None => (s, inl ErrSecretChatNotFound)
  | Some c =>
    if Terminal c then (s, inr (c, true)) else (<[id := discarded historyDeleted c]> s, inr (discarded historyDeleted c, false))
  end.
Definition byID (c d : SecretChat) : Prop := ID c ≤ ID d.
#[export] Instance byID_dec : RelDecision byID.
Proof. intros c d. unfold byID. apply _. Defined.
Definition ListActiveSecretChatsByAuthKey (key : Z) (s : chatStore) : list SecretChat :=
  if bool_decide (key = 0) then []
  else
    merge_sort byID (filter (λ c, Terminal c = false ∧ (AdminAuthKeyID c = key ∨ ParticipantAuthKeyID c = key)) (map snd (map_to_list s))).

(** ** The queue store

    The two counters count objects the store holds, so they do not reach the
    end of an int64. *)

(** [delivered] has the pairs of an event and a device it reached. *)
Record queueStore := mkQueue {
  byDevice : gmap Z (list SecretChatMessage);
  reserved : gmap Z Z;
  confirmed : gmap Z Z;
  dedup : gmap (Z * Z * Z) Z;
  stateEvents : list EncryptedStateEvent;
  delivered : gset (Z * Z);
  nextEventID : Z;
  files : gmap Z EncryptedFileRef;
}.
Definition NewEncryptedQueueStore : queueStore := mkQueue ∅ ∅ ∅ ∅ [] ∅ 0 ∅.
Definition queueOf (dev : Z) (q : queueStore) : list SecretChatMessage := default [] (byDevice q !! dev).
Definition ReservedQts (dev : Z) (q : queueStore) : Z := default 0 (reserved q !! dev).

Definition AppendEncryptedMessage (m : SecretChatMessage) (q : queueStore) : queueStore * (SecretChatMessage * bool) :=
  let dev := ReceiverAuthKeyID m in
  let key := (dev, ChatID m, m_RandomID m) in
  let append :=
    let n := ReservedQts dev q + 1 in
    let stored := set_qts n m in
    (mkQueue (<[dev := queueOf dev q ++ [stored]]> (byDevice q)) (<[dev := n]> (reserved q)) (confirmed q) (<[key := n]> (dedup q))
       (stateEvents q) (delivered q) (nextEventID q) (files q), (stored, false)) in
  match dedup q !! key with
  | Some n => match list_find (λ x, Qts x = n) (queueOf dev q) with Some (_, x) => (q, (x, true)) | None => append end
  | None => append
  end.
Definition pageLimit (limit : Z) : nat := Z.to_nat (if bool_decide (limit ≤ 0) then 1000 else limit).
Definition ListEncryptedMessagesSince (dev since limit : Z) (q : queueStore) : list SecretChatMessage :=
  take (pageLimit limit) (filter (λ m, since < Qts m) (queueOf dev q)).
Definition AckEncryptedMessages (dev maxQts : Z) (q : queueStore) : queueStore :=
  if bool_decide (default 0 (confirmed q !! dev) < maxQts)
  then mkQueue (byDevice q) (reserved q) (<[dev := maxQts]> (confirmed q)) (dedup q) (stateEvents q) (delivered q) (nextEventID q) (files q)
  else q.
Definition AppendStateEvent (e : EncryptedStateEvent) (q : queueStore) : queueStore * Z :=
  let id := nextEventID q + 1 in
  (mkQueue (byDevice q) (reserved q) (confirmed q) (dedup q) (stateEvents q ++ [set_eventID id e]) (delivered q) id (files q), id).
Definition ListUndeliveredStateEvents (u dev limit : Z) (q : queueStore) : list EncryptedStateEvent :=
  take (pageLimit limit)
    (filter (λ e, TargetUserID e = u ∧ (TargetAuthKeyID e = 0 ∨ TargetAuthKeyID e = dev) ∧ (ev_ID e, dev) ∉ delivered q) (stateEvents q)).
Definition MarkStateEventsDelivered (dev : Z) (ids : list Z) (q : queueStore) : queueStore :=
  mkQueue (byDevice q) (reserved q) (confirmed q) (dedup q) (stateEvents q) (list_to_set (map (λ id, (id, dev)) ids) ∪ delivered q)
    (nextEventID q) (files q).
Definition PutEncryptedFile (f : EncryptedFileRef) (q : queueStore) : queueStore :=
  mkQueue (byDevice q) (reserved q) (confirmed q) (dedup q) (stateEvents q) (delivered q) (nextEventID q) (<[f_ID f := f]> (files q)).
Definition GetEncryptedFile (id hash : Z) (q : queueStore) : option EncryptedFileRef :=
  f ← files q !! id; if bool_decide (f_AccessHash f = hash) then Some f else None.
End Secret.
