(* ===== verification/SecretChatRpc.v ===== *)
(** * Secret chats: the service and its handlers

    [internal/app/secretchat/service.go] and the handlers of
    [internal/rpc/encrypted_chats.go], [encrypted_messages.go],
    [encrypted_read_typing.go] and [encrypted_files.go], as code over the calls
    of the two stores and the pushes to online sessions ([Threads]).  The
    account and device of the caller, the looked-up peer, uploaded files, random
    bytes and the clock are arguments of a request; what is sent to sessions is
    recorded.  Calls of the in-memory stores do not fail beyond their own
    errors, so the generic error branches of the source are not reached. *)

From S2P Require Import Prelude Threads SecretChat.
Import Secret.

Module SecretRpc.

(** ** What leaves the server *)

Inductive EncryptedChatView :=
  | ViewDiscarded (historyDeleted : bool) (id : Z)
  | ViewChat (id accessHash date admin participant : Z) (gaOrB : list Z) (fingerprint : Z)
  | ViewWaiting (id accessHash date admin participant : Z)
  | ViewRequested (id accessHash date admin participant : Z) (ga : list Z) (folder : option Z).
Definition tgEncryptedChatForViewer (c : SecretChat) (viewer : Z) : EncryptedChatView :=
  if Terminal c then ViewDiscarded (HistoryDeleted c) (ID c)
  else
    let hash := AccessHashFor c viewer in
    if bool_decide (State c = Normal) then
      ViewChat (ID c) hash (Date c) (AdminUserID c) (ParticipantUserID c) (if IsAdmin c viewer then GB c else GA c) (KeyFingerprint c)
    else if IsAdmin c viewer then ViewWaiting (ID c) hash (Date c) (AdminUserID c) (ParticipantUserID c)
    else ViewRequested (ID c) hash (Date c) (AdminUserID c) (ParticipantUserID c) (GA c) (if bool_decide (FolderID c = 0) then None else Some (FolderID c)).

Definition tgEncryptedFile (f : option EncryptedFileRef) : option EncryptedFileRef :=
  match f with Some f => if bool_decide (f_ID f = 0) then None else Some f | None => None end.
Inductive tgMessage :=
  | TgService (random chat date : Z) (bytes : list Z)
  | TgMessage (random chat date : Z) (bytes : list Z) (file : option EncryptedFileRef).
Definition tgEncryptedMessage (m : SecretChatMessage) : tgMessage :=
  if IsService m then TgService (m_RandomID m) (ChatID m) (m_Date m) (Bytes m)
  else TgMessage (m_RandomID m) (ChatID m) (m_Date m) (Bytes m) (tgEncryptedFile (File m)).

Inductive update :=
  | UpdateEncryption (v : EncryptedChatView) (date : Z)
  | UpdateNewEncryptedMessage (m : tgMessage) (qts : Z)
  | UpdateEncryptedMessagesRead (chat maxDate date : Z)
  | UpdateEncryptedChatTyping (chat : Z).
(** All sessions of an account, those of one device, or all but one device. *)
Inductive target := ToUser (u : Z) | ToDevice (u key : Z) | ToOthers (u key : Z).

(** ** Calls *)

Inductive action :=
  | CreateChat (c : SecretChat)
  | GetChat (id : Z)
  | AcceptChat (id key : Z) (gb : list Z) (fp : Z)
  | DiscardChat (id : Z) (historyDeleted : bool)
  | ListActive (key : Z)
  | AppendMessage (m : SecretChatMessage)
  | ListSince (dev since limit : Z)
  | Reserved (dev : Z)
  | Ack (dev maxQts : Z)
  | AppendEvent (e : EncryptedStateEvent)
  | ListEvents (u dev limit : Z)
  | MarkEvents (dev : Z) (ids : list Z)
  | PutFile (f : EncryptedFileRef)
  | GetFile (id hash : Z)
  | Push (t : target) (u : update).
Definition result (a : action) : Type :=
  match a with
  | CreateChat _ => option error
  | GetChat _ => option SecretChat
  | AcceptChat _ _ _ _ => error + SecretChat
  | DiscardChat _ _ => error + SecretChat * bool
  | ListActive _ => list SecretChat
  | AppendMessage _ => SecretChatMessage * bool
  | ListSince _ _ _ => list SecretChatMessage
  | Reserved _ => Z
  | AppendEvent _ => Z
  | ListEvents _ _ _ => list EncryptedStateEvent
  | GetFile _ _ => option EncryptedFileRef
  | _ => unit
  end.
Notation proc := (proc result).

(** ** The service *)

(** [randomAccessHash] with the eight bytes read, if the read succeeds. *)
Definition randomAccessHash (b : option (list Z)) : option Z :=
  match b with
  | None => None
  | Some b => let v := Z.shiftr (be_value b) 1 in Some (if bool_decide (v = 0) then 1 else v)
  end.
Definition sameSecretChatRequest (c : SecretChat) (req : SecretChatRequest) (ga : list Z) : bool :=
  bool_decide (ID c = r_RandomID req) && bool_decide (RandomID c = r_RandomID req) && bool_decide (AdminUserID c = r_AdminUserID req) &&
  bool_decide (AdminAuthKeyID c = r_AdminAuthKeyID req) && bool_decide (ParticipantUserID c = r_ParticipantUserID req) && bool_decide (GA c = ga).
Definition existingRequest (o : option SecretChat) (req : SecretChatRequest) (ga : list Z) : error + SecretChat :=
  match o with
  | Some c => if sameSecretChatRequest c req ga && negb (Terminal c) then inr c else inl ErrSecretChatRandomIDDuplicate
  | None => inl ErrSecretChatRandomIDDuplicate
  end.
Definition RequestEncryption (req : SecretChatRequest) (rand1 rand2 : option (list Z)) : proc (error + SecretChat) :=
  if bool_decide (r_AdminUserID req = 0) || bool_decide (r_ParticipantUserID req = 0) || bool_decide (r_AdminAuthKeyID req = 0)
  then mret (inl ErrGAInvalid)
  else if bool_decide (r_RandomID req = 0) then mret (inl ErrSecretChatRandomIDDuplicate)
  else
    match validateDHParam (r_GA req) with
    | None => mret (inl ErrGAInvalid)
    | Some ga =>
      o ← call (GetChat (r_RandomID req));
      match o with
      | Some _ => mret (existingRequest o req ga)
      | None =>
        match randomAccessHash rand1, randomAccessHash rand2 with
        | Some adminAH, Some participantAH =>
          let chat := mkChat (r_RandomID req) adminAH participantAH (r_AdminUserID req) (r_ParticipantUserID req) (r_AdminAuthKeyID req) 0
                        Requested ga [] 0 0 0 false (r_RandomID req) (r_Date req) in
          e ← call (CreateChat chat);
          match e with
          | None => mret (inr chat)
          | Some e =>
            if bool_decide (e = ErrSecretChatRandomIDDuplicate)
            then o ← call (GetChat (r_RandomID req)); mret (existingRequest o req ga)
            else mret (inl e)
          end
        | _, _ => mret (inl ErrStore)
        end
      end
    end.
Definition AcceptEncryption (id viewer key hash : Z) (gb : list Z) (fp : Z) : proc (error + SecretChat) :=
  match validateDHParam gb with
  | None => mret (inl ErrGAInvalid)
  | Some gb =>
    o ← call (GetChat id);
    match o with
    | None => mret (inl ErrSecretChatNotFound)
    | Some c =>
      if negb (bool_decide (ParticipantUserID c = viewer)) || negb (bool_decide (ParticipantAccessHash c = hash)) then mret (inl ErrSecretChatNotFound)
      else
        match State c with
        | Normal => mret (inl ErrSecretChatAlreadyAccepted)
        | Discarded => mret (inl ErrSecretChatAlreadyDeclined)
        | _ => call (AcceptChat id key gb fp)
        end
    end
  end.
(** Whether the snapshot [c] lets device [key] of account [viewer] discard. *)
Definition mayDiscard (c : SecretChat) (viewer key : Z) : bool :=
  HasParticipant c viewer && negb (bool_decide (key = 0)) &&
  negb (negb (bool_decide (AuthKeyOf c viewer = 0)) && negb (bool_decide (AuthKeyOf c viewer = key))) &&
  negb (bool_decide (AuthKeyOf c viewer = 0) && negb (bool_decide (viewer = ParticipantUserID c))).
Definition DiscardEncryption (id viewer key : Z) (deleteHistory : bool) : proc (error + SecretChat * bool) :=
  o ← call (GetChat id);
  match o with
  | Some c => if mayDiscard c viewer key then call (DiscardChat id deleteHistory) else mret (inl ErrSecretChatNotFound)
  | None => mret (inl ErrSecretChatNotFound)
  end.
Fixpoint discardAll (cs : list SecretChat) : proc (list SecretChat) :=
  match cs with
  | [] => mret []
  | c :: cs =>
    r ← call (DiscardChat (ID c) false);
    match r with
    | inl e => if bool_decide (e = ErrSecretChatNotFound) then discardAll cs else mret []
    | inr (updated, already) => rest ← discardAll cs; mret (if already : bool then rest else updated :: rest)
    end
  end.
Definition DiscardForAuthKey (key : Z) : proc (list SecretChat) :=
  if bool_decide (key = 0) then mret [] else cs ← call (ListActive key); discardAll cs.
Definition maySend (c : SecretChat) (viewer key hash : Z) : bool :=
  HasParticipant c viewer && negb (bool_decide (key = 0)) && bool_decide (AuthKeyOf c viewer = key) && bool_decide (AccessHashFor c viewer = hash) &&
  bool_decide (State c = Normal).
Definition SendEncrypted (id viewer key hash : Z) (d : SecretMessageDelivery) : proc (error + SecretChat * SecretChatMessage) :=
  o ← call (GetChat id);
  match o with
  | None => mret (inl ErrSecretChatNotFound)
  | Some c =>
    if negb (maySend c viewer key hash) then mret (inl ErrSecretChatNotFound)
    else
      let receiver := PeerOf c viewer in
      let receiverKey := if IsAdmin c viewer then ParticipantAuthKeyID c else AdminAuthKeyID c in
      if bool_decide (receiver = 0) || bool_decide (receiverKey = 0) then mret (inl ErrSecretChatNotFound)
      else
        '(stored, _) ← call (AppendMessage (mkMessage receiverKey 0 receiver id (d_RandomID d) (d_Date d) (d_IsService d) (d_Bytes d) (d_File d)));
        mret (inr (c, stored))
  end.
Definition ListNewMessages (dev since limit : Z) : proc (list SecretChatMessage) :=
  if bool_decide (dev = 0) then mret [] else call (ListSince dev since limit).
Definition DeviceReservedQts (dev : Z) : proc Z := if bool_decide (dev = 0) then mret 0 else call (Reserved dev).
Definition AckQueue (dev maxQts : Z) : proc unit := if bool_decide (dev = 0) || bool_decide (maxQts ≤ 0) then mret tt else call (Ack dev maxQts).
Definition RecordEncryptionEvent (id user key date : Z) : proc unit :=
  if bool_decide (user = 0) then mret tt else _ ← call (AppendEvent (mkEvent 0 user key id EventEncryption 0 date)); mret tt.
Definition RecordReadEvent (id user key maxDate date : Z) : proc unit :=
  if bool_decide (user = 0) then mret tt else _ ← call (AppendEvent (mkEvent 0 user key id EventRead maxDate date)); mret tt.
Definition ListStateEvents (user dev limit : Z) : proc (list EncryptedStateEvent) :=
  if bool_decide (user = 0) || bool_decide (dev = 0) then mret [] else call (ListEvents user dev limit).
Definition MarkDelivered (dev : Z) (ids : list Z) : proc unit :=
  if bool_decide (dev = 0) || bool_decide (ids = []) then mret tt else call (MarkEvents dev ids).
Definition PutEncryptedFile (f : EncryptedFileRef) : proc unit := if bool_decide (f_ID f = 0) then mret tt else call (PutFile f).

(** ** Handlers *)

Inductive rpcError :=
  | DH_G_A_INVALID | ENCRYPTION_ALREADY_ACCEPTED | ENCRYPTION_ALREADY_DECLINED | RANDOM_ID_DUPLICATE | CHAT_ID_INVALID | INTERNAL
  | AUTH_KEY_UNREGISTERED | USER_ID_INVALID | USER_IS_BLOCKED | DATA_TOO_LONG | FILE_EMPTY | MAX_DATE_INVALID.
Definition secretChatErr (e : error) : rpcError :=
  match e with
  | ErrGAInvalid => DH_G_A_INVALID
  | ErrSecretChatAlreadyAccepted => ENCRYPTION_ALREADY_ACCEPTED
  | ErrSecretChatAlreadyDeclined => ENCRYPTION_ALREADY_DECLINED
  | ErrSecretChatRandomIDDuplicate => RANDOM_ID_DUPLICATE
  | ErrSecretChatNotFound => CHAT_ID_INVALID
  | ErrStore => INTERNAL
  end.
(** The caller: who is logged in ([None]: the lookup failed), and the device's
    business key. *)
Record caller := mkCaller { c_user : option (option Z); c_device : option Z }.
Inductive inputFile := NoFile | Uploaded (minted : option EncryptedFileRef) | Existing (id hash : Z) | UnknownFile.

Inductive response :=
  | Failed (e : rpcError)
  | ChatAnswer (v : EncryptedChatView)
  | BoolAnswer
  | SentAnswer (date : Z)
  | SentFileAnswer (date : Z) (file : option EncryptedFileRef)
  | FileAnswer (file : option EncryptedFileRef)
  | QtsAnswer (qts : Z)
  | Messages (ms : list tgMessage) (qts : Z) (partial : bool)
  | QtsGap
  | StateUpdates (us : list update) (peers ids : list Z) (partial : bool)
  | Finished.

Inductive request :=
  | ReqRequest (c : caller) (peer : option (option (Z * bool))) (blocked : option bool) (randomID : Z) (ga : list Z) (rand1 rand2 : option (list Z)) (now : Z)
  | ReqAccept (c : caller) (id hash : Z) (gb : list Z) (fp now : Z)
  | ReqDiscard (c : caller) (id : Z) (deleteHistory : bool) (now : Z)
  | ReqSend (c : caller) (id hash randomID : Z) (data : list Z) (isService : bool) (now : Z)
  | ReqSendFile (c : caller) (id hash randomID : Z) (data : list Z) (file : inputFile) (now : Z)
  | ReqUploadFile (c : caller) (id hash : Z) (file : inputFile)
  | ReqReceivedQueue (c : caller) (maxQts : Z)
  | ReqRead (c : caller) (id hash maxDate now : Z)
  | ReqTyping (c : caller) (id hash : Z) (typing : bool) (now : Z)
  | ReqDifference (dev : option Z) (since : Z)
  | ReqStateUpdates (u : Z) (dev : option Z)
  | ReqDelivered (dev : Z) (ids : list Z)
  | ReqQts (dev : option Z)
  | ReqLogout (key owner now : Z).

(** [secretChatRequireUser], then the device of the connection. *)
Definition withUser (c : caller) (f : Z → proc response) : proc response :=
  match c_user c with None => mret (Failed INTERNAL) | Some None => mret (Failed AUTH_KEY_UNREGISTERED) | Some (Some u) => f u end.
Definition withDevice (c : caller) (f : Z → Z → proc response) : proc response :=
  withUser c (λ u, match c_device c with None => mret (Failed INTERNAL) | Some k => f u k end).

Definition pushUpdateEncryption (user key : Z) (c : SecretChat) (now : Z) : proc unit :=
  let upd := UpdateEncryption (tgEncryptedChatForViewer c user) now in
  if bool_decide (key = 0) then if bool_decide (user = 0) then mret tt else call (Push (ToUser user) upd) else call (Push (ToDevice user key) upd).
Definition pushAcceptedLoserDiscarded (c : SecretChat) (now : Z) : proc unit :=
  if bool_decide (ParticipantUserID c = 0) || bool_decide (ParticipantAuthKeyID c = 0) then mret tt
  else call (Push (ToOthers (ParticipantUserID c) (ParticipantAuthKeyID c)) (UpdateEncryption (ViewDiscarded true (ID c)) now)).
Definition pushEncryptedNewMessage (m : SecretChatMessage) : proc unit :=
  if bool_decide (ReceiverUserID m = 0) || bool_decide (ReceiverAuthKeyID m = 0) then mret tt
  else call (Push (ToDevice (ReceiverUserID m) (ReceiverAuthKeyID m)) (UpdateNewEncryptedMessage (tgEncryptedMessage m) (Qts m))).
Definition pushEncryptedPeerUpdate (user key : Z) (u : update) : proc unit :=
  if bool_decide (user = 0) || bool_decide (key = 0) then mret tt else call (Push (ToDevice user key) u).

Definition onMessagesRequestEncryption (c : caller) (peer : option (option (Z * bool))) (blocked : option bool) (randomID : Z) (ga : list Z)
    (rand1 rand2 : option (list Z)) (now : Z) : proc response :=
  if bool_decide (randomID = 0) || negb (bool_decide (wrap32 randomID = randomID)) then mret (Failed RANDOM_ID_DUPLICATE)
  else
    withDevice c (λ admin key,
      match peer with
      | None => mret (Failed INTERNAL)
      | Some None => mret (Failed USER_ID_INVALID)
      | Some (Some (p, bot)) =>
        if bool_decide (p = 0) || bool_decide (p = admin) || bot then mret (Failed USER_ID_INVALID)
        else
          match blocked with
          | None => mret (Failed INTERNAL)
          | Some true => mret (Failed USER_IS_BLOCKED)
          | Some false =>
            r ← RequestEncryption (mkRequest admin key p randomID ga now) rand1 rand2;
            match r with
            | inl e => mret (Failed (secretChatErr e))
            | inr chat =>
              _ ← RecordEncryptionEvent (ID chat) (ParticipantUserID chat) 0 (Date chat);
              _ ← pushUpdateEncryption (ParticipantUserID chat) 0 chat now;
              mret (ChatAnswer (tgEncryptedChatForViewer chat admin))
            end
          end
      end).
Definition onMessagesAcceptEncryption (c : caller) (id hash : Z) (gb : list Z) (fp now : Z) : proc response :=
  withDevice c (λ user key,
    r ← AcceptEncryption id user key hash gb fp;
    match r with
    | inl e => mret (Failed (secretChatErr e))
    | inr chat =>
      _ ← RecordEncryptionEvent (ID chat) (AdminUserID chat) (AdminAuthKeyID chat) now;
      _ ← RecordEncryptionEvent (ID chat) (ParticipantUserID chat) 0 now;
      _ ← pushUpdateEncryption (AdminUserID chat) (AdminAuthKeyID chat) chat now;
      _ ← pushAcceptedLoserDiscarded chat now;
      mret (ChatAnswer (tgEncryptedChatForViewer chat user))
    end).
(** The peer of account [u] learns that [chat] was discarded. *)
Definition notifyDiscarded (chat : SecretChat) (u now : Z) : proc unit :=
  let peer := PeerOf chat u in
  if bool_decide (peer = 0) then mret tt
  else
    _ ← RecordEncryptionEvent (ID chat) peer (PeerAuthKeyOf chat u) now;
    pushUpdateEncryption peer (PeerAuthKeyOf chat u) chat now.
Definition onMessagesDiscardEncryption (c : caller) (id : Z) (deleteHistory : bool) (now : Z) : proc response :=
  withDevice c (λ user key,
    r ← DiscardEncryption id user key deleteHistory;
    match r with
    | inl e => mret (Failed (secretChatErr e))
    | inr (chat, already) => _ ← (if already : bool then mret tt else notifyDiscarded chat user now); mret BoolAnswer
    end).
Fixpoint notifyAll (chats : list SecretChat) (owner now : Z) : proc unit :=
  match chats with [] => mret tt | c :: cs => _ ← notifyDiscarded c owner now; notifyAll cs owner now end.
Definition discardSecretChatsForAuthKey (key owner now : Z) : proc unit :=
  if bool_decide (key = 0) || bool_decide (owner = 0) then mret tt else cs ← DiscardForAuthKey key; notifyAll cs owner now.

Definition sendAndPush (id user key hash : Z) (d : SecretMessageDelivery) (answer : SecretChatMessage → response) : proc response :=
  r ← SendEncrypted id user key hash d;
  match r with
  | inl e => mret (Failed (secretChatErr e))
  | inr (_, stored) => _ ← pushEncryptedNewMessage stored; mret (answer stored)
  end.
Definition tooLong (data : list Z) : bool := bool_decide (MaxSecretMessageDataBytes < Z.of_nat (length data)).
Definition sendEncryptedCommon (c : caller) (id hash randomID : Z) (data : list Z) (isService : bool) (now : Z) : proc response :=
  if tooLong data then mret (Failed DATA_TOO_LONG)
  else withDevice c (λ user key, sendAndPush id user key hash (mkDelivery randomID data isService None now) (λ m, SentAnswer (m_Date m))).

(** [resolveSecretChatPeer]: the chat, if the caller is a bound device of it. *)
Definition resolveSecretChatPeer (user : Z) (dev : option Z) (id hash : Z) : proc (option SecretChat) :=
  o ← call (GetChat id);
  mret (match o, dev with
        | Some c, Some key =>
          if bool_decide (State c = Normal) && HasParticipant c user && bool_decide (AuthKeyOf c user = key) && bool_decide (AccessHashFor c user = hash)
          then Some c else None
        | _, _ => None
        end).
Definition resolveInputEncryptedFile (file : inputFile) : proc (option (option EncryptedFileRef)) :=
  match file with
  | NoFile => mret (Some None)
  | Uploaded None | UnknownFile => mret None
  | Uploaded (Some f) => _ ← PutEncryptedFile f; mret (Some (Some f))
  | Existing id hash => o ← call (GetFile id hash); mret (match o with Some f => Some (Some f) | None => None end)
  end.
Definition onMessagesSendEncryptedFile (c : caller) (id hash randomID : Z) (data : list Z) (file : inputFile) (now : Z) : proc response :=
  if tooLong data then mret (Failed DATA_TOO_LONG)
  else
    withDevice c (λ user key,
      o ← resolveSecretChatPeer user (c_device c) id hash;
      match o with
      | None => mret (Failed CHAT_ID_INVALID)
      | Some _ =>
        f ← resolveInputEncryptedFile file;
        match f with
        | None => mret (Failed FILE_EMPTY)
        | Some f => sendAndPush id user key hash (mkDelivery randomID data false f now) (λ m, SentFileAnswer (m_Date m) (tgEncryptedFile (File m)))
        end
      end).
Definition onMessagesUploadEncryptedFile (c : caller) (id hash : Z) (file : inputFile) : proc response :=
  withUser c (λ user,
    o ← resolveSecretChatPeer user (c_device c) id hash;
    match o with
    | None => mret (Failed CHAT_ID_INVALID)
    | Some _ =>
      f ← resolveInputEncryptedFile file;
      mret (match f with None => Failed FILE_EMPTY | Some f => FileAnswer (tgEncryptedFile f) end)
    end).
Definition onMessagesReceivedQueue (c : caller) (maxQts : Z) : proc response :=
  withDevice c (λ _ key, _ ← AckQueue key maxQts; mret Finished).
Definition onMessagesReadEncryptedHistory (c : caller) (id hash maxDate now : Z) : proc response :=
  withUser c (λ user,
    if bool_decide (maxDate ≤ 0) || bool_decide (now + 1 < maxDate) then mret (Failed MAX_DATE_INVALID)
    else
      o ← resolveSecretChatPeer user (c_device c) id hash;
      match o with
      | None => mret (Failed CHAT_ID_INVALID)
      | Some chat =>
        _ ← RecordReadEvent (ID chat) (PeerOf chat user) (PeerAuthKeyOf chat user) maxDate now;
        _ ← pushEncryptedPeerUpdate (PeerOf chat user) (PeerAuthKeyOf chat user) (UpdateEncryptedMessagesRead (ID chat) maxDate now);
        mret BoolAnswer
      end).
Definition onMessagesSetEncryptedTyping (c : caller) (id hash : Z) (typing : bool) (now : Z) : proc response :=
  withUser c (λ user,
    o ← resolveSecretChatPeer user (c_device c) id hash;
    match o with
    | None => mret (Failed CHAT_ID_INVALID)
    | Some chat =>
      _ ← (if typing then pushEncryptedPeerUpdate (PeerOf chat user) (PeerAuthKeyOf chat user) (UpdateEncryptedChatTyping (ID chat)) else mret tt);
      mret BoolAnswer
    end).

(** ** Catching up *)

Definition encryptedDifferencePageSize : Z := 1000.
(** The loop of [encryptedDifference]; [None] is the gap error. *)
Fixpoint contiguous (ms : list SecretChatMessage) (qts : Z) (out : list tgMessage) : option (list tgMessage * Z) :=
  match ms with
  | [] => Some (out, qts)
  | m :: ms => if bool_decide (Qts m = qts + 1) then contiguous ms (Qts m) (out ++ [tgEncryptedMessage m]) else None
  end.
Definition encryptedDifference (dev : option Z) (since : Z) : proc response :=
  match dev with
  | None => mret (Messages [] since false)
  | Some dev =>
    ms ← ListNewMessages dev since (encryptedDifferencePageSize + 1);
    let partial := bool_decide (encryptedDifferencePageSize < Z.of_nat (length ms)) in
    let ms := if partial then take (Z.to_nat encryptedDifferencePageSize) ms else ms in
    mret (match contiguous ms since [] with Some (out, qts) => Messages out qts partial | None => QtsGap end)
  end.
(** The loop of [encryptedStateUpdates]. *)
Fixpoint rebuild (u dev : Z) (evs : list EncryptedStateEvent) (seen : gset Z) : proc (list update * list Z * list Z) :=
  match evs with
  | [] => mret ([], [], [])
  | e :: evs =>
    match Type_ e with
    | EventEncryption =>
      o ← call (GetChat (ev_ChatID e));
      match o with
      | None => rebuild u dev evs seen
      | Some c =>
        if bool_decide (ID c ∈ seen) then '(us, ps, ids) ← rebuild u dev evs seen; mret (us, ps, ev_ID e :: ids)
        else if bool_decide (TargetAuthKeyID e = 0) && bool_decide (State c = Normal) && bool_decide (AuthKeyOf c u = dev)
        then '(us, ps, ids) ← rebuild u dev evs ({[ ID c ]} ∪ seen); mret (us, ps, ev_ID e :: ids)
        else
          let view := if bool_decide (TargetAuthKeyID e = 0) && bool_decide (State c = Normal) then ViewDiscarded true (ID c)
                      else tgEncryptedChatForViewer c u in
          '(us, ps, ids) ← rebuild u dev evs ({[ ID c ]} ∪ seen);
          mret (UpdateEncryption view (ev_Date e) :: us, AdminUserID c :: ParticipantUserID c :: ps, ev_ID e :: ids)
      end
    | EventRead =>
      '(us, ps, ids) ← rebuild u dev evs seen;
      mret (UpdateEncryptedMessagesRead (ev_ChatID e) (MaxDate e) (ev_Date e) :: us, ps, ev_ID e :: ids)
    end
  end.
Definition encryptedStateUpdates (u : Z) (dev : option Z) : proc response :=
  match dev with
  | None => mret (StateUpdates [] [] [] false)
  | Some dev =>
    evs ← ListStateEvents u dev (encryptedDifferencePageSize + 1);
    let partial := bool_decide (encryptedDifferencePageSize < Z.of_nat (length evs)) in
    let evs := if partial then take (Z.to_nat encryptedDifferencePageSize) evs else evs in
    '(us, ps, ids) ← rebuild u dev evs ∅;
    mret (StateUpdates us ps ids partial)
  end.
Definition deviceEncryptedQts (dev : option Z) : proc response :=
  match dev with None => mret (QtsAnswer 0) | Some dev => q ← DeviceReservedQts dev; mret (QtsAnswer q) end.

Definition handle (r : request) : proc response :=
  match r with
  | ReqRequest c peer blocked randomID ga rand1 rand2 now => onMessagesRequestEncryption c peer blocked randomID ga rand1 rand2 now
  | ReqAccept c id hash gb fp now => onMessagesAcceptEncryption c id hash gb fp now
  | ReqDiscard c id deleteHistory now => onMessagesDiscardEncryption c id deleteHistory now
  | ReqSend c id hash randomID data isService now => sendEncryptedCommon c id hash randomID data isService now
  | ReqSendFile c id hash randomID data file now => onMessagesSendEncryptedFile c id hash randomID data file now
  | ReqUploadFile c id hash file => onMessagesUploadEncryptedFile c id hash file
  | ReqReceivedQueue c maxQts => onMessagesReceivedQueue c maxQts
  | ReqRead c id hash maxDate now => onMessagesReadEncryptedHistory c id hash maxDate now
  | ReqTyping c id hash typing now => onMessagesSetEncryptedTyping c id hash typing now
  | ReqDifference dev since => encryptedDifference dev since
  | ReqStateUpdates u dev => encryptedStateUpdates u dev
  | ReqDelivered dev ids => _ ← MarkDelivered dev ids; mret Finished
  | ReqQts dev => deviceEncryptedQts dev
  | ReqLogout key owner now => _ ← discardSecretChatsForAuthKey key owner now; mret Finished
  end.

(** ** The shared state

    The two stores, what was pushed and by which handler, and two histories the
    proofs use: the requests in the order they arrived, and for every chat the
    handler whose accept won. *)
Record state := mkState {
  chats : chatStore;
  queue : queueStore;
  pushed : list (nat * (target * update));
  asked : list request;
  winner : gmap Z nat;
}.
Definition start : state := mkState ∅ NewEncryptedQueueStore [] [] ∅.
Definition set_chats (c : chatStore) (s : state) : state := mkState c (queue s) (pushed s) (asked s) (winner s).
Definition set_queue (q : queueStore) (s : state) : state := mkState (chats s) q (pushed s) (asked s) (winner s).
Definition set_winner (id : Z) (i : nat) (s : state) : state := mkState (chats s) (queue s) (pushed s) (asked s) (<[id := i]> (winner s)).
Definition ask (r : request) (s : state) : state := mkState (chats s) (queue s) (pushed s) (asked s ++ [r]) (winner s).
Definition perform (i : nat) (a : action) (s : state) : state * result a :=
  match a return state * result a with
  | CreateChat c => let '(cs, e) := CreateSecretChat c (chats s) in (set_chats cs s, e)
  | GetChat id => (s, GetSecretChat id (chats s))
  | AcceptChat id key gb fp =>
    let '(cs, r) := AcceptSecretChat id key gb fp (chats s) in
    (match r with inr _ => set_winner id i (set_chats cs s) | inl _ => set_chats cs s end, r)
  | DiscardChat id historyDeleted => let '(cs, r) := DiscardSecretChat id historyDeleted (chats s) in (set_chats cs s, r)
  | ListActive key => (s, ListActiveSecretChatsByAuthKey key (chats s))
  | AppendMessage m => let '(q, r) := AppendEncryptedMessage m (queue s) in (set_queue q s, r)
  | ListSince dev since limit => (s, ListEncryptedMessagesSince dev since limit (queue s))
  | Reserved dev => (s, ReservedQts dev (queue s))
  | Ack dev maxQts => (set_queue (AckEncryptedMessages dev maxQts (queue s)) s, tt)
  | AppendEvent e => let '(q, id) := AppendStateEvent e (queue s) in (set_queue q s, id)
  | ListEvents u dev limit => (s, ListUndeliveredStateEvents u dev limit (queue s))
  | MarkEvents dev ids => (set_queue (MarkStateEventsDelivered dev ids (queue s)) s, tt)
  | PutFile f => (set_queue (Secret.PutEncryptedFile f (queue s)) s, tt)
  | GetFile id hash => (s, GetEncryptedFile id hash (queue s))
  | Push t u => (mkState (chats s) (queue s) (pushed s ++ [(i, (t, u))]) (asked s) (winner s), tt)
  end.
End SecretRpc.
