(* ===== verification/SecretChatInv.v ===== *)
(** * Secret chats under interference

    The invariant of the shared stores, the preorder along which every call
    moves them, and what each call needs in order to keep both. *)

From S2P Require Import Prelude Threads SecretChat SecretChatRpc.
Import Secret SecretRpc.

(** ** How a chat may change *)

Definition rank (st : SecretChatState) : nat := match st with StateUnset | Requested => 0 | Normal => 1 | Discarded => 2 end.
Definition identity (c : SecretChat) := (ID c, AdminAccessHash c, ParticipantAccessHash c, AdminUserID c, ParticipantUserID c, AdminAuthKeyID c, GA c, RandomID c, Date c).
Definition binding (c : SecretChat) := (ParticipantAuthKeyID c, GB c, KeyFingerprint c).
Record Evolves (c c' : SecretChat) : Prop := {
  ev_identity : identity c' = identity c;
  ev_rank : (rank (State c) ≤ rank (State c'))%nat;
  ev_binding : (1 ≤ rank (State c))%nat → binding c' = binding c;
  ev_key : ParticipantAuthKeyID c ≠ 0 → ParticipantAuthKeyID c' = ParticipantAuthKeyID c;
  ev_final : State c = Discarded → c' = c;
}.
#[export] Instance Evolves_preorder : PreOrder Evolves.
Proof.
  split; [by intros c|]. intros c1 c2 c3 [I1 R1 B1 K1 F1] [I2 R2 B2 K2 F2]. split.
  - congruence.
  - lia.
  - intros H1. rewrite B2 by lia. by apply B1.
  - intros H1. rewrite K2 by (by rewrite K1). by apply K1.
  - intros H1. specialize (F1 H1). subst c2. by apply F2.
Qed.
Lemma evolves_fields c c' : Evolves c c' →
  AdminUserID c' = AdminUserID c ∧ ParticipantUserID c' = ParticipantUserID c ∧ AdminAccessHash c' = AdminAccessHash c ∧
  ParticipantAccessHash c' = ParticipantAccessHash c ∧ AdminAuthKeyID c' = AdminAuthKeyID c ∧ ID c' = ID c ∧ RandomID c' = RandomID c.
Proof. intros HE. pose proof (ev_identity _ _ HE) as Hi. unfold identity in Hi. by split_and!; congruence. Qed.
Lemma evolves_sides c c' u : Evolves c c' → PeerOf c' u = PeerOf c u ∧ AccessHashFor c' u = AccessHashFor c u ∧ HasParticipant c' u = HasParticipant c u ∧ IsAdmin c' u = IsAdmin c u.
Proof. intros (Ha & Hp & Hh & Hh' & _)%evolves_fields. unfold PeerOf, AccessHashFor, HasParticipant, IsAdmin, side. by rewrite Ha, Hp, Hh, Hh'. Qed.
Lemma evolves_key c c' u : Evolves c c' → AuthKeyOf c u ≠ 0 → AuthKeyOf c' u = AuthKeyOf c u.
Proof.
  intros HE. pose proof (ev_key _ _ HE) as HK. destruct (evolves_fields _ _ HE) as (Ha & Hp & _ & _ & Hk & _). unfold AuthKeyOf, side. rewrite Ha, Hp, Hk.
  case_bool_decide; [done|]. case_bool_decide; [apply HK|done].
Qed.

(** ** The invariant *)

Record ChatOk (id : Z) (c : SecretChat) : Prop := {
  co_id : ID c = id;
  co_random : RandomID c = id;
  co_nonzero : id ≠ 0;
  co_state : State c ≠ StateUnset;
  co_admin : AdminUserID c ≠ 0;
  co_participant : ParticipantUserID c ≠ 0;
  co_two : AdminUserID c ≠ ParticipantUserID c;
  co_adminKey : AdminAuthKeyID c ≠ 0;
  co_unbound : State c = Requested → ParticipantAuthKeyID c = 0;
  co_ga : ∃ g, validateDHParam g = Some (GA c);
}.
Lemma peer_key id c u : ChatOk id c → HasParticipant c u = true → PeerOf c u ≠ 0 ∧ AuthKeyOf c (PeerOf c u) = PeerAuthKeyOf c u ∧ PeerOf c (PeerOf c u) = u.
Proof.
  intros [_ _ _ _ Ha Hp Htwo _ _ _]. unfold HasParticipant, AuthKeyOf, PeerAuthKeyOf, PeerOf, side. intros [_ Hor]%andb_true_iff.
  apply orb_true_iff in Hor. destruct (decide (u = AdminUserID c)) as [->|Hne].
  - rewrite (bool_decide_true (AdminUserID c = AdminUserID c)) by done. rewrite (bool_decide_false (ParticipantUserID c = AdminUserID c)) by done.
    by rewrite bool_decide_true.
  - rewrite (bool_decide_false (u = AdminUserID c)) in * by done. destruct Hor as [?|Hu%bool_decide_eq_true]; [done|]. subst u.
    rewrite (bool_decide_true (ParticipantUserID c = ParticipantUserID c)) by done. by rewrite bool_decide_true.
Qed.
Lemma receiver_key id c u : ChatOk id c → HasParticipant c u = true → (if IsAdmin c u then ParticipantAuthKeyID c else AdminAuthKeyID c) = PeerAuthKeyOf c u.
Proof.
  intros HC Hu. unfold HasParticipant, IsAdmin, PeerAuthKeyOf, side in *. apply andb_true_iff in Hu as [Hz Hor]. rewrite Hz. simpl.
  case_bool_decide; [done|]. simpl in Hor. by rewrite Hor.
Qed.

(** The file [f] with which a request that names [file] goes out: none, the
    uploaded one, or the one uploaded earlier under the id and access hash. *)
Definition Uploads (r : request) (f : EncryptedFileRef) : Prop :=
  match r with ReqSendFile _ _ _ _ _ file _ | ReqUploadFile _ _ _ file => file = Uploaded (Some f) | _ => False end.
Definition FileAsked (s : state) (file : inputFile) (f : option EncryptedFileRef) : Prop :=
  match file with
  | NoFile => f = None
  | Uploaded (Some g) => f = Some g
  | Existing id hash => ∃ g r, f = Some g ∧ f_ID g = id ∧ f_AccessHash g = hash ∧ r ∈ asked s ∧ Uploads r g
  | Uploaded None | UnknownFile => False
  end.
(** The request of account [viewer] on device [key] that sent [m]. *)
Definition SentBy (s : state) (r : request) (viewer key hash : Z) (m : SecretChatMessage) : Prop :=
  match r with
  | ReqSend c id h random data svc now =>
    c = mkCaller (Some (Some viewer)) (Some key) ∧ (id, h, random, data, svc, now) = (ChatID m, hash, m_RandomID m, Bytes m, IsService m, m_Date m) ∧ File m = None
  | ReqSendFile c id h random data file now =>
    c = mkCaller (Some (Some viewer)) (Some key) ∧ (id, h, random, data, false, now) = (ChatID m, hash, m_RandomID m, Bytes m, IsService m, m_Date m) ∧ FileAsked s file (File m)
  | _ => False
  end.
(** A message came from the bound device of one side of an established chat
    and goes to the bound device of the other. *)
Record Authentic (s : state) (m : SecretChatMessage) (r : request) (c : SecretChat) (viewer key : Z) : Prop := {
  au_request : r ∈ asked s;
  au_sent : SentBy s r viewer key (AccessHashFor c viewer) m;
  au_chat : chats s !! ChatID m = Some c;
  au_established : (1 ≤ rank (State c))%nat;
  au_side : HasParticipant c viewer = true;
  au_key : AuthKeyOf c viewer = key ∧ key ≠ 0;
  au_receiver : ReceiverUserID m = PeerOf c viewer;
  au_receiverKey : AuthKeyOf c (PeerOf c viewer) = ReceiverAuthKeyID m ∧ ReceiverAuthKeyID m ≠ 0;
}.
Definition Justified (s : state) (m : SecretChatMessage) : Prop := ∃ r c viewer key, Authentic s m r c viewer key.

(** The accept that bound a chat. *)
Record Won (s : state) (id : Z) (i : nat) (c : SecretChat) : Prop := {
  wo_chat : chats s !! id = Some c;
  wo_rank : (1 ≤ rank (State c))%nat;
  wo_request : ∃ gb now, asked s !! i = Some (ReqAccept (mkCaller (Some (Some (ParticipantUserID c))) (Some (ParticipantAuthKeyID c)))
      id (ParticipantAccessHash c) gb (KeyFingerprint c) now) ∧ validateDHParam gb = Some (GB c);
}.
Definition EventOk (s : state) (e : EncryptedStateEvent) : Prop :=
  ∃ c, chats s !! ev_ChatID e = Some c ∧ (TargetAuthKeyID e ≠ 0 → AuthKeyOf c (TargetUserID e) = TargetAuthKeyID e).
(** Handler [i] serves a request for the established chat [id] which the device
    that initiated it sends again, naming the same peer [user]. *)
Definition Repeats (s : state) (i : nat) (id user : Z) : Prop :=
  ∃ c ga rand1 rand2 now, chats s !! id = Some c ∧ (1 ≤ rank (State c))%nat ∧ ParticipantUserID c = user ∧
    asked s !! i = Some (ReqRequest (mkCaller (Some (Some (AdminUserID c))) (Some (AdminAuthKeyID c))) (Some (Some (user, false))) (Some false) id ga rand1 rand2 now).
(** Where handler [i] may push the established view of a chat. *)
Definition PushOk (s : state) (i : nat) (t : target) (u : update) : Prop :=
  match u with
  | UpdateEncryption (ViewChat id _ _ _ _ _ _) _ =>
    match t with
    | ToDevice user key => ∃ c, chats s !! id = Some c ∧ AuthKeyOf c user = key ∧ key ≠ 0
    | ToUser user => Repeats s i id user
    | ToOthers _ _ => False
    end
  | UpdateNewEncryptedMessage m qts => ∃ user key x, t = ToDevice user key ∧ x ∈ queueOf key (queue s) ∧ tgEncryptedMessage x = m ∧ Qts x = qts ∧ ReceiverUserID x = user
  | _ => True
  end.

Record QueueOk (q : queueStore) : Prop := {
  qo_numbered dev i m : queueOf dev q !! i = Some m → Qts m = Z.of_nat i + 1 ∧ ReceiverAuthKeyID m = dev;
  qo_reserved dev : ReservedQts dev q = Z.of_nat (length (queueOf dev q));
  qo_dedup dev chat random n : dedup q !! (dev, chat, random) = Some n ↔ ∃ m, m ∈ queueOf dev q ∧ ChatID m = chat ∧ m_RandomID m = random ∧ Qts m = n;
  qo_events i e : stateEvents q !! i = Some e → ev_ID e = Z.of_nat i + 1;
  qo_next : nextEventID q = Z.of_nat (length (stateEvents q));
}.
Record inv (s : state) : Prop := {
  in_chats id c : chats s !! id = Some c → ChatOk id c;
  in_winner id i : winner s !! id = Some i → ∃ c, Won s id i c;
  in_normal id c : chats s !! id = Some c → State c = Normal → is_Some (winner s !! id);
  in_queue : QueueOk (queue s);
  in_messages dev m : m ∈ queueOf dev (queue s) → Justified s m;
  in_events e : e ∈ stateEvents (queue s) → EventOk s e;
  in_pushed i t u : (i, (t, u)) ∈ pushed s → PushOk s i t u;
  in_files id f : files (queue s) !! id = Some f → f_ID f = id ∧ ∃ r, r ∈ asked s ∧ Uploads r f;
}.

(** ** The preorder *)

Record rely (s s' : state) : Prop := {
  re_chats id c : chats s !! id = Some c → ∃ c', chats s' !! id = Some c' ∧ Evolves c c';
  re_winner : winner s ⊆ winner s';
  re_queue dev : queueOf dev (queue s) `prefix_of` queueOf dev (queue s');
  re_events : stateEvents (queue s) `prefix_of` stateEvents (queue s');
  re_delivered : delivered (queue s) ⊆ delivered (queue s');
  re_pushed : pushed s `prefix_of` pushed s';
  re_asked : asked s `prefix_of` asked s';
}.
#[export] Instance rely_preorder : PreOrder rely.
Proof.
  split; [intros s; split; [intros id c Hc; exists c; split; [done|reflexivity]|reflexivity..]|]. intros s1 s2 s3 [C1 W1 Q1 E1 D1 P1 A1] [C2 W2 Q2 E2 D2 P2 A2].
  split; [|by etrans|intros dev; etrans; [apply Q1|apply Q2]|by etrans|by etrans|by etrans|by etrans].
  intros id c Hc. destruct (C1 _ _ Hc) as (c2 & Hc2 & He2). destruct (C2 _ _ Hc2) as (c3 & Hc3 & He3). exists c3. split; [done|by etrans].
Qed.
Lemma rely_asked s s' i r : rely s s' → asked s !! i = Some r → asked s' !! i = Some r.
Proof. intros HR Hr. eapply prefix_lookup_Some; [exact Hr|apply HR]. Qed.
Lemma rely_asked_in s s' r : rely s s' → r ∈ asked s → r ∈ asked s'.
Proof. intros HR Hr. destruct (re_asked _ _ HR) as [l ->]. apply elem_of_app. by left. Qed.
Lemma rely_queue_in s s' dev m : rely s s' → m ∈ queueOf dev (queue s) → m ∈ queueOf dev (queue s').
Proof. intros HR Hm. destruct (re_queue _ _ HR dev) as [l ->]. apply elem_of_app. by left. Qed.

Lemma FileAsked_stable s s' file f : rely s s' → FileAsked s file f → FileAsked s' file f.
Proof.
  intros HR. destruct file as [|[g|]| |]; try done; simpl. intros (g & r & Hf & Hi & Hh & Hr & Hu). exists g, r. split_and!; try done. by eapply rely_asked_in.
Qed.
Lemma SentBy_stable s s' r viewer key hash m : rely s s' → SentBy s r viewer key hash m → SentBy s' r viewer key hash m.
Proof. intros HR. destruct r; try done; simpl. intros (H1 & H2 & H3). split_and!; [done|done|by eapply FileAsked_stable]. Qed.
Lemma Justified_stable s s' m : rely s s' → Justified s m → Justified s' m.
Proof.
  intros HR (r & c & u & k & [H1 H2 H3 H4 H5 [H6 H6'] H7 [H8 H8']]). destruct (re_chats _ _ HR _ _ H3) as (c' & Hc' & He).
  destruct (evolves_sides c c' u He) as (Hp & Hh & Hs & _). exists r, c', u, k. split; rewrite ?Hp, ?Hh, ?Hs; try done.
  - by eapply rely_asked_in.
  - by eapply SentBy_stable.
  - pose proof (ev_rank _ _ He). lia.
  - rewrite (evolves_key c c' u He) by congruence. done.
  - rewrite (evolves_key c c' (PeerOf c u) He) by congruence. done.
Qed.
Lemma Won_stable s s' id i c : rely s s' → Won s id i c → ∃ c', Won s' id i c'.
Proof.
  intros HR [H1 H2 (gb & now & H3 & H4)]. destruct (re_chats _ _ HR _ _ H1) as (c' & Hc' & He). exists c'.
  pose proof (ev_identity _ _ He) as Hid. pose proof (ev_binding _ _ He H2) as Hb. unfold identity in Hid. unfold binding in Hb. simplify_eq.
  split; [done|pose proof (ev_rank _ _ He); lia|]. exists gb, now. split; [|congruence]. eapply rely_asked; [done|]. rewrite H3. by do 2 f_equal; congruence.
Qed.
Lemma EventOk_stable s s' e : rely s s' → EventOk s e → EventOk s' e.
Proof.
  intros HR (c & Hc & Hk). destruct (re_chats _ _ HR _ _ Hc) as (c' & Hc' & He). exists c'. split; [done|]. intros Hz. rewrite (evolves_key c c' _ He); [by apply Hk|]. by rewrite Hk.
Qed.
Lemma PushOk_stable s s' i t u : rely s s' → PushOk s i t u → PushOk s' i t u.
Proof.
  intros HR. destruct u as [[| | |] |m q| |]; try done; simpl.
  - destruct t; [| |done].
    + intros (c & ga & rand1 & rand2 & now & Hc & Hn & Hp & Hi). destruct (re_chats _ _ HR _ _ Hc) as (c' & Hc' & He).
      pose proof (ev_rank _ _ He). destruct (evolves_fields _ _ He) as (Ha & Hp' & _ & _ & Hk & _).
      exists c', ga, rand1, rand2, now. rewrite Ha, Hk. split_and!; [done|lia|congruence|by eapply rely_asked].
    + intros (c & Hc & Hk & Hz). destruct (re_chats _ _ HR _ _ Hc) as (c' & Hc' & He). exists c'. split; [done|]. split; [|done]. rewrite (evolves_key c c' _ He); [done|congruence].
  - intros (user & key & x & Ht & Hx & Hm). exists user, key, x. split; [done|]. split; [by eapply rely_queue_in|done].
Qed.

(** ** Calls *)

Lemma inv_move s s' :
  inv s → rely s s' →
  (∀ id c, chats s' !! id = Some c → ChatOk id c) →
  (∀ id i, winner s' !! id = Some i → winner s !! id = Some i ∨ ∃ c, Won s' id i c) →
  (∀ id c, chats s' !! id = Some c → State c = Normal → is_Some (winner s' !! id)) →
  QueueOk (queue s') →
  (∀ dev m, m ∈ queueOf dev (queue s') → m ∈ queueOf dev (queue s) ∨ Justified s' m) →
  (∀ e, e ∈ stateEvents (queue s') → e ∈ stateEvents (queue s) ∨ EventOk s' e) →
  (∀ i t u, (i, (t, u)) ∈ pushed s' → (i, (t, u)) ∈ pushed s ∨ PushOk s' i t u) →
  (∀ id f, files (queue s') !! id = Some f → files (queue s) !! id = Some f ∨ f_ID f = id ∧ ∃ r, r ∈ asked s' ∧ Uploads r f) → inv s'.
Proof.
  intros HI HR Hch Hw Hn HQ Hm He Hp Hf. split; [done| |done|done|..].
  - intros id i Hi. destruct (Hw id i Hi) as [Hi'|?]; [|done]. destruct (in_winner _ HI id i Hi') as [c Hc]. by eapply Won_stable.
  - intros dev m Hin. destruct (Hm dev m Hin) as [?|?]; [|done]. eapply Justified_stable; [done|by eapply in_messages].
  - intros e Hin. destruct (He e Hin) as [?|?]; [|done]. eapply EventOk_stable; [done|by eapply in_events].
  - intros i t u Hin. destruct (Hp i t u Hin) as [?|?]; [|done]. eapply PushOk_stable; [done|by eapply in_pushed].
  - intros id f Hin. destruct (Hf id f Hin) as [Hin'|?]; [|done]. destruct (in_files _ HI id f Hin') as (Hid & r & Hr & Hu). split; [done|]. exists r. split; [by eapply rely_asked_in|done].
Qed.

(** One chat is added or evolves; nothing else changes. *)
Lemma chats_move s cs : (∀ id c, chats s !! id = Some c → ∃ c', cs !! id = Some c' ∧ Evolves c c') → rely s (set_chats cs s).
Proof. intros Hcs. split; [done|reflexivity..]. Qed.
Lemma inv_chats s cs :
  inv s → rely s (set_chats cs s) → (∀ id c, cs !! id = Some c → ChatOk id c) →
  (∀ id c, cs !! id = Some c → State c = Normal → is_Some (winner s !! id)) → inv (set_chats cs s).
Proof. intros HI HR Hch Hn. apply (inv_move s); try done; simpl; auto. by apply HI. Qed.
Lemma evolve_one (cs : gmap Z SecretChat) (id : Z) c' :
  (∀ c, cs !! id = Some c → Evolves c c') → ∀ (i : Z) c, cs !! i = Some c → ∃ c'', (<[id := c']> cs : gmap Z SecretChat) !! i = Some c'' ∧ Evolves c c''.
Proof.
  intros Hev i c Hi. destruct (decide (id = i)) as [->|Hne]; [rewrite lookup_insert_eq; eauto|]. rewrite lookup_insert_ne by done. exists c. split; [done|reflexivity].
Qed.

Lemma create_ok i c s : inv s → State c = Requested → ChatOk (ID c) c →
  inv (perform i (CreateChat c) s).1 ∧ rely s (perform i (CreateChat c) s).1.
Proof.
  intros HI Hst HC. simpl. unfold CreateSecretChat. destruct (_ || _); [split; [by destruct s|destruct s; reflexivity]|].
  destruct (chats s !! ID c) as [d|] eqn:Hd; [split; [by destruct s|destruct s; reflexivity]|]. rewrite bool_decide_false by congruence. simpl.
  assert (HR : rely s (set_chats (<[ID c := c]> (chats s)) s)) by (apply chats_move, evolve_one; intros d Hd0; by rewrite Hd in Hd0). split; [|done]. apply inv_chats; try done.
  - intros id d [[<- <-]|[_ Hl]]%lookup_insert_Some; [done|]. by apply HI.
  - intros id d [[<- <-]|[_ Hl]]%lookup_insert_Some; [congruence|]. by apply HI.
Qed.
Lemma evolves_accepted id c key gb fp : ChatOk id c → State c = Requested → Evolves c (accepted key gb fp c) ∧ ChatOk id (accepted key gb fp c).
Proof.
  intros HC Hst. pose proof (co_unbound _ _ HC Hst). split; [split; try done; rewrite Hst; simpl; try done; lia|].
  destruct HC. by split.
Qed.
Lemma evolves_discarded id c h : ChatOk id c → State c ≠ Discarded → Evolves c (discarded h c) ∧ ChatOk id (discarded h c).
Proof. intros HC Hst. split; [split; try done; destruct (State c); simpl; lia|]. destruct HC. by split. Qed.

(** An accept changes the chat exactly when it wins, and is then its winner. *)
Lemma accept_ok i id key gb fp s caller hash gb0 now c0 :
  inv s → asked s !! i = Some (ReqAccept caller id hash gb0 fp now) → validateDHParam gb0 = Some gb →
  chats s !! id = Some c0 → caller = mkCaller (Some (Some (ParticipantUserID c0))) (Some key) → hash = ParticipantAccessHash c0 →
  inv (perform i (AcceptChat id key gb fp) s).1 ∧ rely s (perform i (AcceptChat id key gb fp) s).1 ∧
  ∀ c, (perform i (AcceptChat id key gb fp) s).2 = inr c →
    chats (perform i (AcceptChat id key gb fp) s).1 !! id = Some c ∧ State c = Normal ∧ ParticipantAuthKeyID c = key ∧
    winner (perform i (AcceptChat id key gb fp) s).1 !! id = Some i.
Proof.
  intros HI Hask Hgb Hc -> ->. simpl. unfold AcceptSecretChat. rewrite Hc. pose proof (in_chats _ HI id c0 Hc) as HC. pose proof (co_state _ _ HC) as Hns.
  assert (Hsame : set_chats (chats s) s = s) by (by destruct s).
  destruct (State c0) eqn:Hst; [done| |rewrite Hsame; split_and!; [done|reflexivity|done]..].
  rewrite bool_decide_true by (by apply HC). simpl. destruct (evolves_accepted id c0 key gb fp HC Hst) as [He Hok]. set (c' := accepted key gb fp c0) in *.
  set (s' := set_winner id i (set_chats (<[id := c']> (chats s)) s)). assert (Hnw : winner s !! id = None).
  { apply eq_None_not_Some. intros [j Hj]. destruct (in_winner _ HI id j Hj) as [d [Hd Hr _]]. rewrite Hc in Hd. injection Hd as <-. rewrite Hst in Hr. simpl in Hr. lia. }
  assert (HR : rely s s').
  { split; [apply evolve_one; intros d Hd; by rewrite Hc in Hd; injection Hd as <-|by apply insert_subseteq|reflexivity..]. }
  split_and!; [|done|intros d [= <-]; by rewrite !lookup_insert_eq]. apply (inv_move s); try done; simpl; auto.
  - intros id' d [[<- <-]|[_ Hl]]%lookup_insert_Some; [done|]. by apply HI.
  - intros id' j [[<- <-]|[_ Hl]]%lookup_insert_Some; [right|by left]. exists c'. split; [apply lookup_insert_eq|done|]. exists gb0, now. by split.
  - intros id' d [[<- <-]|[Hne Hl]]%lookup_insert_Some Hn; [rewrite lookup_insert_eq; eauto|]. rewrite lookup_insert_ne by done. by apply (in_normal _ HI id' d).
  - by apply HI.
Qed.
(** A discard returns the chat it leaves behind. *)
Lemma discard_ok i id h s :
  inv s → inv (perform i (DiscardChat id h) s).1 ∧ rely s (perform i (DiscardChat id h) s).1 ∧
  ∀ c already, (perform i (DiscardChat id h) s).2 = inr (c, already) → chats (perform i (DiscardChat id h) s).1 !! id = Some c ∧ State c = Discarded.
Proof.
  intros HI. simpl. unfold DiscardSecretChat. assert (Hsame : set_chats (chats s) s = s) by (by destruct s).
  destruct (chats s !! id) as [c|] eqn:Hc; [|simpl; rewrite Hsame; split_and!; [done|reflexivity|done]]. unfold Terminal. case_bool_decide as Ht; simpl.
  - rewrite Hsame. split_and!; [done|reflexivity|]. by intros d b [= <- _].
  - destruct (evolves_discarded id c h (in_chats _ HI id c Hc) Ht) as [He Hok].
    assert (HR : rely s (set_chats (<[id := discarded h c]> (chats s)) s)) by (apply chats_move, evolve_one; intros d Hd; by rewrite Hc in Hd; injection Hd as <-).
    split_and!; [|done|intros d b [= <- _]; simpl; by rewrite lookup_insert_eq]. apply inv_chats; try done.
    + intros id' d [[<- <-]|[_ Hl]]%lookup_insert_Some; [done|]. by apply HI.
    + intros id' d [[<- <-]|[_ Hl]]%lookup_insert_Some; [done|]. by apply (in_normal _ HI id' d).
Qed.

(** Only the queue store changes. *)
Lemma queue_move s q :
  (∀ dev, queueOf dev (queue s) `prefix_of` queueOf dev q) → stateEvents (queue s) `prefix_of` stateEvents q → delivered (queue s) ⊆ delivered q → rely s (set_queue q s).
Proof. intros Hq He Hd. split; simpl; try done; [|reflexivity..]. intros id c Hc. exists c. split; [done|reflexivity]. Qed.
Lemma inv_queue s q :
  inv s → rely s (set_queue q s) → QueueOk q →
  (∀ dev m, m ∈ queueOf dev q → m ∈ queueOf dev (queue s) ∨ Justified s m) →
  (∀ e, e ∈ stateEvents q → e ∈ stateEvents (queue s) ∨ EventOk s e) → files q = files (queue s) → inv (set_queue q s).
Proof.
  intros HI HR HQ Hm He Hf. apply (inv_move s); try done; simpl; auto; try apply HI.
  - intros dev m Hin. destruct (Hm dev m Hin) as [?|?]; [by left|right]. by eapply Justified_stable.
  - rewrite Hf. auto.
Qed.

Lemma queueOf_insert dev l q dev' b c d e f g h :
  queueOf dev' (mkQueue (<[dev := l]> (byDevice q)) b c d e f g h) = if decide (dev' = dev) then l else queueOf dev' q.
Proof. unfold queueOf. simpl. case_decide; [subst; by rewrite lookup_insert_eq|by rewrite lookup_insert_ne]. Qed.
Lemma numbered_unique q dev m m' : QueueOk q → m ∈ queueOf dev q → m' ∈ queueOf dev q → Qts m = Qts m' → m = m'.
Proof.
  intros HQ [i Hi]%list_elem_of_lookup [j Hj]%list_elem_of_lookup He. destruct (qo_numbered _ HQ _ _ _ Hi) as [Hqi _]. destruct (qo_numbered _ HQ _ _ _ Hj) as [Hqj _].
  assert (i = j) as -> by lia. congruence.
Qed.
(** The message of a dedup entry is found again. *)
Lemma dedup_found q dev chat random n : QueueOk q → dedup q !! (dev, chat, random) = Some n →
  ∃ i x, list_find (λ x, Qts x = n) (queueOf dev q) = Some (i, x) ∧ x ∈ queueOf dev q ∧ ChatID x = chat ∧ m_RandomID x = random ∧ Qts x = n.
Proof.
  intros HQ (x & Hx & Hc & Hr & Hn)%(qo_dedup _ HQ). destruct (list_find_elem_of (λ x, Qts x = n) (queueOf dev q) x Hx Hn) as [[i y] Hf].
  exists i, y. pose proof Hf as (Hi & Hqy & _)%list_find_Some. assert (Hy : y ∈ queueOf dev q) by (by eapply list_elem_of_lookup_2).
  assert (y = x) as -> by (eapply numbered_unique; [done|done|done|congruence]). done.
Qed.
Definition stored (m : SecretChatMessage) (q : queueStore) : SecretChatMessage := set_qts (ReservedQts (ReceiverAuthKeyID m) q + 1) m.
(** Appending is a lookup or adds the next number to the device's queue. *)
Lemma append_cases m q : QueueOk q →
  (∃ x, AppendEncryptedMessage m q = (q, (x, true)) ∧ x ∈ queueOf (ReceiverAuthKeyID m) q ∧ ChatID x = ChatID m ∧ m_RandomID x = m_RandomID m) ∨
  (∃ q', AppendEncryptedMessage m q = (q', (stored m q, false)) ∧ QueueOk q' ∧ stateEvents q' = stateEvents q ∧ delivered q' = delivered q ∧ files q' = files q ∧
     ∀ dev, queueOf dev q' = if decide (dev = ReceiverAuthKeyID m) then queueOf dev q ++ [stored m q] else queueOf dev q).
Proof.
  intros HQ. unfold AppendEncryptedMessage. cbv zeta. fold (stored m q). set (dev := ReceiverAuthKeyID m).
  destruct (dedup q !! (dev, ChatID m, m_RandomID m)) as [n|] eqn:Hd.
  { left. destruct (dedup_found q dev _ _ n HQ Hd) as (i & x & -> & Hx & Hc & Hr & _). by exists x. }
  right. eexists. split; [done|]. split; [|split_and!; [done|done|done|intros dev'; rewrite queueOf_insert; by case_decide; subst]].
  split; simpl.
  - intros dev' i x. rewrite queueOf_insert. case_decide as Hde; [subst dev'|apply HQ]. intros [Hi|[Hge Hi]]%lookup_app_Some; [by apply (qo_numbered _ HQ dev)|].
    apply list_lookup_singleton_Some in Hi as [Hi <-]. simpl. rewrite (qo_reserved _ HQ). fold dev. split; [lia|done].
  - intros dev'. rewrite queueOf_insert. unfold ReservedQts. simpl. case_decide as Hde.
    + subst. rewrite lookup_insert_eq, length_app. simpl. change (default 0 (reserved q !! dev)) with (ReservedQts dev q). rewrite (qo_reserved _ HQ). lia.
    + rewrite lookup_insert_ne by done. apply HQ.
  - intros dev' chat random n. rewrite queueOf_insert. destruct (decide ((dev', chat, random) = (dev, ChatID m, m_RandomID m))) as [[= -> -> ->]|Hne].
    + rewrite lookup_insert_eq, decide_True by done. split.
      * intros [= <-]. exists (stored m q). split_and!; [|done..]. apply elem_of_app. right. by left.
      * intros (x & [Hx| ->%list_elem_of_singleton]%elem_of_app & Hc & Hr & Hn); [|by rewrite <-Hn].
        assert (Hin : dedup q !! (dev, ChatID m, m_RandomID m) = Some n) by (apply HQ; eauto). congruence.
    + rewrite lookup_insert_ne by (intros He; by apply Hne). rewrite (qo_dedup _ HQ). case_decide as Hde; [subst dev'|done]. split; [intros (x & ? & ?); exists x; split; [apply elem_of_app; by left|done]|].
      intros (x & [Hx| ->%list_elem_of_singleton]%elem_of_app & Hc & Hr & Hn); [by exists x|]. destruct Hne. simpl in Hc, Hr. by subst.
  - apply HQ.
  - apply HQ.
Qed.
Lemma append_ok i m s : inv s → Justified s (stored m (queue s)) →
  inv (perform i (AppendMessage m) s).1 ∧ rely s (perform i (AppendMessage m) s).1 ∧
  let r := (perform i (AppendMessage m) s).2 in
  r.1 ∈ queueOf (ReceiverAuthKeyID m) (queue (perform i (AppendMessage m) s).1) ∧ ChatID r.1 = ChatID m ∧ m_RandomID r.1 = m_RandomID m.
Proof.
  intros HI HJ. simpl. destruct (append_cases m (queue s) (in_queue _ HI)) as [(x & -> & Hx & Hc & Hr)|(q' & -> & HQ & He & Hd & Hf & Hq)]; simpl.
  { assert (set_queue (queue s) s = s) as -> by (by destruct s). split_and!; [done|reflexivity|done..]. }
  assert (HR : rely s (set_queue q' s)).
  { apply queue_move; [|by rewrite He|by rewrite Hd]. intros dev. rewrite Hq. case_decide; [by apply prefix_app_r|done]. }
  split_and!; [|done| |done..].
  - apply inv_queue; try done.
    + intros dev x. rewrite Hq. case_decide; [|auto]. intros [?| ->%list_elem_of_singleton]%elem_of_app; [by left|by right].
    + rewrite He. auto.
  - rewrite Hq, decide_True by done. apply elem_of_app. right. by left.
Qed.
Lemma event_ok i e s : inv s → EventOk s e → inv (perform i (AppendEvent e) s).1 ∧ rely s (perform i (AppendEvent e) s).1.
Proof.
  intros HI HE. simpl. assert (HR : rely s (set_queue (AppendStateEvent e (queue s)).1 s)) by (apply queue_move; simpl; [done|by apply prefix_app_r|done]).
  split; [|done]. pose proof (in_queue _ HI) as HQ. apply inv_queue; try done; simpl; [|auto|].
  - split; simpl; [apply HQ|apply HQ|apply HQ| |].
    + intros j x [Hj|[Hge Hj]]%lookup_app_Some; [by apply HQ|]. apply list_lookup_singleton_Some in Hj as [Hj <-]. simpl. rewrite (qo_next _ HQ). lia.
    + rewrite (qo_next _ HQ), length_app. simpl. lia.
  - intros x [?| ->%list_elem_of_singleton]%elem_of_app; [by left|by right].
Qed.
Lemma push_ok i t u s : inv s → PushOk s i t u → inv (perform i (Push t u) s).1 ∧ rely s (perform i (Push t u) s).1.
Proof.
  intros HI HP. simpl. set (s' := mkState _ _ _ _ _). assert (HR : rely s s').
  { split; simpl; try done; [|by apply prefix_app_r]. intros id c Hc. exists c. split; [done|reflexivity]. }
  split; [|done]. apply (inv_move s); try done; simpl; auto; try apply HI.
  intros i' t' u' [?|[= -> -> ->]%list_elem_of_singleton]%elem_of_app; [by left|right]. by eapply PushOk_stable.
Qed.
(** The calls that change neither chats, queues, events nor pushes. *)
Definition quiet (a : action) : bool :=
  match a with
  | GetChat _ | ListActive _ | ListSince _ _ _ | Reserved _ | Ack _ _ | ListEvents _ _ _ | MarkEvents _ _ | GetFile _ _ => true
  | _ => false
  end.
Lemma quiet_ok i a s : quiet a = true → inv s → inv (perform i a s).1 ∧ rely s (perform i a s).1.
Proof.
  intros Ha HI. destruct a; try done; simpl; try (split; [done|reflexivity]).
  - unfold AckEncryptedMessages. case_bool_decide; [|assert (set_queue (queue s) s = s) as -> by (by destruct s); split; [done|reflexivity]].
    assert (HR : rely s (set_queue (mkQueue (byDevice (queue s)) (reserved (queue s)) (<[dev := maxQts]> (confirmed (queue s))) (dedup (queue s)) (stateEvents (queue s)) (delivered (queue s)) (nextEventID (queue s)) (files (queue s))) s)) by (by apply queue_move).
    split; [|done]. apply inv_queue; try done; [|auto|auto]. destruct (in_queue _ HI). by split.
  - assert (HR : rely s (set_queue (MarkStateEventsDelivered dev ids (queue s)) s)) by (apply queue_move; simpl; [done|done|set_solver]).
    split; [|done]. apply inv_queue; try done; [|auto|auto]. destruct (in_queue _ HI). by split.
Qed.
Lemma put_ok i f s r : inv s → r ∈ asked s → Uploads r f → inv (perform i (PutFile f) s).1 ∧ rely s (perform i (PutFile f) s).1.
Proof.
  intros HI Hr Hu. simpl. assert (HR : rely s (set_queue (Secret.PutEncryptedFile f (queue s)) s)) by (by apply queue_move).
  split; [|done]. apply (inv_move s); try done; simpl; auto; try apply HI.
  - destruct (in_queue _ HI). by split.
  - intros id g [[<- <-]|[_ Hl]]%lookup_insert_Some; [right; eauto|by left].
Qed.
