(* ===== verification/SecretChatServe.v ===== *)
(** * The secret chat handlers under interference

    Every handler keeps the invariant at each of its calls, whatever other
    handlers do in between, and what it answers. *)

From S2P Require Import Prelude Threads SecretChat SecretChatRpc SecretChatInv.
Import Secret SecretRpc.

Notation WP := (wp perform inv rely).

(** A chat that was read from the store: an earlier version of what is there. *)
Definition Snapshot (s : state) (c : SecretChat) : Prop := ChatOk (ID c) c ∧ ∃ c', chats s !! ID c = Some c' ∧ Evolves c c'.
Lemma Snapshot_stable s s' c : rely s s' → Snapshot s c → Snapshot s' c.
Proof. intros HR [HC (c' & Hc & He)]. split; [done|]. destruct (re_chats _ _ HR _ _ Hc) as (c2 & Hc2 & He2). exists c2. split; [done|by etrans]. Qed.
Lemma snapshot_of s id c : inv s → chats s !! id = Some c → Snapshot s c ∧ ID c = id.
Proof. intros HI Hc. pose proof (in_chats _ HI id c Hc) as HC. pose proof (co_id _ _ HC) as Hid. subst id. split; [|done]. split; [done|]. exists c. split; [done|reflexivity]. Qed.
Lemma snapshot_key s c u : Snapshot s c → AuthKeyOf c u ≠ 0 → ∃ c', chats s !! ID c = Some c' ∧ AuthKeyOf c' u = AuthKeyOf c u.
Proof. intros [_ (c' & Hc & He)] Hk. exists c'. split; [done|]. by apply evolves_key. Qed.
Lemma peer_side id c u : ChatOk id c → PeerOf c u ≠ 0 → HasParticipant c u = true.
Proof.
  intros HC. unfold PeerOf, HasParticipant, side. pose proof (co_admin _ _ HC). pose proof (co_participant _ _ HC).
  destruct (decide (u = AdminUserID c)) as [->|Hne]; [intros _; rewrite (bool_decide_false (AdminUserID c = 0)) by done; by rewrite bool_decide_true|].
  rewrite (bool_decide_false (u = AdminUserID c)) by done. case_bool_decide; [|done]. subst. intros _. by rewrite bool_decide_false.
Qed.
Lemma snapshot_event s c u e :
  Snapshot s c → ev_ChatID e = ID c → TargetUserID e = u → (TargetAuthKeyID e ≠ 0 → TargetAuthKeyID e = AuthKeyOf c u) → EventOk s e.
Proof.
  intros HS Hid Hu Hk. destruct (decide (TargetAuthKeyID e = 0)) as [Hz|Hz].
  - destruct HS as [_ (c' & Hc & _)]. exists c'. rewrite Hid. split; [done|]. by intros [].
  - specialize (Hk Hz). destruct (snapshot_key s c u HS) as (c' & Hc & He); [congruence|]. exists c'. rewrite Hid, Hu. split; [done|]. congruence.
Qed.

Section rules.
Implicit Types (s : state) (i : nat).

Lemma wp_quiet i a (Q : result a → state → Prop) s :
  quiet a = true → (∀ s', rely s s' → inv s' → inv (perform i a s').1 → rely s' (perform i a s').1 → Q (perform i a s').2 (perform i a s').1) → WP i (call a) Q s.
Proof. intros Ha HQ s' HR HI. destruct (quiet_ok i a s' Ha HI) as [H1 H2]. split_and!; [done|done|by apply HQ]. Qed.
Lemma wp_get i id (Q : option SecretChat → state → Prop) s : (∀ s', rely s s' → inv s' → Q (chats s' !! id) s') → WP i (call (GetChat id)) Q s.
Proof. intros HQ. apply (wp_quiet i (GetChat id)); [done|]. intros s' HR HI _ _. by apply HQ. Qed.
Lemma wp_push i t u (Q : unit → state → Prop) s : PushOk s i t u → (∀ s', rely s s' → Q tt s') → WP i (call (Push t u)) Q s.
Proof.
  intros HP HQ s' HR HI. destruct (push_ok i t u s' HI) as [H1 H2]; [by eapply PushOk_stable|]. split_and!; [done|done|]. apply HQ. by etrans.
Qed.
Lemma wp_event i e (Q : Z → state → Prop) s : EventOk s e → (∀ n s', rely s s' → Q n s') → WP i (call (AppendEvent e)) Q s.
Proof.
  intros HE HQ s' HR HI. destruct (event_ok i e s' HI) as [H1 H2]; [by eapply EventOk_stable|]. split_and!; [done|done|]. apply HQ. by etrans.
Qed.
Lemma wp_record i id user key date (Q : unit → state → Prop) s :
  EventOk s (mkEvent 0 user key id EventEncryption 0 date) → (∀ s', rely s s' → Q tt s') → WP i (RecordEncryptionEvent id user key date) Q s.
Proof.
  intros HE HQ. unfold RecordEncryptionEvent. case_bool_decide; [apply HQ; reflexivity|]. apply wp_bind, wp_event; [done|]. intros n s' HR. by apply HQ.
Qed.
Lemma wp_recordRead i id user key maxDate date (Q : unit → state → Prop) s :
  EventOk s (mkEvent 0 user key id EventRead maxDate date) → (∀ s', rely s s' → Q tt s') → WP i (RecordReadEvent id user key maxDate date) Q s.
Proof.
  intros HE HQ. unfold RecordReadEvent. case_bool_decide; [apply HQ; reflexivity|]. apply wp_bind, wp_event; [done|]. intros n s' HR. by apply HQ.
Qed.
(** Pushing the view of a snapshot. *)
Lemma wp_pushChat i user key c now (Q : unit → state → Prop) s :
  Snapshot s c → (State c = Normal → if decide (key = 0) then Repeats s i (ID c) user else AuthKeyOf c user = key) →
  (∀ s', rely s s' → Q tt s') → WP i (pushUpdateEncryption user key c now) Q s.
Proof.
  intros HS Hok HQ. unfold pushUpdateEncryption. assert (Hv : ∀ t, (State c = Normal → PushOk s i t (UpdateEncryption (tgEncryptedChatForViewer c user) now)) →
      PushOk s i t (UpdateEncryption (tgEncryptedChatForViewer c user) now)).
  { intros t Ht. destruct (decide (State c = Normal)) as [Hn|Hn]; [by apply Ht|]. unfold tgEncryptedChatForViewer, Terminal. case_bool_decide; [done|].
    rewrite (bool_decide_false (State c = Normal)) by done. by destruct (IsAdmin c user). }
  case_bool_decide as Hk.
  - case_bool_decide; [apply HQ; reflexivity|]. apply wp_push; [|done]. apply Hv. intros Hn. specialize (Hok Hn). rewrite decide_True in Hok by done.
    unfold tgEncryptedChatForViewer, Terminal. by rewrite Hn.
  - apply wp_push; [|done]. apply Hv. intros Hn. specialize (Hok Hn). rewrite decide_False in Hok by done.
    unfold tgEncryptedChatForViewer, Terminal. rewrite Hn. simpl. destruct (snapshot_key s c user HS) as (c' & Hc & He); [congruence|]. exists c'. split_and!; [done|congruence|done].
Qed.

(** ** The service *)

Definition goodRequest (req : SecretChatRequest) : Prop := r_ParticipantUserID req ≠ r_AdminUserID req.
Definition Requests (c : SecretChat) (req : SecretChatRequest) : Prop :=
  AdminUserID c = r_AdminUserID req ∧ AdminAuthKeyID c = r_AdminAuthKeyID req ∧ ParticipantUserID c = r_ParticipantUserID req.
Lemma existing_ok req ga s o c : inv s → o = chats s !! r_RandomID req → existingRequest o req ga = inr c →
  Snapshot s c ∧ ID c = r_RandomID req ∧ Requests c req.
Proof.
  intros HI ->. unfold existingRequest. destruct (chats s !! r_RandomID req) as [d|] eqn:Hd; [|done]. destruct (_ && _) eqn:Hb; [|done]. intros [= ->].
  destruct (snapshot_of s _ c HI Hd) as [HS Hid]. split_and!; [done|done|]. unfold sameSecretChatRequest in Hb.
  repeat match goal with H : _ && _ = true |- _ => apply andb_true_iff in H as [? ?] end. by split_and!; eapply bool_decide_eq_true_1.
Qed.
Lemma wp_request i req rand1 rand2 (Q : error + SecretChat → state → Prop) s :
  goodRequest req → (∀ e s', rely s s' → Q (inl e) s') →
  (∀ c s', rely s s' → Snapshot s' c → ID c = r_RandomID req → Requests c req → Q (inr c) s') →
  WP i (RequestEncryption req rand1 rand2) Q s.
Proof.
  intros Hgood Herr Hok. unfold RequestEncryption. assert (Herr0 : ∀ e, Q (inl e) s) by (intros e; apply Herr; reflexivity).
  destruct (_ || _) eqn:Hz; [apply Herr0|]. apply orb_false_iff in Hz as [[Ha%bool_decide_eq_false Hp%bool_decide_eq_false]%orb_false_iff Hk%bool_decide_eq_false].
  case_bool_decide as Hr; [apply Herr0|]. destruct (validateDHParam (r_GA req)) as [ga|] eqn:Hga; [|apply Herr0].
  assert (Hread : ∀ s1, rely s s1 → WP i (o ← call (GetChat (r_RandomID req)); mret (existingRequest o req ga)) Q s1).
  { intros s1 HR1. apply wp_bind, wp_get. intros s2 HR2 HI2. apply wp_ret. destruct (existingRequest _ req ga) as [e|c] eqn:He; [apply Herr; by etrans|].
    destruct (existing_ok req ga s2 _ c HI2 eq_refl He) as (H1 & H2 & H3). apply Hok; [by etrans|done..]. }
  apply wp_bind, wp_get. intros s1 HR1 HI1. destruct (chats s1 !! r_RandomID req) as [d|] eqn:Hd.
  { apply wp_ret. destruct (existingRequest _ req ga) as [e|c] eqn:He; [by apply Herr|].
    destruct (existing_ok req ga s1 _ c HI1 (eq_sym Hd) He) as (H1 & H2 & H3). by apply Hok. }
  destruct (randomAccessHash rand1) as [h1|]; [|by apply Herr]. destruct (randomAccessHash rand2) as [h2|]; [|by apply Herr].
  set (chat := mkChat _ _ _ _ _ _ _ _ _ _ _ _ _ _ _ _). assert (HC : ChatOk (ID chat) chat) by (split; simpl; eauto; by intros ->).
  apply wp_bind, (wp_call perform inv rely i (CreateChat chat)). intros s2 HR2 HI2. destruct (create_ok i chat s2 HI2 eq_refl HC) as [HI3 HR3]. split_and!; [done|done|].
  assert (Hsnap : (perform i (CreateChat chat) s2).2 = None → Snapshot (perform i (CreateChat chat) s2).1 chat).
  { simpl. unfold CreateSecretChat. simpl. rewrite (bool_decide_false (r_RandomID req = 0)), (bool_decide_true (r_RandomID req = r_RandomID req)) by done. simpl.
    destruct (chats s2 !! r_RandomID req) eqn:Hl; [done|]. intros _. split; [done|]. exists chat. simpl. rewrite lookup_insert_eq. split; [done|reflexivity]. }
  assert (HR13 : rely s (perform i (CreateChat chat) s2).1) by (do 2 (etrans; [eassumption|]); done).
  destruct (perform i (CreateChat chat) s2) as [s3 [e|]]; cbn [fst snd] in *; cbn beta iota.
  - case_bool_decide; [by apply Hread|by apply Herr].
  - apply Hok; [done|by apply Hsnap|done|done].
Qed.
Lemma wp_accept i id viewer key hash gb0 fp now (Q : error + SecretChat → state → Prop) s :
  asked s !! i = Some (ReqAccept (mkCaller (Some (Some viewer)) (Some key)) id hash gb0 fp now) →
  (∀ e s', rely s s' → Q (inl e) s') →
  (∀ c s', rely s s' → Snapshot s' c → ID c = id → ParticipantUserID c = viewer → ParticipantAuthKeyID c = key → State c = Normal → winner s' !! id = Some i → Q (inr c) s') →
  WP i (AcceptEncryption id viewer key hash gb0 fp) Q s.
Proof.
  intros Hask Herr Hok. unfold AcceptEncryption. destruct (validateDHParam gb0) as [gb|] eqn:Hgb; [|apply Herr; reflexivity].
  apply wp_bind, wp_get. intros s1 HR1 HI1. destruct (chats s1 !! id) as [c|] eqn:Hc; [|by apply Herr].
  destruct (_ || _) eqn:Hb; [by apply Herr|]. apply orb_false_iff in Hb as [Hv%negb_false_iff%bool_decide_eq_true Hh%negb_false_iff%bool_decide_eq_true].
  assert (Hacc : WP i (call (AcceptChat id key gb fp)) Q s1).
  { intros s2 HR2 HI2. destruct (re_chats _ _ HR2 _ _ Hc) as (c2 & Hc2 & He). destruct (evolves_fields _ _ He) as (_ & Hp & _ & Hph & _).
    pose proof (rely_asked s s2 i _ (transitivity HR1 HR2) Hask) as Hask2.
    destruct (accept_ok i id key gb fp s2 _ hash gb0 now c2 HI2 Hask2 Hgb Hc2) as (HI3 & HR3 & Hpost); [by rewrite Hp, Hv|congruence|]. split_and!; [done|done|].
    assert (HR : rely s (perform i (AcceptChat id key gb fp) s2).1) by (etrans; [exact HR1|etrans; [exact HR2|exact HR3]]).
    destruct (perform i (AcceptChat id key gb fp) s2) as [s3 [e|d]]; cbn [fst snd] in *; [by apply Herr|]. destruct (Hpost d eq_refl) as (Hd & Hn & Hkey & Hw).
    destruct (snapshot_of s3 id d HI3 Hd) as [HS Hid]. apply Hok; try done. destruct (re_chats _ _ HR3 _ _ Hc2) as (d' & Hd' & He').
    assert (d' = d) as -> by congruence. destruct (evolves_fields _ _ He') as (_ & Hp' & _). congruence. }
  destruct (State c); [done|done|by apply Herr|by apply Herr].
Qed.
Lemma wp_discardChat i id h (Q : error + SecretChat * bool → state → Prop) s :
  (∀ e s', rely s s' → Q (inl e) s') → (∀ c b s', rely s s' → Snapshot s' c → ID c = id → State c = Discarded → Q (inr (c, b)) s') →
  WP i (call (DiscardChat id h)) Q s.
Proof.
  intros Herr Hok s1 HR1 HI1. destruct (discard_ok i id h s1 HI1) as (HI2 & HR2 & Hpost). split_and!; [done|done|].
  assert (HR : rely s (perform i (DiscardChat id h) s1).1) by (by etrans).
  destruct (perform i (DiscardChat id h) s1) as [s2 [e|[c b]]]; cbn [fst snd] in *; [by apply Herr|]. destruct (Hpost c b eq_refl) as [Hc Hd].
  destruct (snapshot_of s2 id c HI2 Hc) as [HS Hid]. by apply Hok.
Qed.
Lemma wp_discard i id viewer key h (Q : error + SecretChat * bool → state → Prop) s :
  (∀ e s', rely s s' → Q (inl e) s') → (∀ c b s', rely s s' → Snapshot s' c → ID c = id → State c = Discarded → Q (inr (c, b)) s') →
  WP i (DiscardEncryption id viewer key h) Q s.
Proof.
  intros Herr Hok. unfold DiscardEncryption. apply wp_bind, wp_get. intros s1 HR1 HI1. destruct (chats s1 !! id) as [c|]; [|by apply Herr].
  destruct (mayDiscard c viewer key); [|by apply Herr]. apply wp_discardChat; [intros; apply Herr; by etrans|intros; apply Hok; [by etrans|done..]].
Qed.
Definition AllDiscarded s (cs : list SecretChat) : Prop := ∀ c, c ∈ cs → Snapshot s c ∧ State c = Discarded.
Lemma wp_discardAll i cs (Q : list SecretChat → state → Prop) s :
  (∀ ds s', rely s s' → AllDiscarded s' ds → Q ds s') → WP i (discardAll cs) Q s.
Proof.
  revert s Q. induction cs as [|c cs IH]; intros s Q HQ; cbn [discardAll]; [apply HQ; [reflexivity|by intros d ?%elem_of_nil]|].
  apply wp_bind, wp_discardChat.
  - intros e s1 HR1. case_bool_decide; [|apply HQ; [done|by intros d ?%elem_of_nil]]. apply IH. intros ds s2 HR2 Hds. apply HQ; [by etrans|done].
  - intros d b s1 HR1 HS Hid Hd. apply wp_bind, IH. intros ds s2 HR2 Hds. apply wp_ret, HQ; [by etrans|]. destruct b; [done|].
    intros x [->|Hx]%elem_of_cons; [|by apply Hds]. split; [by eapply Snapshot_stable|done].
Qed.

Lemma maySend_spec c viewer key hash : maySend c viewer key hash = true ↔
  HasParticipant c viewer = true ∧ key ≠ 0 ∧ AuthKeyOf c viewer = key ∧ AccessHashFor c viewer = hash ∧ State c = Normal.
Proof. unfold maySend. rewrite !andb_true_iff, negb_true_iff, bool_decide_eq_false, !bool_decide_eq_true. tauto. Qed.
(** A delivery [d] that request [r] asks for. *)
Definition AskedFor (s : state) (r : request) (id user key hash : Z) (d : SecretMessageDelivery) : Prop :=
  ∀ m, ChatID m = id → m_RandomID m = d_RandomID d → m_Date m = d_Date d → IsService m = d_IsService d → Bytes m = d_Bytes d → File m = d_File d → SentBy s r user key hash m.
Lemma wp_sendEncrypted i r id user key hash d (Q : error + SecretChat * SecretChatMessage → state → Prop) s :
  r ∈ asked s → AskedFor s r id user key hash d → (∀ e s', rely s s' → Q (inl e) s') →
  (∀ c m s', rely s s' → m ∈ queueOf (ReceiverAuthKeyID m) (queue s') → ChatID m = id → m_RandomID m = d_RandomID d → Q (inr (c, m)) s') →
  WP i (SendEncrypted id user key hash d) Q s.
Proof.
  intros Hr Hask Herr Hok. unfold SendEncrypted. apply wp_bind, wp_get. intros s1 HR1 HI1. destruct (chats s1 !! id) as [c|] eqn:Hc; [|by apply Herr].
  destruct (maySend c user key hash) eqn:Hm; cbn [negb]; [|by apply Herr]. apply maySend_spec in Hm as (Hs & Hz & Hk & Hh & Hn).
  pose proof (in_chats _ HI1 _ _ Hc) as HC. rewrite (receiver_key _ c user HC Hs). destruct (_ || _) eqn:Hb; [by apply Herr|].
  apply orb_false_iff in Hb as [_ Hrk%bool_decide_eq_false]. destruct (peer_key _ c user HC Hs) as (Hp & Hpk & _). set (m := mkMessage _ _ _ _ _ _ _ _ _).
  assert (HJ : ∀ n, Justified s1 (set_qts n m)).
  { intros n. exists r, c, user, key. split; try done; simpl; [by eapply rely_asked_in|rewrite Hh; by eapply (SentBy_stable s s1), Hask|rewrite Hn; simpl; lia]. }
  apply wp_bind, (wp_call perform inv rely i (AppendMessage m)). intros s2 HR2 HI2. destruct (append_ok i m s2 HI2) as (HI3 & HR3 & Hin & Hci & Hri); [eapply Justified_stable; [exact HR2|apply HJ]|].
  split_and!; [done|done|]. assert (HR : rely s (perform i (AppendMessage m) s2).1) by (etrans; [exact HR1|etrans; [exact HR2|exact HR3]]).
  destruct (perform i (AppendMessage m) s2) as [s3 [x b]]. cbn [fst snd] in *. cbn beta iota. apply wp_ret. apply Hok; try done. pose proof Hin as [j Hj]%list_elem_of_lookup.
  destruct (qo_numbered _ (in_queue _ HI3) _ _ _ Hj) as [_ ->]. done.
Qed.

(** ** The handlers *)

Lemma wp_withDevice i c f (Q : response → state → Prop) s :
  (∀ e, Q (Failed e) s) → (∀ u k, c = mkCaller (Some (Some u)) (Some k) → WP i (f u k) Q s) → WP i (withDevice c f) Q s.
Proof. intros Herr Hf. destruct c as [[[u|]|] [k|]]; unfold withDevice, withUser; simpl; try apply Herr. by apply Hf. Qed.
Lemma wp_withUser i c f (Q : response → state → Prop) s : (∀ e, Q (Failed e) s) → (∀ u, WP i (f u) Q s) → WP i (withUser c f) Q s.
Proof. intros Herr Hf. destruct c as [[[u|]|] k]; unfold withUser; simpl; try apply Herr. by apply Hf. Qed.

Lemma wp_onRequest i c peer blocked random ga rand1 rand2 now s :
  asked s !! i = Some (ReqRequest c peer blocked random ga rand1 rand2 now) →
  WP i (onMessagesRequestEncryption c peer blocked random ga rand1 rand2 now) (λ _ _, True) s.
Proof.
  intros Hask. unfold onMessagesRequestEncryption. destruct (_ || _); [done|]. apply wp_withDevice; [done|]. intros u k Hc.
  destruct peer as [[[p bot]|]|]; [|done|done]. destruct (_ || _) eqn:Hb; [done|]. destruct blocked as [[]|]; [done| |done].
  apply orb_false_iff in Hb as [[_ Hp%bool_decide_eq_false]%orb_false_iff ->]. apply wp_bind, wp_request; [done|done|].
  intros chat s1 HR1 HS Hid (Ha & Hk & Hpc). apply wp_bind, wp_record; [by apply (snapshot_event s1 chat (ParticipantUserID chat))|]. intros s2 HR2.
  pose proof (Snapshot_stable _ _ _ HR2 HS) as HS2. apply wp_bind, wp_pushChat; [done| |done]. intros Hn. rewrite decide_True by done.
  destruct HS2 as [_ (chat' & Hc' & He)]. pose proof (ev_rank _ _ He) as Hrk. rewrite Hn in Hrk. destruct (evolves_fields _ _ He) as (Ha' & Hp' & _ & _ & Hk' & _).
  exists chat', ga, rand1, rand2, now. split_and!; [done|done|done|]. rewrite Ha', Hk', Hpc, Hid, Ha, Hk. simpl.
  eapply rely_asked; [exact (transitivity HR1 HR2)|]. by rewrite Hask, Hc.
Qed.
Lemma wp_onAccept i c id hash gb fp now s :
  asked s !! i = Some (ReqAccept c id hash gb fp now) →
  WP i (onMessagesAcceptEncryption c id hash gb fp now) (λ x s', match x with ChatAnswer _ => winner s' !! id = Some i | _ => True end) s.
Proof.
  intros Hask. unfold onMessagesAcceptEncryption. apply wp_withDevice; [done|]. intros u k ->. apply wp_bind. eapply wp_accept; [exact Hask|done|].
  intros chat s1 HR1 HS Hid Hu Hk Hn Hw. apply wp_bind, wp_record.
  { apply (snapshot_event s1 chat (AdminUserID chat)); try done. intros _. simpl. unfold AuthKeyOf, side. by rewrite bool_decide_true. }
  intros s2 HR2. apply wp_bind, wp_record; [apply (snapshot_event s2 chat (ParticipantUserID chat)); [by eapply Snapshot_stable|done..]|]. intros s3 HR3.
  pose proof (co_adminKey _ _ (proj1 HS)) as Hak. assert (HR13 : rely s1 s3) by (by etrans). apply wp_bind, wp_pushChat; [by eapply Snapshot_stable| |].
  { intros _. rewrite decide_False by done. unfold AuthKeyOf, side. by rewrite bool_decide_true. }
  intros s4 HR4. apply wp_bind. unfold pushAcceptedLoserDiscarded.
  assert (Hfin : ∀ s5, rely s4 s5 → winner s5 !! id = Some i).
  { intros s5 HR5. eapply lookup_weaken; [exact Hw|]. apply re_winner. etrans; [exact HR13|]. by etrans. }
  destruct (_ || _); [apply wp_ret, wp_ret, Hfin; reflexivity|]. apply wp_push; [done|]. intros s5 HR5. by apply wp_ret, Hfin.
Qed.
Lemma wp_notify i c u now (Q : unit → state → Prop) s :
  Snapshot s c → State c = Discarded → (∀ s', rely s s' → Q tt s') → WP i (notifyDiscarded c u now) Q s.
Proof.
  intros HS Hd HQ. unfold notifyDiscarded. case_bool_decide as Hp; [apply HQ; reflexivity|]. pose proof (proj1 HS) as HC.
  destruct (peer_key _ c u HC (peer_side _ c u HC Hp)) as (_ & Hk & _). apply wp_bind, wp_record; [by apply (snapshot_event s c (PeerOf c u))|].
  intros s1 HR1. apply wp_pushChat; [by eapply Snapshot_stable|congruence|]. intros s2 HR2. apply HQ. by etrans.
Qed.
Lemma wp_onDiscard i c id h now s : WP i (onMessagesDiscardEncryption c id h now) (λ _ _, True) s.
Proof.
  unfold onMessagesDiscardEncryption. apply wp_withDevice; [done|]. intros u k ->. apply wp_bind, wp_discard; [done|].
  intros chat b s1 HR1 HS Hid Hd. apply wp_bind. destruct b; [done|]. by apply wp_notify.
Qed.
Lemma wp_notifyAll i cs u now (Q : unit → state → Prop) s : AllDiscarded s cs → (∀ s', rely s s' → Q tt s') → WP i (notifyAll cs u now) Q s.
Proof.
  revert s. induction cs as [|c cs IH]; intros s Hcs HQ; cbn [notifyAll]; [apply HQ; reflexivity|]. destruct (Hcs c) as [HS Hd]; [by left|].
  apply wp_bind, wp_notify; [done|done|]. intros s1 HR1. apply IH; [|intros s2 HR2; apply HQ; by etrans].
  intros d Hin. destruct (Hcs d) as [? ?]; [by right|]. split; [by eapply Snapshot_stable|done].
Qed.
Lemma wp_onLogout i key owner now s : WP i (handle (ReqLogout key owner now)) (λ _ _, True) s.
Proof.
  cbn [handle]. apply wp_bind. unfold discardSecretChatsForAuthKey. destruct (_ || _); [done|]. apply wp_bind. unfold DiscardForAuthKey. case_bool_decide.
  - apply wp_ret, wp_notifyAll; [by intros c ?%elem_of_nil|done].
  - apply wp_bind, (wp_quiet i (ListActive key)); [done|]. intros s1 HR1 HI1 _ _. apply wp_discardAll. intros ds s2 HR2 Hds. by apply wp_notifyAll.
Qed.
Lemma wp_sendAndPush i r id user key hash d answer (Q : response → state → Prop) s :
  r ∈ asked s → AskedFor s r id user key hash d → (∀ e s', rely s s' → Q (Failed e) s') →
  (∀ m s', rely s s' → m ∈ queueOf (ReceiverAuthKeyID m) (queue s') → ChatID m = id → m_RandomID m = d_RandomID d → Q (answer m) s') →
  WP i (sendAndPush id user key hash d answer) Q s.
Proof.
  intros Hr Hask Herr Hok. unfold sendAndPush. apply wp_bind. eapply wp_sendEncrypted; [exact Hr|exact Hask|intros e s' HR; by apply Herr|].
  intros c m s1 HR1 Hm Hc Hrnd. apply wp_bind. unfold pushEncryptedNewMessage. destruct (_ || _); [by apply wp_ret, wp_ret, Hok|].
  apply wp_push; [by exists (ReceiverUserID m), (ReceiverAuthKeyID m), m|]. intros s2 HR2. apply wp_ret, Hok; [by etrans|by eapply rely_queue_in|done|done].
Qed.
Lemma wp_onSend i c id hash random data svc now s :
  asked s !! i = Some (ReqSend c id hash random data svc now) →
  WP i (sendEncryptedCommon c id hash random data svc now)
    (λ x s', match x with SentAnswer _ => ∃ dev m, m ∈ queueOf dev (queue s') ∧ ChatID m = id ∧ m_RandomID m = random | _ => True end) s.
Proof.
  intros Hask. unfold sendEncryptedCommon. destruct (tooLong data); [done|]. apply wp_withDevice; [done|]. intros u k ->.
  eapply wp_sendAndPush; [by eapply list_elem_of_lookup_2| |done|].
  - intros m <- Hr Hd Hs Hb Hf. simpl in *. by rewrite Hr, Hd, Hs, Hb.
  - intros m s1 HR1 Hm Hc Hr. by exists (ReceiverAuthKeyID m), m.
Qed.
Definition Bound (s : state) (c : SecretChat) (user : Z) (dev : option Z) : Prop :=
  Snapshot s c ∧ State c = Normal ∧ HasParticipant c user = true ∧ dev = Some (AuthKeyOf c user).
Lemma wp_resolve i user dev id hash (Q : option SecretChat → state → Prop) s :
  (∀ s', rely s s' → Q None s') → (∀ c s', rely s s' → Bound s' c user dev → ID c = id → Q (Some c) s') → WP i (resolveSecretChatPeer user dev id hash) Q s.
Proof.
  intros Hn Hs. unfold resolveSecretChatPeer. apply wp_bind, wp_get. intros s1 HR1 HI1. apply wp_ret. destruct (chats s1 !! id) as [c|] eqn:Hc; [|by apply Hn].
  destruct dev as [key|]; [|by apply Hn]. destruct (_ && _) eqn:Hb; [|by apply Hn].
  apply andb_true_iff in Hb as [[[Hst%bool_decide_eq_true Hp]%andb_true_iff Hk%bool_decide_eq_true]%andb_true_iff _].
  destruct (snapshot_of s1 id c HI1 Hc) as [HS Hid]. apply Hs; [done| |done]. split_and!; [done|done|done|by rewrite Hk].
Qed.
Lemma wp_file i r file (Q : option (option EncryptedFileRef) → state → Prop) s :
  r ∈ asked s → (∀ f, file = Uploaded (Some f) → Uploads r f) → (∀ s', rely s s' → Q None s') →
  (∀ f s', rely s s' → FileAsked s' file f → Q (Some f) s') → WP i (resolveInputEncryptedFile file) Q s.
Proof.
  intros Hr Hu HN HQ. destruct file as [|[f|]|id hash|]; cbn [resolveInputEncryptedFile].
  - by apply wp_ret, HQ.
  - apply wp_bind. unfold PutEncryptedFile. case_bool_decide; [by apply wp_ret, wp_ret, HQ|].
    apply (wp_call perform inv rely i (PutFile f)). intros s1 HR1 HI1. destruct (put_ok i f s1 r HI1) as [HI2 HR2]; [by eapply rely_asked_in|by apply Hu|].
    split_and!; [done|done|]. apply wp_ret, HQ; [by etrans|done].
  - by apply wp_ret, HN.
  - apply wp_bind, (wp_quiet i (GetFile id hash)); [done|]. intros s1 HR1 HI1 _ _. apply wp_ret. simpl. unfold GetEncryptedFile.
    destruct (files (queue s1) !! id) as [f|] eqn:Hf; simpl; [|by apply HN]. case_bool_decide as Hh; [|by apply HN]. apply HQ; [done|].
    destruct (in_files _ HI1 id f Hf) as (Hid & r' & Hr' & Hu'). by exists f, r'.
  - by apply wp_ret, HN.
Qed.
Lemma wp_onSendFile i c id hash random data file now s :
  asked s !! i = Some (ReqSendFile c id hash random data file now) → WP i (onMessagesSendEncryptedFile c id hash random data file now) (λ _ _, True) s.
Proof.
  intros Hask. unfold onMessagesSendEncryptedFile. destruct (tooLong data); [done|]. apply wp_withDevice; [done|]. intros u k ->.
  apply wp_bind, wp_resolve; [done|]. intros chat s1 HR1 _ _. pose proof (rely_asked_in _ _ _ HR1 (list_elem_of_lookup_2 _ _ _ Hask)) as Hr1.
  apply wp_bind. eapply wp_file; [exact Hr1|by intros f ->|done|]. intros f s2 HR2 Hfa.
  eapply wp_sendAndPush; [by eapply rely_asked_in| |done|done].
  intros m <- Hr Hd Hs Hb Hf. simpl in *. by rewrite Hr, Hd, Hs, Hb, Hf.
Qed.
Lemma wp_onUpload i c id hash file s : ReqUploadFile c id hash file ∈ asked s → WP i (onMessagesUploadEncryptedFile c id hash file) (λ _ _, True) s.
Proof.
  intros Hr. unfold onMessagesUploadEncryptedFile. apply wp_withUser; [done|]. intros u. apply wp_bind, wp_resolve; [done|]. intros chat s1 HR1 _ _.
  apply wp_bind. eapply wp_file; [by eapply rely_asked_in|by intros f ->|done..].
Qed.
Lemma wp_peerUpdate i user key u (Q : unit → state → Prop) s :
  (∀ s i t, PushOk s i t u) → (∀ s', rely s s' → Q tt s') → WP i (pushEncryptedPeerUpdate user key u) Q s.
Proof. intros Hu HQ. unfold pushEncryptedPeerUpdate. destruct (_ || _); [apply HQ; reflexivity|]. by apply wp_push. Qed.
Lemma wp_onRead i c id hash maxDate now s : WP i (onMessagesReadEncryptedHistory c id hash maxDate now) (λ _ _, True) s.
Proof.
  unfold onMessagesReadEncryptedHistory. apply wp_withUser; [done|]. intros u. destruct (_ || _); [done|]. apply wp_bind, wp_resolve; [done|].
  intros chat s1 HR1 (HS & Hn & Hp & _) Hid. destruct (peer_key _ chat u (proj1 HS) Hp) as (_ & Hk & _).
  apply wp_bind, wp_recordRead; [by apply (snapshot_event s1 chat (PeerOf chat u))|]. intros s2 HR2. by apply wp_bind, wp_peerUpdate.
Qed.
Lemma wp_onTyping i c id hash typing now s : WP i (onMessagesSetEncryptedTyping c id hash typing now) (λ _ _, True) s.
Proof.
  unfold onMessagesSetEncryptedTyping. apply wp_withUser; [done|]. intros u. apply wp_bind, wp_resolve; [done|]. intros chat s1 HR1 _ _.
  apply wp_bind. destruct typing; [by apply wp_peerUpdate|done].
Qed.

(** ** Catching up *)

(** An established view in a batch of updates belongs to the device's chat. *)
Definition Confidential (s : state) (u dev : Z) (us : list update) : Prop :=
  ∀ id h d a p g f date, UpdateEncryption (ViewChat id h d a p g f) date ∈ us → ∃ c, chats s !! id = Some c ∧ AuthKeyOf c u = dev.
Lemma Confidential_stable s s' u dev us : dev ≠ 0 → rely s s' → Confidential s u dev us → Confidential s' u dev us.
Proof.
  intros Hz HR HC id h d a p g f date Hin. destruct (HC _ _ _ _ _ _ _ _ Hin) as (c & Hc & Hk). destruct (re_chats _ _ HR _ _ Hc) as (c' & Hc' & He).
  exists c'. split; [done|]. rewrite (evolves_key c c' u He); congruence.
Qed.
Lemma wp_rebuild i u dev evs seen (Q : list update * list Z * list Z → state → Prop) s :
  dev ≠ 0 → (∀ e, e ∈ evs → EventOk s e ∧ TargetUserID e = u ∧ (TargetAuthKeyID e = 0 ∨ TargetAuthKeyID e = dev)) →
  (∀ us ps ids s', rely s s' → Confidential s' u dev us → Q (us, ps, ids) s') → WP i (rebuild u dev evs seen) Q s.
Proof.
  intros Hz. revert seen s Q. induction evs as [|e evs IH]; intros seen s Q Hevs HQ; cbn [rebuild].
  { apply HQ; [reflexivity|]. by intros ? ? ? ? ? ? ? ? ?%elem_of_nil. }
  destruct (Hevs e) as (He & Hu & Ht); [by left|].
  assert (Hrest : ∀ s1, rely s s1 → ∀ e', e' ∈ evs → EventOk s1 e' ∧ TargetUserID e' = u ∧ (TargetAuthKeyID e' = 0 ∨ TargetAuthKeyID e' = dev)).
  { intros s1 HR1 e' Hin. destruct (Hevs e') as (? & ? & ?); [by right|]. split; [by eapply EventOk_stable|done]. }
  destruct (Type_ e).
  - apply wp_bind, wp_get. intros s1 HR1 HI1. destruct (chats s1 !! ev_ChatID e) as [c|] eqn:Hc.
    2: { apply IH; [by apply Hrest|]. intros us ps ids s2 HR2 HC. apply HQ; [by etrans|done]. }
    destruct (snapshot_of s1 _ c HI1 Hc) as [HS Hid]. case_bool_decide.
    { apply wp_bind, IH; [by apply Hrest|]. intros us ps ids s2 HR2 HC. apply wp_ret, HQ; [by etrans|done]. }
    destruct (_ && _ && _) eqn:Hskip.
    { apply wp_bind, IH; [by apply Hrest|]. intros us ps ids s2 HR2 HC. apply wp_ret, HQ; [by etrans|done]. }
    cbv zeta. apply wp_bind, IH; [by apply Hrest|]. intros us ps ids s2 HR2 HC. apply wp_ret, HQ; [by etrans|].
    intros id h d a p g f date [Hin|Hin]%elem_of_cons; [|by eapply HC]. injection Hin as Hin _.
    destruct (bool_decide (TargetAuthKeyID e = 0) && bool_decide (State c = Normal)) eqn:Hacc; [done|].
    unfold tgEncryptedChatForViewer, Terminal in Hin. case_bool_decide; [done|]. case_bool_decide as Hn; [|by destruct (IsAdmin c u)].
    injection Hin as -> _ _ _ _ _ _. rewrite andb_true_r in Hacc. apply bool_decide_eq_false in Hacc. destruct Ht as [?|Ht]; [done|].
    destruct (EventOk_stable s s1 e HR1 He) as (c1 & Hc1 & Hk1). assert (c1 = c) as -> by congruence. specialize (Hk1 Hacc). rewrite Hu, Ht in Hk1.
    destruct (snapshot_key s2 c u (Snapshot_stable _ _ _ HR2 HS)) as (c2 & Hc2 & Hk2); [congruence|]. exists c2. split; [done|congruence].
  - apply wp_bind, IH; [apply Hrest; reflexivity|]. intros us ps ids s2 HR2 HC. apply wp_ret, HQ; [done|].
    intros id h d a p g f date [?|Hin]%elem_of_cons; [done|by eapply HC].
Qed.
Lemma listed_events s u dev limit e :
  inv s → e ∈ ListUndeliveredStateEvents u dev limit (queue s) → EventOk s e ∧ TargetUserID e = u ∧ (TargetAuthKeyID e = 0 ∨ TargetAuthKeyID e = dev).
Proof.
  intros HI Hin. unfold ListUndeliveredStateEvents in Hin. apply elem_of_take, list_elem_of_filter in Hin as [(Hu & Ht & _) Hin].
  split; [by apply HI|done].
Qed.
Lemma wp_onStateUpdates i u dev s :
  WP i (encryptedStateUpdates u dev) (λ x s', match x, dev with StateUpdates us _ _ _, Some d => us ≠ [] → d ≠ 0 ∧ Confidential s' u d us | _, _ => True end) s.
Proof.
  unfold encryptedStateUpdates. destruct dev as [dev|]; [|done]. apply wp_bind. unfold ListStateEvents. destruct (_ || _) eqn:Hz.
  { apply wp_ret. simpl. done. }
  apply orb_false_iff in Hz as [_ Hz%bool_decide_eq_false]. apply (wp_quiet i (ListEvents u dev (encryptedDifferencePageSize + 1))); [done|].
  intros s1 HR1 HI1 _ _. cbv zeta. apply wp_bind, wp_rebuild; [done| |intros us ps ids s2 HR2 HC; apply wp_ret; by intros _].
  intros e Hin. apply (listed_events s1 u dev (encryptedDifferencePageSize + 1) e HI1). case_bool_decide; [|done].
  by apply elem_of_take in Hin.
Qed.
End rules.
