(* ===== verification/SecretChatProps.v ===== *)
(** * What secret chats promise

    Over every interleaving of handlers on the in-memory stores: the life of a
    chat, where its messages and its key material go, and complete delivery to
    the receiving device. *)

From S2P Require Import Prelude Threads SecretChat SecretChatRpc SecretChatInv SecretChatServe.
Import Secret SecretRpc.

(** ** Runs *)

Definition run (ls : list (label request)) : world (result := result) := runs perform handle ask ls (mkWorld start []).
Definition resume (ls : list (label request)) (w : world (result := result)) : world (result := result) := runs perform handle ask ls w.

(** What the answer to a request says of the stores. *)
Definition Answered (i : nat) (r : request) (x : response) (s : state) : Prop :=
  match r, x with
  | ReqAccept _ id _ _ _ _, ChatAnswer _ => winner s !! id = Some i
  | ReqStateUpdates u (Some dev), StateUpdates us _ _ _ => us ≠ [] → dev ≠ 0 ∧ Confidential s u dev us
  | ReqSend _ id _ random _ _ _, SentAnswer _ => ∃ dev m, m ∈ queueOf dev (queue s) ∧ ChatID m = id ∧ m_RandomID m = random
  | _, _ => True
  end.
Lemma Answered_stable i r x : Stable rely (Answered i r x).
Proof.
  intros s s' HR. destruct r; try done; simpl.
  - destruct x; try done. intros Hw. eapply lookup_weaken; [exact Hw|apply HR].
  - destruct x; try done. intros (d & m & Hm & ?). exists d, m. split; [by eapply rely_queue_in|done].
  - destruct dev as [dev|]; [|done]. destruct x; try done. intros Hc Hne. destruct (Hc Hne). split; [done|by eapply Confidential_stable].
Qed.
Lemma handle_ok i r s : inv s → asked s !! i = Some r → WP i (handle r) (Answered i r) s.
Proof.
  intros HI Hask. pose proof (list_elem_of_lookup_2 _ _ _ Hask) as Hin. destruct r; cbn [handle].
  - eapply wp_mono; [apply _| |by apply wp_onRequest]. done.
  - eapply wp_mono; [apply _| |by apply (wp_onAccept i c id hash gb fp now)]. intros x s' _. by destruct x.
  - eapply wp_mono; [apply _| |by apply wp_onDiscard]. done.
  - eapply wp_mono; [apply _| |by apply wp_onSend]. intros x s' _. by destruct x.
  - eapply wp_mono; [apply _| |by apply wp_onSendFile]. done.
  - eapply wp_mono; [apply _| |by apply wp_onUpload]. done.
  - apply wp_withDevice; [done|]. intros u k _. apply wp_bind. unfold AckQueue. destruct (_ || _); [done|]. by apply (wp_quiet i (Ack k maxQts)).
  - eapply wp_mono; [apply _| |by apply wp_onRead]. done.
  - eapply wp_mono; [apply _| |by apply wp_onTyping]. done.
  - unfold encryptedDifference. destruct dev as [dev|]; [|done]. apply wp_bind. unfold ListNewMessages. case_bool_decide; [done|].
    by apply (wp_quiet i (ListSince dev since (encryptedDifferencePageSize + 1))).
  - eapply wp_mono; [apply _| |by apply wp_onStateUpdates]. intros x s' _. simpl. by destruct x, dev.
  - apply wp_bind. unfold MarkDelivered. destruct (_ || _); [done|]. by apply (wp_quiet i (MarkEvents dev ids)).
  - unfold deviceEncryptedQts. destruct dev as [dev|]; [|done]. apply wp_bind. unfold DeviceReservedQts. case_bool_decide; [done|]. by apply (wp_quiet i (Reserved dev)).
  - eapply wp_mono; [apply _| |by apply wp_onLogout]. done.
Qed.
Lemma asked_perform i a s : asked (perform i a s).1 = asked s.
Proof.
  destruct a; try done; simpl.
  - by destruct (CreateSecretChat _ _).
  - by destruct (AcceptSecretChat _ _ _ _ _) as [? [?|?]].
  - by destruct (DiscardSecretChat _ _ _).
  - by destruct (AppendEncryptedMessage _ _).
Qed.
Lemma start_inv : inv start.
Proof.
  split; try done.
  - split; try done; simpl. intros dev chat random n. rewrite lookup_empty. split; [done|]. by intros (m & ?%elem_of_nil & _).
  - by intros dev m ?%elem_of_nil.
  - by intros e ?%elem_of_nil.
  - by intros i t u ?%elem_of_nil.
Qed.
Lemma ask_ok r s : inv s → inv (ask r s) ∧ rely s (ask r s).
Proof.
  intros HI. assert (HR : rely s (ask r s)).
  { split; simpl; try done; [|by apply prefix_app_r]. intros id c Hc. exists c. split; [done|reflexivity]. }
  split; [|done]. apply (inv_move s); try done; simpl; auto; apply HI.
Qed.
Notation Served := (Threads perform inv rely asked Answered).
Lemma serve_ok ls w : Served w →
  Served (resume ls w) ∧ rely (shared w) (shared (resume ls w)) ∧
  ∀ i x, answer i (resume ls w) = Some x → ∃ r, asked (shared (resume ls w)) !! i = Some r ∧ Answered i r x (shared (resume ls w)).
Proof. apply threads_ok; [apply _|done|apply asked_perform|apply ask_ok|apply Answered_stable|apply handle_ok]. Qed.
Lemma run_ok ls : Served (run ls) ∧
  ∀ i x, answer i (run ls) = Some x → ∃ r, asked (shared (run ls)) !! i = Some r ∧ Answered i r x (shared (run ls)).
Proof.
  destruct (serve_ok ls (mkWorld start [])) as (H1 & _ & H3); [|by split]. split; simpl; [apply start_inv|done|by intros [|i] p r].
Qed.

(** ** Paging through a queue *)

Definition NumberedFrom (k : Z) (l : list SecretChatMessage) : Prop := ∀ i m, l !! i = Some m → Qts m = k + Z.of_nat i + 1.
Lemma numbered_cons k m l : NumberedFrom k (m :: l) ↔ Qts m = k + 1 ∧ NumberedFrom (k + 1) l.
Proof.
  split.
  - intros Hn. split; [specialize (Hn 0%nat m eq_refl); lia|]. intros i x Hi. specialize (Hn (S i) x Hi). lia.
  - intros [Hm Hn] [|i] x; simpl; [intros [= <-]; lia|]. intros Hi. specialize (Hn i x Hi). lia.
Qed.
Lemma numbered_drop k l n : NumberedFrom k l → NumberedFrom (k + Z.of_nat n) (drop n l).
Proof. intros Hn i m. rewrite lookup_drop. intros Hi. specialize (Hn _ _ Hi). lia. Qed.
Lemma numbered_take k l n : NumberedFrom k l → NumberedFrom k (take n l).
Proof. intros Hn i m Hi. apply Hn. by apply lookup_take_Some in Hi as [? _]. Qed.
Lemma since_drop k l since : k ≤ since → NumberedFrom k l → filter (λ m, since < Qts m) l = drop (Z.to_nat (since - k)) l.
Proof.
  revert k. induction l as [|m l IH]; intros k Hk Hn; [by rewrite drop_nil|]. apply numbered_cons in Hn as [Hm Hn].
  destruct (decide (since = k)) as [->|Hne].
  - rewrite Z.sub_diag. simpl. apply list_filter_id. intros x Hx. assert (Hall : NumberedFrom k (m :: l)) by (by apply numbered_cons).
    apply list_elem_of_lookup in Hx as [i Hi]. specialize (Hall i x Hi). lia.
  - rewrite filter_cons_False by lia. rewrite (IH (k + 1)) by (done || lia). replace (Z.to_nat (since - k)) with (S (Z.to_nat (since - (k + 1)))) by lia. done.
Qed.
Lemma contiguous_ok l k out : NumberedFrom k l → contiguous l k out = Some (out ++ map tgEncryptedMessage l, k + Z.of_nat (length l)).
Proof.
  revert k out. induction l as [|m l IH]; intros k out Hn; cbn [contiguous map]; [by rewrite app_nil_r, Z.add_0_r|]. apply numbered_cons in Hn as [Hm Hn].
  rewrite bool_decide_true by done. rewrite Hm, IH by done. rewrite <-app_assoc. simpl. do 2 f_equal. lia.
Qed.
(** One page of a queue past [since]. *)
Definition page (l : list SecretChatMessage) (since : Z) : list SecretChatMessage := take 1000 (drop (Z.to_nat since) l).
Lemma difference_page i dev since s : inv s → dev ≠ 0 → 0 ≤ since → let l := queueOf dev (queue s) in
  alone perform i (encryptedDifference (Some dev) since) s =
    (s, Messages (map tgEncryptedMessage (page l since)) (since + Z.of_nat (length (page l since))) (bool_decide (since + 1000 < Z.of_nat (length l)))).
Proof.
  intros HI Hd Hs. cbv zeta. unfold encryptedDifference, ListNewMessages. rewrite bool_decide_false by done. cbn [alone mbind proc_bind call perform fst snd].
  unfold ListEncryptedMessagesSince. set (l := queueOf dev (queue s)).
  assert (Hn : NumberedFrom 0 l) by (intros j m Hj; destruct (qo_numbered _ (in_queue _ HI) dev j m Hj); lia).
  rewrite (since_drop 0 l since Hs Hn), Z.sub_0_r. replace (pageLimit (encryptedDifferencePageSize + 1)) with 1001%nat by done.
  assert (Hpage : NumberedFrom since (page l since)) by (apply numbered_take; pose proof (numbered_drop 0 l (Z.to_nat since) Hn) as Hdr; by rewrite Z.add_0_l, Z2Nat.id in Hdr).
  assert (Hpart : bool_decide (encryptedDifferencePageSize < Z.of_nat (length (take 1001 (drop (Z.to_nat since) l)))) = bool_decide (since + 1000 < Z.of_nat (length l))).
  { apply bool_decide_ext. unfold encryptedDifferencePageSize. rewrite length_take, length_drop. lia. }
  rewrite Hpart. assert (Hms : (if bool_decide (since + 1000 < Z.of_nat (length l)) then take (Z.to_nat encryptedDifferencePageSize) (take 1001 (drop (Z.to_nat since) l))
      else take 1001 (drop (Z.to_nat since) l)) = page l since).
  { clear Hpart. unfold page, encryptedDifferencePageSize. case_bool_decide; [rewrite take_take; f_equal; lia|]. rewrite !take_ge by (rewrite length_drop; lia). done. }
  rewrite Hms, (contiguous_ok _ _ _ Hpage). done.
Qed.
(** A device asks until the answer is not partial. *)
Fixpoint catchUp (fuel : nat) (dev since : Z) (s : state) : option (list tgMessage * Z) :=
  match fuel with
  | O => None
  | S fuel =>
    match alone perform 0 (encryptedDifference (Some dev) since) s with
    | (s, Messages ms qts true) => '(rest, qts) ← catchUp fuel dev qts s; Some (ms ++ rest, qts)
    | (_, Messages ms qts false) => Some (ms, qts)
    | _ => None
    end
  end.
Lemma catchUp_ok fuel dev since s : inv s → dev ≠ 0 → 0 ≤ since → let l := queueOf dev (queue s) in
  Z.of_nat (length l) < since + 1000 * Z.of_nat fuel → (0 < fuel)%nat →
  catchUp fuel dev since s = Some (map tgEncryptedMessage (drop (Z.to_nat since) l), since + Z.of_nat (length (drop (Z.to_nat since) l))).
Proof.
  intros HI Hd. revert since. induction fuel as [|fuel IH]; intros since Hs; cbv zeta; [lia|]. intros Hlen _. cbn [catchUp]. rewrite difference_page by done. cbv zeta.
  set (l := queueOf dev (queue s)) in *. unfold page. case_bool_decide as Hp.
  - rewrite length_take, length_drop, Nat.min_l by lia. rewrite IH by lia. cbv zeta. fold l. simpl. do 2 f_equal.
    + rewrite <-map_app. f_equal. replace (Z.to_nat (since + Z.of_nat 1000)) with (Z.to_nat since + 1000)%nat by lia. rewrite <-drop_drop. apply take_drop.
    + rewrite !length_drop. lia.
  - rewrite take_ge by (rewrite length_drop; lia). done.
Qed.

(** ** Diffie-Hellman parameters *)

Definition SafeParameter (g : list Z) : Prop := length g = 256%nat ∧ dhLowerBound < be_value g < dhUpperBound.
Lemma be_value_pad n g : be_value (replicate n 0 ++ g) = be_value g.
Proof. induction n as [|n IH]; [done|]. simpl. exact IH. Qed.
Lemma validated_safe g p : validateDHParam g = Some p → SafeParameter p ∧ be_value p = be_value g.
Proof.
  unfold validateDHParam. destruct (_ || _) eqn:Hlen; [done|]. apply orb_false_iff in Hlen as [_ Hlen%bool_decide_eq_false]. cbv zeta. destruct (_ || _); [done|].
  destruct (_ || _) eqn:Hr; [done|]. apply orb_false_iff in Hr as [H1%bool_decide_eq_false H2%bool_decide_eq_false]. intros [= <-].
  assert (Hv : be_value (leftPad256 g) = be_value g) by (unfold leftPad256; case_bool_decide; [done|apply be_value_pad]).
  split; [|done]. split; [|rewrite Hv; lia]. unfold leftPad256, dhPubSize in *. case_bool_decide; [done|]. rewrite length_app, length_replicate. lia.
Qed.

(** ** Theorems *)

(** C21: The life of a secret chat, whatever handlers run together: a chat keeps
    its id, access hashes, accounts, initiating device and public value, its
    state only moves from requested over normal to discarded, and from the
    moment it is established the accepting device, second public value and
    fingerprint are fixed.  Every established chat was bound by one accept
    request, which came from the invited account with its access hash, and of
    all accept requests for a chat at most one is answered with a chat.  Both
    public values have 256 bytes and lie in the safe range. *)
Theorem secret_chat_lifecycle ls ls' :
  let w := run ls in let w' := resume ls' w in let s := shared w in
  (∀ id c, chats s !! id = Some c → ∃ c', chats (shared w') !! id = Some c' ∧ identity c' = identity c ∧ (rank (State c) ≤ rank (State c'))%nat ∧
     (State c ≠ Requested → binding c' = binding c)) ∧
  (∀ id c, chats s !! id = Some c → State c = Normal → ∃ i gb now,
     asked s !! i = Some (ReqAccept (mkCaller (Some (Some (ParticipantUserID c))) (Some (ParticipantAuthKeyID c))) id (ParticipantAccessHash c) gb (KeyFingerprint c) now) ∧
     SafeParameter (GB c) ∧ be_value (GB c) = be_value gb) ∧
  (∀ id c, chats s !! id = Some c → ID c = id ∧ id ≠ 0 ∧ AdminUserID c ≠ ParticipantUserID c ∧ SafeParameter (GA c)) ∧
  (∀ i j id c1 h1 g1 f1 n1 v1 c2 h2 g2 f2 n2 v2,
     asked s !! i = Some (ReqAccept c1 id h1 g1 f1 n1) → answer i w = Some (ChatAnswer v1) →
     asked s !! j = Some (ReqAccept c2 id h2 g2 f2 n2) → answer j w = Some (ChatAnswer v2) → i = j).
Proof.
  cbv zeta. destruct (run_ok ls) as [HT HA]. pose proof (th_inv _ _ _ _ _ _ HT) as HI. destruct (serve_ok ls' _ HT) as (_ & HR & _). split_and!.
  - intros id c Hc. destruct (re_chats _ _ HR _ _ Hc) as (c' & Hc' & [Hi Hr Hb _ _]). exists c'. split_and!; try done. intros Hst. apply Hb.
    pose proof (co_state _ _ (in_chats _ HI _ _ Hc)). destruct (State c); simpl; done || lia.
  - intros id c Hc Hn. destruct (in_normal _ HI id c Hc Hn) as [i Hi]. destruct (in_winner _ HI id i Hi) as [d [Hd _ (gb & now & Hask & Hgb)]].
    assert (d = c) as -> by congruence. destruct (validated_safe _ _ Hgb). by exists i, gb, now.
  - intros id c Hc. pose proof (in_chats _ HI id c Hc) as HC. destruct (co_ga _ _ HC) as [g Hg]. destruct (validated_safe _ _ Hg). destruct HC. by split_and!.
  - intros i j id c1 h1 g1 f1 n1 v1 c2 h2 g2 f2 n2 v2 Hi Hvi Hj Hvj. destruct (HA i _ Hvi) as (r & Hr & Hw). destruct (HA j _ Hvj) as (r' & Hr' & Hw').
    rewrite Hi in Hr. rewrite Hj in Hr'. simplify_eq. simpl in Hw, Hw'. congruence.
Qed.

(** C22: A message that waits for a device was asked for by the device bound to
    the other side of an established chat, under its own access hash, is stored
    with exactly the bytes, ids, date and file of that request (no file, the file
    the request uploads, or the one that an earlier request uploaded under the
    id and access hash it names), and its receiver is the device bound to the
    peer account; a resend with the same chat and random
    id adds nothing, and a new message is pushed only to its receiving device. *)
Theorem secret_messages_authentic ls :
  let s := shared (run ls) in
  (∀ dev m, m ∈ queueOf dev (queue s) → ReceiverAuthKeyID m = dev ∧ ∃ r c viewer key, Authentic s m r c viewer key) ∧
  (∀ dev m m', m ∈ queueOf dev (queue s) → m' ∈ queueOf dev (queue s) → ChatID m = ChatID m' → m_RandomID m = m_RandomID m' → m = m') ∧
  (∀ i t x q, (i, (t, UpdateNewEncryptedMessage x q)) ∈ pushed s →
     ∃ dev m, m ∈ queueOf dev (queue s) ∧ t = ToDevice (ReceiverUserID m) dev ∧ x = tgEncryptedMessage m ∧ q = Qts m) ∧
  (∀ i c id hash random data svc now date, asked s !! i = Some (ReqSend c id hash random data svc now) → answer i (run ls) = Some (SentAnswer date) →
     ∃ dev m, m ∈ queueOf dev (queue s) ∧ ChatID m = id ∧ m_RandomID m = random).
Proof.
  cbv zeta. destruct (run_ok ls) as [HT HA]. pose proof (th_inv _ _ _ _ _ _ HT) as HI. pose proof (in_queue _ HI) as HQ. split_and!.
  - intros dev m Hm. split; [|by eapply in_messages]. apply list_elem_of_lookup in Hm as [j Hj]. by apply (qo_numbered _ HQ dev j m).
  - intros dev m m' Hm Hm' Hc Hr. assert (H1 : dedup (queue (shared (run ls))) !! (dev, ChatID m, m_RandomID m) = Some (Qts m)) by (apply HQ; by exists m).
    assert (H2 : dedup (queue (shared (run ls))) !! (dev, ChatID m, m_RandomID m) = Some (Qts m')) by (apply HQ; by exists m'). eapply numbered_unique; [done|done|done|congruence].
  - intros i t x q Hp. destruct (in_pushed _ HI _ _ _ Hp) as (u & k & m & -> & Hm & Hx & Hq & Hu). exists k, m. by subst.
  - intros i c id hash random data svc now date Hi Hv. destruct (HA i _ Hv) as (r & Hr & Hw). rewrite Hi in Hr. by simplify_eq.
Qed.

(** C23: A device that catches up misses nothing and sees nothing twice: its
    queue is numbered 1, 2, 3, ... and only ever grows, so the number of a
    message is final; one page holds exactly the next (at most 1000) messages
    after the device's cursor and says truthfully whether more wait; and asking
    again until the answer is complete ends, having delivered every later
    message once, in order, with the cursor at the end of the queue. *)
Theorem secret_difference_complete ls ls' :
  let s := shared (run ls) in
  (∀ dev i m, queueOf dev (queue s) !! i = Some m → Qts m = Z.of_nat i + 1) ∧
  (∀ dev, queueOf dev (queue s) `prefix_of` queueOf dev (queue (shared (resume ls' (run ls))))) ∧
  (∀ dev i since, dev ≠ 0 → 0 ≤ since → let l := queueOf dev (queue s) in
     alone perform i (handle (ReqDifference (Some dev) since)) s =
       (s, Messages (map tgEncryptedMessage (page l since)) (since + Z.of_nat (length (page l since))) (bool_decide (since + 1000 < Z.of_nat (length l))))) ∧
  (∀ dev since, dev ≠ 0 → 0 ≤ since ≤ ReservedQts dev (queue s) →
     catchUp (S (length (queueOf dev (queue s)) / 1000)) dev since s =
       Some (map tgEncryptedMessage (drop (Z.to_nat since) (queueOf dev (queue s))), ReservedQts dev (queue s))).
Proof.
  cbv zeta. destruct (run_ok ls) as [HT _]. pose proof (th_inv _ _ _ _ _ _ HT) as HI. pose proof (in_queue _ HI) as HQ. destruct (serve_ok ls' _ HT) as (_ & HR & _). split_and!.
  - intros dev i m Hm. by apply (qo_numbered _ HQ dev i m).
  - apply HR.
  - intros dev i since Hd Hs. by apply (difference_page i dev since).
  - intros dev since Hd. rewrite (qo_reserved _ HQ). intros Hs. rewrite catchUp_ok; [|done|done|lia| |lia].
    + rewrite length_drop. do 2 f_equal. lia.
    + cbv zeta. pose proof (Nat.div_mod_eq (length (queueOf dev (queue (shared (run ls))))) 1000) as Hdm.
      pose proof (Nat.mod_upper_bound (length (queueOf dev (queue (shared (run ls))))) 1000 ltac:(lia)). lia.
Qed.

(** C24: The established view of a chat (access hash, public value and
    fingerprint) reaches only bound devices through the difference and through
    targeted pushes: what a device is told while catching up is of a chat that
    is bound to it on its account's side, and a push of such a view goes to the
    device bound on the target account's side.  The one other way is a push to
    the whole invited account by the handler of a request for encryption: the
    initiating device asks again for the same chat id with the same peer and the
    handler finds the chat established.  In particular no handler of an accept
    pushes the view to a whole account. *)
Theorem secret_views_confidential ls :
  let s := shared (run ls) in
  (∀ i u dev us ps ids partial id h d a p g f date,
     asked s !! i = Some (ReqStateUpdates u (Some dev)) → answer i (run ls) = Some (StateUpdates us ps ids partial) →
     UpdateEncryption (ViewChat id h d a p g f) date ∈ us → ∃ c, chats s !! id = Some c ∧ AuthKeyOf c u = dev ∧ dev ≠ 0) ∧
  (∀ i t id h d a p g f date, (i, (t, UpdateEncryption (ViewChat id h d a p g f) date)) ∈ pushed s →
     (∃ u c, t = ToDevice u (AuthKeyOf c u) ∧ chats s !! id = Some c ∧ AuthKeyOf c u ≠ 0) ∨
     (∃ c ga rand1 rand2 now, t = ToUser (ParticipantUserID c) ∧ chats s !! id = Some c ∧ State c ≠ Requested ∧
        asked s !! i = Some (ReqRequest (mkCaller (Some (Some (AdminUserID c))) (Some (AdminAuthKeyID c)))
          (Some (Some (ParticipantUserID c, false))) (Some false) id ga rand1 rand2 now))).
Proof.
  cbv zeta. destruct (run_ok ls) as [HT HA]. pose proof (th_inv _ _ _ _ _ _ HT) as HI. split.
  - intros i u dev us ps ids partial id h d a p g f date Hi Hv Hin. destruct (HA i _ Hv) as (r & Hr & Hw). rewrite Hi in Hr. simplify_eq. simpl in Hw.
    destruct Hw as [Hz HC]; [by intros ->; apply elem_of_nil in Hin|]. destruct (HC _ _ _ _ _ _ _ _ Hin) as (c & Hc & Hk). by exists c.
  - intros i t id h d a p g f date Hp. pose proof (in_pushed _ HI _ _ _ Hp) as HP. simpl in HP. destruct t as [u|u k|u k]; [| |done].
    + right. destruct HP as (c & ga & rand1 & rand2 & now & Hc & Hn & <- & Hi). exists c, ga, rand1, rand2, now. split_and!; try done. intros Hst. rewrite Hst in Hn. simpl in Hn. lia.
    + left. destruct HP as (c & Hc & <- & Hz). by exists u, c.
Qed.
