(* ===== verification/SecretChatRuns.v ===== *)
(** * Concrete runs of secret chats

    A handshake with a message, and two runs in which the handlers do not do
    what their comments ask for: a repeated request pushes the established view
    to a whole account, and a device that was not chosen discards an established
    chat. *)

From S2P Require Import Prelude Threads SecretChat SecretChatRpc SecretChatInv SecretChatServe SecretChatProps.
Import Secret SecretRpc.

Module SecretRuns.

Definition alice : caller := mkCaller (Some (Some 1)) (Some 11).
Definition bob : caller := mkCaller (Some (Some 2)) (Some 21).
Definition bobsTablet : caller := mkCaller (Some (Some 2)) (Some 22).
Definition ga : list Z := replicate 256 1.
Definition invite : request := ReqRequest alice (Some (Some (2, false))) (Some false) 7 ga (Some [0; 0; 0; 0; 0; 0; 0; 8]) (Some [0; 0; 0; 0; 0; 0; 0; 10]) 100.
Definition join : request := ReqAccept bob 7 5 ga 99 101.
Definition finish (r : request) (i n : nat) : list (label request) := Start r :: replicate n (Step i).

(** The handshake, a message from each side, and what Bob's device reads. *)
Lemma secret_handshake :
  let w := run (finish invite 0 5 ++ finish join 1 7 ++ finish (ReqSend alice 7 4 1000 [1; 2; 3] false 102) 2 4 ++ finish (ReqSend bob 7 5 1001 [4] false 103) 3 4) in
  (State <$> chats (shared w) !! 7) = Some Normal ∧ answer 2 w = Some (SentAnswer 102) ∧
  catchUp 1 21 0 (shared w) = Some ([TgMessage 1000 7 102 [1; 2; 3] None], 1) ∧ catchUp 1 11 0 (shared w) = Some ([TgMessage 1001 7 103 [4] None], 1).
Proof. vm_compute. auto. Qed.

(** Alice's client repeats its request after Bob's phone accepted: the access
    hash, public value and fingerprint go to all sessions of Bob's account. *)
Lemma repeated_request_leaks :
  let w := run (finish invite 0 5 ++ finish join 1 7 ++ finish invite 2 5) in
  (2%nat, (ToUser 2, UpdateEncryption (ViewChat 7 5 100 1 2 ga 99) 100)) ∈ pushed (shared w).
Proof. cbv zeta. apply list_elem_of_lookup. exists 3%nat. vm_compute. reflexivity. Qed.

(** Bob's tablet declines while his phone accepts: the tablet, which no longer
    may touch the chat once it is established, discards it. *)
Lemma declining_device_discards :
  let w := run (finish invite 0 5 ++ [Start (ReqDiscard bobsTablet 7 true 101); Step 1] ++ finish join 2 7 ++ [Step 1]) in
  answer 2 w ≠ None ∧ (λ c, (State c, ParticipantAuthKeyID c)) <$> chats (shared w) !! 7 = Some (Discarded, 21).
Proof. vm_compute. done. Qed.
End SecretRuns.
