(* ===== verification/MailTypes.v ===== *)
(** * Private messages: the data

    The parts of [internal/domain/message.go], [media.go], [webpage.go],
    [saved_dialog.go], [dialog.go] and [message_reply_external.go] that the
    message store reads.  [X] stands for contents it only copies and compares
    (photos, keyboards, reactions, drafts).  Values are immutable here, so the
    copies of the source ([cloneMessage] and its helpers) are identities.
    Strings are lists of bytes.  A date, a box id, a message id or a pts is an
    integer: no counter comes near 2^63. *)

From S2P Require Import Prelude UpdateTypes.

(** ** Text *)

Section utf8.
Implicit Types s : list Z.
Let between (lo hi b : Z) : bool := bool_decide (lo ≤ b) && bool_decide (b ≤ hi).
Let tail (b : Z) : bool := between 128 191 b.

(** [[]rune(s)] with, for each rune, whether its bytes were valid UTF-8: an
    invalid byte is the replacement character. *)
Fixpoint goRunes s : list (Z * bool) :=
  match s with
  | [] => []
  | b0 :: s1 =>
    let bad := (65533, false) in
    if bool_decide (b0 < 128) then (b0, true) :: goRunes s1
    else if between 194 223 b0 then
      match s1 with
      | b1 :: s2 => if tail b1 then ((b0 - 192) * 64 + (b1 - 128), true) :: goRunes s2 else bad :: goRunes s1
      | [] => [bad]
      end
    else if between 224 239 b0 then
      match s1 with
      | b1 :: b2 :: s3 =>
        let low := if bool_decide (b0 = 224) then 160 else 128 in
        let high := if bool_decide (b0 = 237) then 159 else 191 in
        if between low high b1 && tail b2 then ((b0 - 224) * 4096 + (b1 - 128) * 64 + (b2 - 128), true) :: goRunes s3
        else bad :: goRunes s1
      | _ => bad :: goRunes s1
      end
    else if between 240 244 b0 then
      match s1 with
      | b1 :: b2 :: b3 :: s4 =>
        let low := if bool_decide (b0 = 240) then 144 else 128 in
        let high := if bool_decide (b0 = 244) then 143 else 191 in
        if between low high b1 && tail b2 && tail b3
        then ((b0 - 240) * 262144 + (b1 - 128) * 4096 + (b2 - 128) * 64 + (b3 - 128), true) :: goRunes s4
        else bad :: goRunes s1
      | _ => bad :: goRunes s1
      end
    else bad :: goRunes s1
  end.
Definition validString s : bool := forallb snd (goRunes s).
Definition runeCount s : Z := Z.of_nat (length (goRunes s)).
(** [utf16.Encode([]rune(s))] *)
Definition utf16Units s : list Z :=
  flat_map (λ r, if bool_decide (r.1 < 65536) then [r.1]
                 else [55296 + (r.1 - 65536) / 1024; 56320 + (r.1 - 65536) mod 1024]) (goRunes s).
End utf8.

Module Mail.
Definition MaxMessageTextLength : Z := 4096.
Definition MaxMessageReplyQuoteLength : Z := 1024.
Definition MaxMessageReplyQuoteOffset : Z := 2 * MaxMessageTextLength.
Definition MaxMessageEntityCount : Z := 256.
Definition MaxMessageBoxID : Z := 2147483647.
Definition MaxStoryID : Z := MaxMessageBoxID.
Definition MaxDeleteMessageIDs : Z := 1000.
Definition MaxDeleteHistoryBatch : Z := 1000.
Definition MaxForwardMessageIDs : Z := 100.
Definition MaxMessageHistoryAddOffset : Z := 100.
Definition MaxUnpinAllBatch : Z := 1000.
Definition MaxMessageReplyExternalBytes : Z := 1048576.
Definition DialogMainFolderID : Z := 0.
Definition SavedHiddenAuthorUserID : Z := 2666000.
Definition PrivateNoForwardsRequestExpirePeriod : Z := 24 * 60 * 60.
Definition sha256Size : Z := 32.
Definition len {A} (l : list A) : Z := Z.of_nat (length l).

#[export] Instance PeerType_countable : Countable PeerType.
Proof.
  refine (inj_countable'
    (λ t, match t with PeerTypeNone => 0 | PeerTypeUser => 1 | PeerTypeChannel => 2 | PeerTypeCommunity => 3 | PeerTypeFolder => 4 end)
    (λ n, if decide (n = 0) then PeerTypeNone else if decide (n = 1) then PeerTypeUser else if decide (n = 2) then PeerTypeChannel
          else if decide (n = 3) then PeerTypeCommunity else PeerTypeFolder) _). by intros [].
Defined.
Definition user (id : Z) : Peer := mkPeer PeerTypeUser id.

Inductive MessageMediaKind :=
| KindNone | KindPhoto | KindDocument | KindContact | KindService | KindGeo | KindVenue | KindDice
| KindPoll | KindGeoLive | KindTodo | KindStory | KindWebPage | KindGiveaway | KindInvoice.
#[export] Instance MessageMediaKind_eq_dec : EqDecision MessageMediaKind.
Proof. solve_decision. Defined.

Inductive MessageServiceActionKind :=
| ActionGramTransfer | ActionSuggestProfilePhoto | ActionHistoryClear | ActionPinMessage | ActionPhoneCall
| ActionConferenceCall | ActionBotAllowed | ActionWebViewDataSent | ActionRequestedPeer | ActionSetChatTheme
| ActionNoForwardsToggle | ActionNoForwardsRequest | ActionStarGift | ActionGiftStars | ActionStarGiftUnique
| ActionStarGiftOffer | ActionStarGiftOfferDeclined | ActionGiftPremium | ActionPayment.
#[export] Instance MessageServiceActionKind_eq_dec : EqDecision MessageServiceActionKind.
Proof. solve_decision. Defined.

Inductive MessageWebPageState := WebPagePending | WebPageDone | WebPageEmpty.
#[export] Instance MessageWebPageState_eq_dec : EqDecision MessageWebPageState.
Proof. solve_decision. Defined.

Record MessageNoForwardsAction := mkNoForwardsAction {
  PrevValue : bool; NewValue : bool; Expired : bool; na_ExpiresAt : Z }.
#[export] Instance MessageNoForwardsAction_eq_dec : EqDecision MessageNoForwardsAction.
Proof. solve_decision. Defined.

Record MessageForward := mkForward {
  fwd_From : Peer; FromName : list Z; fwd_Date : Z; ChannelPost : Z; SavedFrom : Peer; SavedFromMsgID : Z }.
#[export] Instance MessageForward_eq_dec : EqDecision MessageForward.
Proof. solve_decision. Defined.

Section data.
Context {X : Type} `{EqX : EqDecision X} `{InhX : Inhabited X}.

Record MessageEntity := mkEntity { ent_Offset : Z; ent_Length : Z; ent_rest : X }.
#[export] Instance MessageEntity_eq_dec : EqDecision MessageEntity.
Proof using EqX. solve_decision. Defined.

Record MessageServiceAction := mkAction {
  act_Kind : MessageServiceActionKind;
  act_NoForwards : option MessageNoForwardsAction;
  act_rest : X;
}.
#[export] Instance MessageServiceAction_eq_dec : EqDecision MessageServiceAction.
Proof using EqX. solve_decision. Defined.

Record MessageWebPage := mkWebPage { wp_ID : Z; wp_State : MessageWebPageState; wp_rest : X }.
#[export] Instance MessageWebPage_eq_dec : EqDecision MessageWebPage.
Proof using EqX. solve_decision. Defined.

(** [Document] keeps, of its attributes, the audio ones' [Voice] flag. *)
Record Document := mkDocument { doc_Audio : list bool; doc_rest : X }.
#[export] Instance Document_eq_dec : EqDecision Document.
Proof using EqX. solve_decision. Defined.
Definition documentIsMusic (d : Document) : bool := existsb negb (doc_Audio d).

Record MessageMedia := mkMedia {
  Kind : MessageMediaKind;
  media_Document : option Document;
  ServiceAction : option MessageServiceAction;
  Todo : option X;
  WebPage : option MessageWebPage;
  TTLSeconds : Z;
  Voice : bool;
  Round : bool;
  media_rest : X;
}.
#[export] Instance MessageMedia_eq_dec : EqDecision MessageMedia.
Proof using EqX. solve_decision. Defined.
(** The methods below take a possibly nil pointer. *)
Definition mediaIsZero (m : option MessageMedia) : bool :=
  match m with None => true | Some m => bool_decide (Kind m = KindNone) end.
Definition IsMusic (m : option MessageMedia) : bool :=
  match m with
  | None => false
  | Some m =>
    bool_decide (Kind m = KindDocument)
    && match media_Document m with None => false | Some d => negb (Voice m) && documentIsMusic d end
  end.
Definition HasUnreadPayload (m : option MessageMedia) : bool :=
  match m with
  | None => false
  | Some m' => if mediaIsZero m || negb (bool_decide (Kind m' = KindDocument)) then false else Voice m' || Round m'
  end.
Definition IsPendingWebPageMedia (m : option MessageMedia) (id : Z) : bool :=
  match m with
  | None => false
  | Some m =>
    bool_decide (Kind m = KindWebPage)
    && match WebPage m with
       | None => false
       | Some w => bool_decide (wp_State w = WebPagePending) && bool_decide (wp_ID w = id)
       end
  end.
(** A literal [&MessageMedia{Kind: MessageMediaKindService, ServiceAction: a}]. *)
Definition serviceMedia (kind : MessageServiceActionKind) (noForwards : option MessageNoForwardsAction) : MessageMedia :=
  mkMedia KindService None (Some (mkAction kind noForwards inhabitant)) None None 0 false false inhabitant.

Record MessageRichMessage := mkRich { Blocks : list Z; Photos : list X; Documents : list X; rich_rest : X }.
#[export] Instance MessageRichMessage_eq_dec : EqDecision MessageRichMessage.
Proof using EqX. solve_decision. Defined.
Definition richIsZero (m : option MessageRichMessage) : bool :=
  match m with
  | None => true
  | Some m => bool_decide (Blocks m = []) && bool_decide (length (Photos m) = 0%nat) && bool_decide (length (Documents m) = 0%nat)
  end.

Record MessageReplyExternal := mkExternal {
  ext_From : MessageForward; ext_Text : list Z; ext_Entities : list MessageEntity; ext_Media : option MessageMedia }.
Record MessageReply := mkReply {
  r_MessageID : Z; r_Peer : Peer; TopMessageID : Z; ForumTopic : bool; QuoteText : list Z;
  QuoteEntities : list MessageEntity; QuoteOffset : Z; External : option MessageReplyExternal; StoryID : Z }.
(** A literal [&MessageReply{MessageID: id, Peer: peer}]. *)
Definition replyTo (id : Z) (peer : Peer) : MessageReply := mkReply id peer 0 false [] [] 0 None 0.

(** [Peer] is [MPeer]. *)
Record Message := mkMessage {
  ID : Z;
  UID : Z;
  RandomID : Z;
  OwnerUserID : Z;
  MPeer : Peer;
  From : Peer;
  Date : Z;
  EditDate : Z;
  HideEdited : bool;
  Out : bool;
  Silent : bool;
  NoForwards : bool;
  Body : list Z;
  Entities : list MessageEntity;
  ReplyTo : option MessageReply;
  Forward : option MessageForward;
  Reactions : option X;
  Pts : Z;
  TTLPeriod : Z;
  ExpiresAt : Z;
  Media : option MessageMedia;
  MediaUnread : bool;
  ReactionUnread : bool;
  ViaBotID : Z;
  GroupedID : Z;
  Effect : Z;
  ReplyMarkup : option X;
  RichMessage : option MessageRichMessage;
  Pinned : bool;
  Deleted : bool;
  SavedPeer : Peer;
  PaidStars : Z;
}.
Definition noMessage : Message := mkMessage 0 0 0 0 noPeer noPeer 0 0 false false false false [] [] None None None 0 0 0 None false false 0 0 0 None None false false noPeer 0.
Definition set_ID (v : Z) (m : Message) : Message :=
  mkMessage v (UID m) (RandomID m) (OwnerUserID m) (MPeer m) (From m) (Date m) (EditDate m) (HideEdited m)
  (Out m) (Silent m) (NoForwards m) (Body m) (Entities m) (ReplyTo m) (Forward m) (Reactions m) (Pts m)
  (TTLPeriod m) (ExpiresAt m) (Media m) (MediaUnread m) (ReactionUnread m) (ViaBotID m) (GroupedID m) (Effect
  m) (ReplyMarkup m) (RichMessage m) (Pinned m) (Deleted m) (SavedPeer m) (PaidStars m).
Definition set_UID (v : Z) (m : Message) : Message :=
  mkMessage (ID m) v (RandomID m) (OwnerUserID m) (MPeer m) (From m) (Date m) (EditDate m) (HideEdited m) (Out
  m) (Silent m) (NoForwards m) (Body m) (Entities m) (ReplyTo m) (Forward m) (Reactions m) (Pts m) (TTLPeriod
  m) (ExpiresAt m) (Media m) (MediaUnread m) (ReactionUnread m) (ViaBotID m) (GroupedID m) (Effect m)
  (ReplyMarkup m) (RichMessage m) (Pinned m) (Deleted m) (SavedPeer m) (PaidStars m).
Definition set_RandomID (v : Z) (m : Message) : Message :=
  mkMessage (ID m) (UID m) v (OwnerUserID m) (MPeer m) (From m) (Date m) (EditDate m) (HideEdited m) (Out m)
  (Silent m) (NoForwards m) (Body m) (Entities m) (ReplyTo m) (Forward m) (Reactions m) (Pts m) (TTLPeriod m)
  (ExpiresAt m) (Media m) (MediaUnread m) (ReactionUnread m) (ViaBotID m) (GroupedID m) (Effect m)
  (ReplyMarkup m) (RichMessage m) (Pinned m) (Deleted m) (SavedPeer m) (PaidStars m).
Definition set_OwnerUserID (v : Z) (m : Message) : Message :=
  mkMessage (ID m) (UID m) (RandomID m) v (MPeer m) (From m) (Date m) (EditDate m) (HideEdited m) (Out m)
  (Silent m) (NoForwards m) (Body m) (Entities m) (ReplyTo m) (Forward m) (Reactions m) (Pts m) (TTLPeriod m)
  (ExpiresAt m) (Media m) (MediaUnread m) (ReactionUnread m) (ViaBotID m) (GroupedID m) (Effect m)
  (ReplyMarkup m) (RichMessage m) (Pinned m) (Deleted m) (SavedPeer m) (PaidStars m).
Definition set_MPeer (v : Peer) (m : Message) : Message :=
  mkMessage (ID m) (UID m) (RandomID m) (OwnerUserID m) v (From m) (Date m) (EditDate m) (HideEdited m) (Out
  m) (Silent m) (NoForwards m) (Body m) (Entities m) (ReplyTo m) (Forward m) (Reactions m) (Pts m) (TTLPeriod
  m) (ExpiresAt m) (Media m) (MediaUnread m) (ReactionUnread m) (ViaBotID m) (GroupedID m) (Effect m)
  (ReplyMarkup m) (RichMessage m) (Pinned m) (Deleted m) (SavedPeer m) (PaidStars m).
Definition set_Out (v : bool) (m : Message) : Message :=
  mkMessage (ID m) (UID m) (RandomID m) (OwnerUserID m) (MPeer m) (From m) (Date m) (EditDate m) (HideEdited
  m) v (Silent m) (NoForwards m) (Body m) (Entities m) (ReplyTo m) (Forward m) (Reactions m) (Pts m)
  (TTLPeriod m) (ExpiresAt m) (Media m) (MediaUnread m) (ReactionUnread m) (ViaBotID m) (GroupedID m) (Effect
  m) (ReplyMarkup m) (RichMessage m) (Pinned m) (Deleted m) (SavedPeer m) (PaidStars m).
Definition set_Body (v : list Z) (m : Message) : Message :=
  mkMessage (ID m) (UID m) (RandomID m) (OwnerUserID m) (MPeer m) (From m) (Date m) (EditDate m) (HideEdited
  m) (Out m) (Silent m) (NoForwards m) v (Entities m) (ReplyTo m) (Forward m) (Reactions m) (Pts m) (TTLPeriod
  m) (ExpiresAt m) (Media m) (MediaUnread m) (ReactionUnread m) (ViaBotID m) (GroupedID m) (Effect m)
  (ReplyMarkup m) (RichMessage m) (Pinned m) (Deleted m) (SavedPeer m) (PaidStars m).
Definition set_Entities (v : list MessageEntity) (m : Message) : Message :=
  mkMessage (ID m) (UID m) (RandomID m) (OwnerUserID m) (MPeer m) (From m) (Date m) (EditDate m) (HideEdited
  m) (Out m) (Silent m) (NoForwards m) (Body m) v (ReplyTo m) (Forward m) (Reactions m) (Pts m) (TTLPeriod m)
  (ExpiresAt m) (Media m) (MediaUnread m) (ReactionUnread m) (ViaBotID m) (GroupedID m) (Effect m)
  (ReplyMarkup m) (RichMessage m) (Pinned m) (Deleted m) (SavedPeer m) (PaidStars m).
Definition set_ReplyTo (v : option MessageReply) (m : Message) : Message :=
  mkMessage (ID m) (UID m) (RandomID m) (OwnerUserID m) (MPeer m) (From m) (Date m) (EditDate m) (HideEdited
  m) (Out m) (Silent m) (NoForwards m) (Body m) (Entities m) v (Forward m) (Reactions m) (Pts m) (TTLPeriod m)
  (ExpiresAt m) (Media m) (MediaUnread m) (ReactionUnread m) (ViaBotID m) (GroupedID m) (Effect m)
  (ReplyMarkup m) (RichMessage m) (Pinned m) (Deleted m) (SavedPeer m) (PaidStars m).
Definition set_Pts (v : Z) (m : Message) : Message :=
  mkMessage (ID m) (UID m) (RandomID m) (OwnerUserID m) (MPeer m) (From m) (Date m) (EditDate m) (HideEdited
  m) (Out m) (Silent m) (NoForwards m) (Body m) (Entities m) (ReplyTo m) (Forward m) (Reactions m) v
  (TTLPeriod m) (ExpiresAt m) (Media m) (MediaUnread m) (ReactionUnread m) (ViaBotID m) (GroupedID m) (Effect
  m) (ReplyMarkup m) (RichMessage m) (Pinned m) (Deleted m) (SavedPeer m) (PaidStars m).
Definition set_Media (v : option MessageMedia) (m : Message) : Message :=
  mkMessage (ID m) (UID m) (RandomID m) (OwnerUserID m) (MPeer m) (From m) (Date m) (EditDate m) (HideEdited
  m) (Out m) (Silent m) (NoForwards m) (Body m) (Entities m) (ReplyTo m) (Forward m) (Reactions m) (Pts m)
  (TTLPeriod m) (ExpiresAt m) v (MediaUnread m) (ReactionUnread m) (ViaBotID m) (GroupedID m) (Effect m)
  (ReplyMarkup m) (RichMessage m) (Pinned m) (Deleted m) (SavedPeer m) (PaidStars m).
Definition set_MediaUnread (v : bool) (m : Message) : Message :=
  mkMessage (ID m) (UID m) (RandomID m) (OwnerUserID m) (MPeer m) (From m) (Date m) (EditDate m) (HideEdited
  m) (Out m) (Silent m) (NoForwards m) (Body m) (Entities m) (ReplyTo m) (Forward m) (Reactions m) (Pts m)
  (TTLPeriod m) (ExpiresAt m) (Media m) v (ReactionUnread m) (ViaBotID m) (GroupedID m) (Effect m)
  (ReplyMarkup m) (RichMessage m) (Pinned m) (Deleted m) (SavedPeer m) (PaidStars m).
Definition set_EditDate (v : Z) (m : Message) : Message :=
  mkMessage (ID m) (UID m) (RandomID m) (OwnerUserID m) (MPeer m) (From m) (Date m) v (HideEdited m) (Out m)
  (Silent m) (NoForwards m) (Body m) (Entities m) (ReplyTo m) (Forward m) (Reactions m) (Pts m) (TTLPeriod m)
  (ExpiresAt m) (Media m) (MediaUnread m) (ReactionUnread m) (ViaBotID m) (GroupedID m) (Effect m)
  (ReplyMarkup m) (RichMessage m) (Pinned m) (Deleted m) (SavedPeer m) (PaidStars m).
Definition set_HideEdited (v : bool) (m : Message) : Message :=
  mkMessage (ID m) (UID m) (RandomID m) (OwnerUserID m) (MPeer m) (From m) (Date m) (EditDate m) v (Out m)
  (Silent m) (NoForwards m) (Body m) (Entities m) (ReplyTo m) (Forward m) (Reactions m) (Pts m) (TTLPeriod m)
  (ExpiresAt m) (Media m) (MediaUnread m) (ReactionUnread m) (ViaBotID m) (GroupedID m) (Effect m)
  (ReplyMarkup m) (RichMessage m) (Pinned m) (Deleted m) (SavedPeer m) (PaidStars m).
Definition set_ReplyMarkup (v : option X) (m : Message) : Message :=
  mkMessage (ID m) (UID m) (RandomID m) (OwnerUserID m) (MPeer m) (From m) (Date m) (EditDate m) (HideEdited
  m) (Out m) (Silent m) (NoForwards m) (Body m) (Entities m) (ReplyTo m) (Forward m) (Reactions m) (Pts m)
  (TTLPeriod m) (ExpiresAt m) (Media m) (MediaUnread m) (ReactionUnread m) (ViaBotID m) (GroupedID m) (Effect
  m) v (RichMessage m) (Pinned m) (Deleted m) (SavedPeer m) (PaidStars m).
Definition set_RichMessage (v : option MessageRichMessage) (m : Message) : Message :=
  mkMessage (ID m) (UID m) (RandomID m) (OwnerUserID m) (MPeer m) (From m) (Date m) (EditDate m) (HideEdited
  m) (Out m) (Silent m) (NoForwards m) (Body m) (Entities m) (ReplyTo m) (Forward m) (Reactions m) (Pts m)
  (TTLPeriod m) (ExpiresAt m) (Media m) (MediaUnread m) (ReactionUnread m) (ViaBotID m) (GroupedID m) (Effect
  m) (ReplyMarkup m) v (Pinned m) (Deleted m) (SavedPeer m) (PaidStars m).
Definition set_Pinned (v : bool) (m : Message) : Message :=
  mkMessage (ID m) (UID m) (RandomID m) (OwnerUserID m) (MPeer m) (From m) (Date m) (EditDate m) (HideEdited
  m) (Out m) (Silent m) (NoForwards m) (Body m) (Entities m) (ReplyTo m) (Forward m) (Reactions m) (Pts m)
  (TTLPeriod m) (ExpiresAt m) (Media m) (MediaUnread m) (ReactionUnread m) (ViaBotID m) (GroupedID m) (Effect
  m) (ReplyMarkup m) (RichMessage m) v (Deleted m) (SavedPeer m) (PaidStars m).
Definition set_SavedPeer (v : Peer) (m : Message) : Message :=
  mkMessage (ID m) (UID m) (RandomID m) (OwnerUserID m) (MPeer m) (From m) (Date m) (EditDate m) (HideEdited
  m) (Out m) (Silent m) (NoForwards m) (Body m) (Entities m) (ReplyTo m) (Forward m) (Reactions m) (Pts m)
  (TTLPeriod m) (ExpiresAt m) (Media m) (MediaUnread m) (ReactionUnread m) (ViaBotID m) (GroupedID m) (Effect
  m) (ReplyMarkup m) (RichMessage m) (Pinned m) (Deleted m) v (PaidStars m).

(** [SavedPeerForSelfChat] *)
Definition SavedPeerForSelfChat (selfUserID : Z) (forward : option MessageForward) : Peer :=
  match forward with
  | Some f =>
    if bool_decide (peerID (SavedFrom f) ≠ 0) then SavedFrom f
    else if bool_decide (peerID (fwd_From f) = 0) && bool_decide (FromName f ≠ []) then user SavedHiddenAuthorUserID
    else user selfUserID
  | None => user selfUserID
  end.

Definition NewHistoryClearMessage (ownerUserID : Z) (peer : Peer) (boxID uid date pts : Z) : Message :=
  mkMessage boxID uid 0 ownerUserID peer (user ownerUserID) date 0 false true false false [] [] None None None
  pts 0 0 (Some (serviceMedia ActionHistoryClear None)) false false 0 0 0 None None false false noPeer 0.
Definition IsHistoryClearServiceMessage (m : Message) : bool :=
  match Media m with
  | None => false
  | Some media =>
    bool_decide (Kind media = KindService)
    && match ServiceAction media with None => false | Some a => bool_decide (act_Kind a = ActionHistoryClear) end
  end.

(** ** Dialogs *)

(** [d_rest] holds the fields the message store never reads. *)
Record Dialog := mkDialog {
  DPeer : Peer;
  FolderID : Z;
  TopMessage : Z;
  TopMessageDate : Z;
  ReadInboxMaxID : Z;
  ReadOutboxMaxID : Z;
  UnreadCount : Z;
  UnreadMentions : Z;
  UnreadReactions : Z;
  DTTLPeriod : Z;
  ThemeEmoticon : list Z;
  HasScheduled : bool;
  DPinned : bool;
  PinnedOrder : Z;
  UnreadMark : bool;
  ViewForumAsMessages : bool;
  PeerSettingsBarHidden : bool;
  Draft : option X;
  d_rest : X;
}.
Definition set_TopMessage (v : Z) (d : Dialog) : Dialog :=
  mkDialog (DPeer d) (FolderID d) v (TopMessageDate d) (ReadInboxMaxID d) (ReadOutboxMaxID d) (UnreadCount d)
  (UnreadMentions d) (UnreadReactions d) (DTTLPeriod d) (ThemeEmoticon d) (HasScheduled d) (DPinned d)
  (PinnedOrder d) (UnreadMark d) (ViewForumAsMessages d) (PeerSettingsBarHidden d) (Draft d) (d_rest d).
Definition set_TopMessageDate (v : Z) (d : Dialog) : Dialog :=
  mkDialog (DPeer d) (FolderID d) (TopMessage d) v (ReadInboxMaxID d) (ReadOutboxMaxID d) (UnreadCount d)
  (UnreadMentions d) (UnreadReactions d) (DTTLPeriod d) (ThemeEmoticon d) (HasScheduled d) (DPinned d)
  (PinnedOrder d) (UnreadMark d) (ViewForumAsMessages d) (PeerSettingsBarHidden d) (Draft d) (d_rest d).
Definition set_ReadInboxMaxID (v : Z) (d : Dialog) : Dialog :=
  mkDialog (DPeer d) (FolderID d) (TopMessage d) (TopMessageDate d) v (ReadOutboxMaxID d) (UnreadCount d)
  (UnreadMentions d) (UnreadReactions d) (DTTLPeriod d) (ThemeEmoticon d) (HasScheduled d) (DPinned d)
  (PinnedOrder d) (UnreadMark d) (ViewForumAsMessages d) (PeerSettingsBarHidden d) (Draft d) (d_rest d).
Definition set_ReadOutboxMaxID (v : Z) (d : Dialog) : Dialog :=
  mkDialog (DPeer d) (FolderID d) (TopMessage d) (TopMessageDate d) (ReadInboxMaxID d) v (UnreadCount d)
  (UnreadMentions d) (UnreadReactions d) (DTTLPeriod d) (ThemeEmoticon d) (HasScheduled d) (DPinned d)
  (PinnedOrder d) (UnreadMark d) (ViewForumAsMessages d) (PeerSettingsBarHidden d) (Draft d) (d_rest d).
Definition set_UnreadCount (v : Z) (d : Dialog) : Dialog :=
  mkDialog (DPeer d) (FolderID d) (TopMessage d) (TopMessageDate d) (ReadInboxMaxID d) (ReadOutboxMaxID d) v
  (UnreadMentions d) (UnreadReactions d) (DTTLPeriod d) (ThemeEmoticon d) (HasScheduled d) (DPinned d)
  (PinnedOrder d) (UnreadMark d) (ViewForumAsMessages d) (PeerSettingsBarHidden d) (Draft d) (d_rest d).
Definition set_UnreadMentions (v : Z) (d : Dialog) : Dialog :=
  mkDialog (DPeer d) (FolderID d) (TopMessage d) (TopMessageDate d) (ReadInboxMaxID d) (ReadOutboxMaxID d)
  (UnreadCount d) v (UnreadReactions d) (DTTLPeriod d) (ThemeEmoticon d) (HasScheduled d) (DPinned d)
  (PinnedOrder d) (UnreadMark d) (ViewForumAsMessages d) (PeerSettingsBarHidden d) (Draft d) (d_rest d).
Definition set_UnreadReactions (v : Z) (d : Dialog) : Dialog :=
  mkDialog (DPeer d) (FolderID d) (TopMessage d) (TopMessageDate d) (ReadInboxMaxID d) (ReadOutboxMaxID d)
  (UnreadCount d) (UnreadMentions d) v (DTTLPeriod d) (ThemeEmoticon d) (HasScheduled d) (DPinned d)
  (PinnedOrder d) (UnreadMark d) (ViewForumAsMessages d) (PeerSettingsBarHidden d) (Draft d) (d_rest d).
Definition set_UnreadMark (v : bool) (d : Dialog) : Dialog :=
  mkDialog (DPeer d) (FolderID d) (TopMessage d) (TopMessageDate d) (ReadInboxMaxID d) (ReadOutboxMaxID d)
  (UnreadCount d) (UnreadMentions d) (UnreadReactions d) (DTTLPeriod d) (ThemeEmoticon d) (HasScheduled d)
  (DPinned d) (PinnedOrder d) v (ViewForumAsMessages d) (PeerSettingsBarHidden d) (Draft d) (d_rest d).
(** A literal [domain.Dialog{Peer: .., TopMessage: .., TopMessageDate: .., UnreadCount: ..}]. *)
Definition newDialog (peer : Peer) (top date unread : Z) : Dialog :=
  mkDialog peer 0 top date 0 0 unread 0 0 0 [] false false 0 false false false None inhabitant.
(** [Users] keeps the ids of the attached accounts. *)
Record DialogList := mkDialogList { Dialogs : list Dialog; Messages : list Message; Users : list Z }.
Definition noDialogList : DialogList := mkDialogList [] [] [].

(** ** Updates

    An account event carries the whole message next to the fields the update
    log reads ([UpdateTypes]). *)

#[export] Instance Message_inhabited : Inhabited Message := populate noMessage.
Abbreviation event := (UpdateEvent Message).
Definition logged (m : Message) : UpdateTypes.Message Message :=
  UpdateTypes.mkMessage (ID m) (OwnerUserID m) (MPeer m) (Date m) m.
(** The zero [domain.UpdateEvent]; its type is the empty string, which no event has. *)
Definition noEvent : event := newEvent UpdateEventNoop 0 0.
Definition messageEvent (t : UpdateEventType) (date : Z) (m : Message) : event :=
  if bool_decide (ID m = 0) then noEvent
  else with_UserID (OwnerUserID m) (with_Pts (Pts m) (with_Message (logged m) (newEvent t date 1))).
Definition newMessageEvent (m : Message) : event := messageEvent UpdateEventNewMessage (Date m) m.
Definition editMessageEvent (m : Message) : event := messageEvent UpdateEventEditMessage (EditDate m) m.
Definition webPageEvent (m : Message) : event := messageEvent UpdateEventWebPage (Date m) m.

(** ** Replies *)

Inductive mailError :=
| ErrMessageEmpty | ErrFingerprintSize (got : Z) | ErrFingerprintMarshal | ErrMessageRandomIDDuplicate
| ErrReplyMessageIDInvalid | ErrChatForwardsRestricted | ErrQuoteTextInvalid | ErrExternalReply
| ErrDeliveryOutboxRequired | ErrSnapshotInvalid | ErrSnapshotMarshal | ErrSnapshotUnmarshal
| ErrAbsentWithoutReceipt (uid : Z) | ErrReplayScope | ErrMessageIDInvalid | ErrMessageAuthorRequired
| ErrMessageNotModified | ErrMessageNotReadYet | ErrNoForwardsRequestExpired | ErrTooManyIDs (got : Z)
| ErrSavedHistoryInput | ErrAlbumGroupReservationInvalid.
#[export] Instance mailError_eq_dec : EqDecision mailError.
Proof. solve_decision. Defined.

Definition ValidateMessageReplyBounds (reply : MessageReply) : option mailError :=
  if bool_decide (r_MessageID reply < 0) || bool_decide (r_MessageID reply > MaxMessageBoxID) then Some ErrReplyMessageIDInvalid
  else if bool_decide (TopMessageID reply < 0) || bool_decide (TopMessageID reply > MaxMessageBoxID) then Some ErrReplyMessageIDInvalid
  else if bool_decide (StoryID reply < 0) || bool_decide (StoryID reply > MaxStoryID) then Some ErrReplyMessageIDInvalid
  else if bool_decide (r_MessageID reply = 0) && bool_decide (TopMessageID reply = 0) && bool_decide (StoryID reply = 0)
          && match External reply with None => true | Some _ => false end then Some ErrReplyMessageIDInvalid
  else if bool_decide (QuoteOffset reply < 0) || bool_decide (QuoteOffset reply > MaxMessageReplyQuoteOffset) then Some ErrReplyMessageIDInvalid
  else None.

(** The loop [for i, r := range quote]: [source] is the part from the offset. *)
Fixpoint unitsAt (source quote : list Z) : bool :=
  match quote, source with
  | [], _ => true
  | r :: quote, u :: source => bool_decide (u = r) && unitsAt source quote
  | _ :: _, [] => false
  end.
Definition ValidateExternalReplyQuote (reply : MessageReply) (text : list Z) : option mailError :=
  if bool_decide (len (QuoteText reply) > MaxMessageReplyQuoteLength) || negb (validString (QuoteText reply))
     || bool_decide (len (QuoteEntities reply) > MaxMessageEntityCount) then Some ErrQuoteTextInvalid
  else if bool_decide (QuoteText reply = []) then
    if bool_decide (QuoteOffset reply ≠ 0) || bool_decide (length (QuoteEntities reply) ≠ 0%nat) then Some ErrQuoteTextInvalid else None
  else
    let source := utf16Units text in
    let quote := utf16Units (QuoteText reply) in
    let start := QuoteOffset reply in
    if bool_decide (start < 0) || bool_decide (start > len source) || bool_decide (len quote > len source - start) then Some ErrQuoteTextInvalid
    else if negb (unitsAt (drop (Z.to_nat start) source) quote) then Some ErrQuoteTextInvalid
    else if existsb (λ e, bool_decide (ent_Offset e < 0) || bool_decide (ent_Length e ≤ 0) || bool_decide (ent_Offset e > len quote)
                          || bool_decide (ent_Length e > len quote - ent_Offset e)) (QuoteEntities reply) then Some ErrQuoteTextInvalid
    else None.
End data.
Arguments MessageEntity X : clear implicits.
Arguments MessageServiceAction X : clear implicits.
Arguments MessageWebPage X : clear implicits.
Arguments Document X : clear implicits.
Arguments MessageMedia X : clear implicits.
Arguments MessageRichMessage X : clear implicits.
Arguments MessageReplyExternal X : clear implicits.
Arguments MessageReply X : clear implicits.
Arguments Message X : clear implicits.
Arguments Dialog X : clear implicits.
Arguments DialogList X : clear implicits.
End Mail.
