(* ===== verification/MailStore.v ===== *)
(** * Private messages: the store and sending

    [internal/store/memory/message_store.go], [message_allocators.go],
    [message_send.go], [message_forward.go], [message_no_forwards.go],
    [album_group.go] and [internal/store/private_send_idempotency.go].  A method
    runs in one critical section of the store's mutex and is one function of the
    state.  Forwarding and the content-protection switch take the mutex several
    times; [other i] is what other requests do before the [i]-th of their
    sections.

    JSON and SHA-256 are arguments ([Codec]).  The clock is the argument [now]
    of an operation.  The update log is the store of [UpdateStore]. *)

From S2P Require Import Prelude UpdateTypes UpdateStore MailTypes.
Import Mail.

(** The built-in accounts; [premiumBot] is the configured id of one of them. *)
Definition isSystemUser (premiumBot id : Z) : bool :=
  bool_decide (id ∈ [premiumBot; 777000; 93372553; 1063110917; 1250000007; 1250000011; 1250000013; 1250000017;
                     1250000019; 1250000021; 1250000022]).

Module MailStore.
Section store.
Context {X : Type} `{EqX : EqDecision X} `{InhX : Inhabited X}.
Abbreviation message := (Message X).
Abbreviation event := (UpdateEvent message).
Abbreviation eventStore := (@MemoryEvents.t message).

(** ** State *)

Record privateSendDedupRecord := mkDedup {
  recipientUserID : Z;
  senderSnapshot : list Z;
  recipientMessage : message;
  fingerprint : list Z;
  senderDeleteEvent : option event;
}.
Record albumGroupRecord := mkAlbum { ag_groupedID : Z; ag_intentHash : list Z }.
Record PrivateNoForwardsState := mkNoForwards { UserLowID : Z; UserHighID : Z; EnabledByUserID : Z }.
Record memoryNoForwardsRequest := mkNoForwardsRequest {
  privateMessageID : Z; requesterUserID : Z; responderUserID : Z; expiresAt : Z; handled : bool }.

Record MessageStore := mkStore {
  m : gmap Z (list message);
  nextUID : Z;
  nextBox : gmap Z Z;
  nextPts : gmap Z Z;
  readOutboxDates : gmap (Z * Z * Z) Z;
  savedMessageTags : gmap Z (gmap Z X);
  privateSendDedup : gmap (Z * Z) privateSendDedupRecord;
  albumGroups : gmap (PeerType * Z * Z * Z) albumGroupRecord;
  dialogs : option (gmap Z (DialogList X));
  updateEvents : option eventStore;
  savedPins : gmap Z (list Peer);
  privateNoForwards : gmap (Z * Z) PrivateNoForwardsState;
  privateNoForwardsRequests : gmap Z memoryNoForwardsRequest;
}.
Definition put_m (v : gmap Z (list message)) (s : MessageStore) : MessageStore :=
  mkStore v (nextUID s) (nextBox s) (nextPts s) (readOutboxDates s) (savedMessageTags s) (privateSendDedup s)
  (albumGroups s) (dialogs s) (updateEvents s) (savedPins s) (privateNoForwards s) (privateNoForwardsRequests
  s).
Definition put_nextUID (v : Z) (s : MessageStore) : MessageStore :=
  mkStore (m s) v (nextBox s) (nextPts s) (readOutboxDates s) (savedMessageTags s) (privateSendDedup s)
  (albumGroups s) (dialogs s) (updateEvents s) (savedPins s) (privateNoForwards s) (privateNoForwardsRequests
  s).
Definition put_nextBox (v : gmap Z Z) (s : MessageStore) : MessageStore :=
  mkStore (m s) (nextUID s) v (nextPts s) (readOutboxDates s) (savedMessageTags s) (privateSendDedup s)
  (albumGroups s) (dialogs s) (updateEvents s) (savedPins s) (privateNoForwards s) (privateNoForwardsRequests
  s).
Definition put_nextPts (v : gmap Z Z) (s : MessageStore) : MessageStore :=
  mkStore (m s) (nextUID s) (nextBox s) v (readOutboxDates s) (savedMessageTags s) (privateSendDedup s)
  (albumGroups s) (dialogs s) (updateEvents s) (savedPins s) (privateNoForwards s) (privateNoForwardsRequests
  s).
Definition put_readOutboxDates (v : gmap (Z * Z * Z) Z) (s : MessageStore) : MessageStore :=
  mkStore (m s) (nextUID s) (nextBox s) (nextPts s) v (savedMessageTags s) (privateSendDedup s) (albumGroups
  s) (dialogs s) (updateEvents s) (savedPins s) (privateNoForwards s) (privateNoForwardsRequests s).
Definition put_savedMessageTags (v : gmap Z (gmap Z X)) (s : MessageStore) : MessageStore :=
  mkStore (m s) (nextUID s) (nextBox s) (nextPts s) (readOutboxDates s) v (privateSendDedup s) (albumGroups s)
  (dialogs s) (updateEvents s) (savedPins s) (privateNoForwards s) (privateNoForwardsRequests s).
Definition put_privateSendDedup (v : gmap (Z * Z) privateSendDedupRecord) (s : MessageStore) : MessageStore :=
  mkStore (m s) (nextUID s) (nextBox s) (nextPts s) (readOutboxDates s) (savedMessageTags s) v (albumGroups s)
  (dialogs s) (updateEvents s) (savedPins s) (privateNoForwards s) (privateNoForwardsRequests s).
Definition put_albumGroups (v : gmap (PeerType * Z * Z * Z) albumGroupRecord) (s : MessageStore) : MessageStore :=
  mkStore (m s) (nextUID s) (nextBox s) (nextPts s) (readOutboxDates s) (savedMessageTags s) (privateSendDedup
  s) v (dialogs s) (updateEvents s) (savedPins s) (privateNoForwards s) (privateNoForwardsRequests s).
Definition put_dialogs (v : option (gmap Z (DialogList X))) (s : MessageStore) : MessageStore :=
  mkStore (m s) (nextUID s) (nextBox s) (nextPts s) (readOutboxDates s) (savedMessageTags s) (privateSendDedup
  s) (albumGroups s) v (updateEvents s) (savedPins s) (privateNoForwards s) (privateNoForwardsRequests s).
Definition put_updateEvents (v : option eventStore) (s : MessageStore) : MessageStore :=
  mkStore (m s) (nextUID s) (nextBox s) (nextPts s) (readOutboxDates s) (savedMessageTags s) (privateSendDedup
  s) (albumGroups s) (dialogs s) v (savedPins s) (privateNoForwards s) (privateNoForwardsRequests s).
Definition put_savedPins (v : gmap Z (list Peer)) (s : MessageStore) : MessageStore :=
  mkStore (m s) (nextUID s) (nextBox s) (nextPts s) (readOutboxDates s) (savedMessageTags s) (privateSendDedup
  s) (albumGroups s) (dialogs s) (updateEvents s) v (privateNoForwards s) (privateNoForwardsRequests s).
Definition put_privateNoForwards (v : gmap (Z * Z) PrivateNoForwardsState) (s : MessageStore) : MessageStore :=
  mkStore (m s) (nextUID s) (nextBox s) (nextPts s) (readOutboxDates s) (savedMessageTags s) (privateSendDedup
  s) (albumGroups s) (dialogs s) (updateEvents s) (savedPins s) v (privateNoForwardsRequests s).
Definition put_privateNoForwardsRequests (v : gmap Z memoryNoForwardsRequest) (s : MessageStore) : MessageStore :=
  mkStore (m s) (nextUID s) (nextBox s) (nextPts s) (readOutboxDates s) (savedMessageTags s) (privateSendDedup
  s) (albumGroups s) (dialogs s) (updateEvents s) (savedPins s) (privateNoForwards s) v.

Definition NewMessageStore (ds : option (gmap Z (DialogList X))) : MessageStore :=
  mkStore ∅ 1 ∅ ∅ ∅ ∅ ∅ ∅ ds (Some MemoryEvents.NewUpdateEventStore) ∅ ∅ ∅.

(** A missing key of a Go map reads as the zero value. *)
Definition boxOf (s : MessageStore) (userID : Z) : list message := default [] (m s !! userID).
Definition nextBoxOf (s : MessageStore) (userID : Z) : Z := default 0 (nextBox s !! userID).
Definition nextPtsOf (s : MessageStore) (userID : Z) : Z := default 0 (nextPts s !! userID).
Definition listOf (ds : gmap Z (DialogList X)) (userID : Z) : DialogList X := default noDialogList (ds !! userID).
Definition putBox (userID : Z) (ms : list message) (s : MessageStore) : MessageStore := put_m (<[userID := ms]> (m s)) s.

(** ** Allocators *)

Definition nextBoxIDLocked (userID : Z) (s : MessageStore) : MessageStore * Z :=
  let next := nextBoxOf s userID + 1 in (put_nextBox (<[userID := next]> (nextBox s)) s, next).
Definition nextPtsLocked (userID : Z) (s : MessageStore) : MessageStore * Z :=
  let next := nextPtsOf s userID + 1 in (put_nextPts (<[userID := next]> (nextPts s)) s, next).
Definition nextPtsNLocked (userID count : Z) (s : MessageStore) : MessageStore * Z :=
  let count := if bool_decide (count ≤ 0) then 1 else count in
  let next := nextPtsOf s userID + count in (put_nextPts (<[userID := next]> (nextPts s)) s, next).
(** [for _, event := range events.events[userID]]: the larger of [current] and every pts. *)
Definition scanPts (current : Z) (es : list event) : Z :=
  foldl (λ current e, if bool_decide (e_Pts e > current) then e_Pts e else current) current es.
Definition nextPtsWithEventsLocked (events : eventStore) (userID : Z) (s : MessageStore) : MessageStore * Z :=
  let current := scanPts (nextPtsOf s userID) (MemoryEvents.eventsOf events userID) + 1 in
  (put_nextPts (<[userID := current]> (nextPts s)) s, current).

Definition appendMemorySendEventLocked (events : eventStore) (userID : Z) (e : event)
    (excludeAuthKeyID excludeSessionID : Z) : eventStore :=
  let '(events, e) := MemoryEvents.appendLocked userID e false events in
  MemoryEvents.mkStore (MemoryEvents.events events)
    (<[userID := MemoryEvents.dispatchesOf events userID
                 ++ [MemoryEvents.mkDispatch (e_Pts e) excludeAuthKeyID excludeSessionID]]> (MemoryEvents.dispatches events)).

(** ** Dialogs *)

(** The fields of [dialog] that [upsertMemoryDialog] takes from the dialog it replaces. *)
Definition mergeDialog (old d : Dialog X) : Dialog X :=
  let keepPin := negb (DPinned d) && DPinned old in
  mkDialog (DPeer d)
    (if bool_decide (FolderID d = DialogMainFolderID) && negb (bool_decide (FolderID old = DialogMainFolderID)) then FolderID old else FolderID d)
    (TopMessage d) (TopMessageDate d)
    (if bool_decide (ReadInboxMaxID d = 0) then ReadInboxMaxID old else ReadInboxMaxID d)
    (if bool_decide (ReadOutboxMaxID d = 0) then ReadOutboxMaxID old else ReadOutboxMaxID d)
    (if bool_decide (UnreadCount d = 0) then UnreadCount old else UnreadCount d)
    (if bool_decide (UnreadMentions d = 0) then UnreadMentions old else UnreadMentions d)
    (if bool_decide (UnreadReactions d = 0) then UnreadReactions old else UnreadReactions d)
    (if bool_decide (DTTLPeriod d = 0) then DTTLPeriod old else DTTLPeriod d)
    (if bool_decide (ThemeEmoticon d = []) then ThemeEmoticon old else ThemeEmoticon d)
    (if HasScheduled d then true else HasScheduled old)
    (if keepPin then DPinned old else DPinned d)
    (if keepPin then PinnedOrder old else PinnedOrder d)
    (if UnreadMark d then true else UnreadMark old)
    (if ViewForumAsMessages d then true else ViewForumAsMessages old)
    (if PeerSettingsBarHidden d then true else PeerSettingsBarHidden old)
    (match Draft d with None => Draft old | Some x => Some x end)
    (d_rest d).
Fixpoint upsertDialogs (ds : list (Dialog X)) (d : Dialog X) : list (Dialog X) :=
  match ds with
  | [] => [d]
  | old :: ds => if bool_decide (DPeer old = DPeer d) then mergeDialog old d :: ds else old :: upsertDialogs ds d
  end.
Definition upsertMemoryDialog (l : DialogList X) (d : Dialog X) : DialogList X :=
  mkDialogList (upsertDialogs (Dialogs l) d) (Messages l) (Users l).
(** Clears the manual unread mark of the first dialog with the peer. *)
Fixpoint clearMark (peer : Peer) (ds : list (Dialog X)) : list (Dialog X) :=
  match ds with
  | [] => []
  | d :: ds => if bool_decide (DPeer d = peer) then set_UnreadMark false d :: ds else d :: clearMark peer ds
  end.

Definition isUnread (peer : Peer) (readMax : Z) (x : message) : bool :=
  bool_decide (MPeer x = peer) && negb (Out x) && bool_decide (ID x > readMax).
Definition countUnread (peer : Peer) (readMax : Z) (ms : list message) : Z :=
  foldl (λ n x, if isUnread peer readMax x then n + 1 else n) 0 ms.
Definition privateUnreadCountLocked (ds : gmap Z (DialogList X)) (ms : list message) (ownerUserID : Z) (peer : Peer) : Z :=
  let readMax := match List.find (λ d, bool_decide (DPeer d = peer)) (Dialogs (listOf ds ownerUserID)) with
                 | Some d => ReadInboxMaxID d | None => 0 end in
  countUnread peer readMax ms.

Definition upsertMemoryDialogsLocked (boxes : gmap Z (list message)) (sender recipient : message)
    (ds : gmap Z (DialogList X)) : gmap Z (DialogList X) :=
  let l := upsertMemoryDialog (listOf ds (OwnerUserID sender)) (newDialog (MPeer sender) (ID sender) (Date sender) 0) in
  let l := mkDialogList (clearMark (MPeer sender) (Dialogs l)) (Messages l ++ [sender]) (Users l) in
  let ds := <[OwnerUserID sender := l]> ds in
  if bool_decide (OwnerUserID recipient ≠ OwnerUserID sender) then
    let unread := privateUnreadCountLocked ds (default [] (boxes !! OwnerUserID recipient)) (OwnerUserID recipient) (MPeer recipient) in
    let l := upsertMemoryDialog (listOf ds (OwnerUserID recipient)) (newDialog (MPeer recipient) (ID recipient) (Date recipient) unread) in
    <[OwnerUserID recipient := mkDialogList (Dialogs l) (Messages l ++ [recipient]) (Users l)]> ds
  else ds.

(** ** JSON *)

Record privateSendFingerprintPayload := mkPayload {
  fp_Version : Z; fp_RecipientUserID : Z; fp_Message : list Z; fp_Entities : list (MessageEntity X); fp_Media : option (MessageMedia X);
  fp_Silent : bool; fp_NoForwards : bool; fp_ReplyTo : option (MessageReply X); fp_Forward : option MessageForward; fp_TTLPeriod : Z;
  fp_ViaBotID : Z; fp_GroupedID : Z; fp_Effect : Z; fp_ReplyMarkup : option X; fp_RichMessage : option (MessageRichMessage X) }.

(** [json.Marshal] and [json.Unmarshal] of an external reply snapshot and of the
    send receipt [{version, message}], and [sha256.Sum256] of the marshalled
    fingerprint payload; [None] is a marshalling error. *)
Record Codec := mkCodec {
  marshalExternal : MessageReplyExternal X → option (list Z);
  unmarshalExternal : list Z → option (MessageReplyExternal X);
  marshalSnapshot : Z → message → option (list Z);
  unmarshalSnapshot : list Z → option (Z * message);
  sumFingerprint : privateSendFingerprintPayload → option (list Z);
}.
Context (C : Codec).

Definition EncodeMessageReplyExternal (v : MessageReplyExternal X) : option (list Z) :=
  let f := ext_From v in
  if bool_decide (fwd_Date f ≤ 0) || bool_decide (peerID (fwd_From f) ≤ 0)
     || negb (bool_decide (peerType (fwd_From f) = PeerTypeUser) || bool_decide (peerType (fwd_From f) = PeerTypeChannel))
     || bool_decide (peerID (SavedFrom f) ≠ 0) || bool_decide (SavedFromMsgID f ≠ 0)
     || bool_decide (len (ext_Entities v) > MaxMessageEntityCount) || negb (validString (ext_Text v))
     || bool_decide (runeCount (ext_Text v) > MaxMessageTextLength) then None
  else
    match marshalExternal C v with
    | None => None
    | Some b => if bool_decide (len b > MaxMessageReplyExternalBytes) then None else Some b
    end.
(** [bytes.TrimSpace] of ASCII spaces, which are all that JSON allows. *)
Fixpoint trimLeft (b : list Z) : list Z :=
  match b with
  | [] => []
  | x :: b' => if bool_decide (x ∈ [9; 10; 11; 12; 13; 32]) then trimLeft b' else b
  end.
Definition trimSpace (b : list Z) : list Z := rev (trimLeft (rev (trimLeft b))).
(** [None] is an error, [Some None] the nil snapshot. *)
Definition DecodeMessageReplyExternal (b : list Z) : option (option (MessageReplyExternal X)) :=
  if bool_decide (b = []) || bool_decide (trimSpace b = [123; 125]) then Some None
  else if bool_decide (len b > MaxMessageReplyExternalBytes) then None
  else
    match unmarshalExternal C b with
    | None => None
    | Some v => match EncodeMessageReplyExternal v with None => None | Some _ => Some (Some v) end
    end.
Definition NewMessageReplyExternal (source : message) : option (option (MessageReplyExternal X)) :=
  match EncodeMessageReplyExternal
          (mkExternal (mkForward (From source) [] (Date source) 0 noPeer 0) (Body source) (Entities source) (Media source)) with
  | None => None
  | Some b => DecodeMessageReplyExternal b
  end.

Definition sendSnapshotVersion : Z := 1.
Definition privateSendFingerprintVersion : Z := 1.
Definition snapshotIncomplete (x : message) : bool :=
  bool_decide (ID x ≤ 0) || bool_decide (UID x ≤ 0) || bool_decide (RandomID x = 0) || bool_decide (OwnerUserID x = 0) || bool_decide (Pts x ≤ 0).
Definition externalInvalid (x : message) : bool :=
  match ReplyTo x with
  | None => false
  | Some r => match External r with
              | None => false
              | Some v => match EncodeMessageReplyExternal v with None => true | Some _ => false end
              end
  end.
Definition EncodePrivateSendSnapshot (x : message) : mailError + list Z :=
  if snapshotIncomplete x then inl ErrSnapshotInvalid
  else if externalInvalid x then inl ErrSnapshotInvalid
  else match marshalSnapshot C sendSnapshotVersion x with None => inl ErrSnapshotMarshal | Some raw => inr raw end.
Definition DecodePrivateSendSnapshot (raw : list Z) : mailError + message :=
  match unmarshalSnapshot C raw with
  | None => inl ErrSnapshotUnmarshal
  | Some (version, x) =>
    if bool_decide (version ≠ sendSnapshotVersion) || snapshotIncomplete x then inl ErrSnapshotInvalid
    else if externalInvalid x then inl ErrSnapshotInvalid
    else inr x
  end.

(** ** Requests and results *)

Record SendPrivateTextRequest := mkSend {
  SenderUserID : Z; RecipientUserID : Z; q_RandomID : Z; q_Message : list Z; q_Entities : list (MessageEntity X);
  q_Media : option (MessageMedia X); q_Silent : bool; q_NoForwards : bool; q_ReplyTo : option (MessageReply X);
  q_Forward : option MessageForward; q_Date : Z; OriginAuthKeyID : Z; OriginSessionID : Z; OriginUserID : Z;
  RecipientBlocked : bool; IdempotencyFingerprint : list Z; q_TTLPeriod : Z; q_ViaBotID : Z; q_GroupedID : Z; q_Effect : Z;
  q_ReplyMarkup : option X; q_RichMessage : option (MessageRichMessage X) }.
Definition HasContent (q : SendPrivateTextRequest) : bool :=
  bool_decide (q_Message q ≠ []) || negb (mediaIsZero (q_Media q)) || negb (richIsZero (q_RichMessage q)).
Record PrivateSendReplayRequest := mkReplay {
  rp_SenderUserID : Z; rp_RecipientUserID : Z; rp_RandomID : Z; rp_Fingerprint : list Z }.
Record SendPrivateTextResult := mkSent {
  SenderMessage : message; RecipientMessage : message; SenderEvent : event; RecipientEvent : event;
  Duplicate : bool; ReplayDeleteEvent : option event }.

Definition ValidateSendFingerprint (fp : list Z) : option mailError :=
  if bool_decide (len fp ≠ sha256Size) then Some (ErrFingerprintSize (len fp)) else None.
Definition SameSendFingerprint (stored expected : list Z) : bool :=
  bool_decide (len stored = sha256Size) && bool_decide (len expected = sha256Size) && bool_decide (stored = expected).
Definition PrivateSendFingerprint (q : SendPrivateTextRequest) : mailError + list Z :=
  if bool_decide (IdempotencyFingerprint q ≠ []) then
    if bool_decide (len (IdempotencyFingerprint q) ≠ sha256Size) then inl (ErrFingerprintSize (len (IdempotencyFingerprint q)))
    else inr (IdempotencyFingerprint q)
  else
    match sumFingerprint C (mkPayload privateSendFingerprintVersion (RecipientUserID q) (q_Message q) (q_Entities q) (q_Media q)
            (q_Silent q) (q_NoForwards q) (q_ReplyTo q) (q_Forward q) (q_TTLPeriod q) (q_ViaBotID q) (q_GroupedID q) (q_Effect q)
            (q_ReplyMarkup q) (q_RichMessage q)) with
    | None => inl ErrFingerprintMarshal
    | Some sum => inr sum
    end.

(** ** Replays of a send *)

Definition isRow (uid id : Z) (x : message) : bool := bool_decide (UID x = uid) && bool_decide (ID x = id).
(** [None] is "not found". *)
Definition lookupPrivateSendReplayLocked (q : PrivateSendReplayRequest) (s : MessageStore) : mailError + option SendPrivateTextResult :=
  match privateSendDedup s !! (rp_SenderUserID q, rp_RandomID q) with
  | None => inr None
  | Some record =>
    if bool_decide (recipientUserID record ≠ rp_RecipientUserID q) || negb (SameSendFingerprint (fingerprint record) (rp_Fingerprint q))
    then inl ErrMessageRandomIDDuplicate
    else
      match DecodePrivateSendSnapshot (senderSnapshot record) with
      | inl e => inl e
      | inr firstSender =>
        let current := List.find (isRow (UID firstSender) (ID firstSender)) (boxOf s (rp_SenderUserID q)) in
        let sender := match current with Some x => set_RandomID (RandomID firstSender) x | None => firstSender end in
        match current, senderDeleteEvent record with
        | None, None => inl (ErrAbsentWithoutReceipt (UID firstSender))
        | _, replayDelete =>
          let recipient := recipientMessage record in
          inr (Some (mkSent sender recipient (newMessageEvent firstSender) (newMessageEvent recipient) true replayDelete))
        end
      end
  end.
Definition LookupPrivateSendReplay (q : PrivateSendReplayRequest) (s : MessageStore) : mailError + option SendPrivateTextResult :=
  if bool_decide (rp_SenderUserID q = 0) || bool_decide (rp_RecipientUserID q = 0) || bool_decide (rp_RandomID q = 0) then inl ErrReplayScope
  else match ValidateSendFingerprint (rp_Fingerprint q) with
       | Some e => inl e
       | None => lookupPrivateSendReplayLocked q s
       end.
Definition immutablePrivateSendReceipt (x : message) : message :=
  if bool_decide (ID x = 0) then noMessage
  else mkMessage (ID x) (UID x) (RandomID x) (OwnerUserID x) (MPeer x) (From x) (Date x) 0 false (Out x) false false [] [] None None None
         (Pts x) 0 0 None false false 0 0 0 None None false false noPeer 0.

(** ** Content protection of a pair of accounts *)

Definition noForwardsPair (a b : Z) : option (Z * Z) :=
  if bool_decide (a ≤ 0) || bool_decide (b ≤ 0) || bool_decide (a = b) then None
  else if bool_decide (a > b) then Some (b, a) else Some (a, b).
Definition noForwardsOf (s : MessageStore) (key : Z * Z) : PrivateNoForwardsState :=
  default (mkNoForwards 0 0 0) (privateNoForwards s !! key).
Definition Enabled (st : PrivateNoForwardsState) : bool := bool_decide (EnabledByUserID st ≠ 0).
Definition privateNoForwardsEnabled (a b : Z) (s : MessageStore) : bool :=
  match noForwardsPair a b with None => false | Some key => Enabled (noForwardsOf s key) end.
Definition GetPrivateNoForwards (viewerUserID peerUserID : Z) (s : MessageStore) : mailError + PrivateNoForwardsState :=
  match noForwardsPair viewerUserID peerUserID with
  | None => inl ErrMessageIDInvalid
  | Some (low, high) => inr (mkNoForwards low high (EnabledByUserID (noForwardsOf s (low, high))))
  end.

(** ** The reply header of a send *)

Definition set_reply_target (id : Z) (peer : Peer) (top : Z) (external : option (MessageReplyExternal X)) (r : MessageReply X) : MessageReply X :=
  mkReply id peer top (ForumTopic r) (QuoteText r) (QuoteEntities r) (QuoteOffset r) external (StoryID r).
Definition isBoxed (peer : Peer) (id : Z) (x : message) : bool := bool_decide (MPeer x = peer) && bool_decide (ID x = id).
(** [find] of a loop that keeps a zero message when nothing matches. *)
Definition findOr (f : message → bool) (ms : list message) : message := default noMessage (List.find f ms).
Definition resolveMemoryReplyLocked (q : SendPrivateTextRequest) (s : MessageStore)
    : mailError + option (MessageReply X) * option (MessageReply X) :=
  match q_ReplyTo q with
  | None => inr (None, None)
  | Some r =>
    match ValidateMessageReplyBounds r with
    | Some e => inl e
    | None =>
      if bool_decide (StoryID r > 0) then
        let reply := mkReply 0 (user (RecipientUserID q)) 0 false [] [] 0 None (StoryID r) in inr (Some reply, Some reply)
      else
        let peer := if bool_decide (peerID (r_Peer r) = 0) then user (RecipientUserID q) else r_Peer r in
        if negb (bool_decide (peerType peer = PeerTypeUser)) || match External r with None => false | Some _ => true end
        then inl ErrReplyMessageIDInvalid
        else
          let target := findOr (isBoxed peer (r_MessageID r)) (boxOf s (SenderUserID q)) in
          if bool_decide (ID target = 0) then inl ErrReplyMessageIDInvalid
          else
            let senderReply := set_reply_target (ID target) peer (TopMessageID r) (External r) r in
            if bool_decide (peerID peer ≠ RecipientUserID q) then
              let protected := NoForwards target || match Media target with None => false | Some x => bool_decide (TTLSeconds x > 0) end in
              let protected := match noForwardsPair (SenderUserID q) (peerID peer) with
                               | Some key => protected || Enabled (noForwardsOf s key)
                               | None => protected
                               end in
              if protected then inl ErrChatForwardsRestricted
              else
                match ValidateExternalReplyQuote r (Body target) with
                | Some e => inl e
                | None =>
                  match NewMessageReplyExternal target with
                  | None => inl ErrExternalReply
                  | Some external =>
                    let senderReply := set_reply_target (ID target) peer (TopMessageID r) external r in
                    if bool_decide (SenderUserID q ≠ RecipientUserID q)
                    then inr (Some senderReply, Some (set_reply_target 0 peer 0 external r))
                    else inr (Some senderReply, Some senderReply)
                  end
                end
            else if bool_decide (SenderUserID q = RecipientUserID q) then inr (Some senderReply, Some senderReply)
            else
              match List.find (λ x, bool_decide (UID x = UID target)) (boxOf s (RecipientUserID q)) with
              | Some x => inr (Some senderReply, Some (set_reply_target (ID x) (user (SenderUserID q)) (TopMessageID r) (External r) r))
              | None => inr (Some senderReply, None)
              end
    end
  end.

(** ** Sending *)

(** [memoryPrivateSendPrefix]: events to stage before the message, and the
    change of the boxes that goes with them. *)
Record sendPrefix := mkPrefix {
  prefixEvents : list event;
  prefixApply : gmap Z (list message) → gmap Z (list message);
}.

(** The closure [nextPTS] over the map [allocatedPTS]. *)
Definition stagePts (s : MessageStore) (events : eventStore) (userID : Z) (allocated : gmap Z Z) : gmap Z Z * Z :=
  let current := match allocated !! userID with
                 | Some current => current
                 | None => scanPts (nextPtsOf s userID) (MemoryEvents.eventsOf events userID)
                 end in
  (<[userID := current + 1]> allocated, current + 1).
Fixpoint stagePrefix (s : MessageStore) (events : eventStore) (es : list event) (allocated : gmap Z Z) : gmap Z Z * list event :=
  match es with
  | [] => (allocated, [])
  | e :: es =>
    let '(allocated, pts) := stagePts s events (e_UserID e) allocated in
    let '(allocated, es) := stagePrefix s events es allocated in
    (allocated, with_Pts pts e :: es)
  end.

Definition senderCopy (q : SendPrivateTextRequest) (s : MessageStore) (date : Z) (reply : option (MessageReply X)) (pts : Z) : message :=
  mkMessage (nextBoxOf s (SenderUserID q) + 1) (nextUID s) (q_RandomID q) (SenderUserID q) (user (RecipientUserID q)) (user (SenderUserID q))
    date 0 false true (q_Silent q) (q_NoForwards q) (q_Message q) (q_Entities q) reply (q_Forward q) None pts 0 0 (q_Media q)
    (HasUnreadPayload (q_Media q) && negb (bool_decide (SenderUserID q = RecipientUserID q))) false (q_ViaBotID q) (q_GroupedID q) (q_Effect q)
    (q_ReplyMarkup q) (q_RichMessage q) false false
    (if bool_decide (SenderUserID q = RecipientUserID q) then SavedPeerForSelfChat (SenderUserID q) (q_Forward q) else noPeer) 0.
Definition recipientCopy (q : SendPrivateTextRequest) (s : MessageStore) (sender : message) (reply : option (MessageReply X)) (pts : Z) : message :=
  set_MediaUnread (HasUnreadPayload (q_Media q)) (set_Pts pts (set_ReplyTo reply (set_Out false (set_MPeer (user (SenderUserID q))
    (set_OwnerUserID (RecipientUserID q) (set_ID (nextBoxOf s (RecipientUserID q) + 1) sender)))))).

Definition appendPrefixEvents (q : SendPrivateTextRequest) (es : list event) (events : eventStore) : eventStore :=
  foldl (λ events e,
    let mine := bool_decide (e_UserID e = SenderUserID q) in
    appendMemorySendEventLocked events (e_UserID e) e (if mine then OriginAuthKeyID q else 0) (if mine then OriginSessionID q else 0)) events es.

(** Everything after the last fallible step. *)
Definition commitPrivateSend (q : SendPrivateTextRequest) (fp : list Z) (apply : gmap Z (list message) → gmap Z (list message))
    (staged : list event) (allocated : gmap Z Z) (sender recipient : message) (snapshot : option (list Z)) (events : eventStore)
    (s : MessageStore) : MessageStore :=
  let s := put_m (apply (m s)) s in
  let events := appendPrefixEvents q staged events in
  let s := put_nextUID (nextUID s + 1) s in
  let s := put_nextBox (<[SenderUserID q := ID sender]> (nextBox s)) s in
  let s := if bool_decide (ID recipient ≠ 0) then put_nextBox (<[OwnerUserID recipient := ID recipient]> (nextBox s)) s else s in
  let s := put_nextPts (allocated ∪ nextPts s) s in
  let s := putBox (SenderUserID q) (boxOf s (SenderUserID q) ++ [sender]) s in
  let s := if bool_decide (SenderUserID q ≠ RecipientUserID q) && negb (RecipientBlocked q)
           then putBox (RecipientUserID q) (boxOf s (RecipientUserID q) ++ [recipient]) s else s in
  let s := match snapshot with
           | Some raw =>
             put_privateSendDedup (<[(SenderUserID q, q_RandomID q) :=
               mkDedup (RecipientUserID q) raw (immutablePrivateSendReceipt recipient) fp None]> (privateSendDedup s)) s
           | None => s
           end in
  let s := match dialogs s with
           | Some ds => put_dialogs (Some (upsertMemoryDialogsLocked (m s) sender (if bool_decide (ID recipient ≠ 0) then recipient else sender) ds)) s
           | None => s
           end in
  let originUserID := if bool_decide (OriginUserID q = 0) then SenderUserID q else OriginUserID q in
  let mine := bool_decide (originUserID = SenderUserID q) in
  let events := appendMemorySendEventLocked events (SenderUserID q) (newMessageEvent sender)
                  (if mine then OriginAuthKeyID q else 0) (if mine then OriginSessionID q else 0) in
  let events := if bool_decide (ID recipient ≠ 0) && negb (bool_decide (OwnerUserID recipient = OwnerUserID sender)) then
                  let theirs := bool_decide (originUserID = RecipientUserID q) in
                  appendMemorySendEventLocked events (RecipientUserID q) (newMessageEvent recipient)
                    (if theirs then OriginAuthKeyID q else 0) (if theirs then OriginSessionID q else 0)
                else events in
  put_updateEvents (Some events) s.

Definition sendPrivateTextLocked (now : Z) (q : SendPrivateTextRequest) (fp : list Z) (prefix : option sendPrefix) (s : MessageStore)
    : MessageStore * (mailError + SendPrivateTextResult) :=
  match lookupPrivateSendReplayLocked (mkReplay (SenderUserID q) (RecipientUserID q) (q_RandomID q) fp) s with
  | inl e => (s, inl e)
  | inr (Some replay) => (s, inr replay)
  | inr None =>
    let date := if bool_decide (q_Date q = 0) then now else q_Date q in
    match resolveMemoryReplyLocked q s with
    | inl e => (s, inl e)
    | inr (senderReply, recipientReply) =>
      match updateEvents s with
      | None => (s, inl ErrDeliveryOutboxRequired)
      | Some events =>
        let '(allocated, staged) := match prefix with Some p => stagePrefix s events (prefixEvents p) ∅ | None => (∅, []) end in
        let '(allocated, senderPts) := stagePts s events (SenderUserID q) allocated in
        let sender := senderCopy q s date senderReply senderPts in
        let '(allocated, recipient) :=
          if bool_decide (SenderUserID q = RecipientUserID q) then (allocated, sender)
          else if RecipientBlocked q then (allocated, noMessage)
          else let '(allocated, pts) := stagePts s events (RecipientUserID q) allocated in
               (allocated, recipientCopy q s sender recipientReply pts) in
        let snapshot := if bool_decide (q_RandomID q ≠ 0)
                        then match EncodePrivateSendSnapshot sender with inl e => inl e | inr raw => inr (Some raw) end
                        else inr None in
        match snapshot with
        | inl e => (s, inl e)
        | inr snapshot =>
          (commitPrivateSend q fp (match prefix with Some p => prefixApply p | None => λ b, b end) staged allocated sender recipient snapshot events s,
           inr (mkSent sender recipient (newMessageEvent sender) (newMessageEvent recipient) false None))
        end
      end
    end
  end.
Definition SendPrivateText (now : Z) (q : SendPrivateTextRequest) (s : MessageStore) : MessageStore * (mailError + SendPrivateTextResult) :=
  if negb (HasContent q) then (s, inl ErrMessageEmpty)
  else match PrivateSendFingerprint q with
       | inl e => (s, inl e)
       | inr fp => sendPrivateTextLocked now q fp None s
       end.

Definition Create (premiumBot : Z) (x : message) (s : MessageStore) : MessageStore * message :=
  let '(s, id) := nextBoxIDLocked (OwnerUserID x) s in
  let x := set_UID (nextUID s) (set_ID id x) in
  let s := put_nextUID (nextUID s + 1) s in
  let s := putBox (OwnerUserID x) (boxOf s (OwnerUserID x) ++ [x]) s in
  let s := match dialogs s with
           | None => s
           | Some ds =>
             let l := listOf ds (OwnerUserID x) in
             let users := if bool_decide (peerType (MPeer x) = PeerTypeUser) && negb (bool_decide (peerID (MPeer x) ∈ Users l))
                             && isSystemUser premiumBot (peerID (MPeer x)) then Users l ++ [peerID (MPeer x)] else Users l in
             put_dialogs (Some (<[OwnerUserID x := mkDialogList (Dialogs l) (Messages l ++ [x]) users]> ds)) s
           end in
  (s, x).

(** ** Albums *)

Record AlbumGroupReservationRequest := mkAlbumRequest {
  ag_SenderUserID : Z; ag_Peer : Peer; ag_Items : list (Z * list Z); ProposedGroupedID : Z }.
(** The items are pairs of a random id and an intent hash; [seen] are the earlier random ids. *)
Fixpoint validateItems (seen : list Z) (items : list (Z * list Z)) : option mailError :=
  match items with
  | [] => None
  | (rid, hash) :: items =>
    if bool_decide (rid = 0) || bool_decide (len hash ≠ sha256Size) then Some ErrAlbumGroupReservationInvalid
    else if bool_decide (rid ∈ seen) then Some ErrMessageRandomIDDuplicate
    else validateItems (rid :: seen) items
  end.
Definition validateAlbum (r : AlbumGroupReservationRequest) : option mailError :=
  if bool_decide (ag_SenderUserID r ≤ 0) || bool_decide (peerID (ag_Peer r) ≤ 0) || bool_decide (ProposedGroupedID r = 0)
     || bool_decide (length (ag_Items r) = 0%nat) then Some ErrAlbumGroupReservationInvalid
  else if negb (bool_decide (peerType (ag_Peer r) = PeerTypeUser)) && negb (bool_decide (peerType (ag_Peer r) = PeerTypeChannel))
  then Some ErrAlbumGroupReservationInvalid
  else validateItems [] (ag_Items r).
Definition albumKey (r : AlbumGroupReservationRequest) (rid : Z) : PeerType * Z * Z * Z :=
  (peerType (ag_Peer r), ag_SenderUserID r, peerID (ag_Peer r), rid).
(** The loop that looks for the group the items already belong to. *)
Fixpoint existingGroup (groups : gmap (PeerType * Z * Z * Z) albumGroupRecord) (r : AlbumGroupReservationRequest)
    (items : list (Z * list Z)) (groupedID : Z) : mailError + Z :=
  match items with
  | [] => inr groupedID
  | (rid, hash) :: items =>
    match groups !! albumKey r rid with
    | None => existingGroup groups r items groupedID
    | Some g =>
      if bool_decide (ag_intentHash g ≠ hash) then inl ErrMessageRandomIDDuplicate
      else if bool_decide (groupedID ≠ 0) && bool_decide (groupedID ≠ ag_groupedID g) then inl ErrMessageRandomIDDuplicate
      else existingGroup groups r items (ag_groupedID g)
    end
  end.
Definition ReserveAlbumGroup (r : AlbumGroupReservationRequest) (s : MessageStore) : MessageStore * (mailError + Z) :=
  match validateAlbum r with
  | Some e => (s, inl e)
  | None =>
    match existingGroup (albumGroups s) r (ag_Items r) 0 with
    | inl e => (s, inl e)
    | inr groupedID =>
      let groupedID := if bool_decide (groupedID = 0) then ProposedGroupedID r else groupedID in
      (put_albumGroups (foldl (λ g item, <[albumKey r item.1 := mkAlbum groupedID item.2]> g) (albumGroups s) (ag_Items r)) s, inr groupedID)
    end
  end.

(** ** Forwarding *)

Record ForwardPrivateMessagesRequest := mkForwardRequest {
  f_OwnerUserID : Z; FromPeer : Peer; ToUserID : Z; MessageIDs : list Z; RandomIDs : list Z; f_Silent : bool; f_NoForwards : bool;
  DropAuthor : bool; f_ReplyTo : option (MessageReply X); f_Date : Z; f_OriginAuthKeyID : Z; f_OriginSessionID : Z; f_RecipientBlocked : bool }.

(** The messages to forward, read in one critical section. *)
Fixpoint forwardSources (q : ForwardPrivateMessagesRequest) (ids : list Z) (s : MessageStore) : mailError + list message :=
  match ids with
  | [] => inr []
  | id :: ids =>
    if bool_decide (id ≤ 0) || bool_decide (id > MaxMessageBoxID) then inl ErrMessageIDInvalid
    else
      let source := findOr (isBoxed (FromPeer q) id) (boxOf s (f_OwnerUserID q)) in
      if bool_decide (ID source = 0) then inl ErrMessageIDInvalid
      else if NoForwards source then inl ErrChatForwardsRestricted
      else match forwardSources q ids s with inl e => inl e | inr sources => inr (source :: sources) end
  end.
Definition forwardHeader (q : ForwardPrivateMessagesRequest) (id : Z) (source : message) : option MessageForward :=
  if DropAuthor q then None
  else
    let f := match Forward source with Some f => f | None => mkForward (From source) [] (Date source) 0 noPeer 0 end in
    Some (if bool_decide (ToUserID q = f_OwnerUserID q) then mkForward (fwd_From f) (FromName f) (fwd_Date f) (ChannelPost f) (FromPeer q) id else f).
Definition forwardSend (q : ForwardPrivateMessagesRequest) (date id rid : Z) (source : message) : SendPrivateTextRequest :=
  mkSend (f_OwnerUserID q) (ToUserID q) rid (Body source) (Entities source) (Media source) (f_Silent q) (f_NoForwards q) (f_ReplyTo q)
    (forwardHeader q id source) date (f_OriginAuthKeyID q) (f_OriginSessionID q) 0 (f_RecipientBlocked q) [] 0 0 0 0 None None.
(** One send per source; an error ends the loop with the results so far. *)
Fixpoint forwardLoop (now date : Z) (q : ForwardPrivateMessagesRequest) (other : nat → MessageStore → MessageStore) (i : nat)
    (items : list (Z * Z * message)) (s : MessageStore) : MessageStore * (list SendPrivateTextResult * option mailError) :=
  match items with
  | [] => (s, ([], None))
  | (id, rid, source) :: items =>
    if bool_decide (rid = 0) then (s, ([], Some ErrMessageIDInvalid))
    else
      match SendPrivateText now (forwardSend q date id rid source) (other i s) with
      | (s, inl e) => (s, ([], Some e))
      | (s, inr sent) =>
        let '(s, (sents, e)) := forwardLoop now date q other (S i) items s in (s, (sent :: sents, e))
      end
  end.
Definition ForwardPrivateMessages (now : Z) (q : ForwardPrivateMessagesRequest) (other : nat → MessageStore → MessageStore) (s : MessageStore)
    : MessageStore * (list SendPrivateTextResult * option mailError) :=
  let fail e := (s, ([], Some e)) in
  if bool_decide (f_OwnerUserID q = 0) || bool_decide (ToUserID q = 0) || negb (bool_decide (peerType (FromPeer q) = PeerTypeUser))
     || bool_decide (peerID (FromPeer q) = 0) then fail ErrMessageIDInvalid
  else if bool_decide (length (MessageIDs q) = 0%nat) || negb (bool_decide (length (MessageIDs q) = length (RandomIDs q))) then fail ErrMessageIDInvalid
  else if bool_decide (len (MessageIDs q) > MaxForwardMessageIDs) then fail ErrMessageIDInvalid
  else
    let date := if bool_decide (f_Date q = 0) then now else f_Date q in
    if privateNoForwardsEnabled (f_OwnerUserID q) (peerID (FromPeer q)) s then fail ErrChatForwardsRestricted
    else
      let s := other 0%nat s in
      match forwardSources q (MessageIDs q) s with
      | inl e => (s, ([], Some e))
      | inr sources => forwardLoop now date q other 1 (zip (zip (MessageIDs q) (RandomIDs q)) sources) s
      end.

(** ** The content-protection switch *)

Record TogglePrivateNoForwardsRequest := mkToggle {
  ActorUserID : Z; PeerUserID : Z; t_Enabled : bool; RequestMsgID : Z; t_RandomID : Z; t_Date : Z; t_OriginAuthKeyID : Z; t_OriginSessionID : Z }.
Record TogglePrivateNoForwardsResult := mkToggled {
  t_State : PrivateNoForwardsState; t_Changed : bool; t_Send : option SendPrivateTextResult }.

Definition noForwardsRequestOf (s : MessageStore) (uid : Z) : memoryNoForwardsRequest :=
  default (mkNoForwardsRequest 0 0 0 0 false) (privateNoForwardsRequests s !! uid).
Definition expireAction (x : message) : message :=
  match Media x with
  | Some media =>
    match ServiceAction media with
    | Some a =>
      match act_NoForwards a with
      | Some n =>
        set_Media (Some (mkMedia (Kind media) (media_Document media)
          (Some (mkAction (act_Kind a) (Some (mkNoForwardsAction (PrevValue n) (NewValue n) true (na_ExpiresAt n))) (act_rest a)))
          (Todo media) (WebPage media) (TTLSeconds media) (Voice media) (Round media) (media_rest media))) x
      | None => x
      end
    | None => x
    end
  | None => x
  end.
Definition isNoForwardsRequest (x : message) : bool :=
  match Media x with
  | Some media => match ServiceAction media with
                  | Some a => bool_decide (act_Kind a = ActionNoForwardsRequest) && match act_NoForwards a with Some _ => true | None => false end
                  | None => false
                  end
  | None => false
  end.
Definition markNoForwardsRequestExpired (uid : Z) (s : MessageStore) : MessageStore :=
  let expire (x : message) := if bool_decide (UID x ≠ uid) || negb (isNoForwardsRequest x) then x else expireAction x in
  put_m (fmap (M:=gmap Z) (map expire) (m s)) s.

(** What the switch does: the action to announce and the state to store, an
    error, or nothing ([inr None]).  [answered] is the request being answered:
    its message and the record of it. *)
Definition toggleDecision (req : TogglePrivateNoForwardsRequest) (date : Z) (st : PrivateNoForwardsState)
    (answered : message * memoryNoForwardsRequest)
    : mailError + option (MessageServiceActionKind * MessageNoForwardsAction * PrivateNoForwardsState) :=
  let by_ u := mkNoForwards (UserLowID st) (UserHighID st) u in
  if bool_decide (RequestMsgID req ≠ 0) then
    let '(source, record) := answered in
    if bool_decide (ID source = 0) || bool_decide (privateMessageID record ≠ UID source)
       || bool_decide (requesterUserID record ≠ PeerUserID req) || bool_decide (responderUserID record ≠ ActorUserID req)
       || handled record || bool_decide (expiresAt record ≤ date)
    then inl ErrNoForwardsRequestExpired
    else inr (Some (ActionNoForwardsToggle, mkNoForwardsAction (Enabled st) (t_Enabled req) false 0, by_ (if t_Enabled req then ActorUserID req else 0)))
  else if t_Enabled req then
    if bool_decide (EnabledByUserID st ≠ 0) then inr None
    else inr (Some (ActionNoForwardsToggle, mkNoForwardsAction false true false 0, by_ (ActorUserID req)))
  else if bool_decide (EnabledByUserID st = 0) then inr None
  else if bool_decide (EnabledByUserID st = ActorUserID req) then
    inr (Some (ActionNoForwardsToggle, mkNoForwardsAction true false false 0, by_ 0))
  else inr (Some (ActionNoForwardsRequest, mkNoForwardsAction true false false (date + PrivateNoForwardsRequestExpirePeriod), st)).

(** [nano] is [time.Now().UnixNano()]. *)
Definition TogglePrivateNoForwards (now nano : Z) (req : TogglePrivateNoForwardsRequest) (other : nat → MessageStore → MessageStore)
    (s : MessageStore) : MessageStore * (mailError + TogglePrivateNoForwardsResult) :=
  match noForwardsPair (ActorUserID req) (PeerUserID req) with
  | None => (s, inl ErrMessageIDInvalid)
  | Some (low, high) =>
    if bool_decide (RequestMsgID req < 0) || bool_decide (RequestMsgID req > MaxMessageBoxID) then (s, inl ErrMessageIDInvalid)
    else
      let date := if bool_decide (t_Date req = 0) then now else t_Date req in
      let rid := if bool_decide (t_RandomID req = 0) then (if bool_decide (nano = 0) then 1 else nano) else t_RandomID req in
      let st := mkNoForwards low high (EnabledByUserID (noForwardsOf s (low, high))) in
      let s := if bool_decide (RequestMsgID req ≠ 0) then other 0%nat s else s in
      let source := if bool_decide (RequestMsgID req ≠ 0)
                    then findOr (isBoxed (user (PeerUserID req)) (RequestMsgID req)) (boxOf s (ActorUserID req)) else noMessage in
      match toggleDecision req date st (source, noForwardsRequestOf s (UID source)) with
      | inl e => (s, inl e)
      | inr None => (s, inr (mkToggled st false None))
      | inr (Some (kind, action, st)) =>
        let reply := if bool_decide (RequestMsgID req ≠ 0) then Some (replyTo (RequestMsgID req) (user (PeerUserID req))) else None in
        match SendPrivateText now (mkSend (ActorUserID req) (PeerUserID req) rid [] [] (Some (serviceMedia kind (Some action))) true false reply
                None date (t_OriginAuthKeyID req) (t_OriginSessionID req) 0 false [] 0 0 0 0 None None) (other 1%nat s) with
        | (s, inl e) =>
          (s, inl (if bool_decide (RequestMsgID req ≠ 0) && bool_decide (e = ErrReplyMessageIDInvalid) then ErrNoForwardsRequestExpired else e))
        | (s, inr send) =>
          let s := put_privateNoForwards (<[(low, high) := st]> (privateNoForwards s)) s in
          let s := if bool_decide (kind = ActionNoForwardsRequest) then
                     put_privateNoForwardsRequests (<[UID (SenderMessage send) :=
                       mkNoForwardsRequest (UID (SenderMessage send)) (ActorUserID req) (PeerUserID req) (na_ExpiresAt action) false]>
                       (privateNoForwardsRequests s)) s
                   else s in
          let s := if bool_decide (UID source ≠ 0) then
                     let r := noForwardsRequestOf s (UID source) in
                     let s := put_privateNoForwardsRequests (<[UID source :=
                       mkNoForwardsRequest (privateMessageID r) (requesterUserID r) (responderUserID r) (expiresAt r) true]>
                       (privateNoForwardsRequests s)) s in
                     markNoForwardsRequestExpired (UID source) (other 2%nat s)
                   else s in
          (s, inr (mkToggled st true (Some send)))
        end
      end
  end.
End store.
End MailStore.
