(* ===== verification/MailOps.v ===== *)
(** * Private messages: editing, deleting, reading, pinning

    [internal/store/memory/message_edit.go], [message_delete.go],
    [message_helpers.go], [message_read.go] (the read dates), [message_pin.go],
    the history operations of [message_history.go] and [DeleteSavedHistory] of
    [saved_dialog.go].  Loops over the map of boxes handle every account on its
    own, so they are given per account; results that the source sorts by account
    are listed in that order.  [Run] marks the methods that panic when their
    pts bookkeeping does not add up. *)

From stdpp Require Import sorting.
From S2P Require Import Prelude UpdateTypes UpdateStore MailTypes MailStore.
Import Mail MailStore.

Module MailOps.
Section ops.
Context {X : Type} `{EqX : EqDecision X} `{InhX : Inhabited X}.
Abbreviation message := (Message X).
Abbreviation event := (UpdateEvent message).
Abbreviation eventStore := (@MemoryEvents.t message).
Abbreviation store := (@MessageStore X).

(** The keys of a map of boxes, in ascending order. *)
Definition accounts (boxes : gmap Z (list message)) : list Z := merge_sort Z.le (elements (dom boxes)).

(** ** Editing *)

Record EditMessageRequest := mkEdit {
  e_OwnerUserID : Z; e_DPeer : Peer; e_ID : Z; e_Text : list Z; e_Entities : list (MessageEntity X); e_Media : option (MessageMedia X);
  e_EditDate : Z; e_HideEdited : bool; SetReplyMarkup : bool; e_ReplyMarkup : option X; SetRichMessage : bool;
  e_RichMessage : option (MessageRichMessage X); ViaBotEditBotID : Z; AllowTodoParticipantMutation : bool; WebPageResolve : bool;
  ExpectedWebPageID : Z }.
Record EditedMessageForUser := mkEdited { ed_UserID : Z; ed_Message : message; ed_Event : event }.

Definition isTodo (media : option (MessageMedia X)) : bool :=
  match media with
  | Some x => bool_decide (Kind x = KindTodo) && match Todo x with Some _ => true | None => false end
  | None => false
  end.
Definition validMemoryTodoParticipantEdit (q : EditMessageRequest) (target : message) : bool :=
  if negb (AllowTodoParticipantMutation q) || SetReplyMarkup q || negb (isTodo (e_Media q)) then false
  else if bool_decide (peerID (From target) = e_OwnerUserID q) then false
  else if negb (bool_decide (Body target = e_Text q)) || negb (bool_decide (Entities target = e_Entities q)) then false
  else isTodo (Media target).
(** [reflect.DeepEqual], after the shortcut for two empty messages. *)
Definition richMessagesEqual (a b : option (MessageRichMessage X)) : bool :=
  (richIsZero a && richIsZero b) || bool_decide (a = b).

Definition editAllowed (q : EditMessageRequest) (target : message) : option mailError :=
  let authorEdit := Out target && bool_decide (peerID (From target) = e_OwnerUserID q) in
  let viaBotEdit := bool_decide (ViaBotEditBotID q ≠ 0) && bool_decide (ViaBotID target = ViaBotEditBotID q) in
  let finalMedia := match e_Media q with Some x => Some x | None => Media target end in
  let finalRich := if SetRichMessage q then e_RichMessage q else RichMessage target in
  let richChanged := SetRichMessage q && negb (richMessagesEqual (RichMessage target) (e_RichMessage q)) in
  let noMedia := match e_Media q with Some _ => false | None => true end in
  if negb authorEdit && negb viaBotEdit && negb (WebPageResolve q) && negb (validMemoryTodoParticipantEdit q target)
  then Some ErrMessageAuthorRequired
  else if WebPageResolve q && (noMedia || negb (IsPendingWebPageMedia (Media target) (ExpectedWebPageID q))) then Some ErrMessageNotModified
  else if bool_decide (e_Text q = []) && mediaIsZero finalMedia && richIsZero finalRich then Some ErrMessageEmpty
  else if noMedia && negb (SetReplyMarkup q) && negb richChanged && bool_decide (Body target = e_Text q)
          && bool_decide (HideEdited target = e_HideEdited q) && bool_decide (Entities target = e_Entities q) then Some ErrMessageNotModified
  else None.

(** One copy after the edit. *)
Definition editCopy (q : EditMessageRequest) (editDate pts : Z) (x : message) : message :=
  let withMedia x := match e_Media q with Some media => set_Media (Some media) x | None => x end in
  if WebPageResolve q then set_Pts pts (withMedia x)
  else
    let x := withMedia (set_Entities (e_Entities q) (set_Body (e_Text q) x)) in
    let x := if SetReplyMarkup q then set_ReplyMarkup (e_ReplyMarkup q) x else x in
    let x := if SetRichMessage q then set_RichMessage (e_RichMessage q) x else x in
    set_Pts pts (set_HideEdited (e_HideEdited q) (set_EditDate editDate x)).
Definition isCopyOf (uid sender : Z) (x : message) : bool := bool_decide (UID x = uid) && bool_decide (peerID (From x) = sender).
(** The copies of one box; [pts] is the last one used. *)
Fixpoint editBox (q : EditMessageRequest) (editDate uid sender pts : Z) (ms : list message) : list message * list message * Z :=
  match ms with
  | [] => ([], [], pts)
  | x :: ms =>
    if isCopyOf uid sender x then
      let x := editCopy q editDate (pts + 1) x in
      let '(ms, edited, pts) := editBox q editDate uid sender (pts + 1) ms in (x :: ms, x :: edited, pts)
    else let '(ms, edited, pts) := editBox q editDate uid sender pts ms in (x :: ms, edited, pts)
  end.
Definition EditMessage (now : Z) (q : EditMessageRequest) (s : store) : store * (mailError + list EditedMessageForUser) :=
  if bool_decide (e_OwnerUserID q = 0) || bool_decide (peerID (e_DPeer q) = 0) || bool_decide (e_ID q ≤ 0) || bool_decide (e_ID q > MaxMessageBoxID)
  then (s, inl ErrMessageIDInvalid)
  else
    let editDate := if bool_decide (e_EditDate q = 0) then now else e_EditDate q in
    match List.find (isBoxed (e_DPeer q) (e_ID q)) (boxOf s (e_OwnerUserID q)) with
    | None => (s, inl ErrMessageIDInvalid)
    | Some target =>
      match editAllowed q target with
      | Some e => (s, inl e)
      | None =>
        let run u ms := editBox q editDate (UID target) (peerID (From target)) (nextPtsOf s u) ms in
        let boxes := map_imap (λ u ms, Some (run u ms).1.1) (m s) in
        let spent := map_imap (λ u ms, if bool_decide ((run u ms).1.2 = []) then None else Some (run u ms).2) (m s) in
        let event x := if WebPageResolve q then webPageEvent x else editMessageEvent x in
        let edited := flat_map (λ u, map (λ x, mkEdited u x (event x)) (run u (boxOf s u)).1.2) (accounts (m s)) in
        let s := put_nextPts (spent ∪ nextPts s) (put_m boxes s) in
        let s := match dialogs s with
                 | Some ds => put_dialogs (Some (map_imap (λ u l, Some (mkDialogList (Dialogs l) (boxOf s u) (Users l))) ds)) s
                 | None => s
                 end in
        (s, inr edited)
      end
    end.

(** ** Deleting *)

Record deletedMemoryMessage := mkDeleted {
  del_userID : Z; del_peer : Peer; del_id : Z; del_privateMessageID : Z; del_messageSenderID : Z; del_randomID : Z }.
Definition deletedRow (userID : Z) (x : message) : deletedMemoryMessage :=
  mkDeleted userID (MPeer x) (ID x) (UID x) (peerID (From x)) (RandomID x).
Record memoryHistoryClearAnchor := mkAnchor { anchorMessage : message; materialized : bool }.
Record DeletedMessagesForUser := mkDeletedFor {
  dm_UserID : Z; dm_MessageIDs : list Z; dm_Event : event; dm_Events : list event; dm_Pts : Z; dm_PtsCount : Z }.
Record DeleteMessagesResult := mkDeleteResult { dr_Deleted : list DeletedMessagesForUser; dr_Offset : Z }.

(** The loop of [deleteMemoryMessagesLocked]: what stays, what goes, and whether
    the limit left some; [n] rows have gone before. *)
Fixpoint deleteLoop (limit : Z) (match_ : message → bool) (n : Z) (ms : list message) : list message * list message * bool :=
  match ms with
  | [] => ([], [], false)
  | x :: ms =>
    if match_ x then
      if bool_decide (limit > 0) && bool_decide (limit ≤ n) then
        let '(kept, gone, _) := deleteLoop limit match_ n ms in (x :: kept, gone, true)
      else let '(kept, gone, more) := deleteLoop limit match_ (n + 1) ms in (kept, x :: gone, more)
    else let '(kept, gone, more) := deleteLoop limit match_ n ms in (x :: kept, gone, more)
  end.
Definition deleteMemoryMessagesLocked (userID limit : Z) (match_ : message → bool) (s : store)
    : store * (list deletedMemoryMessage * list Z * bool) :=
  let '(kept, gone, more) := deleteLoop limit match_ 0 (boxOf s userID) in
  (putBox userID kept s, (map (deletedRow userID) gone, filter (λ uid, uid ≠ 0) (map UID gone), more)).
Definition deleteMemoryMessagesByUIDLocked (uids : list Z) (excludeUserID : Z) (s : store) : store * list deletedMemoryMessage :=
  if bool_decide (uids = []) then (s, [])
  else
    let keep u ms := if bool_decide (u = excludeUserID) then ms else filter (λ x, UID x ∉ uids) ms in
    let gone u ms := if bool_decide (u = excludeUserID) then [] else filter (λ x, UID x ∈ uids) ms in
    (put_m (map_imap (λ u ms, Some (keep u ms)) (m s)) s,
     flat_map (λ u, map (deletedRow u) (gone u (boxOf s u))) (accounts (m s))).
Definition normalizeMemoryMessageIDs (ids : list Z) : list Z :=
  merge_sort Z.le (remove_dups (filter (λ id, 0 < id ≤ MaxMessageBoxID) ids)).

Definition topOf (peer : Peer) (ms : list message) : Z * Z :=
  foldl (λ top x, if bool_decide (MPeer x = peer) && bool_decide (ID x > top.1) then (ID x, Date x) else top) (0, 0) ms.
(** [unread] is shared by the dialogs with the peer. *)
Fixpoint rebuildDialogs (peer : Peer) (ms : list message) (unread : Z) (ds : list (Dialog X)) : list (Dialog X) :=
  match ds with
  | [] => []
  | d :: ds =>
    if negb (bool_decide (DPeer d = peer)) then d :: rebuildDialogs peer ms unread ds
    else if bool_decide ((topOf peer ms).1 = 0) then rebuildDialogs peer ms unread ds
    else
      let unread := unread + countUnread peer (ReadInboxMaxID d) ms in
      set_UnreadReactions 0 (set_UnreadMentions 0 (set_UnreadCount unread (set_TopMessageDate (topOf peer ms).2 (set_TopMessage (topOf peer ms).1 d))))
      :: rebuildDialogs peer ms unread ds
  end.
Definition rebuildMemoryDialogLocked (ms : list message) (peer : Peer) (l : DialogList X) : DialogList X :=
  mkDialogList (rebuildDialogs peer ms 0 (Dialogs l)) ms (Users l).
Fixpoint advanceDialogs (peer : Peer) (maxID : Z) (ds : list (Dialog X)) : list (Dialog X) :=
  match ds with
  | [] => []
  | d :: ds =>
    if bool_decide (DPeer d = peer) then
      let d := if bool_decide (ReadInboxMaxID d < maxID) then set_ReadInboxMaxID maxID d else d in
      set_UnreadReactions 0 (set_UnreadMentions 0 (set_UnreadMark false (set_UnreadCount 0 d))) :: ds
    else d :: advanceDialogs peer maxID ds
  end.
Definition advanceMemoryHistoryClearDialogLocked (peer : Peer) (maxID : Z) (l : DialogList X) : DialogList X :=
  mkDialogList (advanceDialogs peer maxID (Dialogs l)) (Messages l) (Users l).

(** Forgets the tags of one saved message, and an account without tags. *)
Definition dropTags (userID id : Z) (tags : gmap Z (gmap Z X)) : gmap Z (gmap Z X) :=
  match tags !! userID with
  | None => tags
  | Some byMessage =>
    let byMessage := delete id byMessage in
    if bool_decide (size byMessage = 0%nat) then delete userID tags else <[userID := byMessage]> tags
  end.
(** The first row with the id and the peer becomes [x]. *)
Fixpoint replaceRow (id : Z) (peer : Peer) (x : message) (ms : list message) : list message :=
  match ms with
  | [] => []
  | y :: ms => if bool_decide (ID y = id) && bool_decide (MPeer y = peer) then x :: ms else y :: replaceRow id peer x ms
  end.
(** The receipts of the account's own sends among the deleted rows. *)
Definition receiptDelete (userID : Z) (e : event) (deleted : list deletedMemoryMessage)
    (dedup : gmap (Z * Z) privateSendDedupRecord) : gmap (Z * Z) privateSendDedupRecord :=
  foldl (λ dedup row,
    if negb (bool_decide (del_userID row = userID)) || negb (bool_decide (del_messageSenderID row = userID))
       || bool_decide (del_randomID row = 0) || bool_decide (del_privateMessageID row = 0) then dedup
    else
      match dedup !! (userID, del_randomID row) with
      | None => dedup
      | Some r => <[(userID, del_randomID row) := mkDedup (recipientUserID r) (senderSnapshot r) (recipientMessage r) (fingerprint r) (Some e)]> dedup
      end) dedup deleted.

Definition deleteEvent (userID pts count date : Z) (ids : list Z) : event :=
  with_UserID userID (with_Pts pts (with_MessageIDs ids (newEvent UpdateEventDeleteMessages date count))).
Definition clearReadEvent (userID pts date : Z) (peer : Peer) (maxID : Z) : event :=
  with_UserID userID (with_Pts pts (with_Peer peer (with_MaxID maxID (newEvent UpdateEventReadHistoryInbox date 1)))).
Definition clearEditEvent (userID pts date : Z) (x : message) : event :=
  with_UserID userID (with_Pts pts (with_Message (logged x) (newEvent UpdateEventEditMessage date 1))).

(** The peers of an account whose dialogs changed. *)
Definition peersOf (userID : Z) (deleted : list deletedMemoryMessage) (anchor : option memoryHistoryClearAnchor) : list Peer :=
  remove_dups (map del_peer (filter (λ row, del_userID row = userID) deleted)
               ++ match anchor with Some a => [MPeer (anchorMessage a)] | None => [] end).

Definition deletedIDs (userID : Z) (deleted : list deletedMemoryMessage) : list Z :=
  normalizeMemoryMessageIDs (map del_id (filter (λ row, del_userID row = userID) deleted)).
(** The anchor an account still has to materialize. *)
Definition freshAnchor (anchor : option memoryHistoryClearAnchor) : option message :=
  match anchor with Some a => if materialized a then None else Some (anchorMessage a) | None => None end.

(** The body of the loop over [ownerIDs]. *)
Definition finishOwner (deleted : list deletedMemoryMessage) (date : Z) (anchors : gmap Z memoryHistoryClearAnchor) (userID : Z) (s : store)
    : Run (store * list DeletedMessagesForUser) :=
  let ids := deletedIDs userID deleted in
  let anchor := anchors !! userID in
  let fresh := freshAnchor anchor in
  let total := len ids + match fresh with Some _ => 2 | None => 0 end in
  if bool_decide (total = 0) then Done (s, [])
  else
    let '(s, pts) := nextPtsNLocked userID total s in
    let cursor := pts - total in
    let '(s, cursor, e, events) :=
      if bool_decide (ids ≠ []) then
        let cursor := cursor + len ids in
        let e := deleteEvent userID cursor (len ids) date ids in
        (put_privateSendDedup (receiptDelete userID e deleted (privateSendDedup s)) s, cursor, e, [e])
      else (s, cursor, noEvent, []) in
    let '(s, cursor, events) :=
      match fresh with
      | Some a =>
        let readPts := cursor + 1 in
        let editPts := readPts + 1 in
        let x := NewHistoryClearMessage userID (MPeer a) (ID a) (UID a) (Date a) editPts in
        let s := put_m (alter (replaceRow (ID a) (MPeer a) x) userID (m s)) s in
        let s := put_savedMessageTags (dropTags userID (ID a) (savedMessageTags s)) s in
        (s, editPts, events ++ [clearReadEvent userID readPts date (MPeer a) (ID a); clearEditEvent userID editPts date x])
      | None => (s, cursor, events)
      end in
    let s := put_dialogs
               ((λ ds : gmap Z (DialogList X),
                  let l := foldl (λ l peer, rebuildMemoryDialogLocked (boxOf s userID) peer l) (listOf ds userID) (peersOf userID deleted anchor) in
                  let l := match fresh with Some a => advanceMemoryHistoryClearDialogLocked (MPeer a) (ID a) l | None => l end in
                  <[userID := l]> ds) <$> dialogs s) s in
    panic_if (negb (bool_decide (cursor = pts)));;
    Done (s, [mkDeletedFor userID ids e events pts total]).

Fixpoint finishOwners (deleted : list deletedMemoryMessage) (date : Z) (anchors : gmap Z memoryHistoryClearAnchor) (owners : list Z) (s : store)
    : Run (store * list DeletedMessagesForUser) :=
  match owners with
  | [] => Done (s, [])
  | u :: owners =>
    '(s, items) ← finishOwner deleted date anchors u s;
    '(s, items') ← finishOwners deleted date anchors owners s;
    Done (s, items ++ items')
  end.
Definition ownerIDs (deleted : list deletedMemoryMessage) (anchors : gmap Z memoryHistoryClearAnchor) : list Z :=
  merge_sort Z.le (elements (list_to_set (map del_userID deleted) ∪ dom (filter (λ ka, materialized ka.2 = false) anchors) : gset Z)).
Definition finishMemoryDeleteLocked (deleted : list deletedMemoryMessage) (date : Z) (anchors : gmap Z memoryHistoryClearAnchor) (s : store)
    : Run (store * list DeletedMessagesForUser) :=
  let s := put_savedMessageTags (foldl (λ tags row, dropTags (del_userID row) (del_id row) tags) (savedMessageTags s) deleted) s in
  finishOwners deleted date anchors (ownerIDs deleted anchors) s.

Record DeleteMessagesRequest := mkDelete { del_OwnerUserID : Z; del_IDs : list Z; del_Revoke : bool; del_Date : Z }.
Definition DeleteMessages (now : Z) (q : DeleteMessagesRequest) (s : store) : Run (store * (mailError + DeleteMessagesResult)) :=
  let ids := normalizeMemoryMessageIDs (del_IDs q) in
  if bool_decide (del_OwnerUserID q = 0) || bool_decide (ids = []) then Done (s, inr (mkDeleteResult [] 0))
  else if bool_decide (len ids > MaxDeleteMessageIDs) then Done (s, inl (ErrTooManyIDs (len ids)))
  else
    let date := if bool_decide (del_Date q = 0) then now else del_Date q in
    let '(s, (deleted, revokeUIDs, _)) := deleteMemoryMessagesLocked (del_OwnerUserID q) 0 (λ x, bool_decide (ID x ∈ ids)) s in
    let '(s, more) := if del_Revoke q && negb (bool_decide (revokeUIDs = [])) then deleteMemoryMessagesByUIDLocked revokeUIDs (del_OwnerUserID q) s
                      else (s, []) in
    '(s, items) ← finishMemoryDeleteLocked (deleted ++ more) date ∅ s;
    Done (s, inr (mkDeleteResult items 0)).

Record DeleteHistoryRequest := mkDeleteHistory {
  dh_OwnerUserID : Z; dh_Peer : Peer; dh_MaxID : Z; MinDate : Z; MaxDate : Z; JustClear : bool; dh_Revoke : bool; dh_Date : Z }.
Definition inDateRange (q : DeleteHistoryRequest) (x : message) : bool :=
  if bool_decide (MinDate q > 0) && bool_decide (Date x < MinDate q) then false
  else if bool_decide (MaxDate q > 0) && bool_decide (Date x > MaxDate q) then false
  else true.
Definition memoryHistoryClearAnchorLocked (userID : Z) (peer : Peer) (s : store) : option memoryHistoryClearAnchor :=
  let top := foldl (λ top x, if bool_decide (MPeer x = peer) && bool_decide (ID x > ID top) then x else top) noMessage (boxOf s userID) in
  if bool_decide (ID top = 0) then None else Some (mkAnchor top (IsHistoryClearServiceMessage top)).
(** The row an account keeps as its anchor is not deleted. *)
Definition isAnchor (anchors : gmap Z memoryHistoryClearAnchor) (userID : Z) (x : message) : bool :=
  match anchors !! userID with Some a => bool_decide (ID x = ID (anchorMessage a)) | None => false end.
Definition clearAnchors (q : DeleteHistoryRequest) (s : store) : gmap Z memoryHistoryClearAnchor :=
  let owner := dh_OwnerUserID q in
  if JustClear q && bool_decide (dh_MaxID q ≤ 0) && bool_decide (MinDate q ≤ 0) && bool_decide (MaxDate q ≤ 0) then
    let anchors := match memoryHistoryClearAnchorLocked owner (dh_Peer q) s with Some a => {[owner := a]} | None => ∅ end in
    if dh_Revoke q && negb (bool_decide (peerID (dh_Peer q) = owner)) then
      match memoryHistoryClearAnchorLocked (peerID (dh_Peer q)) (user owner) s with
      | Some a => <[peerID (dh_Peer q) := a]> anchors
      | None => anchors
      end
    else anchors
  else ∅.
Definition DeleteHistory (now : Z) (q : DeleteHistoryRequest) (s : store) : Run (store * (mailError + DeleteMessagesResult)) :=
  let owner := dh_OwnerUserID q in
  if bool_decide (owner = 0) || bool_decide (peerID (dh_Peer q) = 0) then Done (s, inr (mkDeleteResult [] 0))
  else
    let date := if bool_decide (dh_Date q = 0) then now else dh_Date q in
    let anchors := clearAnchors q s in
    let '(s, (deleted, revokeUIDs, more)) :=
      deleteMemoryMessagesLocked owner MaxDeleteHistoryBatch
        (λ x, negb (isAnchor anchors owner x) && bool_decide (MPeer x = dh_Peer q)
              && (bool_decide (dh_MaxID q ≤ 0) || bool_decide (ID x ≤ dh_MaxID q)) && inDateRange q x) s in
    let '(s, deleted) :=
      if dh_Revoke q && bool_decide (dh_MaxID q > 0) && negb (bool_decide (revokeUIDs = [])) then
        let '(s, gone) := deleteMemoryMessagesByUIDLocked revokeUIDs owner s in (s, deleted ++ gone)
      else (s, deleted) in
    let '(s, deleted, more) :=
      if dh_Revoke q && bool_decide (dh_MaxID q ≤ 0) && negb (bool_decide (peerID (dh_Peer q) = owner)) then
        let '(s, (peerDeleted, _, peerMore)) :=
          deleteMemoryMessagesLocked (peerID (dh_Peer q)) MaxDeleteHistoryBatch
            (λ x, negb (isAnchor anchors (peerID (dh_Peer q)) x) && bool_decide (MPeer x = user owner) && inDateRange q x) s in
        (s, deleted ++ peerDeleted, more || peerMore)
      else (s, deleted, more) in
    '(s, items) ← finishMemoryDeleteLocked deleted date anchors s;
    Done (s, inr (mkDeleteResult items (if more then 1 else 0))).

Record DeleteSavedHistoryRequest := mkDeleteSaved {
  ds_OwnerUserID : Z; ds_SavedPeer : Peer; ds_MaxID : Z; ds_MinDate : Z; ds_MaxDate : Z; ds_Date : Z }.
Record DeleteSavedHistoryResult := mkDeleteSavedResult { dsr_MessageIDs : list Z; dsr_Event : event; dsr_More : bool }.
Definition DeleteSavedHistory (now : Z) (q : DeleteSavedHistoryRequest) (s : store) : Run (store * (mailError + DeleteSavedHistoryResult)) :=
  let owner := ds_OwnerUserID q in
  if bool_decide (owner = 0) || bool_decide (peerType (ds_SavedPeer q) = PeerTypeNone) || bool_decide (peerID (ds_SavedPeer q) = 0)
  then Done (s, inl ErrSavedHistoryInput)
  else
    let date := if bool_decide (ds_Date q = 0) then now else ds_Date q in
    let match_ (x : message) :=
      bool_decide (MPeer x = user owner) && bool_decide (SavedPeer x = ds_SavedPeer q)
      && negb (bool_decide (ds_MaxID q > 0) && bool_decide (ID x > ds_MaxID q))
      && negb (bool_decide (ds_MinDate q > 0) && bool_decide (Date x < ds_MinDate q))
      && negb (bool_decide (ds_MaxDate q > 0) && bool_decide (Date x > ds_MaxDate q)) in
    let '(s, (deleted, _, more)) := deleteMemoryMessagesLocked owner MaxDeleteHistoryBatch match_ s in
    '(s, items) ← finishMemoryDeleteLocked deleted date ∅ s;
    let mine := last (filter (λ d, dm_UserID d = owner) items) in
    let alive := existsb (λ x, bool_decide (MPeer x = user owner) && bool_decide (SavedPeer x = ds_SavedPeer q)) (boxOf s owner) in
    let pins := default [] (savedPins s !! owner) in
    let s := if negb (bool_decide (deleted = [])) && negb more && negb alive then
               match list_find (λ p, p = ds_SavedPeer q) pins with
               | Some (i, _) => put_savedPins (<[owner := take i pins ++ drop (S i) pins]> (savedPins s)) s
               | None => s
               end
             else s in
    Done (s, inr (match mine with
                  | Some d => mkDeleteSavedResult (dm_MessageIDs d) (dm_Event d) more
                  | None => mkDeleteSavedResult [] noEvent more
                  end)).

(** ** Reading *)

Record ReadHistoryRequest := mkRead { rh_OwnerUserID : Z; rh_Peer : Peer; rh_MaxID : Z; rh_Date : Z }.
Record ReadHistoryResult := mkReadResult {
  rr_MaxID : Z; rr_StillUnreadCount : Z; rr_Changed : bool; rr_InboxEvent : event; rr_OutboxChanged : bool; rr_OutboxUserID : Z; rr_OutboxEvent : event }.
Definition readInboxEvent (userID pts date : Z) (peer : Peer) (maxID unread : Z) : event :=
  with_UserID userID (with_Pts pts (with_Peer peer (with_MaxID maxID (with_StillUnreadCount unread (newEvent UpdateEventReadHistoryInbox date 1))))).
Definition readOutboxEvent (userID pts date : Z) (peer : Peer) (maxID : Z) : event :=
  with_UserID userID (with_Pts pts (with_Peer peer (with_MaxID maxID (newEvent UpdateEventReadHistoryOutbox date 1)))).

(** The newest incoming message between the two watermarks. *)
Definition latestIncoming (peer : Peer) (oldRead readMax : Z) (ms : list message) : message :=
  foldl (λ latest x, if bool_decide (MPeer x = peer) && negb (Out x) && bool_decide (ID x ≤ readMax) && bool_decide (ID x > oldRead)
                        && bool_decide (ID x > ID latest) then x else latest) noMessage ms.
(** The dialog of the peer, if there is one, is [i]-th. *)
Definition findDialog (peer : Peer) (l : DialogList X) : option (nat * Dialog X) := list_find (λ d, DPeer d = peer) (Dialogs l).
Definition putDialog (i : nat) (d : Dialog X) (l : DialogList X) : DialogList X := mkDialogList (<[i := d]> (Dialogs l)) (Messages l) (Users l).

(** Moves the sender's outbox watermark to its copy of the message just read. *)
Definition readOutbox (owner date : Z) (latest : message) (ds : gmap Z (DialogList X)) (res : ReadHistoryResult) (s : store)
    : store * ReadHistoryResult :=
  let sender := peerID (From latest) in
  if bool_decide (ID latest = 0) || bool_decide (sender = 0) || bool_decide (sender = owner) then (s, res)
  else
    let box := findOr (λ x, bool_decide (UID x = UID latest) && Out x) (boxOf s sender) in
    if bool_decide (ID box ≤ 0) then (s, res)
    else
      match findDialog (user owner) (listOf ds sender) with
      | None => (s, res)
      | Some (j, d) =>
        if bool_decide (ID box ≤ ReadOutboxMaxID d) then (s, res)
        else
          let s := put_dialogs (Some (<[sender := putDialog j (set_ReadOutboxMaxID (ID box) d) (listOf ds sender)]> ds)) s in
          let read (x : message) := bool_decide (MPeer x = user owner) && Out x && bool_decide (ID x > ReadOutboxMaxID d) && bool_decide (ID x ≤ ID box) in
          let s := put_readOutboxDates (foldl (λ dates (x : message), if read x then <[(sender, owner, ID x) := date]> dates else dates)
                                          (readOutboxDates s) (boxOf s sender)) s in
          let '(s, pts) := nextPtsLocked sender s in
          (s, mkReadResult (rr_MaxID res) (rr_StillUnreadCount res) (rr_Changed res) (rr_InboxEvent res) true sender
                (readOutboxEvent sender pts date (user owner) (ID box)))
      end.
Definition ReadHistory (now : Z) (q : ReadHistoryRequest) (s : store) : store * ReadHistoryResult :=
  let owner := rh_OwnerUserID q in
  let res maxID unread := mkReadResult maxID unread false noEvent false 0 noEvent in
  if bool_decide (owner = 0) || bool_decide (peerID (rh_Peer q) = 0) then (s, res (rh_MaxID q) 0)
  else
    let date := if bool_decide (rh_Date q = 0) then now else rh_Date q in
    match dialogs s with
    | None => (s, res (rh_MaxID q) 0)
    | Some ds =>
      let l := listOf ds owner in
      match findDialog (rh_Peer q) l with
      | None => (s, res (rh_MaxID q) 0)
      | Some (i, d) =>
        let readMax := if bool_decide (rh_MaxID q ≤ 0) then TopMessage d else rh_MaxID q in
        let readMax := if bool_decide (readMax > TopMessage d) then TopMessage d else readMax in
        let oldRead := ReadInboxMaxID d in
        if bool_decide (readMax ≤ oldRead) then
          if bool_decide (UnreadCount d > 0) then
            let unread := countUnread (rh_Peer q) oldRead (boxOf s owner) in
            let d' := set_UnreadMark false (set_UnreadMentions 0 (set_UnreadCount unread d)) in
            (put_dialogs (Some (<[owner := putDialog i d' l]> ds)) s, res oldRead unread)
          else (s, res readMax 0)
        else
          let unread := countUnread (rh_Peer q) readMax (boxOf s owner) in
          let latest := latestIncoming (rh_Peer q) oldRead readMax (boxOf s owner) in
          let d' := set_UnreadMark false (set_UnreadMentions 0 (set_UnreadCount unread (set_ReadInboxMaxID readMax d))) in
          let '(s, pts) := nextPtsLocked owner s in
          let ds := <[owner := putDialog i d' l]> ds in
          let s := put_dialogs (Some ds) s in
          readOutbox owner date latest ds (mkReadResult readMax unread true (readInboxEvent owner pts date (rh_Peer q) readMax unread) false 0 noEvent) s
      end
    end.
Definition GetOutboxReadDate (owner : Z) (peer : Peer) (id : Z) (s : store) : mailError + Z :=
  if bool_decide (owner = 0) || negb (bool_decide (peerType peer = PeerTypeUser)) || bool_decide (peerID peer = 0)
     || bool_decide (id ≤ 0) || bool_decide (id > MaxMessageBoxID) then inl ErrMessageIDInvalid
  else if negb (existsb (λ x, bool_decide (ID x = id) && bool_decide (MPeer x = peer) && Out x) (boxOf s owner)) then inl ErrMessageIDInvalid
  else
    let date := default 0 (readOutboxDates s !! (owner, peerID peer, id)) in
    if bool_decide (date = 0) then inl ErrMessageNotReadYet else inr date.

(** ** Pinning *)

Record PinPrivateMessageRequest := mkPin {
  pin_OwnerUserID : Z; pin_Peer : Peer; pin_MessageID : Z; pin_Pinned : bool; PmOneside : bool; pin_Silent : bool; pin_RecipientBlocked : bool;
  pin_Date : Z; pin_OriginAuthKeyID : Z; pin_OriginSessionID : Z }.
Record PinnedMessagesForUser := mkPinnedFor { pf_UserID : Z; pf_Peer : Peer; pf_MessageIDs : list Z; pf_Pinned : bool; pf_Event : event }.
Record PinPrivateMessageResult := mkPinResult {
  pr_Updated : list PinnedMessagesForUser; pr_ServiceMessage : option (@SendPrivateTextResult X); pr_Offset : Z }.
Definition pinEvent (userID pts date : Z) (peer : Peer) (pinned : bool) (ids : list Z) : event :=
  with_UserID userID (with_Pts pts (with_Peer peer (with_Bool pinned (with_MessageIDs ids (newEvent UpdateEventPinnedMessages date 1))))).

(** A side of a pin: an account, its peer and the index of the row in its box. *)
Record pinSide := mkSide { ps_userID : Z; ps_peer : Peer; ps_idx : nat }.
Definition rowAt (boxes : gmap Z (list message)) (side : pinSide) : message :=
  default noMessage (default [] (boxes !! ps_userID side) !! ps_idx side).
Definition setPinned (pinned : bool) (boxes : gmap Z (list message)) (side : pinSide) : gmap Z (list message) :=
  match boxes !! ps_userID side with
  | Some ms => <[ps_userID side := alter (set_Pinned pinned) (ps_idx side) ms]> boxes
  | None => boxes
  end.
Definition pinSides (q : PinPrivateMessageRequest) (ownIdx : nat) (owned : message) (s : store) : list pinSide :=
  let own := mkSide (pin_OwnerUserID q) (pin_Peer q) ownIdx in
  if negb (bool_decide (peerID (pin_Peer q) = pin_OwnerUserID q)) && (negb (pin_Pinned q) || negb (PmOneside q)) then
    match list_find (λ x, UID x = UID owned) (boxOf s (peerID (pin_Peer q))) with
    | Some (i, _) => [own; mkSide (peerID (pin_Peer q)) (user (pin_OwnerUserID q)) i]
    | None => [own]
    end
  else [own].
Definition pinUpdated (q : PinPrivateMessageRequest) (sides : list pinSide) (es : list event) : list PinnedMessagesForUser :=
  zip_with (λ side e, mkPinnedFor (ps_userID side) (ps_peer side) (e_MessageIDs e) (pin_Pinned q) e) sides es.
(** Allocates and appends the events of a pin that sends no message. *)
Fixpoint appendPinEvents (q : PinPrivateMessageRequest) (es : list event) (events : eventStore) (s : store) : store * eventStore * list event :=
  match es with
  | [] => (s, events, [])
  | e :: es =>
    let '(s, pts) := nextPtsWithEventsLocked events (e_UserID e) s in
    let e := with_Pts pts e in
    let mine := bool_decide (e_UserID e = pin_OwnerUserID q) in
    let events := appendMemorySendEventLocked events (e_UserID e) e (if mine then pin_OriginAuthKeyID q else 0) (if mine then pin_OriginSessionID q else 0) in
    let '(s, events, es) := appendPinEvents q es events s in (s, events, e :: es)
  end.

Context (C : @Codec X).

(** [PrivatePinServiceRequest]; [rid] is its random id. *)
Definition PrivatePinServiceRequest (q : PinPrivateMessageRequest) (date rid : Z) : @SendPrivateTextRequest X :=
  mkSend (pin_OwnerUserID q) (peerID (pin_Peer q)) rid [] [] (Some (serviceMedia ActionPinMessage None)) (pin_Silent q) false
    (Some (replyTo (pin_MessageID q) (pin_Peer q))) None date (pin_OriginAuthKeyID q) (pin_OriginSessionID q) 0 (pin_RecipientBlocked q) [] 0 0 0 0 None None.
Definition PinPrivateMessage (now rid : Z) (q : PinPrivateMessageRequest) (s : store) : store * (mailError + PinPrivateMessageResult) :=
  let owner := pin_OwnerUserID q in
  if bool_decide (owner = 0) || negb (bool_decide (peerType (pin_Peer q) = PeerTypeUser)) || bool_decide (peerID (pin_Peer q) = 0)
  then (s, inl ErrMessageIDInvalid)
  else if bool_decide (pin_MessageID q ≤ 0) || bool_decide (pin_MessageID q > MaxMessageBoxID) then (s, inl ErrMessageIDInvalid)
  else
    let date := if bool_decide (pin_Date q = 0) then now else pin_Date q in
    match list_find (λ x, isBoxed (pin_Peer q) (pin_MessageID q) x = true) (boxOf s owner) with
    | None => (s, inl ErrMessageIDInvalid)
    | Some (ownIdx, owned) =>
      if match Media owned with Some x => bool_decide (Kind x = KindService) | None => false end then (s, inl ErrMessageIDInvalid)
      else
        let changes := filter (λ side, Pinned (rowAt (m s) side) ≠ pin_Pinned q) (pinSides q ownIdx owned s) in
        let pinEvents := map (λ side, pinEvent (ps_userID side) 0 date (ps_peer side) (pin_Pinned q) [ID (rowAt (m s) side)]) changes in
        let apply boxes := foldl (setPinned (pin_Pinned q)) boxes changes in
        if bool_decide (length changes = 0%nat) then (s, inr (mkPinResult [] None 0))
        else if pin_Pinned q && negb (PmOneside q) && negb (bool_decide (peerID (pin_Peer q) = owner)) then
          let send := PrivatePinServiceRequest q date rid in
          match PrivateSendFingerprint C send with
          | inl e => (s, inl e)
          | inr fp =>
            match sendPrivateTextLocked C now send fp (Some (mkPrefix pinEvents apply)) s with
            | (s, inl e) => (s, inl (if bool_decide (e = ErrReplyMessageIDInvalid) then ErrMessageIDInvalid else e))
            | (s', inr sent) =>
              (* [apply] fills [res.Updated], and does not run for a replay *)
              let staged := match updateEvents s with Some events => (stagePrefix s events pinEvents ∅).2 | None => [] end in
              (s', inr (mkPinResult (if Duplicate sent then [] else pinUpdated q changes staged) (Some sent) 0))
            end
          end
        else
          match updateEvents s with
          | None => (s, inl ErrDeliveryOutboxRequired)
          | Some events =>
            let '(s, events, es) := appendPinEvents q pinEvents events s in
            (put_m (apply (m s)) (put_updateEvents (Some events) s), inr (mkPinResult (pinUpdated q changes es) None 0))
          end
    end.

(** Unpins the rows of a box that [sel] selects; their ids, in box order. *)
Fixpoint unpinBox (sel : message → bool) (ms : list message) : list message * list message :=
  match ms with
  | [] => ([], [])
  | x :: ms => let '(ms, gone) := unpinBox sel ms in if sel x then (set_Pinned false x :: ms, x :: gone) else (x :: ms, gone)
  end.
Definition byIDDesc (a b : message) : Prop := ID b ≤ ID a.
#[export] Instance byIDDesc_dec a b : Decision (byIDDesc a b) := decide (ID b ≤ ID a).
Record UnpinAllPrivateMessagesRequest := mkUnpinAll {
  ua_OwnerUserID : Z; ua_Peer : Peer; ua_Date : Z; ua_OriginAuthKeyID : Z; ua_OriginSessionID : Z }.
(** The closure [appendSide]. *)
Definition appendSide (q : UnpinAllPrivateMessagesRequest) (date userID : Z) (peer : Peer) (ids : list Z) (events : eventStore) (s : store)
    : store * eventStore * PinnedMessagesForUser :=
  let '(s, pts) := nextPtsWithEventsLocked events userID s in
  let e := pinEvent userID pts date peer false ids in
  let mine := bool_decide (userID = ua_OwnerUserID q) in
  (s, appendMemorySendEventLocked events userID e (if mine then ua_OriginAuthKeyID q else 0) (if mine then ua_OriginSessionID q else 0),
   mkPinnedFor userID peer ids false e).
Definition UnpinAllPrivateMessages (now : Z) (q : UnpinAllPrivateMessagesRequest) (s : store) : store * (mailError + PinPrivateMessageResult) :=
  let owner := ua_OwnerUserID q in
  if bool_decide (owner = 0) || negb (bool_decide (peerType (ua_Peer q) = PeerTypeUser)) || bool_decide (peerID (ua_Peer q) = 0)
  then (s, inl ErrMessageIDInvalid)
  else
    let date := if bool_decide (ua_Date q = 0) then now else ua_Date q in
    match updateEvents s with
    | None => (s, inl ErrDeliveryOutboxRequired)
    | Some events =>
      let pinned := merge_sort byIDDesc (filter (λ x, MPeer x = ua_Peer q ∧ Pinned x = true) (boxOf s owner)) in
      let batch := take (Z.to_nat MaxUnpinAllBatch) pinned in
      let offset := if bool_decide (len pinned > MaxUnpinAllBatch) then 1 else 0 in
      if bool_decide (length batch = 0%nat) then (s, inr (mkPinResult [] None offset))
      else
        let sel (x : message) := bool_decide (MPeer x = ua_Peer q) && Pinned x && bool_decide (ID x ∈ map ID batch) in
        let s := putBox owner (unpinBox sel (boxOf s owner)).1 s in
        let '(s, events, own) := appendSide q date owner (ua_Peer q) (map ID batch) events s in
        let '(s, events, updated) :=
          if negb (bool_decide (peerID (ua_Peer q) = owner)) then
            let '(ms, gone) := unpinBox (λ x, bool_decide (UID x ∈ map UID batch) && Pinned x) (boxOf s (peerID (ua_Peer q))) in
            if bool_decide (length gone = 0%nat) then (s, events, [own])
            else
              let s := putBox (peerID (ua_Peer q)) ms s in
              let '(s, events, theirs) := appendSide q date (peerID (ua_Peer q)) (user owner) (map ID gone) events s in
              (s, events, [own; theirs])
          else (s, events, [own]) in
        (put_updateEvents (Some events) s, inr (mkPinResult updated None offset))
    end.
End ops.
End MailOps.
