(* ===== verification/MailInv.v ===== *)
(** * Private messages: the boxes

    The invariant of the boxes of all accounts, and what keeps it: a box only
    loses rows, changes rows in place, or gets rows with fresh ids. *)

From stdpp Require Import sorting.
From S2P Require Import Prelude UpdateTypes UpdateStore MailTypes MailStore MailOps.
Import Mail MailStore MailOps.

Module MailInv.
Section inv.
Context {X : Type} `{EqX : EqDecision X} `{InhX : Inhabited X}.
Abbreviation message := (Message X).
Abbreviation store := (@MessageStore X).
Implicit Types (x y : message) (s : store) (u v : Z).

(** ** Rows *)

Definition key x : Z * Z * Z * Peer * Z := (ID x, UID x, OwnerUserID x, MPeer x, Date x).
(** What the sender chose besides text and media, and the marks of an edit. *)
Definition extras x := (Silent x, NoForwards x, Forward x, ViaBotID x, GroupedID x, Effect x, ReplyMarkup x, RichMessage x, EditDate x, HideEdited x).
(** The content of [x'] is that of [x]. *)
Definition same_content x x' : Prop :=
  From x' = From x ∧ RandomID x' = RandomID x ∧ Body x' = Body x ∧ Entities x' = Entities x ∧ Media x' = Media x ∧ extras x' = extras x.
(** What a row keeps of having been made a history-clear marker
    ([NewHistoryClearMessage]), whatever edits follow. *)
Definition marker x : Prop :=
  RandomID x = 0 ∧ Silent x = false ∧ NoForwards x = false ∧ Forward x = None ∧ ViaBotID x = 0 ∧ GroupedID x = 0 ∧ Effect x = 0.
(** Two copies say the same, unless one was made a marker. *)
Definition Agree x y : Prop := same_content x y ∨ marker x ∨ marker y.
(** A row of account [u] before and after a change of all boxes by [g]. *)
Inductive moved (g : message → message) u x x' : Prop :=
| moved_same : key x' = key x → same_content (g x) x' → moved g u x x'
| moved_clear : key x' = key x → From x' = user u → marker x' → moved g u x x'.
(** The row stays, changed by [g] at most. *)
Definition kept (g : message → message) x x' : Prop := key x' = key x ∧ Out x' = Out x ∧ same_content (g x) x'.
(** [g] keeps the authors and treats the copies of a message alike. *)
Definition uniform (g : message → message) : Prop :=
  (∀ x, From (g x) = From x ∧ RandomID (g x) = RandomID x ∧ (marker x → marker (g x))) ∧ ∀ x y, UID x = UID y → same_content x y → same_content (g x) (g y).

Lemma uniform_id : uniform (λ x, x).
Proof. by split. Qed.
Lemma content_sym x y : same_content x y → same_content y x.
Proof. intros (? & ? & ? & ? & ? & ?). by split_and!. Qed.
Lemma content_trans x y z : same_content x y → same_content y z → same_content x z.
Proof. intros (? & ? & ? & ? & ? & ?) (? & ? & ? & ? & ? & ?). by split_and!; etrans. Qed.
Lemma content_marker x y : same_content x y → marker x → marker y.
Proof. intros (_ & E & _ & _ & _ & [= ? ? ? ? ? ? ? ? ? ?]) (? & ? & ? & ? & ? & ? & ?). by split_and!; etrans. Qed.
Lemma Agree_sym x y : Agree x y → Agree y x.
Proof. intros [?|[?|?]]; [left; by apply content_sym|by right; right|by right; left]. Qed.
Lemma moved_key g u x x' : moved g u x x' → key x' = key x.
Proof. by intros []. Qed.
Lemma kept_moved g u x x' : kept g x x' → moved g u x x'.
Proof. intros (? & _ & ?). by apply moved_same. Qed.
Lemma kept_id_refl x : kept (λ x, x) x x.
Proof. by split. Qed.
Lemma kept_id_trans x y z : kept (λ x, x) x y → kept (λ x, x) y z → kept (λ x, x) x z.
Proof. intros (K1 & O1 & A) (K2 & O2 & B). split_and!; [congruence|congruence|by eapply content_trans]. Qed.
Lemma Agree_content x x' y y' : same_content x x' → same_content y y' → Agree x y → Agree x' y'.
Proof. intros H1 H2 [H|[H|H]]; [left|right; left|right; right]; eauto using content_sym, content_trans, content_marker. Qed.
Lemma moved_Agree g u v x x' y y' :
  uniform g → UID x = UID y → Agree x y → moved g u x x' → moved g v y y' → Agree x' y'.
Proof.
  intros [Hm Hg] Hu HA [_ Hx|_ _ Hx] [_ Hy|_ _ Hy]; [|by right; right|by right; left|by right; left]. eapply Agree_content; [done|done|].
  destruct HA as [?|[?|?]]; [left; by apply Hg|right; left; by apply Hm|right; right; by apply Hm].
Qed.

(** ** Boxes *)

Record BoxOK u (n k : Z) (ms : list message) : Prop := {
  box_sorted : StronglySorted Z.lt (map ID ms);
  box_uids : NoDup (map UID ms);
  box_rows x : x ∈ ms → OwnerUserID x = u ∧ 1 ≤ ID x ≤ n ∧ 1 ≤ UID x < k;
}.
(** [ms'] is [ms] with rows removed and the others related by [R]. *)
Definition shrinks (R : message → message → Prop) (ms ms' : list message) : Prop := ∃ mid, mid `sublist_of` ms ∧ Forall2 R mid ms'.

Lemma shrinks_refl R ms : (∀ x, R x x) → shrinks R ms ms.
Proof. intros HR. exists ms. split; [done|]. by apply Forall_Forall2_diag, Forall_true. Qed.
Lemma shrinks_sublist R ms ms' : (∀ x, R x x) → ms' `sublist_of` ms → shrinks R ms ms'.
Proof. intros HR Hs. exists ms'. split; [done|]. by apply Forall_Forall2_diag, Forall_true. Qed.
Lemma shrinks_Forall2 R ms ms' : Forall2 R ms ms' → shrinks R ms ms'.
Proof. intros HR. by exists ms. Qed.
Lemma shrinks_mono (R R' : message → message → Prop) ms ms' : (∀ x x', R x x' → R' x x') → shrinks R ms ms' → shrinks R' ms ms'.
Proof. intros HR (mid & Hs & HF). exists mid. split; [done|]. by eapply Forall2_impl. Qed.
Lemma Forall2_sublist_r (R : message → message → Prop) l l' k' :
  Forall2 R l l' → k' `sublist_of` l' → ∃ k, k `sublist_of` l ∧ Forall2 R k k'.
Proof.
  intros HF. revert k'. induction HF as [|x x' l l' Hx HF IH]; intros k' Hs.
  { apply sublist_nil_r in Hs as ->. by exists []. }
  apply sublist_cons_r in Hs as [Hs|(k2 & -> & Hs)].
  - destruct (IH _ Hs) as (k & ? & ?). exists k. split; [by apply sublist_cons|done].
  - destruct (IH _ Hs) as (k & ? & ?). exists (x :: k). split; [by apply sublist_skip|by constructor].
Qed.
Lemma shrinks_trans (R1 R2 R : message → message → Prop) ms ms1 ms2 :
  (∀ x y z, R1 x y → R2 y z → R x z) → shrinks R1 ms ms1 → shrinks R2 ms1 ms2 → shrinks R ms ms2.
Proof.
  intros HR (mid1 & Hs1 & HF1) (mid2 & Hs2 & HF2). destruct (Forall2_sublist_r _ _ _ _ HF1 Hs2) as (mid & Hs & HF).
  exists mid. split; [by etrans|]. clear -HR HF HF2. revert ms2 HF2.
  induction HF; intros ms2 HF2; inversion_clear HF2; constructor; eauto.
Qed.
Lemma elem_of_shrinks R ms ms' x' : shrinks R ms ms' → x' ∈ ms' → ∃ x, x ∈ ms ∧ R x x'.
Proof.
  intros (mid & Hs & HF) Hx. apply list_elem_of_lookup in Hx as [i Hi]. destruct (Forall2_lookup_r _ _ _ _ _ HF Hi) as (x & Hx & HR).
  exists x. split; [|done]. eapply elem_of_submseteq; [by eapply list_elem_of_lookup_2|by apply sublist_submseteq].
Qed.
Lemma StronglySorted_sublist (l l' : list Z) : l' `sublist_of` l → StronglySorted Z.lt l → StronglySorted Z.lt l'.
Proof.
  intros Hs. induction Hs as [|x l1 l2 Hs IH|x l1 l2 Hs IH]; [done|..]; intros [HS HF]%StronglySorted_inv; [|by apply IH].
  constructor; [by apply IH|]. rewrite Forall_forall in *. intros y Hy. apply HF. eapply elem_of_submseteq; [done|by apply sublist_submseteq].
Qed.
Lemma Forall2_map_eq {A} (f : message → A) ms ms' : Forall2 (λ x x', f x' = f x) ms ms' → map f ms' = map f ms.
Proof. induction 1; simpl; congruence. Qed.
Lemma sublist_map {A} (f : message → A) ms ms' : ms' `sublist_of` ms → map f ms' `sublist_of` map f ms.
Proof. induction 1; simpl; by constructor. Qed.

Lemma box_shrinks u n k n' k' R ms ms' :
  (∀ x x', R x x' → key x' = key x) → n ≤ n' → k ≤ k' → BoxOK u n k ms → shrinks R ms ms' → BoxOK u n' k' ms'.
Proof.
  intros HR Hn Hk [H1 H2 H3] Hsh. pose proof Hsh as (mid & Hs & HF). apply (Forall2_impl _ _ _ _ HF) in HR as HK. split.
  - rewrite (Forall2_map_eq ID mid ms'); [eapply StronglySorted_sublist; [by apply sublist_map|done]|].
    eapply Forall2_impl; [exact HK|]. by intros x x' [= ? _ _ _ _].
  - rewrite (Forall2_map_eq UID mid ms'); [eapply sublist_NoDup; [exact H2|by apply sublist_map]|]. eapply Forall2_impl; [exact HK|]. by intros x x' [= _ ? _ _ _].
  - intros x' Hx'. destruct (elem_of_shrinks _ _ _ _ Hsh Hx') as (x & Hx & Hxx). destruct (H3 x Hx) as (? & ? & ?).
    specialize (HR _ _ Hxx). injection HR as E1 E2 E3 _ _. rewrite E1, E2, E3. split_and!; [done|lia|lia|lia|lia].
Qed.
Lemma box_snoc u n k ms x : BoxOK u n k ms → OwnerUserID x = u → 0 ≤ n → ID x = n + 1 → 1 ≤ k → UID x = k → BoxOK u (n + 1) (k + 1) (ms ++ [x]).
Proof.
  intros [H1 H2 H3] HO Hn HI Hk HU. split.
  - rewrite map_app. simpl. apply StronglySorted_app_2; [|done|by repeat constructor].
    intros i j Hi ->%list_elem_of_singleton. apply list_elem_of_fmap in Hi as (y & -> & Hy). destruct (H3 y Hy). lia.
  - rewrite map_app. apply NoDup_app. split_and!; [done| |apply NoDup_singleton].
    intros i Hi ->%list_elem_of_singleton. apply list_elem_of_fmap in Hi as (y & E & Hy). destruct (H3 y Hy). lia.
  - intros y [Hy| ->%list_elem_of_singleton]%elem_of_app; [|split_and!; [done|lia..]]. destruct (H3 y Hy). split_and!; [done|lia..].
Qed.
Lemma box_uid_eq u n k ms x y : BoxOK u n k ms → x ∈ ms → y ∈ ms → UID x = UID y → x = y.
Proof.
  intros [_ H _] [i Hi]%list_elem_of_lookup [j Hj]%list_elem_of_lookup E.
  assert (i = j) as ->; [|congruence]. eapply (NoDup_lookup _ _ _ (UID x) H); rewrite list_lookup_fmap; [by rewrite Hi|rewrite Hj; simpl; by rewrite E].
Qed.
Lemma box_id_eq u n k ms x y : BoxOK u n k ms → x ∈ ms → y ∈ ms → ID x = ID y → x = y.
Proof.
  intros [H _ _] Hx Hy E. clear -H Hx Hy E. induction ms as [|z ms IH]; [by apply not_elem_of_nil in Hx|]. simpl in H.
  apply StronglySorted_inv in H as [HS HF]. rewrite Forall_forall in HF.
  apply elem_of_cons in Hx as [->|Hx], Hy as [->|Hy]; [done|..|by apply IH].
  - specialize (HF (ID y) (list_elem_of_fmap_2 ID ms y Hy)). lia.
  - specialize (HF (ID x) (list_elem_of_fmap_2 ID ms x Hx)). lia.
Qed.

(** ** All boxes *)

Record WF s : Prop := {
  wf_uid : 1 ≤ nextUID s;
  wf_next u : 0 ≤ nextBoxOf s u;
  wf_box u : BoxOK u (nextBoxOf s u) (nextUID s) (boxOf s u);
  wf_linked u v x y : x ∈ boxOf s u → y ∈ boxOf s v → u ≠ v → UID x = UID y →
    MPeer x = user v ∧ MPeer y = user u ∧ Date x = Date y ∧ Agree x y;
}.
(** A step that adds no rows. *)
Record shrunk (g : message → message) s s' : Prop := {
  sh_uid : nextUID s' = nextUID s;
  sh_box u : nextBoxOf s' u = nextBoxOf s u;
  sh_rows u : shrinks (moved g u) (boxOf s u) (boxOf s' u);
}.
(** A step that keeps every row. *)
Record inplace (g : message → message) s s' : Prop := {
  ip_uid : nextUID s' = nextUID s;
  ip_box : nextBox s' = nextBox s;
  ip_dedup : privateSendDedup s' = privateSendDedup s;
  ip_rows u : Forall2 (kept g) (boxOf s u) (boxOf s' u);
}.
Lemma inplace_shrunk g s s' : inplace g s s' → shrunk g s s'.
Proof.
  intros [E1 E2 _ HR]. split; [done|intros u; unfold nextBoxOf; by rewrite E2|]. intros u. apply shrinks_Forall2.
  eapply Forall2_impl; [apply HR|]. apply kept_moved.
Qed.
Lemma inplace_refl s s' : nextUID s' = nextUID s → nextBox s' = nextBox s → m s' = m s → privateSendDedup s' = privateSendDedup s → inplace (λ x, x) s s'.
Proof. intros E1 E2 E3 E4. split; [done..|]. intros u. unfold boxOf. rewrite E3. by apply Forall_Forall2_diag, Forall_true, kept_id_refl. Qed.
Lemma moved_id_refl u x : moved (λ x, x) u x x.
Proof. by apply moved_same. Qed.
Lemma shrunk_refl s s' : nextUID s' = nextUID s → nextBox s' = nextBox s → m s' = m s → shrunk (λ x, x) s s'.
Proof. intros E1 E2 E3. split; [done|..]; intros u; unfold nextBoxOf, boxOf; rewrite ?E2, ?E3; [done|]. apply shrinks_refl, moved_id_refl. Qed.
Lemma WF_shrunk g s s' : uniform g → WF s → shrunk g s s' → WF s'.
Proof.
  intros Hg [H1 H2 H3 H4] [S1 S2 S3]. split.
  - by rewrite S1.
  - intros u. by rewrite S2.
  - intros u. rewrite S1, S2. apply (box_shrinks u (nextBoxOf s u) (nextUID s) _ _ (moved g u) (boxOf s u)); [by intros x x' ?%moved_key|lia|lia|apply H3|apply S3].
  - intros u v x' y' Hx' Hy' Hne E. destruct (elem_of_shrinks _ _ _ _ (S3 u) Hx') as (x & Hx & Mx), (elem_of_shrinks _ _ _ _ (S3 v) Hy') as (y & Hy & My).
    pose proof (moved_key _ _ _ _ Mx) as Kx. pose proof (moved_key _ _ _ _ My) as Ky.
    injection Kx as ? Ex _ Px Dx. injection Ky as ? Ey _ Py Dy. assert (UID x = UID y) as E' by congruence.
    destruct (H4 u v x y Hx Hy Hne E') as (? & ? & ? & HA). rewrite Px, Py, Dx, Dy. split_and!; [done|done|done|].
    by eapply moved_Agree.
Qed.
Lemma moved_id_trans u x y z : moved (λ x, x) u x y → moved (λ x, x) u y z → moved (λ x, x) u x z.
Proof.
  intros [K1 A1|K1 F1 M1] [K2 A2|K2 F2 M2].
  - apply moved_same; [congruence|by eapply content_trans].
  - apply moved_clear; congruence || done.
  - apply moved_clear; [congruence| |by eapply content_marker]. destruct A2 as (? & _). congruence.
  - apply moved_clear; congruence || done.
Qed.
Lemma shrunk_trans s s1 s2 : shrunk (λ x, x) s s1 → shrunk (λ x, x) s1 s2 → shrunk (λ x, x) s s2.
Proof.
  intros [A1 A2 A3] [B1 B2 B3]. split; [congruence|intros u; by rewrite B2|]. intros u. eapply shrinks_trans; [|apply A3|apply B3]. eauto using moved_id_trans.
Qed.
End inv.
End MailInv.
