(* ===== verification/MailBoxes.v ===== *)
(** * Private messages: every operation keeps the boxes

    What each operation does to the boxes, and that the invariant [WF] of
    [MailInv] survives. *)

From stdpp Require Import sorting.
From S2P Require Import Prelude UpdateTypes UpdateStore MailTypes MailStore MailOps MailInv.
Import Mail MailStore MailOps MailInv.

Module MailBoxes.
Section boxes.
Context {X : Type} `{EqX : EqDecision X} `{InhX : Inhabited X}.
Abbreviation message := (Message X).
Abbreviation event := (UpdateEvent message).
Abbreviation store := (@MessageStore X).
Implicit Types (x y : message) (s : store) (u v : Z).

Lemma boxOf_putBox s u v ms : boxOf (putBox u ms s) v = if decide (v = u) then ms else boxOf s v.
Proof. unfold boxOf, putBox. simpl. case_decide as E; [by rewrite E, lookup_insert_eq|by rewrite lookup_insert_ne]. Qed.
Lemma find_Some_row (f : message → bool) ms x : List.find f ms = Some x → x ∈ ms ∧ f x = true.
Proof. intros [H1 H2]%find_some. split; [by apply list_elem_of_In|done]. Qed.
Lemma isBoxed_true peer id x : isBoxed peer id x = true ↔ MPeer x = peer ∧ ID x = id.
Proof. unfold isBoxed. rewrite andb_true_iff, !bool_decide_eq_true. done. Qed.

(** ** Deleting rows *)

Lemma deleteLoop_spec limit f n ms :
  let '(kept, gone, more) := deleteLoop limit f n ms in
  kept `sublist_of` ms ∧ gone `sublist_of` ms ∧ (∀ x, x ∈ ms ↔ x ∈ kept ∨ x ∈ gone) ∧ (∀ x, x ∈ gone → f x = true) ∧
  (∀ x, x ∈ ms → f x = false → x ∈ kept).
Proof.
  revert n. induction ms as [|x ms IH]; intros n; simpl.
  { split_and!; [done|done|intros x; by rewrite elem_of_nil; naive_solver|by intros x ?%not_elem_of_nil|by intros x ?%not_elem_of_nil]. }
  destruct (f x) eqn:Hf; [destruct (_ && _)|].
  - specialize (IH n). destruct (deleteLoop limit f n ms) as [[kept gone] more]. destruct IH as (H1 & H2 & H3 & H4 & H5).
    split_and!; [by apply sublist_skip|by apply sublist_cons|intros y; rewrite !elem_of_cons, H3; tauto|done|].
    intros y. rewrite !elem_of_cons. intros [->|Hy]; [by left|right; by apply H5].
  - specialize (IH (n + 1)). destruct (deleteLoop limit f (n + 1) ms) as [[kept gone] more]. destruct IH as (H1 & H2 & H3 & H4 & H5).
    split_and!; [by apply sublist_cons|by apply sublist_skip|intros y; rewrite !elem_of_cons, H3; tauto|..].
    + intros y [->|Hy]%elem_of_cons; [done|by apply H4].
    + intros y [->|Hy]%elem_of_cons Hfy; [congruence|by apply H5].
  - specialize (IH n). destruct (deleteLoop limit f n ms) as [[kept gone] more]. destruct IH as (H1 & H2 & H3 & H4 & H5).
    split_and!; [by apply sublist_skip|by apply sublist_cons|intros y; rewrite !elem_of_cons, H3; tauto|done|].
    intros y. rewrite !elem_of_cons. intros [->|Hy]; [by left|right; by apply H5].
Qed.
Lemma deleteLoop_all f n ms :
  deleteLoop 0 f n ms = (filter (λ x, f x = false) ms, filter (λ x, f x = true) ms, false).
Proof.
  revert n. induction ms as [|x ms IH]; intros n; [done|]. simpl. rewrite !filter_cons, !IH. destruct (f x) eqn:Hf; simpl; by rewrite ?Hf, ?decide_True, ?decide_False by done.
Qed.

(** What a step of deleting leaves alone. *)
Record same_rest s s' : Prop := {
  sr_uid : nextUID s' = nextUID s;
  sr_box : nextBox s' = nextBox s;
  sr_pts : nextPts s' = nextPts s;
  sr_dedup : privateSendDedup s' = privateSendDedup s;
  sr_dialogs : dialogs s' = dialogs s;
  sr_events : updateEvents s' = updateEvents s;
}.
Lemma same_rest_refl s : same_rest s s.
Proof. by split. Qed.
Lemma same_rest_trans s s1 s2 : same_rest s s1 → same_rest s1 s2 → same_rest s s2.
Proof. intros [] []. split; congruence. Qed.

(** Rows [rows] of account [u] are gone, the others are there. *)
Record removed s s' (rows : list deletedMemoryMessage) : Prop := {
  rm_rest : same_rest s s';
  rm_sub u : boxOf s' u `sublist_of` boxOf s u;
  rm_row r : r ∈ rows → ∃ x, x ∈ boxOf s (del_userID r) ∧ r = deletedRow (del_userID r) x;
  rm_gone u x : x ∈ boxOf s u → x ∈ boxOf s' u ∨ deletedRow u x ∈ rows;
}.
Lemma removed_refl s : removed s s [].
Proof. split; [apply same_rest_refl|done|by intros r ?%not_elem_of_nil|by left]. Qed.
Lemma removed_trans s s1 s2 r1 r2 : removed s s1 r1 → removed s1 s2 r2 → removed s s2 (r1 ++ r2).
Proof.
  intros [A1 A2 A3 A4] [B1 B2 B3 B4]. split.
  - by eapply same_rest_trans.
  - intros u. etrans; [apply B2|apply A2].
  - intros r [Hr|Hr]%elem_of_app; [by apply A3|]. destruct (B3 r Hr) as (x & Hx & E). exists x. split; [|done].
    eapply elem_of_submseteq; [done|]. apply sublist_submseteq, A2.
  - intros u x Hx. rewrite elem_of_app. destruct (A4 u x Hx) as [Hx1|]; [|by right; left]. destruct (B4 u x Hx1); [by left|by right; right].
Qed.
Lemma removed_shrunk s s' rows : removed s s' rows → shrunk (λ x, x) s s'.
Proof.
  intros [[E1 E2 _ _ _ _] Hs _ _]. split; [done|intros u; unfold nextBoxOf; by rewrite E2|]. intros u. apply shrinks_sublist; [apply moved_id_refl|apply Hs].
Qed.

Lemma deleteMemoryMessagesLocked_spec userID limit f s :
  let '(s', (rows, uids, more)) := deleteMemoryMessagesLocked userID limit f s in
  removed s s' rows ∧ (∀ r, r ∈ rows → ∃ x, x ∈ boxOf s userID ∧ f x = true ∧ r = deletedRow userID x) ∧
  (∀ x, x ∈ boxOf s userID → f x = false → x ∈ boxOf s' userID) ∧
  (∀ u, u ≠ userID → boxOf s' u = boxOf s u).
Proof.
  unfold deleteMemoryMessagesLocked. pose proof (deleteLoop_spec limit f 0 (boxOf s userID)) as H.
  destruct (deleteLoop limit f 0 (boxOf s userID)) as [[kept gone] more]. destruct H as (H1 & H2 & H3 & H4 & H5).
  assert (Hrow : ∀ r, r ∈ map (deletedRow userID) gone → ∃ x, x ∈ boxOf s userID ∧ f x = true ∧ r = deletedRow userID x).
  { intros r (x & -> & Hx)%list_elem_of_fmap. exists x. split_and!; [apply H3; by right|by apply H4|done]. }
  split_and!; [split|done| |].
  - by split.
  - intros u. rewrite boxOf_putBox. by case_decide as E; [rewrite E|].
  - intros r Hr. destruct (Hrow r Hr) as (x & Hx & _ & ->). by exists x.
  - intros u x Hx. rewrite boxOf_putBox. case_decide as E; [|by left]. subst u. apply H3 in Hx as [Hx|Hx]; [by left|right].
    apply list_elem_of_fmap. by exists x.
  - intros x Hx Hf. rewrite boxOf_putBox, decide_True by done. by apply H5.
  - intros u Hne. by rewrite boxOf_putBox, decide_False.
Qed.

Lemma elem_of_accounts (boxes : gmap Z (list message)) u : u ∈ accounts boxes ↔ is_Some (boxes !! u).
Proof. unfold accounts. by rewrite merge_sort_Permutation, elem_of_elements, elem_of_dom. Qed.
Lemma boxOf_nonempty s u x : x ∈ boxOf s u → is_Some (m s !! u).
Proof. unfold boxOf. destruct (m s !! u); [done|]. by intros ?%not_elem_of_nil. Qed.
Lemma boxOf_imap s (f : Z → list message → list message) boxes u :
  boxes = map_imap (λ u ms, Some (f u ms)) (m s) → f u [] = [] → default [] (boxes !! u) = f u (boxOf s u).
Proof. intros -> Hf. unfold boxOf. rewrite map_lookup_imap. by destruct (m s !! u). Qed.

Lemma deleteMemoryMessagesByUIDLocked_spec uids exclude s :
  let '(s', rows) := deleteMemoryMessagesByUIDLocked uids exclude s in
  removed s s' rows ∧ boxOf s' exclude = boxOf s exclude ∧
  (∀ r, r ∈ rows → del_userID r ≠ exclude ∧ del_privateMessageID r ∈ uids) ∧
  (∀ u, boxOf s' u = if decide (u = exclude) then boxOf s u else filter (λ x, UID x ∉ uids) (boxOf s u)).
Proof.
  unfold deleteMemoryMessagesByUIDLocked. case_bool_decide as He.
  { split_and!; [apply removed_refl|done|by intros r ?%not_elem_of_nil|]. intros u. case_decide; [done|]. symmetry. apply list_filter_id. intros x _. rewrite He. apply not_elem_of_nil. }
  set (keep u (ms : list message) := if bool_decide (u = exclude) then ms else filter (λ x, UID x ∉ uids) ms).
  set (gone u (ms : list message) := if bool_decide (u = exclude) then [] else filter (λ x, UID x ∈ uids) ms).
  set (s' := put_m _ s). assert (Hb : ∀ u, boxOf s' u = keep u (boxOf s u)).
  { intros u. apply (boxOf_imap s keep); [done|]. unfold keep. by case_bool_decide. }
  assert (Hgone : ∀ u x, x ∈ gone u (boxOf s u) ↔ u ≠ exclude ∧ x ∈ boxOf s u ∧ UID x ∈ uids).
  { intros u x. unfold gone. case_bool_decide; [set_solver|]. rewrite list_elem_of_filter. naive_solver. }
  assert (Hrow : ∀ r, r ∈ flat_map (λ u, map (deletedRow u) (gone u (boxOf s u))) (accounts (m s)) ↔ ∃ u x, r = deletedRow u x ∧ x ∈ gone u (boxOf s u)).
  { intros r. rewrite list_elem_of_In, in_flat_map. split.
    - intros (u & _ & Hr%list_elem_of_In). apply list_elem_of_fmap in Hr as (x & -> & Hx). by exists u, x.
    - intros (u & x & -> & Hx). exists u. rewrite <-!list_elem_of_In. split; [|apply list_elem_of_fmap; by exists x].
      apply elem_of_accounts. apply Hgone in Hx as (_ & Hx & _). by eapply boxOf_nonempty. }
  split_and!; [split| | |].
  - by split.
  - intros u. rewrite Hb. unfold keep. case_bool_decide; [done|]. apply sublist_filter.
  - intros r (u & x & -> & (_ & Hx & _)%Hgone)%Hrow. by exists x.
  - intros u x Hx. rewrite Hb. unfold keep. case_bool_decide as Hu; [by left|]. rewrite list_elem_of_filter. destruct (decide (UID x ∈ uids)); [right|by left].
    apply Hrow. exists u, x. split; [done|]. by apply Hgone.
  - rewrite Hb. unfold keep. by rewrite bool_decide_eq_true_2.
  - intros r (u & x & -> & (? & _ & ?)%Hgone)%Hrow. done.
  - intros u. rewrite Hb. unfold keep. by case_bool_decide; case_decide.
Qed.

(** ** The end of a deletion *)

(** How many pts an account spends, and its box, receipts and dialogs afterwards. *)
Definition spentPts u (rows : list deletedMemoryMessage) (anchors : gmap Z (@memoryHistoryClearAnchor X)) : Z :=
  len (deletedIDs u rows) + match freshAnchor (anchors !! u) with Some _ => 2 | None => 0 end.
Definition clearedRow u (pts : Z) (a : message) : message := NewHistoryClearMessage u (MPeer a) (ID a) (UID a) (Date a) pts.
Definition clearedBox u (pts : Z) (anchor : option message) (ms : list message) : list message :=
  match anchor with Some a => replaceRow (ID a) (MPeer a) (clearedRow u pts a) ms | None => ms end.
Definition deletedAt u (rows : list deletedMemoryMessage) (date pts : Z) : event :=
  deleteEvent u (pts + len (deletedIDs u rows)) (len (deletedIDs u rows)) date (deletedIDs u rows).
Definition clearedList u (rows : list deletedMemoryMessage) (anchors : gmap Z (@memoryHistoryClearAnchor X)) (ms : list message) (l : DialogList X) : DialogList X :=
  let l := foldl (λ l peer, rebuildMemoryDialogLocked ms peer l) l (peersOf u rows (anchors !! u)) in
  match freshAnchor (anchors !! u) with Some a => advanceMemoryHistoryClearDialogLocked (MPeer a) (ID a) l | None => l end.

Record finished (rows : list deletedMemoryMessage) (date : Z) (anchors : gmap Z (@memoryHistoryClearAnchor X)) u s s' : Prop := {
  fin_uid : nextUID s' = nextUID s;
  fin_next : nextBox s' = nextBox s;
  fin_events : updateEvents s' = updateEvents s;
  fin_pts v : nextPtsOf s' v = nextPtsOf s v + if decide (v = u) then spentPts u rows anchors else 0;
  fin_other v : v ≠ u → boxOf s' v = boxOf s v;
  fin_own : boxOf s' u = clearedBox u (nextPtsOf s' u) (freshAnchor (anchors !! u)) (boxOf s u);
  fin_dedup : privateSendDedup s' = if bool_decide (deletedIDs u rows = []) then privateSendDedup s
                                    else receiptDelete u (deletedAt u rows date (nextPtsOf s u)) rows (privateSendDedup s);
  fin_dialogs : dialogs s' = (if bool_decide (spentPts u rows anchors = 0) then λ ds, ds
                              else λ ds, <[u := clearedList u rows anchors (boxOf s' u) (listOf ds u)]> ds) <$> dialogs s;
}.

Lemma len_nonneg {A} (l : list A) : 0 ≤ len l.
Proof. unfold len. lia. Qed.
Lemma len_zero {A} (l : list A) : len l = 0 ↔ l = [].
Proof. unfold len. destruct l; simpl; split; intros; try done; lia. Qed.
Lemma replaceRow_nil id peer (x : message) : replaceRow id peer x [] = [].
Proof. done. Qed.

Lemma alter_box f (b : gmap Z (list message)) u v :
  f [] = [] → default [] (alter f u b !! v) = if decide (v = u) then f (default [] (b !! u)) else default [] (b !! v).
Proof. intros Hf. case_decide as E; [subst; rewrite lookup_alter_eq; by destruct (b !! u)|by rewrite lookup_alter_ne]. Qed.

(** Closes a [finished] goal once its state is known. *)
Ltac finished_tac :=
  split; try done; try match goal with H : freshAnchor _ = _ |- _ => unfold clearedBox, clearedList; rewrite ?H end;
  lazymatch goal with
  | Hpts : ∀ (b : gmap Z Z) v, _ → _ |- ∀ v, nextPtsOf _ v = _ => intros v; by apply Hpts
  | |- ∀ v, v ≠ _ → _ => intros v Hv; unfold boxOf; simpl; rewrite ?lookup_alter_ne by done; done
  | |- boxOf _ _ = _ =>
    unfold boxOf, nextPtsOf; simpl; rewrite ?lookup_insert_eq, ?alter_box, ?decide_True by done; done
  | Hids : _ = [] |- privateSendDedup _ = _ => rewrite (bool_decide_eq_true_2 _ Hids); done
  | Hids : _ ≠ [] |- privateSendDedup _ = _ => rewrite (bool_decide_eq_false_2 _ Hids); done
  | Hz : _ ≠ 0 |- dialogs _ = _ => rewrite (bool_decide_eq_false_2 _ Hz); done
  end.

(** The panic of the pts bookkeeping is unreachable. *)
Lemma finishOwner_spec rows date anchors u s :
  ∃ s' items, finishOwner rows date anchors u s = Done (s', items) ∧ finished rows date anchors u s s' ∧
    items = (if bool_decide (spentPts u rows anchors = 0) then [] else
      [mkDeletedFor u (deletedIDs u rows) (if bool_decide (deletedIDs u rows = []) then noEvent else deletedAt u rows date (nextPtsOf s u))
         ((if bool_decide (deletedIDs u rows = []) then [] else [deletedAt u rows date (nextPtsOf s u)])
          ++ match freshAnchor (anchors !! u) with
             | Some a => [clearReadEvent u (nextPtsOf s u + len (deletedIDs u rows) + 1) date (MPeer a) (ID a);
                          clearEditEvent u (nextPtsOf s u + spentPts u rows anchors) date (clearedRow u (nextPtsOf s u + spentPts u rows anchors) a)]
             | None => []
             end) (nextPtsOf s u + spentPts u rows anchors) (spentPts u rows anchors)]).
Proof.
  unfold finishOwner. fold (spentPts u rows anchors). pose proof (len_nonneg (deletedIDs u rows)) as Hlen.
  destruct (bool_decide_reflect (spentPts u rows anchors = 0)) as [Hz|Hz].
  { exists s, []. split; [done|]. split; [|done]. assert (deletedIDs u rows = []) as Hids. { apply len_zero. unfold spentPts in Hz. destruct (freshAnchor _); lia. }
    split; try done.
    - intros v. case_decide; lia.
    - unfold spentPts in Hz. destruct (freshAnchor (anchors !! u)); [lia|done].
    - by rewrite bool_decide_eq_true_2.
    - rewrite bool_decide_eq_true_2 by done. by destruct (dialogs s). }
  unfold nextPtsNLocked. rewrite (bool_decide_eq_false_2 (spentPts u rows anchors ≤ 0)) by (unfold spentPts in *; destruct (freshAnchor _); lia).
  set (total := spentPts u rows anchors) in *. set (ids := deletedIDs u rows) in *. set (pts := nextPtsOf s u + total).
  assert (Hpts : ∀ (b : gmap Z Z) v, b = <[u := pts]> (nextPts s) → default 0 (b !! v) = nextPtsOf s v + if decide (v = u) then total else 0).
  { intros b v ->. unfold nextPtsOf. case_decide as E; [by rewrite E, lookup_insert_eq|rewrite lookup_insert_ne by done; lia]. }
  replace (pts - total) with (nextPtsOf s u) by (unfold pts; lia).
  destruct (bool_decide_reflect (ids = [])) as [Hids|Hids]; [rewrite (bool_decide_eq_false_2 (ids ≠ [])) by (by intros [])|rewrite (bool_decide_eq_true_2 (ids ≠ [])) by done];
    destruct (freshAnchor (anchors !! u)) as [a|] eqn:Hfresh; cbn iota zeta beta;
    (assert (Ht : total = len ids + match freshAnchor (anchors !! u) with Some _ => 2 | None => 0 end) by done); rewrite Hfresh in Ht;
    pose proof (len_zero ids) as Hl0.
  2: { exfalso. rewrite Hids in Ht. done. }
  - assert (Hp : nextPtsOf s u + 1 + 1 = pts) by (unfold pts; rewrite Ht, Hids; unfold len; simpl; lia). rewrite Hp.
    rewrite bool_decide_eq_true_2 by done. cbn [negb panic_if mbind run_bind]. eexists _, _. split; [reflexivity|]. split; [finished_tac|].
    rewrite Hids. unfold len. simpl. by rewrite Z.add_0_r.
  - assert (Hp : nextPtsOf s u + len ids + 1 + 1 = pts) by (unfold pts; lia). rewrite Hp.
    rewrite bool_decide_eq_true_2 by done. cbn [negb panic_if mbind run_bind]. eexists _, _. split; [reflexivity|]. split; [finished_tac|done].
  - assert (Hp : nextPtsOf s u + len ids = pts) by (unfold pts; lia).
    rewrite bool_decide_eq_true_2 by done. cbn [negb panic_if mbind run_bind]. eexists _, _. split; [reflexivity|]. split; [finished_tac|done].
Qed.

(** The receipts of other accounts do not matter. *)
Lemma receiptDelete_lookup u (e : event) (rows : list deletedMemoryMessage) (dedup : gmap (Z * Z) (@privateSendDedupRecord X)) v (rid : Z) :
  v ≠ u → receiptDelete u e rows dedup !! (v, rid) = dedup !! (v, rid).
Proof.
  intros Hne. unfold receiptDelete. revert dedup. induction rows as [|r rows IH]; intros dedup; [done|]. simpl. rewrite IH.
  destruct (_ || _); [done|]. destruct (dedup !! (u, del_randomID r)); [|done]. rewrite lookup_insert_ne; [done|congruence].
Qed.
Lemma receiptDelete_ext u (e : event) (rows : list deletedMemoryMessage) (dedup dedup' : gmap (Z * Z) (@privateSendDedupRecord X)) :
  (∀ rid, dedup !! (u, rid) = dedup' !! (u, rid)) → ∀ rid, receiptDelete u e rows dedup !! (u, rid) = receiptDelete u e rows dedup' !! (u, rid).
Proof.
  unfold receiptDelete. revert dedup dedup'. induction rows as [|r rows IH]; intros dedup dedup' HE; [done|]. simpl. apply IH.
  destruct (_ || _); [done|]. rewrite <-HE. destruct (dedup !! (u, del_randomID r)); [|done]. intros rid.
  destruct (decide (rid = del_randomID r)) as [->|]; [by rewrite !lookup_insert_eq|rewrite !lookup_insert_ne by congruence; apply HE].
Qed.

Record finishedAll (rows : list deletedMemoryMessage) (date : Z) (anchors : gmap Z (@memoryHistoryClearAnchor X)) (owners : list Z) s s' : Prop := {
  fa_uid : nextUID s' = nextUID s;
  fa_next : nextBox s' = nextBox s;
  fa_events : updateEvents s' = updateEvents s;
  fa_pts v : nextPtsOf s' v = nextPtsOf s v + if decide (v ∈ owners) then spentPts v rows anchors else 0;
  fa_box v : boxOf s' v = if decide (v ∈ owners) then clearedBox v (nextPtsOf s' v) (freshAnchor (anchors !! v)) (boxOf s v) else boxOf s v;
  fa_dedup v rid : privateSendDedup s' !! (v, rid) =
    (if decide (v ∈ owners ∧ deletedIDs v rows ≠ []) then receiptDelete v (deletedAt v rows date (nextPtsOf s v)) rows (privateSendDedup s)
     else privateSendDedup s) !! (v, rid);
  fa_dialogs : match dialogs s with
    | None => dialogs s' = None
    | Some ds => ∃ ds', dialogs s' = Some ds' ∧ ∀ v, listOf ds' v =
        if decide (v ∈ owners ∧ spentPts v rows anchors ≠ 0) then clearedList v rows anchors (boxOf s' v) (listOf ds v) else listOf ds v
    end;
}.
Lemma listOf_insert (ds : gmap Z (DialogList X)) u v l : listOf (<[u := l]> ds) v = if decide (v = u) then l else listOf ds v.
Proof. unfold listOf. case_decide as E; [by rewrite E, lookup_insert_eq|by rewrite lookup_insert_ne]. Qed.

Lemma finishOwners_spec rows date anchors owners s :
  NoDup owners → ∃ s' items, finishOwners rows date anchors owners s = Done (s', items) ∧ finishedAll rows date anchors owners s s'.
Proof.
  revert s. induction owners as [|u owners IH]; intros s.
  { intros _. exists s, []. split; [done|]. split; [done|done|done|..].
    - intros v. rewrite decide_False by apply not_elem_of_nil. lia.
    - intros v. by rewrite decide_False by apply not_elem_of_nil.
    - intros v rid. rewrite decide_False; [done|]. by intros [?%not_elem_of_nil _].
    - destruct (dialogs s) as [ds|]; [|done]. exists ds. split; [done|]. intros v. rewrite decide_False; [done|]. by intros [?%not_elem_of_nil _]. }
  intros [Hni Hnd]%NoDup_cons. destruct (finishOwner_spec rows date anchors u s) as (s1 & items & E1 & F & _).
  destruct (IH s1 Hnd) as (s2 & items' & E2 & A). exists s2, (items ++ items'). simpl. rewrite E1. simpl. rewrite E2. split; [done|]. clear IH E1 E2.
  destruct F as [F1 F2 F3 F4 F5 F6 F7 F8], A as [A1 A2 A3 A4 A5 A6 A7].
  assert (Hu2 : nextPtsOf s2 u = nextPtsOf s1 u) by (rewrite A4, decide_False by done; lia).
  assert (Hbu : boxOf s2 u = boxOf s1 u) by (by rewrite A5, decide_False).
  split; [congruence..| | | |].
  - intros v. rewrite A4, F4. destruct (decide (v = u)) as [->|Hne].
    + rewrite (decide_False (P := u ∈ owners)), (decide_True (P := u ∈ u :: owners)) by (done || apply list_elem_of_here). lia.
    + destruct (decide (v ∈ owners)); [rewrite decide_True by (by apply list_elem_of_further)|rewrite decide_False by (by intros [?|?]%elem_of_cons)]; lia.
  - intros v. destruct (decide (v = u)) as [->|Hne].
    + rewrite (decide_True (P := u ∈ u :: owners)) by apply list_elem_of_here. by rewrite Hbu, Hu2, F6.
    + rewrite A5. rewrite (F5 v Hne). destruct (decide (v ∈ owners)); [by rewrite decide_True by (by apply list_elem_of_further)|by rewrite decide_False by (by intros [?|?]%elem_of_cons)].
  - intros v rid. rewrite A6. destruct (decide (v = u)) as [->|Hne].
    + rewrite decide_False by tauto. rewrite F7. assert (Hh : u ∈ u :: owners) by apply list_elem_of_here.
      destruct (bool_decide_reflect (deletedIDs u rows = [])); [by rewrite decide_False by tauto|by rewrite decide_True].
    + assert (Hd : ∀ r, privateSendDedup s1 !! (v, r) = privateSendDedup s !! (v, r)). { intros r. rewrite F7. destruct (bool_decide (deletedIDs u rows = [])); [done|by apply receiptDelete_lookup]. }
      assert (nextPtsOf s1 v = nextPtsOf s v) as -> by (rewrite F4, decide_False by done; lia).
      destruct (decide (v ∈ owners ∧ deletedIDs v rows ≠ [])) as [[]|Hn].
      * rewrite decide_True by (split; [by apply list_elem_of_further|done]). by apply receiptDelete_ext.
      * rewrite decide_False by (intros [[?|?]%elem_of_cons ?]; tauto). apply Hd.
  - rewrite F8 in A7. destruct (dialogs s) as [ds|]; [|done]. simpl in A7. destruct A7 as (ds2 & E & A7). exists ds2. split; [done|]. intros v. rewrite A7. clear A7 E.
    destruct (decide (v = u)) as [->|Hne].
    + rewrite decide_False by tauto. rewrite Hbu. assert (Hh : u ∈ u :: owners) by apply list_elem_of_here.
      destruct (bool_decide_reflect (spentPts u rows anchors = 0)); [by rewrite decide_False by tauto|].
      by rewrite listOf_insert, !decide_True.
    + assert (Hl : listOf ((if bool_decide (spentPts u rows anchors = 0) then λ ds, ds
               else λ ds, <[u:=clearedList u rows anchors (boxOf s1 u) (listOf ds u)]> ds) ds) v = listOf ds v).
      { destruct (bool_decide (spentPts u rows anchors = 0)); [done|]. by rewrite listOf_insert, decide_False. }
      rewrite Hl. destruct (decide (v ∈ owners ∧ spentPts v rows anchors ≠ 0)) as [[]|Hn].
      * by rewrite decide_True by (split; [by apply list_elem_of_further|done]).
      * by rewrite decide_False by (intros [[?|?]%elem_of_cons ?]; tauto).
Qed.

Lemma elem_of_ownerIDs (rows : list deletedMemoryMessage) (anchors : gmap Z (@memoryHistoryClearAnchor X)) v :
  v ∈ ownerIDs rows anchors ↔ (∃ r, r ∈ rows ∧ del_userID r = v) ∨ ∃ a, freshAnchor (anchors !! v) = Some a.
Proof.
  unfold ownerIDs. rewrite merge_sort_Permutation, elem_of_elements, elem_of_union, elem_of_list_to_set, list_elem_of_fmap, elem_of_dom.
  split; intros [H|H].
  - left. destruct H as (r & -> & Hr). by exists r.
  - right. destruct H as [a [Ha Hm]%map_lookup_filter_Some]. simpl in Hm. exists (anchorMessage a). rewrite Ha. simpl. by rewrite Hm.
  - left. destruct H as (r & Hr & <-). by exists r.
  - right. destruct H as [x Hx]. destruct (anchors !! v) as [a|] eqn:Ha; simpl in Hx; [|done]. destruct (materialized a) eqn:Hm; [done|].
    exists a. by apply map_lookup_filter_Some.
Qed.
Lemma deletedIDs_nil v rows : (∀ r, r ∈ rows → del_userID r ≠ v) → deletedIDs v rows = [].
Proof.
  intros H. unfold deletedIDs. assert (filter (λ row, del_userID row = v) rows = []) as ->; [|done].
  induction rows as [|r rows IH]; [done|]. rewrite filter_cons_False; [apply IH; intros; apply H; by apply list_elem_of_further|apply H, list_elem_of_here].
Qed.
Lemma not_owner (rows : list deletedMemoryMessage) (anchors : gmap Z (@memoryHistoryClearAnchor X)) v :
  v ∉ ownerIDs rows anchors → deletedIDs v rows = [] ∧ freshAnchor (anchors !! v) = None ∧ spentPts v rows anchors = 0.
Proof.
  rewrite elem_of_ownerIDs. intros Hn. assert (deletedIDs v rows = []) as E by (apply deletedIDs_nil; naive_solver).
  assert (freshAnchor (anchors !! v) = None) as F by (destruct (freshAnchor (anchors !! v)); naive_solver).
  split_and!; [done|done|]. unfold spentPts. by rewrite E, F.
Qed.

(** A whole deletion after its rows are gone. *)
Record deletion (rows : list deletedMemoryMessage) (date : Z) (anchors : gmap Z (@memoryHistoryClearAnchor X)) s s' : Prop := {
  dl_uid : nextUID s' = nextUID s;
  dl_next : nextBox s' = nextBox s;
  dl_events : updateEvents s' = updateEvents s;
  dl_pts v : nextPtsOf s' v = nextPtsOf s v + spentPts v rows anchors;
  dl_box v : boxOf s' v = clearedBox v (nextPtsOf s' v) (freshAnchor (anchors !! v)) (boxOf s v);
  dl_dedup v rid : privateSendDedup s' !! (v, rid) =
    (if decide (deletedIDs v rows = []) then privateSendDedup s
     else receiptDelete v (deletedAt v rows date (nextPtsOf s v)) rows (privateSendDedup s)) !! (v, rid);
  dl_dialogs : match dialogs s with
    | None => dialogs s' = None
    | Some ds => ∃ ds', dialogs s' = Some ds' ∧ ∀ v, listOf ds' v =
        if decide (spentPts v rows anchors = 0) then listOf ds v else clearedList v rows anchors (boxOf s' v) (listOf ds v)
    end;
}.
Lemma finishMemoryDeleteLocked_spec rows date anchors s :
  ∃ s' items, finishMemoryDeleteLocked rows date anchors s = Done (s', items) ∧ deletion rows date anchors s s'.
Proof.
  unfold finishMemoryDeleteLocked. set (s0 := put_savedMessageTags _ s).
  destruct (finishOwners_spec rows date anchors (ownerIDs rows anchors) s0) as (s' & items & E & [A1 A2 A3 A4 A5 A6 A7]).
  { unfold ownerIDs. rewrite merge_sort_Permutation. apply NoDup_elements. }
  exists s', items. split; [done|]. split; [done|done|done|..].
  - intros v. rewrite A4. case_decide as Hv; [done|]. by destruct (not_owner _ _ _ Hv) as (_ & _ & ->).
  - intros v. rewrite A5. case_decide as Hv; [done|]. by destruct (not_owner _ _ _ Hv) as (_ & -> & _).
  - intros v rid. rewrite A6. destruct (decide (v ∈ ownerIDs rows anchors)) as [Hv|Hv].
    + destruct (decide (deletedIDs v rows = [])); [by rewrite decide_False by tauto|by rewrite decide_True].
    + destruct (not_owner _ _ _ Hv) as (E1 & _ & _). rewrite decide_False by tauto. by rewrite (decide_True (P := deletedIDs v rows = [])).
  - change (dialogs s0) with (dialogs s) in A7. destruct (dialogs s) as [ds|]; [|done]. destruct A7 as (ds' & E1 & A7). exists ds'. split; [done|].
    intros v. rewrite A7. destruct (decide (v ∈ ownerIDs rows anchors)) as [Hv|Hv].
    + destruct (decide (spentPts v rows anchors = 0)); [by rewrite decide_False by tauto|by rewrite decide_True].
    + destruct (not_owner _ _ _ Hv) as (_ & _ & E2). rewrite decide_False by tauto. by rewrite (decide_True (P := spentPts v rows anchors = 0)).
Qed.

Lemma replaceRow_moved u (a x : message) ms :
  (∀ y, y ∈ ms → ID y = ID a → y = a) → key x = key a → From x = user u → marker x →
  Forall2 (moved (λ x, x) u) ms (replaceRow (ID a) (MPeer a) x ms).
Proof.
  intros Hid Hk Hf Hc. induction ms as [|y ms IH]; simpl; [done|]. destruct (_ && _) eqn:E.
  - apply andb_true_iff in E as [Ey%bool_decide_eq_true _]. constructor; [|apply Forall_Forall2_diag, Forall_true, moved_id_refl].
    assert (y = a) as -> by (apply Hid; [apply list_elem_of_here|done]). by apply moved_clear.
  - constructor; [apply moved_id_refl|]. apply IH. intros z Hz. apply Hid. by apply list_elem_of_further.
Qed.
Lemma clearedRow_key u pts (a : message) : OwnerUserID a = u → key (clearedRow u pts a) = key a.
Proof. by intros <-. Qed.
Lemma deletion_shrunk rows date anchors s s' :
  WF s → (∀ u a, freshAnchor (anchors !! u) = Some a → a ∈ boxOf s u) → deletion rows date anchors s s' → shrunk (λ x, x) s s'.
Proof.
  intros HW Ha [D1 D2 _ _ D5 _ _]. split; [done|intros u; unfold nextBoxOf; by rewrite D2|]. intros u. rewrite D5. unfold clearedBox.
  destruct (freshAnchor (anchors !! u)) as [a|] eqn:Hfr; [|apply shrinks_refl, moved_id_refl].
  specialize (Ha u a Hfr). apply shrinks_Forall2, replaceRow_moved; [|apply clearedRow_key|done|done].
  - intros y Hy E. by eapply box_id_eq; [apply wf_box|..].
  - by destruct (box_rows _ _ _ _ (wf_box _ HW u) a Ha).
Qed.

(** ** Deletions *)

(** The anchor of an account: the newest row with its peer. *)
Definition anchorOK s1 (anchors : gmap Z (@memoryHistoryClearAnchor X)) : Prop :=
  ∀ u a, freshAnchor (anchors !! u) = Some a → a ∈ boxOf s1 u ∧ ∀ y, y ∈ boxOf s1 u → MPeer y = MPeer a → ID y ≤ ID a.
(** Rows go, then the deletion is booked. *)
Definition deletes s s' (rows : list deletedMemoryMessage) (anchors : gmap Z (@memoryHistoryClearAnchor X)) : Prop :=
  ∃ date s1, removed s s1 rows ∧ anchorOK s1 anchors ∧ deletion rows date anchors s1 s'.
Lemma anchorOK_empty s1 : anchorOK s1 ∅.
Proof. intros u a. by rewrite lookup_empty. Qed.

Lemma deletes_shrunk s s' rows anchors : WF s → deletes s s' rows anchors → shrunk (λ x, x) s s'.
Proof.
  intros HW (date & s1 & Hr & Ha & Hd). pose proof (removed_shrunk _ _ _ Hr) as Hs.
  assert (WF s1) as HW1 by (by eapply WF_shrunk; [apply uniform_id|..]).
  eapply shrunk_trans; [done|]. eapply deletion_shrunk; [done| |done]. intros u a Hu. by apply Ha.
Qed.

Lemma DeleteMessages_spec now q s :
  ∃ s' r, DeleteMessages now q s = Done (s', r) ∧ (s' = s ∨ ∃ rows, deletes s s' rows ∅).
Proof.
  unfold DeleteMessages. set (ids := normalizeMemoryMessageIDs (del_IDs q)).
  destruct (_ || _); [by eexists _, _; split; [done|left]|]. destruct (bool_decide (len ids > _)); [by eexists _, _; split; [done|left]|].
  set (date := if bool_decide _ then now else _).
  pose proof (deleteMemoryMessagesLocked_spec (del_OwnerUserID q) 0 (λ x, bool_decide (ID x ∈ ids)) s) as H1.
  destruct (deleteMemoryMessagesLocked _ _ _ s) as [s1 [[rows uids] more]]. destruct H1 as (R1 & _).
  assert (∃ s2 rows', (if del_Revoke q && negb (bool_decide (uids = [])) then deleteMemoryMessagesByUIDLocked uids (del_OwnerUserID q) s1 else (s1, [])) = (s2, rows') ∧ removed s1 s2 rows')
    as (s2 & rows' & -> & R2).
  { destruct (_ && _); [|eexists _, _; split; [done|apply removed_refl]].
    pose proof (deleteMemoryMessagesByUIDLocked_spec uids (del_OwnerUserID q) s1) as H2.
    destruct (deleteMemoryMessagesByUIDLocked _ _ _) as [s2 rows']. destruct H2 as (R2 & _). by exists s2, rows'. }
  destruct (finishMemoryDeleteLocked_spec (rows ++ rows') date ∅ s2) as (s' & items & E & D). exists s'. rewrite E. simpl. eexists. split; [done|]. right.
  exists (rows ++ rows'), date, s2. split_and!; [by eapply removed_trans|apply anchorOK_empty|done].
Qed.

Lemma top_row_spec peer ms t :
  let top := foldl (λ top x : message, if bool_decide (MPeer x = peer) && bool_decide (ID x > ID top) then x else top) t ms in
  (top = t ∨ top ∈ ms ∧ MPeer top = peer) ∧ ID t ≤ ID top ∧ ∀ y, y ∈ ms → MPeer y = peer → ID y ≤ ID top.
Proof.
  revert t. induction ms as [|x ms IH]; intros t; simpl; [split_and!; [by left|done|by intros y ?%not_elem_of_nil]|].
  set (t' := if _ && _ then x else t). destruct (IH t') as (H1 & H2 & H3).
  assert (Ht' : (t' = t ∨ t' = x ∧ MPeer x = peer) ∧ ID t ≤ ID t' ∧ (MPeer x = peer → ID x ≤ ID t')).
  { unfold t'. destruct (bool_decide_reflect (MPeer x = peer)) as [E|E]; simpl; [|by split_and!; [left|lia|done]].
    case_bool_decide; split_and!; [by right|lia|lia|by left|lia|lia]. }
  destruct Ht' as (T1 & T2 & T3). split_and!.
  - destruct H1 as [->|[? ?]]; [|right; split; [by apply list_elem_of_further|done]]. destruct T1 as [->|[-> ?]]; [by left|right; split; [apply list_elem_of_here|done]].
  - lia.
  - intros y [->|Hy]%elem_of_cons Hp; [specialize (T3 Hp); lia|by apply H3].
Qed.
Lemma memoryHistoryClearAnchorLocked_spec userID peer s a :
  memoryHistoryClearAnchorLocked userID peer s = Some a →
  anchorMessage a ∈ boxOf s userID ∧ MPeer (anchorMessage a) = peer ∧ ∀ y, y ∈ boxOf s userID → MPeer y = peer → ID y ≤ ID (anchorMessage a).
Proof.
  unfold memoryHistoryClearAnchorLocked. pose proof (top_row_spec peer (boxOf s userID) noMessage) as H. simpl in H.
  set (top := foldl _ _ _) in *. case_bool_decide as E; [done|]. intros [= <-]. simpl. destruct H as ([->|[? ?]] & _ & ?); [done|by split_and!].
Qed.
Lemma clearAnchors_spec q s u a :
  clearAnchors q s !! u = Some a →
  JustClear q = true ∧ dh_MaxID q ≤ 0 ∧
  (u = dh_OwnerUserID q ∧ MPeer (anchorMessage a) = dh_Peer q ∨
   u = peerID (dh_Peer q) ∧ MPeer (anchorMessage a) = user (dh_OwnerUserID q) ∧ peerID (dh_Peer q) ≠ dh_OwnerUserID q ∧ dh_Revoke q = true) ∧
  anchorMessage a ∈ boxOf s u ∧ ∀ y, y ∈ boxOf s u → MPeer y = MPeer (anchorMessage a) → ID y ≤ ID (anchorMessage a).
Proof.
  unfold clearAnchors. destruct (JustClear q && _ && _ && _) eqn:Hc; [|by rewrite lookup_empty]. rewrite !andb_true_iff, !bool_decide_eq_true in Hc. destruct Hc as [[[Hj Hm] _] _].
  set (A := match memoryHistoryClearAnchorLocked (dh_OwnerUserID q) (dh_Peer q) s with Some _ => _ | None => _ end).
  assert (HA : ∀ a, A !! u = Some a → (u = dh_OwnerUserID q ∧ MPeer (anchorMessage a) = dh_Peer q) ∧ anchorMessage a ∈ boxOf s u ∧ ∀ y, y ∈ boxOf s u → MPeer y = MPeer (anchorMessage a) → ID y ≤ ID (anchorMessage a)).
  { intros b. unfold A. destruct (memoryHistoryClearAnchorLocked _ _ s) as [c|] eqn:Ec; [|by rewrite lookup_empty].
    intros [<- ->]%lookup_singleton_Some. destruct (memoryHistoryClearAnchorLocked_spec _ _ _ _ Ec) as (? & E & ?). rewrite E. by split_and!. }
  clearbody A. destruct (dh_Revoke q && _) eqn:Hrv; [|by intros (? & ? & ?)%HA; split_and!; [| |left|..]].
  apply andb_true_iff in Hrv as [Hrv Hne%negb_true_iff%bool_decide_eq_false].
  destruct (memoryHistoryClearAnchorLocked _ _ s) as [c|] eqn:Ec; [|by intros (? & ? & ?)%HA; split_and!; [| |left|..]].
  rewrite lookup_insert_Some. intros [[<- <-]|[_ (? & ? & ?)%HA]]; [|by split_and!; [| |left|..]].
  destruct (memoryHistoryClearAnchorLocked_spec _ _ _ _ Ec) as (? & E & ?). rewrite E. by split_and!; [| |right|..].
Qed.
End boxes.
End MailBoxes.
