(* ===== verification/MailSteps.v ===== *)
(** * Private messages: the steps of the store

    What every operation does to the boxes, and that the invariant of
    [MailInv] holds after any sequence of operations ([op]), each one critical
    section of the store's mutex. *)

From stdpp Require Import sorting.
From S2P Require Import Prelude UpdateTypes UpdateStore MailTypes MailStore MailOps MailInv MailBoxes.
Import Mail MailStore MailOps MailInv MailBoxes.

Module MailSteps.
Section steps.
Context {X : Type} `{EqX : EqDecision X} `{InhX : Inhabited X}.
Abbreviation message := (Message X).
Abbreviation event := (UpdateEvent message).
Abbreviation store := (@MessageStore X).
Implicit Types (x y : message) (s : store) (u v : Z).

Lemma freshAnchor_Some (anchors : gmap Z (@memoryHistoryClearAnchor X)) u a :
  freshAnchor (anchors !! u) = Some a → ∃ b, anchors !! u = Some b ∧ a = anchorMessage b.
Proof. destruct (anchors !! u) as [b|]; [|done]. simpl. destruct (materialized b); [done|]. intros [= <-]. by exists b. Qed.
Lemma isAnchor_own (anchors : gmap Z (@memoryHistoryClearAnchor X)) u b : anchors !! u = Some b → isAnchor anchors u (anchorMessage b) = true.
Proof. intros E. unfold isAnchor. rewrite E. by apply bool_decide_eq_true_2. Qed.

Lemma DeleteHistory_spec now q s :
  ∃ s' r, DeleteHistory now q s = Done (s', r) ∧ (s' = s ∨ ∃ rows, deletes s s' rows (clearAnchors q s)).
Proof.
  unfold DeleteHistory. destruct (_ || _); [by eexists _, _; split; [done|left]|].
  set (owner := dh_OwnerUserID q). set (peer := peerID (dh_Peer q)). set (date := if bool_decide _ then now else _). set (anchors := clearAnchors q s).
  set (f1 := λ x, negb (isAnchor anchors owner x) && _ && _ && _). set (f2 := λ x, negb (isAnchor anchors peer x) && _ && _).
  pose proof (deleteMemoryMessagesLocked_spec owner MaxDeleteHistoryBatch f1 s) as H1.
  destruct (deleteMemoryMessagesLocked owner _ f1 s) as [s1 [[rows uids] more]]. destruct H1 as (R1 & _ & K1 & O1).
  assert (∃ s2 rows2, (if dh_Revoke q && bool_decide (dh_MaxID q > 0) && negb (bool_decide (uids = []))
      then let '(s, gone) := deleteMemoryMessagesByUIDLocked uids owner s1 in (s, rows ++ gone) else (s1, rows)) = (s2, rows2) ∧
      removed s s2 rows2 ∧ (dh_MaxID q ≤ 0 → s2 = s1)) as (s2 & rows2 & -> & R2 & K2).
  { destruct (bool_decide_reflect (dh_MaxID q > 0)); [|rewrite andb_false_r; by eexists _, _].
    destruct (_ && _ && _); [|eexists _, _; split_and!; [done|done|lia]].
    pose proof (deleteMemoryMessagesByUIDLocked_spec uids owner s1) as H2. destruct (deleteMemoryMessagesByUIDLocked _ _ _) as [s2 gone]. destruct H2 as (R2 & _).
    eexists _, _. split_and!; [done|by eapply removed_trans|lia]. }
  assert (∃ s3 rows3 more3, (if dh_Revoke q && bool_decide (dh_MaxID q ≤ 0) && negb (bool_decide (peer = owner))
      then let '(s, (peerDeleted, _, peerMore)) := deleteMemoryMessagesLocked peer MaxDeleteHistoryBatch f2 s2 in (s, rows2 ++ peerDeleted, more || peerMore)
      else (s2, rows2, more)) = (s3, rows3, more3) ∧
      removed s s3 rows3 ∧ (∀ u, u ≠ peer ∨ peer = owner → boxOf s3 u = boxOf s2 u) ∧ (∀ x, x ∈ boxOf s2 peer → isAnchor anchors peer x = true → x ∈ boxOf s3 peer))
    as (s3 & rows3 & more3 & -> & R3 & O3 & K3).
  { destruct (bool_decide_reflect (peer = owner)); [rewrite andb_false_r; by eexists _, _, _|]. destruct (_ && _); [|by eexists _, _, _].
    pose proof (deleteMemoryMessagesLocked_spec peer MaxDeleteHistoryBatch f2 s2) as H3.
    destruct (deleteMemoryMessagesLocked peer _ f2 s2) as [s3 [[gone ?] more']]. destruct H3 as (R3 & _ & K3 & O3).
    eexists _, _, _. split_and!; [done|by eapply removed_trans|intros u [?|?]; [by apply O3|done]|].
    intros x Hx Ha. apply K3; [done|]. unfold f2. by rewrite Ha. }
  destruct (finishMemoryDeleteLocked_spec rows3 date anchors s3) as (s' & items & E & D). exists s'. rewrite E. simpl. eexists. split; [done|]. right.
  exists rows3, date, s3. split_and!; [done| |done]. intros u a Hf.
  destruct (freshAnchor_Some _ _ _ Hf) as (b & Hb & ->). destruct (clearAnchors_spec q s u b Hb) as (_ & Hm & Hu & Hin & Htop). specialize (K2 Hm). subst s2.
  split; [|intros y Hy; apply Htop; eapply elem_of_submseteq; [done|]; apply sublist_submseteq, (rm_sub _ _ _ R3)].
  pose proof (isAnchor_own anchors u b Hb) as HA. fold owner peer in Hu.
  destruct (decide (u = owner)) as [->|Hne].
  - assert (anchorMessage b ∈ boxOf s1 owner) as Hin1 by (apply K1; [done|unfold f1; by rewrite HA]).
    destruct (decide (peer = owner)) as [Hpo|Hpo]; [rewrite O3; [done|by right]|rewrite O3; [done|by left]].
  - destruct Hu as [[? _]|(-> & _ & Hpo & _)]; [done|]. apply K3; [|done]. by rewrite O1.
Qed.

Lemma DeleteSavedHistory_spec now q s :
  ∃ s' r, DeleteSavedHistory now q s = Done (s', r) ∧ (s' = s ∨ ∃ rows, deletes s s' rows ∅).
Proof.
  unfold DeleteSavedHistory. destruct (_ || _ || _); [by eexists _, _; split; [done|left]|]. set (f := λ x, _ && _ && _ && _ && _).
  set (date := if bool_decide _ then now else _).
  pose proof (deleteMemoryMessagesLocked_spec (ds_OwnerUserID q) MaxDeleteHistoryBatch f s) as H1.
  destruct (deleteMemoryMessagesLocked _ _ f s) as [s1 [[rows uids] more]]. destruct H1 as (R1 & _).
  destruct (finishMemoryDeleteLocked_spec rows date ∅ s1) as (s' & items & E & D). rewrite E. simpl. eexists _, _. split; [done|]. right.
  exists rows, date, s1. split_and!; [done|apply anchorOK_empty|]. destruct (_ && _ && _); [|done]. destruct (list_find _ _) as [[i ?]|]; [|done].
  destruct D as [D1 D2 D3 D4 D5 D6 D7]. by split.
Qed.

(** ** Changes in place *)

Lemma editCopy_key q date pts x : key (editCopy q date pts x) = key x ∧ Out (editCopy q date pts x) = Out x ∧ From (editCopy q date pts x) = From x ∧ RandomID (editCopy q date pts x) = RandomID x.
Proof. unfold editCopy. destruct (WebPageResolve q), (e_Media q), (SetReplyMarkup q), (SetRichMessage q); done. Qed.
Lemma editCopy_pts q date pts pts' x : same_content (editCopy q date pts x) (editCopy q date pts' x).
Proof. unfold editCopy. destruct (WebPageResolve q), (e_Media q), (SetReplyMarkup q), (SetRichMessage q); done. Qed.
(** What an edit makes of a row, up to its pts. *)
Definition edited q (date uid sender : Z) x : message := if isCopyOf uid sender x then editCopy q date 0 x else x.
Lemma editBox_kept q date uid sender pts ms :
  Forall2 (kept (edited q date uid sender)) ms (editBox q date uid sender pts ms).1.1.
Proof.
  revert pts. induction ms as [|x ms IH]; intros pts; simpl; [done|]. destruct (isCopyOf uid sender x) eqn:E.
  - specialize (IH (pts + 1)). destruct (editBox _ _ _ _ (pts + 1) ms) as [[ms' ed] p]. simpl in *. constructor; [|done].
    split_and!; [by apply editCopy_key|by apply editCopy_key|]. unfold edited. rewrite E. apply editCopy_pts.
  - specialize (IH pts). destruct (editBox _ _ _ _ pts ms) as [[ms' ed] p]. simpl in *. constructor; [|done].
    split_and!; [done|done|]. unfold edited. by rewrite E.
Qed.
Lemma isCopyOf_eq uid sender x y : UID x = UID y → From x = From y → isCopyOf uid sender x = isCopyOf uid sender y.
Proof. unfold isCopyOf. by intros -> ->. Qed.
Lemma edited_uniform q date uid sender : uniform (edited q date uid sender).
Proof.
  split.
  - intros x. unfold edited. destruct (isCopyOf _ _ _); [|done]. destruct (editCopy_key q date 0 x) as (_ & _ & ? & ?). split_and!; [done|done|].
    unfold editCopy, marker. destruct (WebPageResolve q), (e_Media q), (SetReplyMarkup q), (SetRichMessage q); done.
  - intros x y Hu HA. pose proof HA as (HF & _). unfold edited. rewrite (isCopyOf_eq _ _ _ _ Hu (eq_sym HF)). destruct (isCopyOf uid sender y); [|done].
    destruct HA as (_ & HR & HB & HE & HM & [= ? ? ? ? ? ? ? ? ? ?]). unfold editCopy.
    destruct (WebPageResolve q), (e_Media q), (SetReplyMarkup q), (SetRichMessage q); split_and!; try done; unfold extras; simpl; congruence.
Qed.
Lemma EditMessage_inplace now q s :
  (EditMessage now q s).1 = s ∨ ∃ date uid sender, inplace (edited q date uid sender) s (EditMessage now q s).1.
Proof.
  unfold EditMessage. destruct (_ || _ || _ || _); [by left|]. set (date := if bool_decide _ then now else _).
  destruct (List.find _ _) as [target|]; [|by left]. destruct (editAllowed q target); [by left|]. right. exists date, (UID target), (peerID (From target)).
  split.
  - simpl. by destruct (dialogs s).
  - simpl. by destruct (dialogs s).
  - simpl. by destruct (dialogs s).
  - intros u. set (run := λ u ms, editBox q date (UID target) (peerID (From target)) (nextPtsOf s u) ms).
    assert (Hb : ∀ s1, m s1 = map_imap (λ u ms, Some (run u ms).1.1) (m s) → Forall2 (kept (edited q date (UID target) (peerID (From target)))) (boxOf s u) (boxOf s1 u)).
    { intros s1 E. unfold boxOf at 2. rewrite (boxOf_imap s (λ u ms, (run u ms).1.1) (m s1)); [|done|done]. apply editBox_kept. }
    apply Hb. simpl. by destruct (dialogs s).
Qed.

Lemma expire_uniform uid :
  uniform (λ x : message, if bool_decide (UID x ≠ uid) || negb (isNoForwardsRequest x) then x else expireAction x).
Proof.
  assert (Hx : ∀ x, From (expireAction x) = From x ∧ RandomID (expireAction x) = RandomID x ∧ Body (expireAction x) = Body x ∧
    Entities (expireAction x) = Entities x ∧ extras (expireAction x) = extras x ∧ (marker x → marker (expireAction x))).
  { intros x. unfold expireAction. destruct (Media x) as [a|]; [|done]. destruct (ServiceAction a) as [b|]; [|done]. by destruct (act_NoForwards b). }
  assert (Hm : ∀ x y, Media x = Media y → Media (expireAction x) = Media (expireAction y)).
  { intros x y E. unfold expireAction. rewrite <-E. destruct (Media x) as [a|] eqn:Ex; [|congruence].
    destruct (ServiceAction a) as [b|]; [|congruence]. destruct (act_NoForwards b); [done|congruence]. }
  split.
  - intros x. destruct (_ || _); [done|]. by destruct (Hx x) as (? & ? & _ & _ & _ & ?).
  - intros x y Hu HA. pose proof HA as (HF & HR & HB & HE & HM & HX).
    assert (isNoForwardsRequest y = isNoForwardsRequest x) as -> by (unfold isNoForwardsRequest; by rewrite HM). rewrite <-Hu. destruct (_ || _); [done|].
    destruct (Hx x) as (X1 & X2 & X3 & X4 & X5 & _), (Hx y) as (Y1 & Y2 & Y3 & Y4 & Y5 & _). split_and!; [congruence..|by apply Hm|congruence].
Qed.
Lemma markNoForwardsRequestExpired_inplace uid s :
  inplace (λ x : message, if bool_decide (UID x ≠ uid) || negb (isNoForwardsRequest x) then x else expireAction x) s (markNoForwardsRequestExpired uid s).
Proof.
  split; [done|done|done|]. intros u. unfold boxOf, markNoForwardsRequestExpired. simpl. rewrite lookup_fmap. destruct (m s !! u) as [ms|]; [|done]. simpl.
  induction ms as [|x ms IH]; simpl; [done|]. constructor; [|done]. cut (key (expireAction x) = key x ∧ Out (expireAction x) = Out x); [intros []; unfold kept; destruct (_ || _); repeat split; done|].
  unfold expireAction. destruct (Media x) as [a|]; [|done]. destruct (ServiceAction a) as [b|]; [|done]. by destruct (act_NoForwards b).
Qed.

(** ** Pins *)

Lemma set_Pinned_kept (b : bool) x : kept (λ x, x) x (set_Pinned b x).
Proof. done. Qed.
Definition pinned_only (boxes boxes' : gmap Z (list message)) : Prop := ∀ u, Forall2 (kept (λ x, x)) (default [] (boxes !! u)) (default [] (boxes' !! u)).
Lemma pinned_only_refl boxes : pinned_only boxes boxes.
Proof. intros u. apply Forall_Forall2_diag, Forall_true, kept_id_refl. Qed.
Lemma setPinned_only b boxes side : pinned_only boxes (setPinned b boxes side).
Proof.
  intros u. unfold setPinned. destruct (boxes !! ps_userID side) as [ms|] eqn:E; [|apply pinned_only_refl].
  destruct (decide (u = ps_userID side)) as [->|Hne]; [|rewrite lookup_insert_ne by done; apply pinned_only_refl].
  rewrite lookup_insert_eq, E. simpl. apply Forall2_same_length_lookup. rewrite length_alter. split; [done|]. intros i x x' Hx Hx'.
  destruct (decide (i = ps_idx side)) as [->|Hi].
  - rewrite list_lookup_alter_eq, Hx in Hx'. injection Hx' as <-. apply set_Pinned_kept.
  - rewrite list_lookup_alter_ne, Hx in Hx' by done. injection Hx' as <-. apply kept_id_refl.
Qed.
Lemma pinned_only_trans b1 b2 b3 : pinned_only b1 b2 → pinned_only b2 b3 → pinned_only b1 b3.
Proof.
  intros H1 H2 u. specialize (H1 u). specialize (H2 u). revert H2. generalize (default [] (b3 !! u)).
  induction H1; intros l3 H3; inversion_clear H3; constructor; eauto using kept_id_trans.
Qed.
Lemma setPinned_all b sides boxes : pinned_only boxes (foldl (setPinned b) boxes sides).
Proof.
  revert boxes. induction sides as [|side sides IH]; intros boxes; simpl; [apply pinned_only_refl|]. eapply pinned_only_trans; [apply setPinned_only|apply IH].
Qed.

Lemma unpinBox_kept sel ms : Forall2 (kept (λ x, x)) ms (unpinBox sel ms).1.
Proof.
  induction ms as [|x ms IH]; simpl; [done|]. destruct (unpinBox sel ms) as [ms' gone]. destruct (sel x); by constructor.
Qed.
Lemma appendPinEvents_spec q es events s :
  let '(s', events', es') := appendPinEvents q es events s in
  m s' = m s ∧ nextUID s' = nextUID s ∧ nextBox s' = nextBox s ∧ privateSendDedup s' = privateSendDedup s ∧ dialogs s' = dialogs s.
Proof.
  revert events s. induction es as [|e es IH]; intros events s; simpl; [done|].
  set (events1 := appendMemorySendEventLocked _ _ _ _ _). set (s1 := put_nextPts _ s). specialize (IH events1 s1).
  destruct (appendPinEvents q es events1 s1) as [[s' events'] es']. done.
Qed.
Lemma UnpinAll_spec now q s :
  let s' := (UnpinAllPrivateMessages now q s).1 in
  nextUID s' = nextUID s ∧ nextBox s' = nextBox s ∧ privateSendDedup s' = privateSendDedup s ∧ dialogs s' = dialogs s ∧ pinned_only (m s) (m s').
Proof.
  unfold UnpinAllPrivateMessages. destruct (_ || _ || _); [by split_and!; [..|apply pinned_only_refl]|].
  destruct (updateEvents s) as [events|]; [|by split_and!; [..|apply pinned_only_refl]].
  set (batch := take _ _). destruct (bool_decide (length batch = 0%nat)); [by split_and!; [..|apply pinned_only_refl]|].
  set (sel := λ x, _ && _ && _). set (box1 := (unpinBox sel _).1).
  assert (P1 : pinned_only (m s) (<[ua_OwnerUserID q := box1]> (m s))).
  { intros u. destruct (decide (u = ua_OwnerUserID q)) as [->|]; [rewrite lookup_insert_eq; apply unpinBox_kept|rewrite lookup_insert_ne by done; apply pinned_only_refl]. }
  unfold appendSide, nextPtsWithEventsLocked. cbn zeta beta iota. destruct (negb _); [|by split_and!].
  set (s1 := put_nextPts _ _). pose proof (unpinBox_kept (λ x, bool_decide (UID x ∈ map UID batch) && Pinned x) (boxOf s1 (peerID (ua_Peer q)))) as P2.
  destruct (unpinBox (λ x, bool_decide (UID x ∈ map UID batch) && Pinned x) (boxOf s1 (peerID (ua_Peer q)))) as [ms gone]. destruct (bool_decide (length gone = 0%nat)); [by split_and!|]. split_and!; [done..|].
  eapply pinned_only_trans; [exact P1|]. intros u. simpl.
  destruct (decide (u = peerID (ua_Peer q))) as [->|]; [rewrite (lookup_insert_eq _ (peerID (ua_Peer q))); exact P2|rewrite (lookup_insert_ne _ (peerID (ua_Peer q))) by done; apply pinned_only_refl].
Qed.

(** ** Sending *)

Context (C : @Codec X).

(** The copies of a fresh send and the pts it allocates. *)
Inductive copies q s (events : @MemoryEvents.t message) (allocated : gmap Z Z) sender (rr : option (MessageReply X)) : gmap Z Z → message → Prop :=
| copies_self : SenderUserID q = RecipientUserID q → copies q s events allocated sender rr allocated sender
| copies_blocked : SenderUserID q ≠ RecipientUserID q → RecipientBlocked q = true → copies q s events allocated sender rr allocated noMessage
| copies_both pts allocated' : SenderUserID q ≠ RecipientUserID q → RecipientBlocked q = false →
    stagePts s events (RecipientUserID q) allocated = (allocated', pts) →
    copies q s events allocated sender rr allocated' (recipientCopy q s sender rr pts).
Record fresh_send now q fp prefix s s' (sender recipient : message) : Prop := {
  fs_absent : privateSendDedup s !! (SenderUserID q, q_RandomID q) = None;
  fs_commit : ∃ events allocated0 allocated staged sr rr pts snapshot,
    updateEvents s = Some events ∧
    resolveMemoryReplyLocked C q s = inr (sr, rr) ∧
    stagePts s events (SenderUserID q) (match prefix with Some p => stagePrefix s events (prefixEvents p) ∅ | None => (∅, []) end).1 = (allocated0, pts) ∧
    staged = (match prefix with Some p => stagePrefix s events (prefixEvents p) ∅ | None => (∅, []) end).2 ∧
    sender = senderCopy q s (if bool_decide (q_Date q = 0) then now else q_Date q) sr pts ∧
    copies q s events allocated0 sender rr allocated recipient ∧
    (if bool_decide (q_RandomID q ≠ 0) then ∃ raw, snapshot = Some raw ∧ EncodePrivateSendSnapshot C sender = inr raw else snapshot = None) ∧
    s' = commitPrivateSend q fp (match prefix with Some p => prefixApply p | None => λ b, b end) staged allocated sender recipient snapshot events s;
}.
Lemma lookup_absent q s : lookupPrivateSendReplayLocked C q s = inr None → privateSendDedup s !! (rp_SenderUserID q, rp_RandomID q) = None.
Proof.
  unfold lookupPrivateSendReplayLocked. destruct (privateSendDedup s !! _) as [r|]; [|done]. destruct (_ || _); [done|].
  destruct (DecodePrivateSendSnapshot C _); [done|]. destruct (List.find _ _), (senderDeleteEvent r); done.
Qed.
Lemma send_cases now q fp prefix s :
  let '(s', r) := sendPrivateTextLocked C now q fp prefix s in
  (s' = s ∧ ((∃ e, r = inl e) ∨ ∃ res, r = inr res ∧ Duplicate res = true ∧
     lookupPrivateSendReplayLocked C (mkReplay (SenderUserID q) (RecipientUserID q) (q_RandomID q) fp) s = inr (Some res))) ∨
  ∃ sender recipient, fresh_send now q fp prefix s s' sender recipient ∧ r = inr (mkSent sender recipient (newMessageEvent sender) (newMessageEvent recipient) false None).
Proof.
  unfold sendPrivateTextLocked. destruct (lookupPrivateSendReplayLocked C _ s) as [e|[res|]] eqn:El; [by left; eauto| |].
  { left. split; [done|]. right. exists res. split_and!; [done| |done]. revert El. unfold lookupPrivateSendReplayLocked.
    destruct (privateSendDedup s !! _) as [r|]; [|done]. destruct (_ || _); [done|]. destruct (DecodePrivateSendSnapshot C _); [done|].
    destruct (List.find _ _), (senderDeleteEvent r); try done; by intros [= <-]. }
  apply lookup_absent in El. simpl in El. set (date := if bool_decide _ then now else _).
  destruct (resolveMemoryReplyLocked C q s) as [e|[sr rr]] eqn:Er; [by left; eauto|]. destruct (updateEvents s) as [events|] eqn:Ee; [|by left; eauto].
  destruct (match prefix with Some p => _ | None => _ end) as [alloc0 staged] eqn:Ep.
  destruct (stagePts s events (SenderUserID q) alloc0) as [alloc1 pts] eqn:Es. set (sender := senderCopy q s date sr pts).
  assert (∃ alloc2 recipient, (if bool_decide (SenderUserID q = RecipientUserID q) then (alloc1, sender)
          else if RecipientBlocked q then (alloc1, noMessage)
          else let '(allocated, pts) := stagePts s events (RecipientUserID q) alloc1 in (allocated, recipientCopy q s sender rr pts)) = (alloc2, recipient) ∧
          copies q s events alloc1 sender rr alloc2 recipient) as (alloc2 & recipient & -> & Hc).
  { case_bool_decide as E1; [by eexists _, _; split; [done|apply copies_self]|]. destruct (RecipientBlocked q) eqn:E2; [by eexists _, _; split; [done|apply copies_blocked]|].
    destruct (stagePts s events (RecipientUserID q) alloc1) as [alloc2 rpts] eqn:E3. eexists _, _. split; [done|]. by eapply copies_both. }
  destruct (bool_decide (q_RandomID q ≠ 0)) eqn:Hr.
  - destruct (EncodePrivateSendSnapshot C sender) as [e|raw] eqn:Hs; [by left; eauto|]. right. exists sender, recipient. split; [|done]. split; [done|].
    exists events, alloc1, alloc2, staged, sr, rr, pts, (Some raw). rewrite Ep, Hr. split_and!; try done. by exists raw.
  - right. exists sender, recipient. split; [|done]. split; [done|].
    exists events, alloc1, alloc2, staged, sr, rr, pts, None. rewrite Ep, Hr. by split_and!.
Qed.

(** Fresh rows, at most one per account. *)
Lemma WF_append s s' (new : Z → list message) :
  WF s → nextUID s' = nextUID s + 1 → (∀ u, boxOf s' u = boxOf s u ++ new u) → (∀ u, nextBoxOf s' u = nextBoxOf s u + len (new u)) →
  (∀ u, new u = [] ∨ ∃ x, new u = [x] ∧ OwnerUserID x = u ∧ ID x = nextBoxOf s u + 1 ∧ UID x = nextUID s) →
  (∀ u v x y, x ∈ new u → y ∈ new v → u ≠ v → MPeer x = user v ∧ MPeer y = user u ∧ Date x = Date y ∧ Agree x y) → WF s'.
Proof.
  intros [H1 H2 H3 H4] Hu Hb Hn Hnew Hl.
  assert (Hrow : ∀ u x, x ∈ new u → UID x = nextUID s).
  { intros u x Hx. destruct (Hnew u) as [E|(y & E & _ & _ & ?)]; rewrite E in Hx; [by apply not_elem_of_nil in Hx|]. by apply list_elem_of_singleton in Hx as ->. }
  assert (Hold : ∀ u x, x ∈ boxOf s u → UID x < nextUID s) by (intros u x Hx; destruct (box_rows _ _ _ _ (H3 u) x Hx); lia).
  split.
  - lia.
  - intros u. rewrite Hn. pose proof (H2 u). pose proof (len_nonneg (new u)). lia.
  - intros u. rewrite Hb, Hn, Hu. destruct (Hnew u) as [->|(x & -> & ? & ? & ?)].
    + rewrite app_nil_r. apply (box_shrinks u (nextBoxOf s u) (nextUID s) _ _ (λ x y, key y = key x) (boxOf s u)); [done|unfold len; simpl; lia|lia|done|by apply shrinks_refl].
    + apply box_snoc; [apply H3|done|apply H2|done|done|done].
  - intros u v x y. rewrite !Hb. intros [Hx|Hx]%elem_of_app [Hy|Hy]%elem_of_app Hne E.
    + by apply H4.
    + specialize (Hold u x Hx). specialize (Hrow v y Hy). lia.
    + specialize (Hold v y Hy). specialize (Hrow u x Hx). lia.
    + by apply Hl.
Qed.
Lemma pinned_inplace s s' :
  nextUID s' = nextUID s → nextBox s' = nextBox s → privateSendDedup s' = privateSendDedup s → pinned_only (m s) (m s') → inplace (λ x, x) s s'.
Proof. intros E1 E2 E3 HP. by split. Qed.

(** The rows a fresh send adds. *)
Definition sentRows (q : @SendPrivateTextRequest X) (sender recipient : message) u : list message :=
  if decide (u = SenderUserID q) then [sender] else if decide (u = RecipientUserID q ∧ ID recipient ≠ 0) then [recipient] else [].
Lemma commit_boxes (q : @SendPrivateTextRequest X) fp apply staged allocated sender recipient snapshot events s :
  (SenderUserID q = RecipientUserID q ∧ recipient = sender ∨ SenderUserID q ≠ RecipientUserID q ∧ RecipientBlocked q = true ∧ recipient = noMessage ∨
   SenderUserID q ≠ RecipientUserID q ∧ RecipientBlocked q = false ∧ ID recipient ≠ 0 ∧ OwnerUserID recipient = RecipientUserID q) →
  OwnerUserID sender = SenderUserID q → ID sender ≠ 0 →
  let s' := commitPrivateSend q fp apply staged allocated sender recipient snapshot events s in
  nextUID s' = nextUID s + 1 ∧
  (∀ u, boxOf s' u = default [] (apply (m s) !! u) ++ sentRows q sender recipient u) ∧
  (∀ u, nextBoxOf s' u = match sentRows q sender recipient u with [] => nextBoxOf s u | x :: _ => ID x end).
Proof.
  intros Hcase HO HI. unfold commitPrivateSend. cbv zeta.
  split_and!.
  - destruct (bool_decide (ID recipient ≠ 0)), (bool_decide (SenderUserID q ≠ RecipientUserID q) && negb (RecipientBlocked q)), snapshot; simpl; destruct (dialogs s); done.
  - intros u. unfold boxOf at 1. transitivity (default [] ((if bool_decide (SenderUserID q ≠ RecipientUserID q) && negb (RecipientBlocked q)
      then <[RecipientUserID q := default [] ((<[SenderUserID q := default [] (apply (m s) !! SenderUserID q) ++ [sender]]> (apply (m s))) !! RecipientUserID q) ++ [recipient]]>
             (<[SenderUserID q := default [] (apply (m s) !! SenderUserID q) ++ [sender]]> (apply (m s)))
      else <[SenderUserID q := default [] (apply (m s) !! SenderUserID q) ++ [sender]]> (apply (m s))) !! u)).
    { f_equal. destruct (bool_decide (ID recipient ≠ 0)), (bool_decide (SenderUserID q ≠ RecipientUserID q) && negb (RecipientBlocked q)), snapshot; simpl; destruct (dialogs s); done. }
    unfold sentRows. destruct Hcase as [[E ->]|[(E & Hb & ->)|(E & Hb & Hr & _)]].
    + rewrite bool_decide_eq_false_2 by tauto. simpl. case_decide as Hu; [subst; by rewrite lookup_insert_eq|].
      rewrite decide_False by (intros [? _]; congruence). by rewrite lookup_insert_ne, app_nil_r.
    + rewrite Hb, andb_false_r. case_decide as Hu; [subst; by rewrite lookup_insert_eq|].
      rewrite decide_False by (intros [_ ?]; done). by rewrite lookup_insert_ne, app_nil_r.
    + rewrite Hb, bool_decide_eq_true_2 by done. simpl. rewrite (lookup_insert_ne _ (SenderUserID q) (RecipientUserID q)) by done. case_decide as Hu.
      * subst. by rewrite lookup_insert_ne, lookup_insert_eq.
      * case_decide as Hv; [destruct Hv as [-> _]; by rewrite lookup_insert_eq|].
        rewrite !lookup_insert_ne by naive_solver. by rewrite app_nil_r.
  - intros u. unfold nextBoxOf at 1. transitivity (default 0 ((if bool_decide (ID recipient ≠ 0)
      then <[OwnerUserID recipient := ID recipient]> (<[SenderUserID q := ID sender]> (nextBox s)) else <[SenderUserID q := ID sender]> (nextBox s)) !! u)).
    { f_equal. destruct (bool_decide (ID recipient ≠ 0)), (bool_decide (SenderUserID q ≠ RecipientUserID q) && negb (RecipientBlocked q)), snapshot; simpl; destruct (dialogs s); done. }
    unfold sentRows. destruct Hcase as [[E ->]|[(E & Hb & ->)|(E & Hb & Hr & Ho)]].
    + rewrite bool_decide_eq_true_2 by done. rewrite HO. case_decide as Hu; [subst; by rewrite lookup_insert_eq|].
      rewrite decide_False by (intros [? _]; congruence). by rewrite !lookup_insert_ne.
    + rewrite bool_decide_eq_false_2 by (intros []; done). case_decide as Hu; [subst; by rewrite lookup_insert_eq|].
      rewrite decide_False by (intros [_ ?]; done). by rewrite lookup_insert_ne.
    + rewrite bool_decide_eq_true_2 by done. rewrite Ho. case_decide as Hu; [subst; by rewrite lookup_insert_ne, lookup_insert_eq|].
      case_decide as Hv; [destruct Hv as [-> _]; by rewrite lookup_insert_eq|]. rewrite !lookup_insert_ne by naive_solver. done.
Qed.
End steps.
End MailSteps.
