(* ===== verification/MailWorld.v ===== *)
(** * Private messages: runs

    The operations of the store as steps, in any order and with any arguments;
    steps of other components that touch what the store shares (account events
    of other services, the dialog list) are arbitrary.  The parts of the
    content-protection switch are steps of their own, so a run covers every
    interleaving of it with other requests. *)

From stdpp Require Import sorting.
From S2P Require Import Prelude UpdateTypes UpdateStore MailTypes MailStore MailOps MailInv MailBoxes MailSteps.
Import Mail MailStore MailOps MailInv MailBoxes MailSteps.

Module MailWorld.
Section world.
Context {X : Type} `{EqX : EqDecision X} `{InhX : Inhabited X} (C : @Codec X).
Abbreviation message := (Message X).
Abbreviation event := (UpdateEvent message).
Abbreviation store := (@MessageStore X).
Implicit Types (x y : message) (s : store) (u v : Z).

Inductive op :=
| OpCreate (premiumBot : Z) (x : message)
| OpSend (now : Z) (q : @SendPrivateTextRequest X)
| OpEdit (now : Z) (q : @EditMessageRequest X)
| OpDelete (now : Z) (q : DeleteMessagesRequest)
| OpDeleteHistory (now : Z) (q : DeleteHistoryRequest)
| OpDeleteSaved (now : Z) (q : DeleteSavedHistoryRequest)
| OpRead (now : Z) (q : ReadHistoryRequest)
| OpPin (now rid : Z) (q : PinPrivateMessageRequest)
| OpUnpinAll (now : Z) (q : UnpinAllPrivateMessagesRequest)
| OpAlbum (r : AlbumGroupReservationRequest)
(** The last sections of [TogglePrivateNoForwards]. *)
| OpNoForwards (states : gmap (Z * Z) PrivateNoForwardsState) (requests : gmap Z memoryNoForwardsRequest)
| OpExpireRequest (uid : Z)
(** Other components. *)
| OpEvents (events : @MemoryEvents.t message)
| OpDialogs (ds : gmap Z (DialogList X)).

Definition ran {R} (s : store) (r : Run (store * R)) : store := match r with Done (s', _) => s' | Panicked => s end.
Definition exec (o : op) (s : store) : store :=
  match o with
  | OpCreate premiumBot x => (Create premiumBot x s).1
  | OpSend now q => (SendPrivateText C now q s).1
  | OpEdit now q => (EditMessage now q s).1
  | OpDelete now q => ran s (DeleteMessages now q s)
  | OpDeleteHistory now q => ran s (DeleteHistory now q s)
  | OpDeleteSaved now q => ran s (DeleteSavedHistory now q s)
  | OpRead now q => (ReadHistory now q s).1
  | OpPin now rid q => (PinPrivateMessage C now rid q s).1
  | OpUnpinAll now q => (UnpinAllPrivateMessages now q s).1
  | OpAlbum r => (ReserveAlbumGroup r s).1
  | OpNoForwards states requests => put_privateNoForwardsRequests requests (put_privateNoForwards states s)
  | OpExpireRequest uid => markNoForwardsRequestExpired uid s
  | OpEvents events => put_updateEvents (Some events) s
  | OpDialogs ds => put_dialogs (Some ds) s
  end.
Definition runs (os : list op) (s : store) : store := foldl (λ s o, exec o s) s os.
Lemma mail_runs_app os os' s : runs (os ++ os') s = runs os' (runs os s).
Proof. apply foldl_app. Qed.

(** ** The invariant *)

Definition prefixOK s (prefix : option sendPrefix) : Prop :=
  match prefix with Some p => pinned_only (m s) (prefixApply p (m s)) | None => True end.
Lemma senderCopy_facts q s date sr pts :
  let x := senderCopy q s date sr pts in OwnerUserID x = SenderUserID q ∧ ID x = nextBoxOf s (SenderUserID q) + 1 ∧ UID x = nextUID s.
Proof. done. Qed.

Lemma fresh_copies now q fp prefix s s' sender recipient :
  WF s → fresh_send C now q fp prefix s s' sender recipient →
  OwnerUserID sender = SenderUserID q ∧ ID sender = nextBoxOf s (SenderUserID q) + 1 ∧ UID sender = nextUID s ∧ MPeer sender = user (RecipientUserID q) ∧
  (SenderUserID q = RecipientUserID q ∧ recipient = sender ∨
   SenderUserID q ≠ RecipientUserID q ∧ RecipientBlocked q = true ∧ recipient = noMessage ∨
   SenderUserID q ≠ RecipientUserID q ∧ RecipientBlocked q = false ∧ ID recipient = nextBoxOf s (RecipientUserID q) + 1 ∧
     OwnerUserID recipient = RecipientUserID q ∧ UID recipient = nextUID s ∧ MPeer recipient = user (SenderUserID q) ∧
     Date recipient = Date sender ∧ same_content sender recipient ∧ Out recipient = false).
Proof.
  intros HW [_ (events & al0 & al & staged & sr & rr & pts & snap & _ & _ & _ & _ & -> & Hc & _)].
  split_and!; [done..|]. inversion Hc; subst.
  - by left.
  - by right; left.
  - right; right. by split_and!.
Qed.
Lemma sent_case now q fp prefix s s' sender recipient :
  WF s → fresh_send C now q fp prefix s s' sender recipient →
  SenderUserID q = RecipientUserID q ∧ recipient = sender ∨ SenderUserID q ≠ RecipientUserID q ∧ RecipientBlocked q = true ∧ recipient = noMessage ∨
  SenderUserID q ≠ RecipientUserID q ∧ RecipientBlocked q = false ∧ ID recipient ≠ 0 ∧ OwnerUserID recipient = RecipientUserID q.
Proof.
  intros HW HF. destruct (fresh_copies _ _ _ _ _ _ _ _ HW HF) as (_ & _ & _ & _ & [?|[?|(? & ? & E & ? & _)]]); [by left|by right; left|right; right].
  pose proof (wf_next _ HW (RecipientUserID q)). split_and!; [done|done|lia|done].
Qed.
Lemma fresh_boxes now q fp prefix s s' sender recipient :
  WF s → fresh_send C now q fp prefix s s' sender recipient →
  nextUID s' = nextUID s + 1 ∧
  (∀ u, boxOf s' u = default [] (match prefix with Some p => prefixApply p (m s) | None => m s end !! u) ++ sentRows q sender recipient u) ∧
  (∀ u, nextBoxOf s' u = match sentRows q sender recipient u with [] => nextBoxOf s u | x :: _ => ID x end).
Proof.
  intros HW HF. pose proof (sent_case _ _ _ _ _ _ _ _ HW HF) as Hcase. destruct (fresh_copies _ _ _ _ _ _ _ _ HW HF) as (HO & HI & _).
  destruct HF as [_ (events & al0 & al & staged & sr & rr & pts & snap & _ & _ & _ & _ & Hs & _ & _ & Hcommit)].
  pose proof (wf_next _ HW (SenderUserID q)).
  destruct (commit_boxes q fp (match prefix with Some p => prefixApply p | None => λ b, b end) staged al sender recipient snap events s Hcase HO) as (H1 & H2 & H3); [lia|].
  rewrite <-Hcommit in *. split_and!; [done| |done]. intros u. rewrite H2. by destruct prefix.
Qed.

Lemma fresh_WF now q fp prefix s s' sender recipient :
  WF s → prefixOK s prefix → fresh_send C now q fp prefix s s' sender recipient → WF s'.
Proof.
  intros HW Hp HF. destruct (fresh_boxes _ _ _ _ _ _ _ _ HW HF) as (B1 & B2 & B3). destruct (fresh_copies _ _ _ _ _ _ _ _ HW HF) as (HO & HI & HU & HP & Hc).
  set (s1 := put_m (match prefix with Some p => prefixApply p (m s) | None => m s end) s).
  assert (WF s1) as HW1.
  { eapply WF_shrunk; [apply uniform_id|exact HW|]. apply inplace_shrunk, pinned_inplace; [done|done|done|]. destruct prefix; [exact Hp|apply pinned_only_refl]. }
  pose proof (wf_next _ HW (SenderUserID q)) as Hn1. pose proof (wf_next _ HW (RecipientUserID q)) as Hn2.
  apply (WF_append s1 s' (sentRows q sender recipient)); [done|done|done| | |].
  - intros u. rewrite B3. change (nextBoxOf s1 u) with (nextBoxOf s u). unfold sentRows. case_decide as E1; [subst; unfold len; simpl; lia|].
    case_decide as E2; [|unfold len; simpl; lia]. destruct E2 as [-> Hr]. destruct Hc as [[? ->]|[(_ & _ & ->)|(_ & _ & E & _)]]; [congruence|done|unfold len; simpl; lia].
  - intros u. change (nextBoxOf s1 u) with (nextBoxOf s u). change (nextUID s1) with (nextUID s). unfold sentRows.
    case_decide as E1; [right; subst; by exists sender|]. case_decide as E2; [|by left]. destruct E2 as [-> Hr].
    destruct Hc as [[? ->]|[(_ & _ & ->)|(_ & _ & ? & ? & ? & _)]]; [congruence|done|right; by exists recipient].
  - assert (Hboth : SenderUserID q ≠ RecipientUserID q → ID recipient ≠ 0 → MPeer recipient = user (SenderUserID q) ∧ Date recipient = Date sender ∧ Agree sender recipient).
    { intros Hne Hr. destruct Hc as [[? _]|[(_ & _ & ->)|(_ & _ & _ & _ & _ & ? & ? & HS & _)]]; [done|done|]. split_and!; [done|done|].
      by left. }
    intros u v x y. unfold sentRows. destruct (decide (u = SenderUserID q)) as [->|Eu], (decide (v = SenderUserID q)) as [->|Ev]; [done|..].
    + intros ->%list_elem_of_singleton. case_decide as E2; [|by intros ?%not_elem_of_nil]. destruct E2 as [-> Hr]. intros ->%list_elem_of_singleton Hne.
      destruct (Hboth Hne Hr) as (? & ? & ?). by split_and!.
    + case_decide as E2; [|by intros ?%not_elem_of_nil]. destruct E2 as [-> Hr]. intros ->%list_elem_of_singleton ->%list_elem_of_singleton Hne.
      destruct (Hboth (not_eq_sym Hne) Hr) as (? & ? & ?). split_and!; [done|done|done|by apply Agree_sym].
    + case_decide as E2; [|by intros ?%not_elem_of_nil]. case_decide as E3; [|by intros _ ?%not_elem_of_nil]. destruct E2 as [-> _], E3 as [-> _]. by intros _ _ [].
Qed.
Lemma send_WF now q fp prefix s : WF s → prefixOK s prefix → WF (sendPrivateTextLocked C now q fp prefix s).1.
Proof.
  intros HW Hp. pose proof (send_cases C now q fp prefix s) as H. destruct (sendPrivateTextLocked C now q fp prefix s) as [s' r]. simpl.
  destruct H as [[-> _]|(sender & recipient & HF & _)]; [done|by eapply fresh_WF].
Qed.
Lemma Create_WF premiumBot x s : WF s → WF (Create premiumBot x s).1.
Proof.
  intros HW. set (x' := set_UID (nextUID s) (set_ID (nextBoxOf s (OwnerUserID x) + 1) x)).
  apply (WF_append s _ (λ u, if decide (u = OwnerUserID x) then [x'] else [])); [done|simpl; by destruct (dialogs s)|..].
  - intros u. transitivity (boxOf (putBox (OwnerUserID x) (boxOf s (OwnerUserID x) ++ [x']) s) u); [unfold boxOf; simpl; by destruct (dialogs s)|].
    rewrite boxOf_putBox. case_decide as E; [by rewrite E|by rewrite app_nil_r].
  - intros u. transitivity (default 0 (<[OwnerUserID x := nextBoxOf s (OwnerUserID x) + 1]> (nextBox s) !! u)); [unfold nextBoxOf; simpl; by destruct (dialogs s)|].
    case_decide as E; [rewrite E, lookup_insert_eq; done|rewrite lookup_insert_ne by done; unfold len; simpl; unfold nextBoxOf; lia].
  - intros u. case_decide as E; [right; subst u; by exists x'|by left].
  - intros u v y z. case_decide as E1; [|by intros ?%not_elem_of_nil]. case_decide as E2; [|by intros _ ?%not_elem_of_nil]. congruence.
Qed.
Lemma PinPrivateMessage_cases now rid q s :
  let s' := (PinPrivateMessage C now rid q s).1 in
  (s' = s ∨ (nextUID s' = nextUID s ∧ nextBox s' = nextBox s ∧ privateSendDedup s' = privateSendDedup s ∧ dialogs s' = dialogs s ∧ pinned_only (m s) (m s'))) ∨
  ∃ date fp p, prefixOK s (Some p) ∧ s' = (sendPrivateTextLocked C now (PrivatePinServiceRequest q date rid) fp (Some p) s).1.
Proof.
  unfold PinPrivateMessage. destruct (_ || _ || _); [by left; left|]. destruct (_ || _); [by left; left|]. set (date := if bool_decide _ then now else _).
  destruct (list_find _ _) as [[i owned]|]; [|by left; left]. destruct (match Media owned with Some _ => _ | None => _ end); [by left; left|].
  set (changes := filter _ _). destruct (bool_decide (length changes = 0%nat)); [by left; left|]. set (es := map _ changes).
  destruct (pin_Pinned q && _ && _).
  - destruct (PrivateSendFingerprint C _) as [e|fp]; [by left; left|]. right. set (p := mkPrefix es _). exists date, fp, p. split; [apply setPinned_all|].
    destruct (sendPrivateTextLocked C now _ fp (Some p) s) as [s' [e|sent]]; done.
  - destruct (updateEvents s) as [events|]; [|by left; left]. left; right. pose proof (appendPinEvents_spec q es events s) as H.
    destruct (appendPinEvents q es events s) as [[s1 events1] es1]. destruct H as (H1 & H2 & H3 & H4 & H5). simpl. split_and!; [done..|].
    rewrite H1. apply setPinned_all.
Qed.
Definition same_mail s s' : Prop :=
  nextUID s' = nextUID s ∧ nextBox s' = nextBox s ∧ m s' = m s ∧ privateSendDedup s' = privateSendDedup s ∧ updateEvents s' = updateEvents s.
Lemma readOutbox_frame owner date latest ds res s : same_mail s (readOutbox owner date latest ds res s).1.
Proof.
  unfold readOutbox. destruct (_ || _ || _); [done|]. set (box := @findOr X _ _). destruct (bool_decide (ID box ≤ 0)); [done|].
  destruct (findDialog _ _) as [[j d]|]; [|done]. by destruct (bool_decide (ID box ≤ ReadOutboxMaxID d)).
Qed.
Lemma ReadHistory_frame now q s : same_mail s (ReadHistory now q s).1.
Proof.
  unfold ReadHistory. destruct (_ || _); [done|]. destruct (dialogs s) as [ds|]; [|done]. destruct (findDialog _ _) as [[i d]|]; [|done].
  set (readMax := if bool_decide (_ > TopMessage d) then _ else _). destruct (bool_decide (readMax ≤ _)).
  { by destruct (bool_decide (UnreadCount d > 0)). }
  cbn [nextPtsLocked]. set (s1 := put_dialogs _ _). set (res := mkReadResult _ _ _ _ _ _ _). set (ds1 := <[_ := _]> ds). set (latest := latestIncoming _ _ _ _).
  by destruct (readOutbox_frame (rh_OwnerUserID q) (if bool_decide (rh_Date q = 0) then now else rh_Date q) latest ds1 res s1) as (? & ? & ? & ? & ?).
Qed.
Lemma deletes_WF s s' : WF s → (s' = s ∨ ∃ rows anchors, deletes s s' rows anchors) → WF s'.
Proof. intros HW [->|(rows & anchors & Hd)]; [done|]. eapply WF_shrunk; [apply uniform_id|done|by eapply deletes_shrunk]. Qed.
(** Every step but these keeps all rows. *)
Definition growing (o : op) : bool := match o with OpCreate _ _ | OpSend _ _ | OpPin _ _ _ => true | _ => false end.
Definition deleting (o : op) : bool := match o with OpDelete _ _ | OpDeleteHistory _ _ | OpDeleteSaved _ _ => true | _ => false end.
Lemma exec_inplace o s : growing o = false → deleting o = false → ∃ g, uniform g ∧ inplace g s (exec o s).
Proof.
  assert (Hid : ∀ s', inplace (λ x, x) s s' → ∃ g, uniform g ∧ inplace g s s') by (intros s' ?; exists (λ x, x); split; [apply uniform_id|done]).
  intros H1 H2. destruct o; try done; simpl.
  - destruct (EditMessage_inplace now q s) as [->|(date & uid & sender & Hs)]; [by apply Hid, inplace_refl|]. eexists. split; [apply edited_uniform|done].
  - destruct (ReadHistory_frame now q s) as (? & ? & ? & ? & _). by apply Hid, inplace_refl.
  - destruct (UnpinAll_spec now q s) as (? & ? & ? & _ & ?). by apply Hid, pinned_inplace.
  - apply Hid. unfold ReserveAlbumGroup. destruct (validateAlbum r); [by apply inplace_refl|]. destruct (existingGroup _ _ _ _); by apply inplace_refl.
  - by apply Hid, inplace_refl.
  - eexists. split; [apply expire_uniform|apply markNoForwardsRequestExpired_inplace].
  - by apply Hid, inplace_refl.
  - by apply Hid, inplace_refl.
Qed.
(** A history clear turns the newest row into a marker. *)
Definition clears (o : op) : bool := match o with OpDeleteHistory _ q => JustClear q | _ => false end.
(** Account [u] or [v] clears the history with the other. *)
Definition clearsChat u v (o : op) : bool :=
  match o with
  | OpDeleteHistory _ q =>
    JustClear q && (bool_decide (dh_OwnerUserID q = u ∧ peerID (dh_Peer q) = v) || bool_decide (dh_OwnerUserID q = v ∧ peerID (dh_Peer q) = u))
  | _ => false
  end.
Lemma exec_deletes o s : deleting o = true → exec o s = s ∨ ∃ rows anchors, deletes s (exec o s) rows anchors ∧ (clears o = false → anchors = ∅) ∧
  (∀ u v a, freshAnchor (anchors !! u) = Some a → MPeer a = user v → clearsChat u v o = true).
Proof.
  destruct o; try done; intros _; simpl.
  - destruct (DeleteMessages_spec now q s) as (s' & r & -> & [->|[rows H]]); [by left|right; eexists _, _; split_and!; [done|done|by intros u v a ?]].
  - destruct (DeleteHistory_spec now q s) as (s' & r & -> & [->|[rows H]]); [by left|right]. eexists _, _. split_and!; [exact H|intros E; unfold clearAnchors; by rewrite E|].
    intros u v a Ha HP. destruct (freshAnchor_Some _ _ _ Ha) as (b & Hb & ->). destruct (clearAnchors_spec _ _ _ _ Hb) as (-> & _ & Hu & _). rewrite HP in Hu. simpl.
    destruct Hu as [[-> <-]|(-> & [= ->] & _)]; [by rewrite bool_decide_eq_true_2|by rewrite orb_comm, bool_decide_eq_true_2].
  - destruct (DeleteSavedHistory_spec now q s) as (s' & r & -> & [->|[rows H]]); [by left|right; eexists _, _; split_and!; [done|done|by intros u v a ?]].
Qed.
(** A growing step creates one row, or is a send, or only pins. *)
Lemma exec_growing o s : growing o = true →
  exec o s = s ∨ (∃ premiumBot x, o = OpCreate premiumBot x) ∨ (inplace (λ x, x) s (exec o s) ∧ dialogs (exec o s) = dialogs s) ∨
  ∃ now q fp prefix, prefixOK s prefix ∧ exec o s = (sendPrivateTextLocked C now q fp prefix s).1.
Proof.
  destruct o; try done; intros _; simpl.
  - right; left. by eexists _, _.
  - unfold SendPrivateText. destruct (negb _); [by left|]. destruct (PrivateSendFingerprint C q) as [|fp]; [by left|]. right; right; right. by exists now, q, fp, None.
  - destruct (PinPrivateMessage_cases now rid q s) as [[->|(? & ? & ? & ? & ?)]|(date & fp & p & Hp & ->)]; [by left|by right; right; left; split; [apply pinned_inplace|]|].
    right; right; right. by eexists _, _, _, _.
Qed.
Lemma inplace_WF g s s' : uniform g → WF s → inplace g s s' → WF s'.
Proof. intros Hg HW Hi. eapply WF_shrunk; [done|done|by apply inplace_shrunk]. Qed.
Lemma exec_WF o s : WF s → WF (exec o s).
Proof.
  intros HW. destruct (growing o) eqn:Hgr.
  - destruct (exec_growing o s Hgr) as [->|[(premiumBot & x & ->)|[[Hi _]|(now & q & fp & prefix & Hp & ->)]]].
    + done.
    + by apply Create_WF.
    + eapply inplace_WF; [apply uniform_id|done|done].
    + by apply send_WF.
  - destruct (deleting o) eqn:Hd; [apply (deletes_WF s); [done|]; destruct (exec_deletes o s Hd) as [?|(? & ? & ? & _)]; eauto|]. destruct (exec_inplace o s Hgr Hd) as (g & ? & ?). by eapply inplace_WF.
Qed.
Lemma NewMessageStore_WF ds : WF (NewMessageStore (X := X) ds).
Proof.
  split; simpl; [done|done|intros u; split; [constructor|constructor|by intros x ?%not_elem_of_nil]|]. by intros u v x y ?%not_elem_of_nil.
Qed.
Lemma runs_WF os s : WF s → WF (runs os s).
Proof. unfold runs. revert s. induction os as [|o os IH]; intros s HW; [done|]. simpl. by apply IH, exec_WF. Qed.

(** ** Copies of two accounts that do not clear their history *)

Definition twins u v s : Prop := ∀ x y, x ∈ boxOf s u → y ∈ boxOf s v → UID x = UID y → same_content x y.
Lemma twins_inplace g u v s s' : uniform g → inplace g s s' → twins u v s → twins u v s'.
Proof.
  intros [_ Hg] Hi HT x' y' [i Hx]%list_elem_of_lookup [j Hy]%list_elem_of_lookup.
  destruct (Forall2_lookup_r _ _ _ _ _ (ip_rows _ _ _ Hi u) Hx) as (x & Hx0 & ([= _ Ux _ _ _] & _ & Cx)).
  destruct (Forall2_lookup_r _ _ _ _ _ (ip_rows _ _ _ Hi v) Hy) as (y & Hy0 & ([= _ Uy _ _ _] & _ & Cy)). rewrite Ux, Uy. intros E.
  eapply content_trans; [apply content_sym, Cx|]. eapply content_trans; [|exact Cy]. apply Hg; [done|]. by apply HT; [eapply list_elem_of_lookup_2..|].
Qed.
Lemma twins_append u v s s' (new : Z → list message) :
  WF s → (∀ w, boxOf s' w = boxOf s w ++ new w) → (∀ w x, x ∈ new w → UID x = nextUID s) →
  (∀ x y, x ∈ new u → y ∈ new v → same_content x y) → twins u v s → twins u v s'.
Proof.
  intros HW Hb Hn Hc HT x y. rewrite !Hb. intros [Hx|Hx]%elem_of_app [Hy|Hy]%elem_of_app E; [by apply HT|..|by apply Hc].
  - destruct (box_rows _ _ _ _ (wf_box _ HW u) x Hx) as (_ & _ & ?). specialize (Hn v y Hy). lia.
  - destruct (box_rows _ _ _ _ (wf_box _ HW v) y Hy) as (_ & _ & ?). specialize (Hn u x Hx). lia.
Qed.
Lemma Create_box premiumBot x s u :
  boxOf (Create premiumBot x s).1 u = boxOf s u ++ if decide (u = OwnerUserID x) then [set_UID (nextUID s) (set_ID (nextBoxOf s (OwnerUserID x) + 1) x)] else [].
Proof.
  set (x' := set_UID _ _). transitivity (boxOf (putBox (OwnerUserID x) (boxOf s (OwnerUserID x) ++ [x']) s) u); [unfold boxOf; simpl; by destruct (dialogs s)|].
  rewrite boxOf_putBox. case_decide as E; [by rewrite E|by rewrite app_nil_r].
Qed.
Lemma sentRows_twins now q fp prefix s s' sender recipient u v x y :
  WF s → fresh_send C now q fp prefix s s' sender recipient → u ≠ v →
  x ∈ sentRows q sender recipient u → y ∈ sentRows q sender recipient v → same_content x y.
Proof.
  intros HW HF Hne. destruct (fresh_copies _ _ _ _ _ _ _ _ HW HF) as (_ & _ & HU & _ & Hc). unfold sentRows.
  destruct (decide (u = SenderUserID q)) as [->|Eu].
  - intros ->%list_elem_of_singleton. rewrite decide_False by done. case_decide as E2; [|by intros ?%not_elem_of_nil]. destruct E2 as [-> Hr]. intros ->%list_elem_of_singleton.
    destruct Hc as [[? _]|[(_ & _ & ->)|(_ & _ & _ & _ & _ & _ & _ & HS & _)]]; done.
  - case_decide as E2; [|by intros ?%not_elem_of_nil]. destruct E2 as [-> Hr]. intros ->%list_elem_of_singleton. destruct (decide (v = SenderUserID q)) as [->|Ev].
    + intros ->%list_elem_of_singleton. destruct Hc as [[? _]|[(_ & _ & ->)|(_ & _ & _ & _ & _ & _ & _ & HS & _)]]; [done|done|by apply content_sym].
    + rewrite decide_False by (intros []; congruence). by intros ?%not_elem_of_nil.
Qed.
Lemma sentRows_uid now q fp prefix s s' sender recipient u x :
  WF s → fresh_send C now q fp prefix s s' sender recipient → x ∈ sentRows q sender recipient u → UID x = nextUID s.
Proof.
  intros HW HF. destruct (fresh_copies _ _ _ _ _ _ _ _ HW HF) as (_ & _ & HU & _ & Hc). unfold sentRows.
  case_decide; [by intros ->%list_elem_of_singleton|]. case_decide as E2; [|by intros ?%not_elem_of_nil]. destruct E2 as [-> Hr]. intros ->%list_elem_of_singleton.
  destruct Hc as [[? ->]|[(_ & _ & ->)|(_ & _ & _ & _ & ? & _)]]; done.
Qed.
Lemma cleared_row u pts a (ms : list message) x : x ∈ clearedBox u pts a ms → x ∈ ms ∨ ∃ b, a = Some b ∧ x = clearedRow u pts b.
Proof.
  unfold clearedBox. destruct a as [b|]; [|by left]. induction ms as [|y ms IH]; simpl; [by left|].
  destruct (_ && _); intros [->|Hx]%elem_of_cons; [right; eauto|left; by right|left; by left|]. destruct (IH Hx) as [?|?]; [left; by right|by right].
Qed.
Lemma twins_deletes u v s s' rows anchors :
  WF s → WF s' → u ≠ v → deletes s s' rows anchors →
  (∀ a, freshAnchor (anchors !! u) = Some a → MPeer a ≠ user v) → (∀ a, freshAnchor (anchors !! v) = Some a → MPeer a ≠ user u) → twins u v s → twins u v s'.
Proof.
  intros HW HW' Hne (date & s1 & Hr & _ & D) Hu Hv HT x y Hx Hy E. destruct (wf_linked _ HW' u v x y Hx Hy Hne E) as (Px & Py & _).
  rewrite (dl_box _ _ _ _ _ D) in Hx, Hy. apply cleared_row in Hx as [Hx|(a & Ha & ->)]; [|by destruct (Hu a Ha)]. apply cleared_row in Hy as [Hy|(a & Ha & ->)]; [|by destruct (Hv a Ha)].
  apply HT; [eapply elem_of_submseteq; [exact Hx|]|eapply elem_of_submseteq; [exact Hy|]|done]; apply sublist_submseteq, (rm_sub _ _ _ Hr).
Qed.
Lemma clearsChat_sym u v o : clearsChat u v o = clearsChat v u o.
Proof. destruct o; try done. simpl. by rewrite orb_comm. Qed.
Lemma exec_twins o s u v : WF s → u ≠ v → clearsChat u v o = false → twins u v s → twins u v (exec o s).
Proof.
  intros HW Hne Hc HT. destruct (growing o) eqn:Hgr.
  - destruct (exec_growing o s Hgr) as [->|[(premiumBot & x & ->)|[[Hi _]|(now & q & fp & prefix & Hp & ->)]]].
    + done.
    + apply (twins_append u v s _ (λ w, if decide (w = OwnerUserID x) then [set_UID (nextUID s) (set_ID (nextBoxOf s (OwnerUserID x) + 1) x)] else []) HW);
        [intros w; apply Create_box| | |done].
      * intros w y. case_decide; [by intros ->%list_elem_of_singleton|by intros ?%not_elem_of_nil].
      * intros y z. case_decide; [|by intros ?%not_elem_of_nil]. rewrite decide_False by congruence. by intros _ ?%not_elem_of_nil.
    + eapply twins_inplace; [apply uniform_id|done|done].
    + pose proof (send_cases C now q fp prefix s) as H. destruct (sendPrivateTextLocked C now q fp prefix s) as [s' r]. simpl.
      destruct H as [[-> _]|(sender & recipient & HF & _)]; [done|]. destruct (fresh_boxes _ _ _ _ _ _ _ _ HW HF) as (_ & B2 & _).
      set (s1 := put_m (match prefix with Some p => prefixApply p (m s) | None => m s end) s).
      assert (Hi : inplace (λ x, x) s s1) by (apply pinned_inplace; [done|done|done|]; destruct prefix; [exact Hp|apply pinned_only_refl]).
      eapply (twins_append u v s1 s'); [by eapply inplace_WF; [apply uniform_id|..]|exact B2| | |by eapply twins_inplace; [apply uniform_id|..]].
      * intros w x Hx. exact (sentRows_uid _ _ _ _ _ _ _ _ _ _ HW HF Hx).
      * intros x y Hx Hy. exact (sentRows_twins _ _ _ _ _ _ _ _ _ _ _ _ HW HF Hne Hx Hy).
  - destruct (deleting o) eqn:Hd.
    + pose proof (exec_WF o s HW) as HW'. destruct (exec_deletes o s Hd) as [->|(rows & anchors & HD & _ & Ha)]; [done|].
      eapply twins_deletes; [exact HW|exact HW'|done|exact HD| | |done]; intros a Hf HP; specialize (Ha _ _ _ Hf HP); [congruence|]. rewrite clearsChat_sym in Ha. congruence.
    + destruct (exec_inplace o s Hgr Hd) as (g & ? & ?). by eapply twins_inplace.
Qed.
Lemma runs_twins os s u v : WF s → u ≠ v → forallb (λ o, negb (clearsChat u v o)) os = true → twins u v s → twins u v (runs os s).
Proof.
  unfold runs. revert s. induction os as [|o os IH]; intros s HW Hne Hc HT; [done|]. simpl in *. apply andb_true_iff in Hc as [Ho%negb_true_iff Hos].
  apply IH; [by apply exec_WF|done|done|by apply exec_twins].
Qed.
End world.
End MailWorld.
