(* ===== verification/MailReplay.v ===== *)
(** * Private messages: a send is accepted once

    The receipts of accepted sends: they are never lost or changed, and a
    repeated request is answered from them. *)

From stdpp Require Import sorting.
From S2P Require Import Prelude UpdateTypes UpdateStore MailTypes MailStore MailOps MailInv MailBoxes MailSteps MailWorld.
Import Mail MailStore MailOps MailInv MailBoxes MailSteps MailWorld.

Module MailReplay.

(** What JSON promises of a send receipt (integers come back, and a valid
    external reply stays valid) and the size of a SHA-256 sum. *)
Class JsonReceipts {X : Type} `{Inhabited X} (C : @Codec X) : Prop := {
  json_receipt version x raw : marshalSnapshot C version x = Some raw →
    ∃ f, unmarshalSnapshot C raw = Some (version, f) ∧ ID f = ID x ∧ UID f = UID x ∧ RandomID f = RandomID x ∧
      OwnerUserID f = OwnerUserID x ∧ Pts f = Pts x ∧ (externalInvalid C x = false → externalInvalid C f = false);
  sum_size p h : sumFingerprint C p = Some h → len h = sha256Size;
}.

Section replay.
Context {X : Type} `{EqX : EqDecision X} `{InhX : Inhabited X} (C : @Codec X).
Abbreviation message := (Message X).
Abbreviation event := (UpdateEvent message).
Abbreviation store := (@MessageStore X).
Abbreviation record := (@privateSendDedupRecord X).
Implicit Types (x y : message) (s : store) (u v : Z) (r : record).

(** ** Receipts stay *)

Definition same_receipt r r' : Prop :=
  recipientUserID r' = recipientUserID r ∧ senderSnapshot r' = senderSnapshot r ∧ recipientMessage r' = recipientMessage r ∧
  fingerprint r' = fingerprint r ∧ (is_Some (senderDeleteEvent r) → is_Some (senderDeleteEvent r')).
Lemma same_receipt_refl r : same_receipt r r.
Proof. done. Qed.
Lemma same_receipt_trans r1 r2 r3 : same_receipt r1 r2 → same_receipt r2 r3 → same_receipt r1 r3.
Proof. intros (? & ? & ? & ? & ?) (? & ? & ? & ? & ?). split_and!; try congruence. tauto. Qed.
Definition persist s s' : Prop :=
  ∀ k r, privateSendDedup s !! k = Some r → ∃ r', privateSendDedup s' !! k = Some r' ∧ same_receipt r r'.

Lemma receiptDelete_persist u (e : event) (rows : list deletedMemoryMessage) (dedup : gmap (Z * Z) record) k r :
  dedup !! k = Some r → ∃ r', receiptDelete u e rows dedup !! k = Some r' ∧ same_receipt r r'.
Proof.
  unfold receiptDelete. revert dedup r. induction rows as [|row rows IH]; intros dedup r Hk; simpl; [by exists r|].
  destruct (_ || _); [by apply IH|]. destruct (dedup !! (u, del_randomID row)) as [r0|] eqn:E0; [|by apply IH].
  destruct (decide (k = (u, del_randomID row))) as [->|Hne].
  - rewrite Hk in E0. injection E0 as <-. destruct (IH (<[(u, del_randomID row) := mkDedup (recipientUserID r) (senderSnapshot r) (recipientMessage r) (fingerprint r) (Some e)]> dedup) _ (lookup_insert_eq _ _ _)) as (r' & Hr' & (? & ? & ? & ? & Hd)).
    exists r'. split; [done|]. split_and!; [done..|]. intros _. apply Hd. by exists e.
  - apply IH. by rewrite lookup_insert_ne.
Qed.
Lemma receiptDelete_None u (e : event) (rows : list deletedMemoryMessage) (dedup : gmap (Z * Z) record) k :
  dedup !! k = None → receiptDelete u e rows dedup !! k = None.
Proof.
  unfold receiptDelete. revert dedup. induction rows as [|row rows IH]; intros dedup E; simpl; [done|]. apply IH. destruct (_ || _); [done|].
  destruct (dedup !! (u, del_randomID row)) as [r0|] eqn:E0; [|done]. rewrite lookup_insert_ne by congruence. done.
Qed.
Lemma receiptDelete_marks u (e : event) (rows : list deletedMemoryMessage) (dedup : gmap (Z * Z) record) row r :
  row ∈ rows → del_userID row = u → del_messageSenderID row = u → del_randomID row ≠ 0 → del_privateMessageID row ≠ 0 →
  dedup !! (u, del_randomID row) = Some r → ∃ r', receiptDelete u e rows dedup !! (u, del_randomID row) = Some r' ∧ is_Some (senderDeleteEvent r').
Proof.
  intros Hin H1 H2 H3 H4 Hk. apply list_elem_of_split in Hin as (l1 & l2 & ->). unfold receiptDelete. rewrite foldl_app. simpl.
  destruct (receiptDelete_persist u e l1 dedup _ r Hk) as (r1 & Hr1 & _). unfold receiptDelete in Hr1. set (d1 := foldl _ dedup l1) in *. rewrite Hr1.
  rewrite !bool_decide_eq_true_2 by done. rewrite (bool_decide_eq_false_2 (del_randomID row = 0)), (bool_decide_eq_false_2 (del_privateMessageID row = 0)) by done. simpl.
  destruct (receiptDelete_persist u e l2 _ _ _ (lookup_insert_eq d1 (u, del_randomID row) (mkDedup (recipientUserID r1) (senderSnapshot r1) (recipientMessage r1) (fingerprint r1) (Some e))))
    as (r' & Hr' & (_ & _ & _ & _ & Hd)). exists r'. split; [exact Hr'|]. apply Hd. by exists e.
Qed.

Lemma deletion_persist rows date anchors s s' : deletion rows date anchors s s' → persist s s'.
Proof.
  intros D [v rid] r Hk. rewrite (dl_dedup _ _ _ _ _ D). case_decide; [by exists r|]. by apply receiptDelete_persist.
Qed.
Lemma deletes_persist s s' rows anchors : deletes s s' rows anchors → persist s s'.
Proof.
  intros (date & s1 & Hr & _ & D) k r Hk. apply (deletion_persist _ _ _ _ _ D). by rewrite (sr_dedup _ _ (rm_rest _ _ _ Hr)).
Qed.
Lemma fresh_dedup now q fp prefix s s' sender recipient :
  fresh_send C now q fp prefix s s' sender recipient →
  if bool_decide (q_RandomID q ≠ 0) then ∃ raw, EncodePrivateSendSnapshot C sender = inr raw ∧
    privateSendDedup s' = <[(SenderUserID q, q_RandomID q) := mkDedup (RecipientUserID q) raw (immutablePrivateSendReceipt recipient) fp None]> (privateSendDedup s)
  else privateSendDedup s' = privateSendDedup s.
Proof.
  intros [_ (events & al0 & al & staged & sr & rr & pts & snap & _ & _ & _ & _ & _ & _ & Hsnap & ->)]. unfold commitPrivateSend. cbv zeta.
  destruct (bool_decide (q_RandomID q ≠ 0)).
  - destruct Hsnap as (raw & -> & Hraw). exists raw. split; [done|].
    destruct (bool_decide (ID recipient ≠ 0)), (bool_decide (SenderUserID q ≠ RecipientUserID q) && negb (RecipientBlocked q)); simpl; by destruct (dialogs s).
  - subst snap. destruct (bool_decide (ID recipient ≠ 0)), (bool_decide (SenderUserID q ≠ RecipientUserID q) && negb (RecipientBlocked q)); simpl; by destruct (dialogs s).
Qed.
Lemma send_persist now q fp prefix s : persist s (sendPrivateTextLocked C now q fp prefix s).1.
Proof.
  pose proof (send_cases C now q fp prefix s) as H. destruct (sendPrivateTextLocked C now q fp prefix s) as [s' r]. simpl.
  destruct H as [[-> _]|(sender & recipient & HF & _)]; [by intros k r'; exists r'|]. intros k r' Hk. pose proof (fresh_dedup _ _ _ _ _ _ _ _ HF) as Hd.
  destruct (bool_decide (q_RandomID q ≠ 0)); [|rewrite Hd; by exists r']. destruct Hd as (raw & _ & ->). pose proof (fs_absent _ _ _ _ _ _ _ _ _ HF) as Ha.
  rewrite lookup_insert_ne by congruence. by exists r'.
Qed.
Lemma exec_persist o s : persist s (exec C o s).
Proof.
  destruct (growing o) eqn:Hg.
  - destruct (exec_growing C o s Hg) as [->|[(premiumBot & x & ->)|[[Hi _]|(now & q & fp & prefix & _ & ->)]]].
    + by intros k r; exists r.
    + intros k r Hk. exists r. split; [|done]. simpl. by destruct (dialogs s).
    + intros k r Hk. rewrite (ip_dedup _ _ _ Hi). by exists r.
    + apply send_persist.
  - destruct (deleting o) eqn:Hd.
    + destruct (exec_deletes C o s Hd) as [->|(rows & anchors & H & _)]; [by intros k r; exists r|by eapply deletes_persist].
    + destruct (exec_inplace C o s Hg Hd) as (g & _ & Hi). intros k r Hk. rewrite (ip_dedup _ _ _ Hi). by exists r.
Qed.
Lemma runs_persist os s : persist s (runs C os s).
Proof.
  revert s. induction os as [|o os IH]; intros s k r Hk; [by exists r|]. destruct (exec_persist o s k r Hk) as (r1 & H1 & S1).
  destruct (IH (exec C o s) k r1 H1) as (r2 & H2 & S2). exists r2. split; [done|by eapply same_receipt_trans].
Qed.

(** ** Counters *)

Lemma exec_nextBox o s u : WF s → nextBoxOf s u ≤ nextBoxOf (exec C o s) u.
Proof.
  intros HW. destruct (growing o) eqn:Hg.
  - destruct (exec_growing C o s Hg) as [->|[(premiumBot & x & ->)|[[Hi _]|(now & q & fp & prefix & _ & ->)]]].
    + lia.
    + transitivity (default 0 (<[OwnerUserID x := nextBoxOf s (OwnerUserID x) + 1]> (nextBox s) !! u)); [|unfold nextBoxOf; simpl; by destruct (dialogs s)].
      destruct (decide (u = OwnerUserID x)) as [->|]; [rewrite lookup_insert_eq; simpl; lia|by rewrite lookup_insert_ne].
    + unfold nextBoxOf. by rewrite (ip_box _ _ _ Hi).
    + pose proof (send_cases C now q fp prefix s) as H. destruct (sendPrivateTextLocked C now q fp prefix s) as [s' r]. simpl.
      destruct H as [[-> _]|(sender & recipient & HF & _)]; [lia|]. destruct (fresh_boxes C _ _ _ _ _ _ _ _ HW HF) as (_ & _ & B3). rewrite B3.
      destruct (fresh_copies C _ _ _ _ _ _ _ _ HW HF) as (_ & HI & _ & _ & Hc). unfold sentRows. case_decide as E1; [subst; lia|]. case_decide as E2; [|lia].
      destruct E2 as [-> Hr]. destruct Hc as [[? ->]|[(_ & _ & ->)|(_ & _ & E & _)]]; [congruence|done|lia].
  - destruct (deleting o) eqn:Hd.
    + destruct (exec_deletes C o s Hd) as [->|(rows & anchors & (date & s1 & Hr & _ & D) & _)]; [lia|].
      unfold nextBoxOf. rewrite (dl_next _ _ _ _ _ D), (sr_box _ _ (rm_rest _ _ _ Hr)). lia.
    + destruct (exec_inplace C o s Hg Hd) as (g & _ & Hi). unfold nextBoxOf. rewrite (ip_box _ _ _ Hi). lia.
Qed.
Lemma runs_nextBox os s u : WF s → nextBoxOf s u ≤ nextBoxOf (runs C os s) u.
Proof.
  revert s. induction os as [|o os IH]; intros s HW; [done|]. simpl. etrans; [by apply exec_nextBox|]. apply IH. by apply exec_WF.
Qed.

(** ** Every receipt is backed *)

(** The row a receipt speaks of, or the receipt of its deletion. *)
Definition backed s u : Prop :=
  ∀ rid r, privateSendDedup s !! (u, rid) = Some r → rid ≠ 0 ∧ ∃ f, DecodePrivateSendSnapshot C (senderSnapshot r) = inr f ∧
    (is_Some (senderDeleteEvent r) ∨ ∃ x, x ∈ boxOf s u ∧ UID x = UID f ∧ ID x = ID f ∧ RandomID x = rid ∧ peerID (From x) = u).

Lemma key_eq x x' : key x' = key x → ID x' = ID x ∧ UID x' = UID x.
Proof. by intros [= ? ? _ _ _]. Qed.
Lemma inplace_backed g s s' u : uniform g → inplace g s s' → backed s u → backed s' u.
Proof.
  intros [Hg _] Hi HB rid r. rewrite (ip_dedup _ _ _ Hi). intros Hr. destruct (HB rid r Hr) as (H0 & f & Hf & Hx). split; [done|]. exists f. split; [done|].
  destruct Hx as [Hd|(x & Hx & H1 & H2 & H3 & H4)]; [by left|right]. apply list_elem_of_lookup in Hx as [i Hi2].
  destruct (Forall2_lookup_l _ _ _ _ _ (ip_rows _ _ _ Hi u) Hi2) as (x' & Hx' & (Hk & _ & Hfrom & Hrand & _)). exists x'. destruct (key_eq _ _ Hk) as [E1 E2].
  destruct (Hg x) as (G1 & G2 & _). rewrite E1, E2, Hrand, Hfrom, G1, G2. split_and!; try done. by eapply list_elem_of_lookup_2.
Qed.

Lemma elem_of_deletedIDs u rows row : row ∈ rows → del_userID row = u → 0 < del_id row ≤ MaxMessageBoxID → del_id row ∈ deletedIDs u rows.
Proof.
  intros Hin Hu Hr. unfold deletedIDs, normalizeMemoryMessageIDs. rewrite merge_sort_Permutation, elem_of_remove_dups, list_elem_of_filter. split; [done|].
  apply list_elem_of_fmap. exists row. split; [done|]. by apply list_elem_of_filter.
Qed.
Lemma deletes_backed s s' rows u :
  WF s → nextBoxOf s u ≤ MaxMessageBoxID → (∃ date s1, removed s s1 rows ∧ deletion rows date ∅ s1 s') → backed s u → backed s' u.
Proof.
  intros HW Hmax (date & s1 & Hr & D) HB rid r' Hr'. pose proof (dl_dedup _ _ _ _ _ D u rid) as Hd. rewrite Hr' in Hd. rewrite (sr_dedup _ _ (rm_rest _ _ _ Hr)) in Hd.
  assert (∃ r, privateSendDedup s !! (u, rid) = Some r) as [r Hk].
  { destruct (privateSendDedup s !! (u, rid)) as [r|] eqn:E; [by exists r|]. case_decide; [congruence|]. rewrite receiptDelete_None in Hd by done. done. }
  destruct (HB rid r Hk) as (H0 & f & Hf & Hx). split; [done|]. exists f.
  assert (same_receipt r r') as (_ & -> & _ & _ & Hs).
  { case_decide; [assert (r' = r) as -> by congruence; done|].
    destruct (receiptDelete_persist u (deletedAt u rows date (nextPtsOf s1 u)) rows (privateSendDedup s) (u, rid) r Hk) as (r2 & E & ?). congruence. }
  split; [done|]. destruct Hx as [?|(x & Hx & H1 & H2 & H3 & H4)]; [left; by apply Hs|].
  destruct (rm_gone _ _ _ Hr u x Hx) as [Hx1|Hrow].
  - right. exists x. split_and!; try done. rewrite (dl_box _ _ _ _ _ D). by rewrite lookup_empty.
  - left. destruct (box_rows _ _ _ _ (wf_box _ HW u) x Hx) as (_ & HI & HU).
    assert (deletedIDs u rows ≠ []) as Hne. { intros E. assert (ID x ∈ deletedIDs u rows) as Hid by (apply (elem_of_deletedIDs u rows (deletedRow u x)); [done|done|simpl; lia]). rewrite E in Hid. by apply not_elem_of_nil in Hid. }
    rewrite decide_False in Hd by done. subst rid.
    destruct (receiptDelete_marks u (deletedAt u rows date (nextPtsOf s1 u)) rows (privateSendDedup s) (deletedRow u x) r Hrow) as (r2 & E & ?); [done|done|done|simpl; lia|done|].
    simpl in E. congruence.
Qed.
Context `{HJ : !JsonReceipts C}.
Lemma snapshot_roundtrip x raw :
  EncodePrivateSendSnapshot C x = inr raw → ∃ f, DecodePrivateSendSnapshot C raw = inr f ∧ ID f = ID x ∧ UID f = UID x ∧ RandomID f = RandomID x ∧
    OwnerUserID f = OwnerUserID x ∧ Pts f = Pts x.
Proof.
  unfold EncodePrivateSendSnapshot, DecodePrivateSendSnapshot. destruct (snapshotIncomplete x) eqn:E1; [done|]. destruct (externalInvalid C x) eqn:E2; [done|].
  destruct (marshalSnapshot C _ x) as [raw'|] eqn:Em; [|done]. intros [= ->]. destruct (json_receipt _ _ _ Em) as (f & -> & F1 & F2 & F3 & F4 & F5 & F6).
  exists f. rewrite bool_decide_eq_false_2 by (by intros []). rewrite F6 by done.
  assert (snapshotIncomplete f = false) as ->; [|by split_and!]. revert E1. unfold snapshotIncomplete. by rewrite F1, F2, F3, F4, F5.
Qed.
Lemma fresh_backed now q fp prefix s s' sender recipient u :
  WF s → prefixOK s prefix → fresh_send C now q fp prefix s s' sender recipient → backed s u → backed s' u.
Proof.
  intros HW Hp HF HB. pose proof (fresh_dedup _ _ _ _ _ _ _ _ HF) as Hd. destruct (fresh_boxes C _ _ _ _ _ _ _ _ HW HF) as (_ & B2 & _).
  assert (Hold : ∀ rid r, privateSendDedup s !! (u, rid) = Some r → rid ≠ 0 ∧ ∃ f, DecodePrivateSendSnapshot C (senderSnapshot r) = inr f ∧
    (is_Some (senderDeleteEvent r) ∨ ∃ x, x ∈ boxOf s' u ∧ UID x = UID f ∧ ID x = ID f ∧ RandomID x = rid ∧ peerID (From x) = u)).
  { set (s1 := put_m (match prefix with Some p => prefixApply p (m s) | None => m s end) s).
    assert (backed s1 u) as HB1.
    { apply (inplace_backed (λ x, x) s); [apply uniform_id| |done]. apply pinned_inplace; [done|done|done|]. destruct prefix; [exact Hp|apply pinned_only_refl]. }
    intros rid r Hr. destruct (HB1 rid r Hr) as (? & f & ? & [?|(x & Hx & ?)]); (split; [done|]); exists f; (split; [done|]); [by left|right].
    exists x. split; [|done]. rewrite B2. apply elem_of_app. by left. }
  intros rid r. destruct (bool_decide_reflect (q_RandomID q ≠ 0)) as [Hrid|Hrid]; [|rewrite Hd; apply Hold]. destruct Hd as (raw & Hraw & ->).
  rewrite lookup_insert_Some. intros [[[= <- <-] <-]|[_ Hr]]; [|by apply Hold]. split; [done|]. simpl.
  destruct (snapshot_roundtrip _ _ Hraw) as (f & Hf & F1 & F2 & _). exists f. split; [done|]. right. exists sender.
  destruct HF as [_ (events & al0 & al & staged & sr & rr & pts & snap & _ & _ & _ & _ & Hs & _)].
  split_and!; [|by rewrite F2|by rewrite F1|by rewrite Hs|by rewrite Hs].
  rewrite B2. apply elem_of_app. right. unfold sentRows. rewrite decide_True by done. apply list_elem_of_here.
Qed.
Lemma exec_backed o s u : WF s → clears o = false → nextBoxOf s u ≤ MaxMessageBoxID → backed s u → backed (exec C o s) u.
Proof.
  intros HW Hc Hmax HB. destruct (growing o) eqn:Hg.
  - destruct (exec_growing C o s Hg) as [->|[(premiumBot & x & ->)|[[Hi _]|(now & q & fp & prefix & Hp & ->)]]].
    + done.
    + intros rid r Hr. destruct (HB rid r) as (? & f & ? & Hx). { revert Hr. simpl. by destruct (dialogs s). }
      split; [done|]. exists f. split; [done|]. destruct Hx as [?|(y & Hy & ?)]; [by left|right]. exists y. split; [|done].
      set (x' := set_UID (nextUID s) (set_ID (nextBoxOf s (OwnerUserID x) + 1) x)).
      assert (boxOf (exec C (OpCreate premiumBot x) s) u = boxOf (putBox (OwnerUserID x) (boxOf s (OwnerUserID x) ++ [x']) s) u) as -> by (unfold boxOf; simpl; by destruct (dialogs s)).
      rewrite boxOf_putBox. case_decide as E; [rewrite E in Hy; apply elem_of_app; by left|done].
    + eapply inplace_backed; [apply uniform_id|done|done].
    + pose proof (send_cases C now q fp prefix s) as H. destruct (sendPrivateTextLocked C now q fp prefix s) as [s' r]. simpl.
      destruct H as [[-> _]|(sender & recipient & HF & _)]; [done|]. by eapply fresh_backed.
  - destruct (deleting o) eqn:Hd.
    + destruct (exec_deletes C o s Hd) as [->|(rows & anchors & (date & s1 & Hr & _ & D) & Ha & _)]; [done|]. rewrite (Ha Hc) in D.
      apply (deletes_backed s _ rows); [done|done|by exists date, s1|done].
    + destruct (exec_inplace C o s Hg Hd) as (g & ? & ?). by eapply inplace_backed.
Qed.
Lemma runs_backed os s u :
  WF s → forallb (λ o, negb (clears o)) os = true → nextBoxOf (runs C os s) u ≤ MaxMessageBoxID → backed s u → backed (runs C os s) u.
Proof.
  revert s. induction os as [|o os IH]; intros s HW Hc Hmax HB; [done|]. simpl in *. apply andb_true_iff in Hc as [Ho%negb_true_iff Hos].
  apply IH; [by apply exec_WF|done|done|]. apply exec_backed; [done|done| |done]. etrans; [by apply exec_nextBox|]. etrans; [|exact Hmax]. by apply runs_nextBox, exec_WF.
Qed.
End replay.
End MailReplay.
