(* ===== verification/MailDialogs.v ===== *)
(** * Private messages: the dialog list

    The counters of a dialog against the box: its top message is the newest row
    with the peer, and its unread counter the number of incoming rows above the
    read watermark. *)

From stdpp Require Import sorting.
From S2P Require Import Prelude UpdateTypes UpdateStore MailTypes MailStore MailOps MailInv MailBoxes MailSteps MailWorld MailReplay.
Import Mail MailStore MailOps MailInv MailBoxes MailSteps MailWorld MailReplay.

Module MailDialogs.
Section dialogs.
Context {X : Type} `{EqX : EqDecision X} `{InhX : Inhabited X} (C : @Codec X).
Abbreviation message := (Message X).
Abbreviation store := (@MessageStore X).
Implicit Types (x y : message) (s : store) (u v : Z) (ms rows : list message) (d : Dialog X) (ds : list (Dialog X)).

Definition withPeer (p : Peer) ms : list message := filter (λ x, MPeer x = p) ms.
Definition unread (r : Z) ms : list message := filter (λ x, Out x = false ∧ r < ID x) ms.
(** A dialog, the rows with its peer and the last id of the box. *)
Record DialogOK (n : Z) rows d : Prop := {
  do_top : ∃ x, last rows = Some x ∧ TopMessage d = ID x ∧ TopMessageDate d = Date x;
  do_unread : UnreadCount d = len (unread (ReadInboxMaxID d) rows);
  do_read : 0 ≤ ReadInboxMaxID d ≤ n;
}.
Record DialogsOK (n : Z) ms ds : Prop := {
  ds_peers : NoDup (map DPeer ds);
  ds_ok d : d ∈ ds → DialogOK n (withPeer (DPeer d) ms) d;
  ds_all x : x ∈ ms → MPeer x ∈ map DPeer ds;
}.
Definition ListsOK s : Prop :=
  match dialogs s with Some ds => ∀ u, DialogsOK (nextBoxOf s u) (boxOf s u) (Dialogs (listOf ds u)) | None => True end.

(** ** The loops of the source *)

Lemma countUnread_len p r ms : countUnread p r ms = len (unread r (withPeer p ms)).
Proof.
  unfold countUnread. cut (∀ k : Z, foldl (λ n x, if isUnread p r x then n + 1 else n) k ms = k + len (unread r (withPeer p ms))).
  { intros H. by rewrite H. }
  induction ms as [|x ms IH]; intros k; simpl; [unfold len; simpl; lia|]. rewrite IH. unfold withPeer, unread. rewrite !filter_cons.
  unfold isUnread. destruct (bool_decide_reflect (MPeer x = p)) as [E|E]; [rewrite (decide_True _ _ E)|by rewrite (decide_False _ _ E)].
  rewrite filter_cons. destruct (decide (Out x = false ∧ r < ID x)) as [[-> Hr]|Hr]; simpl.
  - rewrite bool_decide_eq_true_2 by lia. unfold len. simpl. lia.
  - destruct (Out x); [done|]. by rewrite bool_decide_eq_false_2 by (intros ?; apply Hr; split; [done|lia]).
Qed.
Definition topRow ms : Z * Z := match last ms with Some x => (ID x, Date x) | None => (0, 0) end.
Lemma topOf_last p ms : StronglySorted Z.lt (map ID ms) → (∀ x, x ∈ ms → 1 ≤ ID x) → topOf p ms = topRow (withPeer p ms).
Proof.
  induction ms as [|x ms IH] using rev_ind; intros HS H1; [done|]. rewrite map_app in HS. apply StronglySorted_app in HS as (HS & HSx & _).
  unfold topOf in *. rewrite foldl_app, IH; [|done|intros y Hy; apply H1, elem_of_app; by left]. unfold withPeer. rewrite filter_app, filter_cons, filter_nil. simpl.
  destruct (bool_decide_reflect (MPeer x = p)) as [E|E]; [rewrite (decide_True _ _ E)|rewrite (decide_False _ _ E), app_nil_r; done].
  assert (topRow (filter (λ x, MPeer x = p) ms ++ [x]) = (ID x, Date x)) as -> by (unfold topRow; by rewrite last_snoc).
  simpl. rewrite bool_decide_eq_true_2; [done|]. unfold topRow. destruct (last _) as [y|] eqn:Hl; simpl.
  - apply last_Some_elem_of, list_elem_of_filter in Hl as [_ Hy]. rewrite Z.gt_lt_iff. apply HS; [by apply list_elem_of_fmap_2|apply list_elem_of_here].
  - assert (1 ≤ ID x); [|lia]. apply H1, elem_of_app. right. apply list_elem_of_here.
Qed.
Lemma last_nonempty rows x : x ∈ rows → ∃ y, last rows = Some y.
Proof. intros Hx. destruct (last rows) as [y|] eqn:E; [by exists y|]. apply last_None in E as ->. by apply not_elem_of_nil in Hx. Qed.

(** ** Changes in place *)

Lemma withPeer_kept g p ms ms' : Forall2 (kept g) ms ms' → Forall2 (kept g) (withPeer p ms) (withPeer p ms').
Proof.
  unfold withPeer. induction 1 as [|x x' ms ms' HK HF IH]; [done|]. rewrite !filter_cons. assert (MPeer x' = MPeer x) as E by (by destruct HK as ([= _ _ _ ? _] & _)).
  destruct (decide (MPeer x = p)); [rewrite decide_True by congruence; by constructor|by rewrite decide_False by congruence].
Qed.
Lemma unread_kept g r ms ms' : Forall2 (kept g) ms ms' → len (unread r ms') = len (unread r ms).
Proof.
  unfold unread. induction 1 as [|x x' ms ms' HK HF IH]; [done|]. rewrite !filter_cons. destruct HK as ([= E1 _ _ _ _] & E2 & _).
  destruct (decide (Out x = false ∧ r < ID x)); [rewrite decide_True by (by rewrite E1, E2)|rewrite decide_False by (by rewrite E1, E2)]; [|done].
  unfold len in *. simpl. lia.
Qed.
Lemma DialogOK_kept g n rows rows' d : Forall2 (kept g) rows rows' → DialogOK n rows d → DialogOK n rows' d.
Proof.
  intros HF [(x & Hx & T1 & T2) U R]. split; [|by rewrite (unread_kept g _ rows)|done].
  rewrite last_lookup in Hx. destruct (Forall2_lookup_l _ _ _ _ _ HF Hx) as (x' & Hx' & ([= E1 _ _ _ E2] & _)). exists x'.
  rewrite last_lookup, <-(Forall2_length _ _ _ HF), Hx', E1, E2. done.
Qed.
Lemma DialogsOK_kept g n ms ms' ds : Forall2 (kept g) ms ms' → DialogsOK n ms ds → DialogsOK n ms' ds.
Proof.
  intros HF [H1 H2 H3]. split; [done|..].
  - intros d Hd. eapply DialogOK_kept; [by apply withPeer_kept|by apply H2].
  - intros x' [i Hx']%list_elem_of_lookup. destruct (Forall2_lookup_r _ _ _ _ _ HF Hx') as (x & Hx & ([= _ _ _ -> _] & _)). apply H3. by eapply list_elem_of_lookup_2.
Qed.
(** Rows change in place and every dialog list keeps its dialogs. *)
Lemma ListsOK_inplace g s s' :
  inplace g s s' → (∀ L', dialogs s' = Some L' → ∃ L, dialogs s = Some L ∧ ∀ u, Dialogs (listOf L' u) = Dialogs (listOf L u)) → ListsOK s → ListsOK s'.
Proof.
  unfold ListsOK. intros Hi HD HL. destruct (dialogs s') as [L'|]; [|done]. destruct (HD L' eq_refl) as (L & E & Hds). rewrite E in HL. intros u.
  rewrite Hds. unfold nextBoxOf. rewrite (ip_box _ _ _ Hi). eapply DialogsOK_kept; [apply (ip_rows _ _ _ Hi)|apply HL].
Qed.

(** ** A new row *)

Lemma withPeer_snoc p ms x : withPeer p (ms ++ [x]) = if decide (MPeer x = p) then withPeer p ms ++ [x] else withPeer p ms.
Proof. unfold withPeer. rewrite filter_app, filter_cons, filter_nil. case_decide; [done|by rewrite app_nil_r]. Qed.
Lemma unread_snoc r rows x : len (unread r (rows ++ [x])) = len (unread r rows) + if decide (Out x = false ∧ r < ID x) then 1 else 0.
Proof. unfold unread, len. rewrite filter_app, length_app, filter_cons, filter_nil. case_decide; simpl; lia. Qed.
Lemma DialogOK_mono n n' rows d : n ≤ n' → DialogOK n rows d → DialogOK n' rows d.
Proof. intros Hn [H1 H2 H3]. split; [done|done|lia]. Qed.

(** The counter the upsert is given. *)
Definition freshUnread ds (c : Z) ms x : Prop :=
  Out x = true ∧ c = 0 ∨
  Out x = false ∧ c = countUnread (MPeer x) (match List.find (λ d, bool_decide (DPeer d = MPeer x)) ds with Some d => ReadInboxMaxID d | None => 0 end) (ms ++ [x]).
Lemma upsertDialogs_peers ds d : map DPeer (upsertDialogs ds d) = if decide (DPeer d ∈ map DPeer ds) then map DPeer ds else map DPeer ds ++ [DPeer d].
Proof.
  induction ds as [|old ds IH]; [by rewrite decide_False by apply not_elem_of_nil|]. cbn [upsertDialogs map]. destruct (bool_decide_reflect (DPeer old = DPeer d)) as [E|E]; cbn [map].
  - rewrite decide_True; [by rewrite E|]. rewrite E. apply list_elem_of_here.
  - rewrite IH. case_decide as Hd; [by rewrite decide_True by (by apply list_elem_of_further)|]. rewrite decide_False; [done|]. intros [?|?]%elem_of_cons; congruence.
Qed.
Lemma elem_of_upsert ds d e : NoDup (map DPeer ds) → e ∈ upsertDialogs ds d →
  (e ∈ ds ∧ DPeer e ≠ DPeer d) ∨
  (e = d ∧ DPeer d ∉ map DPeer ds ∧ List.find (λ o, bool_decide (DPeer o = DPeer d)) ds = None) ∨
  (∃ old, e = mergeDialog old d ∧ old ∈ ds ∧ DPeer old = DPeer d ∧ List.find (λ o, bool_decide (DPeer o = DPeer d)) ds = Some old).
Proof.
  induction ds as [|old ds IH]; simpl; intros HN He.
  - apply list_elem_of_singleton in He as ->. right; left. by split_and!; [|apply not_elem_of_nil|].
  - apply NoDup_cons in HN as [Hni HN]. destruct (bool_decide_reflect (DPeer old = DPeer d)) as [E|E]; apply elem_of_cons in He as [->|He].
    + right; right. exists old. split_and!; [done|apply list_elem_of_here|done|done].
    + left. split; [by apply list_elem_of_further|]. intros E2. apply Hni. rewrite E, <-E2. by apply list_elem_of_fmap_2.
    + left. split; [apply list_elem_of_here|done].
    + destruct (IH HN He) as [[? ?]|[(? & ? & ?)|(o & ? & ? & ? & ?)]].
      * left. split; [by apply list_elem_of_further|done].
      * right; left. split_and!; [done| |done]. intros [?|?]%elem_of_cons; congruence.
      * right; right. exists o. split_and!; [done|by apply list_elem_of_further|done|done].
Qed.
Lemma upsert_ok n ms ds x c :
  DialogsOK n ms ds → 0 ≤ n → ID x = n + 1 → freshUnread ds c ms x →
  DialogsOK (n + 1) (ms ++ [x]) (upsertDialogs ds (newDialog (MPeer x) (ID x) (Date x) c)).
Proof.
  intros [H1 H2 H3] Hn HI Hc. set (nd := newDialog (MPeer x) (ID x) (Date x) c). split.
  - rewrite upsertDialogs_peers. case_decide as Hd; [done|]. apply NoDup_app. split_and!; [done| |apply NoDup_singleton].
    intros p Hp ->%list_elem_of_singleton. done.
  - intros e He. destruct (elem_of_upsert _ _ _ H1 He) as [[Hin Hp]|[(-> & Hni & Hf)|(old & -> & Hin & Hp & Hf)]].
    + rewrite withPeer_snoc, decide_False by (intros E; apply Hp; by rewrite <-E). apply (DialogOK_mono n); [lia|by apply H2].
    + change (DPeer nd) with (MPeer x) in *. rewrite withPeer_snoc, decide_True by done.
      assert (withPeer (MPeer x) ms = []) as E. { unfold withPeer. apply elem_of_nil_inv. intros y [Ey Hy]%list_elem_of_filter. apply Hni. rewrite <-Ey. by apply H3. }
      rewrite E. split; [by exists x| |simpl; lia]. destruct Hc as [[Ho ->]|[Ho Hc]]; simpl.
      * unfold unread. rewrite filter_cons_False by (by intros [? _]; congruence). done.
      * rewrite Hc, Hf, countUnread_len, withPeer_snoc, decide_True by done. by rewrite E.
    + change (DPeer nd) with (MPeer x) in *. destruct (H2 old Hin) as [_ U R]. rewrite Hp in U.
      change (DPeer (mergeDialog old nd)) with (MPeer x). rewrite withPeer_snoc, decide_True by done.
      split; [exists x; by rewrite last_snoc| |simpl; lia].
      assert (ReadInboxMaxID (mergeDialog old nd) = ReadInboxMaxID old) as -> by done.
      change (UnreadCount (mergeDialog old nd)) with (if bool_decide (c = 0) then UnreadCount old else c). rewrite unread_snoc.
      destruct Hc as [[Ho ->]|[Ho Hc]].
      * rewrite decide_False by (intros [? _]; congruence). simpl. lia.
      * rewrite Hf, countUnread_len, withPeer_snoc, decide_True, unread_snoc in Hc by done.
        rewrite decide_True in Hc |- * by (split; [done|lia]). pose proof (len_nonneg (unread (ReadInboxMaxID old) (withPeer (MPeer x) ms))).
        rewrite bool_decide_eq_false_2 by lia. done.
  - intros y Hy. rewrite upsertDialogs_peers. change (DPeer nd) with (MPeer x). apply elem_of_app in Hy as [Hy| ->%list_elem_of_singleton].
    + specialize (H3 y Hy). case_decide; [done|]. apply elem_of_app. by left.
    + case_decide; [done|]. apply elem_of_app. right. apply list_elem_of_here.
Qed.
Lemma DialogsOK_same n ms ds ds' :
  Forall2 (λ d d', DPeer d' = DPeer d ∧ TopMessage d' = TopMessage d ∧ TopMessageDate d' = TopMessageDate d ∧ UnreadCount d' = UnreadCount d ∧ ReadInboxMaxID d' = ReadInboxMaxID d) ds ds' →
  DialogsOK n ms ds → DialogsOK n ms ds'.
Proof.
  intros HF [H1 H2 H3]. assert (map DPeer ds' = map DPeer ds) as E by (clear -HF; induction HF as [|d d' ds ds' HR HF IH]; simpl; [done|destruct HR; congruence]).
  split; [by rewrite E| |by rewrite E]. intros d' [i Hi]%list_elem_of_lookup. destruct (Forall2_lookup_r _ _ _ _ _ HF Hi) as (d & Hd & E1 & E2 & E3 & E4 & E5).
  apply list_elem_of_lookup_2, H2 in Hd as [D1 D2 D3]. split; by rewrite ?E1, ?E2, ?E3, ?E4, ?E5.
Qed.
Lemma clearMark_ok n ms p ds : DialogsOK n ms ds → DialogsOK n ms (clearMark p ds).
Proof.
  apply DialogsOK_same. induction ds as [|d ds IH]; simpl; [done|]. destruct (bool_decide (DPeer d = p)); constructor; try done. clear. induction ds; by constructor.
Qed.

(** ** Sending *)

Lemma commit_dialogs (q : @SendPrivateTextRequest X) fp apply staged allocated sender recipient snapshot events s :
  let s' := commitPrivateSend q fp apply staged allocated sender recipient snapshot events s in
  dialogs s' = upsertMemoryDialogsLocked (m s') sender (if bool_decide (ID recipient ≠ 0) then recipient else sender) <$> dialogs s.
Proof.
  unfold commitPrivateSend. cbv zeta. destruct s as [? ? ? ? ? ? ? ? [L|] ? ? ? ?];
  destruct (bool_decide (ID recipient ≠ 0)), (bool_decide (SenderUserID q ≠ RecipientUserID q) && negb (RecipientBlocked q)), snapshot; reflexivity.
Qed.
Lemma boxOf_m s u : default [] (m s !! u) = boxOf s u.
Proof. done. Qed.

(** The lists of both sides after a send, given the rows it added. *)
Lemma upsertLists_ok s1 s' q sender recipient (L : gmap Z (DialogList X)) :
  (∀ u, DialogsOK (nextBoxOf s1 u) (boxOf s1 u) (Dialogs (listOf L u))) → (∀ u, 0 ≤ nextBoxOf s1 u) →
  (∀ u, boxOf s' u = boxOf s1 u ++ sentRows q sender recipient u) →
  (∀ u, nextBoxOf s' u = match sentRows q sender recipient u with [] => nextBoxOf s1 u | x :: _ => ID x end) →
  OwnerUserID sender = SenderUserID q → ID sender = nextBoxOf s1 (SenderUserID q) + 1 → Out sender = true →
  (SenderUserID q = RecipientUserID q ∧ recipient = sender ∨ SenderUserID q ≠ RecipientUserID q ∧ recipient = noMessage ∨
   SenderUserID q ≠ RecipientUserID q ∧ OwnerUserID recipient = RecipientUserID q ∧ ID recipient = nextBoxOf s1 (RecipientUserID q) + 1 ∧ Out recipient = false) →
  let L' := upsertMemoryDialogsLocked (m s') sender (if bool_decide (ID recipient ≠ 0) then recipient else sender) L in
  ∀ u, DialogsOK (nextBoxOf s' u) (boxOf s' u) (Dialogs (listOf L' u)).
Proof.
  intros HL Hn HB HN HO HI HOut Hc. cbv zeta. unfold upsertMemoryDialogsLocked. rewrite HO.
  set (L1 := <[SenderUserID q := _]> L).
  assert (H1 : ∀ u, u = SenderUserID q → DialogsOK (nextBoxOf s' u) (boxOf s' u) (Dialogs (listOf L1 u))).
  { intros u ->. unfold L1. rewrite listOf_insert, decide_True by done. simpl. apply clearMark_ok. rewrite HN, HB. unfold sentRows. rewrite decide_True by done. rewrite HI at 1.
    apply upsert_ok; [apply HL|apply Hn|done|by left]. }
  assert (H2 : ∀ u, u ≠ SenderUserID q → u ≠ RecipientUserID q ∨ ID recipient = 0 → DialogsOK (nextBoxOf s' u) (boxOf s' u) (Dialogs (listOf L1 u))).
  { intros u Hu Hr. unfold L1. rewrite listOf_insert, decide_False by done. rewrite HN, HB. unfold sentRows. rewrite !decide_False by (done || (intros []; tauto)). rewrite app_nil_r. apply HL. }
  destruct Hc as [[Es ->]|[[Es ->]|(Es & HR & HIr & Hor)]].
  - assert ((if bool_decide (ID sender ≠ 0) then sender else sender) = sender) as -> by (by destruct (bool_decide _)). rewrite HO, bool_decide_eq_false_2 by tauto.
    intros u. destruct (decide (u = SenderUserID q)); [by apply H1|apply H2; [done|left; congruence]].
  - rewrite (bool_decide_eq_false_2 (ID noMessage ≠ 0)) by (intros []; done). rewrite HO, bool_decide_eq_false_2 by tauto.
    intros u. destruct (decide (u = SenderUserID q)); [by apply H1|apply H2; [done|by right]].
  - pose proof (Hn (RecipientUserID q)) as Hn0. rewrite (bool_decide_eq_true_2 (ID recipient ≠ 0)) by lia. rewrite HR, bool_decide_eq_true_2 by congruence.
    set (c := privateUnreadCountLocked _ _ _ _). intros u. rewrite listOf_insert. case_decide as Eu; [|destruct (decide (u = SenderUserID q)); [by apply H1|apply H2; [done|by left]]].
    subst u. simpl. assert (listOf L1 (RecipientUserID q) = listOf L (RecipientUserID q)) as E1 by (unfold L1; by rewrite listOf_insert, decide_False by congruence).
    assert (sentRows q sender recipient (RecipientUserID q) = [recipient]) as ER by (unfold sentRows; rewrite decide_False by congruence; rewrite decide_True by (split; [done|lia]); done).
    rewrite E1, HN, HB, ER. rewrite HIr at 1.
    apply upsert_ok; [apply HL|apply Hn|done|]. right. split; [done|]. unfold c, privateUnreadCountLocked. by rewrite E1, boxOf_m, HB, ER.
Qed.
Lemma fresh_lists now q fp prefix s s' sender recipient :
  WF s → prefixOK s prefix → fresh_send C now q fp prefix s s' sender recipient → ListsOK s → ListsOK s'.
Proof.
  intros HW Hp HF HL. destruct (fresh_boxes C _ _ _ _ _ _ _ _ HW HF) as (_ & B2 & B3). destruct (fresh_copies C _ _ _ _ _ _ _ _ HW HF) as (HO & HI & _ & _ & Hc).
  assert (Out sender = true ∧ dialogs s' = upsertMemoryDialogsLocked (m s') sender (if bool_decide (ID recipient ≠ 0) then recipient else sender) <$> dialogs s) as [Hout HD].
  { destruct HF as [_ (events & al0 & al & staged & sr & rr & pts & snap & _ & _ & _ & _ & -> & _ & _ & ->)]. split; [done|apply commit_dialogs]. }
  set (s1 := put_m (match prefix with Some p => prefixApply p (m s) | None => m s end) s).
  assert (ListsOK s1) as HL1.
  { apply (ListsOK_inplace (λ x, x) s); [|intros L HLs; by exists L|done]. apply pinned_inplace; [done|done|done|]. destruct prefix; [exact Hp|apply pinned_only_refl]. }
  unfold ListsOK in *. change (dialogs s1) with (dialogs s) in HL1. rewrite HD. destruct (dialogs s) as [L|]; [|done]. simpl.
  apply (upsertLists_ok s1 s' q); [done|apply (wf_next _ HW)|done|done|done|done|done|].
  destruct Hc as [[? ?]|[(? & _ & ?)|(? & _ & ? & ? & _ & _ & _ & _ & ?)]]; [by left|by right; left|by right; right].
Qed.

(** ** Deleting *)

(** The dialogs of the peers in [St] are out of date. *)
Record Partly (St : Peer → Prop) (n : Z) ms ds : Prop := {
  pt_peers : NoDup (map DPeer ds);
  pt_ok d : d ∈ ds → ¬ St (DPeer d) → DialogOK n (withPeer (DPeer d) ms) d;
  pt_read d : d ∈ ds → 0 ≤ ReadInboxMaxID d ≤ n;
  pt_all x : x ∈ ms → MPeer x ∈ map DPeer ds;
}.
Lemma DialogsOK_Partly (St : Peer → Prop) n ms ms' ds :
  (∀ p, ¬ St p → withPeer p ms' = withPeer p ms) → (∀ x, x ∈ ms' → MPeer x ∈ map MPeer ms) → DialogsOK n ms ds → Partly St n ms' ds.
Proof.
  intros HE HM [H1 H2 H3]. split; [done|..].
  - intros d Hd Hs. rewrite HE by done. by apply H2.
  - intros d Hd. apply (H2 d Hd).
  - intros x Hx. apply HM, list_elem_of_fmap in Hx as (y & -> & Hy). by apply H3.
Qed.
Lemma Partly_done n ms ds : Partly (λ _, False) n ms ds → DialogsOK n ms ds.
Proof. intros [H1 H2 _ H4]. split; [done| |done]. intros d Hd. apply H2; [done|tauto]. Qed.

Lemma rebuildDialogs_other p ms k ds : p ∉ map DPeer ds → rebuildDialogs p ms k ds = ds.
Proof.
  revert k. induction ds as [|d ds IH]; intros k Hp; [done|]. simpl in *. rewrite bool_decide_eq_false_2 by (intros E; apply Hp; rewrite E; apply list_elem_of_here).
  simpl. f_equal. apply IH. intros ?. apply Hp. by apply list_elem_of_further.
Qed.
Lemma rebuildDialogs_spec p ms ds e : NoDup (map DPeer ds) → e ∈ rebuildDialogs p ms 0 ds →
  (e ∈ ds ∧ DPeer e ≠ p) ∨
  (DPeer e = p ∧ (topOf p ms).1 ≠ 0 ∧ TopMessage e = (topOf p ms).1 ∧ TopMessageDate e = (topOf p ms).2 ∧
    UnreadCount e = countUnread p (ReadInboxMaxID e) ms ∧ ∃ d, d ∈ ds ∧ ReadInboxMaxID e = ReadInboxMaxID d).
Proof.
  induction ds as [|d ds IH]; simpl; intros HN He; [by apply not_elem_of_nil in He|]. apply NoDup_cons in HN as [Hni HN].
  destruct (bool_decide_reflect (DPeer d = p)) as [E|E]; simpl in He.
  - rewrite !rebuildDialogs_other in He by (by rewrite <-E).
    assert (He' : e ∈ ds → e ∈ d :: ds ∧ DPeer e ≠ p) by (intros Hin; split; [by apply list_elem_of_further|intros E2; apply Hni; rewrite E, <-E2; by apply list_elem_of_fmap_2]).
    destruct (bool_decide_reflect ((topOf p ms).1 = 0)); [by left; apply He'|]. apply elem_of_cons in He as [->|He]; [|by left; apply He'].
    right. split_and!; try done. exists d. split; [apply list_elem_of_here|done].
  - apply elem_of_cons in He as [->|He]; [left; split; [apply list_elem_of_here|done]|]. destruct (IH HN He) as [[? ?]|(? & ? & ? & ? & ? & d' & ? & ?)].
    + left. split; [by apply list_elem_of_further|done].
    + right. split_and!; try done. exists d'. split; [by apply list_elem_of_further|done].
Qed.
Lemma rebuildDialogs_peers p ms k ds :
  map DPeer (rebuildDialogs p ms k ds) = if decide ((topOf p ms).1 = 0) then filter (λ q, q ≠ p) (map DPeer ds) else map DPeer ds.
Proof.
  revert k. induction ds as [|d ds IH]; intros k; [by destruct (decide _)|]. cbn [rebuildDialogs map].
  destruct (bool_decide_reflect (DPeer d = p)) as [E|E]; cbn [negb].
  - case_decide as Ht; [rewrite bool_decide_eq_true_2 by done; rewrite IH; by rewrite filter_cons_False by tauto|].
    rewrite bool_decide_eq_false_2 by done. cbn [map]. by rewrite IH.
  - cbn [map]. rewrite IH. case_decide; [by rewrite filter_cons_True|done].
Qed.
Lemma topRow_zero rows : (∀ x, x ∈ rows → 1 ≤ ID x) → (topRow rows).1 = 0 → rows = [].
Proof. unfold topRow. intros H. destruct (last rows) as [x|] eqn:E; [|by intros _; apply last_None]. apply last_Some_elem_of, H in E. simpl. lia. Qed.
Lemma rebuild_Partly St n k u p ms ds :
  BoxOK u n k ms → Partly St n ms ds → Partly (λ q, St q ∧ q ≠ p) n ms (rebuildDialogs p ms 0 ds).
Proof.
  intros HB [H1 H2 H3 H4]. assert (Hpos : ∀ x, x ∈ ms → 1 ≤ ID x) by (intros x Hx; destruct (box_rows _ _ _ _ HB x Hx) as (_ & ? & _); lia).
  pose proof (topOf_last p ms (box_sorted _ _ _ _ HB) Hpos) as HT. split.
  - rewrite rebuildDialogs_peers. case_decide; [by apply NoDup_filter|done].
  - intros e He HS. destruct (rebuildDialogs_spec _ _ _ _ H1 He) as [[Hin Hp]|(<- & T0 & T1 & T2 & U & d & Hd & R)]; [apply H2; [done|tauto]|].
    split; [|by rewrite U, countUnread_len|rewrite R; by apply H3]. rewrite T1, T2, HT. rewrite HT in T0. unfold topRow in *. destruct (last _) as [x|]; [by exists x|done].
  - intros e He. destruct (rebuildDialogs_spec _ _ _ _ H1 He) as [[Hin _]|(_ & _ & _ & _ & _ & d & Hd & ->)]; by apply H3.
  - intros x Hx. rewrite rebuildDialogs_peers. specialize (H4 x Hx). case_decide as Ht; [|done]. apply list_elem_of_filter. split; [|done].
    intros E. rewrite HT in Ht. apply topRow_zero in Ht; [|intros y [_ Hy]%list_elem_of_filter; by apply Hpos].
    assert (x ∈ withPeer p ms) as Hw by (by apply list_elem_of_filter). rewrite Ht in Hw. by apply not_elem_of_nil in Hw.
Qed.
Lemma Partly_mono (St St' : Peer → Prop) n ms ds : (∀ p, St p → St' p) → Partly St n ms ds → Partly St' n ms ds.
Proof. intros HS [H1 H2 H3 H4]. split; [done| |done|done]. intros d Hd Hn. apply H2; [done|]. intros ?. by apply Hn, HS. Qed.
Lemma rebuildAll_ok n k u ms (ps : list Peer) (l : DialogList X) :
  BoxOK u n k ms → Partly (λ p, p ∈ ps) n ms (Dialogs l) → DialogsOK n ms (Dialogs (foldl (λ l p, rebuildMemoryDialogLocked ms p l) l ps)).
Proof.
  intros HB. revert l. induction ps as [|p ps IH]; intros l HP; simpl.
  - apply Partly_done. revert HP. apply Partly_mono. intros p. apply not_elem_of_nil.
  - apply IH. apply (rebuild_Partly _ _ _ _ p _ _ HB) in HP. revert HP. apply Partly_mono. intros q [[?|?]%elem_of_cons ?]; done.
Qed.
Lemma advance_ok n ms (p : Peer) (maxID : Z) ds :
  DialogsOK n ms ds → maxID ≤ n → (∀ y, y ∈ ms → MPeer y = p → ID y ≤ maxID) → DialogsOK n ms (advanceDialogs p maxID ds).
Proof.
  intros [H1 H2 H3] Hn Hy. assert (Hp : map DPeer (advanceDialogs p maxID ds) = map DPeer ds).
  { clear. induction ds as [|d ds IH]; simpl; [done|]. destruct (bool_decide (DPeer d = p)); simpl; [by destruct (bool_decide _)|by rewrite IH]. }
  split; [by rewrite Hp| |by rewrite Hp]. intros e He.
  assert (e ∈ ds ∨ ∃ d, d ∈ ds ∧ DPeer d = p ∧ DPeer e = p ∧ TopMessage e = TopMessage d ∧ TopMessageDate e = TopMessageDate d ∧ UnreadCount e = 0 ∧
    (ReadInboxMaxID e = ReadInboxMaxID d ∨ ReadInboxMaxID e = maxID) ∧ ReadInboxMaxID d ≤ ReadInboxMaxID e ∧ maxID ≤ ReadInboxMaxID e) as [Hin|(d & Hd & E & E0 & E1 & E2 & E3 & E4 & E5 & E6)].
  { clear -He. induction ds as [|d ds IH]; simpl in He; [by left|]. destruct (bool_decide_reflect (DPeer d = p)) as [E|E]; apply elem_of_cons in He as [->|He].
    - right. exists d. split; [apply list_elem_of_here|]. destruct (bool_decide_reflect (ReadInboxMaxID d < maxID)); simpl; split_and!; (done || lia || auto).
    - left. by apply list_elem_of_further.
    - left. apply list_elem_of_here.
    - destruct (IH He) as [?|(d' & ? & ?)]; [left; by apply list_elem_of_further|right; exists d'; split; [by apply list_elem_of_further|done]]. }
  { by apply H2. }
  destruct (H2 d Hd) as [T _ R]. rewrite E in T. rewrite E0. split; [by rewrite E1, E2| |destruct E4; lia].
  rewrite E3. assert (unread (ReadInboxMaxID e) (withPeer p ms) = []) as ->; [|done]. apply elem_of_nil_inv. intros y [[_ Hlt] [Hpy Hin]%list_elem_of_filter]%list_elem_of_filter.
  specialize (Hy y Hin Hpy). lia.
Qed.
End dialogs.
End MailDialogs.
