(* ===== verification/MailDialogSteps.v ===== *)
(** * Private messages: the dialog list in every run *)

From stdpp Require Import sorting.
From S2P Require Import Prelude UpdateTypes UpdateStore MailTypes MailStore MailOps MailInv MailBoxes MailSteps MailWorld MailReplay MailDialogs.
Import Mail MailStore MailOps MailInv MailBoxes MailSteps MailWorld MailReplay MailDialogs.

Module MailDialogSteps.
Section steps.
Context {X : Type} `{EqX : EqDecision X} `{InhX : Inhabited X} (C : @Codec X).
Abbreviation message := (Message X).
Abbreviation store := (@MessageStore X).
Implicit Types (x y : message) (s : store) (u v : Z) (ms : list message) (rows : list deletedMemoryMessage) (p : Peer) (d : Dialog X) (ds : list (Dialog X)).

(** ** Deletions *)

Lemma filter_sublist_eq (P : message → Prop) `{!∀ x, Decision (P x)} ms ms' :
  ms' `sublist_of` ms → NoDup ms → (∀ x, x ∈ ms → P x → x ∈ ms') → filter P ms' = filter P ms.
Proof.
  induction 1 as [|x ms' ms Hs IH|x ms' ms Hs IH]; intros HN HP; [done|..]; apply NoDup_cons in HN as [Hni HN]; rewrite !filter_cons.
  - rewrite IH; [done|done|]. intros y Hy Hpy. specialize (HP y (list_elem_of_further _ _ _ Hy) Hpy). apply elem_of_cons in HP as [->|?]; done.
  - assert (x ∉ ms') as Hx. { intros Hx. apply Hni. by eapply elem_of_submseteq; [|apply sublist_submseteq]. }
    rewrite decide_False by (intros Hp; apply Hx, HP; [apply list_elem_of_here|done]). apply IH; [done|]. intros y Hy. apply HP. by apply list_elem_of_further.
Qed.
Lemma box_NoDup u n k ms : BoxOK u n k ms → NoDup ms.
Proof. intros [_ H _]. by eapply NoDup_fmap_1. Qed.
Lemma replaceRow_peer id p x q ms : MPeer x = p → q ≠ p → withPeer q (replaceRow id p x ms) = withPeer q ms.
Proof.
  intros Hx Hq. unfold withPeer. induction ms as [|y ms IH]; [done|]. cbn [replaceRow]. destruct (bool_decide_reflect (ID y = id)), (bool_decide_reflect (MPeer y = p)); cbn [andb];
    rewrite !filter_cons; [by rewrite !decide_False by congruence|by rewrite IH..].
Qed.
Lemma replaceRow_peers id p x ms : MPeer x = p → map MPeer (replaceRow id p x ms) = map MPeer ms.
Proof.
  intros Hx. induction ms as [|y ms IH]; [done|]. simpl. destruct (bool_decide_reflect (ID y = id)), (bool_decide_reflect (MPeer y = p)); simpl; congruence.
Qed.
Lemma elem_of_replaceRow id p x y ms : ID x = id → MPeer x = p → y ∈ replaceRow id p x ms → ∃ z, z ∈ ms ∧ ID y = ID z ∧ MPeer y = MPeer z.
Proof.
  intros Hi Hp. induction ms as [|z ms IH]; simpl; [by intros ?%not_elem_of_nil|].
  assert (Hms : y ∈ ms → ∃ z0, z0 ∈ z :: ms ∧ ID y = ID z0 ∧ MPeer y = MPeer z0) by (intros Hy; exists y; split; [by apply list_elem_of_further|done]).
  destruct (bool_decide_reflect (ID z = id)), (bool_decide_reflect (MPeer z = p)); simpl; intros [->|Hy]%elem_of_cons;
    try (by apply Hms); try (exists z; split; [apply list_elem_of_here|split; congruence]); destruct (IH Hy) as (w & ? & ?); exists w; (split; [by apply list_elem_of_further|done]).
Qed.

(** The peers of account [u] that a deletion changes. *)
Definition touched (rows : list deletedMemoryMessage) (anchors : gmap Z (@memoryHistoryClearAnchor X)) u (p : Peer) : Prop :=
  (∃ r, r ∈ rows ∧ del_userID r = u ∧ del_peer r = p) ∨ ∃ a, freshAnchor (anchors !! u) = Some a ∧ MPeer a = p.
Lemma touched_peersOf rows (anchors : gmap Z (@memoryHistoryClearAnchor X)) u p : touched rows anchors u p → p ∈ peersOf u rows (anchors !! u).
Proof.
  intros H. unfold peersOf. rewrite elem_of_remove_dups, elem_of_app. destruct H as [(r & Hr & Hu & <-)|(a & Ha & <-)].
  - left. apply list_elem_of_fmap_2, list_elem_of_filter. done.
  - right. destruct (freshAnchor_Some _ _ _ Ha) as (b & -> & ->). apply list_elem_of_here.
Qed.
Lemma clearedBox_peers u pts (a : option message) ms : map MPeer (clearedBox u pts a ms) = map MPeer ms.
Proof. destruct a as [a|]; [|done]. by apply replaceRow_peers. Qed.
Lemma untouched s s1 s' rows date anchors u p :
  WF s → removed s s1 rows → deletion rows date anchors s1 s' → ¬ touched rows anchors u p → withPeer p (boxOf s' u) = withPeer p (boxOf s u).
Proof.
  intros HW HR HD HT. transitivity (withPeer p (boxOf s1 u)).
  - rewrite (dl_box _ _ _ _ _ HD). unfold clearedBox. destruct (freshAnchor (anchors !! u)) as [a|] eqn:Ha; [|done].
    apply replaceRow_peer; [done|]. intros ->. apply HT. right. by exists a.
  - apply filter_sublist_eq; [apply (rm_sub _ _ _ HR)|by eapply box_NoDup, (wf_box _ HW)|]. intros x Hx Hp. destruct (rm_gone _ _ _ HR u x Hx) as [?|Hrow]; [done|].
    destruct HT. left. by exists (deletedRow u x).
Qed.
Lemma spent_untouched s s1 rows anchors u p :
  WF s → nextBoxOf s u ≤ MaxMessageBoxID → removed s s1 rows → spentPts u rows anchors = 0 → ¬ touched rows anchors u p.
Proof.
  intros HW Hmax HR. unfold spentPts. pose proof (len_nonneg (deletedIDs u rows)) as Hlen. intros Hz [(r & Hr & Hu & _)|(a & Ha & _)]; [|rewrite Ha in Hz; lia].
  destruct (rm_row _ _ _ HR r Hr) as (x & Hx & Er). rewrite Hu in Hx. destruct (box_rows _ _ _ _ (wf_box _ HW u) x Hx) as (_ & HI & _).
  assert (del_id r ∈ deletedIDs u rows) as Hin by (apply elem_of_deletedIDs; [done|done|rewrite Er; simpl; lia]).
  assert (deletedIDs u rows = []) as E by (apply len_zero; destruct (freshAnchor _); lia). rewrite E in Hin. by apply not_elem_of_nil in Hin.
Qed.
Lemma deletes_lists s s' rows anchors :
  WF s → WF s' → (∀ u, nextBoxOf s u ≤ MaxMessageBoxID) → deletes s s' rows anchors → ListsOK s → ListsOK s'.
Proof.
  intros HW HW' Hmax (date & s1 & HR & HA & HD) HL. unfold ListsOK in *. pose proof (dl_dialogs _ _ _ _ _ HD) as Hd. rewrite (sr_dialogs _ _ (rm_rest _ _ _ HR)) in Hd.
  destruct (dialogs s) as [L|]; [|by rewrite Hd]. destruct Hd as (L' & -> & Hd). intros u. rewrite Hd.
  assert (Hn : nextBoxOf s' u = nextBoxOf s u) by (unfold nextBoxOf; by rewrite (dl_next _ _ _ _ _ HD), (sr_box _ _ (rm_rest _ _ _ HR))).
  assert (Hpeer : ∀ x, x ∈ boxOf s' u → MPeer x ∈ map MPeer (boxOf s u)).
  { intros x Hx. apply (list_elem_of_fmap_2 MPeer) in Hx. rewrite (dl_box _ _ _ _ _ HD) in Hx. change (MPeer <$> _) with (map MPeer (clearedBox u (nextPtsOf s' u) (freshAnchor (anchors !! u)) (boxOf s1 u))) in Hx.
    rewrite clearedBox_peers in Hx. eapply elem_of_submseteq; [exact Hx|]. apply sublist_submseteq, sublist_map, (rm_sub _ _ _ HR). }
  assert (HP : Partly (touched rows anchors u) (nextBoxOf s' u) (boxOf s' u) (Dialogs (listOf L u))).
  { rewrite Hn. eapply DialogsOK_Partly; [|exact Hpeer|apply HL]. intros p. by eapply untouched. }
  case_decide as Hz.
  - apply Partly_done. revert HP. apply Partly_mono. intros p. exact (spent_untouched s s1 rows anchors u p HW (Hmax u) HR Hz).
  - pose proof (wf_box _ HW' u) as HB. assert (HP2 : Partly (λ p, p ∈ peersOf u rows (anchors !! u)) (nextBoxOf s' u) (boxOf s' u) (Dialogs (listOf L u))).
    { revert HP. apply Partly_mono. intros p. apply touched_peersOf. }
    apply (rebuildAll_ok _ _ _ _ _ _ HB) in HP2. unfold clearedList. destruct (freshAnchor (anchors !! u)) as [a|] eqn:Ha; [|done].
    destruct (HA u a Ha) as [Hin Hmx]. apply advance_ok; [done|..].
    + rewrite Hn. destruct (box_rows _ _ _ _ (wf_box _ HW u) a) as (_ & ? & _); [|lia]. eapply elem_of_submseteq; [exact Hin|]. apply sublist_submseteq, (rm_sub _ _ _ HR).
    + intros y Hy Hp. rewrite (dl_box _ _ _ _ _ HD), Ha in Hy. cbn [clearedBox] in Hy.
      destruct (elem_of_replaceRow (ID a) (MPeer a) (clearedRow u (nextPtsOf s' u) a) y (boxOf s1 u) eq_refl eq_refl Hy) as (z & Hz1 & -> & E). apply Hmx; [done|congruence].
Qed.

(** ** Reading *)

Lemma insert_ok n ms ds (i : nat) d d' :
  DialogsOK n ms ds → ds !! i = Some d → DPeer d' = DPeer d → DialogOK n (withPeer (DPeer d) ms) d' → DialogsOK n ms (<[i := d']> ds).
Proof.
  intros [H1 H2 H3] Hi Hp Hd'. assert (map DPeer (<[i := d']> ds) = map DPeer ds) as E.
  { change (DPeer <$> <[i := d']> ds = DPeer <$> ds). rewrite list_fmap_insert, Hp. apply list_insert_id. by rewrite list_lookup_fmap, Hi. }
  split; [by rewrite E| |by rewrite E]. intros e [j Hj]%list_elem_of_lookup. destruct (decide (i = j)) as [->|Hne].
  - rewrite list_lookup_insert_eq in Hj by (by eapply lookup_lt_Some). injection Hj as <-. by rewrite Hp.
  - rewrite list_lookup_insert_ne in Hj by done. apply H2. by eapply list_elem_of_lookup_2.
Qed.
Lemma findDialog_Some p (l : DialogList X) i d : findDialog p l = Some (i, d) → Dialogs l !! i = Some d ∧ DPeer d = p.
Proof. intros (? & ? & _)%list_find_Some. done. Qed.
Lemma readOutbox_lists owner date latest L res s :
  dialogs s = Some L → ListsOK s → ListsOK (readOutbox owner date latest L res s).1.
Proof.
  intros HL HO. unfold readOutbox. destruct (_ || _ || _); [done|]. set (box := @findOr X _ _). destruct (bool_decide (ID box ≤ 0)); [done|].
  destruct (findDialog _ _) as [[j d]|] eqn:Hf; [|done]. destruct (bool_decide (ID box ≤ ReadOutboxMaxID d)); [done|]. apply findDialog_Some in Hf as [Hj Hp].
  unfold ListsOK in *. rewrite HL in HO. simpl. intros u. rewrite listOf_insert. unfold nextBoxOf, boxOf. simpl. case_decide as Eu; [subst u|apply HO].
  eapply insert_ok; [apply HO|done|done|]. apply list_elem_of_lookup_2, (ds_ok _ _ _ (HO _)) in Hj as [? ? ?]. by split.
Qed.
Lemma ReadHistory_lists now q s : WF s → ListsOK s → ListsOK (ReadHistory now q s).1.
Proof.
  intros HW HO. unfold ReadHistory. destruct (_ || _); [done|]. destruct (dialogs s) as [L|] eqn:HL; [|done]. set (owner := rh_OwnerUserID q).
  destruct (findDialog _ _) as [[i d]|] eqn:Hf; [|done]. apply findDialog_Some in Hf as [Hi Hp].
  assert (HOu : ∀ u, DialogsOK (nextBoxOf s u) (boxOf s u) (Dialogs (listOf L u))) by (unfold ListsOK in HO; by rewrite HL in HO).
  destruct (ds_ok _ _ _ (HOu owner) d (list_elem_of_lookup_2 _ _ _ Hi)) as [(x & Hx & T1 & T2) U R]. rewrite Hp in *.
  set (readMax := if bool_decide (_ > TopMessage d) then _ else _).
  assert (Hput : ∀ s1 d', nextBox s1 = nextBox s → m s1 = m s → dialogs s1 = Some (<[owner := putDialog i d' (listOf L owner)]> L) → DPeer d' = DPeer d →
    DialogOK (nextBoxOf s owner) (withPeer (DPeer d) (boxOf s owner)) d' → ListsOK s1).
  { intros s1 d' E1 E2 E3 E4 E5. unfold ListsOK, nextBoxOf, boxOf. rewrite E1, E2, E3. intros u. rewrite listOf_insert. case_decide as Eu; [subst u|apply HOu].
    apply (insert_ok _ _ _ _ d); [apply HOu|done|done|exact E5]. }
  rewrite Hp in Hput. destruct (bool_decide_reflect (readMax ≤ ReadInboxMaxID d)) as [Hle|Hgt].
  - destruct (bool_decide (UnreadCount d > 0)); [|done]. cbn [fst]. eapply Hput; [done|done|reflexivity|done|].
    split; [by exists x|simpl; apply countUnread_len|done].
  - cbn [nextPtsLocked]. set (s1 := put_dialogs _ _). set (L1 := <[_ := _]> L). set (latest := latestIncoming _ _ _ _). set (res := mkReadResult _ _ _ _ _ _ _).
    apply readOutbox_lists; [done|]. eapply Hput; [done|done|reflexivity|done|]. split; [by exists x|simpl; apply countUnread_len|]. simpl.
    assert (readMax ≤ TopMessage d) by (unfold readMax; case_bool_decide; lia). split; [lia|]. transitivity (ID x); [lia|].
    apply last_Some_elem_of, list_elem_of_filter in Hx as [_ Hx]. by destruct (box_rows _ _ _ _ (wf_box _ HW owner) x Hx) as (_ & [_ ?] & _).
Qed.

(** ** Runs *)

(** The steps that keep dialogs and rows together: [Create] adds a row without
    its dialog, and other components write the dialog list. *)
Definition internal (o : @op X) : bool := match o with OpCreate _ _ | OpDialogs _ => false | _ => true end.
Lemma internal_all (os : list (@op X)) : (∀ premiumBot x, OpCreate premiumBot x ∉ os) → (∀ L, OpDialogs L ∉ os) → forallb internal os = true.
Proof. intros Hc Hd. apply forallb_forall. intros o Ho%list_elem_of_In. destruct o; try done; [by destruct (Hc premiumBot x)|by destruct (Hd ds)]. Qed.
Lemma EditMessage_dialogs now q s L' :
  dialogs (EditMessage now q s).1 = Some L' → ∃ L, dialogs s = Some L ∧ ∀ u, Dialogs (listOf L' u) = Dialogs (listOf L u).
Proof.
  unfold EditMessage. destruct (_ || _ || _ || _); [by exists L'|]. destruct (List.find _ _) as [target|]; [|by exists L']. destruct (editAllowed q target); [by exists L'|].
  cbn [fst dialogs put_nextPts put_m]. destruct (dialogs s) as [L|] eqn:E; cbn [dialogs put_dialogs put_nextPts put_m]; [|congruence]. intros [= <-]. exists L. split; [done|].
  intros u. unfold listOf. rewrite map_lookup_imap. by destruct (L !! u).
Qed.
Lemma exec_lists o s :
  internal o = true → WF s → (∀ u, nextBoxOf s u ≤ MaxMessageBoxID) → ListsOK s → ListsOK (exec C o s).
Proof.
  intros Ho HW Hmax HL. destruct (growing o) eqn:Hg.
  - destruct (exec_growing C o s Hg) as [->|[(premiumBot & x & ->)|[[Hi Hd]|(now & q & fp & prefix & Hp & ->)]]]; [done|done|..].
    + eapply ListsOK_inplace; [done| |done]. intros L E. exists L. by rewrite <-Hd.
    + pose proof (send_cases C now q fp prefix s) as H. destruct (sendPrivateTextLocked C now q fp prefix s) as [s' r]. simpl.
      destruct H as [[-> _]|(sender & recipient & HF & _)]; [done|]. by eapply fresh_lists.
  - destruct (deleting o) eqn:Hd.
    + pose proof (exec_WF C o s HW) as HW'. destruct (exec_deletes C o s Hd) as [->|(rows & anchors & H & _)]; [done|]. exact (deletes_lists s _ rows anchors HW HW' Hmax H HL).
    + destruct o; try done.
      * destruct (EditMessage_inplace now q s) as [E|(date & uid & sender & Hs)]; [simpl; by rewrite E|]. eapply ListsOK_inplace; [done|apply EditMessage_dialogs|done].
      * by apply ReadHistory_lists.
      * destruct (UnpinAll_spec now q s) as (? & ? & ? & Hds & ?). eapply ListsOK_inplace; [by apply pinned_inplace| |done]. intros L E. exists L. split; [|done]. by rewrite <-Hds.
      * simpl. unfold ReserveAlbumGroup. destruct (validateAlbum r); [done|]. by destruct (existingGroup _ _ _ _).
      * eapply ListsOK_inplace; [apply markNoForwardsRequestExpired_inplace| |done]. intros L E. by exists L.
Qed.
Lemma runs_lists os s :
  WF s → ListsOK s → forallb internal os = true → (∀ u, nextBoxOf (runs C os s) u ≤ MaxMessageBoxID) → ListsOK (runs C os s).
Proof.
  revert s. induction os as [|o os IH]; intros s HW HL Ho Hmax; [done|]. simpl in *. apply andb_true_iff in Ho as [Ho Hos].
  apply IH; [by apply exec_WF| |done|done]. apply exec_lists; [done|done| |done]. intros u. etrans; [by apply exec_nextBox|]. etrans; [|apply (Hmax u)]. by apply runs_nextBox, exec_WF.
Qed.
End steps.
End MailDialogSteps.
