(* ===== verification/MailProps.v ===== *)
(** * Private messages: properties *)

From stdpp Require Import sorting.
From S2P Require Import Prelude UpdateTypes UpdateStore MailTypes MailStore MailOps MailInv MailBoxes MailSteps MailWorld MailReplay MailDialogs MailDialogSteps.
Import Mail MailStore MailOps MailInv MailBoxes MailSteps MailWorld MailReplay MailDialogs MailDialogSteps.

Module MailProps.
Section props.
Context {X : Type} `{EqX : EqDecision X} `{InhX : Inhabited X} (C : @Codec X).
Abbreviation message := (Message X).
Abbreviation event := (UpdateEvent message).
Abbreviation store := (@MessageStore X).
Implicit Types (x y : message) (s : store) (u v : Z).

(** The state after some requests. *)
Definition reached ds (os : list (@op X)) : store := runs C os (NewMessageStore ds).
Lemma reached_WF ds os : WF (reached ds os).
Proof. apply runs_WF, NewMessageStore_WF. Qed.
Definition noClears (os : list (@op X)) : bool := forallb (λ o, negb (clears o)) os.

(** C27: in every reachable state the ids of a box ascend from 1, no message has
    two copies in one box, and two copies in different boxes name each other and
    bear the same date.  They have the same content (author, random id, text,
    entities, media, flags, forward header, keyboard, rich text and edit marks)
    as long as neither account clears its history with the other.  Clearing is
    one-sided: it makes the newest row of one box a marker, and then copies
    differ only where one of them is such a row, which has random id 0 and no
    header of a send. *)
Theorem mail_boxes_agree ds os u :
  let s := reached ds os in
  StronglySorted Z.lt (map ID (boxOf s u)) ∧ NoDup (map UID (boxOf s u)) ∧
  ∀ x, x ∈ boxOf s u → OwnerUserID x = u ∧ 1 ≤ ID x ≤ nextBoxOf s u ∧ 1 ≤ UID x < nextUID s ∧
    ∀ v y, y ∈ boxOf s v → v ≠ u → UID y = UID x →
      MPeer x = user v ∧ MPeer y = user u ∧ Date y = Date x ∧
      let same :=
        From y = From x ∧ RandomID y = RandomID x ∧ Body y = Body x ∧ Entities y = Entities x ∧ Media y = Media x ∧
        Silent y = Silent x ∧ NoForwards y = NoForwards x ∧ Forward y = Forward x ∧ ViaBotID y = ViaBotID x ∧ GroupedID y = GroupedID x ∧
        Effect y = Effect x ∧ ReplyMarkup y = ReplyMarkup x ∧ RichMessage y = RichMessage x ∧ EditDate y = EditDate x ∧ HideEdited y = HideEdited x in
      (forallb (λ o, negb (clearsChat u v o)) os = true → same) ∧ (same ∨ marker x ∨ marker y).
Proof.
  cbv zeta. pose proof (reached_WF ds os) as HW. destruct HW as [_ _ HB HL]. destruct (HB u) as [H1 H2 H3]. split_and!; [done|done|]. intros x Hx. destruct (H3 x Hx) as (? & ? & ?).
  split_and!; try tauto. intros v y Hy Hne E. destruct (HL u v x y Hx Hy (not_eq_sym Hne) (eq_sym E)) as (? & ? & ? & HA).
  assert (Hsame : same_content x y → From y = From x ∧ RandomID y = RandomID x ∧ Body y = Body x ∧ Entities y = Entities x ∧ Media y = Media x ∧
    Silent y = Silent x ∧ NoForwards y = NoForwards x ∧ Forward y = Forward x ∧ ViaBotID y = ViaBotID x ∧ GroupedID y = GroupedID x ∧
    Effect y = Effect x ∧ ReplyMarkup y = ReplyMarkup x ∧ RichMessage y = RichMessage x ∧ EditDate y = EditDate x ∧ HideEdited y = HideEdited x).
  { intros (? & ? & ? & ? & ? & [= ? ? ? ? ? ? ? ? ? ?]). by split_and!. }
  split_and!; [done|done|done|intros Hc; apply Hsame|destruct HA as [?|?]; [left; by apply Hsame|by right]].
  eapply (runs_twins C os (NewMessageStore ds)); [apply NewMessageStore_WF|by apply not_eq_sym|done| |done|done|done]. by intros ? ? ?%not_elem_of_nil.
Qed.

(** C28: the dialog list agrees with the boxes after any sends, edits, deletions,
    history clears, reads, pins and content-protection switches: one dialog per
    peer, each peer with messages has one, its top message is the newest message
    with the peer, and its unread counter is the number of incoming messages
    above the read watermark.  Not among the requests are [Create], which adds a
    row and leaves the dialog to its caller (the login messages of the
    authentication service), and writes of the dialog list by other components. *)
Theorem dialogs_count os L u :
  let s := reached (Some ∅) os in
  (∀ premiumBot x, OpCreate premiumBot x ∉ os) → (∀ ds, OpDialogs ds ∉ os) →
  (∀ v, nextBoxOf s v ≤ MaxMessageBoxID) → dialogs s = Some L →
  let ds := Dialogs (listOf L u) in
  NoDup (map DPeer ds) ∧ (∀ x, x ∈ boxOf s u → MPeer x ∈ map DPeer ds) ∧
  ∀ d, d ∈ ds →
    (∃ x, last (filter (λ x, MPeer x = DPeer d) (boxOf s u)) = Some x ∧ TopMessage d = ID x ∧ TopMessageDate d = Date x) ∧
    UnreadCount d = len (filter (λ x, Out x = false ∧ ReadInboxMaxID d < ID x) (filter (λ x, MPeer x = DPeer d) (boxOf s u))) ∧
    0 ≤ ReadInboxMaxID d ≤ nextBoxOf s u.
Proof.
  intros s Hcr Hdl Hmax HL ds. assert (ListsOK s) as HO.
  { apply runs_lists; [apply NewMessageStore_WF| |by apply internal_all|done]. intros v. split; [constructor|by intros d ?%not_elem_of_nil|by intros x ?%not_elem_of_nil]. }
  unfold ListsOK in HO. rewrite HL in HO. destruct (HO u) as [H1 H2 H3]. split_and!; [done|done|]. intros d Hd. by destruct (H2 d Hd).
Qed.

(** ** Sends and their receipts *)

Lemma scanPts_spec (es : list event) c : c ≤ scanPts c es ∧ ∀ e, e ∈ es → e_Pts e ≤ scanPts c es.
Proof.
  unfold scanPts. revert c. induction es as [|e es IH]; intros c; simpl; [split; [done|by intros e ?%not_elem_of_nil]|].
  destruct (IH (if bool_decide (e_Pts e > c) then e_Pts e else c)) as [H1 H2]. case_bool_decide; (split; [lia|]); intros e' He; apply elem_of_cons in He as [->|He]; [lia|by apply H2|lia|by apply H2].
Qed.
Lemma eventsOf_send (ev : @MemoryEvents.t message) u x a b v :
  OwnerUserID x = u → ID x ≠ 0 →
  MemoryEvents.eventsOf (appendMemorySendEventLocked ev u (newMessageEvent x) a b) v = MemoryEvents.eventsOf ev v ++ if decide (v = u) then [newMessageEvent x] else [].
Proof.
  intros HO HI. unfold newMessageEvent, messageEvent. rewrite (bool_decide_eq_false_2 (ID x = 0)) by done. unfold appendMemorySendEventLocked, MemoryEvents.eventsOf. simpl. subst u.
  case_decide as E; [subst v; by rewrite lookup_insert_eq|by rewrite lookup_insert_ne, app_nil_r].
Qed.
(** The log of a send that stages nothing else. *)
Lemma commit_events q fp apply allocated sender recipient snapshot (ev : @MemoryEvents.t message) s :
  OwnerUserID sender = SenderUserID q → ID sender ≠ 0 →
  (ID recipient = 0 ∨ recipient = sender ∧ SenderUserID q = RecipientUserID q ∨ OwnerUserID recipient = RecipientUserID q ∧ SenderUserID q ≠ RecipientUserID q) →
  ∃ ev', updateEvents (commitPrivateSend q fp apply [] allocated sender recipient snapshot ev s) = Some ev' ∧
    ∀ u, MemoryEvents.eventsOf ev' u = MemoryEvents.eventsOf ev u ++ map newMessageEvent (sentRows q sender recipient u).
Proof.
  intros HO HI Hc. unfold commitPrivateSend. cbv zeta. eexists. split; [reflexivity|]. intros u. unfold sentRows. cbn [appendPrefixEvents foldl].
  destruct Hc as [Hr|[[-> Es]|[HR Hne]]].
  - rewrite (bool_decide_eq_false_2 (ID recipient ≠ 0)) by tauto. cbn [andb]. rewrite eventsOf_send by done. case_decide; [done|]. by rewrite decide_False by tauto.
  - rewrite (bool_decide_eq_true_2 (OwnerUserID sender = OwnerUserID sender)), andb_false_r by done. rewrite eventsOf_send by done.
    case_decide; [done|]. rewrite decide_False by (intros []; congruence). done.
  - destruct (bool_decide_reflect (ID recipient ≠ 0)) as [Hr|Hr]; cbn [andb].
    + rewrite (bool_decide_eq_false_2 (OwnerUserID recipient = OwnerUserID sender)) by congruence. cbn [negb]. rewrite !eventsOf_send by done.
      destruct (decide (u = SenderUserID q)) as [->|]; [rewrite decide_False by done; by rewrite app_nil_r|]. rewrite app_nil_r.
      destruct (decide (u = RecipientUserID q)); [by rewrite decide_True|by rewrite decide_False by tauto].
    + rewrite eventsOf_send by done. case_decide; [done|]. by rewrite decide_False by tauto.
Qed.

Lemma SendPrivateText_cases now q s s' res :
  SendPrivateText C now q s = (s', inr res) →
  ∃ fp, PrivateSendFingerprint C q = inr fp ∧
  (s' = s ∧ Duplicate res = true ∧ lookupPrivateSendReplayLocked C (mkReplay (SenderUserID q) (RecipientUserID q) (q_RandomID q) fp) s = inr (Some res) ∨
   ∃ sender recipient, fresh_send C now q fp None s s' sender recipient ∧ res = mkSent sender recipient (newMessageEvent sender) (newMessageEvent recipient) false None).
Proof.
  unfold SendPrivateText. destruct (HasContent q); [|done]. destruct (PrivateSendFingerprint C q) as [e|fp]; [done|]. simpl. intros E. exists fp. split; [done|].
  pose proof (send_cases C now q fp None s) as H. rewrite E in H. destruct H as [[-> [[e ?]|(res' & [= <-] & ? & ?)]]|(x & y & ? & [= ->])]; [done|by left|right; by exists x, y].
Qed.
(** A found receipt. *)
Lemma lookup_found q s res :
  lookupPrivateSendReplayLocked C q s = inr (Some res) → ∃ r f, privateSendDedup s !! (rp_SenderUserID q, rp_RandomID q) = Some r ∧
    recipientUserID r = rp_RecipientUserID q ∧ fingerprint r = rp_Fingerprint q ∧ DecodePrivateSendSnapshot C (senderSnapshot r) = inr f ∧
    ID (SenderMessage res) = ID f ∧ UID (SenderMessage res) = UID f.
Proof.
  unfold lookupPrivateSendReplayLocked. destruct (privateSendDedup s !! _) as [r|]; [|done]. destruct (bool_decide_reflect (recipientUserID r ≠ rp_RecipientUserID q)) as [|E1]; [done|]. simpl.
  destruct (SameSendFingerprint (fingerprint r) (rp_Fingerprint q)) eqn:E2; [|done]. simpl. destruct (DecodePrivateSendSnapshot C (senderSnapshot r)) as [|f] eqn:Ef; [done|].
  intros HF. exists r, f. apply dec_stable in E1. unfold SameSendFingerprint in E2. rewrite !andb_true_iff, !bool_decide_eq_true in E2. split_and!; [done|done|tauto|done|..].
  all: destruct (List.find _ _) as [x|] eqn:Ex; [destruct (find_Some_row _ _ _ Ex) as [_ Hx]; unfold isRow in Hx; rewrite andb_true_iff, !bool_decide_eq_true in Hx|].
  all: destruct (senderDeleteEvent r); simpl in HF; try done; injection HF as <-; simpl; tauto.
Qed.

(** A copy [x] has everything that request [q] asks for. *)
Record AsRequested (q : @SendPrivateTextRequest X) x : Prop := {
  ar_from : From x = user (SenderUserID q);
  ar_random : RandomID x = q_RandomID q;
  ar_text : Body x = q_Message q ∧ Entities x = q_Entities q;
  ar_media : Media x = q_Media q;
  ar_rich : RichMessage x = q_RichMessage q;
  ar_markup : ReplyMarkup x = q_ReplyMarkup q;
  ar_forward : Forward x = q_Forward q;
  ar_flags : Silent x = q_Silent q ∧ NoForwards x = q_NoForwards q;
  ar_via : ViaBotID x = q_ViaBotID q ∧ GroupedID x = q_GroupedID q ∧ Effect x = q_Effect q;
  ar_fresh : EditDate x = 0 ∧ HideEdited x = false ∧ Pinned x = false ∧ Deleted x = false ∧ Reactions x = None;
}.
(** The reply header [r'] of the sender's copy names the row [z] of the sender's
    box that request header [r] asks for, with its quote; in the chat itself the
    recipient's header [rr] names the recipient's copy of that message. *)
Record Answers s (q : @SendPrivateTextRequest X) (r r' : MessageReply X) (rr : option (MessageReply X)) z : Prop := {
  an_quote : QuoteText r' = QuoteText r ∧ QuoteEntities r' = QuoteEntities r ∧ QuoteOffset r' = QuoteOffset r;
  an_row : z ∈ boxOf s (SenderUserID q) ∧ ID z = r_MessageID r ∧ MPeer z = r_Peer r';
  an_id : r_MessageID r' = r_MessageID r;
  an_peer r'' : SenderUserID q ≠ RecipientUserID q → peerID (r_Peer r') = RecipientUserID q → rr = Some r'' →
    r_Peer r'' = user (SenderUserID q) ∧ QuoteText r'' = QuoteText r ∧ ∃ z', z' ∈ boxOf s (RecipientUserID q) ∧ UID z' = UID z ∧ r_MessageID r'' = ID z';
}.
Definition RepliesTo s (q : @SendPrivateTextRequest X) (sr rr : option (MessageReply X)) : Prop :=
  match q_ReplyTo q with
  | None => sr = None ∧ rr = None
  | Some r => ∃ r', sr = Some r' ∧ (StoryID r > 0 ∧ StoryID r' = StoryID r ∧ rr = sr ∨ StoryID r ≤ 0 ∧ ∃ z, Answers s q r r' rr z)
  end.
Lemma resolve_reply q s sr rr : resolveMemoryReplyLocked C q s = inr (sr, rr) → RepliesTo s q sr rr.
Proof.
  unfold resolveMemoryReplyLocked, RepliesTo. destruct (q_ReplyTo q) as [r|]; [|by intros [= <- <-]]. destruct (ValidateMessageReplyBounds r); [done|].
  destruct (bool_decide_reflect (StoryID r > 0)) as [Hs|Hs]; [intros [= <- <-]; eexists; split; [done|by left]|].
  set (peer := if bool_decide (peerID (r_Peer r) = 0) then _ else _). clearbody peer. destruct (_ || _); [done|]. unfold findOr.
  destruct (List.find _ _) as [z|] eqn:Ez; simpl; [|done]. destruct (find_Some_row _ _ _ Ez) as [Hz [Pz Iz]%(proj1 (isBoxed_true _ _ _))]. destruct (bool_decide (ID z = 0)); [done|].
  assert (Hgo : ∀ ext rr0, (∀ r'', SenderUserID q ≠ RecipientUserID q → peerID peer = RecipientUserID q → rr0 = Some r'' →
      r_Peer r'' = user (SenderUserID q) ∧ QuoteText r'' = QuoteText r ∧ ∃ z', z' ∈ boxOf s (RecipientUserID q) ∧ UID z' = UID z ∧ r_MessageID r'' = ID z') →
    inr (A := mailError) (Some (set_reply_target (ID z) peer (TopMessageID r) ext r), rr0) = inr (sr, rr) →
    ∃ r', sr = Some r' ∧ (StoryID r > 0 ∧ StoryID r' = StoryID r ∧ rr = sr ∨ StoryID r ≤ 0 ∧ ∃ z, Answers s q r r' rr z)).
  { intros ext rr0 Hrr [= <- <-]. eexists. split; [done|]. right. split; [lia|]. exists z. by split. }
  destruct (bool_decide_reflect (peerID peer ≠ RecipientUserID q)) as [Hp|Hp].
  - destruct (match noForwardsPair (SenderUserID q) (peerID peer) with Some key => _ | None => _ end); [done|]. destruct (ValidateExternalReplyQuote r (Body z)); [done|].
    destruct (NewMessageReplyExternal C z); [|done]. destruct (bool_decide (SenderUserID q ≠ RecipientUserID q)); apply Hgo; congruence.
  - destruct (bool_decide_reflect (SenderUserID q = RecipientUserID q)) as [Es|Es]; [apply Hgo; congruence|].
    destruct (List.find (λ x, bool_decide (UID x = UID z)) _) as [z'|] eqn:Ez'; [|by apply Hgo]. apply Hgo. intros r'' _ _ [= <-]. simpl. split_and!; [done|done|].
    destruct (find_Some_row _ _ _ Ez') as [? ?%bool_decide_eq_true]. by exists z'.
Qed.
(** The counters of a send that stages nothing else. *)
Lemma commit_nextPts q fp apply al sender recipient snapshot (ev : @MemoryEvents.t message) s u :
  nextPtsOf (commitPrivateSend q fp apply [] al sender recipient snapshot ev s) u = default (nextPtsOf s u) (al !! u).
Proof.
  unfold commitPrivateSend. cbv zeta. transitivity (default 0 ((al ∪ nextPts s) !! u)).
  - unfold nextPtsOf. destruct (bool_decide (ID recipient ≠ 0)), (bool_decide (SenderUserID q ≠ RecipientUserID q) && negb (RecipientBlocked q)), snapshot; simpl; destruct (dialogs s); done.
  - unfold nextPtsOf. rewrite lookup_union. by destruct (al !! u), (nextPts s !! u).
Qed.

(** C26: a fresh send adds one row to the sender's box and, unless the recipient
    blocks the sender or is the sender, one to the recipient's, and nothing
    elsewhere.  Both copies carry everything the request asks for (text,
    entities, media, rich text, keyboard, forward header, flags, album, effect)
    and the date asked for, reply to each side's own copy of the message named,
    and have ids above all earlier ones.  The pts of a copy is above every pts of
    its account's log and above its account's counter, which moves to it; the
    log gets one event per copy and no other counter moves. *)
Theorem send_delivers ds os now q s' res :
  let s := reached ds os in
  SendPrivateText C now q s = (s', inr res) → Duplicate res = false →
  let x := SenderMessage res in
  let y := RecipientMessage res in
  (∀ u, boxOf s' u = boxOf s u ++ sentRows q x y u) ∧
  (OwnerUserID x = SenderUserID q ∧ MPeer x = user (RecipientUserID q) ∧ Out x = true ∧ AsRequested q x ∧
   Date x = (if bool_decide (q_Date q = 0) then now else q_Date q) ∧
   MediaUnread x = HasUnreadPayload (q_Media q) && bool_decide (SenderUserID q ≠ RecipientUserID q)) ∧
  (SenderUserID q = RecipientUserID q ∧ y = x ∨ SenderUserID q ≠ RecipientUserID q ∧ RecipientBlocked q = true ∧ ID y = 0 ∨
   SenderUserID q ≠ RecipientUserID q ∧ RecipientBlocked q = false ∧ ID y ≠ 0 ∧
     OwnerUserID y = RecipientUserID q ∧ UID y = UID x ∧ MPeer y = user (SenderUserID q) ∧ Out y = false ∧ AsRequested q y ∧ Date y = Date x ∧
     MediaUnread y = HasUnreadPayload (q_Media q) ∧ RepliesTo s q (ReplyTo x) (ReplyTo y)) ∧
  (∃ rr, RepliesTo s q (ReplyTo x) rr) ∧
  (∀ u z, z ∈ boxOf s u → UID z < UID x ∧ ∀ w, w ∈ sentRows q x y u → ID z < ID w) ∧
  ∃ ev ev', updateEvents s = Some ev ∧ updateEvents s' = Some ev' ∧ ∀ u,
    MemoryEvents.eventsOf ev' u = MemoryEvents.eventsOf ev u ++ map newMessageEvent (sentRows q x y u) ∧
    (∀ w, w ∈ sentRows q x y u → nextPtsOf s u < Pts w ∧ nextPtsOf s' u = Pts w ∧ ∀ e, e ∈ MemoryEvents.eventsOf ev u → e_Pts e < Pts w) ∧
    (sentRows q x y u = [] → nextPtsOf s' u = nextPtsOf s u).
Proof.
  intros s E HD. cbv zeta. pose proof (reached_WF ds os : WF s) as HW. destruct (SendPrivateText_cases _ _ _ _ _ E) as (fp & _ & [(_ & H & _)|(x & y & HF & ->)]); [congruence|]. clear E HD. simpl.
  destruct (fresh_boxes C _ _ _ _ _ _ _ _ HW HF) as (_ & B2 & _). destruct (fresh_copies C _ _ _ _ _ _ _ _ HW HF) as (HO & HI & HU & HP & Hc).
  pose proof (wf_next _ HW (SenderUserID q)) as Hn1. pose proof (wf_next _ HW (RecipientUserID q)) as Hn2.
  split_and!; [exact B2|exact HO|exact HP|..].
  1-4: destruct HF as [_ (ev & al0 & al & staged & sr & rr & pts & snap & _ & _ & _ & _ & -> & _)]; try done.
  1: by rewrite bool_decide_not.
  - destruct Hc as [?|[(? & ? & ->)|(Hne & ? & HIy & ? & ? & ? & ? & _ & ?)]]; [by left|by right; left|right; right].
    destruct HF as [_ (ev & al0 & al & staged & sr & rr & pts & snap & _ & Hr & _ & _ & -> & Hcp & _)].
    inversion Hcp; subst; [done|congruence|]. split_and!; try done; [lia|by apply resolve_reply].
  - destruct HF as [_ (ev & al0 & al & staged & sr & rr & pts & snap & _ & Hr & _ & _ & -> & _)]. exists rr. by apply resolve_reply.
  - intros u z Hz. destruct (box_rows _ _ _ _ (wf_box _ HW u) z Hz) as (_ & HIz & HUz). split; [lia|]. intros w. unfold sentRows. destruct (decide (u = SenderUserID q)) as [E1|E1].
    + intros ->%list_elem_of_singleton. subst u. lia.
    + destruct (decide (u = RecipientUserID q ∧ ID y ≠ 0)) as [[-> Hr]|]; [|by intros ?%not_elem_of_nil]. intros ->%list_elem_of_singleton.
      destruct Hc as [[? _]|[(_ & _ & ->)|(_ & _ & ? & _)]]; [congruence|done|lia].
  - destruct HF as [_ (ev & al0 & al & staged & sr & rr & pts & snap & Hev & _ & Hst & -> & Hx & Hcp & _ & ->)].
    destruct (commit_events q fp (λ b, b) al x y snap ev s HO) as (ev' & E1 & E2); [lia|..].
    { destruct Hc as [[? ->]|[(_ & _ & ->)|(? & _ & _ & ? & _)]]; [by right; left|by left|by right; right]. }
    exists ev, ev'. split_and!; [done|exact E1|]. intros u. split; [apply E2|]. rewrite commit_nextPts.
    unfold stagePts in Hst. simpl in Hst. rewrite lookup_empty in Hst. injection Hst as <- Hpts. assert (Px : Pts x = pts) by (by rewrite Hx).
    pose proof (scanPts_spec (MemoryEvents.eventsOf ev u) (nextPtsOf s u)) as [Hs1 Hs2]. unfold sentRows. destruct (decide (u = SenderUserID q)) as [Eu|Eu].
    + subst u. split; [|done]. intros w ->%list_elem_of_singleton. rewrite Px, <-Hpts. split_and!; [lia| |intros e He; specialize (Hs2 e He); lia].
      inversion Hcp as [Es|Hne Hb|pts' al' Hne Hb Hst']; subst; [by rewrite lookup_insert_eq..|]. unfold stagePts in Hst'. injection Hst' as <- _.
      by rewrite lookup_insert_ne, lookup_insert_eq.
    + inversion Hcp as [Es|Hne Hb|pts' al' Hne Hb Hst']; subst al y.
      * rewrite decide_False by (intros []; congruence). split; [by intros w ?%not_elem_of_nil|]. by rewrite lookup_insert_ne.
      * rewrite decide_False by (by intros []). split; [by intros w ?%not_elem_of_nil|]. by rewrite lookup_insert_ne.
      * unfold stagePts in Hst'. rewrite lookup_insert_ne, lookup_empty in Hst' by done. injection Hst' as <- <-.
        destruct (decide (u = RecipientUserID q)) as [->|Hur].
        -- rewrite decide_True by (split; [done|simpl; lia]). split; [|done]. intros w ->%list_elem_of_singleton. rewrite lookup_insert_eq. simpl.
           split_and!; [lia|done|]. intros e He. specialize (Hs2 e He). lia.
        -- rewrite decide_False by tauto. split; [by intros w ?%not_elem_of_nil|]. by rewrite !lookup_insert_ne.
Qed.

Context `{HJ : !JsonReceipts C}.
Lemma fingerprint_size q fp : PrivateSendFingerprint C q = inr fp → len fp = sha256Size.
Proof.
  unfold PrivateSendFingerprint. case_bool_decide; [case_bool_decide as E; [done|]|].
  - by intros [= <-].
  - destruct (sumFingerprint C _) as [h|] eqn:Eh; [|done]. intros [= <-]. by eapply sum_size.
Qed.
(** What an accepted send leaves behind. *)
Lemma accepted now q s s' res :
  q_RandomID q ≠ 0 → SendPrivateText C now q s = (s', inr res) → ∃ r f, privateSendDedup s' !! (SenderUserID q, q_RandomID q) = Some r ∧
    recipientUserID r = RecipientUserID q ∧ PrivateSendFingerprint C q = inr (fingerprint r) ∧ DecodePrivateSendSnapshot C (senderSnapshot r) = inr f ∧
    ID (SenderMessage res) = ID f ∧ UID (SenderMessage res) = UID f.
Proof.
  intros H0 E. destruct (SendPrivateText_cases _ _ _ _ _ E) as (fp & Hfp & [(-> & _ & HL)|(x & y & HF & ->)]).
  - destruct (lookup_found _ _ _ HL) as (r & f & ? & ? & Hr & ? & ? & ?). exists r, f. simpl in *. subst fp. by split_and!.
  - pose proof (fresh_dedup C _ _ _ _ _ _ _ _ HF) as Hd. rewrite bool_decide_eq_true_2 in Hd by done. destruct Hd as (raw & Hraw & ->).
    destruct (snapshot_roundtrip C _ _ Hraw) as (f & Hf & F1 & F2 & _). eexists _, f. rewrite lookup_insert_eq. split_and!; [done|done|done|done|done|done].
Qed.
Lemma reached_backed ds os u : noClears os = true → nextBoxOf (reached ds os) u ≤ MaxMessageBoxID → backed C (reached ds os) u.
Proof. intros Hc Hn. apply (runs_backed C); [apply NewMessageStore_WF|done|done|]. intros rid r. simpl. by rewrite lookup_empty. Qed.
(** The answer to a request whose receipt is there and backed. *)
Lemma replay_answer now q s r f :
  HasContent q = true → q_RandomID q ≠ 0 → backed C s (SenderUserID q) → privateSendDedup s !! (SenderUserID q, q_RandomID q) = Some r →
  DecodePrivateSendSnapshot C (senderSnapshot r) = inr f → ∀ fp, PrivateSendFingerprint C q = inr fp →
  (SendPrivateText C now q s).1 = s ∧
  match (SendPrivateText C now q s).2 with
  | inr res => recipientUserID r = RecipientUserID q ∧ fingerprint r = fp ∧ Duplicate res = true ∧ ID (SenderMessage res) = ID f ∧ UID (SenderMessage res) = UID f
  | inl e => e = ErrMessageRandomIDDuplicate ∧ (recipientUserID r ≠ RecipientUserID q ∨ fingerprint r ≠ fp)
  end.
Proof.
  intros HC H0 HB Hr Hf fp Hfp. pose proof (fingerprint_size _ _ Hfp) as Hlen. unfold SendPrivateText. rewrite HC, Hfp. simpl. unfold sendPrivateTextLocked.
  unfold lookupPrivateSendReplayLocked at 1 2. simpl. rewrite Hr. destruct (bool_decide_reflect (recipientUserID r ≠ RecipientUserID q)) as [E1|E1]; [simpl; by auto|]. simpl.
  apply dec_stable in E1. unfold SameSendFingerprint. destruct (bool_decide_reflect (fingerprint r = fp)) as [E2|E2].
  2: { rewrite andb_false_r. simpl. auto. }
  rewrite E2, !bool_decide_eq_true_2 by done. simpl. rewrite Hf. destruct (HB _ _ Hr) as (_ & f' & Hf' & Hrow). assert (f' = f) as -> by congruence. clear Hf'.
  destruct (List.find _ _) as [x|] eqn:Ex.
  - destruct (find_Some_row _ _ _ Ex) as [_ Hx]. unfold isRow in Hx. rewrite andb_true_iff, !bool_decide_eq_true in Hx. destruct Hx as [Hx1 Hx2].
    destruct (senderDeleteEvent r); simpl; by split_and!.
  - destruct (senderDeleteEvent r) as [e|]; [simpl; by split_and!|]. destruct Hrow as [[? ?]|(x & Hx & U & I & _)]; [done|].
    eapply List.find_none in Ex; [|by apply list_elem_of_In]. unfold isRow in Ex. rewrite andb_false_iff, !bool_decide_eq_false in Ex. by destruct Ex.
Qed.

(** C25: an accepted send is accepted once.  After any requests of any accounts
    (history clears apart) a request that repeats its random id changes nothing:
    with the same recipient and intent it is answered with the ids of the first
    send, otherwise it is refused as a duplicate id. *)
Theorem send_exactly_once ds os0 now q s1 res os now' q' fp' :
  noClears os0 = true → noClears os = true →
  q_RandomID q ≠ 0 → SendPrivateText C now q (reached ds os0) = (s1, inr res) →
  let s2 := runs C os s1 in
  nextBoxOf s2 (SenderUserID q) ≤ MaxMessageBoxID →
  SenderUserID q' = SenderUserID q → q_RandomID q' = q_RandomID q → HasContent q' = true → PrivateSendFingerprint C q' = inr fp' →
  let same := RecipientUserID q' = RecipientUserID q ∧ PrivateSendFingerprint C q = inr fp' in
  (SendPrivateText C now' q' s2).1 = s2 ∧
  match (SendPrivateText C now' q' s2).2 with
  | inr res' => same ∧ Duplicate res' = true ∧
      ID (SenderMessage res') = ID (SenderMessage res) ∧ UID (SenderMessage res') = UID (SenderMessage res)
  | inl e => e = ErrMessageRandomIDDuplicate ∧ ¬ same
  end.
Proof.
  intros Hc0 Hc H0 E s2 Hmax HS HR HC Hfp' same. assert (Hs2 : s2 = reached ds (os0 ++ OpSend now q :: os)).
  { unfold s2, reached. rewrite mail_runs_app. change (runs C (OpSend now q :: os) _) with (runs C os (SendPrivateText C now q (reached ds os0)).1). by rewrite E. }
  destruct (accepted _ _ _ _ _ H0 E) as (r & f & Hr & R1 & R2 & Hf & I1 & I2). destruct (runs_persist C os s1 _ r Hr) as (r2 & Hr2 & (P1 & P2 & _ & P4 & _)). fold s2 in Hr2.
  assert (backed C s2 (SenderUserID q)) as HB.
  { rewrite Hs2. apply reached_backed; [|by rewrite <-Hs2]. unfold noClears. rewrite forallb_app. cbn [forallb clears negb andb]. fold (noClears os0) (noClears os). by rewrite Hc0. }
  rewrite <-HS, <-HR in Hr2. rewrite <-HR in H0. rewrite <-HS in HB. rewrite <-P2 in Hf.
  destruct (replay_answer now' q' s2 r2 f HC H0 HB Hr2 Hf fp' Hfp') as [A1 A2]. split; [done|]. destruct ((SendPrivateText C now' q' s2).2) as [e|res'].
  - destruct A2 as [-> A2]. split; [done|]. intros [S1 S2]. rewrite R2 in S2. injection S2 as S2. destruct A2; congruence.
  - destruct A2 as (B1 & B2 & B3 & B4 & B5). split_and!; [split; congruence|done|congruence|congruence].
Qed.
End props.
End MailProps.
