(* ===== verification/MailChangeProps.v ===== *)
(** * Private messages: properties of changes *)

From stdpp Require Import sorting.
From S2P Require Import Prelude UpdateTypes UpdateStore MailTypes MailStore MailOps MailInv MailBoxes MailSteps MailWorld MailReplay MailProps.
Import Mail MailStore MailOps MailInv MailBoxes MailSteps MailWorld MailReplay MailProps.

Module MailChangeProps.
Section props.
Context {X : Type} `{EqX : EqDecision X} `{InhX : Inhabited X} (C : @Codec X).
Abbreviation message := (Message X).
Abbreviation event := (UpdateEvent message).
Abbreviation store := (@MessageStore X).
Implicit Types (x y : message) (s : store) (u v : Z) (rows : list deletedMemoryMessage).

(** ** Deleting *)

(** The rows a deletion request is about. *)
Definition targeted (q : DeleteMessagesRequest) s u x : bool :=
  if decide (u = del_OwnerUserID q) then bool_decide (ID x ∈ del_IDs q)
  else del_Revoke q && bool_decide (UID x ∈ map UID (filter (λ y, ID y ∈ del_IDs q) (boxOf s (del_OwnerUserID q)))).

Lemma elem_of_normalize ids (id : Z) : id ∈ normalizeMemoryMessageIDs ids ↔ id ∈ ids ∧ 0 < id ≤ MaxMessageBoxID.
Proof. unfold normalizeMemoryMessageIDs. rewrite merge_sort_Permutation, elem_of_remove_dups, list_elem_of_filter. tauto. Qed.
Lemma filter_ext_in (P Q : message → Prop) `{!∀ x, Decision (P x)} `{!∀ x, Decision (Q x)} (ms : list message) :
  (∀ x, x ∈ ms → P x ↔ Q x) → filter P ms = filter Q ms.
Proof.
  induction ms as [|x ms IH]; intros HE; [done|]. rewrite !filter_cons. rewrite IH by (intros y Hy; apply HE; by apply list_elem_of_further).
  destruct (HE x (list_elem_of_here _ _)) as [H1 H2]. destruct (decide (P x)); [by rewrite decide_True by auto|by rewrite decide_False by auto].
Qed.
(** An account spends one pts per deleted row. *)
Lemma spent_count (g : Z → message → bool) s s1 rows u :
  WF s → nextBoxOf s u ≤ MaxMessageBoxID → removed s s1 rows →
  (∀ x, x ∈ boxOf s u → deletedRow u x ∈ rows → g u x = true) → (∀ x, x ∈ boxOf s1 u → g u x = false) →
  spentPts (X := X) u rows ∅ = len (filter (λ x, g u x = true) (boxOf s u)).
Proof.
  intros HW Hmax HR Hg Hk. unfold spentPts. rewrite lookup_empty. simpl. rewrite Z.add_0_r. unfold len. f_equal.
  rewrite <-(length_map ID (filter (λ x, g u x = true) (boxOf s u))). apply Permutation_length, NoDup_Permutation.
  - unfold deletedIDs, normalizeMemoryMessageIDs. rewrite merge_sort_Permutation. apply NoDup_remove_dups.
  - eapply sublist_NoDup; [|apply sublist_map, sublist_filter]. pose proof (box_sorted _ _ _ _ (wf_box _ HW u)) as HS. clear -HS.
    induction HS as [|z l HS IH HF]; constructor; [|done]. intros Hin. rewrite Forall_forall in HF. specialize (HF z Hin). lia.
  - intros id. unfold deletedIDs. rewrite elem_of_normalize. change (map ID ?l) with (ID <$> l). rewrite list_elem_of_fmap. split.
    + intros [(r & -> & [Hu Hr]%list_elem_of_filter)%list_elem_of_fmap _]. destruct (rm_row _ _ _ HR r Hr) as (x & Hx & E). rewrite Hu in Hx, E. exists x. split; [by rewrite E|].
      apply list_elem_of_filter. split; [|done]. apply Hg; [done|by rewrite <-E].
    + intros (x & -> & [Hgx Hx]%list_elem_of_filter). destruct (box_rows _ _ _ _ (wf_box _ HW u) x Hx) as (_ & HI & _). split; [|lia].
      destruct (rm_gone _ _ _ HR u x Hx) as [Hx1|Hrow]; [specialize (Hk x Hx1); congruence|]. apply list_elem_of_fmap. exists (deletedRow u x). split; [done|]. by apply list_elem_of_filter.
Qed.

Lemma owned_ids q s u x :
  WF s → nextBoxOf s u ≤ MaxMessageBoxID → x ∈ boxOf s u → ID x ∈ normalizeMemoryMessageIDs (del_IDs q) ↔ ID x ∈ del_IDs q.
Proof.
  intros HW Hmax Hx. rewrite elem_of_normalize. destruct (box_rows _ _ _ _ (wf_box _ HW u) x Hx) as (_ & HI & _). split; [tauto|]. intros ?. split; [done|lia].
Qed.
(** The messages a revoking request removes everywhere. *)
Definition revoked (q : DeleteMessagesRequest) s : list Z :=
  filter (λ uid : Z, uid ≠ 0) (map UID (filter (λ x, bool_decide (ID x ∈ normalizeMemoryMessageIDs (del_IDs q)) = true) (boxOf s (del_OwnerUserID q)))).
Lemma elem_of_revoked q s (z : Z) :
  WF s → nextBoxOf s (del_OwnerUserID q) ≤ MaxMessageBoxID →
  z ∈ map UID (filter (λ y, ID y ∈ del_IDs q) (boxOf s (del_OwnerUserID q))) ↔ z ∈ revoked q s.
Proof.
  intros HW Hmax. unfold revoked. rewrite list_elem_of_filter. change (map UID ?l) with (UID <$> l). rewrite !list_elem_of_fmap. split.
  - intros (y & -> & [Hy Hb]%list_elem_of_filter). split; [destruct (box_rows _ _ _ _ (wf_box _ HW _) y Hb) as (_ & _ & ?); lia|]. exists y. split; [done|].
    apply list_elem_of_filter. split; [|done]. apply bool_decide_eq_true. by eapply owned_ids.
  - intros [_ (y & -> & [Hy%bool_decide_eq_true Hb]%list_elem_of_filter)]. exists y. split; [done|]. apply list_elem_of_filter. split; [by eapply owned_ids|done].
Qed.
Lemma targeted_none q s u x :
  WF s → (∀ u, nextBoxOf s u ≤ MaxMessageBoxID) → normalizeMemoryMessageIDs (del_IDs q) = [] → x ∈ boxOf s u → targeted q s u x = false.
Proof.
  intros HW Hmax Hnil Hx. unfold targeted. case_decide as Eu; [apply bool_decide_eq_false; rewrite <-(owned_ids q s u x HW (Hmax u) Hx), Hnil; apply not_elem_of_nil|].
  rewrite (bool_decide_eq_false_2 (UID x ∈ _)), andb_false_r; [done|]. rewrite elem_of_revoked by done. unfold revoked. rewrite Hnil.
  intros [_ (y & _ & [Hy%bool_decide_eq_true _]%list_elem_of_filter)%list_elem_of_fmap]%list_elem_of_filter. by apply not_elem_of_nil in Hy.
Qed.
(** The second part of a request: the copies in other boxes. *)
Lemma revoke_spec (revoke : bool) (uids : list Z) owner s :
  ∃ s' rows, (if revoke && negb (bool_decide (uids = [])) then deleteMemoryMessagesByUIDLocked uids owner s else (s, [])) = (s', rows) ∧ removed s s' rows ∧
    (∀ r, r ∈ rows → del_userID r ≠ owner ∧ revoke = true ∧ del_privateMessageID r ∈ uids) ∧
    ∀ u, boxOf s' u = if decide (u = owner) then boxOf s u else filter (λ x, revoke && bool_decide (UID x ∈ uids) = false) (boxOf s u).
Proof.
  destruct revoke; cbn [andb]; [|eexists _, _; split_and!; [done|apply removed_refl|by intros r ?%not_elem_of_nil|intros u; case_decide; [done|symmetry; by apply list_filter_id]]].
  destruct (bool_decide_reflect (uids = [])) as [Hu|Hu]; cbn [negb].
  { eexists _, _. split_and!; [done|apply removed_refl|by intros r ?%not_elem_of_nil|]. intros u. case_decide; [done|]. symmetry. apply list_filter_id. intros x _. apply bool_decide_eq_false. rewrite Hu. apply not_elem_of_nil. }
  pose proof (deleteMemoryMessagesByUIDLocked_spec uids owner s) as H2. destruct (deleteMemoryMessagesByUIDLocked uids owner s) as [s2 rows]. destruct H2 as (R2 & _ & K2 & B2).
  exists s2, rows. split_and!; [done|done|intros r Hr; by destruct (K2 r Hr)|]. intros u. rewrite B2. case_decide; [done|]. apply list_filter_iff. intros x. by rewrite bool_decide_eq_false.
Qed.

(** C29: deleting messages never panics.  A request with too many ids changes
    nothing; any other removes exactly the listed rows of its account and, when
    it revokes, their copies in all other boxes.  Every account's pts grows by
    the number of rows it lost. *)
Theorem delete_exact ds os now q :
  let s := reached C ds os in
  del_OwnerUserID q ≠ 0 → (∀ u, nextBoxOf s u ≤ MaxMessageBoxID) →
  ∃ s' r, DeleteMessages now q s = Done (s', r) ∧
  match r with
  | inl e => s' = s ∧ e = ErrTooManyIDs (len (normalizeMemoryMessageIDs (del_IDs q))) ∧ MaxDeleteMessageIDs < len (normalizeMemoryMessageIDs (del_IDs q))
  | inr _ => ∀ u, boxOf s' u = filter (λ x, targeted q s u x = false) (boxOf s u) ∧
      nextPtsOf s' u = nextPtsOf s u + len (filter (λ x, targeted q s u x = true) (boxOf s u))
  end.
Proof.
  intros s Hq Hmax. pose proof (reached_WF C ds os : WF s) as HW. unfold DeleteMessages. set (ids := normalizeMemoryMessageIDs (del_IDs q)). rewrite (bool_decide_eq_false_2 (del_OwnerUserID q = 0)) by done.
  destruct (bool_decide_reflect (ids = [])) as [Hnil|Hne]; cbn [orb].
  { eexists _, _. split; [reflexivity|]. intros u. pose proof (λ x, targeted_none q s u x HW Hmax Hnil) as Hf.
    split; [symmetry; by apply list_filter_id|]. assert (filter (λ x, targeted q s u x = true) (boxOf s u) = []) as ->; [|unfold len; simpl; lia].
    apply elem_of_nil_inv. intros x [Ht Hx]%list_elem_of_filter. rewrite Hf in Ht; done. }
  destruct (bool_decide_reflect (len ids > MaxDeleteMessageIDs)); [eexists _, _; split; [reflexivity|]; split_and!; [done|done|lia]|].
  set (date := if bool_decide _ then now else _). set (owner := del_OwnerUserID q) in *. set (f := λ x, bool_decide (ID x ∈ ids)) in *.
  pose proof (deleteMemoryMessagesLocked_spec owner 0 f s) as H1. unfold deleteMemoryMessagesLocked in *. rewrite deleteLoop_all in *. change (filter (λ uid, uid ≠ 0) _) with (revoked q s) in *.
  set (s1 := putBox owner _ s) in *. set (rows := map (deletedRow owner) _) in *. destruct H1 as (R1 & K1 & _ & O1).
  destruct (revoke_spec (del_Revoke q) (revoked q s) owner s1) as (s2 & rows' & -> & R2 & K2 & B2).
  destruct (finishMemoryDeleteLocked_spec (rows ++ rows') date ∅ s2) as (s' & items & -> & D). cbn [mbind run_bind]. eexists _, _. split; [reflexivity|].
  assert (HB : ∀ u, boxOf s2 u = filter (λ x, targeted q s u x = false) (boxOf s u)).
  { intros u. rewrite B2. unfold targeted. fold owner. destruct (decide (u = owner)) as [->|Hu].
    - unfold s1. rewrite boxOf_putBox, decide_True by done. unfold f, ids. apply filter_ext_in. intros x Hx. rewrite !bool_decide_eq_false. by rewrite (owned_ids q s owner x HW (Hmax _) Hx).
    - rewrite (O1 u Hu). apply list_filter_iff. intros x. destruct (del_Revoke q); [|done]. cbn [andb]. rewrite !bool_decide_eq_false.
      pose proof (elem_of_revoked q s (UID x) HW (Hmax _)) as HU. fold owner in HU. by rewrite HU. }
  intros u. split; [rewrite (dl_box _ _ _ _ _ D), lookup_empty; apply HB|]. rewrite (dl_pts _ _ _ _ _ D).
  assert (nextPtsOf s2 u = nextPtsOf s u) as -> by (unfold nextPtsOf; by rewrite (sr_pts _ _ (rm_rest _ _ _ R2)), (sr_pts _ _ (rm_rest _ _ _ R1))).
  f_equal. eapply (spent_count (targeted q s)); [done|done|by eapply removed_trans| |].
  - intros x Hx Hr. unfold targeted. fold owner. apply elem_of_app in Hr as [Hr|Hr].
    + destruct (K1 _ Hr) as (y & Hy & Hfy%bool_decide_eq_true & [= Eu _ EI _ _ _]). rewrite decide_True by done. apply bool_decide_eq_true. rewrite <-(owned_ids q s u x HW (Hmax _) Hx). by rewrite EI.
    + destruct (K2 _ Hr) as (Hne2 & -> & Hu). rewrite decide_False by done. apply bool_decide_eq_true. by apply elem_of_revoked.
  - intros x. rewrite HB. by intros [? _]%list_elem_of_filter.
Qed.

(** ** Editing *)

Lemma editBox_rows q date uid sender pts ms :
  let '(ms', edited, pts') := editBox (X := X) q date uid sender pts ms in
  pts ≤ pts' ∧ edited = filter (λ x, isCopyOf uid sender x = true) ms' ∧
  Forall2 (λ x x', if isCopyOf uid sender x then ∃ p, pts < p ≤ pts' ∧ x' = editCopy q date p x else x' = x) ms ms'.
Proof.
  revert pts. induction ms as [|x ms IH]; intros pts; simpl; [split_and!; [done|done|constructor]|]. destruct (isCopyOf uid sender x) eqn:E.
  - specialize (IH (pts + 1)). destruct (editBox q date uid sender (pts + 1) ms) as [[ms' ed] p']. destruct IH as (H1 & -> & H3).
    assert (isCopyOf uid sender (editCopy q date (pts + 1) x) = true) as E'.
    { destruct (editCopy_key q date (pts + 1) x) as ([= _ EU _ _ _] & _ & EF & _). rewrite <-E. by apply isCopyOf_eq. }
    split_and!; [lia|by rewrite filter_cons_True|]. constructor; [rewrite E; exists (pts + 1); split; [lia|done]|]. eapply Forall2_impl; [exact H3|]. intros y y'. simpl.
    destruct (isCopyOf uid sender y); [|done]. intros (p & ? & ->). exists p. split; [lia|done].
  - specialize (IH pts). destruct (editBox q date uid sender pts ms) as [[ms' ed] p']. destruct IH as (H1 & -> & H3).
    split_and!; [lia|by rewrite filter_cons_False by (by rewrite E)|]. constructor; [by rewrite E|done].
Qed.
(** Who may edit a message: its author, the bot it was sent through, the link
    preview service, or the other side of a checklist for its items only.  A
    resolved preview replaces only the pending preview with the expected id. *)
Definition isPending (id : Z) x : Prop :=
  ∃ media page, Media x = Some media ∧ Kind media = KindWebPage ∧ WebPage media = Some page ∧ wp_State page = WebPagePending ∧ wp_ID page = id.
Definition isChecklist (media : option (MessageMedia X)) : Prop := ∃ a b, media = Some a ∧ Kind a = KindTodo ∧ Todo a = Some b.
Definition mayEdit (q : @EditMessageRequest X) x : Prop :=
  (Out x = true ∧ peerID (From x) = e_OwnerUserID q ∨
   ViaBotEditBotID q ≠ 0 ∧ ViaBotID x = ViaBotEditBotID q ∨
   WebPageResolve q = true ∨
   AllowTodoParticipantMutation q = true ∧ SetReplyMarkup q = false ∧ isChecklist (e_Media q) ∧ isChecklist (Media x) ∧
     peerID (From x) ≠ e_OwnerUserID q ∧ Body x = e_Text q ∧ Entities x = e_Entities q) ∧
  (WebPageResolve q = true → e_Media q ≠ None ∧ isPending (ExpectedWebPageID q) x).
(** What an accepted edit makes of a copy [x]. *)
Record EditedTo (q : @EditMessageRequest X) (date pts : Z) x x' : Prop := {
  et_pts : Pts x' = pts;
  et_media : Media x' = match e_Media q with Some media => Some media | None => Media x end;
  et_text : if WebPageResolve q then Body x' = Body x ∧ Entities x' = Entities x else Body x' = e_Text q ∧ Entities x' = e_Entities q;
  et_mark : if WebPageResolve q then EditDate x' = EditDate x ∧ HideEdited x' = HideEdited x else EditDate x' = date ∧ HideEdited x' = e_HideEdited q;
  et_markup : ReplyMarkup x' = if negb (WebPageResolve q) && SetReplyMarkup q then e_ReplyMarkup q else ReplyMarkup x;
  et_rich : RichMessage x' = if negb (WebPageResolve q) && SetRichMessage q then e_RichMessage q else RichMessage x;
  et_ids : ID x' = ID x ∧ UID x' = UID x ∧ RandomID x' = RandomID x ∧ OwnerUserID x' = OwnerUserID x ∧ MPeer x' = MPeer x ∧ From x' = From x ∧
    Date x' = Date x ∧ Out x' = Out x;
  et_rest : Silent x' = Silent x ∧ NoForwards x' = NoForwards x ∧ ReplyTo x' = ReplyTo x ∧ Forward x' = Forward x ∧ Reactions x' = Reactions x ∧
    TTLPeriod x' = TTLPeriod x ∧ ExpiresAt x' = ExpiresAt x ∧ MediaUnread x' = MediaUnread x ∧ ReactionUnread x' = ReactionUnread x ∧
    ViaBotID x' = ViaBotID x ∧ GroupedID x' = GroupedID x ∧ Effect x' = Effect x ∧ Pinned x' = Pinned x ∧ Deleted x' = Deleted x ∧
    SavedPeer x' = SavedPeer x ∧ PaidStars x' = PaidStars x;
}.
Lemma editCopy_edited q date pts x : EditedTo q date pts x (editCopy q date pts x).
Proof. unfold editCopy. destruct (WebPageResolve q) eqn:E, (e_Media q) eqn:E1, (SetReplyMarkup q) eqn:E2, (SetRichMessage q) eqn:E3; split; rewrite ?E, ?E1, ?E2, ?E3; done. Qed.
Lemma isTodo_checklist (media : option (MessageMedia X)) : isTodo media = true → isChecklist media.
Proof. unfold isTodo. destruct media as [a|]; [|done]. rewrite andb_true_iff, bool_decide_eq_true. destruct (Todo a) as [b|] eqn:E; [|by intros []]. intros [? _]. by exists a, b. Qed.
Lemma pending_page (id : Z) x : IsPendingWebPageMedia (Media x) id = true → isPending id x.
Proof.
  unfold IsPendingWebPageMedia. destruct (Media x) as [a|] eqn:E; [|done]. rewrite andb_true_iff, bool_decide_eq_true. destruct (WebPage a) as [w|] eqn:Ew; [|by intros []].
  rewrite andb_true_iff, !bool_decide_eq_true. intros (? & ? & ?). by exists a, w.
Qed.
Lemma todoEdit_spec q x : validMemoryTodoParticipantEdit q x = true →
  AllowTodoParticipantMutation q = true ∧ SetReplyMarkup q = false ∧ isChecklist (e_Media q) ∧ isChecklist (Media x) ∧
  peerID (From x) ≠ e_OwnerUserID q ∧ Body x = e_Text q ∧ Entities x = e_Entities q.
Proof.
  unfold validMemoryTodoParticipantEdit. destruct (AllowTodoParticipantMutation q), (SetReplyMarkup q), (isTodo (e_Media q)) eqn:E1; try done. simpl.
  destruct (bool_decide_reflect (peerID (From x) = e_OwnerUserID q)); [done|]. destruct (bool_decide_reflect (Body x = e_Text q)); [|done].
  destruct (bool_decide_reflect (Entities x = e_Entities q)); [|done]. intros ?%isTodo_checklist. apply isTodo_checklist in E1. by split_and!.
Qed.
Lemma editAllowed_mayEdit q x : editAllowed q x = None → mayEdit q x.
Proof.
  unfold editAllowed. cbv zeta. destruct (negb _ && _ && _ && _) eqn:E1; [done|]. destruct (WebPageResolve q && _) eqn:E2; [done|]. intros _. split.
  - rewrite !andb_false_iff, !negb_false_iff in E1. destruct E1 as [[[E1|E1]|E1]|E1]; [left|right; left|by do 2 right; left|do 3 right; by apply todoEdit_spec].
    + by rewrite andb_true_iff, bool_decide_eq_true in E1.
    + by rewrite andb_true_iff, !bool_decide_eq_true in E1.
  - intros Hw. rewrite Hw in E2. cbn [andb] in E2. apply orb_false_iff in E2 as [E2 E3%negb_false_iff]. split; [by destruct (e_Media q)|by apply pending_page].
Qed.
Lemma copy_spec (uid sender : Z) x : isCopyOf uid sender x = true ↔ UID x = uid ∧ peerID (From x) = sender.
Proof. unfold isCopyOf. by rewrite andb_true_iff, !bool_decide_eq_true. Qed.

(** C30: a refused edit changes nothing.  An accepted one names a row of its
    account that it may edit: its own message, one sent through its bot, a
    pending link preview, or the items of the other side's checklist with the
    text left alone.  In every box exactly the copies of that message change:
    each gets the requested text, entities, media, keyboard, rich text, edit date
    and hide flag (a resolved preview only the media) and a fresh pts, and keeps
    everything else; every changed copy is reported to its account. *)
Theorem edit_copies now q s s' r :
  EditMessage now q s = (s', r) →
  match r with
  | inl _ => s' = s
  | inr edited => ∃ target,
      target ∈ boxOf s (e_OwnerUserID q) ∧ MPeer target = e_DPeer q ∧ ID target = e_ID q ∧ mayEdit q target ∧
      let date := if bool_decide (e_EditDate q = 0) then now else e_EditDate q in
      let copy x := UID x = UID target ∧ peerID (From x) = peerID (From target) in
      (∀ u, Forall2 (λ x x', (copy x → ∃ pts, nextPtsOf s u < pts ≤ nextPtsOf s' u ∧ EditedTo q date pts x x') ∧ (¬ copy x → x' = x)) (boxOf s u) (boxOf s' u)) ∧
      ∀ u x, x ∈ boxOf s' u → copy x → ∃ e, e ∈ edited ∧ ed_UserID e = u ∧ ed_Message e = x
  end.
Proof.
  unfold EditMessage. destruct (_ || _ || _ || _); [by intros [= <- <-]|]. set (date := if bool_decide (e_EditDate q = 0) then now else e_EditDate q).
  destruct (List.find _ _) as [target|] eqn:Ht; [|by intros [= <- <-]]. destruct (editAllowed q target) eqn:Ha; [by intros [= <- <-]|].
  destruct (find_Some_row _ _ _ Ht) as [Hin [Hp Hi]%isBoxed_true]. cbv zeta. set (run := λ (u : Z) (ms : list message), editBox q date (UID target) (peerID (From target)) (nextPtsOf s u) ms).
  set (s1 := put_nextPts _ _). set (s2 := match dialogs s1 with Some _ => _ | None => _ end). intros [= <- <-].
  assert (Hb : ∀ u, boxOf s2 u = (run u (boxOf s u)).1.1).
  { intros u. transitivity (boxOf s1 u); [unfold s2; by destruct (dialogs s1)|]. apply (boxOf_imap s (λ u ms, (run u ms).1.1)); [done|done]. }
  assert (Hn : ∀ u, (run u (boxOf s u)).1.2 ≠ [] → nextPtsOf s2 u = (run u (boxOf s u)).2).
  { intros u Hne. transitivity (nextPtsOf s1 u); [unfold s2; by destruct (dialogs s1)|]. unfold nextPtsOf, s1. simpl. unfold boxOf in *.
    destruct (m s !! u) as [ms|] eqn:Em; [|by simpl in Hne]. simpl in *. rewrite (lookup_union_Some_l _ _ _ (run u ms).2); [done|].
    rewrite map_lookup_imap, Em. simpl. fold (run u ms). by rewrite bool_decide_eq_false_2. }
  exists target. split_and!; [done|done|done|by apply editAllowed_mayEdit|..].
  - intros u. rewrite Hb. specialize (Hn u). pose proof (editBox_rows q date (UID target) (peerID (From target)) (nextPtsOf s u) (boxOf s u)) as H. unfold run in *.
    destruct (editBox q date (UID target) (peerID (From target)) (nextPtsOf s u) (boxOf s u)) as [[ms' ed] p']. destruct H as (H1 & -> & H3). cbn [fst snd] in *.
    apply Forall2_same_length_lookup. split; [by eapply Forall2_length|]. intros i x x' Hx Hx'. pose proof (Forall2_lookup_lr _ _ _ _ _ _ H3 Hx Hx') as HR. cbv beta in HR |- *.
    destruct (isCopyOf (UID target) (peerID (From target)) x) eqn:E; [split; [intros _|intros Hc; by apply copy_spec in E]|by split; [intros Hc%copy_spec; congruence|]].
    destruct HR as (pts & Hpts & ->). exists pts. split; [|apply editCopy_edited]. rewrite Hn; [done|].
    intros En. assert (editCopy q date pts x ∈ filter (λ y, isCopyOf (UID target) (peerID (From target)) y = true) ms') as Hf; [|rewrite En in Hf; by apply not_elem_of_nil in Hf].
    apply list_elem_of_filter. split; [|by eapply list_elem_of_lookup_2]. destruct (editCopy_key q date pts x) as ([= _ EU _ _ _] & _ & EF & _). rewrite <-E. by apply isCopyOf_eq.
  - intros u x Hx Hc%copy_spec. rewrite Hb in Hx. pose proof (editBox_rows q date (UID target) (peerID (From target)) (nextPtsOf s u) (boxOf s u)) as H. unfold run in *.
    assert (is_Some (m s !! u)) as Hm. { unfold boxOf in Hx. destruct (m s !! u) as [ms|]; [by eexists|]. by apply not_elem_of_nil in Hx. }
    eexists (mkEdited u x _). split; [|done]. apply list_elem_of_In, in_flat_map. exists u. rewrite <-!list_elem_of_In. split; [by apply elem_of_accounts|]. apply list_elem_of_fmap.
    exists x. split; [reflexivity|].
    destruct (editBox q date (UID target) (peerID (From target)) (nextPtsOf s u) (boxOf s u)) as [[ms' ed] p']. destruct H as (H1 & -> & H3). by apply list_elem_of_filter.
Qed.

(** ** Content protection *)

(** The part of the state that the switch's own mutex guards. *)
Definition guarded s : gmap (Z * Z) PrivateNoForwardsState * gmap Z memoryNoForwardsRequest := (privateNoForwards s, privateNoForwardsRequests s).
Lemma SendPrivateText_guarded now q s : guarded (SendPrivateText C now q s).1 = guarded s.
Proof.
  unfold SendPrivateText. destruct (HasContent q); [|done]. destruct (PrivateSendFingerprint C q) as [e|fp]; [done|]. simpl.
  pose proof (send_cases C now q fp None s) as H. destruct (sendPrivateTextLocked C now q fp None s) as [s' r]. simpl.
  destruct H as [[-> _]|(x & y & [_ (ev & al0 & al & staged & sr & rr & pts & snap & _ & _ & _ & _ & _ & _ & _ & ->)] & _)]; [done|]. unfold commitPrivateSend. cbv zeta.
  destruct (bool_decide (ID y ≠ 0)), (bool_decide (SenderUserID q ≠ RecipientUserID q) && negb (RecipientBlocked q)), snap; simpl; by destruct (dialogs s).
Qed.

(** What a request to the switch may do to the pair's protection. *)
Inductive switched (req : TogglePrivateNoForwardsRequest) (date : Z) s s' (before after : Z) : Prop :=
| sw_same : after = before → switched req date s s' before after
| sw_on : RequestMsgID req = 0 → t_Enabled req = true → before = 0 → after = ActorUserID req → switched req date s s' before after
| sw_off : RequestMsgID req = 0 → t_Enabled req = false → before = ActorUserID req → after = 0 → switched req date s s' before after
| sw_answer uid r :
    RequestMsgID req ≠ 0 → privateNoForwardsRequests s !! uid = Some r → requesterUserID r = PeerUserID req → responderUserID r = ActorUserID req →
    handled r = false → date < expiresAt r → after = (if t_Enabled req then ActorUserID req else 0) →
    privateNoForwardsRequests s' !! uid = Some (mkNoForwardsRequest (privateMessageID r) (requesterUserID r) (responderUserID r) (expiresAt r) true) →
    switched req date s s' before after.
Lemma toggleDecision_Some req date st (source : message) r kind action st' :
  0 < PeerUserID req → toggleDecision req date st (source, r) = inr (Some (kind, action, st')) →
  (RequestMsgID req = 0 ∧
    (t_Enabled req = true ∧ EnabledByUserID st = 0 ∧ EnabledByUserID st' = ActorUserID req ∨ t_Enabled req = false ∧ EnabledByUserID st = ActorUserID req ∧ EnabledByUserID st' = 0 ∨ EnabledByUserID st' = EnabledByUserID st)) ∨
  (RequestMsgID req ≠ 0 ∧ kind = ActionNoForwardsToggle ∧ ID source ≠ 0 ∧ requesterUserID r = PeerUserID req ∧ responderUserID r = ActorUserID req ∧ handled r = false ∧ date < expiresAt r ∧
    EnabledByUserID st' = if t_Enabled req then ActorUserID req else 0).
Proof.
  intros Hp. unfold toggleDecision. destruct (bool_decide_reflect (RequestMsgID req ≠ 0)) as [Hr|Hr].
  - destruct (_ || _ || _ || _ || _ || _) eqn:E; [done|]. rewrite !orb_false_iff, !bool_decide_eq_false in E. destruct E as [[[[[E1 E2] E3] E4] E5] E6]. apply dec_stable in E3, E4. intros [= <- _ <-]. right. split_and!; try done. lia.
  - apply dec_stable in Hr. intros H. left. split; [done|]. destruct (t_Enabled req); revert H.
    + destruct (bool_decide_reflect (EnabledByUserID st ≠ 0)) as [|E]; [done|]. apply dec_stable in E. intros [= _ _ <-]. by left.
    + destruct (bool_decide (EnabledByUserID st = 0)); [done|]. destruct (bool_decide_reflect (EnabledByUserID st = ActorUserID req)); intros [= _ _ <-]; [by right; left|by right; right].
Qed.

(** C31: content protection of a pair is switched on only by a participant for
    himself, and off only by the one who switched it on or by the answer to an
    open request of the peer, which is thereby closed; no other pair's
    protection changes.  A refused request (an answer that comes too late, to a
    request already answered or of somebody else, a send that fails) leaves every
    protection and every open request as it was.  [other] is what other requests
    do meanwhile; the mutex of the switch keeps them from its own state. *)
Theorem noforwards_authority now nano req other s s' r :
  (∀ i t, WF t → WF (other i t) ∧ guarded (other i t) = guarded t) → WF s →
  TogglePrivateNoForwards C now nano req other s = (s', r) →
  match r with
  | inl _ => privateNoForwards s' = privateNoForwards s ∧ privateNoForwardsRequests s' = privateNoForwardsRequests s
  | inr _ => ∃ key, noForwardsPair (ActorUserID req) (PeerUserID req) = Some key ∧
      let date := if bool_decide (t_Date req = 0) then now else t_Date req in
      switched req date s s' (EnabledByUserID (noForwardsOf s key)) (EnabledByUserID (noForwardsOf s' key)) ∧
      ∀ key', key' ≠ key → noForwardsOf s' key' = noForwardsOf s key'
  end.
Proof.
  intros Ho HW E. unfold TogglePrivateNoForwards in E. destruct (noForwardsPair _ _) as [[low high]|] eqn:Hk; [|by injection E as <- <-].
  destruct (_ || _); [by injection E as <- <-|]. set (date := if bool_decide _ then now else _) in *.
  set (rid := if bool_decide (t_RandomID req = 0) then _ else _) in E.
  set (st := mkNoForwards low high _) in E. set (s0 := if bool_decide (RequestMsgID req ≠ 0) then other 0%nat s else s) in E.
  assert (HW0 : WF s0 ∧ guarded s0 = guarded s) by (unfold s0; destruct (bool_decide (RequestMsgID req ≠ 0)); [by apply Ho|done]). destruct HW0 as [HW0 G0].
  set (source := if bool_decide (RequestMsgID req ≠ 0) then findOr (isBoxed (user (PeerUserID req)) (RequestMsgID req)) (boxOf s0 (ActorUserID req)) else noMessage) in E.
  destruct (toggleDecision _ _ _ _) as [e|[[[kind action] st']|]] eqn:Ed; [injection E as <- <-; by injection G0| |].
  2: { injection E as <- <-. exists (low, high). split; [done|]. cbv zeta. assert (∀ k, noForwardsOf s0 k = noForwardsOf s k) as HE by (intros k; unfold noForwardsOf; by injection G0 as -> _). rewrite !HE. split; [by apply sw_same|done]. }
  set (send := mkSend _ _ _ _ _ _ _ _ _ _ _ _ _ _ _ _ _ _ _ _ _ _) in E. pose proof (SendPrivateText_guarded now send (other 1%nat s0)) as G1.
  pose proof (exec_WF C (OpSend now send) _ (proj1 (Ho 1%nat s0 HW0))) as HW1. simpl in HW1.
  destruct (SendPrivateText C now send (other 1%nat s0)) as [s1 [e|sent]]; cbn [fst] in G1, HW1; rewrite (proj2 (Ho _ _ HW0)), G0 in G1; injection G1 as N1 Q1; [by injection E as <- <-|].
  assert (Hp : 0 < PeerUserID req). { unfold noForwardsPair in Hk. destruct (bool_decide_reflect (PeerUserID req ≤ 0)); [by rewrite orb_true_r in Hk|lia]. }
  assert (∃ res, r = inr res) as [res ->] by (injection E as _ <-; eauto). exists (low, high). split; [done|]. cbv zeta.
  destruct (toggleDecision_Some _ _ _ _ _ _ _ _ Hp Ed) as [[Hr Hst]|(Hr & -> & Hsrc & R1 & R2 & R3 & R4 & Hst)].
  - assert (source = noMessage) as Es by (unfold source; by rewrite bool_decide_eq_false_2 by tauto). rewrite Es in E. rewrite (bool_decide_eq_false_2 (UID noMessage ≠ 0)) in E by (by intros []).
    assert (privateNoForwards s' = <[(low, high) := st']> (privateNoForwards s)) as HN by (destruct (bool_decide (kind = _)); injection E as <- _; simpl; by rewrite N1).
    unfold noForwardsOf. rewrite HN. split; [|intros k Hne; by rewrite lookup_insert_ne]. rewrite lookup_insert_eq. simpl.
    change (EnabledByUserID st) with (EnabledByUserID (noForwardsOf s (low, high))) in Hst. fold (noForwardsOf s (low, high)).
    destruct Hst as [(? & ? & ?)|[(? & ? & ?)|?]]; [by apply sw_on|by apply sw_off|by apply sw_same].
  - rewrite (bool_decide_eq_false_2 (ActionNoForwardsToggle = ActionNoForwardsRequest)) in E by done.
    assert (UID source ≠ 0) as HU.
    { unfold source in *. rewrite (bool_decide_eq_true_2 _ Hr) in *. unfold findOr in *. destruct (List.find _ _) as [x|] eqn:Hx; [|done]. simpl in *.
      destruct (find_Some_row _ _ _ Hx) as [Hin _]. destruct (box_rows _ _ _ _ (wf_box _ HW0 _) x Hin) as (_ & _ & ?). lia. }
    rewrite (bool_decide_eq_true_2 (UID source ≠ 0)) in E by done. set (s2 := put_privateNoForwardsRequests _ _) in E. injection E as <- _.
    assert (HW2 : WF s2) by (by destruct HW1). pose proof (proj2 (Ho 2%nat s2 HW2)) as G2. injection G2 as N2 Q2.
    injection G0 as _ Q0. unfold noForwardsRequestOf in R1, R2, R3, R4. rewrite Q0 in R1, R2, R3, R4.
    destruct (privateNoForwardsRequests s !! UID source) as [r|] eqn:Er; simpl in R1, R2, R3, R4; [|lia].
    unfold noForwardsOf. cbn [markNoForwardsRequestExpired privateNoForwards put_m]. rewrite N2. cbn [s2 privateNoForwards put_privateNoForwards put_privateNoForwardsRequests]. rewrite N1.
    split; [|intros k Hne; by rewrite lookup_insert_ne]. rewrite lookup_insert_eq. simpl. apply (sw_answer _ _ _ _ _ _ (UID source) r); try done.
    cbn [markNoForwardsRequestExpired privateNoForwardsRequests put_m]. rewrite Q2. unfold s2, noForwardsRequestOf. simpl. rewrite Q1, Er. by rewrite lookup_insert_eq.
Qed.
End props.
End MailChangeProps.
