(* ===== verification/MailRuns.v ===== *)
(** * Private messages: concrete runs

    A codec for evaluation, runs that show defects and limits of the store, and the
    witnesses of the properties. *)

From stdpp Require Import sorting.
From S2P Require Import Prelude UpdateTypes UpdateStore MailTypes MailStore MailOps MailInv MailBoxes MailSteps MailWorld MailReplay MailDialogs MailDialogSteps MailProps MailChangeProps.
Import Mail MailStore MailOps MailInv MailBoxes MailSteps MailWorld MailReplay MailDialogs MailDialogSteps MailProps MailChangeProps.

Module MailRuns.
Abbreviation message := (Message unit).
Abbreviation store := (@MessageStore unit).

(** Receipts keep the identity of a message; the sum is a 32-byte checksum. *)
Definition demo : @Codec unit :=
  mkCodec (λ v, Some (ext_Text v)) (λ _, None)
    (λ version x, Some [version; ID x; UID x; RandomID x; OwnerUserID x; Pts x])
    (λ raw, match raw with
            | [version; id; uid; rid; owner; pts] =>
              Some (version, set_Pts pts (set_OwnerUserID owner (set_RandomID rid (set_UID uid (set_ID id noMessage)))))
            | _ => None
            end)
    (λ p, Some (fp_RecipientUserID p :: foldl Z.add 0 (fp_Message p) :: replicate 30 0)).
#[export] Instance demo_receipts : JsonReceipts demo.
Proof. split; [intros version x raw [= <-]; by eexists|by intros p h [= <-]]. Qed.

(** Account [from] sends [body] to account [to]. *)
Definition text (from to rid : Z) (body : list Z) : @SendPrivateTextRequest unit :=
  mkSend from to rid body [] None false false None None 5 0 0 0 false [] 0 0 0 0 None None.
Definition start : store := NewMessageStore (Some ∅).
Definition sentBy (q : @SendPrivateTextRequest unit) (s : store) : SendPrivateTextResult :=
  match (SendPrivateText demo 5 q s).2 with inr res => res | inl _ => mkSent noMessage noMessage noEvent noEvent false None end.

(** ** Defects *)

(** A history clear drops the random id of the row it keeps.  When that row is
    deleted later its receipt gets no delete event, and repeating the send fails
    although it was accepted. *)
Definition clearAll : DeleteHistoryRequest := mkDeleteHistory 1 (user 2) 0 0 0 true false 6.
Definition cleared_away : list (@op unit) := [OpSend 5 (text 1 2 77 [104; 105]); OpDeleteHistory 6 clearAll; OpDelete 7 (mkDelete 1 [1] false 7)].
Lemma cleared_send_not_replayed :
  (SendPrivateText demo 8 (text 1 2 77 [104; 105]) (runs demo (take 2 cleared_away) start)).2 ≠ inl (ErrAbsentWithoutReceipt 1) ∧
  (SendPrivateText demo 8 (text 1 2 77 [104; 105]) (runs demo cleared_away start)).2 = inl (ErrAbsentWithoutReceipt 1).
Proof. split; by vm_compute. Qed.

(** Account 1 protects the chat, account 2 asks to lift the protection, account
    1 lifts it himself, and account 2 protects the chat.  The old request is
    still open: its answer lifts the protection that account 2 set. *)
Definition alone (_ : nat) (s : store) : store := s.
Definition toggle (actor peer : Z) (on : bool) (request rid : Z) (s : store) : store :=
  (TogglePrivateNoForwards demo 5 1 (mkToggle actor peer on request rid 10 0 0) alone s).1.
Definition stale : store := toggle 2 1 true 0 104 (toggle 1 2 false 0 103 (toggle 2 1 false 0 102 (toggle 1 2 true 0 101 start))).
Lemma stale_request_lifts_protection :
  EnabledByUserID (noForwardsOf stale (1, 2)) = 2 ∧ EnabledByUserID (noForwardsOf (toggle 1 2 false 2 105 stale) (1, 2)) = 0.
Proof. split; by vm_compute. Qed.

(** A row that is created next to a sent one: the dialog still shows the first. *)
Definition greeting : message := mkMessage 0 0 0 2 (user 1) (user 1) 9 0 false false false false [104; 105] [] None None None 0 0 0 None false false 0 0 0 None None false false noPeer 0.
Lemma create_leaves_dialog :
  let s := runs demo [OpSend 5 (text 1 2 77 [104; 105]); OpCreate 0 greeting] start in
  map ID (boxOf s 2) = [1; 2] ∧ map (λ d, (TopMessage d, UnreadCount d)) (Dialogs (listOf (default ∅ (dialogs s)) 2)) = [(1, 1)].
Proof. split; by vm_compute. Qed.

(** ** Witnesses *)

(** Two messages each way, a read, an edit, a pin and a deletion. *)
Definition chat : list (@op unit) :=
  [OpSend 5 (text 1 2 77 [104; 105]); OpSend 5 (text 2 1 78 [104]); OpSend 5 (text 1 2 79 [105]); OpRead 6 (mkRead 2 (user 1) 1 6);
   OpPin 6 500 (mkPin 1 (user 2) 2 true false false false 6 0 0); OpDelete 7 (mkDelete 2 [2] true 7)].
Lemma chat_ids v : nextBoxOf (reached demo (Some ∅) chat) v ≤ MaxMessageBoxID.
Proof.
  assert (bool_decide (map_Forall (λ _ z, z ≤ MaxMessageBoxID) (nextBox (reached demo (Some ∅) chat))) = true) as H%bool_decide_eq_true by (by vm_compute).
  unfold nextBoxOf. destruct (nextBox _ !! v) as [n|] eqn:E; [by apply (H v n)|done].
Qed.

Lemma dialogs_count_witness :
  let s := reached demo (Some ∅) chat in
  let ds := Dialogs (listOf (default ∅ (dialogs s)) 2) in
  map UnreadCount ds = [2] ∧ NoDup (map DPeer ds).
Proof.
  split; [by vm_compute|]. refine (proj1 (dialogs_count demo chat (default ∅ (dialogs (reached demo (Some ∅) chat))) 2 _ _ chat_ids _)); [..|by vm_compute].
  - intros premiumBot x Hin. by repeat (apply elem_of_cons in Hin as [?|Hin]; [done|]); apply elem_of_nil in Hin.
  - intros ds Hin. by repeat (apply elem_of_cons in Hin as [?|Hin]; [done|]); apply elem_of_nil in Hin.
Defined.
Definition hey : @SendPrivateTextRequest unit := text 2 1 90 [104; 101; 121].
Lemma send_delivers_witness :
  let s := reached demo (Some ∅) chat in
  boxOf (SendPrivateText demo 5 hey s).1 1 = boxOf s 1 ++ sentRows hey (SenderMessage (sentBy hey s)) (RecipientMessage (sentBy hey s)) 1.
Proof.
  assert (E : SendPrivateText demo 5 hey (reached demo (Some ∅) chat) = ((SendPrivateText demo 5 hey (reached demo (Some ∅) chat)).1, inr (sentBy hey (reached demo (Some ∅) chat)))) by (by vm_compute).
  assert (D : Duplicate (sentBy hey (reached demo (Some ∅) chat)) = false) by (by vm_compute).
  exact (proj1 (send_delivers demo (Some ∅) chat 5 hey _ _ E D) 1).
Defined.
Definition hi : @SendPrivateTextRequest unit := text 1 2 77 [104; 105].
Lemma send_exactly_once_witness :
  let s1 := (SendPrivateText demo 5 hi (reached demo (Some ∅) [])).1 in
  let s2 := runs demo (tail chat) s1 in
  (SendPrivateText demo 9 hi s2).1 = s2 ∧ length (boxOf s2 2) = 3%nat.
Proof.
  assert (E : SendPrivateText demo 5 hi (reached demo (Some ∅) []) = ((SendPrivateText demo 5 hi (reached demo (Some ∅) [])).1, inr (sentBy hi (reached demo (Some ∅) [])))) by (by vm_compute).
  assert (N : nextBoxOf (runs demo (tail chat) (SendPrivateText demo 5 hi (reached demo (Some ∅) [])).1) (SenderUserID hi) ≤ MaxMessageBoxID) by (by vm_compute).
  assert (R : q_RandomID hi ≠ 0) by done. assert (F : PrivateSendFingerprint demo hi = inr (2 :: 209 :: replicate 30 0)) by done.
  assert (K : noClears (tail chat) = true) by done. assert (H : HasContent hi = true) by done. split; [|by vm_compute].
  pose proof (send_exactly_once demo (Some ∅) [] 5 hi _ _ (tail chat) 9 hi _ eq_refl K R E N eq_refl eq_refl H F) as [A _]. exact A.
Defined.
Lemma delete_exact_witness :
  let s := reached demo (Some ∅) chat in
  let q := mkDelete 1 [1] true 7 in
  ∃ s' r, DeleteMessages 7 q s = Done (s', inr r) ∧ length (boxOf s 2) = 3%nat ∧ length (boxOf s' 2) = 2%nat.
Proof.
  destruct (delete_exact demo (Some ∅) chat 7 (mkDelete 1 [1] true 7)) as (s' & r & E & H); [done|apply chat_ids|].
  destruct r as [e|r]; [destruct H as (_ & _ & H); by vm_compute in H|]. exists s', r. split_and!; [exact E|by vm_compute|]. rewrite (proj1 (H 2)). by vm_compute.
Defined.
Definition rename : @EditMessageRequest unit := mkEdit 1 (user 2) 1 [121; 111] [] None 9 false false None false None 0 false false 0.
Lemma edit_copies_witness :
  let s := reached demo (Some ∅) chat in
  let s' := (EditMessage 9 rename s).1 in
  map Body (boxOf s 2) ≠ map Body (boxOf s' 2) ∧
  match (EditMessage 9 rename s).2 with inl _ => False | inr edited => ∃ x, x ∈ boxOf s 1 ∧ mayEdit rename x end.
Proof.
  split; [by vm_compute|]. pose proof (edit_copies 9 rename (reached demo (Some ∅) chat) _ _ (surjective_pairing _)) as H.
  assert (match (EditMessage 9 rename (reached demo (Some ∅) chat)).2 with inl _ => False | inr _ => True end) as Hok by (by vm_compute).
  destruct ((EditMessage 9 rename (reached demo (Some ∅) chat)).2) as [e|edited]; [done|]. destruct H as (x & Hx & _ & _ & Hm & _). by exists x.
Defined.
(** Account 1, who protected the chat, lifts the protection. *)
Definition protected : store := toggle 1 2 true 0 101 start.
Lemma protected_WF : WF protected.
Proof.
  set (announce := mkSend (X := unit) 1 2 101 [] [] (Some (serviceMedia (X := unit) ActionNoForwardsToggle (Some (mkNoForwardsAction false true false 0)))) true false None
    None 10 0 0 0 false [] 0 0 0 0 None None).
  apply (WF_shrunk (λ x, x) (exec demo (OpSend 5 announce) start)); [apply uniform_id|apply exec_WF, NewMessageStore_WF|]. apply shrunk_refl; by vm_compute.
Qed.
Lemma noforwards_authority_witness :
  let s' := toggle 1 2 false 0 102 protected in
  EnabledByUserID (noForwardsOf protected (1, 2)) = 1 ∧ EnabledByUserID (noForwardsOf s' (1, 2)) = 0 ∧
  switched (mkToggle 1 2 false 0 102 10 0 0) 10 protected s' (EnabledByUserID (noForwardsOf protected (1, 2))) (EnabledByUserID (noForwardsOf s' (1, 2))).
Proof.
  split_and!; [by vm_compute|by vm_compute|]. set (req := mkToggle 1 2 false 0 102 10 0 0).
  pose proof (noforwards_authority demo 5 1 req alone protected _ _ (λ i t Ht, conj Ht eq_refl) protected_WF (surjective_pairing _)) as H.
  assert (match (TogglePrivateNoForwards demo 5 1 req alone protected).2 with inl _ => False | inr _ => True end) as Hok by (by vm_compute).
  destruct ((TogglePrivateNoForwards demo 5 1 req alone protected).2) as [e|res]; [done|]. destruct H as (key & [= <-] & H & _). exact H.
Defined.
End MailRuns.
