(* ===== verification/MailHistory.v ===== *)
(** * Private messages: history pages and saved dialogs

    The read side of [internal/store/memory/message_history.go] (filters and
    pages of a history) and [saved_dialog.go] (the sub-chats of Saved Messages
    and their pins).  Reactions are opaque; [ReactionView] is what the source
    reads of them.  [strings.ToLower] is an argument: its Unicode tables play no
    part here. *)

From stdpp Require Import sorting.
From S2P Require Import Prelude UpdateTypes UpdateStore MailTypes MailStore MailOps.
Import Mail MailStore MailOps.

Module History.

#[export] Instance Peer_countable : Countable Peer :=
  inj_countable' (λ p, (peerType p, peerID p)) (λ p, mkPeer p.1 p.2) ltac:(by intros []).

(** [AsTags], the keys of [Results], [Key] of one reaction, and the bytes that
    [writeMessageReactionsHash] writes. *)
Class ReactionView (X : Type) := {
  AsTags : X → bool;
  resultKeys : X → list (list Z);
  reactionKey : X → list Z;
  reactionBytes : option X → list Z;
}.

Section history.
Context {X : Type} `{EqX : EqDecision X} `{InhX : Inhabited X} `{RV : ReactionView X} (toLower : list Z → list Z) (premiumBot : Z).
Abbreviation message := (Message X).
Abbreviation store := (@MessageStore X).

(** [Hash], [PhoneCallsOnly], [MissedPhoneCallsOnly] and [NeedTotalCount] are
    fields this store never reads. *)
Record MessageFilter := mkFilter {
  HasPeer : bool; fl_Peer : Peer; Query : list Z; OffsetID : Z; OffsetDate : Z; fl_MinDate : Z; fl_MaxDate : Z; AddOffset : Z; Limit : Z;
  fl_MaxID : Z; fl_MinID : Z; fl_SenderUserID : Z; CountOnly : bool; PinnedOnly : bool; MusicOnly : bool; fl_SavedPeer : Peer;
  SavedReactions : list X; PeerIDs : list Z; RestrictPeerIDs : bool }.
(** [ml_Users] keeps the ids of the accounts. *)
Record MessageList := mkMessageList { ml_Messages : list message; ml_Users : list Z; ml_Count : Z; ml_Hash : Z }.

Definition ClampMessageHistoryAddOffset (v : Z) : Z :=
  if bool_decide (v > MaxMessageHistoryAddOffset) then MaxMessageHistoryAddOffset
  else if bool_decide (v < - MaxMessageHistoryAddOffset) then - MaxMessageHistoryAddOffset
  else v.

(** ** Which messages *)

Fixpoint hasPrefix (s p : list Z) : bool :=
  match p, s with
  | [], _ => true
  | b :: p, a :: s => bool_decide (a = b) && hasPrefix s p
  | _ :: _, [] => false
  end.
(** [strings.Contains]. *)
Fixpoint contains (s p : list Z) : bool :=
  hasPrefix s p || match s with [] => false | _ :: s => contains s p end.
Definition messageHasAnySavedTag (x : message) (wanted : list X) : bool :=
  match Reactions x with
  | None => false
  | Some r => AsTags r && existsb (λ reaction, bool_decide (reactionKey reaction ∈ resultKeys r)) wanted
  end.
Definition selects (f : MessageFilter) (x : message) : bool :=
  negb (HasPeer f && negb (bool_decide (MPeer x = fl_Peer f)))
  && negb (bool_decide (fl_SenderUserID f ≠ 0) && negb (bool_decide (From x = user (fl_SenderUserID f))))
  && negb (RestrictPeerIDs f && (negb (bool_decide (peerType (MPeer x) = PeerTypeUser)) || negb (bool_decide (peerID (MPeer x) ∈ PeerIDs f))))
  && negb (bool_decide (toLower (Query f) ≠ []) && negb (contains (toLower (Body x)) (toLower (Query f))))
  && negb (bool_decide (fl_MinDate f > 0) && bool_decide (Date x ≤ fl_MinDate f))
  && negb (bool_decide (fl_MaxDate f > 0) && bool_decide (fl_MaxDate f ≤ Date x))
  && negb (bool_decide (fl_MaxID f > 0) && bool_decide (fl_MaxID f ≤ ID x))
  && negb (bool_decide (fl_MinID f > 0) && bool_decide (ID x ≤ fl_MinID f))
  && negb (PinnedOnly f && negb (Pinned x))
  && negb (MusicOnly f && negb (IsMusic (Media x)))
  && negb (bool_decide (peerID (fl_SavedPeer f) ≠ 0) && negb (bool_decide (SavedPeer x = fl_SavedPeer f)))
  && negb (bool_decide (length (SavedReactions f) ≠ 0%nat) && negb (messageHasAnySavedTag x (SavedReactions f))).

(** ** Which page of them *)

Definition messageBeforeHistoryOffset (x : message) (f : MessageFilter) : bool :=
  if bool_decide (OffsetDate f > 0) then bool_decide (Date x < OffsetDate f)
  else if bool_decide (OffsetID f ≤ 0) then true
  else bool_decide (ID x < OffsetID f).
Definition messageAfterHistoryOffset (x : message) (f : MessageFilter) : bool :=
  if bool_decide (OffsetDate f > 0) then bool_decide (OffsetDate f ≤ Date x)
  else if bool_decide (OffsetID f ≤ 0) then false
  else bool_decide (OffsetID f ≤ ID x).

(** The loops; [limit] is what [out] still takes. *)
Fixpoint backwardLoop (f : MessageFilter) (limit : Z) (base : list message) : list message :=
  match base with
  | [] => []
  | x :: base =>
    if negb (messageBeforeHistoryOffset x f) then backwardLoop f limit base
    else x :: if bool_decide (limit = 1) then [] else backwardLoop f (limit - 1) base
  end.
Definition backwardMessageHistory (base : list message) (f : MessageFilter) (limit : Z) : list message :=
  if bool_decide (limit ≤ 0) then [] else backwardLoop f limit base.
Fixpoint forwardLoop (f : MessageFilter) (limit skip : Z) (base : list message) : list message :=
  match base with
  | [] => []
  | x :: base =>
    if negb (messageAfterHistoryOffset x f) then forwardLoop f limit skip base
    else if bool_decide (skip > 0) then forwardLoop f limit (skip - 1) base
    else x :: if bool_decide (limit = 1) then [] else forwardLoop f (limit - 1) skip base
  end.
Definition sortDesc (ms : list message) : list message := merge_sort byIDDesc ms.
Definition forwardMessageHistory (base : list message) (f : MessageFilter) (limit skip : Z) : list message :=
  if bool_decide (limit ≤ 0) then [] else sortDesc (forwardLoop f limit skip (rev base)).

Inductive messageHistoryLoad := messageHistoryLoadBackward | messageHistoryLoadForward | messageHistoryLoadAround.
Definition messageHistoryLoadType (addOffset limit : Z) : messageHistoryLoad :=
  if bool_decide (0 ≤ addOffset) then messageHistoryLoadBackward
  else if bool_decide (addOffset + limit > 0) then messageHistoryLoadAround
  else messageHistoryLoadForward.
Definition pageMessageHistory (base : list message) (f : MessageFilter) (limit : Z) : list message :=
  if bool_decide (limit ≤ 0) || bool_decide (length base = 0%nat) then []
  else
    match messageHistoryLoadType (AddOffset f) limit with
    | messageHistoryLoadForward => forwardMessageHistory base f limit (- AddOffset f - limit)
    | messageHistoryLoadAround =>
      let forwardLimit := if bool_decide (- AddOffset f > limit) then limit else - AddOffset f in
      let backwardLimit := if bool_decide (limit + AddOffset f < 0) then 0 else limit + AddOffset f in
      sortDesc (forwardMessageHistory base f forwardLimit 0 ++ backwardMessageHistory base f backwardLimit)
    | messageHistoryLoadBackward =>
      let start := if bool_decide (AddOffset f < 0) then 0 else AddOffset f in
      let candidates := backwardMessageHistory base f (limit + start) in
      if bool_decide (len candidates ≤ start) then [] else drop (Z.to_nat start) candidates
    end.

(** ** The answer *)

(** FNV-1a, 64 bit. *)
Definition fnv64a (b : list Z) : Z := foldl (λ h x, Z.lxor h x * 1099511628211 mod 2 ^ 64) 14695981039346656037 b.
Definition messageListHash (ms : list message) : Z :=
  if bool_decide (length ms = 0%nat) then 0
  else wrap64 (fnv64a (flat_map (λ x, le_bytes 4 (ID x mod 2 ^ 32) ++ le_bytes 4 (Date x mod 2 ^ 32) ++ le_bytes 8 (peerID (From x) mod 2 ^ 64)
                                        ++ reactionBytes (Reactions x)) ms)).
Fixpoint usersLoop (seen : list Z) (ps : list Peer) : list Z :=
  match ps with
  | [] => []
  | p :: ps =>
    if negb (bool_decide (peerType p = PeerTypeUser)) || bool_decide (peerID p ∈ seen) then usersLoop seen ps
    else if isSystemUser premiumBot (peerID p) then peerID p :: usersLoop (peerID p :: seen) ps
    else usersLoop (peerID p :: seen) ps
  end.
Definition usersForMessages (ms : list message) : list Z := usersLoop [] (flat_map (λ x, [MPeer x; From x]) ms).

Definition set_AddOffset (v : Z) (f : MessageFilter) : MessageFilter :=
  mkFilter (HasPeer f) (fl_Peer f) (Query f) (OffsetID f) (OffsetDate f) (fl_MinDate f) (fl_MaxDate f) v (Limit f) (fl_MaxID f) (fl_MinID f)
    (fl_SenderUserID f) (CountOnly f) (PinnedOnly f) (MusicOnly f) (fl_SavedPeer f) (SavedReactions f) (PeerIDs f) (RestrictPeerIDs f).
Definition pageLimit (f : MessageFilter) : Z :=
  let limit := if bool_decide (Limit f ≤ 0) then 100 else Limit f in
  if bool_decide (limit > 500) then 500 else limit.
Definition filterMessageList (ms : list message) (f : MessageFilter) : MessageList :=
  let f := set_AddOffset (ClampMessageHistoryAddOffset (AddOffset f)) f in
  let base := filter (λ x, selects f x = true) (sortDesc ms) in
  if CountOnly f then mkMessageList [] [] (len base) 0
  else
    let page := pageMessageHistory base f (pageLimit f) in
    mkMessageList page (usersForMessages page) (len base) (messageListHash base).

(** ** Saved dialogs *)

Definition MaxPinnedSavedDialogs : Z := 100.
Definition MaxSavedDialogsLimit : Z := 100.
Record SavedDialog := mkSavedDialog { sd_Peer : Peer; sd_TopMessage : Z; sd_Pinned : bool }.
Record SavedDialogList := mkSavedList { sl_Dialogs : list SavedDialog; sl_Messages : list message; sl_Count : Z; sl_Full : bool }.
(** [OffsetDate] and [OffsetPeer] are not read either. *)
Record SavedDialogsFilter := mkSavedFilter { ExcludePinned : bool; sf_OffsetID : Z; sf_Limit : Z }.

(** The newest message of every sub-chat, newest first. *)
Definition savedTops (userID : Z) (ms : list message) : gmap Peer message :=
  foldl (λ tops x,
    if negb (bool_decide (MPeer x = user userID)) || bool_decide (peerID (SavedPeer x) = 0) then tops
    else match tops !! SavedPeer x with
         | Some cur => if bool_decide (ID x > ID cur) then <[SavedPeer x := x]> tops else tops
         | None => <[SavedPeer x := x]> tops
         end) ∅ ms.
Definition savedDialogTopsLocked (userID : Z) (s : store) : list message := sortDesc (map snd (map_to_list (savedTops userID (boxOf s userID)))).
Definition topByPeer (tops : list message) : gmap Peer message := foldl (λ by_ x, <[SavedPeer x := x]> by_) ∅ tops.
Definition pinsOf (s : store) (userID : Z) : list Peer := default [] (savedPins s !! userID).
Definition isSavedPin (s : store) (userID : Z) (p : Peer) : bool := bool_decide (p ∈ pinsOf s userID).
Definition savedRow (x : message) (pinned : bool) : SavedDialog := mkSavedDialog (SavedPeer x) (ID x) pinned.

(** The pin block; [n] dialogs may still come. *)
Fixpoint pinBlock (tops : gmap Peer message) (n : nat) (pins : list Peer) : list message :=
  match pins, n with
  | [], _ | _, O => []
  | p :: pins, S n' => match tops !! p with Some x => x :: pinBlock tops n' pins | None => pinBlock tops n pins end
  end.
(** The normal block, and whether something is left. *)
Fixpoint normalBlock (pinned : Peer → bool) (firstPage : bool) (offsetID : Z) (n : nat) (tops : list message) : list message * bool :=
  match tops with
  | [] => ([], false)
  | x :: tops =>
    match n with
    | O => let '(out, more) := normalBlock pinned firstPage offsetID n tops in
           (out, (negb (pinned (SavedPeer x)) && (firstPage || bool_decide (ID x < offsetID))) || more)
    | S n' =>
      if pinned (SavedPeer x) then normalBlock pinned firstPage offsetID n tops
      else if negb firstPage && bool_decide (offsetID ≤ ID x) then normalBlock pinned firstPage offsetID n tops
      else let '(out, more) := normalBlock pinned firstPage offsetID n' tops in (x :: out, more)
    end
  end.
Definition savedLimit (f : SavedDialogsFilter) : Z :=
  if bool_decide (sf_Limit f ≤ 0) || bool_decide (sf_Limit f > MaxSavedDialogsLimit) then MaxSavedDialogsLimit else sf_Limit f.
(** [None] is the error of a missing account. *)
Definition ListSavedDialogs (userID : Z) (f : SavedDialogsFilter) (s : store) : option SavedDialogList :=
  if bool_decide (userID = 0) then None
  else
    let limit := Z.to_nat (savedLimit f) in
    let firstPage := bool_decide (sf_OffsetID f ≤ 0) || bool_decide (MaxMessageBoxID ≤ sf_OffsetID f) in
    let tops := savedDialogTopsLocked userID s in
    let pins := if firstPage && negb (ExcludePinned f) then pinBlock (topByPeer tops) limit (pinsOf s userID) else [] in
    let '(normal, hasMore) := normalBlock (isSavedPin s userID) firstPage (sf_OffsetID f) (limit - length pins) tops in
    Some (mkSavedList (map (λ x, savedRow x true) pins ++ map (λ x, savedRow x false) normal) (pins ++ normal)
      (len (filter (λ x, ExcludePinned f && isSavedPin s userID (SavedPeer x) = false) tops)) (negb hasMore)).
Definition ListPinnedSavedDialogs (userID : Z) (s : store) : option SavedDialogList :=
  if bool_decide (userID = 0) then None
  else
    let pins := omap (λ p, topByPeer (savedDialogTopsLocked userID s) !! p) (pinsOf s userID) in
    Some (mkSavedList (map (λ x, savedRow x true) pins) pins (len pins) true).
Fixpoint distinctPeers (seen : list Peer) (ps : list Peer) : list Peer :=
  match ps with
  | [] => []
  | p :: ps =>
    if bool_decide (peerType p = PeerTypeNone) || bool_decide (peerID p = 0) || bool_decide (p ∈ seen) then distinctPeers seen ps
    else p :: distinctPeers (p :: seen) ps
  end.
Definition ListSavedDialogsByPeers (userID : Z) (ps : list Peer) (s : store) : option SavedDialogList :=
  if bool_decide (userID = 0) then None
  else
    let out := omap (λ p, topByPeer (savedDialogTopsLocked userID s) !! p) (distinctPeers [] ps) in
    Some (mkSavedList (map (λ x, savedRow x (isSavedPin s userID (SavedPeer x))) out) out (len out) true).

Definition putPins (userID : Z) (pins : list Peer) (s : store) : store := put_savedPins (<[userID := pins]> (savedPins s)) s.
Inductive savedError := ErrSavedInput | ErrPinnedSavedDialogsTooMuch.
Definition ToggleSavedDialogPin (userID : Z) (p : Peer) (pinned : bool) (s : store) : store * (savedError + bool) :=
  if bool_decide (userID = 0) || bool_decide (peerType p = PeerTypeNone) || bool_decide (peerID p = 0) then (s, inl ErrSavedInput)
  else
    let pins := pinsOf s userID in
    match list_find (λ q, q = p) pins with
    | Some (i, _) => if pinned then (s, inr false) else (putPins userID (take i pins ++ drop (S i) pins) s, inr true)
    | None =>
      if negb pinned then (s, inr false)
      else if bool_decide (MaxPinnedSavedDialogs ≤ len pins) then (s, inl ErrPinnedSavedDialogsTooMuch)
      else (putPins userID (p :: pins) s, inr true)
    end.
Definition ReorderPinnedSavedDialogs (userID : Z) (order : list Peer) (force : bool) (s : store) : store * (savedError + unit) :=
  if bool_decide (userID = 0) then (s, inl ErrSavedInput)
  else if bool_decide (len order > MaxPinnedSavedDialogs) then (s, inl ErrPinnedSavedDialogsTooMuch)
  else
    let next := distinctPeers [] order in
    let next := if force then next else next ++ filter (λ p, p ∉ next) (pinsOf s userID) in
    (putPins userID next s, inr tt).
End history.
End History.
