(* ===== verification/MailHistoryProps.v ===== *)
(** * Private messages: properties of history pages *)

From stdpp Require Import sorting.
From S2P Require Import Prelude UpdateTypes UpdateStore MailTypes MailStore MailOps MailInv MailBoxes MailHistory.
Import Mail MailStore MailOps MailInv MailBoxes History.

Module HistoryProps.
Section props.
Context {X : Type} `{EqX : EqDecision X} `{InhX : Inhabited X} `{RV : ReactionView X} (toLower : list Z → list Z) (premiumBot : Z).
Abbreviation message := (Message X).
Implicit Types (x y : message) (ms l : list message) (f : @MessageFilter X).

(** ** Orders *)

Definition Ascending ms : Prop := StronglySorted Z.lt (map ID ms).
Definition Descending ms : Prop := StronglySorted (λ x y, ID y < ID x) ms.

#[local] Instance byIDDesc_total : Total (@byIDDesc X).
Proof. intros x y. unfold byIDDesc. lia. Qed.
#[local] Instance byIDDesc_trans : Transitive (@byIDDesc X).
Proof. intros x y z. unfold byIDDesc. lia. Qed.

Lemma Descending_rev ms : Ascending ms → Descending (rev ms).
Proof.
  unfold Ascending, Descending. induction ms as [|x ms IH]; simpl; [constructor|]. intros [HS HF]%StronglySorted_inv.
  apply StronglySorted_app_2; [|by apply IH|by repeat constructor]. intros y z Hy ->%list_elem_of_singleton. rewrite <-Permutation_rev in Hy.
  rewrite Forall_forall in HF. apply HF. by apply list_elem_of_fmap_2.
Qed.
Lemma Descending_filter (P : message → Prop) `{!∀ x, Decision (P x)} l : Descending l → Descending (filter P l).
Proof.
  intros HS. induction HS as [|x l HS IH HF]; [constructor|]. rewrite filter_cons. case_decide; [|done]. constructor; [done|].
  apply Forall_forall. intros y [_ Hy]%list_elem_of_filter. rewrite Forall_forall in HF. by apply HF.
Qed.
Lemma filter_rev_eq (P : message → Prop) `{!∀ x, Decision (P x)} l : filter P (rev l) = rev (filter P l).
Proof.
  induction l as [|x l IH]; [done|]. simpl. rewrite filter_app, IH, !filter_cons, filter_nil. case_decide; [done|by rewrite app_nil_r].
Qed.
(** Sorting is reversing an ascending list, and keeps a descending one. *)
Lemma sortDesc_perm l l' : Permutation l l' → Descending l' → sortDesc l = l'.
Proof.
  intros HP HD. unfold sortDesc. apply (StronglySorted_unique_strong byIDDesc).
  - intros x1 x2 H1 H2 L1 L2. unfold byIDDesc in *. rewrite merge_sort_Permutation, HP in H1.
    assert (E : ID x1 = ID x2) by lia. clear -HD H1 H2 E. induction HD as [|z l HD IH HF]; [by apply not_elem_of_nil in H1|]. rewrite Forall_forall in HF.
    apply elem_of_cons in H1 as [->|H1], H2 as [->|H2]; [done|specialize (HF x2 H2); lia|specialize (HF x1 H1); lia|by apply IH].
  - apply StronglySorted_merge_sort; apply _.
  - clear HP. induction HD as [|x l' HD IH HF]; constructor; [done|]. eapply Forall_impl; [exact HF|]. intros y. unfold byIDDesc. simpl. lia.
  - by rewrite merge_sort_Permutation.
Qed.
Lemma sortDesc_rev ms : Ascending ms → sortDesc ms = rev ms.
Proof. intros HA. apply sortDesc_perm; [apply Permutation_rev|by apply Descending_rev]. Qed.
Lemma sortDesc_id l : Descending l → sortDesc l = l.
Proof. by apply sortDesc_perm. Qed.

(** ** The loops *)

Lemma backwardLoop_take f limit l : 1 ≤ limit → backwardLoop f limit l = take (Z.to_nat limit) (filter (λ x, messageBeforeHistoryOffset x f = true) l).
Proof.
  revert limit. induction l as [|x l IH]; intros limit Hl; [by rewrite filter_nil, take_nil|]. simpl. rewrite filter_cons. destruct (messageBeforeHistoryOffset x f) eqn:E; simpl.
  - case_bool_decide as H1; [by subst|]. rewrite IH by lia. replace (Z.to_nat limit) with (S (Z.to_nat (limit - 1))) by lia. done.
  - by apply IH.
Qed.
Lemma forwardLoop_take f limit skip l :
  1 ≤ limit → forwardLoop f limit skip l = take (Z.to_nat limit) (drop (Z.to_nat skip) (filter (λ x, messageAfterHistoryOffset x f = true) l)).
Proof.
  revert limit skip. induction l as [|x l IH]; intros limit skip Hl; [by rewrite filter_nil, drop_nil, take_nil|]. simpl. rewrite filter_cons. destruct (messageAfterHistoryOffset x f) eqn:E; simpl.
  - case_bool_decide as Hs.
    + rewrite IH by lia. replace (Z.to_nat skip) with (S (Z.to_nat (skip - 1))) by lia. done.
    + replace (Z.to_nat skip) with 0%nat by lia. simpl. case_bool_decide as H1; [by subst|]. rewrite IH by lia.
      replace (Z.to_nat skip) with 0%nat by lia. replace (Z.to_nat limit) with (S (Z.to_nat (limit - 1))) by lia. done.
  - by apply IH.
Qed.
Lemma rev_take_drop_rev {A} (l : list A) (m k : nat) : rev (take m (drop k (rev l))) = drop (length l - k - m) (take (length l - k) l).
Proof. by rewrite skipn_rev, firstn_rev, length_take, rev_involutive, Nat.min_l by lia. Qed.
Lemma Ascending_part (l : list message) (m k : nat) : Descending l → Descending (rev (take m (drop k (rev l)))).
Proof.
  intros HD. rewrite rev_take_drop_rev. unfold Descending in *. apply (StronglySorted_app_1_r _ (take (length l - k - m) (take (length l - k) l))).
  rewrite take_drop. apply (StronglySorted_app_1_l _ _ (drop (length l - k) l)). by rewrite take_drop.
Qed.
Lemma forward_part f limit skip l :
  Descending l → 1 ≤ limit → let A := filter (λ x, messageAfterHistoryOffset x f = true) l in
  forwardMessageHistory l f limit skip = drop (length A - Z.to_nat skip - Z.to_nat limit) (take (length A - Z.to_nat skip) A).
Proof.
  intros HD Hl A. unfold forwardMessageHistory. rewrite bool_decide_eq_false_2 by lia. rewrite forwardLoop_take by done.
  rewrite filter_rev_eq. fold A. rewrite <-rev_take_drop_rev. apply sortDesc_perm; [apply Permutation_rev|]. apply Ascending_part. by apply Descending_filter.
Qed.

(** ** The page as a window *)

(** The messages not older than the offset. *)
Definition NotOlder f x : Prop := 0 < OffsetDate f ≤ Date x ∨ OffsetDate f ≤ 0 ∧ 0 < OffsetID f ≤ ID x.
#[export] Instance NotOlder_dec f x : Decision (NotOlder f x).
Proof. unfold NotOlder. apply _. Defined.
Lemma after_spec f x : messageAfterHistoryOffset x f = true ↔ NotOlder f x.
Proof. unfold messageAfterHistoryOffset, NotOlder. repeat case_bool_decide; split; try done; lia. Qed.
Lemma before_spec f x : messageBeforeHistoryOffset x f = true ↔ ¬ NotOlder f x.
Proof. unfold messageBeforeHistoryOffset, NotOlder. repeat case_bool_decide; split; try done; lia. Qed.
(** When dates do not fall as ids grow, they come first. *)
Lemma split_at_offset f l :
  Descending l → (OffsetDate f > 0 → ∀ x y, x ∈ l → y ∈ l → ID x ≤ ID y → Date x ≤ Date y) →
  filter (NotOlder f) l ++ filter (λ x, ¬ NotOlder f x) l = l.
Proof.
  intros HD. induction HD as [|x l HD IH HF]; intros Hm; [done|]. rewrite !filter_cons. destruct (decide (NotOlder f x)) as [Hx|Hx].
  - rewrite (decide_False (P := ¬ NotOlder f x)) by tauto. simpl. f_equal. apply IH. intros Hd y z Hy Hz. apply Hm; [done|by right..].
  - rewrite (decide_True (P := ¬ NotOlder f x)) by done. rewrite list_filter_nil; [simpl; f_equal|]; [|].
    + apply list_filter_id. intros y Hy Hn. apply Hx. rewrite Forall_forall in HF. specialize (HF y Hy). destruct Hn as [Hn|Hn]; [left|right; lia].
      specialize (Hm ltac:(lia) y x ltac:(by right) ltac:(by left)). lia.
    + intros y Hy Hn. apply Hx. rewrite Forall_forall in HF. specialize (HF y Hy). destruct Hn as [Hn|Hn]; [left|right; lia].
      specialize (Hm ltac:(lia) y x ltac:(by right) ltac:(by left)). lia.
Qed.
(** [window lo hi l]: the elements of [l] at positions from [lo] to [hi]; a
    negative bound is the start of the list. *)
Definition window {A} (lo hi : Z) (l : list A) : list A := drop (Z.to_nat lo) (take (Z.to_nat hi) l).

Lemma Descending_window l lo hi : Descending l → Descending (window lo hi l).
Proof.
  intros HD. unfold window, Descending in *. apply (StronglySorted_app_1_r _ (take (Z.to_nat lo) (take (Z.to_nat hi) l))).
  rewrite take_drop. apply (StronglySorted_app_1_l _ _ (drop (Z.to_nat hi) l)). by rewrite take_drop.
Qed.
Lemma backward_part f limit l : backwardMessageHistory l f limit = take (Z.to_nat limit) (filter (λ x, messageBeforeHistoryOffset x f = true) l).
Proof.
  unfold backwardMessageHistory. case_bool_decide; [|apply backwardLoop_take; lia]. by replace (Z.to_nat limit) with 0%nat by lia.
Qed.
Lemma sortDesc_Permutation l : Permutation (sortDesc l) l.
Proof. apply merge_sort_Permutation. Qed.
Lemma Descending_sort l : NoDup (map ID l) → Descending (sortDesc l).
Proof.
  intros HN. rewrite <-(sortDesc_Permutation l) in HN. pose proof (StronglySorted_merge_sort byIDDesc l) as HS. fold (sortDesc l) in HS. unfold Descending. clear -HN HS.
  induction HS as [|x l' HS IH HF]; [constructor|]. apply NoDup_cons in HN as [Hn HN]. constructor; [by apply IH|]. rewrite Forall_forall in HF |- *. intros y Hy.
  specialize (HF y Hy). unfold byIDDesc in HF. assert (ID x ≠ ID y); [|lia]. intros E. apply Hn. rewrite E. by apply list_elem_of_fmap_2.
Qed.
Lemma Descending_NoDup l : Descending l → NoDup (map ID l).
Proof.
  induction 1 as [|x l HS IH HF]; [constructor|]. constructor; [|done]. intros (y & E & Hy)%list_elem_of_fmap. rewrite Forall_forall in HF. specialize (HF y Hy). lia.
Qed.
Lemma pageMessageHistory_window f l limit :
  Descending l → 1 ≤ limit →
  let arranged := filter (NotOlder f) l ++ filter (λ x, ¬ NotOlder f x) l in
  let from := len (filter (NotOlder f) l) + AddOffset f in
  Permutation (pageMessageHistory l f limit) (window from (from + limit) arranged) ∧ Descending (pageMessageHistory l f limit).
Proof.
  intros HD Hl arranged from. unfold pageMessageHistory, messageHistoryLoadType. rewrite (bool_decide_eq_false_2 (limit ≤ 0)) by lia. simpl.
  destruct (decide (length l = 0%nat)) as [->%nil_length_inv|Hne].
  { assert (arranged = []) as -> by done. unfold window. rewrite take_nil, drop_nil. split; [done|constructor]. }
  rewrite (bool_decide_eq_false_2 _ Hne). pose proof (list_filter_iff _ _ l (after_spec f)) as EA. pose proof (list_filter_iff _ _ l (before_spec f)) as EB.
  unfold arranged, from. clear arranged from. set (A := filter (NotOlder f) l) in *. set (B := filter (λ x, ¬ NotOlder f x) l) in *. set (k := len A).
  assert (HDA : Descending A) by (by apply Descending_filter). assert (HDB : Descending B) by (by apply Descending_filter).
  assert (Hsame : ∀ p q, p = q → Descending q → Permutation p q ∧ Descending p) by (by intros p q ->).
  destruct (decide (0 ≤ AddOffset f)) as [Ha|Ha]; [rewrite (bool_decide_eq_true_2 _ Ha)|rewrite (bool_decide_eq_false_2 _ Ha)].
  - rewrite (bool_decide_eq_false_2 (AddOffset f < 0)) by lia. rewrite backward_part, EB.
    assert (E : window (AddOffset f) (limit + AddOffset f) B = window (k + AddOffset f) (k + AddOffset f + limit) (A ++ B)).
    { unfold window. rewrite take_app_ge by (unfold k, len; lia). rewrite drop_app_ge by (unfold k, len; lia). f_equal; [unfold k, len; lia|]. f_equal. unfold k, len. lia. }
    apply Hsame; [|rewrite <-E; by apply Descending_window]. rewrite <-E. unfold window. case_bool_decide as Hc; [|done]. symmetry. apply drop_ge. unfold len in Hc. lia.
  - destruct (decide (AddOffset f + limit > 0)) as [Hb|Hb]; [rewrite (bool_decide_eq_true_2 _ Hb)|rewrite (bool_decide_eq_false_2 _ Hb)].
    + rewrite (bool_decide_eq_false_2 (- AddOffset f > limit)) by lia. rewrite (bool_decide_eq_false_2 (limit + AddOffset f < 0)) by lia.
      rewrite forward_part, backward_part, EA, EB by (done || lia).
      assert (E : drop (length A - Z.to_nat 0 - Z.to_nat (- AddOffset f)) (take (length A - Z.to_nat 0) A) ++ take (Z.to_nat (limit + AddOffset f)) B
        = window (k + AddOffset f) (k + AddOffset f + limit) (A ++ B)).
      { unfold window. rewrite take_app_ge by (unfold k, len; lia). rewrite drop_app_le by (unfold k, len; lia).
        f_equal; [|f_equal; unfold k, len; lia]. rewrite take_ge by lia. f_equal. unfold k, len. lia. }
      rewrite E. split; [apply sortDesc_Permutation|]. apply Descending_sort. unfold window. eapply sublist_NoDup; [|apply sublist_map; etrans; [apply sublist_drop|apply sublist_take]].
      pose proof (Descending_NoDup l HD) as HN. rewrite <-(filter_app_complement (NotOlder f) l) in HN. exact HN.
    + rewrite forward_part, EA by (done || lia).
      assert (E : window (k + AddOffset f) (k + AddOffset f + limit) A = window (k + AddOffset f) (k + AddOffset f + limit) (A ++ B)).
      { unfold window. by rewrite take_app_le by (unfold k, len; lia). }
      apply Hsame; [|rewrite <-E; by apply Descending_window]. rewrite <-E. unfold window. f_equal; [unfold k, len; lia|]. f_equal. unfold k, len. lia.
Qed.

(** ** The selection *)

(** What a filter asks of a message. *)
Record Selected f x : Prop := {
  sel_peer : HasPeer f = true → MPeer x = fl_Peer f;
  sel_sender : fl_SenderUserID f ≠ 0 → From x = user (fl_SenderUserID f);
  sel_peers : RestrictPeerIDs f = true → peerType (MPeer x) = PeerTypeUser ∧ peerID (MPeer x) ∈ PeerIDs f;
  sel_query : toLower (Query f) ≠ [] → ∃ a b, toLower (Body x) = a ++ toLower (Query f) ++ b;
  sel_minDate : 0 < fl_MinDate f → fl_MinDate f < Date x;
  sel_maxDate : 0 < fl_MaxDate f → Date x < fl_MaxDate f;
  sel_maxID : 0 < fl_MaxID f → ID x < fl_MaxID f;
  sel_minID : 0 < fl_MinID f → fl_MinID f < ID x;
  sel_pinned : PinnedOnly f = true → Pinned x = true;
  sel_music : MusicOnly f = true → ∃ a d, Media x = Some a ∧ Kind a = KindDocument ∧ media_Document a = Some d ∧ Voice a = false ∧ false ∈ doc_Audio d;
  sel_saved : peerID (fl_SavedPeer f) ≠ 0 → SavedPeer x = fl_SavedPeer f;
  sel_tags : SavedReactions f ≠ [] → ∃ r tag, Reactions x = Some r ∧ AsTags r = true ∧ tag ∈ SavedReactions f ∧ reactionKey tag ∈ resultKeys r;
}.
Lemma hasPrefix_spec (s p : list Z) : hasPrefix s p = true ↔ ∃ b, s = p ++ b.
Proof.
  revert s. induction p as [|c p IH]; intros s; simpl; [split; [by exists s|by destruct s]|]. destruct s as [|a s]; [split; [done|by intros [b ?]]|].
  simpl. rewrite andb_true_iff, bool_decide_eq_true, IH. split; [intros [-> [b ->]]; by exists b|intros [b [= -> ->]]; split; [done|by exists b]].
Qed.
Lemma contains_spec (s p : list Z) : contains s p = true ↔ ∃ a b, s = a ++ p ++ b.
Proof.
  induction s as [|c s IH].
  - cbn [contains]. rewrite orb_true_iff, hasPrefix_spec. split; [intros [[b E]|?]; [by exists [], b|done]|intros (a & b & E); left; exists b; by destruct a].
  - cbn [contains]. rewrite orb_true_iff, hasPrefix_spec, IH. split.
    + intros [[b E]|(a & b & ->)]; [by exists [], b|by exists (c :: a), b].
    + intros ([|d a] & b & E); [left; by exists b|right]. injection E as _ ->. by exists a, b.
Qed.
Lemma music_spec x : IsMusic (Media x) = true ↔ ∃ a d, Media x = Some a ∧ Kind a = KindDocument ∧ media_Document a = Some d ∧ Voice a = false ∧ false ∈ doc_Audio d.
Proof.
  unfold IsMusic, documentIsMusic. destruct (Media x) as [a|]; [|by naive_solver]. rewrite andb_true_iff, bool_decide_eq_true. destruct (media_Document a) as [d|] eqn:Ed; [|naive_solver].
  rewrite andb_true_iff, negb_true_iff, existsb_exists. split.
  - intros (? & ? & [] & Hb%list_elem_of_In & ?); [done|]. by exists a, d.
  - intros (a' & d' & [= <-] & ? & ? & ? & Hb). simplify_eq. split_and!; [done|done|]. exists false. by rewrite <-list_elem_of_In.
Qed.
Lemma tag_spec x wanted : messageHasAnySavedTag x wanted = true ↔ ∃ r tag, Reactions x = Some r ∧ AsTags r = true ∧ tag ∈ wanted ∧ reactionKey tag ∈ resultKeys r.
Proof.
  unfold messageHasAnySavedTag. destruct (Reactions x) as [r|]; [|naive_solver]. rewrite andb_true_iff, existsb_exists. split.
  - intros (? & tag & Ht%list_elem_of_In & ?%bool_decide_eq_true). by exists r, tag.
  - intros (r' & tag & [= <-] & ? & Ht & ?). split; [done|]. exists tag. rewrite <-list_elem_of_In. split; [done|by apply bool_decide_eq_true].
Qed.
Lemma guard_spec (P Q : Prop) (b c : bool) : (b = true ↔ P) → (c = true ↔ Q) → negb (b && negb c) = true ↔ (P → Q).
Proof. intros H1 H2. destruct b, c; simpl; naive_solver. Qed.
Lemma excluded_spec (P Q : Prop) (b c : bool) : (b = true ↔ P) → (c = true ↔ ¬ Q) → Decision Q → negb (b && c) = true ↔ (P → Q).
Proof. intros H1 H2 []; destruct b, c; simpl; naive_solver. Qed.
Lemma selects_spec f x : selects toLower f x = true ↔ Selected f x.
Proof.
  assert (E1 := guard_spec (HasPeer f = true) _ (HasPeer f) _ ltac:(done) (bool_decide_eq_true (MPeer x = fl_Peer f))).
  assert (E2 := guard_spec _ _ _ _ (bool_decide_eq_true (fl_SenderUserID f ≠ 0)) (bool_decide_eq_true (From x = user (fl_SenderUserID f)))).
  assert (E3 : negb (RestrictPeerIDs f && (negb (bool_decide (peerType (MPeer x) = PeerTypeUser)) || negb (bool_decide (peerID (MPeer x) ∈ PeerIDs f)))) = true ↔
    (RestrictPeerIDs f = true → peerType (MPeer x) = PeerTypeUser ∧ peerID (MPeer x) ∈ PeerIDs f)).
  { rewrite <-negb_andb. apply guard_spec; [done|]. by rewrite andb_true_iff, !bool_decide_eq_true. }
  assert (E4 := guard_spec _ _ _ _ (bool_decide_eq_true (toLower (Query f) ≠ [])) (contains_spec (toLower (Body x)) (toLower (Query f)))).
  assert (Hlt : ∀ a b c : Z, negb (bool_decide (a > 0) && bool_decide (b ≤ c)) = true ↔ (0 < a → c < b)).
  { intros a b c. apply excluded_spec; [rewrite bool_decide_eq_true; lia|rewrite bool_decide_eq_true; lia|apply _]. }
  assert (E5 := guard_spec (PinnedOnly f = true) (Pinned x = true) (PinnedOnly f) _ ltac:(done) ltac:(done)).
  assert (E6 := guard_spec (MusicOnly f = true) _ (MusicOnly f) _ ltac:(done) (music_spec x)).
  assert (E7 := guard_spec _ _ _ _ (bool_decide_eq_true (peerID (fl_SavedPeer f) ≠ 0)) (bool_decide_eq_true (SavedPeer x = fl_SavedPeer f))).
  assert (E8 : negb (bool_decide (length (SavedReactions f) ≠ 0%nat) && negb (messageHasAnySavedTag x (SavedReactions f))) = true ↔
    (SavedReactions f ≠ [] → ∃ r tag, Reactions x = Some r ∧ AsTags r = true ∧ tag ∈ SavedReactions f ∧ reactionKey tag ∈ resultKeys r)).
  { apply guard_spec; [rewrite bool_decide_eq_true; by destruct (SavedReactions f)|apply tag_spec]. }
  unfold selects. rewrite !andb_true_iff, E1, E2, E3, E4, !Hlt, E5, E6, E7, E8. split; [intros; by split; tauto|intros []; tauto].
Qed.

(** ** The list *)

Lemma pageLimit_spec f : pageLimit f = if bool_decide (Limit f ≤ 0) then 100 else Z.min 500 (Limit f).
Proof. unfold pageLimit. repeat case_bool_decide; lia. Qed.
Lemma clamp_spec (v : Z) : ClampMessageHistoryAddOffset v = Z.max (-100) (Z.min 100 v).
Proof. unfold ClampMessageHistoryAddOffset, MaxMessageHistoryAddOffset. repeat case_bool_decide; lia. Qed.

End props.
End HistoryProps.
