(* ===== verification/MailSavedProps.v ===== *)
(** * Private messages: the sub-chats of Saved Messages

    The pages of [ListSavedDialogs] list every sub-chat once, and the pins never
    repeat.  Module [SavedRuns] has two runs that show defects of Saved
    Messages, and the witnesses of the read side. *)

From stdpp Require Import sorting.
From S2P Require Import Prelude UpdateTypes UpdateStore MailTypes MailStore MailOps MailInv MailBoxes MailSteps MailWorld MailProps MailRuns MailHistory MailHistoryProps.
Import Mail MailStore MailOps MailInv MailBoxes History HistoryProps.

Module SavedProps.
Section props.
Context {X : Type} `{EqX : EqDecision X} `{InhX : Inhabited X}.
Abbreviation message := (Message X).
Abbreviation store := (@MessageStore X).
Implicit Types (x y : message) (ms l tops : list message) (s : store) (p : Peer).

(** ** The newest message of every sub-chat *)

Definition inSubChat u p x : Prop := MPeer x = user u ∧ SavedPeer x = p ∧ peerID p ≠ 0.
Definition newestOf u p ms x : Prop := x ∈ ms ∧ inSubChat u p x ∧ ∀ y, y ∈ ms → inSubChat u p y → ID y ≤ ID x.

Lemma Ascending_snoc ms x : Ascending (ms ++ [x]) → Ascending ms ∧ ∀ y, y ∈ ms → ID y < ID x.
Proof.
  unfold Ascending. rewrite map_app. intros HS. apply StronglySorted_app in HS as (H1 & H2 & _). split; [done|].
  intros y Hy. apply H1; [by apply list_elem_of_fmap_2|simpl; set_solver].
Qed.
Lemma newestOf_skip u p ms x z : ¬ inSubChat u p z → newestOf u p (ms ++ [z]) x ↔ newestOf u p ms x.
Proof.
  intros Hz. unfold newestOf. split; intros (Hx & Hs & HM).
  - apply elem_of_app in Hx as [Hx|Hx]; [|by apply list_elem_of_singleton in Hx as ->]. split_and!; [done|done|]. intros y Hy. apply HM. apply elem_of_app. by left.
  - split_and!; [apply elem_of_app; by left|done|]. intros y Hy Hsy. apply HM; [|done]. apply elem_of_app in Hy as [Hy|Hy]; [done|].
    by apply list_elem_of_singleton in Hy as ->.
Qed.
Lemma savedTops_spec u ms p x : Ascending ms → savedTops u ms !! p = Some x ↔ newestOf u p ms x.
Proof.
  revert p x. induction ms as [|z ms IH] using rev_ind; intros p x HA.
  { unfold savedTops, newestOf. simpl. rewrite lookup_empty. set_solver. }
  apply Ascending_snoc in HA as [HA Hz]. unfold savedTops. rewrite foldl_app. simpl. fold (savedTops u ms).
  destruct (decide (MPeer z = user u ∧ peerID (SavedPeer z) ≠ 0)) as [[E1 E2]|Hn].
  - rewrite (bool_decide_eq_true_2 (MPeer z = user u)), (bool_decide_eq_false_2 (peerID (SavedPeer z) = 0)) by done. simpl.
    assert (E : (match savedTops u ms !! SavedPeer z with
             | Some cur => if bool_decide (ID z > ID cur) then <[SavedPeer z := z]> (savedTops u ms) else savedTops u ms
             | None => <[SavedPeer z := z]> (savedTops u ms) end) = <[SavedPeer z := z]> (savedTops u ms)).
    { destruct (savedTops u ms !! SavedPeer z) as [cur|] eqn:Hc; [|done]. apply IH in Hc as [Hc _]; [|done].
      rewrite bool_decide_eq_true_2; [done|]. specialize (Hz cur Hc). lia. }
    rewrite E. clear E. destruct (decide (SavedPeer z = p)) as [<-|Hp].
    + rewrite lookup_insert. rewrite decide_True by done. split.
      * intros [= <-]. split_and!; [apply elem_of_app; right; by apply list_elem_of_singleton|done|]. intros y [Hy| ->%list_elem_of_singleton]%elem_of_app _; [specialize (Hz y Hy)|]; lia.
      * intros ([Hx| ->%list_elem_of_singleton]%elem_of_app & _ & HM); [|done].
        specialize (HM z ltac:(apply elem_of_app; right; by apply list_elem_of_singleton) ltac:(done)). specialize (Hz x Hx). lia.
    + rewrite lookup_insert_ne by done. rewrite IH by done. symmetry. apply newestOf_skip. by intros (_ & E & _).
  - assert (E : negb (bool_decide (MPeer z = user u)) || bool_decide (peerID (SavedPeer z) = 0) = true).
    { rewrite orb_true_iff, negb_true_iff, bool_decide_eq_false, bool_decide_eq_true. destruct (decide (MPeer z = user u)); [|by left]. right. apply dec_stable. tauto. }
    rewrite E. rewrite IH by done. symmetry. apply newestOf_skip. intros (Hm & <- & Hi). by apply Hn.
Qed.

(** ** The list of them *)

Lemma elem_tops u s x : Ascending (boxOf s u) → x ∈ savedDialogTopsLocked u s ↔ newestOf u (SavedPeer x) (boxOf s u) x.
Proof.
  intros HA. unfold savedDialogTopsLocked, sortDesc. rewrite merge_sort_Permutation, <-(savedTops_spec u (boxOf s u) (SavedPeer x) x HA). split.
  - intros ([q y] & -> & Hy%elem_of_map_to_list)%list_elem_of_fmap. simpl. pose proof Hy as (_ & (_ & -> & _) & _)%savedTops_spec; [exact Hy|done].
  - intros Hx%elem_of_map_to_list. apply list_elem_of_fmap. by exists (SavedPeer x, x).
Qed.
Lemma tops_distinct u s : Ascending (boxOf s u) → NoDup (map SavedPeer (savedDialogTopsLocked u s)).
Proof.
  intros HA. unfold savedDialogTopsLocked, sortDesc. rewrite merge_sort_Permutation.
  replace (map SavedPeer (map snd (map_to_list (savedTops u (boxOf s u))))) with (map fst (map_to_list (savedTops u (boxOf s u)))); [apply NoDup_fst_map_to_list|].
  rewrite map_map. apply map_ext_in. intros [q y] Hy%list_elem_of_In%elem_of_map_to_list. simpl. symmetry. by apply savedTops_spec in Hy as (_ & (_ & ? & _) & _).
Qed.
Lemma Ascending_inj ms x y : Ascending ms → x ∈ ms → y ∈ ms → ID x = ID y → x = y.
Proof.
  unfold Ascending. induction ms as [|z ms IH]; [set_solver|]. simpl. intros [HS HF]%StronglySorted_inv Hx Hy E. rewrite Forall_forall in HF.
  apply elem_of_cons in Hx as [->|Hx], Hy as [->|Hy]; [done| | |by apply IH].
  - specialize (HF (ID y) ltac:(by apply list_elem_of_fmap_2)). lia.
  - specialize (HF (ID x) ltac:(by apply list_elem_of_fmap_2)). lia.
Qed.
Lemma Descending_sorted l :
  StronglySorted byIDDesc l → NoDup l → (∀ x y, x ∈ l → y ∈ l → ID x = ID y → x = y) → Descending l.
Proof.
  intros HS HN HI. induction HS as [|x l HS IH HF]; [constructor|]. apply NoDup_cons in HN as [Hx HN]. constructor.
  - apply IH; [done|]. intros a b Ha Hb. apply HI; by right.
  - apply Forall_forall. intros y Hy. rewrite Forall_forall in HF. specialize (HF y Hy). unfold byIDDesc in HF.
    destruct (decide (ID x = ID y)) as [E|]; [|lia]. apply HI in E; [by subst|by left|by right].
Qed.
Lemma tops_descending u s : Ascending (boxOf s u) → Descending (savedDialogTopsLocked u s).
Proof.
  intros HA. apply Descending_sorted.
  - unfold savedDialogTopsLocked, sortDesc. apply StronglySorted_merge_sort; [apply byIDDesc_trans|apply byIDDesc_total].
  - apply (NoDup_fmap_1 SavedPeer). by apply tops_distinct.
  - intros x y (Hx & _)%elem_tops (Hy & _)%elem_tops; [|done..]. by apply Ascending_inj with (boxOf s u).
Qed.
Lemma topByPeer_spec tops p x : NoDup (map SavedPeer tops) → topByPeer tops !! p = Some x ↔ x ∈ tops ∧ SavedPeer x = p.
Proof.
  induction tops as [|z tops IH] using rev_ind; intros HN; unfold topByPeer; [simpl; rewrite lookup_empty; set_solver|].
  rewrite map_app in HN. apply NoDup_app in HN as (HN & Hz & _). rewrite foldl_app. simpl. fold (topByPeer tops). rewrite elem_of_app, list_elem_of_singleton.
  assert (Hf : ∀ y, y ∈ tops → SavedPeer y ≠ SavedPeer z).
  { intros y Hy E. apply (Hz (SavedPeer y)); [by apply list_elem_of_fmap_2|]. rewrite E. simpl. by left. }
  destruct (decide (SavedPeer z = p)) as [<-|Hp].
  - rewrite lookup_insert, decide_True by done. naive_solver.
  - rewrite lookup_insert_ne, IH by done. naive_solver.
Qed.

(** ** The blocks of a page *)

Lemma pinBlock_take (by_ : gmap Peer message) n pins : pinBlock by_ n pins = take n (omap (λ p, by_ !! p) pins).
Proof.
  revert n. induction pins as [|p pins IH]; intros n; [by destruct n|]. destruct n as [|n]; [done|]. simpl. destruct (by_ !! p); simpl; [by rewrite IH|apply IH].
Qed.
Definition remaining (pinned : Peer → bool) (firstPage : bool) (offsetID : Z) tops : list message :=
  filter (λ x, pinned (SavedPeer x) = false ∧ (firstPage = true ∨ ID x < offsetID)) tops.
Lemma normalBlock_take pinned firstPage offsetID n tops :
  normalBlock pinned firstPage offsetID n tops =
  (take n (remaining pinned firstPage offsetID tops), bool_decide (n < length (remaining pinned firstPage offsetID tops))%nat).
Proof.
  unfold remaining. revert n. induction tops as [|x tops IH]; intros n; [rewrite filter_nil, take_nil, bool_decide_eq_false_2; [done|simpl; lia]|].
  set (keep := pinned (SavedPeer x) = false ∧ (firstPage = true ∨ ID x < offsetID)).
  assert (HK : bool_decide keep = negb (pinned (SavedPeer x)) && (firstPage || bool_decide (ID x < offsetID))).
  { apply Bool.eq_iff_eq_true. rewrite bool_decide_eq_true, andb_true_iff, orb_true_iff, negb_true_iff, bool_decide_eq_true. done. }
  destruct n as [|n]; simpl.
  - rewrite IH. simpl. rewrite !take_0. f_equal. rewrite <-HK. destruct (decide keep) as [Hk|Hk].
    + rewrite (bool_decide_eq_true_2 keep), filter_cons_True by done. done.
    + rewrite (bool_decide_eq_false_2 keep), filter_cons_False by done. done.
  - destruct (decide keep) as [Hk|Hk].
    + rewrite filter_cons_True by done. destruct Hk as [-> Hk].
      replace (negb firstPage && bool_decide (offsetID ≤ ID x)) with false
        by (destruct Hk as [->|Hk]; [done|]; rewrite bool_decide_eq_false_2 by lia; by rewrite andb_false_r).
      rewrite IH. simpl. f_equal. apply bool_decide_ext. lia.
    + rewrite filter_cons_False by done. rewrite (bool_decide_eq_false_2 keep) in HK by done. destruct (pinned (SavedPeer x)); [apply IH|].
      simpl in HK. symmetry in HK. apply orb_false_iff in HK as [-> HK]. apply bool_decide_eq_false in HK. rewrite bool_decide_eq_true_2 by lia. apply IH.
Qed.

(** ** Paging *)

(** A client reads page after page: the offset of the next one is the top
    message of the last sub-chat, until a page says it is full. *)
Fixpoint savedPages (fuel : nat) (userID : Z) (f : SavedDialogsFilter) s : option (list SavedDialog) :=
  match fuel with
  | O => None
  | S fuel =>
    page ← ListSavedDialogs userID f s;
    if sl_Full page then Some (sl_Dialogs page)
    else d ← last (sl_Dialogs page);
         rest ← savedPages fuel userID (mkSavedFilter (ExcludePinned f) (sd_TopMessage d) (sf_Limit f)) s;
         Some (sl_Dialogs page ++ rest)
  end.

Lemma savedLimit_pos f : 1 ≤ savedLimit f ≤ 100.
Proof. unfold savedLimit, MaxSavedDialogsLimit. destruct (decide (sf_Limit f ≤ 0)), (decide (sf_Limit f > 100)); repeat case_bool_decide; simpl; lia. Qed.
Lemma remaining_after pinned tops A a B :
  Descending tops → remaining pinned true 0 tops = A ++ a :: B → remaining pinned false (ID a) tops = B.
Proof.
  intros HD E. assert (HR : remaining pinned false (ID a) tops = filter (λ x, ID x < ID a) (remaining pinned true 0 tops)).
  { unfold remaining. rewrite list_filter_filter. apply list_filter_iff. naive_solver. }
  assert (HD' : Descending (A ++ a :: B)) by (rewrite <-E; by apply Descending_filter).
  rewrite HR, E. apply StronglySorted_app in HD' as (HA & _ & [_ HB]%StronglySorted_inv). rewrite filter_app, filter_cons_False by lia.
  rewrite list_filter_nil, list_filter_id; [done|..].
  - by apply Forall_forall.
  - intros x Hx. specialize (HA x a Hx ltac:(by left)). lia.
Qed.
Lemma last_row (l : list message) n : (0 < n)%nat → (n < length l)%nat → ∃ A a B, l = A ++ a :: B ∧ take n l = A ++ [a] ∧ drop n l = B.
Proof.
  intros Hn Hl. destruct (lookup_lt_is_Some_2 l (n - 1)) as [a Ha]; [lia|]. exists (take (n - 1) l), a, (drop n l).
  pose proof (take_drop_middle l (n - 1) a Ha) as E. replace (S (n - 1)) with n in E by lia. split_and!; [done| |done].
  rewrite <-(take_S_r l (n - 1) a Ha). by replace (S (n - 1)) with n by lia.
Qed.
(** A later page, and all that follow. *)
Lemma later_pages fuel u ep lim s A a B :
  u ≠ 0 → Ascending (boxOf s u) → (∀ x, x ∈ boxOf s u → 0 < ID x < MaxMessageBoxID) →
  remaining (isSavedPin s u) true 0 (savedDialogTopsLocked u s) = A ++ a :: B → (length B < fuel)%nat →
  savedPages fuel u (mkSavedFilter ep (ID a) lim) s = Some (map (λ x, savedRow x false) B).
Proof.
  intros Hu HA Hid. revert A a B. induction fuel as [|fuel IH]; intros A a B HR Hf; [lia|].
  assert (Hin : ∀ x, x ∈ A ++ a :: B → 0 < ID x < MaxMessageBoxID).
  { intros x Hx. rewrite <-HR in Hx. apply list_elem_of_filter in Hx as [_ (Hx & _)%elem_tops]; [|done]. by apply Hid. }
  pose proof (savedLimit_pos (mkSavedFilter ep (ID a) lim)) as Hlim. set (n := Z.to_nat (savedLimit (mkSavedFilter ep (ID a) lim))) in *.
  assert (Ha : 0 < ID a < MaxMessageBoxID) by (apply Hin; set_solver). simpl. unfold ListSavedDialogs. rewrite (bool_decide_eq_false_2 _ Hu).
  cbn [sf_OffsetID ExcludePinned sf_Limit]. rewrite (bool_decide_eq_false_2 (ID a ≤ 0)), (bool_decide_eq_false_2 (MaxMessageBoxID ≤ ID a)) by lia.
  cbn [orb andb]. fold n. cbn [length]. rewrite Nat.sub_0_r, normalBlock_take. rewrite (remaining_after _ _ A a B (tops_descending u s HA) HR). cbn [mbind option_bind sl_Full sl_Dialogs map app].
  destruct (decide (n < length B)%nat) as [Hn|Hn]; [rewrite bool_decide_eq_true_2 by done|rewrite bool_decide_eq_false_2 by done]; cbn [negb].
  - destruct (last_row B n) as (A' & b & B' & E1 & E2 & E3); [lia|done|]. rewrite E2, map_app. cbn [map]. rewrite last_snoc. cbn [mbind option_bind sd_TopMessage savedRow].
    rewrite (IH (A ++ a :: A') b B'); [|rewrite HR, E1, <-app_assoc; done|rewrite E1, length_app in Hf; simpl in Hf; lia]. cbn [mbind option_bind].
    rewrite E1, map_app. by rewrite <-app_assoc.
  - by rewrite take_ge by lia.
Qed.
Lemma omap_length_le {A B} (g : A → option B) (l : list A) : (length (omap g l) ≤ length l)%nat.
Proof. induction l as [|a l IH]; simpl; [lia|]. destruct (g a); simpl; [apply le_n_S|apply le_S]; exact IH. Qed.
Definition livePins u s : list message := omap (λ p, topByPeer (savedDialogTopsLocked u s) !! p) (pinsOf s u).
Definition unpinned u s : list message := remaining (isSavedPin s u) true 0 (savedDialogTopsLocked u s).
Lemma all_pages u lim s :
  u ≠ 0 → Ascending (boxOf s u) → (∀ x, x ∈ boxOf s u → 0 < ID x < MaxMessageBoxID) → len (pinsOf s u) < savedLimit (mkSavedFilter false 0 lim) →
  savedPages (S (length (savedDialogTopsLocked u s))) u (mkSavedFilter false 0 lim) s =
  Some (map (λ x, savedRow x true) (livePins u s) ++ map (λ x, savedRow x false) (unpinned u s)).
Proof.
  intros Hu HA Hid Hp. assert (HP : (length (livePins u s) ≤ length (pinsOf s u))%nat) by (unfold livePins; apply omap_length_le).
  assert (HN : (length (unpinned u s) ≤ length (savedDialogTopsLocked u s))%nat) by apply length_filter.
  unfold len in Hp. set (n := Z.to_nat (savedLimit (mkSavedFilter false 0 lim))). cbn [savedPages]. unfold ListSavedDialogs. rewrite (bool_decide_eq_false_2 _ Hu).
  cbn [sf_OffsetID ExcludePinned sf_Limit]. change (bool_decide (0 ≤ 0)) with true. cbn [orb andb negb]. fold n.
  rewrite pinBlock_take. fold (livePins u s). rewrite (take_ge (livePins u s)), normalBlock_take by lia. fold (unpinned u s). cbn [mbind option_bind sl_Full sl_Dialogs].
  set (k := (n - length (livePins u s))%nat).
  destruct (decide (k < length (unpinned u s))%nat) as [Hn|Hn]; [rewrite bool_decide_eq_true_2 by done|rewrite bool_decide_eq_false_2 by done]; cbn [negb].
  - destruct (last_row (unpinned u s) k) as (A & a & B & E1 & E2 & E3); [lia|done|]. rewrite E2, map_app. cbn [map]. rewrite app_assoc, last_snoc. cbn [mbind option_bind sd_TopMessage savedRow].
    rewrite (later_pages _ u false lim s A a B); [|done..|rewrite E1, length_app in HN; simpl in HN; lia]. cbn [mbind option_bind].
    rewrite E1, map_app. by rewrite <-!app_assoc.
  - by rewrite take_ge by lia.
Qed.

(** ** Completeness *)

Lemma elem_livePins u s x :
  Ascending (boxOf s u) → x ∈ livePins u s ↔ newestOf u (SavedPeer x) (boxOf s u) x ∧ isSavedPin s u (SavedPeer x) = true.
Proof.
  intros HA. unfold livePins, isSavedPin. rewrite list_elem_of_omap, bool_decide_eq_true, <-elem_tops by done. split.
  - intros (p & Hp & [Hx <-]%topByPeer_spec); [done|by apply tops_distinct].
  - intros [Hx Hp]. exists (SavedPeer x). split; [done|]. apply topByPeer_spec; [by apply tops_distinct|done].
Qed.
Lemma elem_unpinned u s x :
  Ascending (boxOf s u) → x ∈ unpinned u s ↔ newestOf u (SavedPeer x) (boxOf s u) x ∧ isSavedPin s u (SavedPeer x) = false.
Proof. intros HA. unfold unpinned, remaining. rewrite list_elem_of_filter, elem_tops by done. naive_solver. Qed.
Lemma livePins_distinct u s : Ascending (boxOf s u) → NoDup (pinsOf s u) → NoDup (map SavedPeer (livePins u s)).
Proof.
  intros HA. unfold livePins. induction (pinsOf s u) as [|p ps IH]; [constructor|]. intros [Hp HN]%NoDup_cons. simpl.
  destruct (topByPeer (savedDialogTopsLocked u s) !! p) as [x|] eqn:E; [|by apply IH]. simpl. apply topByPeer_spec in E as [_ <-]; [|by apply tops_distinct].
  constructor; [|by apply IH]. intros (y & Ey & (q & Hq & [_ <-]%topByPeer_spec)%list_elem_of_omap)%list_elem_of_fmap; [|by apply tops_distinct]. congruence.
Qed.
Lemma sublist_distinct (P : message → Prop) `{!∀ x, Decision (P x)} l : NoDup (map SavedPeer l) → NoDup (map SavedPeer (filter P l)).
Proof. intros HN. eapply sublist_NoDup; [exact HN|]. apply sublist_map, sublist_filter. Qed.

(** C33: A client that pages from the newest sub-chat to a full page, with fewer pins
    than a page holds, terminates and has every sub-chat of Saved Messages
    exactly once, with its newest message and its pin, pins first. *)
Theorem saved_dialogs_complete u lim s :
  u ≠ 0 → WF s → nextBoxOf s u < MaxMessageBoxID → NoDup (pinsOf s u) → len (pinsOf s u) < savedLimit (mkSavedFilter false 0 lim) →
  ∃ ds, savedPages (S (length (savedDialogTopsLocked u s))) u (mkSavedFilter false 0 lim) s = Some ds ∧
    NoDup (map sd_Peer ds) ∧
    ∀ d, d ∈ ds ↔ sd_Pinned d = isSavedPin s u (sd_Peer d) ∧ ∃ x, newestOf u (sd_Peer d) (boxOf s u) x ∧ sd_TopMessage d = ID x.
Proof.
  intros Hu HW Hb HN Hp. pose proof (wf_box _ HW u) as HB. pose proof (box_sorted _ _ _ _ HB : Ascending (boxOf s u)) as HA.
  eexists. split; [apply all_pages; [done|done| |done]; intros x Hx; pose proof (box_rows _ _ _ _ HB x Hx); lia|]. split.
  - rewrite map_app, !map_map. cbn [sd_Peer savedRow]. apply NoDup_app. split_and!; [by apply livePins_distinct| |by apply sublist_distinct, tops_distinct].
    intros p (x & -> & Hx)%list_elem_of_fmap (y & Ey & Hy)%list_elem_of_fmap. apply elem_livePins in Hx as [_ Hx]; [|done]. apply elem_unpinned in Hy as [_ Hy]; [|done]. congruence.
  - intros [p t pin]. rewrite elem_of_app, !list_elem_of_fmap. cbn [sd_Peer sd_Pinned sd_TopMessage]. split.
    + intros [(x & [= -> -> ->] & Hx)|(x & [= -> -> ->] & Hx)]; [apply elem_livePins in Hx as [Hx Hpin]|apply elem_unpinned in Hx as [Hx Hpin]]; [|done|..|done]; rewrite Hpin; eauto.
    + intros (-> & x & Hx & ->). pose proof Hx as (_ & (_ & <- & _) & _). destruct (isSavedPin s u (SavedPeer x)) eqn:E; [left|right]; exists x; (split; [done|]).
      * by apply elem_livePins.
      * by apply elem_unpinned.
Qed.

(** ** Pins *)

Lemma elem_distinctPeers seen ps p : p ∈ distinctPeers seen ps ↔ p ∈ ps ∧ p ∉ seen ∧ peerType p ≠ PeerTypeNone ∧ peerID p ≠ 0.
Proof.
  revert seen. induction ps as [|q ps IH]; intros seen; [set_solver|]. simpl.
  destruct (decide (peerType q = PeerTypeNone ∨ peerID q = 0 ∨ q ∈ seen)) as [H|H].
  - replace (bool_decide (peerType q = PeerTypeNone) || bool_decide (peerID q = 0) || bool_decide (q ∈ seen)) with true
      by (symmetry; rewrite !orb_true_iff, !bool_decide_eq_true; tauto). rewrite IH, elem_of_cons. naive_solver.
  - replace (bool_decide (peerType q = PeerTypeNone) || bool_decide (peerID q = 0) || bool_decide (q ∈ seen)) with false
      by (symmetry; rewrite !orb_false_iff, !bool_decide_eq_false; tauto). rewrite !elem_of_cons, IH, not_elem_of_cons. destruct (decide (p = q)); naive_solver.
Qed.
Lemma NoDup_distinctPeers seen ps : NoDup (distinctPeers seen ps).
Proof.
  revert seen. induction ps as [|q ps IH]; intros seen; [constructor|]. simpl.
  destruct (bool_decide (peerType q = PeerTypeNone) || bool_decide (peerID q = 0) || bool_decide (q ∈ seen)); [apply IH|].
  constructor; [|apply IH]. rewrite elem_distinctPeers. set_solver.
Qed.
Lemma pinsOf_putPins u u' pins s : pinsOf (putPins u pins s) u' = if decide (u' = u) then pins else pinsOf s u'.
Proof.
  unfold pinsOf, putPins. simpl. destruct (decide (u' = u)) as [->|]; [by rewrite lookup_insert, decide_True|by rewrite lookup_insert_ne].
Qed.
Lemma filter_ne_cut (l : list Peer) i p :
  NoDup l → l !! i = Some p → take i l ++ drop (S i) l = filter (λ q, q ≠ p) l.
Proof.
  intros HN Hi. pose proof (take_drop_middle l i p Hi) as E. rewrite <-E in HN. apply NoDup_app in HN as (_ & H1 & [H2 _]%NoDup_cons).
  rewrite <-E at 3. rewrite filter_app, filter_cons_False by naive_solver. rewrite !list_filter_id; [done|by intros q Hq ->|].
  intros q Hq ->. apply (H1 p Hq). by left.
Qed.
Lemma filter_idem (l : list Peer) p : filter (λ q, q ≠ p) (filter (λ q, q ≠ p) l) = filter (λ q, q ≠ p) l.
Proof. apply list_filter_id. by intros q [Hq _]%list_elem_of_filter. Qed.

(** What a pin switch does: nothing but adding the sub-chat in front or taking
    it out; the answer says whether something changed. *)
Theorem toggle_pin_exact u p pinned s :
  NoDup (pinsOf s u) →
  let '(s', r) := ToggleSavedDialogPin u p pinned s in
  NoDup (pinsOf s' u) ∧ (∀ v, v ≠ u → pinsOf s' v = pinsOf s v) ∧
  match r with
  | inl ErrSavedInput => s' = s ∧ (u = 0 ∨ peerType p = PeerTypeNone ∨ peerID p = 0)
  | inl ErrPinnedSavedDialogsTooMuch => s' = s ∧ pinned = true ∧ p ∉ pinsOf s u ∧ MaxPinnedSavedDialogs ≤ len (pinsOf s u)
  | inr changed =>
    pinsOf s' u = (if pinned && changed then [p] else []) ++ (if changed then filter (λ q, q ≠ p) (pinsOf s u) else pinsOf s u) ∧
    (p ∈ pinsOf s' u ↔ pinned = true) ∧ (changed = true ↔ (pinned = true ↔ p ∉ pinsOf s u))
  end.
Proof.
  intros HN. unfold ToggleSavedDialogPin.
  destruct (bool_decide (u = 0) || bool_decide (peerType p = PeerTypeNone) || bool_decide (peerID p = 0)) eqn:E.
  { split_and!; [done|done|done|]. rewrite !orb_true_iff, !bool_decide_eq_true in E. tauto. }
  destruct (list_find (λ q, q = p) (pinsOf s u)) as [[i q]|] eqn:F.
  - apply list_find_Some in F as (Hi & -> & _). assert (Hp : p ∈ pinsOf s u) by (by apply list_elem_of_lookup_2 in Hi). destruct pinned.
    + split_and!; [done|done|done|done|]. split; [done|]. intros [H _]. by destruct (H eq_refl).
    + rewrite (filter_ne_cut _ i p) by done. rewrite pinsOf_putPins, decide_True by done. split_and!.
      * by apply NoDup_filter.
      * intros v Hv. by rewrite pinsOf_putPins, decide_False.
      * done.
      * rewrite list_elem_of_filter. naive_solver.
      * split; [|done]. intros _. split; [done|]. by intros H.
  - apply list_find_None in F. assert (Hp : p ∉ pinsOf s u) by (intros Hp; rewrite Forall_forall in F; by apply (F p)). destruct pinned; simpl.
    + destruct (decide (MaxPinnedSavedDialogs ≤ len (pinsOf s u))) as [Hm|Hm]; [rewrite (bool_decide_eq_true_2 _ Hm); by split_and!|rewrite (bool_decide_eq_false_2 _ Hm)]. rewrite pinsOf_putPins, decide_True by done. split_and!.
      * by constructor.
      * intros v Hv. by rewrite pinsOf_putPins, decide_False.
      * by rewrite list_filter_id by (intros q Hq ->; done).
      * split; [done|]. intros _. by left.
      * done.
    + split_and!; [done|done|done|split; [done|by intros]|]. split; [done|]. intros [_ H]. by specialize (H Hp).
Qed.
(** What a reordering does: the valid peers of the order once each, and after
    them, unless forced, the other pins as they were. *)
Theorem reorder_pins_exact u order force s :
  NoDup (pinsOf s u) →
  let '(s', r) := ReorderPinnedSavedDialogs u order force s in
  NoDup (pinsOf s' u) ∧ (∀ v, v ≠ u → pinsOf s' v = pinsOf s v) ∧
  match r with
  | inl _ => s' = s
  | inr _ => ∀ p, p ∈ pinsOf s' u ↔ (p ∈ order ∧ peerType p ≠ PeerTypeNone ∧ peerID p ≠ 0) ∨ (force = false ∧ p ∈ pinsOf s u)
  end.
Proof.
  intros HN. unfold ReorderPinnedSavedDialogs. case_bool_decide as H0; [done|]. case_bool_decide as H1; [done|]. rewrite pinsOf_putPins, decide_True by done.
  split_and!; [|intros v Hv; by rewrite pinsOf_putPins, decide_False|].
  - destruct force; [apply NoDup_distinctPeers|]. apply NoDup_app. split_and!; [apply NoDup_distinctPeers| |by apply NoDup_filter].
    intros q Hq [Hq' _]%list_elem_of_filter. done.
  - intros p. destruct force; [rewrite elem_distinctPeers; set_solver|]. rewrite elem_of_app, list_elem_of_filter, elem_distinctPeers. split; [naive_solver|].
    intros [H|[_ H]]; [left; set_solver|]. destruct (decide (p ∈ distinctPeers [] order)) as [Hd|Hd]; [|rewrite elem_distinctPeers in Hd; by right].
    left. by rewrite elem_distinctPeers in Hd.
Qed.
Lemma putPins_WF u pins s : WF s → WF (putPins u pins s).
Proof. by intros []. Qed.
End props.
End SavedProps.

(** ** Concrete runs *)

Module SavedRuns.
Import MailSteps MailWorld MailProps SavedProps MailRuns.

(** No reactions. *)
#[export] Instance no_reactions : ReactionView unit := {| AsTags _ := false; resultKeys _ := []; reactionKey _ := []; reactionBytes _ := [] |}.

(** Account 1 forwards to himself a message of account [from]. *)
Definition forwardFrom (from rid : Z) : @SendPrivateTextRequest unit :=
  mkSend 1 1 rid [104] [] None false false None (Some (mkForward (user from) [] 3 0 (user from) 1)) 5 0 0 0 false [] 0 0 0 0 None None.
Definition forwards : list (@op unit) := [OpSend 5 (forwardFrom 2 71); OpSend 5 (forwardFrom 3 72); OpSend 5 (forwardFrom 4 73); OpSend 5 (forwardFrom 2 74)].
Definition saved : store := reached demo (Some ∅) forwards.
Definition pin (p : Peer) (s : store) : store := (ToggleSavedDialogPin 1 p true s).1.

(** ** Defects *)

(** With as many pins as a page holds, the offset of the second page is the top
    message of a pin, and the newer sub-chats never come. *)
Lemma pin_page_hides_sub_chats :
  map SavedPeer (savedDialogTopsLocked 1 saved) = [user 2; user 4; user 3] ∧
  savedPages 4 1 (mkSavedFilter false 0 1) (pin (user 3) saved) = Some [mkSavedDialog (user 3) 2 true].
Proof. split; by vm_compute. Qed.

(** The limit of the pins holds for the order that is sent, not for what it
    leaves: an order of new peers that is not forced keeps the old pins. *)
Definition someUsers (from : Z) : list Peer := map (λ i, user (from + Z.of_nat i)) (seq 0 100).
Lemma reorder_exceeds_pin_limit :
  let s1 := (ReorderPinnedSavedDialogs 1 (someUsers 1000) false saved).1 in
  let s2 := ReorderPinnedSavedDialogs 1 (someUsers 2000) false s1 in
  len (pinsOf s1 1) = MaxPinnedSavedDialogs ∧ s2.2 = inr tt ∧ len (pinsOf s2.1 1) = 2 * MaxPinnedSavedDialogs ∧
  (ToggleSavedDialogPin 1 (user 3000) true s1).2 = inl ErrPinnedSavedDialogsTooMuch.
Proof. vm_compute. done. Qed.

(** ** Witnesses *)

Lemma saved_WF : WF saved.
Proof. apply reached_WF. Qed.
Lemma saved_dialogs_complete_witness :
  savedPages 4 1 (mkSavedFilter false 0 2) (pin (user 3) saved) =
    Some [mkSavedDialog (user 3) 2 true; mkSavedDialog (user 2) 4 false; mkSavedDialog (user 4) 3 false] ∧
  ∃ ds, savedPages 4 1 (mkSavedFilter false 0 2) (pin (user 3) saved) = Some ds ∧ NoDup (map sd_Peer ds).
Proof.
  split; [by vm_compute|].
  assert (E : pin (user 3) saved = putPins 1 [user 3] saved) by (by vm_compute).
  assert (W : WF (pin (user 3) saved)) by (rewrite E; apply putPins_WF, saved_WF).
  assert (L : length (savedDialogTopsLocked 1 (pin (user 3) saved)) = 3%nat) by (by vm_compute).
  assert (B : nextBoxOf (pin (user 3) saved) 1 < MaxMessageBoxID) by (by vm_compute).
  assert (P : pinsOf (pin (user 3) saved) 1 = [user 3]) by (by vm_compute).
  assert (N : NoDup (pinsOf (pin (user 3) saved) 1)) by (rewrite P; apply NoDup_singleton).
  assert (S : len (pinsOf (pin (user 3) saved) 1) < savedLimit (mkSavedFilter false 0 2)) by (by rewrite P).
  destruct (saved_dialogs_complete 1 2 (pin (user 3) saved) ltac:(done) W B N S) as (ds & Hds & Hn & _). rewrite L in Hds. exists ds. split; [exact Hds|exact Hn].
Defined.
(** A page around a date: one message from then on and one before it. *)
Definition around (date add limit : Z) : @MessageFilter unit := mkFilter true (user 2) [] 0 date 0 0 add limit 0 0 0 false false false noPeer [] [] false.
Definition box2 : list (Message unit) := boxOf (reached demo (Some ∅) chat) 1.
End SavedRuns.
